(* ===== verification/_CoqProject ===== *)
-Q . S2P
Prelude.v
Crc32.v
Codec.v
ScanRefs.v
JsMap.v
Json.v
Ordered.v
MinHeap.v
SkipList.v
Store.v
DtIndex.v
JsonText.v
IndexManager.v
CompoundIndex.v
Recovery.v
Wal.v
Compaction.v
JsString.v
JsDate.v
CronExpr.v
CronScheduler.v
MiniDb.v
Writes.v
MaxMemory.v
Trigram.v
Query.v
Postings.v
TextSearch.v
ToolScheduler.v
GitClassify.v
PermissionRules.v
Guardian.v
Permission.v
Messages.v
Projector.v
Handoff.v
ContextMemory.v
Records.v
ContextSafety.v
TurnLoop.v
Goal.v
Transcript.v
TranscriptLaws.v
TranscriptViews.v
TranscriptHistory.v
ToolCalls.v
ToolCallExamples.v
ToolCallLaws.v
ToolCallSafety.v
ToolCallOnce.v
ToolCallContext.v
JsonSyntax.v
WireNormalize.v
WireLaws.v
WireExchanges.v
Generate.v
GenerateLaws.v
EventJournal.v
SdkMultiplexer.v
WriteQueue.v
JsonRpc.v
ToolDedup.v
ToolBudget.v
Graduated.v
GraduatedLaws.v
GraduatedSession.v
GraduatedReplay.v
