(* ===== verification/Prelude.v ===== *)
(** * Verification of cloud-code: the embedded database and the agent core

    This development models five parts of the repository and proves what makes them
    correct: [packages/minidb] (an embedded key-value and document store with a
    write-ahead log, snapshots, secondary indexes and full-text search), the parts
    of [packages/agent-core] that decide what an agent does and when (which tool calls
    may run and how, which may overlap, when a scheduled task fires) and that keep its
    conversation (what is remembered, what is sent to the model, what a restart
    rebuilds, how a turn runs, when a goal is done), the request path of
    [packages/kosong] (what leaves the client, what is made of the answer's stream),
    [packages/transcript] (what a client is shown of a conversation, live and after a
    restart), and [packages/server] (how events and requests travel between the core and
    its clients).
    Every definition translates the TypeScript function whose name it carries; the
    theorems are about those definitions.

    ** Parts and how they interact

    The database, bottom up. A write is an [op] that is encoded as a frame, appended
    to the log and applied to the store and to every index; reopening the directory
    scans the snapshot and the log and replays the frames.

    - Crc32.v: [crc32.ts], the table-driven checksum with 32-bit signed operators.
    - Codec.v: [codec.ts], frames and batches: encoding, validation, reading one frame,
      parsing a buffer in strict or resynchronising mode.
    - ScanRefs.v: [codec.ts], the scanner recovery uses on an open file; it checksums
      and searches in chunks and leaves the values in the file.
    - JsMap.v, JsString.v, Json.v, JsonText.v: the language's [Map] (ordered, one entry
      per key), strings of UTF-16 code units, JSON values and their canonical text.
    - Ordered.v: the interface [OrderedIndex] between an ordered index and its clients,
      with the laws [OrderedIndexLaws]; the reference implementation is a sorted list.
    - SkipList.v: [skiplist.ts] at pointer level (forward pointers with spans, backward
      pointers, levels drawn from a stream); an instance of the interface.
    - MinHeap.v, Store.v: [store.ts], records with expiry, the key order, the heap of
      expiry times, counters and the incremental expiry tick.
    - DtIndex.v, IndexManager.v, CompoundIndex.v: [dt-index.ts], [index-manager.ts],
      [compound-index.ts], the derived indexes, each with a representation predicate
      that ties it to the documents it indexes.
    - Recovery.v: [recovery.ts], replay of snapshot and log, and a replica's catch-up.
    - Wal.v: [wal.ts], the append queue, its batches, short writes, sealing and closing.
    - Compaction.v: [compaction.ts] and the rotation in [index.ts]: the fuzzy snapshot
      taken while writers run, copying the tail, the two renames, pointer remapping.
    - MiniDb.v, Writes.v, MaxMemory.v: the write path of [index.ts]: applying an
      operation everywhere, rolling it back when its log write fails, publishing disk
      pointers, reaping, batches, catching up, and eviction under a memory limit.
    - Trigram.v, Query.v, Postings.v, TextSearch.v: [trigram.ts], [query.ts],
      [text-postings.ts], [text-index.ts], literal and full-text search. MiniDb.v uses
      text indexes through the interface [TextIndex]; TextSearch.v gives the instance.

    The agent core:

    - JsDate.v: the arithmetic of the language's [Date] over a time zone.
    - CronExpr.v, CronScheduler.v: [tools/cron/cron-expr.ts], [jitter.ts] and
      [scheduler.ts]: parsing, the next run, and the ticks that deliver runs.
    - ToolScheduler.v: [loop/tool-access.ts] and [loop/tool-scheduler.ts], which calls
      of one model step may overlap and in which order they start.
    - GitClassify.v: [tools/support/shell-ast/git-classify.ts], the risk of a git call.
    - PermissionRules.v: [agent/permission/matches-rule.ts] and [glob-cache.ts].
    - Guardian.v: [agent/guardian/circuit-breaker.ts].
    - Permission.v: [agent/permission/index.ts] and the policies of
      [agent/permission/policies/] in the order [policies/index.ts] gives them; it uses
      the classifier, the rules and the breaker.

    The agent's conversation. A session appends messages and the events of the model's
    steps to the context and logs a record of each; a request is the projection of the
    history; compaction replaces the history by a selection and a summary; a restart
    replays the records.

    - Messages.v: [kosong/src/message.ts], [context/types.ts] and [utils/tokens.ts], the
      messages with their origins and the token estimates.
    - Projector.v: [context/projector.ts] and [tool-result-render.ts], the list of
      messages sent to the provider: rendering, merging, the repair of call and result
      adjacency, the strict resend, degraded and stripped media.
    - Handoff.v: [compaction/handoff.ts], which user messages a compaction keeps.
    - ContextMemory.v: [context/index.ts], the history with its open steps, open calls
      and waiting messages, and every operation on it; each logs its record.
    - Records.v: [records/index.ts] and [swarm/index.ts], restoring a record and
      replaying a log; a session is any list of operations.
    - ContextSafety.v: the invariant of sessions, proved over the operations of
      ContextMemory.v against the projection of Projector.v.
    - ToolBudget.v: [agent/turn/tool-result-budget.ts], the preview that replaces a tool
      result that is too long.
    - Graduated.v: [compaction/graduated.ts], [compaction/strategy.ts],
      [context/dynamic-tools.ts] and [project] of [context/index.ts], the layers that
      rewrite old results, clear them or drain the oldest rounds, and the view of the
      history a request is made from. GraduatedLaws.v: what a layer does to a request;
      GraduatedSession.v: sessions drive the layers through their effects;
      GraduatedReplay.v: sessions with layers, their log and its replay.
    - TurnLoop.v: [loop/run-turn.ts], [loop/turn-step.ts], [loop/retry.ts], the loop of
      steps of one turn with its retries, resends, limits and events, over an abstract
      host; of a step's streaming runner it keeps the calls offered to it, the rest is
      ToolCalls.v.
    - Goal.v: [agent/goal/], the goal of an agent: lifecycle, budgets, evidence ledger,
      completion gate, records and replay.
    - ToolCalls.v: [loop/tool-call.ts], the calls of one response: their ids, hooks,
      authorization, the runner that prepares calls while the response arrives, the
      batch and the interrupted response, in a monad over an abstract host.
      ToolCallExamples.v runs it; ToolCallLaws.v, ToolCallSafety.v and ToolCallOnce.v
      are its theorems, each with its own triples; ToolCallContext.v feeds the events
      to ContextMemory.v as [loop/events.ts] does.
    - ToolDedup.v: [agent/turn/tool-dedup.ts] and [canonical-args.ts], the hooks of a
      batch that share one result among equal calls of a step and count repeated calls
      over a turn.

    The request path. [generate] normalizes the projected history, calls the provider
    and assembles the streamed parts to a message; it reports the calls to the runner of
    ToolCalls.v while the stream still runs.

    - JsonSyntax.v: which texts [JSON.parse] accepts, as an automaton over code units.
    - WireNormalize.v: [kosong/src/normalize.ts], the repair of the arguments of calls
      and of the adjacency of calls and results. WireLaws.v: what the repair of the
      arguments gives back; WireExchanges.v: what the repair of the messages ensures.
    - Generate.v: [kosong/src/generate.ts] and [mergeInPlace] of [message.ts], the loop
      over the stream with its routing of argument parts, its early reports and its
      errors. GenerateLaws.v: the loop against a direct assembly of the stream.

    The transcript. A store applies operations to the state of an agent and hands
    them, filtered by grade, to subscribers; a cold start rebuilds the state from the
    records.

    - Transcript.v: [transcript/src/ops/], [store/], [granularity/], [pagination/].
      TranscriptLaws.v: the invariant, convergence of offset appends; TranscriptViews.v:
      grades, pages, snapshots.
    - TranscriptHistory.v: [history/groupTurns.ts] and [history/foldFacts.ts].

    The server. The multiplexer subscribes once to the core, journals each session's
    events and fans them out to the connections, each of which writes through a queue
    and speaks JSON-RPC.

    - EventJournal.v: [server/src/event-journal.ts], the ring buffer of a session's last
      events, which sessions are retained, and replay from a cursor.
    - SdkMultiplexer.v: [server/src/sdk-multiplexer.ts], subscriptions, replay and fan-out
      over the journal.
    - WriteQueue.v: [server/src/jsonrpc/write-queue.ts], one writer's queue with its bound.
    - JsonRpc.v: [jsonrpc/framing.ts], [jsonrpc/connection.ts] and the envelopes of
      [protocol/src/jsonrpc.ts]: frames out of chunks, and the two tables of requests.

    This file holds what they share: results with an error, bytes, the integer
    operators of the language, buffers and their slices, generic lemmas on lists, the
    hint database [cc] and the tactics [blen_facts] and [len_lia].

    ** What the theorems show

    - Durability: what is written is read back. Parsing inverts encoding; recovery
      replays exactly the writes of whole files and, in strict mode, drops only a torn
      last frame; the
      compaction's rotation can crash anywhere without losing a write; predicted log
      offsets are where the frames lie; corruption of a frame is detected.
    - Consistency: the skip list refines the sorted list, the store refines a map with
      expiry times, and after any interleaving of writes, failures, publications,
      expiries and catch-ups every index holds exactly the store's documents (two steps
      excepted, see [minidb_consistent]). Batches are atomic under a failing log, unless
      a record to be put back has expired. Queries are exact, and so are searches unless a
      key is deleted and set again while an index is rebuilt.
    - Control of the agent, while no hook rewrites a call: denials of the hard policies
      stand in every mode; a call runs only for one of the listed reasons; git mutations
      need a person unless the mode is yolo or the setting allows them; standing
      rules stem from approvals; interfering tool calls never overlap; the reviewer's
      breaker trips exactly at its limits.
    - Conversation: replaying a session's records rebuilds its context exactly, a fork's
      seed apart; whatever
      a session does, the strict projection of its history is a request a strict
      provider accepts, and so is that of the view the layers have rewritten; a drain cuts
      off exactly the rounds it must, the savings the layers claim are those of the view,
      and a restart arms the same view; a well-formed history is projected without
      repairs; compaction
      keeps the marked messages and both ends within the budget; the end of a turn
      answers every open call and delivers every waiting message.
    - Turns and goals: a turn's events follow the step protocol, what is done with the
      calls of a response follows from how it ended and from what was offered to the
      runner, the loop ends within the step limit, media once stripped stays stripped, retries stay in budget; a goal
      is signed off by fresh evidence only, and survives a restart.
    - Tool calls: a batch records every call once and answers it once, in order, even
      when the stream, the hooks or the tools misbehave; nothing runs unchecked, nothing
      runs twice; the conversation accepts the events and is left closed. Equal
      calls of a step get one result, the run of equal calls and of equal failures over
      the turn fixes what a call is answered, and a writing call succeeds at most twice.
    - Requests: whatever the history, only complete exchanges with parsable arguments
      leave the client; arguments cut off at any point are closed to a JSON object that
      keeps what had arrived, or is empty when a name, a number, a literal or an escape
      was cut; a well-ordered stream is assembled to what its parts spell,
      and a call reported early is the call of the final message.
    - Transcript: operations whose ids carry their ordinals keep the state well formed; a
      stream of appends, overlapping or repeated, holds the text as far as it arrived
      without a gap; a subscriber of turns sees the coarse view of the store; pages tile
      the timeline; a cold rebuild is a state the store accepts.
    - Server: the journal is the tail of everything appended; a client that reconnects
      with its cursor misses nothing that is retained, while its session is neither closed
      nor evicted by others, and is told when something is not;
      a queue writes what was accepted, once and in order; frames come out the same
      however the stream is cut; a request settles exactly once.
    - Time: cron fields mean what their terms stand for, the next run is the first
      matching minute, runs are delivered once where clocks do not change, jitter is
      bounded.

    ** Conventions, bounds and fuel

    Numbers are integers ([Z]); where the code masks, shifts or stores at a width, the
    wrap-around is written out ([to_int32], [to_uint32], [to_int64]). A [Buffer] is a
    list of bytes. [now] and clocks are arguments. Failing code returns a [result]; an
    asynchronous function is split where it awaits, and its steps may interleave with
    those of others. A loop that is not structural takes fuel, and a lemma or theorem
    shows that the fuel its caller passes is enough:

    - parsing and scanning pass one unit per byte of the input, and every turn advances;
    - walks in the skip list pass one unit per node;
    - [Wal.flush] passes the number of queued frames and bytes (theorem
      [wal_flush_drains]); copying passes one unit per byte, since a read or write
      moves at least one;
    - the cron search is bounded by the minutes of its window (a binary count run by
      [iterate_pos]; theorem [cron_search_terminates]);
    - [ToolScheduler.call_fuel] is the number of queued calls and three
      ([tool_queue_drains] shows that the call returns);
    - [TurnLoop.runTurn] takes one unit per allowed step and one more
      ([turn_terminates]); the retry loop is structural in the attempts left;
    - [ToolCalls.suffix_loop] passes one unit per id in use and one more
      ([unique_id_fresh]), [ToolCalls.await_entry] one per entry ([await_entry_finds]);
    - [WireNormalize.strip_separators] passes the length of the text and two: a turn
      drops a code unit, or fills in a value and is the last but one;
    - [JsonRpc.feed_lines] passes one unit per code unit and one more, since a turn takes
      a line off ([feed_lines_fuel]).

    ** Parameters

    What is outside the sources, or a table of the host, is an argument: the JSON
    parser and the text of a datetime record (assumed to be parsed back), the time
    zone, the outcomes of random draws, how many bytes a short read or write moves (at
    least one), [toLowerCase] and [normalize], [Math.log], the glob matcher picomatch,
    the path functions of node and pathe, the answers of people, hooks and reviewers,
    the hash of media, [JSON.stringify], the texts of reminders and summaries, and the
    host of a turn (its model calls, tool batches, hooks and clocks), the path functions,
    the digest and the file writes of saved tool results, which tools are active and the
    preview lines they ask for, the host of a
    batch (tools, hooks, dispatcher, signal, and what happens in the background while it
    waits), [JSON.parse] of arguments and frames, the stream of a provider, the identity of
    connections and of pending promises, [Number] of a string, [toISOString], and the
    identity of shared objects in the transcript. A goal operation reads the clock once.

    ** Not modelled

    - Numbers that are not integers, the limits of [Date], object properties other than
      own ones. Scores and jittered times are exact rationals where the code rounds.
    - Timers: whoever fires one calls the modelled step. File handles, locks, fsync and
      HTTP are I/O. [FrameParser] of [codec.ts] is used by tests only.
    - In disk mode the memory projection is the in-memory one. Message texts of errors
      are constructors with the values they quote.
    - In the permission chain: record writing, notifications and the memo of derived
      views.
    - In the conversation: the memo of projected messages and of estimates, fields only
      the user interface reads, the text around a compaction's summary, and the memo of
      the layers' savings. Nothing else happens while a layer's files are written. Of the
      records, those of the other components, migration and the log file.
    - In a batch: log lines, trace ids and live events; a tool returns an execution and a
      validator an answer, as their types say. In a request: the cache of verdicts on
      arguments, the timing of the stream, and trace ids. In the transcript: schemas, the roster of
      agents, the registry of views and the renderers.
    - The turn queue with its goal driver, the summarizer's requests, sessions and plans,
      which are state machines that can be modelled in the same way; the
      handshake and dispatch of the server bridge, its sockets and streams, the adapters of the model providers, tool bodies, the execution environment and the terminal application,
      which are input and output around the parts above. *)

From Stdlib Require Export ZArith Lia Sorting.Sorted.
From stdpp Require Export base numbers list list_numbers gmap sets strings.
From Stdlib Require Export Strings.Byte.

#[global] Open Scope Z_scope.

#[export] Unset Lia Cache.
#[export] Unset Nia Cache.

(** * Fallible computations *)

Inductive result (E A : Type) : Type :=
| Ok (a : A)
| Err (e : E).
Arguments Ok {E A} a.
Arguments Err {E A} e.

Declare Scope cc_scope.
Delimit Scope cc_scope with cc.
Open Scope cc_scope.

Definition rbind {E A B} (m : result E A) (k : A -> result E B) : result E B :=
  match m with
  | Ok a => k a
  | Err e => Err e
  end.

Notation "'let?' x ':=' m 'in' k" := (rbind m (fun x => k))
  (at level 10, x name, m at level 100, k at level 200) : cc_scope.
Notation "'guard!' b 'else' e ';;' k" := (if (b : bool) then k else Err e)
  (at level 10, b at level 99, e at level 99, k at level 200) : cc_scope.

(** * Bytes *)

#[global] Instance byte_eq_dec : EqDecision byte := Byte.byte_eq_dec.

Definition b2z (b : byte) : Z := Z.of_N (Byte.to_N b).
Definition z2b (z : Z) : byte :=
  match Byte.of_N (Z.to_N (z mod 256)) with
  | Some b => b
  | None => x00
  end.

Lemma b2z_range b : 0 <= b2z b < 256.
Proof. destruct b; vm_compute; split; congruence. Qed.

Lemma z2b_b2z b : z2b (b2z b) = b.
Proof. by destruct b. Qed.

Lemma of_N_some n : (n < 256)%N -> is_Some (Byte.of_N n).
Proof.
  intros H. destruct (Byte.of_N n) eqn:E; [eauto|].
  apply Byte.of_N_None_iff in E. lia.
Qed.

Lemma b2z_z2b z : b2z (z2b z) = z mod 256.
Proof.
  unfold b2z, z2b. pose proof (Z.mod_pos_bound z 256 ltac:(lia)).
  destruct (of_N_some (Z.to_N (z mod 256))) as [b Hb]; [lia|].
  rewrite Hb. apply Byte.to_of_N in Hb. rewrite Hb. lia.
Qed.

Lemma b2z_inj a b : b2z a = b2z b -> a = b.
Proof. intros H. by rewrite <- (z2b_b2z a), H, z2b_b2z. Qed.

Lemma z2b_mod z : z2b (z mod 256) = z2b z.
Proof. unfold z2b. by rewrite Z.mod_mod by lia. Qed.

(** * ECMAScript integer operators

    The bitwise operators of the language convert their operands to 32 bits;
    every one but [>>>] returns a signed 32-bit integer. *)

Definition to_uint32 (z : Z) : Z := z mod 2 ^ 32.
Definition to_int32 (z : Z) : Z :=
  let u := to_uint32 z in if u <? 2 ^ 31 then u else u - 2 ^ 32.
Definition to_int64 (z : Z) : Z :=
  let u := z mod 2 ^ 64 in if u <? 2 ^ 63 then u else u - 2 ^ 64.

Definition js_xor (a b : Z) : Z := to_int32 (Z.lxor a b).
Definition js_and (a b : Z) : Z := to_int32 (Z.land a b).
Definition js_shru (a n : Z) : Z := Z.shiftr (to_uint32 a) n.

Definition MAX_SAFE : Z := 2 ^ 53.

(** [Number(b)] for a BigInt [b]: round to nearest, ties to even, at 53 bits
    (the range of a 64-bit integer never overflows a double). *)
Definition number_of_bigint (z : Z) : Z :=
  let a := Z.abs z in
  if a <=? MAX_SAFE then z
  else
    let ulp := 2 ^ (Z.log2 a - 52) in
    let q := a / ulp in
    let r := a mod ulp in
    let q' := if 2 * r <? ulp then q
              else if ulp <? 2 * r then q + 1
              else if Z.even q then q else q + 1 in
    Z.sgn z * (q' * ulp).

Lemma number_of_bigint_safe z : Z.abs z <= MAX_SAFE -> number_of_bigint z = z.
Proof.
  intros H. unfold number_of_bigint.
  by rewrite (proj2 (Z.leb_le _ _) H).
Qed.

Lemma to_uint32_range z : 0 <= to_uint32 z < 2 ^ 32.
Proof. apply Z.mod_pos_bound. lia. Qed.

Lemma to_uint32_small z : 0 <= z < 2 ^ 32 -> to_uint32 z = z.
Proof. apply Z.mod_small. Qed.

Lemma to_uint32_int32 z : to_uint32 (to_int32 z) = to_uint32 z.
Proof.
  unfold to_int32, to_uint32. cbv zeta.
  pose proof (Z.mod_pos_bound z (2 ^ 32) ltac:(lia)).
  case_match.
  - by rewrite Z.mod_mod by lia.
  - replace (z mod 2 ^ 32 - 2 ^ 32) with (z mod 2 ^ 32 + (-1) * 2 ^ 32) by lia.
    by rewrite Z.mod_add, Z.mod_mod by lia.
Qed.

Lemma to_int32_uint32 z : to_int32 (to_uint32 z) = to_int32 z.
Proof. unfold to_int32, to_uint32. cbv zeta. by rewrite Z.mod_mod by lia. Qed.

Lemma to_int32_range z : - 2 ^ 31 <= to_int32 z < 2 ^ 31.
Proof.
  unfold to_int32. cbv zeta. pose proof (to_uint32_range z).
  destruct (Z.ltb_spec (to_uint32 z) (2 ^ 31)); lia.
Qed.

Lemma to_int64_small z : - 2 ^ 63 <= z < 2 ^ 63 -> to_int64 z = z.
Proof.
  intros H. unfold to_int64. cbv zeta.
  destruct (decide (0 <= z)).
  - rewrite Z.mod_small by lia. destruct (Z.ltb_spec z (2 ^ 63)); lia.
  - replace (z mod 2 ^ 64) with (z + 2 ^ 64).
    + destruct (Z.ltb_spec (z + 2 ^ 64) (2 ^ 63)); lia.
    + rewrite <- (Z.mod_add z 1 (2 ^ 64)) by lia. rewrite Z.mod_small; lia.
Qed.

Lemma to_int64_mod z : to_int64 (z mod 2 ^ 64) = to_int64 z.
Proof. unfold to_int64. cbv zeta. by rewrite Z.mod_mod by lia. Qed.

Lemma land_ones_mod z n : 0 <= n -> Z.land z (2 ^ n - 1) = z mod 2 ^ n.
Proof. intros. rewrite <- Z.land_ones by lia. f_equal. rewrite Z.ones_equiv. lia. Qed.

Lemma lxor_mod a b n : 0 <= n ->
  Z.lxor a b mod 2 ^ n = Z.lxor (a mod 2 ^ n) (b mod 2 ^ n).
Proof.
  intros. apply Z.bits_inj'. intros i Hi.
  rewrite Z.lxor_spec, !Z.testbit_mod_pow2 by lia. rewrite Z.lxor_spec.
  by destruct (i <? n), (Z.testbit a i), (Z.testbit b i).
Qed.

Lemma lxor_range a b n : 0 <= n -> 0 <= a < 2 ^ n -> 0 <= b < 2 ^ n ->
  0 <= Z.lxor a b < 2 ^ n.
Proof.
  intros Hn Ha Hb.
  rewrite <- (Z.mod_small a (2 ^ n)), <- (Z.mod_small b (2 ^ n)) by lia.
  rewrite <- lxor_mod by lia. apply Z.mod_pos_bound. lia.
Qed.

Lemma lxor_cancel_l a b c : Z.lxor a b = Z.lxor a c -> b = c.
Proof.
  intros H. apply (f_equal (Z.lxor a)) in H.
  by rewrite <- !Z.lxor_assoc, Z.lxor_nilpotent, !Z.lxor_0_l in H.
Qed.

(** * Buffers *)

Abbreviation buffer := (list byte).

Definition blen {A} (l : list A) : Z := Z.of_nat (length l).

(** [buf.subarray(a, b)] for [0 <= a <= b <= buf.length]. *)
Definition sub {A} (l : list A) (a b : Z) : list A :=
  take (Z.to_nat (b - a)) (drop (Z.to_nat a) l).

(** Little-endian encodings: [writeUIntLE]/[readUIntLE] of [n] bytes. *)
Fixpoint le_split (n : nat) (z : Z) : buffer :=
  match n with
  | O => []
  | S n' => z2b z :: le_split n' (z / 256)
  end.

Fixpoint le_combine (bs : buffer) : Z :=
  match bs with
  | [] => 0
  | b :: bs' => b2z b + 256 * le_combine bs'
  end.

Lemma length_le_split n z : length (le_split n z) = n.
Proof. revert z. induction n; intros; simpl; auto. Qed.

Lemma pow256_S n : 256 ^ Z.of_nat (S n) = 256 * 256 ^ Z.of_nat n.
Proof. rewrite Nat2Z.inj_succ, Z.pow_succ_r; lia. Qed.

Lemma le_combine_split n z : le_combine (le_split n z) = z mod 256 ^ Z.of_nat n.
Proof.
  revert z. induction n as [|n IH]; intros z; cbn [le_split le_combine].
  - by rewrite Z.mod_1_r.
  - rewrite IH, b2z_z2b, pow256_S.
    rewrite Z.rem_mul_r by lia. lia.
Qed.

Lemma le_combine_range bs : 0 <= le_combine bs < 256 ^ blen bs.
Proof.
  unfold blen. induction bs as [|b bs IH]; cbn [le_combine length]; [lia|].
  rewrite pow256_S. pose proof (b2z_range b). lia.
Qed.

Lemma blen_app {A} (l1 l2 : list A) : blen (l1 ++ l2) = blen l1 + blen l2.
Proof. unfold blen. rewrite length_app. lia. Qed.
Lemma blen_nonneg {A} (l : list A) : 0 <= blen l.
Proof. unfold blen. lia. Qed.
Lemma blen_le_split n z : blen (le_split n z) = Z.of_nat n.
Proof. unfold blen. by rewrite length_le_split. Qed.

(** * Automation

    The database [cc] holds the range facts of the integer operators and the
    lengths of the basic encodings; [blen_facts] puts the sign of every length that
    occurs in the goal or in a hypothesis into the context, and [len_lia] closes
    the linear goals about offsets that need them. *)

Create HintDb cc.
Create Rewrite HintDb cc.
#[export] Hint Resolve b2z_range to_uint32_range to_int32_range le_combine_range blen_nonneg : cc.
#[export] Hint Extern 1 (0 <= Z.lxor _ _ < 2 ^ 32) => apply lxor_range; [lia| |] : cc.
#[export] Hint Rewrite @blen_app blen_le_split length_le_split b2z_z2b z2b_b2z : cc.

Ltac blen_facts :=
  let pose_one l := lazymatch goal with
    | _ : 0 <= blen l |- _ => fail
    | _ => pose proof (blen_nonneg l)
    end in
  repeat match goal with
  | |- context [blen ?l] => pose_one l
  | _ : context [blen ?l] |- _ => pose_one l
  end.

Ltac len_lia := rewrite ?blen_app; blen_facts; lia.

(** Reading a slice that falls exactly on one piece of a concatenation. *)
Lemma sub_prefix {A} (l1 l2 l3 : list A) a b :
  a = blen l1 -> b = a + blen l2 -> sub (l1 ++ l2 ++ l3) a b = l2.
Proof.
  intros -> ->. unfold sub, blen.
  replace (Z.to_nat (Z.of_nat (length l1) + Z.of_nat (length l2) - Z.of_nat (length l1)))
    with (length l2) by lia.
  rewrite Nat2Z.id, drop_app_length, take_app_length. done.
Qed.

Lemma sub_drop {A} (l : list A) p a b :
  0 <= p -> 0 <= a -> sub (drop (Z.to_nat p) l) a b = sub l (p + a) (p + b).
Proof.
  intros. unfold sub. rewrite drop_drop. f_equal; [lia|]. f_equal. lia.
Qed.

Lemma sub_app_l {A} (l1 l2 : list A) a b :
  0 <= a <= b -> b <= blen l1 -> sub (l1 ++ l2) a b = sub l1 a b.
Proof.
  unfold sub, blen. intros. rewrite drop_app_le by lia.
  rewrite take_app_le; [done|]. rewrite length_drop. lia.
Qed.

Lemma blen_take {A} (l : list A) k : 0 <= k <= blen l -> blen (take (Z.to_nat k) l) = k.
Proof. unfold blen. intros. rewrite length_take. lia. Qed.

Lemma sub_from {A} (l : list A) a : 0 <= a -> sub l a (blen l) = drop (Z.to_nat a) l.
Proof. unfold sub, blen. intros. apply take_ge. rewrite length_drop. lia. Qed.

Lemma blen_sub {A} (l : list A) a b :
  0 <= a <= b -> b <= blen l -> blen (sub l a b) = b - a.
Proof. unfold sub, blen. intros. rewrite length_take, length_drop. lia. Qed.

Lemma to_int32_small_pos z : 0 <= z < 2 ^ 31 -> to_int32 z = z.
Proof.
  intros H. unfold to_int32. cbv zeta. rewrite to_uint32_small by lia.
  destruct (Z.ltb_spec z (2 ^ 31)); lia.
Qed.

(** * Lists *)

(** Two folds agree when their steps agree on the states that occur. *)
Lemma fold_left_ext_inv {A B} (P : A -> Prop) (f g : A -> B -> A) (l : list B) (a : A) :
  (forall a b, P a -> f a b = g a b) -> (forall a b, P a -> P (f a b)) ->
  P a -> fold_left f l a = fold_left g l a.
Proof.
  intros Hfg HP. revert a. induction l as [|b l IH]; intros a Ha; simpl; [done|].
  rewrite <- Hfg by done. by apply IH, HP.
Qed.

(** * Sorted lists *)

Lemma SS_filter {A} (R : A -> A -> Prop) p l : StronglySorted R l -> StronglySorted R (List.filter p l).
Proof.
  induction 1 as [|x l Hs IH Hf]; cbn; [constructor|]. destruct (p x); [|done].
  constructor; [done|]. rewrite Forall_forall in *. intros y Hy. apply Hf.
  apply list_elem_of_In, List.filter_In in Hy as [? _]. by apply list_elem_of_In.
Qed.

Lemma SS_snoc {A} (R : A -> A -> Prop) l x :
  StronglySorted R l -> Forall (fun y => R y x) l -> StronglySorted R (l ++ [x]).
Proof.
  induction 1 as [|y l Hs IH Hf]; cbn; [by repeat constructor|].
  intros [He Hl]%Forall_cons. constructor; [by apply IH|]. apply Forall_app. split; [done|by constructor].
Qed.

Lemma SS_rev {A} (R : A -> A -> Prop) l : StronglySorted R l -> StronglySorted (fun a b => R b a) (rev l).
Proof.
  induction 1 as [|x l Hs IH Hf]; cbn; [constructor|]. apply SS_snoc; [done|]. by apply List.Forall_rev.
Qed.

Lemma SS_lookup {A} (R : A -> A -> Prop) l i j x y :
  StronglySorted R l -> l !! i = Some x -> l !! j = Some y -> (i < j)%nat -> R x y.
Proof.
  intros Hs. revert i j. induction Hs as [|z l Hs IH Hf]; intros i j; [done|].
  destruct i as [|i], j as [|j]; cbn; try lia.
  - intros [= <-] Hj _. rewrite Forall_forall in Hf. apply Hf. by eapply list_elem_of_lookup_2.
  - intros Hi Hj Hlt. apply (IH i j); [done|done|lia].
Qed.

(** * Insertion and removal at an index *)

Definition list_ins {A} (c : nat) (x : A) (l : list A) : list A := take c l ++ x :: drop c l.
Definition list_rem {A} (c : nat) (l : list A) : list A := take c l ++ drop (S c) l.

Lemma length_list_ins {A} c (x : A) l : length (list_ins c x l) = S (length l).
Proof. unfold list_ins. rewrite length_app, length_take. cbn. rewrite length_drop. lia. Qed.

Lemma length_list_rem {A} c (l : list A) : (c < length l)%nat -> length (list_rem c l) = (length l - 1)%nat.
Proof. intros. unfold list_rem. rewrite length_app, length_take, length_drop. lia. Qed.

Lemma list_ins_lookup {A} c (x : A) l q :
  (c <= length l)%nat ->
  list_ins c x l !! q = if decide (q < c)%nat then l !! q
                        else if decide (q = c) then Some x else l !! (q - 1)%nat.
Proof.
  intros Hc. unfold list_ins. rewrite lookup_app, length_take.
  destruct (decide (q < c)%nat) as [Hq|Hq].
  - destruct (lookup_lt_is_Some_2 l q ltac:(lia)) as [y Hy].
    rewrite lookup_take_lt by done. by rewrite Hy.
  - rewrite (lookup_take_ge l c q) by lia. rewrite Nat.min_l by done.
    destruct (decide (q = c)) as [->|Hne]; [by rewrite Nat.sub_diag|].
    replace (q - c)%nat with (S (q - c - 1)) by lia.
    change ((x :: drop c l) !! S (q - c - 1)) with (drop c l !! (q - c - 1)%nat).
    rewrite lookup_drop. f_equal. lia.
Qed.

Lemma list_rem_lookup {A} c (l : list A) q :
  (c < length l)%nat -> list_rem c l !! q = if decide (q < c)%nat then l !! q else l !! S q.
Proof.
  intros Hc. unfold list_rem. rewrite lookup_app, length_take.
  destruct (decide (q < c)%nat) as [Hq|Hq].
  - destruct (lookup_lt_is_Some_2 l q ltac:(lia)) as [y Hy].
    rewrite lookup_take_lt by done. by rewrite Hy.
  - rewrite (lookup_take_ge l c q) by lia. rewrite Nat.min_l by lia.
    rewrite lookup_drop. f_equal. lia.
Qed.

(** A loop whose body skips some elements runs over the others. *)
Lemma fold_left_skip {A B} (P : B -> Prop) `{!forall x, Decision (P x)} (f g : A -> B -> A) l a :
  (forall a x, g a x = if decide (P x) then a else f a x) ->
  fold_left g l a = fold_left f (filter (fun x => ~ P x) l) a.
Proof.
  intros Hg. revert a. induction l as [|x l IH]; intros a; [done|].
  cbn [fold_left]. rewrite Hg, filter_cons. destruct (decide (P x)) as [Hp|Hp].
  - rewrite (decide_False (P := ~ P x)) by tauto. apply IH.
  - rewrite (decide_True (P := ~ P x)) by done. apply IH.
Qed.

(** * Bounded loops

    [iterate_pos n f a] runs [f] at most [n] times, until it yields a result. The
    count is in binary, so that a bound of millions is executable. *)
Fixpoint iterate_pos {A B} (n : positive) (f : A -> A + B) (a : A) : A + B :=
  let run2 m a := match iterate_pos m f a with inl a' => iterate_pos m f a' | inr b => inr b end in
  match n with
  | xH => f a
  | xO m => run2 m a
  | xI m => match f a with inl a' => run2 m a' | inr b => inr b end
  end.

Fixpoint iterate_nat {A B} (n : nat) (f : A -> A + B) (a : A) : A + B :=
  match n with
  | O => inl a
  | S n' => match f a with inl a' => iterate_nat n' f a' | inr b => inr b end
  end.

Lemma iterate_nat_add {A B} n m (f : A -> A + B) a :
  iterate_nat (n + m) f a = match iterate_nat n f a with inl a' => iterate_nat m f a' | inr b => inr b end.
Proof. revert a. induction n as [|n IH]; intros a; cbn; [done|]. destruct (f a); [apply IH|done]. Qed.

Lemma iterate_pos_nat {A B} n (f : A -> A + B) a : iterate_pos n f a = iterate_nat (Pos.to_nat n) f a.
Proof.
  revert a. induction n as [n IH|n IH|]; intros a.
  - rewrite Pos2Nat.inj_xI. replace (S (2 * Pos.to_nat n)) with (1 + (Pos.to_nat n + Pos.to_nat n))%nat by lia.
    rewrite iterate_nat_add. cbn. destruct (f a) as [a'|b]; [|done]. rewrite iterate_nat_add, IH.
    destruct (iterate_nat _ f a'); [apply IH|done].
  - rewrite Pos2Nat.inj_xO. replace (2 * Pos.to_nat n)%nat with (Pos.to_nat n + Pos.to_nat n)%nat by lia.
    rewrite iterate_nat_add. cbn. rewrite IH. destruct (iterate_nat _ f a); [apply IH|done].
  - change (Pos.to_nat 1) with 1%nat. cbn. by destruct (f a).
Qed.
