(* ===== verification/Crc32.v ===== *)
(** The table-driven CRC-32 of [packages/minidb/src/crc32.ts], and the error
    detection the WAL and snapshot frames rely on. *)

From S2P Require Import Prelude.

(** * The code *)

Definition POLY : Z := 0xedb88320.

(** One round of the inner loop of [buildTable]. *)
Definition table_round (c : Z) : Z :=
  if Z.eqb (js_and c 1) 0 then js_shru c 1 else js_xor POLY (js_shru c 1).

Definition table_entry (n : Z) : Z := to_uint32 (Nat.iter 8 table_round n).

Definition buildTable : list Z := table_entry <$> seqZ 0 256.

Definition table_get (t : list Z) (i : Z) : Z := nth (Z.to_nat i) t 0.



Definition crc32_step (t : list Z) (c : Z) (b : byte) : Z :=
  js_xor (table_get t (js_and (js_xor c (b2z b)) 0xff)) (js_shru c 8).

Definition crc32 (buf : buffer) (prev : Z) : Z :=
  to_uint32 (js_xor (fold_left (crc32_step buildTable) buf (js_xor prev 0xffffffff)) 0xffffffff).

(** * The reference: one bit at a time, on 32-bit unsigned words *)

Definition bit_round (c : Z) : Z := Z.lxor (Z.shiftr c 1) (if Z.odd c then POLY else 0).

Definition ref_step (c : Z) (b : byte) : Z := Nat.iter 8 bit_round (Z.lxor c (b2z b)).

Definition crc32_ref (buf : buffer) (prev : Z) : Z :=
  Z.lxor (fold_left ref_step buf (Z.lxor (to_uint32 prev) 0xffffffff)) 0xffffffff.

(** * The register as an unsigned word *)

Definition idx (u : Z) (b : byte) : Z := Z.lxor u (b2z b) mod 256.

Definition ustep (u : Z) (b : byte) : Z :=
  Z.lxor (table_get buildTable (idx u b)) (Z.shiftr u 8).

Abbreviation word32 u := (0 <= u < 2 ^ 32).

Lemma buildTable_get i : 0 <= i < 256 -> table_get buildTable i = table_entry i.
Proof.
  intros Hi. unfold table_get, buildTable.
  assert (Hl : seqZ 0 256 !! Z.to_nat i = Some i).
  { apply lookup_seqZ. lia. }
  rewrite nth_lookup, list_lookup_fmap, Hl. done.
Qed.

Lemma table_entry_word i : word32 (table_entry i).
Proof. apply to_uint32_range. Qed.

Lemma shiftr_word u n : 0 <= n -> word32 u -> word32 (Z.shiftr u n).
Proof.
  intros Hn Hu. rewrite Z.shiftr_div_pow2 by lia. split.
  - apply Z.div_pos; lia.
  - apply Z.le_lt_trans with u; [|lia]. apply Z.div_le_upper_bound; nia.
Qed.

Lemma idx_range u b : 0 <= idx u b < 256.
Proof. apply Z.mod_pos_bound. lia. Qed.

Lemma ustep_word u b : word32 u -> word32 (ustep u b).
Proof.
  intros Hu. unfold ustep. rewrite buildTable_get by apply idx_range.
  apply lxor_range; [lia| apply table_entry_word | by apply shiftr_word].
Qed.

(** The signed register of the code and the unsigned one agree. *)
Lemma crc32_step_unsigned c b : to_uint32 (crc32_step buildTable c b) = ustep (to_uint32 c) b.
Proof.
  unfold crc32_step, ustep, js_xor, js_and, js_shru.
  assert (Hi : to_int32 (Z.land (to_int32 (Z.lxor c (b2z b))) 255) = idx (to_uint32 c) b).
  { change 255 with (2 ^ 8 - 1). rewrite land_ones_mod by lia. unfold idx.
    replace (to_int32 (Z.lxor c (b2z b)) mod 2 ^ 8)
      with (to_uint32 (to_int32 (Z.lxor c (b2z b))) mod 2 ^ 8).
    2: { unfold to_uint32. rewrite Z.mod_mod_divide; [done|].
         exists (2 ^ 24). lia. }
    rewrite to_uint32_int32. unfold to_uint32.
    rewrite lxor_mod by lia. change 256 with (2 ^ 8).
    rewrite (Z.mod_small (b2z b)) by (pose proof (b2z_range b); lia).
    rewrite to_int32_small_pos; [done|].
    pose proof (Z.mod_pos_bound (Z.lxor (c mod 2 ^ 32) (b2z b)) (2 ^ 8)). lia. }
  rewrite Hi, to_uint32_int32. apply to_uint32_small.
  rewrite buildTable_get by apply idx_range.
  apply lxor_range; [lia|apply table_entry_word|].
  apply shiftr_word; [lia|apply to_uint32_range].
Qed.

Lemma fold_unsigned buf c :
  to_uint32 (fold_left (crc32_step buildTable) buf c) = fold_left ustep buf (to_uint32 c).
Proof.
  revert c. induction buf as [|b buf IH]; intros c; simpl; [done|].
  by rewrite IH, crc32_step_unsigned.
Qed.

Lemma fold_ustep_word buf u : word32 u -> word32 (fold_left ustep buf u).
Proof.
  revert u. induction buf; intros; simpl; [done|]. auto using ustep_word.
Qed.

Lemma uint32_js_xor a b : word32 b -> to_uint32 (js_xor a b) = Z.lxor (to_uint32 a) b.
Proof.
  intros Hb. unfold js_xor. rewrite to_uint32_int32. unfold to_uint32.
  rewrite lxor_mod by lia. by rewrite (Z.mod_small b).
Qed.

Lemma crc32_unsigned buf prev :
  crc32 buf prev =
  Z.lxor (fold_left ustep buf (Z.lxor (to_uint32 prev) 0xffffffff)) 0xffffffff.
Proof.
  unfold crc32. rewrite uint32_js_xor, fold_unsigned, uint32_js_xor by lia. done.
Qed.

Lemma crc32_range buf prev : word32 (crc32 buf prev).
Proof. apply to_uint32_range. Qed.

(** * Equivalence with the bit-serial reference *)

Lemma odd_lxor a b : Z.odd (Z.lxor a b) = xorb (Z.odd a) (Z.odd b).
Proof. rewrite <- !Z.bit0_odd. apply Z.lxor_spec. Qed.

Lemma bit_round_lxor a b : bit_round (Z.lxor a b) = Z.lxor (bit_round a) (bit_round b).
Proof.
  unfold bit_round. rewrite Z.shiftr_lxor, odd_lxor by lia.
  apply Z.bits_inj'. intros i Hi. rewrite !Z.lxor_spec.
  destruct (Z.odd a), (Z.odd b); cbn [xorb]; rewrite ?Z.bits_0;
    by destruct (Z.testbit (Z.shiftr a 1) i), (Z.testbit (Z.shiftr b 1) i), (Z.testbit POLY i).
Qed.

Lemma bit_rounds_lxor n a b :
  Nat.iter n bit_round (Z.lxor a b) = Z.lxor (Nat.iter n bit_round a) (Nat.iter n bit_round b).
Proof. induction n as [|n IH]; simpl; [done|]. by rewrite IH, bit_round_lxor. Qed.

Lemma bit_rounds_shiftl n h :
  Nat.iter n bit_round (Z.shiftl h (Z.of_nat n)) = h.
Proof.
  induction n as [|n IH]; [apply Z.shiftl_0_r|].
  rewrite Nat.iter_succ_r.
  replace (bit_round (Z.shiftl h (Z.of_nat (S n)))) with (Z.shiftl h (Z.of_nat n)); [done|].
  unfold bit_round.
  rewrite <- Z.bit0_odd, Z.shiftl_spec_low by lia. rewrite Z.lxor_0_r.
  rewrite Z.shiftr_shiftl_l by lia. f_equal. lia.
Qed.

Lemma split_low_byte c : c = Z.lxor (c mod 256) (Z.shiftl (Z.shiftr c 8) 8).
Proof.
  apply Z.bits_inj'. intros i Hi. change 256 with (2 ^ 8).
  rewrite Z.lxor_spec, Z.testbit_mod_pow2 by lia.
  destruct (Z.ltb_spec i 8).
  - rewrite Z.shiftl_spec_low by lia. by rewrite xorb_false_r.
  - rewrite Z.shiftl_spec_high by lia. rewrite Z.shiftr_spec by lia.
    by replace (i - 8 + 8) with i by lia.
Qed.

Lemma table_round_bit c : word32 c -> to_uint32 (table_round c) = bit_round c.
Proof.
  intros Hc. unfold table_round, bit_round, js_and, js_shru.
  rewrite (to_uint32_small c) by done.
  replace (Z.land c 1) with (c mod 2) by (change 1 with (2 ^ 1 - 1); by rewrite land_ones_mod).
  rewrite Zmod_odd.
  pose proof (shiftr_word c 1 ltac:(lia) Hc).
  destruct (Z.odd c); [change (to_int32 1 =? 0) with false|change (to_int32 0 =? 0) with true]; cbv iota.
  - unfold js_xor. rewrite to_uint32_int32, Z.lxor_comm. apply to_uint32_small.
    apply lxor_range; unfold POLY; lia.
  - rewrite Z.lxor_0_r. by apply to_uint32_small.
Qed.

Lemma table_round_cong c d : to_uint32 c = to_uint32 d -> table_round c = table_round d.
Proof.
  intros H. unfold table_round, js_and, js_shru. rewrite H.
  assert (Hl : forall z, Z.land z 1 = to_uint32 z mod 2).
  { intros z. change 1 with (2 ^ 1 - 1). rewrite land_ones_mod by lia. unfold to_uint32.
    rewrite Z.mod_mod_divide; [done|]. exists (2 ^ 31). lia. }
  by rewrite !Hl, H.
Qed.

Lemma bit_round_word c : word32 c -> word32 (bit_round c).
Proof. intros. rewrite <- table_round_bit by done. apply to_uint32_range. Qed.

Lemma table_rounds_bit n c :
  word32 c -> to_uint32 (Nat.iter n table_round c) = Nat.iter n bit_round c /\
              word32 (Nat.iter n bit_round c).
Proof.
  intros Hc. induction n as [|n [IH1 IH2]]; simpl.
  - split; [by apply to_uint32_small|done].
  - split; [|by apply bit_round_word].
    rewrite <- table_round_bit by done. f_equal. apply table_round_cong.
    rewrite IH1. symmetry. by apply to_uint32_small.
Qed.

Lemma table_entry_bits i : word32 i -> table_entry i = Nat.iter 8 bit_round i.
Proof. intros Hi. exact (proj1 (table_rounds_bit 8 i Hi)). Qed.

Lemma bit_rounds_byte_shift h : Nat.iter 8 bit_round (Z.shiftl h 8) = h.
Proof. exact (bit_rounds_shiftl 8 h). Qed.

Lemma b2z_shiftr8 b : Z.shiftr (b2z b) 8 = 0.
Proof. by destruct b. Qed.

Lemma ref_step_split u b :
  Nat.iter 8 bit_round (Z.lxor u (b2z b)) =
  Z.lxor (Nat.iter 8 bit_round (idx u b)) (Z.shiftr u 8).
Proof.
  rewrite (split_low_byte (Z.lxor u (b2z b))).
  rewrite Z.shiftr_lxor, b2z_shiftr8, Z.lxor_0_r by lia.
  by rewrite bit_rounds_lxor, bit_rounds_byte_shift.
Qed.

Lemma ref_step_eq u b : ref_step u b = Nat.iter 8 bit_round (Z.lxor u (b2z b)).
Proof. reflexivity. Qed.
Lemma ustep_eq u b : ustep u b = Z.lxor (table_get buildTable (idx u b)) (Z.shiftr u 8).
Proof. reflexivity. Qed.

Lemma ustep_ref u b : word32 u -> ustep u b = ref_step u b.
Proof.
  intros Hu. rewrite ref_step_eq, ustep_eq, ref_step_split.
  rewrite buildTable_get by apply idx_range.
  pose proof (idx_range u b). by rewrite table_entry_bits by lia.
Qed.

Lemma fold_ustep_ref buf u :
  word32 u -> fold_left ustep buf u = fold_left ref_step buf u.
Proof.
  apply (fold_left_ext_inv (fun z => word32 z)); [apply ustep_ref|].
  intros; by apply ustep_word.
Qed.

Lemma init_word prev : word32 (Z.lxor (to_uint32 prev) 0xffffffff).
Proof. apply lxor_range; [lia|apply to_uint32_range|lia]. Qed.

(** the lazily built 256-entry table with signed 32-bit arithmetic computes
    exactly the bit-serial reflected CRC-32 with polynomial 0xEDB88320, for every
    buffer and every previous value. *)
Theorem crc32_is_reference buf prev : crc32 buf prev = crc32_ref buf prev.
Proof.
  rewrite crc32_unsigned. unfold crc32_ref. rewrite fold_ustep_ref; [done|].
  apply init_word.
Qed.

(** The check value of the CRC-32 catalogue, over "123456789". *)
Example crc32_check :
  crc32 [x31; x32; x33; x34; x35; x36; x37; x38; x39] 0 = 0xCBF43926.
Proof. vm_compute. reflexivity. Qed.

(** Streaming: a checksum continued over a second chunk is the checksum of the
    concatenation. *)
Lemma crc32_app a b prev : crc32 (a ++ b) prev = crc32 b (crc32 a prev).
Proof.
  rewrite !crc32_unsigned, fold_left_app.
  rewrite (to_uint32_small (Z.lxor _ _)).
  - by rewrite Z.lxor_assoc, Z.lxor_nilpotent, Z.lxor_0_r.
  - apply lxor_range; [lia| |lia]. apply fold_ustep_word, init_word.
Qed.

Lemma crc32_nil prev : word32 prev -> crc32 [] prev = prev.
Proof.
  intros H. rewrite crc32_unsigned, to_uint32_small by done. cbn [fold_left].
  by rewrite Z.lxor_assoc, Z.lxor_nilpotent, Z.lxor_0_r.
Qed.

(** * Error detection *)

(** The top byte of a table entry determines the entry. *)
Lemma table_tops_NoDup : NoDup ((fun e => Z.shiftr e 24) <$> buildTable).
Proof. apply (bool_decide_unpack _). vm_compute. exact I. Qed.

Lemma table_top_inj i j :
  0 <= i < 256 -> 0 <= j < 256 ->
  Z.shiftr (table_entry i) 24 = Z.shiftr (table_entry j) 24 -> i = j.
Proof.
  intros Hi Hj H.
  assert (Hl : forall n, 0 <= n < 256 ->
    ((fun e => Z.shiftr e 24) <$> buildTable) !! Z.to_nat n = Some (Z.shiftr (table_entry n) 24)).
  { intros n Hn. unfold buildTable. rewrite <- list_fmap_compose, list_lookup_fmap.
    assert (E : seqZ 0 256 !! Z.to_nat n = Some n) by (apply lookup_seqZ; lia).
    by rewrite E. }
  enough (Z.to_nat i = Z.to_nat j) by lia.
  eapply NoDup_lookup; [apply table_tops_NoDup|by apply Hl|by rewrite H; apply Hl].
Qed.

(** Two steps that end with the same high bits read the same table entry and
    started from the same (higher) bits. *)
Lemma ustep_inv k u v x y :
  0 <= k <= 24 -> word32 u -> word32 v ->
  Z.shiftr (ustep u x) k = Z.shiftr (ustep v y) k ->
  idx u x = idx v y /\ Z.shiftr u (k + 8) = Z.shiftr v (k + 8).
Proof.
  intros Hk Hu Hv H.
  assert (Htop : forall w b, word32 w ->
    Z.shiftr (ustep w b) 24 = Z.shiftr (table_entry (idx w b)) 24).
  { intros w b Hw. unfold ustep. rewrite buildTable_get by apply idx_range.
    rewrite Z.shiftr_lxor, Z.shiftr_shiftr by lia.
    replace (Z.shiftr w (8 + 24)) with 0; [apply Z.lxor_0_r|].
    rewrite Z.shiftr_div_pow2 by lia. symmetry. apply Z.div_small. lia. }
  assert (Hidx : idx u x = idx v y).
  { apply table_top_inj; try apply idx_range. rewrite <- !Htop by done.
    apply (f_equal (fun z => Z.shiftr z (24 - k))) in H.
    rewrite !Z.shiftr_shiftr in H by lia. by replace (k + (24 - k)) with 24 in H by lia. }
  split; [done|].
  unfold ustep in H. rewrite Hidx, !Z.shiftr_lxor in H.
  apply lxor_cancel_l in H. rewrite !Z.shiftr_shiftr in H by lia.
  by replace (k + 8) with (8 + k) by lia.
Qed.

Lemma idx_inj u x y : idx u x = idx u y -> x = y.
Proof.
  unfold idx. change 256 with (2 ^ 8). rewrite !lxor_mod by lia.
  intros H%lxor_cancel_l.
  rewrite !Z.mod_small in H by apply b2z_range. by apply b2z_inj.
Qed.

Lemma ustep_inj_state u v x : word32 u -> word32 v -> ustep u x = ustep v x -> u = v.
Proof.
  intros Hu Hv H.
  destruct (ustep_inv 0 u v x x ltac:(lia) Hu Hv) as [Hi Hs]; [by rewrite H|].
  rewrite (split_low_byte u), (split_low_byte v).
  change (0 + 8) with 8 in Hs. rewrite Hs. f_equal.
  unfold idx in Hi. change 256 with (2 ^ 8) in *. rewrite !lxor_mod in Hi by lia.
  rewrite (Z.lxor_comm (u mod _)), (Z.lxor_comm (v mod _)) in Hi.
  by apply lxor_cancel_l in Hi.
Qed.

Lemma fold_ustep_inj buf u v :
  word32 u -> word32 v -> fold_left ustep buf u = fold_left ustep buf v -> u = v.
Proof.
  revert u v. induction buf as [|b buf IH]; intros u v Hu Hv H; simpl in *; [done|].
  apply IH in H; auto using ustep_word. by apply ustep_inj_state in H.
Qed.

(** Running two equally long buffers of at most four bytes backwards from
    registers with equal high bits: the starting registers agree on the bits that
    are not shifted out, and equal starts force equal buffers. *)
Lemma fold_ustep_back xs ys u v k :
  length xs = length ys -> word32 u -> word32 v ->
  0 <= k -> k + 8 * blen xs <= 32 ->
  Z.shiftr (fold_left ustep xs u) k = Z.shiftr (fold_left ustep ys v) k ->
  Z.shiftr u (k + 8 * blen xs) = Z.shiftr v (k + 8 * blen xs) /\ (u = v -> xs = ys).
Proof.
  unfold blen. revert ys u v.
  induction xs as [|x xs IH]; intros [|y ys] u v Hl Hu Hv Hk Hk2 H; try done.
  { cbn in *. by rewrite Z.add_0_r. }
  cbn [length fold_left] in *.
  destruct (IH ys (ustep u x) (ustep v y)) as [H1 H2]; auto using ustep_word; [lia..|].
  apply ustep_inv in H1 as [Hi Hs]; auto; [|lia].
  split.
  - by replace (k + 8 * Z.of_nat (S (length xs)))
      with (k + 8 * Z.of_nat (length xs) + 8) by lia.
  - intros ->. apply idx_inj in Hi as ->. f_equal. by apply H2.
Qed.

Lemma crc32_inj_prev buf a b :
  word32 a -> word32 b -> crc32 buf a = crc32 buf b -> a = b.
Proof.
  intros Ha Hb. rewrite !crc32_unsigned, !(Z.lxor_comm _ 0xffffffff).
  intros H%lxor_cancel_l%fold_ustep_inj; [|apply lxor_range; (lia || apply to_uint32_range)..].
  apply lxor_cancel_l in H. by rewrite !to_uint32_small in H by done.
Qed.

(** every burst error confined to four consecutive bytes is detected: two
    buffers that agree outside a window of at most four bytes and differ inside it
    never have the same checksum. *)
Theorem crc32_detects_burst pre xs ys post prev :
  length xs = length ys -> (length xs <= 4)%nat -> xs <> ys ->
  crc32 (pre ++ xs ++ post) prev <> crc32 (pre ++ ys ++ post) prev.
Proof.
  intros Hl Hle Hne. rewrite !crc32_app. contradict Hne.
  apply crc32_inj_prev in Hne; [|apply crc32_range..].
  rewrite !crc32_unsigned, !(Z.lxor_comm _ 0xffffffff) in Hne. apply lxor_cancel_l in Hne.
  eapply (fold_ustep_back xs ys _ _ 0) in Hne; [by apply Hne|done|..].
  all: try (apply lxor_range; (lia || apply to_uint32_range)).
  all: unfold blen; lia.
Qed.

Lemma crc32_detects_burst_witness :
  [x01; x02] <> [x01; x03] /\
  crc32 ([x41] ++ [x01; x02] ++ [x42]) 0 <> crc32 ([x41] ++ [x01; x03] ++ [x42]) 0.
Proof.
  split; [discriminate|].
  apply (crc32_detects_burst [x41] [x01; x02] [x01; x03] [x42] 0);
    [reflexivity|cbn; lia|discriminate].
Defined.
