(* ===== verification/Codec.v ===== *)
(** The binary record format shared by the WAL and the snapshot
    ([packages/minidb/src/codec.ts]): frame encoding, frame validation at an
    offset, whole-buffer parsing with the two corruption policies, and the
    atomic batch body. *)

From S2P Require Import Prelude Crc32.

(** * Data *)

Definition MAGIC : buffer := [x4d; x44].
Definition TYPE_SET : Z := 1.
Definition TYPE_DEL : Z := 2.
Definition TYPE_BATCH : Z := 3.
Definition HEADER_SIZE : Z := 22.
Definition CRC_SIZE : Z := 4.
Definition MAX_KEY_LEN : Z := 0xffff.
Definition MAX_VAL_LEN : Z := 0xffffffff.
Definition SUB_HEADER : Z := 1 + 2 + 4 + 4 + 8.

Record frame := Frame {
  f_type : Z;
  f_key : buffer;
  f_value : buffer;
  f_meta : option buffer;
  f_expireAt : Z;
}.

(** The argument of [encodeFrame]; also one operation of a batch. *)
Record frame_input := FrameInput {
  i_type : Z;
  i_key : buffer;
  i_value : option buffer;
  i_meta : option buffer;
  i_expireAt : Z;
}.

Inductive codec_error :=
| RangeError (message : string)
| CorruptFrameError (message : string) (offset : Z).

Inductive corrupt_mode := Resync | Strict.

Record parse_result := ParseResult {
  p_frames : list frame;
  p_corruptRanges : list (Z * Z);
  p_eofOffset : Z;
}.

(** * Buffer accessors

    The checked writers of [Buffer] throw a [RangeError] when the value does not
    fit; every read below is guarded by a length test. *)

Definition writeUIntLE (n : nat) (v : Z) : result codec_error buffer :=
  if (0 <=? v) && (v <? 256 ^ Z.of_nat n) then Ok (le_split n v)
  else Err (RangeError "out of range").
Definition writeUInt8 := writeUIntLE 1.
Definition writeUInt16LE := writeUIntLE 2.
Definition writeUInt32LE := writeUIntLE 4.
Definition writeBigInt64LE (v : Z) : result codec_error buffer :=
  if (- 2 ^ 63 <=? v) && (v <? 2 ^ 63) then Ok (le_split 8 v)
  else Err (RangeError "out of range").

Definition readUIntLE (n : Z) (buf : buffer) (o : Z) : Z := le_combine (sub buf o (o + n)).
Definition readUInt8 := readUIntLE 1.
Definition readUInt16LE := readUIntLE 2.
Definition readUInt32LE := readUIntLE 4.
Definition readBigInt64LE (buf : buffer) (o : Z) : Z := to_int64 (readUIntLE 8 buf o).

(** [buf[pos] === MAGIC[0] && buf[pos + 1] === MAGIC[1]]. *)
Definition magic_at (buf : buffer) (pos : Z) : bool :=
  bool_decide (sub buf pos (pos + 2) = MAGIC).

Definition or_empty (b : option buffer) : buffer := default [] b.

(** * Encoding *)

Definition encodeFrame (i : frame_input) : result codec_error buffer :=
  guard! blen (i_key i) <=? MAX_KEY_LEN else RangeError "key too large" ;;
  let val := or_empty (i_value i) in
  let met := or_empty (i_meta i) in
  guard! blen val <=? MAX_VAL_LEN else RangeError "value too large" ;;
  guard! blen met <=? MAX_VAL_LEN else RangeError "meta too large" ;;
  let? t := writeUInt8 (i_type i) in
  let? fl := writeUInt8 0 in
  let? kl := writeUInt16LE (blen (i_key i)) in
  let? vl := writeUInt32LE (blen val) in
  let? ml := writeUInt32LE (blen met) in
  let? ex := writeBigInt64LE (i_expireAt i) in
  let body := t ++ fl ++ kl ++ vl ++ ml ++ ex ++ i_key i ++ val ++ met in
  let? c := writeUInt32LE (crc32 body 0) in
  Ok (MAGIC ++ body ++ c).

(** * Validating one frame *)

Definition opt_slice (buf : buffer) (start len : Z) : option buffer :=
  if len =? 0 then None else Some (sub buf start (start + len)).

Definition readFrameAt (buf : buffer) (pos : Z) : option (frame * Z) :=
  if blen buf - pos <? HEADER_SIZE then None else
  if negb (magic_at buf pos) then None else
  let keyLen := readUInt16LE buf (pos + 4) in
  let valLen := readUInt32LE buf (pos + 6) in
  let metaLen := readUInt32LE buf (pos + 10) in
  if MAX_KEY_LEN <? keyLen then None else
  let frameLen := HEADER_SIZE + keyLen + valLen + metaLen + CRC_SIZE in
  if frameLen <? HEADER_SIZE + CRC_SIZE then None else
  if blen buf - pos <? frameLen then None else
  let stored := readUInt32LE buf (pos + frameLen - CRC_SIZE) in
  let computed := crc32 (sub buf (pos + 2) (pos + frameLen - CRC_SIZE)) 0 in
  if negb (stored =? computed) then None else
  let keyStart := pos + HEADER_SIZE in
  let metaStart := keyStart + keyLen + valLen in
  Some (Frame (readUInt8 buf (pos + 2))
              (sub buf keyStart (keyStart + keyLen))
              (sub buf (keyStart + keyLen) (keyStart + keyLen + valLen))
              (opt_slice buf metaStart metaLen)
              (number_of_bigint (readBigInt64LE buf (pos + 14))),
        frameLen).

(** * Parsing a buffer *)

(** [buf.indexOf(MAGIC, from)]; [None] is [-1]. *)
Fixpoint find_magic (buf : buffer) : option nat :=
  match buf with
  | [] => None
  | _ :: buf' => if magic_at buf 0 then Some O else S <$> find_magic buf'
  end.

Definition indexOf_magic (buf : buffer) (from : Z) : option Z :=
  (fun n => from + Z.of_nat n) <$> find_magic (drop (Z.to_nat from) buf).

(** The resynchronisation loop: the next offset at which a frame validates.
    [scan] grows by at least one per round, so [length buf] rounds suffice. *)
Fixpoint resync_scan (fuel : nat) (buf : buffer) (scan : Z) : option Z :=
  match fuel with
  | O => None
  | S fuel' =>
      if blen buf - 1 <=? scan then None else
      match indexOf_magic buf scan with
      | None => None
      | Some s =>
          match readFrameAt buf s with
          | Some _ => Some s
          | None => resync_scan fuel' buf (s + 1)
          end
      end
  end.

Fixpoint parse_loop (fuel : nat) (mode : corrupt_mode) (buf : buffer) (pos : Z)
    (frames : list frame) (corrupt : list (Z * Z)) : parse_result :=
  match fuel with
  | O => ParseResult frames corrupt pos
  | S fuel' =>
      if blen buf <=? pos then ParseResult frames corrupt pos else
      match readFrameAt buf pos with
      | Some (f, len) => parse_loop fuel' mode buf (pos + len) (frames ++ [f]) corrupt
      | None =>
          match mode with
          | Strict => ParseResult frames (corrupt ++ [(pos, blen buf)]) pos
          | Resync =>
              match resync_scan (length buf) buf (pos + 1) with
              | None => ParseResult frames (corrupt ++ [(pos, blen buf)]) pos
              | Some r => parse_loop fuel' mode buf r frames (corrupt ++ [(pos, r)])
              end
          end
      end
  end.

Definition parseBuffer (buf : buffer) (mode : corrupt_mode) : parse_result :=
  parse_loop (S (length buf)) mode buf 0 [] [].

(** * Batch bodies *)

Definition encodeBatchOp (op : frame_input) : result codec_error buffer :=
  let val := or_empty (i_value op) in
  let met := or_empty (i_meta op) in
  let? t := writeUInt8 (i_type op) in
  let? kl := writeUInt16LE (blen (i_key op)) in
  let? vl := writeUInt32LE (blen val) in
  let? ml := writeUInt32LE (blen met) in
  let? ex := writeBigInt64LE (i_expireAt op) in
  Ok (t ++ kl ++ vl ++ ml ++ ex ++ i_key op ++ val ++ met).

Fixpoint encodeBatchOps_loop (ops : list frame_input) : result codec_error buffer :=
  match ops with
  | [] => Ok []
  | op :: ops' =>
      let? b := encodeBatchOp op in
      let? rest := encodeBatchOps_loop ops' in
      Ok (b ++ rest)
  end.

Definition encodeBatchOps (ops : list frame_input) : result codec_error buffer :=
  let? count := writeUInt16LE (blen ops) in
  let? rest := encodeBatchOps_loop ops in
  Ok (count ++ rest).

Definition decodeBatchOp (body : buffer) (o : Z) : result codec_error (frame * Z) :=
  guard! o + SUB_HEADER <=? blen body else RangeError "batch op header truncated" ;;
  let type := readUInt8 body o in
  let keyLen := readUInt16LE body (o + 1) in
  let valLen := readUInt32LE body (o + 3) in
  let metaLen := readUInt32LE body (o + 7) in
  let expireAt := number_of_bigint (readBigInt64LE body (o + 11)) in
  let o := o + SUB_HEADER in
  guard! o + keyLen + valLen + metaLen <=? blen body else RangeError "batch op payload truncated" ;;
  Ok (Frame type (sub body o (o + keyLen))
        (sub body (o + keyLen) (o + keyLen + valLen))
        (opt_slice body (o + keyLen + valLen) metaLen) expireAt,
      o + keyLen + valLen + metaLen).

Fixpoint decodeBatchOps_loop (count : nat) (body : buffer) (o : Z) : result codec_error (list frame) :=
  match count with
  | O => Ok []
  | S n =>
      let? r := decodeBatchOp body o in
      let? rest := decodeBatchOps_loop n body (snd r) in
      Ok (fst r :: rest)
  end.

Definition decodeBatchOps (body : buffer) : result codec_error (list frame) :=
  if blen body <? 2 then Ok []
  else decodeBatchOps_loop (Z.to_nat (readUInt16LE body 0)) body 2.

(** * Layout of an encoded frame *)

Definition header (type kl vl ml ex : Z) : buffer :=
  MAGIC ++ le_split 1 type ++ le_split 1 0 ++ le_split 2 kl ++ le_split 4 vl ++
  le_split 4 ml ++ le_split 8 ex.

Definition frame_bytes (type ex : Z) (key val met : buffer) : buffer :=
  let hdr := header type (blen key) (blen val) (blen met) ex in
  let payload := key ++ val ++ met in
  hdr ++ payload ++ le_split 4 (crc32 (drop 2 hdr ++ payload) 0).

Record encodable (i : frame_input) : Prop := {
  enc_type : 0 <= i_type i < 256;
  enc_key : blen (i_key i) <= MAX_KEY_LEN;
  enc_val : blen (or_empty (i_value i)) <= MAX_VAL_LEN;
  enc_met : blen (or_empty (i_meta i)) <= MAX_VAL_LEN;
  enc_exp : - 2 ^ 63 <= i_expireAt i < 2 ^ 63;
}.

Definition input_bytes (i : frame_input) : buffer :=
  frame_bytes (i_type i) (i_expireAt i) (i_key i) (or_empty (i_value i)) (or_empty (i_meta i)).

(** The frame a reader gets back: a null value reads as the empty buffer, an
    empty meta as null, and the expiry as a double. *)
Definition input_frame (i : frame_input) : frame :=
  Frame (i_type i) (i_key i) (or_empty (i_value i))
        (if blen (or_empty (i_meta i)) =? 0 then None else Some (or_empty (i_meta i)))
        (number_of_bigint (i_expireAt i)).

Lemma writeUIntLE_spec n v b :
  writeUIntLE n v = Ok b <-> 0 <= v < 256 ^ Z.of_nat n /\ b = le_split n v.
Proof.
  unfold writeUIntLE.
  destruct (Z.leb_spec 0 v), (Z.ltb_spec v (256 ^ Z.of_nat n)); simpl; split; intros H';
    try (destruct H'; lia); try discriminate.
  - by injection H' as <-.
  - by destruct H' as [_ ->].
Qed.

Lemma writeUIntLE_ok n v : 0 <= v < 256 ^ Z.of_nat n -> writeUIntLE n v = Ok (le_split n v).
Proof. intros. by apply writeUIntLE_spec. Qed.

Lemma writeBigInt64LE_spec v b :
  writeBigInt64LE v = Ok b <-> - 2 ^ 63 <= v < 2 ^ 63 /\ b = le_split 8 v.
Proof.
  unfold writeBigInt64LE.
  destruct (Z.leb_spec (- 2 ^ 63) v), (Z.ltb_spec v (2 ^ 63)); simpl; split; intros H';
    try (destruct H'; lia); try discriminate.
  - by injection H' as <-.
  - by destruct H' as [_ ->].
Qed.

Lemma rbind_ok {E A B} (m : result E A) (k : A -> result E B) b :
  rbind m k = Ok b <-> exists a, m = Ok a /\ k a = Ok b.
Proof.
  destruct m as [a|e]; simpl; (split; [intros H; first [by eauto|discriminate]|]).
  - intros (a' & Ha & Hk). by injection Ha as ->.
  - intros (a' & Ha & _). discriminate.
Qed.

Lemma guard_ok {E A} (b : bool) (e : E) (k : result E A) a :
  (if b then k else Err e) = Ok a <-> b = true /\ k = Ok a.
Proof.
  destruct b; (split; [intros H; first [by eauto|discriminate]|]).
  - by intros [_ H].
  - intros [H _]. discriminate.
Qed.

#[local] Opaque crc32.

(** [encodeFrame] succeeds exactly on encodable inputs, and then writes the
    documented layout. *)
Lemma encodeFrame_spec i b :
  encodeFrame i = Ok b <-> encodable i /\ b = input_bytes i.
Proof.
  unfold encodeFrame, writeUInt8, writeUInt16LE, writeUInt32LE.
  rewrite !guard_ok, !Z.leb_le.
  setoid_rewrite rbind_ok; setoid_rewrite rbind_ok; setoid_rewrite rbind_ok;
    setoid_rewrite rbind_ok; setoid_rewrite rbind_ok; setoid_rewrite rbind_ok.
  setoid_rewrite writeUIntLE_spec. setoid_rewrite writeBigInt64LE_spec.
  split.
  - intros (Hk & Hv & Hm & t & [Ht ->] & fl & [_ ->] & kl & [_ ->] & vl & [_ ->] & ml & [_ ->]
            & ex & [Hex ->] & Hb).
    apply rbind_ok in Hb as (c & [_ ->]%writeUIntLE_spec & [= <-]).
    split; [by split|]. done.
  - intros [[Ht Hk Hv Hm Hex] ->].
    blen_facts. unfold MAX_KEY_LEN, MAX_VAL_LEN in *.
    repeat (split; [lia|]).
    eexists; split; [split; [lia|done]|]. eexists; split; [split; [lia|done]|].
    eexists; split; [split; [lia|done]|]. eexists; split; [split; [lia|done]|].
    eexists; split; [split; [lia|done]|]. eexists; split; [split; [lia|done]|].
    rewrite writeUIntLE_ok by apply crc32_range. done.
Qed.

#[local] Transparent crc32.

(** * Reading back *)

Lemma length_header t kl vl ml ex : length (header t kl vl ml ex) = 22%nat.
Proof. reflexivity. Qed.

Lemma blen_frame_bytes t ex key val met :
  blen (frame_bytes t ex key val met) = HEADER_SIZE + blen key + blen val + blen met + CRC_SIZE.
Proof.
  unfold frame_bytes, HEADER_SIZE, CRC_SIZE. cbv zeta.
  rewrite !blen_app, blen_le_split. unfold blen at 1. rewrite length_header. lia.
Qed.

Lemma readUIntLE_drop n buf p o :
  0 <= p -> 0 <= o -> readUIntLE n (drop (Z.to_nat p) buf) o = readUIntLE n buf (p + o).
Proof. intros. unfold readUIntLE. rewrite sub_drop by done. do 2 f_equal. lia. Qed.

Lemma readUIntLE_nonneg n buf o : 0 <= readUIntLE n buf o.
Proof. apply le_combine_range. Qed.

Lemma blen_drop {A} (l : list A) p : 0 <= p <= blen l -> blen (drop (Z.to_nat p) l) = blen l - p.
Proof. unfold blen. intros. rewrite length_drop. lia. Qed.

Lemma opt_slice_drop buf p o len :
  0 <= p -> 0 <= o -> opt_slice (drop (Z.to_nat p) buf) o len = opt_slice buf (p + o) len.
Proof.
  intros. unfold opt_slice. case_match; [done|].
  rewrite sub_drop by done. do 2 f_equal. lia.
Qed.

Lemma magic_at_drop buf p : 0 <= p -> magic_at (drop (Z.to_nat p) buf) 0 = magic_at buf p.
Proof. intros. unfold magic_at. rewrite sub_drop by lia. by rewrite Z.add_0_r. Qed.

(** Validation only looks at the bytes from [pos] on. *)
Lemma readFrameAt_drop buf pos :
  0 <= pos <= blen buf -> readFrameAt buf pos = readFrameAt (drop (Z.to_nat pos) buf) 0.
Proof.
  intros Hp. unfold readFrameAt, readBigInt64LE, readUInt16LE, readUInt32LE, readUInt8.
  rewrite blen_drop, magic_at_drop by lia.
  rewrite !(readUIntLE_drop 2 buf pos (0 + 4)), !(readUIntLE_drop 4 buf pos (0 + 6)),
    !(readUIntLE_drop 4 buf pos (0 + 10)), !(readUIntLE_drop 1 buf pos (0 + 2)),
    !(readUIntLE_drop 8 buf pos (0 + 14)) by lia.
  rewrite !Z.add_0_l, !Z.sub_0_r.
  pose proof (readUIntLE_nonneg 2 buf (pos + 4)).
  pose proof (readUIntLE_nonneg 4 buf (pos + 6)).
  pose proof (readUIntLE_nonneg 4 buf (pos + 10)).
  unfold HEADER_SIZE, CRC_SIZE. cbv zeta.
  rewrite !sub_drop, opt_slice_drop, readUIntLE_drop by lia.
  by rewrite !Z.add_sub_assoc, !Z.add_assoc.
Qed.

(** Field-by-field reading of [hdr ++ rest] with a concrete 22-byte header. *)
Lemma header_fields t kl vl ml ex rest :
  let s := header t kl vl ml ex ++ rest in
  magic_at s 0 = true /\
  readUInt8 s 2 = t mod 256 /\
  readUInt16LE s 4 = kl mod 2 ^ 16 /\
  readUInt32LE s 6 = vl mod 2 ^ 32 /\
  readUInt32LE s 10 = ml mod 2 ^ 32 /\
  readBigInt64LE s 14 = to_int64 ex.
Proof.
  cbv zeta. split; [by apply bool_decide_eq_true_2|].
  split; [exact (le_combine_split 1 t)|].
  split; [exact (le_combine_split 2 kl)|].
  split; [exact (le_combine_split 4 vl)|].
  split; [exact (le_combine_split 4 ml)|].
  rewrite <- to_int64_mod. unfold readBigInt64LE. f_equal. exact (le_combine_split 8 ex).
Qed.

Lemma readUIntLE_slice n bs l1 l3 o :
  o = blen l1 -> blen bs = n -> readUIntLE n (l1 ++ bs ++ l3) o = le_combine bs.
Proof. intros. unfold readUIntLE. by rewrite (sub_prefix l1 bs l3) by lia. Qed.

(** Reading an encodable frame followed by anything gives the frame back. *)
Lemma readFrameAt_input i rest :
  encodable i ->
  readFrameAt (input_bytes i ++ rest) 0 = Some (input_frame i, blen (input_bytes i)).
Proof.
  intros [Ht Hk Hv Hm Hex]. unfold input_frame, input_bytes.
  set (key := i_key i) in *. set (val := or_empty (i_value i)) in *.
  set (met := or_empty (i_meta i)) in *.
  rewrite blen_frame_bytes. unfold frame_bytes. cbv zeta.
  set (hdr := header _ _ _ _ _). set (crc := le_split 4 _).
  assert (Hl : blen hdr = 22) by reflexivity.
  assert (Hc : blen crc = 4) by apply blen_le_split.
  assert (Hcv : le_combine crc = crc32 (drop 2 hdr ++ key ++ val ++ met) 0).
  { unfold crc. rewrite le_combine_split. apply Z.mod_small, crc32_range. }
  blen_facts. unfold MAX_KEY_LEN, MAX_VAL_LEN in *.
  unfold readFrameAt. rewrite <- !app_assoc, !Z.add_0_l, Z.sub_0_r.
  pose proof (header_fields (i_type i) (blen key) (blen val) (blen met) (i_expireAt i)
    (key ++ val ++ met ++ crc ++ rest)) as Hf. cbv zeta in Hf. fold hdr in Hf.
  destruct Hf as (-> & -> & -> & -> & -> & ->).
  rewrite !Z.mod_small by lia. rewrite to_int64_small by lia.
  unfold HEADER_SIZE, CRC_SIZE, MAX_KEY_LEN, readUInt32LE. cbv zeta.
  rewrite !blen_app, Hl, Hc. blen_facts.
  rewrite !(proj2 (Z.ltb_ge _ _)) by lia. cbn [negb].
  replace (22 + blen key + blen val + blen met + 4 - 4)
    with (blen (hdr ++ key ++ val ++ met)) by (rewrite !blen_app; lia).
  replace (hdr ++ key ++ val ++ met ++ crc ++ rest)
    with ((hdr ++ key ++ val ++ met) ++ crc ++ rest) by (by rewrite <- !app_assoc).
  rewrite (readUIntLE_slice 4 crc), Hcv by done.
  rewrite (sub_app_l (hdr ++ key ++ val ++ met)) by (rewrite ?blen_app; lia).
  rewrite sub_from by lia.
  change (drop (Z.to_nat 2) (hdr ++ key ++ val ++ met)) with (drop 2 hdr ++ key ++ val ++ met).
  rewrite Z.eqb_refl. cbn [negb].
  rewrite <- !app_assoc. do 2 f_equal; f_equal.
  - by apply sub_prefix.
  - rewrite (app_assoc hdr key). apply sub_prefix; rewrite ?blen_app; lia.
  - unfold opt_slice. case_match; [done|]. f_equal.
    rewrite (app_assoc hdr key), (app_assoc _ val).
    apply sub_prefix; rewrite ?blen_app; lia.
Qed.

(** A validated frame lies inside the buffer and is never shorter than its fixed
    parts. *)
Lemma readFrameAt_bounds buf pos f len :
  readFrameAt buf pos = Some (f, len) -> HEADER_SIZE + CRC_SIZE <= len <= blen buf - pos.
Proof.
  unfold readFrameAt. cbv zeta.
  repeat (case_match; try discriminate). intros [= _ <-].
  repeat match goal with H : (_ <? _) = false |- _ => apply Z.ltb_ge in H end. lia.
Qed.

Lemma take_input_short i k :
  encodable i -> HEADER_SIZE <= k < blen (input_bytes i) ->
  readFrameAt (take (Z.to_nat k) (input_bytes i)) 0 = None.
Proof.
  intros [Ht Hk Hv Hm Hex] Hlt.
  assert (Hb : blen (take (Z.to_nat k) (input_bytes i)) = k)
    by (apply blen_take; unfold HEADER_SIZE in *; lia).
  unfold input_bytes in *. rewrite blen_frame_bytes in Hlt. unfold frame_bytes in *. cbv zeta in *.
  unfold MAX_KEY_LEN, MAX_VAL_LEN, HEADER_SIZE, CRC_SIZE in *.
  rewrite take_app_ge in Hb |- * by (rewrite length_header; lia).
  unfold readFrameAt. rewrite Hb, Z.sub_0_r, !Z.add_0_l.
  edestruct header_fields as (-> & _ & -> & -> & -> & _).
  blen_facts.
  rewrite !Z.mod_small by lia. unfold HEADER_SIZE, CRC_SIZE, MAX_KEY_LEN. cbv zeta. cbn [negb].
  rewrite (proj2 (Z.ltb_ge k 22)) by lia.
  rewrite (proj2 (Z.ltb_ge 65535 _)) by lia.
  rewrite (proj2 (Z.ltb_ge (22 + _ + _ + _ + 4) (22 + 4))) by lia.
  by rewrite (proj2 (Z.ltb_lt k _)) by lia.
Qed.

(** A strict prefix of a frame never validates. *)
Lemma readFrameAt_truncated i k :
  encodable i -> 0 <= k < blen (input_bytes i) ->
  readFrameAt (take (Z.to_nat k) (input_bytes i)) 0 = None.
Proof.
  intros Hi Hk. destruct (decide (HEADER_SIZE <= k)); [apply take_input_short; [done|lia]|].
  unfold readFrameAt.
  rewrite blen_take, Z.sub_0_r by lia.
  by rewrite (proj2 (Z.ltb_lt k HEADER_SIZE)) by lia.
Qed.

(** Bytes of the payload that differ in a window of at most four bytes. *)
Lemma readFrameAt_corrupted_payload type kl vl ml ex pre xs ys post crc rest :
  0 <= kl <= MAX_KEY_LEN -> 0 <= vl <= MAX_VAL_LEN -> 0 <= ml <= MAX_VAL_LEN ->
  blen (pre ++ xs ++ post) = kl + vl + ml ->
  length xs = length ys -> (length xs <= 4)%nat -> xs <> ys ->
  crc = le_split 4 (crc32 (drop 2 (header type kl vl ml ex) ++ pre ++ xs ++ post) 0) ->
  readFrameAt (header type kl vl ml ex ++ (pre ++ ys ++ post) ++ crc ++ rest) 0 = None.
Proof.
  intros Hk Hv Hm Hlen Hxy Hle Hne ->. set (crc := le_split 4 _).
  assert (Hcv : le_combine crc = crc32 (drop 2 (header type kl vl ml ex) ++ pre ++ xs ++ post) 0).
  { unfold crc. rewrite le_combine_split. apply Z.mod_small, crc32_range. }
  assert (Hc : blen crc = 4) by apply blen_le_split. clearbody crc.
  assert (Hlen' : blen (pre ++ ys ++ post) = kl + vl + ml).
  { rewrite <- Hlen, !blen_app. unfold blen. rewrite Hxy. lia. }
  blen_facts. unfold MAX_KEY_LEN, MAX_VAL_LEN in *.
  unfold readFrameAt. rewrite !Z.add_0_l, Z.sub_0_r.
  edestruct header_fields as (-> & _ & -> & -> & -> & _).
  rewrite !Z.mod_small by lia. set (hdr := header type kl vl ml ex) in *.
  assert (Hl : blen hdr = 22) by reflexivity.
  unfold HEADER_SIZE, CRC_SIZE, MAX_KEY_LEN, readUInt32LE. cbv zeta.
  rewrite !(blen_app hdr), !(blen_app (pre ++ _)), (blen_app crc), Hlen', Hl, Hc. blen_facts.
  rewrite !(proj2 (Z.ltb_ge _ _)) by lia. cbn [negb].
  replace (22 + kl + vl + ml + 4 - 4) with (blen (hdr ++ pre ++ ys ++ post))
    by (rewrite (blen_app hdr); lia).
  rewrite (app_assoc hdr).
  rewrite (readUIntLE_slice 4 crc), Hcv by done.
  rewrite sub_app_l by (rewrite ?(blen_app hdr); lia).
  rewrite sub_from by lia.
  change (drop (Z.to_nat 2) (hdr ++ pre ++ ys ++ post)) with (drop 2 hdr ++ pre ++ ys ++ post).
  rewrite (proj2 (Z.eqb_neq _ _)); [done|].
  rewrite !(app_assoc (drop 2 hdr)). by apply crc32_detects_burst.
Qed.

(** * The resynchronisation scan *)

Lemma find_magic_spec buf :
  match find_magic buf with
  | Some n => magic_at buf (Z.of_nat n) = true /\
              forall m, (m < n)%nat -> magic_at buf (Z.of_nat m) = false
  | None => forall m, magic_at buf (Z.of_nat m) = false
  end.
Proof.
  induction buf as [|b buf IH]; simpl.
  - intros m. unfold magic_at, sub. by rewrite drop_nil, take_nil.
  - assert (Hs : forall m, magic_at (b :: buf) (Z.of_nat (S m)) = magic_at buf (Z.of_nat m)).
    { intros m. rewrite <- (magic_at_drop buf), <- (magic_at_drop (b :: buf)) by lia.
      by rewrite !Nat2Z.id. }
    destruct (magic_at (b :: buf) 0) eqn:H0; [split; [done|lia]|].
    destruct (find_magic buf) as [n|]; simpl.
    + destruct IH as [H1 H2]. split; [by rewrite Hs|].
      intros [|m] Hm; [done|]. rewrite Hs. apply H2. lia.
    + intros [|m]; [done|]. by rewrite Hs.
Qed.

Lemma indexOf_magic_spec buf from :
  0 <= from ->
  match indexOf_magic buf from with
  | Some s => from <= s /\ magic_at buf s = true /\
              forall p, from <= p < s -> magic_at buf p = false
  | None => forall p, from <= p -> magic_at buf p = false
  end.
Proof.
  intros Hf. unfold indexOf_magic.
  pose proof (find_magic_spec (drop (Z.to_nat from) buf)) as H.
  assert (Hs : forall m, magic_at (drop (Z.to_nat from) buf) (Z.of_nat m) =
                         magic_at buf (from + Z.of_nat m)).
  { intros m. rewrite <- (magic_at_drop buf), <- (magic_at_drop (drop _ buf)) by lia.
    rewrite drop_drop. do 2 f_equal. lia. }
  destruct (find_magic _) as [n|]; simpl.
  - destruct H as [H1 H2]. split; [lia|]. split; [by rewrite <- Hs|].
    intros p Hp. replace p with (from + Z.of_nat (Z.to_nat (p - from))) by lia.
    rewrite <- Hs. apply H2. lia.
  - intros p Hp. replace p with (from + Z.of_nat (Z.to_nat (p - from))) by lia.
    by rewrite <- Hs.
Qed.

Lemma readFrameAt_no_magic buf p : magic_at buf p = false -> readFrameAt buf p = None.
Proof. intros H. unfold readFrameAt. rewrite H. by case_match. Qed.

Lemma readFrameAt_near_end buf p : blen buf - HEADER_SIZE < p -> readFrameAt buf p = None.
Proof.
  intros H. unfold readFrameAt. unfold HEADER_SIZE in *.
  by rewrite (proj2 (Z.ltb_lt _ 22)) by lia.
Qed.

(** With a round per remaining byte the scan is exact: it stops at the first offset
    where a frame validates, and gives up only when there is none. *)
Lemma resync_scan_spec fuel buf scan :
  0 <= scan -> blen buf - scan <= Z.of_nat fuel ->
  match resync_scan fuel buf scan with
  | Some r => scan <= r /\ is_Some (readFrameAt buf r) /\
              forall p, scan <= p < r -> readFrameAt buf p = None
  | None => forall p, scan <= p -> readFrameAt buf p = None
  end.
Proof.
  revert scan. induction fuel as [|fuel IH]; intros scan Hs Hf; simpl.
  { intros p Hp. apply readFrameAt_near_end. unfold HEADER_SIZE. lia. }
  destruct (Z.leb_spec (blen buf - 1) scan).
  { intros p Hp. apply readFrameAt_near_end. unfold HEADER_SIZE. lia. }
  pose proof (indexOf_magic_spec buf scan Hs) as Hi.
  destruct (indexOf_magic buf scan) as [s|].
  2: { intros p Hp. apply readFrameAt_no_magic, Hi, Hp. }
  destruct Hi as (Hle & _ & Hbefore).
  destruct (readFrameAt buf s) as [r|] eqn:Hr.
  { split; [done|]. split; [by rewrite Hr|].
    intros p Hp. by apply readFrameAt_no_magic, Hbefore. }
  specialize (IH (s + 1) ltac:(lia) ltac:(lia)).
  assert (Hskip : forall p, scan <= p < s + 1 -> readFrameAt buf p = None).
  { intros p Hp. destruct (decide (p = s)) as [->|]; [done|].
    apply readFrameAt_no_magic, Hbefore. lia. }
  destruct (resync_scan fuel buf (s + 1)) as [r|].
  - destruct IH as (? & ? & Hb). split; [lia|]. split; [done|].
    intros p Hp. destruct (decide (p < s + 1)); [apply Hskip; lia|apply Hb; lia].
  - intros p Hp. destruct (decide (p < s + 1)); [apply Hskip; lia|apply IH; lia].
Qed.

(** * Whole-buffer parsing *)

Definition log_bytes (ins : list frame_input) : buffer := concat (input_bytes <$> ins).

Definition frame_size (f : frame) : Z :=
  HEADER_SIZE + blen (f_key f) + blen (f_value f) + blen (or_empty (f_meta f)) + CRC_SIZE.

Definition ranges_size (rs : list (Z * Z)) : Z := foldr (fun r n => (snd r - fst r) + n) 0 rs.
Definition frames_size (fs : list frame) : Z := foldr (fun f n => frame_size f + n) 0 fs.

Lemma frames_size_cons f fs : frames_size (f :: fs) = frame_size f + frames_size fs.
Proof. reflexivity. Qed.
Lemma ranges_size_cons r rs : ranges_size (r :: rs) = (snd r - fst r) + ranges_size rs.
Proof. reflexivity. Qed.

Lemma readFrameAt_size buf pos f len :
  0 <= pos -> readFrameAt buf pos = Some (f, len) -> len = frame_size f.
Proof.
  intros Hp H. pose proof (readFrameAt_bounds _ _ _ _ H) as Hb. revert H.
  unfold readFrameAt. cbv zeta.
  pose proof (readUIntLE_nonneg 2 buf (pos + 4)). pose proof (readUIntLE_nonneg 4 buf (pos + 6)).
  pose proof (readUIntLE_nonneg 4 buf (pos + 10)).
  unfold readUInt16LE, readUInt32LE.
  repeat (case_match; try discriminate). intros [= <- <-]. unfold frame_size, HEADER_SIZE, CRC_SIZE in *.
  cbn [f_key f_value f_meta]. rewrite !blen_sub by lia.
  unfold opt_slice. destruct (Z.eqb_spec (readUIntLE 4 buf (pos + 10)) 0) as [E|E]; cbn.
  - unfold blen at 1. cbn. lia.
  - rewrite blen_sub by lia. lia.
Qed.

(** The tiling computed by the loop: frames and corrupt ranges account for every
    byte from [pos] on, and no corrupt range hides a frame. *)
Definition range_ok (mode : corrupt_mode) (buf : buffer) (r : Z * Z) : Prop :=
  0 <= fst r < snd r /\ snd r <= blen buf /\
  match mode with
  | Resync => forall p, fst r <= p < snd r -> readFrameAt buf p = None
  | Strict => readFrameAt buf (fst r) = None /\ snd r = blen buf
  end.

Lemma parse_loop_spec fuel mode buf pos fs cs :
  0 <= pos <= blen buf -> blen buf - pos < Z.of_nat fuel ->
  exists fs' cs' e,
    parse_loop fuel mode buf pos fs cs = ParseResult (fs ++ fs') (cs ++ cs') e /\
    frames_size fs' + ranges_size cs' = blen buf - pos /\
    Forall (range_ok mode buf) cs' /\
    (blen buf <= e \/ exists s, last cs' = Some (s, blen buf) /\ e = s).
Proof.
  revert pos fs cs. induction fuel as [|fuel IH]; intros pos fs cs Hp Hf; [lia|].
  cbn [parse_loop].
  destruct (Z.leb_spec (blen buf) pos).
  { exists [], [], pos. rewrite !app_nil_r. cbn. repeat split; [lia|constructor|lia]. }
  destruct (readFrameAt buf pos) as [[f len]|] eqn:Hr.
  { pose proof (readFrameAt_bounds _ _ _ _ Hr) as Hb. unfold HEADER_SIZE, CRC_SIZE in Hb.
    destruct (IH (pos + len) (fs ++ [f]) cs) as (fs' & cs' & e & -> & Hsz & Hall & He); [lia..|].
    apply readFrameAt_size in Hr; [|lia].
    exists (f :: fs'), cs', e. rewrite <- app_assoc, frames_size_cons.
    split; [done|]. split; [lia|done]. }
  destruct mode.
  - pose proof (resync_scan_spec (length buf) buf (pos + 1) ltac:(lia)) as Hs.
    specialize (Hs ltac:(unfold blen; lia)).
    destruct (resync_scan _ buf (pos + 1)) as [r|].
    + destruct Hs as (Hle & [[f len] Hf'] & Hbefore).
      pose proof (readFrameAt_bounds _ _ _ _ Hf') as Hb. unfold HEADER_SIZE, CRC_SIZE in Hb.
      destruct (IH r fs (cs ++ [(pos, r)])) as (fs' & cs' & e & -> & Hsz & Hall & He); [lia..|].
      exists fs', ((pos, r) :: cs'), e. rewrite <- app_assoc, ranges_size_cons.
      split; [done|]. split; [cbn [fst snd]; lia|]. split.
      * constructor; [|done]. split; [cbn; lia|]. split; [cbn; lia|]. cbn. intros p Hpr.
        destruct (decide (p = pos)) as [->|]; [done|]. apply Hbefore. lia.
      * destruct He as [?|(s & Hlast & ->)]; [by left|right]. exists s.
        split; [|done]. destruct cs'; [done|]. exact Hlast.
    + exists [], [(pos, blen buf)], pos. rewrite app_nil_r.
      split; [done|]. split; [cbn; lia|]. split.
      * constructor; [|constructor]. split; [cbn; lia|]. split; [cbn; lia|]. cbn. intros p Hpr.
        destruct (decide (p = pos)) as [->|]; [done|]. apply Hs. lia.
      * right. by exists pos.
  - exists [], [(pos, blen buf)], pos. rewrite app_nil_r.
    split; [done|]. split; [cbn; lia|]. split.
    + constructor; [|constructor]. split; [cbn; lia|]. split; [cbn; lia|]. done.
    + right. by exists pos.
Qed.

(** parsing terminates on every byte string and accounts for every byte: the
    frames and the corrupt ranges together are exactly as long as the buffer, and a
    corrupt range of the resynchronising mode contains no offset at which a valid
    frame starts (in strict mode it is the whole tail from the first bad frame). *)
Theorem parseBuffer_accounts buf mode :
  let r := parseBuffer buf mode in
  frames_size (p_frames r) + ranges_size (p_corruptRanges r) = blen buf /\
  Forall (range_ok mode buf) (p_corruptRanges r) /\
  (blen buf <= p_eofOffset r \/
   exists s, last (p_corruptRanges r) = Some (s, blen buf) /\ p_eofOffset r = s).
Proof.
  unfold parseBuffer.
  destruct (parse_loop_spec (S (length buf)) mode buf 0 [] []) as (fs & cs & e & -> & H1 & H2 & H3).
  - blen_facts; lia.
  - unfold blen. lia.
  - cbn [p_frames p_corruptRanges p_eofOffset app]. split; [lia|]. by split.
Qed.

Lemma readFrameAt_mid pre i rest :
  encodable i ->
  readFrameAt (pre ++ input_bytes i ++ rest) (blen pre) =
    Some (input_frame i, blen (input_bytes i)).
Proof.
  intros Hi. rewrite readFrameAt_drop by (len_lia).
  unfold blen at 1. rewrite Nat2Z.id, drop_app_length. by apply readFrameAt_input.
Qed.

Lemma input_bytes_pos i : HEADER_SIZE + CRC_SIZE <= blen (input_bytes i).
Proof.
  unfold input_bytes. rewrite blen_frame_bytes.
  blen_facts; lia.
Qed.

(** A run of encoded frames is consumed one frame per round. *)
Lemma parse_loop_log ins : Forall encodable ins -> forall fuel mode pre rest fs cs,
  parse_loop (length ins + fuel) mode (pre ++ log_bytes ins ++ rest) (blen pre) fs cs =
  parse_loop fuel mode (pre ++ log_bytes ins ++ rest) (blen (pre ++ log_bytes ins))
    (fs ++ (input_frame <$> ins)) cs.
Proof.
  induction 1 as [|i ins Hi Hins IH]; intros fuel mode pre rest fs cs.
  { cbn. by rewrite !app_nil_r. }
  cbn [length Nat.add parse_loop]. unfold log_bytes. cbn [fmap list_fmap concat].
  fold (log_bytes ins). rewrite <- app_assoc, readFrameAt_mid by done.
  pose proof (input_bytes_pos i). blen_facts.
  unfold HEADER_SIZE, CRC_SIZE in *.
  rewrite (proj2 (Z.leb_gt _ _)) by (rewrite !blen_app in *; blen_facts; lia).
  rewrite <- blen_app, (app_assoc pre). rewrite IH. by rewrite <- !app_assoc.
Qed.

Lemma length_log_bytes ins : (26 * length ins <= length (log_bytes ins))%nat.
Proof.
  induction ins as [|i ins IH]; [done|]. unfold log_bytes in *. cbn [fmap list_fmap concat length].
  rewrite length_app. pose proof (input_bytes_pos i) as Hi.
  unfold blen, HEADER_SIZE, CRC_SIZE in Hi. lia.
Qed.

Lemma parseBuffer_log ins rest mode :
  Forall encodable ins ->
  exists fuel, (length rest < fuel)%nat /\
  parseBuffer (log_bytes ins ++ rest) mode =
  parse_loop fuel mode (log_bytes ins ++ rest) (blen (log_bytes ins)) (input_frame <$> ins) [].
Proof.
  intros Hins. exists (S (length (log_bytes ins ++ rest)) - length ins)%nat.
  pose proof (length_log_bytes ins). split; [rewrite length_app; lia|].
  unfold parseBuffer.
  replace (S (length (log_bytes ins ++ rest)))
    with (length ins + (S (length (log_bytes ins ++ rest)) - length ins))%nat at 1
    by (rewrite length_app; lia).
  exact (parse_loop_log ins Hins _ mode [] rest [] []).
Qed.

Definition encodes (ins : list frame_input) (bs : list buffer) : Prop :=
  Forall2 (fun i b => encodeFrame i = Ok b) ins bs.

Lemma encodes_log ins bs : encodes ins bs -> Forall encodable ins /\ concat bs = log_bytes ins.
Proof.
  induction 1 as [|i b ins bs Hi _ [IH1 IH2]]; [done|].
  apply encodeFrame_spec in Hi as [Hi ->]. split; [by constructor|].
  unfold log_bytes in *. cbn. by rewrite IH2.
Qed.

Lemma parse_log ins mode :
  Forall encodable ins ->
  parseBuffer (log_bytes ins) mode = ParseResult (input_frame <$> ins) [] (blen (log_bytes ins)).
Proof.
  intros Hins. destruct (parseBuffer_log ins [] mode Hins) as ([|fuel] & Hf & Hp); [cbn in Hf; lia|].
  rewrite app_nil_r in Hp. rewrite Hp. cbn [parse_loop]. by rewrite Z.leb_refl.
Qed.

(** C38. round trip. A file made of encoded frames parses, in either mode, to exactly
    those frames, with no corrupt range and no byte left over. *)
Theorem parse_encode_log ins bs mode :
  encodes ins bs ->
  parseBuffer (concat bs) mode = ParseResult (input_frame <$> ins) [] (blen (concat bs)).
Proof.
  intros [Hins ->]%encodes_log. by apply parse_log.
Qed.

(** A log followed by a torn frame, scanned from the end of a prefix of whole frames. *)
Lemma parse_loop_torn pre ins i k fuel :
  Forall encodable ins -> encodable i -> 0 < k < blen (input_bytes i) ->
  let buf := pre ++ log_bytes ins ++ take (Z.to_nat k) (input_bytes i) in
  let good := blen (pre ++ log_bytes ins) in
  parse_loop (length ins + S fuel) Strict buf (blen pre) [] [] =
  ParseResult (input_frame <$> ins) [(good, blen buf)] good.
Proof.
  intros Hins Hi Hk. cbv zeta. rewrite parse_loop_log by done. cbn [app parse_loop].
  set (tail := take (Z.to_nat k) (input_bytes i)).
  assert (Htl : blen tail = k) by (apply blen_take; lia).
  blen_facts.
  rewrite (app_assoc pre). rewrite (proj2 (Z.leb_gt _ _)) by (rewrite (blen_app (pre ++ _)); lia).
  rewrite readFrameAt_drop by (rewrite (blen_app (pre ++ _)); lia).
  unfold blen at 1. rewrite Nat2Z.id, drop_app_length. unfold tail at 1.
  rewrite readFrameAt_truncated by (done || lia). done.
Qed.

(** torn tail. When the last frame of a log is cut short by a crash, strict
    parsing keeps every earlier frame, drops the partial one and reports exactly its
    bytes as corrupt; resynchronising parsing does the same unless some offset inside
    the partial frame happens to start a valid frame. *)
Theorem parse_torn_tail ins bs i b k :
  encodes ins bs -> encodeFrame i = Ok b -> 0 < k < blen b ->
  let buf := concat bs ++ take (Z.to_nat k) b in
  let good := blen (concat bs) in
  let r := ParseResult (input_frame <$> ins) [(good, blen buf)] good in
  parseBuffer buf Strict = r /\
  ((forall p, good < p -> readFrameAt buf p = None) -> parseBuffer buf Resync = r).
Proof.
  intros [Hins Hbs]%encodes_log [Hi ->]%encodeFrame_spec Hk. cbv zeta. rewrite Hbs.
  set (tail := take (Z.to_nat k) (input_bytes i)).
  assert (Htl : blen tail = k) by (apply blen_take; lia).
  set (buf := log_bytes ins ++ tail).
  assert (Hbl : blen buf = blen (log_bytes ins) + k) by (unfold buf; rewrite blen_app; lia).
  blen_facts.
  assert (Hbad : readFrameAt buf (blen (log_bytes ins)) = None).
  { rewrite readFrameAt_drop by lia. unfold buf, blen at 1.
    rewrite Nat2Z.id, drop_app_length. apply readFrameAt_truncated; [done|lia]. }
  assert (Hstep : forall fuel mode, (mode = Resync -> forall p, blen (log_bytes ins) < p -> readFrameAt buf p = None) ->
    parse_loop (S fuel) mode buf (blen (log_bytes ins)) (input_frame <$> ins) [] =
    ParseResult (input_frame <$> ins) [(blen (log_bytes ins), blen buf)] (blen (log_bytes ins))).
  { intros fuel mode Hm. cbn [parse_loop]. rewrite (proj2 (Z.leb_gt _ _)), Hbad by lia.
    destruct mode; [|done].
    pose proof (resync_scan_spec (length buf) buf (blen (log_bytes ins) + 1) ltac:(lia)) as Hs.
    specialize (Hs ltac:(unfold blen; lia)).
    destruct (resync_scan _ buf _) as [r|]; [|done].
    destruct Hs as (? & [x Hx] & _). by rewrite Hm in Hx by (done || lia). }
  split; [|intros Hno].
  - destruct (parseBuffer_log ins tail Strict Hins) as ([|fuel] & Hf & Hp); [lia|].
    fold buf in Hp. rewrite Hp. by apply Hstep.
  - destruct (parseBuffer_log ins tail Resync Hins) as ([|fuel] & Hf & Hp); [lia|].
    fold buf in Hp. rewrite Hp. by apply Hstep.
Qed.

(** * Batch bodies *)

Definition sub_header (type kl vl ml ex : Z) : buffer :=
  le_split 1 type ++ le_split 2 kl ++ le_split 4 vl ++ le_split 4 ml ++ le_split 8 ex.

Definition op_bytes (i : frame_input) : buffer :=
  let val := or_empty (i_value i) in
  let met := or_empty (i_meta i) in
  sub_header (i_type i) (blen (i_key i)) (blen val) (blen met) (i_expireAt i) ++
  i_key i ++ val ++ met.

Lemma encodeBatchOp_spec i b : encodeBatchOp i = Ok b <-> encodable i /\ b = op_bytes i.
Proof.
  unfold encodeBatchOp, writeUInt8, writeUInt16LE, writeUInt32LE. cbv zeta. split.
  - intros (t & [Ht ->]%writeUIntLE_spec &
      (kl & [Hk ->]%writeUIntLE_spec &
      (vl & [Hv ->]%writeUIntLE_spec &
      (ml & [Hm ->]%writeUIntLE_spec &
      (ex & [Hex ->]%writeBigInt64LE_spec & [= <-])%rbind_ok)%rbind_ok)%rbind_ok)%rbind_ok)%rbind_ok.
    split; [|done]. split; unfold MAX_KEY_LEN, MAX_VAL_LEN; lia.
  - intros [[Ht Hk Hv Hm Hex] ->]. unfold MAX_KEY_LEN, MAX_VAL_LEN in *.
    blen_facts.
    rewrite !writeUIntLE_ok by lia. cbn [rbind]. by rewrite (proj2 (writeBigInt64LE_spec _ _) (conj Hex eq_refl)).
Qed.

Lemma encodeBatchOps_loop_spec ops b :
  encodeBatchOps_loop ops = Ok b <-> Forall encodable ops /\ b = concat (op_bytes <$> ops).
Proof.
  revert b. induction ops as [|op ops IH]; intros b; cbn [encodeBatchOps_loop].
  { split; [by intros [= <-]|by intros [_ ->]]. }
  rewrite rbind_ok. setoid_rewrite encodeBatchOp_spec. setoid_rewrite rbind_ok. setoid_rewrite IH. split.
  - intros (b1 & [H1 ->] & b2 & [H2 ->] & [= <-]). split; [by constructor|done].
  - intros [[H1 H2]%Forall_cons ->]. eexists. split; [by split|]. eexists. split; [by split|done].
Qed.

Lemma readUIntLE_app n pre s o :
  0 <= o -> readUIntLE n (pre ++ s) (blen pre + o) = readUIntLE n s o.
Proof.
  intros. rewrite <- readUIntLE_drop by (apply blen_nonneg || done).
  unfold blen. by rewrite Nat2Z.id, drop_app_length.
Qed.

Lemma sub_header_fields t kl vl ml ex rest :
  let s := sub_header t kl vl ml ex ++ rest in
  readUIntLE 1 s 0 = t mod 256 /\
  readUIntLE 2 s 1 = kl mod 2 ^ 16 /\
  readUIntLE 4 s 3 = vl mod 2 ^ 32 /\
  readUIntLE 4 s 7 = ml mod 2 ^ 32 /\
  readUIntLE 8 s 11 = ex mod 2 ^ 64.
Proof.
  cbv zeta. split; [exact (le_combine_split 1 t)|].
  split; [exact (le_combine_split 2 kl)|].
  split; [exact (le_combine_split 4 vl)|].
  split; [exact (le_combine_split 4 ml)|].
  exact (le_combine_split 8 ex).
Qed.

Lemma decodeBatchOp_op pre i rest :
  encodable i ->
  decodeBatchOp (pre ++ op_bytes i ++ rest) (blen pre) =
  Ok (input_frame i, blen (pre ++ op_bytes i)).
Proof.
  intros [Ht Hk Hv Hm Hex]. unfold op_bytes, input_frame, decodeBatchOp. cbv zeta.
  set (key := i_key i) in *. set (val := or_empty (i_value i)) in *.
  set (met := or_empty (i_meta i)) in *. rewrite <- !app_assoc.
  pose proof (sub_header_fields (i_type i) (blen key) (blen val) (blen met) (i_expireAt i)
    (key ++ val ++ met ++ rest)) as Hf. cbv zeta in Hf.
  set (hdr := sub_header _ _ _ _ _) in *.
  assert (Hl : blen hdr = 19) by reflexivity. destruct Hf as (F1 & F2 & F3 & F4 & F5).
  unfold readUInt8, readUInt16LE, readUInt32LE, readBigInt64LE.
  assert (F0 : readUIntLE 1 (pre ++ hdr ++ key ++ val ++ met ++ rest) (blen pre) = i_type i mod 256).
  { rewrite <- (Z.add_0_r (blen pre)). by rewrite readUIntLE_app, F1. }
  rewrite F0, !readUIntLE_app, F2, F3, F4, F5, to_int64_mod by lia.
  blen_facts.
  unfold MAX_KEY_LEN, MAX_VAL_LEN, SUB_HEADER in *.
  rewrite !Z.mod_small by lia. rewrite to_int64_small by lia.
  rewrite !blen_app, Hl. change (1 + 2 + 4 + 4 + 8) with 19.
  rewrite !(proj2 (Z.leb_le _ _)) by len_lia.
  assert (Hs : forall l1 l2 l3 a c, l1 ++ l2 ++ l3 = pre ++ hdr ++ key ++ val ++ met ++ rest ->
    a = blen l1 -> c = a + blen l2 -> sub (pre ++ hdr ++ key ++ val ++ met ++ rest) a c = l2).
  { intros l1 l2 l3 a c <-. apply sub_prefix. }
  do 2 f_equal; [|lia]. f_equal.
  - apply (Hs (pre ++ hdr) key (val ++ met ++ rest)); rewrite <- ?app_assoc, ?blen_app; (done || lia).
  - apply (Hs (pre ++ hdr ++ key) val (met ++ rest)); rewrite <- ?app_assoc, ?blen_app; (done || lia).
  - unfold opt_slice. case_match; [done|]. f_equal.
    apply (Hs (pre ++ hdr ++ key ++ val) met rest); rewrite <- ?app_assoc, ?blen_app; (done || lia).
Qed.

Lemma decodeBatchOps_loop_ops ops : Forall encodable ops -> forall pre,
  decodeBatchOps_loop (length ops) (pre ++ concat (op_bytes <$> ops)) (blen pre) =
  Ok (input_frame <$> ops).
Proof.
  induction 1 as [|i ops Hi Hops IH]; intros pre; [done|].
  cbn [fmap list_fmap concat length decodeBatchOps_loop].
  rewrite decodeBatchOp_op by done. cbn [rbind fst snd].
  rewrite app_assoc, IH. done.
Qed.

(** The body of a batch. *)
Definition batch_body (ops : list frame_input) : buffer := le_split 2 (blen ops) ++ concat (op_bytes <$> ops).

Lemma encodeBatchOps_spec ops body :
  encodeBatchOps ops = Ok body <-> blen ops < 2 ^ 16 /\ Forall encodable ops /\ body = batch_body ops.
Proof.
  unfold encodeBatchOps, writeUInt16LE. rewrite rbind_ok. setoid_rewrite writeUIntLE_spec.
  setoid_rewrite rbind_ok. blen_facts. split.
  - intros (c & [Hc ->] & rest & [Hops ->]%encodeBatchOps_loop_spec & [= <-]). split; [lia|done].
  - intros (Hc & Hops & ->). eexists. split; [split; [lia|done]|]. eexists.
    split; [by apply encodeBatchOps_loop_spec|done].
Qed.

Lemma decodeBatchOps_body ops :
  blen ops < 2 ^ 16 -> Forall encodable ops -> decodeBatchOps (batch_body ops) = Ok (input_frame <$> ops).
Proof.
  intros Hc Hops. unfold decodeBatchOps, batch_body. rewrite blen_app, blen_le_split.
  blen_facts.
  rewrite (proj2 (Z.ltb_ge _ 2)) by lia.
  replace (readUInt16LE _ 0) with (blen ops).
  - unfold blen at 1. rewrite Nat2Z.id.
    exact (decodeBatchOps_loop_ops ops Hops (le_split 2 (blen ops))).
  - symmetry. transitivity (blen ops mod 2 ^ 16); [exact (le_combine_split 2 _)|].
    by apply Z.mod_small.
Qed.

(** a batch body decodes to the operations it was encoded from, in order. *)
Theorem decode_encode_batch ops body :
  encodeBatchOps ops = Ok body -> decodeBatchOps body = Ok (input_frame <$> ops).
Proof. intros (Hc & Hops & ->)%encodeBatchOps_spec. by apply decodeBatchOps_body. Qed.

(** corruption of up to four consecutive payload bytes of a stored frame is
    always caught: whatever precedes and follows it, the damaged frame does not
    validate. *)
Theorem corrupted_payload_rejected i b h pre xs ys post c before after :
  encodeFrame i = Ok b -> b = h ++ (pre ++ xs ++ post) ++ c ->
  blen h = HEADER_SIZE -> blen c = CRC_SIZE ->
  length xs = length ys -> (length xs <= 4)%nat -> xs <> ys ->
  readFrameAt (before ++ h ++ (pre ++ ys ++ post) ++ c ++ after) (blen before) = None.
Proof.
  intros [Hi ->]%encodeFrame_spec Hb Hh Hc Hxy Hle Hne.
  rewrite readFrameAt_drop
    by (len_lia).
  unfold blen at 1. rewrite Nat2Z.id, drop_app_length.
  unfold input_bytes, frame_bytes in Hb. cbv zeta in Hb.
  apply app_inj_1 in Hb as [<- Hb].
  2: { rewrite length_header. unfold blen, HEADER_SIZE in Hh. lia. }
  apply app_inj_2 in Hb as [Hp <-].
  2: { rewrite length_le_split. unfold blen, CRC_SIZE in Hc. lia. }
  destruct Hi as [_ Hk Hv Hm _]. rewrite Hp.
  apply (readFrameAt_corrupted_payload _ _ _ _ _ pre xs ys post); auto using blen_nonneg.
  rewrite <- Hp, !blen_app. lia.
Qed.

(** * Concrete frames *)

Definition ex_input : frame_input := FrameInput TYPE_SET [x6b; x31] (Some [x76]) None 5.
Definition ex_bytes : buffer := input_bytes ex_input.

Example ex_encodes : encodeFrame ex_input = Ok ex_bytes.
Proof. vm_compute. reflexivity. Qed.

Lemma parse_encode_log_witness :
  encodes [ex_input; ex_input] [ex_bytes; ex_bytes] /\
  parseBuffer (concat [ex_bytes; ex_bytes]) Resync =
    ParseResult (input_frame <$> [ex_input; ex_input]) [] (blen (concat [ex_bytes; ex_bytes])).
Proof.
  assert (H : encodes [ex_input; ex_input] [ex_bytes; ex_bytes])
    by (constructor; [apply ex_encodes|constructor; [apply ex_encodes|constructor]]).
  split; [exact H|]. apply (parse_encode_log _ _ Resync), H.
Defined.

Lemma parse_torn_tail_witness :
  let buf := concat [ex_bytes] ++ take 20 ex_bytes in
  0 < 20 < blen ex_bytes /\
  parseBuffer buf Strict =
    ParseResult (input_frame <$> [ex_input]) [(blen (concat [ex_bytes]), blen buf)] (blen (concat [ex_bytes])).
Proof.
  assert (H1 : encodes [ex_input] [ex_bytes]) by (constructor; [apply ex_encodes|constructor]).
  assert (H2 : 0 < 20 < blen ex_bytes) by (vm_compute; split; reflexivity).
  split; [exact H2|].
  exact (proj1 (parse_torn_tail [ex_input] [ex_bytes] ex_input ex_bytes 20 H1 ex_encodes H2)).
Defined.

Definition ex_batch : list frame_input :=
  [ex_input; FrameInput TYPE_DEL [x6b] None None 0].

Lemma decode_encode_batch_witness :
  exists body, encodeBatchOps ex_batch = Ok body /\
               decodeBatchOps body = Ok (input_frame <$> ex_batch).
Proof.
  destruct (encodeBatchOps ex_batch) as [body|e] eqn:E; [|vm_compute in E; discriminate E].
  exists body. split; [reflexivity|]. apply (decode_encode_batch _ _ E).
Defined.

Lemma corrupted_payload_rejected_witness :
  readFrameAt ([x00] ++ take 22 ex_bytes ++ ([x6b] ++ [x32] ++ [x76]) ++ drop 25 ex_bytes ++ []) 1 = None.
Proof.
  apply (corrupted_payload_rejected ex_input ex_bytes (take 22 ex_bytes)
    [x6b] [x31] [x32] [x76] (drop 25 ex_bytes) [x00] []).
  - apply ex_encodes.
  - vm_compute. reflexivity.
  - vm_compute. reflexivity.
  - vm_compute. reflexivity.
  - reflexivity.
  - cbn. lia.
  - discriminate.
Defined.

(** The side condition of the torn-tail theorem is needed: a value that embeds the
    bytes of a frame is resurrected by resynchronisation when its own frame is torn.
    The log below holds one acknowledged frame; the torn SET of "k" carries the
    bytes of a DEL of "k1" as its value, and recovery replays that DEL. *)
Definition ex_embedded : frame_input := FrameInput TYPE_DEL [x6b; x31] None None 0.
Definition ex_carrier : frame_input :=
  FrameInput TYPE_SET [x6b] (Some (input_bytes ex_embedded)) None 0.

Example torn_tail_resurrects_embedded_frame :
  p_frames (parseBuffer (ex_bytes ++ take 52 (input_bytes ex_carrier)) Resync) =
    [input_frame ex_input; input_frame ex_embedded] /\
  blen (input_bytes ex_carrier) = 55.
Proof. vm_compute. split; reflexivity. Qed.
