(* ===== verification/ScanRefs.v ===== *)
(** Recovery's file scanner ([scanFrameRefsFd], [scanBatchOpRefs] and their helpers
    in [packages/minidb/src/codec.ts]): the same frames as the in-memory parser, but
    values stay in the file and are reported as offset/length pairs.

    An open file is the list of its bytes; [readSync] returns every byte available
    in the requested range. *)

From S2P Require Import Prelude Crc32 Codec.

(** * Data *)

Record frame_ref := FrameRef {
  r_type : Z;
  r_key : buffer;
  r_meta : option buffer;
  r_expireAt : Z;
  r_frameOff : Z;
  r_valueOff : Z;
  r_valLen : Z;
  r_frameLen : Z;
}.

Record batch_op_ref := BatchOpRef {
  o_type : Z;
  o_key : buffer;
  o_meta : option buffer;
  o_expireAt : Z;
  o_valueOff : Z;
  o_valLen : Z;
}.

Record scan_result := ScanResult {
  s_frames : list frame_ref;
  s_corruptRanges : list (Z * Z);
  s_eofOffset : Z;
}.

Inductive io_error := ShortRead.

(** * File access *)

Definition CRC_CHUNK : Z := 2 ^ 20.
Definition MAGIC_SCAN_CHUNK : Z := 2 ^ 20.

Definition readSync (fd : buffer) (len pos : Z) : buffer :=
  sub fd pos (pos + Z.min len (Z.max 0 (blen fd - pos))).

Definition readExactSync (fd : buffer) (len pos : Z) : result io_error buffer :=
  let b := readSync fd len pos in
  if blen b <? len then Err ShortRead else Ok b.

(** The checksum of a frame, a chunk at a time. *)
Fixpoint crc_loop (fuel : nat) (chunk : Z) (fd : buffer) (crc crcPos crcLeft : Z) : result io_error Z :=
  match fuel with
  | O => Ok crc
  | S fuel' =>
      if crcLeft <=? 0 then Ok crc else
      let len := Z.min chunk crcLeft in
      let? buf := readExactSync fd len crcPos in
      crc_loop fuel' chunk fd (crc32 buf crc) (crcPos + len) (crcLeft - len)
  end.

Definition readFrameRefAt (fd : buffer) (pos size : Z) : result io_error (option frame_ref) :=
  if size - pos <? HEADER_SIZE then Ok None else
  let? header := readExactSync fd HEADER_SIZE pos in
  if negb (magic_at header 0) then Ok None else
  let type := readUInt8 header 2 in
  let keyLen := readUInt16LE header 4 in
  let valLen := readUInt32LE header 6 in
  let metaLen := readUInt32LE header 10 in
  if MAX_KEY_LEN <? keyLen then Ok None else
  let frameLen := HEADER_SIZE + keyLen + valLen + metaLen + CRC_SIZE in
  if frameLen <? HEADER_SIZE + CRC_SIZE then Ok None else
  if size - pos <? frameLen then Ok None else
  let crcLeft := frameLen - CRC_SIZE - 2 in
  let? crc := crc_loop (Z.to_nat crcLeft) CRC_CHUNK fd 0 (pos + 2) crcLeft in
  let? storedCrcBuf := readExactSync fd CRC_SIZE (pos + frameLen - CRC_SIZE) in
  if negb (readUInt32LE storedCrcBuf 0 =? crc) then Ok None else
  let keyStart := pos + HEADER_SIZE in
  let valueOff := keyStart + keyLen in
  let metaStart := valueOff + valLen in
  let? key := (if keyLen =? 0 then Ok [] else readExactSync fd keyLen keyStart) in
  let? meta := (if metaLen =? 0 then Ok None
                else let? m := readExactSync fd metaLen metaStart in Ok (Some m)) in
  Ok (Some (FrameRef type key meta (number_of_bigint (readBigInt64LE header 14))
              pos valueOff valLen frameLen)).

(** Searching the sync marker in overlapping chunks; [None] is [-1]. *)
Fixpoint findMagic_loop (fuel : nat) (chunk : Z) (fd : buffer) (pos size : Z) : option Z :=
  match fuel with
  | O => None
  | S fuel' =>
      if size <=? pos then None else
      let len := Z.min chunk (size - pos) in
      let b := readSync fd len pos in
      let n := blen b in
      if n =? 0 then None else
      match find_magic b with
      | Some idx => Some (pos + Z.of_nat idx)
      | None => if n <? blen MAGIC then None
                else findMagic_loop fuel' chunk fd (pos + (n - (blen MAGIC - 1))) size
      end
  end.

Definition findMagicSync (fd : buffer) (start size : Z) : option Z :=
  findMagic_loop (length fd) MAGIC_SCAN_CHUNK fd start size.

(** * Scanning *)

Fixpoint resync_refs (fuel : nat) (fd : buffer) (scan size : Z) : result io_error (option Z) :=
  match fuel with
  | O => Ok None
  | S fuel' =>
      if size - 1 <=? scan then Ok None else
      match findMagicSync fd scan size with
      | None => Ok None
      | Some s =>
          let? r := readFrameRefAt fd s size in
          match r with
          | Some _ => Ok (Some s)
          | None => resync_refs fuel' fd (s + 1) size
          end
      end
  end.

Fixpoint scan_loop (fuel : nat) (mode : corrupt_mode) (fd : buffer) (size pos : Z)
    (frames : list frame_ref) (corrupt : list (Z * Z)) : result io_error scan_result :=
  match fuel with
  | O => Ok (ScanResult frames corrupt pos)
  | S fuel' =>
      if size <=? pos then Ok (ScanResult frames corrupt pos) else
      let? r := readFrameRefAt fd pos size in
      match r with
      | Some f => scan_loop fuel' mode fd size (pos + r_frameLen f) (frames ++ [f]) corrupt
      | None =>
          match mode with
          | Strict => Ok (ScanResult frames (corrupt ++ [(pos, size)]) pos)
          | Resync =>
              let? resume := resync_refs (length fd) fd (pos + 1) size in
              match resume with
              | None => Ok (ScanResult frames (corrupt ++ [(pos, size)]) pos)
              | Some r => scan_loop fuel' mode fd size r frames (corrupt ++ [(pos, r)])
              end
          end
      end
  end.

Definition scanFrameRefsFd (fd : buffer) (mode : corrupt_mode) (startOffset : Z) : result io_error scan_result :=
  scan_loop (S (length fd)) mode fd (blen fd) startOffset [] [].

(** * Batch sub-operations by reference *)

Definition scanBatchOpRef (body : buffer) (bodyOff o : Z) : result codec_error (batch_op_ref * Z) :=
  guard! o + SUB_HEADER <=? blen body else RangeError "batch op header truncated" ;;
  let type := readUInt8 body o in
  let keyLen := readUInt16LE body (o + 1) in
  let valLen := readUInt32LE body (o + 3) in
  let metaLen := readUInt32LE body (o + 7) in
  let expireAt := number_of_bigint (readBigInt64LE body (o + 11)) in
  let o := o + SUB_HEADER in
  guard! o + keyLen + valLen + metaLen <=? blen body else RangeError "batch op payload truncated" ;;
  Ok (BatchOpRef type (sub body o (o + keyLen))
        (opt_slice body (o + keyLen + valLen) metaLen) expireAt
        (bodyOff + o + keyLen) valLen,
      o + keyLen + valLen + metaLen).

Fixpoint scanBatchOpRefs_loop (count : nat) (body : buffer) (bodyOff o : Z)
    : result codec_error (list batch_op_ref) :=
  match count with
  | O => Ok []
  | S n =>
      let? r := scanBatchOpRef body bodyOff o in
      let? rest := scanBatchOpRefs_loop n body bodyOff (snd r) in
      Ok (fst r :: rest)
  end.

Definition scanBatchOpRefs (body : buffer) (bodyOff : Z) : result codec_error (list batch_op_ref) :=
  if blen body <? 2 then Ok []
  else scanBatchOpRefs_loop (Z.to_nat (readUInt16LE body 0)) body bodyOff 2.

(** * Agreement with the in-memory parser *)

Lemma readSync_in fd len pos :
  0 <= pos -> 0 <= len -> pos + len <= blen fd -> readSync fd len pos = sub fd pos (pos + len).
Proof. intros. unfold readSync. f_equal. lia. Qed.

Lemma readExactSync_in fd len pos :
  0 <= pos -> 0 <= len -> pos + len <= blen fd ->
  readExactSync fd len pos = Ok (sub fd pos (pos + len)).
Proof.
  intros. unfold readExactSync. rewrite readSync_in by done.
  by rewrite (proj2 (Z.ltb_ge _ _)) by (rewrite blen_sub; lia).
Qed.

Lemma sub_sub {A} (l : list A) a b c d :
  0 <= a -> 0 <= c -> a + d <= b -> sub (sub l a b) c d = sub l (a + c) (a + d).
Proof.
  intros. unfold sub. rewrite skipn_firstn_comm, drop_drop, take_take.
  f_equal; [lia|]. f_equal. lia.
Qed.

Lemma readUIntLE_sub n l a b c :
  0 <= a -> 0 <= c -> a + (c + n) <= b -> readUIntLE n (sub l a b) c = readUIntLE n l (a + c).
Proof. intros. unfold readUIntLE. rewrite sub_sub by lia. do 2 f_equal. lia. Qed.

Lemma sub_split {A} (l : list A) a b c :
  0 <= a <= b -> b <= c -> sub l a c = sub l a b ++ sub l b c.
Proof.
  intros. unfold sub.
  replace (Z.to_nat (c - a)) with (Z.to_nat (b - a) + Z.to_nat (c - b))%nat by lia.
  rewrite <- take_take_drop, drop_drop. do 3 f_equal. lia.
Qed.

Lemma crc_loop_spec fuel chunk fd crc pos left :
  1 <= chunk -> 0 <= pos -> 0 <= left -> pos + left <= blen fd -> left <= Z.of_nat fuel ->
  0 <= crc < 2 ^ 32 ->
  crc_loop fuel chunk fd crc pos left = Ok (crc32 (sub fd pos (pos + left)) crc).
Proof.
  intros Hc. revert crc pos left.
  induction fuel as [|fuel IH]; intros crc pos left Hp Hl Hb Hf Hcrc; cbn [crc_loop].
  - replace left with 0 by lia. rewrite Z.add_0_r. unfold sub. rewrite Z.sub_diag. cbn [Z.to_nat take].
    f_equal. symmetry. by apply crc32_nil.
  - destruct (Z.leb_spec left 0).
    + replace left with 0 by lia. rewrite Z.add_0_r. unfold sub. rewrite Z.sub_diag. cbn [Z.to_nat take].
      f_equal. symmetry. by apply crc32_nil.
    + rewrite readExactSync_in by lia. cbn [rbind]. rewrite IH by (try lia; apply crc32_range).
      rewrite <- crc32_app, <- sub_split by lia. do 3 f_equal. lia.
Qed.

Lemma find_magic_bound b n : find_magic b = Some n -> Z.of_nat n + 2 <= blen b.
Proof.
  intros H. pose proof (find_magic_spec b) as Hs. rewrite H in Hs. destruct Hs as [Hm _].
  unfold magic_at in Hm. apply bool_decide_eq_true_1 in Hm.
  apply (f_equal length) in Hm. unfold sub in Hm. rewrite length_take, length_drop in Hm.
  unfold blen. cbn in Hm. lia.
Qed.

Lemma magic_at_sub fd a b p :
  0 <= a -> 0 <= p -> a + p + 2 <= b -> magic_at (sub fd a b) p = magic_at fd (a + p).
Proof. intros. unfold magic_at. rewrite sub_sub by lia. by rewrite Z.add_assoc. Qed.

Lemma magic_at_near_end b p : 0 <= p -> blen b < p + 2 -> magic_at b p = false.
Proof.
  intros Hp H. unfold magic_at. apply bool_decide_eq_false_2. intros Hm.
  apply (f_equal length) in Hm. unfold sub in Hm. rewrite length_take, length_drop in Hm.
  unfold blen in H. cbn in Hm. lia.
Qed.

(** What both searches promise, as a specification on the whole file. *)
Definition first_magic (fd : buffer) (from : Z) (o : option Z) : Prop :=
  match o with
  | Some s => from <= s /\ magic_at fd s = true /\ forall p, from <= p < s -> magic_at fd p = false
  | None => forall p, from <= p -> magic_at fd p = false
  end.

Lemma first_magic_unique fd from o1 o2 :
  first_magic fd from o1 -> first_magic fd from o2 -> o1 = o2.
Proof.
  intros H1 H2. destruct o1 as [s1|], o2 as [s2|]; simpl in *.
  - destruct H1 as (L1 & M1 & N1), H2 as (L2 & M2 & N2). f_equal.
    destruct (Z.lt_trichotomy s1 s2) as [?|[?|?]]; [|done|].
    + rewrite N2 in M1 by lia. done.
    + rewrite N1 in M2 by lia. done.
  - destruct H1 as (L1 & M1 & _). by rewrite H2 in M1.
  - destruct H2 as (L2 & M2 & _). by rewrite H1 in M2.
  - done.
Qed.

(** The one-byte overlap of consecutive chunks loses no marker. *)
Lemma findMagic_loop_spec fuel chunk fd pos :
  2 <= chunk -> 0 <= pos -> blen fd - pos <= Z.of_nat fuel ->
  first_magic fd pos (findMagic_loop fuel chunk fd pos (blen fd)).
Proof.
  intros Hc. revert pos.
  assert (Hend : forall pos, 0 <= pos -> blen fd - 1 <= pos -> forall p, pos <= p -> magic_at fd p = false).
  { intros pos ? ? p ?. apply magic_at_near_end; lia. }
  induction fuel as [|fuel IH]; intros pos Hp Hf; cbn [findMagic_loop].
  { exact (Hend pos ltac:(lia) ltac:(lia)). }
  destruct (Z.leb_spec (blen fd) pos); [exact (Hend pos ltac:(lia) ltac:(lia))|].
  rewrite readSync_in by lia. set (len := Z.min chunk (blen fd - pos)).
  assert (Hlen : 1 <= len /\ pos + len <= blen fd) by lia.
  rewrite blen_sub by lia. replace (pos + len - pos) with len by lia.
  rewrite (proj2 (Z.eqb_neq len 0)) by lia.
  pose proof (find_magic_spec (sub fd pos (pos + len))) as Hs.
  destruct (find_magic _) as [n|] eqn:Hfm.
  - apply find_magic_bound in Hfm. rewrite blen_sub in Hfm by lia.
    destruct Hs as [Hm Hn]. cbn [first_magic]. rewrite magic_at_sub in Hm by lia.
    split; [lia|]. split; [done|]. intros p Hpp.
    specialize (Hn (Z.to_nat (p - pos)) ltac:(lia)). rewrite magic_at_sub in Hn by lia.
    by replace (pos + Z.of_nat (Z.to_nat (p - pos))) with p in Hn by lia.
  - change (blen MAGIC) with 2.
    assert (Hskip : forall p, pos <= p -> p + 2 <= pos + len -> magic_at fd p = false).
    { intros p ? ?. specialize (Hs (Z.to_nat (p - pos))). rewrite magic_at_sub in Hs by lia.
      by replace (pos + Z.of_nat (Z.to_nat (p - pos))) with p in Hs by lia. }
    destruct (Z.ltb_spec len 2).
    { intros p Hpp. apply magic_at_near_end; lia. }
    specialize (IH (pos + (len - (2 - 1))) ltac:(lia) ltac:(lia)).
    destruct (findMagic_loop _ _ _ _ _) as [s|]; simpl in *.
    + destruct IH as (? & ? & Hb). split; [lia|]. split; [done|].
      intros p ?. destruct (decide (p + 2 <= pos + len)); [apply Hskip; lia|apply Hb; lia].
    + intros p ?. destruct (decide (p + 2 <= pos + len)); [apply Hskip; lia|apply IH; lia].
Qed.

Lemma findMagicSync_indexOf fd start :
  0 <= start -> findMagicSync fd start (blen fd) = indexOf_magic fd start.
Proof.
  intros Hs. apply (first_magic_unique fd start).
  - apply findMagic_loop_spec; [unfold MAGIC_SCAN_CHUNK; lia|done|unfold blen; lia].
  - by apply indexOf_magic_spec.
Qed.

(** The reference to a frame that validates at [pos]. *)
Definition ref_at (pos : Z) (r : frame * Z) : frame_ref :=
  let f := fst r in
  FrameRef (f_type f) (f_key f) (f_meta f) (f_expireAt f) pos
    (pos + HEADER_SIZE + blen (f_key f)) (blen (f_value f)) (snd r).

Lemma readFrameRefAt_spec fd pos :
  0 <= pos <= blen fd ->
  readFrameRefAt fd pos (blen fd) = Ok (ref_at pos <$> readFrameAt fd pos).
Proof.
  intros Hp. unfold readFrameRefAt, readFrameAt.
  destruct (Z.ltb_spec (blen fd - pos) HEADER_SIZE) as [|Hh]; [done|].
  unfold HEADER_SIZE in Hh |- *.
  rewrite (readExactSync_in fd 22 pos) by lia. cbn [rbind].
  rewrite (magic_at_sub fd pos (pos + 22) 0), Z.add_0_r by lia.
  destruct (magic_at fd pos); [cbn [negb]|done].
  unfold readUInt8, readUInt16LE, readUInt32LE, readBigInt64LE. cbv zeta.
  rewrite !(readUIntLE_sub _ fd pos (pos + 22)) by lia.
  pose proof (readUIntLE_nonneg 2 fd (pos + 4)) as Hk.
  pose proof (readUIntLE_nonneg 4 fd (pos + 6)) as Hv.
  pose proof (readUIntLE_nonneg 4 fd (pos + 10)) as Hm.
  set (kl := readUIntLE 2 fd (pos + 4)) in *. set (vl := readUIntLE 4 fd (pos + 6)) in *.
  set (ml := readUIntLE 4 fd (pos + 10)) in *.
  destruct (MAX_KEY_LEN <? kl); [done|].
  destruct (_ <? 22 + CRC_SIZE); [done|].
  unfold CRC_SIZE in *.
  destruct (Z.ltb_spec (blen fd - pos) (22 + kl + vl + ml + 4)); [done|].
  rewrite crc_loop_spec by (unfold CRC_CHUNK; lia). cbn [rbind].
  rewrite readExactSync_in by lia. cbn [rbind].
  rewrite readUIntLE_sub, Z.add_0_r by lia.
  replace (pos + 2 + (22 + kl + vl + ml + 4 - 4 - 2)) with (pos + (22 + kl + vl + ml + 4) - 4) by lia.
  destruct (_ =? _); [cbn [negb]|done].
  assert (Hkey : (if kl =? 0 then Ok [] else readExactSync fd kl (pos + 22)) =
                 Ok (E := io_error) (sub fd (pos + 22) (pos + 22 + kl))).
  { destruct (Z.eqb_spec kl 0) as [->|]; [|by rewrite readExactSync_in by lia].
    unfold sub. by rewrite Z.add_0_r, Z.sub_diag. }
  rewrite Hkey. cbn [rbind]. unfold opt_slice.
  destruct (Z.eqb_spec ml 0) as [->|].
  - cbn [rbind fmap option_fmap option_map]. unfold ref_at. cbn [fst snd f_type f_key f_value f_meta f_expireAt].
    unfold HEADER_SIZE. rewrite !blen_sub by lia. do 3 f_equal; lia.
  - rewrite readExactSync_in by lia.
    cbn [rbind fmap option_fmap option_map]. unfold ref_at. cbn [fst snd f_type f_key f_value f_meta f_expireAt].
    unfold HEADER_SIZE. rewrite !blen_sub by lia. do 3 f_equal; lia.
Qed.

Lemma resync_refs_spec fuel fd scan :
  0 <= scan <= blen fd -> resync_refs fuel fd scan (blen fd) = Ok (resync_scan fuel fd scan).
Proof.
  revert scan. induction fuel as [|fuel IH]; intros scan Hs; [done|].
  cbn [resync_refs resync_scan].
  destruct (Z.leb_spec (blen fd - 1) scan); [done|].
  rewrite findMagicSync_indexOf by lia.
  pose proof (indexOf_magic_spec fd scan ltac:(lia)) as Hi.
  destruct (indexOf_magic fd scan) as [s|]; [|done].
  destruct Hi as (Hle & Hm & _).
  assert (Hend : s + 2 <= blen fd).
  { destruct (decide (s + 2 <= blen fd)); [done|].
    rewrite magic_at_near_end in Hm by lia. discriminate. }
  rewrite readFrameRefAt_spec by lia. cbn [rbind].
  destruct (readFrameAt fd s); [done|]. apply IH. lia.
Qed.

(** The value of a reference, read from the file. *)
Definition ref_frame (fd : buffer) (r : frame_ref) : frame :=
  Frame (r_type r) (r_key r) (sub fd (r_valueOff r) (r_valueOff r + r_valLen r))
        (r_meta r) (r_expireAt r).

Lemma ref_frame_at fd pos f len :
  0 <= pos -> readFrameAt fd pos = Some (f, len) -> ref_frame fd (ref_at pos (f, len)) = f.
Proof.
  intros Hp H. pose proof (readFrameAt_bounds _ _ _ _ H) as Hb. revert H.
  unfold readFrameAt. cbv zeta. unfold readUInt16LE, readUInt32LE.
  pose proof (readUIntLE_nonneg 2 fd (pos + 4)). pose proof (readUIntLE_nonneg 4 fd (pos + 6)).
  pose proof (readUIntLE_nonneg 4 fd (pos + 10)).
  repeat (case_match; try discriminate). intros [= <- <-].
  unfold ref_frame, ref_at, HEADER_SIZE, CRC_SIZE in *. cbn.
  rewrite !blen_sub by lia. f_equal. f_equal; lia.
Qed.

(** The parse result a scan stands for. *)
Definition scan_parse (fd : buffer) (s : scan_result) : parse_result :=
  ParseResult (ref_frame fd <$> s_frames s) (s_corruptRanges s) (s_eofOffset s).

(** The value of a reference lies inside the file. *)
Definition ref_ok (fd : buffer) (r : frame_ref) : Prop :=
  0 <= r_valueOff r /\ 0 <= r_valLen r /\ r_valueOff r + r_valLen r <= blen fd.

Lemma ref_ok_at fd pos f len :
  0 <= pos -> readFrameAt fd pos = Some (f, len) -> ref_ok fd (ref_at pos (f, len)).
Proof.
  intros Hp H. pose proof (readFrameAt_bounds _ _ _ _ H) as Hb. pose proof (readFrameAt_size _ _ _ _ Hp H) as Hsz.
  unfold ref_ok, ref_at. cbn. unfold frame_size, HEADER_SIZE, CRC_SIZE in *.
  blen_facts; lia.
Qed.

Lemma scan_loop_spec fuel mode fd pos frs fs cs :
  0 <= pos <= blen fd -> fs = ref_frame fd <$> frs -> Forall (ref_ok fd) frs ->
  exists s, scan_loop fuel mode fd (blen fd) pos frs cs = Ok s /\
            scan_parse fd s = parse_loop fuel mode fd pos fs cs /\ Forall (ref_ok fd) (s_frames s).
Proof.
  revert pos frs fs cs. induction fuel as [|fuel IH]; intros pos frs fs cs Hp -> Hok;
    cbn [scan_loop parse_loop]; [by eexists|].
  destruct (Z.leb_spec (blen fd) pos); [by eexists|].
  rewrite readFrameRefAt_spec by lia. cbn [rbind].
  destruct (readFrameAt fd pos) as [[f len]|] eqn:Hr; cbn [fmap option_fmap option_map].
  { pose proof (readFrameAt_bounds _ _ _ _ Hr) as Hb. unfold HEADER_SIZE, CRC_SIZE in Hb.
    apply IH; [cbn; lia| |].
    - rewrite fmap_app. cbn. by rewrite ref_frame_at by (lia || done).
    - apply Forall_app. split; [done|]. constructor; [|constructor]. apply ref_ok_at; [lia|done]. }
  destruct mode; [|by eexists].
  rewrite resync_refs_spec by lia. cbn [rbind].
  pose proof (resync_scan_spec (length fd) fd (pos + 1) ltac:(lia)) as Hs.
  specialize (Hs ltac:(unfold blen; lia)).
  destruct (resync_scan _ fd (pos + 1)) as [r|]; [|by eexists].
  destruct Hs as (? & [[f len] Hf] & _). apply readFrameAt_bounds in Hf.
  unfold HEADER_SIZE, CRC_SIZE in Hf. by apply IH; [lia|..].
Qed.

(** A scan of the rest of a file from any offset inside it. *)
Lemma scanFrameRefsFd_spec fd mode start :
  0 <= start <= blen fd ->
  exists s, scanFrameRefsFd fd mode start = Ok s /\
            scan_parse fd s = parse_loop (S (length fd)) mode fd start [] [] /\ Forall (ref_ok fd) (s_frames s).
Proof. intros. unfold scanFrameRefsFd. apply scan_loop_spec; [done|done|constructor]. Qed.

(** recovery's scanner refines the in-memory parser. It never runs past the end
    of the file, and the references it returns denote exactly the frames, corrupt
    ranges and end offset of [parseBuffer] on the file's bytes, although checksums
    are computed and markers searched a chunk at a time. *)
Theorem scanFrameRefsFd_refines_parse fd mode :
  exists s, scanFrameRefsFd fd mode 0 = Ok s /\ scan_parse fd s = parseBuffer fd mode.
Proof.
  pose proof (blen_nonneg fd). unfold parseBuffer.
  destruct (scanFrameRefsFd_spec fd mode 0 ltac:(lia)) as (s & H1 & H2 & _). by exists s.
Qed.

(** A sub-operation reference denotes the operation [decodeBatchOps] copies. *)
Definition op_ref_frame (fd : buffer) (o : batch_op_ref) : frame :=
  Frame (o_type o) (o_key o) (sub fd (o_valueOff o) (o_valueOff o + o_valLen o))
        (o_meta o) (o_expireAt o).

(** The two decoders of batch bodies agree, errors included, wherever the body sits
    in the file. *)
Lemma scanBatchOpRefs_loop_spec n fd a b o :
  0 <= a -> 0 <= o -> a <= b -> b <= blen fd ->
  match scanBatchOpRefs_loop n (sub fd a b) a o, decodeBatchOps_loop n (sub fd a b) o with
  | Ok ops, Ok fs => op_ref_frame fd <$> ops = fs
  | Err e1, Err e2 => e1 = e2
  | _, _ => False
  end.
Proof.
  intros Ha Ho Hab Hb. revert o Ho. induction n as [|n IH]; intros o Ho; [done|].
  cbn [scanBatchOpRefs_loop decodeBatchOps_loop].
  unfold scanBatchOpRef, decodeBatchOp. cbv zeta.
  pose proof (readUIntLE_nonneg 2 (sub fd a b) (o + 1)) as Hk.
  pose proof (readUIntLE_nonneg 4 (sub fd a b) (o + 3)) as Hv.
  pose proof (readUIntLE_nonneg 4 (sub fd a b) (o + 7)) as Hm.
  unfold readUInt16LE, readUInt32LE, SUB_HEADER in *.
  set (kl := readUIntLE 2 _ _) in *. set (vl := readUIntLE 4 _ _) in *.
  set (ml := readUIntLE 4 _ (o + 7)) in *.
  rewrite blen_sub by lia.
  destruct (_ <=? _); [|done]. destruct (Z.leb_spec (o + (1 + 2 + 4 + 4 + 8) + kl + vl + ml) (b - a)); [|done].
  cbn [rbind fst snd].
  specialize (IH (o + (1 + 2 + 4 + 4 + 8) + kl + vl + ml) ltac:(lia)).
  destruct (scanBatchOpRefs_loop n _ _ _), (decodeBatchOps_loop n _ _); cbn [rbind]; try done.
  cbn [fmap list_fmap]. rewrite IH. f_equal.
  unfold op_ref_frame. cbn. f_equal. rewrite sub_sub by lia. f_equal; lia.
Qed.

Theorem scanBatchOpRefs_refines_decode fd a b :
  0 <= a <= b -> b <= blen fd ->
  match scanBatchOpRefs (sub fd a b) a, decodeBatchOps (sub fd a b) with
  | Ok ops, Ok fs => op_ref_frame fd <$> ops = fs
  | Err e1, Err e2 => e1 = e2
  | _, _ => False
  end.
Proof.
  intros. unfold scanBatchOpRefs, decodeBatchOps. destruct (_ <? 2); [done|].
  apply scanBatchOpRefs_loop_spec; lia.
Qed.

Definition op_ok (fd : buffer) (o : batch_op_ref) : Prop :=
  0 <= o_valueOff o /\ 0 <= o_valLen o /\ o_valueOff o + o_valLen o <= blen fd.

(** Decoding a well-formed body by reference. *)
Lemma scanBatchOpRefs_body fd a ops :
  0 <= a -> a + blen (batch_body ops) <= blen fd -> sub fd a (a + blen (batch_body ops)) = batch_body ops ->
  blen ops < 2 ^ 16 -> Forall encodable ops ->
  exists os, scanBatchOpRefs (batch_body ops) a = Ok os /\ op_ref_frame fd <$> os = input_frame <$> ops /\
             Forall (op_ok fd) os.
Proof.
  intros Ha Hb Hsub Hc Hops. pose proof (decodeBatchOps_body ops Hc Hops) as Hd.
  blen_facts. set (b := a + blen (batch_body ops)) in *.
  rewrite <- Hsub in Hd |- *. unfold scanBatchOpRefs, decodeBatchOps in *.
  destruct (_ <? 2); [by exists []; injection Hd as <-|]. set (n := Z.to_nat _) in *.
  pose proof (scanBatchOpRefs_loop_spec n fd a b 2 ltac:(lia) ltac:(lia) ltac:(lia) ltac:(lia)) as Hs.
  rewrite Hd in Hs. destruct (scanBatchOpRefs_loop n (sub fd a b) a 2) as [os|] eqn:E; [|done].
  exists os. split_and!; [done..|].
  assert (Hg : forall m o os, 0 <= o -> scanBatchOpRefs_loop m (sub fd a b) a o = Ok os -> Forall (op_ok fd) os).
  { clear -Ha Hb. induction m as [|m IH]; intros o os Ho; cbn [scanBatchOpRefs_loop].
    { by intros [= <-]. }
    unfold scanBatchOpRef. cbv zeta.
    pose proof (readUIntLE_nonneg 2 (sub fd a b) (o + 1)) as Hk.
    pose proof (readUIntLE_nonneg 4 (sub fd a b) (o + 3)) as Hv.
    pose proof (readUIntLE_nonneg 4 (sub fd a b) (o + 7)) as Hm.
    unfold readUInt16LE, readUInt32LE, SUB_HEADER in *.
    pose proof (blen_nonneg (batch_body ops)).
    intros ([r o'] & Hr & (rest & Hrest & [= <-])%rbind_ok)%rbind_ok. cbn [fst snd] in *.
    apply guard_ok in Hr as [_ Hr]. apply guard_ok in Hr as [Hle [= <- <-]]. apply Z.leb_le in Hle.
    rewrite blen_sub in Hle by lia.
    constructor; [unfold op_ok; cbn; lia|]. eapply IH; [|exact Hrest]. lia. }
  by apply (Hg n 2).
Qed.

(** * Scanning a log *)

(** The references to consecutive frames from [pos] on. *)
Fixpoint log_refs (pos : Z) (ins : list frame_input) : list frame_ref :=
  match ins with
  | [] => []
  | i :: ins' => ref_at pos (input_frame i, blen (input_bytes i)) :: log_refs (pos + blen (input_bytes i)) ins'
  end.

Lemma log_bytes_cons i ins : log_bytes (i :: ins) = input_bytes i ++ log_bytes ins.
Proof. done. Qed.

Lemma log_refs_ok pre ins rest :
  Forall encodable ins ->
  let fd := pre ++ log_bytes ins ++ rest in
  Forall2 (fun r i => ref_ok fd r /\ ref_frame fd r = input_frame i) (log_refs (blen pre) ins) ins.
Proof.
  intros Hins. revert pre. induction Hins as [|i ins Hi Hins IH]; intros pre; cbn [log_refs]; [constructor|].
  cbv zeta. rewrite log_bytes_cons, <- app_assoc.
  pose proof (readFrameAt_mid pre i (log_bytes ins ++ rest) Hi) as Hr. constructor.
  - split; [apply ref_ok_at|apply ref_frame_at]; (apply blen_nonneg || done).
  - specialize (IH (pre ++ input_bytes i)). cbv zeta in IH. rewrite blen_app, <- app_assoc in IH. done.
Qed.

Lemma scan_loop_log ins : Forall encodable ins -> forall fuel mode pre rest frs cs,
  let fd := pre ++ log_bytes ins ++ rest in
  scan_loop (length ins + fuel) mode fd (blen fd) (blen pre) frs cs =
  scan_loop fuel mode fd (blen fd) (blen (pre ++ log_bytes ins)) (frs ++ log_refs (blen pre) ins) cs.
Proof.
  induction 1 as [|i ins Hi Hins IH]; intros fuel mode pre rest frs cs; cbv zeta.
  { unfold log_bytes. cbn. by rewrite !app_nil_r. }
  cbn [length Nat.add scan_loop log_refs]. rewrite log_bytes_cons, <- app_assoc.
  pose proof (input_bytes_pos i) as Hpos. blen_facts. unfold HEADER_SIZE, CRC_SIZE in *.
  rewrite (proj2 (Z.leb_gt _ _)) by len_lia.
  rewrite readFrameRefAt_spec by len_lia.
  rewrite readFrameAt_mid by done. cbn [fmap option_fmap option_map rbind].
  specialize (IH fuel mode (pre ++ input_bytes i) rest
    (frs ++ [ref_at (blen pre) (input_frame i, blen (input_bytes i))]) cs).
  cbv zeta in IH. rewrite <- !app_assoc in IH. rewrite (blen_app pre (input_bytes i)) in IH. cbn [app] in IH. exact IH.
Qed.

(** A log of whole frames scans to its references, in either mode. *)
Lemma scan_log ins mode :
  Forall encodable ins ->
  scanFrameRefsFd (log_bytes ins) mode 0 = Ok (ScanResult (log_refs 0 ins) [] (blen (log_bytes ins))).
Proof.
  intros Hins. unfold scanFrameRefsFd. pose proof (length_log_bytes ins).
  replace (S (length (log_bytes ins))) with (length ins + S (length (log_bytes ins) - length ins))%nat by lia.
  pose proof (scan_loop_log ins Hins (S (length (log_bytes ins) - length ins)) mode [] [] [] []) as Hs.
  cbv zeta in Hs. rewrite app_nil_r in Hs. cbn [app] in Hs. change (blen (@nil byte)) with 0 in Hs.
  rewrite Hs. cbn [scan_loop].
  by rewrite Z.leb_refl.
Qed.

(** The rest of a log that may end in a torn frame, scanned strictly from a frame
    boundary. *)
Lemma scan_log_torn ins1 ins2 i k :
  Forall encodable ins2 -> encodable i -> 0 <= k < blen (input_bytes i) ->
  let fd := log_bytes ins1 ++ log_bytes ins2 ++ take (Z.to_nat k) (input_bytes i) in
  let good := blen (log_bytes ins1) + blen (log_bytes ins2) in
  scanFrameRefsFd fd Strict (blen (log_bytes ins1)) =
  Ok (ScanResult (log_refs (blen (log_bytes ins1)) ins2) (if k =? 0 then [] else [(good, blen fd)]) good).
Proof.
  intros Hins Hi Hk. cbv zeta. set (tail := take (Z.to_nat k) (input_bytes i)).
  set (fd := log_bytes ins1 ++ log_bytes ins2 ++ tail).
  assert (Htl : blen tail = k) by (apply blen_take; lia).
  pose proof (blen_nonneg (log_bytes ins1)) as H1. pose proof (blen_nonneg (log_bytes ins2)) as H2.
  assert (Hfd : blen fd = blen (log_bytes ins1) + blen (log_bytes ins2) + k)
    by (unfold fd; rewrite !blen_app; lia).
  pose proof (length_log_bytes ins2) as Hl2.
  assert (Hlen : (length ins2 <= length fd)%nat) by (unfold fd; rewrite !length_app; lia).
  unfold scanFrameRefsFd.
  replace (S (length fd)) with (length ins2 + S (length fd - length ins2))%nat by lia.
  pose proof (scan_loop_log ins2 Hins (S (length fd - length ins2)) Strict (log_bytes ins1) tail [] []) as Hs.
  cbv zeta in Hs. fold fd in Hs. rewrite Hs. cbn [scan_loop app]. rewrite blen_app.
  destruct (Z.eqb_spec k 0) as [->|Hk0].
  - rewrite (proj2 (Z.leb_le _ _)) by lia. done.
  - rewrite (proj2 (Z.leb_gt _ _)) by lia. rewrite readFrameRefAt_spec by lia.
    assert (Hbad : readFrameAt fd (blen (log_bytes ins1) + blen (log_bytes ins2)) = None).
    { rewrite <- blen_app. rewrite readFrameAt_drop by (rewrite blen_app; lia).
      unfold fd. rewrite app_assoc. unfold blen. rewrite Nat2Z.id, drop_app_length.
      apply readFrameAt_truncated; [done|lia]. }
    by rewrite Hbad.
Qed.
