(* ===== verification/JsMap.v ===== *)
(** The language's [Map]: an association list in insertion order with one entry per
    key. [set] on a present key keeps the key's position; iteration follows the
    list. Also JavaScript strings, as lists of code units with their order. *)

From S2P Require Import Prelude.

Section jsmap.
Context {K V : Type} `{EqDecision K}.
Implicit Types (m : list (K * V)) (k : K) (v : V).

Fixpoint jget m k : option V :=
  match m with
  | [] => None
  | (k', v') :: m' => if decide (k' = k) then Some v' else jget m' k
  end.

Fixpoint jset m k v : list (K * V) :=
  match m with
  | [] => [(k, v)]
  | (k', v') :: m' => if decide (k' = k) then (k, v) :: m' else (k', v') :: jset m' k v
  end.

Fixpoint jdel m k : list (K * V) :=
  match m with
  | [] => []
  | (k', v') :: m' => if decide (k' = k) then m' else (k', v') :: jdel m' k
  end.

Definition jhas m k : bool := match jget m k with Some _ => true | None => false end.

Definition jkeys m : list K := m.*1.

#[export] Instance jkeys_proper : Proper ((≡ₚ) ==> (≡ₚ)) jkeys.
Proof. intros m1 m2 Hm. unfold jkeys. by rewrite Hm. Qed.

(** Well-formedness: one entry per key. *)
Definition jwf m : Prop := NoDup (jkeys m).

Lemma jget_None m k : jget m k = None <-> k ∉ jkeys m.
Proof.
  unfold jkeys. induction m as [|[k' v'] m IH]; cbn; [split; [by intros _ ?%elem_of_nil|done]|].
  rewrite not_elem_of_cons. case_decide; subst; [by split; [|intros [? _]]|].
  rewrite IH. split; [by intros ?; split; [congruence|]|by intros [_ ?]].
Qed.

Lemma jget_Some_in m k v : jget m k = Some v -> (k, v) ∈ m.
Proof.
  induction m as [|[k' v'] m IH]; cbn; [done|].
  case_decide; subst; [intros [= ->]; by left|]. intros Hm%IH. by right.
Qed.

Lemma jget_in m k v : jwf m -> (k, v) ∈ m -> jget m k = Some v.
Proof.
  unfold jwf, jkeys. induction m as [|[k' v'] m IH]; cbn; [set_solver|].
  intros [Hn Hd]%NoDup_cons [[= -> ->]|Hin]%elem_of_cons; [by rewrite decide_True|].
  case_decide; subst; [|by apply IH].
  destruct Hn. apply list_elem_of_fmap. by exists (k, v).
Qed.

Lemma jget_set_eq m k v : jget (jset m k v) k = Some v.
Proof.
  induction m as [|[k' v'] m IH]; cbn; [by rewrite decide_True|].
  case_decide; cbn; [by rewrite decide_True|by rewrite decide_False].
Qed.

Lemma jget_set_ne m k k' v : k <> k' -> jget (jset m k v) k' = jget m k'.
Proof.
  intros Hne. induction m as [|[k1 v1] m IH]; cbn; [by rewrite decide_False|].
  case_decide; subst; cbn; [by rewrite !decide_False|]. by rewrite IH.
Qed.

Lemma jget_del_ne m k k' : k <> k' -> jget (jdel m k) k' = jget m k'.
Proof.
  intros Hne. induction m as [|[k1 v1] m IH]; cbn; [done|].
  case_decide; subst; cbn; [by rewrite decide_False|]. by rewrite IH.
Qed.

Lemma jget_del_eq m k : jwf m -> jget (jdel m k) k = None.
Proof.
  unfold jwf, jkeys. induction m as [|[k1 v1] m IH]; cbn; [done|].
  intros [Hn Hd]%NoDup_cons. case_decide; subst; [by apply jget_None|].
  cbn. rewrite decide_False by done. by apply IH.
Qed.

Lemma jkeys_set m k v :
  jkeys (jset m k v) = if jhas m k then jkeys m else jkeys m ++ [k].
Proof.
  unfold jhas. induction m as [|[k1 v1] m IH]; cbn; [done|].
  case_decide; subst; [done|]. cbn. unfold jkeys in *. rewrite IH. by destruct (jget m k).
Qed.

Lemma jdel_notin m k : jget m k = None -> jdel m k = m.
Proof.
  induction m as [|[k1 v1] m IH]; cbn; [done|]. case_decide; [done|]. intros Hm. by rewrite IH.
Qed.

Lemma jdel_elem m k k' : k' ∈ jkeys (jdel m k) -> k' ∈ jkeys m.
Proof.
  unfold jkeys. induction m as [|[k1 v1] m IH]; cbn; [done|].
  case_decide; cbn; set_solver.
Qed.

Lemma jdel_perm m k v : jget m k = Some v -> (k, v) :: jdel m k ≡ₚ m.
Proof.
  induction m as [|[k1 v1] m IH]; cbn; [done|].
  case_decide; subst; [by intros [= ->]|]. intros Hm%IH. rewrite <- Hm at 2. by constructor.
Qed.

Lemma jkeys_del_perm m k v : jget m k = Some v -> jkeys m ≡ₚ k :: jkeys (jdel m k).
Proof. intros Hm. symmetry. unfold jkeys. apply (fmap_Permutation fst ((k, v) :: jdel m k)), jdel_perm, Hm. Qed.

Lemma jwf_del m k : jwf m -> jwf (jdel m k).
Proof.
  unfold jwf, jkeys. induction m as [|[k1 v1] m IH]; cbn; [done|].
  intros [Hn Hd]%NoDup_cons. case_decide; [done|]. cbn. constructor; [|by apply IH].
  contradict Hn. by apply (jdel_elem m k).
Qed.

Lemma jwf_set m k v : jwf m -> jwf (jset m k v).
Proof.
  unfold jwf. intros Hd. rewrite jkeys_set. unfold jhas.
  destruct (jget m k) eqn:E; [done|]. apply jget_None in E.
  apply NoDup_app. split; [done|]. split; [set_solver|apply NoDup_singleton].
Qed.

Lemma jset_perm_new m k v : jget m k = None -> jset m k v ≡ₚ (k, v) :: m.
Proof.
  induction m as [|[k1 v1] m IH]; cbn; [done|]. case_decide; [done|].
  intros Hm%IH. rewrite Hm. by constructor.
Qed.

Lemma jset_perm_old m k v v0 : jget m k = Some v0 -> jset m k v ≡ₚ (k, v) :: jdel m k.
Proof.
  induction m as [|[k1 v1] m IH]; cbn; [done|]. case_decide; subst; [done|].
  intros Hm%IH. rewrite Hm. by constructor.
Qed.

Lemma jset_in m k v k' v' :
  jwf m -> (k', v') ∈ jset m k v -> (k' = k /\ v' = v) \/ (k' <> k /\ (k', v') ∈ m).
Proof.
  intros Hm Hin. apply jget_in in Hin; [|by apply jwf_set]. destruct (decide (k' = k)) as [->|Hne].
  - rewrite jget_set_eq in Hin. left. by injection Hin.
  - rewrite jget_set_ne in Hin by done. right. split; [done|]. by apply jget_Some_in.
Qed.

Lemma jdel_in m k k' v' : jwf m -> (k', v') ∈ jdel m k -> k' <> k /\ (k', v') ∈ m.
Proof.
  intros Hm Hin. apply jget_in in Hin; [|by apply jwf_del]. destruct (decide (k' = k)) as [->|Hne].
  - by rewrite jget_del_eq in Hin.
  - rewrite jget_del_ne in Hin by done. split; [done|]. by apply jget_Some_in.
Qed.

Lemma jwf_filter (P : K * V -> Prop) `{!forall p, Decision (P p)} m : jwf m -> jwf (filter P m).
Proof.
  unfold jwf, jkeys. intros Hm. eapply sublist_NoDup; [exact Hm|].
  apply (fmap_sublist fst), sublist_filter.
Qed.

Lemma jget_filter (P : K * V -> Prop) `{!forall p, Decision (P p)} m k :
  jwf m -> jget (filter P m) k = v ← jget m k; if decide (P (k, v)) then Some v else None.
Proof.
  intros Hm. destruct (jget m k) as [v|] eqn:E; cbn.
  - apply jget_Some_in in E. destruct (decide (P (k, v))) as [HP|HP].
    + apply jget_in; [by apply jwf_filter|]. by apply list_elem_of_filter.
    + apply jget_None. intros (p & Ek & [Hp Hin]%list_elem_of_filter)%list_elem_of_fmap.
      destruct p as [k' v']. cbn in Ek; subst k'.
      pose proof (jget_in m k v' Hm Hin) as E1. rewrite (jget_in m k v Hm E) in E1. by injection E1 as ->.
  - apply jget_None. apply jget_None in E. contradict E.
    apply list_elem_of_fmap in E as (p & -> & [_ Hin]%list_elem_of_filter).
    by apply (list_elem_of_fmap_2 fst).
Qed.

Lemma jwf_nil : jwf [].
Proof. constructor. Qed.

Lemma jget_set m k k' v :
  jget (jset m k v) k' = if decide (k = k') then Some v else jget m k'.
Proof. case_decide; subst; [apply jget_set_eq|by apply jget_set_ne]. Qed.

Lemma jget_del m k k' : jwf m -> jget (jdel m k) k' = if decide (k = k') then None else jget m k'.
Proof. intros Hm. case_decide; subst; [by apply jget_del_eq|by apply jget_del_ne]. Qed.
End jsmap.

(** * Strings *)

Abbreviation jsstr := (list N).

(** [<] on strings: lexicographic on code units. *)
Fixpoint str_compare (a b : jsstr) : comparison :=
  match a, b with
  | [], [] => Eq
  | [], _ :: _ => Lt
  | _ :: _, [] => Gt
  | x :: a', y :: b' =>
      match N.compare x y with
      | Eq => str_compare a' b'
      | c => c
      end
  end.

Definition cmpString (a b : jsstr) : Z :=
  match str_compare a b with Lt => -1 | Gt => 1 | Eq => 0 end.

Lemma str_compare_eq a b : str_compare a b = Eq <-> a = b.
Proof.
  revert b. induction a as [|x a IH]; intros [|y b]; cbn; try (split; congruence).
  destruct (N.compare_spec x y); subst.
  - rewrite IH. split; [by intros ->|by intros [= ->]].
  - split; [done|]. intros [= -> _]. lia.
  - split; [done|]. intros [= -> _]. lia.
Qed.

Lemma str_compare_antisym a b : str_compare b a = CompOpp (str_compare a b).
Proof.
  revert b. induction a as [|x a IH]; intros [|y b]; cbn; try done.
  rewrite N.compare_antisym. destruct (N.compare x y); cbn; auto.
Qed.

Lemma str_compare_trans a b c :
  str_compare a b = Lt -> str_compare b c = Lt -> str_compare a c = Lt.
Proof.
  revert b c. induction a as [|x a IH]; intros [|y b] [|z c]; cbn; try done.
  destruct (N.compare_spec x y), (N.compare_spec y z), (N.compare_spec x z);
    try done; try lia; subst; eauto.
Qed.
