(* ===== verification/Json.v ===== *)
(** JSON values, as [JSON.parse] builds them. Numbers are integers; the order of an
    object's fields is its property order. *)

From S2P Require Import Prelude JsMap.

Inductive json :=
| JNull
| JBool (b : bool)
| JNumber (n : Z)
| JString (s : jsstr)
| JArray (l : list json)
| JObject (fields : list (jsstr * json)).

(** [v.name]; [None] is [undefined]. *)
Definition json_field (v : json) (name : jsstr) : option json :=
  match v with
  | JObject fields => jget fields name
  | _ => None
  end.

Definition str_dt : jsstr := [100; 116]%N.

(** Every field a number, or no map. *)
Fixpoint number_fields (fields : list (jsstr * json)) : option (list (jsstr * Z)) :=
  match fields with
  | [] => Some []
  | (k, JNumber n) :: fields' => (fun d => (k, n) :: d) <$> number_fields fields'
  | _ => None
  end.

(** [parsed.dt ?? null] at type [Record<string, number> | null]. *)
Definition dt_of_json (v : option json) : option (list (jsstr * Z)) :=
  match v with
  | Some (JObject fields) => number_fields fields
  | _ => None
  end.

Definition dt_json (d : list (jsstr * Z)) : json :=
  JObject [(str_dt, JObject ((fun '(k, n) => (k, JNumber n)) <$> d))].

Lemma number_fields_json d : number_fields ((fun '(k, n) => (k, JNumber n)) <$> d) = Some d.
Proof. induction d as [|[k n] d IH]; cbn; [done|]. by rewrite IH. Qed.

Lemma dt_of_dt_json d : dt_of_json (json_field (dt_json d) str_dt) = Some d.
Proof. cbn. apply number_fields_json. Qed.
