(* ===== verification/Ordered.v ===== *)
(** The ordered-index interface: what [packages/minidb/src/skiplist.ts] promises to
    the store and to the secondary indexes. The reference implementation is a list
    of entries ascending by key and then value; [OrderedIndex] states that an
    implementation represents such a list and that its operations follow it. *)

From S2P Require Import Prelude JsMap.

(** * Comparators *)

Class Comparator {A} (cmp : A -> A -> Z) : Prop := {
  cmp_eq : forall a b, cmp a b = 0 <-> a = b;
  cmp_antisym : forall a b, cmp a b < 0 <-> 0 < cmp b a;
  cmp_trans : forall a b c, cmp a b < 0 -> cmp b c < 0 -> cmp a c < 0;
}.

Definition cmpNumber (a b : Z) : Z := a - b.

#[export] Instance cmpNumber_ok : Comparator cmpNumber.
Proof. unfold cmpNumber. split; lia. Qed.

#[export] Instance cmpString_ok : Comparator cmpString.
Proof.
  unfold cmpString. split.
  - intros a b. rewrite <- str_compare_eq. by destruct (str_compare a b).
  - intros a b. rewrite (str_compare_antisym b a). by destruct (str_compare b a).
  - intros a b c. destruct (str_compare a b) eqn:E1, (str_compare b c) eqn:E2; try done.
    intros _ _. by rewrite (str_compare_trans a b c).
Qed.

(** * Range options *)

Record range_opts (K : Type) := RangeOpts {
  gte : option K;
  gt : option K;
  lte : option K;
  lt : option K;
  offset : Z;
  count : option Z;   (* [None]: Infinity *)
  reverse : bool;
}.
Arguments RangeOpts {K}.
Arguments gte {K}. Arguments gt {K}. Arguments lte {K}. Arguments lt {K}.
Arguments offset {K}. Arguments count {K}. Arguments reverse {K}.

Definition all_range {K} : range_opts K := RangeOpts None None None None 0 None false.

Section entries.
Context {K V : Type} (cmpK : K -> K -> Z) (cmpV : V -> V -> Z).
Context `{!Comparator cmpK, !Comparator cmpV}.

Implicit Types (e : K * V) (l : list (K * V)).

(** [nodeLess]. *)
Definition ent_less e1 e2 : bool :=
  (cmpK e1.1 e2.1 <? 0) || ((cmpK e1.1 e2.1 =? 0) && (cmpV e1.2 e2.2 <? 0)).

Definition ent_eqb e1 e2 : bool := (cmpK e1.1 e2.1 =? 0) && (cmpV e1.2 e2.2 =? 0).

(** * The reference operations *)

Fixpoint sorted_insert e l : list (K * V) :=
  match l with
  | [] => [e]
  | e' :: l' => if ent_less e' e then e' :: sorted_insert e l' else e :: l
  end.

Fixpoint sorted_delete e l : list (K * V) :=
  match l with
  | [] => []
  | e' :: l' => if ent_less e' e then e' :: sorted_delete e l'
                else if ent_eqb e' e then l' else l
  end.

(** Position of the first entry that is not below [e]. *)
Fixpoint sorted_pos e l : nat :=
  match l with
  | [] => O
  | e' :: l' => if ent_less e' e then S (sorted_pos e l') else O
  end.

Definition sorted_mem e l : bool :=
  match l !! sorted_pos e l with Some e' => ent_eqb e' e | None => false end.

(** Entries before the lower bound. *)
Definition below (strict : bool) (bound : K) e : bool :=
  if strict then cmpK e.1 bound <=? 0 else cmpK e.1 bound <? 0.

Fixpoint drop_while (p : K * V -> bool) l : list (K * V) :=
  match l with
  | [] => []
  | e :: l' => if p e then drop_while p l' else l
  end.

Fixpoint take_while (p : K * V -> bool) l : list (K * V) :=
  match l with
  | [] => []
  | e :: l' => if p e then e :: take_while p l' else []
  end.

(** The collecting loop shared by [range] and [iterate]. *)
Fixpoint range_loop (stop : K -> bool) (l : list (K * V)) (offset : Z) (count : option Z)
    : list (K * V) :=
  match l with
  | [] => []
  | e :: l' =>
      if stop e.1 then []
      else if 0 <? offset then range_loop stop l' (offset - 1) count
      else match count with
           | None => e :: range_loop stop l' offset None
           | Some c => if 0 <? c then e :: range_loop stop l' offset (Some (c - 1)) else []
           end
  end.

Definition opt_test (o : option K) (p : K -> bool) : bool :=
  match o with Some b => p b | None => false end.

Definition stop_fwd (o : range_opts K) (k : K) : bool :=
  opt_test (lte o) (fun b => 0 <? cmpK k b) || opt_test (lt o) (fun b => 0 <=? cmpK k b).
Definition stop_rev (o : range_opts K) (k : K) : bool :=
  opt_test (gte o) (fun b => cmpK k b <? 0) || opt_test (gt o) (fun b => cmpK k b <=? 0).

(** Where a forward scan starts, and what a reverse scan walks, as the code
    chooses them: [gte] before [gt] but strict as soon as [gt] is given, and [lte]
    before [lt]. *)
Definition fwd_start (o : range_opts K) l : list (K * V) :=
  match gte o, gt o with
  | None, None => l
  | Some b, None => drop_while (below false b) l
  | Some b, Some _ => drop_while (below true b) l
  | None, Some b => drop_while (below true b) l
  end.
Definition rev_start (o : range_opts K) l : list (K * V) :=
  match lte o, lt o with
  | Some b, _ => rev (take_while (below true b) l)
  | None, Some b => rev (take_while (below false b) l)
  | None, None => rev l
  end.

Definition range_list (o : range_opts K) l : list (K * V) :=
  if reverse o then range_loop (stop_rev o) (rev_start o l) (offset o) (count o)
  else range_loop (stop_fwd o) (fwd_start o l) (offset o) (count o).

(** * Sortedness *)

Definition ent_lt e1 e2 : Prop := ent_less e1 e2 = true.

Definition sorted l : Prop := StronglySorted ent_lt l.

Lemma ent_lt_trans e1 e2 e3 : ent_lt e1 e2 -> ent_lt e2 e3 -> ent_lt e1 e3.
Proof.
  unfold ent_lt, ent_less. rewrite !orb_true_iff, !andb_true_iff, !Z.ltb_lt, !Z.eqb_eq.
  intros [H1|[H1 H1']] [H2|[H2 H2']].
  - left. by eapply cmp_trans.
  - apply (cmp_eq (cmp := cmpK)) in H2 as <-. by left.
  - apply (cmp_eq (cmp := cmpK)) in H1 as ->. by left.
  - apply (cmp_eq (cmp := cmpK)) in H1 as ->. right. split; [done|]. by eapply cmp_trans.
Qed.

Lemma ent_lt_irrefl e : ~ ent_lt e e.
Proof.
  unfold ent_lt, ent_less. rewrite !orb_true_iff, !andb_true_iff, !Z.ltb_lt, !Z.eqb_eq.
  intros [H|[_ H]].
  - pose proof (proj1 (cmp_antisym _ _) H). lia.
  - pose proof (proj1 (cmp_antisym _ _) H). lia.
Qed.

Lemma ent_eqb_eq e1 e2 : ent_eqb e1 e2 = true <-> e1 = e2.
Proof.
  unfold ent_eqb. rewrite andb_true_iff, !Z.eqb_eq, !cmp_eq.
  destruct e1, e2; cbn. split; [by intros [-> ->]|by intros [= -> ->]].
Qed.

Lemma ent_lt_total e1 e2 : ent_less e1 e2 = false -> e1 = e2 \/ ent_lt e2 e1.
Proof.
  unfold ent_lt, ent_less. rewrite !orb_false_iff, !andb_false_iff, orb_true_iff, andb_true_iff.
  rewrite !Z.ltb_lt, !Z.ltb_ge, !Z.eqb_eq, Z.eqb_neq. intros [H1 H2].
  destruct e1 as [k1 v1], e2 as [k2 v2]. cbn in *.
  destruct (decide (cmpK k1 k2 = 0)) as [E|E].
  - apply (cmp_eq (cmp := cmpK)) in E as ->. destruct H2 as [H2|H2].
    { destruct H2. by apply cmp_eq. }
    destruct (decide (cmpV v1 v2 = 0)) as [E|E].
    + apply (cmp_eq (cmp := cmpV)) in E as ->. by left.
    + right. right. split; [by apply cmp_eq|]. apply cmp_antisym. lia.
  - right. left. apply cmp_antisym. lia.
Qed.

Lemma ent_lt_asym e1 e2 : ent_lt e1 e2 -> ent_less e2 e1 = false.
Proof.
  intros H12. destruct (ent_less e2 e1) eqn:H21; [|done].
  destruct (ent_lt_irrefl e1). by eapply ent_lt_trans.
Qed.

Lemma sorted_cons e l : sorted (e :: l) <-> sorted l /\ Forall (ent_lt e) l.
Proof. split; [by inversion 1|intros [? ?]; by constructor]. Qed.

Lemma sorted_NoDup l : sorted l -> NoDup l.
Proof.
  induction l as [|e l IH]; [constructor|]. intros [Hs Hf]%sorted_cons.
  constructor; [|by apply IH]. intros Hin. rewrite Forall_forall in Hf.
  by apply (ent_lt_irrefl e), Hf.
Qed.

Lemma sorted_insert_perm e l : sorted_insert e l ≡ₚ e :: l.
Proof.
  induction l as [|e' l IH]; cbn; [done|]. case_match; [|done]. rewrite IH. by constructor.
Qed.

Lemma sorted_insert_sorted e l : e ∉ l -> sorted l -> sorted (sorted_insert e l).
Proof.
  induction l as [|e' l IH]; intros Hn; [by repeat constructor|].
  apply not_elem_of_cons in Hn as [Hne Hn]. intros [Hs Hf]%sorted_cons. cbn.
  destruct (ent_less e' e) eqn:E; apply sorted_cons; split; auto.
  - rewrite sorted_insert_perm. by constructor.
  - by apply sorted_cons.
  - apply ent_lt_total in E as [->|E]; [done|]. constructor; [done|].
    eapply Forall_impl; [exact Hf|]. intros e2. by apply ent_lt_trans.
Qed.

Lemma sorted_delete_perm e l : sorted l -> e ∈ l -> e :: sorted_delete e l ≡ₚ l.
Proof.
  induction l as [|e' l IH]; intros Hs Hin; [by apply elem_of_nil in Hin|].
  apply sorted_cons in Hs as [Hs Hf]. cbn. apply elem_of_cons in Hin as [->|Hin].
  - destruct (ent_less e' e') eqn:E; [by destruct (ent_lt_irrefl e')|].
    by rewrite (proj2 (ent_eqb_eq e' e') eq_refl).
  - rewrite Forall_forall in Hf. rewrite (Hf e Hin : ent_less e' e = true).
    rewrite <- (IH Hs Hin) at 2. by constructor.
Qed.

Lemma sorted_delete_notin e l : sorted l -> e ∉ l -> sorted_delete e l = l.
Proof.
  induction l as [|e' l IH]; intros Hs Hin; [done|].
  apply sorted_cons in Hs as [Hs Hf]. apply not_elem_of_cons in Hin as [Hne Hin].
  cbn. rewrite IH by done. case_match; [done|].
  destruct (ent_eqb e' e) eqn:E; [|done]. by apply ent_eqb_eq in E as ->.
Qed.

Lemma sorted_sublist l1 l2 : l1 `sublist_of` l2 -> sorted l2 -> sorted l1.
Proof.
  induction 1 as [|e l1 l2 Hl IH|e l1 l2 Hl IH]; [done|..];
    intros [Hs Hf]%sorted_cons; [|by apply IH].
  apply sorted_cons. split; [by apply IH|].
  rewrite Forall_forall in *. intros e' He'. apply Hf. by eapply elem_of_sublist.
Qed.

Lemma sorted_delete_sublist e l : sorted_delete e l `sublist_of` l.
Proof.
  induction l as [|e' l IH]; cbn; [constructor|].
  case_match; [by constructor|]. case_match; [by constructor|done].
Qed.

Lemma sorted_delete_sorted e l : sorted l -> sorted (sorted_delete e l).
Proof. apply sorted_sublist, sorted_delete_sublist. Qed.

Lemma sorted_mem_spec e l : sorted l -> sorted_mem e l = true <-> e ∈ l.
Proof.
  unfold sorted_mem. induction l as [|e' l IH]; intros Hs; cbn.
  { split; [done|by intros ?%elem_of_nil]. }
  apply sorted_cons in Hs as [Hs Hf]. rewrite elem_of_cons.
  destruct (ent_less e' e) eqn:E; cbn.
  - rewrite IH by done. split; [by right|]. intros [->|?]; [|done].
    by destruct (ent_lt_irrefl e').
  - rewrite ent_eqb_eq. split; [by left|]. intros [->|Hin]; [done|].
    rewrite Forall_forall in Hf. specialize (Hf e Hin). unfold ent_lt in Hf. congruence.
Qed.

Lemma elem_of_sorted_insert e e' l : e' ∈ sorted_insert e l <-> e' = e \/ e' ∈ l.
Proof. by rewrite sorted_insert_perm, elem_of_cons. Qed.

Lemma elem_of_sorted_delete e e' l : sorted l -> e' ∈ sorted_delete e l <-> e' <> e /\ e' ∈ l.
Proof.
  intros Hs. pose proof (sorted_NoDup _ (sorted_delete_sorted e l Hs)) as Hd. split.
  - intros Hin. split; [|by eapply elem_of_sublist, sorted_delete_sublist]. intros ->.
    assert (He : e ∈ l) by by eapply elem_of_sublist, sorted_delete_sublist.
    pose proof (sorted_delete_perm e l Hs He) as Hp. pose proof (sorted_NoDup _ Hs) as Hd'.
    rewrite <- Hp in Hd'. by apply NoDup_cons in Hd' as [? _].
  - intros [Hne Hin]. assert (Hdec : e ∈ l \/ ~ e ∈ l).
    { rewrite <- sorted_mem_spec by done. destruct (sorted_mem e l); auto. }
    destruct Hdec as [He|He]; [|by rewrite sorted_delete_notin].
    pose proof (sorted_delete_perm e l Hs He) as Hp. rewrite <- Hp in Hin.
    by apply elem_of_cons in Hin as [?|?].
Qed.

(** A sorted list is determined by its members. *)
Lemma sorted_ext l1 l2 : sorted l1 -> sorted l2 -> (forall e, e ∈ l1 <-> e ∈ l2) -> l1 = l2.
Proof.
  revert l2. induction l1 as [|e1 l1 IH]; intros [|e2 l2] Hs1 Hs2 Hin; [done|..].
  - by pose proof (proj2 (Hin e2) (list_elem_of_here _ _)) as ?%elem_of_nil.
  - by pose proof (proj1 (Hin e1) (list_elem_of_here _ _)) as ?%elem_of_nil.
  - pose proof (sorted_NoDup _ Hs1) as [Hn1 _]%NoDup_cons. pose proof (sorted_NoDup _ Hs2) as [Hn2 _]%NoDup_cons.
    apply sorted_cons in Hs1 as [Hs1 Hf1], Hs2 as [Hs2 Hf2]. rewrite Forall_forall in Hf1, Hf2.
    assert (e1 = e2) as ->.
    { pose proof (proj1 (Hin e1) (list_elem_of_here _ _)) as [?|H1]%elem_of_cons; [done|].
      pose proof (proj2 (Hin e2) (list_elem_of_here _ _)) as [?|H2]%elem_of_cons; [done|].
      destruct (ent_lt_irrefl e1). apply (ent_lt_trans _ e2); auto. }
    f_equal. apply IH; [done..|]. intros e. specialize (Hin e). rewrite !elem_of_cons in Hin.
    split; intros He; [destruct (proj1 Hin (or_intror He)) as [->|]|
      destruct (proj2 Hin (or_intror He)) as [->|]]; done.
Qed.

(** * What a range scan returns *)

Definition in_bounds (o : range_opts K) (k : K) : bool := negb (stop_fwd o k) && negb (stop_rev o k).

Definition take_opt (c : option Z) l : list (K * V) :=
  match c with Some n => take (Z.to_nat n) l | None => l end.

(** The specification: the entries whose key satisfies every given bound, in
    (reverse) order, less the first [offset], at most [count] of them. *)
Definition range_spec (o : range_opts K) l : list (K * V) :=
  let inb := List.filter (fun e => in_bounds o e.1) l in
  take_opt (count o) (drop (Z.to_nat (offset o)) (if reverse o then rev inb else inb)).

(** At most one bound on the side the scan starts from. *)
Definition single_start_bound (o : range_opts K) : Prop :=
  if reverse o then lte o = None \/ lt o = None else gte o = None \/ gt o = None.

Lemma drop_while_filter (R : K * V -> K * V -> Prop) p l :
  StronglySorted R l -> (forall a b, R a b -> p b = true -> p a = true) ->
  drop_while p l = List.filter (fun e => negb (p e)) l.
Proof.
  intros Hs Hp. induction Hs as [|e l Hs IH Hf]; [done|]. cbn.
  destruct (p e) eqn:E; cbn; [done|]. f_equal. clear IH Hs.
  induction Hf as [|e' l' He' Hf IH]; [done|]. cbn.
  destruct (p e') eqn:E'; cbn; [by rewrite (Hp e e') in E|by rewrite <- IH].
Qed.

Lemma take_while_filter (R : K * V -> K * V -> Prop) p l :
  StronglySorted R l -> (forall a b, R a b -> p b = true -> p a = true) ->
  take_while p l = List.filter p l.
Proof.
  intros Hs Hp. induction Hs as [|e l Hs IH Hf]; [done|]. cbn.
  destruct (p e) eqn:E; cbn; [by rewrite IH|]. clear IH Hs.
  induction Hf as [|e' l' He' Hf IH]; [done|]. cbn.
  destruct (p e') eqn:E'; cbn; [by rewrite (Hp e e') in E|done].
Qed.

Lemma range_loop_spec stop l off cnt :
  range_loop stop l off cnt =
  take_opt cnt (drop (Z.to_nat off) (take_while (fun e => negb (stop e.1)) l)).
Proof.
  revert off cnt. induction l as [|e l IH]; intros off cnt; cbn.
  { rewrite drop_nil. destruct cnt; cbn; by rewrite ?take_nil. }
  destruct (stop e.1); cbn; [rewrite drop_nil; destruct cnt; cbn; by rewrite ?take_nil|].
  destruct (Z.ltb_spec 0 off).
  - rewrite IH. replace (Z.to_nat off) with (S (Z.to_nat (off - 1))) by lia. done.
  - replace (Z.to_nat off) with 0%nat by lia. cbn [drop].
    destruct cnt as [c|]; cbn [take_opt].
    + destruct (Z.ltb_spec 0 c).
      * rewrite IH. replace (Z.to_nat c) with (S (Z.to_nat (c - 1))) by lia.
        replace (Z.to_nat off) with 0%nat by lia. done.
      * by replace (Z.to_nat c) with 0%nat by lia.
    + rewrite IH. by replace (Z.to_nat off) with 0%nat by lia.
Qed.

Lemma filter_filter_and p q l :
  List.filter p (List.filter q l) = List.filter (fun e => q e && p e) l.
Proof.
  induction l as [|e l IH]; cbn; [done|]. destruct (q e); cbn; [|done].
  destruct (p e); by rewrite IH.
Qed.

Lemma filter_ext_eq p q l : (forall e, p e = q e) -> List.filter p l = List.filter q l.
Proof. intros H. by apply List.filter_ext. Qed.

Lemma filter_rev_eq p l : List.filter p (rev l) = rev (List.filter p l).
Proof.
  induction l as [|e l IH]; cbn; [done|]. rewrite List.filter_app, IH. cbn.
  destruct (p e); cbn; [done|]. by rewrite app_nil_r.
Qed.

Lemma sorted_filter p l : sorted l -> sorted (List.filter p l).
Proof. apply SS_filter. Qed.

Lemma sorted_rev l : sorted l -> StronglySorted (fun a b => ent_lt b a) (rev l).
Proof. apply SS_rev. Qed.

Lemma ent_lt_key e1 e2 : ent_lt e1 e2 -> cmpK e1.1 e2.1 <= 0.
Proof.
  unfold ent_lt, ent_less. rewrite orb_true_iff, andb_true_iff, !Z.ltb_lt, Z.eqb_eq. lia.
Qed.

(** Keys are compared with a bound consistently along the order. *)
Lemma cmp_le_trans a b c : cmpK a b <= 0 -> cmpK b c <= 0 -> cmpK a c <= 0.
Proof.
  intros H1 H2. destruct (decide (cmpK a b = 0)) as [E|E].
  { by apply (cmp_eq (cmp := cmpK)) in E as ->. }
  destruct (decide (cmpK b c = 0)) as [E'|E'].
  { by apply (cmp_eq (cmp := cmpK)) in E' as <-. }
  pose proof (cmp_trans (cmp := cmpK) a b c). lia.
Qed.
Lemma cmp_le_lt_trans a b c : cmpK a b <= 0 -> cmpK b c < 0 -> cmpK a c < 0.
Proof.
  intros H1 H2. destruct (decide (cmpK a b = 0)) as [E|E].
  { by apply (cmp_eq (cmp := cmpK)) in E as ->. }
  pose proof (cmp_trans (cmp := cmpK) a b c). lia.
Qed.

Lemma below_mono strict b e1 e2 :
  ent_lt e1 e2 -> below strict b e2 = true -> below strict b e1 = true.
Proof.
  intros Hk%ent_lt_key. unfold below.
  destruct strict; rewrite ?Z.leb_le, ?Z.ltb_lt; [by apply cmp_le_trans|by apply cmp_le_lt_trans].
Qed.

Lemma opt_test_false o p : opt_test o p = false <-> forall b, o = Some b -> p b = false.
Proof. destruct o; cbn; split; [by intros ? ? [= <-]|by eauto|by intros ? ? [=]|done]. Qed.

Lemma stop_fwd_mono o e1 e2 :
  ent_lt e1 e2 -> negb (stop_fwd o e2.1) = true -> negb (stop_fwd o e1.1) = true.
Proof.
  intros Hk%ent_lt_key. rewrite !negb_true_iff. unfold stop_fwd. rewrite !orb_false_iff, !opt_test_false.
  intros [H1 H2]. split; intros b Hb.
  - specialize (H1 b Hb). rewrite Z.ltb_ge in *. by eapply cmp_le_trans.
  - specialize (H2 b Hb). rewrite Z.leb_gt in *. by eapply cmp_le_lt_trans.
Qed.

Lemma stop_rev_mono o e1 e2 :
  ent_lt e1 e2 -> negb (stop_rev o e1.1) = true -> negb (stop_rev o e2.1) = true.
Proof.
  intros Hk%ent_lt_key. rewrite !negb_true_iff. unfold stop_rev. rewrite !orb_false_iff, !opt_test_false.
  intros [H1 H2]. split; intros b Hb.
  - specialize (H1 b Hb). rewrite Z.ltb_ge in *.
    destruct (decide (cmpK e2.1 b < 0)) as [H|]; [|lia].
    pose proof (cmp_le_lt_trans _ _ _ Hk H). lia.
  - specialize (H2 b Hb). rewrite Z.leb_gt in *.
    destruct (decide (cmpK e2.1 b <= 0)) as [H|]; [|lia].
    pose proof (cmp_le_trans _ _ _ Hk H). lia.
Qed.

Lemma fwd_start_spec o l :
  sorted l -> gte o = None \/ gt o = None ->
  fwd_start o l = List.filter (fun e => negb (stop_rev o e.1)) l.
Proof.
  intros Hs Ho. unfold fwd_start, stop_rev.
  destruct (gte o) as [a|], (gt o) as [b|]; cbn; [by destruct Ho|..].
  1, 2: rewrite (drop_while_filter ent_lt) by (done || apply below_mono);
    apply filter_ext_eq; intros e; by rewrite ?orb_false_r.
  induction l as [|e l IH]; cbn; [done|]. apply sorted_cons in Hs as [Hs _]. by rewrite <- IH.
Qed.

Lemma rev_start_spec o l :
  sorted l -> lte o = None \/ lt o = None ->
  rev_start o l = rev (List.filter (fun e => negb (stop_fwd o e.1)) l).
Proof.
  intros Hs Ho. unfold rev_start, stop_fwd.
  destruct (lte o) as [a|], (lt o) as [b|]; cbn; [by destruct Ho|..].
  1, 2: rewrite (take_while_filter ent_lt) by (done || apply below_mono);
    f_equal; apply filter_ext_eq; intros e; unfold below; rewrite ?orb_false_r.
  - by rewrite Z.leb_antisym.
  - by rewrite Z.ltb_antisym.
  - f_equal. induction l as [|e l IH]; cbn; [done|].
    apply sorted_cons in Hs as [Hs _]. by rewrite <- IH.
Qed.

(** A scan returns its specification whenever its starting side has one bound. *)
Lemma range_list_spec o l :
  sorted l -> single_start_bound o -> range_list o l = range_spec o l.
Proof.
  unfold single_start_bound, range_list, range_spec. intros Hs Ho.
  destruct (reverse o); rewrite range_loop_spec; do 2 f_equal.
  - rewrite rev_start_spec by done.
    rewrite (take_while_filter (fun a b => ent_lt b a)).
    + rewrite filter_rev_eq, filter_filter_and. done.
    + by apply sorted_rev, sorted_filter.
    + intros a b Hab. by apply stop_rev_mono.
  - rewrite fwd_start_spec by done.
    rewrite (take_while_filter ent_lt).
    + rewrite filter_filter_and. apply filter_ext_eq. intros e. apply andb_comm.
    + by apply sorted_filter.
    + apply stop_fwd_mono.
Qed.
End entries.

(** * The interface *)

Class OrderedIndex (K V T : Type) := {
  oi_empty : T;
  oi_insert : T -> K -> V -> T;
  oi_delete : T -> K -> V -> T * bool;
  oi_range : T -> range_opts K -> list (K * V);
}.

(** [oi_repr t l]: [t] is a well-formed index holding the ascending list [l]. *)
Class OrderedIndexLaws {K V T} (cmpK : K -> K -> Z) (cmpV : V -> V -> Z)
    `{OrderedIndex K V T} := {
  oi_repr : T -> list (K * V) -> Prop;
  oi_repr_sorted : forall t l, oi_repr t l -> sorted cmpK cmpV l;
  oi_repr_empty : oi_repr oi_empty [];
  oi_insert_spec : forall t l k v,
    oi_repr t l -> (k, v) ∉ l -> oi_repr (oi_insert t k v) (sorted_insert cmpK cmpV (k, v) l);
  oi_delete_spec : forall t l k v,
    oi_repr t l ->
    oi_repr (oi_delete t k v).1 (sorted_delete cmpK cmpV (k, v) l) /\
    (oi_delete t k v).2 = sorted_mem cmpK cmpV (k, v) l;
  oi_range_spec : forall t l o, oi_repr t l -> oi_range t o = range_list cmpK o l;
}.

(** ** An index as a relation *)

Section holds.
Context {K V T : Type} {cmpK : K -> K -> Z} {cmpV : V -> V -> Z}.
Context `{!Comparator cmpK, !Comparator cmpV, !OrderedIndex K V T, !OrderedIndexLaws cmpK cmpV}.

(** [t] holds exactly the pairs related by [P]. *)
Definition holds (t : T) (P : K -> V -> Prop) : Prop :=
  exists l, oi_repr t l /\ forall k v, (k, v) ∈ l <-> P k v.

Lemma holds_iff t (P Q : K -> V -> Prop) : (forall k v, P k v <-> Q k v) -> holds t P -> holds t Q.
Proof. intros HPQ (l & Hl & Hin). exists l. split; [done|]. intros. by rewrite Hin. Qed.

Lemma holds_empty (P : K -> V -> Prop) : (forall k v, ~ P k v) -> holds oi_empty P.
Proof.
  intros HP. exists []. split; [apply oi_repr_empty|]. intros k v.
  split; [by intros ?%elem_of_nil|by intros ?%HP].
Qed.

Lemma holds_insert t P k v :
  ~ P k v -> holds t P -> holds (oi_insert t k v) (fun k' v' => (k' = k /\ v' = v) \/ P k' v').
Proof.
  intros HP (l & Hl & Hin). exists (sorted_insert cmpK cmpV (k, v) l). split.
  { apply oi_insert_spec; [done|]. by rewrite Hin. }
  intros k' v'. rewrite elem_of_sorted_insert, Hin. naive_solver.
Qed.

Lemma holds_delete t P k v :
  holds t P -> holds (oi_delete t k v).1 (fun k' v' => ~ (k' = k /\ v' = v) /\ P k' v').
Proof.
  intros (l & Hl & Hin). exists (sorted_delete cmpK cmpV (k, v) l). split; [by apply oi_delete_spec|].
  pose proof (oi_repr_sorted _ _ Hl) as Hs. intros k' v'.
  rewrite (elem_of_sorted_delete _ _ _ _ _ Hs), Hin. naive_solver.
Qed.

(** Every range is a scan of the one sorted list of the pairs. *)
Lemma holds_range t P :
  holds t P ->
  exists l, sorted cmpK cmpV l /\ (forall k v, (k, v) ∈ l <-> P k v) /\
    forall o, oi_range t o = range_list cmpK o l.
Proof.
  intros (l & Hl & Hin). exists l. split; [by eapply oi_repr_sorted|]. split; [done|].
  intros o. by apply oi_range_spec.
Qed.
End holds.

(** The reference implementation. *)
Section list_index.
Context {K V : Type} (cmpK : K -> K -> Z) (cmpV : V -> V -> Z).
Context `{!Comparator cmpK, !Comparator cmpV}.

Definition list_index : OrderedIndex K V (list (K * V)) := {|
  oi_empty := [];
  oi_insert t k v := sorted_insert cmpK cmpV (k, v) t;
  oi_delete t k v := (sorted_delete cmpK cmpV (k, v) t, sorted_mem cmpK cmpV (k, v) t);
  oi_range t o := range_list cmpK o t;
|}.

#[export] Instance list_index_laws : OrderedIndexLaws cmpK cmpV (H := list_index).
Proof.
  refine {| oi_repr := fun t l => t = l /\ sorted cmpK cmpV l |}.
  - by intros t l [_ ?].
  - split; [done|constructor].
  - intros t l k v [-> Hs] Hn. split; [done|]. by apply sorted_insert_sorted.
  - intros t l k v [-> Hs]. split; [|done]. split; [done|]. by apply sorted_delete_sorted.
  - by intros t l o [-> _].
Defined.
End list_index.
