(* ===== verification/MinHeap.v ===== *)
(** The binary min-heap of expiry times ([class MinHeap] in
    [packages/minidb/src/store.ts]), as the array the code swaps in place. *)

From S2P Require Import Prelude JsMap.

Record heap_entry := HeapEntry {
  h_t : Z;
  h_k : jsstr;
  h_seq : Z;
}.

Definition parent (i : nat) : nat := (i - 1) / 2.

Definition swap (a : list heap_entry) (i j : nat) : list heap_entry :=
  match a !! i, a !! j with
  | Some x, Some y => <[i := y]> (<[j := x]> a)
  | _, _ => a
  end.

(** [a[i].t < a[j].t], false when either is out of range (the code tests the
    bounds first). *)
Definition t_lt (a : list heap_entry) (i j : nat) : bool :=
  match a !! i, a !! j with
  | Some x, Some y => h_t x <? h_t y
  | _, _ => false
  end.

Fixpoint sift_up (fuel : nat) (a : list heap_entry) (i : nat) : list heap_entry :=
  match fuel with
  | O => a
  | S fuel' =>
      if Nat.eqb i 0 then a else
      let p := parent i in
      if negb (t_lt a i p) then a else sift_up fuel' (swap a p i) p
  end.

Definition push (a : list heap_entry) (item : heap_entry) : list heap_entry :=
  let a' := a ++ [item] in sift_up (length a') a' (length a' - 1).

Fixpoint sift_down (fuel : nat) (a : list heap_entry) (i : nat) : list heap_entry :=
  match fuel with
  | O => a
  | S fuel' =>
      let l := (2 * i + 1)%nat in
      let r := S l in
      let s := if t_lt a l i then l else i in
      let s := if t_lt a r s then r else s in
      if Nat.eqb s i then a else sift_down fuel' (swap a s i) s
  end.

Definition peek (a : list heap_entry) : option heap_entry := a !! O.

Definition pop (a : list heap_entry) : option heap_entry * list heap_entry :=
  let top := a !! O in
  match last a with
  | None => (top, [])
  | Some x =>
      let a' := removelast a in
      match a' with
      | [] => (top, [])
      | _ => (top, sift_down (length a') (<[O := x]> a') 0)
      end
  end.

(** * Order and contents *)

(** The time at an index (0 out of range). *)
Definition T (a : list heap_entry) (i : nat) : Z := from_option h_t 0 (a !! i).

Definition heap_ok (a : list heap_entry) : Prop :=
  forall j, (0 < j < length a)%nat -> T a (parent j) <= T a j.

Lemma parent_spec j : (0 < j)%nat -> j = (2 * parent j + 1)%nat \/ j = (2 * parent j + 2)%nat.
Proof.
  intros Hj. unfold parent. pose proof (Nat.div_mod_eq (j - 1) 2).
  pose proof (Nat.mod_upper_bound (j - 1) 2). lia.
Qed.

Lemma t_lt_spec a i j :
  t_lt a i j = true <-> (i < length a)%nat /\ (j < length a)%nat /\ T a i < T a j.
Proof.
  unfold t_lt, T. destruct (a !! i) as [x|] eqn:Hi; cbn.
  - apply lookup_lt_Some in Hi. destruct (a !! j) as [y|] eqn:Hj; cbn.
    + apply lookup_lt_Some in Hj. rewrite Z.ltb_lt. tauto.
    + apply lookup_ge_None in Hj. split; [done|lia].
  - apply lookup_ge_None in Hi. split; [done|lia].
Qed.

Lemma swap_perm a i j : swap a i j ≡ₚ a.
Proof.
  unfold swap. destruct (a !! i) as [x|] eqn:Hi; [|done]. destruct (a !! j) as [y|] eqn:Hj; [|done].
  by apply Permutation_insert_swap.
Qed.

Lemma length_swap a i j : length (swap a i j) = length a.
Proof. apply Permutation_length, swap_perm. Qed.

Lemma T_swap a i j k :
  (i < length a)%nat -> (j < length a)%nat ->
  T (swap a i j) k = if decide (k = i) then T a j else if decide (k = j) then T a i else T a k.
Proof.
  intros Hi Hj. unfold swap, T.
  destruct (lookup_lt_is_Some_2 a i Hi) as [x Hx], (lookup_lt_is_Some_2 a j Hj) as [y Hy].
  rewrite Hx, Hy. rewrite !list_lookup_insert, length_insert.
  repeat case_decide; subst; rewrite ?Hx, ?Hy; (done || lia).
Qed.

(** * push *)

(** The array is a heap except possibly between [i] and its parent. *)
Definition up_ok (a : list heap_entry) (i : nat) : Prop :=
  forall j, (0 < j < length a)%nat ->
    (j <> i -> T a (parent j) <= T a j) /\
    (parent j = i -> (0 < i)%nat -> T a (parent i) <= T a j).

Lemma sift_up_ok fuel a i :
  (i < length a)%nat -> (i < fuel)%nat -> up_ok a i -> heap_ok (sift_up fuel a i).
Proof.
  revert a i. induction fuel as [|fuel IH]; intros a i Hi Hf Hup; [lia|]. cbn [sift_up].
  destruct (Nat.eqb_spec i 0) as [->|Hi0].
  { intros j Hj. apply (Hup j Hj). lia. }
  pose proof (parent_spec i ltac:(lia)) as Hp. remember (parent i) as p eqn:Epi.
  destruct (t_lt a i p) eqn:Hlt; cbn [negb].
  - apply t_lt_spec in Hlt as (_ & Hpl & Hlt).
    apply IH; rewrite ?length_swap; [lia..|].
    intros j Hj. rewrite length_swap in Hj. destruct (Hup j Hj) as [H1 H2].
    pose proof (parent_spec j ltac:(lia)) as Hpj. remember (parent j) as q eqn:Eqj.
    assert (Hpp : (0 < p)%nat -> T a (parent p) <= T a p).
    { intros. apply (Hup p); lia. }
    split.
    + intros Hjp. rewrite !T_swap by lia.
      destruct (decide (j = i)) as [Eji|Hji].
      { assert (q = p) by congruence. repeat case_decide; (lia || congruence). }
      specialize (H1 Hji). repeat case_decide; try lia; try congruence.
      * match goal with E : q = p |- _ => rewrite E in H1 end. lia.
      * specialize (H2 ltac:(done) ltac:(lia)). rewrite <- Epi in H2. lia.
    + intros Hqp Hp0. pose proof (parent_spec p Hp0). rewrite !T_swap by lia.
      specialize (Hpp Hp0). repeat case_decide; try lia.
      specialize (H1 ltac:(lia)). rewrite Hqp in H1. lia.
  - intros j Hj. destruct (decide (j = i)) as [->|Hne]; [|by apply (Hup j Hj)].
    rewrite <- Epi. destruct (decide (T a i < T a p)) as [H|]; [|lia].
    rewrite (proj2 (t_lt_spec a i p)) in Hlt; [done|]. split; [done|]. split; [lia|done].
Qed.

Lemma sift_up_perm fuel a i : sift_up fuel a i ≡ₚ a.
Proof.
  revert a i. induction fuel as [|fuel IH]; intros a i; cbn; [done|].
  repeat case_match; try done. by rewrite IH, swap_perm.
Qed.

Lemma push_perm a x : push a x ≡ₚ x :: a.
Proof. unfold push. rewrite sift_up_perm. symmetry. apply Permutation_cons_append. Qed.

Lemma T_app_l a b i : (i < length a)%nat -> T (a ++ b) i = T a i.
Proof. intros. unfold T. by rewrite lookup_app_l. Qed.

Lemma push_heap_ok a x : heap_ok a -> heap_ok (push a x).
Proof.
  intros Ha. unfold push. apply sift_up_ok; rewrite length_app; cbn; [lia..|].
  intros j Hj. rewrite length_app in Hj. cbn in Hj.
  pose proof (parent_spec j ltac:(lia)). split; intros.
  - rewrite !T_app_l by lia. apply Ha. lia.
  - lia.
Qed.

(** * pop *)

(** The array is a heap except possibly between [i] and its children. *)
Definition down_ok (a : list heap_entry) (i : nat) : Prop :=
  forall j, (0 < j < length a)%nat ->
    (parent j <> i -> T a (parent j) <= T a j) /\
    (parent j = i -> (0 < i)%nat -> T a (parent i) <= T a j).

(** The child with the smallest time, or [i] itself. *)
Definition smallest (a : list heap_entry) (i : nat) : nat :=
  let l := (2 * i + 1)%nat in
  let s := if t_lt a l i then l else i in
  if t_lt a (S l) s then S l else s.

Lemma smallest_spec a i :
  (i < length a)%nat ->
  let s := smallest a i in
  (s = i \/ s = 2 * i + 1 \/ s = 2 * i + 2)%nat /\ (s < length a)%nat /\
  (s <> i -> T a s < T a i) /\
  (forall j, (0 < j < length a)%nat -> parent j = i -> T a s <= T a j).
Proof.
  intros Hi. cbv zeta. unfold smallest.
  pose proof (t_lt_spec a (2 * i + 1) i) as H1.
  set (s1 := if t_lt a (2 * i + 1) i then (2 * i + 1)%nat else i).
  assert (Hs1 : (s1 = i \/ s1 = 2 * i + 1)%nat /\ (s1 < length a)%nat /\ (s1 <> i -> T a s1 < T a i) /\
                T a s1 <= T a i /\ ((2 * i + 1 < length a)%nat -> T a s1 <= T a (2 * i + 1)%nat)).
  { unfold s1. destruct (t_lt a (2 * i + 1) i).
    - destruct (proj1 H1 eq_refl) as (? & ? & ?). repeat split; lia.
    - split; [lia|]. split; [lia|]. split; [lia|]. split; [lia|].
      intros. destruct (decide (T a (2 * i + 1)%nat < T a i)); [|lia].
      by discriminate (proj2 H1 ltac:(repeat split; lia)). }
  clearbody s1. destruct Hs1 as (E1 & L1 & N1 & M1 & C1).
  pose proof (t_lt_spec a (S (2 * i + 1)) s1) as H2.
  assert (Hch : forall j, (0 < j < length a)%nat -> parent j = i -> (j = 2 * i + 1 \/ j = S (2 * i + 1))%nat).
  { intros j Hj Hp. pose proof (parent_spec j ltac:(lia)). lia. }
  destruct (t_lt a (S (2 * i + 1)) s1).
  - destruct (proj1 H2 eq_refl) as (? & ? & ?).
    split; [lia|]. split; [lia|]. split; [lia|].
    intros j Hj Hp. destruct (Hch j Hj Hp) as [-> | ->]; [|lia].
    specialize (C1 ltac:(lia)). lia.
  - split; [lia|]. split; [lia|]. split; [done|].
    intros j Hj Hp. destruct (Hch j Hj Hp) as [-> | ->]; [apply C1; lia|].
    destruct (decide (T a (S (2 * i + 1)) < T a s1)); [|lia].
    by discriminate (proj2 H2 ltac:(repeat split; lia)).
Qed.

Lemma sift_down_ok fuel a i :
  (i < length a)%nat -> (length a - i <= fuel)%nat -> down_ok a i -> heap_ok (sift_down fuel a i).
Proof.
  revert a i. induction fuel as [|fuel IH]; intros a i Hi Hf Hd; [lia|]. cbn [sift_down].
  pose proof (smallest_spec a i Hi) as Hs. cbv zeta in Hs. fold (smallest a i).
  change (if t_lt a (S (2 * i + 1)) (if t_lt a (2 * i + 1) i then (2 * i + 1)%nat else i)
          then S (2 * i + 1) else if t_lt a (2 * i + 1) i then (2 * i + 1)%nat else i)
    with (smallest a i).
  remember (smallest a i) as s eqn:Es. clear Es. destruct Hs as (Es & Ls & Ns & Ms).
  destruct (Nat.eqb_spec s i) as [->|Hne].
  { intros j Hj. destruct (Hd j Hj) as [H1 _].
    destruct (decide (parent j = i)) as [E|]; [|by apply H1]. rewrite E. by apply Ms. }
  specialize (Ns Hne). apply IH; rewrite ?length_swap; [lia..|].
  assert (Hps : parent s = i).
  { pose proof (parent_spec s ltac:(lia)). lia. }
  intros j Hj. rewrite length_swap in Hj. destruct (Hd j Hj) as [H1 H2].
  pose proof (parent_spec j ltac:(lia)) as Hpj. remember (parent j) as q eqn:Eqj.
  split.
  - intros Hq. rewrite !T_swap by lia.
    destruct (decide (j = s)) as [Ejs|Hjs].
    { assert (q = i) by congruence. repeat case_decide; (lia || congruence). }
    destruct (decide (q = i)) as [Eqi|Hqi].
    + specialize (Ms j Hj ltac:(congruence)). repeat case_decide; (lia || congruence).
    + specialize (H1 Hqi). repeat case_decide; try lia; try congruence.
      match goal with E : j = i |- _ => rewrite E in Eqj, H1 end.
      destruct (Hd s ltac:(lia)) as [_ Hs2]. specialize (Hs2 Hps ltac:(lia)). by rewrite Eqj.
  - intros Hqs Hs0. rewrite Hps, !T_swap by lia.
    specialize (H1 ltac:(lia)). repeat case_decide; try lia; try congruence.
Qed.

Lemma sift_down_perm fuel a i : sift_down fuel a i ≡ₚ a.
Proof.
  revert a i. induction fuel as [|fuel IH]; intros a i; cbn [sift_down]; [done|].
  case_match; [done|]. by rewrite IH, swap_perm.
Qed.

Lemma last_split (a : list heap_entry) x : last a = Some x -> a = removelast a ++ [x].
Proof.
  intros H. apply last_Some in H as [l ->]. by rewrite removelast_last.
Qed.

(** Popping returns the root and keeps exactly the other entries. *)
Lemma pop_perm a top a' : pop a = (Some top, a') -> a ≡ₚ top :: a'.
Proof.
  unfold pop. destruct (last a) as [x|] eqn:Hl.
  - apply last_split in Hl. destruct (removelast a) as [|y r]; rewrite Hl; cbn [app lookup list_lookup].
    + by intros [= <- <-].
    + intros [= <- <-]. constructor.
      trans (x :: r); [symmetry; apply Permutation_cons_append|].
      symmetry. apply (sift_down_perm (length (y :: r)) (x :: r) 0).
  - apply last_None in Hl as ->. done.
Qed.

Lemma pop_None a a' : pop a = (None, a') -> a = [].
Proof.
  unfold pop. destruct a as [|x a]; [done|].
  destruct (last (x :: a)) eqn:Hl; [|by apply last_None in Hl].
  cbn. repeat case_match; discriminate.
Qed.

Lemma heap_root_min a x y : heap_ok a -> a !! O = Some x -> y ∈ a -> h_t x <= h_t y.
Proof.
  intros Ha Hx [j Hj]%list_elem_of_lookup.
  assert (Hroot : forall j, (j < length a)%nat -> T a 0 <= T a j).
  { clear j Hj. intros j. induction (lt_wf j) as [j _ IH]. intros Hj.
    destruct (decide (j = 0)%nat) as [->|]; [done|].
    pose proof (parent_spec j ltac:(lia)). specialize (IH (parent j) ltac:(lia) ltac:(lia)).
    specialize (Ha j ltac:(lia)). lia. }
  pose proof (lookup_lt_Some _ _ _ Hj) as Hlt. specialize (Hroot j Hlt).
  unfold T in Hroot. by rewrite Hx, Hj in Hroot.
Qed.

Lemma pop_heap_ok a : heap_ok a -> heap_ok (pop a).2.
Proof.
  intros Ha. unfold pop. destruct (last a) as [x|] eqn:Hl.
  2: { cbn. intros j Hj. cbn in Hj. lia. }
  apply last_split in Hl. destruct (removelast a) as [|y r] eqn:Hr.
  { cbn. intros j Hj. cbn in Hj. lia. }
  cbn [snd]. apply sift_down_ok; rewrite ?length_insert; [cbn; lia..|].
  intros j Hj. rewrite length_insert in Hj. pose proof (parent_spec j ltac:(lia)) as Hp.
  assert (HT : forall k, (0 < k < length (y :: r))%nat -> T (<[0%nat:=x]> (y :: r)) k = T a k).
  { intros k Hk. unfold T. rewrite list_lookup_insert_ne by lia.
    by rewrite Hl, lookup_app_l by lia. }
  split; [|lia]. intros Hp0. rewrite !HT by lia. apply Ha. rewrite Hl, length_app. cbn [length] in *. lia.
Qed.
