(* ===== verification/SkipList.v ===== *)
(** The skip list ([packages/minidb/src/skiplist.ts]) at pointer level: nodes with an
    array of (forward, span) levels and a backward pointer, in a heap keyed by node
    identity. [Math.random() < P] is a stream of draws kept in the state. The
    development ends with the instance of the ordered-index interface. *)

From S2P Require Import Prelude JsMap Ordered.

Definition MAX_LEVEL : nat := 32.

(** A node reference that is never null: the header, or a node. *)
Inductive cursor := Hd | Nd (id : nat).

#[global] Instance cursor_eq_dec : EqDecision cursor.
Proof. solve_decision. Defined.

Record lvl := Lvl {
  forward : option nat;
  span : Z;
}.

Definition no_lvl : lvl := Lvl None 0.

Section skiplist.
Context {K V : Type} (cmpK : K -> K -> Z) (cmpV : V -> V -> Z).

Record node := Node {
  key : K;
  val : V;
  backward : option nat;
  levels : list lvl;
}.

Record skiplist := SkipList {
  nodes : gmap nat node;
  header : list lvl;
  tail : option nat;
  len : Z;
  level : nat;
  next_id : nat;          (* identity of the next allocated node *)
  draws : nat -> bool;    (* the outcomes of [Math.random() < P] to come *)
}.

Definition empty_skiplist (draws : nat -> bool) : skiplist :=
  SkipList ∅ (replicate MAX_LEVEL no_lvl) None 0 1 0 draws.

(** [randomLevel()]: the level and the number of draws consumed. *)
Fixpoint randomLevel_loop (fuel : nat) (draws : nat -> bool) (lv used : nat) : nat * nat :=
  match fuel with
  | O => (lv, used)
  | S fuel' =>
      if draws used then
        if (lv <? MAX_LEVEL)%nat then randomLevel_loop fuel' draws (S lv) (S used) else (lv, S used)
      else (lv, S used)
  end.
Definition randomLevel (draws : nat -> bool) : nat * nat := randomLevel_loop MAX_LEVEL draws 1 0.

(** [x.level[i]], and assignment to it. *)
Definition level_array (t : skiplist) (x : cursor) : list lvl :=
  match x with
  | Hd => header t
  | Nd id => match nodes t !! id with Some nd => levels nd | None => [] end
  end.

Definition getl (t : skiplist) (x : cursor) (i : nat) : lvl := default no_lvl (level_array t x !! i).

Definition setl (t : skiplist) (x : cursor) (i : nat) (lv : lvl) : skiplist :=
  match x with
  | Hd => SkipList (nodes t) (<[i := lv]> (header t)) (tail t) (len t) (level t) (next_id t) (draws t)
  | Nd id =>
      SkipList (alter (fun nd => Node (key nd) (val nd) (backward nd) (<[i := lv]> (levels nd))) id (nodes t))
        (header t) (tail t) (len t) (level t) (next_id t) (draws t)
  end.

Definition set_backward (t : skiplist) (id : nat) (b : option nat) : skiplist :=
  SkipList (alter (fun nd => Node (key nd) (val nd) b (levels nd)) id (nodes t))
    (header t) (tail t) (len t) (level t) (next_id t) (draws t).

Definition set_tail (t : skiplist) (b : option nat) : skiplist :=
  SkipList (nodes t) (header t) b (len t) (level t) (next_id t) (draws t).

Definition nodeLess (a : node) (k : K) (v : V) : bool :=
  let c := cmpK (key a) k in (c <? 0) || ((c =? 0) && (cmpV (val a) v <? 0)).

Definition node_is (a : node) (k : K) (v : V) : bool :=
  (cmpK (key a) k =? 0) && (cmpV (val a) v =? 0).

(** [while (f && p(f)) { rank += span; x = f; }] at level [i]. *)
Fixpoint walk (fuel : nat) (t : skiplist) (p : node -> bool) (i : nat) (x : cursor) (r : Z) : cursor * Z :=
  match fuel with
  | O => (x, r)
  | S fuel' =>
      match forward (getl t x i) with
      | None => (x, r)
      | Some f =>
          match nodes t !! f with
          | Some nd => if p nd then walk fuel' t p i (Nd f) (r + span (getl t x i)) else (x, r)
          | None => (x, r)
          end
      end
  end.

Definition walk_fuel (t : skiplist) : nat := S (Z.to_nat (len t)).

(** The search from the top level: [(update[i], rank[i])] for [i] below [n]. *)
Fixpoint descend (t : skiplist) (p : node -> bool) (n : nat) (x : cursor) (r : Z) : list (cursor * Z) :=
  match n with
  | O => []
  | S i => let (x', r') := walk (walk_fuel t) t p i x r in descend t p i x' r' ++ [(x', r')]
  end.

(** Where the search ends on level 0. *)
Definition bottom (us : list (cursor * Z)) : cursor * Z := default (Hd, 0) (head us).

(** The loop [for (let i = 0; i < lvl; i++)] of [insert] that splices [x] in. *)
Definition splice1 (id : nat) (us : list (cursor * Z)) (rank0 : Z) (t : skiplist) (i : nat) : skiplist :=
  let '(u, ri) := default (Hd, 0) (us !! i) in
  let lu := getl t u i in
  let t := setl t (Nd id) i (Lvl (forward lu) (span lu - (rank0 - ri))) in
  setl t u i (Lvl (Some id) (rank0 - ri + 1)).

(** [update[i].level[i].span++] *)
Definition bump1 (d : Z) (us : list (cursor * Z)) (t : skiplist) (i : nat) : skiplist :=
  let u := (default (Hd, 0) (us !! i)).1 in
  let lu := getl t u i in setl t u i (Lvl (forward lu) (span lu + d)).

Definition raise1 (t : skiplist) (i : nat) : skiplist :=
  setl t Hd i (Lvl (forward (getl t Hd i)) (len t)).

Definition cursor_ref (x : cursor) : option nat := match x with Hd => None | Nd id => Some id end.

Definition insert (t : skiplist) (k : K) (v : V) : skiplist :=
  let us := descend t (fun nd => nodeLess nd k v) (level t) Hd 0 in
  let rank0 := (bottom us).2 in
  let '(lv, used) := randomLevel (draws t) in
  let raised := (level t <? lv)%nat in
  let us' := if raised then us ++ replicate (lv - level t) (Hd, 0) else us in
  let t1 := if raised then fold_left raise1 (seq (level t) (lv - level t)) t else t in
  let lev1 := if raised then lv else level t in
  let id := next_id t in
  let t2 := SkipList (<[id := Node k v None (replicate lv no_lvl)]> (nodes t1)) (header t1) (tail t1)
              (len t1) lev1 (S id) (fun i => draws t (used + i)%nat) in
  let t3 := fold_left (splice1 id us' rank0) (seq 0 lv) t2 in
  let t4 := fold_left (bump1 1 us') (seq lv (lev1 - lv)) t3 in
  let t5 := set_backward t4 id (cursor_ref (bottom us').1) in
  let t6 := match forward (getl t5 (Nd id) 0) with
            | Some f => set_backward t5 f (Some id)
            | None => set_tail t5 (Some id)
            end in
  SkipList (nodes t6) (header t6) (tail t6) (len t6 + 1) (level t6) (next_id t6) (draws t6).

(** One round of the loop of [deleteNode]. *)
Definition unsplice1 (id : nat) (us : list (cursor * Z)) (t : skiplist) (i : nat) : skiplist :=
  let u := (default (Hd, 0) (us !! i)).1 in
  let lu := getl t u i in
  let lx := getl t (Nd id) i in
  if decide (forward lu = Some id) then setl t u i (Lvl (forward lx) (span lu + (span lx - 1)))
  else setl t u i (Lvl (forward lu) (span lu - 1)).

Fixpoint lower_level (hd : list lvl) (n : nat) : nat :=
  match n with
  | O => O
  | S n' =>
      if (0 <? n')%nat then
        match forward (default no_lvl (hd !! n')) with
        | None => lower_level hd n'
        | Some _ => n
        end
      else n
  end.

Definition deleteNode (t : skiplist) (id : nat) (us : list (cursor * Z)) : skiplist :=
  let t1 := fold_left (unsplice1 id us) (seq 0 (level t)) t in
  let b := match nodes t1 !! id with Some nd => backward nd | None => None end in
  let t2 := match forward (getl t1 (Nd id) 0) with
            | Some f => set_backward t1 f b
            | None => set_tail t1 b
            end in
  SkipList (nodes t2) (header t2) (tail t2) (len t2 - 1) (lower_level (header t2) (level t2))
    (next_id t2) (draws t2).

Definition delete (t : skiplist) (k : K) (v : V) : skiplist * bool :=
  let us := descend t (fun nd => nodeLess nd k v) (level t) Hd 0 in
  match forward (getl t (bottom us).1 0) with
  | None => (t, false)
  | Some f =>
      match nodes t !! f with
      | Some last => if node_is last k v then (deleteNode t f us, true) else (t, false)
      | None => (t, false)
      end
  end.

Definition lowerBound (t : skiplist) (bound : K) (strict : bool) : option nat :=
  let us := descend t (fun nd => if strict then cmpK (key nd) bound <=? 0 else cmpK (key nd) bound <? 0)
              (level t) Hd 0 in
  forward (getl t (bottom us).1 0).

Definition getRank (t : skiplist) (k : K) (v : V) : option Z :=
  let '(x, rank) := bottom (descend t (fun nd => nodeLess nd k v || node_is nd k v) (level t) Hd 0) in
  match x with
  | Hd => None
  | Nd id => match nodes t !! id with
             | Some nd => if node_is nd k v then Some (rank - 1) else None
             | None => None
             end
  end.

(** [while (f && traversed + span <= target)] at level [i]. *)
Fixpoint walk_rank (fuel : nat) (t : skiplist) (target : Z) (i : nat) (x : cursor) (r : Z) : cursor * Z :=
  match fuel with
  | O => (x, r)
  | S fuel' =>
      match forward (getl t x i) with
      | None => (x, r)
      | Some f =>
          if r + span (getl t x i) <=? target then walk_rank fuel' t target i (Nd f) (r + span (getl t x i))
          else (x, r)
      end
  end.

Fixpoint seek_rank (t : skiplist) (target : Z) (n : nat) (x : cursor) (r : Z) : option (K * V) :=
  match n with
  | O => None
  | S i =>
      let (x', r') := walk_rank (walk_fuel t) t target i x r in
      if r' =? target then
        match x' with
        | Nd id => (fun nd => (key nd, val nd)) <$> nodes t !! id
        | Hd => None
        end
      else seek_rank t target i x' r'
  end.

Definition getByRank (t : skiplist) (rank : Z) : option (K * V) :=
  if (rank <? 0) || (len t <=? rank) then None else seek_rank t (rank + 1) (level t) Hd 0.

(** The collecting loop of [range] and [iterate]; [step] follows [forward] on level 0
    or [backward]. *)
Fixpoint collect (fuel : nat) (t : skiplist) (step : nat -> option nat) (stop : K -> bool)
    (x : option nat) (offset : Z) (count : option Z) : list (K * V) :=
  match fuel with
  | O => []
  | S fuel' =>
      match x with
      | None => []
      | Some id =>
          match nodes t !! id with
          | None => []
          | Some nd =>
              if stop (key nd) then []
              else if 0 <? offset then collect fuel' t step stop (step id) (offset - 1) count
              else match count with
                   | None => (key nd, val nd) :: collect fuel' t step stop (step id) offset None
                   | Some c => if 0 <? c then
                                 (key nd, val nd) :: collect fuel' t step stop (step id) offset (Some (c - 1))
                               else []
                   end
          end
      end
  end.

Definition next_of (t : skiplist) (id : nat) : option nat := forward (getl t (Nd id) 0).
Definition back_of (t : skiplist) (id : nat) : option nat :=
  match nodes t !! id with Some nd => backward nd | None => None end.

(** [after ? after.backward : this.tail] *)
Definition before_or_tail (t : skiplist) (after : option nat) : option nat :=
  match after with Some id => back_of t id | None => tail t end.

Definition range (t : skiplist) (o : range_opts K) : list (K * V) :=
  let fuel := S (Z.to_nat (len t)) in
  if reverse o then
    let x := match lte o, lt o with
             | Some b, _ => before_or_tail t (lowerBound t b true)
             | None, Some b => before_or_tail t (lowerBound t b false)
             | None, None => tail t
             end in
    collect fuel t (back_of t) (stop_rev cmpK o) x (offset o) (count o)
  else
    let x := match gte o, gt o with
             | None, None => forward (getl t Hd 0)
             | Some b, None => lowerBound t b false
             | Some b, Some _ => lowerBound t b true
             | None, Some b => lowerBound t b true
             end in
    collect fuel t (next_of t) (stop_fwd cmpK o) x (offset o) (count o).

(** [toArray()] *)
Definition toArray (t : skiplist) : list (K * V) :=
  collect (S (Z.to_nat (len t))) t (next_of t) (fun _ => false) (forward (getl t Hd 0)) 0 None.

(** * Positions

    Position 0 is the header and position [S q] the [q]-th node in key order. The
    invariant describes every pointer and span by the heights of the positions. *)

Definition hgt (hs : list nat) (p : nat) : nat :=
  match p with O => MAX_LEVEL | S q => default O (hs !! q) end.

Definition cur (ids : list nat) (p : nat) : cursor :=
  match p with O => Hd | S q => match ids !! q with Some id => Nd id | None => Hd end end.

Definition idat (ids : list nat) (q : nat) : option nat := ids !! (q - 1)%nat.

(** The next position after [p] tall enough for level [i]. *)
Definition is_nxt (hs : list nat) (i p : nat) (o : option nat) : Prop :=
  match o with
  | Some q => (p < q <= length hs)%nat /\ (i < hgt hs q)%nat /\
              (forall r, (p < r < q)%nat -> (hgt hs r <= i)%nat)
  | None => forall r, (p < r <= length hs)%nat -> (hgt hs r <= i)%nat
  end.

(** The last position up to [c] tall enough for level [i]. *)
Fixpoint prv (hs : list nat) (i c : nat) : nat :=
  match c with
  | O => O
  | S c' => if (i <? hgt hs c)%nat then c else prv hs i c'
  end.

Lemma prv_spec hs i c :
  (i < MAX_LEVEL)%nat ->
  (prv hs i c <= c)%nat /\ (i < hgt hs (prv hs i c))%nat /\
  (forall r, (prv hs i c < r <= c)%nat -> (hgt hs r <= i)%nat).
Proof.
  intros Hi. induction c as [|c IH]; cbn [prv].
  { split_and!; [lia|done|]. intros r Hr. lia. }
  destruct (Nat.ltb_spec i (hgt hs (S c))).
  - split_and!; [lia|done|]. intros r Hr. lia.
  - destruct IH as (IH1 & IH2 & IH3). split_and!; [lia|done|].
    intros r Hr. destruct (decide (r = S c)) as [->|]; [done|]. apply IH3. lia.
Qed.

Lemma prv_unique hs i c b :
  (i < MAX_LEVEL)%nat -> (b <= c)%nat -> (i < hgt hs b)%nat ->
  (forall r, (b < r <= c)%nat -> (hgt hs r <= i)%nat) -> b = prv hs i c.
Proof.
  intros Hi Hb Hh Hr. destruct (prv_spec hs i c Hi) as (P1 & P2 & P3).
  destruct (decide (b < prv hs i c)%nat) as [Hlt|]; [specialize (Hr _ (conj Hlt P1)); lia|].
  destruct (decide (prv hs i c < b)%nat) as [Hlt|]; [specialize (P3 _ (conj Hlt Hb)); lia|]. lia.
Qed.

Lemma nxt_exists hs i p : (p <= length hs)%nat -> exists o, is_nxt hs i p o.
Proof.
  intros Hp. remember (length hs - p)%nat as d eqn:Hd. revert p Hp Hd.
  induction d as [|d IH]; intros p Hp Hd.
  { exists None. intros r Hr. lia. }
  destruct (decide (i < hgt hs (S p))%nat) as [Hh|Hh].
  { exists (Some (S p)). split_and!; [lia|lia|done|]. intros r Hr. lia. }
  destruct (IH (S p) ltac:(lia) ltac:(lia)) as [[q|] Ho]; cbn in Ho.
  - destruct Ho as (? & ? & Ho). exists (Some q). split_and!; [lia|lia|done|].
    intros r Hr. destruct (decide (r = S p)) as [->|]; [lia|]. apply Ho. lia.
  - exists None. intros r Hr. destruct (decide (r = S p)) as [->|]; [lia|]. apply Ho. lia.
Qed.

Lemma nxt_unique hs i p o1 o2 : is_nxt hs i p o1 -> is_nxt hs i p o2 -> o1 = o2.
Proof.
  destruct o1 as [q1|], o2 as [q2|]; cbn; [| | |done].
  - intros (A1 & A2 & A3) (B1 & B2 & B3). f_equal.
    destruct (decide (q1 < q2)%nat); [specialize (B3 q1 ltac:(lia)); lia|].
    destruct (decide (q2 < q1)%nat); [specialize (A3 q2 ltac:(lia)); lia|]. lia.
  - intros (A1 & A2 & A3) B. specialize (B q1 ltac:(lia)). lia.
  - intros A (B1 & B2 & B3). specialize (A q2 ltac:(lia)). lia.
Qed.

(** What the next position of [prv i c] is relative to [c]. *)
Lemma nxt_prv hs i c o :
  (i < MAX_LEVEL)%nat -> is_nxt hs i (prv hs i c) o ->
  match o with Some q => (c < q)%nat | None => True end.
Proof.
  intros Hi Ho. destruct (prv_spec hs i c Hi) as (P1 & P2 & P3).
  destruct o as [q|]; [|done]. destruct Ho as (A1 & A2 & A3).
  destruct (decide (q <= c)%nat); [|lia]. specialize (P3 q ltac:(lia)). lia.
Qed.

Lemma nxt_before_prv hs i c p o :
  (i < MAX_LEVEL)%nat -> (c <= length hs)%nat -> (p < prv hs i c)%nat -> is_nxt hs i p o ->
  exists q, o = Some q /\ (q <= prv hs i c)%nat.
Proof.
  intros Hi Hc Hp Ho. destruct (prv_spec hs i c Hi) as (P1 & P2 & P3).
  destruct o as [q|]; cbn in Ho.
  - exists q. split; [done|]. destruct (decide (prv hs i c < q)%nat); [|lia].
    destruct Ho as (_ & _ & Ho). specialize (Ho (prv hs i c) ltac:(lia)). lia.
  - specialize (Ho (prv hs i c) ltac:(lia)). lia.
Qed.

Record inv (t : skiplist) (l : list (K * V)) (ids hs : list nat) : Prop := {
  i_ids : length ids = length l;
  i_hs : length hs = length l;
  i_len : len t = Z.of_nat (length l);
  i_nodup : NoDup ids;
  i_fresh : forall id, id ∈ ids -> (id < next_id t)%nat;
  i_nodes : forall q id e h, ids !! q = Some id -> l !! q = Some e -> hs !! q = Some h ->
            exists lv, nodes t !! id = Some (Node e.1 e.2 (cursor_ref (cur ids q)) lv) /\ length lv = h;
  i_hdr : length (header t) = MAX_LEVEL;
  i_heights : forall q h, hs !! q = Some h -> (1 <= h <= level t)%nat;
  i_level : (1 <= level t <= MAX_LEVEL)%nat;
  i_up : forall i, (level t <= i < MAX_LEVEL)%nat -> forward (getl t Hd i) = None;
  i_links : forall p i o, (p <= length l)%nat -> (i < hgt hs p)%nat -> (i < level t)%nat -> is_nxt hs i p o ->
            getl t (cur ids p) i =
              Lvl (o ≫= idat ids) (Z.of_nat (default (length l) o) - Z.of_nat p);
  i_tail : tail t = cursor_ref (cur ids (length l));
}.

Lemma cur_S ids q id : ids !! q = Some id -> cur ids (S q) = Nd id.
Proof. cbn. by intros ->. Qed.

Lemma cur_inj ids p q :
  NoDup ids -> (p <= length ids)%nat -> (q <= length ids)%nat -> cur ids p = cur ids q -> p = q.
Proof.
  intros Hn Hp Hq Heq. destruct p as [|p], q as [|q]; cbn in Heq; [done|..].
  - destruct (lookup_lt_is_Some_2 ids q ltac:(lia)) as [id Hid]. by rewrite Hid in Heq.
  - destruct (lookup_lt_is_Some_2 ids p ltac:(lia)) as [id Hid]. by rewrite Hid in Heq.
  - destruct (lookup_lt_is_Some_2 ids p ltac:(lia)) as [id Hid].
    destruct (lookup_lt_is_Some_2 ids q ltac:(lia)) as [id' Hid']. rewrite Hid, Hid' in Heq.
    injection Heq as ->. f_equal. by eapply NoDup_lookup.
Qed.

Lemma hgt_pos t l ids hs p : inv t l ids hs -> (p <= length l)%nat -> (1 <= hgt hs p)%nat.
Proof.
  intros Hi Hp. destruct p as [|p]; cbn; [unfold MAX_LEVEL; lia|].
  destruct (lookup_lt_is_Some_2 hs p ltac:(rewrite (i_hs _ _ _ _ Hi); lia)) as [h Hh].
  rewrite Hh. cbn. pose proof (i_heights _ _ _ _ Hi p h Hh). lia.
Qed.

Lemma hgt_level t l ids hs p : inv t l ids hs -> (0 < p)%nat -> (hgt hs p <= level t)%nat.
Proof.
  intros Hi Hp. destruct p as [|p]; cbn; [lia|]. destruct (hs !! p) as [h|] eqn:Hh; cbn; [|lia].
  pose proof (i_heights _ _ _ _ Hi p h Hh). lia.
Qed.

Lemma prv_0 t l ids hs c : inv t l ids hs -> (c <= length l)%nat -> prv hs 0 c = c.
Proof.
  intros Hi Hc. symmetry. apply prv_unique; [unfold MAX_LEVEL; lia|lia| |intros; lia].
  pose proof (hgt_pos _ _ _ _ c Hi Hc). lia.
Qed.

Lemma prv_high t l ids hs i c : inv t l ids hs -> (level t <= i)%nat -> prv hs i c = O.
Proof.
  intros Hi Hle. induction c as [|c IH]; cbn [prv]; [done|].
  pose proof (hgt_level _ _ _ _ (S c) Hi ltac:(lia)).
  destruct (Nat.ltb_spec i (hgt hs (S c))); [lia|done].
Qed.

(** ** Searching *)

(** [P] holds of exactly the first [c] entries. *)
Definition cuts (P : K -> V -> bool) (l : list (K * V)) (c : nat) : Prop :=
  (c <= length l)%nat /\ forall q e, l !! q = Some e -> P e.1 e.2 = (q <? c)%nat.

Lemma walk_spec t l ids hs P c i fuel a :
  inv t l ids hs -> cuts P l c -> (i < level t)%nat -> (a <= c)%nat -> (i < hgt hs a)%nat ->
  (c - a < fuel)%nat ->
  walk fuel t (fun nd => P (key nd) (val nd)) i (cur ids a) (Z.of_nat a) =
  (cur ids (prv hs i c), Z.of_nat (prv hs i c)).
Proof.
  intros Hi [Hc HP] Hlv. pose proof (i_level _ _ _ _ Hi). pose proof (i_ids _ _ _ _ Hi) as Hids.
  pose proof (i_hs _ _ _ _ Hi) as Hhs.
  revert a. induction fuel as [|fuel IH]; intros a Ha Hh Hf; [lia|]. cbn [walk].
  destruct (nxt_exists hs i a ltac:(lia)) as [o Ho].
  rewrite (i_links _ _ _ _ Hi a i o) by (done || lia). cbn [forward span].
  assert (Hstop : match o with Some q => (c < q)%nat | None => True end -> a = prv hs i c).
  { intros Hq. apply prv_unique; [lia..|]. intros r Hr. destruct o as [q|]; cbn in Ho.
    - apply Ho. lia.
    - apply Ho. lia. }
  destruct o as [q|]; cbn [mbind option_bind default]; unfold Datatypes.id.
  - destruct Ho as (Hq & Hhq & Hno). unfold idat.
    destruct (lookup_lt_is_Some_2 ids (q - 1) ltac:(lia)) as [f Hfid]. rewrite Hfid.
    destruct (lookup_lt_is_Some_2 l (q - 1) ltac:(lia)) as [e He].
    destruct (lookup_lt_is_Some_2 hs (q - 1) ltac:(lia)) as [h Hhh].
    destruct (i_nodes _ _ _ _ Hi _ _ _ _ Hfid He Hhh) as (lv & Hnd & _). rewrite Hnd. cbn [key val].
    rewrite (HP _ _ He). destruct (Nat.ltb_spec (q - 1) c).
    + assert (Hcur : Nd f = cur ids q).
      { destruct q as [|q']; [lia|]. replace (S q' - 1)%nat with q' in Hfid by lia. by rewrite (cur_S _ _ _ Hfid). }
      rewrite Hcur. replace (Z.of_nat a + (Z.of_nat q - Z.of_nat a)) with (Z.of_nat q) by lia.
      apply IH; [lia|done|lia].
    + rewrite <- Hstop by lia. done.
  - rewrite <- Hstop by done. done.
Qed.

Definition upds (ids hs : list nat) (c n : nat) : list (cursor * Z) :=
  (fun i => (cur ids (prv hs i c), Z.of_nat (prv hs i c))) <$> seq 0 n.

Lemma upds_lookup ids hs c n i :
  (i < n)%nat -> upds ids hs c n !! i = Some (cur ids (prv hs i c), Z.of_nat (prv hs i c)).
Proof. intros Hi. unfold upds. by rewrite list_lookup_fmap, lookup_seq_lt by done. Qed.

Lemma descend_spec t l ids hs P c n a :
  inv t l ids hs -> cuts P l c -> (n <= level t)%nat -> (a <= c)%nat -> (n <= hgt hs a)%nat ->
  descend t (fun nd => P (key nd) (val nd)) n (cur ids a) (Z.of_nat a) = upds ids hs c n.
Proof.
  intros Hi HP. revert a. induction n as [|n IH]; intros a Hn Ha Hh; cbn [descend]; [done|].
  pose proof (i_level _ _ _ _ Hi). pose proof (i_len _ _ _ _ Hi) as Hlen. destruct HP as [Hc HP'].
  rewrite (walk_spec t l ids hs P c) by (done || unfold walk_fuel; lia).
  destruct (prv_spec hs n c ltac:(lia)) as (P1 & P2 & P3).
  rewrite IH by (done || lia). unfold upds. by rewrite seq_S, fmap_app.
Qed.

Lemma search_spec t l ids hs P c :
  inv t l ids hs -> cuts P l c ->
  descend t (fun nd => P (key nd) (val nd)) (level t) Hd 0 = upds ids hs c (level t) /\
  bottom (upds ids hs c (level t)) = (cur ids c, Z.of_nat c).
Proof.
  intros Hi HP. pose proof (i_level _ _ _ _ Hi). split.
  - apply (descend_spec t l ids hs P c _ 0); [done|done|lia|lia|cbn; lia].
  - unfold bottom. rewrite head_lookup, upds_lookup by lia. cbn.
    by rewrite (prv_0 t l ids hs) by (done || apply HP).
Qed.

(** The node after position [c] on level 0. *)
Lemma next_at t l ids hs c :
  inv t l ids hs -> (c <= length l)%nat -> forward (getl t (cur ids c) 0) = ids !! c.
Proof.
  intros Hi Hc. pose proof (i_level _ _ _ _ Hi). pose proof (i_ids _ _ _ _ Hi). pose proof (i_hs _ _ _ _ Hi).
  pose proof (hgt_pos _ _ _ _ c Hi Hc).
  destruct (decide (c < length l)%nat).
  - rewrite (i_links _ _ _ _ Hi c 0 (Some (S c))); [|lia..|].
    + cbn. unfold idat. by replace (S c - 1)%nat with c by lia.
    + cbn -[hgt]. split_and!; [lia|lia| |intros; lia]. pose proof (hgt_pos _ _ _ _ (S c) Hi ltac:(lia)). lia.
  - rewrite (i_links _ _ _ _ Hi c 0 None); [|lia..|].
    + cbn. symmetry. apply lookup_ge_None. lia.
    + intros r Hr. lia.
Qed.

Lemma lowerBound_spec t l ids hs c b strict :
  inv t l ids hs -> cuts (fun k _ => if strict : bool then cmpK k b <=? 0 else cmpK k b <? 0) l c ->
  lowerBound t b strict = ids !! c.
Proof.
  intros Hi HP. unfold lowerBound.
  destruct (search_spec t l ids hs _ c Hi HP) as [H1 H2]. rewrite H1, H2. cbn [fst].
  apply (next_at t l ids hs); [done|apply HP].
Qed.

(** ** Assignments to levels *)

(** Same state up to the contents of the level arrays. *)
Record skel (t t' : skiplist) : Prop := {
  sk_arr : forall y, length (level_array t' y) = length (level_array t y);
  sk_nodes : forall id, (fun nd => (key nd, val nd, backward nd)) <$> nodes t' !! id =
                        (fun nd => (key nd, val nd, backward nd)) <$> nodes t !! id;
  sk_tail : tail t' = tail t;
  sk_len : len t' = len t;
  sk_level : level t' = level t;
  sk_next : next_id t' = next_id t;
  sk_draws : draws t' = draws t;
}.

Lemma skel_refl t : skel t t.
Proof. by split. Qed.

Lemma skel_trans t1 t2 t3 : skel t1 t2 -> skel t2 t3 -> skel t1 t3.
Proof. intros [] []. split; intros; congruence. Qed.

Lemma setl_skel t x i lv : skel t (setl t x i lv).
Proof.
  destruct x as [|id]; cbn; split; try done; cbn.
  - intros [|id]; cbn; [by rewrite length_insert|done].
  - intros [|id']; cbn; [done|]. destruct (decide (id = id')) as [->|Hne].
    + rewrite lookup_alter_eq. destruct (nodes t !! id'); cbn; [by rewrite length_insert|done].
    + by rewrite lookup_alter_ne.
  - intros id'. destruct (decide (id = id')) as [->|Hne].
    + rewrite lookup_alter_eq. by destruct (nodes t !! id').
    + by rewrite lookup_alter_ne.
Qed.

Lemma getl_setl t x i lv y j :
  (i < length (level_array t x))%nat ->
  getl (setl t x i lv) y j = if decide (y = x /\ j = i) then lv else getl t y j.
Proof.
  unfold getl. intros Hi. destruct x as [|id], y as [|id']; cbn in *.
  - rewrite list_lookup_insert. repeat case_decide; (done || naive_solver).
  - by rewrite decide_False by naive_solver.
  - by rewrite decide_False by naive_solver.
  - destruct (decide (id = id')) as [->|Hne].
    + rewrite lookup_alter_eq. destruct (nodes t !! id') as [nd|]; cbn in *; [|lia].
      rewrite list_lookup_insert. repeat case_decide; (done || naive_solver).
    + rewrite lookup_alter_ne by done. rewrite decide_False by naive_solver. done.
Qed.

Lemma getl_setl_ne t x i lv y j : i <> j -> getl (setl t x i lv) y j = getl t y j.
Proof.
  intros Hne. unfold getl. destruct x as [|id], y as [|id']; cbn; try done.
  - by rewrite list_lookup_insert_ne.
  - destruct (decide (id = id')) as [->|Hn].
    + rewrite lookup_alter_eq. destruct (nodes t !! id'); cbn; [by rewrite list_lookup_insert_ne|done].
    + by rewrite lookup_alter_ne.
Qed.

(** A loop over levels whose round [i] rewrites level [i] only. *)
Lemma fold_levels (f : skiplist -> nat -> skiplist) (g : (cursor -> lvl) -> nat -> cursor -> lvl) t0 a n :
  (forall F G i y, (forall x, F x = G x) -> g F i y = g G i y) ->
  (forall t i, (a <= i < a + n)%nat -> skel t0 t ->
     skel t (f t i) /\
     forall y j, getl (f t i) y j = if decide (j = i) then g (fun x => getl t x i) i y else getl t y j) ->
  skel t0 (fold_left f (seq a n) t0) /\
  forall y j, getl (fold_left f (seq a n) t0) y j =
    if decide (a <= j < a + n)%nat then g (fun x => getl t0 x j) j y else getl t0 y j.
Proof.
  intros Hg Hf. induction n as [|n IH].
  { cbn. split; [apply skel_refl|]. intros y j. by rewrite decide_False by lia. }
  destruct IH as [IH1 IH2]; [intros t i Hi; apply Hf; lia|].
  rewrite seq_S, fold_left_app. cbn [fold_left].
  destruct (Hf _ (a + n)%nat ltac:(lia) IH1) as [H1 H2]. split; [by eapply skel_trans|].
  intros y j. rewrite H2. case_decide; subst.
  - rewrite decide_True by lia. apply Hg. intros x. by rewrite IH2, decide_False by lia.
  - rewrite IH2. repeat case_decide; (done || lia).
Qed.

Lemma height_of t l ids hs p :
  inv t l ids hs -> (p <= length l)%nat -> length (level_array t (cur ids p)) = hgt hs p.
Proof.
  intros Hi Hp. pose proof (i_ids _ _ _ _ Hi). pose proof (i_hs _ _ _ _ Hi).
  destruct p as [|q]; [apply (i_hdr _ _ _ _ Hi)|]. cbn [hgt].
  destruct (lookup_lt_is_Some_2 ids q ltac:(lia)) as [id Hid].
  destruct (lookup_lt_is_Some_2 l q ltac:(lia)) as [e He].
  destruct (lookup_lt_is_Some_2 hs q ltac:(lia)) as [h Hh].
  destruct (i_nodes _ _ _ _ Hi _ _ _ _ Hid He Hh) as (lv & Hnd & Hlv).
  rewrite (cur_S _ _ _ Hid). cbn. by rewrite Hnd, Hh.
Qed.

(** ** Raising the level *)

Lemma raise_inv t l ids hs m :
  inv t l ids hs -> (level t <= m <= MAX_LEVEL)%nat ->
  let t' := fold_left raise1 (seq (level t) (m - level t)) t in
  skel t t' /\ inv (SkipList (nodes t') (header t') (tail t') (len t') m (next_id t') (draws t')) l ids hs.
Proof.
  intros Hi Hm t'.
  destruct (fold_levels raise1
    (fun F i y => if decide (y = Hd) then Lvl (forward (F Hd)) (len t) else F y) t (level t) (m - level t))
    as [Hsk Hget].
  { intros F G i y HF. case_decide; by rewrite HF. }
  { intros t1 i Hlt Hsk. split; [apply setl_skel|]. intros y j. unfold raise1.
    rewrite getl_setl; [|rewrite (sk_arr _ _ Hsk Hd); cbn; rewrite (i_hdr _ _ _ _ Hi); lia].
    rewrite (sk_len _ _ Hsk). repeat case_decide; naive_solver. }
  fold t' in Hsk, Hget. split; [done|].
  pose proof (i_level _ _ _ _ Hi) as Hl.
  set (t2 := SkipList _ _ _ _ _ _ _).
  assert (Hg2 : forall y j, getl t2 y j = getl t' y j) by (by intros [|]).
  destruct Hi as [I1 I2 I3 I4 I5 I6 I7 I8 I9 I10 I11 I12]. split; cbn [t2 len next_id nodes header tail level].
  - done.
  - done.
  - by rewrite (sk_len _ _ Hsk).
  - done.
  - by rewrite (sk_next _ _ Hsk).
  - intros q id e h Hid He Hh. destruct (I6 q id e h Hid He Hh) as (lv & Hnd & Hlv).
    pose proof (sk_nodes _ _ Hsk id) as Hn. pose proof (sk_arr _ _ Hsk (Nd id)) as Ha. cbn in Ha.
    rewrite Hnd in Hn, Ha. cbn in Hn. destruct (nodes t' !! id) as [[k' v' b' lv']|]; [|done].
    cbn in Hn, Ha. injection Hn as -> -> ->. exists lv'. split; [done|lia].
  - pose proof (sk_arr _ _ Hsk Hd) as Ha. cbn in Ha. lia.
  - intros q h Hh. specialize (I8 q h Hh). lia.
  - lia.
  - intros i Hir. rewrite Hg2, Hget. case_decide; [lia|]. apply I10. lia.
  - intros p i o Hp Hh Hlt Ho. rewrite Hg2, Hget. case_decide as Hr.
    + destruct p as [|p].
      * cbn [cur]. rewrite decide_True by done. rewrite I10 by lia.
        assert (o = None) as ->.
        { destruct o as [q|]; [|done]. destruct Ho as (Hq & Hhq & _).
          destruct q as [|q]; [lia|]. cbn in Hhq. destruct (hs !! q) as [h|] eqn:E; cbn in Hhq; [|lia].
          specialize (I8 q h E). lia. }
        cbn. rewrite I3. f_equal. lia.
      * cbn in Hh. destruct (hs !! p) as [h|] eqn:E; cbn in Hh; [|lia]. specialize (I8 p h E). lia.
    + apply I11; [done|done|lia|done].
  - by rewrite (sk_tail _ _ Hsk).
Qed.

Lemma raise_none t : fold_left raise1 (seq (level t) (level t - level t)) t = t.
Proof. by rewrite Nat.sub_diag. Qed.

(** ** Inserting at a position *)

Lemma skel_node t t' id k v b lv :
  skel t t' -> nodes t !! id = Some (Node k v b lv) ->
  exists lv', nodes t' !! id = Some (Node k v b lv') /\ length lv' = length lv.
Proof.
  intros Hsk Hnd. pose proof (sk_nodes _ _ Hsk id) as Hn. pose proof (sk_arr _ _ Hsk (Nd id)) as Ha.
  cbn in Ha. rewrite Hnd in Hn, Ha. destruct (nodes t' !! id) as [[k' v' b' lv']|]; [|done].
  cbn in Hn, Ha. injection Hn as -> -> ->. by exists lv'.
Qed.

Lemma getl_set_backward t id b y j : getl (set_backward t id b) y j = getl t y j.
Proof.
  destruct y as [|id']; [done|]. unfold getl. cbn. destruct (decide (id = id')) as [->|Hne].
  - rewrite lookup_alter_eq. by destruct (nodes t !! id').
  - by rewrite lookup_alter_ne.
Qed.

Lemma getl_set_tail t b y j : getl (set_tail t b) y j = getl t y j.
Proof. by destruct y. Qed.

Lemma hgt_ins hs c lv r :
  (c <= length hs)%nat ->
  hgt (list_ins c lv hs) r = if decide (r <= c)%nat then hgt hs r
                        else if decide (r = S c) then lv else hgt hs (r - 1).
Proof.
  intros Hc. destruct r as [|r]; cbn [hgt]; [by rewrite decide_True by lia|].
  rewrite list_ins_lookup by done. repeat case_decide; try lia; try done.
  replace (S r - 1)%nat with r by lia. destruct r as [|r]; [lia|]. cbn [hgt].
  by replace (S r - 1)%nat with r by lia.
Qed.

Lemma cur_ins ids c id r :
  (c <= length ids)%nat ->
  cur (list_ins c id ids) r = if decide (r <= c)%nat then cur ids r
                         else if decide (r = S c) then Nd id else cur ids (r - 1).
Proof.
  intros Hc. destruct r as [|r]; cbn [cur]; [by rewrite decide_True by lia|].
  rewrite list_ins_lookup by done. repeat case_decide; try lia; try done.
  replace (S r - 1)%nat with r by lia. destruct r as [|r]; [lia|]. cbn [cur].
  by replace (S r - 1)%nat with r by lia.
Qed.

Lemma idat_ins ids c id q :
  (c <= length ids)%nat -> (0 < q)%nat ->
  idat (list_ins c id ids) q = if decide (q <= c)%nat then idat ids q
                          else if decide (q = S c) then Some id else idat ids (q - 1).
Proof.
  intros Hc Hq. unfold idat. rewrite list_ins_lookup by done.
  repeat case_decide; (lia || done).
Qed.

(** How the next positions move. *)
Lemma nxt_ins hs i c lv p o o' :
  (i < MAX_LEVEL)%nat -> (c <= length hs)%nat -> (p <= length hs)%nat ->
  is_nxt hs i p o ->
  is_nxt (list_ins c lv hs) i (if decide (p <= c)%nat then p else S p) o' ->
  o' = if decide (p <= c)%nat then
         match o with
         | Some q => if decide (q <= c)%nat then Some q
                     else if decide (i < lv)%nat then Some (S c) else Some (S q)
         | None => if decide (i < lv)%nat then Some (S c) else None
         end
       else S <$> o.
Proof.
  intros Hi Hc Hp Ho Ho'. eapply nxt_unique; [exact Ho'|]. clear Ho'.
  pose proof (length_list_ins c lv hs) as Hlen. unfold is_nxt in *.
  repeat case_decide; destruct o as [q|]; cbn [fmap option_fmap option_map]; repeat case_decide.
  all: split_and?; try lia.
  all: try (rewrite hgt_ins by done; repeat case_decide; try lia;
            replace (S q - 1)%nat with q by lia; tauto).
  all: intros r Hr; rewrite hgt_ins by done; repeat case_decide; try lia; apply Ho; lia.
Qed.

Lemma nxt_ins_new hs i c lv b o o' :
  (i < MAX_LEVEL)%nat -> (c <= length hs)%nat -> b = prv hs i c ->
  is_nxt hs i b o -> is_nxt (list_ins c lv hs) i (S c) o' -> o' = S <$> o.
Proof.
  intros Hi Hc -> Ho Ho'. eapply nxt_unique; [exact Ho'|]. clear Ho'.
  pose proof (nxt_prv _ _ _ _ Hi Ho) as Hq. destruct (prv_spec hs i c Hi) as (P1 & P2 & P3).
  pose proof (length_list_ins c lv hs) as Hlen. unfold is_nxt in *.
  destruct o as [q|]; cbn [fmap option_fmap option_map].
  - destruct Ho as (A1 & A2 & A3). split_and!; [lia|lia| |].
    + rewrite hgt_ins by done. repeat case_decide; try lia. by replace (S q - 1)%nat with q by lia.
    + intros r Hr. rewrite hgt_ins by done. repeat case_decide; try lia. apply A3. lia.
  - intros r Hr. rewrite hgt_ins by done. repeat case_decide; try lia. apply Ho. lia.
Qed.

(** The state after the new node is allocated and the two loops over levels. *)
Definition alloc (t : skiplist) (k : K) (v : V) (lv : nat) (dr : nat -> bool) : skiplist :=
  SkipList (<[next_id t := Node k v None (replicate lv no_lvl)]> (nodes t)) (header t) (tail t)
    (len t) (level t) (S (next_id t)) dr.

Lemma alloc_getl t k v lv dr y j :
  y <> Nd (next_id t) -> getl (alloc t k v lv dr) y j = getl t y j.
Proof.
  intros Hy. destruct y as [|id]; [done|]. unfold getl. cbn. by rewrite lookup_insert_ne by congruence.
Qed.

Lemma cur_fresh t l ids hs p : inv t l ids hs -> cur ids p <> Nd (next_id t).
Proof.
  intros Hi Heq. destruct p as [|p]; cbn in Heq; [done|]. destruct (ids !! p) as [id|] eqn:E; [|done].
  injection Heq as ->. pose proof (i_fresh _ _ _ _ Hi (next_id t)
    ltac:(eapply list_elem_of_lookup_2; exact E)). lia.
Qed.

Lemma splice_loops t l ids hs c lv k v dr :
  inv t l ids hs -> (c <= length l)%nat -> (1 <= lv <= level t)%nat ->
  let id := next_id t in
  let us := upds ids hs c (level t) in
  let t2 := alloc t k v lv dr in
  let t3 := fold_left (splice1 id us (Z.of_nat c)) (seq 0 lv) t2 in
  let t4 := fold_left (bump1 1 us) (seq lv (level t - lv)) t3 in
  skel t2 t4 /\
  forall y j, (j < level t)%nat -> getl t4 y j =
    let b := prv hs j c in
    let lu := getl t (cur ids b) j in
    if decide (y = cur ids b) then
      if decide (j < lv)%nat then Lvl (Some id) (Z.of_nat c - Z.of_nat b + 1)
      else Lvl (forward lu) (span lu + 1)
    else if decide (y = Nd id) then
      if decide (j < lv)%nat then Lvl (forward lu) (span lu - (Z.of_nat c - Z.of_nat b)) else getl t2 y j
    else getl t y j.
Proof.
  intros Hi Hc Hlv id us t2 t3 t4. pose proof (i_level _ _ _ _ Hi) as Hl.
  pose proof (fun p => cur_fresh t l ids hs p Hi) as Hfr. fold id in Hfr.
  assert (Hharr : forall i, (i < level t)%nat -> (i < length (level_array t2 (cur ids (prv hs i c))))%nat).
  { intros i Hlt. destruct (prv_spec hs i c ltac:(lia)) as (P1 & P2 & _).
    assert (Ha : level_array t2 (cur ids (prv hs i c)) = level_array t (cur ids (prv hs i c))).
    { pose proof (Hfr (prv hs i c)) as Hne. destruct (cur ids (prv hs i c)) as [|id']; [done|].
      cbn. rewrite lookup_insert_ne; [done|]. unfold id in Hne. congruence. }
    rewrite Ha, (height_of t l ids hs) by (done || lia). done. }
  destruct (fold_levels (splice1 id us (Z.of_nat c))
    (fun F i y => if decide (y = cur ids (prv hs i c)) then Lvl (Some id) (Z.of_nat c - Z.of_nat (prv hs i c) + 1)
      else if decide (y = Nd id) then
        Lvl (forward (F (cur ids (prv hs i c))))
            (span (F (cur ids (prv hs i c))) - (Z.of_nat c - Z.of_nat (prv hs i c)))
      else F y) t2 0 lv) as [Hs3 Hg3].
  { intros F G i y HF. repeat case_decide; by rewrite ?HF. }
  { intros t' i Hlt Hsk. unfold splice1. unfold us. rewrite upds_lookup by lia. cbn [default from_option].
    unfold Datatypes.id. split.
    - eapply skel_trans; [apply setl_skel|apply setl_skel].
    - intros y j. rewrite getl_setl.
      2: { rewrite (sk_arr _ _ (setl_skel _ _ _ _)), (sk_arr _ _ Hsk). apply Hharr. lia. }
      rewrite getl_setl.
      2: { rewrite (sk_arr _ _ Hsk). cbn. rewrite lookup_insert_eq. cbn. rewrite length_replicate. lia. }
      pose proof (Hfr (prv hs i c)). repeat case_decide; naive_solver. }
  fold t3 in Hs3, Hg3.
  destruct (fold_levels (bump1 1 us)
    (fun F i y => if decide (y = cur ids (prv hs i c)) then
        Lvl (forward (F (cur ids (prv hs i c)))) (span (F (cur ids (prv hs i c))) + 1)
      else F y) t3 lv (level t - lv)) as [Hs4 Hg4].
  { intros F G i y HF. repeat case_decide; by rewrite ?HF. }
  { intros t' i Hlt Hsk. unfold bump1, us. rewrite upds_lookup by lia. cbn [default from_option].
    unfold Datatypes.id. cbn [fst]. split; [apply setl_skel|].
    intros y j. rewrite getl_setl.
    - repeat case_decide; naive_solver.
    - rewrite (sk_arr _ _ Hsk), (sk_arr _ _ Hs3). apply Hharr. lia. }
  fold t4 in Hs4, Hg4. split; [by eapply skel_trans|].
  intros y j Hj. cbv zeta. rewrite Hg4, !Hg3.
  assert (H2 : getl t2 (cur ids (prv hs j c)) j = getl t (cur ids (prv hs j c)) j) by (apply alloc_getl, Hfr).
  destruct (decide (j < lv)%nat).
  - rewrite !H2. rewrite decide_False by lia. rewrite decide_True by lia.
    repeat case_decide; try done. by apply alloc_getl.
  - rewrite decide_True by lia. rewrite !(decide_False (P := (0 <= j < 0 + lv)%nat)) by lia. rewrite H2.
    repeat case_decide; try done. by apply alloc_getl.
Qed.

Lemma splice_above t l ids hs c lv k v dr y j :
  inv t l ids hs -> (c <= length l)%nat -> (1 <= lv <= level t)%nat -> (level t <= j)%nat ->
  y <> Nd (next_id t) ->
  let us := upds ids hs c (level t) in
  getl (fold_left (bump1 1 us) (seq lv (level t - lv))
         (fold_left (splice1 (next_id t) us (Z.of_nat c)) (seq 0 lv) (alloc t k v lv dr))) y j = getl t y j.
Proof.
  intros Hi Hc Hlv Hj Hy us. rewrite <- (alloc_getl t k v lv dr y j Hy).
  assert (Hs : forall (f : skiplist -> nat -> skiplist) n a t0,
    (forall t' i, i <> j -> getl (f t' i) y j = getl t' y j) -> (a + n <= j)%nat ->
    getl (fold_left f (seq a n) t0) y j = getl t0 y j).
  { intros f n. induction n as [|n IH]; intros a t0 Hf Han; cbn; [done|]. rewrite IH by (done || lia).
    apply Hf. lia. }
  rewrite !Hs; [done|..]; try lia.
  - intros t' i Hne. unfold splice1. destruct (default _ _) as [u ri]. by rewrite !getl_setl_ne.
  - intros t' i Hne. unfold bump1. by rewrite getl_setl_ne.
Qed.

(** The links after the splice. *)
Lemma splice_links t l ids hs c lv k v dr p i o' :
  inv t l ids hs -> (c <= length l)%nat -> (1 <= lv <= level t)%nat ->
  let id := next_id t in
  let us := upds ids hs c (level t) in
  let t4 := fold_left (bump1 1 us) (seq lv (level t - lv))
              (fold_left (splice1 id us (Z.of_nat c)) (seq 0 lv) (alloc t k v lv dr)) in
  let ids' := list_ins c id ids in
  let hs' := list_ins c lv hs in
  (p <= S (length l))%nat -> (i < hgt hs' p)%nat -> (i < level t)%nat -> is_nxt hs' i p o' ->
  getl t4 (cur ids' p) i = Lvl (o' ≫= idat ids') (Z.of_nat (default (S (length l)) o') - Z.of_nat p).
Proof.
  intros Hi Hc Hlv id us t4 ids' hs' Hp Hh Hlt Ho'.
  destruct (splice_loops t l ids hs c lv k v dr Hi Hc Hlv) as [_ Hg]. fold id us t4 in Hg.
  pose proof (i_level _ _ _ _ Hi) as Hl. pose proof (i_hs _ _ _ _ Hi) as Hhs. pose proof (i_ids _ _ _ _ Hi) as Hids.
  destruct (prv_spec hs i c ltac:(lia)) as (P1 & P2 & P3).
  pose proof (fun p => cur_fresh t l ids hs p Hi) as Hfr. fold id in Hfr.
  rewrite Hg by done. cbv zeta. unfold ids'. rewrite cur_ins by lia.
  destruct (nxt_exists hs i (prv hs i c) ltac:(lia)) as [ob Hob].
  pose proof (nxt_prv hs i c ob ltac:(lia) Hob) as Hobc.
  rewrite (i_links _ _ _ _ Hi (prv hs i c) i ob ltac:(lia) P2 Hlt Hob). cbn [forward span].
  unfold hs' in Hh. rewrite hgt_ins in Hh by lia.
  destruct (decide (p = S c)) as [->|Hpn].
  { (* the new node *)
    rewrite (decide_False (P := (S c <= c)%nat)) in Hh by lia.
    rewrite (decide_False (P := (S c <= c)%nat)) by lia.
    rewrite decide_False by (intros E; by apply (Hfr (prv hs i c))).
    rewrite decide_True by done. rewrite decide_True by lia.
    rewrite (nxt_ins_new hs i c lv _ ob o' ltac:(lia) ltac:(lia) eq_refl Hob Ho').
    destruct ob as [q|]; cbn [fmap option_fmap option_map mbind option_bind default]; unfold Datatypes.id.
    - rewrite idat_ins by lia. rewrite !decide_False by lia. f_equal; [f_equal|]; lia.
    - f_equal; lia. }
  set (p0 := if decide (p <= c)%nat then p else (p - 1)%nat).
  assert (Hp0 : (p0 <= length l)%nat) by (unfold p0; case_decide; lia).
  assert (Hcur : (if decide (p <= c)%nat then cur ids p else cur ids (p - 1)) = cur ids p0).
  { unfold p0. repeat case_decide; (lia || done). }
  assert (Hh0 : (i < hgt hs p0)%nat).
  { unfold p0. repeat case_decide; (lia || done). }
  rewrite Hcur. destruct (nxt_exists hs i p0 ltac:(lia)) as [o Ho].
  assert (Hpp : p = if decide (p0 <= c)%nat then p0 else S p0).
  { unfold p0. repeat case_decide; lia. }
  clearbody p0. rewrite Hpp in Ho'. pose proof (nxt_ins hs i c lv p0 o o' ltac:(lia) ltac:(lia) ltac:(lia) Ho Ho') as Ho'e.
  destruct (decide (p0 = prv hs i c)) as [E|Hne].
  - rewrite E in Ho. pose proof (nxt_unique _ _ _ _ _ Ho Hob) as ->.
    rewrite decide_True by (by rewrite E). assert (Hp0c : (p0 <= c)%nat) by lia.
    rewrite (decide_True (P := (p0 <= c)%nat)) in Ho'e by done.
    rewrite (decide_True (P := (p0 <= c)%nat)) in Hpp by done. subst o' p.
    destruct (decide (i < lv)%nat).
    + assert (Hidat : idat (list_ins c id ids) (S c) = Some id).
      { rewrite idat_ins by lia. rewrite decide_False by lia. by rewrite decide_True. }
      destruct ob as [q|]; cbn [fmap option_fmap option_map mbind option_bind default]; unfold Datatypes.id;
        [rewrite decide_False by lia|]; cbn [mbind option_bind default]; unfold Datatypes.id; rewrite Hidat; f_equal; lia.
    + destruct ob as [q|]; cbn [fmap option_fmap option_map mbind option_bind default]; unfold Datatypes.id.
      * rewrite (decide_False (P := (q <= c)%nat)) by lia. cbn [mbind option_bind default]; unfold Datatypes.id.
        rewrite idat_ins by lia. rewrite !decide_False by lia. f_equal; [f_equal|]; lia.
      * f_equal; lia.
  - rewrite decide_False by (intros E; apply Hne; eapply cur_inj; [apply (i_nodup _ _ _ _ Hi)|lia..|exact E]).
    rewrite decide_False by apply Hfr. rewrite (i_links _ _ _ _ Hi p0 i o Hp0 Hh0 Hlt Ho). subst o'.
    destruct (decide (p0 <= c)%nat) as [Hle|Hgt].
    + assert (Hlt0 : (p0 < prv hs i c)%nat).
      { destruct (decide (prv hs i c < p0)%nat); [|lia]. specialize (P3 p0 ltac:(lia)). lia. }
      destruct (nxt_before_prv hs i c p0 o ltac:(lia) ltac:(lia) Hlt0 Ho) as (q & -> & Hq).
      destruct Ho as (Hq0 & _). rewrite decide_True by lia. cbn [mbind option_bind default]. unfold Datatypes.id.
      rewrite idat_ins by lia. rewrite decide_True by lia. f_equal; lia.
    + destruct o as [q|]; cbn [fmap option_fmap option_map mbind option_bind default]; unfold Datatypes.id.
      * destruct Ho as (Hq0 & _). rewrite idat_ins by lia. rewrite !decide_False by lia. f_equal; [f_equal|]; lia.
      * f_equal; lia.
Qed.

Lemma set_backward_ne t id b id' : id <> id' -> nodes (set_backward t id b) !! id' = nodes t !! id'.
Proof. intros. cbn. by rewrite lookup_alter_ne. Qed.

Lemma set_backward_eq t id b k v b0 lv :
  nodes t !! id = Some (Node k v b0 lv) -> nodes (set_backward t id b) !! id = Some (Node k v b lv).
Proof. intros H. cbn. by rewrite lookup_alter_eq, H. Qed.

(** The end of [insert]: backward pointers, tail and length. *)
Definition relink (t : skiplist) (id : nat) (b : option nat) : skiplist :=
  let t5 := set_backward t id b in
  match forward (getl t5 (Nd id) 0) with
  | Some f => set_backward t5 f (Some id)
  | None => set_tail t5 (Some id)
  end.

Lemma relink_getl t id b y j : getl (relink t id b) y j = getl t y j.
Proof.
  unfold relink. cbv zeta. destruct (forward _); rewrite ?getl_set_tail, !getl_set_backward; done.
Qed.

Lemma relink_same t id b :
  let t' := relink t id b in
  header t' = header t /\ len t' = len t /\ level t' = level t /\ next_id t' = next_id t.
Proof. unfold relink. cbv zeta. by destruct (forward _). Qed.

Lemma insert_at t l ids hs c lv k v dr :
  inv t l ids hs -> (c <= length l)%nat -> (1 <= lv <= level t)%nat ->
  let id := next_id t in
  let us := upds ids hs c (level t) in
  let t4 := fold_left (bump1 1 us) (seq lv (level t - lv))
              (fold_left (splice1 id us (Z.of_nat c)) (seq 0 lv) (alloc t k v lv dr)) in
  let t6 := relink t4 id (cursor_ref (cur ids c)) in
  inv (SkipList (nodes t6) (header t6) (tail t6) (len t6 + 1) (level t6) (next_id t6) (draws t6))
    (list_ins c (k, v) l) (list_ins c id ids) (list_ins c lv hs).
Proof.
  intros Hi Hc Hlv id us t4 t6.
  destruct (splice_loops t l ids hs c lv k v dr Hi Hc Hlv) as [Hsk Hg]. fold id us t4 in Hsk, Hg.
  pose proof (fun p i o' => splice_links t l ids hs c lv k v dr p i o' Hi Hc Hlv) as Hlinks.
  cbv zeta in Hlinks. fold id us t4 in Hlinks.
  destruct (relink_same t4 id (cursor_ref (cur ids c))) as (R1 & R2 & R3 & R4). fold t6 in R1, R2, R3, R4.
  pose proof (i_ids _ _ _ _ Hi) as Hids. pose proof (i_hs _ _ _ _ Hi) as Hhs.
  pose proof (i_level _ _ _ _ Hi) as Hl. pose proof (i_nodup _ _ _ _ Hi) as Hnd.
  assert (Hfr : id ∉ ids). { intros Hin%(i_fresh _ _ _ _ Hi). unfold id in Hin. lia. }
  assert (Hlen6 : level t6 = level t) by (by rewrite R3, (sk_level _ _ Hsk)).
  (* the forward pointer of the new node on level 0 *)
  assert (Hf0 : forward (getl t4 (Nd id) 0) = ids !! c).
  { rewrite Hg by lia. cbv zeta. rewrite (prv_0 t l ids hs) by done.
    pose proof (cur_fresh t l ids hs c Hi) as Hne. fold id in Hne.
    rewrite decide_False by (intros E; by apply Hne). rewrite decide_True by done. rewrite decide_True by lia.
    by apply (next_at t l ids hs). }
  assert (Hf5 : forward (getl (set_backward t4 id (cursor_ref (cur ids c))) (Nd id) 0) = ids !! c)
    by (by rewrite getl_set_backward).
  (* nodes of t4 *)
  assert (Hold : forall id' k' v' b' lv', id' <> id -> nodes t !! id' = Some (Node k' v' b' lv') ->
            exists lv'', nodes t4 !! id' = Some (Node k' v' b' lv'') /\ length lv'' = length lv').
  { intros id' k' v' b' lv' Hne Hn. apply (skel_node _ _ _ _ _ _ _ Hsk). cbn.
    by rewrite lookup_insert_ne. }
  destruct (skel_node _ _ id k v None (replicate lv no_lvl) Hsk) as (lvn & Hn4 & Hlvn).
  { cbn. by rewrite lookup_insert_eq. }
  rewrite length_replicate in Hlvn.
  assert (Hg6 : forall y j, getl t6 y j = getl t4 y j) by (intros; apply relink_getl).
  set (tr := SkipList _ _ _ _ _ _ _).
  assert (Hgr : forall y j, getl tr y j = getl t4 y j)
    by (intros [|i] j; [exact (Hg6 Hd j)|exact (Hg6 (Nd i) j)]).
  assert (Hnew : nodes t6 !! id = Some (Node k v (cursor_ref (cur ids c)) lvn)).
  { unfold t6, relink. cbv zeta. rewrite Hf5. destruct (ids !! c) as [f|] eqn:Ef.
    - rewrite set_backward_ne; [by apply (set_backward_eq _ _ _ _ _ None)|].
      intros ->. apply Hfr. by eapply list_elem_of_lookup_2.
    - by apply (set_backward_eq _ _ _ _ _ None). }
  assert (Hother : forall id' k' v' b' lv', id' <> id -> nodes t !! id' = Some (Node k' v' b' lv') ->
            exists lv'', nodes t6 !! id' =
              Some (Node k' v' (if decide (ids !! c = Some id') then Some id else b') lv'') /\
              length lv'' = length lv').
  { intros id' k' v' b' lv' Hne Hn. destruct (Hold _ _ _ _ _ Hne Hn) as (lv'' & H4 & Hle).
    exists lv''. split; [|done]. unfold t6, relink. cbv zeta. rewrite Hf5.
    destruct (ids !! c) as [f|] eqn:Ef.
    - destruct (decide (f = id')) as [->|Hnf].
      + rewrite decide_True by done. eapply set_backward_eq. by rewrite set_backward_ne by done.
      + rewrite decide_False by congruence. by rewrite !set_backward_ne by done.
    - rewrite decide_False by done. cbn. by rewrite lookup_alter_ne. }
  split; cbn [tr nodes header tail len level next_id].
  - by rewrite !length_list_ins, Hids.
  - by rewrite !length_list_ins, Hhs.
  - rewrite length_list_ins, R2, (sk_len _ _ Hsk). cbn. rewrite (i_len _ _ _ _ Hi). lia.
  - unfold list_ins. rewrite <- Permutation_middle, take_drop. by constructor.
  - intros id' Hin. rewrite R4, (sk_next _ _ Hsk). cbn.
    unfold list_ins in Hin. rewrite <- Permutation_middle, take_drop in Hin.
    apply elem_of_cons in Hin as [->|Hin%(i_fresh _ _ _ _ Hi)]; unfold id; lia.
  - intros q id' e h. rewrite !list_ins_lookup by lia. intros Hq He Hh.
    rewrite cur_ins by lia.
    destruct (decide (q < c)%nat) as [Hlt|Hge].
    + assert (Hne : id' <> id) by (intros ->; apply Hfr; by eapply list_elem_of_lookup_2).
      destruct (i_nodes _ _ _ _ Hi _ _ _ _ Hq He Hh) as (lv0 & Hn & Hlv0).
      destruct (Hother _ _ _ _ _ Hne Hn) as (lv1 & Hn1 & Hlv1). exists lv1. rewrite Hn1.
      rewrite (decide_True (P := (q <= c)%nat)) by lia. rewrite decide_False; [by split; [|lia]|].
      intros E. pose proof (NoDup_lookup _ _ _ _ Hnd Hq E). lia.
    + destruct (decide (q = c)) as [->|Hnq].
      * injection Hq as <-. injection He as <-. injection Hh as <-. exists lvn.
        rewrite (decide_True (P := (c <= c)%nat)) by lia. done.
      * assert (Hne : id' <> id) by (intros ->; apply Hfr; by eapply list_elem_of_lookup_2).
        destruct (i_nodes _ _ _ _ Hi _ _ _ _ Hq He Hh) as (lv0 & Hn & Hlv0).
        destruct (Hother _ _ _ _ _ Hne Hn) as (lv1 & Hn1 & Hlv1). exists lv1. rewrite Hn1.
        rewrite (decide_False (P := (q <= c)%nat)) by lia. split; [|lia].
        destruct (decide (q = S c)) as [->|Hns].
        -- replace (S c - 1)%nat with c in Hq by lia. by rewrite decide_True.
        -- rewrite decide_False; [done|]. intros E. pose proof (NoDup_lookup _ _ _ _ Hnd Hq E). lia.
  - rewrite R1. pose proof (sk_arr _ _ Hsk Hd) as Ha. cbn in Ha. rewrite (i_hdr _ _ _ _ Hi) in Ha. done.
  - intros q h. rewrite list_ins_lookup, Hlen6 by lia. repeat case_decide.
    + apply (i_heights _ _ _ _ Hi).
    + intros [= <-]. lia.
    + apply (i_heights _ _ _ _ Hi).
  - by rewrite Hlen6.
  - intros i Hir. rewrite Hgr. rewrite Hlen6 in Hir.
    rewrite <- (i_up _ _ _ _ Hi i Hir). f_equal.
    pose proof (sk_arr _ _ Hsk Hd). (* header levels above are untouched *)
    unfold t4. by apply (splice_above t l ids hs); [..|lia|].
  - intros p i o Hp Hh Hlt Ho. rewrite Hgr, length_list_ins.
    rewrite length_list_ins in Hp. rewrite Hlen6 in Hlt. by apply Hlinks.
  - rewrite length_list_ins. cbn [cur].
    rewrite list_ins_lookup by lia. unfold t6, relink. cbv zeta. rewrite Hf5.
    destruct (ids !! c) as [f|] eqn:Ef.
    + apply lookup_lt_Some in Ef. rewrite !decide_False by lia.
      cbn [tail set_backward]. rewrite (sk_tail _ _ Hsk). cbn [tail alloc]. rewrite (i_tail _ _ _ _ Hi).
      destruct l as [|e l]; cbn [length] in *; [lia|]. cbn. by rewrite Nat.sub_0_r.
    + apply lookup_ge_None in Ef. rewrite decide_False by lia. rewrite decide_True by lia. done.
Qed.

Lemma randomLevel_range dr : (1 <= (randomLevel dr).1 <= MAX_LEVEL)%nat.
Proof.
  unfold randomLevel.
  enough (forall fuel lv used, (1 <= lv <= MAX_LEVEL)%nat ->
    (1 <= (randomLevel_loop fuel dr lv used).1 <= MAX_LEVEL)%nat) as H.
  { apply H. unfold MAX_LEVEL. lia. }
  induction fuel as [|fuel IH]; intros lv used Hlv; cbn [randomLevel_loop]; [done|].
  destruct (dr used); [|done]. destruct (Nat.ltb_spec lv MAX_LEVEL); [apply IH; lia|done].
Qed.

(** ** Operations against the list *)

Context `{!Comparator cmpK, !Comparator cmpV}.

Lemma sorted_insert_ins e l : sorted_insert cmpK cmpV e l = list_ins (sorted_pos cmpK cmpV e l) e l.
Proof.
  induction l as [|e' l IH]; cbn; [done|]. destruct (ent_less cmpK cmpV e' e); [|done].
  rewrite IH. done.
Qed.

Lemma sorted_delete_rem e l :
  sorted_delete cmpK cmpV e l =
  if sorted_mem cmpK cmpV e l then list_rem (sorted_pos cmpK cmpV e l) l else l.
Proof.
  unfold sorted_mem. induction l as [|e' l IH]; cbn; [done|].
  destruct (ent_less cmpK cmpV e' e); [|cbn [lookup list_lookup]; by destruct (ent_eqb cmpK cmpV e' e)].
  rewrite IH. change ((e' :: l) !! S (sorted_pos cmpK cmpV e l)) with (l !! sorted_pos cmpK cmpV e l).
  destruct (l !! sorted_pos cmpK cmpV e l) as [e1|]; [|done]. by destruct (ent_eqb cmpK cmpV e1 e).
Qed.

Lemma sorted_pos_le e l : (sorted_pos cmpK cmpV e l <= length l)%nat.
Proof. induction l as [|e' l IH]; cbn; [done|]. case_match; lia. Qed.

Lemma nodeLess_ent nd k v : nodeLess nd k v = ent_less cmpK cmpV (key nd, val nd) (k, v).
Proof. done. Qed.

Lemma cuts_less l k v :
  sorted cmpK cmpV l ->
  cuts (fun k' v' => ent_less cmpK cmpV (k', v') (k, v)) l (sorted_pos cmpK cmpV (k, v) l).
Proof.
  intros Hs. split; [apply sorted_pos_le|].
  induction l as [|e' l IH]; intros q e; [done|]. apply (sorted_cons cmpK cmpV) in Hs as [Hs Hf].
  rewrite <- surjective_pairing. cbn [sorted_pos].
  destruct (ent_less cmpK cmpV e' (k, v)) eqn:E.
  - destruct q as [|q]; cbn [lookup list_lookup]; [by intros [= <-]|]. intros Hq.
    specialize (IH Hs q e Hq). rewrite <- surjective_pairing in IH. rewrite IH. done.
  - intros Hq. replace (q <? 0)%nat with false by done.
    destruct q as [|q]; cbn [lookup list_lookup] in Hq; [by injection Hq as <-|].
    apply (ent_lt_asym cmpK cmpV). apply (ent_lt_total cmpK cmpV) in E as [->|E].
    + rewrite Forall_forall in Hf. apply Hf. by eapply list_elem_of_lookup_2.
    + eapply (ent_lt_trans cmpK cmpV); [exact E|]. rewrite Forall_forall in Hf. apply Hf.
      by eapply list_elem_of_lookup_2.
Qed.

Lemma insert_inv t l ids hs k v :
  inv t l ids hs -> sorted cmpK cmpV l ->
  exists ids' hs', inv (insert t k v) (sorted_insert cmpK cmpV (k, v) l) ids' hs'.
Proof.
  intros Hi Hs. rewrite sorted_insert_ins. set (c := sorted_pos cmpK cmpV (k, v) l).
  pose proof (cuts_less l k v Hs) as Hcut. fold c in Hcut. pose proof (proj1 Hcut) as Hc.
  pose proof (i_level _ _ _ _ Hi) as Hl.
  destruct (search_spec t l ids hs _ c Hi Hcut) as [H1 H2].
  unfold insert. change (fun nd => nodeLess nd k v) with
    (fun nd : node => ent_less cmpK cmpV (key nd, val nd) (k, v)). rewrite H1, H2.
  pose proof (randomLevel_range (draws t)) as Hr. destruct (randomLevel (draws t)) as [lv used].
  cbn [fst snd] in *. set (lev1 := if (level t <? lv)%nat then lv else level t).
  set (t1 := if (level t <? lv)%nat then _ else t).
  set (us' := if (level t <? lv)%nat then _ else _).
  set (tl := SkipList (nodes t1) (header t1) (tail t1) (len t1) lev1 (next_id t1) (draws t1)).
  assert (Hus : us' = upds ids hs c lev1).
  { unfold us', lev1. destruct (Nat.ltb_spec (level t) lv); [|done]. unfold upds.
    replace lv with (level t + (lv - level t))%nat at 2 by lia. rewrite seq_app. cbn [Nat.add].
    rewrite fmap_app. f_equal. apply (list_eq_same_length _ _ (lv - level t)).
    1, 2: by rewrite ?length_fmap, ?length_seq, ?length_replicate.
    - intros i x y Hlt Hx Hy. rewrite lookup_replicate in Hx.
      rewrite list_lookup_fmap, lookup_seq_lt in Hy by done. cbn in Hy.
      rewrite (prv_high t l ids hs) in Hy by (done || lia). destruct Hx as [-> _]. by injection Hy as <-. }
  assert (Htl : skel t t1 /\ inv tl l ids hs).
  { unfold tl, t1, lev1. destruct (Nat.ltb_spec (level t) lv) as [Hlt|].
    - apply (raise_inv t l ids hs lv Hi). lia.
    - split; [apply skel_refl|]. by destruct t. }
  destruct Htl as [Hsk1 Htl].
  assert (Hlv : (1 <= lv <= level tl)%nat).
  { cbn. unfold lev1. destruct (Nat.ltb_spec (level t) lv); lia. }
  assert (Hbot : (bottom us').1 = cur ids c).
  { rewrite Hus. exact (f_equal fst (proj2 (search_spec tl l ids hs _ c Htl Hcut))). }
  assert (Hnx : next_id t = next_id tl) by (cbn; by rewrite (sk_next _ _ Hsk1)).
  exists (list_ins c (next_id tl) ids), (list_ins c lv hs). cbv zeta. rewrite Hbot, Hus, Hnx.
  exact (insert_at tl l ids hs c lv k v (fun i => draws t (used + i)%nat) Htl Hc Hlv).
Qed.

(** ** Deleting at a position *)

Lemma hgt_rem hs c r :
  (c < length hs)%nat -> hgt (list_rem c hs) r = if decide (r <= c)%nat then hgt hs r else hgt hs (S r).
Proof.
  intros Hc. destruct r as [|r]; cbn [hgt]; [by rewrite decide_True by lia|].
  rewrite list_rem_lookup by done. repeat case_decide; (lia || done).
Qed.

Lemma cur_rem ids c r :
  (c < length ids)%nat -> cur (list_rem c ids) r = if decide (r <= c)%nat then cur ids r else cur ids (S r).
Proof.
  intros Hc. destruct r as [|r]; cbn [cur]; [by rewrite decide_True by lia|].
  rewrite list_rem_lookup by done. repeat case_decide; (lia || done).
Qed.

Lemma idat_rem ids c q :
  (c < length ids)%nat -> (0 < q)%nat ->
  idat (list_rem c ids) q = if decide (q <= c)%nat then idat ids q else idat ids (S q).
Proof.
  intros Hc Hq. unfold idat. rewrite list_rem_lookup by done.
  repeat case_decide; try lia; [done|]. f_equal. lia.
Qed.

(** Positions past [c] move down by one. *)
Definition down (c q : nat) : nat := if decide (q <= c)%nat then q else (q - 1)%nat.

Lemma nxt_rem hs i c p o o2 o' :
  (i < MAX_LEVEL)%nat -> (c < length hs)%nat -> (p <= length hs)%nat -> p <> S c ->
  is_nxt hs i p o -> is_nxt hs i (S c) o2 ->
  is_nxt (list_rem c hs) i (down c p) o' ->
  o' = down c <$> (if decide (o = Some (S c)) then o2 else o).
Proof.
  intros Hi Hc Hp Hpc Ho Ho2 Ho'. eapply nxt_unique; [exact Ho'|]. clear Ho'.
  pose proof (length_list_rem c hs Hc) as Hlen.
  destruct (decide (o = Some (S c))) as [->|Hne].
  - destruct Ho as (A1 & A2 & A3). unfold down. rewrite (decide_True (P := (p <= c)%nat)) by lia.
    unfold is_nxt in *. destruct o2 as [q|]; cbn [fmap option_fmap option_map].
    + destruct Ho2 as (B1 & B2 & B3). rewrite decide_False by lia. split_and!; [lia|lia| |].
      * rewrite hgt_rem by done. repeat case_decide; try lia.
        by replace (S (q - 1)) with q by lia.
      * intros r Hr. rewrite hgt_rem by done. case_decide; [apply A3; lia|apply B3; lia].
    + intros r Hr. rewrite hgt_rem by done. case_decide; [apply A3; lia|apply Ho2; lia].
  - unfold is_nxt in *. destruct o as [q|]; cbn [fmap option_fmap option_map].
    + destruct Ho as (A1 & A2 & A3). assert (q <> S c) by congruence. unfold down.
      repeat case_decide; split_and?; try lia.
      all: try (rewrite hgt_rem by done; repeat case_decide; try lia;
                replace (S (q - 1)) with q by lia; done).
      all: intros r Hr; rewrite hgt_rem by done; case_decide; apply A3; lia.
    + unfold down. intros r Hr. rewrite hgt_rem by done. repeat case_decide; apply Ho; lia.
Qed.

Lemma unsplice_loop t l ids hs c id :
  inv t l ids hs -> ids !! c = Some id ->
  let us := upds ids hs c (level t) in
  let t1 := fold_left (unsplice1 id us) (seq 0 (level t)) t in
  skel t t1 /\
  forall y j, getl t1 y j =
    let lu := getl t (cur ids (prv hs j c)) j in
    let lx := getl t (Nd id) j in
    if decide (j < level t /\ y = cur ids (prv hs j c))%nat then
      if decide (forward lu = Some id) then Lvl (forward lx) (span lu + (span lx - 1))
      else Lvl (forward lu) (span lu - 1)
    else getl t y j.
Proof.
  intros Hi Hid us t1. pose proof (i_level _ _ _ _ Hi) as Hl. pose proof (i_ids _ _ _ _ Hi) as Hids.
  apply lookup_lt_Some in Hid as Hc.
  destruct (fold_levels (unsplice1 id us)
    (fun F i y =>
       let lu := F (cur ids (prv hs i c)) in
       let lx := F (Nd id) in
       if decide (y = cur ids (prv hs i c)) then
         if decide (forward lu = Some id) then Lvl (forward lx) (span lu + (span lx - 1))
         else Lvl (forward lu) (span lu - 1)
       else F y) t 0 (level t)) as [Hsk Hg].
  { intros F G i y HF. cbv zeta. by rewrite !HF. }
  { intros t' i Hlt Hsk. unfold unsplice1, us. rewrite upds_lookup by lia. cbn [default from_option].
    unfold Datatypes.id. cbn [fst]. cbv zeta. split; [case_decide; apply setl_skel|].
    intros y j. destruct (prv_spec hs i c ltac:(lia)) as (P1 & P2 & P3).
    assert (Hb : (i < length (level_array t' (cur ids (prv hs i c))))%nat).
    { rewrite (sk_arr _ _ Hsk), (height_of t l ids hs) by (done || lia). done. }
    destruct (decide (forward (getl t' (cur ids (prv hs i c)) i) = Some id)) as [E|E];
      rewrite getl_setl by done; destruct (decide (j = i)) as [->|];
      destruct (decide (y = cur ids (prv hs i c))) as [->|];
      repeat case_decide; naive_solver. }
  fold t1 in Hsk, Hg. split; [done|]. intros y j. rewrite Hg. cbv zeta.
  destruct (decide (j < level t)%nat).
  - rewrite decide_True by lia. destruct (decide (y = cur ids (prv hs j c))) as [->|].
    + by rewrite (decide_True (P := (_ < _)%nat /\ _)).
    + by rewrite (decide_False (P := (_ < _)%nat /\ _)) by tauto.
  - rewrite decide_False by lia. by rewrite (decide_False (P := (_ < _)%nat /\ _)) by tauto.
Qed.

Lemma unsplice_links t l ids hs c id p i o' :
  inv t l ids hs -> ids !! c = Some id ->
  let us := upds ids hs c (level t) in
  let t1 := fold_left (unsplice1 id us) (seq 0 (level t)) t in
  (p <= length l - 1)%nat -> (i < hgt (list_rem c hs) p)%nat -> (i < level t)%nat ->
  is_nxt (list_rem c hs) i p o' ->
  getl t1 (cur (list_rem c ids) p) i =
    Lvl (o' ≫= idat (list_rem c ids)) (Z.of_nat (default (length l - 1)%nat o') - Z.of_nat p).
Proof.
  intros Hi Hid us t1 Hp Hh Hlt Ho'.
  destruct (unsplice_loop t l ids hs c id Hi Hid) as [_ Hg]. fold us t1 in Hg.
  pose proof (i_level _ _ _ _ Hi) as Hl. pose proof (i_hs _ _ _ _ Hi) as Hhs. pose proof (i_ids _ _ _ _ Hi) as Hids.
  pose proof (i_nodup _ _ _ _ Hi) as Hnd.
  apply lookup_lt_Some in Hid as Hc. destruct (prv_spec hs i c ltac:(lia)) as (P1 & P2 & P3).
  rewrite Hg. cbv zeta. rewrite cur_rem by done. rewrite hgt_rem in Hh by lia.
  set (p0 := if decide (p <= c)%nat then p else S p).
  assert (Hp0 : (p0 <= length l)%nat /\ p0 <> S c /\ p = down c p0).
  { unfold p0, down. repeat case_decide; lia. }
  replace (if decide (p <= c)%nat then cur ids p else cur ids (S p)) with (cur ids p0)
    by (unfold p0; by case_decide).
  replace (if decide (p <= c)%nat then hgt hs p else hgt hs (S p)) with (hgt hs p0) in Hh
    by (unfold p0; by case_decide).
  clearbody p0. destruct Hp0 as (Hp0 & Hpc & ->).
  destruct (nxt_exists hs i p0 ltac:(lia)) as [o Ho].
  destruct (nxt_exists hs i (S c) ltac:(lia)) as [o2 Ho2].
  pose proof (nxt_rem hs i c p0 o o2 o' ltac:(lia) ltac:(lia) ltac:(lia) Hpc Ho Ho2 Ho') as ->.
  pose proof (i_links _ _ _ _ Hi p0 i o Hp0 Hh Hlt Ho) as Hlo.
  assert (Hshift : forall q0, match q0 with Some q => q <> S c /\ (0 < q)%nat | None => True end ->
    (down c <$> q0) ≫= idat (list_rem c ids) = q0 ≫= idat ids).
  { intros [q|] Hq; [|done]. cbn. destruct Hq as [Hq Hq0].
    clear -Hq Hq0 Hc. assert (0 < down c q)%nat by (unfold down; case_decide; lia).
    rewrite idat_rem by done. unfold down. repeat case_decide; try lia; [done|]. f_equal. lia. }
  clear Ho'.
  destruct (decide (p0 = prv hs i c)) as [E|Hne].
  - rewrite E in *. rewrite decide_True by done. rewrite Hlo. cbn [forward span].
    pose proof (nxt_prv hs i c o ltac:(lia) Ho) as Hoc.
    assert (Hdp : down c (prv hs i c) = prv hs i c) by (unfold down; by rewrite decide_True).
    rewrite Hdp. destruct (decide (o = Some (S c))) as [->|Hno].
    + assert (Hidc : idat ids (S c) = Some id) by (rewrite <- Hid; unfold idat; f_equal; lia).
      cbn [mbind option_bind]. rewrite Hidc. rewrite (decide_True (P := Some id = Some id)) by done.
      destruct Ho as (A1 & A2 & A3).
      assert (Hcur : cur ids (S c) = Nd id) by (by apply cur_S). rewrite <- Hcur.
      rewrite (i_links _ _ _ _ Hi (S c) i o2 ltac:(lia) A2 Hlt Ho2). cbn [forward span default]. unfold Datatypes.id.
      rewrite Hshift by (destruct o2; [cbn in Ho2; lia|done]). f_equal.
      destruct o2 as [q|]; cbn [fmap option_fmap option_map default]; unfold Datatypes.id, down; cbn in Ho2;
        [rewrite decide_False by lia|]; lia.
    + assert (Hne : o ≫= idat ids <> Some id).
      { destruct o as [q|]; cbn [mbind option_bind]; [|done]. unfold idat. intros Hq.
        pose proof (NoDup_lookup _ _ _ _ Hnd Hq Hid). cbn in Ho. apply Hno. f_equal. lia. }
      rewrite decide_False by done.
      rewrite Hshift by (destruct o as [q|]; [cbn in Ho; split; [congruence|lia]|done]). f_equal.
      destruct o as [q|]; cbn [fmap option_fmap option_map default]; unfold Datatypes.id, down; cbn in Ho;
        [rewrite decide_False by (assert (q <> S c) by congruence; lia)|]; lia.
  - rewrite decide_False by (intros [_ E]; apply Hne; eapply cur_inj; [exact Hnd|lia..|exact E]).
    rewrite Hlo.
    assert (Hoc : o <> Some (S c)).
    { intros ->. destruct Ho as (A1 & A2 & A3). apply Hne. apply prv_unique; [lia..|done|].
      intros r Hr. apply A3. lia. }
    rewrite decide_False by done.
    rewrite Hshift by (destruct o as [q|]; [cbn in Ho; split; [congruence|lia]|done]). f_equal.
    destruct (decide (p0 <= c)%nat) as [Hle|Hgt].
    + assert (Hlt0 : (p0 < prv hs i c)%nat).
      { destruct (decide (prv hs i c < p0)%nat); [|lia]. specialize (P3 p0 ltac:(lia)). lia. }
      destruct (nxt_before_prv hs i c p0 o ltac:(lia) ltac:(lia) Hlt0 Ho) as (q & -> & Hq).
      cbn [fmap option_fmap option_map default]. unfold Datatypes.id, down. rewrite !decide_True by lia. done.
    + destruct o as [q|]; cbn [fmap option_fmap option_map default]; unfold Datatypes.id, down; cbn in Ho;
        repeat case_decide; lia.
Qed.

Lemma lower_level_spec hd n :
  (1 <= n)%nat ->
  (1 <= lower_level hd n <= n)%nat /\
  forall i, (lower_level hd n <= i < n)%nat -> forward (default no_lvl (hd !! i)) = None.
Proof.
  induction n as [|n IH]; [lia|]. intros _. cbn [lower_level].
  destruct (Nat.ltb_spec 0 n); [|split; [lia|intros; lia]].
  destruct (forward (default no_lvl (hd !! n))) eqn:E; [split; [lia|intros; lia]|].
  destruct IH as [IH1 IH2]; [lia|]. split; [lia|]. intros i Hir.
  destruct (decide (i = n)) as [->|]; [done|]. apply IH2. lia.
Qed.

Lemma delete_at t l ids hs c id :
  inv t l ids hs -> ids !! c = Some id ->
  inv (deleteNode t id (upds ids hs c (level t))) (list_rem c l) (list_rem c ids) (list_rem c hs).
Proof.
  intros Hi Hid. unfold deleteNode. set (us := upds ids hs c (level t)).
  destruct (unsplice_loop t l ids hs c id Hi Hid) as [Hsk Hg].
  pose proof (fun p i o' => unsplice_links t l ids hs c id p i o' Hi Hid) as Hlinks.
  cbv zeta in Hlinks. fold us in Hsk, Hg, Hlinks. set (t1 := fold_left _ _ _) in *.
  pose proof (i_ids _ _ _ _ Hi) as Hids. pose proof (i_hs _ _ _ _ Hi) as Hhs.
  pose proof (i_level _ _ _ _ Hi) as Hl. pose proof (i_nodup _ _ _ _ Hi) as Hnd.
  apply lookup_lt_Some in Hid as Hc.
  destruct (lookup_lt_is_Some_2 l c ltac:(lia)) as [e0 He0].
  destruct (lookup_lt_is_Some_2 hs c ltac:(lia)) as [h0 Hh0].
  destruct (i_nodes _ _ _ _ Hi _ _ _ _ Hid He0 Hh0) as (lv0 & Hn0 & Hlv0).
  destruct (skel_node _ _ _ _ _ _ _ Hsk Hn0) as (lv1 & Hn1 & _). rewrite Hn1. cbn [backward].
  assert (Hf : forward (getl t1 (Nd id) 0) = ids !! S c).
  { rewrite Hg. cbv zeta. rewrite (prv_0 t l ids hs) by (done || lia).
    rewrite <- (cur_S _ _ _ Hid). rewrite decide_False.
    - apply (next_at t l ids hs); [done|lia].
    - intros [_ E]. pose proof (cur_inj ids (S c) c Hnd ltac:(lia) ltac:(lia) E). lia. }
  rewrite Hf.
  set (t2 := match ids !! S c with Some f => _ | None => _ end).
  assert (Ht2 : header t2 = header t1 /\ len t2 = len t1 /\ level t2 = level t1 /\ next_id t2 = next_id t1 /\
                forall y j, getl t2 y j = getl t1 y j).
  { unfold t2. destruct (ids !! S c); split_and!; try done; intros; apply getl_set_backward. }
  destruct Ht2 as (R1 & R2 & R3 & R4 & Hg2).
  assert (Hother : forall id' k' v' b' lv', nodes t !! id' = Some (Node k' v' b' lv') ->
            exists lv'', nodes t2 !! id' =
              Some (Node k' v' (if decide (ids !! S c = Some id') then cursor_ref (cur ids c) else b') lv'') /\
              length lv'' = length lv').
  { intros id' k' v' b' lv' Hn. destruct (skel_node _ _ _ _ _ _ _ Hsk Hn) as (lv'' & H4 & Hle).
    exists lv''. split; [|done]. unfold t2. destruct (ids !! S c) as [f|] eqn:Ef.
    - destruct (decide (f = id')) as [->|Hnf].
      + rewrite decide_True by done. by eapply set_backward_eq.
      + rewrite decide_False by congruence. by rewrite set_backward_ne by done.
    - by rewrite decide_False. }
  destruct (lower_level_spec (header t2) (level t2)) as [L1 L2]; [rewrite R3, (sk_level _ _ Hsk); lia|].
  rewrite R3, (sk_level _ _ Hsk) in *. set (m := lower_level (header t2) (level t)) in *.
  set (tr := SkipList _ _ _ _ _ _ _).
  assert (Hgr : forall y j, getl tr y j = getl t1 y j)
    by (intros [|i] j; [exact (Hg2 Hd j)|exact (Hg2 (Nd i) j)]).
  pose proof (length_list_rem c l ltac:(lia)) as Hll.
  pose proof (length_list_rem c hs ltac:(lia)) as Hlh.
  assert (Htop : forall q h, list_rem c hs !! q = Some h -> (1 <= h <= level t)%nat).
  { intros q h. rewrite list_rem_lookup by lia. case_decide; apply (i_heights _ _ _ _ Hi). }
  split; cbn [tr nodes header tail len level next_id].
  - rewrite Hll, length_list_rem by lia. lia.
  - rewrite Hll, length_list_rem by lia. lia.
  - rewrite Hll, R2, (sk_len _ _ Hsk), (i_len _ _ _ _ Hi). lia.
  - eapply sublist_NoDup; [exact Hnd|]. unfold list_rem. rewrite <- (take_drop c ids) at 3.
    apply sublist_app; [done|]. replace (drop (S c) ids) with (drop 1 (drop c ids)) by (rewrite drop_drop; f_equal; lia).
    apply sublist_drop.
  - intros id' Hin. rewrite R4, (sk_next _ _ Hsk). apply (i_fresh _ _ _ _ Hi).
    unfold list_rem in Hin. apply elem_of_app in Hin as [Hin|Hin];
      (eapply elem_of_sublist; [exact Hin|]); [apply sublist_take|apply sublist_drop].
  - intros q id' e h. rewrite !list_rem_lookup by lia. intros Hq He Hh.
    rewrite cur_rem by lia. destruct (decide (q < c)%nat) as [Hlt|Hge].
    + destruct (i_nodes _ _ _ _ Hi _ _ _ _ Hq He Hh) as (lva & Hn & Hlva).
      destruct (Hother _ _ _ _ _ Hn) as (lvb & Hnb & Hlvb). exists lvb. rewrite Hnb.
      rewrite (decide_True (P := (q <= c)%nat)) by lia. rewrite decide_False; [by split; [|lia]|].
      intros E. pose proof (NoDup_lookup _ _ _ _ Hnd Hq E). lia.
    + destruct (i_nodes _ _ _ _ Hi _ _ _ _ Hq He Hh) as (lva & Hn & Hlva).
      destruct (Hother _ _ _ _ _ Hn) as (lvb & Hnb & Hlvb). exists lvb. rewrite Hnb. split; [|lia].
      destruct (decide (q = c)) as [->|Hqc].
      * rewrite (decide_True (P := (c <= c)%nat)) by lia. by rewrite decide_True.
      * rewrite (decide_False (P := (q <= c)%nat)) by lia. rewrite decide_False; [done|].
        intros E. pose proof (NoDup_lookup _ _ _ _ Hnd Hq E). lia.
  - rewrite R1. pose proof (sk_arr _ _ Hsk Hd) as Ha. cbn in Ha. rewrite (i_hdr _ _ _ _ Hi) in Ha. done.
  - intros q h Hq. specialize (Htop q h Hq). split; [lia|].
    destruct (decide (m < h)%nat) as [Hmh|]; [exfalso|lia].
    destruct (nxt_exists (list_rem c hs) (h - 1) 0 ltac:(lia)) as [o Ho].
    assert (Hh1 : (h - 1 < hgt (list_rem c hs) (S q))%nat) by (cbn; rewrite Hq; cbn; lia).
    pose proof (Hlinks 0%nat (h - 1)%nat o ltac:(lia) ltac:(cbn; lia) ltac:(lia) Ho) as Hlk.
    specialize (L2 (h - 1)%nat ltac:(lia)). change (forward (getl t2 Hd (h - 1)) = None) in L2.
    rewrite Hg2 in L2. cbn [cur] in Hlk. rewrite Hlk in L2. cbn [forward] in L2.
    apply lookup_lt_Some in Hq as Hql.
    destruct o as [q1|]; unfold is_nxt in Ho; cbn in L2.
    + unfold idat in L2. apply lookup_ge_None in L2. rewrite length_list_rem in L2 by lia. lia.
    + specialize (Ho (S q) ltac:(lia)). lia.
  - lia.
  - intros i Hir. rewrite Hgr. destruct (decide (i < level t)%nat).
    + rewrite <- Hg2. apply L2. lia.
    + rewrite Hg. cbv zeta. rewrite decide_False by lia. apply (i_up _ _ _ _ Hi). lia.
  - intros p i o Hp Hh Hlt Ho. rewrite Hgr, Hll. rewrite Hll in Hp. apply Hlinks; [done|done|lia|done].
  - rewrite Hll, cur_rem by lia. unfold t2. destruct (ids !! S c) as [f|] eqn:Ef.
    + apply lookup_lt_Some in Ef. cbn [tail set_backward]. rewrite (sk_tail _ _ Hsk), (i_tail _ _ _ _ Hi).
      rewrite decide_False by lia. by replace (S (length l - 1)) with (length l) by lia.
    + apply lookup_ge_None in Ef. cbn [tail set_tail]. rewrite decide_True by lia.
      by replace (length l - 1)%nat with c by lia.
Qed.

(** A well-formed skip list holding the ascending list [l]. *)
Definition repr (t : skiplist) (l : list (K * V)) : Prop :=
  sorted cmpK cmpV l /\ exists ids hs, inv t l ids hs.

Lemma empty_repr dr : repr (empty_skiplist dr) [].
Proof.
  split; [constructor|]. exists [], []. split; cbn; try done; try (unfold MAX_LEVEL; lia).
  - constructor.
  - by intros id ?%elem_of_nil.
  - intros i Hi. unfold getl. cbn [level_array header empty_skiplist]. rewrite lookup_replicate_2 by lia. done.
  - intros p i o Hp Hh Hi Ho. assert (p = 0%nat) as -> by lia. assert (i = 0%nat) as -> by lia.
    destruct o as [q|]; [cbn in Ho; lia|]. done.
Qed.

Lemma insert_repr t l k v :
  repr t l -> (k, v) ∉ l -> repr (insert t k v) (sorted_insert cmpK cmpV (k, v) l).
Proof.
  intros [Hs (ids & hs & Hi)] Hn. split; [by apply sorted_insert_sorted|]. by apply (insert_inv t l ids hs).
Qed.

Lemma node_is_ent nd k v : node_is nd k v = ent_eqb cmpK cmpV (key nd, val nd) (k, v).
Proof. done. Qed.

Lemma delete_repr t l k v :
  repr t l ->
  repr (delete t k v).1 (sorted_delete cmpK cmpV (k, v) l) /\
  (delete t k v).2 = sorted_mem cmpK cmpV (k, v) l.
Proof.
  intros [Hs (ids & hs & Hi)]. pose proof (sorted_delete_sorted cmpK cmpV (k, v) l Hs) as Hs'.
  rewrite sorted_delete_rem in *. set (c := sorted_pos cmpK cmpV (k, v) l) in *.
  pose proof (cuts_less l k v Hs) as Hcut. fold c in Hcut. pose proof (proj1 Hcut) as Hc.
  destruct (search_spec t l ids hs _ c Hi Hcut) as [H1 H2].
  unfold delete. change (fun nd => nodeLess nd k v) with
    (fun nd : node => ent_less cmpK cmpV (key nd, val nd) (k, v)). rewrite H1, H2. cbn [fst].
  rewrite (next_at t l ids hs) by done. unfold sorted_mem in *. fold c in Hs' |- *.
  pose proof (i_ids _ _ _ _ Hi) as Hids. pose proof (i_hs _ _ _ _ Hi) as Hhs.
  destruct (ids !! c) as [id|] eqn:Hid.
  - apply lookup_lt_Some in Hid as Hlt.
    destruct (lookup_lt_is_Some_2 l c ltac:(lia)) as [e He].
    destruct (lookup_lt_is_Some_2 hs c ltac:(lia)) as [h Hh].
    destruct (i_nodes _ _ _ _ Hi _ _ _ _ Hid He Hh) as (lv & Hn & _). rewrite Hn, He in *.
    rewrite node_is_ent. cbn [key val]. rewrite <- surjective_pairing.
    destruct (ent_eqb cmpK cmpV e (k, v)) eqn:E.
    + split; [|done]. split; [done|]. eexists _, _. by apply (delete_at t l ids hs).
    + split; [|done]. split; [done|]. by eexists _, _.
  - apply lookup_ge_None in Hid. rewrite (proj2 (lookup_ge_None l c)) in * by lia.
    split; [|done]. split; [done|]. by eexists _, _.
Qed.

(** ** Ranges *)

Lemma next_of_spec t l ids hs q id :
  inv t l ids hs -> ids !! q = Some id -> next_of t id = ids !! S q.
Proof.
  intros Hi Hq. unfold next_of. rewrite <- (cur_S _ _ _ Hq). apply lookup_lt_Some in Hq.
  apply (next_at t l ids hs); [done|]. rewrite <- (i_ids _ _ _ _ Hi). lia.
Qed.

Lemma node_at t l ids hs q id :
  inv t l ids hs -> ids !! q = Some id ->
  exists e lv, l !! q = Some e /\ nodes t !! id = Some (Node e.1 e.2 (cursor_ref (cur ids q)) lv).
Proof.
  intros Hi Hq. apply lookup_lt_Some in Hq as Hlt.
  pose proof (i_ids _ _ _ _ Hi) as Hids. pose proof (i_hs _ _ _ _ Hi) as Hhs.
  destruct (lookup_lt_is_Some_2 l q ltac:(lia)) as [e He].
  destruct (lookup_lt_is_Some_2 hs q ltac:(lia)) as [h Hh].
  destruct (i_nodes _ _ _ _ Hi _ _ _ _ Hq He Hh) as (lv & Hn & _). eauto.
Qed.

(** Following the pointers collects the list they traverse. *)
Lemma collect_spec t l ids hs step stop (path : nat -> option nat -> list (K * V) -> Prop) fuel x m off cnt :
  inv t l ids hs ->
  (forall n x m, path n x m -> match x with
     | None => m = []
     | Some id => exists q e m', ids !! q = Some id /\ l !! q = Some e /\ m = e :: m' /\ 
                  exists n', n = S n' /\ path n' (step id) m'
     end) ->
  path fuel x m ->
  collect (S fuel) t step stop x off cnt = range_loop stop m off cnt.
Proof.
  intros Hi Hpath. revert x m off cnt. induction fuel as [|fuel IH]; intros x m off cnt Hp.
  - specialize (Hpath _ _ _ Hp). destruct x as [id|]; [|by subst].
    destruct Hpath as (q & e & m' & _ & _ & _ & n' & [=] & _).
  - pose proof (Hpath _ _ _ Hp) as Hx. remember (S fuel) as fuel' eqn:Ef. cbn [collect].
    destruct x as [id|]; [|by subst]. subst fuel'. destruct Hx as (q & e & m' & Hq & He & -> & n' & [= <-] & Hp').
    destruct (node_at t l ids hs q id Hi Hq) as (e' & lv & He' & Hn). rewrite Hn. cbn [key val].
    assert (e' = e) as -> by congruence. cbn [range_loop]. rewrite <- surjective_pairing.
    destruct (stop e.1); [done|]. destruct (0 <? off); [by apply IH|].
    destruct cnt as [c'|]; [|f_equal; by apply IH]. destruct (0 <? c'); [|done]. f_equal. by apply IH.
Qed.

Lemma collect_fwd t l ids hs stop q off cnt :
  inv t l ids hs ->
  collect (S (Z.to_nat (len t))) t (next_of t) stop (ids !! q) off cnt = range_loop stop (drop q l) off cnt.
Proof.
  intros Hi. rewrite (i_len _ _ _ _ Hi), Nat2Z.id.
  apply (collect_spec t l ids hs (next_of t) stop
    (fun n x m => exists q, x = ids !! q /\ m = drop q l /\ (length l <= n + q)%nat)); [done|..].
  - intros n x m (q1 & -> & -> & Hn). destruct (ids !! q1) as [id|] eqn:Hq.
    + destruct (node_at t l ids hs q1 id Hi Hq) as (e & lv & He & _).
      exists q1, e, (drop (S q1) l). split_and!; [done|done|by apply drop_S|].
      apply lookup_lt_Some in He. destruct n as [|n]; [lia|]. exists n. split; [done|].
      exists (S q1). split_and!; [by apply (next_of_spec t l ids hs)|done|lia].
    + apply lookup_ge_None in Hq. rewrite (i_ids _ _ _ _ Hi) in Hq. by apply drop_ge.
  - exists q. split_and!; [done|done|lia].
Qed.

Lemma collect_rev t l ids hs stop c off cnt :
  inv t l ids hs -> (c <= length l)%nat ->
  collect (S (Z.to_nat (len t))) t (back_of t) stop (cursor_ref (cur ids c)) off cnt =
  range_loop stop (rev (take c l)) off cnt.
Proof.
  intros Hi Hc. rewrite (i_len _ _ _ _ Hi), Nat2Z.id. pose proof (i_ids _ _ _ _ Hi) as Hids.
  apply (collect_spec t l ids hs (back_of t) stop
    (fun n x m => exists c, x = cursor_ref (cur ids c) /\ m = rev (take c l) /\ (c <= n)%nat /\
                            (c <= length l)%nat)); [done|..].
  - intros n x m (c1 & -> & -> & Hn & Hcl). destruct c1 as [|c1]; [done|]. cbn [cur].
    destruct (lookup_lt_is_Some_2 ids c1 ltac:(lia)) as [id Hq]. rewrite Hq. cbn [cursor_ref].
    destruct (node_at t l ids hs c1 id Hi Hq) as (e & lv & He & Hnd).
    exists c1, e, (rev (take c1 l)). split_and!; [done|done| |].
    + rewrite (take_S_r l c1 e He), rev_app_distr. done.
    + destruct n as [|n]; [lia|]. exists n. split; [done|]. exists c1.
      split_and!; [unfold back_of; by rewrite Hnd|done|lia|lia].
  - exists c. split_and!; (done || lia).
Qed.

Lemma while_cut (p : K * V -> bool) l :
  StronglySorted (ent_lt cmpK cmpV) l ->
  (forall a b, ent_lt cmpK cmpV a b -> p b = true -> p a = true) ->
  let c := length (take_while p l) in
  cuts (fun k v => p (k, v)) l c /\ take_while p l = take c l /\ drop_while p l = drop c l.
Proof.
  intros Hs Hp. cbv zeta. induction Hs as [|e l Hs IH Hf]; cbn.
  { split; [split; [done|by intros q e]|done]. }
  destruct (p e) eqn:E; cbn.
  - destruct IH as ([IH1 IH2] & IH3 & IH4). split_and!; [split; [cbn; lia|]| |done].
    + intros [|q] e'; cbn; [intros [= <-]; by rewrite <- surjective_pairing|apply IH2].
    + f_equal. exact IH3.
  - split_and!; [split; [lia|]|done|done]. intros q e' Hq. replace (q <? 0)%nat with false by done.
    rewrite <- surjective_pairing. destruct q as [|q]; cbn in Hq; [by injection Hq as <-|].
    destruct (p e') eqn:E'; [|done]. rewrite Forall_forall in Hf.
    rewrite (Hp e e') in E; [done| |done]. apply Hf. by eapply list_elem_of_lookup_2.
Qed.

(** The node [lowerBound] returns, and the position before it. *)
Lemma lowerBound_cut t l ids hs b strict :
  inv t l ids hs -> sorted cmpK cmpV l ->
  let c := length (take_while (below cmpK strict b) l) in
  lowerBound t b strict = ids !! c /\ (c <= length l)%nat /\
  take_while (below cmpK strict b) l = take c l /\ drop_while (below cmpK strict b) l = drop c l.
Proof.
  intros Hi Hs. cbv zeta.
  destruct (while_cut (below cmpK strict b) l Hs) as (H1 & H2 & H3).
  { intros e1 e2. apply (below_mono cmpK cmpV). }
  split_and!; [|apply H1|done|done]. apply (lowerBound_spec t l ids hs); [done|].
  destruct H1 as [H1 H1']. split; [done|]. intros q e Hq. rewrite <- (H1' q e Hq). done.
Qed.

Lemma before_or_tail_spec t l ids hs c :
  inv t l ids hs -> (c <= length l)%nat ->
  before_or_tail t (ids !! c) = cursor_ref (cur ids c).
Proof.
  intros Hi Hc. pose proof (i_ids _ _ _ _ Hi) as Hids. destruct (ids !! c) as [id|] eqn:Hq; cbn.
  - destruct (node_at t l ids hs c id Hi Hq) as (e & lv & _ & Hn). unfold back_of. by rewrite Hn.
  - apply lookup_ge_None in Hq. rewrite (i_tail _ _ _ _ Hi). by replace (length l) with c by lia.
Qed.

Lemma range_repr t l o : repr t l -> range t o = range_list cmpK o l.
Proof.
  intros [Hs (ids & hs & Hi)]. unfold range, range_list, rev_start, fwd_start.
  pose proof (fun b strict => lowerBound_cut t l ids hs b strict Hi Hs) as Hlb. cbv zeta in Hlb.
  destruct (reverse o).
  - assert (Hrev : forall b strict,
      collect (S (Z.to_nat (len t))) t (back_of t) (stop_rev cmpK o)
        (before_or_tail t (lowerBound t b strict)) (offset o) (count o) =
      range_loop (stop_rev cmpK o) (rev (take_while (below cmpK strict b) l)) (offset o) (count o)).
    { intros b strict. destruct (Hlb b strict) as (-> & Hc & H2 & _).
      rewrite (before_or_tail_spec t l ids hs) by done. rewrite H2 at 2. by apply (collect_rev t l ids hs). }
    destruct (lte o) as [b|]; [apply Hrev|]. destruct (lt o) as [b|]; [apply Hrev|].
    rewrite (i_tail _ _ _ _ Hi), (collect_rev t l ids hs) by (done || lia). by rewrite take_ge by lia.
  - assert (Hfwd : forall b strict,
      collect (S (Z.to_nat (len t))) t (next_of t) (stop_fwd cmpK o) (lowerBound t b strict)
        (offset o) (count o) =
      range_loop (stop_fwd cmpK o) (drop_while (below cmpK strict b) l) (offset o) (count o)).
    { intros b strict. destruct (Hlb b strict) as (-> & Hc & _ & H2). rewrite H2.
      by apply (collect_fwd t l ids hs). }
    destruct (gte o) as [b|], (gt o) as [b'|]; try apply Hfwd.
    change Hd with (cur ids 0). rewrite (next_at t l ids hs) by (done || lia).
    rewrite (collect_fwd t l ids hs) by done. done.
Qed.

(** ** Ranks *)

Lemma cuts_le l k v :
  sorted cmpK cmpV l ->
  let pos := sorted_pos cmpK cmpV (k, v) l in
  cuts (fun k' v' => ent_less cmpK cmpV (k', v') (k, v) || ent_eqb cmpK cmpV (k', v') (k, v)) l
    (if sorted_mem cmpK cmpV (k, v) l then S pos else pos).
Proof.
  intros Hs pos. destruct (cuts_less l k v Hs) as [Hc Hcut]. fold pos in Hc, Hcut.
  unfold sorted_mem. fold pos. pose proof (sorted_NoDup cmpK cmpV l Hs) as Hnd. split.
  - destruct (l !! pos) as [e|] eqn:E; [|done]. apply lookup_lt_Some in E. case_match; lia.
  - intros q e Hq. rewrite (Hcut q e Hq), <- surjective_pairing.
    destruct (ent_eqb cmpK cmpV e (k, v)) eqn:E.
    + apply (ent_eqb_eq cmpK cmpV) in E as ->. rewrite orb_true_r.
      specialize (Hcut q _ Hq). cbn [fst snd] in Hcut.
      assert (Hnl : (q <? pos)%nat = false).
      { rewrite <- Hcut. destruct (ent_less cmpK cmpV (k, v) (k, v)) eqn:El; [|done].
        by destruct (ent_lt_irrefl cmpK cmpV (k, v)). }
      apply Nat.ltb_ge in Hnl.
      assert (q = pos) as ->.
      { destruct (decide (pos < q)%nat) as [Hlt|]; [|lia].
        destruct (lookup_lt_is_Some_2 l pos) as [e0 He0]; [apply lookup_lt_Some in Hq; lia|].
        pose proof (SS_lookup _ _ _ _ _ _ Hs He0 Hq Hlt) as Hlt0.
        destruct (cuts_less l k v Hs) as [_ Hcut2]. specialize (Hcut2 pos e0 He0). fold pos in Hcut2.
        rewrite <- surjective_pairing, Nat.ltb_irrefl in Hcut2. unfold ent_lt in Hlt0. congruence. }
      rewrite Hq. rewrite (proj2 (ent_eqb_eq cmpK cmpV (k, v) (k, v))) by done.
      symmetry. apply Nat.ltb_lt. lia.
    + rewrite orb_false_r. destruct (l !! pos) as [e0|] eqn:E0; [|done].
      destruct (ent_eqb cmpK cmpV e0 (k, v)) eqn:E1; [|done].
      destruct (decide (q = pos)) as [->|]; [congruence|].
      destruct (Nat.ltb_spec q pos), (Nat.ltb_spec q (S pos)); (done || lia).
Qed.

(** [getRank] is the entry's index in the ordered list. *)
Lemma getRank_repr t l k v :
  repr t l ->
  getRank t k v =
  if sorted_mem cmpK cmpV (k, v) l then Some (Z.of_nat (sorted_pos cmpK cmpV (k, v) l)) else None.
Proof.
  intros [Hs (ids & hs & Hi)]. pose proof (cuts_le l k v Hs) as Hcut. cbv zeta in Hcut.
  set (pos := sorted_pos cmpK cmpV (k, v) l) in *.
  destruct (search_spec t l ids hs _ _ Hi Hcut) as [H1 H2]. unfold getRank.
  change (fun nd => nodeLess nd k v || node_is nd k v) with
    (fun nd : node => ent_less cmpK cmpV (key nd, val nd) (k, v) || ent_eqb cmpK cmpV (key nd, val nd) (k, v)).
  rewrite H1, H2. unfold sorted_mem in *. fold pos in Hcut, H1, H2 |- *.
  destruct (cuts_less l k v Hs) as [_ Hless]. fold pos in Hless.
  pose proof (i_ids _ _ _ _ Hi) as Hids.
  assert (Hno : forall q e, l !! q = Some e -> (q < pos)%nat -> ent_eqb cmpK cmpV e (k, v) = false).
  { intros q e Hq Hlt. destruct (ent_eqb cmpK cmpV e (k, v)) eqn:E; [|done].
    apply (ent_eqb_eq cmpK cmpV) in E as ->. specialize (Hless q _ Hq). cbn [fst snd] in Hless.
    rewrite (proj2 (Nat.ltb_lt q pos) Hlt) in Hless. by destruct (ent_lt_irrefl cmpK cmpV (k, v)). }
  assert (Hnone : (pos <= length l)%nat -> (match cur ids pos with
    | Hd => None
    | Nd id => match nodes t !! id with
               | Some nd => if node_is nd k v then Some (Z.of_nat pos - 1) else None
               | None => None
               end end) = None).
  { intros Hle. destruct pos as [|p0]; [done|]. cbn [cur].
    destruct (lookup_lt_is_Some_2 ids p0 ltac:(lia)) as [id Hid]. rewrite Hid.
    destruct (node_at t l ids hs p0 id Hi Hid) as (e' & lv & He' & Hn). rewrite Hn.
    rewrite node_is_ent. cbn [key val]. rewrite <- surjective_pairing, (Hno p0 e') by (done || lia). done. }
  pose proof (sorted_pos_le (k, v) l) as Hle. fold pos in Hle.
  destruct (l !! pos) as [e|] eqn:He; [|by apply Hnone].
  destruct (ent_eqb cmpK cmpV e (k, v)) eqn:E; [|by apply Hnone].
  cbn [cur]. apply lookup_lt_Some in He as Hlt.
  destruct (lookup_lt_is_Some_2 ids pos ltac:(lia)) as [id Hid]. rewrite Hid.
  destruct (node_at t l ids hs pos id Hi Hid) as (e' & lv & He' & Hn). rewrite Hn.
  rewrite node_is_ent. cbn [key val]. rewrite <- surjective_pairing.
  replace e' with e by congruence. rewrite E. f_equal. lia.
Qed.

Lemma walk_rank_spec t l ids hs c i fuel a :
  inv t l ids hs -> (c <= length l)%nat -> (i < level t)%nat -> (a <= c)%nat -> (i < hgt hs a)%nat ->
  (c - a < fuel)%nat ->
  walk_rank fuel t (Z.of_nat c) i (cur ids a) (Z.of_nat a) =
  (cur ids (prv hs i c), Z.of_nat (prv hs i c)).
Proof.
  intros Hi Hc Hlv. pose proof (i_level _ _ _ _ Hi). pose proof (i_ids _ _ _ _ Hi) as Hids.
  pose proof (i_hs _ _ _ _ Hi) as Hhs.
  revert a. induction fuel as [|fuel IH]; intros a Ha Hh Hf; [lia|]. cbn [walk_rank].
  destruct (nxt_exists hs i a ltac:(lia)) as [o Ho].
  rewrite (i_links _ _ _ _ Hi a i o) by (done || lia). cbn [forward span].
  assert (Hstop : match o with Some q => (c < q)%nat | None => True end -> a = prv hs i c).
  { intros Hq. apply prv_unique; [lia..|]. intros r Hr. destruct o as [q|]; cbn in Ho; apply Ho; lia. }
  destruct o as [q|]; cbn [mbind option_bind default]; unfold Datatypes.id.
  - destruct Ho as (Hq & Hhq & Hno).
    destruct (lookup_lt_is_Some_2 ids (q - 1) ltac:(lia)) as [f Hfid]. unfold idat. rewrite Hfid.
    replace (Z.of_nat a + (Z.of_nat q - Z.of_nat a)) with (Z.of_nat q) by lia.
    destruct (Z.leb_spec (Z.of_nat q) (Z.of_nat c)).
    + assert (Hcur : Nd f = cur ids q).
      { destruct q as [|q']; [lia|]. replace (S q' - 1)%nat with q' in Hfid by lia. by rewrite (cur_S _ _ _ Hfid). }
      rewrite Hcur. apply IH; [lia|done|lia].
    + rewrite <- Hstop by lia. done.
  - rewrite <- Hstop by done. done.
Qed.

(** [getByRank] is list indexing. *)
Lemma getByRank_repr t l r :
  repr t l -> getByRank t r = if r <? 0 then None else l !! Z.to_nat r.
Proof.
  intros [Hs (ids & hs & Hi)]. unfold getByRank. pose proof (i_len _ _ _ _ Hi) as Hlen.
  destruct (Z.ltb_spec r 0); cbn [orb]; [done|].
  destruct (Z.leb_spec (len t) r).
  { symmetry. apply lookup_ge_None. lia. }
  set (c := S (Z.to_nat r)). replace (r + 1) with (Z.of_nat c) by lia.
  pose proof (i_level _ _ _ _ Hi) as Hl. pose proof (i_ids _ _ _ _ Hi) as Hids.
  assert (Hres : (fun nd => (key nd, val nd)) <$> match cur ids c with Nd id => nodes t !! id | Hd => None end =
                 l !! Z.to_nat r).
  { unfold c. cbn [cur]. destruct (lookup_lt_is_Some_2 ids (Z.to_nat r) ltac:(lia)) as [id Hid]. rewrite Hid.
    destruct (node_at t l ids hs _ id Hi Hid) as (e & lv & -> & ->). cbn. by destruct e. }
  enough (forall n a, (1 <= n <= level t)%nat -> (a <= c)%nat -> (n <= hgt hs a)%nat ->
    seek_rank t (Z.of_nat c) n (cur ids a) (Z.of_nat a) = l !! Z.to_nat r) as H1.
  { apply (H1 (level t) 0%nat); [lia|lia|cbn; lia]. }
  induction n as [|i IH]; intros a Hn Ha Hh; [lia|]. cbn [seek_rank].
  rewrite (walk_rank_spec t l ids hs) by (done || unfold walk_fuel; lia).
  destruct (prv_spec hs i c ltac:(lia)) as (P1 & P2 & P3).
  destruct (Z.eqb_spec (Z.of_nat (prv hs i c)) (Z.of_nat c)) as [E|E].
  - replace (prv hs i c) with c by lia. rewrite <- Hres. by destruct (cur ids c).
  - destruct i as [|i]; [|apply IH; lia].
    destruct E. by rewrite (prv_0 t l ids hs) by (done || lia).
Qed.

(** [toArray] lists the entries in order. *)
Lemma toArray_repr t l : repr t l -> toArray t = l.
Proof.
  intros [Hs (ids & hs & Hi)]. unfold toArray. change Hd with (cur ids 0).
  rewrite (next_at t l ids hs), (collect_fwd t l ids hs) by (done || lia). rewrite drop_0.
  clear. induction l as [|e l IH]; cbn; [done|]. by rewrite IH.
Qed.
End skiplist.

(** * The instance of the ordered-index interface *)

#[export] Instance skiplist_index {K V} (cmpK : K -> K -> Z) (cmpV : V -> V -> Z) (draws : nat -> bool) :
    OrderedIndex K V skiplist := {|
  oi_empty := empty_skiplist draws;
  oi_insert := insert cmpK cmpV;
  oi_delete := delete cmpK cmpV;
  oi_range := range cmpK;
|}.

#[export] Instance skiplist_index_laws {K V} (cmpK : K -> K -> Z) (cmpV : V -> V -> Z) (draws : nat -> bool)
    `{!Comparator cmpK, !Comparator cmpV} :
  OrderedIndexLaws cmpK cmpV (H := skiplist_index cmpK cmpV draws).
Proof.
  refine {| oi_repr := repr cmpK cmpV |}.
  - by intros t l [? _].
  - apply empty_repr.
  - intros t l k v. by apply insert_repr.
  - intros t l k v. by apply delete_repr.
  - intros t l o. by apply range_repr.
Defined.

(** * Theorems *)

Section theorems.
Context {K V : Type} (cmpK : K -> K -> Z) (cmpV : V -> V -> Z).
Context `{!Comparator cmpK, !Comparator cmpV}.

(** The lists reached from the empty skip list by insertions of absent entries and
    by deletions, with the reference list they stand for. *)
Inductive built : skiplist -> list (K * V) -> Prop :=
| built_empty draws : built (empty_skiplist draws) []
| built_insert t l k v :
    built t l -> (k, v) ∉ l -> built (insert cmpK cmpV t k v) (sorted_insert cmpK cmpV (k, v) l)
| built_delete t l k v :
    built t l -> built (delete cmpK cmpV t k v).1 (sorted_delete cmpK cmpV (k, v) l).

Lemma built_repr t l : built t l -> repr cmpK cmpV t l.
Proof.
  induction 1.
  - apply empty_repr.
  - by apply insert_repr.
  - by apply delete_repr.
Qed.

(** C35. However the random levels fall, a skip list built by insertions and
    deletions behaves as the ascending list of its entries: the spans, backward
    pointers and level pointers always agree with it, so [toArray], [range],
    [getRank], [getByRank] and the result of [delete] are the list's own. *)
Theorem skiplist_refines_list t l :
  built t l ->
  sorted cmpK cmpV l /\ toArray t = l /\ len t = Z.of_nat (length l) /\
  (forall o, range cmpK t o = range_list cmpK o l) /\
  (forall k v, (delete cmpK cmpV t k v).2 = sorted_mem cmpK cmpV (k, v) l) /\
  (forall k v, getRank cmpK cmpV t k v =
     if sorted_mem cmpK cmpV (k, v) l then Some (Z.of_nat (sorted_pos cmpK cmpV (k, v) l)) else None) /\
  (forall r, getByRank t r = if r <? 0 then None else l !! Z.to_nat r).
Proof.
  intros Hr%built_repr. split_and!.
  - apply Hr.
  - by apply (toArray_repr cmpK cmpV).
  - destruct Hr as [_ (ids & hs & Hi)]. apply (i_len _ _ _ _ Hi).
  - intros o. by apply (range_repr cmpK cmpV).
  - intros k v. by apply delete_repr.
  - intros k v. by apply getRank_repr.
  - intros r. by apply (getByRank_repr cmpK cmpV).
Qed.

Lemma sorted_pos_lookup l r e :
  sorted cmpK cmpV l -> l !! r = Some e -> sorted_pos cmpK cmpV e l = r.
Proof.
  intros Hs Hr. destruct e as [k v]. destruct (cuts_less cmpK cmpV l k v Hs) as [Hc Hcut].
  assert (Hmem : sorted_mem cmpK cmpV (k, v) l = true).
  { apply sorted_mem_spec; [done..|]. by eapply list_elem_of_lookup_2. }
  unfold sorted_mem in Hmem. destruct (l !! sorted_pos cmpK cmpV (k, v) l) as [e|] eqn:E; [|done].
  apply (ent_eqb_eq cmpK cmpV) in Hmem as ->. apply (NoDup_lookup l _ _ (k, v)); [|done..].
  by apply (sorted_NoDup cmpK cmpV).
Qed.

(** [getRank] and [getByRank] are inverse to each other. *)
Theorem rank_roundtrip t l k v r :
  built t l -> getRank cmpK cmpV t k v = Some r <-> getByRank t r = Some (k, v).
Proof.
  intros Hr%built_repr. rewrite (getRank_repr cmpK cmpV t l), (getByRank_repr cmpK cmpV t l) by done.
  destruct Hr as [Hs _]. destruct (sorted_mem cmpK cmpV (k, v) l) eqn:E.
  - apply sorted_mem_spec in E; [|done..]. apply list_elem_of_lookup in E as [i Hi].
    rewrite (sorted_pos_lookup l i) by done. split.
    + intros [= <-]. destruct (Z.ltb_spec (Z.of_nat i) 0); [lia|]. by rewrite Nat2Z.id.
    + destruct (Z.ltb_spec r 0); [done|]. intros Hr.
      pose proof (NoDup_lookup l _ _ _ (sorted_NoDup cmpK cmpV l Hs) Hi Hr). f_equal. lia.
  - split; [done|]. destruct (r <? 0); [done|]. intros Hr.
    apply list_elem_of_lookup_2 in Hr. apply (sorted_mem_spec cmpK cmpV) in Hr; [congruence|done..].
Qed.
End theorems.

(** * A concrete list *)

Definition sample_draws (n : nat) : bool := (n mod 3 =? 1)%nat.
Definition sample_list : skiplist :=
  insert cmpNumber cmpNumber
    (insert cmpNumber cmpNumber
      (insert cmpNumber cmpNumber (empty_skiplist sample_draws) 5 50) 3 30) 9 90.

Lemma sample_built : built cmpNumber cmpNumber sample_list [(3, 30); (5, 50); (9, 90)].
Proof.
  change [(3, 30); (5, 50); (9, 90)] with
    (sorted_insert cmpNumber cmpNumber (9, 90)
      (sorted_insert cmpNumber cmpNumber (3, 30) (sorted_insert cmpNumber cmpNumber (5, 50) []))).
  apply built_insert; [apply built_insert; [apply built_insert; [apply built_empty|]|]|];
    apply (bool_decide_unpack _); vm_compute; exact I.
Qed.

Lemma skiplist_refines_list_witness :
  level sample_list = 2%nat /\ toArray sample_list = [(3, 30); (5, 50); (9, 90)] /\
  (delete cmpNumber cmpNumber sample_list 5 50).2 = true /\
  getRank cmpNumber cmpNumber sample_list 9 90 = Some 2.
Proof.
  destruct (skiplist_refines_list cmpNumber cmpNumber sample_list _ sample_built)
    as (_ & H1 & _ & _ & H2 & H3 & _).
  split; [vm_compute; reflexivity|]. split; [exact H1|]. split; [rewrite H2; reflexivity|].
  rewrite H3. reflexivity.
Defined.

Lemma rank_roundtrip_witness :
  getRank cmpNumber cmpNumber sample_list 5 50 = Some 1 /\ getByRank sample_list 1 = Some (5, 50).
Proof.
  assert (H : getRank cmpNumber cmpNumber sample_list 5 50 = Some 1) by (vm_compute; reflexivity).
  split; [exact H|].
  exact (proj1 (rank_roundtrip cmpNumber cmpNumber sample_list _ 5 50 1 sample_built) H).
Defined.

(** Giving both [gte] and [gt] makes the inclusive bound strict: the entry with key 3
    is within [gte: 3, gt: 1] and is not returned. *)
Example range_gte_with_gt_drops_bound :
  range cmpNumber sample_list (RangeOpts (Some 3) (Some 1) None None 0 None false) = [(5, 50); (9, 90)] /\
  range_spec cmpNumber (RangeOpts (Some 3) (Some 1) None None 0 None false)
    [(3, 30); (5, 50); (9, 90)] = [(3, 30); (5, 50); (9, 90)].
Proof. split; vm_compute; reflexivity. Qed.
