(* ===== verification/Store.v ===== *)
(** The in-memory primary index ([packages/minidb/src/store.ts]): records with a
    time to live, an ordered key index, a heap of expiry times and the byte and TTL
    counters. Time is an argument; calls of the owner's [onExpire] callback are
    returned as a list of events. The ordered index is any implementation of the
    interface of Ordered.v. *)

From S2P Require Import Prelude JsMap Ordered MinHeap.

(** * Records *)

Inductive value_file := Snapshot | Wal.

Record value_loc := ValueLoc {
  vl_file : value_file;
  vl_off : Z;
  vl_len : Z;
}.

Inductive value_ref :=
| Memory (value : buffer)
| Disk (loc : value_loc).

(** [Record<string, number>], in property order; epoch milliseconds. *)
Abbreviation dt_map := (list (jsstr * Z)).

Record store_record := StoreRecord {
  ref : value_ref;
  expireAt : Z;
  rseq : Z;
  dt : option dt_map;
}.

Record store_entry := StoreEntry {
  e_key : buffer;
  e_value : buffer;
  e_expireAt : Z;
  e_dt : option dt_map;
}.

Inductive store_error := NoValueReader | ValueReadFailed.

(** The owner's [onExpire(key, record)] calls. *)
Abbreviation event := (jsstr * store_record)%type.

Definition fromKStr (k : jsstr) : buffer := (fun u => z2b (Z.of_N u)) <$> k.

(** * Sizes *)

Definition DISK_REF_BYTES : Z := 64.

(** Length of [String(n)] for an integer. *)
Fixpoint digits (fuel : nat) (n : Z) : Z :=
  match fuel with
  | O => 1
  | S fuel' => if n <? 10 then 1 else 1 + digits fuel' (n / 10)
  end.
Definition number_len (n : Z) : Z :=
  (if n <? 0 then 1 else 0) + digits (S (Z.to_nat (Z.log2 (Z.abs n)))) (Z.abs n).

(** UTF-8 length of a string inside JSON quotes: [quote] and backslash and the
    short escapes take two bytes, other controls and lone surrogates six. *)
Fixpoint json_chars_len (s : jsstr) : Z :=
  match s with
  | [] => 0
  | u :: s' =>
      if (55296 <=? u)%N && (u <=? 56319)%N then
        match s' with
        | v :: s'' =>
            if (56320 <=? v)%N && (v <=? 57343)%N then 4 + json_chars_len s''
            else 6 + json_chars_len s'
        | [] => 6
        end
      else
        (if (u =? 34)%N || (u =? 92)%N then 2
         else if existsb (N.eqb u) [8; 9; 10; 12; 13]%N then 2
         else if (u <? 32)%N then 6
         else if (u <? 128)%N then 1
         else if (u <? 2048)%N then 2
         else if (56320 <=? u)%N && (u <=? 57343)%N then 6
         else 3) + json_chars_len s'
  end.

(** [Buffer.byteLength(JSON.stringify({ dt }), 'utf8')]. *)
Definition json_dt_len (d : dt_map) : Z :=
  9 + foldr (fun '(k, n) acc => json_chars_len k + 3 + number_len n + acc) 0 d
    + (Z.of_nat (length d) - 1) `max` 0.

Definition metaBytes (d : option dt_map) : Z :=
  match d with Some d => json_dt_len d | None => 0 end.

Definition refBytes (r : value_ref) : Z :=
  match r with Memory b => blen b | Disk _ => DISK_REF_BYTES end.

(** The bytes one record accounts for. *)
Definition record_bytes (k : jsstr) (r : store_record) : Z :=
  Z.of_nat (length k) + refBytes (ref r) + metaBytes (dt r).

(** Number truthiness. *)
Definition truthy (t : Z) : bool := negb (t =? 0).

(** [r.expireAt && r.expireAt <= now]. *)
Definition expired (r : store_record) (now : Z) : bool := truthy (expireAt r) && (expireAt r <=? now).

Section store.
Context {T : Type} `{!OrderedIndex jsstr jsstr T} `{!OrderedIndexLaws cmpString cmpString}.
(** The caller's reader of disk-backed values. *)
Context (readValue : option (value_loc -> option buffer)).
Context (maxPerTick expireTimeBudgetMs : Z).

Record store := Store {
  map : list (jsstr * store_record);
  order : T;
  heap : list heap_entry;
  seq : Z;
  bytes : Z;
  expiring : Z;
  expireAggressive : bool;
}.

Definition empty_store : store := Store [] oi_empty [] 0 0 0 false.

Definition size (s : store) (now : Z) : Z :=
  if expiring s =? 0 then Z.of_nat (length (map s))
  else foldr (fun '(_, r) n => (if negb (truthy (expireAt r)) || (now <? expireAt r) then 1 else 0) + n)
         0 (map s).

Definition materialize (r : value_ref) : result store_error buffer :=
  match r with
  | Memory b => Ok b
  | Disk loc =>
      match readValue with
      | None => Err NoValueReader
      | Some rd => match rd loc with Some b => Ok b | None => Err ValueReadFailed end
      end
  end.

Definition recordBytes (s : store) (k : jsstr) : Z :=
  match jget (map s) k with Some r => record_bytes k r | None => 0 end.

Definition estimateSetBytes (k : jsstr) (value : buffer) (d : option dt_map) (countValue : bool) : Z :=
  Z.of_nat (length k) + (if countValue then blen value else DISK_REF_BYTES) + metaBytes d.

Definition remove (s : store) (k : jsstr) : bool * store :=
  match jget (map s) k with
  | None => (false, s)
  | Some r =>
      (true, Store (jdel (map s) k) (oi_delete (order s) k k).1 (heap s) (seq s)
               (bytes s - record_bytes k r)
               (if truthy (expireAt r) then expiring s - 1 else expiring s)
               (expireAggressive s))
  end.

Definition expireKey (s : store) (k : jsstr) (r : store_record) : store * list event :=
  let (ok, s') := remove s k in (s', if ok then [(k, r)] else []).

Definition rebuildHeap (m : list (jsstr * store_record)) : list heap_entry :=
  fold_left (fun h '(k, r) =>
    if truthy (expireAt r) then push h (HeapEntry (expireAt r) k (rseq r)) else h) m [].

Definition setRef (s : store) (k : jsstr) (rf : value_ref) (exp : Z) (d : option dt_map) : store :=
  let prev := jget (map s) k in
  let expiring1 := match prev with
                   | Some p => if truthy (expireAt p) then expiring s - 1 else expiring s
                   | None => expiring s
                   end in
  let bytes1 := match prev with Some _ => bytes s - recordBytes s k | None => bytes s end in
  let seq1 := seq s + 1 in
  let r := StoreRecord rf exp seq1 d in
  let map1 := jset (map s) k r in
  let bytes2 := bytes1 + record_bytes k r in
  let order1 := match prev with Some _ => order s | None => oi_insert (order s) k k end in
  if truthy exp then
    let heap1 := push (heap s) (HeapEntry exp k seq1) in
    let heap2 := if (length map1 * 2 + 64 <? length heap1)%nat then rebuildHeap map1 else heap1 in
    Store map1 order1 heap2 seq1 bytes2 (expiring1 + 1) (expireAggressive s)
  else
    Store map1 order1 (heap s) seq1 bytes2 expiring1 (expireAggressive s).

Definition set (s : store) (k : jsstr) (value : buffer) (exp : Z) (d : option dt_map) : store :=
  setRef s k (Memory value) exp d.

Definition getRecord (s : store) (now : Z) (k : jsstr) : option store_record * store * list event :=
  match jget (map s) k with
  | None => (None, s, [])
  | Some r => if expired r now then let (s', ev) := expireKey s k r in (None, s', ev)
              else (Some r, s, [])
  end.

Definition get (s : store) (now : Z) (k : jsstr)
    : result store_error (option buffer) * store * list event :=
  match jget (map s) k with
  | None => (Ok None, s, [])
  | Some r =>
      if expired r now then let (s', ev) := expireKey s k r in (Ok None, s', ev)
      else (let? b := materialize (ref r) in Ok (Some b), s, [])
  end.

Definition del (s : store) (k : jsstr) : bool * store := remove s k.

Definition has (s : store) (now : Z) (k : jsstr) : bool * store * list event :=
  match jget (map s) k with
  | None => (false, s, [])
  | Some r => if expired r now then let (s', ev) := expireKey s k r in (false, s', ev)
              else (true, s, [])
  end.

(** Generators yield a prefix of entries before an error is thrown. *)
Fixpoint entries_loop (m : list (jsstr * store_record)) (now : Z)
    : list store_entry * option store_error :=
  match m with
  | [] => ([], None)
  | (k, r) :: m' =>
      if expired r now then entries_loop m' now
      else match materialize (ref r) with
           | Err e => ([], Some e)
           | Ok b => let (es, e) := entries_loop m' now in
                     (StoreEntry (fromKStr k) b (expireAt r) (dt r) :: es, e)
           end
  end.

Definition entries (s : store) (now : Z) := entries_loop (map s) now.

(** [clock i] is the reading of the clock at the [i]-th record visited. *)
Fixpoint scan_loop (clock : nat -> Z) (i : nat) (ns : list (jsstr * jsstr)) (s : store)
    : list store_entry * option store_error * store * list event :=
  match ns with
  | [] => ([], None, s, [])
  | n :: ns' =>
      let '(r, s1, ev) := getRecord s (clock i) n.1 in
      match r with
      | None =>
          let '(es, e, s2, ev') := scan_loop clock (S i) ns' s1 in (es, e, s2, ev ++ ev')
      | Some r =>
          match materialize (ref r) with
          | Err e => ([], Some e, s1, ev)
          | Ok b =>
              let '(es, e, s2, ev') := scan_loop clock (S i) ns' s1 in
              (StoreEntry (fromKStr n.1) b (expireAt r) (dt r) :: es, e, s2, ev ++ ev')
          end
      end
  end.

Definition scan (s : store) (clock : nat -> Z) (o : range_opts jsstr) :=
  scan_loop clock 0 (oi_range (order s) o) s.

Definition prefix_opts (p : jsstr) (limit : option Z) : range_opts jsstr :=
  RangeOpts (Some p) None None (Some (p ++ [65535%N])) 0 limit false.

Definition prefix (s : store) (clock : nat -> Z) (p : jsstr) (limit : option Z) :=
  scan s clock (prefix_opts p limit).

Fixpoint rawKeys_loop (clock : nat -> Z) (i : nat) (ns : list (jsstr * jsstr)) (s : store)
    : list jsstr * store * list event :=
  match ns with
  | [] => ([], s, [])
  | n :: ns' =>
      let '(r, s1, ev) := getRecord s (clock i) n.1 in
      let '(ks, s2, ev') := rawKeys_loop clock (S i) ns' s1 in
      (match r with Some _ => n.1 :: ks | None => ks end, s2, ev ++ ev')
  end.

Definition rawKeys (s : store) (clock : nat -> Z) (o : range_opts jsstr) :=
  rawKeys_loop clock 0 (oi_range (order s) o) s.

Definition remapLocs (s : store) (remap : jsstr -> value_loc -> store_record -> option value_loc) : store :=
  Store ((fun '(k, r) =>
            (k, match ref r with
                | Disk loc => match remap k loc r with
                              | Some next => StoreRecord (Disk next) (expireAt r) (rseq r) (dt r)
                              | None => r
                              end
                | Memory _ => r
                end)) <$> map s)
    (order s) (heap s) (seq s) (bytes s) (expiring s) (expireAggressive s).

Definition with_heap (s : store) (h : list heap_entry) : store :=
  Store (map s) (order s) h (seq s) (bytes s) (expiring s) (expireAggressive s).

(** One tick of active expiration; [clock (S n)] is the reading taken when [n]
    entries were popped. One round per heap entry is enough fuel. *)
Fixpoint activeExpire_loop (fuel : nat) (clock : nat -> Z) (now deadline : Z) (n : nat)
    (reaped : Z) (s : store) : store * Z * list event :=
  match fuel with
  | O => (s, reaped, [])
  | S fuel' =>
      match peek (heap s) with
      | None => (s, reaped, [])
      | Some top =>
          if negb (h_t top <=? now) then (s, reaped, [])
          else if (maxPerTick <=? Z.of_nat n) && (Z.land (Z.of_nat n) 15 =? 0)
                  && (deadline <=? clock (S n)) then (s, reaped, [])
          else
            match pop (heap s) with
            | (None, _) => (s, reaped, [])
            | (Some e, h') =>
                let s0 := with_heap s h' in
                match jget (map s) (h_k e) with
                | Some r =>
                    if (rseq r =? h_seq e) && expired r now then
                      let (s1, ev) := expireKey s0 (h_k e) r in
                      let '(s2, n2, ev') :=
                        activeExpire_loop fuel' clock now deadline (S n) (reaped + 1) s1 in
                      (s2, n2, ev ++ ev')
                    else activeExpire_loop fuel' clock now deadline (S n) reaped s0
                | None => activeExpire_loop fuel' clock now deadline (S n) reaped s0
                end
            end
      end
  end.

Definition activeExpire (s : store) (clock : nat -> Z) : store * list event :=
  let now := clock O in
  let deadline := now + (if expireAggressive s then expireTimeBudgetMs `max` 10 else expireTimeBudgetMs) in
  let '(s', reaped, ev) := activeExpire_loop (length (heap s)) clock now deadline 0 0 s in
  (Store (map s') (order s') (heap s') (seq s') (bytes s') (expiring s') (maxPerTick <=? reaped), ev).

(** The loop deletes the entry it is at, which a [Map] iteration tolerates. *)
Definition reapExpired (s : store) (now : Z) : store * Z * list event :=
  fold_left (fun '(s, n, ev) '(k, r) =>
    if expired r now then let (s', ev') := expireKey s k r in (s', n + 1, ev ++ ev')
    else (s, n, ev)) (map s) (s, 0, []).

(** * Well-formedness *)

(** The sum of [f] over the records. *)
Definition msum (f : jsstr -> store_record -> Z) (m : list (jsstr * store_record)) : Z :=
  foldr (fun e acc => f e.1 e.2 + acc) 0 m.
Arguments msum : simpl never.

Definition ttl1 (k : jsstr) (r : store_record) : Z := if truthy (expireAt r) then 1 else 0.

Record store_wf (s : store) : Prop := {
  wf_map : jwf (map s);
  wf_order : exists l, oi_repr (order s) l /\ l ≡ₚ (fun k => (k, k)) <$> jkeys (map s);
  wf_bytes : bytes s = msum record_bytes (map s);
  wf_expiring : expiring s = msum ttl1 (map s);
  wf_heap : heap_ok (heap s);
  wf_ttl : forall k r, (k, r) ∈ map s -> truthy (expireAt r) = true ->
           HeapEntry (expireAt r) k (rseq r) ∈ heap s;
}.

Lemma msum_cons f k r m : msum f ((k, r) :: m) = f k r + msum f m.
Proof. done. Qed.

Lemma msum_perm f m1 m2 : m1 ≡ₚ m2 -> msum f m1 = msum f m2.
Proof. unfold msum. induction 1; cbn; lia. Qed.

Lemma msum_del f m k r : jget m k = Some r -> msum f (jdel m k) = msum f m - f k r.
Proof. intros H%jdel_perm. apply (msum_perm f) in H. rewrite msum_cons in H. lia. Qed.

Lemma msum_set f m k r :
  msum f (jset m k r) = msum f m + f k r - match jget m k with Some r0 => f k r0 | None => 0 end.
Proof.
  destruct (jget m k) as [r0|] eqn:E.
  - pose proof (jset_perm_old m k r r0 E) as H. apply (msum_perm f) in H. rewrite msum_cons in H.
    rewrite (msum_del f m k r0 E) in H. lia.
  - pose proof (jset_perm_new m k r E) as H. apply (msum_perm f) in H. rewrite msum_cons in H. lia.
Qed.

Lemma order_mem l (m : list (jsstr * store_record)) k :
  l ≡ₚ (fun k => (k, k)) <$> jkeys m -> (k, k) ∈ l <-> is_Some (jget m k).
Proof.
  intros ->. rewrite list_elem_of_fmap. split.
  - intros (k' & [= <-] & Hk). destruct (jget m k) eqn:E; [eauto|]. by apply jget_None in E.
  - intros [r Hr]. exists k. split; [done|]. apply list_elem_of_fmap. exists (k, r).
    split; [done|]. by apply jget_Some_in.
Qed.

Lemma empty_store_wf : store_wf empty_store.
Proof.
  split; cbn; try done.
  - by constructor.
  - exists []. split; [apply oi_repr_empty|done].
  - by intros k r ?%elem_of_nil.
Qed.

Lemma remove_wf s k : store_wf s -> store_wf (remove s k).2.
Proof.
  intros [Hm (l & Hl & Hp) Hb He Hh Ht]. unfold remove.
  destruct (jget (map s) k) as [r|] eqn:Hk; [|by split; eauto]. split; cbn.
  - by apply jwf_del.
  - destruct (oi_delete_spec _ l k k Hl) as [Hd _]. eexists. split; [exact Hd|].
    apply (Permutation_cons_inv (a := (k, k))).
    rewrite (sorted_delete_perm cmpString cmpString).
    + by rewrite Hp, (jkeys_del_perm (map s) k r Hk).
    + by eapply oi_repr_sorted.
    + rewrite (order_mem l (map s)) by done. rewrite Hk. eauto.
  - by rewrite (msum_del _ _ _ r), Hb.
  - rewrite (msum_del _ _ _ r), He by done. unfold ttl1 at 4. destruct (truthy (expireAt r)); lia.
  - done.
  - intros k' r' [_ Hin]%jdel_in; [|done]. by apply Ht.
Qed.

Lemma expireKey_wf s k r : store_wf s -> store_wf (expireKey s k r).1.
Proof. intros Hs%(remove_wf _ k). unfold expireKey. by destruct (remove s k). Qed.

(** ** Rebuilding the heap *)

Definition heap_of (m : list (jsstr * store_record)) : list heap_entry :=
  (fun '(k, r) => HeapEntry (expireAt r) k (rseq r)) <$>
    List.filter (fun '(k, r) => truthy (expireAt r)) m.

Lemma rebuildHeap_spec m : heap_ok (rebuildHeap m) /\ rebuildHeap m ≡ₚ heap_of m.
Proof.
  unfold rebuildHeap.
  enough (forall h, heap_ok h ->
    let h' := fold_left (fun h '(k, r) =>
      if truthy (expireAt r) then push h (HeapEntry (expireAt r) k (rseq r)) else h) m h in
    heap_ok h' /\ h' ≡ₚ h ++ heap_of m) as H.
  { apply (H []). intros j Hj. cbn in Hj. lia. }
  unfold heap_of. induction m as [|[k r] m IH]; intros h Hh; cbn.
  { by rewrite app_nil_r. }
  destruct (truthy (expireAt r)); cbn; [|by apply IH].
  destruct (IH _ (push_heap_ok h (HeapEntry (expireAt r) k (rseq r)) Hh)) as [H1 H2].
  split; [exact H1|]. cbn in H2. rewrite H2, push_perm. by rewrite <- Permutation_middle.
Qed.

Lemma heap_of_in m k r :
  (k, r) ∈ m -> truthy (expireAt r) = true -> HeapEntry (expireAt r) k (rseq r) ∈ heap_of m.
Proof.
  intros Hin Ht. apply list_elem_of_fmap. exists (k, r). split; [done|].
  apply list_elem_of_In, List.filter_In. split; [by apply list_elem_of_In|done].
Qed.

Lemma length_heap_of m : Z.of_nat (length (heap_of m)) = msum ttl1 m.
Proof.
  unfold heap_of. induction m as [|[k r] m IH]; cbn; [done|].
  rewrite msum_cons, <- IH. unfold ttl1. destruct (truthy (expireAt r)); cbn; lia.
Qed.

Lemma msum_ttl1_le m : msum ttl1 m <= Z.of_nat (length m).
Proof.
  induction m as [|[k r] m IH]; [done|]. rewrite msum_cons. unfold ttl1 at 1. cbn.
  destruct (truthy (expireAt r)); lia.
Qed.

Lemma setRef_heap s k rf exp d :
  heap (setRef s k rf exp d) = if truthy exp then
    let m' := jset (map s) k (StoreRecord rf exp (seq s + 1) d) in
    let h' := push (heap s) (HeapEntry exp k (seq s + 1)) in
    if (length m' * 2 + 64 <? length h')%nat then rebuildHeap m' else h'
  else heap s.
Proof. unfold setRef. by destruct (truthy exp). Qed.

Lemma setRef_map s k rf exp d :
  map (setRef s k rf exp d) = jset (map s) k (StoreRecord rf exp (seq s + 1) d).
Proof. unfold setRef. by destruct (truthy exp). Qed.

Lemma setRef_wf s k rf exp d : store_wf s -> store_wf (setRef s k rf exp d).
Proof.
  intros [Hm (l & Hl & Hp) Hb He Hh Ht].
  set (r := StoreRecord rf exp (seq s + 1) d). split.
  - rewrite setRef_map. by apply jwf_set.
  - assert (Ho : order (setRef s k rf exp d) =
                 match jget (map s) k with Some _ => order s | None => oi_insert (order s) k k end)
      by (unfold setRef; by destruct (truthy exp)).
    rewrite Ho, setRef_map, jkeys_set. unfold jhas. destruct (jget (map s) k) eqn:Hk; [by exists l|].
    exists (sorted_insert cmpString cmpString (k, k) l). split.
    + apply oi_insert_spec; [done|]. rewrite (order_mem l (map s)) by done. rewrite Hk. by intros [? [=]].
    + rewrite sorted_insert_perm, Hp, fmap_app. cbn. apply Permutation_cons_append.
  - rewrite setRef_map, msum_set, <- Hb. unfold setRef, recordBytes.
    destruct (truthy exp); cbn; destruct (jget (map s) k); lia.
  - rewrite setRef_map, msum_set, <- He. unfold setRef, ttl1.
    destruct (truthy exp) eqn:E; cbn; rewrite E;
      destruct (jget (map s) k) as [r0|]; try (destruct (truthy (expireAt r0))); lia.
  - rewrite setRef_heap. destruct (truthy exp); [|done]. cbv zeta.
    case_match; [apply rebuildHeap_spec|by apply push_heap_ok].
  - rewrite setRef_map, setRef_heap. fold r. intros k' r' Hin Htr.
    apply jset_in in Hin as Hin'; [|done].
    destruct (truthy exp) eqn:E; cbv zeta.
    + case_match.
      { rewrite (proj2 (rebuildHeap_spec _)). by apply heap_of_in. }
      rewrite push_perm. apply elem_of_cons. destruct Hin' as [[-> ->]|[_ Hin']]; [by left|right; by apply Ht].
    + destruct Hin' as [[-> ->]|[_ Hin']]; [|by apply Ht]. cbn in Htr. congruence.
Qed.

Lemma remapLocs_keys s remap : jkeys (map (remapLocs s remap)) = jkeys (map s).
Proof.
  unfold jkeys, remapLocs. cbn. rewrite <- list_fmap_compose. apply list_fmap_ext.
  by intros _ [k r] _.
Qed.

Lemma remapLocs_wf s remap : store_wf s -> store_wf (remapLocs s remap).
Proof.
  intros [Hm (l & Hl & Hp) Hb He Hh Ht]. split; try done.
  - unfold jwf. by rewrite remapLocs_keys.
  - exists l. rewrite remapLocs_keys. done.
  - unfold remapLocs. cbn. rewrite Hb. clear. induction (map s) as [|[k r] m IH]; [done|].
    cbn [fmap list_fmap]. rewrite !msum_cons, IH. f_equal. unfold record_bytes. destruct (ref r) eqn:E; cbn; [by rewrite E|].
    case_match; cbn; by rewrite ?E.
  - unfold remapLocs. cbn. rewrite He. clear. induction (map s) as [|[k r] m IH]; [done|].
    cbn [fmap list_fmap]. rewrite !msum_cons, IH. f_equal. unfold ttl1. destruct (ref r) as [|loc]; [done|]. by destruct (remap k loc r).
  - intros k r Hin Htr. cbn in *. apply list_elem_of_fmap in Hin as ([k0 r0] & Heq & Hin).
    injection Heq as -> ->. specialize (Ht k0 r0 Hin).
    destruct (ref r0) as [|loc]; [by apply Ht|]. destruct (remap k0 loc r0); by apply Ht.
Qed.

(** * Reaping

    [reaps now s s' ev]: [s'] is [s] less the records of [ev], each expired at
    [now] and reported once. *)
Record reaps (now : Z) (s s' : store) (ev : list event) : Prop := {
  rp_wf : store_wf s';
  rp_ev : forall k r, (k, r) ∈ ev ->
          jget (map s) k = Some r /\ expired r now = true /\ jget (map s') k = None;
  rp_nodup : NoDup ev.*1;
  rp_rest : forall k, k ∉ ev.*1 -> jget (map s') k = jget (map s) k;
}.

Lemma reaps_refl now s : store_wf s -> reaps now s s [].
Proof. intros Hs. split; [done| |constructor|done]. by intros k r ?%elem_of_nil. Qed.

Lemma elem_ev k (ev : list event) : k ∈ ev.*1 -> exists r, (k, r) ∈ ev.
Proof. intros ([k' r] & -> & Hin)%list_elem_of_fmap. by exists r. Qed.

Lemma reaps_trans now s1 s2 s3 ev1 ev2 :
  reaps now s1 s2 ev1 -> reaps now s2 s3 ev2 -> reaps now s1 s3 (ev1 ++ ev2).
Proof.
  intros [W1 E1 N1 R1] [W2 E2 N2 R2].
  assert (Hdis : forall k, k ∈ ev1.*1 -> k ∉ ev2.*1).
  { intros k [r Hr]%elem_ev [r' Hr']%elem_ev. apply E1 in Hr as (_ & _ & H1).
    apply E2 in Hr' as (H2 & _). congruence. }
  split; [done|..].
  - intros k r [Hin|Hin]%elem_of_app.
    + destruct (E1 k r Hin) as (? & ? & ?). split_and!; [done..|].
      rewrite R2; [done|]. apply Hdis, list_elem_of_fmap. by exists (k, r).
    + destruct (E2 k r Hin) as (? & ? & ?). split_and!; [|done..].
      rewrite <- R1; [done|]. intros Hk. destruct (Hdis k Hk).
      apply list_elem_of_fmap. by exists (k, r).
  - rewrite fmap_app. by apply NoDup_app.
  - intros k. rewrite fmap_app, not_elem_of_app. intros [? ?]. by rewrite R2, R1.
Qed.

Lemma expired_mono r now now' : now <= now' -> expired r now = true -> expired r now' = true.
Proof. unfold expired. rewrite !andb_true_iff, !Z.leb_le. intros ? [? ?]. split; [done|lia]. Qed.

Lemma reaps_mono now now' s s' ev : now <= now' -> reaps now s s' ev -> reaps now' s s' ev.
Proof.
  intros Hle [W E N R]. split; [done| |done..]. intros k r Hin.
  destruct (E k r Hin) as (? & ? & ?). split_and!; [done| |done]. by eapply expired_mono.
Qed.

Lemma remove_map s k : map (remove s k).2 = jdel (map s) k.
Proof. unfold remove. destruct (jget (map s) k) eqn:E; cbn; [done|]. by rewrite jdel_notin. Qed.

Lemma remove_ok s k : (remove s k).1 = jhas (map s) k.
Proof. unfold remove, jhas. by destruct (jget (map s) k). Qed.

Lemma expireKey_reaps now s k r :
  store_wf s -> jget (map s) k = Some r -> expired r now = true ->
  reaps now s (expireKey s k r).1 (expireKey s k r).2.
Proof.
  intros Hs Hk He. pose proof (remove_wf s k Hs) as Hw. pose proof (remove_map s k) as Hmap.
  pose proof (remove_ok s k) as Hok. unfold expireKey, jhas in *. rewrite Hk in Hok.
  destruct (remove s k) as [ok s']. cbn in *. subst ok.
  assert (Hget : forall k', jget (map s') k' = if decide (k = k') then None else jget (map s) k').
  { intros k'. rewrite Hmap. apply jget_del, Hs. }
  split; [done|..].
  - intros k' r' [= -> ->]%list_elem_of_singleton. split_and!; [done..|].
    by rewrite Hget, decide_True.
  - apply NoDup_singleton.
  - intros k' Hk'. rewrite Hget, decide_False; [done|]. set_solver.
Qed.

Lemma getRecord_reaps s now k :
  store_wf s -> reaps now s (getRecord s now k).1.2 (getRecord s now k).2.
Proof.
  intros Hs. unfold getRecord. destruct (jget (map s) k) as [r|] eqn:Hk; [|by apply reaps_refl].
  destruct (expired r now) eqn:He; [|by apply reaps_refl].
  pose proof (expireKey_reaps now s k r Hs Hk He). by destruct (expireKey s k r).
Qed.

Lemma getRecord_out s now k :
  (getRecord s now k).1.1 =
  match jget (map s) k with Some r => if expired r now then None else Some r | None => None end.
Proof. unfold getRecord. repeat case_match; done. Qed.

Lemma get_getRecord s now k :
  get s now k = (match (getRecord s now k).1.1 with
                 | Some r => let? b := materialize (ref r) in Ok (Some b)
                 | None => Ok None
                 end, (getRecord s now k).1.2, (getRecord s now k).2).
Proof.
  unfold get, getRecord. destruct (jget (map s) k) as [r|]; [|done].
  destruct (expired r now); [|done]. by destruct (expireKey s k r).
Qed.

Lemma has_getRecord s now k :
  has s now k = (match (getRecord s now k).1.1 with Some _ => true | None => false end,
                 (getRecord s now k).1.2, (getRecord s now k).2).
Proof.
  unfold has, getRecord. destruct (jget (map s) k) as [r|]; [|done].
  destruct (expired r now); [|done]. by destruct (expireKey s k r).
Qed.

(** ** Scans *)

(** The live record of a key. *)
Definition view (s : store) (now : Z) (k : jsstr) : option store_record :=
  match jget (map s) k with
  | Some r => if expired r now then None else Some r
  | None => None
  end.

Definition alive (s : store) (now : Z) (k : jsstr) : bool :=
  match view s now k with Some _ => true | None => false end.

Lemma reaps_view now s s' ev now' k :
  reaps now s s' ev -> now <= now' -> view s' now' k = view s now' k.
Proof.
  intros [W E N R] Hle. unfold view. destruct (decide (k ∈ ev.*1)) as [[r Hin]%elem_ev|Hni].
  - destruct (E k r Hin) as (-> & He & ->). by rewrite (expired_mono r now now').
  - by rewrite R.
Qed.

Lemma rawKeys_loop_spec now clock i ns s :
  store_wf s -> (forall j, clock j = now) ->
  let '(ks, s', ev) := rawKeys_loop clock i ns s in
  reaps now s s' ev /\
  ks = List.filter (alive s now) ns.*1.
Proof.
  intros Hs Hc. revert i s Hs. induction ns as [|n ns IH]; intros i s Hs; cbn [rawKeys_loop].
  { split; [by apply reaps_refl|done]. }
  rewrite Hc. pose proof (getRecord_reaps s now n.1 Hs) as Hr.
  pose proof (getRecord_out s now n.1) as Ho. destruct (getRecord s now n.1) as [[r s1] ev].
  cbn in Hr, Ho. specialize (IH (S i) s1 (rp_wf _ _ _ _ Hr)).
  destruct (rawKeys_loop clock (S i) ns s1) as [[ks s2] ev']. destruct IH as [IH1 IH2].
  split; [by eapply reaps_trans|].
  assert (Hf : List.filter (alive s1 now) ns.*1 =
               List.filter (alive s now) ns.*1).
  { apply List.filter_ext. intros k. unfold alive. by rewrite (reaps_view _ _ _ _ now k Hr). }
  rewrite Hf in IH2. cbn. unfold alive at 1, view. rewrite <- Ho. destruct r; by rewrite IH2.
Qed.

(** The entry a scan yields for a key with a live record. *)
Definition entry_of (k : jsstr) (r : store_record) (b : buffer) : store_entry :=
  StoreEntry (fromKStr k) b (expireAt r) (dt r).

(** The entries of the live keys among [ks], in order, until a value fails to
    materialize. *)
Fixpoint live_entries (s : store) (now : Z) (ks : list jsstr) : list store_entry * option store_error :=
  match ks with
  | [] => ([], None)
  | k :: ks' =>
      match view s now k with
      | None => live_entries s now ks'
      | Some r =>
          match materialize (ref r) with
          | Err e => ([], Some e)
          | Ok b => let (es, e) := live_entries s now ks' in (entry_of k r b :: es, e)
          end
      end
  end.

Lemma live_entries_ext s s' now ks :
  (forall k, view s' now k = view s now k) -> live_entries s' now ks = live_entries s now ks.
Proof. intros Hv. induction ks as [|k ks IH]; cbn; [done|]. by rewrite Hv, IH. Qed.

Lemma kv_scan_loop_spec now clock i ns s :
  store_wf s -> (forall j, clock j = now) ->
  let '(es, e, s', ev) := scan_loop clock i ns s in
  reaps now s s' ev /\ (es, e) = live_entries s now ns.*1.
Proof.
  intros Hs Hc. revert i s Hs. induction ns as [|n ns IH]; intros i s Hs; cbn [scan_loop].
  { split; [by apply reaps_refl|done]. }
  rewrite Hc. pose proof (getRecord_reaps s now n.1 Hs) as Hr.
  pose proof (getRecord_out s now n.1) as Ho. destruct (getRecord s now n.1) as [[r s1] ev].
  cbn in Hr, Ho. specialize (IH (S i) s1 (rp_wf _ _ _ _ Hr)).
  destruct (scan_loop clock (S i) ns s1) as [[[es e] s2] ev']. destruct IH as [IH1 IH2].
  rewrite (live_entries_ext s s1) in IH2 by (intros k; by apply (reaps_view _ _ _ _ now k Hr)).
  cbn [fmap list_fmap live_entries]. unfold view at 1. rewrite <- Ho. destruct r as [r|].
  - destruct (materialize (ref r)) as [b|err]; [|done].
    split; [by eapply reaps_trans|]. by rewrite <- IH2.
  - split; [by eapply reaps_trans|done].
Qed.

(** [entries] walks the records in insertion order. *)
Lemma entries_spec s now : store_wf s -> entries s now = live_entries s now (jkeys (map s)).
Proof.
  intros Hs. unfold entries, jkeys.
  enough (forall m, (forall k r, (k, r) ∈ m -> jget (map s) k = Some r) ->
    entries_loop m now = live_entries s now m.*1) as H.
  { apply H. intros k r. apply jget_in, Hs. }
  induction m as [|[k r] m IH]; intros Hm; cbn [entries_loop fmap list_fmap live_entries fst]; [done|].
  unfold view. rewrite (Hm k r) by by left.
  rewrite IH by (intros k' r' Hin; apply Hm; by right).
  destruct (expired r now); [done|]. by destruct (materialize (ref r)).
Qed.

(** ** Active expiration *)

Lemma remove_with_heap s h k :
  remove (with_heap s h) k = ((remove s k).1, with_heap (remove s k).2 h).
Proof. unfold remove, with_heap. cbn. by destruct (jget (map s) k). Qed.

Lemma with_heap_wf s h :
  store_wf s -> heap_ok h ->
  (forall k r, (k, r) ∈ map s -> truthy (expireAt r) = true -> HeapEntry (expireAt r) k (rseq r) ∈ h) ->
  store_wf (with_heap s h).
Proof. intros [Hm Ho Hb He _ _] Hh Ht. by split. Qed.

Lemma with_heap_reaps now s s' h ev :
  reaps now s s' ev -> store_wf (with_heap s' h) -> reaps now s (with_heap s' h) ev.
Proof. intros [W E N R] Hw. by split. Qed.

(** One popped entry: the matching record, if any, is expired and removed. *)
Lemma pop_round now s e h' :
  store_wf s -> pop (heap s) = (Some e, h') -> h_t e <= now ->
  match jget (map s) (h_k e) with
  | Some r =>
      if (rseq r =? h_seq e) && expired r now then
        reaps now s (expireKey (with_heap s h') (h_k e) r).1 (expireKey (with_heap s h') (h_k e) r).2
      else reaps now s (with_heap s h') []
  | None => reaps now s (with_heap s h') []
  end.
Proof.
  intros Hs Hpop Ht. pose proof (pop_perm _ _ _ Hpop) as Hp.
  assert (Hh' : heap_ok h'). { pose proof (pop_heap_ok (heap s) (wf_heap s Hs)) as H. by rewrite Hpop in H. }
  assert (Hkeep : (forall r, jget (map s) (h_k e) = Some r -> (rseq r =? h_seq e) && expired r now = false) ->
                  reaps now s (with_heap s h') []).
  { intros Hno. apply with_heap_reaps; [by apply reaps_refl|]. apply with_heap_wf; [done..|].
    intros k r Hin Htr. pose proof (wf_ttl s Hs k r Hin Htr) as He. rewrite Hp in He.
    apply elem_of_cons in He as [He|He]; [|done].
    assert (Hk : jget (map s) (h_k e) = Some r) by (rewrite <- He; by apply jget_in; [apply Hs|]).
    specialize (Hno r Hk). rewrite <- He in Hno, Ht. cbn in Hno, Ht.
    unfold expired in Hno. rewrite Z.eqb_refl, Htr in Hno. cbn in Hno. apply Z.leb_gt in Hno. lia. }
  destruct (jget (map s) (h_k e)) as [r|] eqn:Hk; [|by apply Hkeep].
  destruct ((rseq r =? h_seq e) && expired r now) eqn:Hm; [|apply Hkeep; by intros ? [= ->]].
  apply andb_true_iff in Hm as [_ Hex].
  pose proof (expireKey_reaps now s (h_k e) r Hs Hk Hex) as Hr.
  unfold expireKey in *. rewrite remove_with_heap.
  pose proof (remove_map s (h_k e)) as Hmap. destruct (remove s (h_k e)) as [ok s1]. cbn in *.
  apply with_heap_reaps; [done|]. pose proof (rp_wf _ _ _ _ Hr) as Hw1.
  apply with_heap_wf; [done..|]. intros k r' Hin Htr. rewrite Hmap in Hin.
  apply jdel_in in Hin as [Hne Hin]; [|apply Hs].
  pose proof (wf_ttl s Hs k r' Hin Htr) as He. rewrite Hp in He.
  apply elem_of_cons in He as [He|He]; [|done]. rewrite <- He in Hne. done.
Qed.

Lemma remove_heap s k : heap (remove s k).2 = heap s.
Proof. unfold remove. by destruct (jget (map s) k). Qed.

Lemma pop_length a e a' : pop a = (Some e, a') -> length a = S (length a').
Proof. intros H%pop_perm. by rewrite H. Qed.

(** The tick removes only records expired at its start; it removes all of them
    unless its budget cut it short. *)
Lemma activeExpire_loop_spec fuel clock now deadline n reaped s :
  store_wf s -> (length (heap s) <= fuel)%nat ->
  let '(s', _, ev) := activeExpire_loop fuel clock now deadline n reaped s in
  reaps now s s' ev /\
  ((forall m, (n <= m < n + length (heap s))%nat ->
      (maxPerTick <=? Z.of_nat m) && (Z.land (Z.of_nat m) 15 =? 0) && (deadline <=? clock (S m)) = false) ->
   forall k r, jget (map s') k = Some r -> expired r now = false).
Proof.
  revert n reaped s. induction fuel as [|fuel IH]; intros n reaped s Hs Hf; cbn [activeExpire_loop].
  all: assert (Hend : match peek (heap s) with Some t => (h_t t <=? now) = false | None => True end ->
         forall k r, jget (map s) k = Some r -> expired r now = false).
  1, 3: intros Hpk k r Hk; destruct (expired r now) eqn:He; [|done]; exfalso;
    unfold expired in He; apply andb_true_iff in He as [Htr Hle]; apply Z.leb_le in Hle;
    apply jget_Some_in in Hk; pose proof (wf_ttl s Hs k r Hk Htr) as Hin;
    unfold peek in Hpk; destruct (heap s !! 0%nat) as [t|] eqn:E;
    [apply Z.leb_gt in Hpk; pose proof (heap_root_min _ _ _ (wf_heap s Hs) E Hin) as Hmin; cbn in Hmin; lia
    |destruct (heap s); [by apply elem_of_nil in Hin|done]].
  { split; [by apply reaps_refl|]. intros _. apply Hend. unfold peek.
    destruct (heap s); [done|cbn in Hf; lia]. }
  destruct (peek (heap s)) as [top|] eqn:Hpk; [|split; [by apply reaps_refl|intros _; by apply Hend]].
  destruct (h_t top <=? now) eqn:Htop; cbn [negb]; [|split; [by apply reaps_refl|intros _; by apply Hend]].
  destruct ((maxPerTick <=? Z.of_nat n) && (Z.land (Z.of_nat n) 15 =? 0) &&
            (deadline <=? clock (S n))) eqn:Hcut.
  { split; [by apply reaps_refl|]. intros Hno. rewrite Hno in Hcut; [done|].
    unfold peek in Hpk. apply lookup_lt_Some in Hpk. lia. }
  destruct (pop (heap s)) as [[e|] h'] eqn:Hpop.
  2: { apply pop_None in Hpop. unfold peek in Hpk. by rewrite Hpop in Hpk. }
  assert (Hte : h_t e <= now).
  { unfold peek in Hpk. unfold pop in Hpop. rewrite Hpk in Hpop. apply Z.leb_le in Htop.
    repeat case_match; congruence. }
  pose proof (pop_round now s e h' Hs Hpop Hte) as Hround. pose proof (pop_length _ _ _ Hpop) as Hlen.
  assert (Hstep : forall s1 ev reaped', reaps now s s1 ev -> heap s1 = h' ->
    let '(s2, _, ev') := activeExpire_loop fuel clock now deadline (S n) reaped' s1 in
    reaps now s s2 (ev ++ ev') /\
    ((forall m, (n <= m < n + length (heap s))%nat ->
      (maxPerTick <=? Z.of_nat m) && (Z.land (Z.of_nat m) 15 =? 0) && (deadline <=? clock (S m)) = false) ->
     forall k r, jget (map s2) k = Some r -> expired r now = false)).
  { intros s1 ev reaped' Hr Hh. specialize (IH (S n) reaped' s1 (rp_wf _ _ _ _ Hr)).
    rewrite Hh in IH. specialize (IH ltac:(lia)).
    destruct (activeExpire_loop fuel clock now deadline (S n) reaped' s1) as [[s2 n2] ev'].
    destruct IH as [IH1 IH2]. split; [by eapply reaps_trans|].
    intros Hno. apply IH2. intros m Hm. apply Hno. lia. }
  destruct (jget (map s) (h_k e)) as [r|]; [|by apply (Hstep _ [])].
  destruct ((rseq r =? h_seq e) && expired r now); [|by apply (Hstep _ [])].
  pose proof (remove_heap (with_heap s h') (h_k e)) as Hrh. unfold expireKey in *.
  destruct (remove (with_heap s h') (h_k e)) as [ok s1]. cbn in Hround, Hrh.
  specialize (Hstep _ _ (reaped + 1) Hround Hrh).
  by destruct (activeExpire_loop fuel clock now deadline (S n) (reaped + 1) s1) as [[s2 n2] ev'].
Qed.

Lemma with_aggressive_wf s b :
  store_wf s ->
  store_wf (Store (map s) (order s) (heap s) (seq s) (bytes s) (expiring s) b).
Proof. intros [Hm Ho Hb He Hh Ht]. by split. Qed.

(** ** Synchronous reaping *)

Lemma reapExpired_spec s now :
  store_wf s ->
  let '(s', n, ev) := reapExpired s now in
  reaps now s s' ev /\ n = Z.of_nat (length ev) /\
  (forall k r, jget (map s') k = Some r -> expired r now = false).
Proof.
  intros Hs. unfold reapExpired.
  enough (forall m s1 ev, reaps now s s1 ev -> jwf m ->
    (forall k r, (k, r) ∈ m -> jget (map s1) k = Some r) ->
    let '(s', n, ev') := fold_left (fun '(s, n, ev) '(k, r) =>
      if expired r now then let (s', ev') := expireKey s k r in (s', n + 1, ev ++ ev')
      else (s, n, ev)) m (s1, Z.of_nat (length ev), ev) in
    reaps now s s' ev' /\ n = Z.of_nat (length ev') /\
    (forall k r, jget (map s') k = Some r -> jget (map s1) k = Some r /\
                 (k ∈ jkeys m -> expired r now = false))) as H.
  { specialize (H (map s) s [] (reaps_refl now s Hs) (wf_map s Hs)
      (fun k r => jget_in _ _ _ (wf_map s Hs))).
    cbn [length Z.of_nat] in H. destruct (fold_left _ _ _) as [[s' n] ev'].
    destruct H as (H1 & H2 & H3). split_and!; [done..|].
    intros k r Hk. destruct (H3 k r Hk) as [Hk0 He]. apply He.
    destruct (decide (k ∈ jkeys (map s))) as [|Hn%jget_None]; [done|congruence]. }
  induction m as [|[k r] m IH]; intros s1 ev Hr Hm Hin; cbn [fold_left].
  { split_and!; [done..|]. intros k r Hk. split; [done|]. by intros ?%elem_of_nil. }
  apply NoDup_cons in Hm as [Hn Hm]. pose proof (Hin k r ltac:(by left)) as Hk.
  destruct (expired r now) eqn:He.
  - pose proof (expireKey_reaps now s1 k r (rp_wf _ _ _ _ Hr) Hk He) as Hr1.
    assert (Hev : (expireKey s1 k r).2 = [(k, r)]).
    { unfold expireKey. pose proof (remove_ok s1 k) as Hok. unfold jhas in Hok. rewrite Hk in Hok.
      destruct (remove s1 k). cbn in *. by rewrite Hok. }
    destruct (expireKey s1 k r) as [s2 ev2]. cbn in Hr1, Hev. subst ev2.
    pose proof (reaps_trans _ _ _ _ _ _ Hr Hr1) as Hr2.
    assert (Hrest : forall k', k' <> k -> jget (map s2) k' = jget (map s1) k').
    { intros k' Hne. apply (rp_rest _ _ _ _ Hr1). set_solver. }
    assert (Hgone : jget (map s2) k = None).
    { apply (rp_ev _ _ _ _ Hr1 k r). by apply list_elem_of_singleton. }
    assert (Hin2 : forall k' r', (k', r') ∈ m -> jget (map s2) k' = Some r').
    { intros k' r' Hin'. rewrite Hrest; [by apply Hin; right|]. intros ->. apply Hn.
      apply list_elem_of_fmap. by exists (k, r'). }
    specialize (IH s2 (ev ++ [(k, r)]) Hr2 Hm Hin2).
    replace (Z.of_nat (length ev) + 1) with (Z.of_nat (length (ev ++ [(k, r)])))
      by (rewrite length_app; cbn; lia).
    destruct (fold_left _ _ _) as [[s3 n] ev3]. destruct IH as (I1 & I2 & I3). split_and!; [done..|].
    intros k' r' Hk'. destruct (I3 k' r' Hk') as [J1 J2].
    assert (Hne : k' <> k) by (intros ->; congruence). rewrite <- Hrest by done. split; [done|].
    intros [->|?]%elem_of_cons; [done|by apply J2].
  - specialize (IH s1 ev Hr Hm (fun k' r' H => Hin k' r' (list_elem_of_further _ _ _ H))).
    destruct (fold_left _ _ _) as [[s3 n] ev3]. destruct IH as (I1 & I2 & I3). split_and!; [done..|].
    intros k' r' Hk'. destruct (I3 k' r' Hk') as [J1 J2]. split; [done|].
    intros [Hkk|?]%elem_of_cons; [|by apply J2]. cbn in Hkk. subst k'. congruence.
Qed.

(** * Theorems *)

(** [size] is the number of live records, on the fast path too. *)
Lemma size_spec s now :
  store_wf s ->
  size s now = Z.of_nat (length (List.filter (fun e => negb (expired e.2 now)) (map s))).
Proof.
  intros Hs. unfold size. rewrite (wf_expiring s Hs). clear Hs.
  assert (Hlive : foldr (fun '(_, r) n =>
     (if negb (truthy (expireAt r)) || (now <? expireAt r) then 1 else 0) + n) 0 (map s) =
     Z.of_nat (length (List.filter (fun e => negb (expired e.2 now)) (map s)))).
  { induction (map s) as [|[k r] m IH]; cbn; [done|]. rewrite IH.
    replace (negb (expired r now)) with (negb (truthy (expireAt r)) || (now <? expireAt r))
      by (unfold expired; rewrite negb_andb, Z.leb_antisym, negb_involutive; done).
    case_match; cbn; lia. }
  destruct (msum ttl1 (map s) =? 0) eqn:E; [|done]. apply Z.eqb_eq in E. rewrite <- Hlive.
  assert (Hge : forall m, 0 <= msum ttl1 m).
  { intros m. rewrite <- length_heap_of. lia. }
  clear Hlive. induction (map s) as [|[k r] m IH]; cbn; [done|]. rewrite msum_cons in E.
  unfold ttl1 at 1 in E. specialize (Hge m). destruct (truthy (expireAt r)); cbn; [lia|].
  rewrite <- IH by lia. lia.
Qed.

(** After a SET with an expiry the heap holds at most twice as many entries as there
    are keys, plus 64. *)
Lemma setRef_heap_bound s k rf exp d :
  truthy exp = true ->
  (length (heap (setRef s k rf exp d)) <= 2 * length (map (setRef s k rf exp d)) + 64)%nat.
Proof.
  intros Ht. rewrite setRef_heap, setRef_map, Ht. cbv zeta.
  set (m := jset _ _ _). case_match eqn:E; [|apply Nat.ltb_ge in E; lia].
  rewrite (proj2 (rebuildHeap_spec m)). pose proof (length_heap_of m). pose proof (msum_ttl1_le m). lia.
Qed.

(** * Refinement of a timed map

    The contract of the store: a finite map from keys to (value, expiry, dt) in
    which an entry is visible until its expiry. *)

Abbreviation timed := (value_ref * Z * option dt_map)%type.
Abbreviation tmap := (gmap jsstr timed).

Definition t_live (now : Z) (v : timed) : bool :=
  negb (truthy v.1.2 && (v.1.2 <=? now)).

Definition t_get (M : tmap) (now : Z) (k : jsstr) : option timed :=
  match M !! k with Some v => if t_live now v then Some v else None | None => None end.

Definition untimed (r : store_record) : timed := (ref r, expireAt r, dt r).

Inductive op :=
| OpSet (k : jsstr) (rf : value_ref) (exp : Z) (d : option dt_map)
| OpDel (k : jsstr)
| OpGet (k : jsstr)
| OpGetRecord (k : jsstr)
| OpHas (k : jsstr)
| OpSize
| OpRawKeys (o : range_opts jsstr)
| OpReap
| OpTick (later : nat -> Z).    (* the clock readings during the tick *)

Inductive out :=
| OutUnit
| OutBool (b : bool)
| OutValue (v : result store_error (option buffer))
| OutRecord (r : option timed)
| OutNumber (n : Z)
| OutKeys (ks : list jsstr).

(** One call of the store at time [now]. *)
Definition exec (now : Z) (c : op) (s : store) : out * store :=
  match c with
  | OpSet k rf exp d => (OutUnit, setRef s k rf exp d)
  | OpDel k => let (b, s') := del s k in (OutBool b, s')
  | OpGet k => let '(v, s', _) := get s now k in (OutValue v, s')
  | OpGetRecord k => let '(r, s', _) := getRecord s now k in (OutRecord (untimed <$> r), s')
  | OpHas k => let '(b, s', _) := has s now k in (OutBool b, s')
  | OpSize => (OutNumber (size s now), s)
  | OpRawKeys o => let '(ks, s', _) := rawKeys s (fun _ => now) o in (OutKeys ks, s')
  | OpReap => let '(n, s', _) := (let '(s', n, ev) := reapExpired s now in (n, s', ev)) in (OutNumber n, s')
  | OpTick later =>
      let (s', _) := activeExpire s (fun i => match i with O => now | S j => later j end) in (OutUnit, s')
  end.

(** What the timed map allows as the output of a call. *)
Definition allowed (now : Z) (c : op) (M : tmap) (o : out) : Prop :=
  match c, o with
  | OpSet _ _ _ _, OutUnit => True
  | OpDel k, OutBool b =>
      (is_Some (t_get M now k) -> b = true) /\ (M !! k = None -> b = false)
  | OpGet k, OutValue v =>
      v = match t_get M now k with
          | Some t => let? b := materialize t.1.1 in Ok (Some b)
          | None => Ok None
          end
  | OpGetRecord k, OutRecord r => r = t_get M now k
  | OpHas k, OutBool b => b = true <-> is_Some (t_get M now k)
  | OpSize, OutNumber n => n = Z.of_nat (base.size (filter (fun e => t_live now e.2) M))
  | OpRawKeys o, OutKeys ks =>
      single_start_bound o -> offset o = 0 -> count o = None ->
      StronglySorted (fun a b => if reverse o then cmpString b a < 0 else cmpString a b < 0) ks /\
      (forall k, k ∈ ks <-> is_Some (t_get M now k) /\ in_bounds cmpString o k = true)
  | OpReap, OutNumber n => 0 <= n
  | OpTick _, OutUnit => True
  | _, _ => False
  end.

Definition next (c : op) (M : tmap) : tmap :=
  match c with
  | OpSet k rf exp d => <[k := (rf, exp, d)]> M
  | OpDel k => delete k M
  | _ => M
  end.

(** From [now] on, the store shows exactly the timed map; every record it holds
    is one of the map's. *)
Record simulates (now : Z) (s : store) (M : tmap) : Prop := {
  sim_wf : store_wf s;
  sim_rec : forall k r, jget (map s) k = Some r -> M !! k = Some (untimed r);
  sim_view : forall now' k, now <= now' -> t_get M now' k = untimed <$> view s now' k;
}.

Lemma t_live_untimed r now : t_live now (untimed r) = negb (expired r now).
Proof. done. Qed.

Lemma sim_mono now now' s M : now <= now' -> simulates now s M -> simulates now' s M.
Proof. intros Hle [W R V]. split; [done..|]. intros. apply V. lia. Qed.

Lemma sim_reaps now s s' ev M : simulates now s M -> reaps now s s' ev -> simulates now s' M.
Proof.
  intros [W R V] Hr. split.
  - by apply (rp_wf _ _ _ _ Hr).
  - intros k r Hk. apply R. destruct (decide (k ∈ ev.*1)) as [[r' Hin]%elem_ev|Hni].
    + apply (rp_ev _ _ _ _ Hr) in Hin as (_ & _ & ?). congruence.
    + by rewrite <- (rp_rest _ _ _ _ Hr).
  - intros now' k Hle. by rewrite V, (reaps_view _ _ _ _ now' k Hr).
Qed.

Lemma sim_set now s M k rf exp d :
  simulates now s M -> simulates now (setRef s k rf exp d) (<[k := (rf, exp, d)]> M).
Proof.
  intros [W R V]. split.
  - by apply setRef_wf.
  - intros k' r. rewrite setRef_map, jget_set. case_decide; subst.
    + intros [= <-]. by rewrite lookup_insert_eq.
    + rewrite lookup_insert_ne by done. apply R.
  - intros now' k' Hle. unfold t_get, view. rewrite setRef_map, jget_set. case_decide; subst.
    + rewrite lookup_insert_eq. set (r := StoreRecord _ _ _ _).
      change (rf, exp, d) with (untimed r). rewrite t_live_untimed. by destruct (expired r now').
    + rewrite lookup_insert_ne by done. by apply V.
Qed.

Lemma sim_del now s M k : simulates now s M -> simulates now (remove s k).2 (delete k M).
Proof.
  intros [W R V]. split.
  - by apply remove_wf.
  - intros k' r. rewrite remove_map, jget_del by apply W. case_decide; [done|].
    rewrite lookup_delete_ne by done. apply R.
  - intros now' k' Hle. unfold t_get, view. rewrite remove_map, jget_del by apply W. case_decide; subst.
    + by rewrite lookup_delete_eq.
    + rewrite lookup_delete_ne by done. by apply V.
Qed.

Lemma view_some now s M k : simulates now s M -> is_Some (t_get M now k) <-> alive s now k = true.
Proof.
  intros [W R V]. rewrite V by lia. unfold alive. rewrite fmap_is_Some.
  destruct (view s now k); cbn; split; (by intros [? [=]]) || (by eauto).
Qed.

(** ** Keys in range *)

Lemma filter_fmap_fst (p : jsstr -> bool) (l : list (jsstr * jsstr)) :
  (List.filter (fun e => p e.1) l).*1 = List.filter p l.*1.
Proof. induction l as [|e l IH]; cbn; [done|]. destruct (p e.1); cbn; by rewrite IH. Qed.

Lemma keys_sorted l :
  sorted cmpString cmpString l -> (forall e, e ∈ l -> e.1 = e.2) ->
  StronglySorted (fun a b => cmpString a b < 0) l.*1.
Proof.
  induction 1 as [|e l Hs IH Hf]; intros Hd; cbn; [constructor|].
  constructor; [apply IH; intros e' He'; apply Hd; by right|].
  rewrite Forall_fmap. rewrite Forall_forall in *. intros e' He'. cbn.
  pose proof (Hd e ltac:(by left)) as E1. pose proof (Hd e' ltac:(by right)) as E2.
  specialize (Hf e' He'). unfold ent_lt, ent_less in Hf.
  rewrite <- E1, <- E2, orb_true_iff, andb_true_iff, !Z.ltb_lt in Hf. tauto.
Qed.

(** The keys a range scan visits. *)
Lemma range_keys s o :
  store_wf s -> single_start_bound o -> offset o = 0 -> count o = None ->
  let ks := (oi_range (order s) o).*1 in
  StronglySorted (fun a b => if reverse o then cmpString b a < 0 else cmpString a b < 0) ks /\
  (forall k, k ∈ ks <-> is_Some (jget (map s) k) /\ in_bounds cmpString o k = true).
Proof.
  intros Hs Ho Hoff Hcnt. destruct (wf_order s Hs) as (l & Hl & Hp). cbv zeta.
  pose proof (oi_repr_sorted _ _ Hl) as Hsl.
  rewrite (oi_range_spec _ _ o Hl), (range_list_spec cmpString cmpString) by done.
  unfold range_spec. rewrite Hoff, Hcnt. cbn [take_opt Z.to_nat]. rewrite drop_0.
  assert (Hd : forall e, e ∈ l -> e.1 = e.2).
  { intros e. rewrite Hp, list_elem_of_fmap. by intros (k' & -> & _). }
  assert (Hks : StronglySorted (fun a b => cmpString a b < 0)
                  (List.filter (fun e => in_bounds cmpString o e.1) l).*1).
  { rewrite filter_fmap_fst. by apply SS_filter, keys_sorted. }
  assert (Hin : forall k, k ∈ (List.filter (fun e => in_bounds cmpString o e.1) l).*1 <->
                 is_Some (jget (map s) k) /\ in_bounds cmpString o k = true).
  { intros k. rewrite filter_fmap_fst, list_elem_of_In, List.filter_In, <- list_elem_of_In.
    rewrite <- (order_mem l (map s)) by done. rewrite list_elem_of_fmap. split.
    - intros [([k1 k2] & -> & He) Hb]. split; [|done]. by rewrite (Hd _ He : k1 = k2) in He |- *.
    - intros [Hk Hb]. split; [|done]. by exists (k, k). }
  destruct (reverse o); [|done].
  change (fmap fst) with (List.map (@fst jsstr jsstr)) in *. rewrite List.map_rev. split; [by apply SS_rev|].
  intros k. rewrite <- Hin, !list_elem_of_In. symmetry. apply List.in_rev.
Qed.

Lemma live_count now s M :
  simulates now s M ->
  base.size (filter (fun e => t_live now e.2) M) =
  length (List.filter (fun e => negb (expired e.2 now)) (map s)).
Proof.
  intros [W R V].
  set (l := (fun e => (e.1, untimed e.2)) <$> List.filter (fun e => negb (expired e.2 now)) (map s)).
  assert (Hl : NoDup l.*1).
  { unfold l. rewrite <- list_fmap_compose.
    change (NoDup (fst <$> List.filter (fun e => negb (expired e.2 now)) (map s))).
    eapply sublist_NoDup; [exact (wf_map s W)|]. unfold jkeys. clear.
    induction (map s) as [|e m IH]; cbn; [constructor|].
    destruct (negb (expired e.2 now)); cbn; by constructor. }
  assert (HM : filter (fun e => t_live now e.2) M = list_to_map l).
  { apply map_eq. intros k. apply option_eq. intros v.
    rewrite map_lookup_filter_Some, <- elem_of_list_to_map by done. unfold l.
    rewrite list_elem_of_fmap. specialize (V now k ltac:(lia)). unfold t_get, view in V. cbn. split.
    - intros [Hk Hlv]. rewrite Hk in V. rewrite (Is_true_true_1 _ Hlv) in V.
      destruct (jget (map s) k) as [r|] eqn:E; [|done]. destruct (expired r now) eqn:Ex; [done|].
      injection V as ->. exists (k, r). split; [done|]. apply list_elem_of_In, List.filter_In.
      split; [apply list_elem_of_In; by apply jget_Some_in|]. cbn. by rewrite Ex.
    - intros ([k' r] & [= <- ->] & Hin). apply list_elem_of_In, List.filter_In in Hin as [Hin Hex].
      apply list_elem_of_In, (jget_in _ _ _ (wf_map s W)) in Hin. cbn in Hex.
      split; [by apply R|]. rewrite t_live_untimed. by apply Is_true_true. }
  rewrite HM, map_size_list_to_map by done. unfold l. by rewrite length_fmap.
Qed.

(** ** The refinement *)

Lemma exec_simulates now c s M :
  simulates now s M ->
  allowed now c M (exec now c s).1 /\ simulates now (exec now c s).2 (next c M).
Proof.
  intros Hsim. pose proof (sim_wf _ _ _ Hsim) as Hs.
  pose proof (fun k => sim_view _ _ _ Hsim now k ltac:(lia)) as Hv.
  destruct c; cbn [exec allowed next].
  - split; [done|by apply sim_set].
  - pose proof (sim_del now s M k Hsim) as Hd. pose proof (remove_ok s k) as Hok.
    unfold del. destruct (remove s k) as [b s']. cbn in *. split; [|done]. rewrite Hv. subst b. split.
    + rewrite fmap_is_Some. unfold view, jhas. intros [r Hr]. by destruct (jget (map s) k).
    + unfold jhas. destruct (jget (map s) k) as [r|] eqn:E; [|done].
      rewrite (sim_rec _ _ _ Hsim k r E). done.
  - rewrite get_getRecord. cbn [fst snd]. split.
    + rewrite getRecord_out, Hv. unfold view. by destruct (jget (map s) k) as [r|]; [destruct (expired r now)|].
    + by eapply sim_reaps, getRecord_reaps.
  - pose proof (getRecord_reaps s now k Hs) as Hr. pose proof (getRecord_out s now k) as Ho.
    destruct (getRecord s now k) as [[r s'] ev]. cbn in *. split; [|by eapply sim_reaps].
    rewrite Hv. unfold view. by rewrite Ho.
  - rewrite has_getRecord. cbn [fst snd]. split; [|by eapply sim_reaps, getRecord_reaps].
    rewrite (view_some now s M k Hsim), getRecord_out. unfold alive, view.
    by destruct (jget (map s) k) as [r|]; [destruct (expired r now)|].
  - split; [|done]. by rewrite size_spec, (live_count now s M).
  - pose proof (rawKeys_loop_spec now (fun _ => now) 0 (oi_range (order s) o) s Hs (fun _ => eq_refl)) as H.
    unfold rawKeys. destruct (rawKeys_loop _ _ _ _) as [[ks s'] ev]. destruct H as [Hr Hks].
    cbn. split; [|by eapply sim_reaps]. intros H1 H2 H3.
    destruct (range_keys s o Hs H1 H2 H3) as [Hss Hin]. cbv zeta in *. subst ks.
    split; [by apply SS_filter|]. intros k. rewrite (view_some now s M k Hsim).
    rewrite list_elem_of_In, List.filter_In, <- list_elem_of_In, Hin.
    split; [tauto|]. intros [Ha Hb]. split; [|done]. split; [|done].
    unfold alive, view in Ha. destruct (jget (map s) k); [eauto|done].
  - pose proof (reapExpired_spec s now Hs) as H. destruct (reapExpired s now) as [[s' n] ev].
    destruct H as (Hr & -> & _). cbn. split; [lia|by eapply sim_reaps].
  - split; [destruct (activeExpire _ _); done|]. unfold activeExpire. cbn [Nat.add].
    set (clock := fun i : nat => _).
    pose proof (activeExpire_loop_spec (length (heap s)) clock now
      (now + (if expireAggressive s then expireTimeBudgetMs `max` 10 else expireTimeBudgetMs)) 0 0 s
      Hs ltac:(lia)) as H.
    change (clock 0%nat) with now.
    destruct (activeExpire_loop _ _ _ _ _ _ _) as [[s' n] ev]. destruct H as [Hr _].
    apply (sim_reaps _ _ _ _ _ Hsim) in Hr as [W R V]. split; [by apply with_aggressive_wf|exact R|exact V].
Qed.

(** A run of timed calls. *)
Fixpoint run (calls : list (Z * op)) (s : store) : list out * store :=
  match calls with
  | [] => ([], s)
  | (now, c) :: calls' =>
      let (o, s1) := exec now c s in
      let (os, s2) := run calls' s1 in (o :: os, s2)
  end.

Inductive run_allowed : list (Z * op) -> tmap -> list out -> Prop :=
| run_allowed_nil M : run_allowed [] M []
| run_allowed_cons now c calls M o os :
    allowed now c M o -> run_allowed calls (next c M) os ->
    run_allowed ((now, c) :: calls) M (o :: os).

Lemma run_refines_from now0 calls s M :
  simulates now0 s M -> StronglySorted Z.le (now0 :: calls.*1) ->
  run_allowed calls M (run calls s).1.
Proof.
  revert now0 s M. induction calls as [|[now c] calls IH]; intros now0 s M Hsim Hso; cbn [run].
  { constructor. }
  apply StronglySorted_inv in Hso as [Hso Hf]. cbn in Hso, Hf. apply Forall_cons in Hf as [Hle _].
  destruct (exec_simulates now c s M (sim_mono _ _ _ _ Hle Hsim)) as [Ha Hn].
  specialize (IH now (exec now c s).2 (next c M) Hn Hso).
  destruct (exec now c s) as [o s1]. cbn in *. destruct (run calls s1) as [os s2]. by constructor.
Qed.

Lemma empty_simulates now : simulates now empty_store ∅.
Proof. split; [apply empty_store_wf|done|]. intros. unfold t_get. by rewrite lookup_empty. Qed.

Lemma exec_wf now c s : store_wf s -> store_wf (exec now c s).2.
Proof.
  intros Hs. set (M := list_to_map ((fun e => (e.1, untimed e.2)) <$> map s) : tmap).
  assert (HM : forall k, M !! k = untimed <$> jget (map s) k).
  { unfold M. clear. intros k. induction (map s) as [|[k' r] m IH]; cbn; [apply lookup_empty|].
    case_decide; subst; [by rewrite lookup_insert_eq|by rewrite lookup_insert_ne]. }
  apply (exec_simulates now c s M). split; [done|..].
  - intros k r Hk. by rewrite HM, Hk.
  - intros now' k _. unfold t_get, view. rewrite HM. destruct (jget (map s) k) as [r|]; [|done].
    cbn. rewrite t_live_untimed. by destruct (expired r now').
Qed.

Lemma run_wf calls s : store_wf s -> store_wf (run calls s).2.
Proof.
  revert s. induction calls as [|[now c] calls IH]; intros s Hs; cbn [run]; [done|].
  pose proof (exec_wf now c s Hs) as Hw. destruct (exec now c s) as [o s1]. cbn in Hw.
  specialize (IH s1 Hw). by destruct (run calls s1).
Qed.

(** C15. The store refines a timed map: for every sequence of calls at non-decreasing
    times, starting from the empty store, each call's output is one the timed map
    allows. In particular GET, HAS and SIZE never show an expired record and never
    lose a live one, and an unlimited key scan returns exactly the live keys in its
    bounds, in order. *)
Theorem store_refines_timed_map calls :
  StronglySorted Z.le calls.*1 -> run_allowed calls ∅ (run calls empty_store).1.
Proof.
  intros Hso. destruct calls as [|[now c] calls]; [constructor|].
  apply (run_refines_from now); [apply empty_simulates|].
  constructor; [done|]. apply StronglySorted_inv in Hso as [_ Hf]. by constructor.
Qed.

(** Whatever calls are made, the store stays well formed: the byte counter is
    the sum of the records' sizes, the TTL counter counts the records with an
    expiry, the ordered index holds exactly the keys, and every record with an
    expiry has its entry in a well-formed heap. *)
Theorem store_invariant calls : store_wf (run calls empty_store).2.
Proof. apply run_wf, empty_store_wf. Qed.

(** An expiration tick removes only records expired at its start, reports each
    once, and, when the clock stays before the tick's deadline, leaves no expired
    record behind. *)
Theorem activeExpire_drains s (clock : nat -> Z) :
  store_wf s ->
  let '(s', ev) := activeExpire s clock in
  store_wf s' /\ NoDup ev.*1 /\
  (forall k r, (k, r) ∈ ev -> jget (map s) k = Some r /\ expired r (clock O) = true) /\
  (forall k, k ∉ ev.*1 -> jget (map s') k = jget (map s) k) /\
  ((forall n, clock (S n) < clock O + expireTimeBudgetMs) ->
   forall k r, jget (map s') k = Some r -> expired r (clock O) = false).
Proof.
  intros Hs. unfold activeExpire. set (dl := clock 0%nat + _).
  pose proof (activeExpire_loop_spec (length (heap s)) clock (clock O) dl 0 0 s Hs ltac:(lia)) as H.
  destruct (activeExpire_loop _ _ _ _ _ _ _) as [[s' n] ev]. destruct H as [[W E N R] Hdone]. cbn.
  split_and!; [by apply with_aggressive_wf|done| |done|].
  - intros k r Hin. destruct (E k r Hin) as (? & ? & _). done.
  - intros Hc. apply Hdone. intros m _. specialize (Hc m).
    replace (dl <=? clock (S m)) with false; [apply andb_false_r|].
    symmetry. apply Z.leb_gt. unfold dl. case_match; lia.
Qed.

(** ** Prefix scans *)

Lemma str_prefix_bounds (p k : jsstr) :
  Forall (fun u => (u < 65535)%N) k ->
  (cmpString k p < 0 \/ 0 <= cmpString k (p ++ [65535%N])) <-> ~ p `prefix_of` k.
Proof.
  unfold cmpString. revert k. induction p as [|x p IH]; intros k Hk; cbn [app].
  - destruct k as [|u k]; cbn.
    + split; [lia|]. intros []. by exists [].
    + apply Forall_cons in Hk as [Hu _]. rewrite (proj2 (N.compare_lt_iff u 65535) Hu).
      split; [lia|]. intros []. by exists (u :: k).
  - destruct k as [|u k]; cbn.
    + split; [|by left]. intros _ [z Hz]. done.
    + apply Forall_cons in Hk as [_ Hk]. destruct (N.compare_spec u x) as [->| |].
      * rewrite IH by done. split; intros H; contradict H.
        -- by apply prefix_cons_inv_2 in H.
        -- by apply prefix_cons.
      * split; [|by left]. intros _ [z [= -> _]]. lia.
      * split; [|by right]. intros _ [z [= -> _]]. lia.
Qed.

(** The bounds of a prefix scan select the keys with the prefix, for keys without
    the code unit 0xFFFF (a key made from bytes has none above 0xFF). *)
Lemma prefix_opts_spec p limit k :
  Forall (fun u => (u < 65535)%N) k ->
  in_bounds cmpString (prefix_opts p limit) k = true <-> p `prefix_of` k.
Proof.
  intros Hk. pose proof (str_prefix_bounds p k Hk) as Hb.
  unfold in_bounds, stop_fwd, stop_rev, prefix_opts. cbn.
  rewrite orb_false_r, andb_true_iff, !negb_true_iff, Z.leb_gt, Z.ltb_ge.
  destruct (decide (p `prefix_of` k)) as [Hp|Hp]; split; try done; intros H; [|apply Hb in Hp; lia].
  destruct (decide (cmpString k p < 0)), (decide (0 <= cmpString k (p ++ [65535%N]))); tauto || lia.
Qed.

Lemma range_prefix_opts p limit : single_start_bound (prefix_opts p limit).
Proof. right. done. Qed.

(** An unlimited prefix scan, when every live value can be read, yields one
    entry per live key with that prefix, in ascending key order, and reaps only
    expired records. *)
Theorem prefix_scan_exact s now p :
  store_wf s -> Forall (fun k => Forall (fun u => (u < 65535)%N) k) (jkeys (map s)) ->
  (forall k r, jget (map s) k = Some r -> exists b, materialize (ref r) = Ok b) ->
  let '(es, err, s', ev) := prefix s (fun _ => now) p None in
  err = None /\ reaps now s s' ev /\
  exists ks, StronglySorted (fun a b => cmpString a b < 0) ks /\
    (forall k, k ∈ ks <-> is_Some (view s now k) /\ p `prefix_of` k) /\
    Forall2 (fun k e => exists r b, view s now k = Some r /\ materialize (ref r) = Ok b /\
               e = entry_of k r b) ks es.
Proof.
  intros Hs Hu Hval. unfold prefix, scan.
  set (o := prefix_opts p None).
  pose proof (kv_scan_loop_spec now (fun _ => now) 0 (oi_range (order s) o) s Hs (fun _ => eq_refl)) as H.
  destruct (scan_loop _ _ _ _) as [[[es err] s'] ev]. destruct H as [Hr Hes].
  destruct (range_keys s o Hs (range_prefix_opts p None) eq_refl eq_refl) as [Hss Hin]. cbv zeta in *.
  set (ks := (oi_range (order s) o).*1) in *. cbn [reverse o prefix_opts] in Hss.
  assert (Hlive : forall ks, exists es, live_entries s now ks = (es, None) /\
    Forall2 (fun k e => exists r b, view s now k = Some r /\ materialize (ref r) = Ok b /\
               e = entry_of k r b) (List.filter (alive s now) ks) es).
  { clear -Hval. induction ks as [|k ks (es & IH1 & IH2)]; cbn [live_entries List.filter].
    { exists []. split; [done|constructor]. }
    unfold alive at 1. destruct (view s now k) as [r|] eqn:Hv; [|by exists es].
    assert (Hk : jget (map s) k = Some r) by (unfold view in Hv; repeat case_match; congruence).
    destruct (Hval k r Hk) as [b Hb]. rewrite Hb, IH1. eexists. split; [done|].
    constructor; [|done]. by exists r, b. }
  destruct (Hlive ks) as (es' & H1 & H2). rewrite H1 in Hes. injection Hes as -> ->.
  split; [done|]. split; [done|]. exists (List.filter (alive s now) ks).
  split_and!; [by apply SS_filter| |done].
  intros k. rewrite list_elem_of_In, List.filter_In, <- list_elem_of_In, Hin.
  assert (Ha : alive s now k = true <-> is_Some (view s now k)).
  { unfold alive. destruct (view s now k); split; first [by intros [? [=]]|by eauto]. }
  rewrite Ha. split.
  - intros [[[r Hk] Hb] Hv]. split; [done|]. apply (prefix_opts_spec p None); [|done].
    rewrite Forall_forall in Hu. apply Hu. apply jget_Some_in in Hk.
    apply list_elem_of_fmap. by exists (k, r).
  - intros [Hv Hp]. split; [|done].
    assert (Hk : is_Some (jget (map s) k)).
    { destruct Hv as [r Hv]. unfold view in Hv. destruct (jget (map s) k); eauto. }
    split; [done|]. apply prefix_opts_spec; [|done].
    rewrite Forall_forall in Hu. apply Hu. destruct Hk as [r Hk]. apply jget_Some_in in Hk.
    apply list_elem_of_fmap. by exists (k, r).
Qed.
End store.

(** * Concrete runs, on the reference index *)

#[local] Instance str_index : OrderedIndex jsstr jsstr (list (jsstr * jsstr)) :=
  list_index cmpString cmpString.
#[local] Instance str_index_laws : OrderedIndexLaws (H := str_index) cmpString cmpString :=
  list_index_laws cmpString cmpString.

Abbreviation list_store := (store (T := list (jsstr * jsstr))).

Definition sample_calls : list (Z * op) :=
  [(10, OpSet [97]%N (Memory [x01]) 30 None); (11, OpSet [98]%N (Memory [x02]) 0 None);
   (20, OpHas [97]%N); (20, OpRawKeys all_range); (30, OpSize); (31, OpGet [97]%N);
   (32, OpRawKeys all_range)].

Example sample_run :
  (run (T := list (jsstr * jsstr)) None 100 2 sample_calls empty_store).1 =
  [OutUnit; OutUnit; OutBool true; OutKeys [[97]; [98]]%N; OutNumber 1; OutValue (Ok None);
   OutKeys [[98]]%N].
Proof. vm_compute. reflexivity. Qed.

Lemma store_refines_timed_map_witness :
  StronglySorted Z.le sample_calls.*1 /\
  run_allowed None sample_calls ∅
    (run (T := list (jsstr * jsstr)) None 100 2 sample_calls empty_store).1.
Proof.
  assert (H : StronglySorted Z.le sample_calls.*1).
  { unfold sample_calls. cbn. repeat constructor; lia. }
  split; [exact H|]. exact (store_refines_timed_map None 100 2 sample_calls H).
Defined.

Definition sample_store : list_store :=
  (run None 100 2 [(10, OpSet [97; 98]%N (Memory [x01]) 30 None); (11, OpSet [97; 99]%N (Memory [x02]) 0 None);
                   (12, OpSet [98]%N (Memory [x03]) 0 None)] empty_store).2.

Lemma sample_store_wf : store_wf sample_store.
Proof. apply run_wf, empty_store_wf. Qed.

Lemma activeExpire_drains_witness :
  let '(s', ev) := activeExpire 100 2 sample_store (fun _ => 40) in
  jkeys (map s') = [[97; 99]; [98]]%N /\ ev.*1 = [[97; 98]%N] /\ store_wf s' /\
  (forall k r, jget (map s') k = Some r -> expired r 40 = false).
Proof.
  pose proof (activeExpire_drains 100 2 sample_store (fun _ => 40) sample_store_wf) as H.
  assert (Hk : jkeys (map (activeExpire 100 2 sample_store (fun _ => 40)).1) = [[97; 99]; [98]]%N)
    by (vm_compute; reflexivity).
  assert (He : (activeExpire 100 2 sample_store (fun _ => 40)).2.*1 = [[97; 98]%N])
    by (vm_compute; reflexivity).
  destruct (activeExpire 100 2 sample_store (fun _ => 40)) as [s' ev].
  destruct H as (Hw & _ & _ & _ & Hd). split; [exact Hk|]. split; [exact He|]. split; [exact Hw|].
  apply Hd. intros n. vm_compute. reflexivity.
Defined.

Lemma prefix_scan_exact_witness :
  let '(es, err, s', ev) := prefix None sample_store (fun _ => 20) [97]%N None in
  err = None /\ reaps 20 sample_store s' ev /\
  exists ks, StronglySorted (fun a b => cmpString a b < 0) ks /\
    (forall k, k ∈ ks <-> is_Some (view sample_store 20 k) /\ [97]%N `prefix_of` k) /\
    Forall2 (fun k e => exists r b, view sample_store 20 k = Some r /\
               materialize None (ref r) = Ok b /\ e = entry_of k r b) ks es.
Proof.
  apply (prefix_scan_exact None sample_store 20 [97]%N sample_store_wf).
  - assert (Hk : jkeys (map sample_store) = [[97; 98]; [97; 99]; [98]]%N) by (vm_compute; reflexivity).
    rewrite Hk. by repeat constructor.
  - intros k r Hk. apply jget_Some_in in Hk.
    assert (Hm : Forall (fun e => exists b, materialize None (ref e.2) = Ok b) (map sample_store)).
    { cbn. repeat constructor; cbn; by eexists. }
    rewrite Forall_forall in Hm. exact (Hm _ Hk).
Defined.
