(* ===== verification/DtIndex.v ===== *)
(** Ordered indexes over datetime columns ([packages/minidb/src/dt-index.ts]). A
    column keeps a list ordered by time and key, and the time of each key; a
    column without keys is dropped. The invariant [inv] says the columns hold
    exactly the current assignments; every operation keeps it. *)

From S2P Require Import Prelude JsMap Ordered Store.

Section dt_index.
Context {T : Type} `{!OrderedIndex Z jsstr T} `{!OrderedIndexLaws cmpNumber cmpString}.

Record dt_column := DtColumn {
  dc_list : T;
  dc_byKey : list (jsstr * Z);
}.

Record dt_index := DtIndex {
  cols : list (jsstr * dt_column);
  byKey : list (jsstr * dt_map);
}.

Definition empty_dt_index : dt_index := DtIndex [] [].

(** [this.col(name)]: the column, created when missing. *)
Definition col (cs : list (jsstr * dt_column)) (name : jsstr) : dt_column :=
  match jget cs name with Some c => c | None => DtColumn oi_empty [] end.

(** Take [key] out of column [name]; a column left empty is deleted. *)
Definition drop_from (key : jsstr) (cs : list (jsstr * dt_column)) (name : jsstr) (ms : Z)
    : list (jsstr * dt_column) :=
  match jget cs name with
  | None => cs
  | Some c =>
      let c' := DtColumn (oi_delete (dc_list c) ms key).1 (jdel (dc_byKey c) key) in
      if decide (dc_byKey c' = []) then jdel cs name else jset cs name c'
  end.

Definition put_into (key : jsstr) (cs : list (jsstr * dt_column)) (name : jsstr) (ms : Z)
    : list (jsstr * dt_column) :=
  let c := col cs name in
  jset cs name (DtColumn (oi_insert (dc_list c) ms key) (jset (dc_byKey c) key ms)).

Definition set (d : dt_index) (key : jsstr) (dt : option dt_map) : dt_index :=
  let old := default [] (jget (byKey d) key) in
  let next := default [] dt in
  let cs1 := fold_left (fun cs '(name, ms) =>
               if decide (jget next name = Some ms) then cs else drop_from key cs name ms)
               old (cols d) in
  let cs2 := fold_left (fun cs '(name, ms) =>
               if decide (jget old name = Some ms) then cs else put_into key cs name ms)
               next cs1 in
  DtIndex cs2 (if decide (next = []) then jdel (byKey d) key else jset (byKey d) key next).

Definition del (d : dt_index) (key : jsstr) : dt_index :=
  match jget (byKey d) key with
  | None => d
  | Some old =>
      DtIndex (fold_left (fun cs '(name, ms) => drop_from key cs name ms) old (cols d))
        (jdel (byKey d) key)
  end.

Definition range (d : dt_index) (name : jsstr) (o : range_opts Z) : list (jsstr * Z) :=
  match jget (cols d) name with
  | None => []
  | Some c => (fun '(ms, key) => (key, ms)) <$> oi_range (dc_list c) o
  end.

Definition columns (d : dt_index) : list jsstr := jkeys (cols d).

Definition rebuild (entries : list (jsstr * option dt_map)) : dt_index :=
  fold_left (fun d '(key, dt) => match dt with Some _ => set d key dt | None => d end)
    entries empty_dt_index.

(** * Invariant *)

(** The time of [key] in column [name]. *)
Definition dt_at (d : dt_index) (key name : jsstr) : option Z :=
  m ← jget (byKey d) key; jget m name.

Definition time_in (cs : list (jsstr * dt_column)) (name key : jsstr) : option Z :=
  c ← jget cs name; jget (dc_byKey c) key.

Arguments time_in : simpl never.
Arguments dt_at : simpl never.

Definition col_ok (c : dt_column) : Prop :=
  jwf (dc_byKey c) /\ dc_byKey c <> [] /\
  exists l, oi_repr (dc_list c) l /\ forall ms key, (ms, key) ∈ l <-> jget (dc_byKey c) key = Some ms.

Definition cols_ok (cs : list (jsstr * dt_column)) : Prop :=
  jwf cs /\ forall name c, jget cs name = Some c -> col_ok c.

Definition inv (d : dt_index) : Prop :=
  cols_ok (cols d) /\ jwf (byKey d) /\
  (forall key m, jget (byKey d) key = Some m -> jwf m /\ m <> []) /\
  (forall key name, time_in (cols d) name key = dt_at d key name).

(** * Columns *)

Lemma drop_from_spec key cs name ms :
  cols_ok cs -> time_in cs name key = Some ms ->
  cols_ok (drop_from key cs name ms) /\
  forall name' key', time_in (drop_from key cs name ms) name' key' =
    if decide (name' = name /\ key' = key) then None else time_in cs name' key'.
Proof.
  intros [Hwf Hc] Ht. unfold time_in in Ht.
  destruct (jget cs name) as [c|] eqn:Ec; [|done]. cbn in Ht.
  destruct (Hc _ _ Ec) as (Hk & Hne & l & Hl & Hin).
  unfold drop_from. rewrite Ec. cbn [dc_byKey dc_list].
  assert (Hother : forall name' key', (c' ← jget cs name'; jget (dc_byKey c') key') =
    time_in cs name' key') by done.
  destruct (decide (jdel (dc_byKey c) key = [])) as [E|E].
  - split.
    + split; [by apply jwf_del|]. intros name' c'. rewrite jget_del by done. case_decide; [done|]. by apply Hc.
    + intros name' key'. unfold time_in. rewrite jget_del by done.
      destruct (decide (name = name')) as [<-|Hn]; cbn.
      * rewrite Ec. cbn. destruct (decide (name = name /\ key' = key)) as [_|Hk']; [done|].
        rewrite <- (jget_del_ne (dc_byKey c) key) by naive_solver. by rewrite E.
      * by rewrite decide_False by naive_solver.
  - split.
    + split; [by apply jwf_set|]. intros name' c'. rewrite jget_set.
      destruct (decide (name = name')); [intros [= <-]|by apply Hc].
      split; [by apply jwf_del|]. split; [done|].
      exists (sorted_delete cmpNumber cmpString (ms, key) l). split; [by apply oi_delete_spec|].
      intros ms' key'. cbn [dc_byKey]. rewrite jget_del by done.
      assert (Hms : (ms, key) ∈ l) by by apply Hin.
      pose proof (sorted_delete_perm cmpNumber cmpString (ms, key) l (oi_repr_sorted _ _ Hl) Hms) as Hp.
      pose proof (sorted_NoDup cmpNumber cmpString l (oi_repr_sorted _ _ Hl)) as Hnd.
      rewrite <- Hp in Hnd. apply NoDup_cons in Hnd as [Hnin _].
      specialize (Hin ms' key'). rewrite <- Hp, elem_of_cons in Hin.
      destruct (decide (key = key')) as [<-|Hne'].
      * split; [|done]. intros Hd. destruct (decide (ms' = ms)) as [->|]; [done|].
        apply (or_intror (A := (ms', key) = (ms, key))), Hin in Hd. congruence.
      * rewrite <- Hin. split; [by right|]. intros [[= _ ?]|?]; congruence.
    + intros name' key'. unfold time_in. rewrite jget_set.
      destruct (decide (name = name')) as [<-|Hn]; cbn.
      * rewrite Ec. cbn. rewrite jget_del by done. do 2 case_decide; naive_solver.
      * by rewrite decide_False by naive_solver.
Qed.

Lemma put_into_spec key cs name ms :
  cols_ok cs -> time_in cs name key = None ->
  cols_ok (put_into key cs name ms) /\
  forall name' key', time_in (put_into key cs name ms) name' key' =
    if decide (name' = name /\ key' = key) then Some ms else time_in cs name' key'.
Proof.
  intros [Hwf Hc] Ht. unfold put_into.
  assert (exists l, jwf (dc_byKey (col cs name)) /\ oi_repr (dc_list (col cs name)) l /\
    (forall ms' key', (ms', key') ∈ l <-> jget (dc_byKey (col cs name)) key' = Some ms') /\
    forall key', jget (dc_byKey (col cs name)) key' = time_in cs name key') as (l & Hk & Hl & Hin & Htm).
  { unfold col, time_in. destruct (jget cs name) as [c|] eqn:Ec; cbn.
    - destruct (Hc _ _ Ec) as (Hk & _ & l & Hl & Hin). by exists l.
    - exists []. split; [constructor|]. split; [apply oi_repr_empty|]. split; [|done].
      intros ? ?. cbn. split; [by intros ?%elem_of_nil|done]. }
  split.
  - split; [by apply jwf_set|]. intros name' c'. rewrite jget_set.
    destruct (decide (name = name')); [intros [= <-]|by apply Hc].
    split; [by apply jwf_set|]. cbn [dc_byKey dc_list]. split.
    { intros E. by pose proof (jget_set_eq (dc_byKey (col cs name)) key ms) as X; rewrite E in X. }
    exists (sorted_insert cmpNumber cmpString (ms, key) l). split.
    { apply oi_insert_spec; [done|]. rewrite Hin, Htm. congruence. }
    intros ms' key'. rewrite sorted_insert_perm, elem_of_cons, jget_set, Hin.
    destruct (decide (key = key')) as [<-|Hne]; [|naive_solver].
    rewrite Htm, Ht. naive_solver.
  - intros name' key'. unfold time_in at 1. rewrite jget_set.
    destruct (decide (name = name')) as [<-|Hn]; cbn [dc_byKey mbind option_bind].
    + rewrite jget_set, Htm. do 2 case_decide; naive_solver.
    + by rewrite decide_False by naive_solver.
Qed.

Lemma fold_drop_spec key m cs :
  jwf m -> cols_ok cs -> (forall name ms, jget m name = Some ms -> time_in cs name key = Some ms) ->
  let cs' := fold_left (fun cs '(name, ms) => drop_from key cs name ms) m cs in
  cols_ok cs' /\
  forall name' key', time_in cs' name' key' =
    if decide (key' = key /\ is_Some (jget m name')) then None else time_in cs name' key'.
Proof.
  revert cs. induction m as [|[name ms] m IH]; intros cs Hm Hc Hin; cbn.
  { split; [done|]. intros name' key'. rewrite decide_False; [done|]. by intros [_ [? ?]]. }
  assert (Hn : jget m name = None). { apply jget_None. by apply NoDup_cons in Hm as [? _]. }
  apply NoDup_cons in Hm as [_ Hm].
  assert (Hself : time_in cs name key = Some ms). { apply Hin. cbn. by rewrite decide_True. }
  destruct (drop_from_spec key cs name ms Hc Hself) as [Hc' Ht].
  destruct (IH (drop_from key cs name ms) Hm Hc') as [Hc2 Ht2].
  { intros name' ms' Hin'. rewrite Ht, decide_False by (intros [-> _]; congruence).
    apply Hin. cbn. rewrite decide_False by congruence. done. }
  split; [done|]. intros name' key'. rewrite Ht2, Ht.
  clear -Hn.
  destruct (decide (name = name')) as [<-|Hne]; [rewrite Hn|]; repeat case_decide; naive_solver.
Qed.

Lemma fold_put_spec key m cs :
  jwf m -> cols_ok cs -> (forall name ms, jget m name = Some ms -> time_in cs name key = None) ->
  let cs' := fold_left (fun cs '(name, ms) => put_into key cs name ms) m cs in
  cols_ok cs' /\
  forall name' key', time_in cs' name' key' =
    if decide (key' = key /\ is_Some (jget m name')) then jget m name' else time_in cs name' key'.
Proof.
  revert cs. induction m as [|[name ms] m IH]; intros cs Hm Hc Hin; cbn.
  { split; [done|]. intros name' key'. rewrite decide_False; [done|]. by intros [_ [? ?]]. }
  assert (Hn : jget m name = None). { apply jget_None. by apply NoDup_cons in Hm as [? _]. }
  apply NoDup_cons in Hm as [_ Hm].
  destruct (put_into_spec key cs name ms Hc) as [Hc' Ht]; [apply (Hin _ ms); cbn; by rewrite decide_True|].
  destruct (IH (put_into key cs name ms) Hm Hc') as [Hc2 Ht2].
  { intros name' ms' Hin'. rewrite Ht, decide_False by (intros [-> _]; congruence).
    apply (Hin _ ms'). cbn. rewrite decide_False by congruence. done. }
  split; [done|]. intros name' key'. rewrite Ht2, Ht.
  clear -Hn.
  destruct (decide (name = name')) as [<-|Hne]; [rewrite Hn|]; repeat case_decide; naive_solver.
Qed.

(** * Operations *)

Definition dt_wf (dt : option dt_map) : Prop := jwf (default [] dt).

Lemma time_old d key name : inv d -> time_in (cols d) name key = jget (default [] (jget (byKey d) key)) name.
Proof. intros (_ & _ & _ & ->). unfold dt_at. by destruct (jget (byKey d) key). Qed.

Lemma set_spec d key dt :
  inv d -> dt_wf dt ->
  inv (set d key dt) /\
  forall key' name, dt_at (set d key dt) key' name =
    if decide (key' = key) then jget (default [] dt) name else dt_at d key' name.
Proof.
  intros Hi Hnext. pose proof (fun name => time_old d key name Hi) as Hold.
  destruct Hi as (Hc & Hk & Hm & Ht).
  assert (Hwo : jwf (default [] (jget (byKey d) key))).
  { destruct (jget (byKey d) key) eqn:E; [by apply (Hm key)|constructor]. }
  unfold dt_wf in Hnext. unfold set. set (old := default [] (jget (byKey d) key)) in *. set (next := default [] dt) in *.
  rewrite (fold_left_skip (fun p => jget next p.1 = Some p.2)
    (fun cs '(name, ms) => drop_from key cs name ms) _ old) by (intros ? []; reflexivity).
  rewrite (fold_left_skip (fun p => jget old p.1 = Some p.2)
    (fun cs '(name, ms) => put_into key cs name ms) _ next) by (intros ? []; reflexivity).
  edestruct (fold_drop_spec key (filter (fun p => ~ jget next p.1 = Some p.2) old) (cols d)) as [Hc1 Ht1];
    [by apply jwf_filter|done|..].
  { intros name ms. rewrite jget_filter, Hold by done. destruct (jget old name); [|done].
    cbn. case_decide; congruence. }
  set (cs1 := fold_left _ _ (cols d)) in *.
  edestruct (fold_put_spec key (filter (fun p => ~ jget old p.1 = Some p.2) next) cs1) as [Hc2 Ht2];
    [by apply jwf_filter|done|..].
  { intros name ms. rewrite jget_filter by done. destruct (jget next name) as [v|] eqn:En; [|done]. cbn.
    case_decide as Hv; [|done]. intros [= <-]. rewrite Ht1, jget_filter, Hold by done.
    destruct (jget old name) as [w|] eqn:Eo; cbn.
    - rewrite (decide_True (P := jget next name <> Some w)) by (cbn in Hv; congruence).
      rewrite decide_True by eauto. done.
    - case_decide; done. }
  set (cs2 := fold_left _ _ cs1) in *.
  assert (Hnew : forall key' name, time_in cs2 name key' =
    if decide (key' = key) then jget next name else time_in (cols d) name key').
  { intros key' name. rewrite Ht2, Ht1, !jget_filter by done.
    destruct (decide (key' = key)) as [->|Hk']; [|repeat case_decide; naive_solver].
    rewrite Hold. destruct (jget next name) as [v|] eqn:En, (jget old name) as [w|] eqn:Eo; cbn.
    all: rewrite ?En, ?Eo; repeat case_decide; naive_solver. }
  assert (Hat : forall key' name, dt_at (DtIndex cs2 (if decide (next = []) then jdel (byKey d) key
    else jset (byKey d) key next)) key' name =
    if decide (key' = key) then jget next name else dt_at d key' name).
  { intros key' name. unfold dt_at. cbn [byKey]. destruct (decide (next = [])) as [En|En].
    - rewrite jget_del by done. destruct (decide (key = key')) as [<-|Hne].
      + rewrite decide_True by done. rewrite En. done.
      + by rewrite decide_False by congruence.
    - rewrite jget_set. destruct (decide (key = key')) as [<-|Hne].
      + by rewrite decide_True by done.
      + by rewrite decide_False by congruence. }
  split; [|exact Hat]. split; [exact Hc2|]. split; [cbn [byKey]; case_decide; [by apply jwf_del|by apply jwf_set]|].
  split.
  - cbn [byKey]. intros key' m'. case_decide as En; [rewrite jget_del by done|rewrite jget_set];
      destruct (decide (key = key')); try apply Hm; [done|]. by intros [= <-].
  - intros key' name. cbn [cols]. rewrite Hat, Hnew.
    destruct (decide (key' = key)); [done|apply Ht].
Qed.

Lemma set_inv d key dt : inv d -> dt_wf dt -> inv (set d key dt).
Proof. intros ? ?. by apply set_spec. Qed.

Lemma del_spec d key :
  inv d ->
  inv (del d key) /\
  forall key' name, dt_at (del d key) key' name = if decide (key' = key) then None else dt_at d key' name.
Proof.
  intros Hi. pose proof (fun name => time_old d key name Hi) as Hold.
  destruct Hi as (Hc & Hk & Hm & Ht). unfold del.
  destruct (jget (byKey d) key) as [old|] eqn:E; cbn in Hold.
  2:{ split; [by split|]. intros key' name. case_decide; [subst; unfold dt_at; by rewrite E|done]. }
  destruct (Hm _ _ E) as [Hwo _].
  destruct (fold_drop_spec key old (cols d) Hwo Hc) as [Hc1 Ht1]; [intros; by rewrite Hold|].
  assert (Hat : forall key' name, dt_at (DtIndex (fold_left (fun cs '(name, ms) => drop_from key cs name ms) old (cols d))
    (jdel (byKey d) key)) key' name = if decide (key' = key) then None else dt_at d key' name).
  { intros key' name. unfold dt_at. cbn [byKey]. rewrite jget_del by done. repeat case_decide; naive_solver. }
  split; [|exact Hat]. split; [exact Hc1|]. split; [by apply jwf_del|]. split.
  - intros key' m'. cbn [byKey]. rewrite jget_del by done. case_decide; [done|]. apply Hm.
  - intros key' name. cbn [cols]. rewrite Hat, Ht1.
    destruct (decide (key' = key)) as [->|Hne]; [|rewrite decide_False by naive_solver; apply Ht].
    rewrite Hold. destruct (jget old name); by case_decide; naive_solver.
Qed.

Lemma empty_inv : inv empty_dt_index.
Proof. repeat split; try constructor; done. Qed.

(** The entries of a column, as the invariant determines them. *)
Lemma range_spec d name o :
  inv d ->
  exists l, sorted cmpNumber cmpString l /\ (forall ms key, (ms, key) ∈ l <-> dt_at d key name = Some ms) /\
    range d name o = (fun '(ms, key) => (key, ms)) <$> range_list cmpNumber o l.
Proof.
  intros ((Hwf & Hc) & _ & _ & Ht). unfold range.
  pose proof (fun key => Ht key name) as Htn. unfold time_in in Htn.
  destruct (jget (cols d) name) as [c|] eqn:E; cbn in Htn.
  - destruct (Hc _ _ E) as (_ & _ & l & Hl & Hin). exists l. split; [by eapply oi_repr_sorted|]. split.
    + intros ms key. by rewrite Hin, Htn.
    + by rewrite (oi_range_spec _ l).
  - exists []. split; [constructor|]. split.
    + intros ms key. rewrite <- Htn. split; [by intros ?%elem_of_nil|done].
    + unfold range_list, fwd_start, rev_start. destruct o as [[] [] [] [] ? ? []]; done.
Qed.

Lemma columns_spec d name : inv d -> name ∈ columns d <-> exists key ms, dt_at d key name = Some ms.
Proof.
  intros ((Hwf & Hc) & _ & _ & Ht). unfold columns. split.
  - intros Hin. destruct (jget (cols d) name) as [c|] eqn:E; [|by apply jget_None in E].
    destruct (Hc _ _ E) as (Hk & Hne & _). destruct (dc_byKey c) as [|[key ms] m] eqn:Em; [done|].
    exists key, ms. rewrite <- Ht. unfold time_in. rewrite E. cbn. rewrite Em. cbn. by rewrite decide_True.
  - intros (key & ms & Hat). rewrite <- Ht in Hat. unfold time_in in Hat.
    destruct (jget (cols d) name) eqn:E; [|done].
    destruct (decide (name ∈ jkeys (cols d))) as [|Hn]; [done|]. apply jget_None in Hn. congruence.
Qed.

(** * Runs *)

Inductive dt_op := DtSet (key : jsstr) (dt : option dt_map) | DtDel (key : jsstr).

Definition run_op (d : dt_index) (op : dt_op) : dt_index :=
  match op with DtSet key dt => set d key dt | DtDel key => del d key end.

Definition run (ops : list dt_op) : dt_index := fold_left run_op ops empty_dt_index.

(** The columns last given to [key]. *)
Fixpoint assigned_from (ops : list dt_op) (key : jsstr) (cur : dt_map) : dt_map :=
  match ops with
  | [] => cur
  | DtSet k dt :: ops' => assigned_from ops' key (if decide (k = key) then default [] dt else cur)
  | DtDel k :: ops' => assigned_from ops' key (if decide (k = key) then [] else cur)
  end.
Definition assigned (ops : list dt_op) (key : jsstr) : dt_map := assigned_from ops key [].

Definition op_wf (op : dt_op) : Prop := match op with DtSet _ dt => dt_wf dt | DtDel _ => True end.

Lemma run_from_spec ops d (cur : jsstr -> dt_map) :
  Forall op_wf ops -> inv d -> (forall key name, dt_at d key name = jget (cur key) name) ->
  inv (fold_left run_op ops d) /\
  forall key name, dt_at (fold_left run_op ops d) key name = jget (assigned_from ops key (cur key)) name.
Proof.
  intros Hops. revert d cur. induction Hops as [|op ops Hop Hops IH]; intros d cur Hi Hcur; [done|].
  destruct op as [k dt|k]; cbn.
  - destruct (set_spec d k dt Hi Hop) as [Hi' Hat].
    apply (IH _ (fun key => if decide (k = key) then default [] dt else cur key)); [done|].
    intros key name. rewrite Hat, Hcur. destruct (decide (k = key)) as [->|Hne].
    + by rewrite decide_True.
    + by rewrite decide_False by congruence.
  - destruct (del_spec d k Hi) as [Hi' Hat].
    apply (IH _ (fun key => if decide (k = key) then [] else cur key)); [done|].
    intros key name. rewrite Hat, Hcur. destruct (decide (k = key)) as [->|Hne].
    + by rewrite decide_True.
    + by rewrite decide_False by congruence.
Qed.

Lemma run_spec ops :
  Forall op_wf ops -> inv (run ops) /\ forall key name, dt_at (run ops) key name = jget (assigned ops key) name.
Proof. intros Hops. apply (run_from_spec ops empty_dt_index (fun _ => [])); [done|apply empty_inv|done]. Qed.

(** A rebuild is a run of the sets of the entries that have columns. *)
Definition entry_ops (entries : list (jsstr * option dt_map)) : list dt_op :=
  omap (fun '(key, dt) => match dt with Some _ => Some (DtSet key dt) | None => None end) entries.

Lemma rebuild_run entries : rebuild entries = run (entry_ops entries).
Proof.
  unfold rebuild, run. generalize empty_dt_index.
  induction entries as [|[key [dt|]] entries IH]; intros d; cbn; [done|apply IH..].
Qed.

(** * The property *)

(** after any sets and deletions of keys, a range over a column scans exactly
    the keys whose last assignment has the column, ordered by time and then key;
    the columns are those some key has; and rebuilding the index from records
    with the same assignments answers every range alike. *)
Theorem dt_index_answers ops name o :
  Forall op_wf ops ->
  (exists l, sorted cmpNumber cmpString l /\
     (forall ms key, (ms, key) ∈ l <-> jget (assigned ops key) name = Some ms) /\
     range (run ops) name o = (fun '(ms, key) => (key, ms)) <$> range_list cmpNumber o l) /\
  (name ∈ columns (run ops) <-> exists key ms, jget (assigned ops key) name = Some ms) /\
  (forall entries, Forall op_wf (entry_ops entries) ->
     (forall key, jget (assigned (entry_ops entries) key) name = jget (assigned ops key) name) ->
     range (rebuild entries) name o = range (run ops) name o).
Proof.
  intros Hops. destruct (run_spec ops Hops) as [Hi Hat].
  destruct (range_spec (run ops) name o Hi) as (l & Hl & Hin & Hr).
  split_and!.
  - exists l. split_and!; [done| |done]. intros ms key. by rewrite Hin, Hat.
  - rewrite columns_spec by done. by setoid_rewrite Hat.
  - intros entries He Hsame. rewrite rebuild_run.
    destruct (run_spec (entry_ops entries) He) as [Hi' Hat'].
    destruct (range_spec (run (entry_ops entries)) name o Hi') as (l' & Hl' & Hin' & ->). rewrite Hr.
    rewrite (sorted_ext cmpNumber cmpString l' l); [done..|].
    intros [ms key]. by rewrite Hin, Hin', Hat, Hat', Hsame.
Qed.
End dt_index.

Arguments dt_index : clear implicits.

(** * Witness *)

#[local] Instance time_index : OrderedIndex Z jsstr (list (Z * jsstr)) := list_index cmpNumber cmpString.
#[local] Instance time_index_laws : OrderedIndexLaws (H := time_index) cmpNumber cmpString :=
  list_index_laws cmpNumber cmpString.

Lemma dt_index_answers_witness :
  let ops := [DtSet [97]%N (Some [([116]%N, 30); ([117]%N, 5)]); DtSet [98]%N (Some [([116]%N, 10)]);
              DtSet [97]%N (Some [([116]%N, 20)]); DtDel [99]%N] in
  range (run (T := list (Z * jsstr)) ops) [116]%N all_range = [([98]%N, 10); ([97]%N, 20)] /\
  range (rebuild (T := list (Z * jsstr))
    [([99]%N, None); ([97]%N, Some [([116]%N, 20)]); ([98]%N, Some [([116]%N, 10)])]) [116]%N all_range =
  range (run (T := list (Z * jsstr)) ops) [116]%N all_range.
Proof.
  intros ops. split; [reflexivity|].
  destruct (dt_index_answers (T := list (Z * jsstr)) ops [116]%N all_range) as (_ & _ & H).
  { repeat constructor; try apply elem_of_nil; set_solver. }
  apply H; [repeat constructor; set_solver|].
  intros key. unfold assigned. cbn. repeat case_decide; subst; try discriminate; reflexivity.
Defined.
