(* ===== verification/JsonText.v ===== *)
(** JSON text of a value with its object keys in canonical order
    ([stableStringify] of [packages/minidb/src/index-manager.ts]), with the
    language's [JSON.stringify] of strings and [String] of integers. The text is
    injective up to the order of object fields. *)

From S2P Require Import Prelude JsMap Json.
From stdpp Require Import sorting strings.
From Stdlib Require Import DecimalZ.

(** A string literal as code units. *)
Definition js (s : string) : jsstr := Ascii.N_of_ascii <$> String.list_ascii_of_string s.

(** * Numbers *)

Fixpoint uint_chars (d : Decimal.uint) : jsstr :=
  match d with
  | Decimal.Nil => []
  | Decimal.D0 d => 48%N :: uint_chars d
  | Decimal.D1 d => 49%N :: uint_chars d
  | Decimal.D2 d => 50%N :: uint_chars d
  | Decimal.D3 d => 51%N :: uint_chars d
  | Decimal.D4 d => 52%N :: uint_chars d
  | Decimal.D5 d => 53%N :: uint_chars d
  | Decimal.D6 d => 54%N :: uint_chars d
  | Decimal.D7 d => 55%N :: uint_chars d
  | Decimal.D8 d => 56%N :: uint_chars d
  | Decimal.D9 d => 57%N :: uint_chars d
  end.

(** [String(n)] of an integer below 10^21. *)
Definition string_of_int (n : Z) : jsstr :=
  match Z.to_int n with
  | Decimal.Pos d => uint_chars d
  | Decimal.Neg d => 45%N :: uint_chars d
  end.

(** * Strings *)

Definition hex_digit (n : N) : N := if (n <? 10)%N then (48 + n)%N else (87 + n)%N.

(** [\uXXXX]. *)
Definition unicode_escape (u : N) : jsstr :=
  [92; 117; hex_digit (u / 4096 mod 16); hex_digit (u / 256 mod 16); hex_digit (u / 16 mod 16);
   hex_digit (u mod 16)]%N.

Definition quote_unit (u : N) : jsstr :=
  (if u =? 34 then [92; 34] else if u =? 92 then [92; 92]
   else if u =? 8 then [92; 98] else if u =? 12 then [92; 102] else if u =? 10 then [92; 110]
   else if u =? 13 then [92; 114] else if u =? 9 then [92; 116]
   else if u <? 32 then unicode_escape u else [u])%N.

Definition is_high (u : N) : bool := ((55296 <=? u) && (u <? 56320))%N.
Definition is_low (u : N) : bool := ((56320 <=? u) && (u <? 57344))%N.

(** A surrogate pair is kept, a lone surrogate escaped. *)
Fixpoint quote_body (s : jsstr) : jsstr :=
  match s with
  | [] => []
  | u :: s' =>
      if is_high u then
        match s' with
        | l :: s'' => if is_low l then u :: l :: quote_body s'' else unicode_escape u ++ quote_body s'
        | [] => unicode_escape u
        end
      else if is_low u then unicode_escape u ++ quote_body s'
      else quote_unit u ++ quote_body s'
  end.

Definition quote (s : jsstr) : jsstr := [34]%N ++ quote_body s ++ [34]%N.

(** * Values *)

(** [parts.join(',')]. *)
Fixpoint join (parts : list jsstr) : jsstr :=
  match parts with
  | [] => []
  | [p] => p
  | p :: parts' => p ++ [44]%N ++ join parts'
  end.

Definition str_le (a b : jsstr) : Prop := str_compare a b <> Gt.
#[export] Instance str_le_dec a b : Decision (str_le a b).
Proof. unfold str_le. apply _. Defined.

Definition sort_keys (ks : list jsstr) : list jsstr := merge_sort str_le ks.

Fixpoint stableStringify (v : json) : jsstr :=
  match v with
  | JNull => js "null"
  | JBool true => js "true"
  | JBool false => js "false"
  | JNumber n => string_of_int n
  | JString s => quote s
  | JArray l => [91]%N ++ join (List.map stableStringify l) ++ [93]%N
  | JObject fs =>
      let texts := List.map (fun '(k, v') => (k, stableStringify v')) fs in
      [123]%N ++
      join (List.map (fun k => quote k ++ [58]%N ++ default [] (jget texts k)) (sort_keys (jkeys fs))) ++
      [125]%N
  end.

Example stable_example :
  stableStringify (JObject [(js "b", JArray [JNumber (-10); JNull]); (js "a", JString [10; 65]%N)]) =
  [123; 34; 97; 34; 58; 34; 92; 110; 65; 34; 44; 34; 98; 34; 58; 91; 45; 49; 48; 44; 110; 117; 108; 108; 93; 125]%N.
Proof. vm_compute. reflexivity. Qed.

(** Equality up to the order of object fields. *)
Inductive json_equiv : json -> json -> Prop :=
| equiv_null : json_equiv JNull JNull
| equiv_bool b : json_equiv (JBool b) (JBool b)
| equiv_number n : json_equiv (JNumber n) (JNumber n)
| equiv_string s : json_equiv (JString s) (JString s)
| equiv_array l1 l2 : Forall2 json_equiv l1 l2 -> json_equiv (JArray l1) (JArray l2)
| equiv_object fs1 fs2 :
    jkeys fs1 ≡ₚ jkeys fs2 ->
    (forall k v1 v2, jget fs1 k = Some v1 -> jget fs2 k = Some v2 -> json_equiv v1 v2) ->
    json_equiv (JObject fs1) (JObject fs2).

(** Objects have one field per key, and code units are 16 bits. *)
Definition units_ok (s : jsstr) : Prop := Forall (fun u => (u < 65536)%N) s.

Fixpoint json_wf (v : json) : Prop :=
  match v with
  | JString s => units_ok s
  | JArray l => List.fold_right and True (List.map json_wf l)
  | JObject fs => jwf fs /\ Forall units_ok (jkeys fs) /\
                  List.fold_right and True (List.map (fun '(_, v') => json_wf v') fs)
  | _ => True
  end.

Fixpoint json_size (v : json) : nat :=
  match v with
  | JArray l => S (list_sum (List.map json_size l))
  | JObject fs => S (list_sum (List.map (fun '(_, v') => json_size v') fs))
  | _ => 1
  end.

(** * Strings are self-delimiting *)

Definition cons_unit (u : N) (r : option (jsstr * jsstr)) : option (jsstr * jsstr) :=
  '(s, t) ← r; Some (u :: s, t).

Arguments cons_unit : simpl never.

Definition hex_value (c : N) : N := if (c <? 58)%N then (c - 48)%N else (c - 87)%N.

Definition unescape (c : N) : N :=
  (if c =? 98 then 8 else if c =? 102 then 12 else if c =? 110 then 10
   else if c =? 114 then 13 else if c =? 116 then 9 else c)%N.

(** Read a quoted body up to its closing quote. *)
Fixpoint unquote (s : jsstr) : option (jsstr * jsstr) :=
  match s with
  | [] => None
  | u :: s' =>
      if (u =? 34)%N then Some ([], s')
      else if (u =? 92)%N then
        match s' with
        | [] => None
        | c :: s2 =>
            if (c =? 117)%N then
              match s2 with
              | a :: b :: c' :: d :: s3 =>
                  cons_unit (hex_value a * 4096 + hex_value b * 256 + hex_value c' * 16 + hex_value d)%N
                    (unquote s3)
              | _ => None
              end
            else cons_unit (unescape c) (unquote s2)
        end
      else cons_unit u (unquote s')
  end.

(** [e] is a text of the unit [u]. *)
Definition emits (u : N) (e : jsstr) : Prop := forall t, unquote (e ++ t) = cons_unit u (unquote t).

Lemma hex_value_digit n : (n < 16)%N -> hex_value (hex_digit n) = n.
Proof.
  intros Hn. unfold hex_digit, hex_value.
  destruct (N.ltb_spec n 10); [rewrite (proj2 (N.ltb_lt _ _)) by lia|rewrite (proj2 (N.ltb_ge _ _)) by lia]; lia.
Qed.

Lemma emits_escape u : (u < 65536)%N -> emits u (unicode_escape u).
Proof.
  intros Hu t. cbn. rewrite !hex_value_digit by (apply N.mod_lt; lia). f_equal.
  pose proof (N.div_mod u 16 ltac:(lia)). pose proof (N.div_mod (u / 16) 16 ltac:(lia)) as H2.
  pose proof (N.div_mod (u / 256) 16 ltac:(lia)) as H3.
  rewrite N.Div0.div_div in H2, H3. change (16 * 16)%N with 256%N in H2. change (256 * 16)%N with 4096%N in H3.
  rewrite (N.mod_small (u / 4096)) by (apply N.Div0.div_lt_upper_bound; lia). lia.
Qed.

Lemma emits_raw u : u <> 34%N -> u <> 92%N -> emits u [u].
Proof. intros H1 H2 t. cbn. by rewrite (proj2 (N.eqb_neq _ _) H1), (proj2 (N.eqb_neq _ _) H2). Qed.

Lemma emits_unit u : (u < 65536)%N -> emits u (quote_unit u).
Proof.
  intros Hu. unfold quote_unit.
  repeat match goal with |- emits _ (if (?a =? ?b)%N then _ else _) =>
    destruct (N.eqb_spec a b) as [->|?]; [intros t; reflexivity|] end.
  destruct (u <? 32)%N; [by apply emits_escape|by apply emits_raw].
Qed.

Lemma surrogate_raw u : is_high u || is_low u = true -> u <> 34%N /\ u <> 92%N.
Proof. intros H. split; intros ->; discriminate. Qed.

Lemma unquote_body s r : units_ok s -> unquote (quote_body s ++ 34%N :: r) = Some (s, r).
Proof.
  remember (length s) as n eqn:Hn. revert s Hn.
  induction n as [n IH] using lt_wf_ind. intros s -> Hs.
  destruct s as [|u s]; [done|]. apply Forall_cons in Hs as [Hu Hs].
  assert (Hrec : forall e, emits u e -> unquote ((e ++ quote_body s) ++ 34%N :: r) = Some (u :: s, r)).
  { intros e He. rewrite <- app_assoc, He, (IH (length s)) by (cbn; lia || done). done. }
  cbn [quote_body]. destruct (is_high u) eqn:Hh.
  - destruct s as [|l s].
    { rewrite <- (app_nil_r (unicode_escape u)). by apply Hrec, emits_escape. }
    destruct (is_low l) eqn:Hl; [|by apply Hrec, emits_escape].
    apply Forall_cons in Hs as [Hl' Hs].
    destruct (surrogate_raw u) as [H1 H2]; [by rewrite Hh|].
    destruct (surrogate_raw l) as [H3 H4]; [by rewrite Hl, orb_true_r|].
    change ((u :: l :: quote_body s) ++ 34%N :: r) with ([u] ++ [l] ++ quote_body s ++ 34%N :: r).
    rewrite (emits_raw u), (emits_raw l), (IH (length s)) by (cbn; lia || done). done.
  - destruct (is_low u) eqn:Hl; [by apply Hrec, emits_escape|by apply Hrec, emits_unit].
Qed.

Lemma quote_inj s1 s2 r1 r2 :
  units_ok s1 -> units_ok s2 -> quote s1 ++ r1 = quote s2 ++ r2 -> s1 = s2 /\ r1 = r2.
Proof.
  intros H1 H2 E. unfold quote in E. cbn in E. injection E as E. rewrite <- !app_assoc in E.
  pose proof (unquote_body s1 r1 H1) as U1. cbn in E. rewrite E in U1.
  rewrite unquote_body in U1 by done. by injection U1 as -> ->.
Qed.

(** * Numbers are delimited by what follows *)

Definition is_digit (c : N) : bool := ((48 <=? c) && (c <=? 57))%N.

Definition no_digit (r : jsstr) : Prop := match r with c :: _ => is_digit c = false | [] => True end.

Lemma uint_chars_inj d1 d2 r1 r2 :
  no_digit r1 -> no_digit r2 -> uint_chars d1 ++ r1 = uint_chars d2 ++ r2 -> d1 = d2 /\ r1 = r2.
Proof.
  intros H1 H2. revert d2. induction d1; intros d2 E; destruct d2; cbn in E;
    try (injection E as E; apply IHd1 in E as [-> ->]; done); try discriminate; try done;
    try (subst r1; discriminate); try (subst r2; discriminate).
Qed.

Lemma uint_chars_head d : match uint_chars d with c :: _ => is_digit c = true | [] => d = Decimal.Nil end.
Proof. by destruct d. Qed.

Lemma uint_minus d r1 d2 r2 : d <> Decimal.Nil -> uint_chars d ++ r1 = 45%N :: uint_chars d2 ++ r2 -> False.
Proof. destruct d; [done|..]; intros _ E; discriminate. Qed.

Lemma to_int_not_nil n : match Z.to_int n with Decimal.Pos d => d <> Decimal.Nil | Decimal.Neg _ => True end.
Proof.
  destruct n as [|p|p]; cbn; [done| |done].
  pose proof (DecimalPos.Unsigned.to_uint_nonnil p). done.
Qed.

Lemma string_of_int_inj n1 n2 r1 r2 :
  no_digit r1 -> no_digit r2 -> string_of_int n1 ++ r1 = string_of_int n2 ++ r2 -> n1 = n2 /\ r1 = r2.
Proof.
  intros H1 H2. unfold string_of_int.
  pose proof (to_int_not_nil n1) as Hn1. pose proof (to_int_not_nil n2) as Hn2. intros E.
  enough (Z.to_int n1 = Z.to_int n2 /\ r1 = r2) as [En ->].
  { split; [|done]. rewrite <- (DecimalZ.of_to n1), En. apply DecimalZ.of_to. }
  destruct (Z.to_int n1) as [d1|d1], (Z.to_int n2) as [d2|d2].
  - apply uint_chars_inj in E as [-> ->]; done.
  - by apply uint_minus in E.
  - symmetry in E. by apply uint_minus in E.
  - injection E as E. apply uint_chars_inj in E as [-> ->]; done.
Qed.

(** * Values are delimited by what follows *)

(** What may follow a value: nothing, or a comma or closing bracket. *)
Definition delim (r : jsstr) : Prop :=
  match r with c :: _ => c = 44%N \/ c = 93%N \/ c = 125%N | [] => True end.

Lemma delim_no_digit r : delim r -> no_digit r.
Proof. destruct r as [|c r]; [done|]. by intros [->|[->| ->]]. Qed.

(** The first unit of a value's text tells its kind. *)
Definition head_kind (v : json) (c : N) : Prop :=
  match v with
  | JNull => c = 110%N
  | JBool true => c = 116%N
  | JBool false => c = 102%N
  | JNumber _ => is_digit c = true \/ c = 45%N
  | JString _ => c = 34%N
  | JArray _ => c = 91%N
  | JObject _ => c = 123%N
  end.

Lemma stringify_head v : exists c t, stableStringify v = c :: t /\ head_kind v c.
Proof.
  destruct v as [|[]|n|s|l|fs]; try (eexists _, _; split; [reflexivity|reflexivity]).
  cbn. unfold string_of_int. pose proof (to_int_not_nil n). destruct (Z.to_int n) as [d|d].
  - pose proof (uint_chars_head d) as Hd. destruct (uint_chars d) as [|c t]; [done|].
    exists c, t. split; [done|by left].
  - eexists _, _. split; [reflexivity|by right].
Qed.

Lemma stringify_not_close v r t : stableStringify v ++ r = 93%N :: t -> False.
Proof.
  destruct (stringify_head v) as (c & t' & -> & Hc). cbn. intros [= -> _].
  destruct v as [|[]|n|s|l|fs]; cbn in Hc; try discriminate. by destruct Hc.
Qed.

Lemma join_cons p ps : join (p :: ps) = p ++ match ps with [] => [] | _ => [44]%N ++ join ps end.
Proof. destruct ps; cbn; [by rewrite app_nil_r|done]. Qed.

Lemma join_inj {A B} (text1 : A -> jsstr) (text2 : B -> jsstr) (R : A -> B -> Prop) (close : N) l1 : forall l2 r1 r2,
  close = 93%N \/ close = 125%N ->
  (forall x t r, text1 x ++ r <> close :: t) -> (forall x t r, text2 x ++ r <> close :: t) ->
  (forall x1 x2 r1 r2, x1 ∈ l1 -> x2 ∈ l2 -> delim r1 -> delim r2 ->
     text1 x1 ++ r1 = text2 x2 ++ r2 -> R x1 x2 /\ r1 = r2) ->
  join (List.map text1 l1) ++ close :: r1 = join (List.map text2 l2) ++ close :: r2 ->
  Forall2 R l1 l2 /\ r1 = r2.
Proof.
  induction l1 as [|x1 l1 IH]; intros [|x2 l2] r1 r2 Hc H1 H2 Hinj E.
  - cbn in E. injection E as ->. by split; [constructor|].
  - cbn [List.map] in E. rewrite join_cons, <- app_assoc in E. cbn in E. symmetry in E. by apply H2 in E.
  - cbn [List.map] in E. rewrite join_cons, <- app_assoc in E. cbn in E. by apply H1 in E.
  - cbn [List.map] in E. rewrite !join_cons, <- !app_assoc in E.
    apply Hinj in E as [HR E]; [|by left|by left|..].
    2,3: match goal with |- delim (match List.map ?f ?l with _ => _ end ++ _) => destruct l end;
      cbn; destruct Hc; subst; auto.
    destruct l1 as [|y1 l1], l2 as [|y2 l2].
    + injection E as ->. split; [by repeat constructor|done].
    + injection E as E _. destruct Hc; subst; discriminate.
    + injection E as E _. destruct Hc; subst; discriminate.
    + cbn [List.map] in E. rewrite <- !app_assoc in E. apply app_inv_head in E.
      apply (IH (y2 :: l2)) in E as [HF ->]; [by split; [constructor|]|done..|].
      intros ???? Hx1 Hx2. apply Hinj; by right.
Qed.

Lemma Forall_and_map {A} (P : A -> Prop) l : List.fold_right and True (List.map P l) <-> Forall P l.
Proof.
  induction l as [|x l IH]; cbn; [by split|]. rewrite IH. split; [by intros []; constructor|by inversion 1].
Qed.

Lemma size_in v l : v ∈ l -> (json_size v <= list_sum (List.map json_size l))%nat.
Proof. unfold list_sum. induction 1; cbn in *; lia. Qed.

Lemma size_field (k : jsstr) v fs :
  jget fs k = Some v -> (json_size v <= list_sum (List.map (fun '(_, v') => json_size v') fs))%nat.
Proof.
  unfold list_sum. intros Hv%jget_Some_in. revert Hv. induction fs as [|[k' v'] fs IH]; cbn; [by intros ?%elem_of_nil|].
  intros [[= -> ->]|?%IH]%elem_of_cons; lia.
Qed.

Lemma wf_field (k : jsstr) v fs :
  jget fs k = Some v -> json_wf (JObject fs) -> json_wf v.
Proof.
  intros Hv%jget_Some_in (_ & _ & Hw). rewrite (Forall_and_map (fun '(_, v') => json_wf v')), Forall_forall in Hw.
  by apply (Hw (k, v)).
Qed.

Lemma jget_texts (fs : list (jsstr * json)) k :
  jget (List.map (fun '(k, v') => (k, stableStringify v')) fs) k = stableStringify <$> jget fs k.
Proof. induction fs as [|[k' v'] fs IH]; cbn; [done|]. by case_decide. Qed.

Lemma sort_keys_perm ks : sort_keys ks ≡ₚ ks.
Proof. apply merge_sort_Permutation. Qed.

Lemma elem_of_sort_keys k ks : k ∈ sort_keys ks <-> k ∈ ks.
Proof. by rewrite sort_keys_perm. Qed.

(** A member's text, from the object's fields. *)
Definition member (fs : list (jsstr * json)) (k : jsstr) : jsstr :=
  quote k ++ [58]%N ++ default [] (stableStringify <$> jget fs k).

Lemma stringify_object fs :
  stableStringify (JObject fs) =
  [123]%N ++ join (List.map (member fs) (sort_keys (jkeys fs))) ++ [125]%N.
Proof.
  cbn [stableStringify]. do 3 f_equal. apply List.map_ext. intros k. unfold member. by rewrite jget_texts.
Qed.

Lemma member_not_close fs k t r : member fs k ++ r <> 125%N :: t.
Proof. discriminate. Qed.

Lemma stringify_delimited v1 : forall v2 r1 r2,
  json_wf v1 -> json_wf v2 -> delim r1 -> delim r2 ->
  stableStringify v1 ++ r1 = stableStringify v2 ++ r2 -> json_equiv v1 v2 /\ r1 = r2.
Proof.
  remember (json_size v1) as n eqn:Hn. revert v1 Hn.
  induction n as [n IH] using lt_wf_ind. intros v1 -> v2 r1 r2 Hw1 Hw2 Hd1 Hd2 E.
  destruct (stringify_head v1) as (c1 & t1 & E1 & Hk1). destruct (stringify_head v2) as (c2 & t2 & E2 & Hk2).
  assert (c1 = c2) as <-. { rewrite E1, E2 in E. by injection E. }
  destruct v1 as [|[]|n1|s1|l1|fs1], v2 as [|[]|n2|s2|l2|fs2]; cbn [head_kind] in Hk1, Hk2;
    try (subst c1; discriminate); try (subst c1; by destruct Hk2); try (subst c1; by destruct Hk1);
    clear E1 E2 Hk1 Hk2 t1 t2.
  1-3: cbn in E; injection E as ->; split; [constructor|done].
  - apply string_of_int_inj in E as [-> ->]; [split; [constructor|done]|by apply delim_no_digit..].
  - apply quote_inj in E as [-> ->]; [split; [constructor|done]|done..].
  - cbn [stableStringify] in E. rewrite <- !app_assoc in E. apply app_inv_head in E. cbn in E.
    cbn [json_wf] in Hw1, Hw2. rewrite Forall_and_map, Forall_forall in Hw1, Hw2.
    apply (join_inj _ _ json_equiv) in E as [HF ->]; [by split; [constructor|]|by left|..].
    1-2: intros x t r Hx; by apply stringify_not_close in Hx.
    intros x1 x2 r3 r4 Hx1 Hx2 Hr3 Hr4. apply (IH (json_size x1)); auto.
    pose proof (size_in x1 l1 Hx1). cbn. lia.
  - rewrite !stringify_object, <- !app_assoc in E. apply app_inv_head in E. cbn in E.
    apply (join_inj _ _ (fun k1 k2 => k1 = k2 /\ forall v1 v2, jget fs1 k1 = Some v1 ->
             jget fs2 k2 = Some v2 -> json_equiv v1 v2)) in E as [HF ->];
      [split; [|done]|by right|by intros; apply member_not_close..|].
    + assert (HF1 : sort_keys (jkeys fs1) = sort_keys (jkeys fs2)).
      { apply list_eq_Forall2. eapply Forall2_impl; [exact HF|]. by intros ?? []. }
      constructor; [by rewrite <- (sort_keys_perm (jkeys fs1)), HF1, sort_keys_perm|].
      intros k v1 v2 Hv1 Hv2. rewrite HF1 in HF.
      assert (Hk : k ∈ sort_keys (jkeys fs2)).
      { apply elem_of_sort_keys, (list_elem_of_fmap_2 fst _ (k, v2)), jget_Some_in, Hv2. }
      apply list_elem_of_lookup in Hk as [i Hi].
      destruct (Forall2_lookup_lr _ _ _ i k k HF Hi Hi) as [_ He]. by apply He.
    + intros k1 k2 r3 r4 Hk1 Hk2 Hr3 Hr4 Em. rewrite elem_of_sort_keys in Hk1, Hk2.
      unfold member in Em. rewrite <- !app_assoc in Em.
      pose proof Hw1 as (_ & Hu1 & _). pose proof Hw2 as (_ & Hu2 & _).
      rewrite Forall_forall in Hu1, Hu2.
      apply quote_inj in Em as [<- Em]; [|auto..]. apply app_inv_head in Em.
      destruct (jget fs1 k1) as [v1|] eqn:Ev1; [|by apply jget_None in Ev1].
      destruct (jget fs2 k1) as [v2|] eqn:Ev2; [|by apply jget_None in Ev2]. cbn [default fmap option_fmap option_map] in Em.
      pose proof (size_field _ _ _ Ev1).
      apply (IH (json_size v1)) in Em as [He ->]; [|cbn; lia|done|..|done|done].
      * split; [|done]. split; [done|]. by intros ?? [= <-] [= <-].
      * by apply (wf_field _ _ _ Ev1).
      * by apply (wf_field _ _ _ Ev2).
Qed.

(** * Equal up to order, equal text *)

#[export] Instance str_le_total : Total str_le.
Proof. intros a b. unfold str_le. rewrite (str_compare_antisym a b). destruct (str_compare a b); cbn; auto. Qed.

#[export] Instance str_le_trans : Transitive str_le.
Proof.
  intros a b c. unfold str_le. destruct (str_compare a b) eqn:E1, (str_compare b c) eqn:E2; try done; intros _ _.
  - apply str_compare_eq in E1 as ->. by rewrite E2.
  - apply str_compare_eq in E1 as ->. by rewrite E2.
  - apply str_compare_eq in E2 as <-. by rewrite E1.
  - by rewrite (str_compare_trans a b c).
Qed.

#[export] Instance str_le_antisym : AntiSymm (=) str_le.
Proof.
  intros a b. unfold str_le. rewrite (str_compare_antisym a b).
  destruct (str_compare a b) eqn:E; cbn; try done. by apply str_compare_eq in E.
Qed.

#[export] Instance sort_keys_proper : Proper ((≡ₚ) ==> (=)) sort_keys.
Proof.
  intros k1 k2 Hk. apply (StronglySorted_unique str_le).
  - apply StronglySorted_merge_sort; apply _.
  - apply StronglySorted_merge_sort; apply _.
  - by rewrite !sort_keys_perm.
Qed.

Lemma equiv_stringify v1 : forall v2, json_equiv v1 v2 -> stableStringify v1 = stableStringify v2.
Proof.
  remember (json_size v1) as n eqn:Hn. revert v1 Hn.
  induction n as [n IH] using lt_wf_ind. intros v1 -> v2 He. inversion He as [| | | |l1 l2 HF|fs1 fs2 Hk Hf]; subst; try done.
  - cbn. do 3 f_equal. clear He. induction HF as [|x1 x2 l1 l2 Hx HF IHF]; cbn; [done|].
    rewrite (IH (json_size x1)) with (v2 := x2) by (cbn; lia || done). f_equal. apply IHF.
    intros m Hm. apply IH. cbn in *. unfold list_sum in *. lia.
  - rewrite !stringify_object, Hk. do 3 f_equal. apply List.map_ext_in. intros k Hin.
    apply list_elem_of_In in Hin. rewrite elem_of_sort_keys in Hin. unfold member.
    destruct (jget fs2 k) as [w2|] eqn:E2; [|by apply jget_None in E2].
    rewrite <- Hk in Hin. destruct (jget fs1 k) as [w1|] eqn:E1; [|by apply jget_None in E1].
    cbn [fmap option_fmap option_map default]. unfold Datatypes.id.
    rewrite (IH (json_size w1)) with (v2 := w2); [done|pose proof (size_field _ _ _ E1); cbn; lia|done|by apply (Hf k)].
Qed.

(** The text determines a value exactly up to the order of object fields. *)
Lemma stringify_iff v1 v2 :
  json_wf v1 -> json_wf v2 -> stableStringify v1 = stableStringify v2 <-> json_equiv v1 v2.
Proof.
  intros H1 H2. split; [|apply equiv_stringify]. intros E.
  destruct (stringify_delimited v1 v2 [] []) as [? _]; [done..|by rewrite E|done].
Qed.
