(* ===== verification/IndexManager.v ===== *)
(** Secondary indexes over JSON documents ([packages/minidb/src/index-manager.ts]):
    equality indexes as posting sets by scalar key, range indexes as an ordered list
    of numbers, both with the keys of each document for its removal. [repr_mgr]
    says an index manager holds exactly the postings of the current documents.
    Property lookup covers own properties (fields, elements, [length]). *)

From S2P Require Import Prelude JsMap Json JsonText Ordered.

(** * Document fields *)

(** [path.split('.')]. *)
Fixpoint split_dots (path : jsstr) : list jsstr :=
  match path with
  | [] => [[]]
  | u :: path' =>
      if (u =? 46)%N then [] :: split_dots path'
      else match split_dots path' with
           | [] => [[u]]
           | p :: ps => (u :: p) :: ps
           end
  end.

(** The element index a property name denotes. *)
Definition array_index (name : jsstr) (n : nat) : option nat :=
  fst <$> list_find (fun i => string_of_int (Z.of_nat i) = name) (seq 0 n).

(** [v[name]] of a value that is neither null nor undefined. *)
Definition own_property (v : json) (name : jsstr) : option json :=
  match v with
  | JObject fs => jget fs name
  | JArray l =>
      if decide (name = js "length") then Some (JNumber (Z.of_nat (length l)))
      else array_index name (length l) ≫= fun i => l !! i
  | JString s =>
      if decide (name = js "length") then Some (JNumber (Z.of_nat (length s)))
      else array_index name (length s) ≫= fun i => (fun u => JString [u]) <$> (s !! i)
  | _ => None
  end.

Definition property (v : option json) (name : jsstr) : option json :=
  match v with
  | None | Some JNull => None
  | Some v => own_property v name
  end.

Definition getField (doc : json) (path : jsstr) : option json :=
  fold_left property (split_dots path) (Some doc).

(** [None] is [undefined]. *)
Definition scalarKey (v : option json) : jsstr :=
  match v with
  | Some (JString s) => js "string:" ++ s
  | Some (JNumber n) => js "number:" ++ string_of_int n
  | Some (JBool b) => js "boolean:" ++ (if b then js "true" else js "false")
  | Some v => js "json:" ++ stableStringify v
  | None => js "json:undefined"
  end.

Definition flatten (v : option json) : list (option json) :=
  match v with Some (JArray l) => Some <$> l | _ => [v] end.

(** The finite numbers among values. *)
Definition numbers (vs : list (option json)) : list Z :=
  omap (fun v => match v with Some (JNumber n) => Some n | _ => None end) vs.

(** * Sets of strings, in insertion order *)

Definition sadd (s : list jsstr) (x : jsstr) : list jsstr := if decide (x ∈ s) then s else s ++ [x].
Definition sdel (s : list jsstr) (x : jsstr) : list jsstr := filter (fun y => y <> x) s.

(** [[...new Set(l)]]. *)
Definition dedup (l : list Z) : list Z :=
  fold_left (fun acc n => if decide (n ∈ acc) then acc else acc ++ [n]) l [].

(** * Indexes *)

Section index_manager.
Context {T : Type} `{!OrderedIndex Z jsstr T} `{!OrderedIndexLaws cmpNumber cmpString}.

Record index_def := IndexDef {
  field : jsstr;
  unique : bool;
  sparse : bool;
}.

Inductive any_index :=
| EqIndex (d : index_def) (map : list (jsstr * list jsstr)) (byPk : list (jsstr * list jsstr))
| RangeIndex (d : index_def) (tree : T) (byPk : list (jsstr * list Z)).

Definition def_of (i : any_index) : index_def :=
  match i with EqIndex d _ _ => d | RangeIndex d _ _ => d end.

Abbreviation manager := (list (jsstr * any_index)).

Inductive index_error :=
| FieldRequired
| AlreadyExists (name : jsstr)
| NoSuchIndex (name : jsstr)
| NotEqualityIndex (name : jsstr)
| NotRangeIndex (name : jsstr)
| UniqueViolation (name : jsstr) (value : option json)
| DuplicateOwners (name : jsstr) (keys : list jsstr).

Inductive index_type := Equality | Range.

Definition create (m : manager) (name : jsstr) (d : index_def) (type : index_type)
    : result index_error manager :=
  guard! bool_decide (field d <> []) else FieldRequired ;;
  guard! negb (jhas m name) else AlreadyExists name ;;
  Ok (jset m name (match type with
                   | Range => RangeIndex d oi_empty []
                   | Equality => EqIndex d [] []
                   end)).

Definition drop (m : manager) (name : jsstr) : manager * bool := (jdel m name, jhas m name).

Definition get (m : manager) (name : jsstr) : result index_error any_index :=
  match jget m name with Some i => Ok i | None => Err (NoSuchIndex name) end.

(** ** Adding and removing a document *)

Definition add_posting (pk : jsstr) (map : list (jsstr * list jsstr)) (sk : jsstr) : list (jsstr * list jsstr) :=
  jset map sk (sadd (default [] (jget map sk)) pk).

Definition add_one (pk : jsstr) (doc : json) (i : any_index) : any_index :=
  let value := getField doc (field (def_of i)) in
  if bool_decide (value = None) && sparse (def_of i) then i
  else match i with
       | RangeIndex d list byPk =>
           let vals := dedup (numbers (flatten value)) in
           match vals with
           | [] => i
           | _ => RangeIndex d (fold_left (fun l v => oi_insert l v pk) vals list) (jset byPk pk vals)
           end
       | EqIndex d map byPk =>
           let keys := scalarKey <$> flatten value in
           EqIndex d (fold_left (add_posting pk) keys map) (jset byPk pk keys)
       end.

Definition del_posting (pk : jsstr) (map : list (jsstr * list jsstr)) (sk : jsstr) : list (jsstr * list jsstr) :=
  match jget map sk with
  | None => map
  | Some set => if decide (sdel set pk = []) then jdel map sk else jset map sk (sdel set pk)
  end.

Definition remove_one (pk : jsstr) (i : any_index) : any_index :=
  match i with
  | RangeIndex d list byPk =>
      match jget byPk pk with
      | None => i
      | Some old => RangeIndex d (fold_left (fun l v => (oi_delete l v pk).1) old list) (jdel byPk pk)
      end
  | EqIndex d map byPk =>
      match jget byPk pk with
      | None => i
      | Some keys => EqIndex d (fold_left (del_posting pk) keys map) (jdel byPk pk)
      end
  end.

Definition add (m : manager) (pk : jsstr) (doc : json) : manager := prod_map id (add_one pk doc) <$> m.
Definition remove (m : manager) (pk : jsstr) : manager := prod_map id (remove_one pk) <$> m.

Definition clear_one (i : any_index) : any_index :=
  match i with
  | RangeIndex d _ _ => RangeIndex d oi_empty []
  | EqIndex d _ _ => EqIndex d [] []
  end.

(** Values that are objects (arrays and records). *)
Definition is_object (v : json) : bool := match v with JObject _ | JArray _ => true | _ => false end.

Definition rebuild (m : manager) (entries : list (jsstr * json)) : manager :=
  fold_left (fun m '(pk, v) => if is_object v then add m pk v else m) entries
    (prod_map id clear_one <$> m).

(** ** Unique constraints *)

Definition eq_bounds (v : Z) (count : option Z) : range_opts Z := RangeOpts (Some v) None (Some v) None 0 count false.

(** Does the index deny [pk] the element [v]? *)
Definition denied (pk : jsstr) (i : any_index) (v : option json) : bool :=
  match i with
  | RangeIndex _ list _ =>
      match v with
      | Some (JNumber n) =>
          match oi_range list (eq_bounds n (Some 1)) with
          | (_, pk') :: _ => bool_decide (pk' <> pk)
          | [] => false
          end
      | _ => false
      end
  | EqIndex _ map _ =>
      match jget map (scalarKey v) with
      | Some set => (1 <? length set)%nat || ((length set =? 1)%nat && bool_decide (pk ∉ set))
      | None => false
      end
  end.

Definition checkUnique_one (pk : jsstr) (doc : json) (name : jsstr) (i : any_index) : result index_error unit :=
  if unique (def_of i) then
    let value := getField doc (field (def_of i)) in
    if bool_decide (value = None) && sparse (def_of i) then Ok tt
    else match List.find (denied pk i) (flatten value) with
         | Some v => Err (UniqueViolation name v)
         | None => Ok tt
         end
  else Ok tt.

Fixpoint checkUnique (m : manager) (pk : jsstr) (doc : json) : result index_error unit :=
  match m with
  | [] => Ok tt
  | (name, i) :: m' => let? _ := checkUnique_one pk doc name i in checkUnique m' pk doc
  end.

(** The last op of each key; [None] deletes. *)
Definition lastOps (ops : list (jsstr * option json)) : list (jsstr * option json) :=
  fold_left (fun m '(pk, o) => jset m pk o) ops [].

(** Claim the elements of one document, given the holders of each in the index. *)
Fixpoint claim {K} `{EqDecision K} (name : jsstr) (holders : K -> list jsstr) (touched : list jsstr)
    (pk : jsstr) (vals : list (K * option json)) (claimed : list (K * jsstr))
    : result index_error (list (K * jsstr)) :=
  match vals with
  | [] => Ok claimed
  | (k, v) :: vals' =>
      if existsb (fun pk2 => bool_decide (pk2 <> pk) && bool_decide (pk2 ∉ touched)) (holders k)
      then Err (UniqueViolation name v)
      else if match jget claimed k with Some prev => bool_decide (prev <> pk) | None => false end
      then Err (UniqueViolation name v)
      else claim name holders touched pk vals' (jset claimed k pk)
  end.

Fixpoint claim_all {K Doc} `{EqDecision K} (name : jsstr) (holders : K -> list jsstr) (touched : list jsstr)
    (vals : Doc -> list (K * option json)) (ops : list (jsstr * option Doc)) (claimed : list (K * jsstr))
    : result index_error (list (K * jsstr)) :=
  match ops with
  | [] => Ok claimed
  | (pk, None) :: ops' => claim_all name holders touched vals ops' claimed
  | (pk, Some doc) :: ops' =>
      let? claimed' := claim name holders touched pk (vals doc) claimed in
      claim_all name holders touched vals ops' claimed'
  end.

Definition range_vals (d : index_def) (doc : json) : list (Z * option json) :=
  (fun n => (n, Some (JNumber n))) <$> numbers (flatten (getField doc (field d))).

Definition eq_vals (d : index_def) (doc : json) : list (jsstr * option json) :=
  let value := getField doc (field d) in
  if bool_decide (value = None) && sparse d then []
  else (fun v => (scalarKey v, v)) <$> flatten value.

Definition checkBatch_one (ops : list (jsstr * option json)) (name : jsstr) (i : any_index) : result index_error unit :=
  if unique (def_of i) then
    match i with
    | RangeIndex d list _ =>
        let? _ := claim_all name (fun v => (oi_range list (eq_bounds v None)).*2) (jkeys ops) (range_vals d) ops []
        in Ok tt
    | EqIndex d map _ =>
        let? _ := claim_all name (fun sk => default [] (jget map sk)) (jkeys ops) (eq_vals d) ops []
        in Ok tt
    end
  else Ok tt.

Fixpoint checkBatch_loop (m : manager) (last : list (jsstr * option json)) : result index_error unit :=
  match m with
  | [] => Ok tt
  | (name, i) :: m' => let? _ := checkBatch_one last name i in checkBatch_loop m' last
  end.

Definition checkUniqueBatch (m : manager) (ops : list (jsstr * option json)) : result index_error unit :=
  checkBatch_loop m (lastOps ops).

Fixpoint own_vals (name pk : jsstr) (vals : list Z) (owner : list (Z * jsstr))
    : result index_error (list (Z * jsstr)) :=
  match vals with
  | [] => Ok owner
  | v :: vals' =>
      if match jget owner v with Some prev => bool_decide (prev <> pk) | None => false end
      then Err (UniqueViolation name (Some (JNumber v)))
      else own_vals name pk vals' (jset owner v pk)
  end.

Fixpoint own_all (name : jsstr) (byPk : list (jsstr * list Z)) (owner : list (Z * jsstr))
    : result index_error (list (Z * jsstr)) :=
  match byPk with
  | [] => Ok owner
  | (pk, vals) :: byPk' => let? owner' := own_vals name pk vals owner in own_all name byPk' owner'
  end.

Definition assertUniqueValid (m : manager) (name : jsstr) : result index_error unit :=
  let? i := get m name in
  if unique (def_of i) then
    match i with
    | RangeIndex _ _ byPk => let? _ := own_all name byPk [] in Ok tt
    | EqIndex _ map _ =>
        match List.find (fun '(_, set) => (1 <? length set)%nat) map with
        | Some (_, set) => Err (DuplicateOwners name set)
        | None => Ok tt
        end
    end
  else Ok tt.

(** ** Queries *)

Definition findEq (m : manager) (name : jsstr) (value : option json) : result index_error (list jsstr) :=
  let? i := get m name in
  match i with
  | EqIndex _ map _ => Ok (default [] (jget map (scalarKey value)))
  | RangeIndex _ _ _ => Err (NotEqualityIndex name)
  end.

Definition hasEq (m : manager) (name : jsstr) (value : option json) (pk : jsstr) : result index_error bool :=
  let? i := get m name in
  match i with
  | EqIndex _ map _ =>
      Ok (match jget map (scalarKey value) with Some set => bool_decide (pk ∈ set) | None => false end)
  | RangeIndex _ _ _ => Err (NotEqualityIndex name)
  end.

Record find_range_opts := FindRangeOpts {
  fr_min : option Z;
  fr_max : option Z;
  fr_minExclusive : bool;
  fr_maxExclusive : bool;
  fr_offset : Z;
  fr_count : option Z;
  fr_reverse : bool;
}.

Definition range_of (o : find_range_opts) : range_opts Z :=
  {| gte := if fr_minExclusive o then None else fr_min o;
     gt := if fr_minExclusive o then fr_min o else None;
     lte := if fr_maxExclusive o then None else fr_max o;
     lt := if fr_maxExclusive o then fr_max o else None;
     offset := fr_offset o;
     count := fr_count o;
     reverse := fr_reverse o |}.

Definition findRange (m : manager) (name : jsstr) (o : find_range_opts) : result index_error (list (jsstr * Z)) :=
  let? i := get m name in
  match i with
  | RangeIndex _ list _ => Ok ((fun '(v, pk) => (pk, v)) <$> oi_range list (range_of o))
  | EqIndex _ _ _ => Err (NotRangeIndex name)
  end.

(** * Posting sets *)

Definition posting {K} `{EqDecision K} (map : list (K * list jsstr)) (sk : K) : list jsstr := default [] (jget map sk).

Definition posting_wf (map : list (jsstr * list jsstr)) : Prop :=
  jwf map /\ forall sk set, jget map sk = Some set -> NoDup set /\ set <> [].

Lemma elem_of_sadd s x y : y ∈ sadd s x <-> y = x \/ y ∈ s.
Proof. unfold sadd. case_decide; set_solver. Qed.

Lemma NoDup_sadd s x : NoDup s -> NoDup (sadd s x).
Proof.
  intros Hs. unfold sadd. case_decide; [done|]. apply NoDup_app. split_and!; [done|set_solver|apply NoDup_singleton].
Qed.

Lemma elem_of_sdel s x y : y ∈ sdel s x <-> y <> x /\ y ∈ s.
Proof. unfold sdel. by rewrite list_elem_of_filter. Qed.

Lemma posting_NoDup map sk : posting_wf map -> NoDup (posting map sk).
Proof. intros [_ Hm]. unfold posting. destruct (jget map sk) eqn:E; [by apply (Hm sk)|constructor]. Qed.

Lemma add_posting_spec pk map sk :
  posting_wf map ->
  posting_wf (add_posting pk map sk) /\
  forall sk' pk', pk' ∈ posting (add_posting pk map sk) sk' <-> (sk' = sk /\ pk' = pk) \/ pk' ∈ posting map sk'.
Proof.
  intros Hm. pose proof (posting_NoDup map sk Hm) as Hn. destruct Hm as [Hwf Hm]. unfold add_posting. split.
  - split; [by apply jwf_set|]. intros sk' set. rewrite jget_set. case_decide; [|apply Hm]. intros [= <-].
    split; [by apply NoDup_sadd|]. intros E. assert (Hin : pk ∈ sadd (default [] (jget map sk)) pk).
    { apply elem_of_sadd. by left. } by rewrite E in Hin; apply elem_of_nil in Hin.
  - intros sk' pk'. unfold posting. rewrite jget_set. destruct (decide (sk = sk')) as [<-|Hne]; cbn.
    + rewrite elem_of_sadd. naive_solver.
    + naive_solver.
Qed.

Lemma del_posting_spec pk map sk :
  posting_wf map ->
  posting_wf (del_posting pk map sk) /\
  forall sk' pk', pk' ∈ posting (del_posting pk map sk) sk' <-> ~ (sk' = sk /\ pk' = pk) /\ pk' ∈ posting map sk'.
Proof.
  intros Hm. pose proof (posting_NoDup map sk Hm) as Hn. pose proof Hm as [Hwf Hs]. unfold del_posting.
  unfold posting at 1 in Hn. unfold posting. destruct (jget map sk) as [set|] eqn:E; cbn in Hn.
  2:{ split; [done|]. intros sk' pk'. split; [|by intros [_ ?]]. intros Hin. split; [|done].
      intros [-> ->]. by rewrite E in Hin; apply elem_of_nil in Hin. }
  assert (Hd : forall pk', pk' ∈ sdel set pk <-> pk' <> pk /\ pk' ∈ set) by (intros; apply elem_of_sdel).
  case_decide as Hemp.
  - split.
    + split; [by apply jwf_del|]. intros sk' set'. rewrite jget_del by done. case_decide; [done|apply Hs].
    + intros sk' pk'. rewrite jget_del by done. destruct (decide (sk = sk')) as [<-|Hne]; cbn.
      * rewrite E. cbn. specialize (Hd pk'). rewrite Hemp in Hd. set_solver.
      * naive_solver.
  - split.
    + split; [by apply jwf_set|]. intros sk' set'. rewrite jget_set. case_decide; [|apply Hs]. intros [= <-].
      split; [by apply NoDup_filter|done].
    + intros sk' pk'. rewrite jget_set. destruct (decide (sk = sk')) as [<-|Hne]; cbn.
      * rewrite E. cbn. rewrite Hd. naive_solver.
      * naive_solver.
Qed.

Lemma add_postings_spec pk keys : forall map,
  posting_wf map ->
  posting_wf (fold_left (add_posting pk) keys map) /\
  forall sk pk', pk' ∈ posting (fold_left (add_posting pk) keys map) sk <->
    (sk ∈ keys /\ pk' = pk) \/ pk' ∈ posting map sk.
Proof.
  induction keys as [|k keys IH]; intros map Hm; cbn [fold_left]; [split; [done|set_solver]|].
  destruct (add_posting_spec pk map k Hm) as [Hm' Hp].
  destruct (IH _ Hm') as [Hm2 Hp2]. split; [done|]. intros sk pk'. rewrite Hp2, Hp, elem_of_cons. tauto.
Qed.

Lemma del_postings_spec pk keys : forall map,
  posting_wf map ->
  posting_wf (fold_left (del_posting pk) keys map) /\
  forall sk pk', pk' ∈ posting (fold_left (del_posting pk) keys map) sk <->
    ~ (sk ∈ keys /\ pk' = pk) /\ pk' ∈ posting map sk.
Proof.
  induction keys as [|k keys IH]; intros map Hm; cbn [fold_left]; [split; [done|set_solver]|].
  destruct (del_posting_spec pk map k Hm) as [Hm' Hp].
  destruct (IH _ Hm') as [Hm2 Hp2]. split; [done|]. intros sk pk'. rewrite Hp2, Hp, elem_of_cons. tauto.
Qed.

(** * Ordered postings *)

Lemma insert_all_spec pk vals : forall t P,
  NoDup vals -> (forall v, v ∈ vals -> ~ P v pk) -> holds t P ->
  holds (fold_left (fun l v => oi_insert l v pk) vals t) (fun v pk' => (v ∈ vals /\ pk' = pk) \/ P v pk').
Proof.
  induction vals as [|v vals IH]; intros t P Hn Hv Ht; cbn [fold_left].
  { eapply holds_iff; [|exact Ht]. set_solver. }
  apply NoDup_cons in Hn as [Hnv Hn].
  eapply holds_iff; [|apply IH; [done| |apply holds_insert, Ht]].
  - cbn. intros v' pk'. rewrite elem_of_cons. tauto.
  - intros v' Hv' [[-> _]|HP]; [done|]. apply (Hv v'); [by right|done].
  - apply Hv. by left.
Qed.

Lemma delete_all_spec pk vals : forall t P,
  holds t P ->
  holds (fold_left (fun l v => (oi_delete l v pk).1) vals t) (fun v pk' => ~ (v ∈ vals /\ pk' = pk) /\ P v pk').
Proof.
  induction vals as [|v vals IH]; intros t P Ht; cbn [fold_left].
  { eapply holds_iff; [|exact Ht]. set_solver. }
  eapply holds_iff; [|apply IH, holds_delete, Ht].
  cbn. intros v' pk'. rewrite elem_of_cons. tauto.
Qed.

Lemma dedup_spec l : NoDup (dedup l) /\ forall n, n ∈ dedup l <-> n ∈ l.
Proof.
  unfold dedup.
  enough (H : forall acc, NoDup acc ->
    NoDup (fold_left (fun acc n => if decide (n ∈ acc) then acc else acc ++ [n]) l acc) /\
    forall n, n ∈ fold_left (fun acc n => if decide (n ∈ acc) then acc else acc ++ [n]) l acc <-> n ∈ acc \/ n ∈ l).
  { destruct (H []) as [H1 H2]; [constructor|]. split; [done|]. intros n. rewrite H2. set_solver. }
  induction l as [|x l IH]; intros acc Hacc; cbn [fold_left]; [split; [done|set_solver]|].
  case_decide as Hx.
  - destruct (IH acc Hacc) as [H1 H2]. split; [done|]. intros n. rewrite H2. set_solver.
  - destruct (IH (acc ++ [x])) as [H1 H2].
    { apply NoDup_app. split_and!; [done|set_solver|apply NoDup_singleton]. }
    split; [done|]. intros n. rewrite H2. set_solver.
Qed.

(** * What an index holds *)

(** The current documents. *)
Abbreviation docs := (jsstr -> option json).

Definition upd (D : docs) (pk : jsstr) (o : option json) : docs := fun k => if decide (k = pk) then o else D k.

(** The keys an index keeps for a document, if it indexes it at all. *)
Definition eq_keys (d : index_def) (doc : json) : option (list jsstr) :=
  if bool_decide (getField doc (field d) = None) && sparse d then None
  else Some (scalarKey <$> flatten (getField doc (field d))).

Definition range_keys (d : index_def) (doc : json) : option (list Z) :=
  match dedup (numbers (flatten (getField doc (field d)))) with [] => None | vs => Some vs end.

Definition repr_one (i : any_index) (D : docs) : Prop :=
  match i with
  | EqIndex d map byPk =>
      posting_wf map /\ jwf byPk /\ (forall pk, jget byPk pk = D pk ≫= eq_keys d) /\
      (forall sk pk, pk ∈ posting map sk <-> exists ks, jget byPk pk = Some ks /\ sk ∈ ks)
  | RangeIndex d t byPk =>
      jwf byPk /\ (forall pk, jget byPk pk = D pk ≫= range_keys d) /\
      holds t (fun v pk => exists vs, jget byPk pk = Some vs /\ v ∈ vs)
  end.

Lemma range_keys_NoDup d doc vs : range_keys d doc = Some vs -> NoDup vs.
Proof.
  unfold range_keys. pose proof (proj1 (dedup_spec (numbers (flatten (getField doc (field d)))))) as Hn.
  destruct (dedup _); [done|]. by intros [= <-].
Qed.

Lemma range_keys_none d doc : getField doc (field d) = None -> range_keys d doc = None.
Proof. intros E. unfold range_keys. by rewrite E. Qed.

Lemma remove_one_spec pk i D : repr_one i D -> repr_one (remove_one pk i) (upd D pk None).
Proof.
  destruct i as [d map byPk|d t byPk]; cbn [repr_one remove_one].
  - intros (Hm & Hb & HD & Hp). destruct (jget byPk pk) as [keys|] eqn:E.
    + destruct (del_postings_spec pk keys map Hm) as [Hm' Hp']. split; [done|]. split; [by apply jwf_del|]. split.
      * intros pk'. rewrite jget_del by done. unfold upd.
        destruct (decide (pk = pk')) as [<-|?]; [by rewrite decide_True|rewrite decide_False by congruence; apply HD].
      * intros sk pk'. rewrite Hp', Hp, jget_del by done. case_decide; subst; [|naive_solver].
        split; [|by intros (? & ? & ?)]. intros [Hn (ks & Hks & Hin)]. rewrite E in Hks. naive_solver.
    + split_and!; [done..| |done]. intros pk'. unfold upd. case_decide; [by subst|apply HD].
  - intros (Hb & HD & Ht). destruct (jget byPk pk) as [old|] eqn:E.
    + split; [by apply jwf_del|]. split.
      * intros pk'. rewrite jget_del by done. unfold upd.
        destruct (decide (pk = pk')) as [<-|?]; [by rewrite decide_True|rewrite decide_False by congruence; apply HD].
      * eapply holds_iff; [|apply (delete_all_spec pk old), Ht]. intros v pk'. cbn.
        rewrite jget_del by done. case_decide; subst; [|naive_solver].
        split; [|by intros (? & ? & ?)]. intros [Hn (ks & Hks & Hin)]. rewrite E in Hks. naive_solver.
    + split_and!; [done| |done]. intros pk'. unfold upd. case_decide; [by subst|apply HD].
Qed.

Lemma add_one_spec pk doc i D :
  D pk = None -> repr_one i D -> repr_one (add_one pk doc i) (upd D pk (Some doc)).
Proof.
  intros Hpk. destruct i as [d map byPk|d t byPk]; cbn [repr_one].
  - intros (Hm & Hb & HD & Hp). unfold add_one. cbn [def_of].
    assert (Hbk : jget byPk pk = None) by by rewrite HD, Hpk.
    assert (HD' : forall pk', (upd D pk (Some doc) pk' ≫= eq_keys d) =
      if decide (pk' = pk) then eq_keys d doc else jget byPk pk').
    { intros pk'. unfold upd. case_decide; [done|]. by rewrite HD. }
    unfold eq_keys in HD' at 2. destruct (bool_decide _ && sparse d) eqn:Es.
    + split_and!; [done..| |done]. intros pk'. rewrite HD'. case_decide; [by subst|done].
    + destruct (add_postings_spec pk (scalarKey <$> flatten (getField doc (field d))) map Hm) as [Hm' Hp'].
      split; [done|]. split; [by apply jwf_set|]. split.
      * intros pk'. rewrite HD', jget_set.
        destruct (decide (pk = pk')) as [<-|?]; [by rewrite decide_True|by rewrite decide_False by congruence].
      * intros sk pk'. rewrite Hp', Hp, jget_set. case_decide; subst; [|naive_solver].
        rewrite Hbk. naive_solver.
  - intros (Hb & HD & Ht). unfold add_one. cbn [def_of].
    assert (Hbk : jget byPk pk = None) by by rewrite HD, Hpk.
    assert (HD' : forall pk', (upd D pk (Some doc) pk' ≫= range_keys d) =
      if decide (pk' = pk) then range_keys d doc else jget byPk pk').
    { intros pk'. unfold upd. case_decide; [done|]. by rewrite HD. }
    assert (Hkeep : range_keys d doc = None -> repr_one (RangeIndex d t byPk) (upd D pk (Some doc))).
    { intros Hn. split_and!; [done| |done]. intros pk'. rewrite HD', Hn. case_decide; [by subst|done]. }
    destruct (bool_decide _ && sparse d) eqn:Es.
    { apply Hkeep, range_keys_none. by apply andb_true_iff in Es as [?%bool_decide_eq_true _]. }
    pose proof (range_keys_NoDup d doc) as Hnd. unfold range_keys in HD' at 2, Hkeep, Hnd.
    destruct (dedup _) as [|v vs] eqn:Ev; [by apply Hkeep|]. clear Hkeep. specialize (Hnd _ eq_refl).
    split; [by apply jwf_set|]. split.
    + intros pk'. rewrite HD', jget_set.
        destruct (decide (pk = pk')) as [<-|?]; [by rewrite decide_True|by rewrite decide_False by congruence].
    + eapply holds_iff; [|apply (insert_all_spec pk (v :: vs)); [done| |exact Ht]].
      * intros w pk'. cbn. rewrite jget_set. case_decide; subst; [|naive_solver]. rewrite Hbk. naive_solver.
      * intros w _ (ks & Hks & _). congruence.
Qed.

Lemma clear_one_spec i : repr_one (clear_one i) (fun _ => None).
Proof.
  destruct i as [d map byPk|d t byPk]; cbn.
  - split_and!; [split; [constructor|done]|constructor|done|]. intros sk pk. cbn.
    split; [by intros ?%elem_of_nil|by intros (? & ? & ?)].
  - split_and!; [constructor|done|]. exists []. split; [apply oi_repr_empty|].
    intros v pk. split; [by intros ?%elem_of_nil|by intros (? & ? & ?)].
Qed.

(** ** Elements *)

Definition eq_elem (d : index_def) (D : docs) (sk pk : jsstr) : Prop :=
  exists doc, D pk = Some doc /\ sk ∈ (eq_vals d doc).*1.
Definition range_elem (d : index_def) (D : docs) (v : Z) (pk : jsstr) : Prop :=
  exists doc, D pk = Some doc /\ v ∈ (range_vals d doc).*1.

Lemma eq_vals_keys d doc : (eq_vals d doc).*1 = default [] (eq_keys d doc).
Proof.
  unfold eq_vals, eq_keys. destruct (_ && _); [done|]. cbn. unfold Datatypes.id.
  rewrite <- list_fmap_compose. done.
Qed.

Lemma elem_range_vals d doc v : v ∈ (range_vals d doc).*1 <-> v ∈ default [] (range_keys d doc).
Proof.
  unfold range_vals, range_keys. rewrite <- list_fmap_compose. cbn. rewrite list_fmap_id.
  rewrite <- (proj2 (dedup_spec _)). destruct (dedup _); done.
Qed.

Lemma elem_bind {K} (f : json -> option (list K)) o x :
  (exists ks, o ≫= f = Some ks /\ x ∈ ks) <-> exists doc, o = Some doc /\ x ∈ default [] (f doc).
Proof.
  split.
  - intros (ks & E & Hin). destruct o as [doc|]; [|done]. exists doc. cbn in E. by rewrite E.
  - intros (doc & -> & Hin). cbn. destruct (f doc) as [ks|]; [by exists ks|]. by apply elem_of_nil in Hin.
Qed.

Lemma eq_repr_elem d map byPk D sk pk :
  repr_one (EqIndex d map byPk) D -> pk ∈ posting map sk <-> eq_elem d D sk pk.
Proof.
  intros (_ & _ & HD & Hp). rewrite Hp, HD, elem_bind. unfold eq_elem.
  split; intros (doc & E & Hin); exists doc; split; try done; by rewrite eq_vals_keys in *.
Qed.

Lemma range_repr_elem d t byPk D :
  repr_one (RangeIndex d t byPk) D -> holds t (range_elem d D).
Proof.
  intros (_ & HD & Ht). eapply holds_iff; [|exact Ht]. intros v pk. cbn. rewrite HD, elem_bind. unfold range_elem.
  split; intros (doc & E & Hin); exists doc; split; try done; by apply elem_range_vals.
Qed.

(** * Claims *)

Definition is_ok {A B} (r : result A B) : Prop := exists x, r = Ok x.

Section claims.
Context {K : Type} `{EqDecision K} (name : jsstr) (holders : K -> list jsstr) (touched : list jsstr).

(** No untouched key but [pk] holds [k]. *)
Definition free (pk : jsstr) (k : K) : Prop := forall pk2, pk2 ∈ holders k -> pk2 = pk \/ pk2 ∈ touched.

Lemma free_test pk k :
  existsb (fun pk2 => bool_decide (pk2 <> pk) && bool_decide (pk2 ∉ touched)) (holders k) = false <-> free pk k.
Proof.
  rewrite <- not_true_iff_false, existsb_exists. unfold free. split.
  - intros Hn pk2 Hin. destruct (decide (pk2 = pk)); [by left|].
    destruct (decide (pk2 ∈ touched)); [by right|]. destruct Hn. exists pk2.
    split; [by apply list_elem_of_In|]. by rewrite !bool_decide_eq_true_2.
  - intros Hf (pk2 & Hin & Ht). apply list_elem_of_In in Hin. apply andb_true_iff in Ht as [H1 H2].
    apply bool_decide_eq_true in H1, H2. by destruct (Hf pk2 Hin).
Qed.

Definition agrees (claimed : list (K * jsstr)) (pk : jsstr) (k : K) : Prop :=
  forall prev, jget claimed k = Some prev -> prev = pk.

Lemma agrees_test claimed pk k :
  match jget claimed k with Some prev => bool_decide (prev <> pk) | None => false end = false <->
  agrees claimed pk k.
Proof.
  unfold agrees. destruct (jget claimed k) as [prev|]; [|by split].
  rewrite bool_decide_eq_false. split; [|naive_solver]. intros Hn ? [= <-]. by apply dec_stable.
Qed.

Lemma claim_spec pk vals : forall claimed,
  (is_ok (claim name holders touched pk vals claimed) <->
   forall k, k ∈ vals.*1 -> free pk k /\ agrees claimed pk k) /\
  forall c', claim name holders touched pk vals claimed = Ok c' ->
    forall k, jget c' k = if decide (k ∈ vals.*1) then Some pk else jget claimed k.
Proof.
  induction vals as [|[k v] vals IH]; intros claimed; cbn [claim fmap list_fmap].
  { split; [split; [by intros _ ? ?%elem_of_nil|by eexists]|]. intros c' [= <-] k.
    rewrite decide_False; [done|]. by intros ?%elem_of_nil. }
  destruct (IH (jset claimed k pk)) as [IH1 IH2].
  assert (Hag : forall k', agrees (jset claimed k pk) pk k' <-> k' = k \/ agrees claimed pk k').
  { intros k'. unfold agrees. rewrite jget_set. case_decide; subst; naive_solver. }
  destruct (existsb _ (holders k)) eqn:E1; [|destruct (match jget claimed k with Some _ => _ | None => _ end) eqn:E2].
  - split; [|done]. split; [by intros [? ?]|]. intros Hall. destruct (Hall k) as [Hf _]; [by left|].
    apply free_test in Hf. congruence.
  - split; [|done]. split; [by intros [? ?]|]. intros Hall. destruct (Hall k) as [_ Ha]; [by left|].
    apply agrees_test in Ha. congruence.
  - apply free_test in E1. apply agrees_test in E2. split.
    + rewrite IH1. cbn. split.
      * intros Hall k' [->|Hin]%elem_of_cons; [done|]. destruct (Hall k' Hin) as [Hf Ha].
        split; [done|]. apply Hag in Ha as [->|Ha]; done.
      * intros Hall k' Hin. destruct (Hall k') as [Hf Ha]; [by right|]. split; [done|]. apply Hag. by right.
    + intros c' Hc k'. rewrite (IH2 c' Hc), jget_set. cbn.
      destruct (decide (k = k')) as [<-|Hne]; repeat case_decide; set_solver.
Qed.

Context {Doc : Type} (vals : Doc -> list (K * option json)).

(** [pk] claims [k] in the batch. *)
Definition claims (ops : list (jsstr * option Doc)) (k : K) (pk : jsstr) : Prop :=
  exists doc, (pk, Some doc) ∈ ops /\ k ∈ (vals doc).*1.

Lemma claims_cons pk o ops k pk' :
  claims ((pk, o) :: ops) k pk' <->
  (pk' = pk /\ exists doc, o = Some doc /\ k ∈ (vals doc).*1) \/ claims ops k pk'.
Proof. unfold claims. setoid_rewrite elem_of_cons. naive_solver. Qed.

Lemma claim_all_spec ops : forall claimed,
  is_ok (claim_all name holders touched vals ops claimed) <->
  (forall k pk, claims ops k pk -> free pk k /\ agrees claimed pk k) /\
  (forall k pk1 pk2, claims ops k pk1 -> claims ops k pk2 -> pk1 = pk2).
Proof.
  induction ops as [|[pk [doc|]] ops IH]; intros claimed; cbn [claim_all].
  - split; [intros _|by eexists]. split; [intros k pk (? & ?%elem_of_nil & _)|intros k pk1 pk2 (? & ?%elem_of_nil & _)]; done.
  - destruct (claim_spec pk (vals doc) claimed) as [Hok Hget].
    destruct (claim name holders touched pk (vals doc) claimed) as [c'|e] eqn:Ec; cbn [rbind].
    + specialize (Hget c' eq_refl). assert (Hv : forall k, k ∈ (vals doc).*1 -> free pk k /\ agrees claimed pk k).
      { apply Hok. by eexists. } clear Hok.
      assert (Hag : forall k pk', agrees c' pk' k <->
        (k ∈ (vals doc).*1 /\ pk' = pk) \/ ((k ∉ (vals doc).*1) /\ agrees claimed pk' k)).
      { intros k pk'. unfold agrees. rewrite Hget. case_decide; naive_solver. }
      rewrite IH. setoid_rewrite claims_cons. setoid_rewrite Hag. split.
      * intros [H1 H2]. split.
        -- intros k pk' [[-> (? & [= <-] & Hin)]|Hc]; [by apply Hv|].
           destruct (H1 k pk' Hc) as [Hf [[Hin ->]|[Hn Ha]]]; [by apply Hv|done].
        -- intros k pk1 pk2 [[-> (? & [= <-] & Hin)]|Hc1] [[-> (? & [= <-] & Hin2)]|Hc2]; [done| | |by eapply H2].
           ++ by destruct (H1 k pk2 Hc2) as [_ [[_ ->]|[? _]]].
           ++ by destruct (H1 k pk1 Hc1) as [_ [[_ ->]|[? _]]].
      * intros [H1 H2]. split; [|by eauto]. intros k pk' Hc. destruct (H1 k pk') as [Hf Ha]; [by right|].
        split; [done|]. destruct (decide (k ∈ (vals doc).*1)) as [Hin|Hn]; [left|by right].
        split; [done|]. apply (H2 k); [by right|left; eauto].
    + split; [by intros [? ?]|]. intros [H1 _]. exfalso.
      enough (is_ok (@Err index_error (list (K * jsstr)) e)) as [? ?] by done.
      apply Hok. intros k Hin. apply H1, claims_cons. left. eauto.
  - rewrite IH. setoid_rewrite claims_cons. naive_solver.
Qed.
End claims.

(** * Uniqueness *)

(** The documents after a batch whose last ops per key are [ops]. *)
Definition after (D : docs) (ops : list (jsstr * option json)) : docs :=
  fun pk => match jget ops pk with Some o => o | None => D pk end.

Definition functional {K} (E : K -> jsstr -> Prop) : Prop := forall k p1 p2, E k p1 -> E k p2 -> p1 = p2.

Lemma claim_all_functional {K} `{EqDecision K} name (holders : K -> list jsstr)
    (vals : json -> list (K * option json)) (D : docs) ops :
  let E D k pk := exists doc, D pk = Some doc /\ k ∈ (vals doc).*1 in
  jwf ops -> (forall k pk, pk ∈ holders k <-> E D k pk) -> functional (E D) ->
  is_ok (claim_all name holders (jkeys ops) vals ops []) <-> functional (E (after D ops)).
Proof.
  intros E Hwf Hh Hu. rewrite claim_all_spec.
  assert (HE : forall k pk, E (after D ops) k pk <-> claims vals ops k pk \/ ((pk ∉ jkeys ops) /\ E D k pk)).
  { intros k pk. unfold E, after, claims. destruct (jget ops pk) as [o|] eqn:Eo.
    - assert (pk ∈ jkeys ops) by by apply (list_elem_of_fmap_2 fst _ (pk, o)), jget_Some_in.
      split.
      + intros (doc & -> & Hin). left. exists doc. split; [by apply jget_Some_in|done].
      + intros [(doc & Ho & Hin)|[? _]]; [|done]. apply jget_in in Ho; [|done]. exists doc. naive_solver.
    - apply jget_None in Eo. split; [by right|]. intros [(doc & Ho & Hin)|[_ ?]]; [|done].
      by apply (list_elem_of_fmap_2 fst) in Ho. }
  split.
  - intros [H1 H2] k p1 p2 [Hc1|[Hn1 He1]]%HE [Hc2|[Hn2 He2]]%HE; [by eapply H2| | |by eapply Hu].
    + destruct (H1 k p1 Hc1) as [Hf _]. apply Hh in He2. by destruct (Hf p2 He2).
    + destruct (H1 k p2 Hc2) as [Hf _]. apply Hh in He1. by destruct (Hf p1 He1).
  - intros HF. split.
    + intros k pk Hc. split; [|done]. intros pk2 He%Hh.
      destruct (decide (pk2 ∈ jkeys ops)) as [|Hn]; [by right|left]. apply (HF k); apply HE; auto.
    + intros k p1 p2 H1 H2. apply (HF k); apply HE; auto.
Qed.

Definition uniq_one (i : any_index) (D : docs) : Prop :=
  match i with
  | EqIndex d _ _ => functional (eq_elem d D)
  | RangeIndex d _ _ => functional (range_elem d D)
  end.

(** A bounded scan at one value finds its holders. *)
Lemma range_at t (P : Z -> jsstr -> Prop) v :
  holds t P ->
  exists hits, StronglySorted (ent_lt cmpNumber cmpString) hits /\
    (forall v' pk, (v', pk) ∈ hits <-> v' = v /\ P v pk) /\
    forall c, oi_range t (eq_bounds v c) = take_opt c hits.
Proof.
  intros (l & Hl & Hin). pose proof (oi_repr_sorted _ _ Hl) as Hs.
  exists (List.filter (fun e => in_bounds cmpNumber (eq_bounds v None) e.1) l). split_and!.
  - by apply SS_filter.
  - intros v' pk. rewrite list_elem_of_In, List.filter_In, <- list_elem_of_In, Hin. cbn.
    unfold in_bounds, stop_fwd, stop_rev, cmpNumber. cbn. rewrite andb_true_iff, !negb_true_iff, !orb_false_r.
    rewrite !Z.ltb_ge. split; [|intros [-> ?]; split; [done|lia]]. intros [HP ?].
    assert (v' = v) as -> by lia. done.
  - intros c. rewrite (oi_range_spec _ l), (range_list_spec cmpNumber cmpString) by (done || by right).
    unfold range_spec. cbn. by rewrite drop_0.
Qed.

Lemma range_holders t P v pk : holds t P -> pk ∈ (oi_range t (eq_bounds v None)).*2 <-> P v pk.
Proof.
  intros Ht. destruct (range_at t P v Ht) as (hits & _ & Hin & ->). cbn. rewrite list_elem_of_fmap. split.
  - intros ([v' pk'] & -> & He). by apply Hin in He as [-> ?].
  - intros HP. exists (v, pk). split; [done|]. by apply Hin.
Qed.

Lemma is_ok_then {A B C} (r : result A B) (y : C) : is_ok (rbind r (fun _ => Ok y)) <-> is_ok r.
Proof. destruct r; cbn; split; intros [? ?]; try done; by eexists. Qed.

Lemma checkBatch_one_spec name i D ops :
  jwf ops -> repr_one i D -> (unique (def_of i) = true -> uniq_one i D) ->
  is_ok (checkBatch_one ops name i) <-> (unique (def_of i) = true -> uniq_one i (after D ops)).
Proof.
  intros Hwf Hr Hu. unfold checkBatch_one. destruct (unique (def_of i)).
  2:{ split; [done|by eexists]. }
  specialize (Hu eq_refl). destruct i as [d map byPk|d t byPk]; rewrite is_ok_then; cbn in Hu |- *.
  - rewrite (claim_all_functional _ _ _ D); [naive_solver|done| |done].
    intros k pk. by apply (eq_repr_elem d map byPk).
  - rewrite (claim_all_functional _ _ _ D); [naive_solver|done| |done].
    intros k pk. by apply (range_holders t (range_elem d D)), (range_repr_elem d t byPk).
Qed.

Lemma denied_spec pk i D doc :
  repr_one i D -> uniq_one i D ->
  (exists v, v ∈ flatten (getField doc (field (def_of i))) /\ denied pk i v = true) <->
  match i with
  | EqIndex d _ _ => exists sk pk', sk ∈ scalarKey <$> flatten (getField doc (field d)) /\ eq_elem d D sk pk' /\ pk' <> pk
  | RangeIndex d _ _ => exists v pk', v ∈ (range_vals d doc).*1 /\ range_elem d D v pk' /\ pk' <> pk
  end.
Proof.
  intros Hr Hu. destruct i as [d map byPk|d t byPk]; cbn [denied def_of].
  - pose proof (fun sk pk' => eq_repr_elem d map byPk D sk pk' Hr) as Hel. unfold posting in Hel.
    assert (Hden : forall v, match jget map (scalarKey v) with
      | Some set => (1 <? length set)%nat || ((length set =? 1)%nat && bool_decide (pk ∉ set)) | None => false end = true <->
      exists pk', eq_elem d D (scalarKey v) pk' /\ pk' <> pk).
    { intros v. setoid_rewrite <- Hel. cbn in Hu. destruct Hr as (Hm & _).
      pose proof (posting_NoDup map (scalarKey v) Hm) as Hnd. unfold posting in Hnd.
      pose proof (fun p1 p2 => Hu (scalarKey v) p1 p2) as Hu'. setoid_rewrite <- Hel in Hu'.
      destruct (jget map (scalarKey v)) as [set|]; cbn in *.
      2:{ split; [done|]. by intros (? & ?%elem_of_nil & _). }
      destruct set as [|a [|b set]]; cbn.
      - split; [done|]. by intros (? & ?%elem_of_nil & _).
      - rewrite bool_decide_eq_true, list_elem_of_singleton. split.
        + intros Hn. exists a. split; [by left|congruence].
        + intros (pk' & Hin%list_elem_of_singleton & Hne). congruence.
      - apply NoDup_cons in Hnd as [Hn _]. rewrite (Hu' a b) in Hn; [set_solver|by left|by right; left]. }
    setoid_rewrite Hden. setoid_rewrite list_elem_of_fmap. naive_solver.
  - apply range_repr_elem in Hr. cbn in Hu.
    assert (Hden : forall n, match oi_range t (eq_bounds n (Some 1)) with
      | (_, pk') :: _ => bool_decide (pk' <> pk) | [] => false end = true <->
      exists pk', range_elem d D n pk' /\ pk' <> pk).
    { intros n. destruct (range_at t _ n Hr) as (hits & _ & Hin & ->).
      cbn [take_opt]. change (Z.to_nat 1) with 1%nat. destruct hits as [|[v' pk'] hits]; cbn.
      - split; [done|]. intros (pk' & HP & _). exfalso. by eapply elem_of_nil, (Hin n pk').
      - assert (Hp : v' = n /\ range_elem d D n pk') by (apply Hin; by left). destruct Hp as [-> Hp].
        rewrite bool_decide_eq_true. split; [by eauto|]. intros (pk2 & HP & Hne). by rewrite (Hu n pk' pk2). }
    unfold range_vals. rewrite <- list_fmap_compose. cbn. setoid_rewrite list_fmap_id. split.
    + intros ([[]|] & Hin & Hd); try discriminate. apply Hden in Hd as (pk' & HP & Hne).
      exists n, pk'. split_and!; [|done..]. unfold numbers. apply list_elem_of_omap. eauto.
    + intros (n & pk' & Hin & HP & Hne). unfold numbers in Hin.
      apply list_elem_of_omap in Hin as ([[]|] & Hin & Hsome); try discriminate. injection Hsome as ->.
      exists (Some (JNumber n)). split; [done|]. apply Hden. eauto.
Qed.

(** * The manager *)

Definition repr_mgr (m : manager) (D : docs) : Prop := jwf m /\ Forall (fun e => repr_one e.2 D) m.

(** Every unique index holds each element for one key at most. *)
Definition uniq_mgr (m : manager) (D : docs) : Prop :=
  Forall (fun e => unique (def_of e.2) = true -> uniq_one e.2 D) m.

Lemma jkeys_map_values (f : any_index -> any_index) (m : manager) : jkeys (prod_map id f <$> m) = jkeys m.
Proof. unfold jkeys. rewrite <- list_fmap_compose. by apply list_fmap_ext. Qed.

Lemma jget_map_values (f : any_index -> any_index) (m : manager) name :
  jget (prod_map id f <$> m) name = f <$> jget m name.
Proof. induction m as [|[n i] m IH]; cbn; [done|]. by case_decide. Qed.

Lemma repr_map_values (f : any_index -> any_index) m D D' :
  (forall i, repr_one i D -> repr_one (f i) D') -> repr_mgr m D -> repr_mgr (prod_map id f <$> m) D'.
Proof.
  intros Hf [Hwf Hm]. split; [by unfold jwf; rewrite jkeys_map_values|].
  rewrite Forall_fmap. eapply Forall_impl; [exact Hm|]. intros [n i]. cbn. apply Hf.
Qed.

Lemma add_spec m D pk doc : D pk = None -> repr_mgr m D -> repr_mgr (add m pk doc) (upd D pk (Some doc)).
Proof. intros Hpk. apply repr_map_values. intros i. by apply add_one_spec. Qed.

Lemma remove_spec m D pk : repr_mgr m D -> repr_mgr (remove m pk) (upd D pk None).
Proof. apply repr_map_values. intros i. apply remove_one_spec. Qed.

Lemma repr_one_ext i D D' : (forall pk, D pk = D' pk) -> repr_one i D -> repr_one i D'.
Proof.
  intros HD. destruct i as [d map byPk|d t byPk]; cbn; setoid_rewrite HD; done.
Qed.

Lemma repr_mgr_ext m D D' : (forall pk, D pk = D' pk) -> repr_mgr m D -> repr_mgr m D'.
Proof. intros HD [Hwf Hm]. split; [done|]. eapply Forall_impl; [exact Hm|]. intros e. by apply repr_one_ext. Qed.

Lemma clear_spec (m : manager) : jwf m -> repr_mgr (prod_map id clear_one <$> m) (fun _ => None).
Proof.
  intros Hwf. split; [by unfold jwf; rewrite jkeys_map_values|].
  rewrite Forall_fmap. apply Forall_forall. intros [n i] _. apply clear_one_spec.
Qed.

(** The documents a rebuild indexes. *)
Definition indexable_docs (entries : list (jsstr * json)) : docs :=
  fun pk => v ← jget entries pk; if is_object v then Some v else None.

Lemma rebuild_spec m entries : jwf m -> jwf entries -> repr_mgr (rebuild m entries) (indexable_docs entries).
Proof.
  intros Hm. unfold rebuild.
  enough (H : forall entries m D, jwf entries -> (forall pk, pk ∈ jkeys entries -> D pk = None) -> repr_mgr m D ->
    repr_mgr (fold_left (fun m '(pk, v) => if is_object v then add m pk v else m) entries m)
      (fun pk => match jget entries pk with Some v => if is_object v then Some v else None | None => D pk end)).
  { intros He. eapply repr_mgr_ext; [|apply (H entries _ (fun _ => None)); [done|done|by apply clear_spec]].
    intros pk. unfold indexable_docs. by destruct (jget entries pk). }
  clear. induction entries as [|[pk v] entries IH]; intros m D He Hn Hr; [done|].
  apply NoDup_cons in He as [Hpk He]. cbn [fold_left jget].
  assert (Hpk' : jget entries pk = None) by by apply jget_None.
  destruct (is_object v) eqn:Ev.
  - eapply repr_mgr_ext; [|apply (IH (add m pk v) (upd D pk (Some v)) He)].
    + intros pk'. cbn. unfold upd. destruct (decide (pk = pk')) as [<-|Hne]; [by rewrite Hpk', decide_True, Ev|].
      by rewrite (decide_False (P := pk' = pk)) by congruence.
    + intros pk' Hin. unfold upd. rewrite decide_False by (intros ->; done). apply Hn. by right.
    + apply add_spec; [|done]. apply Hn. by left.
  - eapply repr_mgr_ext; [|apply (IH m D He); [|done]].
    + intros pk'. cbn. destruct (decide (pk = pk')) as [<-|Hne]; [|done]. rewrite Hpk', Ev. apply Hn. by left.
    + intros pk' Hin. apply Hn. by right.
Qed.

(** ** Unique checks of the whole manager *)

Lemma lastOps_wf ops : jwf (lastOps ops).
Proof.
  unfold lastOps. enough (H : forall m, jwf m -> jwf (fold_left (fun m '(pk, o) => jset m pk o) ops m)).
  { apply H. constructor. }
  induction ops as [|[pk o] ops IH]; intros m Hm; cbn; [done|]. by apply IH, jwf_set.
Qed.

Lemma is_ok_seq {A B C} (r : result A B) (s : result A C) : is_ok (rbind r (fun _ => s)) <-> is_ok r /\ is_ok s.
Proof.
  destruct r; cbn; [split; [split; [by eexists|done]|by intros []]|].
  split; [by intros [? ?]|by intros [[? ?] _]].
Qed.

Lemma checkBatch_loop_spec m D ops :
  jwf ops -> Forall (fun e => repr_one e.2 D) m -> uniq_mgr m D ->
  is_ok (checkBatch_loop m ops) <-> uniq_mgr m (after D ops).
Proof.
  intros Hwf Hm Hu. unfold uniq_mgr in *. induction m as [|[name i] m IH]; cbn [checkBatch_loop].
  { split; [constructor|by eexists]. }
  apply Forall_cons in Hm as [Hi Hm], Hu as [Hui Hu]. rewrite is_ok_seq, Forall_cons, IH by done.
  by rewrite (checkBatch_one_spec name i D ops).
Qed.

Lemma List_find_none {A} (p : A -> bool) l : List.find p l = None <-> ~ exists x, x ∈ l /\ p x = true.
Proof.
  split.
  - intros Hn (x & Hin & Hx). apply list_elem_of_In in Hin. by rewrite (List.find_none p l Hn x Hin) in Hx.
  - intros Hn. destruct (List.find p l) as [x|] eqn:E; [|done]. destruct Hn. exists x.
    apply List.find_some in E as [Hin Hx]. by rewrite list_elem_of_In.
Qed.

(** One document against the others. *)
Lemma functional_upd {K} (vals : json -> list (K * option json)) (D : docs) pk doc :
  let E D k pk := exists doc, D pk = Some doc /\ k ∈ (vals doc).*1 in
  functional (E D) ->
  (~ exists k pk', k ∈ (vals doc).*1 /\ E D k pk' /\ pk' <> pk) <-> functional (E (upd D pk (Some doc))).
Proof.
  intros E Hu. split.
  - intros Hn k p1 p2 (d1 & H1 & Hk1) (d2 & H2 & Hk2). unfold upd in H1, H2.
    destruct (decide (p1 = pk)) as [->|Hp1], (decide (p2 = pk)) as [->|Hp2]; [done|..].
    + injection H1 as <-. destruct Hn. exists k, p2. split_and!; [done| |done]. by exists d2.
    + injection H2 as <-. destruct Hn. exists k, p1. split_and!; [done| |done]. by exists d1.
    + apply (Hu k); [by exists d1|by exists d2].
  - intros HF (k & pk' & Hk & (d & Hd & Hk') & Hne). apply Hne, (HF k).
    + exists d. unfold upd. by rewrite decide_False.
    + exists doc. unfold upd. by rewrite decide_True.
Qed.

Lemma checkUnique_one_spec pk doc name i D :
  repr_one i D -> (unique (def_of i) = true -> uniq_one i D) ->
  is_ok (checkUnique_one pk doc name i) <-> (unique (def_of i) = true -> uniq_one i (upd D pk (Some doc))).
Proof.
  intros Hr Hu. unfold checkUnique_one. destruct (unique (def_of i)); [|split; [done|by eexists]].
  specialize (Hu eq_refl). pose proof (denied_spec pk i D doc Hr Hu) as Hd.
  assert (Hfind : is_ok (match List.find (denied pk i) (flatten (getField doc (field (def_of i)))) with
      | Some v => Err (UniqueViolation name v) | None => Ok tt end) <->
    ~ exists v, v ∈ flatten (getField doc (field (def_of i))) /\ denied pk i v = true).
  { rewrite <- List_find_none. destruct (List.find _ _); split; try done; [by intros [? ?]|by eexists]. }
  destruct i as [d map byPk|d t byPk]; cbn [def_of uniq_one] in *.
  - unfold eq_elem. rewrite <- functional_upd by exact Hu.
    destruct (bool_decide _ && sparse d) eqn:Es.
    + split; [|by eexists]. intros _ _ (k & pk' & Hk & _). unfold eq_vals in Hk. rewrite Es in Hk.
      by apply elem_of_nil in Hk.
    + rewrite Hfind, Hd. unfold eq_vals. rewrite Es. rewrite <- list_fmap_compose. naive_solver.
  - unfold range_elem. rewrite <- functional_upd by exact Hu.
    destruct (bool_decide _ && sparse d) eqn:Es.
    + apply andb_true_iff in Es as [Es%bool_decide_eq_true _]. split; [|by eexists].
      intros _ _ (k & pk' & Hk & _). unfold range_vals in Hk. rewrite Es in Hk. by apply elem_of_nil in Hk.
    + rewrite Hfind, Hd. naive_solver.
Qed.

Lemma checkUnique_spec m D pk doc :
  Forall (fun e => repr_one e.2 D) m -> uniq_mgr m D ->
  is_ok (checkUnique m pk doc) <-> uniq_mgr m (upd D pk (Some doc)).
Proof.
  intros Hm Hu. unfold uniq_mgr in *. induction m as [|[name i] m IH]; cbn [checkUnique].
  { split; [constructor|by eexists]. }
  apply Forall_cons in Hm as [Hi Hm], Hu as [Hui Hu]. rewrite is_ok_seq, Forall_cons, IH by done.
  by rewrite (checkUnique_one_spec pk doc name i D).
Qed.

(** ** An index built over existing data *)

Lemma own_vals_claim name pk vals : forall owner,
  own_vals name pk vals owner =
  claim name (fun _ => []) [] pk ((fun v => (v, Some (JNumber v))) <$> vals) owner.
Proof.
  induction vals as [|v vals IH]; intros owner; cbn; [done|]. case_match; [done|]. by rewrite IH.
Qed.

Lemma own_all_claim name byPk : forall owner,
  own_all name byPk owner =
  claim_all name (fun _ => []) [] (fun vs => (fun v => (v, Some (JNumber v))) <$> vs)
    (prod_map id Some <$> byPk) owner.
Proof.
  induction byPk as [|[pk vals] byPk IH]; intros owner; cbn; [done|]. rewrite own_vals_claim.
  destruct (claim _ _ _ _ _ _); cbn; [apply IH|done].
Qed.

Lemma own_all_spec name d t byPk D :
  repr_one (RangeIndex d t byPk) D -> is_ok (own_all name byPk []) <-> functional (range_elem d D).
Proof.
  intros (Hb & HD & _). rewrite own_all_claim, claim_all_spec.
  assert (Hc : forall k pk, claims (fun vs => (fun v => (v, Some (JNumber v))) <$> vs)
    (prod_map id Some <$> byPk) k pk <-> range_elem d D k pk).
  { intros k pk. unfold claims, range_elem. setoid_rewrite elem_range_vals. rewrite <- elem_bind, <- HD. split.
    - intros (vs & Hin & Hk). apply list_elem_of_fmap in Hin as ([pk' vs'] & [= -> ->] & Hin).
      rewrite <- list_fmap_compose in Hk. cbn in Hk. rewrite list_fmap_id in Hk.
      exists vs'. split; [by apply jget_in|done].
    - intros (vs & Hg%jget_Some_in & Hk). exists vs. split.
      + apply list_elem_of_fmap. by exists (pk, vs).
      + rewrite <- list_fmap_compose. cbn. by rewrite list_fmap_id. }
  unfold functional. setoid_rewrite Hc. split; [by intros [_ ?]|]. intros HF. split; [|done].
  intros k pk _. split; [|done]. by intros ? ?%elem_of_nil.
Qed.

Lemma assertUniqueValid_spec m name i D :
  jget m name = Some i -> repr_one i D ->
  is_ok (assertUniqueValid m name) <-> (unique (def_of i) = true -> uniq_one i D).
Proof.
  intros Hi Hr. unfold assertUniqueValid, get. rewrite Hi. cbn [rbind].
  destruct (unique (def_of i)); [|split; [done|by eexists]].
  destruct i as [d map byPk|d t byPk]; cbn [uniq_one].
  2:{ rewrite is_ok_then, (own_all_spec name d t byPk D) by done. naive_solver. }
  pose proof (fun sk pk => eq_repr_elem d map byPk D sk pk Hr) as Hel. destruct Hr as (Hm & _).
  assert (HF : functional (eq_elem d D) <-> List.find (fun '(_, set) => (1 <? length set)%nat) map = None).
  { rewrite List_find_none. unfold functional. setoid_rewrite <- Hel. split.
    - intros HF ([sk set] & Hin & Hlen). apply jget_in in Hin; [|by apply Hm].
      destruct (proj2 Hm sk set Hin) as [Hnd _]. specialize (HF sk). unfold posting in HF. rewrite Hin in HF. cbn in HF.
      destruct set as [|a [|b set]]; [done..|]. apply NoDup_cons in Hnd as [Hn _].
      destruct Hn. rewrite (HF a b); [by left|by left|by right; left].
    - intros Hn sk p1 p2. unfold posting. destruct (jget map sk) as [set|] eqn:E; cbn; [|by intros ?%elem_of_nil].
      destruct set as [|a [|b set]]; [by intros ?%elem_of_nil| |].
      + by intros ->%list_elem_of_singleton ->%list_elem_of_singleton.
      + destruct Hn. exists (sk, a :: b :: set). split; [by apply jget_Some_in|done]. }
  split.
  - intros [[] Hok] _. apply HF. by destruct (List.find _ map) as [[]|].
  - intros Hu. apply HF in Hu; [|done]. rewrite Hu. by eexists.
Qed.

(** * Values *)

(** Equality as the equality indexes see it. *)
Definition same_value (a b : option json) : Prop :=
  match a, b with
  | Some a, Some b => json_equiv a b
  | None, None => True
  | _, _ => False
  end.

Definition value_wf (v : option json) : Prop := match v with Some v => json_wf v | None => True end.

Lemma json_prefix_kind a : exists c t, stableStringify a = c :: t /\ c <> 117%N.
Proof.
  destruct (stringify_head a) as (c & t & E & Hk). exists c, t. split; [done|]. intros ->.
  destruct a as [|[]|n|s|l|fs]; cbn in Hk; try discriminate. by destruct Hk.
Qed.

Lemma scalarKey_iff a b : value_wf a -> value_wf b -> scalarKey a = scalarKey b <-> same_value a b.
Proof.
  intros Ha Hb. split.
  - assert (Hjson : forall v w, json_wf v -> json_wf w -> js "json:" ++ stableStringify v = js "json:" ++ stableStringify w -> json_equiv v w).
    { intros v w Hv Hw E%app_inv_head. by apply stringify_iff. }
    assert (Hund : forall v, js "json:" ++ stableStringify v <> js "json:undefined").
    { intros v E. change (js "json:undefined") with (js "json:" ++ js "undefined") in E.
      apply app_inv_head in E. destruct (json_prefix_kind v) as (c & t & Ev & Hc). rewrite Ev in E.
      injection E as -> _. done. }
    destruct a as [[|[]|n|s|l|fs]|], b as [[|[]|n'|s'|l'|fs']|]; cbn [scalarKey same_value];
      try discriminate; try (by constructor); try (by apply Hjson); try (by intros E; apply Hund in E);
      try (by intros E; symmetry in E; apply Hund in E).
    + intros E%app_inv_head. apply (f_equal (fun l => l ++ [])) in E.
      apply string_of_int_inj in E as [-> _]; [constructor|done..].
    + intros E%app_inv_head. subst. constructor.
  - destruct a as [a|], b as [b|]; cbn [same_value]; try done. intros He.
    pose proof (equiv_stringify _ _ He) as E.
    destruct He; cbn [scalarKey]; try done; by rewrite E.
Qed.

Lemma own_property_wf v name w : json_wf v -> own_property v name = Some w -> json_wf w.
Proof.
  destruct v as [|b|n|s|l|fs]; cbn [own_property]; try done.
  - intros Hs. case_decide; [by intros [= <-]|].
    destruct (array_index name (length s)) as [i|]; [|done]. cbn.
    destruct (s !! i) as [u|] eqn:E; [|done]. intros [= <-]. cbn. repeat constructor.
    cbn in Hs. unfold units_ok in Hs. rewrite Forall_lookup in Hs. by eapply Hs.
  - intros Hl. case_decide; [by intros [= <-]|].
    destruct (array_index name (length l)) as [i|]; [|done]. cbn. intros E.
    cbn in Hl. rewrite Forall_and_map, Forall_lookup in Hl. by eapply Hl.
  - intros Hf E. by eapply wf_field.
Qed.

Lemma getField_wf doc path : json_wf doc -> value_wf (getField doc path).
Proof.
  intros Hd. unfold getField. assert (Hv : value_wf (Some doc)) by done. revert Hv. generalize (Some doc).
  induction (split_dots path) as [|name names IH]; intros v Hv; cbn; [done|]. apply IH.
  destruct v as [v|]; [|done]. destruct v; try done; cbn [property];
    match goal with |- value_wf (own_property ?v ?n) => destruct (own_property v n) eqn:E; [|done] end;
    cbn; by eapply own_property_wf.
Qed.

Lemma flatten_wf v w : value_wf v -> w ∈ flatten v -> value_wf w.
Proof.
  destruct v as [[]|]; cbn; try (by intros ? ->%list_elem_of_singleton).
  rewrite Forall_and_map, Forall_forall. intros Hl Hin. apply list_elem_of_fmap in Hin as (x & -> & Hx).
  by apply Hl.
Qed.

(** The elements a document contributes to an equality index. *)
Definition elements (d : index_def) (doc : json) : list (option json) :=
  if bool_decide (getField doc (field d) = None) && sparse d then [] else flatten (getField doc (field d)).

Lemma eq_elem_same d D value pk :
  (forall doc, D pk = Some doc -> json_wf doc) -> value_wf value ->
  eq_elem d D (scalarKey value) pk <->
  exists doc v, D pk = Some doc /\ v ∈ elements d doc /\ same_value v value.
Proof.
  intros HD Hv. unfold eq_elem, eq_vals, elements. split.
  - intros (doc & Hd & Hin). destruct (_ && _) eqn:Eb; [by apply elem_of_nil in Hin|].
    rewrite <- list_fmap_compose in Hin. apply list_elem_of_fmap in Hin as (v & E & Hin). cbn in E.
    exists doc, v. rewrite Eb. split_and!; [done..|]. apply scalarKey_iff; [|done|by symmetry].
    eapply flatten_wf; [|done]. by apply getField_wf, HD.
  - intros (doc & v & Hd & Hin & Hs). exists doc. split; [done|].
    destruct (_ && _); [by apply elem_of_nil in Hin|].
    rewrite <- list_fmap_compose. apply list_elem_of_fmap. exists v. split; [|done]. cbn. symmetry.
    apply scalarKey_iff; [|done|done]; eapply flatten_wf; [|done]. by apply getField_wf, HD.
Qed.

(** * Runs *)

Inductive mgr_op :=
| MPut (pk : jsstr) (doc : json)
| MRemove (pk : jsstr)
| MRebuild (entries : list (jsstr * json)).

(** The database replaces a document by removing and adding it. *)
Definition run_op (m : manager) (op : mgr_op) : manager :=
  match op with
  | MPut pk doc => add (remove m pk) pk doc
  | MRemove pk => remove m pk
  | MRebuild entries => rebuild m entries
  end.

Definition run (ops : list mgr_op) (m : manager) : manager := fold_left run_op ops m.

(** The documents after [ops]. *)
Definition docs_op (D : docs) (op : mgr_op) : docs :=
  match op with
  | MPut pk doc => upd D pk (Some doc)
  | MRemove pk => upd D pk None
  | MRebuild entries => indexable_docs entries
  end.
Definition docs_after (ops : list mgr_op) : docs := fold_left docs_op ops (fun _ => None).

Definition op_wf (op : mgr_op) : Prop :=
  match op with
  | MPut _ doc => json_wf doc
  | MRemove _ => True
  | MRebuild entries => jwf entries /\ Forall (fun e => json_wf e.2) entries
  end.

Fixpoint create_all (defs : list (jsstr * (index_def * index_type))) (m : manager) : result index_error manager :=
  match defs with
  | [] => Ok m
  | (name, (d, type)) :: defs' => let? m' := create m name d type in create_all defs' m'
  end.

Lemma create_all_repr defs : forall m m0,
  repr_mgr m (fun _ => None) -> create_all defs m = Ok m0 -> repr_mgr m0 (fun _ => None).
Proof.
  induction defs as [|[name [d type]] defs IH]; intros m m0 Hm; cbn; [by intros [= <-]|].
  unfold create. destruct (bool_decide _); [|done]. cbn. destruct (negb _) eqn:En; [|done]. cbn.
  apply IH. destruct Hm as [Hwf Hm]. split; [by apply jwf_set|].
  rewrite jset_perm_new.
  - constructor; [|done]. cbn. destruct type; [apply (clear_one_spec (EqIndex d [] []))|apply (clear_one_spec (RangeIndex d oi_empty []))].
  - unfold jhas in En. by destruct (jget m name).
Qed.

Lemma run_repr ops : forall m D, Forall op_wf ops -> repr_mgr m D -> repr_mgr (run ops m) (fold_left docs_op ops D).
Proof.
  induction ops as [|op ops IH]; intros m D Hops Hm; [done|]. apply Forall_cons in Hops as [Hop Hops].
  cbn. apply IH; [done|]. destruct op as [pk doc|pk|entries]; cbn.
  - eapply repr_mgr_ext; [|apply (add_spec _ (upd D pk None))].
    + intros pk'. unfold upd. by case_decide.
    + unfold upd. by rewrite decide_True.
    + by apply remove_spec.
  - by apply remove_spec.
  - destruct Hop. apply rebuild_spec; [by destruct Hm|done].
Qed.

Lemma docs_after_wf ops pk doc : Forall op_wf ops -> docs_after ops pk = Some doc -> json_wf doc.
Proof.
  unfold docs_after. enough (H : forall D, (forall pk doc, D pk = Some doc -> json_wf doc) -> Forall op_wf ops ->
    forall pk doc, fold_left docs_op ops D pk = Some doc -> json_wf doc).
  { intros Hops. by apply (H (fun _ => None)). }
  clear pk doc. induction ops as [|op ops IH]; intros D HD Hops; [done|].
  apply Forall_cons in Hops as [Hop Hops]. cbn. apply IH; [|done].
  destruct op as [pk doc|pk|entries]; cbn; intros pk' doc'.
  - unfold upd. case_decide; [by intros [= <-]|apply HD].
  - unfold upd. case_decide; [done|apply HD].
  - unfold indexable_docs. destruct (jget entries pk') as [v|] eqn:E; [|done]. cbn.
    destruct (is_object v); [|done]. intros [= <-]. destruct Hop as [_ Hf]. rewrite Forall_forall in Hf.
    by apply (Hf (pk', v)), jget_Some_in.
Qed.

Lemma repr_jget m D name i : repr_mgr m D -> jget m name = Some i -> repr_one i D.
Proof. intros [_ Hm] Hi%jget_Some_in. rewrite Forall_forall in Hm. by apply (Hm (name, i)). Qed.

(** * The properties *)

(** No two keys share an element of the index. *)
Definition distinct (i : any_index) (D : docs) : Prop :=
  match i with
  | EqIndex d _ _ => forall p1 p2 doc1 doc2 v1 v2, D p1 = Some doc1 -> D p2 = Some doc2 ->
      v1 ∈ elements d doc1 -> v2 ∈ elements d doc2 -> same_value v1 v2 -> p1 = p2
  | RangeIndex d _ _ => forall p1 p2 doc1 doc2 n, D p1 = Some doc1 -> D p2 = Some doc2 ->
      n ∈ numbers (flatten (getField doc1 (field d))) ->
      n ∈ numbers (flatten (getField doc2 (field d))) -> p1 = p2
  end.

Definition unique_ok (m : manager) (D : docs) : Prop :=
  Forall (fun e => unique (def_of e.2) = true -> distinct e.2 D) m.

Lemma uniq_one_distinct i D : (forall pk doc, D pk = Some doc -> json_wf doc) -> uniq_one i D <-> distinct i D.
Proof.
  intros HD. destruct i as [d map byPk|d t byPk]; cbn.
  - assert (Hin : forall pk doc v, D pk = Some doc -> v ∈ elements d doc -> value_wf v /\ eq_elem d D (scalarKey v) pk).
    { intros pk doc v Hd Hv. assert (Hw : value_wf v).
      { unfold elements in Hv. destruct (_ && _); [by apply elem_of_nil in Hv|].
        eapply flatten_wf; [|done]. by apply getField_wf, (HD pk). }
      split; [done|]. apply eq_elem_same; [by eauto|done|]. exists doc, v. split_and!; [done..|].
      by apply scalarKey_iff. }
    split.
    + intros HF p1 p2 doc1 doc2 v1 v2 H1 H2 Hv1 Hv2 Hs.
      destruct (Hin p1 doc1 v1 H1 Hv1) as [Hw1 He1]. destruct (Hin p2 doc2 v2 H2 Hv2) as [Hw2 He2].
      apply (HF (scalarKey v1)); [done|]. by rewrite (proj2 (scalarKey_iff v1 v2 Hw1 Hw2) Hs).
    + intros Hd sk p1 p2 (d1 & H1 & Hk1) (d2 & H2 & Hk2).
      assert (Hel : forall p doc, D p = Some doc -> sk ∈ (eq_vals d doc).*1 -> exists v, v ∈ elements d doc /\ sk = scalarKey v).
      { intros p doc _ Hk. unfold eq_vals in Hk. unfold elements.
        revert Hk. destruct (_ && _); intros Hk; [by apply elem_of_nil in Hk|].
        rewrite <- list_fmap_compose in Hk. apply list_elem_of_fmap in Hk as (v & E & Hv). by exists v. }
      destruct (Hel p1 d1 H1 Hk1) as (v1 & Hv1 & E1). destruct (Hel p2 d2 H2 Hk2) as (v2 & Hv2 & E2).
      apply (Hd p1 p2 d1 d2 v1 v2); try done.
      destruct (Hin p1 d1 v1 H1 Hv1) as [Hw1 _]. destruct (Hin p2 d2 v2 H2 Hv2) as [Hw2 _].
      apply scalarKey_iff; congruence.
  - assert (Hn : forall doc n, n ∈ (range_vals d doc).*1 <-> n ∈ numbers (flatten (getField doc (field d)))).
    { intros doc n. unfold range_vals. rewrite <- list_fmap_compose. cbn. by rewrite list_fmap_id. }
    unfold functional, range_elem. setoid_rewrite Hn. naive_solver.
Qed.

Lemma unique_ok_uniq m D : (forall pk doc, D pk = Some doc -> json_wf doc) -> uniq_mgr m D <-> unique_ok m D.
Proof.
  intros HD. unfold uniq_mgr, unique_ok. apply Forall_iff. intros e. by rewrite (uniq_one_distinct _ D).
Qed.

Lemma created_repr defs m0 ops :
  create_all defs [] = Ok m0 -> Forall op_wf ops -> repr_mgr (run ops m0) (docs_after ops).
Proof.
  intros Hc Hops. apply run_repr; [done|]. eapply create_all_repr; [|done]. split; constructor.
Qed.

Lemma lastOps_elem batch pk o : (pk, o) ∈ lastOps batch -> (pk, o) ∈ batch.
Proof.
  unfold lastOps. enough (H : forall m, jwf m -> (pk, o) ∈ fold_left (fun m '(pk, o) => jset m pk o) batch m ->
    (pk, o) ∈ m \/ (pk, o) ∈ batch).
  { intros Hin. destruct (H []) as [?%elem_of_nil|]; [constructor|done..]. }
  induction batch as [|[pk' o'] batch IH]; intros m Hm; cbn; [by left|].
  intros [Hin|Hin]%IH; [|by right; right|by apply jwf_set].
  apply jset_in in Hin as [[-> ->]|[_ ?]]; [right; by left|by left|done].
Qed.

(** however documents were put, removed and rebuilt, an equality query returns,
    once each, exactly the keys whose document has an element equal to the value
    (up to the order of object fields), and the membership test agrees with it. *)
Theorem findEq_exact defs m0 ops name d map byPk value :
  create_all defs [] = Ok m0 -> Forall op_wf ops -> value_wf value ->
  jget (run ops m0) name = Some (EqIndex d map byPk) ->
  exists pks, findEq (run ops m0) name value = Ok pks /\ NoDup pks /\
    (forall pk, pk ∈ pks <-> exists doc v, docs_after ops pk = Some doc /\ v ∈ elements d doc /\ same_value v value) /\
    (forall pk, hasEq (run ops m0) name value pk = Ok (bool_decide (pk ∈ pks))).
Proof.
  intros Hc Hops Hv Hi. pose proof (created_repr defs m0 ops Hc Hops) as Hr.
  pose proof (repr_jget _ _ _ _ Hr Hi) as Hri. exists (posting map (scalarKey value)). split_and!.
  - unfold findEq, get. by rewrite Hi.
  - apply posting_NoDup. by destruct Hri.
  - intros pk. rewrite (eq_repr_elem d map byPk) by exact Hri. apply eq_elem_same; [|done].
    intros doc. by apply docs_after_wf.
  - intros pk. unfold hasEq, get. rewrite Hi. cbn [rbind]. f_equal. unfold posting.
    destruct (jget map (scalarKey value)); [done|]. cbn. symmetry. apply bool_decide_eq_false. by intros ?%elem_of_nil.
Qed.

(** a range query scans exactly the pairs of a number and a key whose document
    has that number, each once, ordered by number and then key, cut to the bounds,
    offset, count and direction asked for. *)
Theorem findRange_exact defs m0 ops name d t byPk o :
  create_all defs [] = Ok m0 -> Forall op_wf ops ->
  jget (run ops m0) name = Some (RangeIndex d t byPk) ->
  exists l, sorted cmpNumber cmpString l /\
    (forall n pk, (n, pk) ∈ l <->
       exists doc, docs_after ops pk = Some doc /\ n ∈ numbers (flatten (getField doc (field d)))) /\
    findRange (run ops m0) name o = Ok ((fun '(n, pk) => (pk, n)) <$> range_spec cmpNumber (range_of o) l).
Proof.
  intros Hc Hops Hi. pose proof (created_repr defs m0 ops Hc Hops) as Hr.
  pose proof (repr_jget _ _ _ _ Hr Hi) as Hri. apply range_repr_elem in Hri as (l & Hl & Hin).
  pose proof (oi_repr_sorted _ _ Hl) as Hs. exists l. split_and!; [done| |].
  - intros n pk. rewrite Hin. unfold range_elem, range_vals.
    setoid_rewrite <- list_fmap_compose. cbn. by setoid_rewrite list_fmap_id.
  - unfold findRange, get. rewrite Hi. cbn [rbind]. do 2 f_equal. rewrite (oi_range_spec _ l) by done.
    apply (range_list_spec cmpNumber cmpString); [done|].
    unfold single_start_bound, range_of. cbn.
    destruct (fr_reverse o), (fr_minExclusive o), (fr_maxExclusive o); auto.
Qed.

(** while the unique indexes hold no conflict, the check before a write accepts
    a document, and the check before a batch accepts its operations in any order
    (swaps of values included), exactly when the documents afterwards are without
    conflict; and the check of a newly built index finds exactly the conflicts. *)
Theorem unique_checks_exact defs m0 ops :
  create_all defs [] = Ok m0 -> Forall op_wf ops ->
  let m := run ops m0 in
  let D := docs_after ops in
  (forall name i, jget m name = Some i ->
     (is_ok (assertUniqueValid m name) <-> (unique (def_of i) = true -> distinct i D))) /\
  (unique_ok m D ->
     (forall pk doc, json_wf doc -> (is_ok (checkUnique m pk doc) <-> unique_ok m (upd D pk (Some doc)))) /\
     (forall batch, Forall (fun e => value_wf e.2) batch ->
        (is_ok (checkUniqueBatch m batch) <-> unique_ok m (after D (lastOps batch))))).
Proof.
  intros Hc Hops m D. pose proof (created_repr defs m0 ops Hc Hops) as Hr.
  assert (HD : forall pk doc, D pk = Some doc -> json_wf doc) by by intros; eapply docs_after_wf.
  split.
  - intros name i Hi. rewrite (assertUniqueValid_spec m name i D), (uniq_one_distinct i D); [done..|].
    by apply (repr_jget m D name).
  - rewrite <- unique_ok_uniq by done. intros Hu. destruct Hr as [_ Hr]. split.
    + intros pk doc Hdoc. rewrite (checkUnique_spec m D) by done. apply unique_ok_uniq.
      intros pk' doc'. unfold upd. case_decide; [by intros [= <-]|apply HD].
    + intros batch Hb. unfold checkUniqueBatch. rewrite (checkBatch_loop_spec m D) by (done || apply lastOps_wf).
      apply unique_ok_uniq. intros pk doc. unfold after. destruct (jget (lastOps batch) pk) as [o|] eqn:E; [|apply HD].
      apply jget_Some_in, lastOps_elem in E. rewrite Forall_forall in Hb. specialize (Hb _ E). cbn in Hb.
      intros ->. done.
Qed.
End index_manager.

Arguments any_index : clear implicits.

(** * Witnesses *)

#[local] Instance number_index : OrderedIndex Z jsstr (list (Z * jsstr)) := list_index cmpNumber cmpString.
#[local] Instance number_index_laws : OrderedIndexLaws (H := number_index) cmpNumber cmpString :=
  list_index_laws cmpNumber cmpString.

Definition sample_defs : list (jsstr * (index_def * index_type)) :=
  [(js "byTag", (IndexDef (js "tag") false true, Equality));
   (js "byNum", (IndexDef (js "a.n") false true, Range));
   (js "mail", (IndexDef (js "mail") true true, Equality))].

Definition sample_doc (tags : json) (n : Z) (mail : string) : json :=
  JObject [(js "tag", tags); (js "a", JObject [(js "n", JArray [JNumber n; JNumber n])]); (js "mail", JString (js mail))].

Definition obj (a b : Z) : json := JObject [(js "x", JNumber a); (js "y", JNumber b)].

#[local] Instance units_ok_dec s : Decision (units_ok s) := Forall_dec _ s.

(** Well-formedness of a concrete value. *)
Ltac json_wf_done :=
  repeat match goal with
  | |- json_wf _ => cbn [json_wf sample_doc obj]
  | |- value_wf _ => cbn [value_wf]
  | |- _ /\ _ => split
  | |- List.fold_right _ _ _ => cbn [List.fold_right List.map]
  | |- True => exact I
  | |- _ => apply (bool_decide_unpack _); vm_compute; exact I
  end.

Definition sample_ops : list mgr_op :=
  [MPut (js "k1") (sample_doc (JArray [JString (js "red"); obj 1 2]) 7 "a");
   MPut (js "k2") (sample_doc (JString (js "red")) 5 "b");
   MPut (js "k3") (sample_doc JNull 9 "c"); MRemove (js "k3");
   MPut (js "k1") (sample_doc (JArray [JObject [(js "y", JNumber 2); (js "x", JNumber 1)]]) 6 "a")].

Definition sample_created : list (jsstr * any_index (list (Z * jsstr))) :=
  match create_all sample_defs [] with Ok m => m | Err _ => [] end.
Definition sample_mgr : list (jsstr * any_index (list (Z * jsstr))) := run sample_ops sample_created.

Lemma sample_ops_wf : Forall op_wf sample_ops.
Proof.
  unfold sample_ops. repeat (constructor; [cbn [op_wf]; json_wf_done|]). constructor.
Qed.

Lemma findEq_exact_witness :
  findEq sample_mgr (js "byTag") (Some (obj 1 2)) = Ok [js "k1"] /\
  (js "k1" ∈ [js "k1"] <-> exists doc v, docs_after sample_ops (js "k1") = Some doc /\
     v ∈ elements (IndexDef (js "tag") false true) doc /\ same_value v (Some (obj 1 2))).
Proof.
  assert (E : findEq sample_mgr (js "byTag") (Some (obj 1 2)) = Ok [js "k1"]) by (vm_compute; reflexivity).
  split; [exact E|].
  edestruct (findEq_exact (T := list (Z * jsstr)) sample_defs sample_created sample_ops (js "byTag"))
    with (value := Some (obj 1 2)) as (pks & Ef & _ & Hpk & _).
  - vm_compute. reflexivity.
  - exact sample_ops_wf.
  - json_wf_done.
  - vm_compute. reflexivity.
  - unfold sample_mgr in E. rewrite E in Ef. injection Ef as <-. exact (Hpk (js "k1")).
Defined.

Definition sample_range : find_range_opts := FindRangeOpts (Some 5) None true false 0 None false.

Lemma findRange_exact_witness :
  findRange sample_mgr (js "byNum") sample_range = Ok [(js "k1", 6)] /\
  exists l, sorted cmpNumber cmpString l /\
    (forall n pk, (n, pk) ∈ l <-> exists doc, docs_after sample_ops pk = Some doc /\
       n ∈ numbers (flatten (getField doc (js "a.n")))) /\
    findRange sample_mgr (js "byNum") sample_range =
      Ok ((fun '(n, pk) => (pk, n)) <$> range_spec cmpNumber (range_of sample_range) l).
Proof.
  split; [vm_compute; reflexivity|].
  eapply (findRange_exact (T := list (Z * jsstr)) sample_defs sample_created sample_ops (js "byNum")
    (IndexDef (js "a.n") false true)).
  - vm_compute. reflexivity.
  - exact sample_ops_wf.
  - vm_compute. reflexivity.
Defined.

(** A batch that swaps two unique values is accepted. *)
Definition sample_swap : list (jsstr * option json) :=
  [(js "k1", Some (sample_doc JNull 1 "b")); (js "k2", Some (sample_doc JNull 1 "a"))].

Lemma unique_checks_exact_witness :
  unique_ok sample_mgr (docs_after sample_ops) /\
  is_ok (checkUniqueBatch sample_mgr sample_swap) /\
  ~ is_ok (checkUnique sample_mgr (js "k3") (sample_doc JNull 1 "a")) /\
  unique_ok sample_mgr (after (docs_after sample_ops) (lastOps sample_swap)).
Proof.
  destruct (unique_checks_exact (T := list (Z * jsstr)) sample_defs sample_created sample_ops) as [Hv Hc].
  - vm_compute. reflexivity.
  - exact sample_ops_wf.
  - assert (Hu : unique_ok sample_mgr (docs_after sample_ops)).
    { unfold unique_ok. assert (Hmgr : forall e, e ∈ sample_mgr -> jget sample_mgr e.1 = Some e.2 /\
        is_ok (assertUniqueValid sample_mgr e.1)).
      { apply Forall_forall. repeat (constructor; [split; [vm_compute; reflexivity|eexists; vm_compute; reflexivity]|]).
        constructor. }
      apply Forall_forall. intros [name i] Hin. destruct (Hmgr _ Hin) as [Hi Hok]. by apply (Hv name i). }
    split; [exact Hu|]. destruct (Hc Hu) as [_ Hb].
    assert (Hok : is_ok (checkUniqueBatch sample_mgr sample_swap)) by (eexists; vm_compute; reflexivity).
    split; [exact Hok|]. split.
    + intros [[] E]. vm_compute in E. discriminate.
    + apply Hb; [|exact Hok]. unfold sample_swap. repeat (constructor; [cbn [snd]; json_wf_done|]). constructor.
Defined.
