(* ===== verification/CompoundIndex.v ===== *)
(** Compound indexes ([packages/minidb/src/compound-index.ts]): per group value an
    ordered list of keys by order value. Group values are [Map] keys, so objects are
    told apart by identity: a document comes with the identity of the object at a
    path. Range bounds have the order's type. *)

From S2P Require Import Prelude JsMap Json JsonText Ordered Store IndexManager.

(** * Group and order values *)

Inductive group_key :=
| GBool (b : bool)
| GNumber (n : Z)
| GString (s : jsstr)
| GObject (id : N).

#[export] Instance group_key_eq_dec : EqDecision group_key.
Proof. solve_decision. Defined.

Inductive order_key := ONumber (n : Z) | OString (s : jsstr).

#[export] Instance order_key_eq_dec : EqDecision order_key.
Proof. solve_decision. Defined.

(** [cmpNumber] on numbers and [cmpString] on strings; a list holds one kind only. *)
Definition cmp_order (a b : order_key) : Z :=
  match a, b with
  | ONumber x, ONumber y => cmpNumber x y
  | OString x, OString y => cmpString x y
  | ONumber _, OString _ => -1
  | OString _, ONumber _ => 1
  end.

#[export] Instance cmp_order_ok : Comparator cmp_order.
Proof.
  split.
  - intros [x|x] [y|y]; cbn; try (split; [lia|done]); rewrite cmp_eq; split; congruence.
  - intros [x|x] [y|y]; cbn; try lia; apply cmp_antisym.
  - intros [x|x] [y|y] [z|z]; cbn; try lia; apply cmp_trans.
Qed.

Section compound_index.
Context {T : Type} `{!OrderedIndex order_key jsstr T} `{!OrderedIndexLaws cmp_order cmpString}.

Inductive order_type := OrderNumber | OrderString.

Record compound_def := CompoundDef {
  groupBy : jsstr;
  orderBy : jsstr;
  orderType : order_type;
}.

Record compound_entry := CompoundEntry {
  ce_def : compound_def;
  ce_groups : list (group_key * T);
  ce_byPk : list (jsstr * (group_key * order_key));
}.

Abbreviation compounds := (list (jsstr * compound_entry)).

Inductive compound_error := CompoundExists (name : jsstr) | NoSuchCompound (name : jsstr).

Definition create (m : compounds) (name : jsstr) (d : compound_def) : result compound_error compounds :=
  guard! negb (jhas m name) else CompoundExists name ;;
  Ok (jset m name (CompoundEntry d [] [])).

Definition drop (m : compounds) (name : jsstr) : compounds * bool := (jdel m name, jhas m name).

(** A document: its value and the identity of the object at a path. *)
Record document := Document {
  doc_value : json;
  doc_ids : jsstr -> N;
}.

Definition getPath (doc : json) (path : jsstr) : option json :=
  fold_left property (split_dots path) (Some doc).

(** The [Map] key a group value is; [None] for null and undefined. *)
Definition group_of (doc : document) (path : jsstr) : option group_key :=
  match getPath (doc_value doc) path with
  | None | Some JNull => None
  | Some (JBool b) => Some (GBool b)
  | Some (JNumber n) => Some (GNumber n)
  | Some (JString s) => Some (GString s)
  | Some (JArray _) | Some (JObject _) => Some (GObject (doc_ids doc path))
  end.

(** [extract] and [validOrder]: the placement of a document, if it has a valid one. *)
Definition extract_order (d : compound_def) (doc : json) (dt : option dt_map) : option json :=
  match dt ≫= fun m => jget m (orderBy d) with
  | Some ms => Some (JNumber ms)
  | None => getPath doc (orderBy d)
  end.

Definition validOrder (d : compound_def) (order : option json) : option order_key :=
  match orderType d, order with
  | OrderNumber, Some (JNumber n) => Some (ONumber n)
  | OrderString, Some (JString s) => Some (OString s)
  | _, _ => None
  end.

Definition placement (d : compound_def) (doc : document) (dt : option dt_map) : option (group_key * order_key) :=
  g ← group_of doc (groupBy d);
  o ← validOrder d (extract_order d (doc_value doc) dt);
  Some (g, o).

Definition groupOf (groups : list (group_key * T)) (g : group_key) : T := default oi_empty (jget groups g).

(** Take a key out of its old group; with [prune] an emptied group goes too. *)
Definition unplace (prune : bool) (pk : jsstr) (groups : list (group_key * T)) (prev : group_key * order_key)
    : list (group_key * T) :=
  match jget groups prev.1 with
  | None => groups
  | Some l =>
      let l' := (oi_delete l prev.2 pk).1 in
      if prune && bool_decide (oi_range l' all_range = []) then jdel groups prev.1
      else jset groups prev.1 l'
  end.

Definition add_one (pk : jsstr) (doc : document) (dt : option dt_map) (e : compound_entry) : compound_entry :=
  let prev := jget (ce_byPk e) pk in
  let next := placement (ce_def e) doc dt in
  if bool_decide (is_Some prev /\ prev = next) then e
  else
    let groups := match prev with
                  | Some p => unplace true pk (ce_groups e) p
                  | None => ce_groups e
                  end in
    match next with
    | Some (g, o) =>
        CompoundEntry (ce_def e) (jset groups g (oi_insert (groupOf groups g) o pk)) (jset (ce_byPk e) pk (g, o))
    | None => CompoundEntry (ce_def e) groups (jdel (ce_byPk e) pk)
    end.

Definition remove_one (pk : jsstr) (e : compound_entry) : compound_entry :=
  match jget (ce_byPk e) pk with
  | None => e
  | Some p => CompoundEntry (ce_def e) (unplace false pk (ce_groups e) p) (jdel (ce_byPk e) pk)
  end.

Definition add (m : compounds) (pk : jsstr) (doc : document) (dt : option dt_map) : compounds :=
  prod_map id (add_one pk doc dt) <$> m.
Definition remove (m : compounds) (pk : jsstr) : compounds := prod_map id (remove_one pk) <$> m.

Definition range (m : compounds) (name : jsstr) (g : group_key) (o : range_opts order_key) (limit : option Z)
    : result compound_error (list (jsstr * order_key)) :=
  match jget m name with
  | None => Err (NoSuchCompound name)
  | Some e =>
      match jget (ce_groups e) g with
      | None => Ok []
      | Some l =>
          let o' := RangeOpts (gte o) (gt o) (lte o) (lt o) (offset o)
                      (match limit with Some n => Some n | None => count o end) (reverse o) in
          Ok ((fun '(ord, pk) => (pk, ord)) <$> oi_range l o')
      end
  end.

Definition rebuild (m : compounds) (entries : list (jsstr * document * option dt_map)) : compounds :=
  fold_left (fun m '(pk, doc, dt) => add m pk doc dt) entries
    (prod_map id (fun e => CompoundEntry (ce_def e) [] []) <$> m).

(** * What an index holds *)

Abbreviation placements := (jsstr -> option (group_key * order_key)).

Definition put (P : placements) (pk : jsstr) (o : option (group_key * order_key)) : placements :=
  fun k => if decide (k = pk) then o else P k.

Definition repr_entry (e : compound_entry) (P : placements) : Prop :=
  jwf (ce_groups e) /\ jwf (ce_byPk e) /\ (forall pk, jget (ce_byPk e) pk = P pk) /\
  (forall g, holds (groupOf (ce_groups e) g) (fun o pk => P pk = Some (g, o))).

Lemma groupOf_set groups g l g' : groupOf (jset groups g l) g' = if decide (g = g') then l else groupOf groups g'.
Proof. unfold groupOf. rewrite jget_set. by case_decide. Qed.

Lemma groupOf_del groups g g' :
  jwf groups -> groupOf (jdel groups g) g' = if decide (g = g') then oi_empty else groupOf groups g'.
Proof. intros Hwf. unfold groupOf. rewrite jget_del by done. by case_decide. Qed.

Lemma all_range_empty t (P : order_key -> jsstr -> Prop) :
  holds t P -> oi_range t all_range = [] -> forall o pk, ~ P o pk.
Proof.
  intros Ht E o pk HP. destruct (holds_range t P Ht) as (l & Hs & Hin & Hr). rewrite Hr in E.
  rewrite (range_list_spec cmp_order cmpString) in E by (done || by left).
  unfold range_spec in E. cbn in E. rewrite drop_0 in E.
  assert (Hf : (o, pk) ∈ ([] : list (order_key * jsstr))); [|by apply elem_of_nil in Hf].
  rewrite <- E. apply list_elem_of_In, List.filter_In. split; [by apply list_elem_of_In, Hin|done].
Qed.

Lemma holds_oi_empty (P : order_key -> jsstr -> Prop) : holds oi_empty P -> forall o pk, ~ P o pk.
Proof. intros H. apply (all_range_empty oi_empty P H). by rewrite (oi_range_spec _ [] _ oi_repr_empty). Qed.

Lemma unplace_spec prune pk groups P g o :
  jwf groups -> (forall g, holds (groupOf groups g) (fun o pk => P pk = Some (g, o))) -> P pk = Some (g, o) ->
  jwf (unplace prune pk groups (g, o)) /\
  forall g', holds (groupOf (unplace prune pk groups (g, o)) g') (fun o' pk' => put P pk None pk' = Some (g', o')).
Proof.
  intros Hwf Hg Hpk.
  assert (Hput : forall g' o' pk', put P pk None pk' = Some (g', o') <->
    ~ (g' = g /\ o' = o /\ pk' = pk) /\ P pk' = Some (g', o')).
  { intros g' o' pk'. unfold put. destruct (decide (pk' = pk)) as [->|Hne]; [|naive_solver].
    rewrite Hpk. naive_solver. }
  unfold unplace. cbn [fst snd]. destruct (jget groups g) as [l|] eqn:E.
  2:{ split; [done|]. intros g'. eapply holds_iff; [|apply Hg]. intros o' pk'. rewrite Hput.
      split; [|tauto]. intros HP. split; [|done]. intros (-> & -> & ->).
      specialize (Hg g). unfold groupOf in Hg. rewrite E in Hg. by apply (holds_oi_empty _ Hg o pk). }
  assert (Hl : holds (oi_delete l o pk).1 (fun o' pk' => put P pk None pk' = Some (g, o'))).
  { specialize (Hg g). unfold groupOf in Hg. rewrite E in Hg. cbn in Hg.
    eapply holds_iff; [|apply holds_delete, Hg]. intros o' pk'. cbn. rewrite Hput. naive_solver. }
  assert (Hoth : forall g', g <> g' -> holds (groupOf groups g') (fun o' pk' => put P pk None pk' = Some (g', o'))).
  { intros g' Hne. eapply holds_iff; [|apply Hg]. intros o' pk'. rewrite Hput. naive_solver. }
  destruct (prune && bool_decide _) eqn:Ep.
  - split; [by apply jwf_del|]. intros g'. rewrite groupOf_del by done.
    destruct (decide (g = g')) as [<-|Hne]; [|by apply Hoth].
    apply andb_true_iff in Ep as [_ Ep%bool_decide_eq_true].
    apply holds_empty, (all_range_empty _ _ Hl Ep).
  - split; [by apply jwf_set|]. intros g'. rewrite groupOf_set.
    destruct (decide (g = g')) as [<-|Hne]; [done|by apply Hoth].
Qed.

Lemma put_get (P : placements) pk o : put P pk o pk = o.
Proof. unfold put. by rewrite decide_True. Qed.

Lemma repr_entry_ext e P P' : (forall pk, P pk = P' pk) -> repr_entry e P -> repr_entry e P'.
Proof.
  intros HP (H1 & H2 & H3 & H4). split_and!; [done..| |].
  - intros pk. by rewrite H3.
  - intros g. eapply holds_iff; [|apply H4]. intros o pk. cbn. by rewrite HP.
Qed.

Lemma place_spec e P pk g o :
  P pk = None -> repr_entry e P ->
  repr_entry (CompoundEntry (ce_def e) (jset (ce_groups e) g (oi_insert (groupOf (ce_groups e) g) o pk))
    (jset (ce_byPk e) pk (g, o))) (put P pk (Some (g, o))).
Proof.
  intros Hpk (H1 & H2 & H3 & H4). split_and!; cbn [ce_groups ce_byPk]; [by apply jwf_set..| |].
  - intros pk'. rewrite jget_set. unfold put.
    destruct (decide (pk = pk')) as [->|Hne]; [by rewrite decide_True|by rewrite decide_False].
  - intros g'. rewrite groupOf_set.
    assert (Hput : forall o' pk', put P pk (Some (g, o)) pk' = Some (g', o') <->
      (g' = g /\ o' = o /\ pk' = pk) \/ P pk' = Some (g', o')).
    { intros o' pk'. unfold put. destruct (decide (pk' = pk)) as [->|Hne]; [rewrite Hpk|]; naive_solver. }
    destruct (decide (g = g')) as [<-|Hne].
    + eapply holds_iff; [|apply holds_insert, (H4 g)]; [|cbn; by rewrite Hpk].
      intros o' pk'. cbn. rewrite Hput. naive_solver.
    + eapply holds_iff; [|apply H4]. intros o' pk'. rewrite Hput. naive_solver.
Qed.

Lemma unplace_entry prune pk e P p :
  repr_entry e P -> P pk = Some p ->
  repr_entry (CompoundEntry (ce_def e) (unplace prune pk (ce_groups e) p) (jdel (ce_byPk e) pk)) (put P pk None).
Proof.
  intros (H1 & H2 & H3 & H4) Hpk. destruct p as [g o].
  destruct (unplace_spec prune pk (ce_groups e) P g o H1 H4 Hpk) as [H1' H4'].
  split_and!; cbn [ce_groups ce_byPk]; [done|by apply jwf_del| |done]. intros pk'. rewrite jget_del by done. unfold put.
  destruct (decide (pk = pk')) as [->|Hne]; [by rewrite decide_True|by rewrite decide_False].
Qed.

Lemma jset_jdel_repr e P pk groups g o :
  repr_entry (CompoundEntry (ce_def e) groups (jset (jdel (ce_byPk e) pk) pk (g, o))) P ->
  jwf (ce_byPk e) -> repr_entry (CompoundEntry (ce_def e) groups (jset (ce_byPk e) pk (g, o))) P.
Proof.
  intros (H1 & H2 & H3 & H4) Hwf. split_and!; [done|by apply jwf_set| |done]. intros pk'. rewrite <- H3. cbn.
  rewrite !jget_set, jget_del by done. by case_decide.
Qed.

Lemma compound_add_one_spec pk doc dt e P :
  repr_entry e P -> repr_entry (add_one pk doc dt e) (put P pk (placement (ce_def e) doc dt)).
Proof.
  intros Hr. pose proof Hr as (H1 & H2 & H3 & H4). unfold add_one. rewrite H3.
  destruct (bool_decide _) eqn:Eb.
  { apply bool_decide_eq_true in Eb as [_ Eb]. eapply repr_entry_ext; [|exact Hr].
    intros pk'. unfold put. by destruct (decide (pk' = pk)) as [->|]. }
  assert (Hput2 : forall P o o' pk', put (put P pk o) pk o' pk' = put P pk o' pk').
  { intros P' o o' pk'. unfold put. by destruct (decide (pk' = pk)). }
  destruct (P pk) as [p|] eqn:Ep, (placement (ce_def e) doc dt) as [[g o]|] eqn:En.
  - pose proof (unplace_entry true pk e P p Hr Ep) as Hu. apply jset_jdel_repr; [|done].
    eapply repr_entry_ext; [|apply (place_spec _ _ pk g o (put_get P pk None) Hu)].
    intros pk'. apply Hput2.
  - by apply unplace_entry.
  - by apply place_spec.
  - split_and!; [done|by apply jwf_del| |].
    + intros pk'. cbn. rewrite jdel_notin by by rewrite H3. rewrite H3. unfold put. by destruct (decide (pk' = pk)) as [->|].
    + intros g. eapply holds_iff; [|apply H4]. intros o pk'. unfold put.
      destruct (decide (pk' = pk)) as [->|]; [by rewrite Ep|done].
Qed.

Lemma compound_remove_one_spec pk e P : repr_entry e P -> repr_entry (remove_one pk e) (put P pk None).
Proof.
  intros Hr. pose proof Hr as (H1 & H2 & H3 & H4). unfold remove_one. rewrite H3.
  destruct (P pk) as [p|] eqn:Ep; [by apply unplace_entry|]. eapply repr_entry_ext; [|exact Hr].
  intros pk'. unfold put. by destruct (decide (pk' = pk)) as [->|].
Qed.

(** * Runs *)

Inductive compound_op :=
| CAdd (pk : jsstr) (doc : document) (dt : option dt_map)
| CRemove (pk : jsstr)
| CRebuild (entries : list (jsstr * document * option dt_map)).

Definition run_op (m : compounds) (op : compound_op) : compounds :=
  match op with
  | CAdd pk doc dt => add m pk doc dt
  | CRemove pk => remove m pk
  | CRebuild entries => rebuild m entries
  end.
Definition run (ops : list compound_op) (m : compounds) : compounds := fold_left run_op ops m.

(** Where an index places a key after [ops]: by its last document. *)
Definition placed_op (d : compound_def) (P : placements) (op : compound_op) : placements :=
  match op with
  | CAdd pk doc dt => put P pk (placement d doc dt)
  | CRemove pk => put P pk None
  | CRebuild entries => fold_left (fun P '(pk, doc, dt) => put P pk (placement d doc dt)) entries (fun _ => None)
  end.
Definition placed (d : compound_def) (ops : list compound_op) : placements :=
  fold_left (placed_op d) ops (fun _ => None).

Definition repr_at (m : compounds) (name : jsstr) (d : compound_def) (P : placements) : Prop :=
  exists e, jget m name = Some e /\ ce_def e = d /\ repr_entry e P.

Lemma jget_entries (f : compound_entry -> compound_entry) (m : compounds) name :
  jget (prod_map id f <$> m) name = f <$> jget m name.
Proof. induction m as [|[n i] m IH]; cbn; [done|]. by case_decide. Qed.

Lemma repr_at_map (f : compound_entry -> compound_entry) m name d P P' :
  (forall e, ce_def e = d -> repr_entry e P -> ce_def (f e) = d /\ repr_entry (f e) P') ->
  repr_at m name d P -> repr_at (prod_map id f <$> m) name d P'.
Proof.
  intros Hf (e & He & Hd & Hr). exists (f e). rewrite jget_entries, He. split; [done|by apply Hf].
Qed.

Lemma add_one_def pk doc dt e : ce_def (add_one pk doc dt e) = ce_def e.
Proof. unfold add_one. case_match; [done|]. by destruct (placement (ce_def e) doc dt) as [[]|]. Qed.

Lemma remove_one_def pk e : ce_def (remove_one pk e) = ce_def e.
Proof. unfold remove_one. by case_match. Qed.

Lemma add_repr m name d P pk doc dt :
  repr_at m name d P -> repr_at (add m pk doc dt) name d (put P pk (placement d doc dt)).
Proof.
  apply repr_at_map. intros e <- Hr. split; [apply add_one_def|by apply compound_add_one_spec].
Qed.

Lemma empty_entry_repr d : repr_entry (CompoundEntry d [] []) (fun _ => None).
Proof. split_and!; [constructor..|done|]. intros g. by apply holds_empty. Qed.

Lemma run_op_repr m name d P op : repr_at m name d P -> repr_at (run_op m op) name d (placed_op d P op).
Proof.
  intros Hm. destruct op as [pk doc dt|pk|entries]; cbn.
  - by apply add_repr.
  - revert Hm. apply repr_at_map. intros e <- Hr. split; [apply remove_one_def|by apply compound_remove_one_spec].
  - unfold rebuild.
    assert (H0 : repr_at (prod_map id (fun e => CompoundEntry (ce_def e) [] []) <$> m) name d (fun _ => None)).
    { revert Hm. apply repr_at_map. intros e <- _. split; [done|apply empty_entry_repr]. }
    revert H0. generalize (prod_map id (fun e => CompoundEntry (ce_def e) [] []) <$> m) as m0.
    generalize (fun _ : jsstr => None : option (group_key * order_key)) as P0.
    induction entries as [|[[pk doc] dt] entries IH]; intros P0 m0 H0; [done|]. apply IH. by apply add_repr.
Qed.

(** whatever documents were added, replaced, removed or rebuilt, a range over a
    group scans exactly the keys whose last document places them in the group with
    a valid order value, ordered by that value and then key. *)
Theorem compound_range_exact m0 m1 name d ops g o limit :
  jget m0 name = None -> create m0 name d = Ok m1 ->
  exists l, sorted cmp_order cmpString l /\
    (forall ord pk, (ord, pk) ∈ l <-> placed d ops pk = Some (g, ord)) /\
    range (run ops m1) name g o limit =
      Ok ((fun '(ord, pk) => (pk, ord)) <$>
          range_list cmp_order (RangeOpts (gte o) (gt o) (lte o) (lt o) (offset o)
            (match limit with Some n => Some n | None => count o end) (reverse o)) l).
Proof.
  intros Hn Hc. unfold create, jhas in Hc. rewrite Hn in Hc. cbn in Hc. injection Hc as <-.
  assert (H0 : repr_at (jset m0 name (CompoundEntry d [] [])) name d (fun _ => None)).
  { eexists. split; [apply jget_set_eq|]. split; [done|apply empty_entry_repr]. }
  assert (Hr : repr_at (run ops (jset m0 name (CompoundEntry d [] []))) name d (placed d ops)).
  { unfold run, placed. revert H0. generalize (jset m0 name (CompoundEntry d [] [])) as m.
    generalize (fun _ : jsstr => None : option (group_key * order_key)) as P0.
    induction ops as [|op ops IH]; intros P0 m Hm; [done|]. apply IH. by apply run_op_repr. }
  destruct Hr as (e & He & _ & _ & _ & _ & Hg). unfold range. rewrite He. specialize (Hg g).
  unfold groupOf in Hg. destruct (jget (ce_groups e) g) as [t|] eqn:Et; cbn in Hg.
  - destruct (holds_range t _ Hg) as (l & Hs & Hin & Hrange). exists l. split_and!; [done..|]. by rewrite Hrange.
  - exists []. split_and!; [constructor| |].
    + intros ord pk. split; [by intros ?%elem_of_nil|]. intros HP. by destruct (holds_oi_empty _ Hg ord pk).
    + unfold range_list, fwd_start, rev_start. by destruct o as [[] [] [] [] ? ? []].
Qed.
End compound_index.

Arguments compound_entry : clear implicits.

(** * Witness *)

#[local] Instance order_index : OrderedIndex order_key jsstr (list (order_key * jsstr)) :=
  list_index cmp_order cmpString.
#[local] Instance order_index_laws : OrderedIndexLaws (H := order_index) cmp_order cmpString :=
  list_index_laws cmp_order cmpString.

Definition sample_doc (ws : string) : document :=
  Document (JObject [(js "ws", JString (js ws)); (js "at", JNumber 9)]) (fun _ => 0%N).

Definition sample_ops : list compound_op :=
  [CAdd (js "s1") (sample_doc "w") (Some [(js "at", 20)]); CAdd (js "s2") (sample_doc "w") None;
   CAdd (js "s3") (sample_doc "v") None; CAdd (js "s3") (sample_doc "w") (Some [(js "at", 5)]);
   CRemove (js "s4")].

Lemma compound_range_exact_witness :
  exists m1, create (T := list (order_key * jsstr)) [] (js "byAt") (CompoundDef (js "ws") (js "at") OrderNumber) = Ok m1 /\
  range (run sample_ops m1) (js "byAt") (GString (js "w")) all_range (Some 2) =
    Ok [(js "s3", ONumber 5); (js "s2", ONumber 9)] /\
  exists l, sorted cmp_order cmpString l /\
    (forall ord pk, (ord, pk) ∈ l <->
       placed (CompoundDef (js "ws") (js "at") OrderNumber) sample_ops pk = Some (GString (js "w"), ord)) /\
    range (run sample_ops m1) (js "byAt") (GString (js "w")) all_range (Some 2) =
      Ok ((fun '(ord, pk) => (pk, ord)) <$> range_list cmp_order (RangeOpts None None None None 0 (Some 2) false) l).
Proof.
  eexists. split; [reflexivity|]. split; [vm_compute; reflexivity|].
  eapply (compound_range_exact (T := list (order_key * jsstr)) [] _ (js "byAt")); reflexivity.
Defined.
