(* ===== verification/Recovery.v ===== *)
(** Startup recovery and replica catch-up ([packages/minidb/src/recovery.ts]): the
    snapshot and then the write-ahead log are scanned and replayed into the store,
    last writer wins.

    A file is its bytes with the identity of its inode; [Date.now()] is read once per
    recovery. The text parser behind [JSON.parse] is a parameter. *)

From S2P Require Import Prelude Crc32 Codec ScanRefs JsMap Json Ordered MinHeap Store.

Record file := File {
  content : buffer;
  f_dev : Z;
  f_ino : Z;
}.

Inductive value_mode := MemoryMode | DiskMode.

Inductive recovery_error :=
| RecoveryShortRead
| MetaSyntaxError
| MetaTypeError.

Record recovered_op := RecoveredOp {
  ro_type : Z;
  ro_key : buffer;
  ro_ref : option value_ref;
  ro_expireAt : Z;
  ro_dt : option dt_map;
}.

Record recovery_info := RecoveryInfo {
  snapshotFrames : Z;
  walFrames : Z;
  truncatedWal : bool;
  corruptRanges : list (Z * Z);
  snapshotCorruptRanges : list (Z * Z);
  lostBytes : Z;
  walScanEnd : Z;
  walDev : Z;
  walIno : Z;
}.

(** [toKStr] of a buffer: one code unit per byte. *)
Definition toKStr (b : buffer) : jsstr := (fun x => Z.to_N (b2z x)) <$> b.

Definition readAtSync (fd : buffer) (off len : Z) : result recovery_error buffer :=
  if len =? 0 then Ok []
  else match readExactSync fd len off with
       | Ok b => Ok b
       | Err _ => Err RecoveryShortRead
       end.

Section recovery.
Context (JSON_parse : buffer -> option json).
Context (now : Z).

Definition parseMeta (meta : option buffer) : result recovery_error (option dt_map) :=
  match meta with
  | None => Ok None
  | Some m =>
      match JSON_parse m with
      | None => Err MetaSyntaxError
      | Some JNull => Err MetaTypeError
      | Some v => Ok (dt_of_json (json_field v str_dt))
      end
  end.

Definition del_op (k : buffer) : recovered_op := RecoveredOp TYPE_DEL k None 0 None.

(** [setRefToOps] yields one operation or throws. *)
Definition setRefToOps (k : buffer) (valueOff valLen : Z) (meta : option buffer) (exp : Z)
    (file : value_file) (fd : buffer) (mode : value_mode) : result recovery_error recovered_op :=
  if truthy exp && (exp <=? now) then Ok (del_op k)
  else
    let? d := parseMeta meta in
    let? rf := match mode with
               | DiskMode => Ok (Disk (ValueLoc file valueOff valLen))
               | MemoryMode => let? v := readAtSync fd valueOff valLen in Ok (Memory v)
               end in
    Ok (RecoveredOp TYPE_SET k (Some rf) exp d).

(** The operations yielded by the loop over a batch, and the error that ends it. *)
Fixpoint batchToOps (ops : list batch_op_ref) (file : value_file) (fd : buffer) (mode : value_mode)
    : list recovered_op * option recovery_error :=
  match ops with
  | [] => ([], None)
  | o :: ops' =>
      if o_type o =? TYPE_SET then
        match setRefToOps (o_key o) (o_valueOff o) (o_valLen o) (o_meta o) (o_expireAt o) file fd mode with
        | Err e => ([], Some e)
        | Ok r => let (rs, e) := batchToOps ops' file fd mode in (r :: rs, e)
        end
      else if o_type o =? TYPE_DEL then
        let (rs, e) := batchToOps ops' file fd mode in (del_op (o_key o) :: rs, e)
      else batchToOps ops' file fd mode
  end.

Definition frameToOps (f : frame_ref) (file : value_file) (fd : buffer) (mode : value_mode)
    : list recovered_op * option recovery_error :=
  if r_type f =? TYPE_SET then
    match setRefToOps (r_key f) (r_valueOff f) (r_valLen f) (r_meta f) (r_expireAt f) file fd mode with
    | Ok r => ([r], None)
    | Err e => ([], Some e)
    end
  else if r_type f =? TYPE_DEL then ([del_op (r_key f)], None)
  else if r_type f =? TYPE_BATCH then
    match readAtSync fd (r_valueOff f) (r_valLen f) with
    | Err _ => ([], None)
    | Ok body =>
        match scanBatchOpRefs body (r_valueOff f) with
        | Err _ => ([], None)
        | Ok ops => batchToOps ops file fd mode
        end
    end
  else ([], None).

Context {T : Type} `{!OrderedIndex jsstr jsstr T}.
Abbreviation store := (@store T).

Definition applyOp (s : store) (op : recovered_op) : store :=
  if ro_type op =? TYPE_SET then
    match ro_ref op with
    | Some rf => setRef s (toKStr (ro_key op)) rf (ro_expireAt op) (ro_dt op)
    | None => s
    end
  else if ro_type op =? TYPE_DEL then (del s (toKStr (ro_key op))).2
  else s.

(** The store reached, and the exception that left the loop. *)
Fixpoint applyFrames (frames : list frame_ref) (file : value_file) (fd : buffer) (s : store)
    (mode : value_mode) : store * option recovery_error :=
  match frames with
  | [] => (s, None)
  | f :: frames' =>
      let (ops, e) := frameToOps f file fd mode in
      let s' := fold_left applyOp ops s in
      match e with
      | Some e => (s', Some e)
      | None => applyFrames frames' file fd s' mode
      end
  end.

Definition scanFile (fd : buffer) (mode : corrupt_mode) (start : Z) : result recovery_error scan_result :=
  match scanFrameRefsFd fd mode start with
  | Ok r => Ok r
  | Err _ => Err RecoveryShortRead
  end.

Definition ranges_sum (rs : list (Z * Z)) : Z := fold_left (fun a r => a + (r.2 - r.1)) rs 0.

(** The first phase of [recover]: frames loaded and corrupt ranges. *)
Definition recoverSnapshot (snap : option file) (s : store) (mode : corrupt_mode) (vmode : value_mode)
    : result recovery_error (store * Z * list (Z * Z)) :=
  match snap with
  | None => Ok (s, 0, [])
  | Some f =>
      let? r := scanFile (content f) mode 0 in
      let (s', e) := applyFrames (s_frames r) Snapshot (content f) s vmode in
      match e with
      | Some e => Err e
      | None => Ok (s', blen (s_frames r), s_corruptRanges r)
      end
  end.

Record wal_phase := WalPhase {
  wp_store : store;
  wp_frames : Z;
  wp_corrupt : list (Z * Z);
  wp_truncated : bool;
  wp_scanEnd : Z;
  wp_dev : Z;
  wp_ino : Z;
  wp_file : option file;   (* the log left on disk *)
}.

(** The second phase: a corrupt range that reaches the end of the file is cut off. *)
Definition recoverWal (wal : option file) (s : store) (mode : corrupt_mode) (truncate : bool)
    (vmode : value_mode) : result recovery_error wal_phase :=
  match wal with
  | None => Ok (WalPhase s 0 [] false 0 0 0 None)
  | Some f =>
      let walSize := blen (content f) in
      let? r := scanFile (content f) mode 0 in
      let (s', e) := applyFrames (s_frames r) Wal (content f) s vmode in
      match e with
      | Some e => Err e
      | None =>
          let cut := match last (s_corruptRanges r) with
                     | Some (a, b) => if (b =? walSize) && truncate then Some a else None
                     | None => None
                     end in
          let f' := match cut with
                    | Some a => File (take (Z.to_nat a) (content f)) (f_dev f) (f_ino f)
                    | None => f
                    end in
          Ok (WalPhase s' (blen (s_frames r)) (s_corruptRanges r)
                (match cut with Some _ => true | None => false end)
                (s_eofOffset r) (f_dev f) (f_ino f) (Some f'))
      end
  end.

(** [recover]: the info, the store and the log file left behind. *)
Definition recover (snap wal : option file) (s : store) (mode : corrupt_mode) (truncate : bool)
    (vmode : value_mode) : result recovery_error (recovery_info * store * option file) :=
  let? r1 := recoverSnapshot snap s mode vmode in
  let '(s1, snapshotFrames, snapshotCorrupt) := r1 in
  let? w := recoverWal wal s1 mode truncate vmode in
  Ok (RecoveryInfo snapshotFrames (wp_frames w) (wp_truncated w) (wp_corrupt w) snapshotCorrupt
        (ranges_sum (wp_corrupt w ++ snapshotCorrupt)) (wp_scanEnd w) (wp_dev w) (wp_ino w),
      wp_store w, wp_file w).

(** [catchUpWal]: the frames handed to [apply], in order, with the new offset; [None]
    when the replica must reopen. *)
Definition catchUpWal (wal : option file) (offset : Z) (dev ino : Z)
    : result recovery_error (option (Z * list frame_ref)) :=
  match wal with
  | None => Ok None
  | Some f =>
      if negb (f_dev f =? dev) || negb (f_ino f =? ino) then Ok None else
      let size := blen (content f) in
      if (offset <? 0) || (size <? offset) then Ok None else
      let? r := scanFile (content f) Strict offset in
      if (match s_frames r with [] => true | _ => false end) && (s_eofOffset r <? size) then
        let n := Z.min (blen MAGIC) (size - offset) in
        let? head := readAtSync (content f) offset n in
        if negb (bool_decide (take (Z.to_nat n) MAGIC = head)) then Ok None
        else Ok (Some (offset, []))
      else Ok (Some (s_eofOffset r, s_frames r))
  end.
End recovery.

(** * The logical log *)

(** One write, and one entry of the log: a write, or an atomic batch of writes. *)
Inductive lop :=
| LSet (k v : buffer) (exp : Z) (meta : option buffer)
| LDel (k : buffer).

Inductive entry :=
| Single (o : lop)
| Batch (os : list lop).

Definition lop_input (o : lop) : frame_input :=
  match o with
  | LSet k v exp meta => FrameInput TYPE_SET k (Some v) meta exp
  | LDel k => FrameInput TYPE_DEL k None None 0
  end.

Definition entry_input (e : entry) : frame_input :=
  match e with
  | Single o => lop_input o
  | Batch os => FrameInput TYPE_BATCH [] (Some (batch_body (lop_input <$> os))) None 0
  end.

Definition entry_ops (e : entry) : list lop := match e with Single o => [o] | Batch os => os end.

#[local] Arguments batch_body : simpl never.

(** The file a sequence of entries is stored as. *)
Definition log_file (es : list entry) : buffer := log_bytes (entry_input <$> es).
Definition log_ops (es : list entry) : list lop := concat (entry_ops <$> es).

Section replay.
Context (JSON_parse : buffer -> option json).

Definition meta_dt (meta : option buffer) : option dt_map :=
  match parseMeta JSON_parse meta with Ok d => d | Err _ => None end.

(** The state a log stands for: the last write of each key. *)
Abbreviation lmap := (gmap jsstr (buffer * Z * option dt_map)).

Definition lop_apply (M : lmap) (o : lop) : lmap :=
  match o with
  | LSet k v exp meta => <[toKStr k := (v, exp, meta_dt meta)]> M
  | LDel k => delete (toKStr k) M
  end.

Definition replay (os : list lop) (M : lmap) : lmap := fold_left lop_apply os M.

(** What a writer can have logged: sizes within the format's fields, an exact expiry,
    and metadata that parses. *)
Record lop_ok (o : lop) : Prop := {
  lo_enc : encodable (lop_input o);
  lo_meta : match o with
            | LSet _ _ exp meta =>
                meta <> Some [] /\ number_of_bigint exp = exp /\
                exists d, parseMeta JSON_parse meta = Ok d
            | LDel _ => True
            end;
}.

Record entry_ok (e : entry) : Prop := {
  eo_ops : Forall lop_ok (entry_ops e);
  eo_batch : match e with
             | Batch os => blen os < 2 ^ 16 /\ blen (batch_body (lop_input <$> os)) <= MAX_VAL_LEN
             | Single _ => True
             end;
}.

Lemma entry_encodable e : entry_ok e -> encodable (entry_input e).
Proof.
  intros [Ho Hb]. destruct e as [o|os]; cbn in *.
  - apply Forall_cons in Ho as [Ho _]. apply Ho.
  - split; [by vm_compute|by vm_compute|apply Hb|by vm_compute|cbn; lia].
Qed.

Lemma log_encodable es : Forall entry_ok es -> Forall encodable (entry_input <$> es).
Proof. intros H. apply Forall_fmap. eapply Forall_impl; [exact H|]. apply entry_encodable. Qed.

Context (now : Z).
Context (files : value_file -> buffer) (mode : value_mode).

(** The bytes a stored reference stands for. *)
Definition denotes (rf : value_ref) (v : buffer) : Prop :=
  match mode with
  | MemoryMode => rf = Memory v
  | DiskMode => exists loc, rf = Disk loc /\ 0 <= vl_off loc /\ 0 <= vl_len loc /\
                  vl_off loc + vl_len loc <= blen (files (vl_file loc)) /\
                  sub (files (vl_file loc)) (vl_off loc) (vl_off loc + vl_len loc) = v
  end.

Definition dead (exp : Z) : bool := truthy exp && (exp <=? now).

(** The recovered operation of a logged write: an expired SET is a DEL. *)
Definition op_for (r : recovered_op) (o : lop) : Prop :=
  match o with
  | LDel k => r = del_op k
  | LSet k v exp meta =>
      if dead exp then r = del_op k
      else exists rf, r = RecoveredOp TYPE_SET k (Some rf) exp (meta_dt meta) /\ denotes rf v
  end.

Lemma readAtSync_in fd rest off len :
  0 <= off -> 0 <= len -> off + len <= blen fd -> readAtSync (fd ++ rest) off len = Ok (sub fd off (off + len)).
Proof.
  intros. unfold readAtSync. destruct (Z.eqb_spec len 0) as [->|].
  - unfold sub. by rewrite Z.add_0_r, Z.sub_diag.
  - rewrite readExactSync_in by len_lia. by rewrite sub_app_l by lia.
Qed.

(** The file read may extend past the part that holds the log: a torn tail. *)
Context (rest : buffer).

Lemma setRefToOps_spec k v exp meta off len fl :
  0 <= off -> 0 <= len -> off + len <= blen (files fl) -> sub (files fl) off (off + len) = v ->
  (exists d, parseMeta JSON_parse meta = Ok d) ->
  exists r, setRefToOps JSON_parse now k off len meta exp fl (files fl ++ rest) mode = Ok r /\
            op_for r (LSet k v exp meta).
Proof.
  intros Ho Hl Hb Hv [d Hd]. unfold setRefToOps, op_for, dead.
  destruct (truthy exp && (exp <=? now)); [by eexists|].
  rewrite Hd. cbn [rbind]. unfold meta_dt. rewrite Hd. unfold denotes. destruct mode.
  - rewrite readAtSync_in by done. cbn [rbind]. eexists. split; [done|]. eexists. split; [done|]. by rewrite Hv.
  - cbn [rbind]. eexists. split; [done|]. eexists. split; [done|]. by exists (ValueLoc fl off len).
Qed.

Lemma meta_input meta :
  meta <> Some [] -> (if blen (or_empty meta) =? 0 then None else Some (or_empty meta)) = meta.
Proof.
  intros Hm. destruct meta as [m|]; cbn; [|done]. destruct m as [|b m]; [done|].
  unfold blen. cbn. by destruct (Z.eqb_spec (Z.pos (Pos.of_succ_nat (length m))) 0).
Qed.

Lemma batchToOps_spec os ops fl :
  Forall lop_ok os -> op_ref_frame (files fl) <$> ops = input_frame <$> (lop_input <$> os) ->
  Forall (op_ok (files fl)) ops ->
  exists rs, batchToOps JSON_parse now ops fl (files fl ++ rest) mode = (rs, None) /\ Forall2 op_for rs os.
Proof.
  revert ops. induction os as [|o os IH]; intros ops Hos Heq Hok.
  { destruct ops; [|done]. by exists []. }
  destruct ops as [|r ops]; [done|]. injection Heq as Ht Hk Hv Hm He Heq.
  apply Forall_cons in Hos as [[Henc Hmeta] Hos]. apply Forall_cons in Hok as [(K1 & K2 & K3) Hok].
  destruct (IH ops Hos Heq Hok) as (rs & IH1 & IH2). cbn [batchToOps].
  destruct o as [k v exp meta|k]; cbn in Ht, Hk, Hv, Hm, He; rewrite Ht; cbn.
  - destruct Hmeta as (Hm0 & Hnb & Hd).
    destruct (setRefToOps_spec k v exp meta _ _ fl K1 K2 K3 Hv Hd) as (r1 & Hr1 & Hop).
    rewrite Hk, Hm, He, meta_input, Hnb, Hr1, IH1 by done. eexists. split; [done|]. by constructor.
  - rewrite Hk, IH1. eexists. split; [done|]. by constructor.
Qed.

Lemma frameToOps_spec f e fl :
  entry_ok e -> ref_ok (files fl) f -> ref_frame (files fl) f = input_frame (entry_input e) ->
  exists rs, frameToOps JSON_parse now f fl (files fl ++ rest) mode = (rs, None) /\ Forall2 op_for rs (entry_ops e).
Proof.
  intros [Hos Hb] (K1 & K2 & K3) Hf. unfold frameToOps.
  destruct e as [o|os]; [apply Forall_cons in Hos as [[Henc Hmeta] _]; destruct o as [k v exp meta|k]|];
    unfold ref_frame, input_frame in Hf; cbn in Hf; injection Hf as Ht Hk Hv Hm He; rewrite Ht; cbn.
  - destruct Hmeta as (Hm0 & Hnb & Hd).
    destruct (setRefToOps_spec k v exp meta _ _ fl K1 K2 K3 Hv Hd) as (r1 & Hr1 & Hop).
    rewrite Hk, Hm, He, meta_input, Hnb, Hr1 by done. eexists. split; [done|]. by repeat constructor.
  - rewrite Hk. eexists. split; [done|]. by repeat constructor.
  - rewrite readAtSync_in, Hv by done. destruct Hb as [Hc Hlen].
    assert (Hvl : r_valLen f = blen (batch_body (lop_input <$> os))).
    { rewrite <- Hv, blen_sub by lia. lia. }
    destruct (scanBatchOpRefs_body (files fl) (r_valueOff f) (lop_input <$> os)) as (ops & H1 & H2 & H3).
    + done.
    + lia.
    + by rewrite <- Hvl.
    + unfold blen in *. by rewrite length_fmap.
    + apply Forall_fmap. eapply Forall_impl; [exact Hos|]. by intros o [? _].
    + rewrite H1. by apply batchToOps_spec.
Qed.

(** ** The store against the replayed log *)

Context {T : Type} `{!OrderedIndex jsstr jsstr T} `{!OrderedIndexLaws cmpString cmpString}.
Abbreviation store := (@store T).

(** The store holds exactly the writes that have not expired. *)
Record replayed (s : store) (M : lmap) : Prop := {
  rp_store : store_wf s;
  rp_sound : forall k r, jget (map s) k = Some r ->
             exists v, M !! k = Some (v, expireAt r, dt r) /\ denotes (ref r) v;
  rp_complete : forall k v exp d, M !! k = Some (v, exp, d) -> dead exp = false ->
                is_Some (jget (map s) k);
}.

Lemma replayed_empty : replayed empty_store ∅.
Proof. split; [apply empty_store_wf|done|]. intros k v exp d H. by rewrite lookup_empty in H. Qed.

Lemma applyOp_replayed s M r o : op_for r o -> replayed s M -> replayed (applyOp s r) (lop_apply M o).
Proof.
  intros Hop [W R C]. assert (Hdel : forall k e v d, (match e with Some exp => dead exp = true | None => True end) ->
    let M' := match e with Some exp => <[toKStr k := (v, exp, d)]> M | None => delete (toKStr k) M end in
    replayed (applyOp s (del_op k)) M').
  { intros k e v d He. cbv zeta. unfold applyOp, del_op, del. cbn.
    assert (Hget : forall k', jget (map (remove s (toKStr k)).2) k' =
              if decide (toKStr k = k') then None else jget (map s) k').
    { intros k'. rewrite remove_map. apply jget_del, W. }
    split; [by apply remove_wf|..].
    - intros k' r'. rewrite Hget. case_decide; [done|]. intros Hk'%R.
      destruct e; [by rewrite lookup_insert_ne|by rewrite lookup_delete_ne].
    - intros k' v' exp' d' Hk' Hlive. rewrite Hget. destruct (decide (toKStr k = k')) as [<-|Hne].
      + exfalso. destruct e as [exp|].
        * rewrite lookup_insert_eq in Hk'. injection Hk' as -> -> ->. congruence.
        * by rewrite lookup_delete_eq in Hk'.
      + apply (C k' v' exp' d'); [|done]. destruct e.
        * by rewrite lookup_insert_ne in Hk'.
        * by rewrite lookup_delete_ne in Hk'. }
  destruct o as [k v exp meta|k]; cbn [op_for lop_apply] in *.
  2: { subst r. exact (Hdel k None [] None I). }
  destruct (dead exp) eqn:Hd; [subst r; exact (Hdel k (Some exp) v (meta_dt meta) Hd)|].
  destruct Hop as (rf & -> & Hden). unfold applyOp. cbn. split; [by apply setRef_wf|..].
  - intros k' r'. rewrite setRef_map, jget_set. case_decide; subst.
    + intros [= <-]. exists v. cbn. by rewrite lookup_insert_eq.
    + rewrite lookup_insert_ne by done. apply R.
  - intros k' v' exp' d'. rewrite setRef_map, jget_set. case_decide; subst; [eauto|].
    rewrite lookup_insert_ne by done. apply C.
Qed.

Lemma applyOps_replayed rs os s M :
  Forall2 op_for rs os -> replayed s M -> replayed (fold_left applyOp rs s) (replay os M).
Proof.
  intros H. revert s M. induction H as [|r o rs os Hop _ IH]; intros s M Hr; [done|].
  cbn. by apply IH, applyOp_replayed.
Qed.

Lemma applyFrames_replayed es fs fl s M :
  Forall entry_ok es ->
  Forall2 (fun f i => ref_ok (files fl) f /\ ref_frame (files fl) f = input_frame i) fs (entry_input <$> es) ->
  replayed s M ->
  exists s', applyFrames JSON_parse now fs fl (files fl ++ rest) s mode = (s', None) /\
             replayed s' (replay (log_ops es) M).
Proof.
  intros Hes. revert fs s M. induction Hes as [|e es He Hes IH]; intros fs s M Hf Hr.
  { inversion Hf; subst. by exists s. }
  inversion Hf as [|f i fs' is' [H1 H2] Hf' E1 E2]; subst. cbn [applyFrames].
  destruct (frameToOps_spec f e fl He H1 H2) as (rs & -> & Hops).
  pose proof (applyOps_replayed rs _ s M Hops Hr) as Hr'.
  destruct (IH fs' _ _ Hf' Hr') as (s' & -> & Hs'). exists s'. split; [done|].
  unfold log_ops. cbn [fmap list_fmap concat]. unfold replay. rewrite fold_left_app. done.
Qed.

Lemma log_file_refs es fl :
  Forall entry_ok es -> files fl = log_file es ->
  Forall2 (fun f i => ref_ok (files fl) f /\ ref_frame (files fl) f = input_frame i)
    (log_refs 0 (entry_input <$> es)) (entry_input <$> es).
Proof.
  intros Hes Hfl. rewrite Hfl. pose proof (log_refs_ok [] _ [] (log_encodable es Hes)) as H.
  cbv zeta in H. rewrite app_nil_r in H. exact H.
Qed.
End replay.

(** * Recovery of complete logs *)

Section recover_theorems.
Context (JSON_parse : buffer -> option json) (now : Z) (vmode : value_mode).
Context {T : Type} `{!OrderedIndex jsstr jsstr T} `{!OrderedIndexLaws cmpString cmpString}.
Abbreviation store := (@store T).

Definition content_of (f : option file) : buffer := from_option content [] f.
Definition files_of (snap wal : option file) (fl : value_file) : buffer :=
  match fl with Snapshot => content_of snap | Wal => content_of wal end.

(** A file holding the entries, or no file for no entry. *)
Definition holds (f : option file) (es : list entry) : Prop :=
  Forall (entry_ok JSON_parse) es /\
  match f with Some f => content f = log_file es | None => es = [] end.

Definition state_of (es1 es2 : list entry) : gmap jsstr (buffer * Z * option dt_map) :=
  replay JSON_parse (log_ops es2) (replay JSON_parse (log_ops es1) ∅).

Lemma scanFile_log es mode :
  Forall (entry_ok JSON_parse) es ->
  scanFile (log_file es) mode 0 =
  Ok (ScanResult (log_refs 0 (entry_input <$> es)) [] (blen (log_file es))).
Proof.
  intros Hes. unfold scanFile, log_file. rewrite scan_log; [done|]. by eapply log_encodable.
Qed.

Lemma blen_log_refs pos (es : list entry) : blen (log_refs pos (entry_input <$> es)) = blen es.
Proof.
  unfold blen. f_equal. rewrite <- (length_fmap entry_input es). generalize (entry_input <$> es). intros ins.
  revert pos. induction ins as [|i ins IH]; intros pos; cbn; [done|]. by rewrite IH.
Qed.

Lemma recoverSnapshot_log snap es (files : value_file -> buffer) (s : store) M mode :
  holds snap es -> files Snapshot = content_of snap ->
  replayed now files vmode s M ->
  exists s1, recoverSnapshot JSON_parse now snap s mode vmode = Ok (s1, blen es, []) /\
             replayed now files vmode s1 (replay JSON_parse (log_ops es) M).
Proof.
  intros [Hes Hc] Hf Hr. unfold recoverSnapshot. destruct snap as [f|]; cbn in Hf; [|subst es; by exists s].
  rewrite Hc, scanFile_log by done. cbn [rbind s_frames s_corruptRanges].
  destruct (applyFrames_replayed JSON_parse now files vmode [] es (log_refs 0 (entry_input <$> es)) Snapshot s M)
    as (s1 & H1 & H2); [done| |done|].
  { apply (log_file_refs JSON_parse files es); [done|]. by rewrite Hf. }
  rewrite Hf, Hc, app_nil_r in H1. rewrite H1, blen_log_refs. by exists s1.
Qed.

Lemma recoverWal_log wal es (files : value_file -> buffer) (s : store) M mode truncate :
  holds wal es -> files Wal = content_of wal ->
  replayed now files vmode s M ->
  exists w, recoverWal JSON_parse now wal s mode truncate vmode = Ok w /\
    replayed now files vmode (wp_store w) (replay JSON_parse (log_ops es) M) /\
    wp_frames w = blen es /\ wp_corrupt w = [] /\ wp_truncated w = false /\
    wp_scanEnd w = blen (content_of wal) /\ wp_file w = wal.
Proof.
  intros [Hes Hc] Hf Hr. unfold recoverWal.
  destruct wal as [f|]; cbn in Hf; [|subst es; by eexists].
  rewrite Hc, scanFile_log by done. cbn [rbind s_frames s_corruptRanges s_eofOffset last].
  destruct (applyFrames_replayed JSON_parse now files vmode [] es (log_refs 0 (entry_input <$> es)) Wal s M)
    as (s1 & H1 & H2); [done| |done|].
  { apply (log_file_refs JSON_parse files es); [done|]. by rewrite Hf. }
  rewrite Hf, Hc, app_nil_r in H1. rewrite H1, blen_log_refs. eexists. split; [done|]. cbn. by rewrite Hc.
Qed.

(** What the recovered store shows from [now] on: the last write of each key of the
    two logs, unless it has expired. *)
Lemma replayed_view files (s : store) M t k :
  replayed now files vmode s M -> now <= t ->
  match view s t k with
  | Some r => exists v, M !! k = Some (v, expireAt r, dt r) /\ denotes files vmode (ref r) v
  | None => forall v exp d, M !! k = Some (v, exp, d) -> truthy exp && (exp <=? t) = true
  end.
Proof.
  intros [W R C] Hle. unfold view. destruct (jget (map s) k) as [r|] eqn:Hk.
  - destruct (R k r Hk) as (v & HM & Hv). destruct (expired r t) eqn:E; [|eauto].
    intros v' exp d HM'. rewrite HM in HM'. injection HM' as <- <- <-. exact E.
  - intros v exp d HM. destruct (dead now exp) eqn:E.
    + unfold dead in E. apply andb_true_iff in E as [E1 E2]. apply Z.leb_le in E2.
      apply andb_true_iff. split; [done|]. apply Z.leb_le. lia.
    + destruct (C k v exp d HM E) as [r Hr]. congruence.
Qed.

(** Recovery of whole logs, for the properties below and of compaction. *)
Lemma recover_logs snap wal es1 es2 mode truncate :
  holds snap es1 -> holds wal es2 ->
  exists info s,
    recover JSON_parse now snap wal (empty_store : store) mode truncate vmode = Ok (info, s, wal) /\
    store_wf s /\
    (forall t k, now <= t ->
      match view s t k with
      | Some r => exists v, state_of es1 es2 !! k = Some (v, expireAt r, dt r) /\
                    denotes (files_of snap wal) vmode (ref r) v
      | None => forall v exp d, state_of es1 es2 !! k = Some (v, exp, d) ->
                  truthy exp && (exp <=? t) = true
      end) /\
    snapshotFrames info = blen es1 /\ walFrames info = blen es2 /\
    lostBytes info = 0 /\ truncatedWal info = false /\ walScanEnd info = blen (content_of wal).
Proof.
  intros H1 H2. unfold recover. set (files := files_of snap wal).
  destruct (recoverSnapshot_log snap es1 files empty_store ∅ mode H1 eq_refl)
    as (s1 & -> & Hr1); [apply replayed_empty|]. cbn [rbind].
  destruct (recoverWal_log wal es2 files s1 _ mode truncate H2 eq_refl Hr1)
    as (w & -> & Hr2 & E1 & E2 & E3 & E4 & E5). cbn [rbind]. rewrite E1, E2, E3, E4, E5.
  eexists _, _. split; [done|]. split; [apply Hr2|]. split; [|done].
  intros t k Ht. by apply replayed_view.
Qed.

(** C1. Recovering a snapshot and a log made of whole frames replays exactly their
    writes, snapshot first, last writer wins, batches unrolled in order: the
    recovered store shows at any later time each key's last write unless that write
    has expired (so an expired SET hides the older value), in memory mode with the
    value's bytes and in disk mode with a pointer to exactly those bytes. No byte is
    reported lost and the log is left as it was. *)
Theorem recover_replays_log snap wal es1 es2 mode truncate :
  holds snap es1 -> holds wal es2 ->
  exists info s,
    recover JSON_parse now snap wal (empty_store : store) mode truncate vmode = Ok (info, s, wal) /\
    store_wf s /\
    (forall t k, now <= t ->
      match view s t k with
      | Some r => exists v, state_of es1 es2 !! k = Some (v, expireAt r, dt r) /\
                    denotes (files_of snap wal) vmode (ref r) v
      | None => forall v exp d, state_of es1 es2 !! k = Some (v, exp, d) ->
                  truthy exp && (exp <=? t) = true
      end) /\
    snapshotFrames info = blen es1 /\ walFrames info = blen es2 /\
    lostBytes info = 0 /\ truncatedWal info = false /\ walScanEnd info = blen (content_of wal).
Proof. apply recover_logs. Qed.

(** ** Torn tails *)

Lemma log_torn es e k :
  Forall (entry_ok JSON_parse) es -> entry_ok JSON_parse e -> 0 <= k < blen (input_bytes (entry_input e)) ->
  forall es0, let fd := log_file es0 ++ log_file es ++ take (Z.to_nat k) (input_bytes (entry_input e)) in
  let good := blen (log_file es0) + blen (log_file es) in
  scanFile fd Strict (blen (log_file es0)) =
  Ok (ScanResult (log_refs (blen (log_file es0)) (entry_input <$> es))
        (if k =? 0 then [] else [(good, blen fd)]) good).
Proof.
  intros Hes He Hk es0. cbv zeta. unfold scanFile, log_file.
  rewrite scan_log_torn; [done|by eapply log_encodable|by eapply entry_encodable|done].
Qed.

(** C34. In strict mode a crash that tears the last frame of the log costs that frame and
    nothing else: recovery keeps every earlier write, reports exactly the torn bytes,
    cuts them off, and a second recovery of what it left finds a clean log with the
    same contents. *)
Theorem recover_torn_tail snap f es1 es2 e k :
  holds snap es1 -> Forall (entry_ok JSON_parse) es2 -> entry_ok JSON_parse e ->
  0 < k < blen (input_bytes (entry_input e)) ->
  content f = log_file es2 ++ take (Z.to_nat k) (input_bytes (entry_input e)) ->
  let f' := File (log_file es2) (f_dev f) (f_ino f) in
  exists info s,
    recover JSON_parse now snap (Some f) (empty_store : store) Strict true vmode = Ok (info, s, Some f') /\
    replayed now (files_of snap (Some f')) vmode s (state_of es1 es2) /\
    truncatedWal info = true /\ lostBytes info = k /\ walScanEnd info = blen (log_file es2) /\
    exists info' s',
      recover JSON_parse now snap (Some f') (empty_store : store) Strict true vmode = Ok (info', s', Some f') /\
      replayed now (files_of snap (Some f')) vmode s' (state_of es1 es2) /\ lostBytes info' = 0.
Proof.
  intros H1 Hes He Hk Hf f'. unfold recover. set (files := files_of snap (Some f')).
  destruct (recoverSnapshot_log snap es1 files empty_store ∅ Strict H1 eq_refl)
    as (s1 & -> & Hr1); [apply replayed_empty|]. cbn [rbind].
  destruct (recoverWal_log (Some f') es2 files s1 _ Strict true (conj Hes eq_refl) eq_refl Hr1)
    as (w & -> & Hr2 & E1 & E2 & E3 & E4 & E5). cbn [rbind]. rewrite E1, E2, E3, E4, E5.
  set (tail := take (Z.to_nat k) (input_bytes (entry_input e))) in *.
  assert (Htl : blen tail = k) by (apply blen_take; lia).
  pose proof (log_torn es2 e k Hes He ltac:(lia) []) as Hscan. cbv zeta in Hscan.
  change (log_file []) with (@nil byte) in Hscan. cbn [app] in Hscan. change (blen (@nil byte)) with 0 in Hscan.
  fold tail in Hscan. unfold recoverWal. rewrite Hf, Hscan. cbn [rbind s_frames s_corruptRanges s_eofOffset].
  destruct (applyFrames_replayed JSON_parse now files vmode tail es2
    (log_refs 0 (entry_input <$> es2)) Wal s1 _ Hes (log_file_refs JSON_parse files es2 Wal Hes eq_refl) Hr1)
    as (s2 & Ha & Hr3).
  change (files Wal) with (log_file es2) in Ha. rewrite Ha.
  rewrite (proj2 (Z.eqb_neq k 0)) by lia. cbn [last andb]. rewrite Z.eqb_refl. cbn [andb rbind wp_store wp_file wp_frames wp_truncated wp_corrupt wp_scanEnd wp_dev wp_ino app].
  assert (Hcut : take (Z.to_nat (0 + blen (log_file es2))) (log_file es2 ++ tail) = log_file es2).
  { rewrite Z.add_0_l. unfold blen. rewrite Nat2Z.id. apply take_app_length. }
  rewrite Hcut. eexists _, _. split; [done|]. split; [exact Hr3|]. split; [done|].
  cbn [lostBytes walScanEnd]. split.
  { unfold ranges_sum. cbn. rewrite blen_app, Htl. lia. }
  split; [lia|]. eexists _, _. split; [done|]. split; [exact Hr2|done].
Qed.

Lemma input_magic i k :
  0 <= k < blen (input_bytes i) -> let n := Z.min 2 k in
  take (Z.to_nat n) MAGIC = take (Z.to_nat n) (take (Z.to_nat k) (input_bytes i)).
Proof.
  intros Hk. cbv zeta. rewrite take_take, Nat.min_l by lia.
  change (input_bytes i) with (MAGIC ++ drop 2 (input_bytes i)).
  symmetry. apply take_app_le. cbn. lia.
Qed.

(** A replica at the end of the log it has replayed is given exactly the frames
    appended since, whole frames only, with the offset to continue from; applying
    them brings it to the state of the longer log. A frame still being written is
    left for the next call. *)
Theorem catchUp_replays_suffix f es1 es2 e k (s : store) M :
  Forall (entry_ok JSON_parse) es2 -> entry_ok JSON_parse e ->
  0 <= k < blen (input_bytes (entry_input e)) ->
  content f = log_file es1 ++ log_file es2 ++ take (Z.to_nat k) (input_bytes (entry_input e)) ->
  let files := files_of None (Some f) in
  replayed now files vmode s M ->
  exists fs s',
    catchUpWal (Some f) (blen (log_file es1)) (f_dev f) (f_ino f) =
      Ok (Some (blen (log_file es1) + blen (log_file es2), fs)) /\
    blen fs = blen es2 /\
    applyFrames JSON_parse now fs Wal (content f) s vmode = (s', None) /\
    replayed now files vmode s' (replay JSON_parse (log_ops es2) M).
Proof.
  intros Hes He Hk Hf files Hr. unfold catchUpWal. rewrite !Z.eqb_refl. cbn [negb orb].
  set (tail := take (Z.to_nat k) (input_bytes (entry_input e))) in *.
  assert (Htl : blen tail = k) by (apply blen_take; lia).
  pose proof (blen_nonneg (log_file es1)) as L1. pose proof (blen_nonneg (log_file es2)) as L2.
  assert (Hsize : blen (content f) = blen (log_file es1) + blen (log_file es2) + k)
    by (rewrite Hf, !blen_app; lia).
  rewrite Hsize. rewrite (proj2 (Z.ltb_ge _ 0)) by lia.
  rewrite (proj2 (Z.ltb_ge (_ + _ + k) _)) by lia. cbn [orb].
  pose proof (log_torn es2 e k Hes He Hk es1) as Hscan. cbv zeta in Hscan. fold tail in Hscan.
  rewrite Hf, Hscan. cbn [rbind s_frames s_eofOffset].
  set (fs := log_refs (blen (log_file es1)) (entry_input <$> es2)).
  destruct (applyFrames_replayed JSON_parse now files vmode [] es2 fs Wal s M Hes) as (s' & Ha & Hr').
  { change (files Wal) with (content f). rewrite Hf. apply log_refs_ok. by eapply log_encodable. }
  { done. }
  rewrite app_nil_r in Ha. change (files Wal) with (content f) in Ha. rewrite Hf in Ha.
  assert (Hlen : blen fs = blen es2) by apply blen_log_refs.
  exists fs, s'. split; [|by split].
  destruct es2 as [|e2 es2].
  - cbn [fs fmap list_fmap log_refs]. change (log_file []) with (@nil byte) in *.
    change (blen (@nil byte)) with 0 in *. rewrite !Z.add_0_r.
    destruct (Z.ltb_spec (blen (log_file es1)) (blen (log_file es1) + k)); cbn [andb]; [|done].
    cbn [app]. unfold readAtSync. replace (blen (log_file es1) + k - blen (log_file es1)) with k by lia.
    change (blen MAGIC) with 2. rewrite (proj2 (Z.eqb_neq (Z.min 2 k) 0)) by lia.
    rewrite readExactSync_in by (rewrite ?blen_app; lia). cbn [rbind].
    rewrite bool_decide_eq_true_2; [done|].
    pose proof (input_magic (entry_input e) k Hk) as Hm. cbv zeta in Hm. rewrite Hm. fold tail.
    unfold sub. rewrite Z.add_simpl_l. f_equal. unfold blen. by rewrite Nat2Z.id, drop_app_length.
  - cbn [fs fmap list_fmap log_refs andb]. done.
Qed.
End recover_theorems.

(** * Concrete recoveries, on the reference index *)

#[local] Instance str_index : OrderedIndex jsstr jsstr (list (jsstr * jsstr)) :=
  list_index cmpString cmpString.
#[local] Instance str_index_laws : OrderedIndexLaws (H := str_index) cmpString cmpString :=
  list_index_laws cmpString cmpString.

Abbreviation list_store := (store (T := list (jsstr * jsstr))).

Definition no_meta (b : buffer) : option json := Some (JObject []).

(** A snapshot with keys [a] and [b]; a log that overwrites [a] with a value expiring
    at 50 and, in one batch, deletes [b] and sets [c]. *)
Definition ex_snap : list entry := [Single (LSet [x61] [x01] 0 None); Single (LSet [x62] [x02] 0 None)].
Definition ex_wal : list entry :=
  [Single (LSet [x61] [x03] 50 None); Batch [LDel [x62]; LSet [x63] [x04; x05] 0 None]].
Definition ex_last : entry := Single (LSet [x64] [x06] 0 None).

Lemma ex_ok : Forall (entry_ok no_meta) (ex_snap ++ ex_wal ++ [ex_last]).
Proof.
  repeat constructor; cbn; try (by vm_compute); try (unfold MAX_KEY_LEN, MAX_VAL_LEN; cbn; lia);
    by eexists.
Qed.

Lemma ex_snap_ok : Forall (entry_ok no_meta) ex_snap.
Proof. pose proof ex_ok as H. by apply Forall_app in H as [H _]. Qed.
Lemma ex_wal_ok : Forall (entry_ok no_meta) ex_wal.
Proof.
  pose proof ex_ok as H. apply Forall_app in H as [_ H]. by apply Forall_app in H as [H _].
Qed.
Lemma ex_last_ok : entry_ok no_meta ex_last.
Proof.
  pose proof ex_ok as H. apply Forall_app in H as [_ H]. apply Forall_app in H as [_ H].
  by apply Forall_cons in H as [H _].
Qed.

Definition ex_snap_file : file := File (log_file ex_snap) 1 7.
Definition ex_wal_file : file := File (log_file ex_wal) 1 8.
Definition ex_torn_file : file :=
  File (log_file ex_wal ++ take (Z.to_nat 9) (input_bytes (entry_input ex_last))) 1 8.

Lemma recover_replays_log_witness :
  exists info (s : list_store),
    recover no_meta 60 (Some ex_snap_file) (Some ex_wal_file) empty_store Resync true DiskMode =
      Ok (info, s, Some ex_wal_file) /\
    store_wf s /\ lostBytes info = 0 /\ view s 60 [97]%N = None /\
    exists r, view s 60 [99]%N = Some r /\
      denotes (files_of (Some ex_snap_file) (Some ex_wal_file)) DiskMode (ref r) [x04; x05].
Proof.
  destruct (recover_replays_log no_meta 60 DiskMode (T := list (jsstr * jsstr)) (Some ex_snap_file)
    (Some ex_wal_file) ex_snap ex_wal Resync true (conj ex_snap_ok eq_refl) (conj ex_wal_ok eq_refl))
    as (info & s & H1 & H2 & H3 & _ & _ & H4 & _ & _).
  exists info, s. split; [exact H1|]. split; [exact H2|]. split; [exact H4|].
  pose proof (H3 60 [97]%N ltac:(lia)) as Ha. pose proof (H3 60 [99]%N ltac:(lia)) as Hc.
  destruct (view s 60 [97]%N) as [r|] eqn:Ea.
  { exfalso. unfold view in Ea. destruct (jget (map s) [97]%N) as [r'|] eqn:Er; [|discriminate].
    destruct (expired r' 60) eqn:Ee; [discriminate|]. injection Ea as ->.
    destruct Ha as (v & Hv & _). assert (Hs : state_of no_meta ex_snap ex_wal !! [97]%N = Some ([x03], 50, None))
      by (vm_compute; reflexivity).
    rewrite Hs in Hv. injection Hv as _ Hexp _. unfold expired in Ee. rewrite <- Hexp in Ee. discriminate. }
  split; [reflexivity|].
  assert (Hs : state_of no_meta ex_snap ex_wal !! [99]%N = Some ([x04; x05], 0, None))
    by (vm_compute; reflexivity).
  destruct (view s 60 [99]%N) as [r|].
  - destruct Hc as (v & Hv & Hd). rewrite Hs in Hv. injection Hv as <- _ _. exists r. split; [reflexivity|exact Hd].
  - specialize (Hc _ _ _ Hs). discriminate.
Defined.

Lemma recover_torn_tail_witness :
  exists info (s : list_store),
    recover no_meta 20 (Some ex_snap_file) (Some ex_torn_file) empty_store Strict true MemoryMode =
      Ok (info, s, Some ex_wal_file) /\ truncatedWal info = true /\ lostBytes info = 9.
Proof.
  destruct (recover_torn_tail no_meta 20 MemoryMode (T := list (jsstr * jsstr)) (Some ex_snap_file)
    ex_torn_file ex_snap ex_wal ex_last 9 (conj ex_snap_ok eq_refl) ex_wal_ok ex_last_ok)
    as (info & s & H1 & _ & H2 & H3 & _).
  - vm_compute. split; reflexivity.
  - reflexivity.
  - exists info, s. split; [exact H1|]. split; [exact H2|exact H3].
Defined.

Lemma catchUp_replays_suffix_witness :
  exists fs, catchUpWal (Some (File (log_file ex_snap ++ content ex_torn_file) 1 8))
      (blen (log_file ex_snap)) 1 8 =
    Ok (Some (blen (log_file ex_snap) + blen (log_file ex_wal), fs)) /\ blen fs = 2.
Proof.
  set (f := File (log_file ex_snap ++ content ex_torn_file) 1 8).
  destruct (catchUp_replays_suffix no_meta 20 MemoryMode (T := list (jsstr * jsstr)) f ex_snap ex_wal ex_last 9
    empty_store ∅ ex_wal_ok ex_last_ok) as (fs & s' & H1 & H2 & _).
  - vm_compute. split; [discriminate|reflexivity].
  - reflexivity.
  - apply replayed_empty.
  - exists fs. split; [exact H1|exact H2].
Defined.
