(* ===== verification/Wal.v ===== *)
(** The write-ahead log ([packages/minidb/src/wal.ts]). Appends are queued and a
    single flush in flight writes the queue with [writev], which may be short; the
    offset given to an append is a prediction. A run is a sequence of events: calls
    of the database, results of the system calls. Timers only decide when an event
    comes; [FlushStart] is the [setImmediate] callback or [flush]. *)

From S2P Require Import Prelude.

Inductive fsync_policy := Always | EverySec | NoSync.

(** The flush in flight: its batch of promises, the buffers left to write and the
    offset into the first, or the wait for [fsync]. *)
Record flight := Flight {
  fl_batch : list (nat * buffer);
  fl_bufs : list buffer;
  fl_off : Z;
  fl_syncing : bool;
}.

Record wal := Wal {
  w_file : buffer;                  (* the file's bytes *)
  w_policy : fsync_policy;
  w_size : Z;
  w_nextOffset : Z;
  w_queue : list (nat * buffer);    (* promise and frame *)
  w_flight : option flight;
  w_sealed : bool;
  w_closed : bool;
  w_promises : nat;                 (* promises created *)
  w_resolved : list nat;
  w_rejected : list nat;
}.

(** [open] on a file that exists or is created. *)
Definition open (content : buffer) (p : fsync_policy) : wal :=
  Wal content p (blen content) (blen content) [] None false false 0 [] [].

Inductive append_result :=
| Accepted (offset : Z) (promise : nat)
| WalClosed
| WalSealed.

Definition appendLoc (w : wal) (frame : buffer) : wal * append_result :=
  if w_closed w then (w, WalClosed)
  else if w_sealed w then (w, WalSealed)
  else (Wal (w_file w) (w_policy w) (w_size w) (w_nextOffset w + blen frame)
          (w_queue w ++ [(w_promises w, frame)]) (w_flight w) (w_sealed w) (w_closed w)
          (S (w_promises w)) (w_resolved w) (w_rejected w),
        Accepted (w_nextOffset w) (w_promises w)).

(** [flushBatch] up to its first [writev]. *)
Definition flushBatch (w : wal) : wal :=
  match w_flight w, w_queue w with
  | Some _, _ | _, [] => w
  | None, batch =>
      Wal (w_file w) (w_policy w) (w_size w) (w_nextOffset w) []
        (Some (Flight batch batch.*2 0 false)) (w_sealed w) (w_closed w) (w_promises w)
        (w_resolved w) (w_rejected w)
  end.

(** The bookkeeping after [bytesWritten = rem]. *)
Fixpoint advance (bufs : list buffer) (off rem : Z) : list buffer * Z :=
  match bufs with
  | [] => ([], off)
  | b :: bufs' =>
      if 0 <? rem then
        let left := blen b - off in
        if rem <? left then (bufs, off + rem) else advance bufs' 0 (rem - left)
      else (bufs, off)
  end.

(** What [writev] is given. *)
Definition toWrite (bufs : list buffer) (off : Z) : list buffer :=
  if 0 <? off then
    match bufs with b :: bufs' => drop (Z.to_nat off) b :: bufs' | [] => [] end
  else bufs.

Definition settle (w : wal) (f : flight) (ok : bool) : wal :=
  Wal (w_file w) (w_policy w) (w_size w) (w_nextOffset w) (w_queue w) None (w_sealed w) (w_closed w)
    (w_promises w)
    (if ok then w_resolved w ++ (fl_batch f).*1 else w_resolved w)
    (if ok then w_rejected w else w_rejected w ++ (fl_batch f).*1).

(** The end of the write loop: wait for [fsync] under the policy [Always]. *)
Definition written (w : wal) (f : flight) : wal :=
  match w_policy w with
  | Always =>
      Wal (w_file w) (w_policy w) (w_size w) (w_nextOffset w) (w_queue w)
        (Some (Flight (fl_batch f) [] 0 true)) (w_sealed w) (w_closed w) (w_promises w)
        (w_resolved w) (w_rejected w)
  | _ => settle w f true
  end.

(** [writev] returned [n]; [None] when it cannot have. *)
Definition writev (w : wal) (n : Z) : option wal :=
  match w_flight w with
  | Some f =>
      let data := concat (toWrite (fl_bufs f) (fl_off f)) in
      if negb (fl_syncing f) && (0 <=? n) && (n <=? blen data) then
        if n =? 0 then Some (settle w f false)
        else
          let (bufs, off) := advance (fl_bufs f) (fl_off f) n in
          let w' := Wal (w_file w ++ take (Z.to_nat n) data) (w_policy w) (w_size w + n) (w_nextOffset w)
                      (w_queue w) (Some (Flight (fl_batch f) bufs off false)) (w_sealed w) (w_closed w)
                      (w_promises w) (w_resolved w) (w_rejected w) in
          Some (match bufs with [] => written w' f | _ => w' end)
      else None
  | None => None
  end.

Definition seal (w : wal) : wal :=
  Wal (w_file w) (w_policy w) (w_size w) (w_nextOffset w) (w_queue w) (w_flight w) true (w_closed w)
    (w_promises w) (w_resolved w) (w_rejected w).

(** [close] up to its flush. *)
Definition close (w : wal) : wal :=
  Wal (w_file w) (w_policy w) (w_size w) (w_nextOffset w) (w_queue w) (w_flight w) (w_sealed w) true
    (w_promises w) (w_resolved w) (w_rejected w).

Definition refreshSize (w : wal) : wal :=
  Wal (w_file w) (w_policy w) (blen (w_file w)) (blen (w_file w)) (w_queue w) (w_flight w) (w_sealed w)
    (w_closed w) (w_promises w) (w_resolved w) (w_rejected w).

Inductive event :=
| Append (frame : buffer)
| FlushStart
| Written (n : Z)        (* writev returned n *)
| WriteError             (* writev threw *)
| Synced (ok : bool)     (* the fsync of policy always *)
| Seal
| Close.

(** An event that cannot happen in a state leaves [None]. *)
Definition step (w : wal) (e : event) : option wal :=
  match e with
  | Append frame => Some (appendLoc w frame).1
  | FlushStart => Some (flushBatch w)
  | Written n => writev w n
  | WriteError =>
      match w_flight w with
      | Some f => if fl_syncing f then None else Some (settle w f false)
      | None => None
      end
  | Synced ok =>
      match w_flight w with
      | Some f => if fl_syncing f then Some (settle w f ok) else None
      | None => None
      end
  | Seal => Some (seal w)
  | Close => Some (close w)
  end.

Fixpoint run (evs : list event) (w : wal) : option wal :=
  match evs with
  | [] => Some w
  | e :: evs' => w' ← step w e; run evs' w'
  end.

(** The accepted appends of a run, in order: predicted offset and frame. *)
Fixpoint accepted (evs : list event) (w : wal) : list (Z * buffer) :=
  match evs with
  | [] => []
  | e :: evs' =>
      let here := match e with
                  | Append frame => match (appendLoc w frame).2 with Accepted off _ => [(off, frame)] | _ => [] end
                  | _ => []
                  end in
      match step w e with Some w' => here ++ accepted evs' w' | None => here end
  end.

(** No write of the run failed. *)
Definition healthy (e : event) : bool :=
  match e with WriteError | Synced false => false | Written n => negb (n =? 0) | _ => true end.

(** [flush], with the results of its system calls: [short k n] bytes of [n] are
    written by a [writev]. *)
Fixpoint flush (short : nat -> Z -> Z) (fuel : nat) (w : wal) : option wal :=
  match fuel with
  | O => None
  | S fuel' =>
      match w_flight w, w_queue w with
      | None, [] => Some w
      | Some (Flight _ _ _ true as f), _ => flush short fuel' (settle w f true)
      | _, _ =>
          let w' := flushBatch w in
          match w_flight w' with
          | Some f => w'' ← writev w' (short fuel' (blen (concat (toWrite (fl_bufs f) (fl_off f)))));
                      flush short fuel' w''
          | None => None
          end
      end
  end.

(** * The write loop *)

(** The bytes a loop state still has to write. *)
Definition unwritten (bufs : list buffer) (off : Z) : buffer := drop (Z.to_nat off) (concat bufs).

Definition loop_ok (bufs : list buffer) (off : Z) : Prop :=
  match bufs with b :: _ => 0 <= off <= blen b | [] => off = 0 end.

Lemma toWrite_unwritten bufs off : loop_ok bufs off -> concat (toWrite bufs off) = unwritten bufs off.
Proof.
  unfold toWrite, unwritten, loop_ok. destruct bufs as [|b bufs]; cbn.
  - intros ->. done.
  - intros Ho. destruct (Z.ltb_spec 0 off) as [H|H].
    + cbn. rewrite drop_app_le; [done|]. unfold blen in Ho. lia.
    + replace off with 0 by lia. done.
Qed.

Lemma advance_spec bufs : forall off n,
  loop_ok bufs off -> 0 <= n <= blen (unwritten bufs off) ->
  let '(bufs', off') := advance bufs off n in
  loop_ok bufs' off' /\ unwritten bufs' off' = drop (Z.to_nat n) (unwritten bufs off).
Proof.
  induction bufs as [|b bufs IH]; intros off n Ho Hn; cbn [advance].
  { cbn in Ho. subst off. split; [done|]. unfold unwritten. cbn. by rewrite !drop_nil. }
  destruct (Z.ltb_spec 0 n) as [Hn0|Hn0].
  2:{ replace n with 0 by lia. by rewrite drop_0. }
  unfold loop_ok in Ho. unfold unwritten in Hn |- *. cbn [concat] in *.
  destruct (Z.ltb_spec n (blen b - off)) as [Hl|Hl].
  - split; [cbn; lia|]. cbn [concat]. rewrite drop_drop. f_equal. lia.
  - specialize (IH 0 (n - (blen b - off))).
    assert (Hlen : blen (drop (Z.to_nat off) (b ++ concat bufs)) = blen b - off + blen (concat bufs)).
    { unfold blen. rewrite length_drop, length_app. unfold blen in Ho. lia. }
    destruct (advance bufs 0 (n - (blen b - off))) as [bufs' off'] eqn:E.
    destruct IH as [IH1 IH2]; [by destruct bufs; cbn; unfold blen; lia|unfold unwritten; cbn; rewrite drop_0; lia|].
    split; [done|]. unfold unwritten in IH2. rewrite IH2. cbn. rewrite drop_0, drop_drop.
    rewrite drop_app_ge by (unfold blen in *; lia). f_equal. unfold blen in *. lia.
Qed.

(** * Runs without failure *)

Definition flight_bytes (f : flight) : buffer :=
  if fl_syncing f then [] else unwritten (fl_bufs f) (fl_off f).

Definition in_flight (w : wal) : buffer := match w_flight w with Some f => flight_bytes f | None => [] end.
Definition batch_of (w : wal) : list (nat * buffer) := match w_flight w with Some f => fl_batch f | None => [] end.

(** [acc]: the frames accepted so far. *)
Record inv (base : buffer) (w : wal) (acc : list (Z * buffer)) : Prop := {
  i_size : w_size w = blen (w_file w);
  i_next : w_nextOffset w = blen base + blen (concat acc.*2);
  i_bytes : w_file w ++ in_flight w ++ concat (w_queue w).*2 = base ++ concat acc.*2;
  i_offsets : forall i off fr, acc !! i = Some (off, fr) -> off = blen base + blen (concat (take i acc.*2));
  i_promises : w_promises w = length acc;
  i_order : w_resolved w ++ (batch_of w).*1 ++ (w_queue w).*1 = seq 0 (length acc);
  i_frames : exists fs, acc.*2 = fs ++ (batch_of w).*2 ++ (w_queue w).*2 /\ length fs = length (w_resolved w);
  i_flight : forall f, w_flight w = Some f ->
    loop_ok (fl_bufs f) (fl_off f) /\ exists pre, concat (fl_batch f).*2 = pre ++ flight_bytes f;
}.

Lemma open_inv base p : inv base (open base p) [].
Proof. split; cbn; rewrite ?app_nil_r; try done; [unfold blen; cbn; lia|by exists []]. Qed.

Lemma appendLoc_inv base w acc frame off id :
  inv base w acc -> (appendLoc w frame).2 = Accepted off id ->
  inv base (appendLoc w frame).1 (acc ++ [(off, frame)]).
Proof.
  intros [H1 H2 H3 H4 H5 H6 H7 H8]. unfold appendLoc.
  destruct (w_closed w); [done|]. destruct (w_sealed w); [done|]. intros [= <- <-].
  assert (Hc : concat (acc ++ [(w_nextOffset w, frame)]).*2 = concat acc.*2 ++ frame).
  { rewrite fmap_app, concat_app. cbn. by rewrite app_nil_r. }
  split; cbn [fst snd w_size w_file w_nextOffset w_queue w_flight w_promises w_resolved] in *.
  - done.
  - rewrite Hc, blen_app. lia.
  - rewrite Hc, fmap_app, concat_app. unfold in_flight in *. cbn. rewrite app_nil_r, app_assoc.
    rewrite (app_assoc _ _ frame), <- (app_assoc (w_file w)), H3. by rewrite app_assoc.
  - intros i off fr. rewrite lookup_app_Some, fmap_app. intros [Hi|[Hle Hi]].
    + rewrite take_app_le; [by apply H4 in Hi|]. rewrite length_fmap. by apply lookup_lt_Some in Hi; lia.
    + destruct (i - length acc)%nat as [|k] eqn:Ek; [|done]. injection Hi as <- <-.
      rewrite take_app_length'; [lia|]. rewrite length_fmap. lia.
  - rewrite H5, length_app. cbn. lia.
  - unfold batch_of in *. cbn. rewrite fmap_app, length_app. cbn.
    rewrite app_assoc, app_assoc, <- (app_assoc (w_resolved w)), H6, H5. rewrite seq_app. done.
  - destruct H7 as (fs & Hf & Hl). exists fs. split; [|done]. unfold batch_of in *. cbn.
    rewrite !fmap_app, Hf. cbn. by rewrite !app_assoc.
  - done.
Qed.

Lemma flushBatch_inv base w acc : inv base w acc -> inv base (flushBatch w) acc.
Proof.
  intros Hi. unfold flushBatch. destruct (w_flight w) as [f|] eqn:Ef; [done|].
  destruct (w_queue w) as [|x q] eqn:Eq; [done|]. rewrite <- Eq. clear x q Eq.
  destruct Hi as [H1 H2 H3 H4 H5 H6 H7 H8]. unfold in_flight, batch_of in *. rewrite Ef in *. cbn in *.
  split; unfold in_flight, batch_of, flight_bytes, unwritten; cbn; rewrite ?app_nil_r; try done.
  intros f [= <-]. cbn. split; [|by exists []].
  destruct (w_queue w) as [|[i b] q]; cbn; unfold blen; lia.
Qed.

Lemma settle_inv base w acc f :
  inv base w acc -> w_flight w = Some f -> flight_bytes f = [] -> inv base (settle w f true) acc.
Proof.
  intros [H1 H2 H3 H4 H5 H6 H7 H8] Ef Eb. unfold in_flight, batch_of in *. rewrite Ef in *. rewrite Eb in H3. cbn in H3.
  split; unfold in_flight, batch_of; cbn; try done.
  - by rewrite <- app_assoc.
  - destruct H7 as (fs & Hf & Hl). exists (fs ++ (fl_batch f).*2). split; [by rewrite <- app_assoc|].
    by rewrite !length_app, !length_fmap, Hl.
Qed.

(** The flight replaced by one with the same bytes to come. *)
Lemma reflight_inv base w acc f f' :
  inv base w acc -> w_flight w = Some f -> fl_batch f' = fl_batch f -> flight_bytes f' = flight_bytes f ->
  loop_ok (fl_bufs f') (fl_off f') ->
  inv base (Wal (w_file w) (w_policy w) (w_size w) (w_nextOffset w) (w_queue w) (Some f') (w_sealed w) (w_closed w)
    (w_promises w) (w_resolved w) (w_rejected w)) acc.
Proof.
  intros [H1 H2 H3 H4 H5 H6 H7 H8] Ef Eb Ey Hl. unfold in_flight, batch_of in *. rewrite Ef in *.
  split; unfold in_flight, batch_of; cbn; rewrite ?Eb, ?Ey; try done.
  intros f2 [= <-]. rewrite Eb, Ey. split; [done|]. by destruct (H8 f eq_refl).
Qed.

Lemma written_inv base w acc f :
  inv base w acc -> w_flight w = Some f -> flight_bytes f = [] -> inv base (written w f) acc.
Proof.
  intros Hi Ef Eb. unfold written. destruct (w_policy w) eqn:Ep; try by apply settle_inv.
  rewrite <- Ep. by apply (reflight_inv base w acc f).
Qed.

Lemma writev_inv base w w' acc n :
  inv base w acc -> writev w n = Some w' -> n <> 0 ->
  inv base w' acc /\ exists data, w_file w' = w_file w ++ data /\ blen data = n.
Proof.
  intros Hi Hw Hn. unfold writev in Hw. destruct (w_flight w) as [f|] eqn:Ef; [|done].
  destruct (fl_syncing f) eqn:Es; [done|]. cbn [negb andb] in Hw.
  pose proof Hi as [H1 H2 H3 H4 H5 H6 H7 H8]. destruct (H8 f Ef) as [Hl (pre & Hpre)].
  rewrite (toWrite_unwritten _ _ Hl) in Hw.
  destruct ((0 <=? n) && (n <=? blen (unwritten (fl_bufs f) (fl_off f)))) eqn:Eb; [|done].
  apply andb_true_iff in Eb as [Hn1%Z.leb_le Hn2%Z.leb_le].
  destruct (Z.eqb_spec n 0) as [|_]; [done|].
  pose proof (advance_spec (fl_bufs f) (fl_off f) n Hl (conj Hn1 Hn2)) as Ha.
  destruct (advance (fl_bufs f) (fl_off f) n) as [bufs off]. destruct Ha as [Hl' Hu].
  set (data := take (Z.to_nat n) (unwritten (fl_bufs f) (fl_off f))) in *.
  assert (Hsplit : unwritten (fl_bufs f) (fl_off f) = data ++ unwritten bufs off) by (rewrite Hu; unfold data; by rewrite take_drop).
  assert (Hdata : blen data = n) by by apply blen_take.
  set (f' := Flight (fl_batch f) bufs off false) in *.
  set (w1 := Wal (w_file w ++ data) _ _ _ _ (Some f') _ _ _ _ _) in *.
  assert (Hi1 : inv base w1 acc).
  { assert (Hfb : flight_bytes f = data ++ flight_bytes f') by (unfold flight_bytes; rewrite Es; exact Hsplit).
    unfold in_flight, batch_of in *. rewrite Ef, Hfb in *. rewrite <- !app_assoc in H3.
    split; unfold in_flight, batch_of; cbn [w1 w_size w_file w_flight w_queue w_nextOffset w_promises w_resolved];
      try done.
    - rewrite blen_app. lia.
    - by rewrite <- app_assoc.
    - intros f2 [= <-]. split; [done|]. exists (pre ++ data).
      change (fl_batch f') with (fl_batch f). by rewrite Hpre, app_assoc. }
  assert (Hfile : w_file w1 = w_file w ++ data) by done.
  destruct bufs as [|b bufs]; injection Hw as <-; [|by split; [|exists data]].
  split; [|exists data; split; [|done]].
  - change (written w1 f) with (written w1 f'). apply (written_inv base w1 acc f'); [done..|].
    unfold flight_bytes, unwritten. cbn. by rewrite drop_nil.
  - unfold written. by destruct (w_policy w1).
Qed.

Lemma step_inv base w w' acc e :
  inv base w acc -> step w e = Some w' -> healthy e = true -> inv base w' (acc ++ accepted [e] w).
Proof.
  intros Hi Hs Hh. assert (Hrest : match e with Append _ => True | _ => inv base w' acc end).
  { destruct e as [frame| |n| |ok| |]; cbn [step] in Hs; [done|..].
    - injection Hs as <-. by apply flushBatch_inv.
    - cbn in Hh. apply (writev_inv base w w' acc n); [done|done|]. intros ->. done.
    - done.
    - destruct ok; [|done]. destruct (w_flight w) as [f|] eqn:Ef; [|done].
      destruct (fl_syncing f) eqn:Ey; [|done]. injection Hs as <-. apply settle_inv; [done..|].
      unfold flight_bytes. by rewrite Ey.
    - injection Hs as <-. by destruct Hi.
    - injection Hs as <-. by destruct Hi. }
  destruct e as [frame| |n| |ok| |]; cbn [accepted]; rewrite Hs; cbn [app];
    try (rewrite app_nil_r; exact Hrest).
  cbn [step] in Hs. injection Hs as <-. rewrite app_nil_r.
  destruct (appendLoc w frame).2 as [off id| |] eqn:Ea; [by eapply appendLoc_inv|..];
    unfold appendLoc in *; destruct (w_closed w); try done; destruct (w_sealed w); try done;
    by rewrite app_nil_r.
Qed.

Lemma run_inv base evs : forall w w' acc,
  inv base w acc -> run evs w = Some w' -> forallb healthy evs = true -> inv base w' (acc ++ accepted evs w).
Proof.
  induction evs as [|e evs IH]; intros w w' acc Hi Hr Hh; cbn in Hr.
  { injection Hr as <-. cbn. by rewrite app_nil_r. }
  cbn [forallb] in Hh. apply andb_true_iff in Hh as [He Hh].
  destruct (step w e) as [w1|] eqn:Es; [|done]. cbn in Hr.
  pose proof (step_inv base w w1 acc e Hi Es He) as H1. pose proof (IH w1 w' _ H1 Hr Hh) as H2.
  cbn [accepted] in *. rewrite Es in *. by rewrite app_nil_r, <- app_assoc in H2.
Qed.

Lemma sealed_accepts w evs : forall w', w_sealed w = true -> run evs w = Some w' -> accepted evs w = [].
Proof.
  revert w. induction evs as [|e evs IH]; intros w w' Hs Hr; [done|]. cbn in Hr |- *.
  destruct (step w e) as [w1|] eqn:Es; [|done]. cbn in Hr.
  assert (Hs1 : w_sealed w1 = true).
  { destruct e as [frame| |n| |ok| |]; cbn [step] in Es.
    - injection Es as <-. unfold appendLoc. rewrite Hs. by destruct (w_closed w).
    - injection Es as <-. unfold flushBatch. by destruct (w_flight w), (w_queue w).
    - unfold writev in Es. destruct (w_flight w) as [f|]; [|done]. destruct (negb _ && _ && _); [|done].
      destruct (n =? 0); [by injection Es as <-|]. destruct (advance _ _ _) as [[|b bufs] off]; injection Es as <-; [|done].
      unfold written. cbn. by destruct (w_policy w).
    - destruct (w_flight w) as [f|]; [|done]. destruct (fl_syncing f); [done|]. by injection Es as <-.
    - destruct (w_flight w) as [f|]; [|done]. destruct (fl_syncing f); [|done]. by injection Es as <-.
    - by injection Es as <-.
    - by injection Es as <-. }
  rewrite (IH w1 w' Hs1 Hr), app_nil_r. destruct e; try done.
  unfold appendLoc. rewrite Hs. by destruct (w_closed w).
Qed.

(** A resolved frame is in the file at the offset predicted for it. *)
Lemma resolved_in_file base w acc i off fr :
  inv base w acc -> acc !! i = Some (off, fr) -> (i < length (w_resolved w))%nat ->
  off + blen fr <= blen (w_file w) /\ sub (w_file w) off (off + blen fr) = fr.
Proof.
  intros [H1 H2 H3 H4 H5 H6 H7 H8] Hi Hlt. pose proof (H4 i off fr Hi) as ->.
  assert (Hacc : acc.*2 = take i acc.*2 ++ fr :: drop (S i) acc.*2).
  { symmetry. apply take_drop_middle. by rewrite list_lookup_fmap, Hi. }
  destruct H7 as (fs & Hf & Hl).
  assert (Hpre : exists rest, w_file w = base ++ concat fs ++ rest).
  { assert (Hb : exists pre, concat (batch_of w).*2 = pre ++ in_flight w).
    { unfold batch_of, in_flight. destruct (w_flight w) as [f|] eqn:Ef; [by destruct (H8 f eq_refl)|by exists []]. }
    destruct Hb as [pre Hb]. exists pre.
    apply (app_inv_tail (in_flight w ++ concat (w_queue w).*2)).
    by rewrite H3, Hf, !concat_app, Hb, <- !app_assoc. }
  destruct Hpre as [rest Hfile].
  assert (Hfs : exists fs2, fs = take i acc.*2 ++ fr :: fs2).
  { exists (drop (S i) fs). rewrite <- (take_drop_middle fs i fr) at 1.
    - f_equal. rewrite Hf, take_app_le; [done|lia].
    - rewrite Hacc in Hf. assert (Hx : (take i acc.*2 ++ fr :: drop (S i) acc.*2) !! i = Some fr).
      { rewrite <- Hacc, list_lookup_fmap, Hi. done. }
      rewrite Hf in Hx. by rewrite lookup_app_l in Hx by lia. }
  destruct Hfs as [fs2 Hfs].
  assert (Hw : w_file w = (base ++ concat (take i acc.*2)) ++ fr ++ concat fs2 ++ rest).
  { rewrite Hfile, Hfs, concat_app. cbn. by rewrite !app_assoc. }
  rewrite Hw. rewrite <- blen_app. split.
  - len_lia.
  - apply sub_prefix; [done|lia].
Qed.

(** * Draining *)

(** Bytes still to write, twice, and the flight. *)
Definition work (w : wal) : nat :=
  (2 * length (in_flight w ++ concat (w_queue w).*2) +
   match w_flight w with Some _ => 1 | None => 0 end)%nat.

(** No frame is empty, and a flight that is not waiting for [fsync] has bytes left. *)
Definition bufs_busy (bufs : list buffer) (off : Z) : Prop :=
  Forall (fun b => b <> []) bufs /\ match bufs with b :: _ => 0 <= off < blen b | [] => True end.

Definition busy (w : wal) : Prop :=
  (forall f, w_flight w = Some f -> fl_syncing f = false -> fl_bufs f <> [] /\ bufs_busy (fl_bufs f) (fl_off f)) /\
  Forall (fun p => p.2 <> []) (w_queue w).

Lemma bufs_busy_zero bufs : Forall (fun b => b <> []) bufs -> bufs_busy bufs 0.
Proof. intros H. split; [done|]. destruct H as [|b bufs Hb _]; [done|]. destruct b; [done|]. unfold blen. cbn. lia. Qed.

Lemma advance_busy bufs : forall off n, bufs_busy bufs off -> 0 <= n ->
  let '(bufs', off') := advance bufs off n in bufs_busy bufs' off'.
Proof.
  induction bufs as [|b bufs IH]; intros off n Hb Hn; cbn [advance]; [done|].
  destruct (Z.ltb_spec 0 n); [|done]. destruct Hb as [Hf Hb]. destruct (Z.ltb_spec n (blen b - off)) as [Hl|Hl].
  - split; [done|]. lia.
  - apply IH; [|lia]. apply Forall_cons in Hf as [_ Hf]. by apply bufs_busy_zero.
Qed.

Lemma unwritten_nonempty bufs off : bufs <> [] -> bufs_busy bufs off -> 0 < blen (unwritten bufs off).
Proof.
  destruct bufs as [|b bufs]; [done|]. intros _ [_ Hb]. unfold unwritten, blen in *. cbn.
  rewrite length_drop, length_app. lia.
Qed.

Lemma flushBatch_busy w : busy w -> busy (flushBatch w).
Proof.
  intros [Hf Hq]. unfold flushBatch. destruct (w_flight w) as [f|] eqn:Ef; [split; [by rewrite Ef|done]|].
  destruct (w_queue w) as [|[i b] q] eqn:Eq; [split; [by rewrite Ef|by rewrite Eq]|].
  split; cbn; [|constructor]. intros f [= <-] _. cbn. split; [done|]. apply bufs_busy_zero.
  change (b :: q.*2) with ((i, b) :: q).*2. by rewrite Forall_fmap.
Qed.

Lemma settle_busy w f ok : busy w -> busy (settle w f ok).
Proof. intros [_ Hq]. by split. Qed.

(** A write that makes progress leaves less work. *)
Lemma writev_work base w acc f n :
  inv base w acc -> busy w -> w_flight w = Some f -> fl_syncing f = false ->
  0 < n <= blen (concat (toWrite (fl_bufs f) (fl_off f))) ->
  exists w', writev w n = Some w' /\ inv base w' acc /\ busy w' /\ (S (work w') < work w)%nat /\
    w_rejected w' = w_rejected w.
Proof.
  intros Hi Hb Ef Es Hn. pose proof (i_flight _ _ _ Hi f Ef) as [Hl _]. destruct Hb as [Hb Hq].
  destruct (Hb f Ef Es) as [Hne Hbf].
  unfold writev. rewrite Ef, Es. rewrite (toWrite_unwritten _ _ Hl) in *. cbn [negb andb].
  assert (Hc : ((0 <=? n) && (n <=? blen (unwritten (fl_bufs f) (fl_off f)))) = true) by lia. rewrite Hc.
  destruct (Z.eqb_spec n 0) as [|_]; [lia|].
  pose proof (advance_spec (fl_bufs f) (fl_off f) n Hl ltac:(lia)) as Ha.
  pose proof (advance_busy (fl_bufs f) (fl_off f) n Hbf ltac:(lia)) as Hbusy.
  destruct (advance (fl_bufs f) (fl_off f) n) as [bufs off] eqn:Ea. destruct Ha as [Hl' Hu].
  set (w1 := Wal (w_file w ++ take (Z.to_nat n) (unwritten (fl_bufs f) (fl_off f))) _ _ _ _ _ _ _ _ _ _).
  set (w2 := match bufs with [] => written w1 f | _ => w1 end).
  assert (Hw : writev w n = Some w2).
  { unfold writev. rewrite Ef, Es, (toWrite_unwritten _ _ Hl). cbn [negb andb]. rewrite Hc.
    destruct (Z.eqb_spec n 0) as [|_]; [lia|]. by rewrite Ea. }
  destruct (writev_inv base w w2 acc n Hi Hw) as (Hi2 & _); [lia|].
  exists w2. split; [by destruct bufs|]. split; [done|].
  assert (Hin : length (in_flight w) = length (unwritten (fl_bufs f) (fl_off f))).
  { unfold in_flight, flight_bytes. by rewrite Ef, Es. }
  assert (Hlen : (length (unwritten bufs off) + Z.to_nat n = length (unwritten (fl_bufs f) (fl_off f)))%nat).
  { rewrite Hu, length_drop. unfold blen in Hn. lia. }
  assert (Hfl : (length (in_flight w2) <= length (unwritten bufs off))%nat /\ w_queue w2 = w_queue w /\
    w_rejected w2 = w_rejected w).
  { unfold w2. destruct bufs as [|b bufs]; [|done]. unfold written. destruct (w_policy w1); cbn; split_and!; try done; lia. }
  destruct Hfl as (Hfl & Eq & Er). split_and!; [| |done].
  - split; [|by rewrite Eq]. unfold w2. destruct bufs as [|b bufs].
    + unfold written. destruct (w_policy w1); cbn; try done. by intros f' [= <-].
    + intros f' [= <-] _. done.
  - unfold work. rewrite Ef, Eq, !length_app, Hin. destruct (w_flight w2); lia.
Qed.

Lemma flushBatch_work w : (w_queue w <> [] \/ w_flight w <> None) -> (work (flushBatch w) <= S (work w))%nat.
Proof.
  intros Hne. unfold flushBatch, work, in_flight. destruct (w_flight w) as [f|] eqn:Ef; [rewrite Ef; lia|].
  destruct (w_queue w) as [|x q] eqn:Eq; [by destruct Hne|]. cbn [w_flight w_queue]. unfold flight_bytes, unwritten.
  cbn [fl_syncing fl_bufs fl_off]. change (Z.to_nat 0) with 0%nat. rewrite drop_0. cbn [fmap list_fmap]. rewrite app_nil_r. cbn [app]. lia.
Qed.

Lemma flush_drains_spec base short acc fuel : forall w,
  inv base w acc -> busy w -> (forall k n, 0 < n -> 0 < short k n <= n) -> (work w < fuel)%nat ->
  exists w', flush short fuel w = Some w' /\ inv base w' acc /\ w_flight w' = None /\ w_queue w' = [] /\
    w_rejected w' = w_rejected w.
Proof.
  induction fuel as [|fuel IH]; intros w Hi Hb Hshort Hfuel; [lia|].
  assert (Hwrite : forall w1 f, inv base w1 acc -> busy w1 -> w_flight w1 = Some f -> fl_syncing f = false ->
    (work w1 <= S (work w))%nat -> w_rejected w1 = w_rejected w ->
    exists w', (w'' ← writev w1 (short fuel (blen (concat (toWrite (fl_bufs f) (fl_off f)))));
                flush short fuel w'') = Some w' /\ inv base w' acc /\ w_flight w' = None /\ w_queue w' = [] /\
      w_rejected w' = w_rejected w).
  { intros w1 f Hi1 Hb1 Ef Es Hw1 Er. pose proof (i_flight _ _ _ Hi1 f Ef) as [Hl _].
    destruct (proj1 Hb1 f Ef Es) as [Hne Hbf]. pose proof (unwritten_nonempty _ _ Hne Hbf) as Hpos.
    pose proof (Hshort fuel _ Hpos) as Hs. rewrite <- (toWrite_unwritten _ _ Hl) in Hs.
    destruct (writev_work base w1 acc f _ Hi1 Hb1 Ef Es Hs) as (w2 & -> & Hi2 & Hb2 & Hw2 & Er2). cbn.
    destruct (IH w2 Hi2 Hb2 Hshort) as (w' & Hf & Hi' & E1 & E2 & E3); [lia|]. exists w'. split_and!; try done. congruence. }
  cbn [flush]. destruct (w_flight w) as [f|] eqn:Ef.
  - destruct f as [batch bufs off sy]. destruct sy.
    + set (f := Flight batch bufs off true) in *.
      destruct (IH (settle w f true)) as (w' & Hf & Hi' & E1 & E2 & E3).
      * by apply settle_inv.
      * by apply settle_busy.
      * done.
      * unfold work, in_flight in *. cbn. rewrite Ef in Hfuel. cbn in Hfuel. lia.
      * exists w'. by split_and!.
    + assert (E : flushBatch w = w) by (unfold flushBatch; by rewrite Ef). cbn zeta. rewrite E, Ef.
      apply Hwrite; try done. lia.
  - destruct (w_queue w) as [|x q] eqn:Eq; [by exists w|].
    assert (Hfl : exists f, w_flight (flushBatch w) = Some f /\ fl_syncing f = false).
    { unfold flushBatch. rewrite Ef, Eq. by eexists. }
    destruct Hfl as (f & Ef' & Es'). cbn zeta. rewrite Ef'. apply Hwrite; try done.
    + by apply flushBatch_inv.
    + by apply flushBatch_busy.
    + apply flushBatch_work. left. by rewrite Eq.
    + unfold flushBatch. rewrite Ef, Eq. done.
Qed.

Lemma writev_legal w n w' :
  writev w n = Some w' -> exists f, w_flight w = Some f /\ fl_syncing f = false /\
    0 <= n <= blen (concat (toWrite (fl_bufs f) (fl_off f))).
Proof.
  unfold writev. destruct (w_flight w) as [f|]; [|done]. destruct (fl_syncing f) eqn:Es; [done|]. cbn.
  destruct ((0 <=? n) && _) eqn:E; [|done]. intros _. exists f. split_and!; [done..| |]; lia.
Qed.

Lemma step_busy base w w' acc e :
  inv base w acc -> busy w -> step w e = Some w' -> healthy e = true ->
  match e with Append frame => frame <> [] | _ => True end -> busy w'.
Proof.
  intros Hi Hb Hs Hh Hfr. destruct e as [frame| |n| |ok| |]; cbn [step] in Hs.
  - injection Hs as <-. unfold appendLoc. destruct (w_closed w); [done|]. destruct (w_sealed w); [done|].
    destruct Hb as [Hb Hq]. split; [done|]. apply Forall_app. split; [done|]. by repeat constructor.
  - injection Hs as <-. by apply flushBatch_busy.
  - destruct (writev_legal w n w' Hs) as (f & Ef & Es & Hn). cbn in Hh.
    destruct (writev_work base w acc f n Hi Hb Ef Es ltac:(lia)) as (w2 & E & _ & Hb2 & _). congruence.
  - done.
  - destruct (w_flight w) as [f|]; [|done]. destruct (fl_syncing f); [|done]. injection Hs as <-. by apply settle_busy.
  - injection Hs as <-. by destruct Hb.
  - injection Hs as <-. by destruct Hb.
Qed.

Definition frames_nonempty (evs : list event) : Prop :=
  Forall (fun e => match e with Append frame => frame <> [] | _ => True end) evs.

Lemma run_busy base evs : forall w w' acc,
  inv base w acc -> busy w -> run evs w = Some w' -> forallb healthy evs = true -> frames_nonempty evs -> busy w'.
Proof.
  induction evs as [|e evs IH]; intros w w' acc Hi Hb Hr Hh Hf; cbn in Hr; [by injection Hr as <-|].
  cbn [forallb] in Hh. apply andb_true_iff in Hh as [He Hh]. apply Forall_cons in Hf as [Hfe Hf].
  destruct (step w e) as [w1|] eqn:Es; [|done]. cbn in Hr.
  apply (IH w1 w' (acc ++ accepted [e] w)); [by apply step_inv|by eapply step_busy|done..].
Qed.

Lemma drained_file base w acc :
  inv base w acc -> w_flight w = None -> w_queue w = [] ->
  w_file w = base ++ concat acc.*2 /\ w_nextOffset w = blen (w_file w) /\ w_resolved w = seq 0 (length acc).
Proof.
  intros [H1 H2 H3 H4 H5 H6 H7 H8] Ef Eq. unfold in_flight, batch_of in *. rewrite Ef, Eq in *. cbn in *.
  rewrite !app_nil_r in H3, H6. rewrite H3. split_and!; [done|by rewrite blen_app|done].
Qed.

(** * The properties *)

(** In every run whose writes succeed (however short), [size] is the file's
    length; the file holds the accepted frames in append order, cut somewhere; a
    frame whose promise has resolved is in the file at the offset predicted when it
    was appended; promises resolve in append order; and once sealed the log accepts
    no more frames. *)
Theorem wal_offsets_exact base p evs w :
  run evs (open base p) = Some w -> forallb healthy evs = true ->
  let acc := accepted evs (open base p) in
  w_size w = blen (w_file w) /\
  (exists rest, w_file w ++ rest = base ++ concat acc.*2) /\
  w_resolved w = seq 0 (length (w_resolved w)) /\
  (forall i off fr, acc !! i = Some (off, fr) -> i ∈ w_resolved w ->
     off + blen fr <= blen (w_file w) /\ sub (w_file w) off (off + blen fr) = fr) /\
  (w_sealed w = true -> forall evs' w', run evs' w = Some w' -> accepted evs' w = []).
Proof.
  intros Hr Hh acc. pose proof (run_inv base evs _ _ [] (open_inv base p) Hr Hh) as Hi. cbn [app] in Hi. fold acc in Hi.
  assert (Hres : w_resolved w = seq 0 (length (w_resolved w))).
  { pose proof (i_order _ _ _ Hi) as Ho. apply (f_equal (take (length (w_resolved w)))) in Ho.
    rewrite take_app_length in Ho. rewrite Ho at 1. rewrite take_seq. f_equal.
    apply (f_equal length) in Ho. rewrite length_take, length_seq in Ho. lia. }
  split_and!.
  - apply Hi.
  - exists (in_flight w ++ concat (w_queue w).*2). apply Hi.
  - done.
  - intros i off fr Ha Hin. rewrite Hres in Hin. apply elem_of_seq in Hin.
    apply (resolved_in_file base w acc i); [done..|lia].
  - intros Hs evs' w'. by apply sealed_accepts.
Qed.

(** After any run whose writes succeed, [flush] terminates whatever positive
    number of bytes each write takes, and leaves every accepted frame in the file,
    every promise resolved, and the next offset at the end of the file. *)
Theorem wal_flush_drains base p evs w short :
  run evs (open base p) = Some w -> forallb healthy evs = true -> frames_nonempty evs ->
  (forall k n, 0 < n -> 0 < short k n <= n) ->
  let acc := accepted evs (open base p) in
  exists w', flush short (S (work w)) w = Some w' /\
    w_file w' = base ++ concat acc.*2 /\ w_nextOffset w' = blen (w_file w') /\ w_size w' = blen (w_file w') /\
    w_resolved w' = seq 0 (length acc) /\ w_rejected w' = w_rejected w.
Proof.
  intros Hr Hh Hf Hshort acc. pose proof (run_inv base evs _ _ [] (open_inv base p) Hr Hh) as Hi. cbn [app] in Hi. fold acc in Hi.
  assert (Hb0 : busy (open base p)) by (split; [done|constructor]).
  pose proof (run_busy base evs _ _ [] (open_inv base p) Hb0 Hr Hh Hf) as Hb.
  destruct (flush_drains_spec base short acc (S (work w)) w Hi Hb Hshort) as (w' & Hw & Hi' & E1 & E2 & E3); [lia|].
  exists w'. destruct (drained_file base w' acc Hi' E1 E2) as (F1 & F2 & F3). split_and!; try done. apply Hi'.
Qed.

(** * Concrete runs *)

Definition sample_events : list event :=
  [Append [x01; x02; x03]; Append [x04]; FlushStart; Written 2; Append [x05; x06]; Written 2; FlushStart; Seal;
   Append [x07]].

Lemma wal_offsets_exact_witness :
  exists w, run sample_events (open [x00] NoSync) = Some w /\
    accepted sample_events (open [x00] NoSync) = [(1, [x01; x02; x03]); (4, [x04]); (5, [x05; x06])] /\
    w_resolved w = [0; 1]%nat /\ sub (w_file w) 4 5 = [x04] /\
    (forall evs' w', run evs' w = Some w' -> accepted evs' w = []).
Proof.
  eexists. split; [vm_compute; reflexivity|]. split; [vm_compute; reflexivity|]. split; [vm_compute; reflexivity|].
  edestruct (wal_offsets_exact [x00] NoSync sample_events) as (_ & _ & _ & H & Hs); [vm_compute; reflexivity..|].
  split.
  - edestruct (H 1%nat 4 [x04]) as [_ E]; [vm_compute; reflexivity|set_solver|exact E].
  - apply Hs. vm_compute. reflexivity.
Defined.

Lemma wal_flush_drains_witness :
  exists w w', run sample_events (open [x00] Always) = Some w /\
    flush (fun _ _ => 1) (S (work w)) w = Some w' /\ w_file w' = [x00; x01; x02; x03; x04; x05; x06].
Proof.
  eexists. edestruct (wal_flush_drains [x00] Always sample_events) with (short := fun (_ : nat) (_ : Z) => 1)
    as (w' & Hf & Hb & _).
  - vm_compute. reflexivity.
  - vm_compute. reflexivity.
  - unfold frames_nonempty, sample_events. repeat constructor; done.
  - intros _ n Hn. lia.
  - exists w'. split; [vm_compute; reflexivity|]. split; [exact Hf|]. rewrite Hb. vm_compute. reflexivity.
Defined.

(** After a failed write the predictions are off by the bytes that were not written:
    the second frame resolves, but its bytes are not at the offset it was given. *)
Example wal_offset_drifts_after_error :
  let evs := [Append [x01; x02]; FlushStart; WriteError; Append [x03; x04]; FlushStart; Written 2] in
  (fun w => (w_file w, w_resolved w, w_rejected w)) <$> run evs (open [] NoSync) = Some ([x03; x04], [1%nat], [0%nat]) /\
  accepted evs (open [] NoSync) = [(0, [x01; x02]); (2, [x03; x04])].
Proof. split; vm_compute; reflexivity. Qed.
