(* ===== verification/Compaction.v ===== *)
(** Snapshot and log compaction ([packages/minidb/src/snapshot.ts] and
    [compaction.ts]). The snapshot is written while writers keep going, so it is not
    the state of one moment; the log written since the fence repairs it. The last
    part states that recovery finds the same contents whichever renames a crash let
    through. System calls may read and write less than asked; their results are
    parameters. *)

From S2P Require Import Wal.
From S2P Require Import Prelude Crc32 Codec ScanRefs JsMap Json Ordered MinHeap Store Recovery.

(** * Writing a batch of buffers *)

Section write_all.
(** [short pos n]: bytes written of [n] at file position [pos]. *)
Context (short : Z -> Z -> Z).

(** The loop of [flushBatch]; [None] is the no-progress error. *)
Fixpoint write_all (fuel : nat) (bufs : list buffer) (off pos : Z) : option buffer :=
  match bufs with
  | [] => Some []
  | _ =>
      match fuel with
      | O => None
      | S fuel' =>
          let data := concat (Wal.toWrite bufs off) in
          let n := short pos (blen data) in
          if n =? 0 then None
          else
            let (bufs', off') := Wal.advance bufs off n in
            rest ← write_all fuel' bufs' off' (pos + n);
            Some (take (Z.to_nat n) data ++ rest)
      end
  end.

Definition progress : Prop := forall pos n, 0 < n -> 0 < short pos n <= n.

Lemma write_all_spec fuel : forall bufs off pos,
  progress -> Wal.loop_ok bufs off -> Wal.bufs_busy bufs off ->
  (length (Wal.unwritten bufs off) <= fuel)%nat ->
  write_all fuel bufs off pos = Some (Wal.unwritten bufs off).
Proof.
  induction fuel as [|fuel IH]; intros bufs off pos Hp Hl Hb Hf; destruct bufs as [|b bufs];
    try (cbn; unfold Wal.unwritten; cbn; by rewrite drop_nil).
  - pose proof (Wal.unwritten_nonempty (b :: bufs) off ltac:(done) Hb) as Hpos. unfold blen in Hpos. lia.
  - pose proof (Wal.unwritten_nonempty (b :: bufs) off ltac:(done) Hb) as Hpos.
    cbn [write_all]. rewrite (Wal.toWrite_unwritten _ _ Hl).
    pose proof (Hp pos _ Hpos) as Hn. destruct (Z.eqb_spec (short pos (blen (Wal.unwritten (b :: bufs) off))) 0) as [|_]; [lia|].
    set (n := short pos _) in *.
    pose proof (Wal.advance_spec (b :: bufs) off n Hl ltac:(lia)) as Ha.
    pose proof (Wal.advance_busy (b :: bufs) off n Hb ltac:(lia)) as Hb'.
    destruct (Wal.advance (b :: bufs) off n) as [bufs' off']. destruct Ha as [Hl' Hu].
    rewrite (IH bufs' off' (pos + n) Hp Hl' Hb').
    + cbn. by rewrite Hu, take_drop.
    + rewrite Hu, length_drop. unfold blen in *. lia.
Qed.

Lemma write_all_batch bufs pos :
  progress -> Forall (fun b => b <> []) bufs ->
  write_all (length (concat bufs)) bufs 0 pos = Some (concat bufs).
Proof.
  intros Hp Hb. assert (Hu : Wal.unwritten bufs 0 = concat bufs) by done.
  rewrite <- Hu at 2. apply write_all_spec; [done| |by apply Wal.bufs_busy_zero|by rewrite Hu].
  destruct bufs; cbn; unfold blen; lia.
Qed.

(** * The snapshot *)

Definition FLUSH_BYTES : Z := Z.shiftl 1 20.

(** [JSON.stringify({ dt })] as bytes. *)
Context (dt_text : dt_map -> buffer).

Definition snap_input (e : store_entry) : frame_input :=
  FrameInput TYPE_SET (e_key e) (Some (e_value e)) (dt_text <$> e_dt e) (e_expireAt e).

Record snap_state := SnapState {
  ss_file : buffer;          (* on disk *)
  ss_count : Z;
  ss_bytes : Z;
  ss_batch : list buffer;
  ss_batchBytes : Z;
  ss_locs : list (jsstr * value_loc);
}.

Inductive snap_error := SnapEncode (e : codec_error) | SnapNoProgress.

Definition flush_snap (s : snap_state) : result snap_error snap_state :=
  match write_all (length (concat (ss_batch s))) (ss_batch s) 0 (ss_bytes s) with
  | Some data => Ok (SnapState (ss_file s ++ data) (ss_count s) (ss_bytes s + blen data) [] 0 (ss_locs s))
  | None => Err SnapNoProgress
  end.

Definition snap_entry (s : snap_state) (e : store_entry) : result snap_error snap_state :=
  match encodeFrame (snap_input e) with
  | Err x => Err (SnapEncode x)
  | Ok frame =>
      let frameOff := ss_bytes s + ss_batchBytes s in
      let loc := ValueLoc Snapshot (frameOff + HEADER_SIZE + blen (e_key e)) (blen (e_value e)) in
      let s' := SnapState (ss_file s) (ss_count s + 1) (ss_bytes s) (ss_batch s ++ [frame])
                  (ss_batchBytes s + blen frame) (jset (ss_locs s) (toKStr (e_key e)) loc) in
      if FLUSH_BYTES <=? ss_batchBytes s' then flush_snap s' else Ok s'
  end.

Fixpoint snap_loop (s : snap_state) (items : list store_entry) : result snap_error snap_state :=
  match items with
  | [] => flush_snap s
  | e :: items' => let? s' := snap_entry s e in snap_loop s' items'
  end.

(** The file with its entry count, size and value locations. *)
Definition writeSnapshot (items : list store_entry) : result snap_error snap_state :=
  snap_loop (SnapState [] 0 0 [] 0 []) items.
End write_all.

(** ** What the snapshot holds *)

Section snapshot_spec.
Context (short : Z -> Z -> Z) (Hshort : progress short) (dt_text : dt_map -> buffer).

(** The last entry of a key. *)
Fixpoint last_entry (k : jsstr) (items : list store_entry) : option store_entry :=
  match items with
  | [] => None
  | e :: items' =>
      match last_entry k items' with
      | Some e' => Some e'
      | None => if decide (toKStr (e_key e) = k) then Some e else None
      end
  end.

Lemma last_entry_snoc k items e :
  last_entry k (items ++ [e]) = if decide (toKStr (e_key e) = k) then Some e else last_entry k items.
Proof.
  induction items as [|e' items IH]; cbn; [done|]. rewrite IH. by case_decide.
Qed.

(** A location of the value's bytes in the file. *)
Definition loc_reads (file : buffer) (loc : value_loc) (v : buffer) : Prop :=
  vl_file loc = Snapshot /\ 0 <= vl_off loc /\ 0 <= vl_len loc /\ vl_off loc + vl_len loc <= blen file /\
  sub file (vl_off loc) (vl_off loc + vl_len loc) = v.

Lemma loc_reads_app file rest loc v : loc_reads file loc v -> loc_reads (file ++ rest) loc v.
Proof.
  intros (H1 & H2 & H3 & H4 & H5). split_and!; try done.
  - len_lia.
  - rewrite <- H5. unfold sub, blen in *. rewrite drop_app_le by lia.
    rewrite take_app_le by (rewrite length_drop; lia). done.
Qed.

Record snap_inv (items : list store_entry) (s : snap_state) : Prop := {
  si_enc : Forall encodable (snap_input dt_text <$> items);
  si_file : ss_file s ++ concat (ss_batch s) = log_bytes (snap_input dt_text <$> items);
  si_bytes : ss_bytes s = blen (ss_file s);
  si_batch : ss_batchBytes s = blen (concat (ss_batch s));
  si_nonempty : Forall (fun b => b <> []) (ss_batch s);
  si_count : ss_count s = blen items;
  si_locs : forall k, match last_entry k items with
                      | Some e => exists loc, jget (ss_locs s) k = Some loc /\
                                    loc_reads (log_bytes (snap_input dt_text <$> items)) loc (e_value e)
                      | None => jget (ss_locs s) k = None
                      end;
}.

Lemma flush_snap_inv items s :
  snap_inv items s -> exists s', flush_snap short s = Ok s' /\ snap_inv items s' /\ ss_batch s' = [].
Proof.
  intros [H1 H2 H3 H4 H5 H6 H7]. unfold flush_snap. rewrite write_all_batch by done.
  eexists. split; [done|]. split; [|done]. split; cbn; rewrite ?app_nil_r; try done. rewrite blen_app. lia.
Qed.

#[local] Arguments input_bytes : simpl never.

Lemma snap_value_at pre e :
  encodable (snap_input dt_text e) ->
  loc_reads (pre ++ input_bytes (snap_input dt_text e))
    (ValueLoc Snapshot (blen pre + HEADER_SIZE + blen (e_key e)) (blen (e_value e))) (e_value e).
Proof.
  intros He. pose proof (log_refs_ok pre [snap_input dt_text e] [] ltac:(by constructor)) as H.
  cbv zeta in H. unfold log_bytes in H. cbn [fmap list_fmap concat log_refs] in H. rewrite !app_nil_r in H.
  inversion H as [|r i rs ins0 [Hok Hf] _]; subst. unfold ref_ok in Hok. unfold ref_frame, ref_at in *.
  cbn in Hok, Hf. injection Hf as Hf. unfold HEADER_SIZE in *. clear H. unfold loc_reads; cbn. tauto.
Qed.

Lemma snap_entry_inv items s e s' :
  snap_inv items s -> snap_entry short dt_text s e = Ok s' -> snap_inv (items ++ [e]) s'.
Proof.
  intros Hi. unfold snap_entry. destruct (encodeFrame (snap_input dt_text e)) as [frame|] eqn:Ee; [|done].
  apply encodeFrame_spec in Ee as [He ->]. destruct Hi as [H1 H2 H3 H4 H5 H6 H7].
  set (s1 := SnapState _ _ _ _ _ _).
  assert (Hlog : log_bytes (snap_input dt_text <$> items ++ [e]) =
    log_bytes (snap_input dt_text <$> items) ++ input_bytes (snap_input dt_text e)).
  { unfold log_bytes. rewrite !fmap_app, concat_app. cbn. by rewrite app_nil_r. }
  assert (Hpos : input_bytes (snap_input dt_text e) <> []).
  { intros E. pose proof (input_bytes_pos (snap_input dt_text e)) as Hp. rewrite E in Hp.
    unfold blen, HEADER_SIZE, CRC_SIZE in Hp. cbn in Hp. lia. }
  assert (Hi1 : snap_inv (items ++ [e]) s1).
  { split; cbn [s1 ss_file ss_batch ss_bytes ss_batchBytes ss_count ss_locs].
    - rewrite fmap_app. apply Forall_app. split; [done|]. by apply Forall_singleton.
    - rewrite Hlog, <- H2, concat_app. cbn. by rewrite app_nil_r, app_assoc.
    - done.
    - rewrite concat_app, blen_app. cbn. rewrite app_nil_r. lia.
    - apply Forall_app. split; [done|]. by apply Forall_singleton.
    - rewrite blen_app, H6. done.
    - intros k. rewrite last_entry_snoc, jget_set, Hlog. case_decide.
      + eexists. split; [done|]. rewrite H3, H4, <- blen_app, H2. by apply snap_value_at.
      + specialize (H7 k). destruct (last_entry k items) as [e'|]; [|done].
        destruct H7 as (loc & Hloc & Hr). exists loc. split; [done|]. by apply loc_reads_app. }
  destruct (FLUSH_BYTES <=? ss_batchBytes s1); [|by intros [= <-]].
  destruct (flush_snap_inv _ _ Hi1) as (s2 & E2 & Hi2 & _). rewrite E2. by intros [= <-].
Qed.

(** A finished snapshot is the log of its entries, and its locations read each key's
    last value. *)
Lemma writeSnapshot_spec items s :
  writeSnapshot short dt_text items = Ok s ->
  Forall encodable (snap_input dt_text <$> items) /\
  ss_file s = log_bytes (snap_input dt_text <$> items) /\ ss_bytes s = blen (ss_file s) /\ ss_count s = blen items /\
  (forall k, match last_entry k items with
             | Some e => exists loc, jget (ss_locs s) k = Some loc /\ loc_reads (ss_file s) loc (e_value e)
             | None => jget (ss_locs s) k = None
             end).
Proof.
  unfold writeSnapshot. assert (H0 : snap_inv [] (SnapState [] 0 0 [] 0 [])) by (split; done).
  enough (H : forall items done_ s0 s, snap_inv done_ s0 -> snap_loop short dt_text s0 items = Ok s ->
    snap_inv (done_ ++ items) s /\ ss_batch s = []).
  { intros Hs. destruct (H items [] _ s H0 Hs) as [[H1 H2 H3 H4 H5 H6 H7] Hb]. cbn [app] in *.
    rewrite Hb in H2. cbn in H2. rewrite app_nil_r in H2. rewrite H2. split_and!; try done. by rewrite <- H2. }
  clear items s H0. induction items as [|e items IH]; intros done_ s0 s Hi; cbn [snap_loop].
  - destruct (flush_snap_inv _ _ Hi) as (s' & -> & Hi' & Hb). intros [= <-]. by rewrite app_nil_r.
  - destruct (snap_entry short dt_text s0 e) as [s1|] eqn:E; [|done]. cbn. intros Hs.
    pose proof (snap_entry_inv _ _ _ _ Hi E) as Hi1. destruct (IH _ _ _ Hi1 Hs) as [H1 H2].
    by rewrite <- app_assoc in H1.
Qed.
End snapshot_spec.

(** * Copying a range of a file *)

Definition COPY_CHUNK : Z := Z.shiftl 1 20.

Section copy.
(** Bytes read at a position of at most so many available, and bytes written. *)
Context (rd wr : Z -> Z -> Z).

(** The inner loop: write all of [data]. *)
Fixpoint copy_write (fuel : nat) (data : buffer) (written : Z) : option buffer :=
  if written <? blen data then
    match fuel with
    | O => None
    | S fuel' =>
        let n := wr written (blen data - written) in
        if n =? 0 then None
        else rest ← copy_write fuel' data (written + n);
             Some (sub data written (written + n) ++ rest)
    end
  else Some [].

Fixpoint copy_loop (fuel : nat) (src : buffer) (pos stop : Z) : option buffer :=
  if pos <? stop then
    match fuel with
    | O => None
    | S fuel' =>
        let len := Z.min COPY_CHUNK (stop - pos) in
        let avail := Z.min len (blen src - pos) in
        let bytesRead := if avail <=? 0 then 0 else rd pos avail in
        if bytesRead =? 0 then Some []
        else
          let data := sub src pos (pos + bytesRead) in
          copied ← copy_write (length data) data 0;
          rest ← copy_loop fuel' src (pos + bytesRead) stop;
          Some (copied ++ rest)
    end
  else Some [].

(** The destination's bytes; [None] is an error. *)
Definition copyFileRange (src dst : buffer) (start stop : Z) (append : bool) : option buffer :=
  if stop <? start then None
  else
    data ← copy_loop (Z.to_nat (stop - start)) src start stop;
    Some ((if append then dst else []) ++ data).

(** ** The pre-copy passes and the copy under the seal *)

Definition SMALL_DELTA : Z := 64 * 1024.
Definition MAX_PRECOPY_PASSES : nat := 5.

Record copy_state := CopyState {
  cs_tmp : buffer;          (* db.wal.tmp *)
  cs_copiedUpTo : Z;
  cs_appended : bool;
}.

(** [wal pass] is the log's file after the pass's flush. The convergence test
    [gap > prevGap * 0.7] is taken in exact arithmetic; what is copied in the end does
    not depend on it ([copyTail_spec]). *)
Fixpoint precopy (left : nat) (pass : nat) (wal : nat -> buffer) (prevGap : option Z) (c : copy_state)
    : option copy_state :=
  match left with
  | O => Some c
  | S left' =>
      let head := blen (wal pass) in
      let gap := head - cs_copiedUpTo c in
      if gap <=? SMALL_DELTA then Some c
      else if match prevGap with Some p => 7 * p <? 10 * gap | None => false end then Some c
      else
        tmp ← copyFileRange (wal pass) (cs_tmp c) (cs_copiedUpTo c) head (cs_appended c);
        precopy left' (S pass) wal (Some gap) (CopyState tmp head true)
  end.

(** The loop after the seal: the file no longer grows. *)
Fixpoint drain_copy (fuel : nat) (final : buffer) (c : copy_state) : option copy_state :=
  match fuel with
  | O => None
  | S fuel' =>
      let stop := blen final in
      if (stop =? cs_copiedUpTo c) && cs_appended c then Some c
      else
        tmp ← copyFileRange final (cs_tmp c) (cs_copiedUpTo c) stop (cs_appended c);
        drain_copy fuel' final (CopyState tmp stop true)
  end.

(** The new log. *)
Definition copyTail (wal : nat -> buffer) (final : buffer) (baseOffset : Z) : option buffer :=
  c ← precopy MAX_PRECOPY_PASSES 0 wal None (CopyState [] baseOffset false);
  c' ← drain_copy 2 final c;
  Some (cs_tmp c').
End copy.

(** * Copies are exact *)

Section copy_spec.
Context (rd wr : Z -> Z -> Z) (Hrd : progress rd) (Hwr : progress wr).

Lemma sub_empty {A} (l : list A) a b : b <= a -> sub l a b = [].
Proof. intros H. unfold sub. by replace (Z.to_nat (b - a)) with 0%nat by lia. Qed.

Lemma copy_write_spec fuel : forall data written,
  0 <= written <= blen data -> (Z.to_nat (blen data - written) <= fuel)%nat ->
  copy_write wr fuel data written = Some (sub data written (blen data)).
Proof.
  induction fuel as [|fuel IH]; intros data written Hw Hf; cbn [copy_write];
    destruct (Z.ltb_spec written (blen data)) as [Hlt|Hge]; try lia;
    try by rewrite sub_empty by lia.
  pose proof (Hwr written (blen data - written) ltac:(lia)) as Hn. destruct (Z.eqb_spec (wr written (blen data - written)) 0); [lia|].
  rewrite IH by lia. cbn. f_equal. symmetry; apply sub_split; lia.
Qed.

Lemma copy_loop_spec fuel : forall src pos stop,
  0 <= pos <= stop -> stop <= blen src -> (Z.to_nat (stop - pos) <= fuel)%nat ->
  copy_loop rd wr fuel src pos stop = Some (sub src pos stop).
Proof.
  induction fuel as [|fuel IH]; intros src pos stop Hp Hs Hf; cbn [copy_loop];
    destruct (Z.ltb_spec pos stop) as [Hlt|Hge]; try lia; try by rewrite sub_empty by lia.
  assert (Hc : 0 < COPY_CHUNK) by done.
  set (avail := Z.min (Z.min COPY_CHUNK (stop - pos)) (blen src - pos)).
  destruct (Z.leb_spec avail 0) as [|Ha]; [lia|]. pose proof (Hrd pos avail Ha) as Hn.
  destruct (Z.eqb_spec (rd pos avail) 0); [lia|].
  assert (Hlen : blen (sub src pos (pos + rd pos avail)) = rd pos avail) by (rewrite blen_sub; lia).
  rewrite copy_write_spec; [|rewrite Hlen; lia|unfold blen; lia].
  cbn. rewrite IH by lia. cbn. f_equal. rewrite sub_from by lia. cbn. rewrite drop_0. symmetry; apply sub_split; lia.
Qed.

Lemma copyFileRange_spec src dst start stop append :
  0 <= start <= stop -> stop <= blen src ->
  copyFileRange rd wr src dst start stop append = Some ((if append then dst else []) ++ sub src start stop).
Proof.
  intros H1 H2. unfold copyFileRange. destruct (Z.ltb_spec stop start); [lia|].
  by rewrite copy_loop_spec by lia.
Qed.

(** The temporary log holds the copied part of a file that only grows. *)
Definition copied (base : Z) (final : buffer) (c : copy_state) : Prop :=
  base <= cs_copiedUpTo c <= blen final /\
  if cs_appended c then cs_tmp c = sub final base (cs_copiedUpTo c) else cs_copiedUpTo c = base.

Lemma sub_prefix_of {A} (l1 l2 : list A) a b : l1 `prefix_of` l2 -> 0 <= a -> b <= blen l1 -> sub l2 a b = sub l1 a b.
Proof.
  intros [k ->] Ha Hb. unfold sub, blen in *. destruct (decide (a <= b)) as [Hab|].
  - rewrite drop_app_le by lia. rewrite take_app_le by (rewrite length_drop; lia). done.
  - by replace (Z.to_nat (b - a)) with 0%nat by lia.
Qed.

Lemma copy_step base wal final c stop :
  0 <= base -> wal `prefix_of` final -> copied base final c -> cs_copiedUpTo c <= stop <= blen wal ->
  exists tmp, copyFileRange rd wr wal (cs_tmp c) (cs_copiedUpTo c) stop (cs_appended c) = Some tmp /\
    copied base final (CopyState tmp stop true).
Proof.
  intros Hb Hpre [Hc Ha] Hs. rewrite copyFileRange_spec by lia. eexists. split; [done|].
  pose proof (prefix_length _ _ Hpre) as Hlen. unfold blen in Hs |- *. split; cbn; [unfold blen; lia|].
  rewrite <- (sub_prefix_of wal final) by (done || unfold blen; lia).
  destruct (cs_appended c).
  - rewrite Ha. symmetry; apply sub_split; lia.
  - by rewrite <- Ha.
Qed.

Lemma precopy_spec base (wal : nat -> buffer) final left : forall pass prevGap c,
  0 <= base -> (forall i, wal i `prefix_of` final) -> (forall i, wal i `prefix_of` wal (S i)) ->
  copied base final c -> cs_copiedUpTo c <= blen (wal pass) ->
  exists c', precopy rd wr left pass wal prevGap c = Some c' /\ copied base final c'.
Proof.
  induction left as [|left IH]; intros pass prevGap c Hb Hpre Hgrow Hc Hle; cbn [precopy]; [by exists c|].
  destruct (_ <=? SMALL_DELTA); [by exists c|]. destruct (match prevGap with Some _ => _ | None => _ end); [by exists c|].
  destruct (copy_step base (wal pass) final c (blen (wal pass)) Hb (Hpre pass) Hc) as (tmp & -> & Hc'); [lia|].
  cbn. apply IH; [done..|]. cbn. pose proof (prefix_length _ _ (Hgrow pass)). unfold blen. lia.
Qed.

Lemma copyTail_spec (wal : nat -> buffer) final base :
  0 <= base <= blen (wal 0%nat) -> (forall i, wal i `prefix_of` final) -> (forall i, wal i `prefix_of` wal (S i)) ->
  copyTail rd wr wal final base = Some (drop (Z.to_nat base) final).
Proof.
  intros Hb Hpre Hgrow. unfold copyTail. pose proof (prefix_length _ _ (Hpre 0%nat)) as Hlen. unfold blen in Hb.
  destruct (precopy_spec base wal final MAX_PRECOPY_PASSES 0 None (CopyState [] base false)) as (c & -> & Hc);
    [lia|done|done|split; cbn; unfold blen; [lia|done]|cbn; unfold blen; lia|].
  cbn [mbind option_bind]. rewrite <- sub_from by lia. cbn [drain_copy].
  assert (Hdone : forall c, copied base final c -> cs_appended c = true -> cs_copiedUpTo c = blen final ->
    cs_tmp c = sub final base (blen final)).
  { intros c' [_ Ht] Ha Hu. rewrite Ha, Hu in Ht. done. }
  destruct ((blen final =? cs_copiedUpTo c) && cs_appended c) eqn:E.
  - apply andb_true_iff in E as [E1%Z.eqb_eq E2]. cbn. f_equal. by apply Hdone.
  - destruct (copy_step base final final c (blen final)) as (tmp & -> & Hc'); [lia|done|done|destruct Hc; lia|].
    cbn [mbind option_bind cs_copiedUpTo cs_appended]. rewrite Z.eqb_refl. cbn [andb mbind option_bind]. f_equal.
    by apply (Hdone _ Hc').
Qed.
End copy_spec.

(** * Rotation *)

Record disk := Disks {
  dk_snapshot : option file;
  dk_wal : option file;
  dk_snapshotTmp : file;
  dk_walTmp : file;
}.

(** The snapshot is renamed before the log. *)
Definition rename_snapshot (d : disk) : disk :=
  Disks (Some (dk_snapshotTmp d)) (dk_wal d) (dk_snapshotTmp d) (dk_walTmp d).
Definition rename_wal (d : disk) : disk :=
  Disks (dk_snapshot d) (Some (dk_walTmp d)) (dk_snapshotTmp d) (dk_walTmp d).

Definition rotation : list (disk -> disk) := [rename_snapshot; rename_wal].

(** The disk after a crash that let the first [n] renames through. *)
Definition crashed (n : nat) (d : disk) : disk := fold_left (fun d f => f d) (take n rotation) d.

(** The new place of a disk-backed value. *)
Definition remap (baseOffset : Z) (snapLocs : list (jsstr * value_loc)) (k : jsstr) (loc : value_loc)
    (_ : store_record) : option value_loc :=
  match vl_file loc with
  | Store.Wal => if baseOffset <=? vl_off loc then Some (ValueLoc Store.Wal (vl_off loc - baseOffset) (vl_len loc))
                 else jget snapLocs k
  | Snapshot => jget snapLocs k
  end.

Definition shouldCompact (walSize threshold : Z) : bool := threshold <=? walSize.

(** * Iterating a map that changes

    [writeSnapshot] walks the store's live [Map]: entries before the iterator have
    been visited, entries after it have not; a key set anew goes to the end, and
    one deleted disappears from either side. The state of the iteration is the map
    split at the iterator, with the entries yielded so far. *)

Abbreviation record := (buffer * Z * option dt_map)%type.
Abbreviation rmap := (list (jsstr * record)).

Definition zset (z : rmap * rmap) (k : jsstr) (r : record) : rmap * rmap :=
  if jhas z.1 k then (jset z.1 k r, z.2) else (z.1, jset z.2 k r).
Definition zdel (z : rmap * rmap) (k : jsstr) : rmap * rmap := (jdel z.1 k, jdel z.2 k).

(** The split map follows the whole one. *)
Lemma zset_jset z k r : (zset z k r).1 ++ (zset z k r).2 = jset (z.1 ++ z.2) k r.
Proof.
  destruct z as [d t]. unfold zset, jhas. cbn. induction d as [|[k' r'] d IH]; cbn; [done|].
  case_decide; subst; [done|]. destruct (jget d k); cbn in *; by rewrite IH.
Qed.

Lemma zdel_jdel z k : jwf (z.1 ++ z.2) -> (zdel z k).1 ++ (zdel z k).2 = jdel (z.1 ++ z.2) k.
Proof.
  destruct z as [d t]. unfold zdel. cbn. induction d as [|[k' r'] d IH]; cbn; [done|].
  unfold jwf, jkeys. cbn. rewrite fmap_app. intros [Hn Hd]%NoDup_cons. case_decide; subst.
  - f_equal. apply jdel_notin, jget_None. unfold jkeys. set_solver.
  - cbn. f_equal. apply IH. unfold jwf, jkeys. by rewrite fmap_app.
Qed.

Definition rec_dead (t : Z) (r : record) : bool := let '(_, exp, _) := r in truthy exp && (exp <=? t).

Inductive ievent :=
| IWrite (o : lop)                 (* a write of the log, applied to the store *)
| IReap (k : jsstr) (t : Z)        (* an expired record dropped at [t] *)
| INext.                           (* the iterator advances *)

Definition item (k : jsstr) (r : record) : store_entry :=
  let '(v, exp, d) := r in StoreEntry (fromKStr k) v exp d.

Definition is_byte_key (k : jsstr) : Prop := toKStr (fromKStr k) = k.

Lemma toKStr_byte_key b : is_byte_key (toKStr b).
Proof.
  unfold is_byte_key, toKStr, fromKStr. rewrite <- !list_fmap_compose. apply list_fmap_ext. intros _ x _. cbn.
  f_equal. pose proof (b2z_range x). rewrite Z2N.id by lia. by rewrite z2b_b2z.
Qed.

Section iteration.
Context (JSON_parse : buffer -> option json).
Context (now0 : Z).   (* the clock when the iteration began *)

Definition lop_key (o : lop) : jsstr := match o with LSet k _ _ _ => toKStr k | LDel k => toKStr k end.

Definition istep (s : rmap * rmap * list store_entry) (ev : ievent) : rmap * rmap * list store_entry :=
  let '(z, items) := s in
  match ev with
  | IWrite (LSet k v exp meta) => (zset z (toKStr k) (v, exp, meta_dt JSON_parse meta), items)
  | IWrite (LDel k) => (zdel z (toKStr k), items)
  | IReap k t =>
      match jget (z.1 ++ z.2) k with
      | Some r => if rec_dead t r then (zdel z k, items) else s
      | None => s
      end
  | INext =>
      match z.2 with
      | [] => s
      | (k, r) :: todo => ((z.1 ++ [(k, r)], todo), if rec_dead now0 r then items else items ++ [item k r])
      end
  end.

Definition iterate (evs : list ievent) (m : rmap) : rmap * rmap * list store_entry :=
  fold_left istep evs (([], m), []).

Definition writes (evs : list ievent) : list lop :=
  omap (fun ev => match ev with IWrite o => Some o | _ => None end) evs.

(** Expiries happen before [now]. *)
Definition reaps_before (now : Z) (evs : list ievent) : Prop :=
  Forall (fun ev => match ev with IReap _ t => t <= now | _ => True end) evs.

(** What has become of the record [r0] a key had when the iteration began, if no
    write touched the key: not yet visited, yielded, or expired. *)
Definition tracked (now : Z) (k : jsstr) (r0 : option record) (s : rmap * rmap * list store_entry) : Prop :=
  let '(z, items) := s in
  match r0 with
  | None => jget z.1 k = None /\ jget z.2 k = None /\ last_entry k items = None
  | Some r =>
      (jget z.2 k = Some r /\ last_entry k items = None) \/
      (jget z.2 k = None /\ last_entry k items = Some (item k r)) \/
      (jget z.2 k = None /\ last_entry k items = None /\ rec_dead now r = true)
  end.

Definition zwf (z : rmap * rmap) : Prop := jwf (z.1 ++ z.2) /\ Forall is_byte_key (jkeys (z.1 ++ z.2)).

Lemma jkeys_sub_del (m : rmap) k : Forall is_byte_key (jkeys m) -> Forall is_byte_key (jkeys (jdel m k)).
Proof. rewrite !Forall_forall. intros H x Hx. by apply H, (jdel_elem m k). Qed.

Lemma zset_wf z k r : is_byte_key k -> zwf z -> zwf (zset z k r).
Proof.
  intros Hk [H1 H2]. unfold zwf. rewrite zset_jset. split; [by apply jwf_set|]. rewrite jkeys_set.
  destruct (jhas _ _); [done|]. apply Forall_app. split; [done|by apply Forall_singleton].
Qed.

Lemma zdel_wf z k : zwf z -> zwf (zdel z k).
Proof. intros [H1 H2]. unfold zwf. rewrite zdel_jdel by done. split; [by apply jwf_del|by apply jkeys_sub_del]. Qed.

Lemma zwf_right z : zwf z -> jwf z.2.
Proof. intros [H _]. unfold jwf, jkeys in *. rewrite fmap_app in H. by apply NoDup_app in H as (_ & _ & ?). Qed.

Lemma zwf_left z : zwf z -> jwf z.1.
Proof. intros [H _]. unfold jwf, jkeys in *. rewrite fmap_app in H. by apply NoDup_app in H as (? & _ & _). Qed.

Lemma istep_wf s ev : zwf s.1 -> zwf (istep s ev).1.
Proof.
  destruct s as [z items]. cbn. intros Hz. destruct ev as [[k v exp meta|k]|k t|]; cbn.
  - apply zset_wf; [apply toKStr_byte_key|done].
  - by apply zdel_wf.
  - destruct (jget (z.1 ++ z.2) k) as [r|]; [|done]. destruct (rec_dead t r); [by apply zdel_wf|done].
  - destruct z as [d [|[k r] t]]; [done|]. cbn. unfold zwf in *. cbn in *. by rewrite <- app_assoc.
Qed.

Lemma jget_app (d t : rmap) k : jget (d ++ t) k = match jget d k with Some r => Some r | None => jget t k end.
Proof. induction d as [|[k' r'] d IH]; cbn; [done|]. by case_decide. Qed.

Lemma zset_other z k k' r : k <> k' ->
  jget (zset z k r).1 k' = jget z.1 k' /\ jget (zset z k r).2 k' = jget z.2 k'.
Proof. intros Hne. unfold zset. case_match; cbn; by rewrite jget_set_ne. Qed.

Lemma zdel_other z k k' : k <> k' -> jget (zdel z k).1 k' = jget z.1 k' /\ jget (zdel z k).2 k' = jget z.2 k'.
Proof. intros Hne. cbn. by rewrite !jget_del_ne. Qed.

Lemma istep_tracked now k r0 s ev :
  zwf s.1 -> now0 <= now ->
  match ev with IWrite o => lop_key o <> k | IReap _ t => t <= now | INext => True end ->
  tracked now k r0 s -> tracked now k r0 (istep s ev).
Proof.
  destruct s as [z items]. cbn [fst]. intros Hz Hnow Hev Ht.
  assert (Hother : forall z', jget z'.1 k = jget z.1 k -> jget z'.2 k = jget z.2 k -> tracked now k r0 (z', items)).
  { intros z' E1 E2. unfold tracked in *. by rewrite E1, E2. }
  assert (Hmono : forall t r, t <= now -> rec_dead t r = true -> rec_dead now r = true).
  { intros t [[v exp] d] Hle. unfold rec_dead. rewrite !andb_true_iff, !Z.leb_le. intros [? ?]. split; [done|lia]. }
  destruct ev as [[k' v exp meta|k']|k' t|]; cbn in Hev |- *.
  - destruct (zset_other z (toKStr k') k (v, exp, meta_dt JSON_parse meta) Hev).
    by apply (Hother (zset z (toKStr k') (v, exp, meta_dt JSON_parse meta))).
  - destruct (zdel_other z (toKStr k') k Hev). by apply (Hother (zdel z (toKStr k'))).
  - destruct (jget (z.1 ++ z.2) k') as [r|] eqn:Ek; [|done]. destruct (rec_dead t r) eqn:Er; [|done].
    destruct (decide (k' = k)) as [->|Hne]; [|destruct (zdel_other z k' k Hne); by apply (Hother (zdel z k'))].
    rewrite jget_app in Ek. unfold tracked in *. cbn [zdel fst snd].
    rewrite !jget_del_eq by (by apply zwf_right || by apply zwf_left).
    destruct r0 as [r0|]; [|by destruct Ht as (_ & _ & ?)].
    destruct Ht as [[H1 H2]|[[H1 H2]|(H1 & H2 & H3)]]; [|by right; left|by right; right].
    right. right. split_and!; [done..|]. rewrite H1 in Ek. destruct Hz as [Hz _].
    assert (Hd : jget z.1 k = None).
    { apply jget_None. intros Hin. unfold jwf, jkeys in Hz, Hin. rewrite fmap_app in Hz.
      apply NoDup_app in Hz as (_ & Hdis & _). apply (Hdis k Hin).
      by apply (list_elem_of_fmap_2 fst _ (k, r0)), jget_Some_in. }
    rewrite Hd in Ek. injection Ek as <-. by apply (Hmono t).
  - destruct z as [d [|[k' r] todo]]; [done|]. cbn [fst snd] in *. destruct Hz as [Hz Hk].
    assert (Hbk : is_byte_key k').
    { rewrite Forall_forall in Hk. apply Hk. unfold jkeys. rewrite fmap_app. cbn. set_solver. }
    assert (Hitem : e_key (item k' r) = fromKStr k') by by destruct r as [[v exp] dd].
    assert (Hlast : last_entry k (items ++ [item k' r]) =
      if decide (k' = k) then Some (item k' r) else last_entry k items).
    { rewrite last_entry_snoc, Hitem, Hbk. done. }
    unfold tracked in *. cbn [fst snd jget] in *. rewrite jget_app. cbn [jget].
    unfold jwf, jkeys in Hz. rewrite fmap_app in Hz. cbn in Hz.
    apply NoDup_app in Hz as (_ & Hdis & [Hn _]%NoDup_cons).
    destruct (decide (k' = k)) as [->|Hne].
    + assert (Htodo : jget todo k = None) by by apply jget_None.
      destruct r0 as [r0|]; [|by destruct Ht as (_ & ? & _)].
      destruct Ht as [[[= <-] H2]|[[? _]|(? & _)]]; [|done..]. right.
      destruct (rec_dead now0 r) eqn:Er; [right; split_and!; [done..|by apply (Hmono now0)]|].
      left. by split.
    + assert (Hl2 : last_entry k (if rec_dead now0 r then items else items ++ [item k' r]) = last_entry k items).
      { by destruct (rec_dead now0 r). }
      rewrite Hl2. destruct r0; [done|]. destruct Ht as (-> & ? & ?). by split_and!.
Qed.

Lemma iterate_tracked now k evs : forall s r0,
  zwf s.1 -> now0 <= now -> reaps_before now evs -> Forall (fun o => lop_key o <> k) (writes evs) ->
  tracked now k r0 s -> zwf (fold_left istep evs s).1 /\ tracked now k r0 (fold_left istep evs s).
Proof.
  induction evs as [|ev evs IH]; intros s r0 Hz Hnow Hr Hw Ht; cbn [fold_left]; [done|].
  apply Forall_cons in Hr as [Hrev Hr].
  assert (Hw' : match ev with IWrite o => lop_key o <> k | _ => True end /\ Forall (fun o => lop_key o <> k) (writes evs)).
  { destruct ev; cbn in Hw; [by apply Forall_cons in Hw|done..]. }
  destruct Hw' as [Hwev Hw']. apply IH; try done; [by apply istep_wf|].
  apply istep_tracked; try done. by destruct ev.
Qed.

(** A finished iteration has yielded the record of every key no write touched, the
    last time it yielded the key at all, unless the record has expired. *)
Lemma iterate_untouched now evs m d items k :
  jwf m -> Forall is_byte_key (jkeys m) -> now0 <= now -> reaps_before now evs ->
  Forall (fun o => lop_key o <> k) (writes evs) -> iterate evs m = (d, [], items) ->
  match jget m k with
  | Some r => last_entry k items = Some (item k r) \/ (last_entry k items = None /\ rec_dead now r = true)
  | None => last_entry k items = None
  end.
Proof.
  intros Hm Hk Hnow Hr Hw He. unfold iterate in He.
  destruct (iterate_tracked now k evs (([], m), []) (jget m k)) as [_ Ht]; [by split|done..| |].
  { unfold tracked. cbn. destruct (jget m k); [by left|done]. }
  rewrite He in Ht. unfold tracked in Ht. cbn in Ht. destruct (jget m k).
  - by destruct Ht as [[? _]|[[_ ?]|(_ & ? & ?)]]; [|left|right].
  - by destruct Ht as (_ & _ & ?).
Qed.
End iteration.

(** * The contents after a crash *)

Section crash.
Context (JSON_parse : buffer -> option json) (dt_text : dt_map -> buffer).
(** [JSON.parse] reads back what [JSON.stringify] wrote. *)
Context (dt_text_parses : forall d, JSON_parse (dt_text d) = Some (dt_json d)).
Context (dt_text_nonempty : forall d, dt_text d <> []).
Context (now : Z) (vmode : value_mode).
Context {T : Type} `{!OrderedIndex jsstr jsstr T} `{!OrderedIndexLaws cmpString cmpString}.

Abbreviation lmap := (gmap jsstr record).

Lemma parse_dt_text d : parseMeta JSON_parse (dt_text <$> d) = Ok d.
Proof. destruct d as [d|]; [|done]. cbn. rewrite dt_text_parses.
  change (@Ok recovery_error _ (dt_of_json (json_field (dt_json d) str_dt)) = Ok (Some d)). by rewrite dt_of_dt_json.
Qed.

Lemma lop_apply_other M o k : lop_key o <> k -> lop_apply JSON_parse M o !! k = M !! k.
Proof. destruct o; cbn; intros Hne; [by rewrite lookup_insert_ne|by rewrite lookup_delete_ne]. Qed.

Lemma replay_untouched os M k : Forall (fun o => lop_key o <> k) os -> replay JSON_parse os M !! k = M !! k.
Proof.
  intros H. revert M. induction H as [|o os Ho _ IH]; intros M; [done|]. cbn. unfold replay in IH.
  by rewrite IH, lop_apply_other.
Qed.

Lemma replay_agree os M1 M2 k : M1 !! k = M2 !! k -> replay JSON_parse os M1 !! k = replay JSON_parse os M2 !! k.
Proof.
  revert M1 M2. induction os as [|o os IH]; intros M1 M2 E; [done|]. apply IH.
  destruct (decide (lop_key o = k)) as [<-|Hne]; [|by rewrite !lop_apply_other].
  destruct o; cbn; [by rewrite !lookup_insert_eq|by rewrite !lookup_delete_eq].
Qed.

(** A key some write touches depends on the writes only. *)
Lemma replay_touched os M1 M2 k :
  ~ Forall (fun o => lop_key o <> k) os -> replay JSON_parse os M1 !! k = replay JSON_parse os M2 !! k.
Proof.
  revert M1 M2. induction os as [|o os IH]; intros M1 M2 Hn; [by destruct Hn|].
  destruct (decide (lop_key o = k)) as [Hk|Hne].
  - apply (replay_agree os (lop_apply JSON_parse M1 o) (lop_apply JSON_parse M2 o)).
    destruct o; cbn in *; subst; [by rewrite !lookup_insert_eq|by rewrite !lookup_delete_eq].
  - apply (IH (lop_apply JSON_parse M1 o)). contradict Hn. by constructor.
Qed.

Lemma untouched_dec os k : {Forall (fun o => lop_key o <> k) os} + {~ Forall (fun o => lop_key o <> k) os}.
Proof. exact (decide (Forall (fun o => lop_key o <> k) os)). Qed.

(** The snapshot as log entries. *)
Definition snap_entries (items : list store_entry) : list entry :=
  (fun e => Single (LSet (e_key e) (e_value e) (e_expireAt e) (dt_text <$> e_dt e))) <$> items.

Lemma snap_entries_inputs items : entry_input <$> snap_entries items = snap_input dt_text <$> items.
Proof. unfold snap_entries. rewrite <- list_fmap_compose. done. Qed.

Definition rec_of (e : store_entry) : record := (e_value e, e_expireAt e, e_dt e).

Lemma snap_entries_replay items k :
  replay JSON_parse (log_ops (snap_entries items)) ∅ !! k = rec_of <$> last_entry k items.
Proof.
  enough (H : forall M, replay JSON_parse (log_ops (snap_entries items)) M !! k =
    match last_entry k items with Some e => Some (rec_of e) | None => M !! k end).
  { rewrite H. by destruct (last_entry k items). }
  induction items as [|e items IH]; intros M; [done|].
  change (log_ops (snap_entries (e :: items))) with
    (LSet (e_key e) (e_value e) (e_expireAt e) (dt_text <$> e_dt e) :: log_ops (snap_entries items)).
  unfold replay in IH |- *. cbn [fold_left last_entry]. rewrite IH. destruct (last_entry k items) as [e'|]; [done|].
  cbn [lop_apply]. unfold meta_dt. rewrite parse_dt_text. case_decide as E; [subst k; by rewrite lookup_insert_eq|].
  by rewrite lookup_insert_ne.
Qed.

(** Two contents show the same at and after [now]. *)
Definition same_from (o1 o2 : option record) : Prop :=
  o1 = o2 \/ (forall r, o1 = Some r -> rec_dead now r = true) /\ (forall r, o2 = Some r -> rec_dead now r = true).

(** The store's map holds the replayed writes, expired ones apart. *)
Definition holds_map (now0 : Z) (m : rmap) (M : lmap) : Prop :=
  jwf m /\ Forall is_byte_key (jkeys m) /\
  forall k, match jget m k with
            | Some r => M !! k = Some r
            | None => forall r, M !! k = Some r -> rec_dead now0 r = true
            end.

Lemma rec_dead_mono t t' r : t <= t' -> rec_dead t r = true -> rec_dead t' r = true.
Proof.
  destruct r as [[v exp] d]. unfold rec_dead. intros Hle. rewrite !andb_true_iff, !Z.leb_le.
  intros [? ?]. split; [done|lia].
Qed.

(** What the compaction was started from and did: the log of [pre] up to the fence
    and [tail] after it, [before], the iteration's writes and [later] making up the
    tail. *)
Inductive compacting (es0 pre tail : list entry) (items : list store_entry) : Prop :=
| Compacting (now0 : Z) (before : list lop) (evs : list ievent) (later : list lop) (m d : rmap) :
    log_ops tail = before ++ writes evs ++ later ->
    holds_map now0 m (replay JSON_parse before (state_of JSON_parse es0 pre)) ->
    now0 <= now -> reaps_before now evs ->
    iterate JSON_parse now0 evs m = (d, [], items) ->
    compacting es0 pre tail items.

Lemma snapshot_same es0 pre tail items k :
  compacting es0 pre tail items -> Forall (fun o => lop_key o <> k) (log_ops tail) ->
  same_from (replay JSON_parse (log_ops (snap_entries items)) ∅ !! k) (state_of JSON_parse es0 pre !! k).
Proof.
  intros [now0 before evs later m d Ht (Hm & Hk & Hs) Hc Hr Hi] Hu.
  rewrite Ht, !Forall_app in Hu. destruct Hu as (Hu1 & Hu2 & Hu3).
  rewrite snap_entries_replay. specialize (Hs k). rewrite replay_untouched in Hs by done.
  pose proof (iterate_untouched JSON_parse now0 now evs m d items k Hm Hk Hc Hr Hu2 Hi) as Hl.
  destruct (jget m k) as [r|].
  - destruct Hl as [->|[-> Hd]].
    + left. rewrite Hs. cbn. by destruct r as [[v exp] dd].
    + right. split; [done|]. intros r'. rewrite Hs. by intros [= <-].
  - rewrite Hl. right. split; [done|]. intros r Hr'. by apply (rec_dead_mono now0), Hs.
Qed.

Lemma log_ops_app es1 es2 : log_ops (es1 ++ es2) = log_ops es1 ++ log_ops es2.
Proof. unfold log_ops. by rewrite fmap_app, concat_app. Qed.

Lemma state_of_app es0 pre tail :
  state_of JSON_parse es0 (pre ++ tail) = replay JSON_parse (log_ops tail) (state_of JSON_parse es0 pre).
Proof. unfold state_of. rewrite log_ops_app. unfold replay. by rewrite fold_left_app. Qed.

(** Every layout shows what the uncompacted log shows. *)
Lemma layouts_same es0 pre tail items k :
  compacting es0 pre tail items ->
  same_from (state_of JSON_parse (snap_entries items) (pre ++ tail) !! k) (state_of JSON_parse es0 (pre ++ tail) !! k) /\
  same_from (state_of JSON_parse (snap_entries items) tail !! k) (state_of JSON_parse es0 (pre ++ tail) !! k).
Proof.
  intros Hc. rewrite !state_of_app.
  change (state_of JSON_parse (snap_entries items) tail) with
    (replay JSON_parse (log_ops tail) (replay JSON_parse (log_ops (snap_entries items)) ∅)).
  destruct (untouched_dec (log_ops tail) k) as [Hu|Ht].
  2:{ split; left; by apply replay_touched. }
  rewrite !replay_untouched by done. pose proof (snapshot_same es0 pre tail items k Hc Hu) as Hs.
  split; [|done]. destruct (untouched_dec (log_ops pre) k) as [Hp|Hp].
  - unfold state_of in Hs |- *. rewrite !(replay_untouched (log_ops pre)) by done.
    by rewrite (replay_untouched (log_ops pre)) in Hs.
  - left. unfold state_of. by apply replay_touched.
Qed.
End crash.

(** ** Exact expiries *)

Definition exp_exact (r : record) : Prop := let '(_, exp, _) := r in number_of_bigint exp = exp.

Lemma replay_exact JSON_parse os : forall M : gmap jsstr record,
  Forall (lop_ok JSON_parse) os -> map_Forall (fun _ r => exp_exact r) M ->
  map_Forall (fun _ r => exp_exact r) (replay JSON_parse os M).
Proof.
  induction os as [|o os IH]; intros M Ho HM; [done|]. apply Forall_cons in Ho as [Ho Hos]. apply IH; [done|].
  destruct o as [k v exp meta|k]; cbn.
  - apply map_Forall_insert_2; [|done]. destruct Ho as [_ (_ & He & _)]. done.
  - intros k' r Hr. apply lookup_delete_Some in Hr as [_ Hr]. by apply (HM k').
Qed.

Lemma istep_exact JSON_parse now0 s ev :
  match ev with IWrite o => lop_ok JSON_parse o | _ => True end ->
  Forall (fun p => exp_exact p.2) (s.1.1 ++ s.1.2) /\ Forall (fun e => exp_exact (rec_of e)) s.2 -> zwf s.1 ->
  Forall (fun p => exp_exact p.2) ((istep JSON_parse now0 s ev).1.1 ++ (istep JSON_parse now0 s ev).1.2) /\
  Forall (fun e => exp_exact (rec_of e)) (istep JSON_parse now0 s ev).2.
Proof.
  destruct s as [z items]. cbn [fst snd]. intros Hev [Hm Hi] Hz.
  assert (Hdel : forall k, Forall (fun p => exp_exact p.2) ((zdel z k).1 ++ (zdel z k).2)).
  { intros k. rewrite zdel_jdel by apply Hz. rewrite Forall_forall in *. intros [k' r] Hin.
    apply jdel_in in Hin as [_ Hin]; [|apply Hz]. by apply (Hm (k', r)). }
  destruct ev as [[k v exp meta|k]|k t|]; cbn [istep fst snd].
  - rewrite zset_jset. split; [|done]. rewrite Forall_forall in *. intros [k' r] Hin.
    apply jset_in in Hin as [[-> ->]|[_ Hin]]; [by destruct Hev as [_ (_ & ? & _)]|by apply (Hm (k', r))|apply Hz].
  - by split.
  - destruct (jget (z.1 ++ z.2) k) as [r|]; [|by split]. destruct (rec_dead t r); [split; [apply Hdel|exact Hi]|by split].
  - destruct z as [d [|[k r] todo]]; [done|]. cbn [fst snd] in *. rewrite <- app_assoc. split; [done|].
    destruct (rec_dead now0 r); [done|]. apply Forall_app. split; [done|]. apply Forall_singleton.
    apply Forall_app in Hm as [_ Hm]. apply Forall_cons in Hm as [Hr _]. by destruct r as [[v exp] dd].
Qed.

Lemma iterate_exact JSON_parse now0 evs : forall s,
  Forall (lop_ok JSON_parse) (writes evs) -> zwf s.1 ->
  Forall (fun p => exp_exact p.2) (s.1.1 ++ s.1.2) /\ Forall (fun e => exp_exact (rec_of e)) s.2 ->
  Forall (fun e => exp_exact (rec_of e)) (fold_left (istep JSON_parse now0) evs s).2.
Proof.
  induction evs as [|ev evs IH]; intros s Hw Hz Hs; cbn [fold_left]; [by destruct Hs|].
  assert (Hw' : match ev with IWrite o => lop_ok JSON_parse o | _ => True end /\ Forall (lop_ok JSON_parse) (writes evs)).
  { destruct ev; cbn in Hw; [by apply Forall_cons in Hw|done..]. }
  destruct Hw' as [Hwev Hw']. apply IH; [done|by apply istep_wf|by apply istep_exact].
Qed.

(** * The properties *)

Section properties.
Context (JSON_parse : buffer -> option json) (dt_text : dt_map -> buffer).
Context (dt_text_parses : forall d, JSON_parse (dt_text d) = Some (dt_json d)).
Context (dt_text_nonempty : forall d, dt_text d <> []).
Context (now : Z) (vmode : value_mode).
Context {T : Type} `{!OrderedIndex jsstr jsstr T} `{!OrderedIndexLaws cmpString cmpString}.
Context (short rd wr : Z -> Z -> Z) (Hshort : progress short) (Hrd : progress rd) (Hwr : progress wr).

Lemma ops_ok es : Forall (entry_ok JSON_parse) es -> Forall (lop_ok JSON_parse) (log_ops es).
Proof.
  intros H. unfold log_ops. induction H as [|e es [He _] _ IH]; cbn; [constructor|]. apply Forall_app. by split.
Qed.

Lemma items_exact es0 pre tail items :
  Forall (entry_ok JSON_parse) (es0 ++ pre ++ tail) ->
  compacting JSON_parse now es0 pre tail items -> Forall (fun e => exp_exact (rec_of e)) items.
Proof.
  intros Hok [now0 before evs later m d Ht (Hm & Hk & Hs) Hc Hr Hi].
  rewrite !Forall_app in Hok. destruct Hok as (H0 & Hp & Htl). apply ops_ok in H0, Hp, Htl.
  rewrite Ht, !Forall_app in Htl. destruct Htl as (Hb & Hw & _).
  change items with (([] : rmap, [] : rmap, items).2).
  enough (Hall : Forall (fun e => exp_exact (rec_of e)) (iterate JSON_parse now0 evs m).2) by by rewrite Hi in Hall.
  apply iterate_exact; [done|by split|]. split; [|constructor]. cbn. apply Forall_forall. intros [k r] Hin.
  apply jget_in in Hin; [|done]. specialize (Hs k). rewrite Hin in Hs. cbn.
  eapply (replay_exact JSON_parse before _ Hb); [|exact Hs]. unfold state_of.
  by apply replay_exact, replay_exact.
Qed.

Lemma snap_entries_ok items s :
  Forall (fun e => exp_exact (rec_of e)) items -> writeSnapshot short dt_text items = Ok s ->
  Forall (entry_ok JSON_parse) (snap_entries dt_text items) /\ ss_file s = log_file (snap_entries dt_text items).
Proof.
  intros He Hs. destruct (writeSnapshot_spec short Hshort dt_text items s Hs) as (Henc & Hf & _).
  split; [|by rewrite Hf; unfold log_file; rewrite snap_entries_inputs].
  rewrite Forall_forall in Henc. rewrite Forall_forall in He. apply Forall_forall. intros en (e & -> & Hin)%list_elem_of_fmap.
  split; [|done]. apply Forall_singleton. split.
  - apply (Henc (snap_input dt_text e)), list_elem_of_fmap. by exists e.
  - split_and!; [|by apply (He e)|exists (e_dt e); by apply parse_dt_text].
    destruct (e_dt e) as [d|]; [|done]. cbn. intros [= Hd]. by apply (dt_text_nonempty d).
Qed.

Lemma log_file_app es1 es2 : log_file (es1 ++ es2) = log_file es1 ++ log_file es2.
Proof. unfold log_file, log_bytes. by rewrite !fmap_app, concat_app. Qed.

(** What a store shows is judged the same by two contents that are the same from
    [now] on. *)
Lemma view_same (files : value_file -> buffer) (st : @store T) (M M' : gmap jsstr record) t k :
  now <= t -> same_from now (M' !! k) (M !! k) ->
  match view st t k with
  | Some r => exists v, M' !! k = Some (v, expireAt r, dt r) /\ denotes files vmode (ref r) v
  | None => forall v exp d, M' !! k = Some (v, exp, d) -> truthy exp && (exp <=? t) = true
  end ->
  match view st t k with
  | Some r => exists v, M !! k = Some (v, expireAt r, dt r) /\ denotes files vmode (ref r) v
  | None => forall v exp d, M !! k = Some (v, exp, d) -> truthy exp && (exp <=? t) = true
  end.
Proof.
  intros Ht [->|[H1 H2]] Hv; [done|]. destruct (view st t k) as [r|] eqn:Ev.
  - exfalso. destruct Hv as (v & Hv & _). pose proof (rec_dead_mono now t _ Ht (H1 _ Hv)) as Hd.
    unfold view in Ev. destruct (jget (map st) k) as [r'|]; [|done]. destruct (expired r' t) eqn:Ex; [done|].
    injection Ev as ->. unfold expired in Ex. cbn in Hd. congruence.
  - intros v exp d HM. by apply (rec_dead_mono now t _ Ht (H2 _ HM)).
Qed.

(** The compaction as a whole: what it read and what it left on disk. *)
Record compacted (es0 pre tail : list entry) (items : list store_entry) (s : snap_state)
    (wal : nat -> buffer) (d : disk) : Prop := {
  cd_ok : Forall (entry_ok JSON_parse) (es0 ++ pre ++ tail);
  cd_run : compacting JSON_parse now es0 pre tail items;
  cd_snap : writeSnapshot short dt_text items = Ok s;
  cd_wal : blen (log_file pre) <= blen (wal 0%nat) /\
           (forall i, wal i `prefix_of` log_file (pre ++ tail)) /\ (forall i, wal i `prefix_of` wal (S i));
  cd_old : holds JSON_parse (dk_snapshot d) es0 /\ holds JSON_parse (dk_wal d) (pre ++ tail);
  cd_tmp : content (dk_snapshotTmp d) = ss_file s /\
           copyTail rd wr wal (log_file (pre ++ tail)) (blen (log_file pre)) = Some (content (dk_walTmp d));
}.

Lemma compacted_files es0 pre tail items s wal d :
  compacted es0 pre tail items s wal d ->
  holds JSON_parse (Some (dk_snapshotTmp d)) (snap_entries dt_text items) /\
  holds JSON_parse (Some (dk_walTmp d)) tail.
Proof.
  intros [Hok Hc Hs (Hw1 & Hw2 & Hw3) _ [Ht1 Ht2]].
  destruct (snap_entries_ok items s (items_exact _ _ _ _ Hok Hc) Hs) as [Hse Hf].
  rewrite !Forall_app in Hok. destruct Hok as (_ & _ & Htl).
  split; split; [done|by rewrite Ht1|done|].
  rewrite copyTail_spec in Ht2 by (done || blen_facts; lia).
  injection Ht2 as <-. rewrite log_file_app. unfold blen. by rewrite Nat2Z.id, drop_app_length.
Qed.

(** C13. A crash at any point of the rotation loses nothing. [es0] is the old
    snapshot, [pre] the log up to the fence, [tail] the writes made while the new
    snapshot was written and the log copied. Whichever of the two renames the crash
    let through, recovery succeeds, reports no lost byte, and shows at any later time
    each key's last write of the whole history unless it has expired: although the
    snapshot mixes states of different moments and, with only the first rename done,
    the log is replayed on top of effects the snapshot already has. *)
Theorem compaction_crash_safe es0 pre tail items s wal d n mode truncate :
  compacted es0 pre tail items s wal d ->
  exists info st,
    recover JSON_parse now (dk_snapshot (crashed n d)) (dk_wal (crashed n d)) (empty_store : @store T) mode truncate vmode
      = Ok (info, st, dk_wal (crashed n d)) /\
    store_wf st /\ lostBytes info = 0 /\
    forall t k, now <= t ->
      match view st t k with
      | Some r => exists v, state_of JSON_parse es0 (pre ++ tail) !! k = Some (v, expireAt r, dt r) /\
                    denotes (files_of (dk_snapshot (crashed n d)) (dk_wal (crashed n d))) vmode (ref r) v
      | None => forall v exp dd, state_of JSON_parse es0 (pre ++ tail) !! k = Some (v, exp, dd) ->
                  truthy exp && (exp <=? t) = true
      end.
Proof.
  intros Hc. destruct (compacted_files _ _ _ _ _ _ _ Hc) as [Hn1 Hn2]. destruct (cd_old _ _ _ _ _ _ _ Hc) as [Ho1 Ho2].
  pose proof (fun k => layouts_same JSON_parse dt_text dt_text_parses now es0 pre tail items k
    (cd_run _ _ _ _ _ _ _ Hc)) as Hl.
  assert (Hlay : exists es1 es2, holds JSON_parse (dk_snapshot (crashed n d)) es1 /\
    holds JSON_parse (dk_wal (crashed n d)) es2 /\
    forall k, same_from now (state_of JSON_parse es1 es2 !! k) (state_of JSON_parse es0 (pre ++ tail) !! k)).
  { destruct n as [|[|n]]; cbn.
    - exists es0, (pre ++ tail). split_and!; [done..|]. by left.
    - exists (snap_entries dt_text items), (pre ++ tail). split_and!; [done..|]. apply Hl.
    - exists (snap_entries dt_text items), tail. rewrite take_nil. cbn. split_and!; [done..|]. apply Hl. }
  destruct Hlay as (es1 & es2 & H1 & H2 & Hsame).
  destruct (recover_logs JSON_parse now vmode _ _ es1 es2 mode truncate H1 H2)
    as (info & st & Hr & Hwf & Hv & _ & _ & Hlost & _).
  exists info, st. split_and!; [done..|]. intros t k Ht. by apply (view_same _ _ _ _ _ _ Ht (Hsame k)), Hv.
Qed.

Lemma sub_shift {A} (l : list A) base a b : 0 <= base <= a ->
  sub (drop (Z.to_nat base) l) (a - base) (b - base) = sub l a b.
Proof.
  intros H. unfold sub. rewrite drop_drop. replace (b - base - (a - base)) with (b - a) by lia.
  by replace (Z.to_nat base + Z.to_nat (a - base))%nat with (Z.to_nat a) by lia.
Qed.

(** Before the rotation pointers past the fence belong to the keys written since. *)
Definition fenced (st : @store T) (base : Z) (tail : list entry) : Prop :=
  forall k r loc, jget (map st) k = Some r -> ref r = Disk loc ->
    (vl_file loc = Store.Wal /\ base <= vl_off loc) <-> ~ Forall (fun o => lop_key o <> k) (log_ops tail).

Lemma jget_remapLocs (st : @store T) f k :
  jget (map (remapLocs st f)) k =
  (fun r => match ref r with
            | Disk loc => match f k loc r with
                          | Some next => StoreRecord (Disk next) (expireAt r) (rseq r) (dt r)
                          | None => r
                          end
            | Memory _ => r
            end) <$> jget (map st) k.
Proof.
  unfold remapLocs. cbn. induction (map st) as [|[k' r] m IH]; cbn; [done|]. case_decide; [by subst|done].
Qed.

(** After the rotation every pointer of a disk-backed store reads from the new
    files the bytes it read from the old ones: those past the fence are shifted by
    the fence's offset, earlier ones are replaced by the value's place in the new
    snapshot. Only records that have expired may keep a stale pointer. Keys, expiries
    and the order are untouched. *)
Theorem remap_reads_same es0 pre tail items s wal d (st : @store T) :
  compacted es0 pre tail items s wal d -> fenced st (blen (log_file pre)) tail ->
  replayed now (files_of (dk_snapshot d) (dk_wal d)) DiskMode st (state_of JSON_parse es0 (pre ++ tail)) ->
  let st' := remapLocs st (remap (blen (log_file pre)) (ss_locs s)) in
  store_wf st' /\ jkeys (map st') = jkeys (map st) /\
  forall k r', jget (map st') k = Some r' -> expired r' now = true \/
    exists v, state_of JSON_parse es0 (pre ++ tail) !! k = Some (v, expireAt r', dt r') /\
      denotes (files_of (dk_snapshot (crashed 2 d)) (dk_wal (crashed 2 d))) DiskMode (ref r') v.
Proof.
  intros Hc Hfence [W R _] st'. split; [by apply remapLocs_wf|]. split; [by apply remapLocs_keys|].
  intros k r'. unfold st'. rewrite jget_remapLocs. destruct (jget (map st) k) as [r|] eqn:Hk; [|done].
  destruct (R k r Hk) as (v & HM & loc & Hloc & Hden). cbn [fmap option_fmap option_map]. rewrite Hloc.
  specialize (Hfence k r loc Hk Hloc). destruct (compacted_files _ _ _ _ _ _ _ Hc) as [[_ Hn1] [_ Hn2]].
  assert (Ho : content_of (dk_wal d) = log_file (pre ++ tail)).
  { destruct (cd_old _ _ _ _ _ _ _ Hc) as [_ [_ Ho]]. by destruct (dk_wal d) as [f|]; [|rewrite Ho]. }
  destruct (untouched_dec (log_ops tail) k) as [Hu|Ht].
  - assert (Hr : remap (blen (log_file pre)) (ss_locs s) k loc r = jget (ss_locs s) k).
    { unfold remap. destruct (vl_file loc) eqn:E; [done|]. destruct (Z.leb_spec (blen (log_file pre)) (vl_off loc)); [|done].
      exfalso. by apply (proj1 Hfence). }
    rewrite Hr. clear Hr. intros [= <-].
    pose proof (snapshot_same JSON_parse dt_text dt_text_parses now es0 pre tail items k (cd_run _ _ _ _ _ _ _ Hc) Hu) as Hs.
    rewrite state_of_app, replay_untouched in HM by done. rewrite HM, snap_entries_replay in Hs by done.
    rewrite state_of_app, replay_untouched by done.
    destruct Hs as [Hs|[_ Hs]]; [right|left; specialize (Hs _ eq_refl)].
    + destruct (writeSnapshot_spec short Hshort dt_text items s (cd_snap _ _ _ _ _ _ _ Hc)) as (_ & _ & _ & _ & Hlocs).
      specialize (Hlocs k). destruct (last_entry k items) as [e|]; [|done]. destruct Hlocs as (loc' & -> & Hl1 & Hl2).
      injection Hs as E1 E2 E3. exists v. cbn. rewrite HM. split; [done|]. exists loc'. split; [done|].
      rewrite Hl1. cbn. rewrite (proj1 (cd_tmp _ _ _ _ _ _ _ Hc)), <- E1. done.
    + cbn in Hs. by destruct (jget (ss_locs s) k).
  - apply Hfence in Ht as [Hf Hoff]. unfold remap. rewrite Hf. rewrite (proj2 (Z.leb_le _ _) Hoff). intros [= <-].
    right. exists v. split; [done|]. eexists. split; [done|]. cbn. rewrite Hf in Hden. cbn in Hden.
    rewrite Ho, log_file_app, blen_app in Hden. rewrite Hn2. destruct Hden as (H1 & H2 & H3 & H4).
    split_and!; [lia..|]. rewrite <- H4, <- (sub_shift (log_file pre ++ log_file tail) (blen (log_file pre))) by (blen_facts; lia).
    unfold blen at 3. rewrite Nat2Z.id, drop_app_length. f_equal. lia.
Qed.
End properties.


(** * Concrete instances *)

(** A text for datetime metadata: the bits of a code number. *)
Fixpoint bits_text (p : positive) : buffer :=
  match p with
  | xH => [x01]
  | xO p' => x00 :: bits_text p'
  | xI p' => x02 :: bits_text p'
  end.

Fixpoint text_bits (b : buffer) : option positive :=
  match b with
  | x01 :: _ => Some xH
  | x00 :: b' => xO <$> text_bits b'
  | x02 :: b' => xI <$> text_bits b'
  | _ => None
  end.

Definition code_text (d : dt_map) : buffer := bits_text (encode d).
Definition code_parse (b : buffer) : option json := p ← text_bits b; d ← decode (A := dt_map) p; Some (dt_json d).

Lemma code_text_parses d : code_parse (code_text d) = Some (dt_json d).
Proof.
  unfold code_parse, code_text. assert (H : forall p, text_bits (bits_text p) = Some p).
  { induction p as [p IH|p IH|]; cbn; by rewrite ?IH. }
  rewrite H. cbn. by rewrite decode_encode.
Qed.

Lemma code_text_nonempty d : code_text d <> [].
Proof. unfold code_text. by destruct (encode d). Qed.

#[local] Instance str_index : OrderedIndex jsstr jsstr (list (jsstr * jsstr)) :=
  list_index cmpString cmpString.
#[local] Instance str_index_laws : OrderedIndexLaws (H := str_index) cmpString cmpString :=
  list_index_laws cmpString cmpString.

Abbreviation list_store := (store (T := list (jsstr * jsstr))).

(** System calls that move at most seven bytes. *)
Definition seven (_ n : Z) : Z := Z.min 7 n.

Lemma seven_progress : progress seven.
Proof. intros pos n Hn. unfold seven. lia. Qed.

(** A snapshot with [a]; a log that set [b]; while the new snapshot is written, [a]
    has been visited when [c] is set and [b] is deleted. *)
Definition ex_old : list entry := [Single (LSet [x61] [x01] 0 None)].
Definition ex_pre : list entry := [Single (LSet [x62] [x02] 0 None)].
Definition ex_tail : list entry := [Single (LSet [x63] [x03; x04] 0 None); Single (LDel [x62])].
Definition ex_map : rmap := [([97]%N, ([x01], 0, None)); ([98]%N, ([x02], 0, None))].
Definition ex_events : list ievent :=
  [INext; IWrite (LSet [x63] [x03; x04] 0 None); INext; IWrite (LDel [x62]); INext].
Definition ex_items : list store_entry := (iterate code_parse 10 ex_events ex_map).2.

Definition ex_snap_state : snap_state :=
  match writeSnapshot seven code_text ex_items with Ok s => s | Err _ => SnapState [] 0 0 [] 0 [] end.

Definition ex_disk : disk :=
  Disks (Some (File (log_file ex_old) 1 7)) (Some (File (log_file (ex_pre ++ ex_tail)) 1 8))
    (File (ss_file ex_snap_state) 1 9) (File (log_file ex_tail) 1 10).

Definition ex_wal_passes (_ : nat) : buffer := log_file ex_pre.

Lemma ex_entries_ok : Forall (entry_ok code_parse) (ex_old ++ ex_pre ++ ex_tail).
Proof.
  repeat constructor; cbn; try (by vm_compute); try (unfold MAX_KEY_LEN, MAX_VAL_LEN; cbn; lia);
    by eexists.
Qed.

Lemma ex_compacting : compacting code_parse 20 ex_old ex_pre ex_tail ex_items.
Proof.
  apply (Compacting code_parse 20 ex_old ex_pre ex_tail ex_items 10 [] ex_events []
    ex_map (iterate code_parse 10 ex_events ex_map).1.1).
  - by vm_compute.
  - split; [apply (bool_decide_unpack _); vm_compute; exact I|].
    split; [apply (bool_decide_unpack _); vm_compute; exact I|]. intros k. cbn.
    repeat case_decide; subst; try (by vm_compute). rewrite !lookup_insert_ne by done. by intros r ?%lookup_empty_Some.
  - lia.
  - by repeat constructor.
  - by vm_compute.
Qed.

Lemma ex_compacted :
  compacted code_parse code_text 20 seven seven seven ex_old ex_pre ex_tail ex_items ex_snap_state ex_wal_passes ex_disk.
Proof.
  pose proof ex_entries_ok as Hok. split.
  - exact Hok.
  - apply ex_compacting.
  - by vm_compute.
  - split; [done|]. unfold ex_wal_passes. rewrite log_file_app. split; intros _; [by eexists|done].
  - rewrite !Forall_app in Hok. destruct Hok as (H1 & H2 & H3). split; (split; [|done]); [done|].
    by apply Forall_app.
  - split; [done|]. by vm_compute.
Qed.

Definition ex_store : list_store :=
  match recover code_parse 20 (dk_snapshot ex_disk) (dk_wal ex_disk) (@empty_store (list (jsstr * jsstr)) _) Strict true DiskMode with
  | Ok (_, st, _) => st
  | Err _ => empty_store
  end.

Lemma ex_store_replayed :
  replayed 20 (files_of (dk_snapshot ex_disk) (dk_wal ex_disk)) DiskMode ex_store
    (state_of code_parse ex_old (ex_pre ++ ex_tail)).
Proof.
  destruct (cd_old _ _ _ _ _ _ _ _ _ _ _ _ _ ex_compacted) as [H1 H2].
  destruct (recoverSnapshot_log code_parse 20 DiskMode (dk_snapshot ex_disk) ex_old
    (files_of (dk_snapshot ex_disk) (dk_wal ex_disk)) (empty_store : list_store) ∅ Strict H1 eq_refl
    (replayed_empty _ _ _)) as (s1 & E1 & R1).
  destruct (recoverWal_log code_parse 20 DiskMode (dk_wal ex_disk) (ex_pre ++ ex_tail)
    (files_of (dk_snapshot ex_disk) (dk_wal ex_disk)) s1 _ Strict true H2 eq_refl R1) as (w & E2 & R2 & _).
  assert (E : ex_store = wp_store w); [|by rewrite E].
  unfold ex_store, recover. rewrite E1. cbn [rbind]. by rewrite E2.
Qed.

Lemma ex_fenced : fenced ex_store (blen (log_file ex_pre)) ex_tail.
Proof.
  intros k r loc.
  assert (Hm : map ex_store = [([97]%N, StoreRecord (Disk (ValueLoc Snapshot 23 1)) 0 1 None);
                               ([99]%N, StoreRecord (Disk (ValueLoc Store.Wal 51 2)) 0 3 None)]) by by vm_compute.
  assert (Ht : lop_key <$> log_ops ex_tail = [[99]%N; [98]%N]) by by vm_compute.
  rewrite Hm. rewrite <- (Forall_fmap lop_key (fun x => x <> k)), Ht. clear Hm Ht. cbn. intros Hr Hl.
  repeat case_decide; simplify_eq; cbn; simplify_eq Hl.
  - intros <-. cbn. split; [by intros [? _]|]. intros Hn. exfalso. apply Hn. by repeat constructor.
  - intros <-. cbn. split; [|by vm_compute]. intros _ Hf. apply Forall_cons in Hf as [Hf _]. done.
Qed.

Lemma compaction_crash_safe_witness :
  exists info (st : list_store),
    recover code_parse 20 (Some (dk_snapshotTmp ex_disk)) (dk_wal ex_disk) empty_store Resync true MemoryMode =
      Ok (info, st, dk_wal ex_disk) /\
    lostBytes info = 0 /\ view st 20 [98]%N = None /\ exists r, view st 20 [99]%N = Some r /\ ref r = Memory [x03; x04].
Proof.
  destruct (compaction_crash_safe code_parse code_text code_text_parses code_text_nonempty 20 MemoryMode
    (T := list (jsstr * jsstr)) seven seven seven seven_progress seven_progress seven_progress
    ex_old ex_pre ex_tail ex_items ex_snap_state ex_wal_passes ex_disk 1 Resync true ex_compacted)
    as (info & st & H1 & _ & H2 & H3).
  exists info, st. split; [exact H1|]. split; [exact H2|].
  pose proof (H3 20 [98]%N ltac:(lia)) as Hb. pose proof (H3 20 [99]%N ltac:(lia)) as Hc.
  assert (Eb : state_of code_parse ex_old (ex_pre ++ ex_tail) !! [98]%N = None) by (vm_compute; reflexivity).
  assert (Ec : state_of code_parse ex_old (ex_pre ++ ex_tail) !! [99]%N = Some ([x03; x04], 0, None))
    by (vm_compute; reflexivity).
  rewrite Eb in Hb. rewrite Ec in Hc. split.
  - destruct (view st 20 [98]%N); [|reflexivity]. destruct Hb as (v & Hv & _). discriminate.
  - destruct (view st 20 [99]%N) as [r|].
    + destruct Hc as (v & [= <- _ _] & Hd). exists r. split; [reflexivity|exact Hd].
    + specialize (Hc _ _ _ eq_refl). discriminate.
Defined.

Lemma remap_reads_same_witness :
  let st' := remapLocs ex_store (remap (blen (log_file ex_pre)) (ss_locs ex_snap_state)) in
  exists r, jget (map st') [99]%N = Some r /\
    denotes (files_of (dk_snapshot (crashed 2 ex_disk)) (dk_wal (crashed 2 ex_disk))) DiskMode (ref r) [x03; x04].
Proof.
  pose proof (remap_reads_same code_parse code_text code_text_parses code_text_nonempty 20
    (T := list (jsstr * jsstr)) seven seven seven seven_progress seven_progress seven_progress
    ex_old ex_pre ex_tail ex_items ex_snap_state ex_wal_passes ex_disk ex_store ex_compacted ex_fenced ex_store_replayed)
    as (_ & _ & H).
  eexists. split; [vm_compute; reflexivity|].
  destruct (H [99]%N (StoreRecord (Disk (ValueLoc Store.Wal 23 2)) 0 3 None)) as [Hx|(v & Hv & Hd)].
  - vm_compute. reflexivity.
  - vm_compute in Hx. discriminate.
  - assert (Ec : state_of code_parse ex_old (ex_pre ++ ex_tail) !! [99]%N = Some ([x03; x04], 0, None))
      by (vm_compute; reflexivity).
    rewrite Ec in Hv. injection Hv as <-. exact Hd.
Defined.
