(* ===== verification/JsString.v ===== *)
(** String operations of the language the modelled files use: whitespace, [trim],
    [split], [indexOf] of a character with the slices around it, digits, and joining
    with a separator. Strings are lists of UTF-16 code units. *)

From S2P Require Import Prelude JsMap JsonText.

(** * Operations *)

(** Whitespace and line terminators: what [trim] removes and [\s] matches. *)
Definition ws (u : N) : bool :=
  (((9 <=? u) && (u <=? 13)) || (u =? 32) || (u =? 160) || (u =? 5760) || ((8192 <=? u) && (u <=? 8202)) ||
   (u =? 8232) || (u =? 8233) || (u =? 8239) || (u =? 8287) || (u =? 12288) || (u =? 65279))%N.

Fixpoint trimStart (s : jsstr) : jsstr :=
  match s with c :: s' => if ws c then trimStart s' else s | [] => [] end.
Definition trim (s : jsstr) : jsstr := rev (trimStart (rev (trimStart s))).

(** [a.slice(0, n)] and [a.slice(n)], where a negative [n] counts from the end. *)
Definition slice_at {A} (l : list A) (n : Z) : nat := Z.to_nat (if n <? 0 then Z.max 0 (blen l + n) else n).
Definition slice_to {A} (l : list A) (n : Z) : list A := take (slice_at l n) l.
Definition slice_from {A} (l : list A) (n : Z) : list A := drop (slice_at l n) l.

(** [s.split(c)] for a one-unit separator. *)
Fixpoint split_on (c : N) (s : jsstr) : list jsstr :=
  match s with
  | [] => [[]]
  | u :: s' =>
      if (u =? c)%N then [] :: split_on c s'
      else match split_on c s' with
           | h :: t => (u :: h) :: t
           | [] => [[u]]
           end
  end.

(** [s.split(/\s+/)]. *)
Fixpoint split_ws_from (cur : jsstr) (in_ws : bool) (s : jsstr) : list jsstr :=
  match s with
  | [] => [cur]
  | u :: s' =>
      if ws u then if in_ws then split_ws_from [] true s' else cur :: split_ws_from [] true s'
      else split_ws_from (cur ++ [u]) false s'
  end.
Definition split_ws (s : jsstr) : list jsstr := split_ws_from [] false s.

(** The slices before and after the first [c], if there is one. *)
Fixpoint break_on (c : N) (s : jsstr) : option (jsstr * jsstr) :=
  match s with
  | [] => None
  | u :: s' =>
      if (u =? c)%N then Some ([], s')
      else match break_on c s' with
           | Some (a, b) => Some (u :: a, b)
           | None => None
           end
  end.

(** [s.indexOf(pat)] with the slices before and after the match. *)
Fixpoint break_str (pat s : jsstr) : option (jsstr * jsstr) :=
  if bool_decide (pat `prefix_of` s) then Some ([], drop (length pat) s)
  else match s with
       | [] => None
       | u :: s' => (fun ab => (u :: ab.1, ab.2)) <$> break_str pat s'
       end.

(** [parts.join(c)]. *)
Fixpoint join_with (sep : jsstr) (parts : list jsstr) : jsstr :=
  match parts with
  | [] => []
  | [p] => p
  | p :: parts' => p ++ sep ++ join_with sep parts'
  end.

(** A string by code points: [Array.from]. *)
Fixpoint code_points (s : jsstr) : list jsstr :=
  match s with
  | u :: (v :: s'') as s' =>
      if (((55296 <=? u) && (u <=? 56319)) && ((56320 <=? v) && (v <=? 57343)))%N then [u; v] :: code_points s'' else [u] :: code_points s'
  | u :: s' => [u] :: code_points s'
  | [] => []
  end.

Definition all_digits (s : jsstr) : bool := forallb is_digit s && negb (bool_decide (s = [])).

Definition digits_value (s : jsstr) : Z :=
  fold_left (fun acc c => 10 * acc + (Z.of_N c - 48)) s 0.

(** * Splitting and joining *)

Definition free (c : N) (s : jsstr) : Prop := Forall (fun u => u <> c) s.

Lemma split_on_nonempty c s : split_on c s <> [].
Proof. destruct s as [|u s]; cbn; [done|]. destruct (u =? c)%N; [done|]. by destruct (split_on c s). Qed.

Lemma join_with_cons sep p ps : ps <> [] -> join_with sep (p :: ps) = p ++ sep ++ join_with sep ps.
Proof. by destruct ps. Qed.

Lemma join_split c s : join_with [c] (split_on c s) = s.
Proof.
  induction s as [|u s IH]; [done|]. cbn. destruct (N.eqb_spec u c) as [->|Hne].
  - rewrite join_with_cons by apply split_on_nonempty. cbn. by rewrite IH.
  - destruct (split_on c s) as [|h t] eqn:E; [by apply split_on_nonempty in E|].
    rewrite <- IH. by destruct t.
Qed.

Lemma split_on_free c s : Forall (free c) (split_on c s).
Proof.
  induction s as [|u s IH]; cbn; [by repeat constructor|]. destruct (N.eqb_spec u c) as [->|Hne].
  - constructor; [constructor|done].
  - destruct (split_on c s) as [|h t]; [by repeat constructor|]. apply Forall_cons in IH as [Hh Ht].
    constructor; [by constructor|done].
Qed.

Lemma split_on_app c p s : free c p -> split_on c (p ++ c :: s) = p :: split_on c s.
Proof.
  induction 1 as [|u p Hu _ IH]; cbn; [by rewrite N.eqb_refl|]. destruct (N.eqb_spec u c); [done|]. by rewrite IH.
Qed.

Lemma split_on_self c p : free c p -> split_on c p = [p].
Proof.
  induction 1 as [|u p Hu _ IH]; cbn; [done|]. destruct (N.eqb_spec u c); [done|]. by rewrite IH.
Qed.

Lemma split_join c ps : ps <> [] -> Forall (free c) ps -> split_on c (join_with [c] ps) = ps.
Proof.
  intros Hn H. induction H as [|p ps Hp Hps IH]; [done|]. destruct ps as [|p' ps]; [by apply split_on_self|].
  rewrite join_with_cons by done. change ([c] ++ join_with [c] (p' :: ps)) with (c :: join_with [c] (p' :: ps)).
  rewrite split_on_app by done. by rewrite IH.
Qed.

Lemma break_on_Some c s a b : break_on c s = Some (a, b) <-> s = a ++ c :: b /\ free c a.
Proof.
  revert a. induction s as [|u s IH]; intros a; cbn.
  - split; [done|]. intros [E _]. by destruct a.
  - destruct (N.eqb_spec u c) as [->|Hne].
    + split; [intros [= <- <-]; split; [done|constructor]|]. intros [E Hf]. destruct a as [|x a]; cbn in E; [by simplify_eq|].
      injection E as <- _. apply Forall_cons in Hf as [Hf _]. done.
    + destruct (break_on c s) as [[a' b']|] eqn:E.
      * split.
        { intros [= <- <-]. destruct (proj1 (IH a') eq_refl) as [-> Hf]. split; [done|by constructor]. }
        intros [E' Hf]. destruct a as [|x a]; cbn in E'; injection E' as -> E'; [done|].
        apply Forall_cons in Hf as [_ Hf]. specialize (proj2 (IH a) (conj E' Hf)) as [= -> ->]. done.
      * split; [done|]. intros [E' Hf]. destruct a as [|x a]; cbn in E'; injection E' as -> E'; [done|].
        apply Forall_cons in Hf as [_ Hf]. by specialize (proj2 (IH a) (conj E' Hf)).
Qed.

Lemma break_on_None c s : break_on c s = None <-> free c s.
Proof.
  induction s as [|u s IH]; cbn; [by split; [constructor|]|]. unfold free. rewrite Forall_cons. fold (free c s).
  destruct (N.eqb_spec u c) as [->|Hne]; [naive_solver|].
  destruct (break_on c s) as [[a b]|]; naive_solver.
Qed.

Lemma break_on_app c a b : free c a -> break_on c (a ++ c :: b) = Some (a, b).
Proof. intros H. by apply break_on_Some. Qed.

Lemma all_digits_spec s : all_digits s = true <-> s <> [] /\ Forall (fun c => is_digit c = true) s.
Proof.
  unfold all_digits. rewrite andb_true_iff, negb_true_iff, bool_decide_eq_false, forallb_forall, Forall_forall.
  setoid_rewrite list_elem_of_In. tauto.
Qed.

Lemma digits_free c s : is_digit c = false -> all_digits s = true -> free c s.
Proof.
  intros Hc [_ Hs]%all_digits_spec. eapply Forall_impl; [exact Hs|]. intros x Hx ->. congruence.
Qed.

Lemma digits_acc d : forall p, fold_left (fun acc c => 10 * acc + (Z.of_N c - 48)) (uint_chars d) (Zpos p) = Zpos (Pos.of_uint_acc d p).
Proof.
  induction d; intros p; [done|..]; cbn [uint_chars fold_left Pos.of_uint_acc]; rewrite <- IHd; f_equal; lia.
Qed.

Lemma digits_uint d : digits_value (uint_chars d) = Z.of_N (Pos.of_uint d).
Proof. unfold digits_value. induction d; [done|exact IHd|..]; exact (digits_acc d _). Qed.

Lemma uint_all_digits d : forallb is_digit (uint_chars d) = true.
Proof. by induction d. Qed.

(** The numeral of a natural number is read back. *)
Lemma string_of_int_digits n : 0 <= n -> all_digits (string_of_int n) = true /\ digits_value (string_of_int n) = n.
Proof.
  intros Hn. unfold string_of_int, all_digits. pose proof (DecimalZ.of_to n) as Hz. pose proof (to_int_not_nil n) as Hd. destruct (Z.to_int n) as [d|d] eqn:E.
  - rewrite uint_all_digits, digits_uint. split; [|exact Hz]. pose proof (uint_chars_head d) as Hh. rewrite bool_decide_eq_false_2; [done|]. intros Hnil. by rewrite Hnil in Hh.
  - destruct n as [|p|p]; [done|done|lia].
Qed.

Lemma digits_value_nonneg s : all_digits s = true -> 0 <= digits_value s.
Proof.
  intros [_ Hs]%all_digits_spec. unfold digits_value.
  enough (H : forall a, 0 <= a -> 0 <= fold_left (fun acc c => 10 * acc + (Z.of_N c - 48)) s a) by by apply H.
  induction Hs as [|c s Hc _ IH]; intros a Ha; cbn [fold_left]; [done|]. apply IH.
  unfold is_digit in Hc. apply andb_true_iff in Hc as [H1%N.leb_le H2%N.leb_le]. lia.
Qed.

(** * Code points *)

Definition high (u : N) : bool := ((55296 <=? u) && (u <=? 56319))%N.
Definition low (u : N) : bool := ((56320 <=? u) && (u <=? 57343))%N.

Lemma code_points_pair u v s : high u = true -> low v = true -> code_points (u :: v :: s) = [u; v] :: code_points s.
Proof. unfold high, low. intros H1 H2. cbn [code_points]. by rewrite H1, H2. Qed.

Lemma code_points_one u s : high u = false \/ match s with v :: _ => low v = false | [] => True end ->
  code_points (u :: s) = [u] :: code_points s.
Proof.
  destruct s as [|v s]; [done|]. unfold high, low. intros H. cbn [code_points]. destruct H as [H|H]; rewrite H; [done|].
  by rewrite andb_false_r.
Qed.

(** No surrogate pair across the seam. *)
Definition seam (a b : jsstr) : Prop :=
  match last a, head b with Some u, Some v => high u && low v = false | _, _ => True end.

Lemma code_points_app n : forall a b, (length a <= n)%nat -> seam a b -> code_points (a ++ b) = code_points a ++ code_points b.
Proof.
  induction n as [|n IH]; intros a b Hl Hs; (destruct a as [|u a]; [done|cbn [length] in Hl; try lia]). destruct a as [|v a].
  - cbn [app]. rewrite (code_points_one u []) by by right. apply code_points_one. destruct b as [|w b]; [by right|].
    unfold seam in Hs. cbn in Hs. apply andb_false_iff in Hs. exact Hs.
  - cbn [length] in Hl. destruct (high u) eqn:Hu; [destruct (low v) eqn:Hv|].
    + cbn [app]. rewrite (code_points_pair u v (a ++ b)), (code_points_pair u v a) by done. cbn [app]. f_equal. apply IH; [lia|]. unfold seam in *.
      destruct a as [|w a]; [done|]. exact Hs.
    + cbn [app]. rewrite (code_points_one u (v :: a ++ b)), (code_points_one u (v :: a)) by by right. cbn [app]. f_equal. apply (IH (v :: a)); [cbn; lia|exact Hs].
    + cbn [app]. rewrite (code_points_one u (v :: a ++ b)), (code_points_one u (v :: a)) by by left. cbn [app]. f_equal. apply (IH (v :: a)); [cbn; lia|exact Hs].
Qed.
