(* ===== verification/JsDate.v ===== *)
(** The calendar of the language's [Date]: the arithmetic of days, years and months,
    and the local-time getters and setters. What the offset of local time is at an
    instant, and which instant a local time stands for, is the host's time zone
    data: a [zone]. The limit of the representable range is left out. *)

From S2P Require Import Prelude.

Definition msPerMinute : Z := 60000.
Definition msPerHour : Z := 3600000.
Definition msPerDay : Z := 86400000.

(** * Days, years, months *)

Definition leap (y : Z) : bool := (y mod 4 =? 0) && (negb (y mod 100 =? 0) || (y mod 400 =? 0)).
Definition year_days (y : Z) : Z := if leap y then 366 else 365.

(** The day number of a year's first day; day 0 is 1 January 1970. *)
Definition DayFromYear (y : Z) : Z :=
  365 * (y - 1970) + (y - 1969) / 4 - (y - 1901) / 100 + (y - 1601) / 400.

(** The last year that begins by the day: an estimate and a correction. *)
Definition YearFromDay (d : Z) : Z :=
  let y := 1970 + d * 400 / 146097 in
  if d <? DayFromYear y then y - 1 else if DayFromYear (y + 1) <=? d then y + 1 else y.

(** Days before a month (0 is January) within the year. *)
Definition month_start (lp : bool) (m : Z) : Z :=
  let l := if lp then 1 else 0 in
  if m <=? 0 then 0 else if m =? 1 then 31 else
  l + (if m =? 2 then 59 else if m =? 3 then 90 else if m =? 4 then 120 else if m =? 5 then 151
       else if m =? 6 then 181 else if m =? 7 then 212 else if m =? 8 then 243 else if m =? 9 then 273
       else if m =? 10 then 304 else if m =? 11 then 334 else 365).

Definition month_of (lp : bool) (yd : Z) : Z :=
  let l := if lp then 1 else 0 in
  if yd <? 31 then 0 else if yd <? 59 + l then 1 else if yd <? 90 + l then 2 else if yd <? 120 + l then 3
  else if yd <? 151 + l then 4 else if yd <? 181 + l then 5 else if yd <? 212 + l then 6
  else if yd <? 243 + l then 7 else if yd <? 273 + l then 8 else if yd <? 304 + l then 9
  else if yd <? 334 + l then 10 else 11.

Definition MonthFromDay (d : Z) : Z := let y := YearFromDay d in month_of (leap y) (d - DayFromYear y).
Definition DateFromDay (d : Z) : Z :=
  let y := YearFromDay d in d - DayFromYear y - month_start (leap y) (MonthFromDay d) + 1.
Definition WeekDay (d : Z) : Z := (d + 4) mod 7.

Definition MakeDay (y m dt : Z) : Z :=
  let ym := y + m / 12 in DayFromYear ym + month_start (leap ym) (m mod 12) + dt - 1.
Definition MakeTime (h m s ms : Z) : Z := h * msPerHour + m * msPerMinute + s * 1000 + ms.
Definition MakeDate (day time : Z) : Z := day * msPerDay + time.

Definition Day (t : Z) : Z := t / msPerDay.
Definition HourFromTime (t : Z) : Z := t mod msPerDay / msPerHour.
Definition MinFromTime (t : Z) : Z := t mod msPerHour / msPerMinute.
Definition SecFromTime (t : Z) : Z := t mod msPerMinute / 1000.
Definition msFromTime (t : Z) : Z := t mod 1000.

(** * Local time *)

Record zone := Zone {
  localTime : Z -> Z;     (* local time of an instant *)
  utc : Z -> Z;           (* the instant of a local time *)
}.

Section local.
Context (z : zone).

Definition getMonth (t : Z) : Z := MonthFromDay (Day (localTime z t)).
Definition getDate (t : Z) : Z := DateFromDay (Day (localTime z t)).
Definition getDay (t : Z) : Z := WeekDay (Day (localTime z t)).
Definition getHours (t : Z) : Z := HourFromTime (localTime z t).
Definition getMinutes (t : Z) : Z := MinFromTime (localTime z t).

Definition setSeconds (t s ms : Z) : Z :=
  let l := localTime z t in utc z (MakeDate (Day l) (MakeTime (HourFromTime l) (MinFromTime l) s ms)).
Definition setMinutes3 (t m s ms : Z) : Z :=
  let l := localTime z t in utc z (MakeDate (Day l) (MakeTime (HourFromTime l) m s ms)).
Definition setMinutes (t m : Z) : Z :=
  let l := localTime z t in
  utc z (MakeDate (Day l) (MakeTime (HourFromTime l) m (SecFromTime l) (msFromTime l))).
Definition setHours4 (t h m s ms : Z) : Z :=
  let l := localTime z t in utc z (MakeDate (Day l) (MakeTime h m s ms)).
Definition setHours (t h : Z) : Z :=
  let l := localTime z t in
  utc z (MakeDate (Day l) (MakeTime h (MinFromTime l) (SecFromTime l) (msFromTime l))).
Definition setDate (t dt : Z) : Z :=
  let l := localTime z t in
  utc z (MakeDate (MakeDay (YearFromDay (Day l)) (MonthFromDay (Day l)) dt) (l mod msPerDay)).
Definition setMonth (t m : Z) : Z :=
  let l := localTime z t in
  utc z (MakeDate (MakeDay (YearFromDay (Day l)) m (DateFromDay (Day l))) (l mod msPerDay)).
End local.

(** A zone with one offset. *)
Definition fixed_zone (o : Z) : zone := Zone (fun t => t + o) (fun l => l - o).

(** A zone that leaves summer time at the instant [at_]: clocks go back by [shift].
    A local time that occurs twice stands for its first occurrence. *)
Definition fall_back_zone (at_ before shift : Z) : zone :=
  Zone (fun t => if t <? at_ then t + before else t + before - shift)
       (fun l => if l - before <? at_ then l - before else l - before + shift).

(** * Calendar facts *)

Lemma DayFromYear_succ y : DayFromYear (y + 1) = DayFromYear y + year_days y.
Proof.
  unfold DayFromYear, year_days, leap. destruct (Z.eqb_spec (y mod 4) 0), (Z.eqb_spec (y mod 100) 0),
    (Z.eqb_spec (y mod 400) 0); cbn [andb orb negb]; Z.to_euclidean_division_equations; lia.
Qed.

Lemma year_days_range y : 365 <= year_days y <= 366.
Proof. unfold year_days. destruct (leap y); lia. Qed.

Lemma DayFromYear_mono y1 y2 : y1 <= y2 -> DayFromYear y1 <= DayFromYear y2.
Proof.
  intros H. replace y2 with (y1 + (y2 - y1)) by lia. assert (Hk : 0 <= y2 - y1) by lia.
  revert Hk. generalize (y2 - y1). apply natlike_ind; [by rewrite Z.add_0_r|].
  intros k _ IH. replace (y1 + Z.succ k) with (y1 + k + 1) by lia. rewrite DayFromYear_succ.
  pose proof (year_days_range (y1 + k)). lia.
Qed.

Lemma YearFromDay_spec d : DayFromYear (YearFromDay d) <= d < DayFromYear (YearFromDay d + 1).
Proof.
  unfold YearFromDay. set (y := 1970 + d * 400 / 146097).
  assert (Hlo : DayFromYear (y - 1) <= d) by (unfold y, DayFromYear; Z.to_euclidean_division_equations; lia).
  assert (Hhi : d < DayFromYear (y + 2)) by (unfold y, DayFromYear; Z.to_euclidean_division_equations; lia).
  destruct (Z.ltb_spec d (DayFromYear y)); [replace (y - 1 + 1) with y by lia; lia|].
  destruct (Z.leb_spec (DayFromYear (y + 1)) d); [|lia]. replace (y + 1 + 1) with (y + 2) by lia. lia.
Qed.

Lemma YearFromDay_unique d y : DayFromYear y <= d < DayFromYear (y + 1) -> YearFromDay d = y.
Proof.
  intros H. pose proof (YearFromDay_spec d) as Hs. destruct (Z.lt_trichotomy (YearFromDay d) y) as [Hl|[|Hg]]; [|done|].
  - pose proof (DayFromYear_mono (YearFromDay d + 1) y). lia.
  - pose proof (DayFromYear_mono (y + 1) (YearFromDay d)). lia.
Qed.

Lemma day_in_year d : 0 <= d - DayFromYear (YearFromDay d) < year_days (YearFromDay d).
Proof. pose proof (YearFromDay_spec d). pose proof (DayFromYear_succ (YearFromDay d)). lia. Qed.

Ltac by_ltb := match goal with |- context [?a <? ?b] => destruct (Z.ltb_spec a b) end.

Ltac eval_months :=
  repeat match goal with |- context [month_start ?b ?m] =>
    let v := eval vm_compute in (month_start b m) in change (month_start b m) with v end.

Lemma month_of_spec (lp : bool) yd m :
  0 <= yd < (if lp then 366 else 365) -> month_of lp yd = m ->
  0 <= m <= 11 /\ month_start lp m <= yd < month_start lp (m + 1).
Proof.
  intros Hy. unfold month_of. repeat (by_ltb; [intros <-; destruct lp; eval_months; lia|]).
  intros <-. destruct lp; eval_months; lia.
Qed.

Ltac by_month m :=
  let Hc := fresh in
  assert (Hc : m = 0 \/ m = 1 \/ m = 2 \/ m = 3 \/ m = 4 \/ m = 5 \/ m = 6 \/ m = 7 \/ m = 8 \/ m = 9 \/
    m = 10 \/ m = 11) by lia;
  repeat destruct Hc as [->|Hc]; try subst m.

Lemma month_of_unique lp yd m :
  0 <= m <= 11 -> month_start lp m <= yd < month_start lp (m + 1) -> month_of lp yd = m.
Proof.
  intros Hm. by_month m; unfold month_of; destruct lp; eval_months; intros H;
    repeat (by_ltb; [lia|]); lia.
Qed.

Lemma month_start_year (lp : bool) m : 11 < m -> month_start lp m = if lp then 366 else 365.
Proof.
  intros Hm. unfold month_start. destruct (Z.leb_spec m 0); [lia|].
  repeat match goal with |- context [?a =? ?b] => destruct (Z.eqb_spec a b); [lia|] end. destruct lp; lia.
Qed.

Lemma month_start_nonneg lp m : 0 <= month_start lp m.
Proof. unfold month_start. destruct lp; repeat case_match; lia. Qed.

Lemma MonthFromDay_range d : 0 <= MonthFromDay d <= 11.
Proof.
  unfold MonthFromDay. pose proof (day_in_year d) as H. unfold year_days in H.
  by apply (month_of_spec _ _ _ H eq_refl).
Qed.

(** A day's month, as an interval of days. *)
Lemma month_interval d : MakeDay (YearFromDay d) (MonthFromDay d) 1 <= d < MakeDay (YearFromDay d) (MonthFromDay d + 1) 1.
Proof.
  pose proof (day_in_year d) as H. unfold year_days in H.
  destruct (month_of_spec _ _ _ H eq_refl) as [Hm Hr]. fold (MonthFromDay d) in Hm, Hr.
  unfold MakeDay. cbv zeta. fold (MonthFromDay d). rewrite (Z.div_small (MonthFromDay d)), (Z.mod_small (MonthFromDay d)) by lia.
  rewrite Z.add_0_r. split; [lia|].
  destruct (decide (MonthFromDay d = 11)) as [E|Hne].
  - rewrite E in Hr |- *. change ((11 + 1) / 12) with 1. change ((11 + 1) mod 12) with 0.
    rewrite DayFromYear_succ. unfold year_days. rewrite (month_start_year _ (11 + 1)) in Hr by lia. cbn. lia.
  - rewrite Z.div_small, Z.mod_small by lia. rewrite Z.add_0_r. lia.
Qed.

Lemma month_constant d x :
  d <= x < MakeDay (YearFromDay d) (MonthFromDay d + 1) 1 -> MonthFromDay x = MonthFromDay d.
Proof.
  intros Hx. pose proof (month_interval d) as Hd. pose proof (MonthFromDay_range d) as Hm.
  unfold MakeDay in Hx, Hd. cbv zeta in Hx, Hd. set (y := YearFromDay d) in *. set (m := MonthFromDay d) in *.
  rewrite (Z.div_small m), (Z.mod_small m), Z.add_0_r in Hd by lia.
  assert (Hb : DayFromYear (y + (m + 1) / 12) + month_start (leap (y + (m + 1) / 12)) ((m + 1) mod 12) =
    DayFromYear y + month_start (leap y) (m + 1)).
  { destruct (decide (m = 11)) as [->|Hne].
    - change ((11 + 1) / 12) with 1. change ((11 + 1) mod 12) with 0. rewrite DayFromYear_succ. unfold year_days.
      rewrite (month_start_year _ (11 + 1)) by lia. cbn. lia.
    - rewrite Z.div_small, Z.mod_small, Z.add_0_r by lia. done. }
  assert (Hend : month_start (leap y) (m + 1) <= year_days y).
  { unfold year_days. clearbody m. clear -Hm. by_month m; destruct (leap y); eval_months; lia. }
  pose proof (month_start_nonneg (leap y) m) as H0.
  assert (Hyx : YearFromDay x = y).
  { apply YearFromDay_unique. rewrite DayFromYear_succ. lia. }
  unfold MonthFromDay at 1. rewrite Hyx. apply month_of_unique; lia.
Qed.

Lemma MakeDay_shift d k : MakeDay (YearFromDay d) (MonthFromDay d) (DateFromDay d + k) = d + k.
Proof.
  pose proof (MonthFromDay_range d). unfold MakeDay, DateFromDay. cbv zeta.
  rewrite Z.div_small, Z.mod_small, Z.add_0_r by lia. lia.
Qed.

Lemma MakeDay_first d : MakeDay (YearFromDay d) (MonthFromDay d) 1 = d - DateFromDay d + 1.
Proof. pose proof (MakeDay_shift d (1 - DateFromDay d)) as H. replace (DateFromDay d + _) with 1 in H by lia. lia. Qed.

Lemma DateFromDay_range d : 1 <= DateFromDay d <= 31.
Proof.
  pose proof (month_interval d) as H. rewrite MakeDay_first in H. split; [lia|].
  pose proof (MonthFromDay_range d) as Hm. pose proof (MakeDay_first d) as Hf.
  unfold DateFromDay, MonthFromDay in *. cbv zeta in *. pose proof (day_in_year d) as Hy. unfold year_days in Hy.
  destruct (month_of_spec _ _ _ Hy eq_refl) as [_ Hr]. set (m := month_of _ _) in *. clearbody m.
  assert (Hl : month_start (leap (YearFromDay d)) (m + 1) - month_start (leap (YearFromDay d)) m <= 31).
  { clear -Hm. by_month m; destruct (leap (YearFromDay d)); eval_months; lia. }
  lia.
Qed.

Lemma WeekDay_range d : 0 <= WeekDay d <= 6.
Proof. unfold WeekDay. pose proof (Z.mod_pos_bound (d + 4) 7). lia. Qed.

(** First of the month: same year and month. *)
Lemma first_of_month d :
  let f := MakeDay (YearFromDay d) (MonthFromDay d) 1 in
  YearFromDay f = YearFromDay d /\ MonthFromDay f = MonthFromDay d /\ DateFromDay f = 1.
Proof.
  intros f. pose proof (month_interval d) as Hd. pose proof (MonthFromDay_range d) as Hm.
  pose proof (day_in_year d) as Hy. unfold year_days in Hy. destruct (month_of_spec _ _ _ Hy eq_refl) as [_ Hr].
  fold (MonthFromDay d) in Hr.
  assert (Hf : f = DayFromYear (YearFromDay d) + month_start (leap (YearFromDay d)) (MonthFromDay d)).
  { unfold f, MakeDay. cbv zeta. rewrite Z.div_small, Z.mod_small, Z.add_0_r by lia. lia. }
  pose proof (month_start_nonneg (leap (YearFromDay d)) (MonthFromDay d)) as H0.
  assert (Hyf : YearFromDay f = YearFromDay d).
  { apply YearFromDay_unique. pose proof (YearFromDay_spec d). lia. }
  assert (Hmf : MonthFromDay f = MonthFromDay d).
  { unfold MonthFromDay at 1. rewrite Hyf. apply month_of_unique; lia. }
  split_and!; [done..|]. unfold DateFromDay. rewrite Hyf, Hmf. lia.
Qed.
