(* ===== verification/CronExpr.v ===== *)
(** Cron expressions ([packages/agent-core/src/tools/cron/cron-expr.ts]): parsing of
    the five fields, the search for the next run in local time, and the readable
    summary. The sets of a parsed expression are lists in insertion order, as the
    language's [Set] keeps them. *)

From S2P Require Import Prelude JsMap JsonText JsString JsDate.
From stdpp Require Import sorting.
#[local] Open Scope Z_scope.

(** * Data *)

Record cron_expr := CronExpr {
  raw : jsstr;
  minutes : list Z;
  hours : list Z;
  daysOfMonth : list Z;
  months : list Z;
  daysOfWeek : list Z;
  daysOfMonthWildcard : bool;
  daysOfWeekWildcard : bool;
}.

Inductive cron_field := FMinute | FHour | FDayOfMonth | FMonth | FDayOfWeek.

(** The errors thrown, by cause; their texts are left out. *)
Inductive cron_error :=
| EmptyExpression
| FieldCount (n : Z)
| EmptyField (f : cron_field)
| EmptyTerm (f : cron_field)
| MatchesNothing (f : cron_field)
| NotDigits (f : cron_field)
| StepEmpty (f : cron_field)
| StepNotPositive (f : cron_field)
| StepNeedsRange (f : cron_field)
| ValueOutOfRange (f : cron_field) (v : Z)
| RangeOutOfBounds (f : cron_field) (lo hi : Z).

Definition MINUTE_RANGE : Z * Z := (0, 59).
Definition HOUR_RANGE : Z * Z := (0, 23).
Definition DOM_RANGE : Z * Z := (1, 31).
Definition MONTH_RANGE : Z * Z := (1, 12).
Definition DOW_RANGE : Z * Z := (0, 7).

(** * Parsing *)

Definition has (s : list Z) (v : Z) : bool := bool_decide (v ∈ s).
(** [Set.add]. *)
Definition sadd (s : list Z) (v : Z) : list Z := if has s v then s else s ++ [v].

Definition STAR : jsstr := [42]%N.
Definition SLASH : N := 47.
Definition DASH : N := 45.
Definition COMMA : N := 44.

Definition isWildcard (field : jsstr) : bool := bool_decide (field = STAR).

Definition parseCronInt (s : jsstr) (f : cron_field) : result cron_error Z :=
  if all_digits s then Ok (digits_value s) else Err (NotDigits f).

(** The loop [for (let v = lo; v <= hi; v += step) out.add(v)]. *)
Fixpoint add_steps (fuel : nat) (out : list Z) (v hi step : Z) : list Z :=
  match fuel with
  | O => out
  | S fuel' => if v <=? hi then add_steps fuel' (sadd out v) (v + step) hi step else out
  end.

Definition add_range (out : list Z) (lo hi step : Z) : list Z :=
  add_steps (Z.to_nat (hi - lo + 1)) out lo hi step.

(** The optional step: what is before the slash, and the step. *)
Definition parseStep (term : jsstr) (f : cron_field) : result cron_error (jsstr * option Z) :=
  match break_on SLASH term with
  | None => Ok (term, None)
  | Some (rangePart, stepStr) =>
      if bool_decide (stepStr = []) then Err (StepEmpty f)
      else
        let? parsedStep := parseCronInt stepStr f in
        if parsedStep <=? 0 then Err (StepNotPositive f)
        else if bool_decide (rangePart = []) then Err (StepNeedsRange f)
        else Ok (rangePart, Some parsedStep)
  end.

Definition addTerm (out : list Z) (term : jsstr) (lo_hi : Z * Z) (f : cron_field) : result cron_error (list Z) :=
  let '(min, max) := lo_hi in
  let? p := parseStep term f in
  let '(rangePart, slash) := p in
  let step := default 1 slash in
  if bool_decide (rangePart = STAR) then Ok (add_range out min max step)
  else
    match break_on DASH rangePart with
    | None =>
        let? single := parseCronInt rangePart f in
        if (single <? min) || (max <? single) then Err (ValueOutOfRange f single)
        else match slash with
             | Some _ => Ok (add_range out single max step)
             | None => Ok (sadd out single)
             end
    | Some (loStr, hiStr) =>
        let? lo := parseCronInt loStr f in
        let? hi := parseCronInt hiStr f in
        if (lo <? min) || (max <? hi) || (hi <? lo) then Err (RangeOutOfBounds f lo hi)
        else Ok (add_range out lo hi step)
    end.

Fixpoint addTerms (out : list Z) (terms : list jsstr) (lo_hi : Z * Z) (f : cron_field) : result cron_error (list Z) :=
  match terms with
  | [] => Ok out
  | term :: terms' =>
      if bool_decide (term = []) then Err (EmptyTerm f)
      else let? out' := addTerm out term lo_hi f in addTerms out' terms' lo_hi f
  end.

Definition parseField (field : jsstr) (lo_hi : Z * Z) (f : cron_field) : result cron_error (list Z) :=
  if bool_decide (field = []) then Err (EmptyField f)
  else
    let? out := addTerms [] (split_on COMMA field) lo_hi f in
    match out with
    | [] => Err (MatchesNothing f)
    | _ => Ok out
    end.

Definition fold_sunday (s : list Z) : list Z := fold_left (fun out v => sadd out (if v =? 7 then 0 else v)) s [].

Definition parseCronExpression (expr : jsstr) : result cron_error cron_expr :=
  let trimmed := trim expr in
  if bool_decide (trimmed = []) then Err EmptyExpression
  else
    match split_ws trimmed with
    | [minField; hourField; domField; monthField; dowField] =>
        let? minutes := parseField minField MINUTE_RANGE FMinute in
        let? hours := parseField hourField HOUR_RANGE FHour in
        let? daysOfMonth := parseField domField DOM_RANGE FDayOfMonth in
        let? months := parseField monthField MONTH_RANGE FMonth in
        let? dowRaw := parseField dowField DOW_RANGE FDayOfWeek in
        Ok (CronExpr trimmed minutes hours daysOfMonth months (fold_sunday dowRaw)
              (isWildcard domField) (isWildcard dowField))
    | fields => Err (FieldCount (blen fields))
    end.

(** * The next run *)

Section next_run.
Context (z : zone).

Definition dayMatches (e : cron_expr) (date : Z) : bool :=
  let domOk := has (daysOfMonth e) (getDate z date) in
  let dowOk := has (daysOfWeek e) (getDay z date) in
  if daysOfMonthWildcard e && daysOfWeekWildcard e then true
  else if daysOfMonthWildcard e then dowOk
  else if daysOfWeekWildcard e then domOk
  else domOk || dowOk.

Definition advanceMonth (date : Z) : Z :=
  let d1 := setDate z date 1 in
  let d2 := setHours4 z d1 0 0 0 0 in
  setMonth z d2 (getMonth z d2 + 1).

Definition advanceDay (date : Z) : Z :=
  let d1 := setHours4 z date 0 0 0 0 in
  setDate z d1 (getDate z d1 + 1).

Definition advanceHour (date : Z) : Z :=
  let d1 := setMinutes3 z date 0 0 0 in
  setHours z d1 (getHours z d1 + 1).

Definition advanceMinute (date : Z) : Z :=
  let d1 := setSeconds z date 0 0 in
  setMinutes z d1 (getMinutes z d1 + 1).

(** The body of the loop: a run found, or a later date to try. *)
Definition search_step (e : cron_expr) (date : Z) : Z + Z :=
  if negb (has (months e) (getMonth z date + 1)) then inl (advanceMonth date)
  else if negb (dayMatches e date) then inl (advanceDay date)
  else if negb (has (hours e) (getHours z date)) then inl (advanceHour date)
  else if negb (has (minutes e) (getMinutes z date)) then inl (advanceMinute date)
  else inr date.

(** One turn of the loop, its test included; [None] ends it without a run. *)
Definition search_turn (e : cron_expr) (deadline date : Z) : Z + option Z :=
  if date <=? deadline then
    match search_step e date with inl date' => inl date' | inr t => inr (Some t) end
  else inr None.

Definition HARD_ITERATION_CAP : positive := 10000000.

Definition nextRunWithinMinutes (e : cron_expr) (fromMs capMinutes : Z) : option Z :=
  let start := setSeconds z fromMs 0 0 in
  let date := start + msPerMinute in
  let deadlineMs := fromMs + capMinutes * msPerMinute in
  match iterate_pos HARD_ITERATION_CAP (search_turn e deadlineMs) date with
  | inr r => r
  | inl _ => None
  end.

Definition computeNextCronRun (e : cron_expr) (fromMs : Z) : option Z :=
  nextRunWithinMinutes e fromMs (5 * 366 * 24 * 60).

(** [years] is whole; the code rounds down. *)
Definition hasFireWithinYears (e : cron_expr) (years fromMs : Z) : bool :=
  match nextRunWithinMinutes e fromMs (Z.max 1 (years * 366 * 24 * 60)) with Some _ => true | None => false end.
End next_run.

(** * What a run is *)

Section spec.
Context (z : zone).

(** The day rule: a restricted day of month and a restricted day of week are
    alternatives; one of them alone constrains. *)
Definition day_ok (e : cron_expr) (t : Z) : Prop :=
  match daysOfMonthWildcard e, daysOfWeekWildcard e with
  | true, true => True
  | true, false => getDay z t ∈ daysOfWeek e
  | false, true => getDate z t ∈ daysOfMonth e
  | false, false => getDate z t ∈ daysOfMonth e \/ getDay z t ∈ daysOfWeek e
  end.

Definition fires (e : cron_expr) (t : Z) : Prop :=
  localTime z t mod msPerMinute = 0 /\
  getMonth z t + 1 ∈ months e /\ day_ok e t /\ getHours z t ∈ hours e /\ getMinutes z t ∈ minutes e.

Lemma has_spec s v : has s v = true <-> v ∈ s.
Proof. apply bool_decide_eq_true. Qed.

Lemma dayMatches_spec e t : dayMatches z e t = true <-> day_ok e t.
Proof.
  unfold dayMatches, day_ok. destruct (daysOfMonthWildcard e), (daysOfWeekWildcard e); cbn;
    rewrite ?orb_true_iff, ?has_spec; tauto.
Qed.

Lemma search_step_found e t t' : search_step z e t = inr t' -> t' = t /\
  getMonth z t + 1 ∈ months e /\ day_ok e t /\ getHours z t ∈ hours e /\ getMinutes z t ∈ minutes e.
Proof.
  unfold search_step. rewrite <- dayMatches_spec, <- !has_spec.
  destruct (has (months e) _); [|done]. destruct (dayMatches z e t); [|done].
  destruct (has (hours e) _); [|done]. destruct (has (minutes e) _); [|done]. cbn. by intros [= ->].
Qed.

(** Whatever the zone, what the search returns satisfies every field. *)
Lemma search_sound e deadline n t r :
  iterate_nat n (search_turn z e deadline) t = inr (Some r) ->
  r <= deadline /\ getMonth z r + 1 ∈ months e /\ day_ok e r /\ getHours z r ∈ hours e /\ getMinutes z r ∈ minutes e.
Proof.
  revert t. induction n as [|n IH]; intros t; cbn; [done|]. unfold search_turn at 1.
  destruct (Z.leb_spec t deadline); [|done]. destruct (search_step z e t) as [t'|t'] eqn:E; [apply IH|].
  intros [= <-]. by apply search_step_found in E as (-> & ? & ? & ? & ?).
Qed.
End spec.

(** * A zone with one offset *)

Section fixed.
Context (o : Z).
#[local] Abbreviation z := (fixed_zone o).

Lemma setSeconds_fixed t : setSeconds z t 0 0 = t - (t + o) mod msPerMinute.
Proof.
  unfold setSeconds, MakeDate, MakeTime, Day, HourFromTime, MinFromTime, msPerDay, msPerHour, msPerMinute. cbn.
  Z.to_euclidean_division_equations; lia.
Qed.

Lemma advanceMinute_fixed t : advanceMinute z t = t - (t + o) mod msPerMinute + msPerMinute.
Proof.
  unfold advanceMinute. rewrite setSeconds_fixed. set (t0 := t - _). cbv zeta.
  assert (H0 : (t0 + o) mod msPerMinute = 0) by (unfold t0, msPerMinute; Z.to_euclidean_division_equations; lia).
  clearbody t0. unfold setMinutes, getMinutes, MakeDate, MakeTime, Day, HourFromTime, MinFromTime, SecFromTime, msFromTime,
    msPerDay, msPerHour, msPerMinute in *. cbn.
  Z.to_euclidean_division_equations; lia.
Qed.

Lemma advanceHour_fixed t : advanceHour z t = t - (t + o) mod msPerHour + msPerHour.
Proof.
  unfold advanceHour. assert (E : setMinutes3 z t 0 0 0 = t - (t + o) mod msPerHour).
  { unfold setMinutes3, MakeDate, MakeTime, Day, HourFromTime, msPerDay, msPerHour, msPerMinute. cbn.
    Z.to_euclidean_division_equations; lia. }
  rewrite E. clear E. set (t0 := t - _). cbv zeta.
  assert (H0 : (t0 + o) mod msPerHour = 0) by (unfold t0, msPerHour; Z.to_euclidean_division_equations; lia).
  clearbody t0. unfold setHours, getHours, MakeDate, MakeTime, Day, HourFromTime, MinFromTime, SecFromTime, msFromTime,
    msPerDay, msPerHour, msPerMinute in *. cbn.
  Z.to_euclidean_division_equations; lia.
Qed.

Lemma setHours4_fixed t : setHours4 z t 0 0 0 0 = Day (t + o) * msPerDay - o.
Proof. unfold setHours4, MakeDate, MakeTime. cbn. unfold msPerDay. lia. Qed.

Lemma Day_midnight d : Day (d * msPerDay - o + o) = d.
Proof. replace (d * msPerDay - o + o) with (d * msPerDay) by lia. unfold Day, msPerDay. by rewrite Z.div_mul. Qed.

Lemma mod_midnight d : (d * msPerDay - o + o) mod msPerDay = 0.
Proof. replace (d * msPerDay - o + o) with (d * msPerDay) by lia. unfold msPerDay. by rewrite Z.mod_mul. Qed.

Lemma advanceDay_fixed t : advanceDay z t = (Day (t + o) + 1) * msPerDay - o.
Proof.
  unfold advanceDay. rewrite setHours4_fixed. cbv zeta. unfold setDate, getDate. cbn.
  rewrite Day_midnight, mod_midnight, MakeDay_shift. unfold MakeDate. lia.
Qed.

Lemma advanceMonth_fixed t :
  let d := Day (t + o) in advanceMonth z t = MakeDay (YearFromDay d) (MonthFromDay d + 1) 1 * msPerDay - o.
Proof.
  intros d. unfold advanceMonth. cbv zeta.
  set (f := MakeDay (YearFromDay d) (MonthFromDay d) 1). destruct (first_of_month d) as (Hy & Hm & Hd).
  fold f in Hy, Hm, Hd.
  assert (E1 : setDate z t 1 = MakeDate f ((t + o) mod msPerDay) - o) by done.
  assert (Hf : Day (MakeDate f ((t + o) mod msPerDay) - o + o) = f).
  { unfold Day, MakeDate, msPerDay. Z.to_euclidean_division_equations; lia. }
  rewrite E1, setHours4_fixed, Hf. unfold setMonth, getMonth. cbn [localTime utc fixed_zone].
  rewrite Day_midnight, mod_midnight, Hy, Hm, Hd. unfold MakeDate. lia.
Qed.

(** What a step skips: the rest of the month, day, hour or minute, in which the
    field that failed keeps its value. *)
Definition skips (e : cron_expr) (t t' : Z) : Prop :=
  (t' + o) mod msPerMinute = 0 /\ t + msPerMinute <= t' /\ forall x, t <= x < t' -> ~ fires z e x.

Lemma day_bounds t : Day (t + o) * msPerDay <= t + o < Day (t + o) * msPerDay + msPerDay.
Proof. unfold Day, msPerDay. Z.to_euclidean_division_equations; lia. Qed.

Lemma day_of_interval t a b : a * msPerDay <= t + o < b * msPerDay -> a <= Day (t + o) < b.
Proof. unfold Day, msPerDay. intros H. Z.to_euclidean_division_equations; lia. Qed.

Lemma skip_month e t :
  (t + o) mod msPerMinute = 0 -> has (months e) (getMonth z t + 1) = false -> skips e t (advanceMonth z t).
Proof.
  intros Ha Em. rewrite advanceMonth_fixed. cbv zeta. pose proof (day_bounds t) as Ht.
  unfold getMonth in Em. cbn in Em. set (d := Day (t + o)) in *. pose proof (month_interval d) as Hd.
  split_and!; [unfold msPerDay, msPerMinute in *; Z.to_euclidean_division_equations; lia..|].
  intros x Hx (_ & Hm & _). rewrite <- has_spec in Hm. unfold getMonth in Hm. cbn in Hm.
  rewrite (month_constant d (Day (x + o))) in Hm; [congruence|]. apply day_of_interval. lia.
Qed.

Lemma skip_day e t :
  (t + o) mod msPerMinute = 0 -> dayMatches z e t = false -> skips e t (advanceDay z t).
Proof.
  intros Ha Em. rewrite advanceDay_fixed. pose proof (day_bounds t) as Ht.
  split_and!; [unfold msPerDay, msPerMinute in *; Z.to_euclidean_division_equations; lia..|].
  intros x Hx (_ & _ & Hd & _). apply dayMatches_spec in Hd.
  assert (E : Day (x + o) = Day (t + o)).
  { pose proof (day_of_interval x (Day (t + o)) (Day (t + o) + 1)). lia. }
  unfold dayMatches, getDate, getDay in Hd, Em. cbn in Hd, Em. rewrite E in Hd. congruence.
Qed.

Lemma skip_hour e t :
  (t + o) mod msPerMinute = 0 -> has (hours e) (getHours z t) = false -> skips e t (advanceHour z t).
Proof.
  intros Ha Em. rewrite advanceHour_fixed.
  split_and!; [unfold msPerHour, msPerMinute in *; Z.to_euclidean_division_equations; lia..|].
  intros x Hx (_ & _ & _ & Hh & _). rewrite <- has_spec in Hh.
  assert (E : getHours z x = getHours z t).
  { unfold getHours, HourFromTime, msPerHour, msPerDay in *. cbn. Z.to_euclidean_division_equations; lia. }
  congruence.
Qed.

Lemma skip_minute e t :
  (t + o) mod msPerMinute = 0 -> has (minutes e) (getMinutes z t) = false -> skips e t (advanceMinute z t).
Proof.
  intros Ha Em. rewrite advanceMinute_fixed.
  split_and!; [unfold msPerMinute in *; Z.to_euclidean_division_equations; lia..|].
  intros x Hx (_ & _ & _ & _ & Hh). rewrite <- has_spec in Hh.
  assert (E : getMinutes z x = getMinutes z t).
  { unfold getMinutes, MinFromTime, msPerHour, msPerMinute in *. cbn. Z.to_euclidean_division_equations; lia. }
  congruence.
Qed.

Lemma search_step_skips e t t' :
  (t + o) mod msPerMinute = 0 -> search_step z e t = inl t' -> skips e t t'.
Proof.
  intros Ha. unfold search_step. destruct (has (months e) _) eqn:Em; cbn [negb].
  2:{ intros <-%(inj inl). by apply skip_month. }
  destruct (dayMatches z e t) eqn:Ed; cbn [negb]; [|intros <-%(inj inl); by apply skip_day].
  destruct (has (hours e) _) eqn:Eh; cbn [negb]; [|intros <-%(inj inl); by apply skip_hour].
  destruct (has (minutes e) _) eqn:Emi; cbn [negb]; [done|intros <-%(inj inl); by apply skip_minute].
Qed.

(** The search within [n] turns: no result yet only while the deadline is far. *)
Lemma run_search_spec e deadline n t :
  (t + o) mod msPerMinute = 0 ->
  match iterate_nat n (search_turn z e deadline) t with
  | inr (Some r) => t <= r <= deadline /\ fires z e r /\ forall x, t <= x < r -> ~ fires z e x
  | inr None => forall x, t <= x <= deadline -> ~ fires z e x
  | inl _ => n = 0%nat \/ (Z.of_nat n - 1) * msPerMinute <= deadline - t
  end.
Proof.
  revert t. induction n as [|n IH]; intros t Ha; cbn [iterate_nat]; unfold msPerMinute in *.
  { by left. }
  unfold search_turn at 1. destruct (Z.leb_spec t deadline) as [Hle|Hgt]; [|lia].
  destruct (search_step z e t) as [t'|t'] eqn:E.
  - destruct (search_step_skips e t t' Ha E) as (Ha' & Hlt & Hs). unfold msPerMinute in *. specialize (IH t' Ha').
    destruct (iterate_nat n _ t') as [d|[r|]].
    + right. lia.
    + destruct IH as (H1 & H2 & H3). split_and!; [lia..|done|]. intros x Hx. destruct (decide (x < t')); [apply Hs; lia|apply H3; lia].
    + intros x Hx. destruct (decide (x < t')); [apply Hs; lia|apply IH; lia].
  - apply search_step_found in E as (-> & ? & ? & ? & ?). split_and!; [lia..|done|lia].
Qed.

Lemma search_ends e deadline n t :
  (t + o) mod msPerMinute = 0 -> deadline - t < Z.of_nat n * msPerMinute ->
  exists r, iterate_nat (S n) (search_turn z e deadline) t = inr r.
Proof.
  intros Ha Hn. pose proof (run_search_spec e deadline (S n) t Ha) as H.
  destruct (iterate_nat (S n) (search_turn z e deadline) t) as [t'|r]; [|eauto].
  unfold msPerMinute in *. destruct H as [?|H]; [done|lia].
Qed.

Lemma first_candidate from :
  let t := setSeconds z from 0 0 + msPerMinute in
  (t + o) mod msPerMinute = 0 /\ from < t <= from + msPerMinute /\
  forall x, (x + o) mod msPerMinute = 0 -> from < x -> t <= x.
Proof.
  cbv zeta. rewrite setSeconds_fixed. unfold msPerMinute.
  split_and!; [Z.to_euclidean_division_equations; lia..|]. intros x Hx Hlt. Z.to_euclidean_division_equations; lia.
Qed.

Lemma next_run_search e fromMs capMinutes :
  0 <= capMinutes < Z.pos HARD_ITERATION_CAP ->
  forall n, (Z.to_nat capMinutes + 1 <= n)%nat ->
    iterate_nat n (search_turn z e (fromMs + capMinutes * msPerMinute)) (setSeconds z fromMs 0 0 + msPerMinute) =
    inr (nextRunWithinMinutes z e fromMs capMinutes).
Proof.
  intros Hcap. destruct (first_candidate fromMs) as (Ha & Hlt & _).
  destruct (search_ends e (fromMs + capMinutes * msPerMinute) (Z.to_nat capMinutes) _ Ha) as [r Hr].
  { unfold msPerMinute in *. lia. }
  assert (Hall : forall n, (Z.to_nat capMinutes + 1 <= n)%nat ->
    iterate_nat n (search_turn z e (fromMs + capMinutes * msPerMinute)) (setSeconds z fromMs 0 0 + msPerMinute) = inr r).
  { intros n Hn. replace n with (S (Z.to_nat capMinutes) + (n - S (Z.to_nat capMinutes)))%nat by lia.
    by rewrite iterate_nat_add, Hr. }
  intros n Hn. rewrite Hall by done. unfold nextRunWithinMinutes. rewrite iterate_pos_nat, Hall; [done|lia].
Qed.

(** The search ends on its own: it reaches a run or its deadline within as many
    turns as the window has minutes, plus one, whatever the sets of the expression
    are. The iteration cap never decides the result: every larger bound gives the
    same. *)
Theorem cron_search_terminates e fromMs capMinutes n :
  0 <= capMinutes < Z.pos HARD_ITERATION_CAP -> (Z.to_nat capMinutes + 1 <= n)%nat ->
  iterate_nat n (search_turn z e (fromMs + capMinutes * msPerMinute)) (setSeconds z fromMs 0 0 + msPerMinute) =
  inr (nextRunWithinMinutes z e fromMs capMinutes).
Proof. intros Hcap. by apply next_run_search. Qed.

Lemma next_run_spec e fromMs capMinutes :
  0 <= capMinutes < Z.pos HARD_ITERATION_CAP ->
  match nextRunWithinMinutes z e fromMs capMinutes with
  | Some t => fromMs < t <= fromMs + capMinutes * msPerMinute /\ fires z e t /\
              forall x, fromMs < x < t -> ~ fires z e x
  | None => forall x, fromMs < x <= fromMs + capMinutes * msPerMinute -> ~ fires z e x
  end.
Proof.
  intros Hcap. destruct (first_candidate fromMs) as (Ha & Hlt & Hfirst).
  pose proof (run_search_spec e (fromMs + capMinutes * msPerMinute) (Z.to_nat capMinutes + 1) _ Ha) as H.
  rewrite next_run_search in H by (done || lia).
  assert (Hskip : forall x, fromMs < x < setSeconds z fromMs 0 0 + msPerMinute -> ~ fires z e x).
  { intros x Hx [Hx0 _]. cbn in Hx0. specialize (Hfirst x Hx0). lia. }
  destruct (nextRunWithinMinutes z e fromMs capMinutes) as [t|].
  - destruct H as (H1 & H2 & H3). split_and!; [lia..|done|]. intros x Hx.
    destruct (decide (x < setSeconds z fromMs 0 0 + msPerMinute)); [apply Hskip|apply H3]; lia.
  - intros x Hx. destruct (decide (x < setSeconds z fromMs 0 0 + msPerMinute)); [apply Hskip|apply H]; lia.
Qed.

Lemma compute_spec e fromMs :
  match computeNextCronRun z e fromMs with
  | Some t => fromMs < t <= fromMs + 1830 * msPerDay /\ fires z e t /\
              forall x, fromMs < x < t -> ~ fires z e x
  | None => forall x, fromMs < x <= fromMs + 1830 * msPerDay -> ~ fires z e x
  end.
Proof.
  pose proof (next_run_spec e fromMs (5 * 366 * 24 * 60) ltac:(done)) as H.
  replace (1830 * msPerDay) with (5 * 366 * 24 * 60 * msPerMinute) by done. exact H.
Qed.

(** In a zone with one offset the next run is exact: the result is the first
    instant on a whole minute of local time, strictly after [fromMs] and within the
    window of 5 years of 366 days, at which month, day, hour and minute all match,
    with the either-or rule for two restricted day fields; no result means that the
    window has none. *)
Theorem next_run_exact e fromMs :
  match computeNextCronRun z e fromMs with
  | Some t => fromMs < t <= fromMs + 1830 * msPerDay /\ fires z e t /\
              forall x, fromMs < x < t -> ~ fires z e x
  | None => forall x, fromMs < x <= fromMs + 1830 * msPerDay -> ~ fires z e x
  end.
Proof. apply compute_spec. Qed.
End fixed.

(** * The grammar *)

(** A term of a field: [*], a value or a range of digit strings, with an optional
    step. *)
Inductive base := BStar | BValue (v : jsstr) | BRange (a b : jsstr).
Record term := Term { t_base : base; t_step : option jsstr }.

Definition print_base (b : base) : jsstr :=
  match b with BStar => STAR | BValue v => v | BRange a b => a ++ DASH :: b end.
Definition print_term (t : term) : jsstr :=
  print_base (t_base t) ++ match t_step t with Some s => SLASH :: s | None => [] end.
Definition print_field (ts : list term) : jsstr := join_with [COMMA] (print_term <$> ts).

Definition base_ok (lo hi : Z) (b : base) : Prop :=
  match b with
  | BStar => True
  | BValue v => all_digits v = true /\ lo <= digits_value v <= hi
  | BRange a b => all_digits a = true /\ all_digits b = true /\
                  lo <= digits_value a /\ digits_value a <= digits_value b /\ digits_value b <= hi
  end.
Definition term_ok (lo hi : Z) (t : term) : Prop :=
  base_ok lo hi (t_base t) /\
  match t_step t with Some s => all_digits s = true /\ 0 < digits_value s | None => True end.

(** The values a term stands for; a single value with a step runs to the end of the
    field's range. *)
Definition denotes (lo hi : Z) (t : term) (v : Z) : Prop :=
  let step := match t_step t with Some s => digits_value s | None => 1 end in
  let from_to a b := a <= v <= b /\ (v - a) mod step = 0 in
  match t_base t, t_step t with
  | BStar, _ => from_to lo hi
  | BValue a, None => v = digits_value a
  | BValue a, Some _ => from_to (digits_value a) hi
  | BRange a b, _ => from_to (digits_value a) (digits_value b)
  end.

(** ** Sets *)

Lemma sadd_elem s v x : x ∈ sadd s v <-> x ∈ s \/ x = v.
Proof.
  unfold sadd, has. case_bool_decide as E; [|set_solver]. split; [by left|]. by intros [? | ->].
Qed.

Lemma sadd_nodup s v : NoDup s -> NoDup (sadd s v).
Proof. unfold sadd, has. case_bool_decide as E; [done|]. intros H. apply NoDup_app. repeat split; [done| |]; [set_solver|by apply NoDup_singleton]. Qed.

Lemma add_steps_elem fuel : forall out v hi step x,
  0 < step -> (Z.to_nat (hi - v + 1) <= fuel)%nat ->
  x ∈ add_steps fuel out v hi step <-> x ∈ out \/ (v <= x <= hi /\ (x - v) mod step = 0).
Proof.
  induction fuel as [|fuel IH]; intros out v hi step x Hs Hf; cbn [add_steps].
  - split; [by left|]. intros [?|[? _]]; [done|lia].
  - destruct (Z.leb_spec v hi) as [Hle|Hgt]; [|split; [by left|intros [?|[? _]]; [done|lia]]].
    rewrite IH by lia. rewrite sadd_elem. split.
    + intros [[? | ->]|[H1 H2]]; [by left|right; split; [lia|by rewrite Z.sub_diag]|].
      right. split; [lia|]. rewrite <- H2. replace (x - v) with (x - (v + step) + 1 * step) by lia.
      by rewrite Z.mod_add by lia.
    + intros [?|[H1 H2]]; [by left; left|]. destruct (decide (x = v)) as [->|Hne]; [by left; right|]. right.
      assert (Hd : (step | x - v)) by by apply Z.mod_divide; [lia|]. destruct Hd as [q Hq].
      assert (0 < q) by nia. split; [nia|]. replace (x - (v + step)) with ((q - 1) * step) by lia.
      by apply Z.mod_mul; lia.
Qed.

Lemma add_steps_nodup fuel : forall out v hi step, NoDup out -> NoDup (add_steps fuel out v hi step).
Proof.
  induction fuel as [|fuel IH]; intros out v hi step H; cbn [add_steps]; [done|].
  destruct (v <=? hi); [|done]. by apply IH, sadd_nodup.
Qed.

(** ** One term *)

Lemma base_free_slash lo hi b : base_ok lo hi b -> free SLASH (print_base b).
Proof.
  destruct b as [|v|a b]; cbn.
  - intros _. by repeat constructor.
  - intros [H _]. by apply digits_free.
  - intros (Ha & Hb & _). apply Forall_app. split; [by apply digits_free|]. constructor; [done|by apply digits_free].
Qed.

Lemma print_base_nonempty lo hi b : base_ok lo hi b -> print_base b <> [].
Proof.
  destruct b as [|v|a b]; cbn; [done| |]; [intros [H _]; by apply all_digits_spec in H as [H _]|].
  intros _ E. by destruct a.
Qed.

Lemma parseStep_print lo hi t f :
  term_ok lo hi t -> parseStep (print_term t) f = Ok (print_base (t_base t), digits_value <$> t_step t).
Proof.
  intros [Hb Hs]. unfold parseStep, print_term. destruct (t_step t) as [s|].
  - rewrite break_on_app by by eapply base_free_slash. destruct Hs as [Hs Hv].
    rewrite bool_decide_eq_false_2 by by apply all_digits_spec in Hs as [? _].
    unfold parseCronInt. rewrite Hs. cbn. destruct (Z.leb_spec (digits_value s) 0); [lia|].
    by rewrite bool_decide_eq_false_2 by by eapply print_base_nonempty.
  - rewrite app_nil_r. by rewrite (proj2 (break_on_None _ _)) by by eapply base_free_slash.
Qed.

Lemma parseStep_inv s f r st :
  parseStep s f = Ok (r, st) ->
  exists step, s = r ++ match step with Some x => SLASH :: x | None => [] end /\ st = digits_value <$> step /\
    free SLASH r /\ match step with Some x => all_digits x = true /\ 0 < digits_value x | None => True end.
Proof.
  unfold parseStep. destruct (break_on SLASH s) as [[a b]|] eqn:E.
  - apply break_on_Some in E as [-> Hf]. case_bool_decide; [done|]. unfold parseCronInt.
    destruct (all_digits b) eqn:Hb; [|done]. cbn. destruct (Z.leb_spec (digits_value b) 0); [done|].
    case_bool_decide; [done|]. intros [= <- <-]. by exists (Some b).
  - apply break_on_None in E. intros [= <- <-]. exists None. by rewrite app_nil_r.
Qed.

Lemma digits_not_star s : all_digits s = true -> s <> STAR.
Proof. by intros H ->. Qed.

(** A term is accepted exactly when it is the text of a correct term, and adds its
    values. *)
Lemma addTerm_print out lo hi t f :
  lo <= hi -> term_ok lo hi t -> NoDup out ->
  exists out', addTerm out (print_term t) (lo, hi) f = Ok out' /\ NoDup out' /\
    forall v, v ∈ out' <-> v ∈ out \/ denotes lo hi t v.
Proof.
  intros Hlh Ht Hn. unfold addTerm. rewrite (parseStep_print lo hi) by done. cbn [rbind].
  destruct Ht as [Hb Hs]. destruct t as [b st]. cbn [t_base t_step] in *.
  assert (Hstep : 0 < default 1 (digits_value <$> st)) by (destruct st; cbn; lia).
  assert (Hd : match st with Some s => digits_value s | None => 1 end = default 1 (digits_value <$> st)) by by destruct st.
  assert (Hadd : forall a b, exists out', Ok (E := cron_error) (add_range out a b (default 1 (digits_value <$> st))) = Ok out' /\
    NoDup out' /\ forall v, v ∈ out' <-> v ∈ out \/ (a <= v <= b /\ (v - a) mod (default 1 (digits_value <$> st)) = 0)).
  { intros a c. eexists. split; [done|]. split; [by apply add_steps_nodup|]. intros v. by apply add_steps_elem. }
  unfold denotes. cbn [t_base t_step]. cbv zeta. rewrite Hd. destruct b as [|v|a b]; cbn [print_base].
  - rewrite bool_decide_eq_true_2 by done. apply Hadd.
  - destruct Hb as [Hv Hr]. rewrite bool_decide_eq_false_2 by by apply digits_not_star.
    rewrite (proj2 (break_on_None DASH v)) by by apply digits_free. unfold parseCronInt. rewrite Hv. cbn [rbind].
    destruct (Z.ltb_spec (digits_value v) lo); [lia|]. destruct (Z.ltb_spec hi (digits_value v)); [lia|]. cbn [orb].
    destruct st as [s|]; cbn [fmap option_fmap option_map]; [apply Hadd|].
    eexists. split; [done|]. split; [by apply sadd_nodup|]. intros x. apply sadd_elem.
  - destruct Hb as (Ha & Hb & H1 & H2 & H3). rewrite bool_decide_eq_false_2.
    2:{ intros E. destruct a as [|c a]; [done|]. destruct a; [|done]. unfold STAR in E. by destruct b. }
    rewrite break_on_app by by apply digits_free. unfold parseCronInt. rewrite Ha, Hb. cbn [rbind].
    destruct (Z.ltb_spec (digits_value a) lo); [lia|]. destruct (Z.ltb_spec hi (digits_value b)); [lia|].
    destruct (Z.ltb_spec (digits_value b) (digits_value a)); [lia|]. apply Hadd.
Qed.

Lemma addTerm_inv out s lo hi f out' :
  addTerm out s (lo, hi) f = Ok out' -> exists t, s = print_term t /\ term_ok lo hi t.
Proof.
  unfold addTerm. destruct (parseStep s f) as [[r st]|] eqn:E; [|done]. cbn [rbind].
  apply parseStep_inv in E as (step & -> & -> & Hf & Hs). unfold print_term, term_ok.
  case_bool_decide as Er; [subst r; intros _; by exists (Term BStar step)|].
  destruct (break_on DASH r) as [[a b]|] eqn:Eb.
  - apply break_on_Some in Eb as [-> Ha]. unfold parseCronInt. destruct (all_digits a) eqn:Hda; [|done].
    destruct (all_digits b) eqn:Hdb; [|done]. cbn [rbind].
    destruct (Z.ltb_spec (digits_value a) lo); [done|]. destruct (Z.ltb_spec hi (digits_value b)); [done|].
    destruct (Z.ltb_spec (digits_value b) (digits_value a)); [done|]. intros _. by exists (Term (BRange a b) step).
  - unfold parseCronInt. destruct (all_digits r) eqn:Hd; [|done]. cbn [rbind].
    destruct (Z.ltb_spec (digits_value r) lo); [done|]. destruct (Z.ltb_spec hi (digits_value r)); [done|].
    intros _. exists (Term (BValue r) step). split; [done|]. split; [|done]. cbn. split; [done|lia].
Qed.

Lemma print_term_nonempty lo hi t : term_ok lo hi t -> print_term t <> [].
Proof.
  intros [Hb _] E. unfold print_term in E. apply app_eq_nil in E as [E _]. by eapply print_base_nonempty in Hb.
Qed.

Lemma print_term_free lo hi t : term_ok lo hi t -> free COMMA (print_term t).
Proof.
  intros [Hb Hs]. unfold print_term. apply Forall_app. split.
  - destruct (t_base t) as [|v|a b]; cbn in *.
    + by repeat constructor.
    + destruct Hb as [Hb _]. by apply digits_free.
    + destruct Hb as (Ha & Hb & _). apply Forall_app. split; [by apply digits_free|].
      constructor; [done|by apply digits_free].
  - destruct (t_step t) as [s|]; [|constructor]. destruct Hs as [Hs _]. constructor; [done|by apply digits_free].
Qed.

(** ** Fields *)

Definition grammatical (lo_hi : Z * Z) (s : jsstr) (ts : list term) : Prop :=
  ts <> [] /\ s = print_field ts /\ Forall (term_ok lo_hi.1 lo_hi.2) ts.

#[local] Arguments addTerm : simpl never.

Lemma addTerms_print lo hi f ts : forall out,
  lo <= hi -> Forall (term_ok lo hi) ts -> NoDup out ->
  exists out', addTerms out (print_term <$> ts) (lo, hi) f = Ok out' /\ NoDup out' /\
    forall v, v ∈ out' <-> v ∈ out \/ Exists (fun t => denotes lo hi t v) ts.
Proof.
  induction ts as [|t ts IH]; intros out Hlh Hts Hn; cbn.
  - exists out. split_and!; [done..|]. intros v. split; [by left|]. by intros [?|?%Exists_nil].
  - apply Forall_cons in Hts as [Ht Hts]. rewrite bool_decide_eq_false_2 by by eapply print_term_nonempty.
    destruct (addTerm_print out lo hi t f Hlh Ht Hn) as (out1 & -> & Hn1 & H1). cbn [rbind].
    destruct (IH out1 Hlh Hts Hn1) as (out' & E & Hn' & H'). exists out'. split_and!; [done..|].
    intros v. rewrite H', H1, Exists_cons. tauto.
Qed.

Lemma addTerms_inv lo hi f parts : forall out out',
  addTerms out parts (lo, hi) f = Ok out' -> exists ts, parts = print_term <$> ts /\ Forall (term_ok lo hi) ts.
Proof.
  induction parts as [|p parts IH]; intros out out'; cbn; [by exists []|]. case_bool_decide; [done|].
  destruct (addTerm out p (lo, hi) f) as [out1|] eqn:E; [|done]. cbn [rbind]. intros (ts & -> & Hts)%IH.
  apply addTerm_inv in E as (t & -> & Ht). exists (t :: ts). split; [done|by constructor].
Qed.

Lemma denotes_some lo hi t : lo <= hi -> term_ok lo hi t -> exists v, denotes lo hi t v.
Proof.
  intros Hlh [Hb Hs]. unfold denotes. destruct (t_base t) as [|a|a b]; cbn in *.
  - exists lo. by rewrite Z.sub_diag.
  - exists (digits_value a). destruct (t_step t); [|done]. rewrite Z.sub_diag. split; [lia|done].
  - exists (digits_value a). rewrite Z.sub_diag. split; [lia|done].
Qed.

Lemma denotes_bounds lo hi t v : term_ok lo hi t -> denotes lo hi t v -> lo <= v <= hi.
Proof.
  intros [Hb Hs]. unfold denotes. destruct (t_base t) as [|a|a b]; cbn in *.
  - by intros [? _].
  - destruct (t_step t); [intros [? _]; lia|intros ->; lia].
  - intros [? _]. lia.
Qed.

Lemma split_grammatical lo hi s ts : grammatical (lo, hi) s ts -> split_on COMMA s = print_term <$> ts.
Proof.
  intros (Hn & -> & Hts). apply split_join; [by destruct ts|]. apply Forall_fmap.
  eapply Forall_impl; [exact Hts|]. intros t Ht. by eapply print_term_free.
Qed.

Lemma grammatical_nonempty lo hi s ts : grammatical (lo, hi) s ts -> s <> [].
Proof.
  intros (Hn & -> & Hts) E. destruct ts as [|t ts]; [done|]. apply Forall_cons in Hts as [Ht _].
  apply (print_term_nonempty _ _ _ Ht). unfold print_field in E. cbn in E. destruct ts; [done|].
  by apply app_eq_nil in E as [? _].
Qed.

Lemma parseField_print lo hi s ts f :
  lo <= hi -> grammatical (lo, hi) s ts ->
  exists out, parseField s (lo, hi) f = Ok out /\ NoDup out /\ out <> [] /\
    forall v, v ∈ out <-> Exists (fun t => denotes lo hi t v) ts.
Proof.
  intros Hlh Hg. unfold parseField. rewrite bool_decide_eq_false_2 by by eapply grammatical_nonempty.
  rewrite (split_grammatical lo hi s ts) by done. destruct Hg as (Hn & _ & Hts).
  destruct (addTerms_print lo hi f ts [] Hlh Hts) as (out & -> & Hnd & Hel); [constructor|]. cbn [rbind].
  assert (Ho : out <> []).
  { destruct ts as [|t ts]; [done|]. apply Forall_cons in Hts as [Ht _]. destruct (denotes_some lo hi t Hlh Ht) as [v Hv].
    intros ->. apply (not_elem_of_nil v), Hel. right. by left. }
  exists out. destruct out; [done|]. split_and!; [done..|]. intros v. rewrite Hel, elem_of_nil. tauto.
Qed.

Lemma parseField_inv lo hi s f out :
  parseField s (lo, hi) f = Ok out -> exists ts, grammatical (lo, hi) s ts.
Proof.
  unfold parseField. case_bool_decide; [done|]. destruct (addTerms [] _ (lo, hi) f) as [o|] eqn:E; [|done]. intros _.
  apply addTerms_inv in E as (ts & E & Hts). exists ts. split_and!.
  - intros ->. by apply (split_on_nonempty COMMA s).
  - unfold print_field. by rewrite <- E, join_split.
  - done.
Qed.

(** A field is accepted exactly when it is grammatical; its set is what its terms
    stand for. *)
Definition denoted (lo_hi : Z * Z) (ts : list term) (v : Z) : Prop :=
  Exists (fun t => denotes lo_hi.1 lo_hi.2 t v) ts.

Lemma parseField_cases lo_hi s f :
  lo_hi.1 <= lo_hi.2 ->
  match parseField s lo_hi f with
  | Ok out => exists ts, grammatical lo_hi s ts /\ NoDup out /\ out <> [] /\ forall v, v ∈ out <-> denoted lo_hi ts v
  | Err _ => ~ exists ts, grammatical lo_hi s ts
  end.
Proof.
  destruct lo_hi as [lo hi]. intros Hlh. cbn in Hlh. destruct (parseField s (lo, hi) f) as [out|] eqn:E.
  - destruct (parseField_inv _ _ _ _ _ E) as [ts Hg]. exists ts. split; [done|].
    destruct (parseField_print lo hi s ts f Hlh Hg) as (out' & E' & H). rewrite E in E'. by injection E' as <-.
  - intros [ts Hg]. destruct (parseField_print lo hi s ts f Hlh Hg) as (out' & E' & _). congruence.
Qed.

Lemma fold_sunday_spec s : NoDup (fold_sunday s) /\ forall v, v ∈ fold_sunday s <-> exists x, x ∈ s /\ v = if x =? 7 then 0 else x.
Proof.
  unfold fold_sunday. enough (H : forall s out, NoDup out ->
    NoDup (fold_left (fun out v => sadd out (if v =? 7 then 0 else v)) s out) /\
    forall v, v ∈ fold_left (fun out v => sadd out (if v =? 7 then 0 else v)) s out <->
      v ∈ out \/ exists x, x ∈ s /\ v = if x =? 7 then 0 else x).
  { destruct (H s [] ltac:(constructor)) as [H1 H2]. split; [done|]. intros v. rewrite H2, elem_of_nil. tauto. }
  clear s. induction s as [|x s IH]; intros out Hn; cbn [fold_left].
  - split; [done|]. intros v. split; [by left|]. intros [?|(x & Hx & _)]; [done|]. by apply elem_of_nil in Hx.
  - destruct (IH (sadd out (if x =? 7 then 0 else x)) (sadd_nodup _ _ Hn)) as [H1 H2]. split; [done|].
    intros v. rewrite H2, sadd_elem. setoid_rewrite elem_of_cons. naive_solver.
Qed.

(** * The readable summary *)

Definition MONTH_NAMES : list jsstr :=
  js <$> ["January"; "February"; "March"; "April"; "May"; "June"; "July"; "August"; "September"; "October";
          "November"; "December"]%string.
Definition DAY_NAMES : list jsstr :=
  js <$> ["Sunday"; "Monday"; "Tuesday"; "Wednesday"; "Thursday"; "Friday"; "Saturday"]%string.

(** [toSorted((a, b) => a - b)]. *)
Definition toSorted (s : list Z) : list Z := merge_sort Z.le s.

Definition isFullRange (s : list Z) (lo hi : Z) : bool :=
  if negb (blen s =? hi - lo + 1) then false
  else forallb (has s) ((fun i => lo + Z.of_nat i) <$> seq 0 (Z.to_nat (hi - lo + 1))).

(** The loop over the sorted values: each must be the expected one. *)
Fixpoint detect_loop (values : list Z) (expected step : Z) : option Z :=
  match values with
  | [] => Some expected
  | v :: values' => if v =? expected then detect_loop values' (expected + step) step else None
  end.

Definition detectStep (s : list Z) (lo hi : Z) : option Z :=
  match toSorted s with
  | (v0 :: v1 :: _) as values =>
      if negb (v0 =? lo) then None
      else
        let step := v1 - v0 in
        if step <=? 0 then None
        else
          expected ← detect_loop values lo step;
          if hi <? expected - step then None else Some step
  | _ => None
  end.

Definition formatDows (s : list Z) : option jsstr :=
  let values := toSorted s in
  if blen values =? 0 then None
  else if bool_decide (values = [1; 2; 3; 4; 5]) then Some (js "weekdays")
  else if bool_decide (values = [0; 6]) then Some (js "weekends")
  else Some (join_with (js ", ") ((fun v => nth (Z.to_nat v) DAY_NAMES []) <$> values)).

Definition pad (n : Z) : jsstr := if n <? 10 then [48]%N ++ string_of_int n else string_of_int n.

Definition only (s : list Z) : option Z := match s with [v] => Some v | _ => None end.

Definition summary_minutes (e : cron_expr) : option jsstr :=
  match (s ← detectStep (minutes e) 0 59; if 1 <? s then Some s else None) with
  | Some s => Some (js "every " ++ string_of_int s ++ js " minutes")
  | None =>
      if isFullRange (minutes e) 0 59 then Some (js "every minute")
      else (fun m => js "at minute " ++ string_of_int m ++ js " of every hour") <$> only (minutes e)
  end.

Definition summary_hours (e : cron_expr) : option jsstr :=
  m ← only (minutes e);
  s ← detectStep (hours e) 0 23;
  if 1 <? s then Some (js "every " ++ string_of_int s ++ js " hours at minute " ++ pad m) else None.

Definition summary_daily (e : cron_expr) : option jsstr :=
  m ← only (minutes e);
  h ← only (hours e);
  let at_time := js "at " ++ pad h ++ js ":" ++ pad m in
  if daysOfWeekWildcard e then Some (at_time ++ js " every day")
  else (fun d => at_time ++ js " on " ++ d) <$> formatDows (daysOfWeek e).

Definition summary_yearly (e : cron_expr) : option jsstr :=
  m ← only (minutes e);
  h ← only (hours e);
  d ← only (daysOfMonth e);
  mo ← only (months e);
  Some (js "at " ++ pad h ++ js ":" ++ pad m ++ js " on day " ++ string_of_int d ++ js " of " ++
        nth (Z.to_nat (mo - 1)) MONTH_NAMES (js "undefined")).

(** The first pattern that applies. *)
Definition first_of (summaries : list (bool * option jsstr)) (otherwise : jsstr) : jsstr :=
  default otherwise (head (omap (fun '(b, s) => if b : bool then s else None) summaries)).

Definition cronToHuman (e : cron_expr) : jsstr :=
  let allHour := isFullRange (hours e) 0 23 in
  let allDom := daysOfMonthWildcard e in
  let allMonth := isFullRange (months e) 1 12 in
  let allDow := daysOfWeekWildcard e in
  first_of
    [(allHour && allDom && allMonth && allDow, summary_minutes e);
     (allDom && allMonth && allDow, summary_hours e);
     (allDom && allMonth, summary_daily e);
     (negb (daysOfMonthWildcard e) && allDow, summary_yearly e)] (raw e).

(** * The parser is exact *)

Definition sunday (v : Z) : Z := if v =? 7 then 0 else v.

(** Five fields of the grammar. *)
Definition five_fields (s mi ho dm mo dw : jsstr) (tmi tho tdm tmo tdw : list term) : Prop :=
  split_ws (trim s) = [mi; ho; dm; mo; dw] /\
  grammatical MINUTE_RANGE mi tmi /\ grammatical HOUR_RANGE ho tho /\ grammatical DOM_RANGE dm tdm /\
  grammatical MONTH_RANGE mo tmo /\ grammatical DOW_RANGE dw tdw.

(** One field parsed, or the proof that it is not grammatical. *)
Ltac by_field field range name :=
  let H := fresh "H" in
  pose proof (parseField_cases range field name ltac:(done)) as H;
  destruct (parseField field range name) as [?out|];
    [destruct H as (?ts & ?Hg & ?Hn & ?He & ?Hv); cbn [rbind]
    |intros (? & ? & ? & ? & ? & ? & ? & ? & ? & ? & E & ?); injection E as <- <- <- <- <-; apply H; naive_solver].

(** The parser accepts exactly the expressions of five whitespace-separated
    fields of the cron grammar (stars, values and ranges within the field's bounds,
    positive steps, comma-separated), and the set of each field has exactly the
    values its terms stand for, 7 counting as Sunday; the either-or rule is switched
    off by a bare star only. Everything else is an error. *)
Theorem cron_parse_exact s :
  match parseCronExpression s with
  | Ok e => exists mi ho dm mo dw tmi tho tdm tmo tdw, five_fields s mi ho dm mo dw tmi tho tdm tmo tdw /\
      raw e = trim s /\
      (forall v, v ∈ minutes e <-> denoted MINUTE_RANGE tmi v) /\
      (forall v, v ∈ hours e <-> denoted HOUR_RANGE tho v) /\
      (forall v, v ∈ daysOfMonth e <-> denoted DOM_RANGE tdm v) /\
      (forall v, v ∈ months e <-> denoted MONTH_RANGE tmo v) /\
      (forall v, v ∈ daysOfWeek e <-> exists x, denoted DOW_RANGE tdw x /\ v = sunday x) /\
      (daysOfMonthWildcard e = true <-> dm = STAR) /\ (daysOfWeekWildcard e = true <-> dw = STAR)
  | Err _ => ~ exists mi ho dm mo dw tmi tho tdm tmo tdw, five_fields s mi ho dm mo dw tmi tho tdm tmo tdw
  end.
Proof.
  unfold parseCronExpression, five_fields. case_bool_decide as Et.
  { intros (mi & ho & dm & mo & dw & tmi & tho & tdm & tmo & tdw & E & _). by rewrite Et in E. }
  destruct (split_ws (trim s)) as [|mi [|ho [|dm [|mo [|dw [|]]]]]] eqn:Ef;
    try (intros (? & ? & ? & ? & ? & ? & ? & ? & ? & ? & E & _); discriminate E).
  by_field mi MINUTE_RANGE FMinute. by_field ho HOUR_RANGE FHour. by_field dm DOM_RANGE FDayOfMonth.
  by_field mo MONTH_RANGE FMonth. by_field dw DOW_RANGE FDayOfWeek.
  destruct (fold_sunday_spec out3) as [_ Hs]. do 10 eexists. split; [done|]. cbn [raw minutes hours daysOfMonth months
    daysOfWeek daysOfMonthWildcard daysOfWeekWildcard]. unfold isWildcard. rewrite !bool_decide_eq_true.
  split_and!; try done. intros v. rewrite Hs. by setoid_rewrite Hv3.
Qed.

(** What every accepted expression is. *)
Record cron_wf (e : cron_expr) : Prop := {
  wf_minutes : NoDup (minutes e) /\ minutes e <> [] /\ Forall (fun v => 0 <= v <= 59) (minutes e);
  wf_hours : NoDup (hours e) /\ hours e <> [] /\ Forall (fun v => 0 <= v <= 23) (hours e);
  wf_dom : NoDup (daysOfMonth e) /\ daysOfMonth e <> [] /\ Forall (fun v => 1 <= v <= 31) (daysOfMonth e);
  wf_months : NoDup (months e) /\ months e <> [] /\ Forall (fun v => 1 <= v <= 12) (months e);
  wf_dow : NoDup (daysOfWeek e) /\ daysOfWeek e <> [] /\ Forall (fun v => 0 <= v <= 6) (daysOfWeek e);
}.

Lemma parseField_range lo_hi s f out :
  lo_hi.1 <= lo_hi.2 -> parseField s lo_hi f = Ok out ->
  NoDup out /\ out <> [] /\ Forall (fun v => lo_hi.1 <= v <= lo_hi.2) out.
Proof.
  intros Hlh E. pose proof (parseField_cases lo_hi s f Hlh) as H. rewrite E in H.
  destruct H as (ts & (_ & _ & Hts) & Hn & Hne & Hel). split_and!; [done..|].
  apply Forall_forall. intros v [t [Hin Hd]]%Hel%Exists_exists. rewrite Forall_forall in Hts.
  by apply (denotes_bounds _ _ t v); [apply Hts|].
Qed.

(** Whatever string is parsed, an accepted expression is well formed: every
    set is non-empty, without duplicates, and within its field's bounds, days of the
    week from 0 to 6 after the folding of 7. *)
Theorem cron_parse_bounds s e : parseCronExpression s = Ok e -> cron_wf e.
Proof.
  unfold parseCronExpression. case_bool_decide; [done|].
  destruct (split_ws (trim s)) as [|mi [|ho [|dm [|mo [|dw [|]]]]]]; try done.
  destruct (parseField mi _ _) as [smi|] eqn:E1; [|done]. destruct (parseField ho _ _) as [sho|] eqn:E2; [|done].
  destruct (parseField dm _ _) as [sdm|] eqn:E3; [|done]. destruct (parseField mo _ _) as [smo|] eqn:E4; [|done].
  destruct (parseField dw _ _) as [sdw|] eqn:E5; [|done]. cbn [rbind]. intros [= <-].
  apply parseField_range in E1, E2, E3, E4, E5; try done. split; cbn; [done..|].
  destruct (fold_sunday_spec sdw) as [Hn Hs]. destruct E5 as (_ & Hne & Hb). rewrite Forall_forall in Hb.
  split_and!; [done| |].
  - destruct sdw as [|x sdw]; [done|]. intros E. apply (not_elem_of_nil (if x =? 7 then 0 else x)).
    rewrite <- E, Hs. exists x. split; [by left|done].
  - apply Forall_forall. intros v (x & Hx & ->)%Hs. specialize (Hb x Hx). cbn in Hb.
    destruct (Z.eqb_spec x 7); lia.
Qed.

(** * Concrete instances *)

Example cron_weekdays :
  match parseCronExpression (js "0 9 * * 1-5") with
  | Ok e => computeNextCronRun (fixed_zone 0) e 1700000000000 = Some 1700038800000 /\
            cronToHuman e = js "at 09:00 on weekdays"
  | Err _ => False
  end.
Proof. vm_compute. by split. Qed.

Example cron_never :
  match parseCronExpression (js "0 0 31 2 *") with
  | Ok e => hasFireWithinYears (fixed_zone 0) e 5 1700000000000 = false
  | Err _ => False
  end.
Proof. by vm_compute. Qed.

(** A set that stops short of the hour is summarised as if it went on. *)
Example summary_of_partial_step :
  match parseCronExpression (js "0,5,10 * * * *") with
  | Ok e => cronToHuman e = js "every 5 minutes"
  | Err _ => False
  end.
Proof. by vm_compute. Qed.

(** When clocks go back, a search begun in the second occurrence of the repeated
    hour finds a run in its first occurrence, before the instant it starts from. *)
Example next_run_in_the_past :
  let z := fall_back_zone 1699164000000 (-14400000) 3600000 in
  match parseCronExpression (js "45 * * * *") with
  | Ok e => match computeNextCronRun z e 1699165800000 with Some t => t < 1699165800000 | None => False end
  | Err _ => False
  end.
Proof. by vm_compute. Qed.

Lemma cron_parse_bounds_witness :
  match parseCronExpression (js " */20 0-6/3,22 * 2 5,7 ") with Ok e => cron_wf e /\ minutes e = [0; 20; 40] | Err _ => False end.
Proof.
  pose proof (fun e => cron_parse_bounds (js " */20 0-6/3,22 * 2 5,7 ") e) as H.
  destruct (parseCronExpression (js " */20 0-6/3,22 * 2 5,7 ")) as [e|] eqn:E.
  - split; [exact (H e eq_refl)|]. vm_compute in E. injection E as <-. reflexivity.
  - vm_compute in E. discriminate.
Defined.

Lemma cron_search_terminates_witness :
  match parseCronExpression (js "0 0 31 2 *") with
  | Ok e => exists r, iterate_nat 100 (search_turn (fixed_zone 0) e (86400000 + 90 * msPerMinute))
                        (setSeconds (fixed_zone 0) 86400000 0 0 + msPerMinute) = inr r /\ r = None
  | Err _ => False
  end.
Proof.
  destruct (parseCronExpression (js "0 0 31 2 *")) as [e|] eqn:E.
  - eexists. split; [apply (cron_search_terminates 0 e 86400000 90 100); [split; [discriminate|reflexivity]|vm_compute; lia]|].
    vm_compute in E. injection E as <-. vm_compute. reflexivity.
  - vm_compute in E. discriminate.
Defined.
