(* ===== verification/CronScheduler.v ===== *)
(** The cron scheduler ([packages/agent-core/src/tools/cron/scheduler.ts]) and its
    jitter ([jitter.ts]). The callbacks' effects are the events of a tick; whether a
    delivery throws is a parameter. Jittered times are rationals: the rounding of the
    two products is left out. *)

From Stdlib Require Import QArith Lqa.
From S2P Require Import Prelude JsMap JsonText JsString JsDate CronExpr.
#[local] Open Scope Z_scope.

(** * Jitter *)

Record jitter_config := JitterConfig {
  recurringMaxFractionOfPeriod : Q;
  recurringMaxMs : Q;
  oneShotMaxMs : Q;
}.

Definition DEFAULT_CRON_JITTER_CONFIG : jitter_config := JitterConfig (1 # 10) (inject_Z (15 * 60000)) (inject_Z 90000).

Definition MS_PER_DAY : Z := 24 * 60 * 60000.
Definition MS_PER_MINUTE : Z := 60000.

Definition is_hex (c : N) : bool :=
  (((48 <=? c) && (c <=? 57)) || ((97 <=? c) && (c <=? 102)) || ((65 <=? c) && (c <=? 70)))%N.
Definition hex_val (c : N) : Z :=
  if (c <=? 57)%N then Z.of_N c - 48 else if (c <=? 70)%N then Z.of_N c - 55 else Z.of_N c - 87.

(** The numerator over 2^32. *)
Definition fraction_numerator (id : jsstr) : Z :=
  if (blen id =? 8) && forallb is_hex id then fold_left (fun n c => 16 * n + hex_val c) id 0
  else to_uint32 (fold_left (fun hash c => to_int32 (to_int32 (Z.shiftl hash 5) + hash + Z.of_N c)) id 5381).

Definition fractionFromId (id : jsstr) : Q := fraction_numerator id # (2 ^ 32).

Record cron_task := CronTask {
  task_id : jsstr;
  cron : jsstr;
  createdAt : Z;
  recurring : option bool;
  lastFiredAt : option Z;
}.

Section jitter.
Context (z : zone).
(** [CLOUD_CODE_CRON_NO_JITTER]. *)
Context (jitterDisabled : bool).

Definition Qmin' (a b : Q) : Q := if Qle_bool a b then a else b.

Definition jitteredNextCronRunMs (task : cron_task) (parsed : cron_expr) (idealMs : Z) (config : jitter_config) : Q :=
  if jitterDisabled then inject_Z idealMs
  else
    let period := match computeNextCronRun z parsed idealMs with
                  | Some nextNext => if idealMs <? nextNext then nextNext - idealMs else MS_PER_DAY
                  | None => MS_PER_DAY
                  end in
    let periodCap := (inject_Z period * recurringMaxFractionOfPeriod config)%Q in
    let cap := Qmin' periodCap (recurringMaxMs config) in
    if Qle_bool cap 0 then inject_Z idealMs
    else (inject_Z idealMs + cap * fractionFromId (task_id task))%Q.

Definition oneShotJitteredNextCronRunMs (task : cron_task) (idealMs : Z) (config : jitter_config) : Q :=
  if jitterDisabled then inject_Z idealMs
  else if negb (idealMs mod MS_PER_MINUTE =? 0) then inject_Z idealMs
  else
    let minuteOfHour := getMinutes z idealMs in
    if negb (minuteOfHour =? 0) && negb (minuteOfHour =? 30) then inject_Z idealMs
    else if Qle_bool (oneShotMaxMs config) 0 then inject_Z idealMs
    else
      let shifted := (inject_Z idealMs - oneShotMaxMs config * fractionFromId (task_id task))%Q in
      if negb (Qle_bool (inject_Z (createdAt task)) shifted) then inject_Z idealMs else shifted.
End jitter.

(** * The scheduler *)

Definition MAX_COALESCE_ITERATIONS : Z := 10000.

Record scheduler := Scheduler {
  parsedCache : gmap jsstr cron_expr;
  lastSeenAt : gmap jsstr Z;
  seededFromDisk : gset jsstr;
  inFlight : gset jsstr;
}.

Definition createCronScheduler : scheduler := Scheduler ∅ ∅ ∅ ∅.

Inductive fire_event :=
| OnFire (id : jsstr) (coalescedCount : Z) (delivered : bool)
| RemoveOneShot (id : jsstr)
| AdvanceCursor (id : jsstr) (ts : Z).

Section scheduler.
Context (z : zone) (jitterDisabled : bool).
(** Whether [onFire] returns; it throws otherwise. *)
Context (onFire : cron_task -> Z -> bool).

Definition one_shot (t : cron_task) : bool := match recurring t with Some false => true | _ => false end.

Definition getParsed (s : scheduler) (expr : jsstr) : scheduler * result cron_error cron_expr :=
  match parsedCache s !! expr with
  | Some cached => (s, Ok cached)
  | None =>
      match parseCronExpression expr with
      | Ok parsed => (Scheduler (<[expr := parsed]> (parsedCache s)) (lastSeenAt s) (seededFromDisk s) (inFlight s), Ok parsed)
      | Err e => (s, Err e)
      end
  end.

Definition jittered (task : cron_task) (parsed : cron_expr) (ideal : Z) : Q :=
  if one_shot task then oneShotJitteredNextCronRunMs z jitterDisabled task ideal DEFAULT_CRON_JITTER_CONFIG
  else jitteredNextCronRunMs z jitterDisabled task parsed ideal DEFAULT_CRON_JITTER_CONFIG.

Definition computeJitteredNext (task : cron_task) (parsed : cron_expr) (baseMs : Z) : option Q :=
  jittered task parsed <$> computeNextCronRun z parsed baseMs.

(** [x <= now] and [now < x] for a jittered time. *)
Definition due (x : Q) (now : Z) : bool := Qle_bool x (inject_Z now).

(** The loop of [countCoalesced], with the last due run as cursor. *)
Fixpoint coalesce (fuel : nat) (task : cron_task) (parsed : cron_expr) (count lastDueMs nowMs : Z) : Z * Z :=
  match fuel with
  | O => (count, lastDueMs)
  | S fuel' =>
      match computeNextCronRun z parsed lastDueMs with
      | None => (count, lastDueMs)
      | Some next =>
          if nowMs <? next then (count, lastDueMs)
          else if negb (due (jittered task parsed next) nowMs) then (count, lastDueMs)
          else coalesce fuel' task parsed (count + 1) next nowMs
      end
  end.

Definition countCoalesced (task : cron_task) (parsed : cron_expr) (firstFireMs nowMs : Z) : Z * Z :=
  coalesce (Z.to_nat (MAX_COALESCE_ITERATIONS - 1)) task parsed 1 firstFireMs nowMs.

(** The cursor a task starts from: the delivered run kept on disk, if it is sane. *)
Definition seed (s : scheduler) (task : cron_task) (now : Z) : scheduler :=
  let id := task_id task in
  let lastSeenAt' :=
    match lastFiredAt task with
    | Some ts =>
        if negb (bool_decide (id ∈ seededFromDisk s)) && (ts <=? now) && negb (bool_decide (is_Some (lastSeenAt s !! id)))
        then <[id := ts]> (lastSeenAt s) else lastSeenAt s
    | None => lastSeenAt s
    end in
  Scheduler (parsedCache s) lastSeenAt' ({[id]} ∪ seededFromDisk s) (inFlight s).

Definition base_from (seen : option Z) (task : cron_task) : Z :=
  match seen with
  | Some seen => if createdAt task <? seen then seen else createdAt task
  | None => createdAt task
  end.

(** A due task: the delivery and, when it did not throw, the bookkeeping. *)
Definition fire (s : scheduler) (task : cron_task) (parsed : cron_expr) (baseFromMs now : Z) : scheduler * list fire_event :=
  let id := task_id task in
  let '(coalescedCount, lastDueMs) :=
    match one_shot task, computeNextCronRun z parsed baseFromMs with
    | false, Some ideal => let '(count, last) := countCoalesced task parsed ideal now in (Z.max 1 count, Some last)
    | _, _ => (1, None)
    end in
  let s1 := Scheduler (parsedCache s) (lastSeenAt s) (seededFromDisk s) ({[id]} ∪ inFlight s) in
  if onFire task coalescedCount then
    if one_shot task then
      (Scheduler (parsedCache s1) (delete id (lastSeenAt s1)) (seededFromDisk s1 ∖ {[id]}) (inFlight s1),
       [OnFire id coalescedCount true; RemoveOneShot id])
    else
      let advancedTo := default now lastDueMs in
      (Scheduler (parsedCache s1) (<[id := advancedTo]> (lastSeenAt s1)) (seededFromDisk s1) (inFlight s1),
       [OnFire id coalescedCount true; AdvanceCursor id advancedTo])
  else (s1, [OnFire id coalescedCount false]).

Definition tick_task (now : Z) (s : scheduler) (task : cron_task) : scheduler * list fire_event :=
  if bool_decide (task_id task ∈ inFlight s) then (s, [])
  else
    match getParsed s (cron task) with
    | (s1, Err _) => (s1, [])
    | (s1, Ok parsed) =>
        let s2 := seed s1 task now in
        let baseFromMs := base_from (lastSeenAt s2 !! task_id task) task in
        match computeJitteredNext task parsed baseFromMs with
        | None => (s2, [])
        | Some nextFireAt => if due nextFireAt now then fire s2 task parsed baseFromMs now else (s2, [])
        end
    end.

Fixpoint tick_tasks (now : Z) (s : scheduler) (tasks : list cron_task) : scheduler * list fire_event :=
  match tasks with
  | [] => (s, [])
  | task :: tasks' =>
      let '(s1, ev1) := tick_task now s task in
      let '(s2, ev2) := tick_tasks now s1 tasks' in (s2, ev1 ++ ev2)
  end.

Definition tick (killed idle : bool) (tasks : list cron_task) (now : Z) (s : scheduler) : scheduler * list fire_event :=
  if killed then (s, [])
  else if negb idle then (s, [])
  else match tasks with
       | [] => (s, [])
       | _ =>
           let '(s', ev) := tick_tasks now s tasks in
           (Scheduler (parsedCache s') (lastSeenAt s') (seededFromDisk s') ∅, ev)
       end.

(** [stop]'s clearing of the maps. *)
Definition stop (_ : scheduler) : scheduler := createCronScheduler.

Definition nextFireFor (s : scheduler) (task : cron_task) (wallNow : Z) : option Q :=
  match (getParsed s (cron task)).2 with
  | Err _ => None
  | Ok parsed =>
      let persistedCursor := match lastFiredAt task with
                             | Some ts => if ts <=? wallNow then Some ts else None
                             | None => None
                             end in
      let cursor := match lastSeenAt s !! task_id task with Some seen => Some seen | None => persistedCursor end in
      computeJitteredNext task parsed (base_from cursor task)
  end.

Definition getNextFireTime (s : scheduler) (tasks : list cron_task) (wallNow : Z) : option Q :=
  fold_left (fun m task =>
    match nextFireFor s task wallNow, m with
    | None, _ => m
    | Some next, None => Some next
    | Some next, Some cur => if negb (Qle_bool cur next) then Some next else m
    end) tasks None.

Definition getNextFireForTask (s : scheduler) (tasks : list cron_task) (taskId : jsstr) (wallNow : Z) : option Q :=
  task ← list_find (fun t => task_id t = taskId) tasks; nextFireFor s task.2 wallNow.
End scheduler.

(** * Jitter stays within its bounds *)

Lemma fraction_range id : 0 <= fraction_numerator id < 2 ^ 32.
Proof.
  unfold fraction_numerator. destruct (Z.eqb_spec (blen id) 8) as [Hl|]; cbn [andb]; [|apply to_uint32_range].
  destruct (forallb is_hex id) eqn:Hh; [|apply to_uint32_range].
  assert (Hv : Forall (fun c => 0 <= hex_val c < 16) id).
  { rewrite forallb_forall in Hh. apply Forall_forall. intros c Hc%list_elem_of_In%Hh. unfold is_hex in Hc.
    rewrite !orb_true_iff, !andb_true_iff, !N.leb_le in Hc. unfold hex_val.
    repeat match goal with |- context [(?a <=? ?b)%N] => destruct (N.leb_spec a b) end; lia. }
  clear Hh. enough (H : forall n, 0 <= n -> let r := fold_left (fun n c => 16 * n + hex_val c) id n in
    n * 16 ^ blen id <= r < (n + 1) * 16 ^ blen id).
  { specialize (H 0 ltac:(lia)). rewrite Hl in H. cbn zeta in H. lia. }
  clear Hl. induction Hv as [|c id Hc _ IH]; intros n Hn; cbn [fold_left].
  - cbn zeta. change (blen (@nil N)) with 0. rewrite Z.pow_0_r. lia.
  - cbn zeta in IH |- *. specialize (IH (16 * n + hex_val c) ltac:(lia)).
    replace (blen (c :: id)) with (blen id + 1) by (unfold blen; cbn; lia).
    rewrite Z.pow_add_r by (unfold blen; lia). assert (0 < 16 ^ blen id) by (apply Z.pow_pos_nonneg; unfold blen; lia). nia.
Qed.

Lemma fraction_unit id : (0 <= fractionFromId id < 1)%Q.
Proof.
  pose proof (fraction_range id) as H. unfold fractionFromId, Qle, Qlt. cbn.
  change (2 ^ 32) with 4294967296 in H. lia.
Qed.


Lemma Qmin'_spec a b : (Qmin' a b <= a)%Q /\ (Qmin' a b <= b)%Q.
Proof.
  unfold Qmin'. destruct (Qle_bool a b) eqn:E; [apply Qle_bool_iff in E; split; [apply Qle_refl|done]|].
  split; [|apply Qle_refl]. apply Qlt_le_weak, Qnot_le_lt. intros H%Qle_bool_iff. congruence.
Qed.

Lemma scaled_below (cap f : Q) : (0 < cap -> 0 <= f < 1 -> 0 <= cap * f < cap)%Q.
Proof. intros. nra. Qed.

Lemma inject_pos n : 0 < n -> (0 < inject_Z n)%Q.
Proof. intros. by rewrite <- (Zlt_Qlt 0). Qed.

Lemma recurring_bounds z off task e ideal :
  let r := jitteredNextCronRunMs z off task e ideal DEFAULT_CRON_JITTER_CONFIG in
  (inject_Z ideal <= r)%Q /\ (r < inject_Z ideal + (900000 # 1))%Q /\
  forall next, computeNextCronRun z e ideal = Some next -> ideal < next ->
    (r < inject_Z ideal + inject_Z (next - ideal) * (1 # 10))%Q.
Proof.
  pose proof (fraction_unit (task_id task)) as Hf. unfold jitteredNextCronRunMs. cbv zeta.
  assert (Hnone : (inject_Z ideal <= inject_Z ideal)%Q /\ (inject_Z ideal < inject_Z ideal + (900000 # 1))%Q /\
    forall next, computeNextCronRun z e ideal = Some next -> ideal < next ->
      (inject_Z ideal < inject_Z ideal + inject_Z (next - ideal) * (1 # 10))%Q).
  { split_and!; [lra|lra|]. intros next _ Hn. pose proof (inject_pos (next - ideal) ltac:(lia)). lra. }
  destruct off; [done|]. set (period := match computeNextCronRun z e ideal with Some _ => _ | None => _ end).
  cbn [recurringMaxFractionOfPeriod recurringMaxMs DEFAULT_CRON_JITTER_CONFIG].
  destruct (Qle_bool _ 0) eqn:Ec; [done|]. clear Hnone.
  set (cap := Qmin' _ _) in *. assert (Hc : (0 < cap)%Q) by (apply Qnot_le_lt; intros H%Qle_bool_iff; congruence).
  destruct (Qmin'_spec (inject_Z period * (1 # 10)) (inject_Z (15 * 60000))) as [H1 H2]. fold cap in H1, H2.
  pose proof (scaled_below cap _ Hc Hf). split_and!; [lra|change (inject_Z (15 * 60000)) with ((900000 # 1)) in H2; lra|].
  intros next Hn Hlt. assert (E : period = next - ideal).
  { unfold period. rewrite Hn. by destruct (Z.ltb_spec ideal next); [|lia]. }
  rewrite E in H1. lra.
Qed.

Lemma one_shot_bounds z off task ideal :
  let s := oneShotJitteredNextCronRunMs z off task ideal DEFAULT_CRON_JITTER_CONFIG in
  (inject_Z ideal - (90000 # 1) < s)%Q /\ (s <= inject_Z ideal)%Q /\
  ((inject_Z (createdAt task) <= s)%Q \/ s = inject_Z ideal) /\
  (s = inject_Z ideal \/ getMinutes z ideal = 0 \/ getMinutes z ideal = 30).
Proof.
  pose proof (fraction_unit (task_id task)) as Hf. unfold oneShotJitteredNextCronRunMs. cbv zeta.
  assert (Hnone : (inject_Z ideal - (90000 # 1) < inject_Z ideal)%Q /\ (inject_Z ideal <= inject_Z ideal)%Q /\
    ((inject_Z (createdAt task) <= inject_Z ideal)%Q \/ inject_Z ideal = inject_Z ideal) /\
    (inject_Z ideal = inject_Z ideal \/ getMinutes z ideal = 0 \/ getMinutes z ideal = 30)).
  { split_and!; [lra|lra|by right|by left]. }
  destruct off; [done|]. destruct (ideal mod MS_PER_MINUTE =? 0); [|done]. cbn [negb].
  destruct (negb (getMinutes z ideal =? 0) && negb (getMinutes z ideal =? 30)) eqn:Em; [done|].
  cbn [oneShotMaxMs DEFAULT_CRON_JITTER_CONFIG]. change (Qle_bool (inject_Z 90000) 0) with false. cbv iota. change (inject_Z 90000) with (90000 # 1)%Q.
  destruct (Qle_bool (inject_Z (createdAt task)) _) eqn:Ec; cbn [negb]; [|done]. clear Hnone. apply Qle_bool_iff in Ec.
  pose proof (scaled_below (90000 # 1) _ ltac:(done) Hf). split_and!; [lra|lra|by left|right].
  destruct (Z.eqb_spec (getMinutes z ideal) 0); [by left|]. destruct (Z.eqb_spec (getMinutes z ideal) 30); [by right|done].
Qed.

(** The jitter's bounds. A recurring task is shifted forward, by less than a
    quarter of an hour and by less than a tenth of its period, so before the next
    run; a one-shot task is pulled at most 90 seconds earlier, never before its
    creation, and only from a whole or half hour. *)
Theorem cron_jitter_bounds z off task e ideal :
  let r := jitteredNextCronRunMs z off task e ideal DEFAULT_CRON_JITTER_CONFIG in
  let s := oneShotJitteredNextCronRunMs z off task ideal DEFAULT_CRON_JITTER_CONFIG in
  (inject_Z ideal <= r)%Q /\ (r < inject_Z ideal + (900000 # 1))%Q /\
  (forall next, computeNextCronRun z e ideal = Some next -> ideal < next ->
    (r < inject_Z ideal + inject_Z (next - ideal) * (1 # 10))%Q) /\
  (inject_Z ideal - (90000 # 1) < s)%Q /\ (s <= inject_Z ideal)%Q /\
  ((inject_Z (createdAt task) <= s)%Q \/ s = inject_Z ideal) /\
  (s = inject_Z ideal \/ getMinutes z ideal = 0 \/ getMinutes z ideal = 30).
Proof.
  intros r s. pose proof (recurring_bounds z off task e ideal) as (H1 & H2 & H3).
  pose proof (one_shot_bounds z off task ideal) as (H4 & H5 & H6 & H7). by split_and!.
Qed.

(** * One task's turn *)

Section turn.
Context (z : zone) (off : bool) (onFire : cron_task -> Z -> bool).

(** How many runs the delivered events of a task stand for. *)
Fixpoint delivered (id : jsstr) (ev : list fire_event) : Z :=
  match ev with
  | [] => 0
  | OnFire i c true :: ev' => if decide (i = id) then c + delivered id ev' else delivered id ev'
  | _ :: ev' => delivered id ev'
  end.

Lemma delivered_app id ev1 ev2 : delivered id (ev1 ++ ev2) = delivered id ev1 + delivered id ev2.
Proof.
  induction ev1 as [|e ev1 IH]; cbn; [done|].
  destruct e as [i c [|]| |]; try done. case_decide; lia.
Qed.

(** Cached expressions are what parsing gives. *)
Definition cache_ok (s : scheduler) : Prop :=
  map_Forall (fun expr e => parseCronExpression expr = Ok e) (parsedCache s).

Lemma getParsed_spec s expr :
  cache_ok s ->
  let '(s', r) := getParsed s expr in
  cache_ok s' /\ r = parseCronExpression expr /\ lastSeenAt s' = lastSeenAt s /\
  seededFromDisk s' = seededFromDisk s /\ inFlight s' = inFlight s.
Proof.
  intros Hc. unfold getParsed. destruct (parsedCache s !! expr) as [e|] eqn:E.
  - by rewrite (Hc _ _ E).
  - destruct (parseCronExpression expr) as [e|] eqn:Ep; [|done]. split_and!; try done.
    by apply map_Forall_insert_2.
Qed.

(** What one task's turn leaves unchanged of the others. *)
Record others_kept (id : jsstr) (s s' : scheduler) : Prop := {
  ok_seen : forall i, i <> id -> lastSeenAt s' !! i = lastSeenAt s !! i;
  ok_seeded : forall i, i <> id -> i ∈ seededFromDisk s' <-> i ∈ seededFromDisk s;
  ok_flight : forall i, i <> id -> i ∈ inFlight s' <-> i ∈ inFlight s;
  ok_cache : cache_ok s';
}.

Lemma seed_kept s task now : cache_ok s -> others_kept (task_id task) s (seed s task now).
Proof.
  intros Hc. unfold seed. split; cbn; [|set_solver|done|done].
  intros i Hi. destruct (lastFiredAt task) as [ts|]; [|done]. case_match; [|done]. by rewrite lookup_insert_ne.
Qed.

Lemma others_kept_trans id s1 s2 s3 : others_kept id s1 s2 -> others_kept id s2 s3 -> others_kept id s1 s3.
Proof.
  intros [A1 A2 A3 A4] [B1 B2 B3 B4]. split; [| | |done]; intros i Hi.
  - by rewrite B1, A1.
  - by rewrite B2, A2.
  - by rewrite B3, A3.
Qed.

Lemma fire_kept s task e base now :
  cache_ok s -> others_kept (task_id task) s (fire z off onFire s task e base now).1 /\
  (forall i, i <> task_id task -> delivered i (fire z off onFire s task e base now).2 = 0).
Proof.
  intros Hc. unfold fire.
  destruct (match one_shot task, computeNextCronRun z e base with false, Some ideal => _ | _, _ => _ end) as [c l].
  destruct (onFire task c), (one_shot task); cbn; (split; [split; cbn; [|set_solver|set_solver|done]|]); intros i Hi;
    rewrite ?lookup_insert_ne, ?lookup_delete_ne by done; try done; by rewrite ?decide_False by done.
Qed.

Lemma tick_task_kept now s task :
  cache_ok s -> others_kept (task_id task) s (tick_task z off onFire now s task).1 /\
  (forall i, i <> task_id task -> delivered i (tick_task z off onFire now s task).2 = 0).
Proof.
  intros Hc. assert (Hsame : others_kept (task_id task) s s) by by split.
  unfold tick_task. case_bool_decide; [done|].
  pose proof (getParsed_spec s (cron task) Hc) as Hg. destruct (getParsed s (cron task)) as [s1 r].
  destruct Hg as (Hc1 & _ & E1 & E2 & E3). assert (H1 : others_kept (task_id task) s s1).
  { split; [by intros; rewrite E1|by intros; rewrite E2|by intros; rewrite E3|done]. }
  destruct r as [e|]; [|done]. pose proof (seed_kept s1 task now Hc1) as H2.
  set (s2 := seed s1 task now) in *. pose proof (others_kept_trans _ _ _ _ H1 H2) as H12.
  destruct (computeJitteredNext z off task e _) as [q|]; [|done]. destruct (due q now); [|done].
  destruct (fire_kept s2 task e (base_from (lastSeenAt s2 !! task_id task) task) now) as [H3 H4]; [apply H2|].
  split; [|done]. by eapply others_kept_trans.
Qed.
End turn.

(** * Every run is accounted for once *)

(** [l] lists the runs of [e] in (a, b], in order. *)
Definition runs_in (z : zone) (e : cron_expr) (a b : Z) (l : list Z) : Prop :=
  StronglySorted Z.lt l /\ forall x, x ∈ l <-> a < x <= b /\ fires z e x.

Section accounting.
Context (o : Z) (off : bool) (onFire : cron_task -> Z -> bool).
#[local] Abbreviation z := (fixed_zone o).

Lemma next_run_one e a t : computeNextCronRun z e a = Some t -> a < t /\ runs_in z e a t [t].
Proof.
  intros E. pose proof (compute_spec o e a) as H. rewrite E in H. destruct H as (H1 & H2 & H3). split; [lia|]. split; [repeat constructor|].
  intros x. rewrite list_elem_of_singleton. split; [intros ->; split; [lia|done]|].
  intros [Hx Hf]. destruct (decide (x = t)); [done|]. exfalso. apply (H3 x); [lia|done].
Qed.

Lemma runs_in_empty e a : runs_in z e a a [].
Proof. split; [constructor|]. intros x. rewrite elem_of_nil. split; [done|]. intros [? _]. lia. Qed.

Lemma runs_in_app e a b c l1 l2 :
  a <= b <= c -> runs_in z e a b l1 -> runs_in z e b c l2 -> runs_in z e a c (l1 ++ l2).
Proof.
  intros Hle [S1 H1] [S2 H2]. split.
  - assert (Hlt : forall x y, x ∈ l1 -> y ∈ l2 -> x < y).
    { intros x y [Hx _]%H1 [Hy _]%H2. lia. }
    clear H1 H2. induction S1 as [|x l1 S1 IH Hx]; [done|]. cbn. constructor.
    + apply IH. intros u v Hu. apply Hlt. by right.
    + apply Forall_app. split; [done|]. apply Forall_forall. intros y Hy. apply Hlt; [by left|done].
  - intros x. rewrite elem_of_app, H1, H2. destruct (decide (x <= b)); naive_solver lia.
Qed.

Lemma coalesce_spec task e fuel now : forall count last,
  let '(count', last') := coalesce z off fuel task e count last now in
  last <= last' /\ exists l, runs_in z e last last' l /\ count' = count + blen l /\
    Forall (fun x => x <= now /\ due (jittered z off task e x) now = true) l.
Proof.
  induction fuel as [|fuel IH]; intros count last; cbn [coalesce].
  - split; [lia|]. exists []. split_and!; [apply runs_in_empty|unfold blen; cbn; lia|done].
  - assert (Hstop : last <= last /\ exists l, runs_in z e last last l /\ count = count + blen l /\
      Forall (fun x => x <= now /\ due (jittered z off task e x) now = true) l).
    { split; [lia|]. exists []. split_and!; [apply runs_in_empty|unfold blen; cbn; lia|done]. }
    destruct (computeNextCronRun z e last) as [next|] eqn:En; [|done].
    destruct (Z.ltb_spec now next); [done|]. destruct (due (jittered z off task e next) now) eqn:Ed; cbn [negb]; [|done].
    specialize (IH (count + 1) next). destruct (coalesce z off fuel task e (count + 1) next now) as [c' l'].
    destruct IH as (Hle & l & Hr & Hc & Hd). destruct (next_run_one e last next En) as [Hlt H1].
    split; [lia|]. exists (next :: l). split_and!.
    + apply (runs_in_app e last next l' [next] l); [lia|done|done].
    + rewrite Hc. unfold blen. cbn. lia.
    + by constructor.
Qed.

Lemma countCoalesced_spec task e ideal now :
  exists l, runs_in z e ideal (countCoalesced z off task e ideal now).2 l /\
    ideal <= (countCoalesced z off task e ideal now).2 /\
    (countCoalesced z off task e ideal now).1 = 1 + blen l /\
    Forall (fun x => x <= now /\ due (jittered z off task e x) now = true) l.
Proof.
  unfold countCoalesced. generalize (Z.to_nat (MAX_COALESCE_ITERATIONS - 1)). intros fuel.
  pose proof (coalesce_spec task e fuel now 1 ideal) as H. destruct (coalesce z off fuel task e 1 ideal now) as [c last].
  destruct H as (H1 & l & H2 & H3 & H4). by exists l.
Qed.

#[local] Opaque computeNextCronRun countCoalesced.

Definition cursor (s : scheduler) (task : cron_task) : Z := base_from (lastSeenAt s !! task_id task) task.

(** The task is the same recurring one, whatever its persisted cursor. *)
Record same_task (t0 t : cron_task) : Prop := {
  st_id : task_id t = task_id t0;
  st_cron : cron t = cron t0;
  st_created : createdAt t = createdAt t0;
  st_recurring : one_shot t = false;
}.

(** The runs a step accounts for: those between the cursors, each due at [now]. *)
Definition accounts (t0 : cron_task) (e : cron_expr) (nows : list Z) (s s' : scheduler) (n : Z) : Prop :=
  cursor s t0 <= cursor s' t0 /\ exists l, runs_in z e (cursor s t0) (cursor s' t0) l /\ n = blen l /\
    Forall (fun x => exists now, now ∈ nows /\ due (jittered z off t0 e x) now = true) l.

Lemma accounts_none t0 e nows s s' : cursor s' t0 = cursor s t0 -> accounts t0 e nows s s' 0.
Proof. intros E. split; [lia|]. exists []. rewrite E. split_and!; [apply runs_in_empty|done|done]. Qed.

Lemma accounts_trans t0 e ns1 ns2 s1 s2 s3 n1 n2 :
  accounts t0 e ns1 s1 s2 n1 -> accounts t0 e ns2 s2 s3 n2 -> accounts t0 e (ns1 ++ ns2) s1 s3 (n1 + n2).
Proof.
  intros (H1 & l1 & R1 & -> & D1) (H2 & l2 & R2 & -> & D2). split; [lia|]. exists (l1 ++ l2). split_and!.
  - by apply (runs_in_app e _ (cursor s2 t0)).
  - by rewrite blen_app.
  - apply Forall_app. split; (eapply Forall_impl; [eassumption|]); intros x (now & Hin & Hd); exists now;
      (split; [set_solver|done]).
Qed.

Lemma cursor_ext s s' t0 : lastSeenAt s' !! task_id t0 = lastSeenAt s !! task_id t0 -> cursor s' t0 = cursor s t0.
Proof. intros E. unfold cursor. by rewrite E. Qed.

Lemma cursor_same s t0 t : same_task t0 t -> cursor s t = cursor s t0.
Proof. intros [E1 _ E3 _]. unfold cursor, base_from. by rewrite E1, E3. Qed.

Lemma jittered_same t0 t e x : one_shot t0 = false -> same_task t0 t -> jittered z off t e x = jittered z off t0 e x.
Proof. intros H0 [E1 _ _ E4]. unfold jittered. rewrite H0, E4. unfold jitteredNextCronRunMs. by rewrite E1. Qed.

Lemma seed_seen s t now : task_id t ∈ seededFromDisk s -> lastSeenAt (seed s t now) = lastSeenAt s.
Proof.
  intros H. unfold seed. cbn. destruct (lastFiredAt t); [|done]. by rewrite bool_decide_eq_true_2 by done.
Qed.

Lemma fire_own t0 t e s now :
  one_shot t0 = false -> same_task t0 t -> task_id t0 ∈ seededFromDisk s ->
  forall q, computeJitteredNext z off t e (cursor s t) = Some q -> due q now = true ->
  let r := fire z off onFire s t e (cursor s t) now in
  task_id t0 ∈ seededFromDisk r.1 /\ accounts t0 e [now] s r.1 (delivered (task_id t0) r.2).
Proof.
  intros H0 Hs Hseed q Hq Hdue. destruct (st_id _ _ Hs). unfold computeJitteredNext in Hq.
  destruct (computeNextCronRun z e (cursor s t)) as [ideal|] eqn:Ei; [|done]. injection Hq as <-.
  unfold fire. rewrite Ei, (st_recurring _ _ Hs).
  destruct (countCoalesced_spec t e ideal now) as (l & Hr & Hle & Hcount & Hd).
  destruct (countCoalesced z off t e ideal now) as [count last]. cbn [fst snd] in *. subst count.
  destruct (next_run_one e _ _ Ei) as [Hlt H1]. pose proof (blen_nonneg l). rewrite Z.max_r by lia.
  destruct (onFire t (1 + blen l)); cbn [fst snd seededFromDisk delivered].
  2:{ split; [done|]. apply accounts_none. by apply cursor_ext. }
  split; [done|]. rewrite decide_True by done. cbn [delivered]. rewrite Z.add_0_r.
  set (s' := Scheduler _ _ _ _). assert (Hlast : cursor s' t0 = last).
  { unfold cursor, s'. cbn. rewrite (st_id _ _ Hs), lookup_insert_eq. cbn.
    unfold cursor, base_from in Hlt. rewrite (st_created _ _ Hs) in *. destruct (Z.ltb_spec (createdAt t0) last); [done|].
    destruct (lastSeenAt s !! task_id t) as [seen|]; [destruct (Z.ltb_spec (createdAt t0) seen)|]; lia. }
  rewrite (cursor_same s t0 t Hs) in H1, Hlt. split; [lia|]. exists (ideal :: l). rewrite Hlast. split_and!.
  - apply (runs_in_app e _ ideal last [ideal] l); [lia|done|done].
  - unfold blen. cbn. lia.
  - constructor.
    + exists now. split; [set_solver|]. by rewrite <- (jittered_same t0 t).
    + eapply Forall_impl; [exact Hd|]. intros x [_ Hx]. exists now. split; [set_solver|]. by rewrite <- (jittered_same t0 t).
Qed.

Lemma tick_task_own t0 t e s now :
  one_shot t0 = false -> same_task t0 t -> parseCronExpression (cron t0) = Ok e -> cache_ok s ->
  task_id t0 ∈ seededFromDisk s ->
  let r := tick_task z off onFire now s t in
  task_id t0 ∈ seededFromDisk r.1 /\ accounts t0 e [now] s r.1 (delivered (task_id t0) r.2).
Proof.
  intros H0 Hs He Hc Hseed. assert (Hsame : task_id t0 ∈ seededFromDisk s /\ accounts t0 e [now] s s 0).
  { split; [done|]. by apply accounts_none. }
  unfold tick_task. case_bool_decide; [done|].
  pose proof (getParsed_spec s (cron t) Hc) as Hg. destruct (getParsed s (cron t)) as [s1 r].
  destruct Hg as (Hc1 & -> & E1 & E2 & E3). rewrite (st_cron _ _ Hs), He.
  set (s2 := seed s1 t now). assert (El : lastSeenAt s2 = lastSeenAt s).
  { unfold s2. rewrite seed_seen; [done|]. by rewrite E2, (st_id _ _ Hs). }
  assert (Hseed2 : task_id t0 ∈ seededFromDisk s2) by (unfold s2; cbn; set_solver).
  assert (Ecur : forall t', cursor s2 t' = cursor s t') by (intros t'; unfold cursor; by rewrite El).
  fold (cursor s2 t). cbv zeta.
  assert (Hkeep : task_id t0 ∈ seededFromDisk s2 /\ accounts t0 e [now] s s2 0).
  { split; [done|]. by apply accounts_none. }
  destruct (computeJitteredNext z off t e (cursor s2 t)) as [q|] eqn:Eq; [|done].
  destruct (due q now) eqn:Ed; [|done].
  destruct (fire_own t0 t e s2 now H0 Hs Hseed2 q Eq Ed) as [F1 (F2 & l & F3 & F4 & F5)]. split; [done|].
  rewrite Ecur in F2, F3. split; [done|]. by exists l.
Qed.

(** A list of tasks, among which the one in question keeps its cron and creation. *)
Definition tasks_ok (t0 : cron_task) (tasks : list cron_task) : Prop :=
  Forall (fun t => task_id t = task_id t0 -> same_task t0 t) tasks.

Lemma tick_tasks_own t0 e now tasks : forall s,
  one_shot t0 = false -> tasks_ok t0 tasks -> parseCronExpression (cron t0) = Ok e -> cache_ok s ->
  task_id t0 ∈ seededFromDisk s ->
  let r := tick_tasks z off onFire now s tasks in
  cache_ok r.1 /\ task_id t0 ∈ seededFromDisk r.1 /\ accounts t0 e [now] s r.1 (delivered (task_id t0) r.2).
Proof.
  induction tasks as [|t tasks IH]; intros s H0 Ht He Hc Hseed; cbn.
  { split_and!; [done..|]. by apply accounts_none. }
  apply Forall_cons in Ht as [Ht Hts]. destruct (tick_task_kept z off onFire now s t Hc) as [Hk Hd].
  destruct (decide (task_id t = task_id t0)) as [E|Hne].
  - destruct (tick_task_own t0 t e s now H0 (Ht E) He Hc Hseed) as [Hs1 Ha1].
    destruct (tick_task z off onFire now s t) as [s1 ev1]. cbn [fst snd] in *.
    destruct (IH s1 H0 Hts He (ok_cache _ _ _ Hk) Hs1) as (Hc2 & Hs2 & Ha2).
    destruct (tick_tasks z off onFire now s1 tasks) as [s2 ev2]. cbn [fst snd] in *. split_and!; [done..|].
    rewrite delivered_app. destruct (accounts_trans _ _ _ _ _ _ _ _ _ Ha1 Ha2) as (A1 & l & A2 & A3 & A4).
    split; [done|]. exists l. split_and!; [done..|]. eapply Forall_impl; [exact A4|]. intros x (n & Hn & Hx).
    exists n. split; [set_solver|done].
  - specialize (Hd (task_id t0) ltac:(done)). destruct Hk as [K1 K2 K3 K4].
    destruct (tick_task z off onFire now s t) as [s1 ev1]. cbn [fst snd] in *.
    destruct (IH s1 H0 Hts He K4) as (Hc2 & Hs2 & A1 & l & A2 & A3 & A4); [by apply K2|].
    destruct (tick_tasks z off onFire now s1 tasks) as [s2 ev2]. cbn [fst snd] in *. split_and!; [done..|].
    rewrite delivered_app, Hd, Z.add_0_l. rewrite (cursor_ext s s1) in A1, A2 by by apply K1. split; [done|]. by exists l.
Qed.

(** ** Sequences of ticks *)

Record tick_input := TickInput { ti_killed : bool; ti_idle : bool; ti_tasks : list cron_task; ti_now : Z }.

Fixpoint ticks (ins : list tick_input) (s : scheduler) : scheduler * list fire_event :=
  match ins with
  | [] => (s, [])
  | i :: ins' =>
      let '(s1, ev1) := tick z off onFire (ti_killed i) (ti_idle i) (ti_tasks i) (ti_now i) s in
      let '(s2, ev2) := ticks ins' s1 in (s2, ev1 ++ ev2)
  end.

Lemma tick_own t0 e i s :
  one_shot t0 = false -> tasks_ok t0 (ti_tasks i) -> parseCronExpression (cron t0) = Ok e -> cache_ok s ->
  task_id t0 ∈ seededFromDisk s ->
  let r := tick z off onFire (ti_killed i) (ti_idle i) (ti_tasks i) (ti_now i) s in
  cache_ok r.1 /\ task_id t0 ∈ seededFromDisk r.1 /\ accounts t0 e [ti_now i] s r.1 (delivered (task_id t0) r.2).
Proof.
  intros H0 Ht He Hc Hseed. assert (Hsame : cache_ok s /\ task_id t0 ∈ seededFromDisk s /\ accounts t0 e [ti_now i] s s 0).
  { split_and!; [done..|]. by apply accounts_none. }
  unfold tick. destruct (ti_killed i); [done|]. destruct (ti_idle i); [|done].
  pose proof (tick_tasks_own t0 e (ti_now i) (ti_tasks i) s H0 Ht He Hc Hseed) as H. destruct (ti_tasks i) as [|t ts]; [done|].
  destruct (tick_tasks z off onFire (ti_now i) s (t :: ts)) as [s' ev]. cbn [negb fst snd] in *. exact H.
Qed.

(** C36. In a time zone with a fixed offset, over any sequence of ticks, whatever other
    tasks there are (malformed ones included), whether the session is busy or killed and
    whether deliveries throw, the deliveries of a recurring task that has its cursor from
    an earlier tick account for every run of its cron expression exactly once: the
    coalesced counts of its delivered events sum to the number of runs between the cursor
    before and the cursor after, no run is skipped or counted twice, and each run was
    counted at a tick at which its jittered time had come. The cursor never moves back. *)
Theorem cron_runs_counted_once t0 e ins s :
  one_shot t0 = false -> parseCronExpression (cron t0) = Ok e ->
  Forall (fun i => tasks_ok t0 (ti_tasks i)) ins -> cache_ok s -> task_id t0 ∈ seededFromDisk s ->
  let '(s', ev) := ticks ins s in
  cursor s t0 <= cursor s' t0 /\
  exists l, runs_in z e (cursor s t0) (cursor s' t0) l /\ delivered (task_id t0) ev = blen l /\
    Forall (fun x => exists i, i ∈ ins /\ due (jittered z off t0 e x) (ti_now i) = true) l.
Proof.
  intros H0 He Hins Hc Hseed.
  enough (H : let r := ticks ins s in accounts t0 e (ti_now <$> ins) s r.1 (delivered (task_id t0) r.2)).
  { destruct (ticks ins s) as [s' ev]. destruct H as (H1 & l & H2 & H3 & H4). split; [done|]. exists l. split_and!; [done..|].
    eapply Forall_impl; [exact H4|]. intros x (n & (i & -> & Hi)%list_elem_of_fmap & Hx). by exists i. }
  revert s Hc Hseed. induction Hins as [|i ins Hi _ IH]; intros s Hc Hseed; cbn [ticks]; [by apply accounts_none|].
  destruct (tick_own t0 e i s H0 Hi He Hc Hseed) as (Hc1 & Hs1 & Ha1).
  destruct (tick z off onFire _ _ _ _ s) as [s1 ev1]. cbn [fst snd] in *. specialize (IH s1 Hc1 Hs1).
  destruct (ticks ins s1) as [s2 ev2]. cbn [fst snd fmap list_fmap] in *. rewrite delivered_app.
  change (ti_now i :: (ti_now <$> ins)) with ([ti_now i] ++ (ti_now <$> ins)). by eapply accounts_trans.
Qed.
End accounting.

(** * The listed time is the time of delivery *)

Section delivery.
Context (z : zone) (off : bool) (onFire : cron_task -> Z -> bool).

Definition fired (id : jsstr) (ev : list fire_event) : Prop := exists c d, OnFire id c d ∈ ev.

Definition event_id (e : fire_event) : jsstr :=
  match e with OnFire i _ _ => i | RemoveOneShot i => i | AdvanceCursor i _ => i end.

Lemma fire_events s t e base now :
  fired (task_id t) (fire z off onFire s t e base now).2 /\
  Forall (fun ev => event_id ev = task_id t) (fire z off onFire s t e base now).2.
Proof.
  unfold fire.
  destruct (match one_shot t, computeNextCronRun z e base with false, Some ideal => _ | _, _ => _ end) as [c l].
  destruct (onFire t c); [destruct (one_shot t)|]; cbn; (split; [do 2 eexists; by left|by repeat constructor]).
Qed.

Lemma tick_task_events s t now : Forall (fun ev => event_id ev = task_id t) (tick_task z off onFire now s t).2.
Proof.
  unfold tick_task. case_bool_decide; [constructor|]. destruct (getParsed s (cron t)) as [s1 [e|]]; [|constructor].
  cbv zeta. destruct (computeJitteredNext z off t e _); [|constructor]. destruct (due _ now); [|constructor].
  apply fire_events.
Qed.

(** Seeding and the listing read the same cursor. *)
Lemma seed_base s t now :
  (task_id t ∈ seededFromDisk s -> is_Some (lastSeenAt s !! task_id t)) ->
  lastSeenAt (seed s t now) !! task_id t =
  match lastSeenAt s !! task_id t with
  | Some seen => Some seen
  | None => match lastFiredAt t with Some ts => if ts <=? now then Some ts else None | None => None end
  end.
Proof.
  intros Hs. unfold seed. cbn. destruct (lastFiredAt t) as [ts|]; [|by destruct (lastSeenAt s !! task_id t)].
  destruct (lastSeenAt s !! task_id t) as [seen|] eqn:E.
  - rewrite (bool_decide_eq_true_2 (is_Some (Some seen))) by done. by rewrite andb_false_r.
  - rewrite bool_decide_eq_false_2 by (intros H%Hs; by destruct H). rewrite bool_decide_eq_false_2 by by intros [? ?].
    cbn. rewrite andb_true_r. destruct (ts <=? now); [by rewrite lookup_insert_eq|done].
Qed.

Lemma tick_task_due s t now :
  cache_ok s -> task_id t ∉ inFlight s ->
  (task_id t ∈ seededFromDisk s -> is_Some (lastSeenAt s !! task_id t)) ->
  fired (task_id t) (tick_task z off onFire now s t).2 <->
  exists q, nextFireFor z off s t now = Some q /\ due q now = true.
Proof.
  intros Hc Hf Hs. unfold tick_task, nextFireFor. rewrite bool_decide_eq_false_2 by done.
  pose proof (getParsed_spec s (cron t) Hc) as Hg. destruct (getParsed s (cron t)) as [s1 r].
  destruct Hg as (_ & _ & E1 & E2 & _). cbn [snd]. assert (Hnone : ~ fired (task_id t) []).
  { intros (c & d & H). by apply elem_of_nil in H. }
  destruct r as [e|]; [|split; [done|by intros (? & ? & ?)]]. cbv zeta.
  rewrite seed_base by (by rewrite E1, E2). rewrite E1.
  destruct (computeJitteredNext z off t e _) as [q|]; [|split; [done|by intros (? & ? & ?)]].
  destruct (due q now) eqn:Ed.
  - split; [intros _; by exists q|]. intros _. apply fire_events.
  - split; [done|]. intros (q' & [= <-] & Hd). congruence.
Qed.

Lemma tick_tasks_events tasks : forall s now ev,
  ev ∈ (tick_tasks z off onFire now s tasks).2 -> event_id ev ∈ task_id <$> tasks.
Proof.
  induction tasks as [|t tasks IH]; intros s now ev; cbn; [by intros ?%elem_of_nil|].
  pose proof (tick_task_events s t now) as Ht. destruct (tick_task z off onFire now s t) as [s1 ev1].
  specialize (IH s1 now ev). destruct (tick_tasks z off onFire now s1 tasks) as [s2 ev2]. cbn in *.
  rewrite elem_of_app. intros [H|H]; [|right; by apply IH]. rewrite Forall_forall in Ht. rewrite (Ht _ H). by left.
Qed.

Lemma fired_app id ev1 ev2 : fired id (ev1 ++ ev2) <-> fired id ev1 \/ fired id ev2.
Proof. unfold fired. setoid_rewrite elem_of_app. naive_solver. Qed.

Lemma not_fired id ev : (forall e, e ∈ ev -> event_id e <> id) -> ~ fired id ev.
Proof. intros H (c & d & Hin). by apply (H _ Hin). Qed.

Lemma nextFireFor_kept s s' t now :
  cache_ok s -> cache_ok s' -> lastSeenAt s' !! task_id t = lastSeenAt s !! task_id t ->
  nextFireFor z off s' t now = nextFireFor z off s t now.
Proof.
  intros Hc Hc' E. unfold nextFireFor. pose proof (getParsed_spec s (cron t) Hc) as H.
  pose proof (getParsed_spec s' (cron t) Hc') as H'. destruct (getParsed s (cron t)), (getParsed s' (cron t)).
  destruct H as (_ & -> & _), H' as (_ & -> & _). cbn. by rewrite E.
Qed.

Lemma tick_tasks_due ts : forall s t now,
  cache_ok s -> task_id t ∉ inFlight s -> NoDup (task_id <$> ts) -> t ∈ ts ->
  (task_id t ∈ seededFromDisk s -> is_Some (lastSeenAt s !! task_id t)) ->
  fired (task_id t) (tick_tasks z off onFire now s ts).2 <->
  exists q, nextFireFor z off s t now = Some q /\ due q now = true.
Proof.
  induction ts as [|h ts IH]; intros s t now Hc Hf Hnd Hin Hs; [by apply elem_of_nil in Hin|].
  cbn in Hnd. apply NoDup_cons in Hnd as [Hnh Hnd]. cbn [tick_tasks].
  pose proof (tick_task_events s h now) as He. rewrite Forall_forall in He.
  pose proof (fun ev s1 => tick_tasks_events ts s1 now ev) as Hts.
  apply elem_of_cons in Hin as [<-|Hin].
  - rewrite <- tick_task_due by done. destruct (tick_task z off onFire now s t) as [s1 ev1].
    pose proof (fun ev => Hts ev s1) as Hts1. destruct (tick_tasks z off onFire now s1 ts) as [s2 ev2]. cbn in *.
    rewrite fired_app. assert (Hn : ~ fired (task_id t) ev2); [|tauto].
    apply not_fired. intros e Hev E. apply Hnh. rewrite <- E. by apply Hts1.
  - assert (Hne : task_id t <> task_id h).
    { intros E. apply Hnh. rewrite <- E. by apply list_elem_of_fmap_2. }
    destruct (tick_task_kept z off onFire now s h Hc) as [[K1 K2 K3 K4] _].
    destruct (tick_task z off onFire now s h) as [s1 ev1]. cbn [fst snd] in *.
    rewrite <- (nextFireFor_kept s s1) by (done || by apply K1). rewrite <- (IH s1 t now); [|done| |done|done|].
    + destruct (tick_tasks z off onFire now s1 ts) as [s2 ev2]. cbn. rewrite fired_app.
      assert (Hn : ~ fired (task_id t) ev1); [|tauto]. apply not_fired. intros e Hev%He E. congruence.
    + by rewrite K3.
    + rewrite K2, K1 by done. done.
Qed.

(** A tick delivers exactly the tasks whose listed next fire time has come: on
    an idle tick a task fires if and only if [getNextFireForTask] gives, for the same
    instant, a time that is not later. It does not matter what the other tasks are or
    do. The task's persisted cursor must not have been passed over earlier. *)
Theorem listed_fire_is_delivered s tasks t now :
  cache_ok s -> inFlight s = ∅ -> NoDup (task_id <$> tasks) -> t ∈ tasks ->
  (task_id t ∈ seededFromDisk s -> is_Some (lastSeenAt s !! task_id t)) ->
  fired (task_id t) (tick z off onFire false true tasks now s).2 <->
  exists q, getNextFireForTask z off s tasks (task_id t) now = Some q /\ due q now = true.
Proof.
  intros Hc Hf Hnd Hin Hs. unfold tick. destruct tasks as [|t' tasks]; [by apply elem_of_nil in Hin|].
  cbn [negb]. remember (t' :: tasks) as ts eqn:Ets. clear t' tasks Ets.
  assert (Hget : getNextFireForTask z off s ts (task_id t) now = nextFireFor z off s t now).
  { unfold getNextFireForTask. apply list_elem_of_lookup in Hin as [i Hi].
    rewrite (proj2 (list_find_Some (fun t' => task_id t' = task_id t) ts i t)); [done|]. split_and!; [done|done|]. intros j y Hj Hlt E.
    assert (i = j); [|lia]. eapply (NoDup_lookup _ _ _ (task_id t) Hnd); rewrite list_lookup_fmap; [by rewrite Hi|by rewrite Hj, <- E]. }
  rewrite Hget. clear Hget. assert (Hf' : task_id t ∉ inFlight s) by (rewrite Hf; set_solver). clear Hf.
  rewrite <- (tick_tasks_due ts) by done. destruct ts as [|h ts]; [by apply elem_of_nil in Hin|].
  by destruct (tick_tasks z off onFire now s (h :: ts)).
Qed.
End delivery.

(** * Concrete instances *)

(** A task every five minutes, beside one whose expression is malformed; the second
    tick finds the session busy. *)
Definition ex_task : cron_task := CronTask (js "0a1b2c3d") (js "*/5 * * * *") 0 None None.
Definition ex_bad : cron_task := CronTask (js "ffffffff") (js "* * *") 0 None None.
Definition ex_cron : cron_expr :=
  match parseCronExpression (cron ex_task) with Ok e => e | Err _ => CronExpr [] [] [] [] [] [] false false end.
Definition ex_scheduler : scheduler := Scheduler ∅ ∅ {[task_id ex_task]} ∅.
Definition ex_ticks : list tick_input :=
  [TickInput false true [ex_bad; ex_task] 700000; TickInput false false [ex_bad; ex_task] 1000000;
   TickInput false true [ex_task] 1600000].

Lemma cron_runs_counted_once_witness :
  let '(s', ev) := ticks 0 false (fun _ _ => true) ex_ticks ex_scheduler in
  delivered (task_id ex_task) ev = 5 /\ cursor s' ex_task = 1500000 /\
  exists l, runs_in (fixed_zone 0) ex_cron 0 1500000 l /\ blen l = 5.
Proof.
  pose proof (cron_runs_counted_once 0 false (fun _ _ => true) ex_task ex_cron ex_ticks ex_scheduler) as H.
  destruct (ticks 0 false (fun _ _ => true) ex_ticks ex_scheduler) as [s' ev] eqn:E.
  assert (Hd : delivered (task_id ex_task) (snd (s', ev)) = 5) by (rewrite <- E; vm_compute; reflexivity).
  assert (Hs : cursor (fst (s', ev)) ex_task = 1500000) by (rewrite <- E; vm_compute; reflexivity).
  cbn [fst snd] in Hd, Hs. split; [exact Hd|]. split; [exact Hs|].
  destruct H as (_ & l & Hl & Hn & _).
  - reflexivity.
  - vm_compute. reflexivity.
  - unfold ex_ticks. repeat (apply Forall_cons_2 || apply Forall_nil_2); cbn [ti_tasks]; unfold tasks_ok;
      repeat (apply Forall_cons_2 || apply Forall_nil_2); intros Hid; (split; reflexivity) || (vm_compute in Hid; discriminate).
  - apply map_Forall_empty.
  - apply (bool_decide_unpack _). vm_compute. exact I.
  - exists l. rewrite <- Hn, Hd. split; [|reflexivity]. rewrite Hs in Hl. exact Hl.
Defined.

Lemma listed_fire_is_delivered_witness :
  fired (task_id ex_task) (tick (fixed_zone 0) false (fun _ _ => true) false true [ex_bad; ex_task] 400000 createCronScheduler).2.
Proof.
  apply (listed_fire_is_delivered (fixed_zone 0) false (fun _ _ => true) createCronScheduler [ex_bad; ex_task] ex_task 400000).
  - apply map_Forall_empty.
  - reflexivity.
  - apply (bool_decide_unpack _). vm_compute. exact I.
  - right. left.
  - intros H. exfalso. revert H. apply not_elem_of_empty.
  - eexists. split; [vm_compute; reflexivity|]. vm_compute. reflexivity.
Defined.
