(* ===== verification/MiniDb.v ===== *)
(** The write path of the database ([packages/minidb/src/index.ts]): applying an
    operation to the store and every derived index, rolling it back when its log
    write fails, publishing disk pointers, dropping what expires, and applying the
    operations a replica catches up with. The awaits split a write into a synchronous
    part and what runs when the log's promise settles; anything may run in between.

    Text indexes are any implementation of the interface [TextIndex]. Keys are
    buffers; the identities of the objects a decoding makes are arguments. *)

From S2P Require Import Prelude JsMap Codec ScanRefs Json Ordered MinHeap Store DtIndex.
From S2P Require Import JsonText IndexManager CompoundIndex Recovery.

(** What the database expects of a full-text index: it holds documents by key. *)
Class TextIndex (X : Type) := {
  ti_add : X -> jsstr -> json -> X;
  ti_remove : X -> jsstr -> X;
  ti_holds : X -> (jsstr -> option json) -> Prop;
}.

Class TextIndexLaws (X : Type) `{!TextIndex X} : Prop := {
  ti_add_holds : forall x D k d, ti_holds x D -> ti_holds (ti_add x k d) (upd D k (Some d));
  ti_remove_holds : forall x D k, ti_holds x D -> ti_holds (ti_remove x k) (upd D k None);
  ti_holds_ext : forall x D D', (forall k, D k = D' k) -> ti_holds x D -> ti_holds x D';
}.

(** * Preparing operations *)

Record prepared := Prepared {
  p_type : Z;
  p_key : buffer;
  p_value : option buffer;
  p_meta : option buffer;
  p_expireAt : Z;
  p_dtNorm : option dt_map;
  p_pk : jsstr;
  p_doc : option document;        (* valueDecoded *)
}.

Inductive db_error := KeyTooLong | KeyEmpty | TtlNotFinite | DbStoreError (e : store_error).

Inductive js_number := Finite (n : Z) | NotFinite.
Inductive dt_value := DtNumber (n : js_number) | DtString (s : jsstr).

Section prepare.
(** [Date.parse]. *)
Context (Date_parse : jsstr -> js_number) (encode : json -> buffer) (dt_text : dt_map -> buffer).

Definition checkKey (key : buffer) : result db_error unit :=
  if MAX_KEY_LEN <? blen key then Err KeyTooLong
  else if blen key =? 0 then Err KeyEmpty else Ok tt.

(** The result for a map that is given. Its property names are distinct. *)
Definition normDt (d : option (list (jsstr * dt_value))) : option dt_map :=
  match d with
  | None => None
  | Some d =>
      let out := omap (fun '(k, v) =>
        match (match v with DtNumber n => n | DtString s => Date_parse s end) with
        | Finite ms => Some (k, ms)
        | NotFinite => None
        end) d in
      if bool_decide (out = []) then None else Some out
  end.

Definition prepareSet (key : buffer) (value : document) (ttl : option js_number)
    (d : option (list (jsstr * dt_value))) (now : Z) : result db_error prepared :=
  let? _ := checkKey key in
  let dtNorm := normDt d in
  match ttl with
  | Some NotFinite => Err TtlNotFinite
  | _ =>
      let expireAt := match ttl with Some (Finite t) => if t =? 0 then 0 else now + t | _ => 0 end in
      Ok (Prepared TYPE_SET key (Some (encode (doc_value value))) (dt_text <$> dtNorm) expireAt dtNorm (toKStr key) (Some value))
  end.

Definition prepareDel (key : buffer) : result db_error prepared :=
  let? _ := checkKey key in
  Ok (Prepared TYPE_DEL key None None 0 None (toKStr key) None).
End prepare.

(** * The database *)

Section minidb.
Context {TK TZ TO X : Type} `{!OrderedIndex jsstr jsstr TK} `{!OrderedIndex Z jsstr TZ} `{!OrderedIndex order_key jsstr TO}.
Context `{!TextIndex X}.
Context (readValue : option (value_loc -> option buffer)) (decode : buffer -> json).

Record db := Db {
  db_store : store (T := TK);
  db_idx : list (jsstr * any_index TZ);
  db_dt : dt_index TZ;
  db_comp : list (jsstr * compound_entry TO);
  db_text : list (jsstr * X);
  db_access : list jsstr;
  db_maxMemory : option Z;
}.

Definition with_store (d : db) (s : store) : db :=
  Db s (db_idx d) (db_dt d) (db_comp d) (db_text d) (db_access d) (db_maxMemory d).

Definition indexable (v : option json) : bool := match v with Some v => is_object v | None => false end.

Definition text_remove (k : jsstr) (t : list (jsstr * X)) : list (jsstr * X) := prod_map id (fun ti => ti_remove ti k) <$> t.
Definition text_add (k : jsstr) (v : json) (t : list (jsstr * X)) : list (jsstr * X) := prod_map id (fun ti => ti_add ti k v) <$> t.

Definition touchAccess (d : db) (pk : jsstr) : db :=
  match db_maxMemory d with
  | None => d
  | Some _ => Db (db_store d) (db_idx d) (db_dt d) (db_comp d) (db_text d) (sdel (db_access d) pk ++ [pk]) (db_maxMemory d)
  end.

(** Drop the derived entries of a key, as [onStoreExpire] does; removing from an
    empty set of secondary indexes does nothing. *)
Definition onStoreExpire (d : db) (k : jsstr) : db :=
  Db (db_store d) (IndexManager.remove (db_idx d) k) (DtIndex.del (db_dt d) k) (CompoundIndex.remove (db_comp d) k)
    (text_remove k (db_text d)) (sdel (db_access d) k) (db_maxMemory d).

(** [store.get], its expiry callback included. *)
Definition store_get (d : db) (now : Z) (k : jsstr) : result db_error (option buffer) * db :=
  let '(r, s, ev) := Store.get readValue (db_store d) now k in
  (match r with Ok v => Ok v | Err e => Err (DbStoreError e) end,
   fold_left (fun d e => onStoreExpire d e.1) ev (with_store d s)).

Definition seq_of (d : db) (pk : jsstr) : option Z := rseq <$> jget (map (db_store d)) pk.

(** [applyOp]: the new database and the record the key had. *)
Definition applyOp (d : db) (now : Z) (op : prepared) : result db_error (db * option store_record) :=
  let '(got, d) := store_get d now (p_pk op) in
  let? oldBuf := got in
  let prev := match oldBuf with Some _ => jget (map (db_store d)) (p_pk op) | None => None end in
  let oldDoc := match oldBuf with
                | Some b => if bool_decide (db_idx d = []) then None else Some (decode b)
                | None => None
                end in
  if p_type op =? TYPE_SET then
    let doc := doc_value <$> p_doc op in
    let s := Store.set (db_store d) (toKStr (p_key op)) (default [] (p_value op)) (p_expireAt op) (p_dtNorm op) in
    let idx0 := if indexable oldDoc then IndexManager.remove (db_idx d) (p_pk op) else db_idx d in
    let idx := match doc with Some v => if is_object v then IndexManager.add idx0 (p_pk op) v else idx0 | None => idx0 end in
    let text := match doc with
                | Some v => if is_object v then text_add (p_pk op) v (db_text d) else text_remove (p_pk op) (db_text d)
                | None => text_remove (p_pk op) (db_text d)
                end in
    let comp := match p_doc op with
                | Some document => CompoundIndex.add (db_comp d) (p_pk op) document (p_dtNorm op)
                | None => db_comp d
                end in
    Ok (touchAccess (Db s idx (DtIndex.set (db_dt d) (p_pk op) (p_dtNorm op)) comp text (db_access d) (db_maxMemory d))
          (p_pk op), prev)
  else if p_type op =? TYPE_DEL then
    let '(existed, s) := Store.del (db_store d) (toKStr (p_key op)) in
    if existed then
      let idx := if indexable oldDoc then IndexManager.remove (db_idx d) (p_pk op) else db_idx d in
      Ok (Db s idx (DtIndex.del (db_dt d) (p_pk op)) (CompoundIndex.remove (db_comp d) (p_pk op))
            (text_remove (p_pk op) (db_text d)) (sdel (db_access d) (p_pk op)) (db_maxMemory d), prev)
    else Ok (with_store d s, prev)
  else Ok (d, prev).

(** [restoreKey]; [fresh] are the identities of the document decoded again. *)
Definition restoreKey (d : db) (now : Z) (fresh : jsstr -> N) (pk : jsstr) (prev : option store_record) (appliedSeq : option Z)
    : result db_error db :=
  if negb (bool_decide (seq_of d pk = appliedSeq)) then Ok d
  else
    let d1 := Db (db_store d) (IndexManager.remove (db_idx d) pk) (DtIndex.del (db_dt d) pk)
                (CompoundIndex.remove (db_comp d) pk) (text_remove pk (db_text d)) (db_access d) (db_maxMemory d) in
    match prev with
    | None =>
        Ok (Db (Store.del (db_store d1) pk).2 (db_idx d1) (db_dt d1) (db_comp d1) (db_text d1) (sdel (db_access d1) pk)
              (db_maxMemory d1))
    | Some prev =>
        let d2 := touchAccess (with_store d1 (Store.setRef (db_store d1) pk (ref prev) (expireAt prev) (dt prev))) pk in
        let '(got, d3) := store_get d2 now pk in
        let? buf := got in
        let doc := decode <$> buf in
        let comp := match doc with
                    | Some v => CompoundIndex.add (db_comp d3) pk (Document v fresh) (dt prev)
                    | None => CompoundIndex.add (db_comp d3) pk (Document JNull fresh) (dt prev)
                    end in
        let idx := match doc with Some v => if is_object v then IndexManager.add (db_idx d3) pk v else db_idx d3 | None => db_idx d3 end in
        let text := match doc with Some v => if is_object v then text_add pk v (db_text d3) else db_text d3 | None => db_text d3 end in
        Ok (Db (db_store d3) idx (DtIndex.set (db_dt d3) pk (dt prev)) comp text (db_access d3) (db_maxMemory d3))
    end.

(** [publishWalRef]; [same_wal] says that no rotation replaced the log. *)
Definition publishWalRef (d : db) (same_wal : bool) (pk : jsstr) (seq : option Z) (loc : value_loc) (exp : Z) (dtn : option dt_map) : db :=
  match seq with
  | None => d
  | Some n =>
      if negb same_wal then d
      else
        match jget (map (db_store d)) pk with
        | None => d
        | Some cur => if negb (rseq cur =? n) then d
                      else with_store d (Store.setRef (db_store d) pk (Disk loc) exp dtn)
        end
  end.

(** ** Catching up *)

(** [applyRecoveredOp]; the clock reads [now'] when the new record is read back. *)
Definition applyRecoveredOp (d : db) (now now' : Z) (fresh : jsstr -> N) (op : recovered_op) : result db_error db :=
  let pk := toKStr (ro_key op) in
  let? r1 := (if bool_decide (db_idx d = []) then Ok (None, d)
              else let '(got, d') := store_get d now pk in let? b := got in Ok (decode <$> b, d')) in
  let '(oldDoc, d) := r1 in
  if ro_type op =? TYPE_DEL then
    let '(existed, s) := Store.del (db_store d) pk in
    if negb existed then Ok (with_store d s)
    else
      let idx := if indexable oldDoc then IndexManager.remove (db_idx d) pk else db_idx d in
      Ok (Db s idx (DtIndex.del (db_dt d) pk) (CompoundIndex.remove (db_comp d) pk) (text_remove pk (db_text d))
            (sdel (db_access d) pk) (db_maxMemory d))
  else
    let d1 := with_store d (Store.setRef (db_store d) pk (default (Memory []) (ro_ref op)) (ro_expireAt op) (ro_dt op)) in
    let '(got, d2) := store_get d1 now' pk in
    let? buf := got in
    match buf with
    | None => Ok d2
    | Some b =>
        let dt' := DtIndex.set (db_dt d2) pk (ro_dt op) in
        if bool_decide (db_idx d2 = [] /\ db_text d2 = [] /\ db_comp d2 = []) then
          Ok (touchAccess (Db (db_store d2) (db_idx d2) dt' (db_comp d2) (db_text d2) (db_access d2) (db_maxMemory d2)) pk)
        else
          let doc := decode b in
          let idx0 := if indexable oldDoc then IndexManager.remove (db_idx d2) pk else db_idx d2 in
          let idx := if is_object doc then IndexManager.add idx0 pk doc else idx0 in
          let text := if is_object doc then text_add pk doc (db_text d2) else text_remove pk (db_text d2) in
          Ok (touchAccess (Db (db_store d2) idx dt' (CompoundIndex.add (db_comp d2) pk (Document doc fresh) (ro_dt op)) text
                (db_access d2) (db_maxMemory d2)) pk)
    end.

(** * Consistency *)

Context `{!OrderedIndexLaws (T := TK) cmpString cmpString} `{!OrderedIndexLaws (T := TZ) cmpNumber cmpString}.
Context `{!OrderedIndexLaws (T := TO) cmp_order cmpString} `{!TextIndexLaws X}.

Abbreviation content := (json * option dt_map)%type.
Abbreviation contents := (jsstr -> option content).

Definition value_of (r : store_record) : option buffer :=
  match materialize readValue (ref r) with Ok b => Some b | Err _ => None end.

(** What the store holds, expired records that nobody has dropped yet included. *)
Definition record_content (r : store_record) : option content := b ← value_of r; Some (decode b, dt r).
Definition contents_of (s : store (T := TK)) : contents := fun k => jget (map s) k ≫= record_content.

Definition cupd (C : contents) (pk : jsstr) (o : option content) : contents := fun k => if decide (k = pk) then o else C k.
Definition docs_of (C : contents) : jsstr -> option json :=
  fun k => c ← C k; if is_object c.1 then Some c.1 else None.

Definition dt_holds (t : dt_index TZ) (C : contents) : Prop :=
  DtIndex.inv t /\ forall k name, dt_at t k name = (c ← C k; m ← c.2; jget m name).

Definition placed_at (def : compound_def) (ids : jsstr -> jsstr -> N) (C : contents) : jsstr -> option (group_key * order_key) :=
  fun k => c ← C k; placement def (Document c.1 (ids k)) c.2.
Definition comp_holds (m : list (jsstr * compound_entry TO)) (C : contents) : Prop :=
  exists ids, Forall (fun e => repr_entry e.2 (placed_at (ce_def e.2) ids C)) m.

Definition text_holds (t : list (jsstr * X)) (C : contents) : Prop := Forall (fun e => ti_holds e.2 (docs_of C)) t.

(** Every derived index holds the contents. *)
Record derived (d : db) (C : contents) : Prop := {
  de_idx : repr_mgr (db_idx d) (docs_of C);
  de_dt : dt_holds (db_dt d) C;
  de_comp : comp_holds (db_comp d) C;
  de_text : text_holds (db_text d) C;
}.

Definition record_ok (r : store_record) : Prop := is_Some (value_of r) /\ dt_wf (dt r).

Record consistent (d : db) : Prop := {
  co_store : store_wf (db_store d);
  co_records : forall k r, jget (map (db_store d)) k = Some r -> record_ok r;
  co_derived : derived d (contents_of (db_store d));
}.

Lemma docs_cupd C pk o k :
  docs_of (cupd C pk o) k = upd (docs_of C) pk (c ← o; if is_object c.1 then Some c.1 else None) k.
Proof. unfold docs_of, cupd, upd. by case_decide. Qed.

Lemma dt_drop t C pk : dt_holds t C -> dt_holds (DtIndex.del t pk) (cupd C pk None).
Proof.
  intros [Hi Ht]. destruct (del_spec t pk Hi) as [Hi' Hd]. split; [done|]. intros k name. rewrite Hd. unfold cupd.
  by case_decide.
Qed.

Lemma dt_put t C pk v m : dt_wf m -> dt_holds t C -> dt_holds (DtIndex.set t pk m) (cupd C pk (Some (v, m))).
Proof.
  intros Hm [Hi Ht]. destruct (set_spec t pk m Hi Hm) as [Hi' Hd]. split; [done|]. intros k name. rewrite Hd. unfold cupd.
  case_decide; [|done]. cbn. by destruct m.
Qed.

Lemma comp_drop m C pk : comp_holds m C -> comp_holds (CompoundIndex.remove m pk) (cupd C pk None).
Proof.
  intros [ids Hm]. exists ids. unfold CompoundIndex.remove. rewrite Forall_fmap. eapply Forall_impl; [exact Hm|].
  intros [n e] He. cbn in *. rewrite remove_one_def. eapply repr_entry_ext; [|by apply compound_remove_one_spec].
  intros k. unfold put, placed_at, cupd. by case_decide.
Qed.

Lemma comp_put m C pk doc dtm : comp_holds m C -> comp_holds (CompoundIndex.add m pk doc dtm) (cupd C pk (Some (doc_value doc, dtm))).
Proof.
  intros [ids Hm]. exists (fun k => if decide (k = pk) then doc_ids doc else ids k).
  unfold CompoundIndex.add. rewrite Forall_fmap. eapply Forall_impl; [exact Hm|].
  intros [n e] He. cbn in *. rewrite add_one_def. eapply repr_entry_ext; [|by apply compound_add_one_spec].
  intros k. unfold put, placed_at, cupd. case_decide; [by destruct doc|done].
Qed.

Lemma text_drop t C pk : text_holds t C -> text_holds (text_remove pk t) (cupd C pk None).
Proof.
  intros Ht. unfold text_holds, text_remove. rewrite Forall_fmap. eapply Forall_impl; [exact Ht|]. intros [n x] Hx. cbn in *.
  eapply ti_holds_ext; [|by apply ti_remove_holds]. intros k. by rewrite docs_cupd.
Qed.

Lemma text_put t C pk v dtm :
  text_holds t C -> text_holds (if is_object v then text_add pk v t else text_remove pk t) (cupd C pk (Some (v, dtm))).
Proof.
  intros Ht. destruct (is_object v) eqn:E.
  - unfold text_holds, text_add. rewrite Forall_fmap. eapply Forall_impl; [exact Ht|]. intros [n x] Hx. cbn in *.
    eapply ti_holds_ext; [|by apply ti_add_holds]. intros k. rewrite docs_cupd. cbn. by rewrite E.
  - unfold text_holds, text_remove. rewrite Forall_fmap. eapply Forall_impl; [exact Ht|]. intros [n x] Hx. cbn in *.
    eapply ti_holds_ext; [|by apply ti_remove_holds]. intros k. rewrite docs_cupd. cbn. by rewrite E.
Qed.

Lemma idx_drop m C pk : repr_mgr m (docs_of C) -> repr_mgr (IndexManager.remove m pk) (docs_of (cupd C pk None)).
Proof. intros Hm. eapply repr_mgr_ext; [|by apply remove_spec]. intros k. by rewrite docs_cupd. Qed.

(** The secondary indexes are updated from the old and the new document. *)
Lemma idx_unput m C pk (old : option json) :
  repr_mgr m (docs_of C) -> (m <> [] -> docs_of C pk = (o ← old; if is_object o then Some o else None)) ->
  repr_mgr (if indexable old then IndexManager.remove m pk else m) (upd (docs_of C) pk None).
Proof.
  intros Hm Hold. destruct (decide (m = [])) as [->|Hne].
  { destruct (indexable old); split; constructor. }
  specialize (Hold Hne). unfold indexable. destruct old as [o|]; cbn in *; [destruct (is_object o)|].
  - by apply remove_spec.
  - eapply repr_mgr_ext; [|exact Hm]. intros k. unfold upd. case_decide; [by subst|done].
  - eapply repr_mgr_ext; [|exact Hm]. intros k. unfold upd. case_decide; [by subst|done].
Qed.

Lemma idx_put m C pk v dtm (old : option json) :
  repr_mgr m (docs_of C) -> (m <> [] -> docs_of C pk = (o ← old; if is_object o then Some o else None)) ->
  let m0 := if indexable old then IndexManager.remove m pk else m in
  repr_mgr (if is_object v then IndexManager.add m0 pk v else m0) (docs_of (cupd C pk (Some (v, dtm)))).
Proof.
  intros Hm Hold m0. pose proof (idx_unput m C pk old Hm Hold) as H0. fold m0 in H0. destruct (is_object v) eqn:E.
  - eapply repr_mgr_ext; [|apply add_spec; [|exact H0]]; [|unfold upd; by rewrite decide_True].
    intros k. rewrite docs_cupd. cbn. rewrite E. unfold upd. by case_decide.
  - eapply repr_mgr_ext; [|exact H0]. intros k. rewrite docs_cupd. cbn. by rewrite E.
Qed.

Lemma derived_ext d d' C C' :
  (forall k, C k = C' k) -> db_idx d' = db_idx d -> db_dt d' = db_dt d -> db_comp d' = db_comp d -> db_text d' = db_text d ->
  derived d C -> derived d' C'.
Proof.
  intros HC E1 E2 E3 E4 [I1 [I2 I2'] [ids I3] I4].
  assert (HD : forall k, docs_of C k = docs_of C' k) by (intros k; unfold docs_of; by rewrite HC).
  split.
  - rewrite E1. by eapply repr_mgr_ext.
  - rewrite E2. split; [done|]. intros k name. by rewrite I2', HC.
  - rewrite E3. exists ids. eapply Forall_impl; [exact I3|]. intros e. apply repr_entry_ext. intros k. unfold placed_at. by rewrite HC.
  - rewrite E4. eapply Forall_impl; [exact I4|]. intros e. by apply ti_holds_ext.
Qed.

Lemma derived_contents d C C' : (forall k, C k = C' k) -> derived d C -> derived d C'.
Proof. intros HC. by apply derived_ext. Qed.

(** ** Expiry *)

Lemma drop_derived d C k : derived d C -> derived (onStoreExpire d k) (cupd C k None).
Proof.
  intros [I1 I2 I3 I4]. split; cbn; [by apply idx_drop|by apply dt_drop|by apply comp_drop|by apply text_drop].
Qed.

Lemma drop_events_store ev : forall d, db_store (fold_left (fun d (e : event) => onStoreExpire d e.1) ev d) = db_store d.
Proof. induction ev as [|e ev IH]; intros d; [done|]. cbn [fold_left]. by rewrite IH. Qed.

Lemma drop_events_derived ev : forall d C, derived d C ->
  derived (fold_left (fun d (e : event) => onStoreExpire d e.1) ev d) (fun k => if decide (k ∈ ev.*1) then None else C k).
Proof.
  induction ev as [|e ev IH]; intros d C Hd; cbn [fold_left].
  - eapply derived_ext; [|reflexivity..|exact Hd]. intros k. cbn. by rewrite decide_False by apply not_elem_of_nil.
  - eapply derived_ext; [|reflexivity..|apply IH, drop_derived, Hd]. intros k. cbn. unfold cupd.
    destruct (decide (k ∈ ev.*1)) as [Hin|Hn].
    + by rewrite decide_True by by right.
    + destruct (decide (k = e.1)) as [->|Hne]; [by rewrite decide_True by by left|].
      rewrite decide_False; [done|]. by intros [?|?]%elem_of_cons.
Qed.

(** Whatever the store drops as expired, the derived indexes drop too. *)
Lemma reaps_consistent d now s' ev :
  consistent d -> reaps now (db_store d) s' ev ->
  consistent (fold_left (fun d (e : event) => onStoreExpire d e.1) ev (with_store d s')).
Proof.
  intros [Hs Hr Hd] [W E N R]. split.
  - by rewrite drop_events_store.
  - rewrite drop_events_store. cbn. intros k r Hk. destruct (decide (k ∈ ev.*1)) as [Hin|Hn].
    + apply elem_ev in Hin as [r' Hin]. destruct (E _ _ Hin) as (_ & _ & Hnone). congruence.
    + rewrite R in Hk by done. by eapply Hr.
  - rewrite drop_events_store. cbn. eapply derived_ext; [|reflexivity..|apply (drop_events_derived ev (with_store d s')), (derived_ext d _ _ _ (fun _ => eq_refl)); [reflexivity..|exact Hd]].
    intros k. cbn. unfold contents_of. destruct (decide (k ∈ ev.*1)) as [Hin|Hn].
    + apply elem_ev in Hin as [r' Hin]. by destruct (E _ _ Hin) as (_ & _ & ->).
    + by rewrite R.
Qed.

Lemma getRecord_map (s : store (T := TK)) now k k' :
  jwf (map s) ->
  jget (map (getRecord s now k).1.2) k' = if decide (k' = k) then (getRecord s now k).1.1 else jget (map s) k'.
Proof.
  intros Hw. unfold getRecord. destruct (jget (map s) k) as [r|] eqn:Hk; [|case_decide; [by subst|done]].
  destruct (expired r now); [|case_decide; [by subst|done]]. unfold expireKey.
  pose proof (remove_map s k) as Hm. destruct (Store.remove s k) as [ok s']. cbn in *. rewrite Hm, jget_del by done.
  destruct (decide (k = k')) as [->|]; [by rewrite decide_True|by rewrite decide_False by congruence].
Qed.

(** How an operation may change the records: a record it writes gets a number above
    all those given out before. *)
Record fresh_writes (s s' : store (T := TK)) : Prop := {
  fw_seq : Store.seq s <= Store.seq s';
  fw_new : forall k r, jget (map s') k = Some r -> jget (map s) k = Some r \/ Store.seq s < rseq r <= Store.seq s';
}.

Lemma fresh_writes_refl s : fresh_writes s s.
Proof. split; [lia|auto]. Qed.

Lemma fresh_writes_trans s1 s2 s3 : fresh_writes s1 s2 -> fresh_writes s2 s3 -> fresh_writes s1 s3.
Proof.
  intros [A1 A2] [B1 B2]. split; [lia|]. intros k r Hk. destruct (B2 k r Hk) as [Hk2|?]; [|right; lia].
  destruct (A2 k r Hk2) as [?|?]; [by left|right; lia].
Qed.

Lemma seq_setRef (s : store (T := TK)) k rf exp dtm : Store.seq (setRef s k rf exp dtm) = Store.seq s + 1.
Proof. unfold setRef. by destruct (truthy exp). Qed.

Lemma seq_remove (s : store (T := TK)) k : Store.seq (Store.remove s k).2 = Store.seq s.
Proof. unfold Store.remove. by destruct (jget (map s) k). Qed.

Lemma seq_getRecord (s : store (T := TK)) now k : Store.seq (getRecord s now k).1.2 = Store.seq s.
Proof.
  unfold getRecord. destruct (jget (map s) k) as [r|]; [|done]. destruct (expired r now); [|done].
  unfold expireKey. pose proof (seq_remove s k) as H. by destruct (Store.remove s k).
Qed.

Lemma fresh_setRef s k rf exp dtm : fresh_writes s (setRef s k rf exp dtm).
Proof.
  split; rewrite seq_setRef; [lia|]. intros k' r. rewrite setRef_map, jget_set. case_decide; [|auto].
  intros [= <-]. right. cbn. lia.
Qed.

Lemma fresh_remove s k : jwf (map s) -> fresh_writes s (Store.remove s k).2.
Proof.
  intros Hw. split; rewrite seq_remove; [lia|]. intros k' r. rewrite remove_map, jget_del by done. by case_decide; [|left].
Qed.

Lemma fresh_reaps now s s' ev : Store.seq s' = Store.seq s -> reaps now s s' ev -> fresh_writes s s'.
Proof.
  intros Hseq [W E N R]. split; [lia|]. intros k r Hk. left. rewrite <- R; [done|]. intros Hin.
  apply elem_ev in Hin as [r' Hin]. destruct (E _ _ Hin) as (_ & _ & ?). congruence.
Qed.

(** The record a read at [now] sees, and what the read leaves. *)
Lemma store_get_spec d now k :
  consistent d ->
  let '(got, d') := store_get d now k in
  got = Ok (view (db_store d) now k ≫= value_of) /\ consistent d' /\
  jget (map (db_store d')) k = view (db_store d) now k /\
  (forall k', k' <> k -> jget (map (db_store d')) k' = jget (map (db_store d)) k') /\
  fresh_writes (db_store d) (db_store d').
Proof.
  intros Hc. unfold store_get. rewrite get_getRecord. pose proof (seq_getRecord (db_store d) now k) as Hq.
  pose proof (getRecord_out (db_store d) now k) as Ho. pose proof (getRecord_reaps (db_store d) now k (co_store d Hc)) as Hr.
  destruct (getRecord (db_store d) now k) as [[r s] ev] eqn:Eg. cbn [fst snd] in *.
  assert (Ev : view (db_store d) now k = r).
  { unfold view. rewrite Ho. by destruct (jget (map (db_store d)) k). }
  rewrite Ev. split; [|split; [by eapply reaps_consistent|]].
  - destruct r as [r|]; [|done]. assert (Hk : jget (map (db_store d)) k = Some r).
    { unfold view in Ev. destruct (jget (map (db_store d)) k) as [r'|]; [|done]. destruct (expired r' now); [done|exact Ev]. }
    destruct (co_records d Hc k r Hk) as [[b Hb] _]. cbn. unfold value_of in *.
    destruct (materialize readValue (ref r)) as [b'|]; [|done]. cbn. by injection Hb as ->.
  - rewrite !drop_events_store. cbn [db_store with_store].
    pose proof (getRecord_map (db_store d) now k) as Hm. rewrite Eg in Hm. cbn [fst snd] in Hm.
    assert (Hw : jwf (map (db_store d))) by apply (wf_map _ (co_store d Hc)).
    split_and!; [by rewrite Hm, decide_True|intros k' Hne; by rewrite Hm, decide_False|].
    by eapply fresh_reaps.
Qed.

(** ** Writing one key *)

(** [d'] differs from [d] in the record of [pk], which is now [o n] for the number
    [n] it was given. *)
Record writes (d : db) (pk : jsstr) (o : Z -> option store_record) (d' : db) : Prop := {
  wr_consistent : consistent d';
  wr_record : exists n, jget (map (db_store d')) pk = o n;
  wr_other : forall k, k <> pk -> jget (map (db_store d')) k = jget (map (db_store d)) k;
  wr_fresh : fresh_writes (db_store d) (db_store d');
}.

Lemma contents_set s k rf exp dtm k' :
  contents_of (setRef s k rf exp dtm) k' = cupd (contents_of s) k (record_content (StoreRecord rf exp 0 dtm)) k'.
Proof.
  unfold contents_of, cupd. rewrite setRef_map, jget_set. destruct (decide (k = k')) as [->|Hne].
  - by rewrite decide_True.
  - by rewrite decide_False by congruence.
Qed.

Lemma contents_del s k k' : jwf (map s) -> contents_of (Store.remove s k).2 k' = cupd (contents_of s) k None k'.
Proof.
  intros Hw. unfold contents_of, cupd. rewrite remove_map, jget_del by done. destruct (decide (k = k')) as [->|Hne].
  - by rewrite decide_True.
  - by rewrite decide_False by congruence.
Qed.

Lemma put_writes d d' pk rf exp dtm :
  consistent d -> record_ok (StoreRecord rf exp 0 dtm) -> db_store d' = setRef (db_store d) pk rf exp dtm ->
  derived d' (cupd (contents_of (db_store d)) pk (record_content (StoreRecord rf exp 0 dtm))) ->
  writes d pk (fun n => Some (StoreRecord rf exp n dtm)) d'.
Proof.
  intros [Hs Hr _] Hok E Hd. split; [split|..]; rewrite E.
  - apply setRef_wf, Hs.
  - intros k r. rewrite setRef_map, jget_set. case_decide; [intros [= <-]; exact Hok|apply Hr].
  - eapply derived_contents; [|exact Hd]. intros k. by rewrite contents_set.
  - eexists. by rewrite setRef_map, jget_set_eq.
  - intros k Hne. by rewrite setRef_map, jget_set_ne.
  - apply fresh_setRef.
Qed.

Lemma drop_put_writes d s1 d' pk :
  consistent d -> store_wf s1 -> (forall k, k <> pk -> jget (map s1) k = jget (map (db_store d)) k) ->
  fresh_writes (db_store d) s1 -> db_store d' = (Store.remove s1 pk).2 ->
  derived d' (cupd (contents_of (db_store d)) pk None) -> writes d pk (fun _ => None) d'.
Proof.
  intros [_ Hr _] Hs Ho Hf E Hd. assert (Hw : jwf (map s1)) by apply Hs. split; [split|..]; rewrite E.
  - by apply remove_wf.
  - intros k r. rewrite remove_map, jget_del by done. destruct (decide (pk = k)); [done|]. rewrite Ho by done. apply Hr.
  - eapply derived_contents; [|exact Hd]. intros k. rewrite contents_del by done. unfold cupd, contents_of.
    case_decide; [done|]. by rewrite Ho.
  - exists 0. rewrite remove_map. by apply jget_del_eq.
  - intros k Hne. rewrite remove_map, jget_del_ne by done. by apply Ho.
  - eapply fresh_writes_trans; [exact Hf|]. by apply fresh_remove.
Qed.

Lemma drop_writes d d' pk :
  consistent d -> db_store d' = (Store.remove (db_store d) pk).2 -> derived d' (cupd (contents_of (db_store d)) pk None) ->
  writes d pk (fun _ => None) d'.
Proof. intros Hc. apply drop_put_writes; [done|apply Hc|done|apply fresh_writes_refl]. Qed.

(** Nothing but the record itself had to go. *)
Lemma absent_writes d d' pk :
  consistent d -> jget (map (db_store d)) pk = None -> db_store d' = (Store.remove (db_store d) pk).2 ->
  db_idx d' = db_idx d -> db_dt d' = db_dt d -> db_comp d' = db_comp d -> db_text d' = db_text d ->
  writes d pk (fun _ => None) d'.
Proof.
  intros Hc Hn E E1 E2 E3 E4. apply drop_writes; [done..|].
  apply (derived_ext d _ (contents_of (db_store d))); try done; [|apply Hc]. intros k. unfold cupd. case_decide; [|done].
  subst k. unfold contents_of. by rewrite Hn.
Qed.

Lemma writes_after d d0 pk o d' :
  writes d pk o d' -> (forall k, k <> pk -> jget (map (db_store d)) k = jget (map (db_store d0)) k) ->
  fresh_writes (db_store d0) (db_store d) -> writes d0 pk o d'.
Proof.
  intros [H1 H2 H3 H4] Ho Hf. split; [done..| |by eapply fresh_writes_trans]. intros k Hne. rewrite H3 by done. by apply Ho.
Qed.

Lemma result_after {E : Type} (x : result E db) d d0 pk o :
  (exists d', x = Ok d' /\ writes d pk o d') ->
  (forall k, k <> pk -> jget (map (db_store d)) k = jget (map (db_store d0)) k) ->
  fresh_writes (db_store d0) (db_store d) -> exists d', x = Ok d' /\ writes d0 pk o d'.
Proof. intros (d' & Hx & H) Ho Hf. exists d'. split; [done|by eapply writes_after]. Qed.

Lemma result_ext {E : Type} (x : result E db) d pk o o' :
  (forall n, o n = o' n) -> (exists d', x = Ok d' /\ writes d pk o d') -> exists d', x = Ok d' /\ writes d pk o' d'.
Proof. intros Ho (d' & Hx & [H1 [n H2] H3 H4]). exists d'. split; [done|]. split; [done| |done..]. exists n. by rewrite <- Ho. Qed.

Lemma touch_store d pk : db_store (touchAccess d pk) = db_store d.
Proof. unfold touchAccess. by destruct (db_maxMemory d). Qed.

Lemma touch_derived d pk C : derived d C -> derived (touchAccess d pk) C.
Proof. unfold touchAccess. destruct (db_maxMemory d); [|done]. by apply derived_ext. Qed.

Lemma touch_consistent d pk : consistent d -> consistent (touchAccess d pk).
Proof. intros [H1 H2 H3]. split; rewrite touch_store; [done..|]. by apply touch_derived. Qed.

(** ** Applying an operation *)

Record op_ok (op : prepared) : Prop := {
  oo_pk : p_pk op = toKStr (p_key op);
  oo_dt : dt_wf (p_dtNorm op);
  oo_kind : (p_type op = TYPE_SET /\ exists b doc, p_value op = Some b /\ p_doc op = Some doc /\ decode b = doc_value doc) \/
            p_type op = TYPE_DEL;
}.

(** The record an operation leaves. *)
Definition op_record (op : prepared) (seq : Z) : option store_record :=
  if p_type op =? TYPE_SET then Some (StoreRecord (Memory (default [] (p_value op))) (p_expireAt op) seq (p_dtNorm op)) else None.

(** The document the secondary indexes hold for a key. *)
Lemma live_doc d pk (r : option store_record) :
  jget (map (db_store d)) pk = r ->
  docs_of (contents_of (db_store d)) pk = (o ← decode <$> (r ≫= value_of); if is_object o then Some o else None).
Proof.
  intros Hk. unfold docs_of, contents_of, record_content. rewrite Hk. destruct r as [r|]; [|done]. cbn. by destruct (value_of r).
Qed.

Lemma applyOp_spec d now op :
  consistent d -> op_ok op ->
  exists d', applyOp d now op = Ok (d', view (db_store d) now (p_pk op)) /\ writes d (p_pk op) (op_record op) d'.
Proof.
  intros Hc Hop. unfold applyOp. pose proof (store_get_spec d now (p_pk op) Hc) as Hg.
  destruct (store_get d now (p_pk op)) as [got d1]. destruct Hg as (-> & Hc1 & Hv & Hrest & Hf). cbn [rbind].
  assert (Hprev : match view (db_store d) now (p_pk op) ≫= value_of with
                  | Some _ => jget (map (db_store d1)) (p_pk op) | None => None end = view (db_store d) now (p_pk op)).
  { rewrite Hv. destruct (view (db_store d) now (p_pk op)) as [r|] eqn:E; [|done]. cbn.
    destruct (co_records d1 Hc1 (p_pk op) r Hv) as [[b Hb] _]. by rewrite Hb. }
  rewrite Hprev. clear Hprev. destruct (co_derived d1 Hc1) as [I1 I2 I3 I4]. destruct Hop as [Hpk Hdt Hkind]. rewrite <- Hpk.
  set (old := match view (db_store d) now (p_pk op) ≫= value_of with Some b => _ | None => None end).
  assert (Hold : db_idx d1 <> [] -> docs_of (contents_of (db_store d1)) (p_pk op) =
    (o ← old; if is_object o then Some o else None)).
  { intros Hne. rewrite (live_doc _ _ _ Hv). unfold old. rewrite bool_decide_eq_false_2 by done.
    by destruct (view (db_store d) now (p_pk op) ≫= value_of). }
  destruct Hkind as [(Ht & b & doc & Hb & Hdoc & Hdec)|Ht]; rewrite Ht; cbn [Z.eqb TYPE_SET TYPE_DEL].
  - rewrite Hb, Hdoc. cbn [default fmap option_fmap option_map]. eexists. split; [done|].
    eapply writes_after; [|exact Hrest|exact Hf].
    replace (op_record op) with (fun n => Some (StoreRecord (Memory b) (p_expireAt op) n (p_dtNorm op)))
      by (unfold op_record; by rewrite Ht, Hb).
    apply put_writes; [done|split; [by eexists|done]|by rewrite touch_store|]. apply touch_derived.
    unfold record_content. cbn. rewrite Hdec. split; cbn [db_idx db_dt db_comp db_text];
      [by apply idx_put|by apply dt_put|by apply comp_put|by apply text_put].
  - replace (op_record op) with (fun _ : Z => @None store_record) by (unfold op_record; by rewrite Ht).
    unfold Store.del. pose proof (remove_ok (db_store d1) (p_pk op)) as Hok.
    destruct (Store.remove (db_store d1) (p_pk op)) as [ok s'] eqn:Er. cbn [fst] in Hok.
    assert (Es : s' = (Store.remove (db_store d1) (p_pk op)).2) by (by rewrite Er).
    destruct ok; (eexists; split; [reflexivity|]); (eapply writes_after; [|exact Hrest|exact Hf]).
    + apply drop_writes; [done..|]. split; cbn [db_idx db_dt db_comp db_text];
        [|by apply dt_drop|by apply comp_drop|by apply text_drop].
      eapply repr_mgr_ext; [|by apply idx_unput]. intros k. by rewrite docs_cupd.
    + apply absent_writes; try done. unfold jhas in Hok. by destruct (jget (map (db_store d1)) (p_pk op)).
Qed.

(** ** Rolling back *)

(** The same record up to its sequence number. *)
Definition like (r : store_record) (seq : Z) : store_record := StoreRecord (ref r) (expireAt r) seq (dt r).

(** A record a rollback can put back: readable and not expired by now. *)
Definition restorable (now : Z) (prev : option store_record) : Prop :=
  match prev with Some r => record_ok r /\ expired r now = false | None => True end.

Lemma drop_all d pk : consistent d ->
  derived (Db (db_store d) (IndexManager.remove (db_idx d) pk) (DtIndex.del (db_dt d) pk) (CompoundIndex.remove (db_comp d) pk)
    (text_remove pk (db_text d)) (db_access d) (db_maxMemory d)) (cupd (contents_of (db_store d)) pk None).
Proof.
  intros [_ _ [I1 I2 I3 I4]]. split; cbn; [by apply idx_drop|by apply dt_drop|by apply comp_drop|by apply text_drop].
Qed.

(** Putting a document where the indexes hold none. *)
Lemma put_derived d s C pk v fresh dtm acc mm :
  dt_wf dtm -> derived d (cupd C pk None) ->
  derived (Db s (if is_object v then IndexManager.add (db_idx d) pk v else db_idx d) (DtIndex.set (db_dt d) pk dtm)
    (CompoundIndex.add (db_comp d) pk (Document v fresh) dtm)
    (if is_object v then text_add pk v (db_text d) else db_text d) acc mm) (cupd C pk (Some (v, dtm))).
Proof.
  intros Hdt [I1 I2 I3 I4]. assert (Hc2 : forall o k, cupd (cupd C pk None) pk o k = cupd C pk o k).
  { intros o k. unfold cupd. by case_decide. }
  assert (Hd2 : forall k, docs_of (cupd (cupd C pk None) pk (Some (v, dtm))) k = docs_of (cupd C pk (Some (v, dtm))) k).
  { intros k. unfold docs_of. by rewrite Hc2. }
  assert (Hnone : docs_of (cupd C pk None) pk = None) by (unfold docs_of, cupd; by rewrite decide_True).
  apply (derived_contents _ (cupd (cupd C pk None) pk (Some (v, dtm)))); [apply Hc2|]. split; cbn.
  - pose proof (idx_put (db_idx d) (cupd C pk None) pk v dtm None I1 (fun _ => Hnone)) as H. exact H.
  - by apply dt_put.
  - by apply (comp_put _ _ _ (Document v fresh)).
  - destruct (is_object v) eqn:E.
    + pose proof (text_put (db_text d) (cupd C pk None) pk v dtm I4) as H. by rewrite E in H.
    + unfold text_holds in *. eapply Forall_impl; [exact I4|]. intros e. apply ti_holds_ext. intros k.
      unfold docs_of, cupd. case_decide; cbn; [by rewrite E|done].
Qed.

(** Reading back a record that was just put. *)
Lemma store_get_put d s k r now b :
  db_store d = s -> jget (map s) k = Some r -> expired r now = false -> value_of r = Some b ->
  store_get d now k = (Ok (Some b), d).
Proof.
  intros Es Hk El Hv. unfold store_get, Store.get. rewrite Es, Hk, El. unfold value_of in Hv.
  destruct (materialize readValue (ref r)) as [b'|]; [|done]. injection Hv as ->. cbn. unfold with_store. rewrite <- Es. by destruct d.
Qed.

Lemma restoreKey_same d now fresh pk prev seq : seq_of d pk <> seq -> restoreKey d now fresh pk prev seq = Ok d.
Proof. intros Hne. unfold restoreKey. by rewrite bool_decide_eq_false_2. Qed.

Lemma restoreKey_spec d now fresh pk prev seq :
  consistent d -> restorable now prev -> seq_of d pk = seq ->
  exists d', restoreKey d now fresh pk prev seq = Ok d' /\ writes d pk (fun n => (fun r => like r n) <$> prev) d'.
Proof.
  intros Hc Hp Hseq. unfold restoreKey. rewrite bool_decide_eq_true_2 by done. cbn [negb].
  pose proof (drop_all d pk Hc) as Hd1. set (d1 := Db (db_store d) _ _ _ _ _ _) in *. destruct prev as [r|].
  - destruct Hp as [[[b Hb] Hdt] Hlive]. set (s2 := setRef (db_store d1) pk (ref r) (expireAt r) (dt r)).
    set (d2 := touchAccess (with_store d1 s2) pk). assert (Es : db_store d2 = s2) by (unfold d2; by rewrite touch_store).
    assert (Hk : jget (map s2) pk = Some (like r (Store.seq (db_store d1) + 1))) by (unfold s2; by rewrite setRef_map, jget_set_eq).
    rewrite (store_get_put d2 s2 pk _ now b Es Hk Hlive Hb). cbn [rbind fmap option_fmap option_map]. eexists. split; [done|].
    change (fun n => Some (like r n)) with (fun n => Some (StoreRecord (ref r) (expireAt r) n (dt r))).
    apply put_writes; [done|split; [by eexists|done]|done|].
    unfold record_content. change (value_of (StoreRecord (ref r) (expireAt r) 0 (dt r))) with (value_of r). rewrite Hb.
    apply put_derived; [done|]. by apply touch_derived, (derived_ext d1 _ (cupd (contents_of (db_store d)) pk None)).
  - eexists. split; [done|]. apply drop_writes; [done..|]. cbn [mbind option_bind].
    by apply (derived_ext d1 _ (cupd (contents_of (db_store d)) pk None)).
Qed.

(** ** Publishing *)

(** Overwriting a record by one with the same content. *)
Lemma same_content_writes d pk cur rf :
  consistent d -> jget (map (db_store d)) pk = Some cur -> value_of (StoreRecord rf (expireAt cur) 0 (dt cur)) = value_of cur ->
  forall exp, writes d pk (fun n => Some (StoreRecord rf exp n (dt cur))) (with_store d (setRef (db_store d) pk rf exp (dt cur))).
Proof.
  intros Hc Hk Hv exp. destruct (co_records d Hc pk cur Hk) as [[b Hb] Hdt].
  apply put_writes; [done|split; [by exists b; rewrite <- Hv in Hb|done]|done|].
  apply (derived_ext d _ (contents_of (db_store d))); try done; [|apply Hc]. intros k. unfold cupd. case_decide; [|done]. subst k.
  unfold contents_of. rewrite Hk. cbn. unfold record_content. by rewrite <- Hv.
Qed.

(** ** Catching up *)

Record rop_ok (op : recovered_op) : Prop := {
  ro_kind : ro_type op = TYPE_DEL \/
            (ro_type op = TYPE_SET /\ record_ok (StoreRecord (default (Memory []) (ro_ref op)) (ro_expireAt op) 0 (ro_dt op)));
}.

Definition rop_record (op : recovered_op) (seq : Z) : option store_record :=
  if ro_type op =? TYPE_DEL then None
  else Some (StoreRecord (default (Memory []) (ro_ref op)) (ro_expireAt op) seq (ro_dt op)).

(** A replica's index drops the record at once when it has expired already. *)
Definition rop_result (op : recovered_op) (now seq : Z) : option store_record :=
  r ← rop_record op seq; if expired r now then None else Some r.

Lemma store_get_expired d s k r now :
  db_store d = s -> jget (map s) k = Some r -> expired r now = true ->
  store_get d now k = (Ok None, onStoreExpire (with_store d (Store.remove s k).2) k).
Proof.
  intros Es Hk El. unfold store_get, Store.get, expireKey. rewrite Es, Hk, El. pose proof (remove_ok s k) as Hok.
  unfold jhas in Hok. rewrite Hk in Hok. destruct (Store.remove s k) as [ok s']. cbn in Hok. by subst.
Qed.

(** What the secondary indexes are told of the earlier document. *)
Lemma old_doc_spec d now k :
  consistent d ->
  exists old d', (if bool_decide (db_idx d = []) then Ok (None, d)
    else let '(got, d') := store_get d now k in let? b := got in Ok (decode <$> b, d')) = Ok (old, d') /\
    consistent d' /\ (forall k', k' <> k -> jget (map (db_store d')) k' = jget (map (db_store d)) k') /\
    fresh_writes (db_store d) (db_store d') /\
    (db_idx d' <> [] -> docs_of (contents_of (db_store d')) k = (o ← old; if is_object o then Some o else None)).
Proof.
  intros Hc. case_bool_decide as Hn.
  - exists None, d. split_and!; [done..|apply fresh_writes_refl|done].
  - pose proof (store_get_spec d now k Hc) as Hg. destruct (store_get d now k) as [got d'].
    destruct Hg as (-> & Hc' & Hv & Ho & Hf). cbn [rbind]. eexists _, d'. split_and!; [done..|]. intros _. by apply live_doc.
Qed.

Lemma applyRecoveredOp_spec d now now' fresh op :
  consistent d -> rop_ok op ->
  exists d', applyRecoveredOp d now now' fresh op = Ok d' /\ writes d (toKStr (ro_key op)) (rop_result op now') d'.
Proof.
  intros Hc0 [Hkind]. unfold applyRecoveredOp. set (pk := toKStr (ro_key op)).
  destruct (old_doc_spec d now pk Hc0) as (old & d1 & -> & Hc & Hrest & Hf & Hold). cbn [rbind].
  eapply result_after; [|exact Hrest|exact Hf].
  clear Hc0 Hrest Hf d now. destruct (co_derived d1 Hc) as [I1 I2 I3 I4].
  unfold rop_result, rop_record. destruct Hkind as [Ht|(Ht & [b Hb] & Hdt)]; rewrite Ht; cbn [Z.eqb TYPE_SET TYPE_DEL].
  - unfold Store.del. pose proof (remove_ok (db_store d1) pk) as Hok.
    destruct (Store.remove (db_store d1) pk) as [ok s'] eqn:Er. cbn [fst] in Hok.
    assert (Es : s' = (Store.remove (db_store d1) pk).2) by (by rewrite Er). destruct ok; (eexists; split; [reflexivity|]).
    + apply drop_writes; [done..|]. split; cbn [db_idx db_dt db_comp db_text];
        [|by apply dt_drop|by apply comp_drop|by apply text_drop].
      eapply repr_mgr_ext; [|by apply idx_unput]. intros k. by rewrite docs_cupd.
    + apply absent_writes; try done. unfold jhas in Hok. by destruct (jget (map (db_store d1)) pk).
  - set (rf := default (Memory []) (ro_ref op)) in *. set (s2 := setRef (db_store d1) pk rf (ro_expireAt op) (ro_dt op)).
    set (r := StoreRecord rf (ro_expireAt op) (Store.seq (db_store d1) + 1) (ro_dt op)).
    assert (Hk : jget (map s2) pk = Some r) by (unfold s2; by rewrite setRef_map, jget_set_eq).
    apply (result_ext _ d1 pk (fun n => if expired r now' then None else Some (StoreRecord rf (ro_expireAt op) n (ro_dt op)))); [done|].
    destruct (expired r now') eqn:El.
    + rewrite (store_get_expired (with_store d1 s2) s2 pk r) by done. cbn [rbind]. eexists. split; [done|].
      apply (drop_put_writes d1 s2); [done|by apply setRef_wf, Hc| |apply fresh_setRef|done|].
      { intros k Hne. unfold s2. by rewrite setRef_map, jget_set_ne. }
      apply (drop_derived (with_store (with_store d1 s2) (Store.remove s2 pk).2)).
      by apply (derived_ext d1 _ (contents_of (db_store d1))); [..|apply Hc].
    + rewrite (store_get_put (with_store d1 s2) s2 pk r now' b) by done. cbn [rbind].
      set (m0 := if indexable old then IndexManager.remove (db_idx d1) pk else db_idx d1).
      exists ( touchAccess (Db s2 (if is_object (decode b) then IndexManager.add m0 pk (decode b) else m0)
          (DtIndex.set (db_dt d1) pk (ro_dt op)) (CompoundIndex.add (db_comp d1) pk (Document (decode b) fresh) (ro_dt op))
          (if is_object (decode b) then text_add pk (decode b) (db_text d1) else text_remove pk (db_text d1))
          (db_access d1) (db_maxMemory d1)) pk). split.
      { case_bool_decide as Hn; [|reflexivity]. cbn in Hn. destruct Hn as (E1 & E2 & E3). subst m0. cbn. rewrite E1, E2, E3.
        by destruct (indexable old), (is_object (decode b)). }
      apply put_writes; [done|split; [by eexists|done]|by rewrite touch_store|]. apply touch_derived.
      unfold record_content. change (value_of (StoreRecord rf (ro_expireAt op) 0 (ro_dt op))) with (value_of r).
      change (value_of r = Some b) in Hb. rewrite Hb. split; cbn [db_idx db_dt db_comp db_text];
        [by apply idx_put|by apply dt_put|by apply (comp_put _ _ _ (Document (decode b) fresh))|by apply text_put].
Qed.
End minidb.
