(* ===== verification/Writes.v ===== *)
(** The writes of the database ([packages/minidb/src/index.ts]) and how they interleave:
    the synchronous part of [set], [del], [batch] and [expire], which applies the
    operations in the tick that appends the log frame, and what each does when the
    frame's promise settles (publishing disk pointers, or rolling the keys back).
    Between the two any other operation may run; the step relation below lets it. *)

From S2P Require Import Prelude JsMap Codec ScanRefs Json Ordered MinHeap Store DtIndex.
From S2P Require Import JsonText IndexManager CompoundIndex Recovery MiniDb.

Inductive write_error := WCodec (e : codec_error) | WIndex (e : index_error) | WDb (e : db_error).

Definition lift_error {E A} (f : E -> write_error) (r : result E A) : result write_error A :=
  match r with Ok a => Ok a | Err e => Err (f e) end.

Definition input_of (op : prepared) : frame_input :=
  FrameInput (p_type op) (p_key op) (p_value op) (p_meta op) (p_expireAt op).

(** The arguments of a later [publishWalRef]. *)
Record pointer := Pointer {
  pt_value : buffer;
  pt_seq : option Z;
  pt_loc : value_loc;
  pt_expireAt : Z;
  pt_dt : option dt_map;
}.

(** A write waiting for its frame: the frame; each key's record before the write and
    the sequence number the write left it with; the pointers to publish. *)
Record pending := Pending {
  pd_off : Z;           (* where the log puts the frame *)
  pd_frame : buffer;
  pd_keys : list (jsstr * option store_record * option Z);
  pd_last : list (jsstr * pointer);
}.

Section writes.
Context {TK TZ TO X : Type} `{!OrderedIndex jsstr jsstr TK} `{!OrderedIndex Z jsstr TZ} `{!OrderedIndex order_key jsstr TO}.
Context `{!TextIndex X}.
Context (readValue : option (value_loc -> option buffer)) (decode : buffer -> json).
(** [valueMode === 'disk']. *)
Context (disk : bool).

Abbreviation database := (db (TK := TK) (TZ := TZ) (TO := TO) (X := X)).

Definition doc_of (op : prepared) : option json := doc_value <$> p_doc op.

Definition set_pointer (d : database) (off : Z) (op : prepared) : pointer :=
  let value := default [] (p_value op) in
  Pointer value (seq_of d (p_pk op)) (ValueLoc Wal (off + HEADER_SIZE + blen (p_key op)) (blen value)) (p_expireAt op) (p_dtNorm op).

(** [set]'s commit; [off] is the offset the log gave the frame. *)
Definition commit_set (d : database) (now off : Z) (op : prepared) : result write_error (database * pending) :=
  let? _ := match doc_of op with
            | Some v => if negb (bool_decide (db_idx d = [])) && is_object v
                        then lift_error WIndex (checkUnique (db_idx d) (p_pk op) v) else Ok tt
            | None => Ok tt
            end in
  let? frame := lift_error WCodec (encodeFrame (input_of op)) in
  let? r := lift_error WDb (applyOp readValue decode d now op) in
  Ok (r.1, Pending off frame [(p_pk op, r.2, seq_of r.1 (p_pk op))] (if disk then [(p_pk op, set_pointer r.1 off op)] else [])).

(** [del]'s commit; [del] itself returns [false] for a key that is not there. *)
Definition commit_del (d : database) (now off : Z) (op : prepared) : result write_error (database * pending) :=
  let? frame := lift_error WCodec (encodeFrame (FrameInput TYPE_DEL (p_key op) None None 0)) in
  let? r := lift_error WDb (applyOp readValue decode d now op) in
  Ok (r.1, Pending off frame [(p_pk op, r.2, seq_of r.1 (p_pk op))] []).

(** The operations of a batch in order, with the first earlier record of each key. *)
Fixpoint apply_ops (d : database) (now : Z) (ops : list prepared) (prevs : list (jsstr * option store_record))
    : result db_error (database * list (jsstr * option store_record)) :=
  match ops with
  | [] => Ok (d, prevs)
  | op :: ops' =>
      let? r := applyOp readValue decode d now op in
      apply_ops r.1 now ops' (if jhas prevs (p_pk op) then prevs else jset prevs (p_pk op) r.2)
  end.

(** The last set of each key with its place in the frame. *)
Definition last_sets (d : database) (bodyOff : Z) (ops : list prepared) (refs : list batch_op_ref) : list (jsstr * pointer) :=
  fold_left (fun m '(op, rf) =>
      if p_type op =? TYPE_SET then
        jset m (p_pk op) (Pointer (default [] (p_value op)) (seq_of d (p_pk op))
          (ValueLoc Wal (bodyOff + o_valueOff rf) (o_valLen rf)) (p_expireAt op) (p_dtNorm op))
      else m)
    (zip ops refs) [].

Definition batch_doc (op : prepared) : jsstr * option json := (p_pk op, if p_type op =? TYPE_DEL then None else doc_of op).

(** [batch]'s commit. *)
Definition commit_batch (d : database) (now off : Z) (ops : list prepared) : result write_error (database * pending) :=
  let? _ := if bool_decide (db_idx d = []) then Ok tt
            else lift_error WIndex (checkUniqueBatch (db_idx d) (batch_doc <$> ops)) in
  let? body := lift_error WCodec (encodeBatchOps (input_of <$> ops)) in
  let? frame := lift_error WCodec (encodeFrame (FrameInput TYPE_BATCH [] (Some body) None 0)) in
  let? r := lift_error WDb (apply_ops d now ops []) in
  let? last := (if disk then
      let? refs := lift_error WCodec (scanBatchOpRefs body 0) in Ok (last_sets r.1 (off + HEADER_SIZE) ops refs)
    else Ok []) in
  Ok (r.1, Pending off frame ((fun '(pk, prev) => (pk, prev, seq_of r.1 pk)) <$> r.2) last).

(** [expire]'s commit, on what [expire] captured. *)
Definition commit_expire (d : database) (off : Z) (frame : buffer) (k : jsstr) (keyLen : Z) (curValue : buffer) (expireAt : Z) (curDt : option dt_map)
    : database * pending :=
  let prev := jget (map (db_store d)) k in
  let d' := with_store d (Store.set (db_store d) k curValue expireAt curDt) in
  let seq := seq_of d' k in
  (d', Pending off frame [(k, prev, seq)]
         (if disk then [(k, Pointer curValue seq (ValueLoc Wal (off + HEADER_SIZE + keyLen) (blen curValue)) expireAt curDt)] else [])).

(** [expire] up to its first await; [None] in place of a pending write is the
    result [false]. *)
Definition expire (d : database) (now now' off : Z) (dt_text : dt_map -> buffer) (key : buffer) (ttlMs : js_number)
    : result write_error (database * option pending) :=
  let k := toKStr key in
  let '(cur, s, ev) := getRecord (db_store d) now k in
  let d := fold_left (fun d e => onStoreExpire d e.1) ev (with_store d s) in
  match cur with
  | None => Ok (d, None)
  | Some cur =>
      match ttlMs with
      | NotFinite => Err (WDb TtlNotFinite)
      | Finite ttl =>
          let expireAt := now + ttl in
          let '(got, d) := store_get readValue d now' k in
          let? curValue := lift_error WDb got in
          match curValue with
          | None => Ok (d, None)
          | Some v =>
              let? frame := lift_error WCodec (encodeFrame (FrameInput TYPE_SET key (Some v) (dt_text <$> dt cur) expireAt)) in
              let '(d, p) := commit_expire d off frame k (blen key) v expireAt (dt cur) in
              Ok (d, Some p)
          end
      end
  end.

(** The frame is in the log. *)
Definition publish (d : database) (same_wal : bool) (p : pending) : database :=
  fold_left (fun d '(pk, q) => publishWalRef d same_wal pk (pt_seq q) (pt_loc q) (pt_expireAt q) (pt_dt q)) (pd_last p) d.

(** Writing the frame failed. *)
Fixpoint restore_keys (d : database) (now : Z) (fresh : jsstr -> jsstr -> N) (keys : list (jsstr * option store_record * option Z))
    : result db_error database :=
  match keys with
  | [] => Ok d
  | (pk, prev, seq) :: keys' =>
      let? d' := restoreKey readValue decode d now (fresh pk) pk prev seq in restore_keys d' now fresh keys'
  end.

Definition rollback (d : database) (now : Z) (fresh : jsstr -> jsstr -> N) (p : pending) : result db_error database :=
  restore_keys d now fresh (pd_keys p).

Definition has (d : database) (now : Z) (k : jsstr) : bool * database :=
  let '(r, s, ev) := Store.has (db_store d) now k in (r, fold_left (fun d e => onStoreExpire d e.1) ev (with_store d s)).

(** [get]. *)
Definition get (d : database) (now : Z) (k : jsstr) : result db_error (option json * database) :=
  let '(got, d) := store_get readValue d now k in
  let? v := got in
  Ok (decode <$> v, match v with Some _ => touchAccess d k | None => d end).

(** [ttl]: -2 without a live record, -1 without an expiry. *)
Definition ttl (d : database) (now : Z) (k : jsstr) : Z :=
  match jget (map (db_store d)) k with
  | None => -2
  | Some r => if expireAt r =? 0 then -1 else let left := expireAt r - now in if 0 <? left then left else -2
  end.

(** * Batches *)

Context `{!OrderedIndexLaws (T := TK) cmpString cmpString} `{!OrderedIndexLaws (T := TZ) cmpNumber cmpString}.
Context `{!OrderedIndexLaws (T := TO) cmp_order cmpString} `{!TextIndexLaws X}.

Local Abbreviation consistent := (consistent readValue decode).
Local Abbreviation op_ok := (op_ok decode).

(** The last operation on a key. *)
Fixpoint last_op (k : jsstr) (ops : list prepared) : option prepared :=
  match ops with
  | [] => None
  | op :: ops' => match last_op k ops' with Some o => Some o | None => if decide (p_pk op = k) then Some op else None end
  end.

(** The record of a key after the operations; a new one has some number [n]. *)
Definition ops_record (d : database) (ops : list prepared) (k : jsstr) (n : Z) : option store_record :=
  match last_op k ops with Some op => op_record op n | None => jget (map (db_store d)) k end.

Lemma last_op_in k ops op : last_op k ops = Some op -> p_pk op = k /\ op ∈ ops.
Proof.
  induction ops as [|o ops IH]; [done|]. cbn. destruct (last_op k ops) as [o'|].
  - intros [= <-]. destruct (IH eq_refl). split; [done|by right].
  - case_decide; [|done]. intros [= <-]. split; [done|by left].
Qed.

Lemma last_op_none k ops : last_op k ops = None <-> k ∉ p_pk <$> ops.
Proof.
  induction ops as [|o ops IH]; [split; [intros _; apply not_elem_of_nil|done]|]. cbn [last_op fmap list_fmap]. rewrite not_elem_of_cons.
  rewrite <- IH. destruct (last_op k ops); [naive_solver|]. case_decide; naive_solver.
Qed.

Lemma apply_ops_spec d now ops prevs :
  consistent d -> Forall op_ok ops ->
  exists d' prevs', apply_ops d now ops prevs = Ok (d', prevs') /\ consistent d' /\
    fresh_writes (db_store d) (db_store d') /\
    (forall k, exists n, jget (map (db_store d')) k = ops_record d ops k n) /\
    (forall k, jget prevs' k = match jget prevs k with
                              | Some p => Some p
                              | None => if decide (k ∈ p_pk <$> ops) then Some (view (db_store d) now k) else None
                              end).
Proof.
  revert d prevs. induction ops as [|op ops IH]; intros d prevs Hc Hok; cbn [apply_ops].
  - exists d, prevs. split_and!; [done..|apply fresh_writes_refl| |].
    + intros k. by exists 0.
    + intros k. rewrite decide_False by apply not_elem_of_nil. by destruct (jget prevs k).
  - apply Forall_cons in Hok as [Hop Hok]. destruct (applyOp_spec readValue decode d now op Hc Hop) as (d1 & -> & [Hc1 Hr1 Ho1 Hf1]).
    cbn [rbind fst snd]. set (prevs1 := if jhas prevs (p_pk op) then prevs else _).
    destruct (IH d1 prevs1 Hc1 Hok) as (d2 & prevs2 & -> & Hc2 & Hf2 & Hr2 & Hp2). exists d2, prevs2.
    split_and!; [done..|by eapply fresh_writes_trans| |].
    + intros k. destruct (Hr2 k) as [n Hn]. unfold ops_record in *. cbn [last_op]. destruct (last_op k ops); [by exists n|].
      destruct (decide (p_pk op = k)) as [<-|Hne]; [|exists n; by rewrite Hn, Ho1 by congruence].
      destruct Hr1 as [m Hm]. exists m. by rewrite Hn.
    + intros k. rewrite Hp2. cbn [fmap list_fmap]. unfold prevs1, jhas. clear prevs1 Hp2 IH.
      destruct (decide (k = p_pk op)) as [->|Hne].
      * destruct (jget prevs (p_pk op)) as [p|] eqn:E; [by rewrite E|]. rewrite jget_set_eq.
        by rewrite decide_True by by left.
      * assert (Ev : view (db_store d1) now k = view (db_store d) now k) by (unfold view; by rewrite Ho1).
        assert (Eg : jget (if match jget prevs (p_pk op) with Some _ => true | None => false end then prevs
          else jset prevs (p_pk op) (view (db_store d) now (p_pk op))) k = jget prevs k).
        { destruct (jget prevs (p_pk op)); [done|]. by rewrite jget_set_ne by congruence. }
        rewrite Eg, Ev. destruct (jget prevs k); [done|]. destruct (decide (k ∈ p_pk <$> ops)).
        { by rewrite decide_True by by right. } rewrite decide_False; [done|]. by intros [?|?]%elem_of_cons.
Qed.

(** * Pending writes *)

(** The log file holds a frame at an offset. *)
Definition logged (fd : buffer) (off : Z) (frame : buffer) : Prop :=
  exists pre rest, fd = pre ++ frame ++ rest /\ blen pre = off.

Definition reads (fd : buffer) (q : pointer) : Prop :=
  let loc := pt_loc q in
  vl_file loc = Wal /\ 0 <= vl_off loc /\ 0 <= vl_len loc /\ vl_off loc + vl_len loc <= blen fd /\
  sub fd (vl_off loc) (vl_off loc + vl_len loc) = pt_value q.

Lemma logged_value fd off i :
  encodable i -> logged fd off (input_bytes i) ->
  let voff := off + HEADER_SIZE + blen (i_key i) in let val := or_empty (i_value i) in
  0 <= voff /\ voff + blen val <= blen fd /\ sub fd voff (voff + blen val) = val.
Proof.
  intros Hi (pre & rest & -> & <-). cbv zeta. pose proof (readFrameAt_mid pre i rest Hi) as Hr.
  pose proof (ref_frame_at _ _ _ _ (blen_nonneg pre) Hr) as Hf. apply (f_equal f_value) in Hf. cbn in Hf.
  blen_facts. split_and!; [unfold HEADER_SIZE; lia| |exact Hf].
  rewrite !blen_app. unfold input_bytes. rewrite blen_frame_bytes. unfold HEADER_SIZE, CRC_SIZE.
  blen_facts; lia.
Qed.

(** The pointer a [set] or [expire] publishes reads the value from its frame. *)
Lemma set_pointer_reads fd off i frame seq exp dtm :
  encodeFrame i = Ok frame -> logged fd off frame ->
  let val := or_empty (i_value i) in
  reads fd (Pointer val seq (ValueLoc Wal (off + HEADER_SIZE + blen (i_key i)) (blen val)) exp dtm).
Proof.
  intros [Hi ->]%encodeFrame_spec Hl. destruct (logged_value fd off i Hi Hl) as (? & ? & ?). cbv zeta. unfold reads. cbn.
  blen_facts. done.
Qed.

Lemma last_sets_app d bodyOff ops refs op rf :
  length ops = length refs ->
  last_sets d bodyOff (ops ++ [op]) (refs ++ [rf]) =
  if p_type op =? TYPE_SET then
    jset (last_sets d bodyOff ops refs) (p_pk op) (Pointer (default [] (p_value op)) (seq_of d (p_pk op))
      (ValueLoc Wal (bodyOff + o_valueOff rf) (o_valLen rf)) (p_expireAt op) (p_dtNorm op))
  else last_sets d bodyOff ops refs.
Proof. intros Hlen. unfold last_sets. rewrite zip_with_app by done. by rewrite fold_left_app. Qed.

Lemma last_op_app k ops op : last_op k (ops ++ [op]) = if decide (p_pk op = k) then Some op else last_op k ops.
Proof.
  induction ops as [|o ops IH]; cbn [last_op app]; [done|]. rewrite IH. by case_decide.
Qed.

(** A pointer of a set of [k]: of the last one unless a delete follows it. *)
Record points (d : database) (bodyOff : Z) (ops : list prepared) (refs : list batch_op_ref) (k : jsstr) (q : pointer) : Prop := {
  pn_seq : pt_seq q = seq_of d k;
  pn_place : exists op rf i, p_pk op = k /\ ops !! i = Some op /\ refs !! i = Some rf /\ pt_value q = default [] (p_value op) /\
    pt_loc q = ValueLoc Wal (bodyOff + o_valueOff rf) (o_valLen rf);
  pn_last : forall op, last_op k ops = Some op -> p_type op = TYPE_SET ->
    pt_value q = default [] (p_value op) /\ pt_expireAt q = p_expireAt op /\ pt_dt q = p_dtNorm op;
}.

Lemma points_app d bodyOff ops refs op rf k q :
  points d bodyOff ops refs k q -> (p_pk op = k -> p_type op <> TYPE_SET) -> points d bodyOff (ops ++ [op]) (refs ++ [rf]) k q.
Proof.
  intros [Hs (op0 & rf0 & i & Hk0 & Ho & Hr & Hv & Hloc) Hlast] H2. split; [done| |].
  - exists op0, rf0, i. by rewrite !lookup_app_l by (apply lookup_lt_is_Some; eauto).
  - intros op1. rewrite last_op_app. case_decide as Hk; [|by apply Hlast]. intros E Ht. injection E as <-. by destruct (H2 Hk).
Qed.

Lemma points_new d bodyOff ops refs op rf :
  length ops = length refs -> p_type op = TYPE_SET ->
  points d bodyOff (ops ++ [op]) (refs ++ [rf]) (p_pk op)
    (Pointer (default [] (p_value op)) (seq_of d (p_pk op)) (ValueLoc Wal (bodyOff + o_valueOff rf) (o_valLen rf))
       (p_expireAt op) (p_dtNorm op)).
Proof.
  intros Hlen Ht. split; [done| |].
  - exists op, rf, (length ops). by rewrite (list_lookup_middle ops []), (list_lookup_middle refs []).
  - intros op1. rewrite last_op_app, decide_True by done. by intros [= <-].
Qed.

Lemma last_sets_spec d bodyOff ops refs :
  length ops = length refs ->
  jwf (last_sets d bodyOff ops refs) /\
  forall k q, (k, q) ∈ last_sets d bodyOff ops refs -> points d bodyOff ops refs k q.
Proof.
  revert refs. induction ops as [|op ops IH] using rev_ind; intros refs Hl.
  { split; [apply jwf_nil|]. by intros k q Hin%elem_of_nil. }
  destruct refs as [|rf refs _] using rev_ind; [rewrite length_app in Hl; cbn in Hl; lia|].
  rewrite !length_app in Hl. cbn in Hl. assert (Hlen : length ops = length refs) by lia.
  destruct (IH refs Hlen) as [Hw Hin]. rewrite last_sets_app by done. destruct (Z.eqb_spec (p_type op) TYPE_SET) as [Ht|Ht].
  - split; [by apply jwf_set|]. intros k q [[-> ->]|[Hne Hq]]%jset_in; [by apply points_new| |done].
    apply points_app; [by apply Hin|]. congruence.
  - split; [done|]. intros k q Hq. apply points_app; [by apply Hin|done].
Qed.
(** The pointers of a batch read their values from its frame. *)
Lemma batch_pointers_read d fd off ops body frame refs k q :
  encodeBatchOps (input_of <$> ops) = Ok body -> encodeFrame (FrameInput TYPE_BATCH [] (Some body) None 0) = Ok frame ->
  scanBatchOpRefs body 0 = Ok refs -> logged fd off frame ->
  length ops = length refs /\ (points d (off + HEADER_SIZE) ops refs k q -> reads fd q).
Proof.
  intros (Hc & Hops & ->)%encodeBatchOps_spec [Hi ->]%encodeFrame_spec Hrefs Hl. set (b := batch_body _) in *.
  destruct (scanBatchOpRefs_body b 0 (input_of <$> ops)) as (os & Hos & Hfr & Hok); [lia|fold b; lia| |done..|].
  { fold b. rewrite Z.add_0_l, sub_from by lia. done. }
  fold b in Hos. rewrite Hrefs in Hos. injection Hos as <-.
  assert (Hlen : length ops = length refs).
  { apply (f_equal length) in Hfr. by rewrite !length_fmap in Hfr. }
  split; [done|]. intros [_ (op & rf & i & _ & Ho & Hr & Hv & Hloc) _].
  pose proof (proj1 (Forall_lookup _ _) Hok i rf Hr) as (B1 & B2 & B3).
  pose proof (f_equal (fun l => l !! i) Hfr) as E. cbv beta in E. rewrite !list_lookup_fmap, Hr, Ho in E. cbn [fmap option_fmap option_map] in E.
  injection E as _ _ Hval _ _. destruct (logged_value fd off _ Hi Hl) as (V1 & V2 & V3). cbn [i_key i_value or_empty default from_option id] in V1, V2, V3.
  unfold reads. rewrite Hloc, Hv. cbn [vl_file vl_off vl_len].
  replace (off + HEADER_SIZE + blen []) with (off + HEADER_SIZE) in * by (unfold blen; cbn; lia).
  split_and!; [done|lia..|]. rewrite <- (Z.add_assoc (off + HEADER_SIZE) (o_valueOff rf)), <- sub_sub with (b := off + HEADER_SIZE + blen b) by lia.
  rewrite V3. exact Hval.
Qed.

(** The record a pointer replaces, recognised by its number, has the pointer's value. *)
Definition ptr_ok (d : database) (k : jsstr) (q : pointer) : Prop :=
  forall n, pt_seq q = Some n -> n <= Store.seq (db_store d) /\
    forall cur, jget (map (db_store d)) k = Some cur -> rseq cur = n ->
      value_of readValue cur = Some (pt_value q) /\ expireAt cur = pt_expireAt q /\ dt cur = pt_dt q.

Record pending_ok (d : database) (p : pending) : Prop := {
  po_keys : NoDup (fst ∘ fst <$> pd_keys p);
  po_prev : forall k prev seq, (k, prev, seq) ∈ pd_keys p -> match prev with Some r => record_ok readValue r | None => True end;
  po_ptr : forall k q, (k, q) ∈ pd_last p -> ptr_ok d k q;
  po_reads : forall fd k q, (k, q) ∈ pd_last p -> logged fd (pd_off p) (pd_frame p) -> reads fd q;
}.

Definition seqs_ok (d : database) : Prop := forall k r, jget (map (db_store d)) k = Some r -> rseq r <= Store.seq (db_store d).

Lemma seqs_fresh d d' : seqs_ok d -> fresh_writes (db_store d) (db_store d') -> seqs_ok d'.
Proof. intros Hs [H1 H2] k r Hk. destruct (H2 k r Hk) as [Hk'|?]; [specialize (Hs k r Hk'); lia|lia]. Qed.

Lemma ptr_fresh d d' k q : ptr_ok d k q -> fresh_writes (db_store d) (db_store d') -> ptr_ok d' k q.
Proof.
  intros Hq [H1 H2] n Hn. destruct (Hq n Hn) as [Hle Hcur]. split; [lia|]. intros cur Hk Hr.
  destruct (H2 k cur Hk) as [Hk'|?]; [by apply Hcur|lia].
Qed.

(** A waiting write stays valid whatever is written meanwhile. *)
Lemma pending_fresh d d' p : pending_ok d p -> fresh_writes (db_store d) (db_store d') -> pending_ok d' p.
Proof. intros [H1 H2 H3 H4] Hf. split; [done..| |done]. intros k q Hin. eapply ptr_fresh; [by apply H3|done]. Qed.

Lemma ptr_ok_at d k q :
  seqs_ok d -> pt_seq q = seq_of d k ->
  (forall cur, jget (map (db_store d)) k = Some cur ->
     value_of readValue cur = Some (pt_value q) /\ expireAt cur = pt_expireAt q /\ dt cur = pt_dt q) -> ptr_ok d k q.
Proof.
  intros Hs Hq Hcur n Hn. rewrite Hq in Hn. unfold seq_of in Hn. destruct (jget (map (db_store d)) k) as [cur|] eqn:Hk; [|done].
  injection Hn as <-. split; [by eapply Hs|]. intros cur' [= <-] _. by apply Hcur.
Qed.

Lemma view_ok d now k : consistent d -> match view (db_store d) now k with Some r => record_ok readValue r | None => True end.
Proof.
  intros Hc. unfold view. destruct (jget (map (db_store d)) k) as [r|] eqn:Hk; [|done]. destruct (expired r now); [done|].
  by apply (co_records _ _ d Hc k).
Qed.

(** What a committed write guarantees while it waits. *)
Record committed (d : database) (p : pending) (d' : database) : Prop := {
  cm_consistent : consistent d';
  cm_fresh : fresh_writes (db_store d) (db_store d');
  cm_pending : pending_ok d' p;
}.

Lemma lift_ok {E A} (f : E -> write_error) (r : result E A) a : lift_error f r = Ok a -> r = Ok a.
Proof. destruct r; [by intros [= ->]|done]. Qed.

(** One operation with its pointer, if any. *)
Lemma commit_one d now op off frame last :
  consistent d -> seqs_ok d -> op_ok op ->
  (forall d' k q, writes readValue decode d (p_pk op) (op_record op) d' -> (k, q) ∈ last d' ->
     k = p_pk op /\ p_type op = TYPE_SET /\ pt_seq q = seq_of d' k /\ pt_value q = default [] (p_value op) /\
     pt_expireAt q = p_expireAt op /\ pt_dt q = p_dtNorm op) ->
  (forall d' fd k q, (k, q) ∈ last d' -> logged fd off frame -> reads fd q) ->
  forall d' p, (let? r := lift_error WDb (applyOp readValue decode d now op) in
    Ok (r.1, Pending off frame [(p_pk op, r.2, seq_of r.1 (p_pk op))] (last r.1))) = Ok (d', p) ->
  committed d p d' /\ pd_keys p = [(p_pk op, view (db_store d) now (p_pk op), seq_of d' (p_pk op))] /\
  exists n, jget (map (db_store d')) (p_pk op) = op_record op n.
Proof.
  intros Hc Hs Hop Hlast Hreads d' p. destruct (applyOp_spec readValue decode d now op Hc Hop) as (d1 & -> & Hw).
  intros E. injection E as <- <-. pose proof Hw as [Hc1 [n Hn] Ho Hf].
  split; [|split; [done|by exists n]]. split; [done..|]. split; cbn.
  - apply NoDup_singleton.
  - intros k prev seq [= -> -> ->]%list_elem_of_singleton. by apply view_ok.
  - intros k q Hin. destruct (Hlast d1 k q Hw Hin) as (-> & Ht & Eq & Ev & Ee & Ed).
    apply ptr_ok_at; [by eapply seqs_fresh|done|]. intros cur. rewrite Hn. unfold op_record. rewrite Ht. intros [= <-]. cbn.
    by rewrite Ev, Ee, Ed.
  - by apply Hreads.
Qed.

Lemma commit_set_spec d now off op d' p :
  consistent d -> seqs_ok d -> op_ok op -> p_type op = TYPE_SET -> commit_set d now off op = Ok (d', p) ->
  committed d p d' /\ pd_keys p = [(p_pk op, view (db_store d) now (p_pk op), seq_of d' (p_pk op))] /\
  exists n, jget (map (db_store d')) (p_pk op) = op_record op n.
Proof.
  intros Hc Hs Hop Ht. unfold commit_set. intros (_ & _ & H)%rbind_ok. apply rbind_ok in H as (frame & Hfr & H). apply lift_ok in Hfr.
  eapply (commit_one d now op off frame (fun d' => if disk then [(p_pk op, set_pointer d' off op)] else [])) in H; [exact H|done..| |].
  - intros d2 k q Hw. destruct disk; [|by intros ?%elem_of_nil]. by intros [= -> ->]%list_elem_of_singleton.
  - intros d2 fd k q. destruct disk; [|by intros ?%elem_of_nil]. intros [= -> ->]%list_elem_of_singleton Hl.
    by apply (set_pointer_reads fd off (input_of op) frame).
Qed.

Lemma commit_del_spec d now off op d' p :
  consistent d -> seqs_ok d -> op_ok op -> commit_del d now off op = Ok (d', p) ->
  committed d p d' /\ pd_keys p = [(p_pk op, view (db_store d) now (p_pk op), seq_of d' (p_pk op))] /\
  exists n, jget (map (db_store d')) (p_pk op) = op_record op n.
Proof.
  intros Hc Hs Hop. unfold commit_del. intros (frame & _ & H)%rbind_ok.
  apply (commit_one d now op off frame (fun _ => [])) in H; [exact H|done..| |]; [by intros d2 k q _ ?%elem_of_nil|by intros d2 fd k q ?%elem_of_nil].
Qed.

Lemma apply_ops_jwf d now ops : forall prevs d' prevs', jwf prevs -> apply_ops d now ops prevs = Ok (d', prevs') -> jwf prevs'.
Proof.
  revert d. induction ops as [|op ops IH]; intros d prevs d' prevs' Hw; cbn [apply_ops]; [by intros [= <- <-]|].
  intros (r & _ & H)%rbind_ok. eapply IH; [|exact H]. case_match; [done|by apply jwf_set].
Qed.

Lemma commit_batch_spec d now off ops d' p :
  consistent d -> seqs_ok d -> Forall op_ok ops -> commit_batch d now off ops = Ok (d', p) ->
  committed d p d' /\
  (forall k, exists n, jget (map (db_store d')) k = ops_record d ops k n) /\
  (forall k prev seq, (k, prev, seq) ∈ pd_keys p <-> k ∈ p_pk <$> ops /\ prev = view (db_store d) now k /\ seq = seq_of d' k).
Proof.
  intros Hc Hs Hok. unfold commit_batch. intros (_ & _ & H)%rbind_ok. apply rbind_ok in H as (body & Hbody & H).
  apply rbind_ok in H as (frame & Hfr & H). apply lift_ok in Hbody, Hfr. apply rbind_ok in H as ([d1 prevs] & Ha & H). apply lift_ok in Ha.
  pose proof (apply_ops_jwf _ _ _ _ _ _ jwf_nil Ha) as Hw.
  destruct (apply_ops_spec d now ops [] Hc Hok) as (d2 & prevs2 & Ha2 & Hc2 & Hf2 & Hr2 & Hp2).
  rewrite Ha in Ha2. injection Ha2 as <- <-. apply rbind_ok in H as (last & Hl & H). injection H as <- <-. cbn [fst snd] in *.
  assert (Hkeys : forall k prev seq, (k, prev, seq) ∈ (fun '(pk, prev) => (pk, prev, seq_of d1 pk)) <$> prevs <->
    k ∈ p_pk <$> ops /\ prev = view (db_store d) now k /\ seq = seq_of d1 k).
  { intros k prev seq. rewrite list_elem_of_fmap. specialize (Hp2 k). cbn in Hp2. split.
    - intros ([k' pv] & E & Hin). injection E as -> -> ->. apply jget_in in Hin; [|done].
      rewrite Hin in Hp2. case_decide; [|done]. by injection Hp2 as ->.
    - intros (Hin & -> & ->). exists (k, view (db_store d) now k). split; [done|]. rewrite decide_True in Hp2 by done.
      by apply jget_Some_in. }
  assert (Hlast : forall k q, (k, q) ∈ last -> exists refs, scanBatchOpRefs body 0 = Ok refs /\
    (length ops = length refs -> points d1 (off + HEADER_SIZE) ops refs k q)).
  { intros k q Hin. destruct disk; [|injection Hl as <-; by apply elem_of_nil in Hin]. apply rbind_ok in Hl as (refs & Hrefs & E).
    injection E as <-. exists refs. apply lift_ok in Hrefs. split; [done|]. intros Hlen. by apply last_sets_spec. }
  split; [|split; [exact Hr2|exact Hkeys]]. split; [done..|]. split; cbn [pd_keys pd_last pd_off pd_frame].
  - rewrite <- list_fmap_compose. erewrite list_fmap_ext; [exact Hw|]. by intros i [k pv] _.
  - intros k prev seq (_ & -> & _)%Hkeys. by apply view_ok.
  - intros k q Hin. destruct (Hlast k q Hin) as (refs & Hrefs & Hpt).
    assert (Hlen : length ops = length refs).
    { apply (batch_pointers_read d1 ([] ++ frame ++ []) 0 ops body frame refs k q); [done..|]. by exists [], []. }
    destruct (Hpt Hlen) as [Eq _ Hl2]. apply ptr_ok_at; [by eapply seqs_fresh|done|]. intros cur Hcur. destruct (Hr2 k) as [n Hn].
    unfold ops_record in Hn. rewrite Hcur in Hn. destruct (last_op k ops) as [op|] eqn:Elo.
    + unfold op_record in Hn. destruct (Z.eqb_spec (p_type op) TYPE_SET) as [Ht|]; [|done]. injection Hn as ->. cbn.
      by destruct (Hl2 op eq_refl Ht) as (-> & -> & ->).
    + destruct (Hpt Hlen) as [_ (op & rf & i & Hpk & Hi & _) _]. apply last_op_none in Elo. destruct Elo.
      rewrite <- Hpk. apply list_elem_of_fmap_2. by eapply list_elem_of_lookup_2.
  - intros fd k q Hin Hlog. destruct (Hlast k q Hin) as (refs & Hrefs & Hpt).
    destruct (batch_pointers_read d1 fd off ops body frame refs k q Hbody Hfr Hrefs Hlog) as [Hlen Hr]. by apply Hr, Hpt.
Qed.

(** ** Expiring *)

Lemma drop_getRecord d now k :
  consistent d ->
  let '(r, s, ev) := getRecord (db_store d) now k in
  let d' := fold_left (fun d (e : event) => onStoreExpire d e.1) ev (with_store d s) in
  consistent d' /\ fresh_writes (db_store d) (db_store d') /\ jget (map (db_store d')) k = r.
Proof.
  intros Hc. pose proof (getRecord_reaps (db_store d) now k (co_store _ _ d Hc)) as Hr. pose proof (seq_getRecord (db_store d) now k) as Hq.
  pose proof (getRecord_map (db_store d) now k k (wf_map _ (co_store _ _ d Hc))) as Hm. rewrite decide_True in Hm by done.
  destruct (getRecord (db_store d) now k) as [[r s] ev]. cbn [fst snd] in *. cbv zeta.
  split; [by eapply reaps_consistent|]. rewrite drop_events_store. split; [by eapply fresh_reaps|done].
Qed.

Lemma expire_spec d now now' off dt_text key ttlMs d' o :
  consistent d -> seqs_ok d -> expire d now now' off dt_text key ttlMs = Ok (d', o) ->
  consistent d' /\ fresh_writes (db_store d) (db_store d') /\
  match o with
  | Some p => pending_ok d' p /\ exists cur n ttl, view (db_store d) now (toKStr key) = Some cur /\ ttlMs = Finite ttl /\
      jget (map (db_store d')) (toKStr key) = Some (StoreRecord (Memory (default [] (value_of readValue cur))) (now + ttl) n (dt cur))
  | None => True
  end.
Proof.
  intros Hc Hs. unfold expire. set (k := toKStr key). pose proof (drop_getRecord d now k Hc) as Hd.
  assert (Hview : (getRecord (db_store d) now k).1.1 = view (db_store d) now k).
  { rewrite getRecord_out. unfold view. by destruct (jget (map (db_store d)) k). }
  destruct (getRecord (db_store d) now k) as [[cur s] ev]. set (d1 := fold_left _ ev _) in *. cbn [fst] in Hview.
  destruct Hd as (Hc1 & Hf1 & Hk1). destruct cur as [cur|]; [|by intros [= <- <-]]. destruct ttlMs as [ttl|]; [|done].
  pose proof (store_get_spec readValue decode d1 now' k Hc1) as Hg. destruct (store_get readValue d1 now' k) as [got d2].
  destruct Hg as (-> & Hc2 & Hk2 & _ & Hf2). assert (Hf : fresh_writes (db_store d) (db_store d2)) by (by eapply fresh_writes_trans).
  cbn [lift_error rbind]. destruct (view (db_store d1) now' k) as [r|] eqn:Hv; cbn [mbind option_bind]; [|by intros [= <- <-]].
  assert (r = cur) as ->.
  { unfold view in Hv. rewrite Hk1 in Hv. destruct (expired cur now'); [done|]. by injection Hv as ->. }
  destruct (value_of readValue cur) as [v|] eqn:Hval; [|by intros [= <- <-]].
  intros (frame & Hfr & H)%rbind_ok. apply lift_ok in Hfr. unfold commit_expire in H. injection H as <- <-.
  assert (Hw : writes readValue decode d2 k (fun n => Some (StoreRecord (Memory v) (now + ttl) n (dt cur)))
    (with_store d2 (Store.set (db_store d2) k v (now + ttl) (dt cur)))) by (by apply same_content_writes).
  destruct Hw as [Hc3 [n Hn] _ Hf3]. set (d3 := with_store d2 _) in *. split_and!; [done|by eapply fresh_writes_trans| |].
  - split; cbn [pd_keys pd_last pd_off pd_frame].
    + apply NoDup_singleton.
    + intros k' prev seq E%list_elem_of_singleton. injection E as -> -> ->. rewrite Hk2. by apply (co_records _ _ d2 Hc2 k).
    + intros k' q Hin. destruct disk; [|by apply elem_of_nil in Hin]. apply list_elem_of_singleton in Hin. injection Hin as -> ->.
      apply ptr_ok_at; [by eapply seqs_fresh; [|eapply fresh_writes_trans]|done|]. intros cur'. rewrite Hn. by intros [= <-].
    + intros fd k' q Hin Hlog. destruct disk; [|by apply elem_of_nil in Hin]. apply list_elem_of_singleton in Hin. injection Hin as -> ->.
      by apply (set_pointer_reads fd off (FrameInput TYPE_SET key (Some v) (dt_text <$> dt cur) (now + ttl)) frame).
  - exists cur, n, ttl. rewrite <- Hview. split_and!; [done..|]. by rewrite Hn, Hval.
Qed.

(** ** Rolling back and publishing *)

Lemma restore_keys_spec now fresh keys : forall d,
  consistent d -> NoDup (fst ∘ fst <$> keys) ->
  (forall k prev seq, (k, prev, seq) ∈ keys -> seq_of d k = seq -> restorable readValue now prev) ->
  exists d', restore_keys d now fresh keys = Ok d' /\ consistent d' /\ fresh_writes (db_store d) (db_store d') /\
    (forall k prev seq, (k, prev, seq) ∈ keys -> seq_of d k = seq ->
       exists n, jget (map (db_store d')) k = (fun r => like r n) <$> prev) /\
    (forall k, (forall prev seq, (k, prev, seq) ∈ keys -> seq_of d k <> seq) ->
       jget (map (db_store d')) k = jget (map (db_store d)) k).
Proof.
  induction keys as [|[[pk pv] sq] keys IH]; intros d Hc Hnd Hr; cbn [restore_keys].
  { exists d. split_and!; [done..|apply fresh_writes_refl| |done]. by intros k prev seq ?%elem_of_nil. }
  apply NoDup_cons in Hnd as [Hnin Hnd]. cbn in Hnin.
  assert (Hkeys : forall k prev seq, (k, prev, seq) ∈ keys -> k <> pk).
  { intros k prev seq Hin ->. apply Hnin. by apply (list_elem_of_fmap_2 (fst ∘ fst) keys (pk, prev, seq)). }
  assert (H1 : exists d1, restoreKey readValue decode d now (fresh pk) pk pv sq = Ok d1 /\ consistent d1 /\
    fresh_writes (db_store d) (db_store d1) /\
    (seq_of d pk = sq -> exists n, jget (map (db_store d1)) pk = (fun r => like r n) <$> pv) /\
    (forall k, k <> pk \/ seq_of d pk <> sq -> jget (map (db_store d1)) k = jget (map (db_store d)) k)).
  { destruct (decide (seq_of d pk = sq)) as [E|E].
    - destruct (restoreKey_spec readValue decode d now (fresh pk) pk pv sq Hc) as (d1 & H & [A B C D]);
        [apply (Hr pk pv sq); [by left|done]|done|]. exists d1. split_and!; [done..|]. intros k [Hne|]; [by apply C|done].
    - exists d. rewrite restoreKey_same by done. split_and!; [done..|apply fresh_writes_refl|done|done]. }
  destruct H1 as (d1 & -> & Hc1 & Hf1 & Hpk & Ho1). cbn [rbind].
  assert (Hsame : forall k, k <> pk -> seq_of d1 k = seq_of d k) by (intros k Hne; unfold seq_of; rewrite Ho1; [done|by left]).
  destruct (IH d1 Hc1 Hnd) as (d2 & -> & Hc2 & Hf2 & Hin2 & Hout2).
  { intros k prev seq Hin E. apply (Hr k prev seq); [by right|]. rewrite <- Hsame; [done|by eapply Hkeys]. }
  exists d2. split_and!; [done..|by eapply fresh_writes_trans| |].
  - intros k prev seq [E|Hin]%elem_of_cons Hs.
    + injection E as -> -> ->. destruct (Hpk Hs) as [n Hn]. exists n. rewrite Hout2; [done|].
      intros p0 s0 Hin. by destruct (Hkeys _ _ _ Hin).
    + apply (Hin2 k prev seq); [done|]. rewrite Hsame; [done|by eapply Hkeys].
  - intros k Hk. destruct (decide (k = pk)) as [->|Hne].
    + rewrite Hout2, Ho1; [done| |].
      * right. apply (Hk pv sq). by left.
      * intros p0 s0 Hin. by destruct (Hkeys _ _ _ Hin).
    + rewrite Hout2, Ho1; [done|by left|]. intros p0 s0 Hin. rewrite Hsame by done. apply (Hk p0 s0). by right.
Qed.

(** What a reader of the store can tell of a record. *)
Definition timed_of (r : store_record) : option buffer * Z * option dt_map := (value_of readValue r, expireAt r, dt r).

(** Disk values are read from the log file. *)
Definition log_reader (fd : buffer) : Prop := forall loc, vl_file loc = Wal -> 0 <= vl_off loc -> 0 <= vl_len loc ->
  vl_off loc + vl_len loc <= blen fd -> materialize readValue (Disk loc) = Ok (sub fd (vl_off loc) (vl_off loc + vl_len loc)).

Lemma publishWalRef_spec d same k q fd :
  consistent d -> ptr_ok d k q -> reads fd q -> log_reader fd ->
  let d' := publishWalRef d same k (pt_seq q) (pt_loc q) (pt_expireAt q) (pt_dt q) in
  consistent d' /\ fresh_writes (db_store d) (db_store d') /\
  forall k', timed_of <$> jget (map (db_store d')) k' = timed_of <$> jget (map (db_store d)) k'.
Proof.
  intros Hc Hq (R1 & R2 & R3 & R4 & R5) Hrd. unfold publishWalRef. destruct (pt_seq q) as [n|] eqn:En; [|by split_and!; [|apply fresh_writes_refl|]].
  destruct same; cbn [negb]; [|by split_and!; [|apply fresh_writes_refl|]].
  destruct (jget (map (db_store d)) k) as [cur|] eqn:Hk; [|by split_and!; [|apply fresh_writes_refl|]].
  destruct (Z.eqb_spec (rseq cur) n) as [Hn|]; cbn [negb]; [|by split_and!; [|apply fresh_writes_refl|]].
  destruct (Hq n En) as [_ Hcur]. destruct (Hcur cur Hk Hn) as (Hv & He & Hd). rewrite <- Hd, <- He. cbv zeta.
  assert (Hval : forall e s m, value_of readValue (StoreRecord (Disk (pt_loc q)) e s m) = value_of readValue cur).
  { intros e s m. rewrite Hv. unfold value_of. cbn [ref]. by rewrite (Hrd (pt_loc q)), R5. }
  destruct (same_content_writes readValue decode d k cur (Disk (pt_loc q)) Hc Hk (Hval _ _ _) (expireAt cur)) as [Hc1 [m Hm] Ho Hf].
  split_and!; [done..|]. intros k'. destruct (decide (k' = k)) as [->|Hne]; [|by rewrite Ho].
  rewrite Hm, Hk. cbn. unfold timed_of. by rewrite Hval.
Qed.

Lemma publish_spec d same p fd :
  consistent d -> pending_ok d p -> logged fd (pd_off p) (pd_frame p) -> log_reader fd ->
  consistent (publish d same p) /\ fresh_writes (db_store d) (db_store (publish d same p)) /\
  forall k, timed_of <$> jget (map (db_store (publish d same p))) k = timed_of <$> jget (map (db_store d)) k.
Proof.
  intros Hc [_ _ Hp Hrd] Hl Hfd. unfold publish. specialize (fun k q H => Hrd fd k q H Hl).
  revert d Hc Hp. induction (pd_last p) as [|[k q] l IH]; intros d Hc Hp; cbn [fold_left]; [by split_and!; [|apply fresh_writes_refl|]|].
  destruct (publishWalRef_spec d same k q fd Hc (Hp k q (list_elem_of_here _ _)) (Hrd k q (list_elem_of_here _ _)) Hfd) as (Hc1 & Hf1 & Ht1).
  set (d1 := publishWalRef d same k _ _ _ _) in *. destruct (IH (fun k' q' H => Hrd k' q' (list_elem_of_further _ _ _ H)) d1 Hc1) as (Hc2 & Hf2 & Ht2).
  { intros k' q' Hin. eapply ptr_fresh; [|exact Hf1]. apply Hp. by right. }
  split_and!; [done|by eapply fresh_writes_trans|]. intros k'. by rewrite Ht2.
Qed.

Lemma publish_other_wal d p : publish d false p = d.
Proof.
  unfold publish. induction (pd_last p) as [|[k q] l IH]; [done|]. cbn [fold_left]. unfold publishWalRef at 2.
  destruct (pt_seq q); exact IH.
Qed.

(** * Runs *)

(** Anything may happen between a commit and the settling of its frame's promise. *)
Record world := World { w_db : database; w_pending : list pending }.

Context (Date_parse : jsstr -> js_number) (encode : json -> buffer) (dt_text : dt_map -> buffer).
Context (maxPerTick expireTimeBudgetMs : Z).

Inductive prepared_by : prepared -> Prop :=
| prepared_set key value ttl d t op :
    prepareSet Date_parse encode dt_text key value ttl d t = Ok op ->
    decode (encode (doc_value value)) = doc_value value -> NoDup (default [] d).*1 -> prepared_by op
| prepared_del key op : prepareDel key = Ok op -> prepared_by op.

Definition drop_events (d : database) (s : store) (ev : list event) : database :=
  fold_left (fun d e => onStoreExpire d e.1) ev (with_store d s).

Inductive step : world -> world -> Prop :=
| step_set d ps now off op d' p :
    prepared_by op -> p_type op = TYPE_SET -> commit_set d now off op = Ok (d', p) -> step (World d ps) (World d' (p :: ps))
| step_del d ps now off op d' p :
    prepared_by op -> commit_del d now off op = Ok (d', p) -> step (World d ps) (World d' (p :: ps))
| step_batch d ps now off ops d' p :
    Forall prepared_by ops -> commit_batch d now off ops = Ok (d', p) -> step (World d ps) (World d' (p :: ps))
| step_expire d ps now now' off key ttlMs d' o :
    expire d now now' off dt_text key ttlMs = Ok (d', o) -> step (World d ps) (World d' (option_list o ++ ps))
| step_publish d ps1 p ps2 same fd :
    (same = true -> logged fd (pd_off p) (pd_frame p) /\ log_reader fd) ->
    step (World d (ps1 ++ p :: ps2)) (World (publish d same p) (ps1 ++ ps2))
| step_fail d ps1 p ps2 now fresh d' :
    (forall k r seq, (k, Some r, seq) ∈ pd_keys p -> seq_of d k = seq -> expired r now = false) ->
    rollback d now fresh p = Ok d' -> step (World d (ps1 ++ p :: ps2)) (World d' (ps1 ++ ps2))
| step_get d ps now k v d' : get d now k = Ok (v, d') -> step (World d ps) (World d' ps)
| step_has d ps now k : step (World d ps) (World (has d now k).2 ps)
| step_reap d ps now s n ev : reapExpired (db_store d) now = (s, n, ev) -> step (World d ps) (World (drop_events d s ev) ps)
| step_tick d ps clock s ev :
    activeExpire maxPerTick expireTimeBudgetMs (db_store d) clock = (s, ev) -> step (World d ps) (World (drop_events d s ev) ps)
| step_recovered d ps now now' fresh op d' :
    rop_ok readValue op -> applyRecoveredOp readValue decode d now now' fresh op = Ok d' -> step (World d ps) (World d' ps).

Record world_ok (w : world) : Prop := {
  wo_consistent : consistent (w_db w);
  wo_seqs : seqs_ok (w_db w);
  wo_pending : Forall (pending_ok (w_db w)) (w_pending w);
}.

Lemma normDt_wf d : NoDup (default [] d).*1 -> dt_wf (normDt Date_parse d).
Proof.
  destruct d as [d|]; [|intros _; apply jwf_nil]. cbn. intros Hnd. case_bool_decide; [apply jwf_nil|]. unfold dt_wf, jwf, jkeys. cbn.
  clear H. induction d as [|[k v] d IH]; [apply NoDup_nil_2|]. cbn in Hnd. apply NoDup_cons in Hnd as [Hn Hnd]. cbn [omap list_omap].
  destruct (match v with DtNumber n => n | DtString s => Date_parse s end); [|by apply IH]. cbn. constructor; [|by apply IH].
  intros Hin. apply Hn. clear -Hin. apply list_elem_of_fmap in Hin as ([k' x] & -> & Hin). apply list_elem_of_omap in Hin as ([k2 v2] & Hin & E).
  apply list_elem_of_fmap. exists (k2, v2). split; [|done]. destruct v2 as [n|s]; [destruct n|destruct (Date_parse s)]; naive_solver.
Qed.

Lemma prepared_ok op : prepared_by op -> op_ok op.
Proof.
  intros [key value ttl d t op' H Henc Hnd|key op' H].
  - unfold prepareSet in H. apply rbind_ok in H as (_ & _ & H).
    assert (Hop : exists e, op' = Prepared TYPE_SET key (Some (encode (doc_value value))) (dt_text <$> normDt Date_parse d) e
      (normDt Date_parse d) (toKStr key) (Some value)).
    { destruct ttl as [[n|]|]; [|done|]; injection H as <-; by eexists. }
    destruct Hop as [e ->]. split; cbn; [done|by apply normDt_wf|]. left. split; [done|]. by exists (encode (doc_value value)), value.
  - unfold prepareDel in H. apply rbind_ok in H as (_ & _ & H). injection H as <-. split; cbn; [done|apply jwf_nil|by right].
Qed.

Lemma world_fresh d ps d' : world_ok (World d ps) -> consistent d' -> fresh_writes (db_store d) (db_store d') -> world_ok (World d' ps).
Proof.
  intros [_ Hs Hp] Hc Hf. split; cbn in *; [done|by eapply seqs_fresh|]. eapply Forall_impl; [exact Hp|]. intros p Hok. by eapply pending_fresh.
Qed.

Lemma world_commit d ps d' p : world_ok (World d ps) -> committed d p d' -> world_ok (World d' (p :: ps)).
Proof.
  intros Hw [Hc Hf Hp]. destruct (world_fresh d ps d' Hw Hc Hf) as [H1 H2 H3]. split; [done..|]. cbn in *. by constructor.
Qed.

Lemma world_settle d ps1 p ps2 : world_ok (World d (ps1 ++ p :: ps2)) -> world_ok (World d (ps1 ++ ps2)) /\ pending_ok d p.
Proof.
  intros [H1 H2 H3]. cbn in H3. apply Forall_app in H3 as [H3 H4]. apply Forall_cons in H4 as [H4 H5]. split; [|done].
  split; [done..|]. cbn. apply Forall_app. done.
Qed.

Lemma seq_expireKey (s : store (T := TK)) k r : Store.seq (expireKey s k r).1 = Store.seq s.
Proof. unfold expireKey. pose proof (seq_remove s k) as H. by destruct (Store.remove s k). Qed.

Lemma reapExpired_seq (s : store (T := TK)) now s' n ev : reapExpired s now = (s', n, ev) -> Store.seq s' = Store.seq s.
Proof.
  unfold reapExpired. intros H. change s' with (s', n, ev).1.1. rewrite <- H. clear H s' n ev. change s with (s, 0, @nil event).1.1 at 3.
  generalize (s, 0, @nil event). generalize (map s). clear s. intros m. induction m as [|[k r] m IH]; intros [[s n] ev]; [done|]. cbn [fold_left].
  rewrite IH. destruct (expired r now); [|done]. pose proof (seq_expireKey s k r) as H. by destruct (expireKey s k r).
Qed.

Lemma activeExpire_loop_seq clock now deadline fuel : forall n reaped (s : store (T := TK)),
  Store.seq (activeExpire_loop maxPerTick fuel clock now deadline n reaped s).1.1 = Store.seq s.
Proof.
  induction fuel as [|fuel IH]; intros n reaped s; [done|]. cbn [activeExpire_loop]. destruct (peek (heap s)); [|done].
  destruct (negb _); [done|]. destruct (_ && _ && _); [done|]. destruct (pop (heap s)) as [[e|] h']; [|done].
  destruct (jget (map s) (h_k e)) as [r|]; [|apply (IH (S n) reaped (with_heap s h'))].
  destruct (_ && _); [|apply (IH (S n) reaped (with_heap s h'))].
  pose proof (seq_expireKey (with_heap s h') (h_k e) r) as He. destruct (expireKey (with_heap s h') (h_k e) r) as [s1 ev].
  specialize (IH (S n) (reaped + 1) s1). destruct (activeExpire_loop _ _ _ _ _ _ _ s1) as [[s2 n2] ev']. cbn in *. by rewrite IH, He.
Qed.

Lemma activeExpire_effect (s : store (T := TK)) clock s' ev :
  store_wf s -> activeExpire maxPerTick expireTimeBudgetMs s clock = (s', ev) ->
  reaps (clock O) s s' ev /\ Store.seq s' = Store.seq s.
Proof.
  intros Hs. unfold activeExpire. set (deadline := clock O + _).
  pose proof (activeExpire_loop_spec maxPerTick (length (heap s)) clock (clock O) deadline 0 0 s Hs (Nat.le_refl _)) as H.
  pose proof (activeExpire_loop_seq clock (clock O) deadline (length (heap s)) 0 0 s) as Hq.
  destruct (activeExpire_loop _ _ _ _ _ _ _ s) as [[s1 n] ev1]. destruct H as [[W E N R] _]. intros E1. injection E1 as <- <-.
  split; [|exact Hq]. split; [by apply with_aggressive_wf|done..].
Qed.

Lemma world_reap d ps now s ev :
  world_ok (World d ps) -> reaps now (db_store d) s ev -> Store.seq s = Store.seq (db_store d) -> world_ok (World (drop_events d s ev) ps).
Proof.
  intros Hw Hr Hq. eapply world_fresh; [exact Hw| |].
  { apply (reaps_consistent readValue decode d now s ev); [apply Hw|done]. }
  unfold drop_events. rewrite drop_events_store. by eapply fresh_reaps.
Qed.

Lemma get_spec d now k v d' :
  consistent d -> get d now k = Ok (v, d') ->
  consistent d' /\ fresh_writes (db_store d) (db_store d') /\ v = decode <$> (view (db_store d) now k ≫= value_of readValue).
Proof.
  intros Hc. unfold get. pose proof (store_get_spec readValue decode d now k Hc) as Hg. destruct (store_get readValue d now k) as [got d1].
  destruct Hg as (-> & Hc1 & _ & _ & Hf). cbn [rbind]. intros H. injection H as <- <-.
  destruct (view (db_store d) now k ≫= value_of readValue); [|done]. split; [by apply touch_consistent|]. by rewrite touch_store.
Qed.

Lemma has_consistent d now k : consistent d ->
  consistent (has d now k).2 /\ fresh_writes (db_store d) (db_store (has d now k).2).
Proof.
  intros Hc. unfold has. rewrite has_getRecord. pose proof (drop_getRecord d now k Hc) as H.
  destruct (getRecord (db_store d) now k) as [[r s] ev]. cbn. by destruct H as (? & ? & _).
Qed.

Lemma step_ok w w' : step w w' -> world_ok w -> world_ok w'.
Proof.
  intros Hst Hw. destruct Hst as
    [d ps now off op d' p Hp Ht H|d ps now off op d' p Hp H|d ps now off ops d' p Hp H|d ps now now' off key ttl d' o H
    |d ps1 p ps2 same fd Hl|d ps1 p ps2 now fresh d' He H|d ps now k v d' H|d ps now k|d ps now s n ev H|d ps clock s ev H
    |d ps now now' fresh op d' Hr H].
  - apply (world_commit d); [done|]. by eapply commit_set_spec; [apply Hw|apply Hw|by apply prepared_ok| |exact H].
  - apply (world_commit d); [done|]. by eapply commit_del_spec; [apply Hw|apply Hw|by apply prepared_ok|exact H].
  - apply (world_commit d); [done|]. eapply commit_batch_spec; [apply Hw|apply Hw| |exact H].
    eapply Forall_impl; [exact Hp|]. apply prepared_ok.
  - destruct (expire_spec d now now' off dt_text key ttl d' o) as (Hc & Hf & Ho); [apply Hw|apply Hw|done|].
    destruct o as [p|]; [|by eapply world_fresh]. apply (world_commit d); [done|]. by destruct Ho as [? _].
  - apply world_settle in Hw as [Hw Hp]. destruct same; [|by rewrite publish_other_wal]. destruct (Hl eq_refl) as [H1 H2].
    destruct (publish_spec d true p fd) as (Hc & Hf & _); [apply Hw|done..|]. by eapply world_fresh.
  - apply world_settle in Hw as [Hw Hp]. destruct (restore_keys_spec now fresh (pd_keys p) d) as (d2 & H2 & Hc & Hf & _).
    { apply Hw. } { apply Hp. }
    { intros k prev seq Hin Hs. destruct prev as [r|]; [|done]. split; [by apply (po_prev d p Hp k (Some r) seq)|by eapply He]. }
    unfold rollback in H. rewrite H2 in H. injection H as <-. by eapply world_fresh.
  - destruct (get_spec d now k v d' (wo_consistent _ Hw) H) as (Hc & Hf & _). by eapply world_fresh.
  - destruct (has_consistent d now k (wo_consistent _ Hw)) as [Hc Hf]. by eapply world_fresh.
  - pose proof (reapExpired_spec (db_store d) now (co_store _ _ _ (wo_consistent _ Hw))) as Hr. rewrite H in Hr. destruct Hr as [Hr _].
    eapply world_reap; [done|exact Hr|by eapply reapExpired_seq].
  - destruct (activeExpire_effect (db_store d) clock s ev (co_store _ _ _ (wo_consistent _ Hw)) H) as [Hr Hq]. by eapply world_reap.
  - destruct (applyRecoveredOp_spec readValue decode d now now' fresh op (wo_consistent _ Hw) Hr) as (d2 & H2 & [Hc _ _ Hf]).
    rewrite H2 in H. injection H as <-. by eapply world_fresh.
Qed.

Lemma run_ok w w' : consistent (w_db w) -> seqs_ok (w_db w) -> w_pending w = [] -> rtc step w w' -> world_ok w'.
Proof.
  intros Hc Hs Hp Hst. assert (Hw : world_ok w) by (split; [done..|rewrite Hp; constructor]). clear Hc Hs Hp.
  induction Hst as [w|w1 w2 w3 H12 _ IH]; [done|]. by apply IH, (step_ok w1).
Qed.

(** ** The theorems *)


(** A batch is atomic: when it commits, each key has the record of the last
    operation on it and the other keys are untouched; and if its log write then fails,
    in whatever state the database is by then, the rollback succeeds, gives back each
    key that still has what the batch wrote the record it had before, leaves newer
    records and other keys alone, and the indexes follow; provided that no record it puts
    back has expired by then. *)
Theorem batch_atomic d now off ops d1 p :
  consistent d -> seqs_ok d -> Forall op_ok ops -> commit_batch d now off ops = Ok (d1, p) ->
  (forall k, exists n, jget (map (db_store d1)) k = ops_record d ops k n) /\
  forall d2 now2 fresh, consistent d2 ->
    (forall k r, k ∈ p_pk <$> ops -> seq_of d2 k = seq_of d1 k -> view (db_store d) now k = Some r -> expired r now2 = false) ->
    exists d3, rollback d2 now2 fresh p = Ok d3 /\ consistent d3 /\
      (forall k, k ∈ p_pk <$> ops -> seq_of d2 k = seq_of d1 k ->
         exists n, jget (map (db_store d3)) k = (fun r => like r n) <$> view (db_store d) now k) /\
      (forall k, k ∉ p_pk <$> ops \/ seq_of d2 k <> seq_of d1 k -> jget (map (db_store d3)) k = jget (map (db_store d2)) k).
Proof.
  intros Hc Hs Hok H. destruct (commit_batch_spec d now off ops d1 p Hc Hs Hok H) as ([_ _ [Hnd Hprev _ _]] & Hrec & Hkeys).
  split; [exact Hrec|]. intros d2 now2 fresh Hc2 Hlive.
  destruct (restore_keys_spec now2 fresh (pd_keys p) d2 Hc2 Hnd) as (d3 & H3 & Hc3 & _ & Hin & Hout).
  { intros k prev seq Hk Hq. pose proof (Hprev k prev seq Hk) as Hpr. apply Hkeys in Hk as (Hk & -> & ->).
    destruct (view (db_store d) now k) as [r|] eqn:E; [|done]. split; [done|by eapply Hlive]. }
  exists d3. split; [exact H3|]. split; [done|]. split.
  - intros k Hk Hq. apply (Hin k _ (seq_of d1 k)); [|done]. by apply Hkeys.
  - intros k Hk. apply Hout. intros prev seq Hp. apply Hkeys in Hp as (Hp & _ & ->). by destruct Hk.
Qed.

(** Publishing the disk pointers of a write whose frame is in the log changes no
    key's value, expiry or timestamps, whatever happened since the write: a pointer
    replaces only the very record the write left. *)
Theorem publish_keeps_contents w w' p same fd :
  consistent (w_db w) -> seqs_ok (w_db w) -> w_pending w = [] -> rtc step w w' ->
  p ∈ w_pending w' -> logged fd (pd_off p) (pd_frame p) -> log_reader fd ->
  forall k, timed_of <$> jget (map (db_store (publish (w_db w') same p))) k = timed_of <$> jget (map (db_store (w_db w'))) k.
Proof.
  intros Hc Hs Hp Hst Hin Hl Hrd. destruct (run_ok w w' Hc Hs Hp Hst) as [H1 _ H3]. rewrite Forall_forall in H3. by apply (publish_spec (w_db w') same p fd H1 (H3 p Hin) Hl Hrd).
Qed.
End writes.

(** * Concrete runs, on the reference indexes *)

#[local] Instance key_index : OrderedIndex jsstr jsstr (list (jsstr * jsstr)) := list_index cmpString cmpString.
#[local] Instance key_index_laws : OrderedIndexLaws (H := key_index) cmpString cmpString := list_index_laws cmpString cmpString.
#[local] Instance num_index : OrderedIndex Z jsstr (list (Z * jsstr)) := list_index cmpNumber cmpString.
#[local] Instance num_index_laws : OrderedIndexLaws (H := num_index) cmpNumber cmpString := list_index_laws cmpNumber cmpString.
#[local] Instance ord_index : OrderedIndex order_key jsstr (list (order_key * jsstr)) := list_index cmp_order cmpString.
#[local] Instance ord_index_laws : OrderedIndexLaws (H := ord_index) cmp_order cmpString := list_index_laws cmp_order cmpString.

(** A text index that only remembers its documents. *)
#[local] Instance doc_table : TextIndex (list (jsstr * json)) := {|
  ti_add := fun x k d => jset x k d;
  ti_remove := fun x k => jdel x k;
  ti_holds := fun x D => jwf x /\ forall k, jget x k = D k;
|}.

#[local] Instance doc_table_laws : TextIndexLaws (list (jsstr * json)).
Proof.
  split.
  - intros x D k d [Hw H]. split; [by apply jwf_set|]. intros k'. cbn. rewrite jget_set. unfold upd.
    destruct (decide (k = k')) as [->|]; [by rewrite decide_True|by rewrite decide_False by congruence].
  - intros x D k [Hw H]. split; [by apply jwf_del|]. intros k'. cbn. rewrite jget_del by done. unfold upd.
    destruct (decide (k = k')) as [->|]; [by rewrite decide_True|by rewrite decide_False by congruence].
  - intros x D D' E [Hw H]. split; [done|]. intros k. by rewrite <- E.
Qed.

Abbreviation list_db := (db (TK := list (jsstr * jsstr)) (TZ := list (Z * jsstr)) (TO := list (order_key * jsstr)) (X := list (jsstr * json))).

Definition run_defs : list (jsstr * (index_def * index_type)) := [(js "byTag", (IndexDef (js "tag") false true, Equality))].
Definition run_idx : list (jsstr * any_index (list (Z * jsstr))) := match create_all run_defs [] with Ok m => m | Err _ => [] end.
Definition run_db : list_db :=
  Db empty_store run_idx empty_dt_index [(js "byAt", CompoundEntry (CompoundDef (js "ws") (js "at") OrderNumber) [] [])] [(js "text", [])] [] None.

Definition run_doc (tag : string) : json := JObject [(js "tag", JString (js tag)); (js "ws", JString (js "w"))].
Definition run_encode (v : json) : buffer :=
  match v with JObject ((_, JString s) :: _) => if bool_decide (s = js "a") then [x01] else [x02] | _ => [] end.
Definition run_decode (b : buffer) : json := if bool_decide (b = [x01]) then run_doc "a" else run_doc "b".
Definition run_document (tag : string) : document := Document (run_doc tag) (fun _ => 0%N).
Definition run_dt_text (m : dt_map) : buffer := [x00].

Lemma run_db_consistent rv : consistent rv run_decode run_db.
Proof.
  split; cbn [db_store run_db].
  - apply empty_store_wf.
  - done.
  - split; cbn [db_idx db_dt db_comp db_text].
    + eapply repr_mgr_ext; [|eapply (create_all_repr run_defs []); [split; constructor|vm_compute; reflexivity]]. done.
    + split; [apply empty_inv|]. by intros k name.
    + exists (fun _ _ => 0%N). constructor; [|constructor]. apply (empty_entry_repr (CompoundDef (js "ws") (js "at") OrderNumber)).
    + constructor; [|constructor]. split; [apply jwf_nil|done].
Qed.

(** A run: [k] is set, then a batch sets it again with [l], and fails. *)
Definition run_set (t : Z) (k tag : string) : result db_error prepared :=
  prepareSet (fun _ => NotFinite) run_encode run_dt_text (String.list_byte_of_string k) (run_document tag) None (Some [(js "at", DtNumber (Finite t))]) 0.
Definition run_op (t : Z) (k tag : string) : prepared :=
  match run_set t k tag with Ok op => op | Err _ => Prepared 0 [] None None 0 None [] None end.

Definition run_state (r : result write_error (list_db * pending)) : list_db := match r with Ok (d, _) => d | Err _ => run_db end.
Definition run_pending (r : result write_error (list_db * pending)) : pending := match r with Ok (_, p) => p | Err _ => Pending 0 [] [] [] end.

Definition reader := option (value_loc -> option buffer).

Definition run_first (rv : reader) : result write_error (list_db * pending) :=
  commit_set rv run_decode true run_db 0 0 (run_op 7 "k" "a").
Definition run_ops : list prepared := [run_op 8 "k" "b"; run_op 9 "l" "a"].
Definition run_off : Z := blen (pd_frame (run_pending (run_first None))).
Definition run_batch (rv : reader) : result write_error (list_db * pending) :=
  commit_batch rv run_decode true (run_state (run_first rv)) 0 run_off run_ops.

(** The log once both frames are written. *)
Definition run_log : buffer := pd_frame (run_pending (run_first None)) ++ pd_frame (run_pending (run_batch None)).
Definition run_reader : reader := Some (fun loc => Some (sub run_log (vl_off loc) (vl_off loc + vl_len loc))).

Lemma run_prepared t k tag op :
  run_set t k tag = Ok op -> run_decode (run_encode (run_doc tag)) = run_doc tag ->
  prepared_by run_decode (fun _ => NotFinite) run_encode run_dt_text op.
Proof. unfold run_set. intros H E. eapply prepared_set; [exact H|exact E|]. apply NoDup_singleton. Qed.

Lemma run_ops_prepared : Forall (prepared_by run_decode (fun _ => NotFinite) run_encode run_dt_text) (run_op 7 "k" "a" :: run_ops).
Proof.
  repeat constructor; [apply (run_prepared 7 "k" "a")|apply (run_prepared 8 "k" "b")|apply (run_prepared 9 "l" "a")];
    vm_compute; reflexivity.
Qed.

Lemma run_ops_ok : Forall (op_ok run_decode) (run_op 7 "k" "a" :: run_ops).
Proof. eapply Forall_impl; [exact run_ops_prepared|]. apply prepared_ok. Qed.

Lemma run_seqs_ok : seqs_ok run_db.
Proof. done. Qed.

Definition run_world : world (TK := list (jsstr * jsstr)) (TZ := list (Z * jsstr)) (TO := list (order_key * jsstr)) (X := list (jsstr * json)) :=
  World (run_state (run_batch run_reader)) [run_pending (run_batch run_reader); run_pending (run_first run_reader)].

Lemma run_steps :
  rtc (step run_reader run_decode true (fun _ => NotFinite) run_encode run_dt_text 100 2) (World run_db []) run_world.
Proof.
  pose proof run_ops_prepared as [H1 H2]%Forall_cons. eapply rtc_l; [|eapply rtc_l; [|apply rtc_refl]].
  - apply (step_set _ _ _ _ _ _ _ _ run_db [] 0 0 (run_op 7 "k" "a") (run_state (run_first run_reader)) (run_pending (run_first run_reader)));
      [exact H1|reflexivity|vm_compute; reflexivity].
  - apply (step_batch _ _ _ _ _ _ _ _ (run_state (run_first run_reader)) _ 0 run_off run_ops); [exact H2|vm_compute; reflexivity].
Qed.


(** Publishing the batch puts both values on disk and changes neither. *)
Lemma publish_keeps_contents_witness :
  let p := run_pending (run_batch run_reader) in
  let d := publish (w_db run_world) true p in
  ref <$> jget (map (db_store d)) (js "k") = Some (Disk (ValueLoc Wal 73 1)) /\
  materialize run_reader (Disk (ValueLoc Wal 73 1)) = Ok [x02] /\
  forall k, timed_of run_reader <$> jget (map (db_store d)) k = timed_of run_reader <$> jget (map (db_store (w_db run_world))) k.
Proof.
  split; [vm_compute; reflexivity|]. split; [vm_compute; reflexivity|].
  apply (publish_keeps_contents run_reader run_decode true (fun _ => NotFinite) run_encode run_dt_text 100 2 (World run_db []) run_world _ _ run_log
    (run_db_consistent _) run_seqs_ok eq_refl run_steps).
  - by left.
  - exists (pd_frame (run_pending (run_first None))), []. split; [rewrite app_nil_r; vm_compute; reflexivity|vm_compute; reflexivity].
  - intros loc _ _ _ _. reflexivity.
Defined.

(** The batch fails after all: the key is back and the other one gone. *)
Lemma batch_atomic_witness :
  exists d1 p d3, run_batch None = Ok (d1, p) /\
    rollback None run_decode d1 20 (fun _ _ => 0%N) p = Ok d3 /\
    jkeys (map (db_store d1)) = [js "k"; js "l"] /\ jkeys (map (db_store d3)) = [js "k"] /\
    consistent None run_decode d3 /\ findEq (db_idx d3) (js "byTag") (Some (JString (js "a"))) = Ok [js "k"].
Proof.
  pose proof run_ops_ok as [Ho1 Ho]%Forall_cons.
  destruct (commit_set_spec None run_decode true run_db 0 0 (run_op 7 "k" "a") (run_state (run_first None)) (run_pending (run_first None)))
    as [[Hc Hf _] _]; [apply run_db_consistent|apply run_seqs_ok|exact Ho1|reflexivity|vm_compute; reflexivity|].
  pose proof (seqs_fresh _ _ run_seqs_ok Hf) as Hs.
  set (d1 := run_state (run_batch None)). set (p := run_pending (run_batch None)).
  assert (Eb : commit_batch None run_decode true (run_state (run_first None)) 0 run_off run_ops = Ok (d1, p)) by (vm_compute; reflexivity).
  destruct (commit_batch_spec None run_decode true (run_state (run_first None)) 0 run_off run_ops d1 p Hc Hs Ho Eb) as [[Hc1 _ _] _].
  destruct (batch_atomic None run_decode true (run_state (run_first None)) 0 run_off run_ops d1 p Hc Hs Ho Eb) as [_ H].
  destruct (H d1 20 (fun _ _ => 0%N) Hc1) as (d3 & E3 & Hc3 & _ & _).
  { intros k r Hk _. unfold run_ops in Hk. cbn in Hk. apply list_elem_of_In in Hk. cbn in Hk.
    destruct Hk as [<-|[<-|[]]]; vm_compute; [intros [= <-]; reflexivity|discriminate]. }
  exists d1, p, d3. vm_compute in E3. injection E3 as <-.
  split; [vm_compute; reflexivity|]. split; [vm_compute; reflexivity|]. split; [vm_compute; reflexivity|].
  split; [vm_compute; reflexivity|]. split; [exact Hc3|vm_compute; reflexivity].
Defined.

(** ** Behaviours outside the invariant's hypotheses *)

(** [expire]'s commit run again after a rotation, on what it captured before a [set]
    of the same key: the older value is back in the store, the indexes keep the newer
    document. *)
Example expire_again_is_stale :
  let d := run_state (run_first None) in
  let d1 := run_state (commit_set None run_decode true d 0 200 (run_op 8 "k" "b")) in
  let d2 := (commit_expire true d1 300 [] (js "k") 1 [x01] 50 (Some [(js "at", 7)])).1 in
  option_map (fun v => run_decode v) (jget (map (db_store d2)) (js "k") ≫= value_of None) = Some (run_doc "a") /\
  findEq (db_idx d2) (js "byTag") (Some (JString (js "a"))) = Ok [] /\
  findEq (db_idx d2) (js "byTag") (Some (JString (js "b"))) = Ok [js "k"].
Proof. vm_compute. done. Qed.

(** Rolling back to a record that expired while the write waited: the read drops the
    record, and the datetime index gets its times all the same. *)
Example rollback_to_expired :
  let d := with_store run_db (Store.set (db_store run_db) (js "k") [x02] 0 None) in
  let prev := StoreRecord (Memory [x01]) 10 1 (Some [(js "at", 7)]) in
  match restoreKey None run_decode d 20 (fun _ => 0%N) (js "k") (Some prev) (seq_of d (js "k")) with
  | Ok d' => jget (map (db_store d')) (js "k") = None /\ dt_at (db_dt d') (js "k") (js "at") = Some 7
  | Err _ => False
  end.
Proof. vm_compute. done. Qed.

(** Two writes of one key fail together, the earlier first: its rollback finds the
    later record and leaves it, and the later one's rollback puts the earlier record
    back. The value of a write that failed stays. *)
Example failed_pair_keeps_first :
  let w1 := run_first None in
  let w2 := commit_set None run_decode true (run_state w1) 0 200 (run_op 8 "k" "b") in
  match rollback None run_decode (run_state w2) 5 (fun _ _ => 0%N) (run_pending w1) with
  | Ok d1 => match rollback None run_decode d1 5 (fun _ _ => 0%N) (run_pending w2) with
             | Ok d2 => (jget (map (db_store run_db)) (js "k") = None) /\
                        (jget (map (db_store d2)) (js "k") ≫= value_of None) = Some [x01]
             | Err _ => False
             end
  | Err _ => False
  end.
Proof. vm_compute. done. Qed.
