(* ===== verification/MaxMemory.v ===== *)
(** The memory limit of the database ([packages/minidb/src/index.ts]): projecting the
    store's size after a write, choosing the least recently used keys and evicting them
    before the write goes ahead. Evictions are run one after the other, each log write
    succeeding at once; the clock is read anew for each of them. *)

From S2P Require Import Prelude JsMap Codec ScanRefs Json Ordered MinHeap Store DtIndex.
From S2P Require Import JsonText IndexManager CompoundIndex Recovery MiniDb Writes.

Inductive memory_policy := EvictLru | Reject.

Inductive memory_error := MaxMemoryExceeded (projected : Z) | EvictFailed (e : write_error).

Section memory.
Context {TK TZ TO X : Type} `{!OrderedIndex jsstr jsstr TK} `{!OrderedIndex Z jsstr TZ} `{!OrderedIndex order_key jsstr TO}.
Context `{!TextIndex X}.
Context (readValue : option (value_loc -> option buffer)) (decode : buffer -> json).
Context (disk : bool) (policy : memory_policy).

Abbreviation database := (db (TK := TK) (TZ := TZ) (TO := TO) (X := X)).

Definition next_bytes (op : prepared) : Z :=
  if p_type op =? TYPE_SET
  then estimateSetBytes (toKStr (p_key op)) (default [] (p_value op)) (p_dtNorm op) (negb disk) else 0.

Fixpoint project (d : database) (considered : list (jsstr * Z)) (projected : Z) (ops : list prepared) : Z :=
  match ops with
  | [] => projected
  | op :: ops' =>
      let cur := match jget considered (p_pk op) with Some n => n | None => recordBytes (db_store d) (p_pk op) end in
      project d (jset considered (p_pk op) (next_bytes op)) (projected - cur + next_bytes op) ops'
  end.

Definition projectedBytesForOps (d : database) (ops : list prepared) : Z := project d [] (bytes (db_store d)) ops.

Definition pickEvictionVictim (d : database) (skip : list jsstr) : option jsstr :=
  let free k := negb (bool_decide (k ∈ skip)) in
  match List.find (fun k => free k && jhas (map (db_store d)) k) (db_access d) with
  | Some k => Some k
  | None => List.find free (jkeys (map (db_store d)))
  end.

Definition evictKey (d : database) (now : Z) (pk : jsstr) : result write_error database :=
  if recordBytes (db_store d) pk =? 0 then Ok d
  else
    let? op := lift_error WDb (prepareDel (fromKStr pk)) in
    let? r := commit_del readValue decode d now 0 op in Ok r.1.

(** [clock n] is the time of the [n]-th eviction. One round per record is enough fuel. *)
Fixpoint evict_loop (fuel : nat) (clock : nat -> Z) (n : nat) (limit : Z) (skip : list jsstr) (d : database) (projected : Z)
    : result memory_error (database * Z) :=
  match fuel with
  | O => Ok (d, projected)
  | S fuel' =>
      if limit <? projected then
        match pickEvictionVictim d skip with
        | None => Ok (d, projected)
        | Some victim =>
            let projected' := projected - recordBytes (db_store d) victim in
            match evictKey d (clock n) victim with
            | Err e => Err (EvictFailed e)
            | Ok d' => evict_loop fuel' clock (S n) limit skip d' projected'
            end
        end
      else Ok (d, projected)
  end.

Definition ensureMemoryFor (d : database) (now : Z) (clock : nat -> Z) (ops : list prepared) : result memory_error database :=
  match db_maxMemory d with
  | None => Ok d
  | Some limit =>
      let '(s, _, ev) := reapExpired (db_store d) now in
      let d := drop_events d s ev in
      let projected := projectedBytesForOps d ops in
      if projected <=? limit then Ok d
      else
        let? r := match policy with
                  | EvictLru => evict_loop (S (length (map (db_store d)))) clock 0 limit (p_pk <$> ops) d projected
                  | Reject => Ok (d, projected)
                  end in
        if limit <? r.2 then Err (MaxMemoryExceeded r.2) else Ok r.1
  end.

(** * The projection is exact *)

Context `{!OrderedIndexLaws (T := TK) cmpString cmpString} `{!OrderedIndexLaws (T := TZ) cmpNumber cmpString}.
Context `{!OrderedIndexLaws (T := TO) cmp_order cmpString} `{!TextIndexLaws X}.

Local Abbreviation consistent := (consistent readValue decode).
Local Abbreviation op_ok := (op_ok decode).

Lemma jget_perm {V} (m1 m2 : list (jsstr * V)) : jwf m1 -> jwf m2 -> (forall k, jget m1 k = jget m2 k) -> m1 ≡ₚ m2.
Proof.
  intros H1 H2 E. assert (Hnd : forall m : list (jsstr * V), jwf m -> NoDup m) by (intros m Hm; by apply (NoDup_fmap_1 fst)).
  apply NoDup_Permutation; [by apply Hnd..|]. intros [k v]. split; intros Hin.
  - apply jget_in in Hin; [|done]. rewrite E in Hin. by apply jget_Some_in.
  - apply jget_in in Hin; [|done]. rewrite <- E in Hin. by apply jget_Some_in.
Qed.

Lemma recordBytes_del (s : store (T := TK)) k :
  store_wf s -> bytes s = recordBytes s k + msum record_bytes (jdel (map s) k).
Proof.
  intros Hs. rewrite (wf_bytes s Hs). unfold recordBytes. destruct (jget (map s) k) as [r|] eqn:E.
  - rewrite (msum_del _ _ _ r) by done. lia.
  - by rewrite jdel_notin.
Qed.

(** Changing one record changes the byte count by what the record accounts for. *)
Lemma bytes_diff (s s' : store (T := TK)) k :
  store_wf s -> store_wf s' -> (forall k', k' <> k -> jget (map s') k' = jget (map s) k') ->
  bytes s' = bytes s - recordBytes s k + recordBytes s' k.
Proof.
  intros Hs Hs' Ho. rewrite (recordBytes_del s k Hs), (recordBytes_del s' k Hs').
  assert (Hp : jdel (map s') k ≡ₚ jdel (map s) k).
  { apply jget_perm; [by apply jwf_del, Hs'|by apply jwf_del, Hs|]. intros k'.
    rewrite !jget_del by (apply Hs || apply Hs'). destruct (decide (k = k')); [done|]. by apply Ho. }
  rewrite (msum_perm _ _ _ Hp). lia.
Qed.

Lemma writes_bytes d pk o d' :
  consistent d -> writes readValue decode d pk o d' ->
  bytes (db_store d') = bytes (db_store d) - recordBytes (db_store d) pk + recordBytes (db_store d') pk /\
  (forall k, k <> pk -> recordBytes (db_store d') k = recordBytes (db_store d) k).
Proof.
  intros Hc [Hc' _ Ho _]. split; [apply bytes_diff; [apply Hc|apply Hc'|done]|]. intros k Hne. unfold recordBytes. by rewrite Ho.
Qed.

Lemma op_bytes_exact d op d' :
  disk = false -> op_ok op -> writes readValue decode d (p_pk op) (op_record op) d' -> recordBytes (db_store d') (p_pk op) = next_bytes op.
Proof.
  intros Hdisk [Hpk _ Hkind] [_ [n Hn] _ _]. unfold recordBytes, next_bytes. rewrite Hn, Hdisk. unfold op_record.
  destruct Hkind as [(Ht & _)|Ht]; rewrite Ht; cbn [Z.eqb TYPE_SET TYPE_DEL]; [|done]. by rewrite Hpk.
Qed.

Lemma project_loop_exact now ops : disk = false -> forall d0 d considered projected prevs d' prevs',
  consistent d -> Forall op_ok ops ->
  (forall k, match jget considered k with Some n => n | None => recordBytes (db_store d0) k end = recordBytes (db_store d) k) ->
  projected = bytes (db_store d) -> apply_ops readValue decode d now ops prevs = Ok (d', prevs') ->
  project d0 considered projected ops = bytes (db_store d').
Proof.
  intros Hdisk. induction ops as [|op ops IH]; intros d0 d considered projected prevs d' prevs' Hc Hok Hcon -> Ha; cbn [project].
  { cbn in Ha. by injection Ha as <- _. }
  apply Forall_cons in Hok as [Hop Hok]. cbn [apply_ops] in Ha.
  destruct (applyOp_spec readValue decode d now op Hc Hop) as (d1 & E & Hw). rewrite E in Ha. cbn [rbind fst snd] in Ha.
  destruct (writes_bytes _ _ _ _ Hc Hw) as [Hb Ho]. pose proof (op_bytes_exact _ _ _ Hdisk Hop Hw) as Hn. rewrite Hcon.
  eapply (IH d0 d1); [apply Hw|done| |rewrite Hb, Hn; lia|exact Ha]. intros k. rewrite jget_set.
  destruct (decide (p_pk op = k)) as [<-|Hne]; [by rewrite Hn|]. rewrite Hcon. symmetry. apply Ho. congruence.
Qed.

Lemma projection_exact d now ops d' prevs :
  disk = false -> consistent d -> Forall op_ok ops -> apply_ops readValue decode d now ops [] = Ok (d', prevs) ->
  projectedBytesForOps d ops = bytes (db_store d').
Proof. intros Hdisk Hc Hok. by apply project_loop_exact. Qed.

(** The projection sees only the records of the keys written. *)
Lemma project_ext ops d d' x : forall considered projected,
  (forall k, k ∈ p_pk <$> ops -> recordBytes (db_store d') k = recordBytes (db_store d) k) ->
  project d' considered (projected + x) ops = project d considered projected ops + x.
Proof.
  induction ops as [|op ops IH]; intros considered projected Hk; cbn [project]; [done|]. rewrite <- IH.
  - rewrite (Hk (p_pk op)) by by left. f_equal. lia.
  - intros k Hin. apply Hk. by right.
Qed.

(** * Evicting *)

(** Keys a writer accepts. *)
Definition key_ok (k : jsstr) : Prop := toKStr (fromKStr k) = k /\ 1 <= Z.of_nat (length k) <= MAX_KEY_LEN.
Definition keys_ok (d : database) : Prop := forall k, is_Some (jget (map (db_store d)) k) -> key_ok k.

Lemma encodeFrame_del key : blen key <= MAX_KEY_LEN -> exists b, encodeFrame (FrameInput TYPE_DEL key None None 0) = Ok b.
Proof.
  intros Hk. eexists. apply encodeFrame_spec. split; [|reflexivity]. split; cbn; [unfold TYPE_DEL; lia|done|unfold blen, MAX_VAL_LEN; cbn; lia..|lia].
Qed.

Lemma recordBytes_pos (s : store (T := TK)) k r : jget (map s) k = Some r -> 1 <= Z.of_nat (length k) -> 0 < recordBytes s k.
Proof.
  intros Hk Hl. unfold recordBytes. rewrite Hk. unfold record_bytes.
  assert (0 <= refBytes (ref r)) by (destruct (ref r) as [b|]; cbn; [apply blen_nonneg|done]).
  assert (0 <= metaBytes (dt r)); [|lia]. destruct (dt r) as [m|]; [|done]. cbn. unfold json_dt_len.
  assert (Hcl : forall n s, (length s <= n)%nat -> 0 <= json_chars_len s).
  { clear. induction n as [|n IH]; intros [|u s] Hn; cbn in *; try lia.
    pose proof (IH s ltac:(lia)). destruct s as [|v s]; [repeat case_match; lia|].
    pose proof (IH s ltac:(cbn in *; lia)). repeat case_match; cbn in *; lia. }
  assert (Hd : forall f n, 1 <= digits f n) by (induction f; intros n; cbn; [lia|case_match; [lia|specialize (IHf (n / 10)); lia]]).
  induction m as [|[k' n] m IH]; [cbn; lia|]. cbn [foldr length]. pose proof (Hcl _ k' (Nat.le_refl _)).
  assert (1 <= number_len n) by (unfold number_len; pose proof (Hd (S (Z.to_nat (Z.log2 (Z.abs n)))) (Z.abs n)); case_match; lia).
  cbn [length] in IH. lia.
Qed.

Lemma evictKey_spec d now pk :
  consistent d -> keys_ok d -> is_Some (jget (map (db_store d)) pk) ->
  exists d', evictKey d now pk = Ok d' /\ writes readValue decode d pk (fun _ => None) d'.
Proof.
  intros Hc Hk [r Hr]. destruct (Hk pk (mk_is_Some _ _ Hr)) as [Hrt Hlen]. unfold evictKey.
  pose proof (recordBytes_pos _ _ _ Hr (proj1 Hlen)). rewrite (proj2 (Z.eqb_neq _ _)) by lia.
  assert (Hb : blen (fromKStr pk) = Z.of_nat (length pk)) by (unfold fromKStr, blen; by rewrite length_fmap).
  unfold prepareDel, checkKey. rewrite Hb. rewrite (proj2 (Z.ltb_ge _ _)) by lia. rewrite (proj2 (Z.eqb_neq _ _)) by lia.
  cbn [rbind lift_error]. rewrite Hrt. set (op := Prepared _ _ _ _ _ _ _ _). unfold commit_del.
  destruct (encodeFrame_del (p_key op)) as [b ->]; [cbn; lia|]. cbn [rbind lift_error].
  destruct (applyOp_spec readValue decode d now op Hc) as (d' & -> & Hw); [split; [done|apply jwf_nil|by right]|].
  cbn [lift_error rbind]. exists d'. split; [done|exact Hw].
Qed.

Lemma victim_spec d skip :
  match pickEvictionVictim d skip with
  | Some k => (k ∉ skip) /\ is_Some (jget (map (db_store d)) k)
  | None => forall k, is_Some (jget (map (db_store d)) k) -> k ∈ skip
  end.
Proof.
  unfold pickEvictionVictim. destruct (List.find _ (db_access d)) as [k|] eqn:E1.
  - apply List.find_some in E1 as [_ [H1 H2]%andb_true_iff]. apply negb_true_iff, bool_decide_eq_false in H1. split; [done|].
    unfold jhas in H2. by destruct (jget (map (db_store d)) k).
  - destruct (List.find _ (jkeys (map (db_store d)))) as [k|] eqn:E2.
    + apply List.find_some in E2 as [Hin H1]. apply negb_true_iff, bool_decide_eq_false in H1. split; [done|].
      apply list_elem_of_In in Hin. destruct (jget (map (db_store d)) k) eqn:E; [done|]. by apply jget_None in E.
    + intros k [r Hr]. assert (Hin : k ∈ jkeys (map (db_store d))).
      { destruct (decide (k ∈ jkeys (map (db_store d)))) as [|Hn]; [done|]. apply jget_None in Hn. congruence. }
      apply list_elem_of_In in Hin. pose proof (List.find_none _ _ E2 k Hin) as Hf. cbn in Hf.
      apply negb_false_iff, bool_decide_eq_true in Hf. done.
Qed.

(** Evictions spare the keys written; they end below the limit or with nothing left to evict. *)
Lemma evict_loop_spec clock limit ops fuel : forall n d projected,
  consistent d -> keys_ok d -> (length (map (db_store d)) < fuel)%nat -> projected = projectedBytesForOps d ops ->
  exists d', evict_loop fuel clock n limit (p_pk <$> ops) d projected = Ok (d', projectedBytesForOps d' ops) /\
    consistent d' /\
    (forall k, k ∈ p_pk <$> ops -> jget (map (db_store d')) k = jget (map (db_store d)) k) /\
    (forall k r, jget (map (db_store d')) k = Some r -> jget (map (db_store d)) k = Some r) /\
    (limit < projectedBytesForOps d' ops -> forall k, is_Some (jget (map (db_store d')) k) -> k ∈ p_pk <$> ops).
Proof.
  induction fuel as [|fuel IH]; intros n d projected Hc Hk Hf ->; cbn [evict_loop]; [lia|].
  destruct (Z.ltb_spec limit (projectedBytesForOps d ops)) as [Hlt|Hge].
  2: { exists d. split_and!; [done..|]. lia. }
  pose proof (victim_spec d (p_pk <$> ops)) as Hv. destruct (pickEvictionVictim d (p_pk <$> ops)) as [v|].
  2: { exists d. by split_and!. }
  destruct Hv as [Hskip Hin]. destruct (evictKey_spec d (clock n) v Hc Hk Hin) as (d1 & -> & Hw).
  destruct (writes_bytes _ _ _ _ Hc Hw) as [Hb Hsame]. destruct Hw as [Hc1 [m Hm] Ho Hfr].
  assert (Hsub : forall k r, jget (map (db_store d1)) k = Some r -> jget (map (db_store d)) k = Some r).
  { intros k r Hr. destruct (decide (k = v)) as [->|]; [by rewrite Hm in Hr|]. by rewrite <- Ho. }
  assert (Hlen : (length (map (db_store d1)) < length (map (db_store d)))%nat).
  { destruct Hin as [r Hr]. assert (Hp : map (db_store d1) ≡ₚ jdel (map (db_store d)) v).
    { apply jget_perm; [apply Hc1|apply jwf_del, Hc|]. intros k. rewrite jget_del by apply Hc.
      destruct (decide (v = k)) as [<-|]; [done|]. by apply Ho. }
    apply Permutation_length in Hp. pose proof (Permutation_length (jdel_perm (map (db_store d)) v r Hr)) as Hl. cbn in Hl. lia. }
  destruct (IH (S n) d1 (projectedBytesForOps d ops - recordBytes (db_store d) v) Hc1) as (d2 & E & Hc2 & H1 & H2 & H3).
  - intros k [r Hr]. apply Hk. exists r. by apply Hsub.
  - lia.
  - unfold projectedBytesForOps. assert (E0 : recordBytes (db_store d1) v = 0) by (unfold recordBytes; by rewrite Hm).
    rewrite Hb, E0. replace (bytes (db_store d) - recordBytes (db_store d) v + 0) with (bytes (db_store d) + - recordBytes (db_store d) v) by lia.
    rewrite (project_ext ops d d1); [lia|]. intros k Hin'. apply Hsame. congruence.
  - exists d2. rewrite E. split_and!; [done..| | |done].
    + intros k Hin'. rewrite H1 by done. apply Ho. congruence.
    + intros k r Hr. by apply Hsub, H2.
Qed.

(** The memory limit holds: when the check lets a write through, it has evicted only
    keys the write does not touch, and once the write is applied (at whatever time) the
    store accounts for at most [maxMemoryBytes]; when it refuses under the LRU policy,
    every other key is gone and the write would still exceed the limit. *)
Theorem max_memory_respected d now clock ops limit :
  disk = false -> consistent d -> keys_ok d -> Forall op_ok ops -> db_maxMemory d = Some limit ->
  match ensureMemoryFor d now clock ops with
  | Ok d' =>
      (forall k, k ∈ p_pk <$> ops -> jget (map (db_store d')) k = view (db_store d) now k) /\
      (forall k r, jget (map (db_store d')) k = Some r -> view (db_store d) now k = Some r) /\
      forall now', exists d2 prevs, apply_ops readValue decode d' now' ops [] = Ok (d2, prevs) /\ bytes (db_store d2) <= limit
  | Err (MaxMemoryExceeded n) =>
      limit < n /\ exists d', consistent d' /\
        (forall k, k ∈ p_pk <$> ops -> jget (map (db_store d')) k = view (db_store d) now k) /\
        (policy = EvictLru -> forall k, is_Some (jget (map (db_store d')) k) -> k ∈ p_pk <$> ops) /\
        forall now', exists d2 prevs, apply_ops readValue decode d' now' ops [] = Ok (d2, prevs) /\ bytes (db_store d2) = n
  | Err (EvictFailed _) => False
  end.
Proof.
  intros Hdisk Hc Hk Hok Hmax. unfold ensureMemoryFor. rewrite Hmax.
  pose proof (reapExpired_spec (db_store d) now (co_store _ _ d Hc)) as Hr. destruct (reapExpired (db_store d) now) as [[s n0] ev] eqn:Er.
  destruct Hr as (Hr & _ & Hlive). set (d1 := drop_events d s ev).
  assert (Hc1 : consistent d1) by (by apply (reaps_consistent readValue decode d now s ev)).
  assert (Hs1 : db_store d1 = s) by (unfold d1, drop_events; by rewrite drop_events_store).
  assert (Hview : forall k, jget (map (db_store d1)) k = view (db_store d) now k).
  { intros k. rewrite Hs1. unfold view. destruct Hr as [W E N R]. destruct (decide (k ∈ ev.*1)) as [Hin|Hn].
    - apply elem_ev in Hin as [r Hin]. destruct (E _ _ Hin) as (Hd & Hx & Hnone). by rewrite Hnone, Hd, Hx.
    - pose proof (Hlive k) as Hl. rewrite R in Hl |- * by done. destruct (jget (map (db_store d)) k) as [r|]; [|done]. by rewrite (Hl r). }
  assert (Hk1 : keys_ok d1).
  { intros k [r Hr1]. apply Hk. rewrite Hview in Hr1. unfold view in Hr1. by destruct (jget (map (db_store d)) k). }
  assert (Happly : forall d' now', consistent d' -> exists d2 prevs, apply_ops readValue decode d' now' ops [] = Ok (d2, prevs) /\
    bytes (db_store d2) = projectedBytesForOps d' ops).
  { intros d' now' Hc'. destruct (apply_ops_spec readValue decode d' now' ops [] Hc' Hok) as (d2 & prevs & E & _). exists d2, prevs.
    split; [done|]. symmetry. by eapply projection_exact. }
  destruct (Z.leb_spec (projectedBytesForOps d1 ops) limit) as [Hle|Hgt].
  { split; [by intros k _|]. split; [by intros k r; rewrite Hview|]. intros now'.
    destruct (Happly d1 now' Hc1) as (d2 & prevs & E & Eb). exists d2, prevs. split; [done|lia]. }
  destruct policy; cbn [rbind].
  - destruct (evict_loop_spec clock limit ops (S (length (map (db_store d1)))) 0 d1 _ Hc1 Hk1 ltac:(lia) eq_refl) as (d2 & -> & Hc2 & H1 & H2 & H3).
    cbn [rbind fst snd]. destruct (Z.ltb_spec limit (projectedBytesForOps d2 ops)) as [Hlt|Hge].
    + split; [done|]. exists d2. split_and!; [done|by intros k Hin; rewrite H1, Hview| |by intros; apply Happly]. intros _. by apply H3.
    + split_and!; [by intros k Hin; rewrite H1, Hview|by intros k r Hr2; rewrite <- Hview; apply H2|].
      intros now'. destruct (Happly d2 now' Hc2) as (d3 & prevs & E & Eb). exists d3, prevs. split; [done|lia].
  - rewrite (proj2 (Z.ltb_lt _ _)) by done. split; [done|]. exists d1. split_and!; [done|by intros k _|done|by intros; apply Happly].
Qed.
End memory.

(** * A concrete run: the older key makes room for the newer one *)

#[local] Existing Instances Writes.key_index Writes.key_index_laws Writes.num_index Writes.num_index_laws Writes.ord_index Writes.ord_index_laws
  Writes.doc_table Writes.doc_table_laws.

Definition small_db0 : list_db :=
  Db (db_store run_db) (db_idx run_db) (db_dt run_db) (db_comp run_db) (db_text run_db) [] (Some 20).
Definition small_db : list_db := run_state (commit_set None run_decode false small_db0 0 0 (run_op 7 "k" "a")).

Lemma small_db_consistent : consistent None run_decode small_db /\ seqs_ok small_db.
Proof.
  destruct (run_db_consistent None) as [H1 H2 H3]. pose proof run_ops_ok as [Ho _]%Forall_cons.
  destruct (commit_set_spec None run_decode false small_db0 0 0 (run_op 7 "k" "a") small_db
    (run_pending (commit_set None run_decode false small_db0 0 0 (run_op 7 "k" "a")))) as [[Hc Hf _] _].
  - split; [exact H1|exact H2|]. by apply (derived_ext run_db _ (contents_of None run_decode (db_store run_db))).
  - done.
  - exact Ho.
  - reflexivity.
  - vm_compute. reflexivity.
  - split; [exact Hc|]. apply (seqs_fresh small_db0); [exact run_seqs_ok|exact Hf].
Qed.

Lemma max_memory_respected_witness :
  exists d', ensureMemoryFor None run_decode false EvictLru small_db 5 (fun _ => 6) [run_op 9 "l" "a"] = Ok d' /\
    jkeys (map (db_store small_db)) = [js "k"] /\ jkeys (map (db_store d')) = [] /\
    exists d2 prevs, apply_ops None run_decode d' 7 [run_op 9 "l" "a"] [] = Ok (d2, prevs) /\ bytes (db_store d2) <= 20.
Proof.
  destruct small_db_consistent as [Hc _]. pose proof (Forall_lookup_1 _ _ 2 _ run_ops_ok eq_refl) as Ho.
  assert (Hk : keys_ok small_db).
  { intros k [r Hr]. apply jget_Some_in in Hr. vm_compute in Hr. apply list_elem_of_singleton in Hr. injection Hr as -> _.
    split; [reflexivity|]. split; vm_compute; discriminate. }
  pose proof (max_memory_respected None run_decode false EvictLru small_db 5 (fun _ => 6) [run_op 9 "l" "a"] 20 eq_refl Hc Hk
    (Forall_cons_2 _ _ _ Ho (Forall_nil_2 _)) eq_refl) as H.
  destruct (ensureMemoryFor None run_decode false EvictLru small_db 5 (fun _ => 6) [run_op 9 "l" "a"]) as [d'|e] eqn:E;
    [|vm_compute in E; discriminate E].
  destruct H as (_ & _ & H). exists d'. split; [done|]. split; [vm_compute; reflexivity|]. split; [|exact (H 7)].
  vm_compute in E. injection E as <-. vm_compute. reflexivity.
Defined.
