(* ===== verification/Trigram.v ===== *)
(** The n-gram tokenizer of the full-text index ([packages/minidb/src/trigram.ts]) for
    literal search: hashed windows of two and three code points. The Unicode tables of
    [normalize] and [toLowerCase], the UTF-8 encoder and base-36 printing are
    parameters. *)

From S2P Require Import Prelude JsMap Crc32 JsonText JsString.

Definition HASH_BITS : Z := 22.
Definition HASH_MASK : Z := Z.shiftl 1 HASH_BITS - 1.

Section ngrams.
(** [text.normalize('NFKC').toLowerCase()], [Buffer.from(s, 'utf8')] and
    [n.toString(36)]. *)
Context (normalizeLiteral : jsstr -> jsstr) (utf8 : jsstr -> buffer) (base36 : Z -> jsstr).

Definition termFor (gram : jsstr) (width : Z) : jsstr :=
  string_of_int width ++ base36 (js_and (crc32 (utf8 gram) 0) HASH_MASK).

(** The windows of [w] elements. *)
Fixpoint windows (w : nat) (chars : list jsstr) : list (list jsstr) :=
  match chars with
  | [] => []
  | _ :: chars' => if (w <=? length chars)%nat then take w chars :: windows w chars' else []
  end.

Definition ngram_tokens (forQuery : bool) (text : jsstr) : list jsstr :=
  let chars := code_points (normalizeLiteral text) in
  let n := length chars in
  if (n <? 2)%nat then []
  else
    let widths := if forQuery then (if (n =? 2)%nat then [2%nat] else [3%nat])
                  else if (3 <=? n)%nat then [3%nat; 2%nat] else [2%nat] in
    concat ((fun w => (fun g => termFor (concat g) (Z.of_nat w)) <$> windows w chars) <$> widths).

(** [ngramTerm]. *)
Definition ngramTerm (gram : jsstr) : option jsstr :=
  let width := length (code_points gram) in
  if negb (width =? 2)%nat && negb (width =? 3)%nat then None else Some (termFor gram (Z.of_nat width)).

(** * Literal search finds its candidates *)

Lemma windows_app_r w a b g : g ∈ windows w b -> g ∈ windows w (a ++ b).
Proof.
  intros Hg. induction a as [|x a IH]; [done|]. cbn [app windows]. rewrite (proj2 (Nat.leb_le _ _)); [by right|].
  assert (Hw : (w <= length b)%nat).
  { clear IH. induction b as [|y b IHb]; [by apply elem_of_nil in Hg|]. cbn [windows] in Hg.
    destruct (Nat.leb_spec w (length (y :: b))); [done|by apply elem_of_nil in Hg]. }
  cbn [length]. rewrite length_app. lia.
Qed.

Lemma windows_app_l w a b g : g ∈ windows w a -> g ∈ windows w (a ++ b).
Proof.
  induction a as [|x a IH]; [by intros ?%elem_of_nil|]. cbn [app windows].
  destruct (Nat.leb_spec w (length (x :: a))) as [Hle|]; [|by intros ?%elem_of_nil].
  rewrite (proj2 (Nat.leb_le _ _)) by (cbn [length] in *; rewrite length_app; lia).
  intros [->|Hin]%elem_of_cons; [|right; by apply IH]. apply elem_of_cons. left.
  symmetry. by apply (take_app_le (x :: a) b w).
Qed.

(** The text contains the query, not cutting a character in two. *)
Definition includes_literal (text query : jsstr) : Prop :=
  exists a b, normalizeLiteral text = a ++ normalizeLiteral query ++ b.
Definition whole_characters (q : jsstr) : Prop :=
  match head q with Some u => low u = false | None => True end /\ match last q with Some u => high u = false | None => True end.

(** Literal search misses nothing: when a document's normalised text contains the
    normalised query (of whole characters), every term the query asks for is among the
    terms the document was indexed under, so the document is a candidate. *)
Theorem ngram_candidates_complete text query t :
  includes_literal text query -> whole_characters (normalizeLiteral query) ->
  t ∈ ngram_tokens true query -> t ∈ ngram_tokens false text.
Proof.
  intros (a & b & E) [Hh Hl] Ht. unfold ngram_tokens in *. set (q := normalizeLiteral query) in *.
  assert (Ecp : code_points (normalizeLiteral text) = code_points a ++ code_points q ++ code_points b).
  { rewrite E. rewrite (code_points_app (length a)); [f_equal|done|].
    - apply (code_points_app (length q)); [done|]. unfold seam. destruct (last q); [|done]. destruct (head b); [|done]. by rewrite Hl.
    - unfold seam. destruct (last a); [|done]. destruct q as [|u q]; cbn; [|rewrite Hh; apply andb_false_r].
      cbn in Ht. by apply elem_of_nil in Ht. }
  rewrite Ecp. set (cq := code_points q) in *. set (ca := code_points a). set (cb := code_points b).
  destruct (Nat.ltb_spec (length cq) 2) as [|Hq]; [by apply elem_of_nil in Ht|].
  rewrite (proj2 (Nat.ltb_ge _ _)) by (rewrite !length_app; lia).
  assert (Hin : forall w, t ∈ (fun g => termFor (concat g) (Z.of_nat w)) <$> windows w cq ->
    t ∈ (fun g => termFor (concat g) (Z.of_nat w)) <$> windows w (ca ++ cq ++ cb)).
  { intros w (g & Eg & Hg)%list_elem_of_fmap. apply list_elem_of_fmap. exists g. split; [done|]. by apply windows_app_r, windows_app_l. }
  destruct (Nat.eqb_spec (length cq) 2) as [E2|E2].
  - cbn [fmap list_fmap concat] in Ht. rewrite app_nil_r in Ht. apply Hin in Ht.
    destruct (3 <=? _)%nat; cbn [fmap list_fmap concat]; rewrite ?elem_of_app; auto.
  - cbn [fmap list_fmap concat] in Ht. rewrite app_nil_r in Ht. apply Hin in Ht.
    rewrite (proj2 (Nat.leb_le _ _)) by (rewrite !length_app; lia). cbn [fmap list_fmap concat]. rewrite !elem_of_app. auto.
Qed.
End ngrams.

(** An emoji query. *)
Lemma ngram_candidates_complete_witness :
  let utf8 := fmap (M := list) (fun u => z2b (Z.of_N u)) in
  includes_literal id [97; 55357; 56832; 98; 99]%N [55357; 56832; 98]%N /\
  length (ngram_tokens id utf8 string_of_int true [55357; 56832; 98]%N) = 1%nat /\
  forall t, t ∈ ngram_tokens id utf8 string_of_int true [55357; 56832; 98]%N ->
            t ∈ ngram_tokens id utf8 string_of_int false [97; 55357; 56832; 98; 99]%N.
Proof.
  cbv zeta. assert (H : includes_literal id [97; 55357; 56832; 98; 99]%N [55357; 56832; 98]%N) by (by exists [97]%N, [99]%N).
  split; [exact H|]. split; [vm_compute; reflexivity|]. intros t. apply ngram_candidates_complete; [exact H|]. split; reflexivity.
Defined.
