(* ===== verification/Query.v ===== *)
(** Paths into JSON documents ([packages/minidb/src/query.ts]): tokenising
    ["a.b[0].c"] and reading a path. Property reads follow the language for JSON
    values; the properties every value inherits are not modelled. *)

From S2P Require Import Prelude JsMap Json JsonText JsString.

Inductive token := Name (s : jsstr) | Index (n : Z).

Definition dot : N := 46.
Definition lbracket : N := 91.
Definition rbracket : N := 93.

Definition line_terminator (u : N) : bool := existsb (N.eqb u) [10; 13; 8232; 8233]%N.

(** The longest prefix of characters with [p], and the rest. *)
Fixpoint span (p : N -> bool) (s : jsstr) : jsstr * jsstr :=
  match s with
  | [] => ([], [])
  | u :: s' => if p u then let (a, b) := span p s' in (u :: a, b) else ([], s)
  end.

Definition digits_value (s : jsstr) : Z := fold_left (fun n u => 10 * n + (Z.of_N u - 48)) s 0.

(** The match of a segment: a prefix without brackets, digits in brackets, and a rest
    without line terminators. *)
Definition match_index (s : jsstr) : option (jsstr * Z * jsstr) :=
  let (pre, s1) := span (fun u => negb (u =? lbracket)%N) s in
  match s1 with
  | _ :: s2 =>
      let (ds, s3) := span is_digit s2 in
      match s3 with
      | u :: rest =>
          if negb (bool_decide (ds = [])) && (u =? rbracket)%N && negb (existsb line_terminator rest)
          then Some (pre, digits_value ds, rest) else None
      | [] => None
      end
  | [] => None
  end.

(** Each round consumes a bracket: the length is fuel enough. *)
Fixpoint segment_tokens (fuel : nat) (s : jsstr) : list token :=
  match s, fuel with
  | [], _ | _, O => []
  | _, S fuel' =>
      match match_index s with
      | Some (pre, n, rest) => (if bool_decide (pre = []) then [] else [Name pre]) ++ Index n :: segment_tokens fuel' rest
      | None => [Name s]
      end
  end.

Definition tokenizePath (path : jsstr) : list token :=
  concat ((fun seg => segment_tokens (length seg) seg) <$> split_on dot path).

(** A property name that is an array index. *)
Definition index_of_name (s : jsstr) : option nat :=
  if all_digits s && (bool_decide (s = [48]%N) || negb (bool_decide (head s = Some 48%N))) then Some (Z.to_nat (digits_value s)) else None.

(** [cur[t]]. *)
Definition property (cur : json) (t : token) : option json :=
  let at_index {A} (mk : A -> json) (l : list A) :=
    match t with
    | Index n => mk <$> l !! Z.to_nat n
    | Name s => match index_of_name s with
                | Some i => mk <$> l !! i
                | None => if bool_decide (s = js "length") then Some (JNumber (blen l)) else None
                end
    end in
  match cur with
  | JObject fields => jget fields (match t with Name s => s | Index n => string_of_int n end)
  | JArray l => at_index id l
  | JString s => at_index (fun u => JString [u]) s
  | _ => None
  end.

Fixpoint getPathTokens (doc : json) (tokens : list token) : option json :=
  match tokens with
  | [] => Some doc
  | t :: tokens' =>
      match doc with
      | JNull => None
      | _ => match property doc t with Some v => getPathTokens v tokens' | None => None end
      end
  end.

Definition getPath (doc : json) (path : jsstr) : option json := getPathTokens doc (tokenizePath path).

Example getPath_index :
  getPath (JObject [(js "a", JObject [(js "b", JArray [JNumber 1; JObject [(js "c", JString (js "x"))]])])]) (js "a.b[1].c")
  = Some (JString (js "x")).
Proof. vm_compute. reflexivity. Qed.
