(* ===== verification/Postings.v ===== *)
(** The postings file of the full-text index ([packages/minidb/src/text-postings.ts]):
    variable-length integers, posting lists, checksummed records, and the file of them
    that [rebuild] writes and [read] reads through the term dictionary. *)

From S2P Require Import Prelude JsMap Crc32 Codec ScanRefs Recovery.

(** * Variable-length integers *)

Definition js_or (a b : Z) : Z := to_int32 (Z.lor a b).
Definition js_shl (a n : Z) : Z := to_int32 (Z.shiftl a (n mod 32)).

Inductive postings_error :=
| TruncatedVarint | VarintTooLong | TermTooLong | RecordTooShort | RecordCrcMismatch | TermOutOfBounds | PayloadOutOfBounds
| ShortRead | NoProgress | OutOfRange.

(** The loop runs at most five times on a 32-bit value. *)
Fixpoint varint_loop (fuel : nat) (n : Z) : buffer :=
  match fuel with
  | O => []
  | S fuel' => if 0x80 <=? n then z2b (js_or (js_and n 0x7f) 0x80) :: varint_loop fuel' (js_shru n 7) else [z2b n]
  end.
Definition encodeVarintInto (n : Z) : buffer := varint_loop 5 (js_shru n 0).

(** The cursor is the rest of the buffer. *)
Fixpoint decodeVarint (buf : buffer) (r shift : Z) : result postings_error (Z * buffer) :=
  match buf with
  | [] => Err TruncatedVarint
  | b :: buf' =>
      let r := js_or r (js_shl (js_and (b2z b) 0x7f) shift) in
      if js_and (b2z b) 0x80 =? 0 then Ok (js_shru r 0, buf')
      else if 35 <? shift + 7 then Err VarintTooLong
      else decodeVarint buf' r (shift + 7)
  end.

(** * Posting lists *)

Fixpoint encode_entries (prev : Z) (entries : list (Z * Z)) : buffer :=
  match entries with
  | [] => []
  | (docID, freq) :: entries' => encodeVarintInto (docID - prev) ++ encodeVarintInto freq ++ encode_entries docID entries'
  end.
Definition encodePostingList (entries : list (Z * Z)) : buffer := encodeVarintInto (blen entries) ++ encode_entries 0 entries.

Fixpoint decode_entries (count : nat) (prev : Z) (buf : buffer) : result postings_error (list (Z * Z)) :=
  match count with
  | O => Ok []
  | S n =>
      let? d := decodeVarint buf 0 0 in
      let? f := decodeVarint d.2 0 0 in
      let? rest := decode_entries n (prev + d.1) f.2 in
      Ok ((prev + d.1, f.1) :: rest)
  end.
Definition decodePostingList (buf : buffer) : result postings_error (list (Z * Z)) :=
  let? c := decodeVarint buf 0 0 in
  decode_entries (Z.to_nat c.1) 0 c.2.

(** * Records *)

Definition HEADER_LEN : Z := 2 + 4 + 4.
Definition CRC_LEN : Z := 4.
Definition FLUSH_BYTES : Z := Z.shiftl 1 20.

Record decoded_record := DecodedRecord {
  d_term : buffer;     (* the term's bytes *)
  d_df : Z;
  d_payload : buffer;
}.

Definition write_u32 (v : Z) : result postings_error buffer :=
  match writeUInt32LE v with Ok b => Ok b | Err _ => Err OutOfRange end.

(** [termBuf] are the bytes of the term in UTF-8. *)
Definition encodeRecord (termBuf : buffer) (df : Z) (payload : buffer) : result postings_error buffer :=
  guard! blen termBuf <=? 0xffff else TermTooLong ;;
  let tl := le_split 2 (blen termBuf) in
  let? dfb := write_u32 (js_shru df 0) in
  let? pl := write_u32 (blen payload) in
  let body := tl ++ termBuf ++ dfb ++ pl ++ payload in
  Ok (body ++ le_split 4 (js_shru (crc32 body 0) 0)).

Definition decodeRecord (buf : buffer) : result postings_error decoded_record :=
  guard! HEADER_LEN + CRC_LEN <=? blen buf else RecordTooShort ;;
  let stop := blen buf - CRC_LEN in
  guard! readUInt32LE buf stop =? crc32 (sub buf 0 stop) 0 else RecordCrcMismatch ;;
  let termLen := readUInt16LE buf 0 in
  guard! 2 + termLen + 4 + 4 <=? stop else TermOutOfBounds ;;
  let o := 2 + termLen in
  let df := readUInt32LE buf o in
  let payloadLen := readUInt32LE buf (o + 4) in
  guard! o + 8 + payloadLen <=? stop else PayloadOutOfBounds ;;
  Ok (DecodedRecord (sub buf 2 o) df (sub buf (o + 8) (o + 8 + payloadLen))).

(** * The file *)

Record posting_entry := PostingEntry { pe_off : Z; pe_len : Z; pe_df : Z }.

(** What one [readSync] of [n] bytes at [pos] returns. *)
Definition os_read (short : Z -> Z -> Z) (fd : buffer) (pos n : Z) : buffer := sub fd pos (pos + short pos n `min` (blen fd - pos)).

Fixpoint read_loop (short : Z -> Z -> Z) (fuel : nat) (fd : buffer) (e : posting_entry) (got : buffer) : result postings_error buffer :=
  if pe_len e <=? blen got then Ok got
  else
    match fuel with
    | O => Err ShortRead
    | S fuel' =>
        let r := os_read short fd (pe_off e + blen got) (pe_len e - blen got) in
        if blen r =? 0 then Err ShortRead else read_loop short fuel' fd e (got ++ r)
    end.

(** [PostingsFile.read]. *)
Definition read (short : Z -> Z -> Z) (fd : buffer) (e : posting_entry) : result postings_error (list (Z * Z)) :=
  let? buf := read_loop short (Z.to_nat (pe_len e)) fd e [] in
  let? rec := decodeRecord buf in
  decodePostingList (d_payload rec).

(** The write loop of [flushBatch]. *)
Fixpoint write_loop (short : Z -> Z -> Z) (fuel : nat) (file buf : buffer) : result postings_error buffer :=
  match buf with
  | [] => Ok file
  | _ =>
      match fuel with
      | O => Err NoProgress
      | S fuel' =>
          let n := short (blen file) (blen buf) in
          if n =? 0 then Err NoProgress
          else write_loop short fuel' (file ++ take (Z.to_nat n) buf) (drop (Z.to_nat n) buf)
      end
  end.
Definition flushBatch (short : Z -> Z -> Z) (file batch : buffer) : result postings_error buffer :=
  write_loop short (length batch) file batch.

(** The loop of [rebuild] over the terms: the file, the unwritten batch, the dictionary. *)
Fixpoint rebuild_loop (short : Z -> Z -> Z) (utf8 : jsstr -> buffer) (iter : list (jsstr * list (Z * Z)))
    (file batch : buffer) (off : Z) (dict : list (jsstr * posting_entry)) : result postings_error (buffer * list (jsstr * posting_entry)) :=
  match iter with
  | [] => let? file := flushBatch short file batch in Ok (file, dict)
  | (term, entries) :: iter' =>
      if bool_decide (entries = []) then rebuild_loop short utf8 iter' file batch off dict
      else
        let? rec := encodeRecord (utf8 term) (blen entries) (encodePostingList entries) in
        let dict := jset dict term (PostingEntry off (blen rec) (blen entries)) in
        let batch := batch ++ rec in
        let off := off + blen rec in
        if FLUSH_BYTES <=? blen batch then
          let? file := flushBatch short file batch in rebuild_loop short utf8 iter' file [] off dict
        else rebuild_loop short utf8 iter' file batch off dict
  end.

(** [PostingsFile.rebuild]: the file renamed into place and the dictionary. *)
Definition rebuild (short : Z -> Z -> Z) (utf8 : jsstr -> buffer) (iter : list (jsstr * list (Z * Z))) :=
  rebuild_loop short utf8 iter [] [] 0 [].

(** * Round trips *)

Lemma lor_mod a b n : 0 <= n -> Z.lor a b mod 2 ^ n = Z.lor (a mod 2 ^ n) (b mod 2 ^ n).
Proof.
  intros. apply Z.bits_inj'. intros i Hi. rewrite Z.lor_spec, !Z.testbit_mod_pow2 by lia. rewrite Z.lor_spec.
  by destruct (i <? n), (Z.testbit a i), (Z.testbit b i).
Qed.

Lemma lor_disjoint u x s : 0 <= s -> 0 <= u < 2 ^ s -> Z.lor u (Z.shiftl x s) = u + x * 2 ^ s.
Proof.
  intros Hs Hu. rewrite <- Z.add_lor_land, Z.shiftl_mul_pow2 by lia.
  enough (Z.land u (x * 2 ^ s) = 0) as -> by lia. apply Z.bits_inj'. intros i Hi. rewrite Z.land_spec, Z.bits_0.
  destruct (Z.lt_ge_cases i s) as [Hl|Hg].
  - rewrite Z.mul_pow2_bits_low by done. apply andb_false_r.
  - rewrite <- (Z.mod_small u (2 ^ s)) by done. rewrite Z.testbit_mod_pow2 by lia. by rewrite (proj2 (Z.ltb_ge _ _)) by done.
Qed.

(** Adding seven bits above the ones read. *)
Lemma or_shl_step r u x s :
  0 <= s < 32 -> to_uint32 r = u -> 0 <= u < 2 ^ s -> 0 <= x -> u + x * 2 ^ s < 2 ^ 32 ->
  to_uint32 (js_or r (js_shl x s)) = u + x * 2 ^ s.
Proof.
  intros Hs Hr Hu Hx Hb. unfold js_or, js_shl. rewrite Z.mod_small by lia. rewrite to_uint32_int32.
  unfold to_uint32 at 1. rewrite lor_mod by lia. fold (to_uint32 r). fold (to_uint32 (to_int32 (Z.shiftl x s))).
  rewrite to_uint32_int32, Hr. rewrite to_uint32_small; [apply lor_disjoint; lia|]. rewrite Z.shiftl_mul_pow2 by lia. nia.
Qed.

Lemma js_and_low n k : 0 <= k < 31 -> js_and n (2 ^ k - 1) = n mod 2 ^ k.
Proof.
  intros Hk. unfold js_and. rewrite land_ones_mod by lia. pose proof (Z.mod_pos_bound n (2 ^ k) ltac:(lia)).
  assert (2 ^ k < 2 ^ 31) by (apply Z.pow_lt_mono_r; lia). apply to_int32_small_pos. lia.
Qed.

Lemma byte_and_high b : js_and b 0x80 = if Z.testbit b 7 then 128 else 0.
Proof.
  unfold js_and. assert (H : Z.land b 128 = if Z.testbit b 7 then 128 else 0).
  { apply Z.bits_inj'. intros i Hi. rewrite Z.land_spec. change 128 with (2 ^ 7) at 1. rewrite Z.pow2_bits_eqb by lia.
    destruct (Z.eqb_spec 7 i) as [<-|Hne].
    - rewrite andb_true_r. destruct (Z.testbit b 7) eqn:E; reflexivity.
    - rewrite andb_false_r. destruct (Z.testbit b 7); [|by rewrite Z.bits_0]. change 128 with (2 ^ 7).
      rewrite Z.pow2_bits_false by lia. done. }
  rewrite H. by destruct (Z.testbit b 7).
Qed.

(** The two kinds of bytes of a varint. *)
Lemma varint_more n : 0 <= n ->
  let b := b2z (z2b (js_or (js_and n 0x7f) 0x80)) in js_and b 0x7f = n mod 128 /\ js_and b 0x80 <> 0.
Proof.
  intros Hn. cbv zeta. change 127 with (2 ^ 7 - 1). rewrite !js_and_low by lia. change (2 ^ 7) with 128.
  pose proof (Z.mod_pos_bound n 128 ltac:(lia)) as Hm.
  assert (E : js_or (n mod 128) 128 = n mod 128 + 128).
  { unfold js_or. change 128 with (Z.shiftl 1 7) at 2. rewrite lor_disjoint by lia. apply to_int32_small_pos. lia. }
  rewrite E, b2z_z2b, (Z.mod_small (n mod 128 + 128)) by lia. rewrite byte_and_high. split.
  - replace (n mod 128 + 128) with (n mod 128 + 1 * 128) by lia. by rewrite Z.mod_add, Z.mod_mod by lia.
  - assert (Ht : Z.testbit (n mod 128 + 128) 7 = true); [|by rewrite Ht].
    rewrite Z.testbit_true by lia. change (2 ^ 7) with 128.
    replace (n mod 128 + 128) with (n mod 128 + 1 * 128) by lia. rewrite Z.div_add, Z.div_small by lia. reflexivity.
Qed.

Lemma varint_last n : 0 <= n < 128 -> let b := b2z (z2b n) in js_and b 0x7f = n /\ js_and b 0x80 = 0.
Proof.
  intros Hn. cbv zeta. rewrite b2z_z2b, Z.mod_small by lia. change 127 with (2 ^ 7 - 1). rewrite js_and_low by lia.
  change (2 ^ 7) with 128. rewrite Z.mod_small by lia. split; [done|]. rewrite byte_and_high.
  assert (Ht : Z.testbit n 7 = false); [|by rewrite Ht]. rewrite Z.testbit_false by lia. change (2 ^ 7) with 128. by rewrite Z.div_small.
Qed.

Lemma decode_varint_loop fuel : forall n r u s rest,
  0 <= s <= 28 -> to_uint32 r = u -> 0 <= u < 2 ^ s -> 0 <= n -> u + n * 2 ^ s < 2 ^ 32 -> n < 2 ^ (7 * Z.of_nat fuel) ->
  s + 7 * Z.of_nat fuel = 35 ->
  decodeVarint (varint_loop fuel n ++ rest) r s = Ok (u + n * 2 ^ s, rest).
Proof.
  induction fuel as [|fuel IH]; intros n r u s rest Hs Hr Hu Hn Hb Hf H35; [lia|]. cbn [varint_loop].
  destruct (Z.leb_spec 0x80 n) as [Hge|Hlt]; cbn [app decodeVarint].
  - destruct (varint_more n Hn) as [E1 E2]. rewrite E1. rewrite (proj2 (Z.eqb_neq _ _)) by done.
    pose proof (Z.mod_pos_bound n 128 ltac:(lia)) as Hm. pose proof (Z.div_mod n 128 ltac:(lia)) as Hdm.
    assert (Hsf : 1 <= Z.of_nat fuel). { destruct fuel; [cbn in Hf; lia|lia]. }
    rewrite (proj2 (Z.ltb_ge _ _)) by lia. assert (Hp : 2 ^ (s + 7) = 2 ^ s * 128) by (rewrite Z.pow_add_r by lia; lia).
    assert (0 < 2 ^ s) by lia.
    assert (Hq : js_shru n 7 = n / 128).
    { unfold js_shru. rewrite to_uint32_small by nia. by rewrite Z.shiftr_div_pow2 by lia. }
    rewrite Hq. rewrite (IH (n / 128) _ (u + n mod 128 * 2 ^ s) (s + 7)).
    + f_equal. f_equal. rewrite Hp. nia.
    + lia.
    + apply or_shl_step; [lia|done|done|lia|nia].
    + rewrite Hp. nia.
    + apply Z.div_pos; lia.
    + rewrite Hp. nia.
    + apply Z.div_lt_upper_bound; [lia|]. replace (7 * Z.of_nat (S fuel)) with (7 + 7 * Z.of_nat fuel) in Hf by lia.
      rewrite Z.pow_add_r in Hf by lia. exact Hf.
    + lia.
  - destruct (varint_last n ltac:(lia)) as [E1 E2]. rewrite E1, E2. cbn [Z.eqb]. unfold js_shru.
    rewrite (or_shl_step r u n s) by (done || lia). by rewrite Z.shiftr_0_r.
Qed.

Lemma decode_encode_varint n rest : 0 <= n < 2 ^ 32 -> decodeVarint (encodeVarintInto n ++ rest) 0 0 = Ok (n, rest).
Proof.
  intros Hn. unfold encodeVarintInto, js_shru. rewrite to_uint32_small, Z.shiftr_0_r by done.
  rewrite (decode_varint_loop 5 n 0 0 0 rest) by (done || lia). f_equal. f_equal. lia.
Qed.

(** Posting lists as an index builds them: increasing document ids. *)
Fixpoint postings_ok (prev : Z) (entries : list (Z * Z)) : Prop :=
  match entries with
  | [] => True
  | (docID, freq) :: entries' => prev <= docID < 2 ^ 32 /\ 0 <= freq < 2 ^ 32 /\ postings_ok docID entries'
  end.

Lemma decode_encode_entries entries rest : forall prev, 0 <= prev -> postings_ok prev entries ->
  decode_entries (length entries) prev (encode_entries prev entries ++ rest) = Ok entries.
Proof.
  induction entries as [|[d f] entries IH]; intros prev Hp; [done|]. intros (Hd & Hf & Hok). cbn [length decode_entries encode_entries].
  rewrite <- !app_assoc, decode_encode_varint by lia. cbn [rbind fst snd]. rewrite decode_encode_varint by lia. cbn [rbind fst snd].
  replace (prev + (d - prev)) with d by lia. rewrite IH by (done || lia). done.
Qed.

Lemma decode_encode_list entries : blen entries < 2 ^ 32 -> postings_ok 0 entries -> decodePostingList (encodePostingList entries) = Ok entries.
Proof.
  intros Hl Hok. unfold decodePostingList, encodePostingList. blen_facts.
  rewrite decode_encode_varint by lia. cbn [rbind fst snd]. unfold blen. rewrite Nat2Z.id.
  rewrite <- (app_nil_r (encode_entries 0 entries)). by apply decode_encode_entries.
Qed.

Lemma decode_encode_record termBuf df payload rec :
  0 <= df < 2 ^ 32 -> encodeRecord termBuf df payload = Ok rec ->
  decodeRecord rec = Ok (DecodedRecord termBuf df payload) /\ 14 <= blen rec.
Proof.
  intros Hdf. unfold encodeRecord, write_u32, writeUInt32LE. intros [Hl%Z.leb_le H]%guard_ok.
  assert (E0 : js_shru df 0 = df) by (unfold js_shru; by rewrite to_uint32_small, Z.shiftr_0_r by done).
  rewrite E0 in H. rewrite (writeUIntLE_ok 4 df) in H by lia. cbn [rbind] in H.
  destruct (writeUIntLE 4 (blen payload)) as [pl|] eqn:Epl; [|done]. apply writeUIntLE_spec in Epl as [Hpl ->].
  cbn [rbind] in H. match type of H with Ok ?x = _ => assert (rec = x) as -> by congruence end. clear H.
  set (tl := le_split 2 (blen termBuf)). set (dfb := le_split 4 df). set (plb := le_split 4 (blen payload)).
  set (body := tl ++ termBuf ++ dfb ++ plb ++ payload). set (cb := le_split 4 (js_shru (crc32 body 0) 0)).
  assert (Htl : blen tl = 2) by apply blen_le_split. assert (Hdfb : blen dfb = 4) by apply blen_le_split.
  assert (Hplb : blen plb = 4) by apply blen_le_split. assert (Hcb : blen cb = 4) by apply blen_le_split.
  assert (Hbody : blen body = 10 + blen termBuf + blen payload) by (unfold body; rewrite !blen_app; lia).
  blen_facts. split; [|rewrite blen_app; lia].
  unfold decodeRecord, HEADER_LEN, CRC_LEN. rewrite blen_app, Hcb. rewrite (proj2 (Z.leb_le _ _)) by lia.
  replace (blen body + 4 - 4) with (blen body) by lia.
  assert (Hcrc : readUInt32LE (body ++ cb) (blen body) = crc32 body 0).
  { unfold readUInt32LE. rewrite <- (app_nil_r (body ++ cb)), <- app_assoc. rewrite (readUIntLE_slice 4 cb body []) by done.
    unfold cb. rewrite le_combine_split. change (256 ^ Z.of_nat 4) with (2 ^ 32). unfold js_shru. rewrite Z.shiftr_0_r.
    unfold crc32. rewrite to_uint32_small by apply to_uint32_range. apply to_uint32_small, to_uint32_range. }
  assert (Hsub : sub (body ++ cb) 0 (blen body) = body).
  { rewrite sub_app_l by lia. rewrite sub_from by lia. done. }
  rewrite Hcrc, Hsub, Z.eqb_refl.
  assert (Htlen : readUInt16LE (body ++ cb) 0 = blen termBuf).
  { unfold readUInt16LE, body. replace ((tl ++ termBuf ++ dfb ++ plb ++ payload) ++ cb) with ([] ++ tl ++ (termBuf ++ dfb ++ plb ++ payload ++ cb))
      by (by rewrite <- !app_assoc). rewrite (readUIntLE_slice 2 tl) by done.
    unfold tl. rewrite le_combine_split. change (256 ^ Z.of_nat 2) with 65536. apply Z.mod_small. lia. }
  rewrite Htlen. rewrite (proj2 (Z.leb_le _ _)) by lia.
  assert (Hdfr : readUInt32LE (body ++ cb) (2 + blen termBuf) = df).
  { unfold readUInt32LE, body. replace ((tl ++ termBuf ++ dfb ++ plb ++ payload) ++ cb) with ((tl ++ termBuf) ++ dfb ++ (plb ++ payload ++ cb))
      by (by rewrite <- !app_assoc). rewrite (readUIntLE_slice 4 dfb) by (rewrite ?blen_app; lia). unfold dfb. rewrite le_combine_split.
    apply Z.mod_small. lia. }
  assert (Hplr : readUInt32LE (body ++ cb) (2 + blen termBuf + 4) = blen payload).
  { unfold readUInt32LE, body. replace ((tl ++ termBuf ++ dfb ++ plb ++ payload) ++ cb) with ((tl ++ termBuf ++ dfb) ++ plb ++ (payload ++ cb))
      by (by rewrite <- !app_assoc). rewrite (readUIntLE_slice 4 plb) by (rewrite ?blen_app; lia). unfold plb. rewrite le_combine_split.
    apply Z.mod_small. lia. }
  rewrite Hdfr, Hplr. rewrite (proj2 (Z.leb_le _ _)) by lia. f_equal. f_equal.
  - unfold body. replace ((tl ++ termBuf ++ dfb ++ plb ++ payload) ++ cb) with (tl ++ termBuf ++ (dfb ++ plb ++ payload ++ cb))
      by (by rewrite <- !app_assoc). by rewrite (sub_prefix tl termBuf) by lia.
  - unfold body. replace ((tl ++ termBuf ++ dfb ++ plb ++ payload) ++ cb) with ((tl ++ termBuf ++ dfb ++ plb) ++ payload ++ cb)
      by (by rewrite <- !app_assoc). rewrite (sub_prefix (tl ++ termBuf ++ dfb ++ plb) payload) by (rewrite ?blen_app; lia). done.
Qed.

(** * The file *)

Section file.
Context (short : Z -> Z -> Z) (utf8 : jsstr -> buffer).

(** Every call to the system makes progress. *)
Definition progress : Prop := forall pos n, 0 < n -> 0 < short pos n <= n.

Context (Hshort : progress).

Lemma write_loop_spec fuel : forall file buf, (length buf <= fuel)%nat -> write_loop short fuel file buf = Ok (file ++ buf).
Proof.
  induction fuel as [|fuel IH]; intros file [|b buf] Hf; cbn [length] in Hf; try lia; cbn [write_loop]; try (by rewrite app_nil_r).
  set (l := b :: buf). assert (Hl : 0 < blen l) by (unfold blen; cbn; lia). pose proof (Hshort (blen file) (blen l) Hl) as Hn.
  destruct (Z.eqb_spec (short (blen file) (blen l)) 0); [lia|]. rewrite IH.
  - by rewrite <- app_assoc, take_drop.
  - rewrite length_drop. unfold blen in *. cbn [length l] in *. lia.
Qed.

Lemma flushBatch_spec file batch : flushBatch short file batch = Ok (file ++ batch).
Proof. by apply write_loop_spec. Qed.

Lemma read_loop_spec fd e fuel : 0 <= pe_off e -> 0 <= pe_len e -> pe_off e + pe_len e <= blen fd -> forall k,
  0 <= k <= pe_len e -> pe_len e - k <= Z.of_nat fuel ->
  read_loop short fuel fd e (sub fd (pe_off e) (pe_off e + k)) = Ok (sub fd (pe_off e) (pe_off e + pe_len e)).
Proof.
  intros Ho Hl Hb. induction fuel as [|fuel IH]; intros k Hk Hf; cbn [read_loop]; rewrite blen_sub by lia;
    replace (pe_off e + k - pe_off e) with k by lia.
  - rewrite (proj2 (Z.leb_le _ _)) by lia. by replace k with (pe_len e) by lia.
  - destruct (Z.leb_spec (pe_len e) k); [by replace k with (pe_len e) by lia|].
    pose proof (Hshort (pe_off e + k) (pe_len e - k) ltac:(lia)) as Hn. set (n := short (pe_off e + k) (pe_len e - k)) in *.
    assert (Hr : os_read short fd (pe_off e + k) (pe_len e - k) = sub fd (pe_off e + k) (pe_off e + k + n)).
    { unfold os_read. fold n. f_equal. lia. }
    rewrite Hr, blen_sub by lia. rewrite (proj2 (Z.eqb_neq _ _)) by lia. rewrite <- sub_split by lia.
    replace (pe_off e + k + n) with (pe_off e + (k + n)) by lia. apply IH; lia.
Qed.

(** The file holds the record of a term's entries where the dictionary says. *)
Definition recorded (fd : buffer) (term : jsstr) (es : list (Z * Z)) (e : posting_entry) : Prop :=
  exists rec pre rest, encodeRecord (utf8 term) (blen es) (encodePostingList es) = Ok rec /\
    fd = pre ++ rec ++ rest /\ e = PostingEntry (blen pre) (blen rec) (blen es).

Definition entries_ok (es : list (Z * Z)) : Prop := postings_ok 0 es /\ blen es < 2 ^ 32.

Lemma read_recorded fd term es e : entries_ok es -> recorded fd term es e -> read short fd e = Ok es.
Proof.
  intros [Hok Hn] (rec & pre & rest & Hrec & -> & ->). blen_facts.
  destruct (decode_encode_record _ _ _ _ (conj (blen_nonneg es) Hn) Hrec) as [Hdec _]. unfold read. cbn [pe_len].
  set (e := PostingEntry _ _ _). blen_facts.
  pose proof (read_loop_spec (pre ++ rec ++ rest) e (Z.to_nat (blen rec))) as Hrd. cbn [pe_off pe_len e] in Hrd.
  specialize (Hrd ltac:(lia) ltac:(lia) ltac:(len_lia) 0 ltac:(lia) ltac:(lia)).
  rewrite Z.add_0_r in Hrd.
  replace (sub (pre ++ rec ++ rest) (blen pre) (blen pre)) with (@nil byte) in Hrd by (unfold sub; by rewrite Z.sub_diag).
  rewrite (sub_prefix pre rec rest) in Hrd by lia.
  rewrite Hrd. cbn [rbind]. rewrite Hdec. cbn [rbind d_payload]. by apply decode_encode_list.
Qed.

Lemma recorded_app fd more term es e : recorded fd term es e -> recorded (fd ++ more) term es e.
Proof. intros (rec & pre & rest & H & -> & ->). exists rec, pre, (rest ++ more). by rewrite <- !app_assoc. Qed.

(** What a record can hold. *)
Definition fits (term : jsstr) (es : list (Z * Z)) : Prop :=
  blen (utf8 term) <= 0xffff /\ blen es < 2 ^ 32 /\ blen (encodePostingList es) < 2 ^ 32.

Lemma encodeRecord_fits term es : fits term es -> exists rec, encodeRecord (utf8 term) (blen es) (encodePostingList es) = Ok rec.
Proof.
  intros (H1 & H2 & H3). unfold encodeRecord, write_u32, writeUInt32LE. rewrite (proj2 (Z.leb_le _ _)) by done.
  blen_facts.
  assert (E0 : js_shru (blen es) 0 = blen es) by (unfold js_shru; by rewrite to_uint32_small, Z.shiftr_0_r by lia). rewrite E0.
  rewrite !writeUIntLE_ok by lia. cbn [rbind]. by eexists.
Qed.

Lemma rebuild_loop_spec iter : forall file batch off dict,
  Forall (fun te => fits te.1 te.2) iter -> NoDup iter.*1 -> (forall t, t ∈ iter.*1 -> jget dict t = None) -> off = blen (file ++ batch) ->
  exists fd dict', rebuild_loop short utf8 iter file batch off dict = Ok (fd, dict') /\
    (exists more, fd = (file ++ batch) ++ more) /\
    (forall term e, jget dict term = Some e -> jget dict' term = Some e) /\
    (forall term es, (term, es) ∈ iter -> es <> [] -> exists e, jget dict' term = Some e /\ recorded fd term es e) /\
    (forall term e, jget dict' term = Some e -> jget dict term = Some e \/ exists es, (term, es) ∈ iter /\ es <> []).
Proof.
  induction iter as [|[term es] iter IH]; intros file batch off dict Hfit Hnd Hnew ->; cbn [rebuild_loop].
  { rewrite flushBatch_spec. exists (file ++ batch), dict. split_and!; [done|exists []; by rewrite app_nil_r|done| |by left].
    by intros term es ?%elem_of_nil. }
  apply Forall_cons in Hfit as [Hf Hfit]. cbn [fmap list_fmap] in Hnd, Hnew. apply NoDup_cons in Hnd as [Hnin Hnd]. cbn [fst snd] in *.
  case_bool_decide as Hes.
  - destruct (IH file batch (blen (file ++ batch)) dict Hfit Hnd) as (fd & dict' & E & Hp & Hk & Hin & Hback); [|done|].
    { intros t Ht. apply Hnew. by right. }
    exists fd, dict'. split_and!; [done..| |].
    + intros t es' [E2|Hi]%elem_of_cons Hne; [|by apply Hin]. injection E2 as -> ->. done.
    + intros t e He. destruct (Hback t e He) as [?|(es' & Hi & Hne)]; [by left|]. right. exists es'. split; [by right|done].
  - destruct (encodeRecord_fits term es Hf) as [rec Hrec]. rewrite Hrec. cbn [rbind].
    set (e0 := PostingEntry (blen (file ++ batch)) (blen rec) (blen es)).
    assert (Hgo : exists file' batch', (if FLUSH_BYTES <=? blen (batch ++ rec) then
        let? f1 := flushBatch short file (batch ++ rec) in
        rebuild_loop short utf8 iter f1 [] (blen (file ++ batch) + blen rec) (jset dict term e0)
      else rebuild_loop short utf8 iter file (batch ++ rec) (blen (file ++ batch) + blen rec) (jset dict term e0)) =
        rebuild_loop short utf8 iter file' batch' (blen (file' ++ batch')) (jset dict term e0) /\
      file' ++ batch' = (file ++ batch) ++ rec).
    { destruct (FLUSH_BYTES <=? blen (batch ++ rec)).
      - exists (file ++ batch ++ rec), []. rewrite flushBatch_spec. cbn [rbind]. rewrite app_nil_r. split; [|by rewrite app_assoc].
        f_equal. rewrite !blen_app. lia.
      - exists file, (batch ++ rec). split; [|by rewrite app_assoc]. f_equal. rewrite !blen_app. lia. }
    destruct Hgo as (file' & batch' & -> & Eapp).
    destruct (IH file' batch' (blen (file' ++ batch')) (jset dict term e0) Hfit Hnd) as (fd & dict' & E & [more Hmore] & Hk & Hin & Hback); [|done|].
    { intros t Ht. rewrite jget_set. destruct (decide (term = t)) as [<-|]; [done|]. apply Hnew. by right. }
    exists fd, dict'. split_and!; [done| | | |].
    + exists (rec ++ more). by rewrite Hmore, Eapp, <- app_assoc.
    + intros t e He. apply Hk. rewrite jget_set. destruct (decide (term = t)) as [<-|]; [|done].
      rewrite (Hnew term) in He by by left. done.
    + intros t es' [E2|Hi]%elem_of_cons Hne; [|by apply Hin]. injection E2 as -> ->. exists e0. split; [apply Hk, jget_set_eq|].
      exists rec, (file ++ batch), more. split_and!; [done| |done]. by rewrite Hmore, Eapp, <- app_assoc.
    + intros t e He. destruct (Hback t e He) as [Hj|(es' & Hi & Hne)].
      * rewrite jget_set in Hj. destruct (decide (term = t)) as [<-|]; [|by left]. right. exists es. split; [by left|done].
      * right. exists es'. split; [by right|done].
Qed.

(** Rebuilding always succeeds on entries that fit. *)
Lemma postings_rebuild_spec iter :
  Forall (fun te => fits te.1 te.2) iter -> NoDup iter.*1 ->
  exists fd dict, rebuild short utf8 iter = Ok (fd, dict) /\
    (forall term es, (term, es) ∈ iter -> es <> [] -> exists e, jget dict term = Some e /\ recorded fd term es e) /\
    (forall term, is_Some (jget dict term) -> exists es, (term, es) ∈ iter /\ es <> []).
Proof.
  intros Hfit Hnd. destruct (rebuild_loop_spec iter [] [] 0 [] Hfit Hnd) as (fd & dict & E & _ & _ & Hin & Hback); [done|done|].
  exists fd, dict. split_and!; [done..|]. intros term [e He]. destruct (Hback term e He) as [?|?]; [done|done].
Qed.

(** Round trip of the postings file: whatever the short reads and writes, a rebuild
    over distinct terms with increasing document ids succeeds, and the dictionary it
    returns has exactly the terms with entries, each with its document frequency and a
    pointer from which [read] gives the entries back, checksum, varints and deltas
    included. *)
Theorem postings_roundtrip iter :
  Forall (fun te => fits te.1 te.2 /\ postings_ok 0 te.2) iter -> NoDup iter.*1 ->
  exists fd dict, rebuild short utf8 iter = Ok (fd, dict) /\
    (forall term es, (term, es) ∈ iter -> es <> [] ->
       exists e, jget dict term = Some e /\ pe_df e = blen es /\ read short fd e = Ok es) /\
    (forall term, is_Some (jget dict term) <-> exists es, (term, es) ∈ iter /\ es <> []).
Proof.
  intros Hok Hnd. destruct (postings_rebuild_spec iter) as (fd & dict & E & Hin & Hback); [|done|].
  { eapply Forall_impl; [exact Hok|]. by intros te [? _]. }
  exists fd, dict. split_and!; [done| |].
  - intros term es Hi Hne. destruct (Hin term es Hi Hne) as (e & He & Hrec). exists e. split; [done|].
    rewrite Forall_forall in Hok. destruct (Hok _ Hi) as [(_ & Hl & _) Hp]. split; [|by apply (read_recorded fd term)].
    by destruct Hrec as (rec & pre & rest & _ & _ & ->).
  - intros term. split; [apply Hback|]. intros (es & Hi & Hne). destruct (Hin term es Hi Hne) as (e & He & _). by exists e.
Qed.
End file.

(** Two terms, read and written three bytes at a time. *)
Lemma postings_roundtrip_witness :
  let iter := [([97]%N, [(3, 1); (200, 70000)]); ([98]%N, []); ([99]%N, [(0, 2)])] in
  let short := fun _ n => n `min` 3 in
  let utf8 := fmap (M := list) (fun u => z2b (Z.of_N u)) in
  exists fd dict, rebuild short utf8 iter = Ok (fd, dict) /\ blen fd = 41 /\
    (forall term es, (term, es) ∈ iter -> es <> [] ->
       exists e, jget dict term = Some e /\ pe_df e = blen es /\ read short fd e = Ok es) /\
    is_Some (jget dict [99]%N).
Proof.
  cbv zeta.
  destruct (postings_roundtrip (fun _ n => n `min` 3) (fmap (M := list) (fun u => z2b (Z.of_N u))) ltac:(intros pos n Hn; lia)
    [([97]%N, [(3, 1); (200, 70000)]); ([98]%N, []); ([99]%N, [(0, 2)])]) as (fd & dict & E & Hin & Hd).
  - repeat (constructor; [repeat split; vm_compute; try reflexivity; discriminate|]). constructor.
  - apply (bool_decide_unpack _). vm_compute. exact I.
  - exists fd, dict. split; [exact E|]. split; [vm_compute in E; injection E as <- _; reflexivity|]. split; [exact Hin|].
    apply Hd. exists [(0, 2)]. split; [right; right; left|discriminate].
Defined.
