(* ===== verification/TextSearch.v ===== *)
(** The full-text index ([packages/minidb/src/text-index.ts]): its tokenizer, a base of postings, in memory or in a postings file behind
    a cache, a buffer of later writes, tombstones, rebuilds with the writes that land
    meanwhile, and search. Document ids are integers.

    The Unicode tables of [toLowerCase] and [Math.log] are parameters; scores
    are exact rationals. *)

From Stdlib Require Import QArith.
From S2P Require Import Prelude JsMap Json JsonText JsString IndexManager Query Postings MiniDb.
#[local] Open Scope Z_scope.

(** * Tokenizing *)

Definition latin (u : N) : bool := (((97 <=? u) && (u <=? 122)) || ((48 <=? u) && (u <=? 57)))%N.
Definition cjk (u : N) : bool :=
  (((13312 <=? u) && (u <=? 40959)) || ((12352 <=? u) && (u <=? 12543)) || ((65280 <=? u) && (u <=? 65519)))%N.

Definition MAX_TERM_CHARS : Z := 0xffff.

(** The matches of a global pattern for runs of characters. *)
Fixpoint runs (p : N -> bool) (cur : jsstr) (s : jsstr) : list jsstr :=
  match s with
  | [] => if bool_decide (cur = []) then [] else [cur]
  | u :: s' => if p u then runs p (cur ++ [u]) s' else (if bool_decide (cur = []) then [] else [cur]) ++ runs p [] s'
  end.

(** Each character, and each with the one after it. *)
Fixpoint unigrams_bigrams (r : jsstr) : list jsstr :=
  match r with
  | [] => []
  | [u] => [[u]]
  | u :: (v :: _) as r' => [u] :: [u; v] :: unigrams_bigrams r'
  end.

Definition tokenize (toLowerCase : jsstr -> jsstr) (str : jsstr) : list jsstr :=
  let s := toLowerCase str in
  filter (fun t => blen t <= MAX_TERM_CHARS) (runs latin [] s) ++ concat (unigrams_bigrams <$> runs cjk [] s).


(** * The index *)

Inductive build_op := BuildAdd (key : jsstr) (doc : json) | BuildRemove (key : jsstr).

(** The postings rebuilt last: a map, or a dictionary and the open file, if any. *)
Inductive text_base :=
| MemBase (m : list (jsstr * list (Z * Z)))
| DiskBase (postings : list (jsstr * posting_entry)) (pf : option buffer).

Record text_index := TextIdx {
  tx_base : text_base;
  docLen : list (Z * Z);
  keys : list (option jsstr);
  keyToId : list (jsstr * Z);
  delta : list (jsstr * list (Z * Z));
  deltaCount : Z;
  removed : list Z;
  buildQueue : option (list build_op);
  cache : list (jsstr * list (Z * Z));
  live_docs : Z;                       (* N *)
}.

Inductive search_op := And | Or.

Fixpoint stringLeaves (v : json) : list jsstr :=
  match v with
  | JString s => [s]
  | JArray l => (fix go l := match l with [] => [] | x :: l' => stringLeaves x ++ go l' end) l
  | JObject fs => (fix go fs := match fs with [] => [] | (_, x) :: fs' => stringLeaves x ++ go fs' end) fs
  | _ => []
  end.

Definition strings (vs : list (option json)) : list jsstr := omap (fun v => match v with Some (JString s) => Some s | _ => None end) vs.

Section text.
Context (fields : option (list jsstr)) (tokenizer queryTokenizer : jsstr -> list jsstr) (cacheTerms : Z).
(** Partial reads and writes of the system, and the UTF-8 encoder. *)
Context (short : Z -> Z -> Z) (utf8 : jsstr -> buffer).
(** [Math.log]. *)
Context (log : Q -> Q).

Definition extract (doc : json) : jsstr :=
  match fields with
  | Some (f :: fs) => join_with [32%N] (strings (getPath doc <$> (f :: fs)))
  | _ => join_with [32%N] (stringLeaves doc)
  end.

Definition tokens_of (doc : json) : list jsstr := tokenizer (extract doc).

Definition empty_index (base : text_base) : text_index := TextIdx base [] [] [] [] 0 [] None [] 0.

(** Occurrences by token, in order of first occurrence. *)
Definition count_tokens (tokens : list jsstr) : list (jsstr * Z) :=
  fold_left (fun m t => jset m t (default 0 (jget m t) + 1)) tokens [].

(** Post a document's counts under its id. *)
Definition post_counts (counts : list (jsstr * Z)) (docID : Z) (m : list (jsstr * list (Z * Z))) : list (jsstr * list (Z * Z)) :=
  fold_left (fun m '(t, c) => jset m t (jset (default [] (jget m t)) docID c)) counts m.

Definition zadd (s : list Z) (x : Z) : list Z := if decide (x ∈ s) then s else s ++ [x].

Definition removeInner (i : text_index) (key : jsstr) : text_index :=
  match jget (keyToId i) key with
  | None => i
  | Some id =>
      TextIdx (tx_base i) (jdel (docLen i) id) (<[Z.to_nat id := None]> (keys i)) (jdel (keyToId i) key)
        (prod_map Datatypes.id (fun m => jdel m id) <$> delta i)
        (deltaCount i - blen (filter (fun e => is_Some (jget e.2 id)) (delta i)))
        (zadd (removed i) id) (buildQueue i) (cache i) (live_docs i - 1)
  end.

Definition queued (i : text_index) (op : build_op) : text_index :=
  TextIdx (tx_base i) (docLen i) (keys i) (keyToId i) (delta i) (deltaCount i) (removed i)
    ((fun q => q ++ [op]) <$> buildQueue i) (cache i) (live_docs i).

Definition add (i : text_index) (key : jsstr) (doc : json) : text_index :=
  let i := queued i (BuildAdd key doc) in
  let i := if jhas (keyToId i) key then removeInner i key else i in
  let docID := blen (keys i) in
  let tokens := tokens_of doc in
  let counts := count_tokens tokens in
  TextIdx (tx_base i) (jset (docLen i) docID (blen tokens)) (keys i ++ [Some key]) (jset (keyToId i) key docID)
    (post_counts counts docID (delta i)) (deltaCount i + blen counts) (removed i) (buildQueue i) (cache i) (live_docs i + 1).

Definition remove (i : text_index) (key : jsstr) : text_index := removeInner (queued i (BuildRemove key)) key.

Definition with_cache (i : text_index) (c : list (jsstr * list (Z * Z))) : text_index :=
  TextIdx (tx_base i) (docLen i) (keys i) (keyToId i) (delta i) (deltaCount i) (removed i) (buildQueue i) c (live_docs i).

(** [new Map(pairs)]. *)
Definition map_of (l : list (Z * Z)) : list (Z * Z) := fold_left (fun m '(id, f) => jset m id f) l [].

Definition readBase (i : text_index) (term : jsstr) : result postings_error (list (Z * Z) * text_index) :=
  match tx_base i with
  | MemBase m => Ok (default [] (jget m term), i)
  | DiskBase postings pf =>
      match jget (cache i) term with
      | Some m => Ok (m, with_cache i (jset (jdel (cache i) term) term m))
      | None =>
          let? arr := match jget postings term, pf with Some e, Some file => read short file e | _, _ => Ok [] end in
          let m := map_of arr in
          Ok (m, if 0 <? cacheTerms then
                   let c := jset (cache i) term m in
                   with_cache i (if cacheTerms <? blen c then match c with (oldest, _) :: _ => jdel c oldest | [] => c end else c)
                 else i)
      end
  end.

(** The base and the later writes, tombstones left out. *)
Definition merge_live (i : text_index) (base : list (Z * Z)) (d : option (list (Z * Z))) : list (Z * Z) :=
  if bool_decide (removed i = []) && match d with Some _ => false | None => true end then base
  else
    let keep m out := fold_left (fun out '(id, f) => if decide (id ∈ removed i) then out else jset out id f) m out in
    let out := keep base [] in
    match d with Some d => keep d out | None => out end.

Definition livePostings (i : text_index) (term : jsstr) : result postings_error (list (Z * Z) * text_index) :=
  let? r := readBase i term in
  Ok (merge_live i r.1 (jget (delta i) term), r.2).

Fixpoint term_maps (i : text_index) (terms : list jsstr) (maps : list (jsstr * list (Z * Z)))
    : result postings_error (list (jsstr * list (Z * Z)) * text_index) :=
  match terms with
  | [] => Ok (maps, i)
  | t :: terms' => let? r := livePostings i t in term_maps r.2 terms' (jset maps t r.1)
  end.

(** A stable sort. *)
Fixpoint insert_by {A} (le : A -> A -> bool) (x : A) (l : list A) : list A :=
  match l with
  | [] => [x]
  | y :: l' => if le x y then x :: l else y :: insert_by le x l'
  end.
Definition sort_by {A} (le : A -> A -> bool) (l : list A) : list A := foldr (insert_by le) [] l.

Definition candidates_of (op : search_op) (maps : list (list (Z * Z))) : list Z :=
  match op with
  | Or => fold_left (fun c m => fold_left zadd m.*1 c) maps []
  | And =>
      if existsb (fun m => bool_decide (m = [])) maps then []
      else match sort_by (fun a b => blen a <=? blen b) maps with
           | [] => []
           | m :: ms => fold_left (fun c m => filter (fun id => is_Some (jget m id)) c) ms m.*1
           end
  end.

(** [Math.log(1 + N / (df || 1))]. *)
Definition idf (i : text_index) (df : Z) : Q := log (1 + inject_Z (live_docs i) / inject_Z (if df =? 0 then 1 else df))%Q.

Definition score_of (i : text_index) (maps : list (jsstr * list (Z * Z))) (qtokens : list jsstr) (id : Z) : Q :=
  let len := default 1 (jget (docLen i) id) in
  fold_left (fun score t =>
    let m := default [] (jget maps t) in
    let f := default 0 (jget m id) in
    if f =? 0 then score else (score + inject_Z f / inject_Z len * idf i (blen m))%Q) qtokens 0%Q.

Definition hits (i : text_index) (maps : list (jsstr * list (Z * Z))) (qtokens : list jsstr) (candidates : list Z) : list (jsstr * Q) :=
  omap (fun id =>
    let score := score_of i maps qtokens id in
    if negb (Qle_bool score 0) then
      match default None (keys i !! Z.to_nat id) with Some key => Some (key, score) | None => None end
    else None) candidates.

(** [search]; [None] is no limit. *)
Definition search (i : text_index) (query : jsstr) (op : search_op) (limit : option Z)
    : result postings_error (list (jsstr * Q) * text_index) :=
  let qtokens := fold_left sadd (queryTokenizer query) [] in
  if bool_decide (qtokens = []) then Ok ([], i)
  else
    let? r := term_maps i qtokens [] in
    let scored := hits i r.1 qtokens (candidates_of op r.1.*2) in
    let sorted := sort_by (fun a b => Qle_bool b.2 a.2) scored in
    Ok (match limit with Some n => take (Z.to_nat n) sorted | None => sorted end, r.2).

(** ** Rebuilding *)

Definition build_start (i : text_index) : option text_index :=
  match buildQueue i with
  | Some _ => None
  | None => Some (TextIdx (tx_base i) (docLen i) (keys i) (keyToId i) (delta i) (deltaCount i) (removed i) (Some []) (cache i) (live_docs i))
  end.

Record staged := Staged {
  agg : list (jsstr * list (Z * Z));
  newKeys : list (option jsstr);
  newKeyToId : list (jsstr * Z);
  newDocLen : list (Z * Z);
}.

(** One entry of the iteration. *)
Definition stage (s : staged) (e : jsstr * json) : staged :=
  let docID := blen (newKeys s) in
  let tokens := tokens_of e.2 in
  Staged (post_counts (count_tokens tokens) docID (agg s)) (newKeys s ++ [Some e.1]) (jset (newKeyToId s) e.1 docID)
    (jset (newDocLen s) docID (blen tokens)).

Definition stage_all (entries : list (jsstr * json)) : staged := fold_left stage entries (Staged [] [] [] []).

Definition replay_op (i : text_index) (op : build_op) : text_index :=
  match op with BuildAdd key doc => add i key doc | BuildRemove key => remove i key end.

(** The swap: one synchronous segment once the new base is there. *)
Definition build_swap (i : text_index) (base : text_base) (s : staged) (n : Z) : text_index :=
  fold_left replay_op (default [] (buildQueue i))
    (TextIdx base (newDocLen s) (newKeys s) (newKeyToId s) [] 0 [] None [] n).

(** The rest of [build] over the entries its iteration saw. *)
Definition build_finish (i : text_index) (entries : list (jsstr * json)) : result postings_error text_index :=
  let s := stage_all entries in
  match tx_base i with
  | DiskBase _ _ =>
      let? r := rebuild short utf8 (agg s) in
      Ok (build_swap i (DiskBase r.2 (Some r.1)) s (blen entries))
  | MemBase _ => Ok (build_swap i (MemBase (agg s)) s (blen entries))
  end.

(** [build] fails: the queue is disarmed. *)
Definition build_abort (i : text_index) : text_index :=
  TextIdx (tx_base i) (docLen i) (keys i) (keyToId i) (delta i) (deltaCount i) (removed i) None (cache i) (live_docs i).

Definition needsRebuild (i : text_index) : bool :=
  match buildQueue i with Some _ => false | None => (0 <? deltaCount i) || negb (bool_decide (removed i = [])) end.

Definition termCount (i : text_index) : Z :=
  let has t := match tx_base i with MemBase m => jhas m t | DiskBase p _ => jhas p t end in
  match tx_base i with MemBase m => blen m | DiskBase p _ => blen p end + blen (filter (fun t => has t = false) (jkeys (delta i))).
End text.

(** * Correctness *)

Section correct.
Context (fields : option (list jsstr)) (tokenizer queryTokenizer : jsstr -> list jsstr) (cacheTerms : Z).
Context (short : Z -> Z -> Z) (utf8 : jsstr -> buffer) (log : Q -> Q).

Abbreviation docs := (jsstr -> option json).
Abbreviation tokens_of := (tokens_of fields tokenizer).
Local Abbreviation add := (add fields tokenizer).

(** ** Counting *)

Definition occurrences (t : jsstr) (l : list jsstr) : Z := blen (filter (fun x => x = t) l).

Lemma count_tokens_spec l : jwf (count_tokens l) /\
  forall t, jget (count_tokens l) t = if decide (t ∈ l) then Some (occurrences t l) else None.
Proof.
  induction l as [|x l [Hw IH]] using rev_ind; [split; [apply jwf_nil|done]|]. unfold count_tokens in *. rewrite fold_left_app. cbn [fold_left].
  split; [by apply jwf_set|]. intros t. rewrite jget_set, !IH. unfold occurrences. rewrite filter_app, blen_app. destruct (decide (x = t)) as [->|Hne].
  - rewrite (decide_True (P := t ∈ l ++ [t])) by (apply elem_of_app; right; by left). rewrite filter_cons_True, filter_nil by done. f_equal.
    destruct (decide (t ∈ l)) as [|Hn]; [done|]. cbn [default from_option]. unfold blen at 2. cbn.
    destruct (filter (fun x => x = t) l) as [|y ys] eqn:E; [done|]. assert (Hy : y ∈ filter (fun x => x = t) l) by (rewrite E; by left).
    by apply list_elem_of_filter in Hy as [-> ?].
  - rewrite filter_cons_False, filter_nil by done. unfold blen at 2. cbn. rewrite Z.add_0_r.
    apply decide_ext. rewrite elem_of_app, list_elem_of_singleton. naive_solver.
Qed.

Lemma occurrences_pos t l : t ∈ l -> 0 < occurrences t l.
Proof.
  intros Hin. unfold occurrences, blen. assert (H : t ∈ filter (fun x => x = t) l) by (by apply list_elem_of_filter).
  destruct (filter _ l); [by apply elem_of_nil in H|cbn; lia].
Qed.

Definition post_at (m : list (jsstr * list (Z * Z))) (t : jsstr) : list (Z * Z) := default [] (jget m t).

Lemma post_at_set m x v t : post_at (jset m x v) t = if decide (x = t) then v else post_at m t.
Proof. unfold post_at. rewrite jget_set. by case_decide. Qed.

Lemma post_counts_spec counts docID : forall m, jwf counts ->
  forall t, post_at (post_counts counts docID m) t = match jget counts t with Some c => jset (post_at m t) docID c | None => post_at m t end.
Proof.
  unfold post_counts. induction counts as [|[x c] counts IH]; intros m Hw t; [done|]. cbn [fold_left].
  apply NoDup_cons in Hw as [Hn Hw]. rewrite IH by done. fold (post_at m x). rewrite post_at_set. cbn [jget].
  destruct (decide (x = t)) as [->|Hne]; [|done]. by rewrite (proj2 (jget_None counts t) Hn).
Qed.

Lemma post_counts_jwf counts docID : forall m, jwf m -> jwf (post_counts counts docID m).
Proof. unfold post_counts. induction counts as [|[x c] counts IH]; intros m Hm; [done|]. cbn [fold_left]. by apply IH, jwf_set. Qed.

(** ** The documents a set of postings describes *)

(** [P t id]: how often the document with id [id] has the token [t]. *)
Record describes (P : jsstr -> Z -> option Z) (ks : list (option jsstr)) (ids : list (jsstr * Z)) (lens : list (Z * Z)) (D : docs) : Prop := {
  ds_ids : jwf ids;
  ds_lens : jwf lens;
  ds_keys : forall key id, jget ids key = Some id -> 0 <= id /\ ks !! Z.to_nat id = Some (Some key);
  ds_dom : forall key, is_Some (jget ids key) <-> is_Some (D key);
  ds_doc : forall key id doc, jget ids key = Some id -> D key = Some doc ->
    jget lens id = Some (blen (tokens_of doc)) /\ forall t, P t id = jget (count_tokens (tokens_of doc)) t;
  ds_live : forall t id f, P t id = Some f -> exists key, jget ids key = Some id;
}.

Lemma describes_bound P ks ids lens D key id : describes P ks ids lens D -> jget ids key = Some id -> 0 <= id < blen ks.
Proof. intros H Hk. destruct (ds_keys _ _ _ _ _ H key id Hk) as [H0 Hl]. apply lookup_lt_Some in Hl. unfold blen. lia. Qed.

Lemma describes_inj P ks ids lens D key key' id : describes P ks ids lens D -> jget ids key = Some id -> jget ids key' = Some id -> key = key'.
Proof.
  intros H H1 H2. destruct (ds_keys _ _ _ _ _ H _ _ H1) as [_ E1]. destruct (ds_keys _ _ _ _ _ H _ _ H2) as [_ E2]. congruence.
Qed.

Lemma describes_ext P P' ks ids lens D D' :
  (forall t id, P t id = P' t id) -> (forall k, D k = D' k) -> describes P ks ids lens D -> describes P' ks ids lens D'.
Proof.
  intros HP HD [H1 H2 H3 H4 H5 H6]. split; [done..| | |].
  - intros key. by rewrite <- HD.
  - intros key id doc Hk Hd. rewrite <- HD in Hd. destruct (H5 key id doc Hk Hd) as [E1 E2]. split; [done|]. intros t. by rewrite <- HP.
  - intros t id f. rewrite <- HP. apply H6.
Qed.

(** A new document under the next id. *)
Lemma describes_add P P' ks ids lens D key doc :
  describes P ks ids lens D -> jget ids key = None ->
  (forall t id, P' t id = if decide (id = blen ks) then jget (count_tokens (tokens_of doc)) t else P t id) ->
  describes P' (ks ++ [Some key]) (jset ids key (blen ks)) (jset lens (blen ks) (blen (tokens_of doc))) (upd D key (Some doc)).
Proof.
  intros H Hn HP. pose proof H as [H1 H2 H3 H4 H5 H6]. split.
  - by apply jwf_set.
  - by apply jwf_set.
  - intros k id. rewrite jget_set. destruct (decide (key = k)) as [<-|Hne].
    + intros [= <-]. split; [apply blen_nonneg|]. unfold blen. rewrite Nat2Z.id. by apply list_lookup_middle.
    + intros Hk. destruct (H3 k id Hk) as [H0 Hl]. split; [done|]. apply lookup_app_l_Some. exact Hl.
  - intros k. rewrite jget_set. unfold upd. destruct (decide (key = k)) as [<-|Hne].
    + rewrite decide_True by done. split; by eexists.
    + rewrite decide_False by congruence. apply H4.
  - intros k id d. rewrite jget_set. unfold upd. destruct (decide (key = k)) as [<-|Hne].
    + rewrite decide_True by done. intros [= <-] [= <-]. rewrite jget_set_eq. split; [done|]. intros t. rewrite HP. by rewrite decide_True.
    + rewrite decide_False by congruence. intros Hk Hd. pose proof (describes_bound _ _ _ _ _ _ _ H Hk).
      rewrite jget_set_ne by lia. destruct (H5 k id d Hk Hd) as [E1 E2]. split; [done|]. intros t. rewrite HP, decide_False by lia. apply E2.
  - intros t id f. rewrite HP. destruct (decide (id = blen ks)) as [->|Hne].
    + intros _. exists key. apply jget_set_eq.
    + intros Hf. destruct (H6 t id f Hf) as [k Hk]. exists k. rewrite jget_set_ne; [done|]. congruence.
Qed.

Lemma describes_remove P P' ks ids lens D key id :
  describes P ks ids lens D -> jget ids key = Some id -> (forall t id', P' t id' = if decide (id' = id) then None else P t id') ->
  describes P' (<[Z.to_nat id := None]> ks) (jdel ids key) (jdel lens id) (upd D key None).
Proof.
  intros H Hid HP. pose proof H as [H1 H2 H3 H4 H5 H6].
  assert (Hother : forall k id', jget (jdel ids key) k = Some id' -> jget ids k = Some id' /\ k <> key /\ id' <> id).
  { intros k id'. rewrite jget_del by done. destruct (decide (key = k)) as [|Hne]; [done|]. intros Hk. split_and!; [done|congruence|].
    intros ->. apply Hne. by apply (describes_inj _ _ _ _ _ _ _ _ H Hid Hk). }
  split.
  - by apply jwf_del.
  - by apply jwf_del.
  - intros k id' Hk. destruct (Hother k id' Hk) as (Hk' & _ & Hne). destruct (H3 k id' Hk') as [H0 Hl]. split; [done|].
    rewrite list_lookup_insert_ne; [done|]. destruct (H3 key id Hid). lia.
  - intros k. rewrite jget_del by done. unfold upd. destruct (decide (key = k)) as [<-|Hne].
    + rewrite decide_True by done. split; by intros [].
    + rewrite decide_False by congruence. apply H4.
  - intros k id' d Hk. destruct (Hother k id' Hk) as (Hk' & Hne & Hni). unfold upd. rewrite decide_False by done. intros Hd.
    rewrite jget_del_ne by congruence. destruct (H5 k id' d Hk' Hd) as [E1 E2]. split; [done|]. intros t. rewrite HP, decide_False by done. apply E2.
  - intros t id' f. rewrite HP. destruct (decide (id' = id)) as [|Hne]; [done|]. intros Hf. destruct (H6 t id' f Hf) as [k Hk].
    exists k. rewrite jget_del_ne; [done|]. congruence.
Qed.

(** ** The invariant *)

(** The base postings of a term, as reads will find them. *)
Definition base_post (i : text_index) (t : jsstr) : list (Z * Z) :=
  match tx_base i with
  | MemBase m => post_at m t
  | DiskBase p pf =>
      match jget p t, pf with
      | Some e, Some file => match read short file e with Ok l => map_of l | Err _ => [] end
      | _, _ => []
      end
  end.

Definition posting (i : text_index) (t : jsstr) (id : Z) : option Z :=
  if decide (id ∈ removed i) then None
  else match jget (post_at (delta i) t) id with Some f => Some f | None => jget (base_post i t) id end.

Record base_ok (i : text_index) : Prop := {
  bo_reads : match tx_base i with
             | DiskBase p (Some file) => forall t e, jget p t = Some e -> exists l, read short file e = Ok l
             | _ => True
             end;
  bo_cache : jwf (cache i) /\ forall t m, jget (cache i) t = Some m -> m = base_post i t;
}.

Record holds (i : text_index) (D : docs) : Prop := {
  ho_docs : describes (posting i) (keys i) (keyToId i) (docLen i) D;
  ho_base : base_ok i;
  ho_delta : jwf (delta i);
  ho_lists : forall t, jwf (post_at (delta i) t) /\ jwf (base_post i t);
  ho_new : forall id, blen (keys i) <= id -> (id ∉ removed i) /\ forall t, jget (post_at (delta i) t) id = None /\ jget (base_post i t) id = None;
  ho_N : live_docs i = blen (keyToId i);
}.

(** The writes queued by a build, applied to what a key held. *)
Definition replayed (key : jsstr) (q : list build_op) (v : option json) : option json :=
  fold_left (fun v op => match op with
    | BuildAdd k d => if decide (k = key) then Some d else v
    | BuildRemove k => if decide (k = key) then None else v
    end) q v.

Definition op_key (op : build_op) : jsstr := match op with BuildAdd k _ => k | BuildRemove k => k end.

(** The queue tells what the keys written during the build hold now. *)
Definition queue_ok (i : text_index) (D : docs) : Prop :=
  match buildQueue i with
  | None => True
  | Some q => forall key v, (key ∉ op_key <$> q -> v = D key) -> replayed key q v = D key
  end.

Lemma posting_queued i op t id : posting (queued i op) t id = posting i t id.
Proof. done. Qed.

Lemma holds_queued i op D : holds i D -> holds (queued i op) D.
Proof. intros [H1 [H2 H2'] H3 H4 H5 H6]. by split; [|split| | | |]. Qed.

Lemma post_at_map (f : list (Z * Z) -> list (Z * Z)) m t : f [] = [] -> post_at (prod_map id f <$> m) t = f (post_at m t).
Proof.
  intros Hf. unfold post_at. induction m as [|[k v] m IH]; cbn; [done|]. by case_decide.
Qed.

Lemma elem_of_zadd s x y : y ∈ zadd s x <-> y = x \/ y ∈ s.
Proof. unfold zadd. case_decide; set_solver. Qed.

Lemma blen_jdel {K V} `{EqDecision K} (m : list (K * V)) k v : jget m k = Some v -> blen (jdel m k) = blen m - 1.
Proof. intros H. pose proof (Permutation_length (jdel_perm m k v H)) as Hl. unfold blen. cbn in Hl. lia. Qed.

Lemma blen_jset_new {K V} `{EqDecision K} (m : list (K * V)) k v : jget m k = None -> blen (jset m k v) = blen m + 1.
Proof. intros H. pose proof (Permutation_length (jset_perm_new m k v H)) as Hl. unfold blen. cbn in Hl. lia. Qed.

Lemma removeInner_holds i key D : holds i D -> holds (removeInner i key) (upd D key None).
Proof.
  intros H. pose proof H as [H1 [H2 H2'] H3 H4 H5 H6]. unfold removeInner. destruct (jget (keyToId i) key) as [id|] eqn:Hid.
  2: { split; [|by split|done..]. eapply describes_ext; [done| |exact H1]. intros k. unfold upd. case_decide as E; [|done]. subst k.
       destruct (D key) eqn:Hd; [|done]. assert (Hs : is_Some (jget (keyToId i) key)) by (apply (ds_dom _ _ _ _ _ H1); by eexists).
       rewrite Hid in Hs. by destruct Hs. }
  set (i' := TextIdx _ _ _ _ _ _ _ _ _ _).
  assert (Hdel : forall t, post_at (delta i') t = jdel (post_at (delta i) t) id) by (intros t; unfold i'; cbn [delta]; by rewrite post_at_map).
  pose proof (describes_bound _ _ _ _ _ _ _ H1 Hid) as Hb. split.
  - apply (describes_remove (posting i)); [done|done|]. intros t id'. unfold posting. cbn [removed i'].
    destruct (decide (id' = id)) as [->|Hne]; [by rewrite decide_True by (apply elem_of_zadd; by left)|].
    destruct (decide (id' ∈ removed i)) as [Hr|Hr]; [by rewrite decide_True by (apply elem_of_zadd; by right)|].
    rewrite decide_False by (rewrite elem_of_zadd; naive_solver). rewrite Hdel, jget_del_ne by congruence. done.
  - by split.
  - unfold jwf, jkeys in *. cbn [delta i']. rewrite <- list_fmap_compose. erewrite list_fmap_ext; [exact H3|]. by intros ? [? ?] _.
  - intros t. rewrite Hdel. split; [apply jwf_del; apply H4|apply H4].
  - intros id'. cbn [keys i']. unfold blen at 1. rewrite length_insert. fold (blen (keys i)). intros Hle. destruct (H5 id' Hle) as [E1 E2]. split.
    + cbn [removed i']. rewrite elem_of_zadd. intros [->|?]; [lia|done].
    + intros t. rewrite Hdel. destruct (E2 t) as [E3 E4]. split; [|exact E4]. by rewrite jget_del_ne by lia.
  - cbn. rewrite H6. symmetry. by eapply blen_jdel.
Qed.

Lemma removeInner_gone i key : jwf (keyToId i) -> jget (keyToId (removeInner i key)) key = None.
Proof. intros Hw. unfold removeInner. destruct (jget (keyToId i) key) eqn:E; [|done]. cbn. by apply jget_del_eq. Qed.

Lemma add_holds i key doc D : holds i D -> holds (add i key doc) (upd D key (Some doc)).
Proof.
  intros H0. apply (holds_queued i (BuildAdd key doc)) in H0. unfold add, TextSearch.add. set (i1 := queued i _) in *.
  set (i2 := if jhas (keyToId i1) key then _ else _).
  assert (H : holds i2 (upd D key None) /\ jget (keyToId i2) key = None).
  { pose proof (removeInner_holds i1 key D H0) as Hr. pose proof (removeInner_gone i1 key (ds_ids _ _ _ _ _ (ho_docs _ _ H0))) as Hg.
    unfold i2, jhas. destruct (jget (keyToId i1) key) as [id|] eqn:E; [done|]. split; [|done].
    unfold removeInner in Hr. by rewrite E in Hr. }
  destruct H as [H Hnone]. pose proof H as [H1 [H2 H2'] H3 H4 H5 H6]. set (id := blen (keys i2)).
  pose proof (count_tokens_spec (tokens_of doc)) as [Hcw _]. destruct (H5 id ltac:(lia)) as [Hnr Hno].
  set (i' := TextIdx _ _ _ _ _ _ _ _ _ _).
  assert (Hpost : forall t, post_at (delta i') t = match jget (count_tokens (tokens_of doc)) t with
    | Some c => jset (post_at (delta i2) t) id c | None => post_at (delta i2) t end) by (intros t; by apply post_counts_spec).
  split.
  - eapply (describes_ext (posting i')); [done| |apply (describes_add (posting i2) _ _ _ _ (upd D key None) key doc); [done..|]].
    { intros k. unfold upd. by case_decide. }
    intros t id'. unfold posting. cbn [removed i']. rewrite Hpost. change (base_post i' t) with (base_post i2 t).
    destruct (decide (id' = blen (keys i2))) as [->|Hne].
    + rewrite decide_False by done. fold id. destruct (Hno t) as [E1 E2].
      destruct (jget (count_tokens (tokens_of doc)) t) as [c|]; [by rewrite jget_set_eq|by rewrite E1].
    + destruct (jget (count_tokens (tokens_of doc)) t) as [c|]; [|done]. by rewrite jget_set_ne by (unfold id; congruence).
  - by split.
  - by apply post_counts_jwf.
  - intros t. rewrite Hpost. split; [|apply H4]. destruct (jget _ t); [apply jwf_set|]; apply H4.
  - intros id'. cbn [keys i']. rewrite blen_app. change (blen [Some key]) with 1. intros Hle. destruct (H5 id' ltac:(lia)) as [E1 E2]. split; [done|].
    intros t. rewrite Hpost. destruct (E2 t) as [E3 E4]. split; [|exact E4]. destruct (jget _ t); [|done]. rewrite jget_set_ne; [done|unfold id; lia].
  - cbn. rewrite H6. symmetry. by apply blen_jset_new.
Qed.

Lemma remove_holds i key D : holds i D -> holds (remove i key) (upd D key None).
Proof. intros H. by apply removeInner_holds, holds_queued. Qed.

(** ** Rebuilds *)

Definition staged_post (s : staged) (t : jsstr) (id : Z) : option Z := jget (post_at (agg s) t) id.

(** Posting lists under construction: increasing ids below the next one. *)
Definition ascending (n : Z) (l : list (Z * Z)) : Prop := StronglySorted Z.lt l.*1 /\ Forall (fun e => 0 <= e.1 < n /\ 0 < e.2) l.

Record staged_ok (s : staged) (D : docs) : Prop := {
  so_docs : describes (staged_post s) (newKeys s) (newKeyToId s) (newDocLen s) D;
  so_agg : jwf (agg s);
  so_asc : forall t, ascending (blen (newKeys s)) (post_at (agg s) t);
  so_n : blen (newKeys s) = blen (newKeyToId s);
}.

Lemma ascending_jwf n l : ascending n l -> jwf l.
Proof.
  intros [Hs _]. unfold jwf, jkeys. induction Hs as [|x ids _ IH Hx]; constructor; [|done]. intros Hin. rewrite Forall_forall in Hx.
  specialize (Hx x Hin). lia.
Qed.

Lemma ascending_none n l id : ascending n l -> n <= id -> jget l id = None.
Proof.
  intros [_ Hf] Hid. apply jget_None. intros Hin. apply list_elem_of_fmap in Hin as (e & -> & He). rewrite Forall_forall in Hf.
  destruct (Hf e He). lia.
Qed.

Lemma jset_new {K V} `{EqDecision K} (m : list (K * V)) k v : jget m k = None -> jset m k v = m ++ [(k, v)].
Proof.
  induction m as [|[k' v'] m IH]; cbn; [done|]. case_decide; [done|]. intros H'. by rewrite IH.
Qed.

Lemma ascending_snoc n l c : ascending n l -> 0 <= n -> 0 < c -> ascending (n + 1) (jset l n c).
Proof.
  intros H Hn Hc. rewrite (jset_new l n c) by (by eapply ascending_none). destruct H as [Hs Hf]. split.
  - rewrite fmap_app. cbn. apply SS_snoc; [done|]. apply Forall_fmap. eapply Forall_impl; [exact Hf|]. cbn. lia.
  - apply Forall_app. split; [eapply Forall_impl; [exact Hf|]; cbn; lia|]. constructor; [cbn; lia|constructor].
Qed.

Lemma ascending_mono n l : ascending n l -> ascending (n + 1) l.
Proof. intros [Hs Hf]. split; [done|]. eapply Forall_impl; [exact Hf|]. cbn. lia. Qed.

Lemma count_pos doc t c : jget (count_tokens (tokens_of doc)) t = Some c -> 0 < c.
Proof.
  destruct (count_tokens_spec (tokens_of doc)) as [_ Hs]. rewrite Hs. case_decide; [|done]. intros [= <-]. by apply occurrences_pos.
Qed.

Lemma stage_ok s D key doc : staged_ok s D -> D key = None -> staged_ok (stage fields tokenizer s (key, doc)) (upd D key (Some doc)).
Proof.
  intros [H1 H2 H3 H4] Hn. assert (Hnone : jget (newKeyToId s) key = None).
  { destruct (jget (newKeyToId s) key) eqn:E; [|done]. assert (Hs : is_Some (D key)) by (apply (ds_dom _ _ _ _ _ H1); by eexists).
    rewrite Hn in Hs. by destruct Hs. }
  pose proof (count_tokens_spec (tokens_of doc)) as [Hcw _].
  set (s' := stage fields tokenizer s (key, doc)). set (id := blen (newKeys s)).
  assert (Hpost : forall t, post_at (agg s') t = match jget (count_tokens (tokens_of doc)) t with
    | Some c => jset (post_at (agg s) t) id c | None => post_at (agg s) t end) by (intros t; by apply post_counts_spec).
  split.
  - apply (describes_add (staged_post s)); [done..|]. intros t id'. unfold staged_post. rewrite Hpost.
    destruct (decide (id' = blen (newKeys s))) as [->|Hne].
    + fold id. destruct (jget (count_tokens (tokens_of doc)) t) as [c|]; [by rewrite jget_set_eq|].
      apply (ascending_none id); [apply H3|lia].
    + destruct (jget (count_tokens (tokens_of doc)) t) as [c|]; [|done]. by rewrite jget_set_ne by (unfold id; congruence).
  - by apply post_counts_jwf.
  - intros t. rewrite Hpost. cbn [newKeys s' stage fst snd]. rewrite blen_app. change (blen [Some key]) with 1.
    destruct (jget (count_tokens (tokens_of doc)) t) as [c|] eqn:Ec; [|by apply ascending_mono].
    apply ascending_snoc; [apply H3|apply blen_nonneg|by eapply count_pos].
  - cbn [newKeys newKeyToId s' stage fst snd]. rewrite blen_app, blen_jset_new by done. change (blen [Some key]) with 1. lia.
Qed.

Lemma stage_all_ok entries : jwf entries ->
  staged_ok (stage_all fields tokenizer entries) (jget entries) /\ blen (newKeys (stage_all fields tokenizer entries)) = blen entries.
Proof.
  unfold stage_all. induction entries as [|[key doc] entries IH] using rev_ind; intros Hw.
  { split; [|done]. split; cbn; [|apply jwf_nil|intros t; split; [constructor|constructor]|done]. split; try done; try apply jwf_nil.
    intros key. cbn. done. }
  unfold jwf, jkeys in Hw. rewrite fmap_app in Hw. apply NoDup_app in Hw as (Hw & Hdis & _). destruct (IH Hw) as [IH1 IH2].
  assert (Hn : jget entries key = None).
  { apply jget_None. intros Hin. apply (Hdis key Hin). by left. }
  rewrite fold_left_app. cbn [fold_left]. split.
  - pose proof (stage_ok _ _ key doc IH1 Hn) as [H1 H2 H3 H4]. split; [|done..]. eapply describes_ext; [done| |exact H1].
    intros k. unfold upd. rewrite <- (jset_new entries key doc Hn), jget_set. destruct (decide (k = key)) as [->|]; [by rewrite decide_True|by rewrite decide_False by congruence].
  - cbn [newKeys stage]. rewrite !blen_app, IH2. done.
Qed.

Lemma sorted_postings l : forall prev, StronglySorted Z.lt l.*1 ->
  Forall (fun e => prev <= e.1 < 2 ^ 32 /\ 0 <= e.2 < 2 ^ 32) l -> postings_ok prev l.
Proof.
  induction l as [|[d c] l IH]; intros prev Hs Hf; [done|]. cbn [fmap list_fmap] in Hs. apply StronglySorted_inv in Hs as [Hs Hx].
  apply Forall_cons in Hf as [Hd Hf]. cbn in Hd. split_and!; [lia..|]. apply IH; [done|].
  rewrite Forall_forall in Hf. rewrite Forall_forall in Hx. apply Forall_forall. intros e He. specialize (Hf e He).
  specialize (Hx e.1 (list_elem_of_fmap_2 fst l e He)). cbn in *. lia.
Qed.

Lemma ascending_postings n l : ascending n l -> n <= 2 ^ 32 -> Forall (fun e => e.2 < 2 ^ 32) l -> postings_ok 0 l.
Proof.
  intros [Hs Hf] Hn H32. apply sorted_postings; [done|]. rewrite Forall_forall in Hf. rewrite Forall_forall in H32.
  apply Forall_forall. intros e He. specialize (Hf e He). specialize (H32 e He). cbn in *. lia.
Qed.

Lemma map_of_jwf l : jwf l -> map_of l = l.
Proof.
  unfold map_of. intros Hw. enough (H : forall acc, (forall k, k ∈ l.*1 -> jget acc k = None) ->
    fold_left (fun m '(id, f) => jset m id f) l acc = acc ++ l) by (by apply (H [])).
  induction l as [|[k v] l IH]; intros acc Hn; cbn [fold_left]; [by rewrite app_nil_r|]. apply NoDup_cons in Hw as [Hk Hw]. cbn in Hk.
  rewrite (jset_new acc k v) by (apply Hn; by left). rewrite IH, <- app_assoc; [done|done|]. intros k' Hin.
  rewrite <- (jset_new acc k v) by (apply Hn; by left). rewrite jget_set. destruct (decide (k = k')) as [<-|]; [done|].
  apply Hn. by right.
Qed.

(** What a postings file can hold. *)
Definition fits_all (s : staged) : Prop := Forall (fun te => fits utf8 te.1 te.2 /\ Forall (fun e => e.2 < 2 ^ 32) te.2) (agg s).

(** The base a build installs has the staged postings. *)
Lemma rebuilt_base s D ks ids lens n : progress short -> staged_ok s D -> fits_all s -> blen (newKeys s) <= 2 ^ 32 ->
  exists fd dict, rebuild short utf8 (agg s) = Ok (fd, dict) /\
    let i := TextIdx (DiskBase dict (Some fd)) lens ks ids [] 0 [] None [] n in
    base_ok i /\ forall t, base_post i t = post_at (agg s) t.
Proof.
  intros Hpr [_ Hw Hasc _] Hfit Hn. destruct (postings_rebuild_spec short utf8 Hpr (agg s)) as (fd & dict & E & Hin & Hback); [|done|].
  { eapply Forall_impl; [exact Hfit|]. by intros te [? _]. }
  exists fd, dict. split; [exact E|]. cbv zeta. unfold fits_all in Hfit. rewrite Forall_forall in Hfit.
  assert (Hread : forall t es, jget (agg s) t = Some es -> es <> [] -> exists e, jget dict t = Some e /\ read short fd e = Ok es).
  { intros t es Hes Hne. destruct (Hin t es (jget_Some_in _ _ _ Hes) Hne) as (e & He & Hrec). exists e. split; [done|].
    destruct (Hfit _ (jget_Some_in _ _ _ Hes)) as [(_ & Hl & _) H32]. apply (read_recorded short utf8 Hpr fd t); [|done]. split; [|done].
    apply (ascending_postings (blen (newKeys s))); [|done|done]. specialize (Hasc t). unfold post_at in Hasc. by rewrite Hes in Hasc. }
  assert (Hdict : forall t e, jget dict t = Some e -> exists es, jget (agg s) t = Some es /\ read short fd e = Ok es).
  { intros t e He. destruct (Hback t (mk_is_Some _ _ He)) as (es & Hi & Hne). apply jget_in in Hi; [|done].
    destruct (Hread t es Hi Hne) as (e' & He' & Hr). rewrite He in He'. injection He' as <-. by exists es. }
  split; [split|].
  - cbn. intros t e He. destruct (Hdict t e He) as (es & _ & Hr). by exists es.
  - split; [apply jwf_nil|done].
  - intros t. unfold base_post. cbn [tx_base]. destruct (jget dict t) as [e|] eqn:He.
    + destruct (Hdict t e He) as (es & Hes & ->). unfold post_at. rewrite Hes. cbn. apply map_of_jwf.
      specialize (Hasc t). unfold post_at in Hasc. rewrite Hes in Hasc. by eapply ascending_jwf.
    + unfold post_at. destruct (jget (agg s) t) as [es|] eqn:Hes; [|done]. cbn. destruct es as [|x es]; [done|].
      destruct (Hread t _ Hes ltac:(done)) as (e & He' & _). congruence.
Qed.

Lemma replay_holds q : forall i D, holds i D -> holds (fold_left (replay_op fields tokenizer) q i) (fun key => replayed key q (D key)).
Proof.
  induction q as [|op q IH]; intros i D H; cbn [fold_left]; [exact H|].
  assert (Hop : holds (replay_op fields tokenizer i op) (match op with BuildAdd k d => upd D k (Some d) | BuildRemove k => upd D k None end)).
  { destruct op; [by apply add_holds|by apply remove_holds]. }
  specialize (IH _ _ Hop). destruct IH as [I1 I2 I3 I4 I5 I6]. split; [|done..]. eapply describes_ext; [done| |exact I1].
  intros key. unfold replayed. cbn [fold_left]. destruct op as [k d|k]; unfold upd;
    (destruct (decide (key = k)) as [->|]; [by rewrite decide_True|by rewrite decide_False by congruence]).
Qed.

Lemma queue_None i op : buildQueue i = None -> buildQueue (replay_op fields tokenizer i op) = None.
Proof.
  intros H. destruct op as [k d|k]; cbn; unfold remove, removeInner, queued; rewrite H; cbn;
    repeat match goal with |- context [jget ?m ?k] => destruct (jget m k) | |- context [jhas ?m ?k] => destruct (jhas m k) end; done.
Qed.

Lemma swapped_holds s D i base n :
  staged_ok s D -> n = blen (newKeyToId s) ->
  (let i0 := TextIdx base (newDocLen s) (newKeys s) (newKeyToId s) [] 0 [] None [] n in
   base_ok i0 /\ forall t, base_post i0 t = post_at (agg s) t) ->
  holds (build_swap fields tokenizer i base s n) (fun key => replayed key (default [] (buildQueue i)) (D key)) /\
  buildQueue (build_swap fields tokenizer i base s n) = None.
Proof.
  intros [H1 H2 H3 H4] -> [Hb Hp]. unfold build_swap. set (i0 := TextIdx _ _ _ _ _ _ _ _ _ _) in *. split.
  - apply replay_holds. split.
    + eapply describes_ext; [|done|exact H1]. intros t id. unfold posting, staged_post. cbn [removed i0 delta].
      rewrite decide_False by apply not_elem_of_nil. change (post_at [] t) with (@nil (Z * Z)). cbn [jget]. by rewrite Hp.
    + exact Hb.
    + apply jwf_nil.
    + intros t. split; [apply jwf_nil|]. rewrite Hp. by eapply ascending_jwf.
    + intros id Hid. split; [apply not_elem_of_nil|]. intros t. split; [done|]. rewrite Hp. by eapply ascending_none.
    + done.
  - assert (Hq : buildQueue i0 = None) by done. revert Hq. generalize i0. induction (default [] (buildQueue i)) as [|op q IH]; intros j Hq; [done|].
    cbn [fold_left]. by apply IH, queue_None.
Qed.

(** ** Reading *)

Lemma with_cache_same i : with_cache i (cache i) = i.
Proof. by destruct i. Qed.

Lemma holds_cache i D c : holds i D -> jwf c -> (forall t m, jget c t = Some m -> m = base_post i t) -> holds (with_cache i c) D.
Proof. intros [H1 [H2 _] H3 H4 H5 H6] Hw Hc. by split; [|split| | | |]. Qed.

Lemma readBase_spec i D t : holds i D -> exists c, readBase cacheTerms short i t = Ok (base_post i t, with_cache i c) /\ holds (with_cache i c) D.
Proof.
  intros H. destruct (ho_base _ _ H) as [H1 [H2 H3]]. unfold readBase, base_post. destruct (tx_base i) as [m|p pf] eqn:Eb.
  { exists (cache i). rewrite with_cache_same. done. }
  assert (Ebp : forall t, base_post i t = match jget p t, pf with
    | Some e, Some file => match read short file e with Ok l => map_of l | Err _ => [] end | _, _ => [] end) by (intros t'; unfold base_post; by rewrite Eb).
  destruct (jget (cache i) t) as [m|] eqn:Ec.
  - exists (jset (jdel (cache i) t) t m). pose proof (H3 t m Ec) as Hm. rewrite Ebp in Hm. rewrite <- Hm. split; [done|].
    apply holds_cache; [done|by apply jwf_set, jwf_del|]. intros t' m'. rewrite jget_set, jget_del by done.
    destruct (decide (t = t')) as [<-|]; [intros [= <-]; by apply H3|apply H3].
  - assert (Hr : exists arr, match jget p t, pf with Some e, Some file => read short file e | _, _ => Ok [] end = Ok arr /\ map_of arr = base_post i t).
    { rewrite Ebp. destruct (jget p t) as [e|] eqn:Ee; [|by exists []]. destruct pf as [file|]; [|by exists []].
      destruct (H1 t e Ee) as [l Hl]. rewrite Hl. by exists l. }
    destruct Hr as (arr & -> & Harr). cbn [rbind]. rewrite <- Ebp, Harr.
    assert (Hset : jwf (jset (cache i) t (base_post i t)) /\ forall t' m, jget (jset (cache i) t (base_post i t)) t' = Some m -> m = base_post i t').
    { split; [by apply jwf_set|]. intros t' m. rewrite jget_set. destruct (decide (t = t')) as [<-|]; [by intros [= <-]|apply H3]. }
    destruct Hset as [Hs1 Hs2]. destruct (0 <? cacheTerms).
    2: { exists (cache i). rewrite with_cache_same. done. }
    eexists. split; [done|]. destruct (cacheTerms <? _); [|by apply holds_cache].
    destruct (jset (cache i) t (base_post i t)) as [|[oldest x] c] eqn:El; [by apply holds_cache|].
    apply holds_cache; [done|by apply jwf_del|]. intros t' m. rewrite jget_del by done. case_decide; [done|apply Hs2].
Qed.

Lemma keep_spec (rm : list Z) (m : list (Z * Z)) : forall out, jwf m -> jwf out ->
  let r := fold_left (fun out '(id, f) => if decide (id ∈ rm) then out else jset out id f) m out in
  jwf r /\ forall id, jget r id = match (if decide (id ∈ rm) then None else jget m id) with Some f => Some f | None => jget out id end.
Proof.
  induction m as [|[k v] m IH]; intros out Hm Ho; cbn [fold_left].
  { split; [done|]. intros id. by case_decide. }
  apply NoDup_cons in Hm as [Hk Hm]. cbn in Hk. destruct (decide (k ∈ rm)) as [Hr|Hr].
  - destruct (IH out Hm Ho) as [H1 H2]. split; [done|]. intros id. rewrite H2. cbn [jget]. destruct (decide (id ∈ rm)) as [|Hn]; [done|].
    rewrite decide_False; [done|]. congruence.
  - destruct (IH (jset out k v) Hm ltac:(by apply jwf_set)) as [H1 H2]. split; [done|]. intros id. rewrite H2. cbn [jget]. rewrite jget_set.
    destruct (decide (k = id)) as [<-|Hne]; [|done]. rewrite !decide_False by done. by rewrite (proj2 (jget_None m k) Hk).
Qed.

Lemma livePostings_spec i D t : holds i D -> exists c m, livePostings cacheTerms short i t = Ok (m, with_cache i c) /\ holds (with_cache i c) D /\
  jwf m /\ forall id, jget m id = posting i t id.
Proof.
  intros H. destruct (readBase_spec i D t H) as (c & Er & Hc). unfold livePostings. rewrite Er. cbn [rbind fst snd].
  destruct (ho_lists _ _ H t) as [Hd Hb]. eexists c, _. split; [done|]. split; [done|]. unfold merge_live, posting, post_at in *.
  case_bool_decide as Hrm; cbn [andb].
  - rewrite Hrm. assert (Hz : forall id : Z, (if decide (id ∈ @nil Z) then @None Z else
      match jget (default [] (jget (delta i) t)) id with Some f => Some f | None => jget (base_post i t) id end) =
      match jget (default [] (jget (delta i) t)) id with Some f => Some f | None => jget (base_post i t) id end).
    { intros id. by rewrite decide_False by apply not_elem_of_nil. }
    destruct (jget (delta i) t) as [d|]; cbn [default from_option] in *; unfold Datatypes.id in *.
    + destruct (keep_spec [] (base_post i t) [] Hb jwf_nil) as [K1 K2]. destruct (keep_spec [] d _ Hd K1) as [K3 K4]. split; [exact K3|].
      intros id. rewrite Hz, K4, K2. rewrite !decide_False by apply not_elem_of_nil. cbn [jget]. destruct (jget d id) as [f|]; [done|]. by destruct (jget (base_post i t) id).
    + split; [done|]. intros id. by rewrite Hz.
  - destruct (keep_spec (removed i) (base_post i t) [] Hb jwf_nil) as [K1 K2]. destruct (jget (delta i) t) as [d|]; cbn [default from_option] in *; unfold Datatypes.id in *.
    + destruct (keep_spec (removed i) d _ Hd K1) as [K3 K4]. split; [exact K3|]. intros id. rewrite K4, K2. cbn [jget].
      destruct (decide (id ∈ removed i)); [done|]. destruct (jget d id) as [f|]; [done|]. by destruct (jget (base_post i t) id).
    + split; [done|]. intros id. rewrite K2. cbn [jget]. destruct (decide (id ∈ removed i)); [done|]. by destruct (jget (base_post i t) id).
Qed.

Lemma term_maps_spec D terms : forall i maps, holds i D -> NoDup terms -> (forall t, t ∈ terms -> jget maps t = None) ->
  exists maps' c, term_maps cacheTerms short i terms maps = Ok (maps', with_cache i c) /\ holds (with_cache i c) D /\
    jkeys maps' = jkeys maps ++ terms /\ (forall t, t ∉ terms -> jget maps' t = jget maps t) /\
    (forall t, t ∈ terms -> exists m, jget maps' t = Some m /\ jwf m /\ forall id, jget m id = posting i t id).
Proof.
  induction terms as [|t terms IH]; intros i maps H Hnd Hnew; cbn [term_maps].
  { exists maps, (cache i). rewrite with_cache_same, app_nil_r. split_and!; try done. by intros t ?%elem_of_nil. }
  apply NoDup_cons in Hnd as [Hn Hnd]. destruct (livePostings_spec i D t H) as (c & m & -> & Hc & Hm & Hpost). cbn [rbind fst snd].
  destruct (IH (with_cache i c) (jset maps t m) Hc Hnd) as (maps' & c' & E & Hc' & Hk & Hout & Hin).
  { intros t' Ht'. rewrite jget_set. destruct (decide (t = t')) as [<-|]; [done|]. apply Hnew. by right. }
  exists maps', c'. rewrite E. split_and!; [done|exact Hc'| | |].
  - rewrite Hk. rewrite (jset_new maps t m) by (apply Hnew; by left). unfold jkeys. rewrite fmap_app, <- app_assoc. done.
  - intros t' [Hne Hnt]%not_elem_of_cons. rewrite Hout by done. by rewrite jget_set_ne by congruence.
  - intros t' [->|Ht']%elem_of_cons; [|by apply Hin]. exists m. split_and!; [|done|exact Hpost]. rewrite Hout by done. apply jget_set_eq.
Qed.

(** ** Sorting and candidates *)

Lemma insert_by_perm {A} (le : A -> A -> bool) x l : insert_by le x l ≡ₚ x :: l.
Proof. induction l as [|y l IH]; cbn; [done|]. destruct (le x y); [done|]. rewrite IH. apply perm_swap. Qed.

Lemma sort_by_perm {A} (le : A -> A -> bool) l : sort_by le l ≡ₚ l.
Proof. induction l as [|x l IH]; cbn; [done|]. by rewrite insert_by_perm, IH. Qed.

Lemma insert_by_sorted {A} (le : A -> A -> bool) x l :
  (forall a b, le a b = false -> le b a = true) -> (forall a b c, le a b = true -> le b c = true -> le a c = true) ->
  StronglySorted (fun a b => le a b = true) l -> StronglySorted (fun a b => le a b = true) (insert_by le x l).
Proof.
  intros Ht Htr. induction l as [|y l IHl]; intros Hs; cbn; [by repeat constructor|]. pose proof Hs as [Hs' Hy]%StronglySorted_inv.
  destruct (le x y) eqn:E; constructor; [done| |by apply IHl|].
  - constructor; [done|]. eapply Forall_impl; [exact Hy|]. intros z. by apply Htr.
  - rewrite insert_by_perm. constructor; [by apply Ht|done].
Qed.

Lemma sort_by_sorted {A} (le : A -> A -> bool) l :
  (forall a b, le a b = false -> le b a = true) -> (forall a b c, le a b = true -> le b c = true -> le a c = true) ->
  StronglySorted (fun a b => le a b = true) (sort_by le l).
Proof. intros Ht Htr. induction l as [|x l IH]; [constructor|]. by apply insert_by_sorted. Qed.

Lemma fold_zadd_spec l : forall c, NoDup c -> NoDup (fold_left zadd l c) /\ forall id, id ∈ fold_left zadd l c <-> id ∈ c \/ id ∈ l.
Proof.
  induction l as [|x l IH]; intros c Hc; cbn [fold_left]; [set_solver|].
  destruct (IH (zadd c x)) as [H1 H2].
  { unfold zadd. case_decide; [done|]. apply NoDup_app. split_and!; [done|set_solver|apply NoDup_singleton]. }
  split; [done|]. intros id. rewrite H2, elem_of_zadd. set_solver.
Qed.

Lemma is_Some_keys {V} (m : list (Z * V)) id : id ∈ m.*1 <-> is_Some (jget m id).
Proof.
  destruct (jget m id) eqn:E; [|split; [|by intros []]; intros Hin; by apply jget_None in E].
  split; [by eexists|]. intros _. apply jget_Some_in in E. by apply (list_elem_of_fmap_2 fst _ (id, v)).
Qed.

Lemma candidates_spec op maps : maps <> [] -> Forall jwf maps ->
  NoDup (candidates_of op maps) /\
  forall id, id ∈ candidates_of op maps <->
    match op with And => forall m, m ∈ maps -> is_Some (jget m id) | Or => exists m, m ∈ maps /\ is_Some (jget m id) end.
Proof.
  intros Hne Hw. destruct op; cbn [candidates_of].
  - destruct (existsb _ maps) eqn:E.
    + split; [constructor|]. intros id. split; [by intros ?%elem_of_nil|]. intros Hall. apply existsb_exists in E as (m & Hin & Em).
      apply bool_decide_eq_true in Em. subst m. apply list_elem_of_In in Hin. destruct (Hall [] Hin) as [? ?]. done.
    + clear E. pose proof (sort_by_perm (fun a b : list (Z * Z) => blen a <=? blen b) maps) as Hp. 
      destruct (sort_by _ maps) as [|m ms]; [by apply Permutation_nil_l in Hp|]. rewrite <- Hp in Hw.
      assert (Hwm : jwf m) by (by apply Forall_cons in Hw as [? _]).
      assert (Hf : forall ms c, NoDup c -> NoDup (fold_left (fun c m => filter (fun id => is_Some (jget m id)) c) ms c) /\
        forall id : Z, id ∈ fold_left (fun c (m : list (Z * Z)) => filter (fun id => is_Some (jget m id)) c) ms c <->
          id ∈ c /\ forall m, m ∈ ms -> is_Some (jget m id)).
      { clear. induction ms as [|m ms IH]; intros c Hc; cbn [fold_left]; [set_solver|].
        destruct (IH (filter (fun id => is_Some (jget m id)) c) (NoDup_filter _ _ Hc)) as [H1 H2]. split; [done|]. intros id.
        rewrite H2, list_elem_of_filter. set_solver. }
      destruct (Hf ms m.*1 Hwm) as [F1 F2]. split; [exact F1|]. intros id. rewrite F2, is_Some_keys.
      setoid_rewrite <- Hp. set_solver.
  - assert (Hf : forall maps c, NoDup c -> NoDup (fold_left (fun c (m : list (Z * Z)) => fold_left zadd m.*1 c) maps c) /\
      forall id : Z, id ∈ fold_left (fun c (m : list (Z * Z)) => fold_left zadd m.*1 c) maps c <-> id ∈ c \/ exists m, m ∈ maps /\ is_Some (jget m id)).
    { clear maps Hne Hw. induction maps as [|m maps IH]; intros c Hc; cbn [fold_left]; [set_solver|].
      destruct (fold_zadd_spec m.*1 c Hc) as [H1 H2]. destruct (IH _ H1) as [H3 H4]. split; [done|]. intros id. rewrite H4, H2, is_Some_keys. set_solver. }
    destruct (Hf maps [] (NoDup_nil_2)) as [F1 F2]. split; [exact F1|]. intros id. rewrite F2. set_solver.
Qed.

(** ** Scores *)

(** [Math.log] is positive above 1. *)
Definition log_positive : Prop := forall x, (1 < x)%Q -> (0 < log x)%Q.

Lemma fold_score (g : jsstr -> Z) (h : jsstr -> Q) l : (forall t, t ∈ l -> g t <> 0 -> (0 < h t)%Q) -> forall s0,
  (s0 <= fold_left (fun s t => if g t =? 0 then s else (s + h t)%Q) l s0)%Q /\
  ((exists t, t ∈ l /\ g t <> 0) -> (s0 < fold_left (fun s t => if g t =? 0 then s else (s + h t)%Q) l s0)%Q).
Proof.
  intros Hp. induction l as [|t l IH]; intros s0; cbn [fold_left].
  { split; [apply Qle_refl|]. intros (t & Ht & _). by apply elem_of_nil in Ht. }
  assert (Hp' : forall t', t' ∈ l -> g t' <> 0 -> (0 < h t')%Q) by (intros t' Ht'; apply Hp; by right).
  destruct (Z.eqb_spec (g t) 0) as [E|E].
  - destruct (IH Hp' s0) as [H1 H2]. split; [exact H1|]. intros (t' & [->|Ht']%elem_of_cons & Hg); [done|]. apply H2. by exists t'.
  - destruct (IH Hp' (s0 + h t)%Q) as [H1 _]. assert (H0 : (s0 < s0 + h t)%Q).
    { rewrite <- (Qplus_0_r s0) at 1. apply Qplus_lt_r. apply Hp; [by left|done]. }
    split; [apply Qlt_le_weak|intros _]; by eapply Qlt_le_trans.
Qed.

Lemma Qdiv_pos a b : 0 < a -> 0 < b -> (0 < inject_Z a / inject_Z b)%Q.
Proof.
  intros Ha Hb. assert (Hz : forall z, 0 < z -> (0 < inject_Z z)%Q) by (intros z Hz; change 0%Q with (inject_Z 0); by rewrite <- Zlt_Qlt).
  unfold Qdiv. apply Qmult_lt_0_compat; [by apply Hz|]. by apply Qinv_lt_0_compat, Hz.
Qed.

(** The maps of the query's terms. *)
Definition maps_ok (i : text_index) (qtokens : list jsstr) (maps : list (jsstr * list (Z * Z))) : Prop :=
  forall t, t ∈ qtokens -> exists m, jget maps t = Some m /\ jwf m /\ forall id, jget m id = posting i t id.

Lemma score_positive i D qtokens maps id t :
  log_positive -> holds i D -> maps_ok i qtokens maps -> t ∈ qtokens -> is_Some (posting i t id) ->
  (0 < score_of log i maps qtokens id)%Q.
Proof.
  intros Hlog H Hm Ht [f Hf]. pose proof (ho_docs _ _ H) as Hd. destruct (ds_live _ _ _ _ _ Hd t id f Hf) as [key Hkey].
  assert (Hdoc : exists doc, D key = Some doc) by (apply (ds_dom _ _ _ _ _ Hd); by eexists). destruct Hdoc as [doc Hdoc].
  destruct (ds_doc _ _ _ _ _ Hd key id doc Hkey Hdoc) as [Hlen Hpost].
  assert (Hpos : forall t' f', posting i t' id = Some f' -> 0 < f') by (intros t' f' E; rewrite Hpost in E; by eapply count_pos).
  assert (Hl : 0 < blen (tokens_of doc)).
  { rewrite Hpost in Hf. destruct (count_tokens_spec (tokens_of doc)) as [_ Hs]. rewrite Hs in Hf. case_decide as Hin; [|done].
    destruct (tokens_of doc); [by apply elem_of_nil in Hin|]. unfold blen. cbn. lia. }
  assert (HN : 0 < live_docs i).
  { rewrite (ho_N _ _ H). unfold blen. destruct (keyToId i); [done|]. cbn. lia. }
  unfold score_of. rewrite Hlen. cbn [default from_option]. unfold Datatypes.id.
  apply (fold_score (fun t => default 0 (jget (default [] (jget maps t)) id))
    (fun t => (inject_Z (default 0%Z (jget (default [] (jget maps t)) id)) / inject_Z (blen (tokens_of doc)) * idf log i (blen (default [] (jget maps t))))%Q)).
  - intros t' Ht' Hne. destruct (Hm t' Ht') as (m & E & _ & Hmp). rewrite E in *. cbn [default from_option] in *. unfold Datatypes.id in *.
    rewrite Hmp in *. destruct (posting i t' id) as [f'|] eqn:E'; [|done]. cbn in Hne |- *. pose proof (Hpos t' f' E').
    assert (Hb : 0 < blen m). { destruct m; [cbn in Hmp; rewrite <- Hmp in E'; done|]. unfold blen. cbn. lia. }
    apply Qmult_lt_0_compat; [by apply Qdiv_pos|]. unfold idf. apply Hlog. rewrite (proj2 (Z.eqb_neq _ _)) by lia.
    rewrite <- (Qplus_0_r 1) at 1. apply Qplus_lt_r. by apply Qdiv_pos.
  - exists t. split; [done|]. destruct (Hm t Ht) as (m & E & _ & Hmp). rewrite E. cbn [default from_option]. unfold Datatypes.id. rewrite Hmp, Hf. cbn.
    specialize (Hpos t f Hf). lia.
Qed.

Lemma hits_spec i D qtokens maps candidates :
  holds i D -> NoDup candidates ->
  Forall (fun id => (0 < score_of log i maps qtokens id)%Q /\ exists key, jget (keyToId i) key = Some id) candidates ->
  NoDup (hits log i maps qtokens candidates).*1 /\
  forall key, key ∈ (hits log i maps qtokens candidates).*1 <-> exists id, id ∈ candidates /\ jget (keyToId i) key = Some id.
Proof.
  intros H Hnd Hc. pose proof (ho_docs _ _ H) as Hd. unfold hits. induction Hc as [|id candidates [Hs [key Hkey]] Hc IH]; cbn [omap list_omap].
  { split; [constructor|]. intros key. split; [by intros ?%elem_of_nil|]. by intros (id & ?%elem_of_nil & _). }
  apply NoDup_cons in Hnd as [Hn Hnd]. destruct (IH Hnd) as [H1 H2].
  assert (E : Qle_bool (score_of log i maps qtokens id) 0 = false).
  { destruct (Qle_bool _ 0) eqn:E; [|done]. apply Qle_bool_iff in E. by apply Qlt_not_le in Hs. }
  rewrite E. destruct (ds_keys _ _ _ _ _ Hd key id Hkey) as [_ Hl]. rewrite Hl. change (default None (Some (Some key))) with (Some key). cbn [negb fmap list_fmap fst].
  split.
  - constructor; [|exact H1]. intros Hin. apply H2 in Hin as (id' & Hin & Hk). cbn [fst] in Hk. rewrite Hkey in Hk. injection Hk as ->. done.
  - intros key'. rewrite elem_of_cons, H2. split.
    + intros [->|(id' & Hin & Hk)]; [exists id; split; [by left|done]|exists id'; split; [by right|done]].
    + intros (id' & [->|Hin]%elem_of_cons & Hk); [left; by apply (describes_inj _ _ _ _ _ _ _ _ Hd Hk Hkey)|right; by exists id'].
Qed.

Lemma fold_sadd l : forall s, NoDup s -> NoDup (fold_left sadd l s) /\ forall x, x ∈ fold_left sadd l s <-> x ∈ s \/ x ∈ l.
Proof.
  induction l as [|y l IH]; intros s Hs; cbn [fold_left]; [split; [done|]; intros x; rewrite elem_of_nil; naive_solver|].
  destruct (IH (sadd s y) (NoDup_sadd _ _ Hs)) as [H1 H2]. split; [done|]. intros x. rewrite H2, elem_of_sadd, elem_of_cons. naive_solver.
Qed.

Lemma posting_token i D key id doc t :
  holds i D -> jget (keyToId i) key = Some id -> D key = Some doc -> is_Some (posting i t id) <-> t ∈ tokens_of doc.
Proof.
  intros H Hk Hd. destruct (ds_doc _ _ _ _ _ (ho_docs _ _ H) key id doc Hk Hd) as [_ ->].
  destruct (count_tokens_spec (tokens_of doc)) as [_ Hs]. rewrite Hs. case_decide; [split; [done|by eexists]|]. split; [by intros []|done].
Qed.

Definition matches (op : search_op) (query : list jsstr) (doc : json) : Prop :=
  match op with And => forall t, t ∈ query -> t ∈ tokens_of doc | Or => exists t, t ∈ query /\ t ∈ tokens_of doc end.

Lemma text_search_spec i D query op :
  log_positive -> holds i D ->
  exists l c, (forall limit, search queryTokenizer cacheTerms short log i query op limit =
      Ok (match limit with Some n => take (Z.to_nat n) l | None => l end, with_cache i c)) /\ holds (with_cache i c) D /\
    NoDup l.*1 /\ StronglySorted (fun a b => (b.2 <= a.2)%Q) l /\
    forall key, key ∈ l.*1 <-> queryTokenizer query <> [] /\ exists doc, D key = Some doc /\ matches op (queryTokenizer query) doc.
Proof.
  intros Hlog H. unfold search. set (qt := fold_left sadd (queryTokenizer query) []).
  destruct (fold_sadd (queryTokenizer query) [] NoDup_nil_2) as [Hq1 Hq2]. fold qt in Hq1, Hq2.
  assert (Hqt : forall x, x ∈ qt <-> x ∈ queryTokenizer query) by (intros x; rewrite Hq2, elem_of_nil; naive_solver). clear Hq2.
  case_bool_decide as Hnil.
  { exists [], (cache i). rewrite with_cache_same. split_and!; [by intros [n|]; rewrite ?take_nil|done|constructor|constructor|].
    intros key. split; [by intros ?%elem_of_nil|]. intros [Hne _]. destruct (queryTokenizer query) as [|x q]; [done|].
    assert (Hx : x ∈ qt) by (apply Hqt; by left). rewrite Hnil in Hx. by apply elem_of_nil in Hx. }
  destruct (term_maps_spec D qt i [] H Hq1) as (maps & c & -> & Hc & Hkeys & _ & Hmaps); [done|]. cbn [rbind fst snd].
  change (jkeys maps = qt) in Hkeys. set (i' := with_cache i c) in *. assert (Hmok : maps_ok i' qt maps) by exact Hmaps.
  assert (Hvals : forall m, m ∈ maps.*2 <-> exists t, t ∈ qt /\ jget maps t = Some m).
  { assert (Hmw : jwf maps) by (unfold jwf; by rewrite Hkeys). intros m. split.
    - intros ([t m'] & -> & Hin)%list_elem_of_fmap. exists t. split; [|by apply jget_in]. rewrite <- Hkeys. by apply (list_elem_of_fmap_2 fst _ (t, m')).
    - intros (t & _ & Hm). apply jget_Some_in in Hm. by apply (list_elem_of_fmap_2 snd _ (t, m)). }
  assert (Hne : maps.*2 <> []).
  { destruct qt as [|t qt']; [done|]. destruct (Hmaps t ltac:(by left)) as (m & Hm & _). assert (Hin : m ∈ maps.*2) by (apply Hvals; exists t; split; [by left|done]).
    intros E. rewrite E in Hin. by apply elem_of_nil in Hin. }
  destruct (candidates_spec op maps.*2 Hne) as [C1 C2].
  { apply Forall_forall. intros m (t & Ht & Hm)%Hvals. destruct (Hmaps t Ht) as (m' & Hm' & Hw & _). congruence. }
  assert (Hcand : forall id, id ∈ candidates_of op maps.*2 <->
    match op with And => forall t, t ∈ qt -> is_Some (posting i t id) | Or => exists t, t ∈ qt /\ is_Some (posting i t id) end).
  { intros id. rewrite C2. destruct op.
    - split.
      + intros Ha t Ht. destruct (Hmaps t Ht) as (m & Hm & _ & <-). apply Ha, Hvals. by exists t.
      + intros Ha m (t & Ht & Hm)%Hvals. destruct (Hmaps t Ht) as (m' & Hm' & _ & Hp). rewrite Hm in Hm'. injection Hm' as <-. rewrite Hp. by apply Ha.
    - split.
      + intros (m & (t & Ht & Hm)%Hvals & Hs). exists t. split; [done|]. destruct (Hmaps t Ht) as (m' & Hm' & _ & <-). congruence.
      + intros (t & Ht & Hs). destruct (Hmaps t Ht) as (m & Hm & _ & Hp). exists m. split; [apply Hvals; by exists t|]. by rewrite Hp. }
  assert (Hlive : forall id, id ∈ candidates_of op maps.*2 -> exists t, t ∈ qt /\ is_Some (posting i t id)).
  { intros id Hin. apply Hcand in Hin. destruct op; [|done]. destruct qt as [|t qt']; [done|]. exists t. split; [by left|]. apply Hin. by left. }
  destruct (hits_spec i' D qt maps (candidates_of op maps.*2) Hc C1) as [H1 H2].
  { apply Forall_forall. intros id Hin. destruct (Hlive id Hin) as (t & Ht & Hs). split; [by eapply (score_positive i' D qt maps id t)|].
    destruct Hs as [f Hf]. by apply (ds_live _ _ _ _ _ (ho_docs _ _ H) t id f). }
  set (hs := hits log i' maps qt (candidates_of op maps.*2)) in *. set (le := fun a b : jsstr * Q => Qle_bool b.2 a.2).
  exists (sort_by le hs), c. split; [done|]. split; [exact Hc|]. split; [by rewrite sort_by_perm|]. split.
  - assert (Hs : StronglySorted (fun a b => le a b = true) (sort_by le hs)).
    { apply sort_by_sorted; unfold le.
      - intros a b E. apply Qle_bool_iff. apply Qlt_le_weak, Qnot_le_lt. intros Hle. apply Qle_bool_iff in Hle. congruence.
      - intros a b d E1%Qle_bool_iff E2%Qle_bool_iff. apply Qle_bool_iff. by eapply Qle_trans. }
    clear -Hs. induction Hs as [|x l _ IH Hx]; constructor; [done|]. eapply Forall_impl; [exact Hx|]. intros y. apply Qle_bool_iff.
  - intros key. rewrite sort_by_perm, H2. split.
    + intros (id & Hin & Hk). split.
      { intros E. destruct (Hlive id Hin) as (t & Ht & _). apply Hqt in Ht. rewrite E in Ht. by apply elem_of_nil in Ht. }
      assert (Hdoc : exists doc, D key = Some doc) by (apply (ds_dom _ _ _ _ _ (ho_docs _ _ H)); by eexists). destruct Hdoc as [doc Hdoc].
      exists doc. split; [done|]. apply Hcand in Hin. destruct op; cbn.
      * intros t Ht. apply (posting_token i D key id doc t H Hk Hdoc), Hin, Hqt, Ht.
      * destruct Hin as (t & Ht & Hs). exists t. split; [by apply Hqt|]. by apply (posting_token i D key id doc t H Hk Hdoc).
    + intros [_ (doc & Hdoc & Hm)]. assert (Hk : is_Some (jget (keyToId i) key)) by (apply (ds_dom _ _ _ _ _ (ho_docs _ _ H)); by eexists).
      destruct Hk as [id Hk]. exists id. split; [|done]. apply Hcand. destruct op; cbn in Hm.
      * intros t Ht. apply (posting_token i D key id doc t H Hk Hdoc), Hm, Hqt, Ht.
      * destruct Hm as (t & Ht & Hin). exists t. split; [by apply Hqt|]. by apply (posting_token i D key id doc t H Hk Hdoc).
Qed.

(** ** Runs *)

Lemma holds_ext i D D' : (forall k, D k = D' k) -> holds i D -> holds i D'.
Proof. intros HD [H1 H2 H3 H4 H5 H6]. split; [by eapply describes_ext|done..]. Qed.

(** The index and the documents given to it last, builds included. *)
Inductive reach : text_index -> docs -> Prop :=
| reach_start base :
    match base with MemBase m => m = [] | DiskBase p pf => p = [] /\ pf = None end -> reach (empty_index base) (fun _ => None)
| reach_add i D key doc : reach i D -> reach (add i key doc) (upd D key (Some doc))
| reach_remove i D key : reach i D -> reach (remove i key) (upd D key None)
| reach_search i D query op limit r i' :
    reach i D -> search queryTokenizer cacheTerms short log i query op limit = Ok (r, i') -> reach i' D
| reach_build_start i D i' : reach i D -> build_start i = Some i' -> reach i' D
| reach_build_abort i D : reach i D -> reach (build_abort i) D
| reach_build_finish i D q entries i' :
    reach i D -> buildQueue i = Some q ->
    (* the iteration has each key once, those not written meanwhile with their document *)
    jwf entries -> (forall key, key ∉ op_key <$> q -> jget entries key = D key) ->
    (match tx_base i with
     | DiskBase _ _ => fits_all (stage_all fields tokenizer entries) /\ blen entries <= 2 ^ 32
     | MemBase _ => True
     end) ->
    build_finish fields tokenizer short utf8 i entries = Ok i' -> reach i' D.

Lemma replayed_snoc key q op v :
  replayed key (q ++ [op]) v = match op with
    | BuildAdd k d => if decide (k = key) then Some d else replayed key q v
    | BuildRemove k => if decide (k = key) then None else replayed key q v
    end.
Proof. unfold replayed. rewrite fold_left_app. by destruct op. Qed.

Lemma queue_ok_write i i' D op D' :
  buildQueue i' = (fun q => q ++ [op]) <$> buildQueue i -> queue_ok i D ->
  D' (op_key op) = match op with BuildAdd _ d => Some d | BuildRemove _ => None end -> (forall k, k <> op_key op -> D' k = D k) ->
  queue_ok i' D'.
Proof.
  unfold queue_ok. intros -> Hq Hat Ho. destruct (buildQueue i) as [q|]; [|done]. cbn [fmap option_fmap option_map]. intros key v Hv. rewrite replayed_snoc.
  assert (Hgo : key <> op_key op -> replayed key q v = D' key).
  { intros Hne. rewrite (Ho key Hne). apply Hq. intros Hn. rewrite Hv; [by apply Ho|]. rewrite fmap_app, elem_of_app. cbn.
    intros [?|?%list_elem_of_singleton]; done. }
  destruct op as [k d|k]; cbn in *; (destruct (decide (k = key)) as [<-|Hne]; [done|apply Hgo; congruence]).
Qed.

Lemma removeInner_queue i key : buildQueue (removeInner i key) = buildQueue i.
Proof. unfold removeInner. by destruct (jget (keyToId i) key). Qed.

Lemma add_queue i key doc : buildQueue (add i key doc) = (fun q => q ++ [BuildAdd key doc]) <$> buildQueue i.
Proof. unfold add, TextSearch.add. cbn [buildQueue]. case_match; [by rewrite removeInner_queue|done]. Qed.

Lemma remove_queue i key : buildQueue (remove i key) = (fun q => q ++ [BuildRemove key]) <$> buildQueue i.
Proof. unfold remove. by rewrite removeInner_queue. Qed.

Lemma upd_at D key o : upd D key o key = o.
Proof. unfold upd. by rewrite decide_True. Qed.

Lemma upd_ne D key o k : k <> key -> upd D key o k = D k.
Proof. intros. unfold upd. by rewrite decide_False. Qed.

Lemma reach_ok i D : progress short -> log_positive -> reach i D -> holds i D /\ queue_ok i D.
Proof.
  intros Hpr Hlog. induction 1 as [base Hb|i D key doc _ [H Hq]|i D key _ [H Hq]|i D query op limit r i' _ [H Hq] Hs
    |i D i' _ [H Hq] Hs|i D _ [H Hq]|i D q entries i' _ [H Hq] Hbq Hw He Hfit Hs].
  - split; [|done]. assert (Hp : forall t, base_post (empty_index base) t = []).
    { intros t. unfold base_post. destruct base as [m|p pf]; cbn in *; [by subst|by destruct Hb as [-> ->]]. }
    split.
    + split; [apply jwf_nil|apply jwf_nil|done|intros key; cbn; done|done|]. intros t id f. unfold posting. cbn. rewrite Hp. cbn. by case_decide.
    + split; [|split; [apply jwf_nil|done]]. destruct base as [m|p [file|]]; cbn in *; try done. by destruct Hb.
    + apply jwf_nil.
    + intros t. rewrite Hp. split; apply jwf_nil.
    + intros id _. split; [apply not_elem_of_nil|]. intros t. by rewrite Hp.
    + done.
  - split; [by apply add_holds|]. apply (queue_ok_write i _ D (BuildAdd key doc)); [apply add_queue|done|apply upd_at|]. intros k. apply upd_ne.
  - split; [by apply remove_holds|]. apply (queue_ok_write i _ D (BuildRemove key)); [apply remove_queue|done|apply upd_at|]. intros k. apply upd_ne.
  - destruct (text_search_spec i D query op Hlog H) as (l & c & E & Hc & _). rewrite E in Hs. injection Hs as <- <-. by split.
  - unfold build_start in Hs. destruct (buildQueue i) eqn:E; [done|]. injection Hs as <-. split.
    + destruct H as [H1 [H2 H2'] H3 H4 H5 H6]. by split; [|split| | | |].
    + intros key v Hv. cbn. apply Hv, not_elem_of_nil.
  - split; [|done]. destruct H as [H1 [H2 H2'] H3 H4 H5 H6]. by split; [|split| | | |].
  - destruct (stage_all_ok entries Hw) as [Hst Hlen]. set (s := stage_all fields tokenizer entries) in *.
    assert (HD : forall key, replayed key (default [] (buildQueue i)) (jget entries key) = D key).
    { intros key. unfold queue_ok in Hq. rewrite Hbq in Hq |- *. cbn. apply Hq. intros Hn. by apply He. }
    assert (Hn : blen entries = blen (newKeyToId s)) by (rewrite <- Hlen; apply (so_n _ _ Hst)).
    unfold build_finish in Hs. fold s in Hs. destruct (tx_base i) as [m|p pf].
    + injection Hs as <-. destruct (swapped_holds s (jget entries) i (MemBase (agg s)) (blen entries) Hst Hn) as [Hh Hqn].
      { split; [split; [done|split; [apply jwf_nil|done]]|done]. }
      split; [exact (holds_ext _ _ _ HD Hh)|]. unfold queue_ok. by rewrite Hqn.
    + destruct Hfit as [Hfit Hn32].
      destruct (rebuilt_base s (jget entries) (newKeys s) (newKeyToId s) (newDocLen s) (blen entries) Hpr Hst Hfit) as (fd & dict & E & Hb); [by rewrite Hlen|].
      rewrite E in Hs. cbn [rbind fst snd] in Hs. injection Hs as <-.
      destruct (swapped_holds s (jget entries) i (DiskBase dict (Some fd)) (blen entries) Hst Hn Hb) as [Hh Hqn].
      split; [exact (holds_ext _ _ _ HD Hh)|]. unfold queue_ok. by rewrite Hqn.
Qed.

(** C37. Search is exact: after any sequence of additions, removals, searches and rebuilds
    (aborted ones and writes landing during a rebuild included), on a postings file or in
    memory, a search returns each matching key once (a document matches when it has all,
    or any, of the query's tokens), best score first; a limit keeps the first ones. The
    iteration of a rebuild is taken to visit each key once: a key deleted and set again
    while it runs is visited twice by a live [Map], which is left out. *)
Theorem text_search_exact i D query op :
  progress short -> log_positive -> reach i D ->
  exists l i', (forall limit, search queryTokenizer cacheTerms short log i query op limit =
      Ok (match limit with Some n => take (Z.to_nat n) l | None => l end, i')) /\
    NoDup l.*1 /\ StronglySorted (fun a b => (b.2 <= a.2)%Q) l /\
    forall key, key ∈ l.*1 <-> queryTokenizer query <> [] /\ exists doc, D key = Some doc /\ matches op (queryTokenizer query) doc.
Proof.
  intros Hpr Hlog Hr. destruct (reach_ok i D Hpr Hlog Hr) as [H _]. destruct (text_search_spec i D query op Hlog H) as (l & c & E & _ & H3).
  by exists l, (with_cache i c).
Qed.

(** The interface the database relies on. *)
#[export] Instance text_index_api : TextIndex text_index := {|
  ti_add := fun i k d => add i k d;
  ti_remove := remove;
  ti_holds := holds;
|}.

#[export] Instance text_index_laws : TextIndexLaws text_index.
Proof. split; [intros; by apply add_holds|intros; by apply remove_holds|intros x D D' E; by apply holds_ext]. Qed.
End correct.

(** * A concrete run: two documents, a rebuild during which a third arrives, a removal *)

Definition text_tokenizer : jsstr -> list jsstr := tokenize id.
Definition text_doc (s : string) : json := JObject [(js "body", JString (js s))].
Definition text_utf8 : jsstr -> buffer := fmap (fun u => z2b (Z.of_N u)).
Definition text_short (pos n : Z) : Z := n `min` 7.
Definition text_log (x : Q) : Q := (x - 1)%Q.

Definition text_add (i : text_index) (k s : string) : text_index := add None text_tokenizer i (js k) (text_doc s).
Definition text_before : text_index := text_add (text_add (empty_index (DiskBase [] None)) "a" "red fish") "b" "blue fish fish".
Definition text_started : text_index := match build_start text_before with Some i => i | None => text_before end.
Definition text_building : text_index := text_add text_started "c" "red rose".
Definition text_entries : list (jsstr * json) := [(js "a", text_doc "red fish"); (js "b", text_doc "blue fish fish")].
Definition text_built : text_index :=
  match build_finish None text_tokenizer text_short text_utf8 text_building text_entries with Ok i => i | Err _ => text_building end.
Definition text_now : text_index := remove text_built (js "a").

Definition text_docs : jsstr -> option json :=
  upd (upd (upd (upd (fun _ => None) (js "a") (Some (text_doc "red fish"))) (js "b") (Some (text_doc "blue fish fish")))
    (js "c") (Some (text_doc "red rose"))) (js "a") None.

Lemma text_reach : reach None text_tokenizer text_tokenizer 2 text_short text_utf8 text_log text_now text_docs.
Proof.
  apply reach_remove. eapply (reach_build_finish _ _ _ _ _ _ _ text_building _ [BuildAdd (js "c") (text_doc "red rose")] text_entries).
  - apply reach_add. apply (reach_build_start _ _ _ _ _ _ _ text_before); [|vm_compute; reflexivity].
    apply reach_add, reach_add. by apply (reach_start _ _ _ _ _ _ _ (DiskBase [] None)).
  - vm_compute. reflexivity.
  - apply (bool_decide_unpack _). vm_compute. exact I.
  - intros key Hk. unfold text_entries. cbn [jget]. unfold upd.
    destruct (decide (key = js "c")) as [->|Hc]; [by destruct Hk; left|].
    destruct (decide (js "b" = key)) as [<-|Hb]; [by rewrite decide_False by done; rewrite decide_True|].
    rewrite (decide_False (P := key = js "b")) by congruence.
    destruct (decide (js "a" = key)) as [<-|Ha]; [by rewrite decide_True|]. by rewrite decide_False by congruence.
  - split; [|vm_compute; discriminate].
    apply Forall_forall. intros te Hin. assert (Hb : te ∈ agg (stage_all None text_tokenizer text_entries)) by exact Hin. clear Hin.
    vm_compute in Hb. repeat (apply elem_of_cons in Hb as [->|Hb]; [split; [split_and!; vm_compute; first [reflexivity|discriminate]|repeat constructor]|]).
    by apply elem_of_nil in Hb.
  - vm_compute. reflexivity.
Qed.

Lemma text_search_exact_witness :
  exists l i', search text_tokenizer 2 text_short text_log text_now (js "red") And None = Ok (l, i') /\ l.*1 = [js "c"] /\
    forall key, key ∈ [js "c"] <-> text_tokenizer (js "red") <> [] /\
      exists doc, text_docs key = Some doc /\ matches None text_tokenizer And (text_tokenizer (js "red")) doc.
Proof.
  destruct (text_search_exact None text_tokenizer text_tokenizer 2 text_short text_utf8 text_log text_now text_docs (js "red") And) as (l & i' & E & _ & _ & H).
  - intros pos n Hn. unfold text_short. lia.
  - intros x Hx. unfold text_log, Qminus. rewrite <- (Qplus_opp_r 1). by apply Qplus_lt_l.
  - exact text_reach.
  - specialize (E None). cbv beta iota in E. exists l, i'. assert (Hl : l.*1 = [js "c"]).
    { vm_compute in E. injection E as <- _. vm_compute. reflexivity. }
    split; [exact E|]. split; [exact Hl|]. rewrite <- Hl. exact H.
Defined.

(** A key deleted and set again after its turn in the iteration comes up a second time:
    the first visit stays in the new base, and the key is found by words of the document
    that was replaced. *)
Definition text_revisited : result postings_error text_index :=
  build_finish None text_tokenizer text_short text_utf8 (text_add (remove text_started (js "b")) "b" "green")
    (text_entries ++ [(js "b", text_doc "green")]).
Example revisited_key_leaves_ghost :
  match text_revisited with
  | Ok i => match search text_tokenizer 2 text_short text_log i (js "blue") And None with Ok (l, _) => l.*1 = [js "b"] | Err _ => False end
  | Err _ => False
  end.
Proof. vm_compute. reflexivity. Qed.
