(* ===== verification/ToolScheduler.v ===== *)
(** Scheduling of the tool calls of one model step: [tool-access.ts] (what a call
    touches and when two calls conflict) and [tool-scheduler.ts] (the queue that
    lets calls without conflict overlap). A promise is the pair of steps that
    settle it and that run its [finally]; [toLowerCase] is a parameter. *)

From stdpp Require Import sorting.
From S2P Require Import Prelude JsMap JsonText JsString.

(** * Accesses *)

Inductive file_operation : Type := OpRead | OpWrite | OpReadWrite | OpSearch.

Record file_access : Type := FileAccess { fa_operation : file_operation; fa_path : jsstr; fa_recursive : option bool }.

Inductive resource_access : Type :=
| AccessFile (a : file_access)
| AccessAll.

Abbreviation tool_accesses := (list resource_access).

Definition access_none : tool_accesses := [].
Definition access_all : tool_accesses := [AccessAll].
Definition access_file (o : file_operation) (path : jsstr) (recursive : option bool) : tool_accesses :=
  [AccessFile (FileAccess o path recursive)].
Definition readFile (path : jsstr) : tool_accesses := access_file OpRead path None.
Definition readTree (path : jsstr) : tool_accesses := access_file OpRead path (Some true).
Definition writeFile (path : jsstr) : tool_accesses := access_file OpWrite path None.
Definition writeTree (path : jsstr) : tool_accesses := access_file OpWrite path (Some true).
Definition readWriteFile (path : jsstr) : tool_accesses := access_file OpReadWrite path None.
Definition readWriteTree (path : jsstr) : tool_accesses := access_file OpReadWrite path (Some true).
Definition searchTree (path : jsstr) : tool_accesses := access_file OpSearch path (Some true).

Definition fileOperationWrites (o : file_operation) : bool :=
  match o with OpRead | OpSearch => false | OpWrite | OpReadWrite => true end.

Definition fileOperationsConflict (l r : file_operation) : bool := fileOperationWrites l || fileOperationWrites r.

Definition SLASH : N := 47.
Definition BACKSLASH : N := 92.

(** [replaceAll(/\/+/g, '/')] *)
Fixpoint collapse_slashes (s : jsstr) : jsstr :=
  match s with
  | [] => []
  | c :: s' =>
      match s' with
      | c' :: _ => if (c =? SLASH)%N && (c' =? SLASH)%N then collapse_slashes s' else c :: collapse_slashes s'
      | [] => [c]
      end
  end.

Definition ends_slash (s : jsstr) : bool := bool_decide (last s = Some SLASH).
Definition starts_with (s p : jsstr) : bool := bool_decide (p `prefix_of` s).

Section Conflict.
Context (lower : jsstr -> jsstr).

Definition normalizePath (path : jsstr) : jsstr :=
  let folded := lower (collapse_slashes ((fun c => if (c =? BACKSLASH)%N then SLASH else c) <$> path)) in
  if (1 <? length folded)%nat && ends_slash folded then take (length folded - 1) folded else folded.

Definition path_prefix (p : jsstr) : jsstr := if ends_slash p then p else p ++ [SLASH].

Definition is_recursive (a : file_access) : bool := bool_decide (fa_recursive a = Some true).

Definition fileAccessesOverlap (l r : file_access) : bool :=
  let leftPath := normalizePath (fa_path l) in
  let rightPath := normalizePath (fa_path r) in
  bool_decide (leftPath = rightPath) ||
  ((is_recursive l && starts_with rightPath (path_prefix leftPath)) ||
   (is_recursive r && starts_with leftPath (path_prefix rightPath))).

Definition resourceAccessesConflict (l r : resource_access) : bool :=
  match l, r with
  | AccessFile a, AccessFile b => fileOperationsConflict (fa_operation a) (fa_operation b) && fileAccessesOverlap a b
  | _, _ => true
  end.

Definition conflict (l r : tool_accesses) : bool := existsb (fun a => existsb (resourceAccessesConflict a) r) l.

(** * The scheduler *)

(** [t_id] is the identity of the task object; [t_throws]: [start()] throws before
    it returns a promise. *)
Record task : Type := Task { t_id : nat; t_accesses : tool_accesses; t_throws : bool }.

Inductive sched_event : Type := Start (id : nat) | Finish (id : nat).

(** [settled] are the result promises already resolved ([true]) or rejected;
    [log] is the order of the calls of [start] and of [finish]. *)
Record scheduler : Type := Scheduler {
  activeTasks : list task; queuedTasks : list task; settled : list (nat * bool); log : list sched_event }.

Definition empty_scheduler : scheduler := Scheduler [] [] [] [].

Definition conflictsWithAny (t : task) (candidates : list task) : bool :=
  existsb (fun c => conflict (t_accesses t) (t_accesses c)) candidates.

Definition isBlocked (active : list task) (t : task) (queuedBefore : list task) : bool :=
  conflictsWithAny t active || conflictsWithAny t queuedBefore.

Fixpoint remove_first (id : nat) (l : list task) : list task :=
  match l with [] => [] | t :: l' => if (t_id t =? id)%nat then l' else t :: remove_first id l' end.

(** [start], [finish] and the loop of [startQueuedTasks] call each other. *)
Fixpoint start (fuel : nat) (s : scheduler) (t : task) {struct fuel} : option scheduler :=
  match fuel with
  | O => None
  | S n =>
      let s1 := Scheduler (activeTasks s ++ [t]) (queuedTasks s) (settled s) (log s ++ [Start (t_id t)]) in
      if t_throws t then
        finish n (Scheduler (activeTasks s1) (queuedTasks s1) (settled s1 ++ [(t_id t, false)]) (log s1)) t
      else Some s1
  end
with finish (fuel : nat) (s : scheduler) (t : task) {struct fuel} : option scheduler :=
  match fuel with
  | O => None
  | S n =>
      start_loop n (queuedTasks s) []
        (Scheduler (remove_first (t_id t) (activeTasks s)) (queuedTasks s) (settled s) (log s ++ [Finish (t_id t)]))
  end
with start_loop (fuel : nat) (rest stillQueued : list task) (s : scheduler) {struct fuel} : option scheduler :=
  match fuel with
  | O => None
  | S n =>
      match rest with
      | [] => Some (Scheduler (activeTasks s) stillQueued (settled s) (log s))
      | t :: rest' =>
          if isBlocked (activeTasks s) t stillQueued then start_loop n rest' (stillQueued ++ [t]) s
          else match start n s t with Some s' => start_loop n rest' stillQueued s' | None => None end
      end
  end.

(** Calls nest no deeper than the queue is long, plus these three. *)
Definition call_fuel (s : scheduler) : nat := 3 + length (queuedTasks s).

Definition add (s : scheduler) (t : task) : option scheduler :=
  if isBlocked (activeTasks s) t (queuedTasks s)
  then Some (Scheduler (activeTasks s) (queuedTasks s ++ [t]) (settled s) (log s))
  else start (call_fuel s) s t.

(** The promise returned by [start()] settles [task.result] first, ... *)
Definition settle (s : scheduler) (t : task) (ok : bool) : scheduler :=
  Scheduler (activeTasks s) (queuedTasks s) (settled s ++ [(t_id t, ok)]) (log s).

(** ... and its [finally] runs afterwards. *)
Inductive advance (s : scheduler) : scheduler -> Prop :=
| advance_settle t ok : t ∈ activeTasks s -> t_id t ∉ (settled s).*1 -> advance s (settle s t ok)
| advance_finish t s' : t ∈ activeTasks s -> t_id t ∈ (settled s).*1 -> finish (call_fuel s) s t = Some s' -> advance s s'.

(** What a batch can do to a fresh scheduler. Every task the program schedules has an
    async [start], which never throws; [submitted] are the tasks added so far. *)
Inductive reach : list task -> scheduler -> Prop :=
| reach_new : reach [] empty_scheduler
| reach_add submitted s accesses s' :
    reach submitted s -> add s (Task (length submitted) accesses false) = Some s' ->
    reach (submitted ++ [Task (length submitted) accesses false]) s'
| reach_advance submitted s s' : reach submitted s -> advance s s' -> reach submitted s'.

(** * What conflicting means *)

(** The paths (in the form [normalizePath] gives them) an access reaches. *)
Definition covers (a : file_access) (p : jsstr) : Prop :=
  let n := normalizePath (fa_path a) in p = n \/ (fa_recursive a = Some true /\ path_prefix n `prefix_of` p).

(** Two calls interfere when one may touch anything, or both reach a common path
    and one of them may write there. *)
Definition interfere (l r : tool_accesses) : Prop :=
  exists a b, a ∈ l /\ b ∈ r /\
    match a, b with
    | AccessFile f, AccessFile g =>
        (fileOperationWrites (fa_operation f) = true \/ fileOperationWrites (fa_operation g) = true) /\
        exists p, covers f p /\ covers g p
    | _, _ => True
    end.

Lemma path_prefix_cases n : path_prefix n = n \/ path_prefix n = n ++ [SLASH].
Proof. unfold path_prefix. destruct (ends_slash n); auto. Qed.

Lemma path_prefix_self n : n `prefix_of` path_prefix n.
Proof. destruct (path_prefix_cases n) as [->| ->]; [done|]. by exists [SLASH]. Qed.

Lemma path_prefix_ends n : exists m, path_prefix n = m ++ [SLASH].
Proof.
  unfold path_prefix, ends_slash. destruct (bool_decide_reflect (last n = Some SLASH)) as [H|H]; [|by exists n].
  apply last_Some in H as [m ->]. by exists m.
Qed.

(** Two directories with a common descendant: one holds the other's root. *)
Lemma prefix_nested l r p :
  path_prefix l `prefix_of` p -> path_prefix r `prefix_of` p -> (length (path_prefix l) <= length (path_prefix r))%nat ->
  path_prefix l `prefix_of` r \/ l = r \/ path_prefix r `prefix_of` l.
Proof.
  intros Hl Hr Hlen. destruct (prefix_weak_total _ _ _ Hl Hr) as [H|H].
  - destruct (path_prefix_cases r) as [E|E]; [rewrite E in H; by left|]. rewrite E in H.
    destruct (decide (path_prefix l = r ++ [SLASH])) as [E'|Hne].
    + destruct (path_prefix_cases l) as [El|El]; rewrite El in E'.
      * right. right. by rewrite E, E'.
      * apply app_inj_2 in E' as [-> _]; [by right; left|done].
    + left. destruct H as [k Hk]. destruct k as [|c k _] using rev_ind; [by rewrite app_nil_r in Hk|].
      rewrite app_assoc in Hk. apply app_inj_2 in Hk as [-> _]; [by exists k|done].
  - destruct H as [k Hk]. assert (k = []) as -> by (apply length_zero_iff_nil; rewrite Hk, length_app in Hlen; lia).
    rewrite app_nil_r in Hk. destruct (path_prefix_cases r) as [E|E]; rewrite E in Hk.
    + left. by rewrite Hk.
    + destruct (path_prefix_cases l) as [El|El]; rewrite El in Hk.
      * right. right. rewrite E. by rewrite Hk.
      * apply app_inj_2 in Hk as [-> _]; [by right; left|done].
Qed.

Lemma overlap_exact l r : fileAccessesOverlap l r = true <-> exists p, covers l p /\ covers r p.
Proof.
  unfold fileAccessesOverlap, covers, is_recursive, starts_with. set (lp := normalizePath (fa_path l)). set (rp := normalizePath (fa_path r)).
  rewrite !orb_true_iff, !andb_true_iff, !bool_decide_eq_true. split.
  - intros [E|[[Hr Hp]|[Hr Hp]]]; [exists lp|exists rp|exists lp]; auto.
  - intros (p & [->|[Hl Pl]] & [E|[Hr Pr]]); subst; auto.
    destruct (decide (length (path_prefix lp) <= length (path_prefix rp))%nat).
    + destruct (prefix_nested lp rp p) as [H|[H|H]]; auto.
    + destruct (prefix_nested rp lp p) as [H|[H|H]]; auto; lia.
Qed.

Lemma conflict_exact l r : conflict l r = true <-> interfere l r.
Proof.
  unfold conflict, interfere. rewrite existsb_exists. setoid_rewrite existsb_exists. setoid_rewrite <- list_elem_of_In.
  split.
  - intros (a & Ha & b & Hb & H). exists a, b. split; [done|]. split; [done|]. destruct a as [f|], b as [g|]; [|done..].
    cbn in H. apply andb_true_iff in H as [Hw Ho]. apply orb_true_iff in Hw. apply overlap_exact in Ho. done.
  - intros (a & b & Ha & Hb & H). exists a. split; [done|]. exists b. split; [done|]. destruct a as [f|], b as [g|]; [|done..].
    destruct H as [Hw Hp]. apply andb_true_iff. split; [by apply orb_true_iff|by apply overlap_exact].
Qed.

Lemma interfere_sym l r : interfere l r -> interfere r l.
Proof.
  intros (a & b & Ha & Hb & H). exists b, a. split; [done|]. split; [done|].
  destruct a, b; [|done..]. destruct H as [Hw (p & H1 & H2)]. split; [tauto|eauto].
Qed.

Lemma conflict_comm l r : conflict l r = conflict r l.
Proof. apply eq_iff_eq_true. rewrite !conflict_exact. split; apply interfere_sym. Qed.

(** * The invariant *)

(** The scheduler in the middle of [startQueuedTasks]: [still] has been looked at and
    kept, [rest] is to be looked at. Between calls [rest] is empty. *)
Record mid (subs active still rest : list task) (st : list (nat * bool)) (lg : list sched_event) : Prop := Mid {
  m_subs : t_id <$> subs = seq 0 (length subs);
  m_throws : forall t, t ∈ subs -> t_throws t = false;
  m_active : active ⊆ subs;
  m_queue : still ++ rest ⊆ subs;
  m_ids : NoDup (t_id <$> active ++ still ++ rest);
  m_sorted : StronglySorted lt (t_id <$> still ++ rest);
  m_iso : forall t u, t ∈ active -> u ∈ active -> t_id t <> t_id u -> conflict (t_accesses t) (t_accesses u) = false;
  m_blocked : forall pre t post, still = pre ++ t :: post -> isBlocked active t pre = true;
  m_state : forall t, t ∈ subs -> t ∈ active \/ t ∈ still ++ rest \/ Finish (t_id t) ∈ lg;
  m_unstarted : forall t, t ∈ still ++ rest -> Start (t_id t) ∉ lg;
  m_unsettled : forall t, t ∈ still ++ rest -> t_id t ∉ st.*1;
  m_started : forall t, t ∈ active -> Start (t_id t) ∈ lg;
  m_finished : forall id, Finish id ∈ lg -> Start id ∈ lg;
  m_known : forall id, Start id ∈ lg -> (id < length subs)%nat;
  m_order : forall t u pre post, t ∈ subs -> u ∈ subs -> (t_id t < t_id u)%nat ->
    conflict (t_accesses u) (t_accesses t) = true -> lg = pre ++ Start (t_id u) :: post -> Finish (t_id t) ∈ pre }.

Lemma snoc_split {A} (l : list A) (x y : A) pre post :
  l ++ [x] = pre ++ y :: post -> (pre = l /\ y = x /\ post = []) \/ exists post', post = post' ++ [x] /\ l = pre ++ y :: post'.
Proof.
  destruct post as [|z post _] using rev_ind; intros H.
  - apply app_inj_tail in H as [-> ->]. auto.
  - rewrite app_comm_cons, app_assoc in H. apply app_inj_tail in H as [-> ->]. eauto.
Qed.

Lemma sub_id subs active still rest st lg t u :
  mid subs active still rest st lg -> t ∈ subs -> u ∈ subs -> t_id t = t_id u -> t = u.
Proof.
  intros H [i Hi]%list_elem_of_lookup [j Hj]%list_elem_of_lookup E.
  assert (Hid : forall k v, subs !! k = Some v -> t_id v = k).
  { intros k v Hk. assert (Hf : (t_id <$> subs) !! k = Some (t_id v)) by (by rewrite list_lookup_fmap, Hk).
    rewrite (m_subs _ _ _ _ _ _ H), lookup_seq in Hf. lia. }
  apply Hid in Hi as Ei. apply Hid in Hj as Ej. congruence.
Qed.

Lemma not_blocked active t still u :
  isBlocked active t still = false -> u ∈ active \/ u ∈ still -> conflict (t_accesses t) (t_accesses u) = false.
Proof.
  unfold isBlocked, conflictsWithAny. intros [H1 H2]%orb_false_iff [H|H]; apply list_elem_of_In in H.
  - destruct (conflict _ _) eqn:E; [|done]. rewrite <- H1. symmetry. apply existsb_exists. by exists u.
  - destruct (conflict _ _) eqn:E; [|done]. rewrite <- H2. symmetry. apply existsb_exists. by exists u.
Qed.

Lemma blocked_more active t still u : isBlocked active t still = true -> isBlocked (active ++ [u]) t still = true.
Proof. unfold isBlocked, conflictsWithAny. rewrite existsb_app, !orb_true_iff. tauto. Qed.

Lemma mid_block subs active still t rest st lg :
  mid subs active still (t :: rest) st lg -> isBlocked active t still = true -> mid subs active (still ++ [t]) rest st lg.
Proof.
  intros H Hb. assert (E : (still ++ [t]) ++ rest = still ++ t :: rest) by by rewrite <- app_assoc.
  destruct H. split; rewrite ?E; try done.
  intros pre u post Heq. destruct (snoc_split _ _ _ _ _ Heq) as [(-> & -> & _)|(post' & _ & E')]; [done|]. eauto.
Qed.

Lemma mid_start subs active still t rest st lg :
  mid subs active still (t :: rest) st lg -> isBlocked active t still = false ->
  mid subs (active ++ [t]) still rest st (lg ++ [Start (t_id t)]).
Proof.
  intros H Hb. pose proof (fun u => sub_id _ _ _ _ _ _ t u H) as Huniq. destruct H.
  assert (Hq : forall u, u ∈ still ++ rest -> u ∈ still ++ t :: rest) by set_solver.
  assert (Ht : t ∈ still ++ t :: rest) by set_solver.
  assert (Hids : NoDup (t_id <$> active ++ t :: still ++ rest)).
  { eapply NoDup_Permutation_proper; [|exact m_ids0]. apply fmap_Permutation, Permutation_app_head. apply Permutation_middle. }
  assert (Hother : forall u, u ∈ active ++ still ++ rest -> t_id u <> t_id t).
  { intros u Hu E. rewrite fmap_app in Hids. cbn in Hids. rewrite <- Permutation_middle in Hids. apply NoDup_cons in Hids as [Hn _].
    apply Hn. rewrite <- fmap_app, <- E. by apply list_elem_of_fmap_2. }
  split; try done.
  - set_solver.
  - set_solver.
  - by rewrite <- app_assoc.
  - rewrite fmap_app in m_sorted0 |- *. apply StronglySorted_app in m_sorted0 as (Hlt & H1 & [H2 _]%StronglySorted_inv).
    apply StronglySorted_app. split_and!; [|done|done]. intros x y Hx Hy. apply Hlt; [done|]. cbn. set_solver.
  - intros u v [Hu|Hu%list_elem_of_singleton]%elem_of_app [Hv|Hv%list_elem_of_singleton]%elem_of_app Hne; subst; [by apply m_iso0| | |done].
    + rewrite conflict_comm. eapply not_blocked; eauto.
    + eapply not_blocked; eauto.
  - intros pre u post Heq. apply blocked_more. eauto.
  - intros u Hu. destruct (m_state0 u Hu) as [H|[H|H]]; [set_solver| |set_solver].
    apply elem_of_app in H as [H|[-> |H]%elem_of_cons]; set_solver.
  - intros u Hu [HS|[= E]%list_elem_of_singleton]%elem_of_app; [by apply (m_unstarted0 u); auto|].
    apply (Hother u); [set_solver|done].
  - auto.
  - intros u [Hu| ->%list_elem_of_singleton]%elem_of_app; [|set_solver]. apply elem_of_app. left. auto.
  - intros id [HF|HF%list_elem_of_singleton]%elem_of_app; [|done]. apply elem_of_app. left. auto.
  - intros id [HS|[= ->]%list_elem_of_singleton]%elem_of_app; [auto|].
    apply m_queue0 in Ht. assert (t_id t ∈ t_id <$> subs) as Hin by by apply list_elem_of_fmap_2.
    rewrite m_subs0 in Hin. apply elem_of_seq in Hin. lia.
  - intros u v pre post Hu Hv Hlt Hc Heq. destruct (snoc_split _ _ _ _ _ Heq) as [(-> & [= E] & _)|(post' & _ & E')]; [|eauto].
    assert (v = t) as -> by (symmetry; apply Huniq; [by apply m_queue0|done|done]).
    destruct (m_state0 u Hu) as [H|[H|H]]; [| |done].
    + rewrite (not_blocked active t still u) in Hc by auto. done.
    + apply elem_of_app in H as [H|[-> |H]%elem_of_cons]; [| lia |].
      * rewrite (not_blocked active t still u) in Hc by auto. done.
      * exfalso. rewrite fmap_app in m_sorted0. apply StronglySorted_app in m_sorted0 as (_ & _ & [_ Hall]%StronglySorted_inv).
        apply (list_elem_of_fmap_2 t_id) in H. rewrite Forall_forall in Hall. specialize (Hall _ H). lia.
Qed.

(** What is left to do: start and settle and finish a queued task, settle and finish
    an active one. *)
Definition task_work (st : list (nat * bool)) (t : task) : nat := if bool_decide (t_id t ∈ st.*1) then 1%nat else 2%nat.
Definition work_of (active queued : list task) (st : list (nat * bool)) : nat :=
  (2 * length queued + sum_list_with (task_work st) active)%nat.
Definition work (s : scheduler) : nat := work_of (activeTasks s) (queuedTasks s) (settled s).

Definition inv (subs : list task) (s : scheduler) : Prop :=
  mid subs (activeTasks s) (queuedTasks s) [] (settled s) (log s).

Lemma start_loop_mid subs Q st rest : forall fuel active still lg,
  mid subs active still rest st lg -> (length rest < fuel)%nat ->
  exists s', start_loop fuel rest still (Scheduler active Q st lg) = Some s' /\
    inv subs s' /\ settled s' = st /\ work s' = work_of active (still ++ rest) st.
Proof.
  induction rest as [|t rest IH]; intros fuel active still lg H Hf; (destruct fuel as [|n]; [lia|]); cbn [start_loop].
  - eexists. split; [done|]. rewrite app_nil_r. by cbn.
  - cbn [length] in Hf. cbn [activeTasks]. destruct (isBlocked active t still) eqn:Hb.
    + destruct (IH n active (still ++ [t]) lg) as (s' & -> & Hi & Hs & Hw); [by apply mid_block|lia|].
      exists s'. by rewrite <- app_assoc in Hw.
    + destruct n as [|n]; [lia|]. cbn [start activeTasks queuedTasks settled log].
      assert (Ht : t ∈ still ++ t :: rest) by set_solver.
      rewrite (m_throws _ _ _ _ _ _ H t) by by apply (m_queue _ _ _ _ _ _ H).
      destruct (IH (S n) (active ++ [t]) still (lg ++ [Start (t_id t)])) as (s' & -> & Hi & Hs & Hw); [by apply mid_start|lia|].
      exists s'. split_and!; [done..|]. rewrite Hw. unfold work_of. rewrite sum_list_with_app, !length_app. cbn.
      unfold task_work at 2. rewrite bool_decide_false by by apply (m_unsettled _ _ _ _ _ _ H). lia.
Qed.

Lemma remove_first_split id l : id ∈ t_id <$> l ->
  exists pre t post, l = pre ++ t :: post /\ t_id t = id /\ remove_first id l = pre ++ post.
Proof.
  induction l as [|t l IH]; cbn; [by intros ?%not_elem_of_nil|]. destruct (Nat.eqb_spec (t_id t) id) as [<-|Hne].
  - intros _. by exists [], t, l.
  - intros [->|H]%elem_of_cons; [done|]. destruct (IH H) as (pre & u & post & -> & <- & ->). by exists (t :: pre), u, post.
Qed.

Lemma finish_S n s t :
  finish (S n) s t =
  start_loop n (queuedTasks s) []
    (Scheduler (remove_first (t_id t) (activeTasks s)) (queuedTasks s) (settled s) (log s ++ [Finish (t_id t)])).
Proof. reflexivity. Qed.

(** The state [finish] hands to the loop. *)
Lemma mid_finish subs pre t post queued st lg :
  mid subs (pre ++ t :: post) queued [] st lg -> mid subs (pre ++ post) [] queued st (lg ++ [Finish (t_id t)]).
Proof.
  intros H. pose proof (fun u => sub_id _ _ _ _ _ _ u t H) as Huniq. destruct H. rewrite app_nil_r in *.
  assert (Hin : forall u, u ∈ pre ++ post -> u ∈ pre ++ t :: post) by set_solver.
  assert (Ht : t ∈ pre ++ t :: post) by set_solver.
  split; cbn [app]; try done.
  - set_solver.
  - rewrite <- app_assoc in m_ids0. cbn in m_ids0. rewrite fmap_app in m_ids0. cbn in m_ids0.
    rewrite <- Permutation_middle in m_ids0. apply NoDup_cons in m_ids0 as [_ H]. by rewrite <- app_assoc, fmap_app.
  - auto.
  - intros p u q E. by destruct p.
  - intros u Hu. destruct (m_state0 u Hu) as [H|[H|H]]; [|auto|set_solver].
    apply elem_of_app in H as [H|[-> |H]%elem_of_cons]; set_solver.
  - intros u Hu [HS|HS%list_elem_of_singleton]%elem_of_app; [by apply (m_unstarted0 u)|done].
  - intros u Hu. apply elem_of_app. auto.
  - intros id [HF|[= ->]%list_elem_of_singleton]%elem_of_app; apply elem_of_app; auto.
  - intros id [HS|HS%list_elem_of_singleton]%elem_of_app; [auto|done].
  - intros u v p q Hu Hv Hlt Hc E. destruct (snoc_split _ _ _ _ _ E) as [(_ & [=] & _)|(q' & _ & E')]. eauto.
Qed.

Lemma sched_finish_inv subs s t :
  inv subs s -> t ∈ activeTasks s -> t_id t ∈ (settled s).*1 ->
  exists s', finish (call_fuel s) s t = Some s' /\ inv subs s' /\ settled s' = settled s /\ S (work s') = work s.
Proof.
  destruct s as [active queued st lg]. unfold inv, call_fuel. cbn [activeTasks queuedTasks settled log Nat.add]. intros H Ht Hs.
  destruct (remove_first_split (t_id t) active) as (pre & u & post & -> & Hid & Hr); [by apply list_elem_of_fmap_2|].
  rewrite finish_S. cbn [activeTasks queuedTasks settled log]. rewrite <- Hid in *. rewrite Hr.
  destruct (start_loop_mid subs queued st queued (S (S (length queued))) (pre ++ post) [] (lg ++ [Finish (t_id u)])) as (s' & -> & Hi & Hst & Hw);
    [by apply mid_finish|lia|].
  exists s'. split_and!; [done..|]. rewrite Hw. unfold work, work_of. cbn [activeTasks queuedTasks settled app]. rewrite !sum_list_with_app. cbn [sum_list_with].
  unfold task_work at 4. rewrite bool_decide_true by done. lia.
Qed.

Lemma mid_submit subs active queued st lg t :
  mid subs active queued [] st lg -> t_id t = length subs -> t_throws t = false -> length subs ∉ st.*1 ->
  mid (subs ++ [t]) active queued [t] st lg.
Proof.
  intros H Hid Hth Hst.
  assert (Hlt : forall u, u ∈ subs -> (t_id u < length subs)%nat).
  { intros u Hu%(list_elem_of_fmap_2 t_id). rewrite (m_subs _ _ _ _ _ _ H) in Hu. apply elem_of_seq in Hu. lia. }
  destruct H. rewrite app_nil_r in *. split; try done.
  - rewrite fmap_app, length_app, seq_app, m_subs0. cbn. by rewrite Hid.
  - intros u [Hu|Hu%list_elem_of_singleton]%elem_of_app; subst; auto.
  - set_solver.
  - set_solver.
  - rewrite app_assoc, fmap_app. cbn. rewrite <- Permutation_cons_append. constructor; [|done].
    intros (u & Hu & [Ha|Ha]%elem_of_app)%list_elem_of_fmap; [apply m_active0 in Ha|apply m_queue0 in Ha]; apply Hlt in Ha; lia.
  - rewrite fmap_app. apply StronglySorted_app. split_and!; [|done|by repeat constructor].
    intros x y (u & -> & Hu)%list_elem_of_fmap Hy%list_elem_of_singleton. apply m_queue0, Hlt in Hu. lia.
  - intros u [Hu|Hu%list_elem_of_singleton]%elem_of_app; [|subst; set_solver]. destruct (m_state0 u Hu) as [?|[?|?]]; set_solver.
  - intros u [Hu|Hu%list_elem_of_singleton]%elem_of_app; [auto|]. subst. intros HS%m_known0. lia.
  - intros u [Hu|Hu%list_elem_of_singleton]%elem_of_app; [auto|]. subst. by rewrite Hid.
  - intros id HS%m_known0. rewrite length_app. lia.
  - intros u v pre post Hu Hv Hl Hc E. apply (m_order0 u v pre post); try done.
    + apply elem_of_app in Hu as [Hu|Hu%list_elem_of_singleton]; [done|]. subst u.
      apply elem_of_app in Hv as [Hv%Hlt|Hv%list_elem_of_singleton]; subst; lia.
    + apply elem_of_app in Hv as [Hv|Hv%list_elem_of_singleton]; [done|]. subst v.
      assert (HS : Start (t_id t) ∈ lg) by (rewrite E; set_solver). apply m_known0 in HS. lia.
Qed.

Lemma sched_add_inv subs s t :
  inv subs s -> t_id t = length subs -> t_throws t = false -> length subs ∉ (settled s).*1 ->
  exists s', add s t = Some s' /\ inv (subs ++ [t]) s' /\ settled s' = settled s.
Proof.
  destruct s as [active queued st lg]. unfold inv, add, call_fuel. cbn [activeTasks queuedTasks settled log]. intros H Hid Hth Hst.
  assert (Hm := mid_submit _ _ _ _ _ _ H Hid Hth Hst). destruct (isBlocked active t queued) eqn:Hb.
  - eexists. split; [done|]. split; [|done]. by apply mid_block.
  - cbn [Nat.add start]. rewrite Hth. eexists. split; [done|]. split; [|done]. by apply mid_start.
Qed.

Lemma sched_settle_inv subs s t ok : inv subs s -> t ∈ activeTasks s -> inv subs (settle s t ok).
Proof.
  destruct s as [active queued st lg]. unfold inv, settle. cbn [activeTasks queuedTasks settled log]. intros H Ht. destruct H.
  split; try done. intros u Hu. rewrite fmap_app. intros [HS|Hid%list_elem_of_singleton]%elem_of_app; [by apply (m_unsettled0 u)|].
  rewrite fmap_app in m_ids0. apply NoDup_app in m_ids0 as (_ & Hd & _). apply (Hd (t_id t)).
  - by apply list_elem_of_fmap_2.
  - cbn in Hid. rewrite <- Hid. by apply list_elem_of_fmap_2.
Qed.

Lemma sched_reach_inv subs s : reach subs s -> inv subs s /\ forall id, id ∈ (settled s).*1 -> (id < length subs)%nat.
Proof.
  induction 1 as [|subs s acc s' _ [H Hs] Ha|subs s s' _ [H Hs] Hadv].
  - split; [|by intros id ?%not_elem_of_nil]. split; cbn; try by constructor.
    all: try by intros *; rewrite ?elem_of_nil.
    intros p t q E. by destruct p.
  - destruct (sched_add_inv subs s (Task (length subs) acc false)) as (s1 & E & Hi & Est); [done|done|done| |].
    { intros Hin%Hs. lia. }
    rewrite E in Ha. injection Ha as <-. split; [done|]. rewrite Est, length_app. intros id Hin%Hs. lia.
  - assert (Hin : forall t, t ∈ activeTasks s -> (t_id t < length subs)%nat).
    { intros t Ht. apply (m_known _ _ _ _ _ _ H). by apply (m_started _ _ _ _ _ _ H). }
    destruct Hadv as [t ok Ht Hn|t s' Ht Hd Hf].
    + split; [by apply sched_settle_inv|]. cbn. rewrite fmap_app. intros id [Hi|Hi%list_elem_of_singleton]%elem_of_app; [by auto|]. cbn in Hi. subst id. by apply Hin.
    + destruct (sched_finish_inv subs s t) as (s1 & E & Hi & Est & _); [done..|]. rewrite E in Hf. injection Hf as <-. by rewrite Est.
Qed.

Lemma work_settle subs s t ok :
  inv subs s -> t ∈ activeTasks s -> t_id t ∉ (settled s).*1 -> S (work (settle s t ok)) = work s.
Proof.
  destruct s as [active queued st lg]. unfold inv, settle, work, work_of. cbn [activeTasks queuedTasks settled log]. intros H Ht Hn.
  apply m_ids in H. apply list_elem_of_split in Ht as (pre & post & ->). rewrite <- app_assoc, fmap_app in H. cbn in H.
  rewrite <- Permutation_middle, <- fmap_app in H. apply NoDup_cons in H as [Hd _].
  assert (Hsame : forall l, l ⊆ pre ++ post -> sum_list_with (task_work (st ++ [(t_id t, ok)])) l = sum_list_with (task_work st) l).
  { induction l as [|u l IH]; intros Hl; [done|]. cbn. rewrite IH by set_solver. f_equal. unfold task_work.
    assert (t_id u <> t_id t); [|erewrite bool_decide_ext; [done|]; rewrite fmap_app; cbn; rewrite elem_of_app, list_elem_of_singleton; tauto]. intros E. apply Hd. rewrite <- E. apply list_elem_of_fmap_2. set_solver. }
  rewrite !sum_list_with_app. cbn [sum_list_with]. rewrite !Hsame by set_solver. unfold task_work at 2 5.
  rewrite bool_decide_true, bool_decide_false; [lia|done|]. rewrite fmap_app. set_solver.
Qed.

(** * Properties *)

(** C10. Whatever tool calls are added and however their promises settle, two running
    calls never interfere (no common path one of them writes, no unrestricted call
    beside another), and of two interfering calls the one submitted first has finished
    before the other is started. *)
Theorem tool_calls_serialized subs s :
  reach subs s ->
  (forall t u, t ∈ activeTasks s -> u ∈ activeTasks s -> t_id t <> t_id u -> ~ interfere (t_accesses t) (t_accesses u)) /\
  (forall t u pre post, t ∈ subs -> u ∈ subs -> (t_id t < t_id u)%nat -> interfere (t_accesses t) (t_accesses u) ->
     log s = pre ++ Start (t_id u) :: post -> Finish (t_id t) ∈ pre).
Proof.
  intros [H _]%sched_reach_inv. split.
  - intros t u Ht Hu Hne Hc%conflict_exact. rewrite (m_iso _ _ _ _ _ _ H) in Hc by done. done.
  - intros t u pre post Ht Hu Hlt Hc%interfere_sym%conflict_exact Hl. by apply (m_order _ _ _ _ _ _ H t u pre post).
Qed.

(** The scheduler never gets stuck: adding a call returns, every settling or
    finishing step uses up one unit of the remaining work, while work remains such a
    step is possible, and when none remains every call has been started and finished. *)
Theorem tool_queue_drains subs s :
  reach subs s ->
  (forall accesses, is_Some (add s (Task (length subs) accesses false))) /\
  (forall s', advance s s' -> S (work s') = work s) /\
  (work s <> 0%nat -> exists s', advance s s') /\
  (work s = 0%nat -> forall t, t ∈ subs -> Start (t_id t) ∈ log s /\ Finish (t_id t) ∈ log s).
Proof.
  intros Hr. destruct (sched_reach_inv _ _ Hr) as [H Hs]. split_and!.
  - intros acc. destruct (sched_add_inv subs s (Task (length subs) acc false)) as (s1 & -> & _); [done..| |done]. intros Hin%Hs. lia.
  - intros s' [t ok Ht Hn|t s1 Ht Hd Hf]; [by eapply work_settle|].
    destruct (sched_finish_inv subs s t) as (s2 & E & _ & _ & Hw); [done..|]. congruence.
  - intros Hw. destruct (activeTasks s) as [|t act] eqn:Ea.
    + destruct (queuedTasks s) as [|t q] eqn:Eq; [unfold work, work_of in Hw; by rewrite Ea, Eq in Hw|].
      assert (Hb := m_blocked _ _ _ _ _ _ H [] t q Eq). by rewrite Ea in Hb.
    + assert (Ht : t ∈ activeTasks s) by (rewrite Ea; set_solver). destruct (decide (t_id t ∈ (settled s).*1)) as [Hd|Hn].
      * destruct (sched_finish_inv subs s t) as (s2 & E & _); [done..|]. exists s2. by eapply advance_finish.
      * exists (settle s t true). by apply advance_settle.
  - intros Hw t Ht. assert (Ha : activeTasks s = [] /\ queuedTasks s = []).
    { unfold work, work_of in Hw. destruct (activeTasks s) as [|u act], (queuedTasks s) as [|v q]; cbn in Hw; [done|lia| |lia].
      unfold task_work at 1 in Hw. case_bool_decide; lia. }
    destruct Ha as [Ea Eq]. destruct (m_state _ _ _ _ _ _ H t Ht) as [Hx|[Hx|Hx]]; [rewrite Ea in Hx|rewrite Eq in Hx|]; [set_solver..|].
    split; [by apply (m_finished _ _ _ _ _ _ H)|done].
Qed.

(** A queued task whose [start] throws before returning a promise is taken from the
    queue again by the [finish] its failure calls, for ever. *)
Lemma throwing_start_never_returns t st : t_throws t = true ->
  forall fuel lg, start_loop fuel [t] [] (Scheduler [] [t] st lg) = None.
Proof.
  intros Ht fuel. revert st. induction fuel as [fuel IH] using lt_wf_ind. intros st lg. destruct fuel as [|n]; [done|].
  cbn [start_loop]. change (isBlocked [] t []) with false. cbn match. destruct n as [|n]; [done|].
  cbn [start]. rewrite Ht. destruct n as [|n]; [done|]. rewrite finish_S. cbn. rewrite Nat.eqb_refl. rewrite IH by lia. done.
Qed.

End Conflict.

(** * Witnesses *)

Definition ascii_lower (s : jsstr) : jsstr := (fun c => if ((65 <=? c) && (c <=? 90))%N then (c + 32)%N else c) <$> s.

Example overlap_examples :
  conflict ascii_lower (writeFile (js "/repo/Src//a.ts")) (readTree (js "/repo/src/")) = true /\
  conflict ascii_lower (writeFile (js "/repo/src2/a.ts")) (readTree (js "/repo/src")) = false /\
  conflict ascii_lower (searchTree (js "/repo")) (readFile (js "/repo/a")) = false /\
  conflict ascii_lower (writeTree (js "/")) (readFile (js "C:\x")) = false /\
  conflict ascii_lower access_all (readFile (js "/a")) = true /\
  conflict ascii_lower access_all access_none = false.
Proof. vm_compute. done. Qed.

(** A write, a tree read waiting for it, and an independent read that overtakes. *)
Definition run_calls : list task :=
  [Task 0 (writeFile (js "/a/x")) false; Task 1 (readTree (js "/A")) false; Task 2 (readFile (js "/b")) false].
Definition run_add (s : scheduler) (i : nat) : scheduler :=
  default empty_scheduler (t ← run_calls !! i; add ascii_lower s t).
Definition run_start : scheduler := run_add (run_add (run_add empty_scheduler 0) 1) 2.
Definition run_first : task := Task 0 (writeFile (js "/a/x")) false.
Definition run_settled : scheduler := settle run_start run_first true.
Definition run_end : scheduler := default empty_scheduler (finish ascii_lower (call_fuel run_settled) run_settled run_first).

Lemma run_reach : reach ascii_lower run_calls run_end.
Proof.
  assert (H : reach ascii_lower run_calls run_start).
  { apply (reach_add _ [_; _] (run_add (run_add empty_scheduler 0) 1) (readFile (js "/b"))); [|by vm_compute].
    apply (reach_add _ [_] (run_add empty_scheduler 0) (readTree (js "/A"))); [|by vm_compute].
    apply (reach_add _ [] empty_scheduler (writeFile (js "/a/x"))); [apply reach_new|by vm_compute]. }
  eapply reach_advance; [eapply reach_advance; [exact H|apply (advance_settle _ _ run_first true)]|apply (advance_finish _ _ run_first)].
  - vm_compute. apply list_elem_of_here.
  - vm_compute. apply not_elem_of_nil.
  - vm_compute. apply list_elem_of_here.
  - vm_compute. apply list_elem_of_here.
  - by vm_compute.
Qed.

Lemma tool_calls_serialized_witness :
  log run_end = [Start 0; Start 2; Finish 0; Start 1] /\ Finish 0 ∈ [Start 0; Start 2; Finish 0].
Proof.
  split; [by vm_compute|].
  apply (proj2 (tool_calls_serialized ascii_lower run_calls run_end run_reach) run_first (Task 1 (readTree (js "/A")) false) _ []).
  - apply list_elem_of_here.
  - apply list_elem_of_further, list_elem_of_here.
  - cbn. lia.
  - apply conflict_exact. by vm_compute.
  - by vm_compute.
Defined.

Lemma tool_queue_drains_witness : work run_end = 4%nat /\ exists s', advance ascii_lower run_end s'.
Proof.
  split; [by vm_compute|]. apply (tool_queue_drains ascii_lower run_calls run_end run_reach). by vm_compute.
Defined.
