(* ===== verification/GitClassify.v ===== *)
(** The git subcommand classifier [shell-ast/git-classify.ts]: from the tokens of one
    simple command to the risk class of the git operation it runs. *)

From S2P Require Import Prelude JsMap JsonText JsString ToolScheduler.

Inductive git_class : Type := ConfigInjection | SharedRemote | HistoryWrite | LocalWrite | GitRead | GitUnknown.

#[global] Instance git_class_eq_dec : EqDecision git_class.
Proof. solve_decision. Defined.

Definition READ_SUBCOMMANDS : list jsstr :=
  js <$> ["blame"; "cat-file"; "count-objects"; "describe"; "diff"; "diff-files"; "diff-index"; "diff-tree";
          "for-each-ref"; "grep"; "help"; "log"; "ls-files"; "ls-remote"; "ls-tree"; "name-rev"; "rev-list";
          "rev-parse"; "shortlog"; "show"; "show-branch"; "show-ref"; "status"; "whatchanged"]%string.

Definition LOCAL_WRITE_SUBCOMMANDS : list jsstr :=
  js <$> ["add"; "am"; "apply"; "checkout"; "cherry-pick"; "clean"; "clone"; "fetch"; "init"; "merge"; "mv";
          "pull"; "restore"; "revert"; "rm"; "stage"; "stash"; "switch"]%string.

Definition HISTORY_WRITE_SUBCOMMANDS : list jsstr := js <$> ["filter-branch"; "rebase"; "reset"; "update-ref"]%string.

Definition set_has (l : list jsstr) (s : jsstr) : bool := bool_decide (s ∈ l).
Definition is_text (s : jsstr) (text : string) : bool := bool_decide (s = js text).

Definition DASH : N := 45.

(** What follows the last [c], the whole string when there is none. *)
Definition after_last (c : N) (s : jsstr) : jsstr := List.last (split_on c s) s.

(** A single-dash token whose bundle contains [flag]. *)
Definition shortBundleHas (arg : jsstr) (flag : N) : bool :=
  match arg with
  | a :: b :: rest => (a =? DASH)%N && negb (b =? DASH)%N && bool_decide (flag ∈ b :: rest)
  | _ => false
  end.

Definition hasFlag (args : list jsstr) (long : string) (short : option N) : bool :=
  existsb (fun arg => bool_decide (arg = js "--" ++ js long) ||
                      match short with Some f => shortBundleHas arg f | None => false end) args.

Definition hasShortFlag (args : list jsstr) (flag : N) : bool := existsb (fun arg => shortBundleHas arg flag) args.

(** The subcommand's arguments up to the [--] separator. *)
Fixpoint argsBeforeDoubleDash (args : list jsstr) : list jsstr :=
  match args with
  | [] => []
  | a :: args' => if is_text a "--" then [] else a :: argsBeforeDoubleDash args'
  end.

Definition injects (token : jsstr) : bool :=
  starts_with token (js "-c") || is_text token "--config-env" || starts_with token (js "--config-env=") ||
  is_text token "--exec-path" || starts_with token (js "--exec-path=").

Definition takes_value (token : jsstr) : bool :=
  is_text token "-C" || is_text token "--git-dir" || is_text token "--work-tree" || is_text token "--namespace" || is_text token "--attr-source".

(** The scan over the global options: [None] when one of them injects configuration,
    else the tokens from the subcommand on. *)
Fixpoint skip_globals (tokens : list jsstr) : option (list jsstr) :=
  match tokens with
  | [] => Some []
  | token :: rest =>
      if negb (starts_with token (js "-")) then Some tokens
      else if injects token then None
      else if takes_value token then match rest with [] => Some [] | _ :: rest' => skip_globals rest' end
      else skip_globals rest
  end.

Definition classify_subcommand (subcommand : jsstr) (args : list jsstr) : git_class :=
  if set_has READ_SUBCOMMANDS subcommand then GitRead
  else if is_text subcommand "push" then SharedRemote
  else if set_has HISTORY_WRITE_SUBCOMMANDS subcommand then HistoryWrite
  else if is_text subcommand "commit" then if hasFlag args "amend" None then HistoryWrite else LocalWrite
  else if is_text subcommand "branch" then
    if hasShortFlag args 68 || (hasFlag args "delete" (Some 100%N) && hasFlag args "force" (Some 102%N))
    then HistoryWrite else LocalWrite
  else if is_text subcommand "tag" then if hasFlag args "force" (Some 102%N) then HistoryWrite else LocalWrite
  else if is_text subcommand "reflog" then
    match args with
    | a :: _ => if is_text a "expire" || is_text a "delete" then HistoryWrite else GitRead
    | [] => GitRead
    end
  else if set_has LOCAL_WRITE_SUBCOMMANDS subcommand then LocalWrite
  else GitUnknown.

(** [None]: not a git command. *)
Definition classifyGitSegment (tokens : list jsstr) : option git_class :=
  match tokens with
  | [] => None
  | name :: rest =>
      if negb (is_text (after_last SLASH name) "git") then None
      else match skip_globals rest with
           | None => Some ConfigInjection
           | Some [] => Some GitRead
           | Some (subcommand :: args) => Some (classify_subcommand subcommand (argsBeforeDoubleDash args))
           end
  end.

(** * Properties *)

(** The global options git accepts before a subcommand, by the scan's own grammar. *)
Inductive globals : list jsstr -> Prop :=
| globals_nil : globals []
| globals_value o v os : takes_value o = true -> globals os -> globals (o :: v :: os)
| globals_flag o os : starts_with o (js "-") = true -> takes_value o = false -> globals os -> globals (o :: os).

Lemma takes_value_option o : takes_value o = true -> starts_with o (js "-") = true /\ injects o = false.
Proof.
  unfold takes_value, is_text. rewrite !orb_true_iff, !bool_decide_eq_true.
  intros [[[[-> | ->] | ->] | ->] | ->]; by vm_compute.
Qed.

Lemma skip_globals_app os rest :
  globals os -> skip_globals (os ++ rest) = None \/ skip_globals (os ++ rest) = skip_globals rest.
Proof.
  induction 1 as [|o v os Hv _ IH|o os Hs Hv _ IH]; cbn [skip_globals app]; [by right| |].
  - destruct (takes_value_option o Hv) as [-> ->]. by rewrite Hv.
  - rewrite Hs. cbn [negb]. destruct (injects o); [by left|]. by rewrite Hv.
Qed.

Definition is_git (name : jsstr) : Prop := is_text (after_last SLASH name) "git" = true.

Definition git_mutation (c : git_class) : bool := match c with GitRead => false | _ => true end.

(** No combination of global options hides the subcommand: the segment is classified
    by its subcommand and arguments, or as a configuration injection. *)
Lemma classify_through_globals name os subcommand args :
  is_git name -> globals os -> starts_with subcommand (js "-") = false ->
  classifyGitSegment (name :: os ++ subcommand :: args) = Some ConfigInjection \/
  classifyGitSegment (name :: os ++ subcommand :: args) =
    Some (classify_subcommand subcommand (argsBeforeDoubleDash args)).
Proof.
  unfold is_git. intros Hn Hg Hs. unfold classifyGitSegment. rewrite Hn. cbn [negb].
  destruct (skip_globals_app os (subcommand :: args) Hg) as [-> | ->]; [by left|]. right. cbn [skip_globals]. by rewrite Hs.
Qed.

(** More arguments never make a class milder, except behind [--]. *)
Lemma hasFlag_app l1 l2 long short : hasFlag l1 long short = true -> hasFlag (l1 ++ l2) long short = true.
Proof. unfold hasFlag. rewrite existsb_app. intros ->. done. Qed.

Lemma subcommand_mutates sub args :
  sub ∈ js <$> ["push"; "commit"; "branch"; "tag"; "rebase"; "reset"; "update-ref"; "filter-branch"; "merge"; "pull";
                "checkout"; "clean"; "rm"; "stash"; "fetch"; "revert"]%string ->
  git_mutation (classify_subcommand sub args) = true.
Proof.
  intros H. rewrite list_elem_of_fmap in H. destruct H as (t & -> & Ht).
  unfold classify_subcommand. repeat (apply elem_of_cons in Ht as [-> |Ht]; [cbn -[hasFlag hasShortFlag]; repeat (case_match; try done)|]).
  by apply not_elem_of_nil in Ht.
Qed.

Example classify_examples :
  classifyGitSegment (js <$> ["/usr/bin/git"; "-C"; "/x"; "--no-pager"; "push"; "origin"]%string) = Some SharedRemote /\
  classifyGitSegment (js <$> ["git"; "-calias.x=!rm"; "status"]%string) = Some ConfigInjection /\
  classifyGitSegment (js <$> ["git"; "branch"; "-mD"; "t"]%string) = Some HistoryWrite /\
  classifyGitSegment (js <$> ["git"; "commit"; "--"; "--amend"]%string) = Some LocalWrite /\
  classifyGitSegment (js <$> ["git"; "co"]%string) = Some GitUnknown /\
  classifyGitSegment (js <$> ["git"; "--version"]%string) = Some GitRead /\
  classifyGitSegment (js <$> ["gitk"]%string) = None.
Proof. vm_compute. done. Qed.

(** git completes unambiguous long options; the classifier compares whole names. *)
Example abbreviated_amend : classifyGitSegment (js <$> ["git"; "commit"; "--amen"]%string) = Some LocalWrite.
Proof. vm_compute. done. Qed.
