(* ===== verification/PermissionRules.v ===== *)
(** Permission rules: the pattern language of [matches-rule.ts], matching one rule,
    and covering the segments of a compound command by the union of several rules;
    and the bounded cache of compiled globs of [glob-cache.ts]. The glob compiler
    (picomatch) is a parameter. *)

From S2P Require Import Prelude JsMap JsonText JsString ToolScheduler.

(** * Rules and patterns *)

Inductive rule_decision : Type := RuleAllow | RuleDeny | RuleAsk.
Inductive rule_scope : Type := TurnOverride | SessionRuntime | ProjectScope | UserScope.

#[global] Instance rule_decision_eq_dec : EqDecision rule_decision.
Proof. solve_decision. Defined.
#[global] Instance rule_scope_eq_dec : EqDecision rule_scope.
Proof. solve_decision. Defined.

Record permission_rule : Type := PermissionRule {
  pr_decision : rule_decision; pr_scope : rule_scope; pr_pattern : jsstr; pr_reason : option jsstr }.

Record parsed_pattern : Type := ParsedPattern { pp_toolName : jsstr; pp_argPattern : option jsstr }.

Inductive pattern_error : Type := PatternEmpty | PatternUnclosed (p : jsstr) | PatternNoName (p : jsstr).

Definition LPAREN : N := 40.
Definition RPAREN : N := 41.

Definition parsePattern (pattern : jsstr) : result pattern_error parsed_pattern :=
  let trimmed := trim pattern in
  guard! negb (length trimmed =? 0)%nat else PatternEmpty ;;
  match break_on LPAREN trimmed with
  | None => Ok (ParsedPattern trimmed None)
  | Some (toolName, rest) =>
      guard! bool_decide (last trimmed = Some RPAREN) else PatternUnclosed pattern ;;
      let argPattern := removelast rest in
      guard! negb (length toolName =? 0)%nat else PatternNoName pattern ;;
      if (length argPattern =? 0)%nat then Ok (ParsedPattern toolName None)
      else Ok (ParsedPattern toolName (Some argPattern))
  end.

(** * Executions *)

(** [ToolRuleMatch]: the segments of a decomposable call and how a rule's argument
    pattern applies to one of them. *)
Record rule_subjects : Type := RuleSubjects {
  subjects : list jsstr; subject_matches : jsstr -> jsstr -> rule_decision -> bool }.

Record match_execution : Type := MatchExecution {
  matchesRule : option (jsstr -> bool); ruleMatch : option rule_subjects; ruleToolName : option jsstr }.

Definition ruleNamespaceOf (execution : match_execution) (toolName : jsstr) : jsstr :=
  default toolName (ruleToolName execution).

Inductive match_strategy : Type := ToolNameOnly | MatchesRule.

Record rule_match : Type := RuleMatch { rm_rule : permission_rule; rm_strategy : match_strategy; rm_hasRuleArgs : bool }.

Definition STAR : jsstr := [42%N].

Record covered_subjects : Type := CoveredSubjects { fullyCovered : bool; firstMatch : option rule_match }.

Definition is_allow (d : rule_decision) : bool := match d with RuleAllow => true | _ => false end.

Section Rules.
Context (cachedGlobIsMatch : jsstr -> jsstr -> bool).

(** Whether the rule is about this tool at all. *)
Definition names_tool (p : parsed_pattern) (toolName : jsstr) (execution : match_execution) : bool :=
  bool_decide (pp_toolName p = STAR) || cachedGlobIsMatch (ruleNamespaceOf execution toolName) (pp_toolName p).

Definition matchPermissionRule (rule : permission_rule) (toolName : jsstr) (execution : match_execution) : option rule_match :=
  match parsePattern (pr_pattern rule) with
  | Err _ => None
  | Ok parsed =>
      if negb (names_tool parsed toolName execution) then None
      else match pp_argPattern parsed with
           | None => Some (RuleMatch rule ToolNameOnly false)
           | Some argPattern =>
               match ruleMatch execution with
               | Some rm =>
                   let one subject := subject_matches rm argPattern subject (pr_decision rule) in
                   let matched := if is_allow (pr_decision rule) then forallb one (subjects rm) else existsb one (subjects rm) in
                   if matched then Some (RuleMatch rule MatchesRule true) else None
               | None =>
                   match matchesRule execution with
                   | Some f => if f argPattern then Some (RuleMatch rule MatchesRule true) else None
                   | None => None
                   end
               end
           end
  end.

(** [firstMatch ??= m] *)
Definition first_of (o : option rule_match) (m : rule_match) : option rule_match :=
  match o with Some _ => o | None => Some m end.

(** The indices of the subjects a rule's argument pattern matches. *)
Definition hits (rm : rule_subjects) (argPattern : jsstr) (d : rule_decision) : gset nat :=
  list_to_set (filter (fun i => match subjects rm !! i with Some s => subject_matches rm argPattern s d | None => false end = true)
                 (seq 0 (length (subjects rm)))).

(** The loop body of [collectCoveredSubjects]. *)
Definition collect_rule (toolName : jsstr) (execution : match_execution) (rm : rule_subjects)
    (acc : gset nat * option rule_match) (rule : permission_rule) : gset nat * option rule_match :=
  let '(covered, first) := acc in
  match parsePattern (pr_pattern rule) with
  | Err _ => acc
  | Ok parsed =>
      if negb (names_tool parsed toolName execution) then acc
      else match pp_argPattern parsed with
           | None => (covered ∪ list_to_set (seq 0 (length (subjects rm))), first_of first (RuleMatch rule ToolNameOnly false))
           | Some argPattern =>
               let h := hits rm argPattern (pr_decision rule) in
               (covered ∪ h, if bool_decide (h = ∅) then first else first_of first (RuleMatch rule MatchesRule true))
           end
  end.

Definition collectCoveredSubjects (rules : list permission_rule) (toolName : jsstr) (execution : match_execution)
    : option covered_subjects :=
  match ruleMatch execution with
  | None => None
  | Some rm =>
      let '(covered, first) := fold_left (collect_rule toolName execution rm) rules (∅, None) in
      Some (CoveredSubjects ((0 <? length (subjects rm))%nat && (size covered =? length (subjects rm))%nat) first)
  end.

(** * What covering means *)

(** A rule applies to one segment: its tool name fits and it has no argument pattern
    or one that matches the segment. *)
Definition rule_covers (toolName : jsstr) (execution : match_execution) (rm : rule_subjects) (s : jsstr) (rule : permission_rule) : Prop :=
  exists parsed, parsePattern (pr_pattern rule) = Ok parsed /\ names_tool parsed toolName execution = true /\
    match pp_argPattern parsed with None => True | Some a => subject_matches rm a s (pr_decision rule) = true end.

Lemma rule_hits_spec rm a d i : i ∈ hits rm a d <-> exists s, subjects rm !! i = Some s /\ subject_matches rm a s d = true.
Proof.
  unfold hits. rewrite elem_of_list_to_set, list_elem_of_filter, elem_of_seq. split.
  - destruct (subjects rm !! i) as [s|]; [|intros [[=] _]]. intros [H _]. eauto.
  - intros (s & E & H). rewrite E. split; [done|]. apply lookup_lt_Some in E. lia.
Qed.

Lemma collect_rule_spec toolName execution rm acc rule i :
  i ∈ (collect_rule toolName execution rm acc rule).1 <->
  i ∈ acc.1 \/ exists s, subjects rm !! i = Some s /\ rule_covers toolName execution rm s rule.
Proof.
  destruct acc as [covered first]. unfold collect_rule, rule_covers. destruct (parsePattern (pr_pattern rule)) as [parsed|e].
  2: { split; [tauto|]. intros [H|(s & _ & p & [=] & _)]; done. }
  destruct (names_tool parsed toolName execution) eqn:En; cbn [negb fst].
  2: { split; [tauto|]. intros [H|(s & _ & p & [= <-] & H & _)]; [done|congruence]. }
  destruct (pp_argPattern parsed) as [a|] eqn:Ea; cbn [fst].
  - rewrite elem_of_union, rule_hits_spec. split; (intros [H|H]; [by left|right]).
    + destruct H as (s & E & H). exists s. split; [done|]. exists parsed. by rewrite Ea.
    + destruct H as (s & E & p & [= <-] & _ & H). rewrite Ea in H. eauto.
  - rewrite elem_of_union, elem_of_list_to_set, elem_of_seq. split; (intros [H|H]; [by left|right]).
    + destruct (lookup_lt_is_Some_2 (subjects rm) i) as [s E]; [lia|]. exists s. split; [done|]. exists parsed. by rewrite Ea.
    + destruct H as (s & E & _). apply lookup_lt_Some in E. lia.
Qed.

Lemma collect_rules_spec toolName execution rm rules acc i :
  i ∈ (fold_left (collect_rule toolName execution rm) rules acc).1 <->
  i ∈ acc.1 \/ exists s rule, subjects rm !! i = Some s /\ rule ∈ rules /\ rule_covers toolName execution rm s rule.
Proof.
  revert acc. induction rules as [|r rules IH]; intros acc; cbn [fold_left].
  - split; [tauto|]. intros [H|(s & r & _ & H & _)]; [done|]. by apply not_elem_of_nil in H.
  - rewrite IH, collect_rule_spec. setoid_rewrite elem_of_cons. split.
    + intros [[H|(s & E & H)]|(s & r' & E & H & Hc)]; [by left|right..]; eauto 10.
    + intros [H|(s & r' & E & [-> |H] & Hc)]; eauto 10.
Qed.

Lemma cover_exact rules toolName execution c :
  collectCoveredSubjects rules toolName execution = Some c ->
  exists rm, ruleMatch execution = Some rm /\
    (fullyCovered c = true <->
     subjects rm <> [] /\ forall s, s ∈ subjects rm -> exists rule, rule ∈ rules /\ rule_covers toolName execution rm s rule).
Proof.
  unfold collectCoveredSubjects. destruct (ruleMatch execution) as [rm|]; [|done].
  pose proof (collect_rules_spec toolName execution rm rules (∅, None)) as Hc.
  destruct (fold_left _ rules _) as [covered first]. intros [= <-]. exists rm. split; [done|]. cbn [fst fullyCovered] in *.
  assert (Hc' : forall i, i ∈ covered <-> exists s rule, subjects rm !! i = Some s /\ rule ∈ rules /\ rule_covers toolName execution rm s rule).
  { intros i. rewrite Hc. set_solver. }
  set (all := list_to_set (C := gset nat) (seq 0 (length (subjects rm)))).
  assert (Hsub : covered ⊆ all).
  { intros i (s & rule & E & _)%Hc'. apply lookup_lt_Some in E. unfold all. rewrite elem_of_list_to_set, elem_of_seq. lia. }
  assert (Hsize : size all = length (subjects rm)) by (unfold all; rewrite size_list_to_set by apply NoDup_seq; apply length_seq).
  rewrite andb_true_iff, Nat.ltb_lt, Nat.eqb_eq. split.
  - intros [Hpos He]. split; [by destruct (subjects rm); cbn in *; [lia|]|]. intros s [i Hi]%list_elem_of_lookup.
    assert (Hin : i ∈ covered).
    { assert (covered ≡ all) as -> by (apply set_subseteq_size_equiv; [done|lia]). unfold all.
      rewrite elem_of_list_to_set, elem_of_seq. apply lookup_lt_Some in Hi. lia. }
    apply Hc' in Hin as (s' & rule & E & H). assert (s' = s) as -> by congruence. eauto.
  - intros [Hne H]. split; [by destruct (subjects rm); cbn; [|lia]|]. rewrite <- Hsize. apply set_size_proper.
    intros i. split; [apply Hsub|]. unfold all. rewrite elem_of_list_to_set, elem_of_seq. intros Hi.
    destruct (lookup_lt_is_Some_2 (subjects rm) i) as [s E]; [lia|]. apply Hc'.
    destruct (H s) as (rule & H1 & H2); [by eapply list_elem_of_lookup_2|]. eauto.
Qed.

End Rules.

(** A pattern written as [name(arg)] is read back as its two parts. *)
Lemma parse_named_pattern name arg :
  free LPAREN name -> name <> [] -> trim (name ++ LPAREN :: arg ++ [RPAREN]) = name ++ LPAREN :: arg ++ [RPAREN] ->
  parsePattern (name ++ LPAREN :: arg ++ [RPAREN]) = Ok (ParsedPattern name (if (length arg =? 0)%nat then None else Some arg)).
Proof.
  intros Hf Hn Ht. unfold parsePattern. rewrite Ht. rewrite (break_on_app LPAREN name (arg ++ [RPAREN]) Hf).
  rewrite length_app. cbn [length]. rewrite Nat.add_succ_r. cbn [Nat.eqb negb].
  rewrite bool_decide_true by by rewrite app_comm_cons, app_assoc, last_snoc.
  rewrite removelast_last. destruct name as [|c name]; [done|]. cbn [length Nat.eqb negb]. by destruct (length arg =? 0)%nat.
Qed.

(** * The glob cache *)

Section GlobCache.
Context (compile : jsstr -> option bool -> jsstr -> bool).

Definition GLOB_MATCHER_CACHE_LIMIT : nat := 512.

(** [options] is absent or [{nocase}]. *)
Definition glob_key (pattern : jsstr) (nocase : option bool) : jsstr :=
  match nocase with
  | None => js "0" ++ [10%N] ++ pattern
  | Some b => js "1" ++ (if b then js "i" else js "s") ++ [10%N] ++ pattern
  end.

Definition glob_cache : Type := list (jsstr * (jsstr -> bool)).

Definition cachedGlobMatcher (cache : glob_cache) (pattern : jsstr) (nocase : option bool) : (jsstr -> bool) * glob_cache :=
  let key := glob_key pattern nocase in
  match jget cache key with
  | Some cached => (cached, cache)
  | None =>
      let matcher := compile pattern nocase in
      let cache' := if (GLOB_MATCHER_CACHE_LIMIT <=? length cache)%nat then [] else cache in
      (matcher, jset cache' key matcher)
  end.

Definition cachedGlobIsMatch (cache : glob_cache) (value pattern : jsstr) (nocase : option bool) : bool * glob_cache :=
  let '(matcher, cache') := cachedGlobMatcher cache pattern nocase in (matcher value, cache').

Definition cache_ok (cache : glob_cache) : Prop :=
  (length cache <= GLOB_MATCHER_CACHE_LIMIT)%nat /\
  forall pattern nocase m, jget cache (glob_key pattern nocase) = Some m -> m = compile pattern nocase.

Lemma glob_key_inj p o p' o' : glob_key p o = glob_key p' o' -> p = p' /\ o = o'.
Proof. destruct o as [[]|], o' as [[]|]; cbn; intros [=]; done. Qed.

(** Caching changes no answer, and the cache stays within its bound. *)
Lemma cached_glob_exact cache value pattern nocase :
  cache_ok cache ->
  let '(answer, cache') := cachedGlobIsMatch cache value pattern nocase in
  answer = compile pattern nocase value /\ cache_ok cache'.
Proof.
  intros [Hlen Hok]. unfold cachedGlobIsMatch, cachedGlobMatcher.
  destruct (jget cache (glob_key pattern nocase)) as [m|] eqn:E; [by rewrite (Hok _ _ _ E)|].
  split; [done|]. set (cache' := if (GLOB_MATCHER_CACHE_LIMIT <=? length cache)%nat then [] else cache).
  assert (H' : (length cache' < GLOB_MATCHER_CACHE_LIMIT)%nat /\ jget cache' (glob_key pattern nocase) = None /\
               forall p o m, jget cache' (glob_key p o) = Some m -> m = compile p o).
  { unfold cache'. destruct (Nat.leb_spec GLOB_MATCHER_CACHE_LIMIT (length cache)); [|auto]. split_and!; [cbn; unfold GLOB_MATCHER_CACHE_LIMIT; lia|done|done]. }
  destruct H' as (Hlt & Hn & Hg). split.
  - rewrite (jset_perm_new _ _ _ Hn). cbn [length]. lia.
  - intros p o m. rewrite jget_set. destruct (decide (glob_key pattern nocase = glob_key p o)) as [Hk|Hk]; [|by apply Hg].
    apply glob_key_inj in Hk as [-> ->]. congruence.
Qed.

End GlobCache.

Example parse_examples :
  parsePattern (js " Read(/etc/**) ") = Ok (ParsedPattern (js "Read") (Some (js "/etc/**"))) /\
  parsePattern (js "Write") = Ok (ParsedPattern (js "Write") None) /\
  parsePattern (js "Bash()") = Ok (ParsedPattern (js "Bash") None) /\
  parsePattern (js "Bash(ls") = Err (PatternUnclosed (js "Bash(ls")) /\
  parsePattern (js "(ls)") = Err (PatternNoName (js "(ls)")) /\
  parsePattern (js "  ") = Err PatternEmpty.
Proof. vm_compute. done. Qed.
