(* ===== verification/Guardian.v ===== *)
(** The circuit breaker of the guardian reviewer, [guardian/circuit-breaker.ts]: per
    turn it counts the reviewer's denials, in a row and in a sliding window, and trips
    when either limit is reached. *)

From S2P Require Import Prelude JsMap JsonText.

Record breaker_limits : Type := BreakerLimits { maxConsecutiveDenials : Z; maxWindowDenials : Z; windowSize : Z }.

Definition GUARDIAN_MAX_CONSECUTIVE_DENIALS : Z := 3.
Definition GUARDIAN_MAX_WINDOW_DENIALS : Z := 10.
Definition GUARDIAN_DENIAL_WINDOW_SIZE : Z := 50.

Record breaker_trip : Type := BreakerTrip { trip_tripped : bool; trip_consecutive : Z; trip_window : Z }.

Record breaker_turn : Type := BreakerTurn { consecutiveDenials : Z; recentDenials : list bool; turn_tripped : bool }.

(** [Map<string, GuardianCircuitBreakerTurn>] *)
Abbreviation breaker := (list (jsstr * breaker_turn)).

Definition new_turn : breaker_turn := BreakerTurn 0 [] false.

Definition denials (l : list bool) : Z := blen (filter (fun b => b = true) l).

Section Breaker.
Context (limits : breaker_limits).

Definition tripped (b : breaker) (turnId : jsstr) : bool :=
  match jget b turnId with Some t => turn_tripped t | None => false end.

(** [turn]: the turn's state, created when missing. *)
Definition turn_of (b : breaker) (turnId : jsstr) : breaker_turn := default new_turn (jget b turnId).

Definition recordRecent (recent : list bool) (denied : bool) : list bool :=
  let pushed := recent ++ [denied] in
  if windowSize limits <? blen pushed then tail pushed else pushed.

Definition recordDenial (b : breaker) (turnId : jsstr) : breaker_trip * breaker :=
  let t := turn_of b turnId in
  let consecutive := consecutiveDenials t + 1 in
  let recent := recordRecent (recentDenials t) true in
  let windowDenials := denials recent in
  let justTripped := negb (turn_tripped t) &&
    ((maxConsecutiveDenials limits <=? consecutive) || (maxWindowDenials limits <=? windowDenials)) in
  (BreakerTrip justTripped consecutive windowDenials,
   jset b turnId (BreakerTurn consecutive recent (turn_tripped t || justTripped))).

Definition recordNonDenial (b : breaker) (turnId : jsstr) : breaker :=
  let t := turn_of b turnId in
  jset b turnId (BreakerTurn 0 (recordRecent (recentDenials t) false) (turn_tripped t)).

Definition clearTurn (b : breaker) (turnId : jsstr) : breaker := jdel b turnId.

Definition pruneExcept (b : breaker) (keepTurnId : jsstr) : breaker := filter (fun e => e.1 = keepTurnId) b.

(** * Specification *)

Inductive breaker_call : Type := Denied (turnId : jsstr) | NotDenied (turnId : jsstr) | Cleared (turnId : jsstr) | Pruned (keep : jsstr).

Definition breaker_exec (b : breaker) (c : breaker_call) : breaker :=
  match c with
  | Denied t => (recordDenial b t).2
  | NotDenied t => recordNonDenial b t
  | Cleared t => clearTurn b t
  | Pruned keep => pruneExcept b keep
  end.

(** The verdicts of one turn since it was last dropped ([true]: denied). *)
Definition verdicts_step (t : jsstr) (h : list bool) (c : breaker_call) : list bool :=
  match c with
  | Denied t' => if decide (t' = t) then h ++ [true] else h
  | NotDenied t' => if decide (t' = t) then h ++ [false] else h
  | Cleared t' => if decide (t' = t) then [] else h
  | Pruned keep => if decide (keep = t) then h else []
  end.
Definition verdicts (t : jsstr) (calls : list breaker_call) : list bool := fold_left (verdicts_step t) calls [].

(** The denials at the end of a history, and its last [windowSize] verdicts. *)
Definition in_a_row (h : list bool) : Z := fold_left (fun n (b : bool) => if b then n + 1 else 0) h 0.
Definition window (h : list bool) : list bool := drop (length h - Z.to_nat (windowSize limits)) h.

Definition trips (h : list bool) : Prop :=
  last h = Some true /\
  (maxConsecutiveDenials limits <= in_a_row h \/ maxWindowDenials limits <= denials (window h)).

Definition has_tripped (h : list bool) : Prop := exists h1 h2, h = h1 ++ h2 /\ trips h1.

(** A turn's state holds exactly these. *)
Definition turn_holds (h : list bool) (t : breaker_turn) : Prop :=
  consecutiveDenials t = in_a_row h /\ recentDenials t = window h /\ (turn_tripped t = true <-> has_tripped h).

Lemma in_a_row_snoc h b : in_a_row (h ++ [b]) = if b then in_a_row h + 1 else 0.
Proof. unfold in_a_row. by rewrite fold_left_app. Qed.

Lemma window_snoc h b : recordRecent (window h) b = window (h ++ [b]).
Proof.
  unfold recordRecent, window. rewrite length_app. cbn [length]. unfold blen. rewrite length_app, length_drop. cbn [length].
  set (n := Z.to_nat (windowSize limits)). destruct (Z.ltb_spec (windowSize limits) (Z.of_nat (length h - (length h - n) + 1))).
  - assert (Hn : (n <= length h)%nat) by lia. rewrite <- (drop_app_le h [b]) by lia.
    replace (tail (drop (length h - n) (h ++ [b]))) with (drop 1 (drop (length h - n) (h ++ [b]))) by (generalize (drop (length h - n) (h ++ [b])); by intros []).
    rewrite drop_drop. f_equal. lia.
  - rewrite drop_app_le by lia. f_equal. f_equal. lia.
Qed.

Lemma has_tripped_snoc h b : has_tripped (h ++ [b]) <-> has_tripped h \/ trips (h ++ [b]).
Proof.
  unfold has_tripped. split.
  - intros (h1 & h2 & E & H). destruct h2 as [|x h2 _] using rev_ind; [rewrite app_nil_r in E; subst; by right|].
    rewrite app_assoc in E. apply app_inj_tail in E as [-> ->]. left. by exists h1, h2.
  - intros [(h1 & h2 & -> & H)|H]; [|exists (h ++ [b]), []; by rewrite app_nil_r]. exists h1, (h2 ++ [b]). by rewrite app_assoc.
Qed.

Lemma new_turn_holds : turn_holds [] new_turn.
Proof.
  split_and!; [done|done|]. split; [done|]. intros (h1 & h2 & E & [H _]). symmetry in E. apply app_nil in E as [-> _]. done.
Qed.

Lemma denial_holds h t :
  turn_holds h t ->
  let recent := recordRecent (recentDenials t) true in
  let just := negb (turn_tripped t) &&
    ((maxConsecutiveDenials limits <=? consecutiveDenials t + 1) || (maxWindowDenials limits <=? denials recent)) in
  turn_holds (h ++ [true]) (BreakerTurn (consecutiveDenials t + 1) recent (turn_tripped t || just)) /\
  (just = true <-> ~ has_tripped h /\ trips (h ++ [true])).
Proof.
  intros (Hc & Hw & Ht). cbv zeta. rewrite Hw, window_snoc, Hc.
  assert (Htr : trips (h ++ [true]) <->
    (maxConsecutiveDenials limits <=? in_a_row h + 1) || (maxWindowDenials limits <=? denials (window (h ++ [true]))) = true).
  { unfold trips. rewrite last_snoc, in_a_row_snoc, orb_true_iff, !Z.leb_le. tauto. }
  unfold turn_holds. cbn [consecutiveDenials recentDenials turn_tripped]. rewrite in_a_row_snoc, has_tripped_snoc, <- Ht.
  rewrite Htr. clear Ht Htr.
  generalize ((maxConsecutiveDenials limits <=? in_a_row h + 1) || (maxWindowDenials limits <=? denials (window (h ++ [true])))).
  intros q. destruct (turn_tripped t), q; cbn; intuition congruence.
Qed.

Lemma non_denial_holds h t :
  turn_holds h t -> turn_holds (h ++ [false]) (BreakerTurn 0 (recordRecent (recentDenials t) false) (turn_tripped t)).
Proof.
  intros (Hc & Hw & Ht). unfold turn_holds. cbn [consecutiveDenials recentDenials turn_tripped].
  rewrite in_a_row_snoc, has_tripped_snoc, Hw, window_snoc, <- Ht. split_and!; [done|done|]. split; [tauto|].
  intros [H|[H _]]; [done|]. by rewrite last_snoc in H.
Qed.

Definition breaker_holds (calls : list breaker_call) (b : breaker) : Prop :=
  jwf b /\ forall t, turn_holds (verdicts t calls) (turn_of b t).

Lemma turn_of_set b t t' v : turn_of (jset b t v) t' = if decide (t = t') then v else turn_of b t'.
Proof. unfold turn_of. rewrite jget_set. by destruct (decide (t = t')). Qed.

Lemma breaker_step calls b c : breaker_holds calls b -> breaker_holds (calls ++ [c]) (breaker_exec b c).
Proof.
  intros [Hwf H]. split.
  - destruct c; cbn; [by apply jwf_set|by apply jwf_set|by apply jwf_del|by apply jwf_filter].
  - intros t. unfold verdicts. rewrite fold_left_app. cbn [fold_left]. fold (verdicts t calls). specialize (H t).
    destruct c as [t'|t'|t'|keep]; cbn [breaker_exec verdicts_step recordDenial snd]; unfold recordNonDenial, clearTurn, pruneExcept.
    + rewrite turn_of_set. destruct (decide (t' = t)) as [->|]; [|done]. by apply denial_holds.
    + rewrite turn_of_set. destruct (decide (t' = t)) as [->|]; [|done]. by apply non_denial_holds.
    + unfold turn_of. rewrite jget_del by done. destruct (decide (t' = t)); [apply new_turn_holds|done].
    + unfold turn_of. rewrite jget_filter by done. destruct (jget b t) as [v|] eqn:E; unfold turn_of in H; rewrite E in H.
      * cbn [mbind option_bind fst]. destruct (decide (keep = t)) as [->|Hne]; [by rewrite decide_True|].
        rewrite decide_False by congruence. apply new_turn_holds.
      * destruct (decide (keep = t)); [done|apply new_turn_holds].
Qed.

(** After any sequence of verdicts, clearings and prunings, a turn is tripped
    exactly when at some denial its denials in a row or in the window had reached a
    limit, the trip is reported on that denial only, and the counters are the denials
    in a row and the last [windowSize] verdicts. *)
Theorem breaker_trips_exactly calls turnId :
  let b := fold_left (breaker_exec) calls [] in
  let h := verdicts turnId calls in
  (tripped b turnId = true <-> has_tripped h) /\
  (trip_tripped (recordDenial b turnId).1 = true <-> ~ has_tripped h /\ trips (h ++ [true])) /\
  trip_consecutive (recordDenial b turnId).1 = in_a_row (h ++ [true]) /\
  trip_window (recordDenial b turnId).1 = denials (window (h ++ [true])).
Proof.
  cbv zeta. assert (H : breaker_holds calls (fold_left breaker_exec calls [])).
  { induction calls as [|c calls IH] using rev_ind; [split; [apply jwf_nil|intros t; apply new_turn_holds]|].
    rewrite fold_left_app. by apply breaker_step. }
  destruct H as [_ H]. specialize (H turnId). set (b := fold_left breaker_exec calls []) in *.
  assert (Et : tripped b turnId = turn_tripped (turn_of b turnId)) by (unfold tripped, turn_of; by destruct (jget b turnId)).
  destruct (denial_holds _ _ H) as [_ Hj]. destruct H as (Hc & Hw & Ht). rewrite Et. split; [done|]. split; [exact Hj|].
  unfold recordDenial. cbn [fst trip_consecutive trip_window]. rewrite Hw, window_snoc, Hc, in_a_row_snoc. done.
Qed.

End Breaker.

Example breaker_example :
  let limits := BreakerLimits 3 2 4 in
  let run := fold_left (breaker_exec limits) in
  tripped (run [Denied (js "1"); NotDenied (js "1"); Denied (js "1")] []) (js "1") = true /\
  tripped (run [Denied (js "1"); Denied (js "2")] []) (js "1") = false /\
  tripped (run [Denied (js "1"); Denied (js "1"); Pruned (js "2")] []) (js "1") = false.
Proof. vm_compute. done. Qed.
