(* ===== verification/Permission.v ===== *)
(** The permission chain that decides whether a tool call may run:
    [agent/permission/index.ts] (modes, rules, grants, approvals) and the policies of
    [agent/permission/policies/] in their order. What people and services answer (hook
    outcomes, approval responses, the reviewer's verdict, whether a rule could be saved,
    the git marker found on disk) is an [answers] record; texts of messages are
    constructors with the values they quote. Path and string functions of the language,
    of its library and of pathe, the glob matcher and [JSON.parse] are parameters. *)

From S2P Require Import Prelude JsMap Json JsonText JsString ToolScheduler GitClassify PermissionRules Guardian.

(** * Data *)

Inductive permission_mode : Type := Manual | Yolo | Auto.
#[global] Instance permission_mode_eq_dec : EqDecision permission_mode.
Proof. solve_decision. Defined.

Inductive path_class : Type := Posix | Win32.

Inductive approval_decision : Type := Approved | Rejected | Cancelled.
Inductive approval_scope : Type := ScopeSession | ScopeAlways.
#[global] Instance approval_decision_eq_dec : EqDecision approval_decision.
Proof. solve_decision. Defined.
#[global] Instance approval_scope_eq_dec : EqDecision approval_scope.
Proof. solve_decision. Defined.

Record approval_response : Type := ApprovalResponse {
  ar_decision : approval_decision; ar_scope : option approval_scope; ar_feedback : option jsstr;
  ar_selectedLabel : option jsstr; ar_mode : option permission_mode }.

Inductive grant_surface : Type := ToolApproval | GitMutationGate.
Record session_grant : Type := SessionGrant {
  sg_pattern : jsstr; sg_toolName : jsstr; sg_grantedAtTurnId : jsstr; sg_surface : grant_surface }.

(** A manager; the chain of a manager and its parents is a list, itself first. *)
Record manager : Type := Manager {
  pm_rules : list permission_rule; pm_modeOverride : option permission_mode; pm_grants : list (jsstr * session_grant) }.

Inductive git_setting : Type := GitAllow | GitAsk | GitDeny.
#[global] Instance git_setting_eq_dec : EqDecision git_setting.
Proof. solve_decision. Defined.

Record agent : Type := Agent {
  managers : list manager; is_sub : bool;
  plan_active : bool; plan_file : option jsstr; swarm_active : bool;
  coordinator_worker : bool; teammate : option (option jsstr); has_mailbox : bool;
  rpc_approval : bool; git_mutation_setting : option git_setting;
  guardian_enabled : bool; guardian_limits : breaker_limits; guardian_breaker : breaker; last_turn : option jsstr;
  cwd : jsstr; agent_path_class : path_class; additional_dirs : list jsstr }.

Inductive display : Type :=
| PlanReview (plan : jsstr) (path : option jsstr) (options : option (list jsstr))
| GoalStart
| OtherDisplay.

Record execution : Type := Execution {
  e_match : match_execution; e_accesses : option tool_accesses; e_display : option display;
  e_approvalRule : jsstr; e_approvalRules : option (list jsstr); e_gitClasses : option (list (option git_class)) }.

Record tool_call : Type := ToolCall {
  c_name : jsstr; c_args : json; c_arguments : option jsstr; c_batch : list jsstr; c_turn : jsstr; c_execution : execution }.

(** What the PreToolUse hooks, the person or leader asked, the reviewer and the file
    system answer. *)
Record hook_result : Type := HookResult {
  h_block : bool; h_reason : option jsstr; h_ask : bool; h_updatedInput : option json }.

Inductive review_result : Type := ReviewAllow | ReviewDeny (rationale : jsstr) | ReviewFailed (kind : jsstr).

Record answers : Type := Answers {
  a_hooks : option (list hook_result); a_aborted : bool;
  a_response : option approval_response; a_persisted : bool;
  a_review : review_result; a_marker : option (jsstr * jsstr); a_exit_fails : bool }.

Inductive policy_name : Type :=
| PreToolCallHook | AgentSwarmExclusiveDeny | CoordinatorWorkerSpawnDeny | TeammateSpawnDeny | WorktreeTeammateDeny
| AutoModeAskUserQuestionDeny | PlanModeGuardDeny | UserConfiguredDeny | SessionApprovalHistory | GitMutationGatePolicy
| GuardianReview | AutoModeApprove | UserConfiguredAsk | UserConfiguredAllow | ExitPlanModeReviewAsk | GoalStartReviewAsk
| PlanModeToolApprove | WorktreeToolApprove | SensitiveFileAccessAsk | GitControlPathAccessAsk | YoloModeApprove
| SwarmModeAgentSwarmApprove | DefaultToolApprove | GitCwdWriteApprove | FallbackAsk.
#[global] Instance policy_name_eq_dec : EqDecision policy_name.
Proof. solve_decision. Defined.

Inductive block_message : Type :=
| BlockedByHook (reason : option jsstr)
| MultipleSwarms (hasOtherToolCalls : bool) | MixedSwarm
| WorkerSpawn | NestedTeammate | BackgroundAgent | TeammateWorktree | AskUserQuestionInAuto
| PlanModeWrite (planFilePath : option jsstr) | PlanModeTaskStop | PlanModeCron (tool : jsstr)
| DeniedByRule (tool : jsstr) (reason : option jsstr) (sub : bool)
| GitMutationsBlocked (tool : jsstr) (c : git_class) | GitNeedsApproval (tool : jsstr) (c : git_class)
| GuardianSuspended (tool : jsstr) | GuardianRejected (rationale : jsstr) | GuardianFailed (tool kind : jsstr)
| ApprovalRefused (tool : jsstr) (cancelled : bool) (feedback : option jsstr) (sub : bool)
| AuthorizationFailed | SideQuestion.

Inductive plan_outcome : Type :=
| PlanApproved (plan : jsstr) (path chosen : option jsstr) (feedback : jsstr)
| PlanExitFailed | PlanDismissed | PlanRejectedAndExited | PlanRejectedWithFeedback (feedback : jsstr)
| PlanRevisionRequested | PlanRejected.

(** [PrepareToolExecutionResult | undefined]: run, run with other arguments, refuse, or
    answer without running. *)
Inductive prepare : Type :=
| Proceed | ProceedWith (updatedArgs : json) | Block (m : block_message) | Synthetic (o : plan_outcome).

(** The [resolveApproval] closures of the policies that ask. *)
Inductive resolver : Type :=
| NoResolver | KeepRewrite (updatedInput : option json) | ResolvePlan (plan : jsstr) (path : option jsstr) (options : option (list jsstr))
| ResolveGoalStart.

Inductive resolution : Type :=
| Approve | Deny (m : block_message) | Ask (gate : option git_class) (r : resolver) | Result (p : prepare).

Inductive failure : Type := Aborted | ApprovalFailed.

(** * Modes, rules and grants *)

Fixpoint mode_of (chain : list manager) : permission_mode :=
  match chain with [] => Manual | m :: parents => default (mode_of parents) (pm_modeOverride m) end.
Definition mode (a : agent) : permission_mode := mode_of (managers a).

Definition effectiveRules (chain : list manager) : list permission_rule := concat (pm_rules <$> chain).
Definition sessionApprovalRulePatterns (chain : list manager) : list jsstr := concat ((fun m => jkeys (pm_grants m)) <$> chain).
Definition sessionApprovalRules (chain : list manager) : list permission_rule :=
  (fun p => PermissionRule RuleAllow SessionRuntime p (Some (js "approve for session"))) <$> sessionApprovalRulePatterns chain.
Definition sessionApprovalGrants (chain : list manager) : list session_grant := concat ((fun m => (pm_grants m).*2) <$> chain).

Definition with_managers (a : agent) (ms : list manager) : agent :=
  Agent ms (is_sub a) (plan_active a) (plan_file a) (swarm_active a) (coordinator_worker a) (teammate a) (has_mailbox a)
    (rpc_approval a) (git_mutation_setting a) (guardian_enabled a) (guardian_limits a) (guardian_breaker a) (last_turn a)
    (cwd a) (agent_path_class a) (additional_dirs a).

Definition with_breaker (a : agent) (b : breaker) (turn : option jsstr) : agent :=
  Agent (managers a) (is_sub a) (plan_active a) (plan_file a) (swarm_active a) (coordinator_worker a) (teammate a) (has_mailbox a)
    (rpc_approval a) (git_mutation_setting a) (guardian_enabled a) (guardian_limits a) b turn
    (cwd a) (agent_path_class a) (additional_dirs a).

(** [planMode.exit()] *)
Definition exit_plan (a : agent) : agent :=
  Agent (managers a) (is_sub a) false None (swarm_active a) (coordinator_worker a) (teammate a) (has_mailbox a)
    (rpc_approval a) (git_mutation_setting a) (guardian_enabled a) (guardian_limits a) (guardian_breaker a) (last_turn a)
    (cwd a) (agent_path_class a) (additional_dirs a).

Definition setMode (a : agent) (m : permission_mode) : agent :=
  match managers a with
  | [] => a
  | self :: parents => with_managers a (Manager (pm_rules self) (Some m) (pm_grants self) :: parents)
  end.

(** [recordApprovalResult], after the records are written. *)
Definition recordApprovalResult (a : agent) (c : tool_call) (rule : option jsstr) (rules : option (list jsstr))
    (response : approval_response) (surface : grant_surface) : agent :=
  if negb (bool_decide (ar_decision response = Approved)) || negb (bool_decide (ar_scope response = Some ScopeSession)) then a
  else
    match (match rules with Some rs => Some rs | None => (fun r => [r]) <$> rule end), managers a with
    | Some patterns, self :: parents =>
        let grants := fold_left (fun g p => jset g p (SessionGrant p (c_name c) (c_turn c) surface)) patterns (pm_grants self) in
        with_managers a (Manager (pm_rules self) (pm_modeOverride self) grants :: parents)
    | _, _ => a
    end.

Definition ALWAYS_APPROVAL_RULE_REASON : jsstr := js "approve always".
Definition always_rule (p : jsstr) : permission_rule := PermissionRule RuleAllow UserScope p (Some ALWAYS_APPROVAL_RULE_REASON).

(** The loop over the patterns: append those no allow rule has yet. *)
Definition append_always (rules : list permission_rule) (known : list jsstr) (patterns : list jsstr) : list permission_rule * list jsstr :=
  fold_left (fun '(rules, known) p =>
    if set_has known p then (rules, known) else (rules ++ [always_rule p], p :: known)) patterns (rules, known).

Definition allow_patterns (rules : list permission_rule) : list jsstr :=
  pr_pattern <$> filter (fun r => pr_decision r = RuleAllow) rules.

(** [rootManager] is the last of the chain. *)
Fixpoint update_root (f : manager -> manager) (chain : list manager) : list manager :=
  match chain with [] => [] | [m] => [f m] | m :: parents => m :: update_root f parents end.

Definition adoptAlwaysApprovalRules (a : agent) (patterns : list jsstr) : agent :=
  with_managers a (update_root (fun root =>
    Manager (append_always (pm_rules root) (allow_patterns (pm_rules root)) patterns).1 (pm_modeOverride root) (pm_grants root))
    (managers a)).

(** * Paths *)

Section Chain.
Context (lower basename normalize : jsstr -> jsstr) (relative : path_class -> jsstr -> jsstr -> jsstr)
  (glob : jsstr -> jsstr -> bool) (JSON_parse : jsstr -> option json).

Definition SENSITIVE_BASENAMES : list jsstr := js <$> [".env"; "id_rsa"; "id_ed25519"; "id_ecdsa"; "credentials"]%string.
Definition SENSITIVE_PATH_SUFFIXES : list (list jsstr) := [[js ".aws"; js "credentials"]; [js ".gcp"; js "credentials"]].
Definition ENV_EXEMPTIONS : list jsstr := js <$> [".env.example"; ".env.sample"; ".env.template"]%string.
Definition SENSITIVE_BASENAME_PREFIXES : list jsstr := js <$> ["id_rsa"; "id_ed25519"; "id_ecdsa"; "credentials"]%string.
Definition PUBLIC_KEY_BASENAMES : list jsstr := js <$> ["id_rsa.pub"; "id_ed25519.pub"; "id_ecdsa.pub"]%string.
Definition SENSITIVE_DOT_VARIANT_SUFFIXES : list jsstr :=
  js <$> [".bak"; ".backup"; ".copy"; ".disabled"; ".key"; ".old"; ".orig"; ".pem"; ".save"; ".tmp"]%string.

Fixpoint includes (s p : jsstr) : bool :=
  starts_with s p || match s with [] => false | _ :: s' => includes s' p end.
Definition ends_with (s p : jsstr) : bool := bool_decide (p `suffix_of` s).

Definition sensitive_variant (name prefix : jsstr) : bool :=
  bool_decide (name = prefix) ||
  ((length prefix <? length name)%nat && starts_with name prefix &&
   let suffix := drop (length prefix) name in
   match suffix with
   | next :: _ => (next =? 45)%N || (next =? 95)%N || ((next =? 46)%N && set_has SENSITIVE_DOT_VARIANT_SUFFIXES suffix)
   | [] => false
   end).

Definition isSensitiveFile (path : jsstr) : bool :=
  let name := lower (basename path) in
  let p := lower path in
  if set_has ENV_EXEMPTIONS name then false
  else if set_has PUBLIC_KEY_BASENAMES name then false
  else if set_has SENSITIVE_BASENAMES name then true
  else if starts_with name (js ".env.") then true
  else existsb (sensitive_variant name) SENSITIVE_BASENAME_PREFIXES ||
       existsb (fun parts => let suffix := lower (join_with [SLASH] parts) in
                             ends_with p (SLASH :: suffix) || includes p (SLASH :: suffix ++ [SLASH])) SENSITIVE_PATH_SUFFIXES.

Definition isWithinDirectory (candidate base : jsstr) (pc : path_class) : bool :=
  let fold s := match pc with Win32 => lower s | Posix => s end in
  let c := fold (normalize candidate) in
  let b := fold (normalize base) in
  bool_decide (c = b) || starts_with c (path_prefix b).

Definition isWithinWorkspace (candidate workspaceDir : jsstr) (additionalDirs : list jsstr) (pc : path_class) : bool :=
  isWithinDirectory candidate workspaceDir pc || existsb (fun dir => isWithinDirectory candidate dir pc) additionalDirs.

Definition fileAccesses (c : tool_call) : list file_access :=
  omap (fun x => match x with AccessFile f => Some f | AccessAll => None end) (default [] (e_accesses (c_execution c))).
Definition writeFileAccesses (c : tool_call) : list file_access :=
  filter (fun f => fileOperationWrites (fa_operation f) = true) (fileAccesses c).

(** [split(/[\\/]+/)] without the empty parts *)
Definition relativePathParts (target base : jsstr) (pc : path_class) : list jsstr :=
  filter (fun p => p <> []) (mbind (split_on BACKSLASH) (split_on SLASH (relative pc base target))).

Definition hasGitPathComponent (target base : jsstr) (pc : path_class) : bool :=
  existsb (fun part => is_text (lower part) ".git") (relativePathParts target base pc).

Definition isGitControlPath (target : jsstr) (marker : jsstr * jsstr) (pc : path_class) : bool :=
  isWithinDirectory target marker.1 pc || isWithinDirectory target marker.2 pc.

(** * Policies *)

(** What a policy answers, and the agent afterwards (only the guardian changes it). *)
Abbreviation verdict := (result failure (option resolution)).
Definition policy : Type := agent -> tool_call -> answers -> verdict * agent.

(** A policy that only looks. *)
Definition pure_policy (f : agent -> tool_call -> answers -> option resolution) : policy := fun a c ans => (Ok (f a c ans), a).

Definition named (c : tool_call) (name : string) : bool := is_text (c_name c) name.

Definition recordArgs (args : json) : option (list (jsstr * json)) := match args with JObject fields => Some fields | _ => None end.
Definition parseArguments (argumentsJson : option jsstr) : option (list (jsstr * json)) :=
  match argumentsJson with None => None | Some s => JSON_parse s ≫= recordArgs end.
Definition arg (c : tool_call) (name : string) : option json :=
  match (match recordArgs (c_args c) with Some f => Some f | None => parseArguments (c_arguments c) end) with
  | Some fields => jget fields (js name)
  | None => None
  end.

Definition preToolCallHook : policy := fun a c ans =>
  if a_aborted ans then (Err Aborted, a) else
  match default [] (a_hooks ans) with
  | [] => (Ok None, a)
  | results =>
      (Ok (match List.find h_block results with
           | Some block =>
               let reason := trim <$> h_reason block in
               Some (Deny (BlockedByHook (if bool_decide (default [] reason = []) then None else reason)))
           | None =>
               let updatedInput := List.find (fun r => bool_decide (is_Some (h_updatedInput r))) results ≫= h_updatedInput in
               if existsb h_ask results then Some (Ask None (KeepRewrite updatedInput))
               else match updatedInput with Some u => Some (Result (ProceedWith u)) | None => None end
           end), a)
  end.

Definition agentSwarmExclusiveDeny : policy := pure_policy (fun a c _ =>
  let swarms := length (filter (fun n => n = js "AgentSwarm") (c_batch c)) in
  if (swarms =? 0)%nat then None
  else if (swarms =? 1)%nat && (length (c_batch c) =? 1)%nat then None
  else Some (Deny (if (1 <? swarms)%nat then MultipleSwarms (swarms <? length (c_batch c))%nat else MixedSwarm))).

Definition coordinatorWorkerSpawnDeny : policy := pure_policy (fun a c _ =>
  if negb (coordinator_worker a) then None
  else if negb (named c "Agent") && negb (named c "AgentSwarm") then None
  else Some (Deny WorkerSpawn)).

Definition teammateSpawnDeny : policy := pure_policy (fun a c _ =>
  if negb (bool_decide (is_Some (teammate a))) then None
  else if negb (named c "Agent") then None
  else if match arg c "name" with Some (JString s) => negb (bool_decide (trim s = [])) | _ => false end then Some (Deny NestedTeammate)
  else if match arg c "run_in_background" with Some (JBool b) => b | _ => false end then Some (Deny BackgroundAgent)
  else None).

Definition worktreeTeammateDeny : policy := pure_policy (fun a c _ =>
  if negb (bool_decide (is_Some (teammate a))) then None
  else if negb (named c "EnterWorktree") && negb (named c "ExitWorktree") then None
  else Some (Deny TeammateWorktree)).

Definition autoModeAskUserQuestionDeny : policy := pure_policy (fun a c _ =>
  if negb (bool_decide (mode a = Auto)) then None
  else if negb (named c "AskUserQuestion") then None
  else Some (Deny AskUserQuestionInAuto)).

Definition is_edit (c : tool_call) : bool := named c "Write" || named c "Edit".

Definition planModeGuardDeny : policy := pure_policy (fun a c _ =>
  if negb (plan_active a) then None
  else if is_edit c then
    match plan_file a with
    | None => Some (Deny (PlanModeWrite None))
    | Some p =>
        let ws := writeFileAccesses c in
        if negb (length ws =? 0)%nat && forallb (fun f => bool_decide (fa_path f = p)) ws then None
        else Some (Deny (PlanModeWrite (Some p)))
    end
  else if named c "TaskStop" then Some (Deny PlanModeTaskStop)
  else if named c "CronCreate" || named c "CronDelete" then Some (Deny (PlanModeCron (c_name c)))
  else None).

Definition user_scope (s : rule_scope) : bool := match s with SessionRuntime => false | _ => true end.

Definition userConfiguredRules (a : agent) (d : rule_decision) : list permission_rule :=
  filter (fun r => user_scope (pr_scope r) = true /\ pr_decision r = d) (effectiveRules (managers a)).

(** The first rule of the list that matches the call. *)
Fixpoint first_match (rules : list permission_rule) (c : tool_call) : option rule_match :=
  match rules with
  | [] => None
  | r :: rules' =>
      match matchPermissionRule glob r (c_name c) (e_match (c_execution c)) with
      | Some m => Some m
      | None => first_match rules' c
      end
  end.

Definition userConfiguredDeny : policy := pure_policy (fun a c _ =>
  match first_match (userConfiguredRules a RuleDeny) c with
  | None => None
  | Some m => Some (Deny (DeniedByRule (c_name c) (pr_reason (rm_rule m)) (is_sub a)))
  end).

Definition covered_by (rules : list permission_rule) (c : tool_call) : bool :=
  match collectCoveredSubjects glob rules (c_name c) (e_match (c_execution c)) with
  | Some cover => fullyCovered cover
  | None => false
  end.

(** One set of allow rules approves a call: by covering its segments, or, when it has
    none, by a single match. *)
Definition sessionApprovalHistory : policy := pure_policy (fun a c _ =>
  let rules := sessionApprovalRules (managers a) in
  match ruleMatch (e_match (c_execution c)) with
  | Some _ => if covered_by rules c then Some Approve else None
  | None => match first_match rules c with Some _ => Some Approve | None => None end
  end).

Definition allowUnionRules (a : agent) : list permission_rule :=
  sessionApprovalRules (managers a) ++ userConfiguredRules a RuleAllow.

Definition MUTATION_CLASS_RANK : list git_class := [ConfigInjection; SharedRemote; HistoryWrite; GitUnknown; LocalWrite].

Fixpoint rank_in (c : git_class) (l : list git_class) : nat :=
  match l with [] => 0 | c' :: l' => if bool_decide (c = c') then 0%nat else S (rank_in c l') end.

Definition representativeMutationClass (classes : option (list (option git_class))) : option git_class :=
  fold_left (fun best gc =>
    match gc with
    | None | Some GitRead => best
    | Some c => match best with
                | Some b => if (rank_in c MUTATION_CLASS_RANK <? rank_in b MUTATION_CLASS_RANK)%nat then Some c else best
                | None => Some c
                end
    end) (default [] classes) None.

Definition gitMutationGate : policy := pure_policy (fun a c _ =>
  if bool_decide (mode a = Yolo) then None else
  let setting := default GitAsk (git_mutation_setting a) in
  if bool_decide (setting = GitAllow) then None else
  match representativeMutationClass (e_gitClasses (c_execution c)) with
  | None => None
  | Some gc =>
      if covered_by (allowUnionRules a) c then Some Approve
      else if bool_decide (setting = GitDeny) then Some (Deny (GitMutationsBlocked (c_name c) gc))
      else if negb (rpc_approval a) then Some (Deny (GitNeedsApproval (c_name c) gc))
      else Some (Ask (Some gc) NoResolver)
  end).

Definition DEFAULT_APPROVE_TOOLS : list jsstr :=
  js <$> ["Read"; "Grep"; "Glob"; "ReadMediaFile"; "SetTodoList"; "TodoList"; "TaskList"; "TaskOutput"; "CronList";
          "WebSearch"; "FetchURL"; "Agent"; "AskUserQuestion"; "Skill"; "GetGoal"; "SetGoalBudget"; "UpdateGoal"; "select_tools"]%string.
Definition SESSION_TRANSPORT_TOOLS : list jsstr := [js "WriteStdin"].

Definition pruneBreakerFor (a : agent) (turnId : jsstr) : agent :=
  if bool_decide (last_turn a = Some turnId) then a
  else with_breaker a (pruneExcept (guardian_breaker a) turnId) (Some turnId).

Definition guardianReview : policy := fun a c ans =>
  if negb (guardian_enabled a) || negb (bool_decide (mode a = Auto)) then (Ok None, a)
  else if set_has DEFAULT_APPROVE_TOOLS (c_name c) then (Ok None, a)
  else if set_has SESSION_TRANSPORT_TOOLS (c_name c) then (Ok None, a)
  else
    let a := pruneBreakerFor a (c_turn c) in
    let interactive := rpc_approval a in
    let b := guardian_breaker a in
    if tripped b (c_turn c) then
      (Ok (Some (if interactive then Ask None NoResolver else Deny (GuardianSuspended (c_name c)))), a)
    else
      match a_review ans with
      | ReviewAllow => (Ok (Some Approve), with_breaker a (recordNonDenial (guardian_limits a) b (c_turn c)) (last_turn a))
      | ReviewDeny rationale =>
          (Ok (Some (Deny (GuardianRejected rationale))), with_breaker a (recordDenial (guardian_limits a) b (c_turn c)).2 (last_turn a))
      | ReviewFailed kind =>
          (Ok (Some (if interactive then Ask None NoResolver else Deny (GuardianFailed (c_name c) kind))),
           with_breaker a (recordNonDenial (guardian_limits a) b (c_turn c)) (last_turn a))
      end.

Definition autoModeApprove : policy := pure_policy (fun a _ _ => if bool_decide (mode a = Auto) then Some Approve else None).

Definition userConfiguredAsk : policy := pure_policy (fun a c _ =>
  match first_match (userConfiguredRules a RuleAsk) c with Some _ => Some (Ask None NoResolver) | None => None end).

Definition userConfiguredAllow : policy := pure_policy (fun a c _ =>
  match ruleMatch (e_match (c_execution c)) with
  | Some _ =>
      match collectCoveredSubjects glob (allowUnionRules a) (c_name c) (e_match (c_execution c)) with
      | Some cover => if fullyCovered cover && bool_decide (is_Some (firstMatch cover)) then Some Approve else None
      | None => None
      end
  | None => match first_match (userConfiguredRules a RuleAllow) c with Some _ => Some Approve | None => None end
  end).

Definition exitPlanModeReviewAsk : policy := pure_policy (fun a c _ =>
  if negb (named c "ExitPlanMode") then None
  else if bool_decide (mode a = Auto) then None
  else if negb (plan_active a) then None
  else match e_display (c_execution c) with
       | Some (PlanReview plan path options) =>
           if bool_decide (trim plan = []) then None else Some (Ask None (ResolvePlan plan path options))
       | _ => None
       end).

Definition goalStartReviewAsk : policy := pure_policy (fun a c _ =>
  if negb (named c "CreateGoal") then None
  else if bool_decide (mode a = Auto) then None
  else match e_display (c_execution c) with Some GoalStart => Some (Ask None ResolveGoalStart) | _ => None end).

Definition planModeToolApprove : policy := pure_policy (fun a c _ =>
  if named c "EnterPlanMode" then Some Approve
  else if is_edit c && plan_active a &&
          match plan_file a with
          | None => false
          | Some p => forallb (fun f => bool_decide (fa_path f = p)) (writeFileAccesses c)
          end then Some Approve
  else if named c "ExitPlanMode" then
    if negb (plan_active a) then Some Approve
    else match e_display (c_execution c) with
         | Some (PlanReview plan _ _) => if bool_decide (trim plan = []) then Some Approve else None
         | _ => Some Approve
         end
  else None).

Definition worktreeToolApprove : policy := pure_policy (fun a c _ =>
  if named c "EnterWorktree" then Some Approve
  else if named c "ExitWorktree" then
    match arg c "action" with
    | Some (JString s) => if is_text s "remove" then None else Some Approve
    | _ => Some Approve
    end
  else None).

Definition sensitiveFileAccessAsk : policy := pure_policy (fun a c _ =>
  match List.find (fun f => isSensitiveFile (fa_path f)) (fileAccesses c) with
  | Some _ => Some (Ask None NoResolver) | None => None end).

Definition gitControlPathAccessAsk : policy := pure_policy (fun a c ans =>
  if bool_decide (cwd a = []) then None
  else if (length (fileAccesses c) =? 0)%nat then None
  else match List.find (fun f => hasGitPathComponent (fa_path f) (cwd a) (agent_path_class a)) (fileAccesses c) with
       | Some _ => Some (Ask None NoResolver)
       | None =>
           match a_marker ans with
           | None => None
           | Some marker =>
               match List.find (fun f => isGitControlPath (fa_path f) marker (agent_path_class a)) (fileAccesses c) with
               | Some _ => Some (Ask None NoResolver) | None => None end
           end
       end).

Definition yoloModeApprove : policy := pure_policy (fun a _ _ => if bool_decide (mode a = Yolo) then Some Approve else None).

Definition swarmModeAgentSwarmApprove : policy := pure_policy (fun a c _ =>
  if negb (named c "AgentSwarm") then None else if negb (swarm_active a) then None else Some Approve).

Definition defaultToolApprove : policy := pure_policy (fun a c _ =>
  if negb (set_has DEFAULT_APPROVE_TOOLS (c_name c)) && negb (set_has SESSION_TRANSPORT_TOOLS (c_name c)) then None else Some Approve).

Definition gitCwdWriteApprove : policy := pure_policy (fun a c ans =>
  if negb (is_edit c) then None
  else if match agent_path_class a with Posix => false | Win32 => true end then None
  else if bool_decide (cwd a = []) then None
  else if (length (writeFileAccesses c) =? 0)%nat then None
  else if negb (forallb (fun f => isWithinWorkspace (fa_path f) (cwd a) (additional_dirs a) Posix) (writeFileAccesses c)) then None
  else match a_marker ans with None => None | Some _ => Some Approve end).

Definition fallbackAsk : policy := pure_policy (fun _ _ _ => Some (Ask None NoResolver)).

Definition createPermissionDecisionPolicies : list (policy_name * policy) :=
  [(PreToolCallHook, preToolCallHook); (AgentSwarmExclusiveDeny, agentSwarmExclusiveDeny);
   (CoordinatorWorkerSpawnDeny, coordinatorWorkerSpawnDeny); (TeammateSpawnDeny, teammateSpawnDeny);
   (WorktreeTeammateDeny, worktreeTeammateDeny); (AutoModeAskUserQuestionDeny, autoModeAskUserQuestionDeny);
   (PlanModeGuardDeny, planModeGuardDeny); (UserConfiguredDeny, userConfiguredDeny);
   (SessionApprovalHistory, sessionApprovalHistory); (GitMutationGatePolicy, gitMutationGate);
   (GuardianReview, guardianReview); (AutoModeApprove, autoModeApprove);
   (UserConfiguredAsk, userConfiguredAsk); (UserConfiguredAllow, userConfiguredAllow);
   (ExitPlanModeReviewAsk, exitPlanModeReviewAsk); (GoalStartReviewAsk, goalStartReviewAsk);
   (PlanModeToolApprove, planModeToolApprove); (WorktreeToolApprove, worktreeToolApprove);
   (SensitiveFileAccessAsk, sensitiveFileAccessAsk); (GitControlPathAccessAsk, gitControlPathAccessAsk);
   (YoloModeApprove, yoloModeApprove); (SwarmModeAgentSwarmApprove, swarmModeAgentSwarmApprove);
   (DefaultToolApprove, defaultToolApprove); (GitCwdWriteApprove, gitCwdWriteApprove); (FallbackAsk, fallbackAsk)].

(** The first policy with an answer decides. *)
Fixpoint evaluatePolicies (ps : list (policy_name * policy)) (a : agent) (c : tool_call) (ans : answers)
    : result failure (option (policy_name * resolution)) * agent :=
  match ps with
  | [] => (Ok None, a)
  | (name, p) :: ps' =>
      match p a c ans with
      | (Err f, a') => (Err f, a')
      | (Ok (Some r), a') => (Ok (Some (name, r)), a')
      | (Ok None, a') => evaluatePolicies ps' a' c ans
      end
  end.

(** * Approvals *)

(** A teammate's question goes to its leader. *)
Definition bridged (a : agent) : bool := match teammate a with Some (Some _) => has_mailbox a | _ => false end.

Definition toPermissionMode (label : option jsstr) : option permission_mode :=
  match label with
  | Some l => if is_text l "auto" then Some Auto else if is_text l "yolo" then Some Yolo
              else if is_text l "manual" then Some Manual else None
  | None => None
  end.

Definition switch_mode (a : agent) (m : option permission_mode) : agent :=
  match m with
  | Some m => if bool_decide (m = mode a) then a else setMode a m
  | None => a
  end.

Definition exitPlanMode (a : agent) (ans : answers) : option plan_outcome * agent :=
  if a_exit_fails ans then (Some PlanExitFailed, a) else (None, exit_plan a).

Definition selectedExitPlanModeOption (options : option (list jsstr)) (label : option jsstr) : option jsstr :=
  match options, label with
  | Some os, Some l => List.find (fun o => bool_decide (o = l)) os
  | _, _ => None
  end.

Definition rejectedExitPlanMode (a : agent) (ans : answers) (r : approval_response) : plan_outcome * agent :=
  if bool_decide (ar_decision r = Cancelled) then (PlanDismissed, a)
  else if bool_decide (ar_selectedLabel r = Some (js "Reject and Exit")) then
    let '(failed, a') := exitPlanMode a ans in (default PlanRejectedAndExited failed, a')
  else
    let feedback := default [] (ar_feedback r) in
    if bool_decide (ar_selectedLabel r = Some (js "Revise")) || negb (bool_decide (feedback = [])) then
      (if bool_decide (feedback = []) then PlanRevisionRequested else PlanRejectedWithFeedback feedback, a)
    else (PlanRejected, a).

Definition exitPlanModeApproval (a : agent) (ans : answers) (r : approval_response) (plan : jsstr) (path : option jsstr)
    (options : option (list jsstr)) : plan_outcome * agent :=
  if negb (bool_decide (ar_decision r = Approved)) then rejectedExitPlanMode a ans r
  else
    let selected := selectedExitPlanModeOption options (ar_selectedLabel r) in
    let '(failed, a1) := exitPlanMode a ans in
    match failed with
    | Some f => (f, a1)
    | None => (PlanApproved plan path selected (trim (default [] (ar_feedback r))), switch_mode a1 (ar_mode r))
    end.

(** [resolveApproval(response)]: [None] leaves the decision to the response. *)
Definition resolveApproval (res : resolver) (a : agent) (ans : answers) (r : approval_response) : option prepare * agent :=
  match res with
  | NoResolver => (None, a)
  | KeepRewrite updatedInput =>
      (match updatedInput with
       | Some u => if bool_decide (ar_decision r = Approved) then Some (ProceedWith u) else None
       | None => None
       end, a)
  | ResolvePlan plan path options =>
      let '(o, a') := exitPlanModeApproval a ans r plan path options in (Some (Synthetic o), a')
  | ResolveGoalStart =>
      (None, if bool_decide (ar_decision r = Approved) then switch_mode a (toPermissionMode (ar_selectedLabel r)) else a)
  end.

(** Nobody to ask: the response of the last branch. *)
Definition auto_approved : approval_response := ApprovalResponse Approved None None None None.

Definition always_to_session (r : approval_response) : approval_response :=
  ApprovalResponse (ar_decision r) (Some ScopeSession) (ar_feedback r) (ar_selectedLabel r) (ar_mode r).

Definition is_always (r : approval_response) : bool :=
  bool_decide (ar_decision r = Approved) && bool_decide (ar_scope r = Some ScopeAlways).
Definition for_session (r : approval_response) : bool :=
  bool_decide (ar_decision r = Approved) && bool_decide (ar_scope r = Some ScopeSession).

(** The write-back of an "always" approval and its degradation to the session. *)
Definition persist_always (a : agent) (c : tool_call) (ans : answers) (r : approval_response) : agent * approval_response :=
  if is_always r then
    if a_persisted ans
    then (adoptAlwaysApprovalRules a (default [e_approvalRule (c_execution c)] (e_approvalRules (c_execution c))), r)
    else (a, always_to_session r)
  else (a, r).

Definition record_response (a : agent) (c : tool_call) (name : policy_name) (r : approval_response) : agent :=
  recordApprovalResult a c
    (if for_session r then Some (e_approvalRule (c_execution c)) else None)
    (if for_session r then e_approvalRules (c_execution c) else None)
    r (if bool_decide (name = GitMutationGatePolicy) then GitMutationGate else ToolApproval).

Definition requestToolApproval (a : agent) (c : tool_call) (ans : answers) (res : resolver) (name : policy_name)
    : result failure prepare * agent :=
  match (if bridged a || rpc_approval a then a_response ans else Some auto_approved) with
  | None => (Err ApprovalFailed, a)
  | Some response =>
      let '(a1, response) := persist_always a c ans response in
      let a2 := record_response a1 c name response in
      let '(resolved, a3) := resolveApproval res a2 ans response in
      match resolved with
      | Some p => (Ok p, a3)
      | None =>
          (Ok (if bool_decide (ar_decision response = Approved) then Proceed
               else Block (ApprovalRefused (c_name c) (bool_decide (ar_decision response = Cancelled)) (ar_feedback response) (is_sub a3))),
           a3)
      end
  end.

Definition permissionPolicyResolutionToPrepare (a : agent) (c : tool_call) (ans : answers) (name : policy_name) (r : resolution)
    : result failure prepare * agent :=
  match r with
  | Approve => (Ok Proceed, a)
  | Deny m => (Ok (Block m), a)
  | Ask _ res => requestToolApproval a c ans res name
  | Result p => (Ok p, a)
  end.

Definition beforeToolCall (a : agent) (c : tool_call) (ans : answers) : result failure prepare * agent :=
  match evaluatePolicies createPermissionDecisionPolicies a c ans with
  | (Err f, a') => (Err f, a')
  | (Ok None, a') => (Ok Proceed, a')
  | (Ok (Some (name, r)), a') => permissionPolicyResolutionToPrepare a' c ans name r
  end.

(** [runAuthorizeToolExecutionHook]: a failed check refuses the call. *)
Definition authorize (a : agent) (c : tool_call) (ans : answers) : prepare * agent :=
  match beforeToolCall a c ans with
  | (Ok p, a') => (p, a')
  | (Err _, a') => (Block AuthorizationFailed, a')
  end.

(** [deny-all], put before the other policies of an agent that may not use tools. *)
Definition denyAll : policy := pure_policy (fun _ _ _ => Some (Deny SideQuestion)).

Inductive escalation : Type := EscalateOnce | EscalateSession | EscalateReject.

(** [requestSandboxEscalation]: nobody to ask, or an error, rejects; no rule is recorded. *)
Definition requestSandboxEscalation (a : agent) (c : tool_call) (ans : answers) : escalation * agent :=
  if negb (rpc_approval a) then (EscalateReject, a)
  else match a_response ans with
       | None => (EscalateReject, a)
       | Some r =>
           (if negb (bool_decide (ar_decision r = Approved)) then EscalateReject
            else if bool_decide (ar_scope r = Some ScopeSession) then EscalateSession else EscalateOnce,
            recordApprovalResult a c None None r ToolApproval)
       end.

(** * The chain as a whole *)

(** The hooks have nothing to say about the call. *)
Definition silent (ans : answers) : Prop :=
  a_aborted ans = false /\
  Forall (fun r => h_block r = false /\ h_ask r = false /\ h_updatedInput r = None) (default [] (a_hooks ans)).

Definition passes (p : policy) a c ans : Prop := p a c ans = (Ok None, a).
Definition denies (p : policy) a c ans : Prop := exists m, p a c ans = (Ok (Some (Deny m)), a).

Lemma pure_passes f a c ans : f a c ans = None -> passes (pure_policy f) a c ans.
Proof. unfold passes, pure_policy. by intros ->. Qed.

Lemma pure_denies f a c ans m : f a c ans = Some (Deny m) -> denies (pure_policy f) a c ans.
Proof. unfold denies, pure_policy. intros ->. by exists m. Qed.

Lemma find_none_iff {A} (f : A -> bool) l : List.find f l = None <-> forall x, In x l -> f x = false.
Proof.
  split; [apply find_none|]. intros H. destruct (List.find f l) as [x|] eqn:E; [|done].
  apply find_some in E as [Hin Hx]. rewrite H in Hx; done.
Qed.

Lemma silent_hook a c ans : silent ans -> passes preToolCallHook a c ans.
Proof.
  intros [Ha H]. unfold passes, preToolCallHook. rewrite Ha. set (rs := default [] (a_hooks ans)) in *. clearbody rs.
  destruct rs as [|r rs]; [done|]. f_equal. f_equal.
  assert (H1 : List.find h_block (r :: rs) = None).
  { destruct (List.find _ _) as [x|] eqn:E; [|done]. apply find_some in E as [Hin Hb]. rewrite Forall_forall in H.
    apply list_elem_of_In in Hin. destruct (H x Hin) as (Hn & _). congruence. }
  assert (H2 : existsb h_ask (r :: rs) = false).
  { apply not_true_iff_false. intros (x & Hin & Hb)%existsb_exists. rewrite Forall_forall in H.
    apply list_elem_of_In in Hin. destruct (H x Hin) as (_ & Hn & _). congruence. }
  assert (H3 : List.find (fun r => bool_decide (is_Some (h_updatedInput r))) (r :: rs) = None).
  { apply find_none_iff. intros x Hin%list_elem_of_In. rewrite Forall_forall in H. destruct (H x Hin) as (_ & _ & E3).
    by rewrite E3. }
  by rewrite H1, H2, H3.
Qed.

Lemma evaluate_pass n p ps a c ans : passes p a c ans -> evaluatePolicies ((n, p) :: ps) a c ans = evaluatePolicies ps a c ans.
Proof. unfold passes. cbn. by intros ->. Qed.

(** A chain that starts with policies that pass or deny denies as soon as one does. *)
Lemma evaluate_denies ps rest a c ans :
  Forall (fun np => passes np.2 a c ans \/ denies np.2 a c ans) ps -> Exists (fun np => denies np.2 a c ans) ps ->
  exists n m, evaluatePolicies (ps ++ rest) a c ans = (Ok (Some (n, Deny m)), a).
Proof.
  induction 1 as [|[n p] ps [Hp|[m Hd]] _ IH]; [by intros ?%Exists_nil| |].
  - intros [[m' Hd]|He]%Exists_cons; [cbn in Hd; unfold passes in Hp; cbn in Hp; congruence|].
    destruct (IH He) as (n' & m' & E). exists n', m'. cbn [app]. by rewrite evaluate_pass.
  - intros _. exists n, m. cbn in *. by rewrite Hd.
Qed.

(** Which policy decided, and that those before it passed. *)
Definition keeps (p : policy) a c ans : Prop := forall a', p a c ans = (Ok None, a') -> a' = a.

Lemma evaluate_inv ps a c ans n r a' :
  Forall (fun np => keeps np.2 a c ans) ps -> evaluatePolicies ps a c ans = (Ok (Some (n, r)), a') ->
  exists ps1 p ps2, ps = ps1 ++ (n, p) :: ps2 /\ p a c ans = (Ok (Some r), a') /\ Forall (fun np => passes np.2 a c ans) ps1.
Proof.
  induction 1 as [|[n' p] ps Hk _ IH]; cbn [evaluatePolicies]; [done|]. destruct (p a c ans) as [[[r'|]|f] a1] eqn:E.
  - intros [= -> -> ->]. exists [], p, ps. split_and!; [done|done|constructor].
  - assert (a1 = a) as -> by by apply Hk. intros H. destruct (IH H) as (ps1 & p' & ps2 & -> & Hp & Hf).
    exists ((n', p) :: ps1), p', ps2. split_and!; [done|done|by constructor].
  - done.
Qed.

Lemma pure_keeps f a c ans : keeps (pure_policy f) a c ans.
Proof. unfold keeps, pure_policy. by intros a' [= _ ->]. Qed.

Lemma guardian_keeps a c ans : keeps guardianReview a c ans.
Proof. unfold keeps, guardianReview. intros a'. repeat case_match; congruence. Qed.

Lemma hook_keeps a c ans : keeps preToolCallHook a c ans.
Proof. unfold keeps, preToolCallHook. intros a'. repeat case_match; congruence. Qed.

Lemma chain_keeps a c ans : Forall (fun np => keeps np.2 a c ans) createPermissionDecisionPolicies.
Proof. repeat constructor; cbn [snd]; first [apply hook_keeps|apply guardian_keeps|apply pure_keeps]. Qed.

(** * Denials *)

(** The calls the chain must refuse whatever the mode, grants and answers. *)
Inductive must_deny (a : agent) (c : tool_call) : Prop :=
| deny_swarm : js "AgentSwarm" ∈ c_batch c -> length (c_batch c) <> 1%nat -> must_deny a c
| deny_worker : coordinator_worker a = true -> c_name c = js "Agent" \/ c_name c = js "AgentSwarm" -> must_deny a c
| deny_nested s : is_Some (teammate a) -> c_name c = js "Agent" -> arg c "name" = Some (JString s) -> trim s <> [] -> must_deny a c
| deny_background : is_Some (teammate a) -> c_name c = js "Agent" -> arg c "run_in_background" = Some (JBool true) -> must_deny a c
| deny_worktree : is_Some (teammate a) -> c_name c = js "EnterWorktree" \/ c_name c = js "ExitWorktree" -> must_deny a c
| deny_question : mode a = Auto -> c_name c = js "AskUserQuestion" -> must_deny a c
| deny_plan_edit : plan_active a = true -> c_name c = js "Write" \/ c_name c = js "Edit" ->
    (forall p, plan_file a = Some p -> writeFileAccesses c = [] \/ exists f, f ∈ writeFileAccesses c /\ fa_path f <> p) -> must_deny a c
| deny_plan_tool : plan_active a = true -> c_name c ∈ [js "TaskStop"; js "CronCreate"; js "CronDelete"] -> must_deny a c
| deny_rule r : r ∈ effectiveRules (managers a) -> pr_scope r <> SessionRuntime -> pr_decision r = RuleDeny ->
    is_Some (matchPermissionRule glob r (c_name c) (e_match (c_execution c))) -> must_deny a c.

Definition deny_policies : list (policy_name * policy) :=
  [(AgentSwarmExclusiveDeny, agentSwarmExclusiveDeny); (CoordinatorWorkerSpawnDeny, coordinatorWorkerSpawnDeny);
   (TeammateSpawnDeny, teammateSpawnDeny); (WorktreeTeammateDeny, worktreeTeammateDeny);
   (AutoModeAskUserQuestionDeny, autoModeAskUserQuestionDeny); (PlanModeGuardDeny, planModeGuardDeny);
   (UserConfiguredDeny, userConfiguredDeny)].

Lemma chain_split : createPermissionDecisionPolicies = (PreToolCallHook, preToolCallHook) :: deny_policies ++ drop 8 createPermissionDecisionPolicies.
Proof. reflexivity. Qed.

Lemma named_true c s : c_name c = js s -> named c s = true.
Proof. intros E. unfold named, is_text. by apply bool_decide_eq_true. Qed.

Lemma named_false c s : c_name c <> js s -> named c s = false.
Proof. intros E. unfold named, is_text. by apply bool_decide_eq_false. Qed.

(** Each of the seven passes or denies. *)
Lemma pure_pass_or_deny f a c ans :
  (forall r, f a c ans = Some r -> exists m, r = Deny m) -> passes (pure_policy f) a c ans \/ denies (pure_policy f) a c ans.
Proof.
  intros H. destruct (f a c ans) as [r|] eqn:E; [|left; by apply pure_passes]. destruct (H r eq_refl) as [m ->].
  right. by eapply pure_denies.
Qed.

Lemma deny_policies_deny a c ans : Forall (fun np => passes np.2 a c ans \/ denies np.2 a c ans) deny_policies.
Proof.
  unfold deny_policies. rewrite !Forall_cons. cbn [snd].
  split_and!; [..|by apply Forall_nil]; apply pure_pass_or_deny; intros r Hr; cbv beta zeta in Hr; repeat case_match; simplify_eq; eauto.
Qed.

(** A pure policy that answers something denies, when it only ever denies. *)
Lemma pure_answers f a c ans :
  passes (pure_policy f) a c ans \/ denies (pure_policy f) a c ans -> f a c ans <> None -> denies (pure_policy f) a c ans.
Proof. intros [Hp|Hd] Hn; [|done]. unfold passes, pure_policy in Hp. congruence. Qed.

Lemma first_match_some rules c r :
  r ∈ rules -> is_Some (matchPermissionRule glob r (c_name c) (e_match (c_execution c))) -> is_Some (first_match rules c).
Proof.
  induction rules as [|r' rules IH]; [by intros ?%not_elem_of_nil|]. intros [-> |Hin]%elem_of_cons Hm; cbn.
  - destruct Hm as [m ->]. done.
  - destruct (matchPermissionRule _ r' _ _); [done|]. auto.
Qed.

Lemma first_match_in rules c m :
  first_match rules c = Some m -> exists r, r ∈ rules /\ matchPermissionRule glob r (c_name c) (e_match (c_execution c)) = Some m.
Proof.
  induction rules as [|r' rules IH]; cbn; [done|]. destruct (matchPermissionRule glob r' _ _) eqn:E.
  - intros [= ->]. exists r'. split; [apply list_elem_of_here|done].
  - intros H. destruct (IH H) as (r & Hin & Hm). exists r. split; [by apply list_elem_of_further|done].
Qed.

Lemma swarm_counts batch :
  js "AgentSwarm" ∈ batch -> length batch <> 1%nat ->
  let swarms := length (filter (fun n => n = js "AgentSwarm") batch) in
  (swarms =? 0)%nat = false /\ ((swarms =? 1)%nat && (length batch =? 1)%nat) = false.
Proof.
  intros Hin Hl. split.
  - apply Nat.eqb_neq. intros H0. apply length_zero_iff_nil in H0.
    assert (Hf : js "AgentSwarm" ∈ filter (fun n => n = js "AgentSwarm") batch) by (by apply list_elem_of_filter). rewrite H0 in Hf.
    by apply not_elem_of_nil in Hf.
  - apply andb_false_iff. right. by apply Nat.eqb_neq.
Qed.

Lemma must_deny_denies a c ans : must_deny a c -> Exists (fun np => denies np.2 a c ans) deny_policies.
Proof.
  pose proof (deny_policies_deny a c ans) as Hall. unfold deny_policies in *.
  rewrite !Forall_cons in Hall. cbn [snd] in Hall. destruct Hall as (H1 & H2 & H3 & H4 & H5 & H6 & H7 & _).
  intros Hd. rewrite !Exists_cons. cbn [snd]. destruct Hd as [Hin Hl|Hw Hn|s Ht Hn Ha Hs|Ht Hn Ha|Ht Hn|Hm Hn|Hp Hn Hw|Hp Hn|r Hr Hs Hr' Hm].
  - left. apply (pure_answers _ _ _ _ H1); cbv beta zeta. destruct (swarm_counts _ Hin Hl) as [-> ->]. done.
  - do 1 right. left. apply (pure_answers _ _ _ _ H2); cbv beta zeta. rewrite Hw. cbn. destruct Hn as [Hn|Hn]; apply named_true in Hn; rewrite Hn; by rewrite ?andb_false_r.
  - do 2 right. left. apply (pure_answers _ _ _ _ H3); cbv beta zeta. rewrite bool_decide_true by done. rewrite (named_true _ _ Hn), Ha. cbn.
    by rewrite bool_decide_false.
  - do 2 right. left. apply (pure_answers _ _ _ _ H3); cbv beta zeta. rewrite bool_decide_true by done. rewrite (named_true _ _ Hn), Ha. cbn. by case_match.
  - do 3 right. left. apply (pure_answers _ _ _ _ H4); cbv beta zeta. rewrite bool_decide_true by done. destruct Hn as [Hn|Hn]; rewrite (named_true _ _ Hn); by rewrite ?andb_false_r.
  - do 4 right. left. apply (pure_answers _ _ _ _ H5); cbv beta zeta. rewrite bool_decide_true by done. by rewrite (named_true _ _ Hn).
  - do 5 right. left. apply (pure_answers _ _ _ _ H6); cbv beta zeta. rewrite Hp. cbn [negb]. assert (is_edit c = true) as ->.
    { unfold is_edit. destruct Hn as [Hn|Hn]; rewrite (named_true _ _ Hn); [done|apply orb_true_r]. }
    destruct (plan_file a) as [p|]; [|done]. destruct (Hw p eq_refl) as [-> |(f & Hf & Hne)]; [done|].
    assert (forallb (fun f => bool_decide (fa_path f = p)) (writeFileAccesses c) = false) as ->; [|by rewrite andb_false_r].
    apply not_true_iff_false. intros HF. rewrite forallb_forall in HF. apply list_elem_of_In in Hf. specialize (HF f Hf).
    by apply bool_decide_eq_true in HF.
  - do 5 right. left. apply (pure_answers _ _ _ _ H6); cbv beta zeta. rewrite Hp. cbn [negb]. unfold is_edit.
    apply elem_of_cons in Hn as [Hn|[Hn|Hn%list_elem_of_singleton]%elem_of_cons]; unfold named; rewrite Hn; by vm_compute.
  - do 6 right. left. apply (pure_answers _ _ _ _ H7); cbv beta zeta.
    destruct (first_match_some (userConfiguredRules a RuleDeny) c r) as [m ->]; [|done|done].
    unfold userConfiguredRules. apply list_elem_of_filter. split; [|done]. split; [|done]. by destruct (pr_scope r).
Qed.

(** C5. When the PreToolUse hooks are silent, a call that a user deny rule matches, or
    that breaks a rule on swarms, workers, teammates, worktrees, plan mode or questions
    in auto mode, is refused: no mode, grant, allow rule, approval, reviewer or caller
    can let it run, and the refusal changes nothing. *)
Theorem hard_denies_hold a c ans :
  silent ans -> must_deny a c -> exists m, authorize a c ans = (Block m, a).
Proof.
  intros Hs Hd. unfold authorize, beforeToolCall. rewrite chain_split, (evaluate_pass _ _ _ _ _ _ (silent_hook a c ans Hs)).
  destruct (evaluate_denies deny_policies (drop 8 createPermissionDecisionPolicies) a c ans (deny_policies_deny a c ans)
              (must_deny_denies a c ans Hd)) as (n & m & ->).
  by exists m.
Qed.

(** But a hook that rewrites the call's input decides alone: the rewritten call runs
    although a deny rule, or any other condition above, forbids it. *)
Lemma hook_rewrite_bypasses_denies a c u resp pers rev marker ef :
  authorize a c (Answers (Some [HookResult false None false (Some u)]) false resp pers rev marker ef) = (ProceedWith u, a).
Proof. reflexivity. Qed.

(** * Approvals *)

Definition runs (p : prepare) : Prop := p = Proceed \/ exists u, p = ProceedWith u.

(** Somebody was asked and said yes; or there is nobody to ask. *)
Definition human_approved (a : agent) (ans : answers) : Prop :=
  bridged a || rpc_approval a = true /\ exists r, a_response ans = Some r /\ ar_decision r = Approved.
Definition unattended (a : agent) : Prop := bridged a || rpc_approval a = false.

(** The standing allow rules and session grants approve the call. *)
Definition granted (a : agent) (c : tool_call) : Prop :=
  match ruleMatch (e_match (c_execution c)) with
  | Some _ => covered_by (allowUnionRules a) c = true
  | None => is_Some (first_match (allowUnionRules a) c)
  end.

(** What that means: every segment of a decomposable call is covered by some allow rule,
    or one allow rule matches the call. *)
Definition grant_covers (a : agent) (c : tool_call) : Prop :=
  match ruleMatch (e_match (c_execution c)) with
  | Some rm => subjects rm <> [] /\ forall s, s ∈ subjects rm ->
      exists rule, rule ∈ allowUnionRules a /\ rule_covers glob (c_name c) (e_match (c_execution c)) rm s rule
  | None => exists rule m, rule ∈ allowUnionRules a /\ matchPermissionRule glob rule (c_name c) (e_match (c_execution c)) = Some m
  end.

Lemma granted_covers a c : granted a c -> grant_covers a c.
Proof.
  unfold granted, grant_covers, covered_by. destruct (ruleMatch _) as [rm|] eqn:E.
  - destruct (collectCoveredSubjects glob _ _ _) as [k|] eqn:Ek; [|done]. intros Hk.
    destruct (cover_exact _ _ _ _ _ Ek) as (rm' & Er & [H _]). assert (rm' = rm) as -> by congruence. auto.
  - intros [m H]. destruct (first_match_in _ _ _ H) as (r & Hin & Hm). eauto.
Qed.

(** The calls the guardian reviews in auto mode. *)
Definition reviewed (a : agent) (c : tool_call) : Prop :=
  guardian_enabled a = true /\ set_has DEFAULT_APPROVE_TOOLS (c_name c) = false /\ set_has SESSION_TRANSPORT_TOOLS (c_name c) = false.

(** Why a call may run without a question. *)
Inductive may_run (a : agent) (c : tool_call) (ans : answers) : Prop :=
| run_granted : grant_covers a c -> may_run a c ans
| run_yolo : mode a = Yolo -> may_run a c ans
| run_auto : mode a = Auto -> ~ reviewed a c -> may_run a c ans
| run_reviewed : mode a = Auto -> a_review ans = ReviewAllow ->
    tripped (guardian_breaker (pruneBreakerFor a (c_turn c))) (c_turn c) = false -> may_run a c ans
| run_default : set_has DEFAULT_APPROVE_TOOLS (c_name c) || set_has SESSION_TRANSPORT_TOOLS (c_name c) = true -> may_run a c ans
| run_swarm : swarm_active a = true -> c_name c = js "AgentSwarm" -> may_run a c ans
| run_plan_tool : c_name c = js "EnterPlanMode" \/ c_name c = js "ExitPlanMode" -> may_run a c ans
| run_plan_edit p : is_edit c = true -> plan_active a = true -> plan_file a = Some p ->
    (forall f, f ∈ writeFileAccesses c -> fa_path f = p) -> may_run a c ans
| run_worktree : c_name c = js "EnterWorktree" \/ c_name c = js "ExitWorktree" /\ arg c "action" <> Some (JString (js "remove")) ->
    may_run a c ans
| run_cwd_edit m : is_edit c = true -> agent_path_class a = Posix -> a_marker ans = Some m ->
    (forall f, f ∈ writeFileAccesses c -> isWithinWorkspace (fa_path f) (cwd a) (additional_dirs a) Posix = true) -> may_run a c ans.

(** What a policy may answer: a denial, a question, or an approval with a reason. *)
Definition justified (a : agent) (c : tool_call) (ans : answers) (r : resolution) : Prop :=
  (exists m, r = Deny m) \/ (exists g res, r = Ask g res) \/ (r = Approve /\ may_run a c ans).

Lemma named_spec c s : named c s = true <-> c_name c = js s.
Proof. unfold named, is_text. apply bool_decide_eq_true. Qed.

Lemma covered_mono rules rules' c : covered_by rules c = true -> rules ⊆ rules' -> covered_by rules' c = true.
Proof.
  unfold covered_by. destruct (collectCoveredSubjects glob rules _ _) as [k|] eqn:E; [|done]. intros Hk Hsub.
  destruct (cover_exact _ _ _ _ _ E) as (rm & Hr & [H _]). destruct (H Hk) as [Hne Hall].
  destruct (collectCoveredSubjects glob rules' _ _) as [k'|] eqn:E'.
  - destruct (cover_exact _ _ _ _ _ E') as (rm' & Hr' & [_ H']). assert (rm' = rm) as -> by congruence. apply H'. split; [done|].
    intros s Hs. destruct (Hall s Hs) as (r & Hin & Hc). eauto.
  - unfold collectCoveredSubjects in E'. rewrite Hr in E'. by destruct (fold_left _ _ _).
Qed.

Lemma first_match_mono rules rules' c : is_Some (first_match rules c) -> rules ⊆ rules' -> is_Some (first_match rules' c).
Proof.
  intros [m H] Hsub. destruct (first_match_in _ _ _ H) as (r & Hin & Hm). eapply first_match_some; [by apply Hsub|eauto].
Qed.

Lemma session_justified a c ans r a' : sessionApprovalHistory a c ans = (Ok (Some r), a') -> a' = a /\ r = Approve /\ granted a c.
Proof.
  unfold sessionApprovalHistory, pure_policy, granted, allowUnionRules. cbv zeta. intros [= H <-]. split; [done|].
  set (rules := sessionApprovalRules _) in *. assert (Hs : rules ⊆ rules ++ userConfiguredRules a RuleAllow) by set_solver.
  destruct (ruleMatch _) as [rm|].
  - destruct (covered_by rules c) eqn:E; [|done]. split; [congruence|]. by eapply covered_mono.
  - destruct (first_match rules c) eqn:E; [|done]. split; [congruence|]. eapply first_match_mono; [by rewrite E|done].
Qed.

Lemma allow_justified a c ans r a' : userConfiguredAllow a c ans = (Ok (Some r), a') -> a' = a /\ r = Approve /\ granted a c.
Proof.
  unfold userConfiguredAllow, pure_policy, granted, covered_by. intros [= H <-]. split; [done|]. destruct (ruleMatch _) as [rm|].
  - destruct (collectCoveredSubjects _ _ _ _) as [k|]; [|done]. destruct (fullyCovered k); [|done].
    destruct (bool_decide _); [|done]. split; [by injection H as <-|done].
  - destruct (first_match (userConfiguredRules a RuleAllow) c) eqn:E; [|done]. split; [by injection H as <-|].
    eapply first_match_mono; [by rewrite E|]. unfold allowUnionRules. set_solver.
Qed.

Lemma gate_justified a c ans r a' : gitMutationGate a c ans = (Ok (Some r), a') -> a' = a /\ justified a c ans r.
Proof.
  unfold gitMutationGate, pure_policy. cbv zeta. intros [= H <-]. split; [done|]. unfold justified.
  destruct (bool_decide (mode a = Yolo)); [done|]. destruct (bool_decide (default GitAsk _ = GitAllow)); [done|].
  destruct (representativeMutationClass _); [|done]. destruct (covered_by _ c) eqn:E.
  - injection H as <-. right. right. split; [done|]. apply run_granted, granted_covers. unfold granted, covered_by, collectCoveredSubjects in *.
    by destruct (ruleMatch _).
  - repeat case_match; simplify_eq; eauto 6.
Qed.

Lemma guardian_justified a c ans r a' :
  guardianReview a c ans = (Ok (Some r), a') -> (bridged a' = bridged a /\ rpc_approval a' = rpc_approval a) /\ justified a c ans r.
Proof.
  unfold guardianReview, justified. destruct (guardian_enabled a); cbn [negb orb]; [|done].
  destruct (bool_decide_reflect (mode a = Auto)) as [Hm|]; [|done]. cbn [negb].
  destruct (set_has DEFAULT_APPROVE_TOOLS _); [done|]. destruct (set_has SESSION_TRANSPORT_TOOLS _); [done|].
  assert (Hp : bridged (pruneBreakerFor a (c_turn c)) = bridged a /\ rpc_approval (pruneBreakerFor a (c_turn c)) = rpc_approval a).
  { unfold pruneBreakerFor. by case_match. }
  set (a1 := pruneBreakerFor a (c_turn c)) in *. cbv zeta. destruct (tripped _ _) eqn:Et.
  - intros [= <- <-]. split; [done|]. case_match; eauto 6.
  - destruct (a_review ans) as [|m|k] eqn:Er; intros [= <- <-]; (split; [done|]); [|eauto|case_match; eauto 6].
    right. right. split; [done|]. by apply run_reviewed.
Qed.

Lemma guardian_passes a c ans : passes guardianReview a c ans -> mode a = Auto -> ~ reviewed a c.
Proof.
  unfold passes, guardianReview, reviewed. intros H Hm (Hg & Hd & Ht). rewrite Hg, Hd, Ht, bool_decide_true in H by done. cbn [negb orb] in H.
  repeat case_match; done.
Qed.

(** Policies whose answers do not depend on the ones before them. *)
Definition answers_justified (p : policy) a c ans : Prop :=
  forall r a', p a c ans = (Ok (Some r), a') -> (bridged a' = bridged a /\ rpc_approval a' = rpc_approval a) /\ justified a c ans r.

Lemma pure_justified f a c ans : (forall r, f a c ans = Some r -> justified a c ans r) -> answers_justified (pure_policy f) a c ans.
Proof. intros H r a' [= E <-]. split; [done|]. by apply H. Qed.

Ltac ask_or_deny := intros r Hr; cbv beta zeta in Hr; unfold justified; repeat case_match; simplify_eq; eauto 6.

Lemma plan_tool_justified a c ans : answers_justified planModeToolApprove a c ans.
Proof.
  apply pure_justified. intros r. destruct (named c "EnterPlanMode") eqn:E1.
  { intros [= <-]. right. right. split; [done|]. apply run_plan_tool. left. by apply named_spec. }
  destruct (is_edit c && plan_active a && _) eqn:E2.
  - intros [= <-]. right. right. split; [done|]. apply andb_true_iff in E2 as [[He Hp]%andb_true_iff Hf].
    destruct (plan_file a) as [p|] eqn:Ep; [|done]. eapply run_plan_edit; [done..|]. intros f Hin%list_elem_of_In.
    rewrite forallb_forall in Hf. specialize (Hf f Hin). by apply bool_decide_eq_true in Hf.
  - destruct (named c "ExitPlanMode") eqn:E3; [|done]. apply named_spec in E3. intros H. assert (r = Approve) as ->.
    { repeat case_match; congruence. }
    right. right. split; [done|]. apply run_plan_tool. by right.
Qed.

Lemma worktree_justified a c ans : answers_justified worktreeToolApprove a c ans.
Proof.
  apply pure_justified. intros r. destruct (named c "EnterWorktree") eqn:E1.
  { intros [= <-]. right. right. split; [done|]. apply run_worktree. left. by apply named_spec. }
  destruct (named c "ExitWorktree") eqn:E2; [|done]. apply named_spec in E2. intros H.
  assert (r = Approve /\ arg c "action" <> Some (JString (js "remove"))) as [-> Ha].
  { destruct (arg c "action") as [[| | |s| |]|]; try (split; congruence). unfold is_text in H.
    destruct (bool_decide_reflect (s = js "remove")) as [|Hne]; [done|]. split; congruence. }
  right. right. split; [done|]. apply run_worktree. by right.
Qed.

Lemma cwd_justified a c ans : answers_justified gitCwdWriteApprove a c ans.
Proof.
  apply pure_justified. intros r. destruct (is_edit c) eqn:He; cbn [negb]; [|done].
  destruct (agent_path_class a) eqn:Ec; [|done]. destruct (bool_decide (cwd a = [])); [done|].
  destruct (length (writeFileAccesses c) =? 0)%nat; [done|]. destruct (forallb _ _) eqn:Ef; cbn [negb]; [|done].
  destruct (a_marker ans) as [m|] eqn:Em; [|done]. intros [= <-]. right. right. split; [done|]. eapply run_cwd_edit; [done..|].
  intros f Hin%list_elem_of_In. rewrite forallb_forall in Ef. by apply Ef.
Qed.

Definition rest_policies : list (policy_name * policy) := drop 11 createPermissionDecisionPolicies.

Lemma rest_justified a c ans :
  (mode a = Auto -> ~ reviewed a c) -> Forall (fun np => answers_justified np.2 a c ans) rest_policies.
Proof.
  intros Hauto. unfold rest_policies, createPermissionDecisionPolicies. cbn [drop]. rewrite !Forall_cons. cbn [snd].
  split_and!; [..|by apply Forall_nil].
  - apply pure_justified. intros r. destruct (bool_decide_reflect (mode a = Auto)) as [Hm|]; [|done]. intros [= <-].
    right. right. split; [done|]. apply run_auto; auto.
  - apply pure_justified. ask_or_deny.
  - intros r a' H. destruct (allow_justified _ _ _ _ _ H) as (-> & -> & Hg). split; [done|]. right. right. split; [done|by apply run_granted, granted_covers].
  - apply pure_justified. ask_or_deny.
  - apply pure_justified. ask_or_deny.
  - apply plan_tool_justified.
  - apply worktree_justified.
  - apply pure_justified. ask_or_deny.
  - apply pure_justified. ask_or_deny.
  - apply pure_justified. intros r. destruct (bool_decide_reflect (mode a = Yolo)) as [Hm|]; [|done]. intros [= <-].
    right. right. split; [done|]. by apply run_yolo.
  - apply pure_justified. intros r. destruct (named c "AgentSwarm") eqn:E; [|done]. destruct (swarm_active a) eqn:Es; [|done].
    intros [= <-]. right. right. split; [done|]. apply run_swarm; [done|by apply named_spec].
  - apply pure_justified. intros r. destruct (set_has DEFAULT_APPROVE_TOOLS (c_name c) || set_has SESSION_TRANSPORT_TOOLS (c_name c)) eqn:E.
    + apply orb_true_iff in E as E'. cbv beta. intros H. assert (r = Approve) as -> by (destruct E' as [E1|E1]; rewrite E1, ?andb_false_r in H; cbn in H; congruence).
      right. right. split; [done|]. by apply run_default.
    + apply orb_false_iff in E as [E1 E2]. rewrite E1, E2. done.
  - apply cwd_justified.
  - apply pure_justified. ask_or_deny.
Qed.

(** The hook, the denials, the standing session grants, the git gate and the guardian. *)
Definition head_policies : list (policy_name * policy) :=
  (PreToolCallHook, preToolCallHook) :: deny_policies ++
  [(SessionApprovalHistory, sessionApprovalHistory); (GitMutationGatePolicy, gitMutationGate); (GuardianReview, guardianReview)].

Lemma chain_head_rest : createPermissionDecisionPolicies = head_policies ++ rest_policies.
Proof. reflexivity. Qed.

Lemma evaluate_app ps1 ps2 a c ans :
  evaluatePolicies (ps1 ++ ps2) a c ans =
  match evaluatePolicies ps1 a c ans with (Ok None, a') => evaluatePolicies ps2 a' c ans | other => other end.
Proof.
  revert a. induction ps1 as [|[n p] ps1 IH]; intros a; [done|]. cbn. destruct (p a c ans) as [[[r|]|f] a']; [done|apply IH|done].
Qed.

Lemma evaluate_none ps a c ans a' :
  Forall (fun np => keeps np.2 a c ans) ps -> evaluatePolicies ps a c ans = (Ok None, a') ->
  a' = a /\ Forall (fun np => passes np.2 a c ans) ps.
Proof.
  induction 1 as [|[n p] ps Hk _ IH]; cbn [evaluatePolicies]; [intros [= ->]; by split|].
  destruct (p a c ans) as [[[r|]|f] a1] eqn:E; [done| |done]. assert (a1 = a) as -> by by apply Hk.
  intros H. destruct (IH H) as [-> Hp]. split; [done|]. by constructor.
Qed.

Lemma head_justified a c ans n p r a' :
  silent ans -> (n, p) ∈ head_policies -> p a c ans = (Ok (Some r), a') ->
  (bridged a' = bridged a /\ rpc_approval a' = rpc_approval a) /\ justified a c ans r.
Proof.
  intros Hs Hin Hp. unfold head_policies in Hin. apply elem_of_cons in Hin as [[= -> ->]|Hin].
  { rewrite (silent_hook a c ans Hs) in Hp. done. }
  apply elem_of_app in Hin as [Hin|Hin].
  { pose proof (deny_policies_deny a c ans) as Hd. rewrite Forall_forall in Hd. destruct (Hd _ Hin) as [Hx|[m Hx]]; cbn in Hx;
      [unfold passes in Hx; congruence|]. rewrite Hx in Hp. injection Hp as <- <-. split; [done|]. left. eauto. }
  apply elem_of_cons in Hin as [[= -> ->]|[[= -> ->]|[= -> ->]%list_elem_of_singleton]%elem_of_cons].
  - destruct (session_justified _ _ _ _ _ Hp) as (-> & -> & Hg). split; [done|]. right. right. split; [done|by apply run_granted, granted_covers].
  - destruct (gate_justified _ _ _ _ _ Hp) as [-> Hj]. done.
  - by apply guardian_justified.
Qed.

(** Every answer the chain gives with silent hooks is justified. *)
Lemma chain_justified a c ans n r a' :
  silent ans -> evaluatePolicies createPermissionDecisionPolicies a c ans = (Ok (Some (n, r)), a') ->
  (bridged a' = bridged a /\ rpc_approval a' = rpc_approval a) /\ justified a c ans r.
Proof.
  intros Hs. pose proof (chain_keeps a c ans) as Hk. rewrite chain_head_rest in Hk |- *. apply Forall_app in Hk as [Hk1 Hk2].
  rewrite evaluate_app. destruct (evaluatePolicies head_policies a c ans) as [[[[n1 r1]|]|f] a1] eqn:Eh; [| |done].
  - intros [= -> -> ->]. destruct (evaluate_inv _ _ _ _ _ _ _ Hk1 Eh) as (ps1 & p & ps2 & E & Hp & _).
    apply (head_justified a c ans n p); [done| |done]. rewrite E. set_solver.
  - destruct (evaluate_none _ _ _ _ _ Hk1 Eh) as [-> Hpass]. intros H.
    destruct (evaluate_inv _ _ _ _ _ _ _ Hk2 H) as (ps1 & p & ps2 & E & Hp & _).
    assert (Hg : passes guardianReview a c ans).
    { rewrite Forall_forall in Hpass. apply (Hpass (GuardianReview, guardianReview)). unfold head_policies. set_solver. }
    pose proof (rest_justified a c ans (guardian_passes a c ans Hg)) as Hr. rewrite Forall_forall in Hr.
    apply (Hr (n, p)); [rewrite E; set_solver|done].
Qed.

(** A question lets the call run only after a yes, or when there is nobody to ask. *)
Lemma ask_runs a c ans res n p a' :
  requestToolApproval a c ans res n = (Ok p, a') -> runs p -> unattended a \/ human_approved a ans.
Proof.
  unfold requestToolApproval, unattended, human_approved. destruct (bridged a || rpc_approval a); [|auto].
  destruct (a_response ans) as [resp|] eqn:Er; [|done]. intros H Hruns. right. split; [done|]. exists resp. split; [done|].
  destruct (persist_always a c ans resp) as [a1 resp'] eqn:Ep.
  assert (Hd : ar_decision resp' = ar_decision resp) by (unfold persist_always in Ep; repeat case_match; by simplify_eq).
  destruct (resolveApproval res (record_response a1 c n resp') ans resp') as [[o|] a2] eqn:E.
  - injection H as <- <-. destruct res as [|u|plan path opts|]; cbn in E; [done| | |done].
    + destruct u as [u|]; [|done]. destruct (bool_decide_reflect (ar_decision resp' = Approved)); [congruence|done].
    + destruct (exitPlanModeApproval _ _ _ _ _ _) as [o' a3]. injection E as <- <-. by destruct Hruns as [?|[? ?]].
  - injection H as <- <-. destruct (bool_decide_reflect (ar_decision resp' = Approved)); [congruence|]. by destruct Hruns as [?|[? ?]].
Qed.

(** The last policy always answers. *)
Lemma chain_answers a c ans a' : evaluatePolicies createPermissionDecisionPolicies a c ans <> (Ok None, a').
Proof.
  change createPermissionDecisionPolicies with (take 24 createPermissionDecisionPolicies ++ [(FallbackAsk, fallbackAsk)]).
  rewrite evaluate_app. destruct (evaluatePolicies _ a c ans) as [[[[n r]|]|f] a1]; done.
Qed.

(** C14. When the hooks are silent a call runs only if a person asked about it approved
    it, or nobody can be asked, or one of the listed reasons holds: every segment of it is
    covered by a standing allow rule or session grant, the mode is yolo, auto mode does not review it or the
    reviewer allowed it this turn with the breaker closed, or it is one of the tools
    and edits (plan file, worktree, inside the work tree) the chain lets through. *)
Theorem runs_are_justified a c ans :
  silent ans -> runs (authorize a c ans).1 -> unattended a \/ human_approved a ans \/ may_run a c ans.
Proof.
  intros Hs. unfold authorize, beforeToolCall.
  destruct (evaluatePolicies createPermissionDecisionPolicies a c ans) as [[[[n r]|]|f] a'] eqn:E.
  - destruct (chain_justified _ _ _ _ _ _ Hs E) as [[Eb Er] [[m ->]|[(g & res & ->)|[-> Hm]]]]; cbn [permissionPolicyResolutionToPrepare].
    + by intros [?|[? ?]].
    + destruct (requestToolApproval a' c ans res n) as [[p|f] a2] eqn:Ea; cbn [fst].
      * intros Hr. destruct (ask_runs _ _ _ _ _ _ _ Ea Hr) as [Hu|Hu]; unfold unattended, human_approved in *; rewrite Eb, Er in Hu; auto.
      * by intros [?|[? ?]].
    + auto.
  - by apply chain_answers in E.
  - by intros [?|[? ?]].
Qed.

(** * Git mutations *)

Lemma representative_none classes gc :
  Some gc ∈ classes -> git_mutation gc = true -> representativeMutationClass (Some classes) <> None.
Proof.
  intros Hin Hm. unfold representativeMutationClass. cbn [default]. set (f := fun best x => _).
  assert (Hkeep : forall l b, fold_left f l (Some b) <> None).
  { induction l as [|x l IH]; intros b; [done|]. cbn [fold_left]. unfold f at 2. repeat case_match; apply IH. }
  assert (H : forall b, fold_left f classes b <> None); [|apply H].
  induction classes as [|x l IH]; [by apply not_elem_of_nil in Hin|]. intros b. cbn [fold_left].
  apply elem_of_cons in Hin as [<-|Hin]; [|by apply IH]. destruct b as [b|]; unfold f at 2; destruct gc; try done; repeat case_match; apply Hkeep.
Qed.

(** C16. With silent hooks, outside yolo mode and unless the gate is switched off, a
    command with a segment classified as a git mutation that no standing grant or allow
    rule covers runs only after a person approved it: not in auto mode, not by the
    reviewer's verdict, and never when nobody can be asked or the setting is deny. *)
Theorem git_mutations_need_approval a c ans classes gc :
  silent ans -> mode a <> Yolo -> git_mutation_setting a <> Some GitAllow ->
  e_gitClasses (c_execution c) = Some classes -> Some gc ∈ classes -> git_mutation gc = true ->
  ~ granted a c -> runs (authorize a c ans).1 ->
  rpc_approval a = true /\ git_mutation_setting a <> Some GitDeny /\ exists r, a_response ans = Some r /\ ar_decision r = Approved.
Proof.
  intros Hs Hy Hset Hc Hin Hm Hng. unfold authorize, beforeToolCall.
  change createPermissionDecisionPolicies with
    (((PreToolCallHook, preToolCallHook) :: deny_policies ++ [(SessionApprovalHistory, sessionApprovalHistory)]) ++
     ((GitMutationGatePolicy, gitMutationGate) :: drop 10 createPermissionDecisionPolicies)).
  set (ps := _ :: deny_policies ++ _). rewrite evaluate_app. destruct (evaluatePolicies ps a c ans) as [[[[n r]|]|f] a1] eqn:E.
  - assert (Hk : Forall (fun np => keeps np.2 a c ans) ps).
    { pose proof (chain_keeps a c ans) as Hk. rewrite chain_head_rest in Hk. apply Forall_app in Hk as [Hk _].
      change head_policies with (ps ++ [(GitMutationGatePolicy, gitMutationGate); (GuardianReview, guardianReview)]) in Hk.
      by apply Forall_app in Hk as [Hk _]. }
    destruct (evaluate_inv _ _ _ _ _ _ _ Hk E) as (ps1 & p & ps2 & Eps & Hp & _).
    assert (Hin' : (n, p) ∈ ps) by (rewrite Eps; set_solver). unfold ps in Hin'. apply elem_of_cons in Hin' as [[= -> ->]|Hin'].
    { rewrite (silent_hook a c ans Hs) in Hp. done. }
    apply elem_of_app in Hin' as [Hin'|[= -> ->]%list_elem_of_singleton].
    + pose proof (deny_policies_deny a c ans) as Hd. rewrite Forall_forall in Hd. destruct (Hd _ Hin') as [Hx|[m Hx]]; cbn in Hx;
        [unfold passes in Hx; congruence|]. rewrite Hx in Hp. injection Hp as <- <-. by intros [?|[? ?]].
    + destruct (session_justified _ _ _ _ _ Hp) as (_ & _ & Hg). done.
  - assert (a1 = a) as ->.
    { pose proof (chain_keeps a c ans) as Hk. rewrite chain_head_rest in Hk. apply Forall_app in Hk as [Hk _].
      change head_policies with (ps ++ [(GitMutationGatePolicy, gitMutationGate); (GuardianReview, guardianReview)]) in Hk.
      apply Forall_app in Hk as [Hk _]. by apply (evaluate_none _ _ _ _ _ Hk) in E as [-> _]. }
    cbn [evaluatePolicies]. unfold gitMutationGate at 1, pure_policy at 1. cbv zeta.
    rewrite bool_decide_false by done. rewrite bool_decide_false.
    2: { destruct (git_mutation_setting a) as [[]|]; cbn; congruence. }
    rewrite Hc. destruct (representativeMutationClass (Some classes)) as [k|] eqn:Ek; [|by apply (representative_none _ _ Hin) in Ek].
    assert (Hcov : covered_by (allowUnionRules a) c = false).
    { destruct (covered_by (allowUnionRules a) c) eqn:Ec; [|done]. exfalso. apply Hng. unfold granted, covered_by, collectCoveredSubjects in *.
      by destruct (ruleMatch _). }
    rewrite Hcov. destruct (bool_decide_reflect (default GitAsk (git_mutation_setting a) = GitDeny)) as [|Hnd]; [by intros [?|[? ?]]|].
    destruct (rpc_approval a) eqn:Erpc; cbn [negb permissionPolicyResolutionToPrepare]; [|by intros [?|[? ?]]].
    destruct (requestToolApproval a c ans NoResolver GitMutationGatePolicy) as [[p|f] a2] eqn:Ea; cbn [fst]; [|by intros [?|[? ?]]].
    intros Hr. destruct (ask_runs _ _ _ _ _ _ _ Ea Hr) as [Hu|[_ Hu]]; [unfold unattended in Hu; by rewrite Erpc, orb_true_r in Hu|].
    split; [done|]. split; [|done]. intros Hd. by rewrite Hd in Hnd.
  - by intros [?|[? ?]].
Qed.

(** * Where standing rules come from *)

Abbreviation patterns_of a := (sessionApprovalRulePatterns (managers a)).
Abbreviation rules_of a := (effectiveRules (managers a)).

(** The patterns an approval of the call stands for. *)
Definition call_patterns (c : tool_call) : list jsstr := default [e_approvalRule (c_execution c)] (e_approvalRules (c_execution c)).

Definition approved_for_session (ans : answers) : Prop :=
  exists r, a_response ans = Some r /\ ar_decision r = Approved /\
    (ar_scope r = Some ScopeSession \/ ar_scope r = Some ScopeAlways /\ a_persisted ans = false).
Definition approved_always (ans : answers) : Prop :=
  exists r, a_response ans = Some r /\ ar_decision r = Approved /\ ar_scope r = Some ScopeAlways /\ a_persisted ans = true.

Definition same_rules (a a' : agent) : Prop := rules_of a' = rules_of a /\ patterns_of a' = patterns_of a.

Lemma setMode_same a m : same_rules a (setMode a m).
Proof. unfold setMode, same_rules. destruct (managers a) eqn:E; cbn; by rewrite ?E. Qed.

Lemma switch_mode_same a m : same_rules a (switch_mode a m).
Proof. unfold switch_mode. destruct m as [m|]; [|by split]. case_bool_decide; [by split|apply setMode_same]. Qed.

Lemma resolve_same res a ans r : same_rules a (resolveApproval res a ans r).2.
Proof.
  destruct res as [|u|plan path opts|]; cbn; [by split|by split| |case_bool_decide; [apply switch_mode_same|by split]].
  destruct (exitPlanModeApproval _ _ _ _ _ _) as [o a'] eqn:E. cbn. unfold exitPlanModeApproval, rejectedExitPlanMode, exitPlanMode in E.
  repeat case_match; simplify_eq; try (by split). apply (switch_mode_same (exit_plan a)).
Qed.

Lemma evaluate_managers a c ans : managers (evaluatePolicies createPermissionDecisionPolicies a c ans).2 = managers a.
Proof.
  assert (H : Forall (fun np => forall a, managers (np.2 a c ans).2 = managers a) createPermissionDecisionPolicies).
  { repeat (apply Forall_cons; split; [cbn [snd]; intros a'; first [done|unfold preToolCallHook, guardianReview, pruneBreakerFor; repeat case_match; done]|]).
    apply Forall_nil. done. }
  revert a. induction H as [|[n p] ps Hp _ IH]; intros a; [done|]. cbn [evaluatePolicies]. specialize (Hp a). cbn in Hp.
  destruct (p a c ans) as [[[r|]|f] a1]; cbn in *; [done| |done]. by rewrite IH.
Qed.

Lemma append_always_spec rules known ps r :
  (r ∈ (append_always rules known ps).1 -> r ∈ rules \/ exists p, p ∈ ps /\ r = always_rule p) /\
  (r ∈ rules -> r ∈ (append_always rules known ps).1).
Proof.
  unfold append_always. revert rules known. induction ps as [|p ps IH]; intros rules known; [by split; [left|]|]. cbn [fold_left].
  destruct (set_has known p).
  - destruct (IH rules known) as [H1 H2]. split; [|done]. intros H. destruct (H1 H) as [?|(q & Hq & ->)]; [by left|right]. exists q. set_solver.
  - destruct (IH (rules ++ [always_rule p]) (p :: known)) as [H1 H2]. split.
    + intros H. destruct (H1 H) as [[?| ->%list_elem_of_singleton]%elem_of_app|(q & Hq & ->)]; [by left|right|right]; [exists p|exists q]; set_solver.
    + intros H. apply H2. set_solver.
Qed.

Lemma update_root_rules f chain :
  effectiveRules (update_root f chain) = effectiveRules chain \/
  exists parents root, chain = parents ++ [root] /\ effectiveRules (update_root f chain) = effectiveRules parents ++ pm_rules (f root).
Proof.
  induction chain as [|m chain IH]; [by left|]. destruct chain as [|m' chain].
  - right. exists [], m. split; [done|]. unfold effectiveRules. cbn. by rewrite app_nil_r.
  - change (update_root f (m :: m' :: chain)) with (m :: update_root f (m' :: chain)).
    destruct IH as [IH|(parents & root & E & IH)].
    + left. unfold effectiveRules in *. cbn [fmap list_fmap concat] in *. by rewrite IH.
    + right. exists (m :: parents), root. split; [by rewrite E|]. unfold effectiveRules in *. cbn [fmap list_fmap concat] in *.
      by rewrite IH, app_assoc.
Qed.

Lemma update_root_patterns f chain : (forall m, pm_grants (f m) = pm_grants m) ->
  sessionApprovalRulePatterns (update_root f chain) = sessionApprovalRulePatterns chain.
Proof.
  intros Hf. induction chain as [|m chain IH]; [done|]. unfold sessionApprovalRulePatterns in *. destruct chain as [|m' chain]; cbn; [by rewrite Hf|].
  cbn in IH. by rewrite IH.
Qed.

Lemma adopt_rules a ps :
  patterns_of (adoptAlwaysApprovalRules a ps) = patterns_of a /\ rules_of a ⊆ rules_of (adoptAlwaysApprovalRules a ps) /\
  forall r, r ∈ rules_of (adoptAlwaysApprovalRules a ps) -> r ∈ rules_of a \/ exists p, p ∈ ps /\ r = always_rule p.
Proof.
  unfold adoptAlwaysApprovalRules. set (f := fun root => _). change (managers (with_managers a (update_root f (managers a)))) with (update_root f (managers a)).
  split; [by apply update_root_patterns|]. destruct (update_root_rules f (managers a)) as [-> |(parents & root & E & ->)]; [by split; [|auto]|].
  rewrite E. unfold effectiveRules. rewrite fmap_app, concat_app. cbn [fmap list_fmap concat]. rewrite app_nil_r. split.
  - intros r [H|H]%elem_of_app; apply elem_of_app; [by left|right]. by apply append_always_spec.
  - intros r [H|H]%elem_of_app; [left; set_solver|]. apply append_always_spec in H as [H|H]; [left; set_solver|by right].
Qed.

Lemma grants_keys (ps : list jsstr) g mk p : p ∈ jkeys (fold_left (fun g p => jset g p (mk p : session_grant)) ps g) <-> p ∈ ps \/ p ∈ jkeys g.
Proof.
  revert g. induction ps as [|q ps IH]; intros g; cbn [fold_left]; [rewrite elem_of_nil; tauto|]. rewrite IH, jkeys_set, elem_of_cons. unfold jhas.
  destruct (jget g q) eqn:E; [|rewrite elem_of_app, list_elem_of_singleton; tauto].
  assert (q ∈ jkeys g) by (apply jget_Some_in, (list_elem_of_fmap_2 fst) in E; done). split; [tauto|]. intros [[-> |H1]|H1]; tauto.
Qed.

Lemma record_rules a c rule rules r s :
  rules_of (recordApprovalResult a c rule rules r s) = rules_of a /\
  patterns_of a ⊆ patterns_of (recordApprovalResult a c rule rules r s) /\
  forall p, p ∈ patterns_of (recordApprovalResult a c rule rules r s) -> p ∈ patterns_of a \/
    (for_session r = true /\ p ∈ match rules with Some rs => rs | None => match rule with Some x => [x] | None => [] end end).
Proof.
  unfold recordApprovalResult, for_session. destruct (bool_decide (ar_decision r = Approved)), (bool_decide (ar_scope r = Some ScopeSession));
    cbn [negb orb andb]; try (split_and!; [done|done|auto]).
  destruct (match rules with Some rs => Some rs | None => (fun r => [r]) <$> rule end) as [ps|] eqn:Eps; [|split_and!; [done|done|auto]].
  destruct (managers a) as [|self parents] eqn:E; [rewrite E; split_and!; [done|done|auto]|]. cbn [with_managers managers].
  unfold effectiveRules, sessionApprovalRulePatterns. cbn [fmap list_fmap concat pm_rules pm_grants].
  split_and!; [done| |]; intros p; rewrite !elem_of_app, grants_keys; [tauto|]. intros [[Hp|Hp]|Hp]; [right|left; by left|left; by right].
  split; [done|]. by destruct rules as [rs|], rule as [x|]; simplify_eq/=.
Qed.

(** Rules and grants are only added, and only for the call's own patterns by the
    approval they are said to come from. *)
Definition grows (c : tool_call) (ans : answers) (a a' : agent) : Prop :=
  (rules_of a ⊆ rules_of a' /\ patterns_of a ⊆ patterns_of a') /\
  (forall r, r ∈ rules_of a' -> r ∈ rules_of a \/ approved_always ans /\ exists p, p ∈ call_patterns c /\ r = always_rule p) /\
  (forall p, p ∈ patterns_of a' -> p ∈ patterns_of a \/ approved_for_session ans /\ p ∈ call_patterns c).

Lemma grows_same c ans a a' : managers a' = managers a -> grows c ans a a'.
Proof. unfold grows. intros ->. auto. Qed.

Lemma response_rules a c ans resp n :
  a_response ans = Some resp \/ resp = auto_approved ->
  grows c ans a (record_response (persist_always a c ans resp).1 c n (persist_always a c ans resp).2).
Proof.
  intros Hresp. destruct (persist_always a c ans resp) as [a1 resp'] eqn:Ep. cbn [fst snd].
  assert (Hp : rules_of a ⊆ rules_of a1 /\ patterns_of a1 = patterns_of a /\
    (forall r, r ∈ rules_of a1 -> r ∈ rules_of a \/ approved_always ans /\ exists p, p ∈ call_patterns c /\ r = always_rule p) /\
    (for_session resp' = true -> approved_for_session ans)).
  { unfold persist_always in Ep. destruct (is_always resp) eqn:Ea.
    - unfold is_always in Ea. apply andb_true_iff in Ea as [Hd%bool_decide_eq_true Hsc%bool_decide_eq_true].
      destruct Hresp as [Hr| ->]; [|done]. destruct (a_persisted ans) eqn:Eper; injection Ep as <- <-.
      + destruct (adopt_rules a (call_patterns c)) as (H1 & H2 & H3). split_and!; [done|done| |].
        * intros r Hin. destruct (H3 r Hin) as [?|?]; [by left|right]. split; [exists resp; by rewrite Eper|done].
        * unfold for_session. rewrite Hsc, (bool_decide_false (Some ScopeAlways = _)), andb_false_r; done.
      + split_and!; [done|done|auto|]. intros _. exists resp. auto.
    - injection Ep as <- <-. split_and!; [done|done|auto|]. unfold for_session.
      intros [Hd%bool_decide_eq_true Hsc%bool_decide_eq_true]%andb_true_iff. destruct Hresp as [Hr| ->]; [|done]. exists resp. auto. }
  destruct Hp as (H1 & H2 & H3 & H4). unfold record_response.
  destruct (record_rules a1 c (if for_session resp' then Some (e_approvalRule (c_execution c)) else None)
    (if for_session resp' then e_approvalRules (c_execution c) else None) resp'
    (if bool_decide (n = GitMutationGatePolicy) then GitMutationGate else ToolApproval)) as (R1 & R2 & R3).
  unfold grows. rewrite R1. split; [split; [done|by rewrite <- H2]|]. split; [done|].
  intros p Hin. destruct (R3 p Hin) as [?|[Hf Hp]]; [left; by rewrite <- H2|right]. split; [auto|]. rewrite Hf in Hp.
  unfold call_patterns. destruct (e_approvalRules (c_execution c)); exact Hp.
Qed.

Lemma authorize_grows a c ans : grows c ans a (authorize a c ans).2.
Proof.
  unfold authorize, beforeToolCall. pose proof (evaluate_managers a c ans) as Hm.
  destruct (evaluatePolicies _ a c ans) as [[[[n r]|]|f] a1]; cbn in Hm |- *; [|by apply grows_same..].
  destruct r as [|m|g res|p]; cbn [permissionPolicyResolutionToPrepare fst snd]; [by apply grows_same|by apply grows_same| |by apply grows_same].
  unfold requestToolApproval. destruct (if bridged a1 || rpc_approval a1 then a_response ans else Some auto_approved) as [resp|] eqn:Er; [|by apply grows_same].
  assert (Hr : a_response ans = Some resp \/ resp = auto_approved) by (destruct (bridged a1 || rpc_approval a1); [by left|right; congruence]).
  pose proof (response_rules a1 c ans resp n Hr) as Hg. destruct (persist_always a1 c ans resp) as [a2 resp']. cbn [fst snd] in Hg.
  pose proof (resolve_same res (record_response a2 c n resp') ans resp') as [S1 S2].
  destruct (resolveApproval res _ ans resp') as [[o|] a3]; cbn [fst snd] in *; unfold grows in *; rewrite S1, S2, <- Hm; exact Hg.
Qed.

(** A session: calls authorised one after the other. *)
Definition session (a : agent) (calls : list (tool_call * answers)) : agent :=
  fold_left (fun a ca => (authorize a ca.1 ca.2).2) calls a.

(** Over any sequence of calls no rule or session grant is ever lost, every new
    allow rule was saved by an "always" approval of a call it is a pattern of, and every
    new grant comes from a person approving such a call for the session, or "always"
    when the rule could not be saved. *)
Theorem standing_rules_from_approvals a calls :
  (rules_of a ⊆ rules_of (session a calls) /\ patterns_of a ⊆ patterns_of (session a calls)) /\
  (forall r, r ∈ rules_of (session a calls) -> r ∈ rules_of a \/
     exists c ans p, (c, ans) ∈ calls /\ approved_always ans /\ p ∈ call_patterns c /\ r = always_rule p) /\
  (forall p, p ∈ patterns_of (session a calls) -> p ∈ patterns_of a \/
     exists c ans, (c, ans) ∈ calls /\ approved_for_session ans /\ p ∈ call_patterns c).
Proof.
  revert a. induction calls as [|[c ans] calls IH]; intros a; [cbn; split_and!; [done|done|auto|auto]|].
  cbn [session fold_left fst snd]. fold (session (authorize a c ans).2 calls).
  destruct (authorize_grows a c ans) as ((G1 & G2) & G3 & G4). destruct (IH (authorize a c ans).2) as ((I1 & I2) & I3 & I4).
  split; [split; by etrans|]. split.
  - intros r [H|(c' & ans' & p & Hin & H)]%I3; [|right; exists c', ans', p; split; [by apply list_elem_of_further|done]].
    destruct (G3 r H) as [?|[Ha (p & Hp & ->)]]; [by left|right]. exists c, ans, p. split; [apply list_elem_of_here|done].
  - intros p [H|(c' & ans' & Hin & H)]%I4; [|right; exists c', ans'; split; [by apply list_elem_of_further|done]].
    destruct (G4 p H) as [?|[Ha Hp]]; [by left|right]. exists c, ans. split; [apply list_elem_of_here|done].
Qed.

End Chain.

(** * Witnesses *)

Definition ex_lower : jsstr -> jsstr := ascii_lower.
Definition ex_basename : jsstr -> jsstr := after_last SLASH.
Definition ex_normalize (p : jsstr) : jsstr := p.
Definition ex_relative (_ : path_class) (base target : jsstr) : jsstr := drop (S (length base)) target.
Definition ex_glob (v p : jsstr) : bool := bool_decide (v = p).
Definition ex_parse (_ : jsstr) : option json := None.
Definition ex_authorize : agent -> tool_call -> answers -> prepare * agent :=
  authorize ex_lower ex_basename ex_normalize ex_relative ex_glob ex_parse.

Definition ex_agent (m : permission_mode) (rules : list permission_rule) : agent :=
  Agent [Manager rules (Some m) []] false false None false false None false true None false (BreakerLimits 3 10 50) [] None
    (js "/repo") Posix [].

(** A shell command by its segments; a rule's argument is the segment it matches. *)
Definition ex_bash (segments : list (list string)) : tool_call :=
  let subject words := join_with (js " ") (js <$> words) in
  ToolCall (js "Bash") (JObject []) None [js "Bash"] (js "1")
    (Execution (MatchExecution None (Some (RuleSubjects (subject <$> segments) (fun a s _ => bool_decide (a = s)))) None)
       None None (js "Bash(x)") (Some ((fun ws => js "Bash(" ++ subject ws ++ js ")") <$> segments))
       (Some ((fun ws => classifyGitSegment (js <$> ws)) <$> segments))).

Definition ex_read : tool_call :=
  ToolCall (js "Read") (JObject []) None [js "Read"] (js "1") (Execution (MatchExecution None None None) None None (js "Read") None None).

Definition ex_deny : permission_rule := PermissionRule RuleDeny UserScope (js "Bash(rm x)") None.
Definition ex_ask : permission_rule := PermissionRule RuleAsk UserScope (js "Bash") None.
Definition ex_yes (scope : option approval_scope) : approval_response := ApprovalResponse Approved scope None None None.
Definition ex_answers (r : option approval_response) : answers := Answers None false r true ReviewAllow None false.

Lemma ex_silent r : silent (ex_answers r).
Proof. by split; [|apply Forall_nil]. Qed.

Definition ex_push : tool_call := ex_bash [["ls"]; ["sudo-free"]; ["git"; "-C"; "/r"; "push"]]%string.

Example permission_examples :
  (* a deny rule on one segment stops the command even in yolo mode *)
  (ex_authorize (ex_agent Yolo [ex_deny]) (ex_bash [["ls"]; ["rm"; "x"]]%string) (ex_answers None)).1 = Block (DeniedByRule (js "Bash") None false) /\
  (* an approval for the session covers each of its segments, not others *)
  (let a := (ex_authorize (ex_agent Manual []) (ex_bash [["ls"]; ["pwd"]]%string) (ex_answers (Some (ex_yes (Some ScopeSession))))).2 in
   (ex_authorize a (ex_bash [["pwd"]]%string) (ex_answers None)).1 = Proceed /\
   (ex_authorize a (ex_bash [["pwd"]; ["id"]]%string) (ex_answers None)).1 = Block AuthorizationFailed) /\
  (* git push in auto mode needs the person *)
  (ex_authorize (ex_agent Auto []) ex_push (ex_answers (Some (ApprovalResponse Rejected None None None None)))).1 =
    Block (ApprovalRefused (js "Bash") false None false).
Proof. vm_compute. done. Qed.

(** The mode's description says that in yolo mode only deny rules block; an ask rule
    still asks, and a refusal blocks. *)
Example yolo_still_asks :
  (ex_authorize (ex_agent Yolo [ex_ask]) (ex_bash [["ls"]]%string) (ex_answers (Some (ApprovalResponse Rejected None None None None)))).1 =
  Block (ApprovalRefused (js "Bash") false None false).
Proof. vm_compute. done. Qed.

(** The same call with a rewriting hook runs although a deny rule matches it. *)
Example rewrite_beats_deny_rule :
  (ex_authorize (ex_agent Manual [ex_deny]) (ex_bash [["rm"; "x"]]%string)
     (Answers (Some [HookResult false None false (Some (JObject []))]) false None true ReviewAllow None false)).1 = ProceedWith (JObject []).
Proof. vm_compute. done. Qed.

Lemma hard_denies_hold_witness :
  exists m, ex_authorize (ex_agent Yolo [ex_deny]) (ex_bash [["ls"]; ["rm"; "x"]]%string) (ex_answers (Some (ex_yes None))) =
            (Block m, ex_agent Yolo [ex_deny]).
Proof.
  apply (hard_denies_hold ex_lower ex_basename ex_normalize ex_relative ex_glob ex_parse); [apply ex_silent|].
  apply (deny_rule _ _ _ _ ex_deny); [apply list_elem_of_here|done|done|]. vm_compute. by eexists.
Defined.

Lemma runs_are_justified_witness :
  runs (ex_authorize (ex_agent Manual []) ex_read (ex_answers None)).1 /\
  (unattended (ex_agent Manual []) \/ human_approved (ex_agent Manual []) (ex_answers None) \/
   may_run ex_lower ex_normalize ex_glob ex_parse (ex_agent Manual []) ex_read (ex_answers None)).
Proof.
  assert (H : runs (ex_authorize (ex_agent Manual []) ex_read (ex_answers None)).1) by (left; by vm_compute).
  split; [exact H|].
  apply (runs_are_justified ex_lower ex_basename ex_normalize ex_relative ex_glob ex_parse); [apply ex_silent|exact H].
Defined.

Lemma git_mutations_need_approval_witness :
  (ex_authorize (ex_agent Auto []) ex_push (ex_answers (Some (ex_yes None)))).1 = Proceed /\
  exists r, a_response (ex_answers (Some (ex_yes None))) = Some r /\ ar_decision r = Approved.
Proof.
  assert (H : (ex_authorize (ex_agent Auto []) ex_push (ex_answers (Some (ex_yes None)))).1 = Proceed) by by vm_compute.
  split; [exact H|].
  refine (proj2 (proj2 (git_mutations_need_approval ex_lower ex_basename ex_normalize ex_relative ex_glob ex_parse
    (ex_agent Auto []) ex_push (ex_answers (Some (ex_yes None))) [None; None; Some SharedRemote] SharedRemote (ex_silent _) _ _ _ _ _ _ _))).
  - done.
  - done.
  - by vm_compute.
  - set_solver.
  - done.
  - unfold granted. intros Hg. vm_compute in Hg. done.
  - by left.
Defined.
