(* ===== verification/Messages.v ===== *)
(** Messages of a conversation ([packages/kosong/src/message.ts], [tool.ts],
    [agent/context/types.ts]) and the size estimates the context works with
    ([packages/agent-core/src/utils/tokens.ts]). *)

From S2P Require Import Prelude JsMap Json JsonText JsString.

(** * Messages *)

Inductive msg_role : Type := System | User | Assistant | ToolRole.

#[global] Instance msg_role_eq_dec : EqDecision msg_role.
Proof. solve_decision. Defined.

Record media : Type := Media { url : jsstr; media_id : option jsstr }.

#[global] Instance media_eq_dec : EqDecision media.
Proof. solve_decision. Defined.

Inductive content_part : Type :=
| TextPart (text : jsstr)
| ThinkPart (think : jsstr) (encrypted : option jsstr)
| ImagePart (c : media)
| AudioPart (c : media)
| VideoPart (c : media).

#[global] Instance content_part_eq_dec : EqDecision content_part.
Proof. solve_decision. Defined.

Record tool_call : Type := ToolCall { call_id : jsstr; call_name : jsstr; arguments : option jsstr }.

#[global] Instance tool_call_eq_dec : EqDecision tool_call.
Proof. solve_decision. Defined.

Record tool_def : Type := ToolDef { tool_name : jsstr; description : jsstr; parameters : json }.

Record message : Type := Message {
  role : msg_role;
  name : option jsstr;
  content : list content_part;
  toolCalls : list tool_call;
  toolCallId : option jsstr;
  partial : bool;
  tools : option (list tool_def);
}.

(** * Messages of the context *)

Inductive skill_trigger : Type := UserSlash | ModelTool | NestedSkill.

#[global] Instance skill_trigger_eq_dec : EqDecision skill_trigger.
Proof. solve_decision. Defined.

Inductive prompt_origin : Type :=
| OUser
| OSkillActivation (activationId skillName : jsstr) (trigger : skill_trigger)
| OPluginCommand (activationId pluginId commandName : jsstr)
| OInjection (variant : jsstr)
| OShellCommand (output isError : bool)
| OCompactionSummary
| OSystemTrigger (trigger_name : jsstr)
| OBackgroundTask (taskId status notificationId : jsstr)
| OCronJob (jobId cron : jsstr) (recurring : bool) (coalescedCount : Z) (stale : bool)
| OCronMissed (count : Z)
| OHookResult (event : jsstr) (blocked : bool)
| OMailbox (teamName from messageId : jsstr)
| ORetry (retry_trigger : option jsstr).

#[global] Instance prompt_origin_eq_dec : EqDecision prompt_origin.
Proof. solve_decision. Defined.

Record context_message : Type := ContextMessage {
  base : message;
  origin : option prompt_origin;
  isError : option bool;
  note : option jsstr;
}.

(** A user message, and the one a tool result makes ([createToolMessage]). *)
Definition user_message (parts : list content_part) (o : option prompt_origin) : context_message :=
  ContextMessage (Message User None parts [] None false None) o None None.

Definition createToolMessage (id : jsstr) (parts : list content_part) : message :=
  Message ToolRole None parts [] (Some id) false None.

Definition is_assistant (m : message) : bool := bool_decide (role m = Assistant).
Definition is_tool (m : message) : bool := bool_decide (role m = ToolRole).
Definition is_user (m : message) : bool := bool_decide (role m = User).

Definition call_ids (m : message) : list jsstr := call_id <$> toolCalls m.

(** * Token estimates *)

Definition MEDIA_TOKEN_ESTIMATE : Z := 2000.

(** [char.codePointAt(0) <= 127]. *)
Definition ascii_char (c : jsstr) : bool := match c with [u] => (u <=? 127)%N | _ => false end.

(** [Math.ceil(n / 4)]. *)
Definition quarter (n : Z) : Z := (n + 3) / 4.

Definition estimateTokens (text : jsstr) : Z :=
  let chars := code_points text in
  quarter (blen (filter (fun c => ascii_char c = true) chars)) + blen (filter (fun c => ascii_char c = false) chars).

(** [JSON.stringify] of a value whose property order is the list's. *)
Fixpoint JSON_stringify (v : json) : jsstr :=
  match v with
  | JNull => js "null"
  | JBool true => js "true"
  | JBool false => js "false"
  | JNumber n => string_of_int n
  | JString s => quote s
  | JArray l => [91]%N ++ join (map JSON_stringify l) ++ [93]%N
  | JObject fs => [123]%N ++ join (map (fun kv => quote kv.1 ++ [58]%N ++ JSON_stringify kv.2) fs) ++ [125]%N
  end.

Definition estimateTokensForContentPart (p : content_part) : Z :=
  match p with
  | TextPart text => estimateTokens text
  | ThinkPart think _ => estimateTokens think
  | ImagePart _ | AudioPart _ | VideoPart _ => MEDIA_TOKEN_ESTIMATE
  end.

Definition sum_of {A} (f : A -> Z) (l : list A) : Z := fold_left (fun t x => t + f x) l 0.

Definition estimateTokensForContentParts (ps : list content_part) : Z := sum_of estimateTokensForContentPart ps.

Definition role_text (r : msg_role) : jsstr :=
  js match r with System => "system" | User => "user" | Assistant => "assistant" | ToolRole => "tool" end.

Definition estimateTokensForTools (ts : list tool_def) : Z :=
  sum_of (fun t => estimateTokens (tool_name t) + estimateTokens (description t) + estimateTokens (JSON_stringify (parameters t))) ts.

Definition estimateTokensForMessage (m : message) : Z :=
  estimateTokens (role_text (role m)) + estimateTokensForContentParts (content m) +
  sum_of (fun c => estimateTokens (call_name c) + estimateTokens (from_option quote (js "null") (arguments c))) (toolCalls m) +
  from_option estimateTokensForTools 0 (tools m).

Definition estimateTokensForMessages (ms : list message) : Z := sum_of estimateTokensForMessage ms.

(** * Facts *)

Lemma sum_of_from {A} (f : A -> Z) l a : fold_left (fun t x => t + f x) l a = a + sum_of f l.
Proof.
  unfold sum_of. revert a. induction l as [|x l IH]; intros a; cbn; [lia|].
  rewrite IH, (IH (0 + f x)). lia.
Qed.

Lemma sum_of_cons {A} (f : A -> Z) x l : sum_of f (x :: l) = f x + sum_of f l.
Proof. unfold sum_of at 1. cbn. rewrite sum_of_from. lia. Qed.

Lemma sum_of_app {A} (f : A -> Z) l1 l2 : sum_of f (l1 ++ l2) = sum_of f l1 + sum_of f l2.
Proof. unfold sum_of at 1. rewrite fold_left_app, !sum_of_from. lia. Qed.

Lemma sum_of_rev {A} (f : A -> Z) l : sum_of f (rev l) = sum_of f l.
Proof. induction l as [|x l IH]; [done|]. cbn [rev]. rewrite sum_of_app, IH, !sum_of_cons. change (sum_of f []) with 0. lia. Qed.

Lemma sum_of_nonneg {A} (f : A -> Z) l : (forall x, 0 <= f x) -> 0 <= sum_of f l.
Proof. intros Hf. induction l as [|x l IH]; [done|]. rewrite sum_of_cons. specialize (Hf x). lia. Qed.

Lemma estimateTokens_nonneg text : 0 <= estimateTokens text.
Proof. unfold estimateTokens, quarter. cbv zeta. blen_facts. assert (0 <= (blen (filter (fun c => ascii_char c = true) (code_points text)) + 3) / 4) by (apply Z.div_pos; lia). lia. Qed.

Lemma estimateTokensForContentPart_nonneg p : 0 <= estimateTokensForContentPart p.
Proof. destruct p; try apply estimateTokens_nonneg; done. Qed.

Lemma estimateTokensForMessage_nonneg m : 0 <= estimateTokensForMessage m.
Proof.
  unfold estimateTokensForMessage, estimateTokensForContentParts.
  pose proof (estimateTokens_nonneg (role_text (role m))).
  pose proof (sum_of_nonneg estimateTokensForContentPart (content m) estimateTokensForContentPart_nonneg).
  assert (0 <= sum_of (fun c => estimateTokens (call_name c) + estimateTokens (from_option quote (js "null") (arguments c))) (toolCalls m)).
  { apply sum_of_nonneg. intros c. pose proof (estimateTokens_nonneg (call_name c)). pose proof (estimateTokens_nonneg (from_option quote (js "null") (arguments c))). lia. }
  assert (0 <= from_option estimateTokensForTools 0 (tools m)); [|lia].
  destruct (tools m) as [ts|]; cbn; [|done]. apply sum_of_nonneg. intros t.
  pose proof (estimateTokens_nonneg (tool_name t)). pose proof (estimateTokens_nonneg (description t)). pose proof (estimateTokens_nonneg (JSON_stringify (parameters t))). lia.
Qed.

#[export] Hint Resolve estimateTokens_nonneg estimateTokensForContentPart_nonneg estimateTokensForMessage_nonneg sum_of_nonneg : cc.
