(* ===== verification/Projector.v ===== *)
(** The projection of a conversation into the messages a provider receives:
    [agent/context/projector.ts] and [tool-result-render.ts]. The anomalies the code
    reports to its sink are returned next to the messages, in the order of the calls.
    The per-message memo ([ProjectionCache]) is left out: it returns what the functions
    here compute. *)

From S2P Require Import Prelude JsMap Json JsonText JsString Messages.

(** * Tool results as the model sees them *)

Definition TOOL_ERROR_STATUS : jsstr := js "<system>ERROR: Tool execution failed.</system>".
Definition TOOL_EMPTY_STATUS : jsstr := js "<system>Tool output is empty.</system>".
Definition TOOL_EMPTY_ERROR_STATUS : jsstr := js "<system>ERROR: Tool execution failed. Tool output is empty.</system>".
Definition TOOL_OUTPUT_EMPTY_TEXT : jsstr := js "Tool output is empty.".

(** [text.trim().length === 0]. *)
Definition blank (text : jsstr) : bool := bool_decide (trim text = []).

Definition isEmptyOutputText (output : jsstr) : bool := blank output || bool_decide (trim output = TOOL_OUTPUT_EMPTY_TEXT).

Definition blank_text (p : content_part) : bool := match p with TextPart text => blank text | _ => false end.

Definition isEmptyEquivalentContentArray (output : list content_part) : bool := forallb blank_text output.

Definition renderStatus (output : list content_part) (err : bool) : list content_part :=
  match output with
  | [TextPart single] =>
      if err then
        match single with
        | [] => [TextPart TOOL_EMPTY_ERROR_STATUS]
        | _ => [TextPart (TOOL_ERROR_STATUS ++ [10]%N ++ single)]
        end
      else if isEmptyOutputText single then [TextPart TOOL_EMPTY_STATUS] else [TextPart single]
  | _ =>
      if isEmptyEquivalentContentArray output then [TextPart (if err then TOOL_EMPTY_ERROR_STATUS else TOOL_EMPTY_STATUS)]
      else if err then TextPart TOOL_ERROR_STATUS :: output
      else output
  end.

Definition renderToolResultForModel (output : list content_part) (note : option jsstr) (err : bool) : list content_part :=
  let rendered := renderStatus output err in
  match note with
  | None | Some [] => rendered
  | Some n =>
      match rendered with
      | [TextPart only] => [TextPart (only ++ [10]%N ++ n)]
      | _ => rendered ++ [TextPart n]
      end
  end.

(** * Anomalies *)

Inductive anomaly : Type :=
| ToolResultReordered (id : jsstr)
| ToolResultSynthesized (id : jsstr) (trailing : bool)
| OrphanToolResultDropped (id : jsstr)
| DuplicateToolCallDropped (id : jsstr)
| DuplicateToolResultDropped (id : jsstr)
| LeadingNonUserDropped (r : msg_role)
| ConsecutiveAssistantsMerged
| WhitespaceTextDropped (r : msg_role)
| VacuousMessageDropped (r : msg_role).

(** The one error of a projection: a tool message without content. *)
Inductive project_error : Type := EmptyToolResult (id : option jsstr).

(** * Preparing one message *)

Definition isVacuousContentPart (p : content_part) : bool :=
  match p with
  | TextPart text => blank text
  | ThinkPart think encrypted => bool_decide (encrypted = None) && blank think
  | _ => false
  end.

(** [next.tools !== undefined && next.tools.length > 0]. *)
Definition has_tools (m : message) : bool := match tools m with Some (_ :: _) => true | _ => false end.

Definition with_content (m : message) (c : list content_part) : message :=
  Message (role m) (name m) c (toolCalls m) (toolCallId m) (partial m) (tools m).

Definition with_base (m : context_message) (b : message) : context_message := ContextMessage b (origin m) (isError m) (note m).

Definition whitespace_anomalies (r : msg_role) (ps : list content_part) : list anomaly :=
  omap (fun p => match p with
                 | TextPart (c :: text) => if blank (c :: text) then Some (WhitespaceTextDropped r) else None
                 | _ => None
                 end) ps.

Definition prepareMessageForProjection (m : context_message) : result project_error (option context_message * list anomaly) :=
  if partial (base m) then Ok (None, [])
  else
    let b := base m in
    let source := if is_tool b
                  then renderToolResultForModel (content b) (note m) (bool_decide (isError m = Some true))
                  else content b in
    let kept := List.filter (fun p => negb (blank_text p)) source in
    let next := with_base m (with_content b kept) in
    let an := whitespace_anomalies (role b) source in
    if is_tool b && bool_decide (kept = []) then Err (EmptyToolResult (toolCallId b))
    else if has_tools b then Ok (Some next, an)
    else if negb (bool_decide (toolCalls b = [])) then Ok (Some next, an)
    else if bool_decide (kept = []) then Ok (None, an)
    else if forallb isVacuousContentPart kept then Ok (None, an ++ [VacuousMessageDropped (role b)])
    else Ok (Some next, an).

(** * Merging the user's messages *)

Definition canMergeUserMessage (m : context_message) : bool := is_user (base m) && bool_decide (origin m = Some OUser).

Definition text_of (p : content_part) : jsstr := match p with TextPart text => text | _ => [] end.
Definition is_text (p : content_part) : bool := match p with TextPart _ => true | _ => false end.

Definition extractTextOnly (ps : list content_part) : jsstr := concat (text_of <$> ps).

Definition mergeTwoUserMessages (a b : context_message) : context_message :=
  let non_text ps := List.filter (fun p => negb (is_text p)) ps in
  let ca := content (base a) in
  let cb := content (base b) in
  user_message (TextPart (extractTextOnly ca ++ [10; 10]%N ++ extractTextOnly cb) :: non_text ca ++ non_text cb) (origin a).

(** [out] is kept in reverse: its head is [out.at(-1)]. *)
Fixpoint merge_loop (history : list context_message) (out : list context_message) : result project_error (list context_message * list anomaly) :=
  match history with
  | [] => Ok (rev out, [])
  | source :: history' =>
      let? p := prepareMessageForProjection source in
      let? r := merge_loop history'
        match p.1 with
        | None => out
        | Some m =>
            match out with
            | previous :: out' =>
                if canMergeUserMessage m && canMergeUserMessage previous then mergeTwoUserMessages previous m :: out' else m :: out
            | [] => [m]
            end
        end in
      Ok (r.1, p.2 ++ r.2)
  end.

Definition mergeAdjacentUserMessages (history : list context_message) : result project_error (list message * list anomaly) :=
  let? r := merge_loop history [] in Ok (base <$> r.1, r.2).

(** * Duplicate tool calls *)

Definition with_calls (m : message) (cs : list tool_call) : message :=
  Message (role m) (name m) (content m) cs (toolCallId m) (partial m) (tools m).

Fixpoint keep_new_calls (seen : list jsstr) (cs : list tool_call) : list tool_call * list jsstr * list anomaly :=
  match cs with
  | [] => ([], seen, [])
  | c :: cs' =>
      if bool_decide (call_id c ∈ seen) then
        let '(kept, seen', an) := keep_new_calls seen cs' in (kept, seen', DuplicateToolCallDropped (call_id c) :: an)
      else
        let '(kept, seen', an) := keep_new_calls (call_id c :: seen) cs' in (c :: kept, seen', an)
  end.

Fixpoint dedupe_loop (seenCalls seenResults : list jsstr) (ms : list message) : list message * list anomaly :=
  match ms with
  | [] => ([], [])
  | m :: ms' =>
      if is_assistant m && negb (bool_decide (toolCalls m = [])) then
        let '(kept, seenCalls', an) := keep_new_calls seenCalls (toolCalls m) in
        let '(out, an') := dedupe_loop seenCalls' seenResults ms' in
        if bool_decide (length kept = length (toolCalls m)) then (m :: out, an ++ an')
        else if negb (bool_decide (kept = [])) || negb (forallb isVacuousContentPart (content m)) then (with_calls m kept :: out, an ++ an')
        else if negb (bool_decide (content m = [])) then (out, an ++ VacuousMessageDropped (role m) :: an')
        else (out, an ++ an')
      else
        match is_tool m, toolCallId m with
        | true, Some id =>
            if bool_decide (id ∈ seenResults) then
              let '(out, an) := dedupe_loop seenCalls seenResults ms' in (out, DuplicateToolResultDropped id :: an)
            else
              let '(out, an) := dedupe_loop seenCalls (id :: seenResults) ms' in (m :: out, an)
        | _, _ => let '(out, an) := dedupe_loop seenCalls seenResults ms' in (m :: out, an)
        end
  end.

Definition dedupeDuplicateToolCalls (ms : list message) : list message * list anomaly := dedupe_loop [] [] ms.

(** * Adjacency of tool calls and results *)

Record project_options : Type := ProjectOptions {
  synthesizeMissing : bool;
  dropOrphanResults : bool;
  dropLeadingNonUser : bool;
  mergeConsecutiveAssistants : bool;
  dedupeDuplicates : bool;
}.

Definition SYNTHETIC_TOOL_RESULT_TEXT : jsstr :=
  js "Tool result is not available in the current context. Do not assume the tool completed successfully.".

Definition makeSyntheticToolResult (id : jsstr) : message := createToolMessage id [TextPart SYNTHETIC_TOOL_RESULT_TEXT].

(** A [Set] of strings in insertion order. *)
Fixpoint set_of (ids : list jsstr) : list jsstr :=
  match ids with
  | [] => []
  | x :: ids' => x :: List.filter (fun y => negb (bool_decide (y = x))) (set_of ids')
  end.

Definition set_delete (id : jsstr) (s : list jsstr) : list jsstr := List.filter (fun y => negb (bool_decide (y = id))) s.

Fixpoint indexed {A} (i : nat) (l : list A) : list (nat * A) :=
  match l with [] => [] | x :: l' => (i, x) :: indexed (S i) l' end.

(** The index of the last message that is not a tool result; [-1] without one. *)
Fixpoint lastNonTool_from (i : Z) (ms : list message) (acc : Z) : Z :=
  match ms with
  | [] => acc
  | m :: ms' => lastNonTool_from (i + 1) ms' (if is_tool m then acc else i)
  end.
Definition lastNonToolIndex (ms : list message) : Z := lastNonTool_from 0 ms (-1).

(** The id a message answers, if it answers a pending call. *)
Definition answers (pending : list jsstr) (m : message) : option jsstr :=
  match is_tool m, toolCallId m with
  | true, Some id => if bool_decide (id ∈ pending) then Some id else None
  | _, _ => None
  end.

Fixpoint take_results (ms : list (nat * message)) (pending : list jsstr) (consumed : list nat) (foreignBetween : bool)
  : list message * list jsstr * list nat * list anomaly :=
  match ms with
  | [] => ([], pending, consumed, [])
  | (j, next) :: ms' =>
      if bool_decide (pending = []) then ([], pending, consumed, [])
      else if bool_decide (j ∈ consumed) then take_results ms' pending consumed foreignBetween
      else match answers pending next with
           | Some id =>
               let '(out, pending', consumed', an) := take_results ms' (set_delete id pending) (j :: consumed) foreignBetween in
               (next :: out, pending', consumed', if foreignBetween then ToolResultReordered id :: an else an)
           | None => take_results ms' pending consumed true
           end
  end.

Fixpoint repair_loop (synthesize : bool) (lastNonTool : Z) (ms : list (nat * message)) (consumed : list nat) : list message * list anomaly :=
  match ms with
  | [] => ([], [])
  | (i, m) :: ms' =>
      if bool_decide (i ∈ consumed) then repair_loop synthesize lastNonTool ms' consumed
      else if negb (is_assistant m) || bool_decide (toolCalls m = []) then
        let '(out, an) := repair_loop synthesize lastNonTool ms' consumed in (m :: out, an)
      else
        let '(results, pending, consumed', an) := take_results ms' (set_of (call_ids m)) consumed false in
        let isMidHistory := Z.of_nat i <? lastNonTool in
        let missing := if synthesize || isMidHistory then pending else [] in
        let '(out, an') := repair_loop synthesize lastNonTool ms' consumed' in
        (m :: results ++ (makeSyntheticToolResult <$> missing) ++ out,
         an ++ ((fun id => ToolResultSynthesized id (negb isMidHistory)) <$> missing) ++ an')
  end.

Definition repairToolExchangeAdjacency (ms : list message) (synthesize : bool) : list message * list anomaly :=
  repair_loop synthesize (lastNonToolIndex ms) (indexed 0 ms) [].

(** * Dropping and merging *)

Definition all_call_ids (ms : list message) : list jsstr := concat ((fun m => if is_assistant m then call_ids m else []) <$> ms).

Definition orphan (toolUseIds : list jsstr) (m : message) : option jsstr :=
  match is_tool m, toolCallId m with
  | true, Some id => if bool_decide (id ∈ toolUseIds) then None else Some id
  | _, _ => None
  end.

Definition dropOrphanToolResults (ms : list message) : list message * list anomaly :=
  let toolUseIds := all_call_ids ms in
  (List.filter (fun m => bool_decide (orphan toolUseIds m = None)) ms, OrphanToolResultDropped <$> omap (orphan toolUseIds) ms).

(** [out] is kept in reverse. *)
Fixpoint merge_assistants_loop (ms out : list message) : list message * list anomaly :=
  match ms with
  | [] => (rev out, [])
  | m :: ms' =>
      match out with
      | previous :: out' =>
          if is_assistant previous && is_assistant m then
            let merged := Message (role previous) (name previous) (content previous ++ content m) (toolCalls previous ++ toolCalls m)
                            (toolCallId previous) (partial previous) (tools previous) in
            let '(res, an) := merge_assistants_loop ms' (merged :: out') in (res, ConsecutiveAssistantsMerged :: an)
          else merge_assistants_loop ms' (m :: out)
      | [] => merge_assistants_loop ms' [m]
      end
  end.

Definition mergeConsecutiveAssistantMessages (ms : list message) : list message * list anomaly := merge_assistants_loop ms [].

Fixpoint dropLeadingNonUserMessages (ms : list message) : list message * list anomaly :=
  match ms with
  | [] => ([], [])
  | m :: ms' =>
      if is_user m then (ms, [])
      else let '(out, an) := dropLeadingNonUserMessages ms' in (out, LeadingNonUserDropped (role m) :: an)
  end.

(** * The projection *)

Definition also (f : list message -> list message * list anomaly) (b : bool) (r : list message * list anomaly) : list message * list anomaly :=
  if b then let r' := f r.1 in (r'.1, r.2 ++ r'.2) else r.

Definition project (history : list context_message) (o : project_options) : result project_error (list message * list anomaly) :=
  let? r0 := mergeAdjacentUserMessages history in
  let r1 := also dedupeDuplicateToolCalls (dedupeDuplicates o) r0 in
  let r2 := also (fun ms => repairToolExchangeAdjacency ms (synthesizeMissing o)) true r1 in
  let r3 := also mergeConsecutiveAssistantMessages (mergeConsecutiveAssistants o) r2 in
  let r4 := also dropOrphanToolResults (dropOrphanResults o) r3 in
  let r5 := also dropLeadingNonUserMessages (dropLeadingNonUser o) r4 in
  Ok r5.

(** The options of the context's request projections ([messages], [strictMessages]). *)
Definition normal_options : project_options := ProjectOptions false true false false false.
Definition strict_options : project_options := ProjectOptions true true true true true.

(** * Trimming an open exchange *)

Definition trimTrailingOpenToolExchange (history : list message) : list message :=
  let i := lastNonToolIndex history in
  if i <? 0 then []
  else match history !! Z.to_nat i with
       | None => []
       | Some assistant =>
           if negb (is_assistant assistant) || bool_decide (toolCalls assistant = []) then history
           else
             let trailing := omap toolCallId (drop (S (Z.to_nat i)) history) in
             if forallb (fun id => bool_decide (id ∈ trailing)) (call_ids assistant) then history else take (Z.to_nat i) history
       end.

(** * Media *)

Inductive media_kind : Type := ImageUrl | AudioUrl | VideoUrl.

Definition media_of (p : content_part) : option (media_kind * media) :=
  match p with
  | ImagePart c => Some (ImageUrl, c)
  | AudioPart c => Some (AudioUrl, c)
  | VideoPart c => Some (VideoUrl, c)
  | _ => None
  end.

Definition isDegradableMediaPart (p : content_part) : bool := match media_of p with Some _ => true | None => false end.

Definition MEDIA_DEGRADE_KEEP_RECENT : Z := 2.

Definition MEDIA_DEGRADED_PLACEHOLDERS (k : media_kind) : jsstr :=
  js match k with
     | ImageUrl => "[image omitted: dropped to fit the provider request size limit; re-read the file to view it]"
     | AudioUrl => "[audio omitted: dropped to fit the provider request size limit; re-read the file to hear it]"
     | VideoUrl => "[video omitted: dropped to fit the provider request size limit; re-read the file to view it]"
     end.

Definition MEDIA_STRIPPED_PLACEHOLDERS (k : media_kind) : jsstr :=
  js match k with
     | ImageUrl => "[image omitted for provider compatibility; re-read the file to view it or get conversion guidance]"
     | AudioUrl => "[audio omitted for provider compatibility; re-read the file to hear it]"
     | VideoUrl => "[video omitted for provider compatibility; re-read the file to view it]"
     end.

Definition kind_text (k : media_kind) : jsstr := js match k with ImageUrl => "image_url" | AudioUrl => "audio_url" | VideoUrl => "video_url" end.

Section strip.
(** The digest of a byte string, in hexadecimal. *)
Context (sha256 : jsstr -> jsstr).

Definition mediaStripKey (k : media_kind) (c : media) : jsstr :=
  sha256 (kind_text k ++ [0]%N ++ default [] (media_id c) ++ [0]%N ++ url c).

Definition part_key (p : content_part) : option jsstr := (fun kc => mediaStripKey kc.1 kc.2) <$> media_of p.

Definition captureMediaStripSnapshot (ms : list message) : gset jsstr :=
  list_to_set (omap part_key (concat (content <$> ms))).

Definition strip_part (snapshot : gset jsstr) (p : content_part) : content_part :=
  match media_of p with
  | Some (k, c) => if bool_decide (mediaStripKey k c ∈ snapshot) then TextPart (MEDIA_STRIPPED_PLACEHOLDERS k) else p
  | None => p
  end.

Definition stripMediaPartsBySnapshot (ms : list message) (snapshot : gset jsstr) : list message :=
  (fun m => with_content m (strip_part snapshot <$> content m)) <$> ms.
End strip.

Definition media_count (ms : list message) : Z := sum_of (fun m => blen (List.filter isDegradableMediaPart (content m))) ms.

Fixpoint degrade_parts (placeholders : media_kind -> jsstr) (toDegrade : Z) (ps : list content_part) : list content_part * Z :=
  match ps with
  | [] => ([], toDegrade)
  | p :: ps' =>
      match media_of p with
      | Some (k, _) =>
          if toDegrade =? 0 then let '(out, n) := degrade_parts placeholders toDegrade ps' in (p :: out, n)
          else let '(out, n) := degrade_parts placeholders (toDegrade - 1) ps' in (TextPart (placeholders k) :: out, n)
      | None => let '(out, n) := degrade_parts placeholders toDegrade ps' in (p :: out, n)
      end
  end.

Fixpoint degrade_messages (placeholders : media_kind -> jsstr) (toDegrade : Z) (ms : list message) : list message :=
  match ms with
  | [] => []
  | m :: ms' =>
      let '(c, n) := degrade_parts placeholders toDegrade (content m) in
      with_content m c :: degrade_messages placeholders n ms'
  end.

Definition degradeOlderMediaParts (ms : list message) (keepRecent : Z) (placeholders : media_kind -> jsstr) : list message :=
  let toDegrade := Z.max 0 (media_count ms - keepRecent) in
  if toDegrade =? 0 then ms else degrade_messages placeholders toDegrade ms.

(** * What a provider accepts

    Tool results directly follow the message that made their calls, one for each
    call, and nothing else does. [mayEndOpen] allows the last exchange to be still
    running. [open] holds the calls without a result so far. *)

Fixpoint exchange_ok (mayEndOpen : bool) (open : list jsstr) (ms : list message) : bool :=
  match ms with
  | [] => mayEndOpen || bool_decide (open = [])
  | m :: ms' =>
      if is_tool m then
        match answers open m with
        | Some id => exchange_ok mayEndOpen (set_delete id open) ms'
        | None => false
        end
      else bool_decide (open = []) && exchange_ok mayEndOpen (if is_assistant m then set_of (call_ids m) else []) ms'
  end.

(** Every result comes after the call it answers, if any message makes that call. *)
Fixpoint results_follow (called seen : list jsstr) (ms : list message) : bool :=
  match ms with
  | [] => true
  | m :: ms' =>
      match is_tool m, toolCallId m with
      | true, Some id => bool_decide (id ∈ seen) || negb (bool_decide (id ∈ called))
      | true, None => false
      | false, _ => true
      end && results_follow called (if is_assistant m then call_ids m ++ seen else seen) ms'
  end.

Definition results_follow_calls (history : list context_message) : bool :=
  let ms := List.filter (fun m => negb (partial m)) (base <$> history) in results_follow (all_call_ids ms) [] ms.

Definition no_orphans (history : list context_message) : bool :=
  let ms := List.filter (fun m => negb (partial m)) (base <$> history) in
  forallb (fun m => bool_decide (orphan (all_call_ids ms) m = None)) ms.

(** A message a strict provider does not reject as empty. *)
Definition sendable (m : message) : bool :=
  has_tools m || negb (bool_decide (toolCalls m = [])) || negb (forallb isVacuousContentPart (content m)).

Fixpoint no_adjacent_assistants (ms : list message) : bool :=
  match ms with
  | m :: (m' :: _) as ms' => negb (is_assistant m && is_assistant m') && no_adjacent_assistants ms'
  | _ => true
  end.

(** * Sets of ids *)

Lemma elem_of_set_delete id id' s : id' ∈ set_delete id s <-> id' ∈ s /\ id' <> id.
Proof.
  unfold set_delete. rewrite list_elem_of_In, List.filter_In, <- list_elem_of_In, negb_true_iff, bool_decide_eq_false. done.
Qed.

Lemma elem_of_set_of id ids : id ∈ set_of ids <-> id ∈ ids.
Proof.
  induction ids as [|x ids IH]; cbn; [done|]. rewrite !elem_of_cons. fold (set_delete x (set_of ids)).
  rewrite elem_of_set_delete, IH. destruct (decide (id = x)); naive_solver.
Qed.

Lemma NoDup_set_delete id s : NoDup s -> NoDup (set_delete id s).
Proof. unfold set_delete. rewrite !NoDup_ListNoDup. apply List.NoDup_filter. Qed.

Lemma NoDup_set_of ids : NoDup (set_of ids).
Proof.
  induction ids as [|x ids IH]; cbn; [constructor|]. fold (set_delete x (set_of ids)). constructor; [|by apply NoDup_set_delete].
  rewrite elem_of_set_delete. naive_solver.
Qed.

Lemma set_of_NoDup ids : NoDup ids -> set_of ids = ids.
Proof.
  induction 1 as [|x ids Hx Hn IH]; cbn; [done|]. rewrite IH. f_equal.
  apply List.forallb_filter_id. rewrite forallb_forall. intros y Hy. apply list_elem_of_In in Hy.
  rewrite negb_true_iff, bool_decide_eq_false. by intros ->.
Qed.

Lemma set_of_nil ids : set_of ids = [] <-> ids = [].
Proof. destruct ids; cbn; [done|]. split; intros H; discriminate H. Qed.

Lemma answers_Some pending m id : answers pending m = Some id <-> is_tool m = true /\ toolCallId m = Some id /\ id ∈ pending.
Proof.
  unfold answers. destruct (is_tool m), (toolCallId m) as [id'|]; try naive_solver.
  case_bool_decide; naive_solver.
Qed.

Lemma answers_ext p q m : (forall id, id ∈ p <-> id ∈ q) -> answers p m = answers q m.
Proof.
  intros H. unfold answers. destruct (is_tool m), (toolCallId m) as [id|]; try done.
  destruct (decide (id ∈ p)) as [E|E].
  - rewrite !bool_decide_eq_true_2; [done|by apply H|done].
  - rewrite !bool_decide_eq_false_2; [done|by rewrite <- H|done].
Qed.

(** * The repair without indices

    [pull] takes the results of the pending calls out of the rest of the list. *)

Fixpoint pull (pending : list jsstr) (ms : list message) : list message * list message * list jsstr :=
  match ms with
  | [] => ([], [], pending)
  | m :: ms' =>
      if bool_decide (pending = []) then ([], ms, [])
      else match answers pending m with
           | Some id => let '(out, rest, p) := pull (set_delete id pending) ms' in (m :: out, rest, p)
           | None => let '(out, rest, p) := pull pending ms' in (out, m :: rest, p)
           end
  end.

Definition nontool (m : message) : bool := negb (is_tool m).

Fixpoint live (i : nat) (l : list message) (consumed : list nat) : list message :=
  match l with
  | [] => []
  | m :: l' => if bool_decide (i ∈ consumed) then live (S i) l' consumed else m :: live (S i) l' consumed
  end.

Lemma live_ext l : forall i c1 c2, (forall j, (i <= j)%nat -> j ∈ c1 <-> j ∈ c2) -> live i l c1 = live i l c2.
Proof.
  induction l as [|m l IH]; intros i c1 c2 H; cbn; [done|].
  rewrite (IH (S i) c1 c2) by (intros j Hj; apply H; lia).
  destruct (decide (i ∈ c1)) as [E|E].
  - rewrite !bool_decide_eq_true_2; [done|by apply H|done].
  - rewrite !bool_decide_eq_false_2; [done|by rewrite <- H|done].
Qed.

(** Indices below [i] are not touched, and only results are consumed. *)
Definition consumes (l : list message) (i : nat) (c c' : list nat) : Prop :=
  forall j, j ∈ c' <-> j ∈ c \/ ((j ∉ c) /\ (j ∈ c') /\ (i <= j)%nat /\ (exists m, l !! (j - i)%nat = Some m /\ is_tool m = true)).

Lemma consumes_shift l m i c c' : consumes l (S i) c c' -> consumes (m :: l) i c c'.
Proof.
  intros H j. split.
  - intros Hj. apply H in Hj as [?|(Hn & Hin & Hij & m' & Hm & Ht)]; [by left|]. right. split_and!; [done|done|lia|].
    exists m'. by replace (j - i)%nat with (S (j - S i)) by lia.
  - intros [Hj|(_ & Hj & _)]; [|done]. apply H. by left.
Qed.

Lemma take_results_pull l : forall i pending c fb out pend c' an,
  take_results (indexed i l) pending c fb = (out, pend, c', an) ->
  pull pending (live i l c) = (out, live i l c', pend) /\ consumes l i c c'.
Proof.
  assert (Hrefl : forall l i c, consumes l i c c) by (intros l' i c j; naive_solver).
  induction l as [|m l IH]; intros i pending c fb out pend c' an; cbn [take_results indexed live pull].
  { intros [= <- <- <- <-]. done. }
  case_bool_decide as Hp.
  { intros [= <- <- <- <-]. subst. split; [|done]. case_bool_decide; [|done].
    destruct (live (S i) l c) eqn:E; cbn; [done|]. done. }
  case_bool_decide as Hc.
  { intros H. apply IH in H as [H1 H2]. rewrite H1. rewrite bool_decide_eq_true_2 by (apply H2; by left).
    split; [done|by apply consumes_shift]. }
  cbn [pull]. rewrite (bool_decide_eq_false_2 (pending = [])) by done.
  destruct (answers pending m) as [id|] eqn:Ea.
  - destruct (take_results (indexed (S i) l) _ (i :: c) fb) as [[[out1 p1] c1] an1] eqn:Et. intros [= <- <- <- <-].
    apply IH in Et as [H1 H2]. rewrite (live_ext l (S i) (i :: c) c) in H1 by (intros j Hj; rewrite elem_of_cons; naive_solver lia).
    rewrite H1, bool_decide_eq_true_2 by (apply H2; left; by left). split; [done|].
    intros j. split.
    + intros Hj. destruct (decide (j ∈ c)) as [|Hn]; [by left|]. right. split_and!; [done|done| |].
      * apply H2 in Hj as [Hj|(_ & _ & Hij & _)]; [|lia]. apply elem_of_cons in Hj as [->|]; [lia|done].
      * apply answers_Some in Ea as (Ht & _). apply H2 in Hj as [Hj|(_ & _ & Hij & m' & Hm & Ht')].
        -- apply elem_of_cons in Hj as [->|]; [|done]. exists m. by rewrite Nat.sub_diag.
        -- exists m'. by replace (j - i)%nat with (S (j - S i)) by lia.
    + intros [Hj|(_ & Hj & _)]; [|done]. apply H2. left. by right.
  - intros H. apply IH in H as [H1 H2]. rewrite H1. rewrite bool_decide_eq_false_2; [split; [done|by apply consumes_shift]|].
    intros Hi. apply H2 in Hi as [?|(_ & _ & ? & _)]; [done|lia].
Qed.

Fixpoint repair_list (fuel : nat) (synthesize : bool) (ms : list message) : list message :=
  match fuel, ms with
  | S fuel', m :: ms' =>
      if negb (is_assistant m) || bool_decide (toolCalls m = []) then m :: repair_list fuel' synthesize ms'
      else
        let '(results, rest, pending) := pull (set_of (call_ids m)) ms' in
        m :: results ++ (makeSyntheticToolResult <$> (if synthesize || existsb nontool ms' then pending else [])) ++ repair_list fuel' synthesize rest
  | _, _ => []
  end.

Lemma lastNonTool_from_spec l : forall i acc, acc < i ->
  (existsb nontool l = true /\ i <= lastNonTool_from i l acc < i + blen l) \/ (existsb nontool l = false /\ lastNonTool_from i l acc = acc).
Proof.
  induction l as [|m l IH]; intros i acc Hi; cbn; [by right|]. unfold nontool at 1 3. change (blen (m :: l)) with (Z.of_nat (S (length l))).
  unfold blen in IH. destruct (is_tool m); cbn.
  - destruct (IH (i + 1) acc ltac:(lia)) as [[H1 H2]|[H1 H2]]; [left|right]; (split; [done|(lia || done)]).
  - left. split; [done|]. destruct (IH (i + 1) i ltac:(lia)) as [[H1 H2]|[H1 H2]]; lia.
Qed.

Lemma mid_history pre m l :
  (Z.of_nat (length pre) <? lastNonToolIndex (pre ++ m :: l)) = existsb nontool l.
Proof.
  unfold lastNonToolIndex.
  assert (H : forall pre i acc, acc < i -> exists acc', acc' <= i + blen pre /\
            lastNonTool_from i (pre ++ m :: l) acc = lastNonTool_from (i + blen pre + 1) l acc').
  { clear pre. intros pre. induction pre as [|x pre IH]; intros i acc Hi; cbn [app lastNonTool_from].
    - change (blen (@nil message)) with 0. exists (if is_tool m then acc else i). rewrite Z.add_0_r. split; [destruct (is_tool m); lia|done].
    - destruct (IH (i + 1) (if is_tool x then acc else i)) as (acc' & H1 & H2); [destruct (is_tool x); lia|].
      unfold blen in *. cbn [length]. exists acc'. split; [lia|]. rewrite H2. f_equal. lia. }
  destruct (H pre 0 (-1) ltac:(lia)) as (acc' & H1 & ->). unfold blen in *.
  destruct (lastNonTool_from_spec l (0 + Z.of_nat (length pre) + 1) acc' ltac:(lia)) as [[-> H2]|[-> H2]].
  - apply Z.ltb_lt. lia.
  - rewrite H2. apply Z.ltb_ge. lia.
Qed.

Lemma pull_facts ms : forall pending out rest p, pull pending ms = (out, rest, p) ->
  (length rest <= length ms)%nat /\ existsb nontool rest = existsb nontool ms /\
  Forall (fun m => is_tool m = true) out.
Proof.
  induction ms as [|m ms IH]; intros pending out rest p; cbn [pull].
  { intros [= <- <- <-]. done. }
  case_bool_decide; [intros [= <- <- <-]; done|].
  destruct (answers pending m) as [id|] eqn:Ea.
  - destruct (pull _ ms) as [[o r] q] eqn:E. intros [= <- <- <-]. apply IH in E as (H1 & H2 & H3).
    apply answers_Some in Ea as (Ht & _). cbn. unfold nontool at 2. rewrite Ht. split_and!; [lia|done|by constructor].
  - destruct (pull _ ms) as [[o r] q] eqn:E. intros [= <- <- <-]. apply IH in E as (H1 & H2 & H3).
    cbn. rewrite H2. split_and!; [lia|done|done].
Qed.

(** Only results are consumed, so what follows in the list is non-tool exactly when
    what is left of it is. *)
Definition tools_only (ms : list message) (c : list nat) : Prop := forall j m, j ∈ c -> ms !! j = Some m -> is_tool m = true.

Lemma live_nontool ms l i c : tools_only ms c -> (forall k, ms !! (i + k)%nat = l !! k) ->
  existsb nontool (live i l c) = existsb nontool l.
Proof.
  intros Hc. revert i. induction l as [|m l IH]; intros i Hl; cbn; [done|].
  assert (Hm : ms !! i = Some m) by (specialize (Hl 0%nat); by rewrite Nat.add_0_r in Hl).
  assert (Hl' : forall k, ms !! (S i + k)%nat = l !! k) by (intros k; specialize (Hl (S k)); by rewrite Nat.add_succ_r in Hl).
  case_bool_decide as Hi.
  - unfold nontool at 2. rewrite (Hc i m Hi Hm). cbn. by apply IH.
  - cbn. by rewrite IH.
Qed.

Lemma repair_loop_list ms syn : forall l pre c fuel,
  ms = pre ++ l -> tools_only ms c -> (length l <= fuel)%nat ->
  (repair_loop syn (lastNonToolIndex ms) (indexed (length pre) l) c).1 = repair_list fuel syn (live (length pre) l c).
Proof.
  intros l. induction l as [|m l IH]; intros pre c fuel -> Hc Hf; cbn [indexed repair_loop live].
  { by destruct fuel. }
  cbn [length] in Hf. destruct fuel as [|fuel]; [lia|].
  assert (IH' : forall c' fuel', tools_only (pre ++ m :: l) c' -> (length l <= fuel')%nat ->
            (repair_loop syn (lastNonToolIndex (pre ++ m :: l)) (indexed (S (length pre)) l) c').1 = repair_list fuel' syn (live (S (length pre)) l c')).
  { intros c' fuel' Hc' Hf'. specialize (IH (pre ++ [m]) c' fuel'). rewrite length_app, Nat.add_1_r in IH.
    apply IH; [by rewrite <- app_assoc|done|done]. }
  case_bool_decide as Hi; [apply IH'; [done|lia]|]. cbn [repair_list].
  destruct (negb (is_assistant m) || bool_decide (toolCalls m = [])) eqn:Em.
  { specialize (IH' c fuel Hc ltac:(lia)). destruct (repair_loop _ _ _ _) as [out an]. cbn in *. by rewrite IH'. }
  destruct (take_results _ _ _ _) as [[[results pending] c'] an] eqn:Et.
  apply take_results_pull in Et as [H1 H2]. rewrite H1, mid_history.
  assert (Hl : forall k, (pre ++ m :: l) !! (S (length pre) + k)%nat = l !! k).
  { intros k. rewrite lookup_app_r by lia. by replace (S (length pre) + k - length pre)%nat with (S k) by lia. }
  assert (Hc' : tools_only (pre ++ m :: l) c').
  { intros j x Hj Hx. apply H2 in Hj as [Hj|(_ & _ & Hij & m' & Hm' & Ht)]; [by apply (Hc j)|].
    specialize (Hl (j - S (length pre))%nat). replace (S (length pre) + (j - S (length pre)))%nat with j in Hl by lia. naive_solver congruence. }
  rewrite (live_nontool _ l (S (length pre)) c Hc Hl).
  specialize (IH' c' fuel Hc' ltac:(lia)). destruct (repair_loop _ _ _ c') as [out an']. cbn in IH'. cbn. by rewrite IH'.
Qed.

Lemma live_nil l : forall i, live i l [] = l.
Proof. induction l as [|m l IH]; intros i; cbn; [done|]. rewrite bool_decide_eq_false_2 by apply not_elem_of_nil. by rewrite IH. Qed.

Lemma repair_is_list ms syn : (repairToolExchangeAdjacency ms syn).1 = repair_list (length ms) syn ms.
Proof.
  pose proof (repair_loop_list ms syn ms [] [] (length ms) eq_refl) as H. cbn [length] in H. rewrite live_nil in H.
  apply H; [|done]. intros j m Hj. by apply not_elem_of_nil in Hj.
Qed.

(** * Preparation keeps the exchanges *)

Lemma trimStart_nil s : trimStart s = [] <-> forallb ws s = true.
Proof. induction s as [|c s IH]; cbn; [done|]. destruct (ws c); cbn; [done|]. split; intros H; discriminate H. Qed.

Lemma trimStart_suffix s : exists pre, s = pre ++ trimStart s /\ forallb ws pre = true.
Proof.
  induction s as [|c s (pre & E & Hp)]; cbn; [by exists []|].
  destruct (ws c) eqn:Ec; [|by exists []]. exists (c :: pre). cbn. rewrite Ec. split; [by f_equal|done].
Qed.

Lemma forallb_rev {A} (f : A -> bool) l : forallb f (rev l) = forallb f l.
Proof. induction l as [|x l IH]; cbn; [done|]. rewrite forallb_app, IH. cbn. by rewrite andb_true_r, andb_comm. Qed.

Lemma rev_nil_iff {A} (l : list A) : rev l = [] <-> l = [].
Proof. split; [|by intros ->]. intros H. by rewrite <- (rev_involutive l), H. Qed.

Lemma existsb_negb {A} (f : A -> bool) l : existsb (fun x => negb (f x)) l = negb (forallb f l).
Proof. induction l as [|x l IH]; cbn; [done|]. by rewrite IH, negb_andb. Qed.

Lemma blank_spec s : blank s = forallb ws s.
Proof.
  unfold blank, trim. apply eq_true_iff_eq. rewrite bool_decide_eq_true.
  rewrite rev_nil_iff, trimStart_nil, forallb_rev.
  destruct (trimStart_suffix s) as (pre & E & Hp). rewrite E at 2. by rewrite forallb_app, Hp.
Qed.

Lemma blank_app a b : blank (a ++ b) = blank a && blank b.
Proof. by rewrite !blank_spec, forallb_app. Qed.

(** The rendered result always has something to send. *)
Lemma renderStatus_sends output err : existsb (fun p => negb (blank_text p)) (renderStatus output err) = true.
Proof.
  assert (Hparts : forall ps, existsb (fun p => negb (blank_text p))
            (if isEmptyEquivalentContentArray ps then [TextPart (if err then TOOL_EMPTY_ERROR_STATUS else TOOL_EMPTY_STATUS)]
             else if err then TextPart TOOL_ERROR_STATUS :: ps else ps) = true).
  { intros ps. unfold isEmptyEquivalentContentArray. destruct (forallb blank_text ps) eqn:E; [by destruct err|].
    destruct err; [done|]. by rewrite existsb_negb, E. }
  destruct output as [|[text|think enc|c|c|c] [|q qs]]; cbn [renderStatus]; try apply Hparts.
  destruct err.
  - destruct text as [|u text]; [done|]. cbn [existsb blank_text]. by rewrite !blank_app.
  - unfold isEmptyOutputText. destruct (blank text) eqn:E; cbn [orb]; [done|].
    case_bool_decide; [done|]. cbn. by rewrite E.
Qed.

Lemma render_sends output note err : existsb (fun p => negb (blank_text p)) (renderToolResultForModel output note err) = true.
Proof.
  unfold renderToolResultForModel. cbv zeta. pose proof (renderStatus_sends output err) as H.
  destruct note as [[|u n]|]; try done.
  assert (Happ : existsb (fun p => negb (blank_text p)) (renderStatus output err ++ [TextPart (u :: n)]) = true).
  { by rewrite existsb_app, H. }
  destruct (renderStatus output err) as [|[text|think enc|c|c|c] [|q qs]]; try done.
  cbn in H. rewrite orb_false_r in H. cbn [existsb blank_text]. rewrite blank_app. by apply negb_true_iff in H as ->.
Qed.

Definition no_think (ps : list content_part) : bool := forallb (fun p => match p with ThinkPart _ _ => false | _ => true end) ps.

Lemma render_no_think output note err : no_think output = true -> no_think (renderToolResultForModel output note err) = true.
Proof.
  intros H. assert (Hs : no_think (renderStatus output err) = true).
  { unfold renderStatus. repeat case_match; subst; try done; cbn in *; try done; by rewrite andb_true_r in *. }
  unfold renderToolResultForModel. cbv zeta. repeat case_match; subst; try done; unfold no_think in *; by rewrite forallb_app, Hs.
Qed.

Lemma vacuous_no_think ps : no_think ps = true -> forallb isVacuousContentPart ps = true -> forallb blank_text ps = true.
Proof.
  unfold no_think. rewrite !forallb_forall. intros H1 H2 p Hp. specialize (H1 p Hp). specialize (H2 p Hp). by destruct p.
Qed.

(** User messages make no calls and load no tools. *)
Definition plain_user (m : message) : bool := negb (is_user m) || (bool_decide (toolCalls m = []) && negb (has_tools m)).

(** Messages that stand for each other in exchanges. *)
Definition same_shape (m m' : message) : Prop :=
  role m' = role m /\ (is_tool m = true -> toolCallId m' = toolCallId m) /\ (is_assistant m = true -> toolCalls m' = toolCalls m).

(** What a preparation drops: no message with calls, and no result unless it is
    made of thinking. *)
Definition droppable (m : message) : Prop :=
  (is_assistant m = false \/ toolCalls m = []) /\ (no_think (content m) = true -> is_tool m = false).

Inductive prepared : list message -> list message -> Prop :=
| prepared_nil : prepared [] []
| prepared_drop m ms ms' : droppable m -> prepared ms ms' -> prepared (m :: ms) ms'
| prepared_keep m m' ms ms' : same_shape m m' -> sendable m' = true -> prepared ms ms' -> prepared (m :: ms) (m' :: ms').

Lemma prepare_spec m : exists r an, prepareMessageForProjection m = Ok (r, an) /\
  match r with
  | None => partial (base m) = true \/ (partial (base m) = false /\ droppable (base m))
  | Some m' => partial (base m) = false /\ same_shape (base m) (base m') /\ sendable (base m') = true /\
               (plain_user (base m) = true -> plain_user (base m') = true)
  end.
Proof.
  unfold prepareMessageForProjection. destruct (partial (base m)) eqn:Ep; [by eexists _, _; split; [done|left]|].
  set (source := if is_tool (base m) then _ else _). set (kept := List.filter _ source). cbv zeta.
  assert (Hkept : is_tool (base m) = true -> existsb (fun p => negb (blank_text p)) kept = true).
  { intros Ht. unfold kept, source. rewrite Ht. set (r := renderToolResultForModel _ _ _).
    pose proof (render_sends (content (base m)) (note m) (bool_decide (isError m = Some true))) as H. fold r in H.
    apply existsb_exists in H as (p & Hp & Hb). apply existsb_exists. exists p. split; [|done]. by apply List.filter_In. }
  assert (Hshape : same_shape (base m) (with_content (base m) kept)) by done.
  destruct (is_tool (base m) && bool_decide (kept = [])) eqn:Ee.
  { apply andb_true_iff in Ee as [Et Ee]. apply bool_decide_eq_true in Ee. specialize (Hkept Et). by rewrite Ee in Hkept. }
  assert (Hvac : no_think (content (base m)) = true -> forallb isVacuousContentPart kept = true -> is_tool (base m) = false).
  { intros Hn Hv. destruct (is_tool (base m)) eqn:Et; [|done]. specialize (Hkept eq_refl).
    rewrite existsb_negb, vacuous_no_think in Hkept; [done| |done].
    unfold no_think. apply forallb_forall. intros p [Hp _]%List.filter_In. unfold source in Hp.
    pose proof (render_no_think (content (base m)) (note m) (bool_decide (isError m = Some true)) Hn) as Hr.
    unfold no_think in Hr. rewrite forallb_forall in Hr. by apply Hr. }
  assert (Hsend : sendable (with_content (base m) kept) =
            has_tools (base m) || negb (bool_decide (toolCalls (base m) = [])) || negb (forallb isVacuousContentPart kept)) by done.
  destruct (has_tools (base m)) eqn:Etl; [by eexists _, _|].
  destruct (bool_decide (toolCalls (base m) = [])) eqn:Ec; cbn [negb orb] in *; [|by eexists _, _].
  apply bool_decide_eq_true in Ec.
  case_bool_decide as Ek.
  { eexists _, _. split; [done|]. right. split_and!; [done|]. split; [by right|]. intros Hn. apply Hvac; [done|]. by rewrite Ek. }
  destruct (forallb isVacuousContentPart kept) eqn:Ev; [|by eexists _, _].
  eexists _, _. split; [done|]. right. split_and!; [done|]. split; [by right|]. intros Hn. by apply Hvac.
Qed.

Lemma prepared_app a b a' b' : prepared a a' -> prepared b b' -> prepared (a ++ b) (a' ++ b').
Proof. induction 1; intros Hb; cbn; [done|by constructor; auto|by constructor; auto]. Qed.

Lemma same_shape_trans a b c : same_shape a b -> same_shape b c -> same_shape a c.
Proof.
  intros (R1 & R2 & R3) (S1 & S2 & S3). unfold is_tool, is_assistant in *. rewrite R1 in *.
  split_and!; [congruence|intros H; by rewrite S2, R2|intros H; by rewrite S3, R3].
Qed.

Lemma prepared_swap p q : same_shape p q -> sendable q = true -> forall raw l, prepared raw (l ++ [p]) -> prepared raw (l ++ [q]).
Proof.
  intros Hpq Hq raw l H. remember (l ++ [p]) as lp eqn:E. revert l E.
  induction H as [|m ms ms' Hd H IH|m m' ms ms' Hm Hs H IH]; intros l E.
  - by destruct l.
  - constructor; [done|by apply IH].
  - destruct l as [|x l]; cbn in E; injection E as -> E; subst.
    + constructor; [by eapply same_shape_trans|done|done].
    + constructor; [done|done|by apply IH].
Qed.

Lemma canMerge_user m : canMergeUserMessage m = true -> role (base m) = User.
Proof. unfold canMergeUserMessage, is_user. rewrite andb_true_iff, !bool_decide_eq_true. tauto. Qed.

(** The messages a projection looks at: the complete ones. *)
Definition complete (history : list context_message) : list message := List.filter (fun m => negb (partial m)) (base <$> history).

Lemma user_shape m m' : role m = User -> role m' = User -> same_shape m m'.
Proof. intros H1 H2. unfold same_shape, is_tool, is_assistant. by rewrite H1, H2. Qed.

Lemma vacuous_text ps : forallb isVacuousContentPart ps = true <->
  blank (extractTextOnly ps) = true /\ forallb isVacuousContentPart (List.filter (fun p => negb (is_text p)) ps) = true.
Proof.
  unfold extractTextOnly. induction ps as [|p ps IH]; cbn; [done|].
  rewrite blank_app, !andb_true_iff, IH. destruct p; cbn; rewrite ?andb_true_iff; naive_solver.
Qed.

Lemma merged_sendable a b : plain_user (base a) = true -> is_user (base a) = true -> sendable (base a) = true ->
  sendable (base (mergeTwoUserMessages a b)) = true.
Proof.
  unfold sendable, plain_user. intros Hp Hu. rewrite Hu in Hp. cbn [negb orb] in Hp. apply andb_true_iff in Hp as [Hc Ht].
  apply negb_true_iff in Ht as ->. rewrite Hc. cbn. rewrite !negb_true_iff. intros H.
  apply Bool.not_true_iff_false. intros Hm. apply Bool.not_true_iff_false in H. apply H, vacuous_text.
  rewrite andb_true_iff, blank_app, forallb_app, !andb_true_iff in Hm. tauto.
Qed.

Lemma prepared_one m m' : same_shape m m' -> sendable m' = true -> prepared [m] [m'].
Proof. intros H1 H2. constructor; [done|done|constructor]. Qed.

Lemma merge_loop_prepared history : forall raw out,
  prepared raw (base <$> rev out) ->
  Forall (fun m => plain_user (base m) = true) history ->
  Forall (fun m => plain_user (base m) = true /\ sendable (base m) = true) out ->
  exists res an, merge_loop history out = Ok (res, an) /\ prepared (raw ++ complete history) (base <$> res).
Proof.
  induction history as [|m history IH]; intros raw out Hp Hh Ho; cbn [merge_loop].
  { eexists _, _. split; [done|]. by rewrite app_nil_r. }
  apply Forall_cons in Hh as [Hm Hh]. destruct (prepare_spec m) as (r & an & -> & Hr). cbn [rbind fst snd].
  unfold complete. cbn [fmap list_fmap List.filter].
  set (out' := match r with None => out | Some _ => _ end).
  assert (Hnext : forall raw', raw ++ complete (m :: history) = raw' ++ complete history ->
            prepared raw' (base <$> rev out') -> Forall (fun m => plain_user (base m) = true /\ sendable (base m) = true) out' ->
            exists res an0, (let? r0 := merge_loop history out' in Ok (r0.1, an ++ r0.2)) = Ok (res, an0) /\
                            prepared (raw ++ complete (m :: history)) (base <$> res)).
  { intros raw' -> H1 H2. destruct (IH raw' out' H1 Hh H2) as (res & an' & -> & H). by eexists _, _. }
  unfold complete in Hnext. cbn [fmap list_fmap List.filter] in Hnext.
  destruct r as [m'|].
  - destruct Hr as (Hpart & Hs & Hsend & Hpu). rewrite Hpart in *. cbn [negb] in *. specialize (Hpu Hm).
    apply (Hnext (raw ++ [base m])); [by rewrite <- app_assoc| |].
    + unfold out'. destruct out as [|previous out]; cbn [rev] in *; [apply (prepared_app raw [base m] [] [base m']); [done|]; by apply prepared_one|].
      destruct (canMergeUserMessage m' && canMergeUserMessage previous) eqn:Em.
      * apply andb_true_iff in Em as [E1%canMerge_user E2%canMerge_user]. cbn [rev]. rewrite fmap_app in *. cbn in *.
        apply Forall_cons in Ho as [[Ho1 Ho2] Ho]. rewrite <- (app_nil_r (_ ++ [base (mergeTwoUserMessages previous m')])). apply prepared_app.
        -- eapply (prepared_swap (base previous)); [by apply user_shape| |by cbn in *]. apply merged_sendable; [done| |done]. unfold is_user. by rewrite bool_decide_eq_true.
        -- constructor; [|constructor]. assert (role (base m) = User) as Hu by (destruct Hs as (Hs & _); congruence).
           split; [left|]; unfold is_assistant, is_tool; by rewrite Hu.
      * cbn [rev]. rewrite fmap_app in *. cbn in *. rewrite fmap_app. cbn. apply prepared_app; [done|]. by apply prepared_one.
    + unfold out'. destruct out as [|previous out]; [by constructor|].
      destruct (canMergeUserMessage m' && canMergeUserMessage previous) eqn:Em; [|by constructor].
      apply andb_true_iff in Em as [E1%canMerge_user E2%canMerge_user].
      apply Forall_cons in Ho as [[Ho1 Ho2] Ho]. constructor; [|done]. split; [done|]. apply merged_sendable; [done| |done].
      unfold is_user. by rewrite bool_decide_eq_true.
  - destruct Hr as [Hpart|[Hpart Hd]]; rewrite Hpart in *; cbn [negb] in *; unfold out' in *.
    + by apply (Hnext raw).
    + apply (Hnext (raw ++ [base m])); [by rewrite <- app_assoc| |done].
      rewrite <- (app_nil_r (base <$> rev out)). apply prepared_app; [done|]. constructor; [done|constructor].
Qed.

(** * The repaired list is made of closed exchanges *)

(** [exchange_ok] where results of calls outside [called] may stand between exchanges. *)
Fixpoint exchanges (called open : list jsstr) (ms : list message) : bool :=
  match ms with
  | [] => bool_decide (open = [])
  | m :: ms' =>
      if is_tool m then
        match answers open m with
        | Some id => exchanges called (set_delete id open) ms'
        | None => bool_decide (open = []) && negb (bool_decide (orphan called m = None)) && exchanges called [] ms'
        end
      else bool_decide (open = []) && exchanges called (if is_assistant m then set_of (call_ids m) else []) ms'
  end.

Definition result_ids (ms : list message) : list jsstr := omap (fun m => if is_tool m then toolCallId m else None) ms.

Lemma role_tool_assistant m : is_tool m = true -> is_assistant m = false.
Proof. unfold is_tool, is_assistant. rewrite bool_decide_eq_true, bool_decide_eq_false. congruence. Qed.

Lemma orphan_Some called m : orphan called m <> None <-> is_tool m = true /\ exists id, toolCallId m = Some id /\ id ∉ called.
Proof.
  unfold orphan. destruct (is_tool m), (toolCallId m) as [id|]; try naive_solver.
  case_bool_decide; naive_solver.
Qed.

Lemma answers_nil m : answers [] m = None.
Proof. unfold answers. destruct (is_tool m), (toolCallId m); done. Qed.

(** What [pull] leaves behind answers none of the pending calls, when no two results
    answer the same call. *)
Lemma pull_rest ms : forall pending out rest p, NoDup (result_ids ms) -> pull pending ms = (out, rest, p) ->
  NoDup (result_ids rest) /\ (forall id, id ∈ result_ids rest -> id ∈ result_ids ms /\ id ∉ pending).
Proof.
  induction ms as [|m ms IH]; intros pending out rest p Hn; cbn [pull].
  { intros [= <- <- <-]. split; [constructor|]. intros id H. by apply not_elem_of_nil in H. }
  case_bool_decide as Hp.
  { intros [= <- <- <-]. subst. split; [done|]. intros id Hid. split; [done|apply not_elem_of_nil]. }
  destruct (answers pending m) as [id|] eqn:Ea.
  - apply answers_Some in Ea as (Ht & Hi & Hin). unfold result_ids in Hn. cbn [omap list_omap] in Hn. rewrite Ht, Hi in Hn.
    apply NoDup_cons in Hn as [Hni Hn]. destruct (pull _ ms) as [[o r] q] eqn:E. intros [= <- <- <-].
    apply IH in E as [H1 H2]; [|done]. split; [done|]. intros id' Hid'. apply H2 in Hid' as [H3 H4].
    unfold result_ids at 1. cbn [omap list_omap]. rewrite Ht, Hi. split; [by right|]. intros Hp'. apply H4, elem_of_set_delete. split; [done|]. by intros ->.
  - destruct (pull _ ms) as [[o r] q] eqn:E. intros [= <- <- <-].
    unfold result_ids in *. cbn [omap list_omap] in *.
    destruct (is_tool m) eqn:Ht; cycle 1.
    { by apply IH in E. }
    destruct (toolCallId m) as [id|] eqn:Hi; [|by apply IH in E].
    apply NoDup_cons in Hn as [Hni Hn]. apply IH in E as [H1 H2]; [|done]. split.
    { constructor; [|done]. intros Hin. by apply H2 in Hin as [? _]. }
    intros id' [->|Hid']%elem_of_cons; [|apply H2 in Hid' as [? ?]; split; [by right|done]].
    split; [by left|]. intros Hin. enough (answers pending m = Some id) by congruence. by apply answers_Some.
Qed.

Lemma results_follow_ext C C' : forall ms s s', (forall id, id ∈ C <-> id ∈ C') -> (forall id, id ∈ s -> id ∈ s') ->
  results_follow C s ms = true -> results_follow C' s' ms = true.
Proof.
  intros ms s s' HC. revert s s'. induction ms as [|m ms IH]; intros s s' Hs; cbn; [done|].
  rewrite !andb_true_iff. intros [H1 H2]. split.
  - destruct (is_tool m); [|done]. destruct (toolCallId m) as [id|]; [|done].
    rewrite orb_true_iff, negb_true_iff, bool_decide_eq_true, bool_decide_eq_false in *. rewrite <- HC. naive_solver.
  - eapply IH; [|done]. intros id. destruct (is_assistant m); [|apply Hs]. rewrite !elem_of_app. naive_solver.
Qed.

Lemma pull_follow C ms : forall pending out rest p s s', pull pending ms = (out, rest, p) ->
  (forall id, id ∈ result_ids rest -> id ∈ s -> id ∈ s') ->
  results_follow C s ms = true -> results_follow C s' rest = true.
Proof.
  assert (Hgen : forall l s s', (forall id, id ∈ result_ids l -> id ∈ s -> id ∈ s') -> results_follow C s l = true -> results_follow C s' l = true).
  { intros l. induction l as [|m l IH]; intros s s' Hs; cbn; [done|]. rewrite !andb_true_iff. intros [H1 H2].
    unfold result_ids in Hs. cbn [omap list_omap] in Hs. split.
    - destruct (is_tool m); [|done]. destruct (toolCallId m) as [id|]; [|done].
      rewrite orb_true_iff, bool_decide_eq_true in *. destruct H1 as [H1|H1]; [left|by right]. apply Hs; [by left|done].
    - eapply IH; [|done]. intros id Hid. fold (result_ids l) in Hs. destruct (is_tool m) eqn:Ht.
      + rewrite (role_tool_assistant _ Ht). destruct (toolCallId m); apply Hs; [by right|done].
      + destruct (is_assistant m); [rewrite !elem_of_app|]; naive_solver. }
  induction ms as [|m ms IH]; intros pending out rest p s s'; cbn [pull].
  { by intros [= <- <- <-]. }
  case_bool_decide; [intros [= <- <- <-]; apply Hgen|].
  destruct (answers pending m) as [id|] eqn:Ea; destruct (pull _ ms) as [[o r] q] eqn:E; intros [= <- <- <-] Hs; cbn; rewrite ?andb_true_iff.
  - apply answers_Some in Ea as (Ht & Hi & _). rewrite (role_tool_assistant _ Ht). intros [_ H2]. by eapply IH.
  - intros [H1 H2]. unfold result_ids in Hs. cbn [omap list_omap] in Hs. fold (result_ids r) in Hs. split.
    + destruct (is_tool m); [|done]. destruct (toolCallId m) as [id|]; [|done].
      rewrite orb_true_iff, bool_decide_eq_true in *. destruct H1 as [H1|H1]; [left|by right]. apply Hs; [by left|done].
    + eapply IH; [done| |done]. intros id Hid. destruct (is_tool m) eqn:Ht.
      * rewrite (role_tool_assistant _ Ht). destruct (toolCallId m); apply Hs; [by right|done].
      * destruct (is_assistant m); [rewrite !elem_of_app|]; naive_solver.
Qed.

(** The results pulled up, the synthetic ones, and the rest. *)
Lemma exchanges_pulled C ms : forall pending out rest p l, NoDup pending -> pull pending ms = (out, rest, p) ->
  exchanges C [] l = true -> exchanges C pending (out ++ (makeSyntheticToolResult <$> p) ++ l) = true.
Proof.
  assert (Hsyn : forall p l, NoDup p -> exchanges C [] l = true -> exchanges C p ((makeSyntheticToolResult <$> p) ++ l) = true).
  { intros p l. induction p as [|id p IH]; intros Hn Hl; [done|]. apply NoDup_cons in Hn as [Hi Hn]. cbn [fmap list_fmap app exchanges].
    change (is_tool (makeSyntheticToolResult id)) with true. cbv iota.
    assert (answers (id :: p) (makeSyntheticToolResult id) = Some id) as -> by (apply answers_Some; split_and!; [done|done|by left]).
    replace (set_delete id (id :: p)) with p; [by apply IH|]. unfold set_delete. cbn [List.filter].
    rewrite bool_decide_eq_true_2 by done. cbn [negb]. symmetry. apply List.forallb_filter_id, forallb_forall.
    intros y Hy%list_elem_of_In. apply negb_true_iff, bool_decide_eq_false. by intros ->. }
  induction ms as [|m ms IH]; intros pending out rest p l Hn; cbn [pull].
  { intros [= <- <- <-] Hl. by apply Hsyn. }
  case_bool_decide as Hp; [by intros [= <- <- <-] Hl; subst|].
  destruct (answers pending m) as [id|] eqn:Ea; destruct (pull _ ms) as [[o r] q] eqn:E; intros [= <- <- <-] Hl.
  - cbn [app exchanges]. rewrite Ea. apply answers_Some in Ea as (-> & _). eapply IH; [by apply NoDup_set_delete|done|done].
  - by eapply IH.
Qed.

Lemma all_call_ids_app l1 l2 : all_call_ids (l1 ++ l2) = all_call_ids l1 ++ all_call_ids l2.
Proof. unfold all_call_ids. by rewrite fmap_app, concat_app. Qed.

Lemma all_call_ids_cons m l : all_call_ids (m :: l) = (if is_assistant m then call_ids m else []) ++ all_call_ids l.
Proof. done. Qed.

Lemma all_call_ids_tools l : Forall (fun m => is_tool m = true) l -> all_call_ids l = [].
Proof. induction 1 as [|m l Hm Hl IH]; [done|]. by rewrite all_call_ids_cons, IH, (role_tool_assistant _ Hm). Qed.

Lemma pull_call_ids ms : forall pending out rest p, pull pending ms = (out, rest, p) -> all_call_ids rest = all_call_ids ms.
Proof.
  induction ms as [|m ms IH]; intros pending out rest p; cbn [pull]; [by intros [= <- <- <-]|].
  case_bool_decide; [by intros [= <- <- <-]|].
  destruct (answers pending m) as [id|] eqn:Ea; destruct (pull _ ms) as [[o r] q] eqn:E; intros [= <- <- <-]; rewrite !all_call_ids_cons.
  - apply answers_Some in Ea as (Ht & _). rewrite (role_tool_assistant _ Ht). by eapply IH.
  - f_equal. by eapply IH.
Qed.

(** An assistant message that makes calls opens an exchange; the others do not. *)
Lemma opens_nothing m : negb (is_assistant m) || bool_decide (toolCalls m = []) = true ->
  (if is_assistant m then call_ids m else []) = [].
Proof. destruct (is_assistant m); cbn; [|done]. intros H%bool_decide_eq_true. unfold call_ids. by rewrite H. Qed.

Lemma assistant_not_tool m : is_assistant m = true -> is_tool m = false.
Proof. unfold is_tool, is_assistant. rewrite bool_decide_eq_true, bool_decide_eq_false. congruence. Qed.

Lemma repair_list_exchanges C fuel : forall ms, (length ms <= fuel)%nat ->
  NoDup (result_ids ms) -> (forall id, id ∈ all_call_ids ms -> id ∈ C) -> results_follow C [] ms = true ->
  exchanges C [] (repair_list fuel true ms) = true.
Proof.
  induction fuel as [|fuel IH]; intros [|m ms] Hf Hn HC Hr; cbn [length] in Hf; try (done || lia). cbn [repair_list].
  rewrite all_call_ids_cons in HC.
  assert (HC' : forall id, id ∈ all_call_ids ms -> id ∈ C) by (intros id Hid; apply HC, elem_of_app; by right).
  cbn [results_follow] in Hr. apply andb_true_iff in Hr as [Hm Hr].
  destruct (negb (is_assistant m) || bool_decide (toolCalls m = [])) eqn:Em.
  - cbn [exchanges]. pose proof (opens_nothing _ Em) as Ho. destruct (is_tool m) eqn:Et.
    + rewrite answers_nil, !bool_decide_eq_true_2 by done. rewrite (role_tool_assistant _ Et) in Hr.
      unfold result_ids in Hn. cbn [omap list_omap] in Hn. rewrite Et in Hn.
      destruct (toolCallId m) as [id|] eqn:Ei; [|done]. apply NoDup_cons in Hn as [_ Hn].
      apply orb_true_iff in Hm as [Hm|Hm]; [by apply bool_decide_eq_true, not_elem_of_nil in Hm|].
      apply negb_true_iff, bool_decide_eq_false in Hm.
      assert (orphan C m <> None) as Hor by (apply orphan_Some; eauto). rewrite (bool_decide_eq_false_2 _ Hor). cbn.
      apply IH; [lia|done|done|done].
    + replace (if is_assistant m then set_of (call_ids m) else []) with (@nil jsstr) by (destruct (is_assistant m); [by rewrite Ho|done]).
      rewrite bool_decide_eq_true_2 by done. apply IH; [lia| |done|].
      * unfold result_ids in *. cbn [omap list_omap] in Hn. by rewrite Et in Hn.
      * eapply results_follow_ext; [done| |exact Hr]. intros id. destruct (is_assistant m); [by rewrite Ho|done].
  - apply orb_false_iff in Em as [Ea _]. apply negb_false_iff in Ea. rewrite Ea in *.
    destruct (pull (set_of (call_ids m)) ms) as [[results rest] pending] eqn:Ep. cbn [orb exchanges].
    rewrite (assistant_not_tool _ Ea), Ea, bool_decide_eq_true_2 by done. cbn [andb].
    unfold result_ids in Hn. cbn [omap list_omap] in Hn. rewrite (assistant_not_tool _ Ea) in Hn. fold (result_ids ms) in Hn.
    pose proof (pull_facts _ _ _ _ _ Ep) as (Hlen & _ & _). pose proof (pull_rest _ _ _ _ _ Hn Ep) as [Hn' Hrest].
    eapply exchanges_pulled; [apply NoDup_set_of|done|]. apply IH; [lia|done| |].
    + intros id. rewrite (pull_call_ids _ _ _ _ _ Ep). apply HC'.
    + eapply pull_follow; [done| |exact Hr]. intros id Hid. rewrite app_nil_r. intros Hc. exfalso.
      apply Hrest in Hid as [_ Hid]. by apply Hid, elem_of_set_of.
Qed.

Lemma repair_list_call_ids syn fuel : forall ms, (length ms <= fuel)%nat -> all_call_ids (repair_list fuel syn ms) = all_call_ids ms.
Proof.
  induction fuel as [|fuel IH]; intros [|m ms] Hf; cbn [length] in Hf; try (done || lia). cbn [repair_list].
  destruct (negb (is_assistant m) || bool_decide (toolCalls m = [])) eqn:Em.
  - rewrite !all_call_ids_cons. f_equal. apply IH. lia.
  - destruct (pull (set_of (call_ids m)) ms) as [[results rest] pending] eqn:Ep.
    pose proof (pull_facts _ _ _ _ _ Ep) as (Hlen & _ & Ht). rewrite !all_call_ids_cons, !all_call_ids_app.
    rewrite (all_call_ids_tools results Ht), IH by lia. rewrite (pull_call_ids _ _ _ _ _ Ep). f_equal.
    rewrite all_call_ids_tools; [done|]. apply Forall_fmap, Forall_forall. by intros x _.
Qed.

(** * Merging, dropping, trimming the head *)

Lemma exchanges_congr C x y : (forall o, exchanges C o x = true -> exchanges C o y = true) ->
  forall l o, exchanges C o (l ++ x) = true -> exchanges C o (l ++ y) = true.
Proof.
  intros H l. induction l as [|m l IH]; intros o; cbn [app exchanges]; [apply H|].
  destruct (is_tool m); [destruct (answers o m); [apply IH|]|]; rewrite ?andb_true_iff; naive_solver.
Qed.

Definition merged_assistants (a b : message) : message :=
  Message (role a) (name a) (content a ++ content b) (toolCalls a ++ toolCalls b) (toolCallId a) (partial a) (tools a).

Lemma exchanges_merge C a b l o : is_assistant a = true -> is_assistant b = true ->
  exchanges C o (a :: b :: l) = true -> exchanges C o (merged_assistants a b :: l) = true.
Proof.
  intros Ha Hb. cbn [exchanges]. change (is_tool (merged_assistants a b)) with (is_tool a).
  change (is_assistant (merged_assistants a b)) with (is_assistant a).
  rewrite (assistant_not_tool _ Ha), (assistant_not_tool _ Hb), Ha, Hb, !andb_true_iff. intros (Ho & Hs & Hl). split; [done|].
  apply bool_decide_eq_true, set_of_nil, fmap_nil_inv in Hs. unfold call_ids, merged_assistants in *. cbn. by rewrite Hs.
Qed.

Fixpoint never_adjacent (ms : list message) : Prop :=
  match ms with
  | m :: (m' :: _) as ms' => (is_assistant m = true -> is_assistant m' = true -> False) /\ never_adjacent ms'
  | _ => True
  end.

Lemma no_adjacent_spec ms : no_adjacent_assistants ms = true <-> never_adjacent ms.
Proof.
  induction ms as [|m [|m' ms] IH]; [done|done|]. cbn [no_adjacent_assistants never_adjacent] in *.
  rewrite andb_true_iff, negb_true_iff, IH, andb_false_iff. destruct (is_assistant m), (is_assistant m'); naive_solver.
Qed.

Lemma no_adjacent_snoc l a : no_adjacent_assistants l = true ->
  match last l with Some b => is_assistant b && is_assistant a = false | None => True end -> no_adjacent_assistants (l ++ [a]) = true.
Proof.
  rewrite !no_adjacent_spec. induction l as [|x [|y l] IH]; cbn; [done| |].
  - intros _ H. split; [|done]. intros H1 H2. by rewrite H1, H2 in H.
  - intros [H1 H2] H. split; [done|]. by apply IH.
Qed.

Lemma sendable_merge a b : sendable a = true -> sendable (merged_assistants a b) = true.
Proof.
  unfold sendable, has_tools. cbn. rewrite !orb_true_iff, !negb_true_iff, !bool_decide_eq_false. intros [[H|H]|H]; [by left; left| |].
  - left. right. intros Hn. by apply app_nil in Hn as [? _].
  - right. by rewrite forallb_app, H.
Qed.

Lemma merge_assistants_spec C ms : forall out,
  let r := (merge_assistants_loop ms out).1 in
  (exchanges C [] (rev out ++ ms) = true -> exchanges C [] r = true) /\
  all_call_ids r = all_call_ids (rev out ++ ms) /\
  (no_adjacent_assistants (rev out) = true -> no_adjacent_assistants r = true) /\
  (Forall (fun m => sendable m = true) (rev out ++ ms) -> Forall (fun m => sendable m = true) r) /\
  result_ids r = result_ids (rev out ++ ms).
Proof.
  induction ms as [|m ms IH]; intros out; cbn [merge_assistants_loop]; [rewrite app_nil_r; done|].
  destruct out as [|previous out].
  - exact (IH [m]).
  - destruct (is_assistant previous && is_assistant m) eqn:Ea.
    + apply andb_true_iff in Ea as [Hp Hm]. fold (merged_assistants previous m).
      specialize (IH (merged_assistants previous m :: out)). destruct (merge_assistants_loop ms _) as [res an]. cbn [fst] in *.
      destruct IH as (I1 & I2 & I3 & I4 & I5). cbn [rev] in *. rewrite <- !app_assoc in *. cbn [app] in *. split_and!.
      * intros H. apply I1. revert H. apply exchanges_congr. intros o. by apply exchanges_merge.
      * rewrite I2, !all_call_ids_app, !all_call_ids_cons. change (is_assistant (merged_assistants previous m)) with (is_assistant previous).
        rewrite Hp, Hm. unfold call_ids, merged_assistants. cbn. by rewrite fmap_app, <- app_assoc.
      * intros H. apply I3. revert H. rewrite !no_adjacent_spec. clear. revert m. induction (rev out) as [|x [|y l] IHl]; [done|done|]; cbn; naive_solver.
      * rewrite !Forall_app, !Forall_cons in *. intros (H1 & H2 & H3 & H4). apply I4. split_and!; [done|by apply sendable_merge|done].
      * rewrite I5. unfold result_ids. rewrite !omap_app. cbn [omap list_omap].
        change (is_tool (merged_assistants previous m)) with (is_tool previous). by rewrite (assistant_not_tool _ Hp), (assistant_not_tool _ Hm).
    + specialize (IH (m :: previous :: out)). cbn zeta in IH. destruct (merge_assistants_loop ms _) as [res an]. cbn [fst] in *.
      destruct IH as (I1 & I2 & I3 & I4 & I5). cbn [rev] in *. rewrite <- !app_assoc in *. cbn [app] in *. split_and!; try done.
      intros H. apply I3. change [previous; m] with ([previous] ++ [m]). rewrite app_assoc. apply no_adjacent_snoc; [done|]. by rewrite last_snoc.
Qed.

Lemma exchanges_drop_orphans C mo ms : forall open,
  (forall id, id ∈ all_call_ids ms -> id ∈ C) -> (forall id, id ∈ open -> id ∈ C) ->
  exchanges C open ms = true -> exchange_ok mo open (List.filter (fun m => bool_decide (orphan C m = None)) ms) = true.
Proof.
  induction ms as [|m ms IH]; intros open HC Ho; cbn [exchanges List.filter].
  { intros H. cbn. by rewrite H, orb_true_r. }
  rewrite all_call_ids_cons in HC.
  assert (HC' : forall id, id ∈ all_call_ids ms -> id ∈ C) by (intros id Hid; apply HC, elem_of_app; by right).
  destruct (is_tool m) eqn:Et.
  - destruct (answers open m) as [id|] eqn:Ea.
    + intros H. rewrite bool_decide_eq_true_2.
      * cbn. rewrite Et, Ea. apply IH; [done| |done]. intros id' [H' _]%elem_of_set_delete. by apply Ho.
      * apply answers_Some in Ea as (_ & Hi & Hin). unfold orphan. rewrite Et, Hi, bool_decide_eq_true_2; [done|by apply Ho].
    + rewrite !andb_true_iff, negb_true_iff. intros [[->%bool_decide_eq_true ->] H]. apply IH; [done|done|done].
  - assert (orphan C m = None) as -> by (unfold orphan; by rewrite Et). rewrite (bool_decide_eq_true_2 (None = None)) by done. cbn. rewrite Et.
    rewrite !andb_true_iff. intros [H1 H2]. split; [done|]. apply IH; [done| |done].
    intros id. destruct (is_assistant m); [rewrite elem_of_set_of|intros H; by apply not_elem_of_nil in H].
    intros H. apply HC, elem_of_app. by left.
Qed.

Lemma drop_leading_spec mo ms : forall open, exchange_ok mo open ms = true ->
  let r := (dropLeadingNonUserMessages ms).1 in
  exchange_ok mo [] r = true /\ match r with m :: _ => is_user m = true | [] => True end /\ exists pre, ms = pre ++ r.
Proof.
  induction ms as [|m ms IH]; intros open; cbn [dropLeadingNonUserMessages].
  { intros _. split_and!; [by destruct mo|done|by exists []]. }
  destruct (is_user m) eqn:Eu.
  - cbn [fst exchange_ok]. assert (is_tool m = false) as -> by (unfold is_user, is_tool in *; apply bool_decide_eq_true in Eu; rewrite Eu; done).
    rewrite andb_true_iff. intros [_ H]. split_and!; [done|done|by exists []].
  - cbn [exchange_ok]. intros H. assert (exists o, exchange_ok mo o ms = true) as [o Ho].
    { destruct (is_tool m); [destruct (answers open m); [by eexists|done]|]. apply andb_true_iff in H as [_ H]. by eexists. }
    destruct (IH o Ho) as (H1 & H2 & pre & H3). destruct (dropLeadingNonUserMessages ms) as [out an]. cbn [fst] in *.
    split_and!; [done|done|]. exists (m :: pre). cbn. by f_equal.
Qed.

(** * Removing duplicate calls *)

Lemma keep_new_calls_spec cs : forall seen kept seen' an, keep_new_calls seen cs = (kept, seen', an) ->
  NoDup (call_id <$> kept) /\ (forall id, id ∈ call_id <$> kept -> (id ∉ seen) /\ id ∈ call_id <$> cs) /\
  (forall id, id ∈ seen' <-> id ∈ call_id <$> kept \/ id ∈ seen) /\ (forall id, id ∈ call_id <$> cs -> id ∈ seen') /\
  (length kept <= length cs)%nat /\ (length kept = length cs -> kept = cs).
Proof.
  induction cs as [|c cs IH]; intros seen kept seen' an; cbn [keep_new_calls].
  { intros [= <- <- <-]. cbn. split_and!; [constructor|set_solver|set_solver|set_solver|done|done]. }
  case_bool_decide as Hc.
  - destruct (keep_new_calls seen cs) as [[k s] a] eqn:E. intros [= <- <- <-]. apply IH in E as (I1 & I2 & I3 & I4 & I5 & I6).
    cbn. split_and!; [done| |done| |lia|lia].
    + intros id H. apply I2 in H as [? ?]. split; [done|by right].
    + intros id [->|Hid]%elem_of_cons; [|by apply I4]. apply I3. by right.
  - destruct (keep_new_calls (call_id c :: seen) cs) as [[k s] a] eqn:E. intros [= <- <- <-]. apply IH in E as (I1 & I2 & I3 & I4 & I5 & I6).
    cbn. split_and!; [| | | |lia|intros H; f_equal; apply I6; lia].
    + constructor; [|done]. intros Hin. apply I2 in Hin as [Hin _]. apply Hin. by left.
    + intros id [->|H]%elem_of_cons; [split; [done|by left]|]. apply I2 in H as [H ?]. rewrite elem_of_cons in H. rewrite elem_of_cons. tauto.
    + intros id. rewrite I3, !elem_of_cons. tauto.
    + intros id [->|H]%elem_of_cons; [|by apply I4]. apply I3. right. by left.
Qed.

Lemma result_ids_cons m l : result_ids (m :: l) =
  (if is_tool m then match toolCallId m with Some id => [id] | None => [] end else []) ++ result_ids l.
Proof. unfold result_ids. cbn. by destruct (is_tool m), (toolCallId m). Qed.

(** What the deduplication of [ms] after the calls [sc] and results [sr] gives. *)
Record deduped (sc sr : list jsstr) (ms out : list message) : Prop := Deduped {
  dd_calls : NoDup (all_call_ids out);
  dd_new_calls : forall id, id ∈ all_call_ids out -> (id ∉ sc) /\ id ∈ all_call_ids ms;
  dd_kept_calls : forall id, id ∈ all_call_ids ms -> id ∈ all_call_ids out \/ id ∈ sc;
  dd_results : NoDup (result_ids out);
  dd_new_results : forall id, id ∈ result_ids out -> (id ∉ sr) /\ id ∈ result_ids ms;
  dd_follow : forall C s s', (forall id, id ∈ s -> id ∈ s') -> (forall id, id ∈ sc -> id ∈ s') ->
    results_follow C s ms = true -> results_follow C s' out = true;
  dd_sendable : Forall (fun m => sendable m = true) ms -> Forall (fun m => sendable m = true) out;
}.

Lemma deduped_keep m sc sc' sr ms out cs :
  is_assistant m = true -> NoDup (call_id <$> cs) ->
  (forall id, id ∈ call_id <$> cs -> (id ∉ sc) /\ id ∈ call_ids m) ->
  (forall id, id ∈ sc' <-> id ∈ call_id <$> cs \/ id ∈ sc) -> (forall id, id ∈ call_ids m -> id ∈ sc') ->
  (sendable m = true -> sendable (with_calls m cs) = true) ->
  deduped sc' sr ms out -> deduped sc sr (m :: ms) (with_calls m cs :: out).
Proof.
  intros Ha Hn Hnew Hsc Hall Hs [D1 D2 D3 D4 D5 D6 D7].
  assert (Ha' : is_assistant (with_calls m cs) = true) by done. pose proof (assistant_not_tool _ Ha) as Ht.
  assert (Ht' : is_tool (with_calls m cs) = false) by done.
  split; rewrite ?all_call_ids_cons, ?result_ids_cons, ?Ha, ?Ha', ?Ht, ?Ht'; cbn [app]; change (call_ids (with_calls m cs)) with (call_id <$> cs).
  - apply NoDup_app. split_and!; [done| |done]. intros id H1 H2. apply D2 in H2 as [H2 _]. apply H2, Hsc. by left.
  - intros id [H|H]%elem_of_app; [apply Hnew in H as [? ?]|apply D2 in H as [H ?]; split; [|apply elem_of_app; tauto]; intros ?; apply H, Hsc; by right].
    split; [done|apply elem_of_app; tauto].
  - intros id. rewrite !elem_of_app. intros [H|H]; [apply Hall in H|apply D3 in H as [H|H]; [tauto|]]; apply Hsc in H; tauto.
  - done.
  - done.
  - intros C s s' H1 H2. cbn [results_follow]. rewrite Ha, Ha', Ht, Ht'. cbn [andb]. apply D6.
    + intros id [H|H]%elem_of_app; [apply Hall, Hsc in H as [H|H]|]; apply elem_of_app; [by left|right; by apply H2|right; by apply H1].
    + intros id [H|H]%Hsc; apply elem_of_app; [by left|right; by apply H2].
  - intros [H1 H2]%Forall_cons. constructor; [by apply Hs|by apply D7].
Qed.

Lemma deduped_drop m sc sr ms out : is_tool m = false -> (forall id, id ∈ all_call_ids [m] -> id ∈ sc) ->
  deduped sc sr ms out -> deduped sc sr (m :: ms) out.
Proof.
  intros Ht Hall [D1 D2 D3 D4 D5 D6 D7]. rewrite all_call_ids_cons, app_nil_r in Hall.
  split; rewrite ?all_call_ids_cons, ?result_ids_cons, ?Ht; cbn [app]; [done| | |done|done| |].
  - intros id H. apply D2 in H as [? ?]. split; [done|set_solver].
  - intros id [H|H]%elem_of_app; [right; by apply Hall|by apply D3].
  - intros C s s' H1 H2. cbn [results_follow]. rewrite Ht. cbn [andb]. apply D6; [|done].
    intros id. destruct (is_assistant m); [|apply H1]. intros [H|H]%elem_of_app; [by apply H2, Hall|by apply H1].
  - intros [_ H2]%Forall_cons. by apply D7.
Qed.

Lemma deduped_other m sc sr sr' ms out : is_assistant m = false \/ toolCalls m = [] ->
  (forall id, id ∈ sr' <-> (is_tool m = true /\ toolCallId m = Some id) \/ id ∈ sr) ->
  (forall id, is_tool m = true -> toolCallId m = Some id -> id ∉ sr) ->
  deduped sc sr' ms out -> deduped sc sr (m :: ms) (m :: out).
Proof.
  intros Hm Hsr Hnew [D1 D2 D3 D4 D5 D6 D7].
  assert (Hc : (if is_assistant m then call_ids m else []) = []).
  { destruct Hm as [->| Hm]; [done|]. unfold call_ids. rewrite Hm. by destruct (is_assistant m). }
  split; rewrite ?all_call_ids_cons, ?result_ids_cons, ?Hc; cbn [app]; [done|done|done| | | |].
  - destruct (is_tool m) eqn:Ht; [|done]. destruct (toolCallId m) as [id|] eqn:Hi; [|done]. constructor; [|done].
    intros H. apply D5 in H as [H _]. apply H, Hsr. by left.
  - intros id [H|H]%elem_of_app.
    + destruct (is_tool m) eqn:Ht; [|by apply not_elem_of_nil in H]. destruct (toolCallId m) as [id'|] eqn:Hi; [|by apply not_elem_of_nil in H].
      apply list_elem_of_singleton in H as ->. split; [by apply Hnew|set_solver].
    + apply D5 in H as [H ?]. split; [intros ?; apply H, Hsr; by right|set_solver].
  - intros C s s' H1 H2. cbn [results_follow]. rewrite !andb_true_iff. intros [H3 H4]. split.
    + destruct (is_tool m); [|done]. destruct (toolCallId m); [|done]. rewrite orb_true_iff, bool_decide_eq_true in *. naive_solver.
    + eapply D6; [| |exact H4]; intros id; destruct (is_assistant m); rewrite ?Hc; naive_solver.
  - intros [H3 H4]%Forall_cons. constructor; [done|by apply D7].
Qed.

Lemma with_calls_same m : with_calls m (toolCalls m) = m.
Proof. by destruct m. Qed.

Lemma deduped_nil sc sr : deduped sc sr [] [].
Proof.
  split; [constructor| | |constructor| |done|done]; intros id H; by apply not_elem_of_nil in H.
Qed.

Lemma dedupe_loop_spec ms : forall sc sr, deduped sc sr ms (dedupe_loop sc sr ms).1.
Proof.
  induction ms as [|m ms IH]; intros sc sr; cbn [dedupe_loop]; [apply deduped_nil|].
  destruct (is_assistant m && negb (bool_decide (toolCalls m = []))) eqn:Em.
  - apply andb_true_iff in Em as [Ha Hc]. apply negb_true_iff, bool_decide_eq_false in Hc.
    destruct (keep_new_calls sc (toolCalls m)) as [[kept sc'] an] eqn:Ek. apply keep_new_calls_spec in Ek as (K1 & K2 & K3 & K4 & K5 & K6).
    specialize (IH sc' sr). destruct (dedupe_loop sc' sr ms) as [out an']. cbn [fst] in IH.
    pose proof (deduped_keep m sc sc' sr ms out kept Ha K1 K2 K3 K4) as Hkeep.
    case_bool_decide as Hl.
    { cbn. rewrite K6, with_calls_same in Hkeep by done. by apply Hkeep. }
    destruct (negb (bool_decide (kept = [])) || negb (forallb isVacuousContentPart (content m))) eqn:Ev.
    { apply Hkeep; [|done]. intros _. unfold sendable. change (toolCalls (with_calls m kept)) with kept.
      change (content (with_calls m kept)) with (content m). rewrite <- orb_assoc, Ev. by rewrite orb_true_r. }
    apply orb_false_iff in Ev as [Ev _]. apply negb_false_iff, bool_decide_eq_true in Ev as ->.
    assert (Hd : deduped sc sr (m :: ms) out).
    { apply deduped_drop; [by apply assistant_not_tool| |].
      - intros id. rewrite all_call_ids_cons, Ha, app_nil_r. intros H. apply K4, K3 in H as [H|H]; [by apply not_elem_of_nil in H|done].
      - destruct IH as [D1 D2 D3 D4 D5 D6 D7].
        assert (Hsc : forall id, id ∈ sc' <-> id ∈ sc) by (intros id; rewrite K3; cbn; rewrite elem_of_nil; tauto).
        split; [done| | |done|done| |done].
        + intros id H. rewrite <- Hsc. by apply D2.
        + intros id H. rewrite <- Hsc. by apply D3.
        + intros C s s' H1 H2. apply D6; [done|]. intros id H. by apply H2, Hsc. }
    by case_bool_decide.
  - assert (Hm : is_assistant m = false \/ toolCalls m = []).
    { destruct (is_assistant m); [right|by left]. cbn in Em. by apply negb_false_iff, bool_decide_eq_true in Em. }
    destruct (is_tool m) eqn:Ht.
    + destruct (toolCallId m) as [id|] eqn:Hi.
      * clear Em. case_bool_decide as Hid.
        -- specialize (IH sc sr). destruct (dedupe_loop sc sr ms) as [out an]. cbn in *. destruct IH as [D1 D2 D3 D4 D5 D6 D7].
           split; rewrite ?all_call_ids_cons, ?result_ids_cons, ?Ht, ?Hi, ?(role_tool_assistant _ Ht); cbn [app]; try done.
           ++ intros id' H. apply D5 in H as [? ?]. split; [done|by right].
           ++ intros C s s' H1 H2. cbn [results_follow]. rewrite (role_tool_assistant _ Ht), andb_true_iff. intros [_ H]. exact (D6 C s s' H1 H2 H).
           ++ intros [_ H]%Forall_cons. by apply D7.
        -- specialize (IH sc (id :: sr)). destruct (dedupe_loop sc (id :: sr) ms) as [out an]. cbn in *.
           apply (deduped_other m sc sr (id :: sr)); [done| | |done]; rewrite ?Ht, ?Hi.
           ++ intros id'. rewrite elem_of_cons. split; [intros [->|?]; [left|right]|intros [[_ [= <-]]|?]; [left|right]]; done.
           ++ by intros id' _ [= <-].
      * specialize (IH sc sr). destruct (dedupe_loop sc sr ms) as [out an]. cbn in *.
        apply (deduped_other m sc sr sr); [done| | |done]; rewrite ?Hi; [|done]. intros id'. split; [by right|]. by intros [[_ ?]|?].
    + specialize (IH sc sr). destruct (dedupe_loop sc sr ms) as [out an]. cbn in *.
      apply (deduped_other m sc sr sr); [done| | |done]; rewrite ?Ht; [|done]. intros id'. split; [by right|]. by intros [[? _]|?].
Qed.

(** * What preparation keeps of the calls and results *)

Lemma prepared_follow C raw out : prepared raw out -> forall s, results_follow C s raw = true -> results_follow C s out = true.
Proof.
  induction 1 as [|m ms ms' [Hd _] H IH|m m' ms ms' (S1 & S2 & S3) Hs H IH]; intros s; [done| |]; cbn [results_follow]; rewrite !andb_true_iff.
  - intros [_ Hr]. apply IH. destruct Hd as [Hd|Hd]; [by rewrite Hd in Hr|]. unfold call_ids in Hr. rewrite Hd in Hr. cbn in Hr. by destruct (is_assistant m).
  - assert (is_tool m' = is_tool m) as -> by (unfold is_tool; by rewrite S1).
    assert (Ea : is_assistant m' = is_assistant m) by (unfold is_assistant; by rewrite S1). rewrite Ea.
    intros [Hm Hr]. split.
    + destruct (is_tool m); [|done]. by rewrite S2.
    + apply IH. destruct (is_assistant m); [|done]. unfold call_ids in *. by rewrite S3.
Qed.

Lemma prepared_call_ids raw out : prepared raw out -> all_call_ids out = all_call_ids raw.
Proof.
  induction 1 as [|m ms ms' [Hd _] H IH|m m' ms ms' (S1 & S2 & S3) Hs H IH]; [done| |]; rewrite ?all_call_ids_cons, IH.
  - destruct Hd as [->| Hd]; [done|]. unfold call_ids. rewrite Hd. by destruct (is_assistant m).
  - assert (Ea : is_assistant m' = is_assistant m) by (unfold is_assistant; by rewrite S1). rewrite Ea.
    destruct (is_assistant m); [|done]. unfold call_ids. by rewrite S3.
Qed.

Lemma prepared_sendable raw out : prepared raw out -> Forall (fun m => sendable m = true) out.
Proof. induction 1; [constructor|done|by constructor]. Qed.

Lemma merge_users_spec history : Forall (fun m => plain_user (base m) = true) history ->
  exists ms an, mergeAdjacentUserMessages history = Ok (ms, an) /\ prepared (complete history) ms.
Proof.
  intros H. unfold mergeAdjacentUserMessages.
  destruct (merge_loop_prepared history [] []) as (res & an & -> & Hp); [constructor|done|constructor|]. by eexists _, _.
Qed.

(** * The repaired list adds nothing but synthetic results *)

Lemma pull_members ms : forall pending out rest p, pull pending ms = (out, rest, p) ->
  (forall m, m ∈ out \/ m ∈ rest -> m ∈ ms) /\ (forall id, id ∈ p -> id ∈ pending).
Proof.
  induction ms as [|m ms IH]; intros pending out rest p; cbn [pull].
  { intros [= <- <- <-]. split; [tauto|done]. }
  case_bool_decide; [intros [= <- <- <-]; subst; split; [intros m' [H|H]; [by apply not_elem_of_nil in H|done]|done]|].
  destruct (answers pending m) as [id|]; destruct (pull _ ms) as [[o r] q] eqn:E; intros [= <- <- <-]; apply IH in E as [I1 I2].
  - split; [intros m'; rewrite !elem_of_cons; naive_solver|]. intros id' Hid. by apply I2, elem_of_set_delete in Hid as [? _].
  - split; [intros m'; rewrite !elem_of_cons; naive_solver|done].
Qed.

Lemma repair_list_members syn fuel : forall ms m, (length ms <= fuel)%nat -> m ∈ repair_list fuel syn ms ->
  m ∈ ms \/ exists id, id ∈ all_call_ids ms /\ m = makeSyntheticToolResult id.
Proof.
  induction fuel as [|fuel IH]; intros [|m ms] x Hf; cbn [length] in Hf; try (cbn; intros H; by apply not_elem_of_nil in H).
  cbn [repair_list]. destruct (negb (is_assistant m) || bool_decide (toolCalls m = [])) eqn:Em.
  - rewrite !elem_of_cons. intros [->|Hx]; [by left; left|]. apply IH in Hx as [Hx|(id & Hid & ->)]; [left; by right| |lia].
    right. exists id. split; [|done]. rewrite all_call_ids_cons. apply elem_of_app. by right.
  - apply orb_false_iff in Em as [Ea _]. apply negb_false_iff in Ea.
    destruct (pull (set_of (call_ids m)) ms) as [[results rest] pending] eqn:Ep.
    pose proof (pull_members _ _ _ _ _ Ep) as [H1 H2]. pose proof (pull_facts _ _ _ _ _ Ep) as (Hlen & _ & _).
    rewrite elem_of_cons, !elem_of_app. intros [->|[Hx|[Hx|Hx]]]; [by left; left|left; right; apply H1; by left| |].
    + apply list_elem_of_fmap in Hx as (id & -> & Hid). right. exists id. split; [|done].
      rewrite all_call_ids_cons, Ea. apply elem_of_app. left. apply elem_of_set_of, H2.
      destruct (syn || existsb nontool ms); [done|by apply not_elem_of_nil in Hid].
    + apply IH in Hx as [Hx|(id & Hid & ->)]; [left; right; apply H1; by right| |lia].
      right. exists id. split; [|done]. rewrite all_call_ids_cons. apply elem_of_app. right. by rewrite <- (pull_call_ids _ _ _ _ _ Ep).
Qed.

Lemma elem_of_result_ids ms id : id ∈ result_ids ms <-> exists m, m ∈ ms /\ is_tool m = true /\ toolCallId m = Some id.
Proof.
  unfold result_ids. rewrite list_elem_of_omap. split; intros (m & Hm & H); exists m; (split; [done|]); destruct (is_tool m); naive_solver.
Qed.

Lemma filter_no_orphans C ms : (forall id, id ∈ result_ids ms -> id ∈ C) ->
  List.filter (fun m => bool_decide (orphan C m = None)) ms = ms.
Proof.
  intros H. apply List.forallb_filter_id, forallb_forall. intros m Hm%list_elem_of_In. apply bool_decide_eq_true.
  destruct (orphan C m) eqn:Eo; [|done]. assert (orphan C m <> None) as (Ht & id & Hi & Hn)%orphan_Some by congruence.
  exfalso. apply Hn, H, elem_of_result_ids. by exists m.
Qed.

Lemma all_call_ids_filter C ms : all_call_ids (List.filter (fun m => bool_decide (orphan C m = None)) ms) = all_call_ids ms.
Proof.
  induction ms as [|m ms IH]; [done|]. cbn [List.filter]. destruct (bool_decide (orphan C m = None)) eqn:Eo; rewrite !all_call_ids_cons, IH; [done|].
  apply bool_decide_eq_false, orphan_Some in Eo as [Ht _]. by rewrite (role_tool_assistant _ Ht).
Qed.

Lemma no_adjacent_suffix pre l : no_adjacent_assistants (pre ++ l) = true -> no_adjacent_assistants l = true.
Proof.
  rewrite !no_adjacent_spec. induction pre as [|x pre IH]; [done|]. cbn [app]. intros H. apply IH.
  destruct (pre ++ l); [done|]. by destruct H.
Qed.

Lemma prepared_result_ids raw out id : prepared raw out -> id ∈ result_ids out -> id ∈ result_ids raw.
Proof.
  induction 1 as [|m ms ms' _ H IH|m m' ms ms' (S1 & S2 & _) _ H IH]; [done| |]; rewrite ?result_ids_cons, ?elem_of_app.
  - intros Hid. right. by apply IH.
  - assert (is_tool m' = is_tool m) as -> by (unfold is_tool; by rewrite S1). intros [Hid|Hid]; [left|right; by apply IH].
    destruct (is_tool m); [|done]. by rewrite <- S2.
Qed.

(** The steps of a strict projection after the user messages are merged. *)
Lemma strict_steps ms0 : let C := all_call_ids ms0 in
  results_follow C [] ms0 = true -> Forall (fun m => sendable m = true) ms0 ->
  let ms1 := (dedupeDuplicateToolCalls ms0).1 in
  let ms3 := (mergeConsecutiveAssistantMessages (repairToolExchangeAdjacency ms1 true).1).1 in
  exchanges (all_call_ids ms3) [] ms3 = true /\ NoDup (all_call_ids ms3) /\ (forall id, id ∈ all_call_ids ms3 <-> id ∈ C) /\
  no_adjacent_assistants ms3 = true /\ Forall (fun m => sendable m = true) ms3 /\
  (forall id, id ∈ result_ids ms3 -> id ∈ result_ids ms0 \/ id ∈ C).
Proof.
  intros C Hf Hs ms1 ms3. destruct (dedupe_loop_spec ms0 [] []) as [D1 D2 D3 D4 D5 D6 D7]. fold ms1 in D1, D2, D3, D4, D5, D6, D7.
  assert (HC1 : forall id, id ∈ all_call_ids ms1 <-> id ∈ C).
  { intros id. split; [intros H; by apply D2|]. intros H. apply D3 in H as [H|H]; [done|by apply not_elem_of_nil in H]. }
  set (ms2 := (repairToolExchangeAdjacency ms1 true).1).
  assert (Hms2 : ms2 = repair_list (length ms1) true ms1) by apply repair_is_list.
  assert (Hc2 : all_call_ids ms2 = all_call_ids ms1) by (rewrite Hms2; by apply repair_list_call_ids).
  assert (He2 : exchanges (all_call_ids ms1) [] ms2 = true).
  { rewrite Hms2. apply repair_list_exchanges; [done|done|done|]. eapply results_follow_ext; [| |exact (D6 C [] [] (fun _ H => H) (fun _ H => H) Hf)]; [|done].
    intros id. by rewrite HC1. }
  destruct (merge_assistants_spec (all_call_ids ms1) ms2 []) as (M1 & M2 & M3 & M4 & M5). cbn [rev app] in *.
  change (merge_assistants_loop ms2 []).1 with ms3 in M1, M2, M3, M4, M5.
  rewrite M2, Hc2. split_and!; [by apply M1|done|done|by apply M3| |].
  - apply M4, Forall_forall. intros m Hm. rewrite Hms2 in Hm. apply repair_list_members in Hm as [Hm|(id & _ & ->)]; [|done|done].
    specialize (D7 Hs). rewrite Forall_forall in D7. by apply D7.
  - intros id. rewrite M5, elem_of_result_ids. intros (m & Hm & Ht & Hi). rewrite Hms2 in Hm.
    apply repair_list_members in Hm as [Hm|(id' & Hid' & ->)]; [| |done].
    + left. assert (id ∈ result_ids ms1) as Hr by (apply elem_of_result_ids; by exists m). by apply D5 in Hr as [_ ?].
    + right. cbn in Hi. injection Hi as <-. by apply HC1.
Qed.

Lemma strict_compliant history :
  results_follow_calls history = true -> Forall (fun m => plain_user (base m) = true) history ->
  exists out an, project history strict_options = Ok (out, an) /\
    exchange_ok false [] out = true /\ NoDup (all_call_ids out) /\
    match out with m :: _ => is_user m = true | [] => True end /\
    Forall (fun m => sendable m = true) out /\
    (no_orphans history = true -> no_adjacent_assistants out = true).
Proof.
  intros Hf Hu. destruct (merge_users_spec history Hu) as (ms0 & an0 & E0 & Hp). unfold project. rewrite E0. cbn [rbind fst snd].
  cbn [also strict_options dedupeDuplicates synthesizeMissing mergeConsecutiveAssistants dropOrphanResults dropLeadingNonUser fst snd].
  unfold results_follow_calls in Hf. fold (complete history) in Hf.
  pose proof (prepared_follow _ _ _ Hp _ Hf) as Hf0. rewrite <- (prepared_call_ids _ _ Hp) in Hf0.
  destruct (strict_steps ms0 Hf0 (prepared_sendable _ _ Hp)) as (H1 & H2 & H3 & H4 & H5 & H6).
  set (ms3 := (mergeConsecutiveAssistantMessages _).1) in *.
  pose proof (exchanges_drop_orphans _ false _ _ (fun _ H => H) ltac:(intros id H; by apply not_elem_of_nil in H) H1) as H7.
  change (List.filter _ ms3) with ((dropOrphanToolResults ms3).1) in H7.
  destruct (drop_leading_spec _ _ _ H7) as (H8 & H9 & pre & H10).
  pose proof (all_call_ids_filter (all_call_ids ms3) ms3) as Hids. change (List.filter _ ms3) with ((dropOrphanToolResults ms3).1) in Hids.
  eexists _, _. split; [done|]. split_and!; [done| |done| |].
  - rewrite H10, all_call_ids_app in Hids. rewrite <- Hids in H2. by apply NoDup_app in H2 as (_ & _ & H2).
  - assert (Hs4 : Forall (fun m => sendable m = true) (dropOrphanToolResults ms3).1) by (eapply List.incl_Forall; [apply List.incl_filter|exact H5]).
    rewrite H10 in Hs4. by apply Forall_app in Hs4 as [_ Hs4].
  - intros Hno. apply (no_adjacent_suffix pre). rewrite <- H10. cbn [dropOrphanToolResults fst].
    rewrite filter_no_orphans; [done|]. intros id Hid. apply H3. apply H6 in Hid as [Hid|Hid]; [|done].
    apply (prepared_result_ids _ _ _ Hp), elem_of_result_ids in Hid as (m & Hm & Ht & Hi).
    unfold no_orphans in Hno. rewrite forallb_forall in Hno. apply list_elem_of_In, Hno, bool_decide_eq_true in Hm.
    rewrite (prepared_call_ids _ _ Hp). apply dec_stable. intros Hn. revert Hm. apply orphan_Some. eauto.
Qed.

(** strict resend. For a history in which no result precedes the call it answers,
    the strict projection never fails and is a request strict providers accept: it
    starts with a user message, call ids are unique, each call is answered exactly once
    directly after the message that makes it, no other result appears, and no message
    is empty. Without results of unknown calls, no two assistant messages are adjacent. *)
Theorem strict_projection_compliant history :
  results_follow_calls history = true -> Forall (fun m => plain_user (base m) = true) history ->
  exists out an, project history strict_options = Ok (out, an) /\
    exchange_ok false [] out = true /\ NoDup (all_call_ids out) /\
    match out with m :: _ => is_user m = true | [] => True end /\
    Forall (fun m => sendable m = true) out /\
    (no_orphans history = true -> no_adjacent_assistants out = true).
Proof. apply strict_compliant. Qed.

(** * Well-formed histories are projected as they are *)

Definition tools_without_thinking (ms : list message) : Prop := Forall (fun m => is_tool m = true -> no_think (content m) = true) ms.

Lemma prepared_exchange mo raw out : prepared raw out -> tools_without_thinking raw ->
  forall open, exchange_ok mo open raw = true -> exchange_ok mo open out = true.
Proof.
  induction 1 as [|m ms ms' [Hd Ht] H IH|m m' ms ms' (S1 & S2 & S3) Hs H IH]; intros Hraw open; [done| |];
    apply Forall_cons in Hraw as [Hn Hraw]; cbn [exchange_ok].
  - assert (is_tool m = false) as ->.
    { destruct (is_tool m); [|done]. specialize (Hn eq_refl). by apply Ht in Hn. }
    rewrite andb_true_iff. intros [->%bool_decide_eq_true Hr]. apply IH; [done|].
    destruct Hd as [Hd|Hd]; [by rewrite Hd in Hr|]. unfold call_ids in Hr. rewrite Hd in Hr. by destruct (is_assistant m).
  - assert (Et : is_tool m' = is_tool m) by (unfold is_tool; by rewrite S1).
    assert (Ea : is_assistant m' = is_assistant m) by (unfold is_assistant; by rewrite S1).
    assert (answers open m' = answers open m) as ->.
    { unfold answers. rewrite Et. destruct (is_tool m); [|done]. by rewrite S2. }
    rewrite Et, Ea. destruct (is_tool m); [destruct (answers open m); [by apply IH|done]|].
    rewrite !andb_true_iff. intros [Ho Hr]. split; [done|]. apply IH; [done|].
    destruct (is_assistant m); [|done]. unfold call_ids in *. by rewrite S3.
Qed.

(** In a well-formed list the results found are the ones that follow directly. *)
Lemma take_results_prefix l : forall i pending c, (forall j, j ∈ c -> (j < i)%nat) -> exchange_ok true pending l = true ->
  exists res rest pend c', take_results (indexed i l) pending c false = (res, pend, c', []) /\ l = res ++ rest /\
    (forall j, j ∈ c' <-> j ∈ c \/ (i <= j < i + length res)%nat) /\ Forall (fun m => is_tool m = true) res /\
    exchange_ok true [] rest = true /\ (pend = [] \/ rest = []).
Proof.
  induction l as [|m l IH]; intros i pending c Hc He; cbn [indexed take_results].
  { exists [], [], pending, c. split_and!; [done|done|intros j; cbn; split; [by left|intros [?|?]; [done|lia]]|constructor|done|by right]. }
  case_bool_decide as Hp.
  { subst. exists [], (m :: l), [], c. split_and!; [done|done|intros j; cbn; split; [by left|intros [?|?]; [done|lia]]|constructor|done|by left]. }
  rewrite bool_decide_eq_false_2 by (intros Hi; apply Hc in Hi; lia).
  cbn [exchange_ok] in He. destruct (is_tool m) eqn:Et; [|apply andb_true_iff in He as [He _]; by apply bool_decide_eq_true in He].
  destruct (answers pending m) as [id|] eqn:Ea; [|done].
  destruct (IH (S i) (set_delete id pending) (i :: c)) as (res & rest & pend & c' & -> & -> & H3 & H4 & H5 & H6); [|done|].
  { intros j [->|Hj]%elem_of_cons; [lia|]. apply Hc in Hj. lia. }
  exists (m :: res), rest, pend, c'. split_and!; [done|done| |by constructor|done|done].
  intros j. rewrite H3, elem_of_cons. cbn [length]. split.
  - intros [[->|?]|?]; [right; lia|by left|right; lia].
  - intros [?|?]; [by left; right|]. destruct (decide (j = i)); [by left; left|right; lia].
Qed.

Lemma repair_loop_skip syn L res : forall i rest c, (forall j, (i <= j < i + length res)%nat -> j ∈ c) ->
  repair_loop syn L (indexed i (res ++ rest)) c = repair_loop syn L (indexed (i + length res) rest) c.
Proof.
  induction res as [|m res IH]; intros i rest c Hc; cbn [app indexed repair_loop length]; [by rewrite Nat.add_0_r|].
  rewrite bool_decide_eq_true_2 by (apply Hc; cbn; lia). rewrite IH; [by replace (S i + length res)%nat with (i + S (length res))%nat by lia|].
  intros j Hj. apply Hc. cbn. lia.
Qed.

Lemma nontool_app_tools res rest : Forall (fun m => is_tool m = true) res -> existsb nontool (res ++ rest) = existsb nontool rest.
Proof. induction 1 as [|m res Hm Hr IH]; [done|]. cbn. unfold nontool at 1. by rewrite Hm, IH. Qed.

Lemma repair_loop_same n : forall l pre c, (length l <= n)%nat -> (forall j, j ∈ c -> (j < length pre)%nat) -> exchange_ok true [] l = true ->
  repair_loop false (lastNonToolIndex (pre ++ l)) (indexed (length pre) l) c = (l, []).
Proof.
  induction n as [|n IH]; intros [|m l] pre c Hn Hc He; cbn [length] in Hn; try (done || lia).
  cbn [indexed repair_loop]. rewrite bool_decide_eq_false_2 by (intros Hi; apply Hc in Hi; lia).
  assert (Hnext : forall rest res c', l = res ++ rest -> exchange_ok true [] rest = true -> (forall j, j ∈ c' -> (j < S (length pre) + length res)%nat) ->
            repair_loop false (lastNonToolIndex (pre ++ m :: l)) (indexed (S (length pre) + length res) rest) c' = (rest, [])).
  { intros rest res c' -> Hr Hc'. specialize (IH rest (pre ++ m :: res) c').
    rewrite length_app in IH. cbn [length] in IH. rewrite <- app_assoc in IH. cbn [app] in IH. rewrite length_app in Hn.
    replace (S (length pre) + length res)%nat with (length pre + S (length res))%nat by lia.
    apply IH; [lia| |done]. intros j Hj. apply Hc' in Hj. lia. }
  cbn [exchange_ok] in He. destruct (negb (is_assistant m) || bool_decide (toolCalls m = [])) eqn:Em.
  - pose proof (opens_nothing _ Em) as Ho. specialize (Hnext l [] c eq_refl). cbn [length] in Hnext. rewrite Nat.add_0_r in Hnext.
    rewrite Hnext; [done| |intros j Hj; apply Hc in Hj; lia].
    destruct (is_tool m); [by rewrite answers_nil in He|]. apply andb_true_iff in He as [_ He].
    destruct (is_assistant m); [by rewrite Ho in He|done].
  - apply orb_false_iff in Em as [Ea _]. apply negb_false_iff in Ea. rewrite (assistant_not_tool _ Ea), Ea in He. apply andb_true_iff in He as [_ He].
    destruct (take_results_prefix l (S (length pre)) (set_of (call_ids m)) c) as (res & rest & pend & c' & -> & El & H3 & H4 & H5 & H6); [|done|].
    { intros j Hj. apply Hc in Hj. lia. }
    assert (Hx : existsb nontool l = existsb nontool rest) by (rewrite El; by apply nontool_app_tools).
    assert (Hy : repair_loop false (lastNonToolIndex (pre ++ m :: l)) (indexed (S (length pre)) l) c' = (rest, [])).
    { rewrite El at 2. rewrite repair_loop_skip by (intros j Hj; apply H3; by right).
      apply (Hnext rest res c' El H5). intros j Hj. apply H3 in Hj as [Hj|Hj]; [apply Hc in Hj|]; lia. }
    rewrite mid_history, Hx, Hy. cbn [orb]. rewrite El.
    destruct H6 as [->| ->]; [destruct (existsb nontool rest)|]; cbn; by rewrite ?app_nil_r.
Qed.

Lemma exchange_result_ids mo ms : forall open id, exchange_ok mo open ms = true -> id ∈ result_ids ms -> id ∈ open \/ id ∈ all_call_ids ms.
Proof.
  induction ms as [|m ms IH]; intros open id; cbn [exchange_ok]; [intros _ H; by apply not_elem_of_nil in H|].
  rewrite result_ids_cons, all_call_ids_cons, !elem_of_app. destruct (is_tool m) eqn:Et.
  - rewrite (role_tool_assistant _ Et). destruct (answers open m) as [id'|] eqn:Ea; [|done]. apply answers_Some in Ea as (_ & Hi & Hin).
    rewrite Hi. intros He [->%list_elem_of_singleton|H]; [by left|]. apply (IH _ _ He) in H as [[H _]%elem_of_set_delete|H]; tauto.
  - rewrite andb_true_iff. intros [_ He] [H|H]; [by apply not_elem_of_nil in H|]. apply (IH _ _ He) in H as [H|H]; [|tauto].
    destruct (is_assistant m); [rewrite elem_of_set_of in H; tauto|by apply not_elem_of_nil in H].
Qed.

Definition cosmetic (a : anomaly) : Prop := match a with WhitespaceTextDropped _ | VacuousMessageDropped _ => True | _ => False end.

Lemma prepare_cosmetic m r an : prepareMessageForProjection m = Ok (r, an) -> Forall cosmetic an.
Proof.
  assert (Hw : forall ro ps, Forall cosmetic (whitespace_anomalies ro ps)).
  { intros ro ps. apply Forall_forall. intros a (p & _ & Hp)%list_elem_of_omap. destruct p as [[|c text]|? ?|?|?|?]; try done.
    destruct (blank (c :: text)); by simplify_eq. }
  unfold prepareMessageForProjection. cbv zeta. intros H. repeat case_match; simplify_eq; try apply List.Forall_nil; try apply Hw.
  all: apply Forall_app; split; [apply Hw|by apply Forall_singleton].
Qed.

Lemma merge_loop_cosmetic history : forall out res an, merge_loop history out = Ok (res, an) -> Forall cosmetic an.
Proof.
  induction history as [|m history IH]; intros out res an; cbn [merge_loop]; [by intros [= <- <-]|].
  destruct (prepareMessageForProjection m) as [[r a]|] eqn:Ep; [|done]. cbn [rbind fst snd].
  match goal with |- context [merge_loop history ?o] => destruct (merge_loop history o) as [[r' a']|] eqn:El end; [|done].
  intros [= <- <-]. apply Forall_app. split; [by eapply prepare_cosmetic|by eapply IH].
Qed.

(** well-formed history. When every exchange of a history is complete (the last
    one may be running), its request projection never fails and changes nothing but
    empty parts and messages: all calls and results stay, in exchanges just as
    complete, and no repair is reported. *)
Theorem well_formed_history_projected history :
  exchange_ok true [] (complete history) = true -> tools_without_thinking (complete history) ->
  Forall (fun m => plain_user (base m) = true) history ->
  exists out an, project history normal_options = Ok (out, an) /\ prepared (complete history) out /\
    exchange_ok true [] out = true /\ all_call_ids out = all_call_ids (complete history) /\ Forall cosmetic an.
Proof.
  intros He Ht Hu. destruct (merge_users_spec history Hu) as (ms0 & an0 & E0 & Hp). unfold project. rewrite E0. cbn [rbind fst snd].
  cbn [also normal_options dedupeDuplicates synthesizeMissing mergeConsecutiveAssistants dropOrphanResults dropLeadingNonUser fst snd].
  pose proof (prepared_exchange _ _ _ Hp Ht _ He) as He0.
  assert (Hr : repairToolExchangeAdjacency ms0 false = (ms0, [])).
  { unfold repairToolExchangeAdjacency. apply (repair_loop_same (length ms0) ms0 [] []); [done| |done].
    intros j Hj. by apply not_elem_of_nil in Hj. }
  rewrite Hr. cbn [fst snd]. rewrite !app_nil_r.
  assert (Hids : forall id, id ∈ result_ids ms0 -> id ∈ all_call_ids ms0).
  { intros id Hid. apply (exchange_result_ids _ _ _ _ He0) in Hid as [H|H]; [by apply not_elem_of_nil in H|done]. }
  assert (Hd : dropOrphanToolResults ms0 = (ms0, [])).
  { unfold dropOrphanToolResults. rewrite filter_no_orphans by done. f_equal.
    assert (omap (orphan (all_call_ids ms0)) ms0 = []) as ->; [|done].
    apply elem_of_nil_inv. intros id (m & Hm & Ho)%list_elem_of_omap.
    assert (orphan (all_call_ids ms0) m <> None) as (Hmt & id' & Hi & Hn)%orphan_Some by congruence.
    apply Hn, Hids, elem_of_result_ids. by exists m. }
  rewrite Hd. cbn [fst snd]. rewrite !app_nil_r. eexists _, _. split; [done|]. split_and!; [done|done|by apply prepared_call_ids|].
  unfold mergeAdjacentUserMessages in E0. destruct (merge_loop history []) as [[r a]|] eqn:El; [|done].
  cbn in E0. injection E0 as _ <-. by eapply merge_loop_cosmetic.
Qed.

(** * Trimming and media *)

Lemma exchange_app mo l1 l2 : forall o, (forall o', exchange_ok mo o' l2 = true -> o' = [] ) ->
  exchange_ok mo o (l1 ++ l2) = true -> exchange_ok false o l1 = true.
Proof.
  induction l1 as [|m l1 IH]; intros o H2; cbn [app exchange_ok].
  - intros H. by rewrite (H2 _ H).
  - destruct (is_tool m); [destruct (answers o m); [by apply IH|done]|]. rewrite !andb_true_iff. intros [? H]. split; [done|]. by apply IH.
Qed.

Lemma exchange_app_intro mo l2 : exchange_ok mo [] l2 = true -> forall l1 o, exchange_ok false o l1 = true -> exchange_ok mo o (l1 ++ l2) = true.
Proof.
  intros H2 l1. induction l1 as [|m l1 IH]; intros o; cbn [app exchange_ok]; [by intros ->%bool_decide_eq_true|].
  destruct (is_tool m); [destruct (answers o m); [by apply IH|done]|]. rewrite !andb_true_iff. intros [? ?]. split; [done|by apply IH].
Qed.

Lemma exchange_app_elim mo l2 l1 : forall o, exchange_ok mo o (l1 ++ l2) = true -> exists o', exchange_ok mo o' l2 = true.
Proof.
  induction l1 as [|m l1 IH]; intros o; cbn [app exchange_ok]; [by exists o|].
  destruct (is_tool m); [destruct (answers o m); [by apply IH|done]|]. rewrite !andb_true_iff. intros [_ H]. by eapply IH.
Qed.

Lemma exchange_tools_closed ts : forall open, Forall (fun m => is_tool m = true) ts -> exchange_ok true open ts = true ->
  (forall id, id ∈ open -> id ∈ omap toolCallId ts) -> exchange_ok false open ts = true.
Proof.
  induction ts as [|m ts IH]; intros open Hts He Ho; cbn [exchange_ok] in *.
  - apply bool_decide_eq_true. destruct open as [|id open]; [done|]. exfalso. by eapply not_elem_of_nil, (Ho id); left.
  - apply Forall_cons in Hts as [Ht Hts]. rewrite Ht in *. destruct (answers open m) as [id|] eqn:Ea; [|done].
    apply answers_Some in Ea as (_ & Hi & _). apply IH; [done|done|]. intros id' [Hin Hne]%elem_of_set_delete.
    apply Ho in Hin. cbn in Hin. rewrite Hi in Hin. apply elem_of_cons in Hin as [?|?]; done.
Qed.

Lemma lastNonTool_spec ms : (existsb nontool ms = false /\ lastNonToolIndex ms = -1) \/
  exists pre m ts, ms = pre ++ m :: ts /\ is_tool m = false /\ Forall (fun m => is_tool m = true) ts /\ lastNonToolIndex ms = blen pre.
Proof.
  unfold lastNonToolIndex. enough (H : forall i acc, (existsb nontool ms = false /\ lastNonTool_from i ms acc = acc) \/
    exists pre m ts, ms = pre ++ m :: ts /\ is_tool m = false /\ Forall (fun m => is_tool m = true) ts /\ lastNonTool_from i ms acc = i + blen pre).
  { destruct (H 0 (-1)) as [H'|(pre & m & ts & H')]; [by left|right; by exists pre, m, ts]. }
  induction ms as [|m ms IH]; intros i acc; [by left|]. cbn [existsb lastNonTool_from].
  destruct (IH (i + 1) (if is_tool m then acc else i)) as [[H1 H2]|(pre & m' & ts & -> & H2 & H3 & H4)].
  - rewrite H1, H2. unfold nontool. destruct (is_tool m) eqn:Et; [by left|]. right. exists [], m, ms. change (blen (@nil message)) with 0. split_and!; [done|done| |lia].
    apply Forall_forall. intros x Hx. destruct (is_tool x) eqn:E; [done|]. enough (existsb nontool ms = true) by congruence.
    apply existsb_exists. exists x. unfold nontool. rewrite E. split; [by apply list_elem_of_In|done].
  - right. exists (m :: pre), m', ts. split_and!; [done|done|done|]. rewrite H4. unfold blen. cbn [length]. lia.
Qed.

(** Trimming leaves complete exchanges only. *)
Lemma trim_closes ms : exchange_ok true [] ms = true -> exchange_ok false [] (trimTrailingOpenToolExchange ms) = true.
Proof.
  intros He. unfold trimTrailingOpenToolExchange.
  destruct (lastNonTool_spec ms) as [[_ ->]|(pre & m & ts & -> & Hm & Hts & ->)]; [done|]. blen_facts.
  rewrite (proj2 (Z.ltb_ge _ _)) by lia. unfold blen. rewrite Nat2Z.id, list_lookup_middle by done.
  assert (Hpre : exchange_ok false [] pre = true).
  { eapply exchange_app; [|exact He]. intros o'. cbn [exchange_ok]. rewrite Hm, andb_true_iff. by intros [->%bool_decide_eq_true _]. }
  assert (Hsplit : exchange_ok false (if is_assistant m then set_of (call_ids m) else []) ts = true ->
            exchange_ok false [] (pre ++ m :: ts) = true).
  { intros Hc. apply exchange_app_intro; [|done]. cbn [exchange_ok]. by rewrite Hm, Hc. }
  destruct (exchange_app_elim _ _ _ _ He) as [o Ho].
  assert (Hts' : exchange_ok true (if is_assistant m then set_of (call_ids m) else []) ts = true).
  { cbn [exchange_ok] in Ho. rewrite Hm in Ho. by apply andb_true_iff in Ho as [_ Ho]. }
  destruct (negb (is_assistant m) || bool_decide (toolCalls m = [])) eqn:Em.
  - apply Hsplit. apply exchange_tools_closed; [done|done|]. intros id Hid. apply opens_nothing in Em.
    destruct (is_assistant m); [rewrite Em in Hid|]; by apply not_elem_of_nil in Hid.
  - apply orb_false_iff in Em as [Ea _]. apply negb_false_iff in Ea. rewrite Ea in *. rewrite drop_app_ge by lia.
    replace (S (length pre) - length pre)%nat with 1%nat by lia. cbn [drop].
    destruct (forallb _ (call_ids m)) eqn:Ef; [|by rewrite take_app_length].
    apply Hsplit. apply exchange_tools_closed; [done|done|]. intros id Hid. rewrite elem_of_set_of in Hid.
    rewrite forallb_forall in Ef. apply list_elem_of_In, Ef, bool_decide_eq_true in Hid. done.
Qed.

Definition parts (ms : list message) : list content_part := concat (content <$> ms).
Definition media_parts (ms : list message) : list content_part := List.filter isDegradableMediaPart (parts ms).

(** A part is unchanged or a medium replaced by its marker. *)
Definition replaced (placeholders : media_kind -> jsstr) (p q : content_part) : Prop :=
  q = p \/ exists k c, media_of p = Some (k, c) /\ q = TextPart (placeholders k).

Lemma media_count_parts ms : media_count ms = blen (media_parts ms).
Proof.
  unfold media_count, media_parts, parts. induction ms as [|m ms IH]; [done|]. rewrite sum_of_cons, IH. cbn. by rewrite List.filter_app, blen_app.
Qed.

Lemma degradable_media p : isDegradableMediaPart p = match media_of p with Some _ => true | None => false end.
Proof. done. Qed.

Lemma degrade_parts_spec pl ps : forall n out n', 0 <= n -> degrade_parts pl n ps = (out, n') ->
  let media := List.filter isDegradableMediaPart ps in
  n' = Z.max 0 (n - blen media) /\ List.filter isDegradableMediaPart out = drop (Z.to_nat n) media /\ Forall2 (replaced pl) ps out.
Proof.
  induction ps as [|p ps IH]; intros n out n' Hn; cbn [degrade_parts List.filter].
  { intros [= <- <-]. change (blen (@nil content_part)) with 0. cbn. rewrite drop_nil. split_and!; [lia|done|constructor]. }
  rewrite degradable_media. destruct (media_of p) as [[k c]|] eqn:Em.
  - destruct (Z.eqb_spec n 0) as [->|Hne].
    + destruct (degrade_parts pl 0 ps) as [o n1] eqn:E. intros [= <- <-]. apply IH in E as (-> & H2 & H3); [|lia].
      cbn [List.filter]. rewrite degradable_media, Em, H2. cbn [Z.to_nat drop]. blen_facts. split_and!; [|done|by constructor; [left|]].
      unfold blen in *. cbn [length]. lia.
    + destruct (degrade_parts pl (n - 1) ps) as [o n1] eqn:E. intros [= <- <-]. apply IH in E as (-> & H2 & H3); [|lia].
      cbn [List.filter]. change (isDegradableMediaPart (TextPart (pl k))) with false. rewrite H2.
      split_and!; [unfold blen; cbn [length]; lia| |constructor; [right; eauto|done]].
      replace (Z.to_nat n) with (S (Z.to_nat (n - 1))) by lia. done.
  - destruct (degrade_parts pl n ps) as [o n1] eqn:E. intros [= <- <-]. apply IH in E as (-> & H2 & H3); [|lia].
    cbn [List.filter]. rewrite degradable_media, Em. split_and!; [done|done|by constructor; [left|]].
Qed.

Lemma degrade_messages_spec pl ms : forall n, 0 <= n ->
  media_parts (degrade_messages pl n ms) = drop (Z.to_nat n) (media_parts ms) /\
  Forall2 (fun m m' => Forall2 (replaced pl) (content m) (content m') /\ m' = with_content m (content m')) ms (degrade_messages pl n ms).
Proof.
  induction ms as [|m ms IH]; intros n Hn; cbn [degrade_messages]; [split; [unfold media_parts, parts; cbn; by rewrite drop_nil|constructor]|].
  destruct (degrade_parts pl n (content m)) as [c n'] eqn:E. apply degrade_parts_spec in E as (-> & H2 & H3); [|done].
  set (media := List.filter isDegradableMediaPart (content m)) in *. blen_facts.
  destruct (IH (Z.max 0 (n - blen media)) ltac:(lia)) as [I1 I2]. split; [|by constructor].
  unfold media_parts, parts in *. cbn. rewrite !List.filter_app, I1, H2. fold media. rewrite drop_app. f_equal. f_equal. unfold blen. lia.
Qed.

Lemma strip_media_parts sha256 ms snapshot :
  media_parts (stripMediaPartsBySnapshot sha256 ms snapshot) =
    List.filter (fun p => match part_key sha256 p with Some k => negb (bool_decide (k ∈ snapshot)) | None => true end) (media_parts ms).
Proof.
  unfold media_parts, parts, stripMediaPartsBySnapshot. induction ms as [|m ms IH]; [done|]. cbn. rewrite !List.filter_app, IH. f_equal.
  induction (content m) as [|p ps IHp]; [done|]. cbn [fmap list_fmap List.filter]. rewrite (degradable_media p).
  destruct (media_of p) as [[k c]|] eqn:Em.
  - assert (Ek : part_key sha256 p = Some (mediaStripKey sha256 k c)) by (unfold part_key; by rewrite Em).
    cbn [List.filter]. rewrite Ek. unfold strip_part at 1 2. rewrite Em. case_bool_decide; cbn [negb].
    + change (isDegradableMediaPart (TextPart _)) with false. done.
    + rewrite (degradable_media p), Em. by f_equal.
  - unfold strip_part at 1 2. rewrite Em, (degradable_media p), Em. done.
Qed.

(** media recovery. Degrading keeps exactly the most recent media, in order, and
    replaces the older ones by their markers; every other part and everything else of
    the messages stays. Stripping by a snapshot removes exactly the media it holds. *)
Theorem media_recovery_exact sha256 ms keepRecent placeholders snapshot : 0 <= keepRecent ->
  let out := degradeOlderMediaParts ms keepRecent placeholders in
  media_parts out = drop (Z.to_nat (media_count ms - keepRecent)) (media_parts ms) /\
  Forall2 (fun m m' => Forall2 (replaced placeholders) (content m) (content m') /\ m' = with_content m (content m')) ms out /\
  media_parts (stripMediaPartsBySnapshot sha256 ms snapshot) =
    List.filter (fun p => match part_key sha256 p with Some k => negb (bool_decide (k ∈ snapshot)) | None => true end) (media_parts ms) /\
  media_parts (stripMediaPartsBySnapshot sha256 ms (captureMediaStripSnapshot sha256 ms)) = [].
Proof.
  intros Hk out. blen_facts. split; [|split; [|split]].
  - unfold out, degradeOlderMediaParts. cbv zeta. rewrite media_count_parts in *. destruct (Z.eqb_spec (Z.max 0 (blen (media_parts ms) - keepRecent)) 0).
    + by replace (Z.to_nat (blen (media_parts ms) - keepRecent)) with 0%nat by lia.
    + rewrite (proj1 (degrade_messages_spec _ _ _ (Z.le_max_l _ _))). f_equal. lia.
  - unfold out, degradeOlderMediaParts. cbv zeta. case_match; [|apply degrade_messages_spec; lia].
    apply Forall2_same_length_lookup_2; [done|]. intros i m m' Hm Hm'. assert (m' = m) as -> by congruence.
    split; [|by destruct m]. apply Forall2_same_length_lookup_2; [done|]. intros j p q Hp Hq. left. congruence.
  - apply strip_media_parts.
  - rewrite strip_media_parts. apply elem_of_nil_inv. intros p Hp. apply list_elem_of_In, List.filter_In in Hp as [Hp Hs].
    apply list_elem_of_In in Hp. destruct (part_key sha256 p) as [k|] eqn:Ek.
    + apply negb_true_iff, bool_decide_eq_false in Hs. apply Hs. unfold captureMediaStripSnapshot. apply elem_of_list_to_set, list_elem_of_omap.
      exists p. split; [|done]. unfold media_parts in Hp. apply list_elem_of_In, List.filter_In in Hp as [Hp _]. by apply list_elem_of_In.
    + unfold media_parts in Hp. apply list_elem_of_In, List.filter_In in Hp as [_ Hp]. unfold part_key in Ek. unfold isDegradableMediaPart in Hp.
      by destruct (media_of p).
Qed.

(** * Concrete histories *)

Definition ex_user (text : string) : context_message := user_message [TextPart (js text)] (Some OUser).
Definition ex_assistant (text : string) (ids : list string) : context_message :=
  ContextMessage (Message Assistant None [TextPart (js text)] ((fun id => ToolCall (js id) (js "Read") None) <$> ids) None false None) None None None.
Definition ex_result (id text : string) : context_message :=
  ContextMessage (createToolMessage (js id) [TextPart (js text)]) None None None.

(** A result displaced by the user's message, a call without result, a duplicate. *)
Definition ex_mangled : list context_message :=
  [ex_assistant "hello" []; ex_user "look"; ex_assistant "" ["a"; "b"]; ex_result "b" "beta"; ex_user "more"; ex_result "a" "alpha";
   ex_assistant "" ["c"]; ex_user "?"; ex_user "!"; ex_assistant "" ["b"; "d"]; ex_result "b" "again"; ex_result "d" ""].

Definition ex_complete : list context_message :=
  [ex_user "look"; ex_user "now"; ex_assistant "" ["a"; "b"]; ex_result "a" "alpha"; ex_result "b" " "; ex_assistant " " []; ex_assistant "" ["a"]].

Lemma strict_projection_compliant_witness :
  exists out an, project ex_mangled strict_options = Ok (out, an) /\
    exchange_ok false [] out = true /\ NoDup (all_call_ids out) /\
    match out with m :: _ => is_user m = true | [] => True end /\
    Forall (fun m => sendable m = true) out /\
    (no_orphans ex_mangled = true -> no_adjacent_assistants out = true).
Proof. apply (strict_projection_compliant ex_mangled); [vm_compute; reflexivity|by repeat constructor]. Defined.

Lemma well_formed_history_projected_witness :
  exists out an, project ex_complete normal_options = Ok (out, an) /\ prepared (complete ex_complete) out /\
    exchange_ok true [] out = true /\ all_call_ids out = all_call_ids (complete ex_complete) /\ Forall cosmetic an.
Proof.
  apply (well_formed_history_projected ex_complete); [vm_compute; reflexivity| |by repeat constructor].
  unfold tools_without_thinking. by repeat constructor.
Defined.

Definition ex_media (n : N) : content_part := ImagePart (Media [n] None).
Definition ex_album : list message :=
  base <$> [user_message [ex_media 1; TextPart (js "one")] (Some OUser); user_message [ex_media 2; ex_media 3] (Some OUser)].

Lemma media_recovery_exact_witness : 0 <= MEDIA_DEGRADE_KEEP_RECENT /\
  media_parts (stripMediaPartsBySnapshot id ex_album (captureMediaStripSnapshot id ex_album)) = [].
Proof.
  split; [done|]. apply (media_recovery_exact id ex_album MEDIA_DEGRADE_KEEP_RECENT MEDIA_DEGRADED_PLACEHOLDERS ∅). done.
Defined.

Example degraded_album : media_parts (degradeOlderMediaParts ex_album 2 MEDIA_DEGRADED_PLACEHOLDERS) = [ex_media 2; ex_media 3].
Proof. vm_compute. reflexivity. Qed.

(** A result before its call, as a resumed session whose calls reuse ids can have: the
    strict projection keeps the first result, drops the real one as a duplicate, and
    answers the call with a placeholder: the request stays invalid. *)
Definition ex_early : list context_message :=
  [ex_user "go"; ex_result "call_0" "old"; ex_user "on"; ex_assistant "" ["call_0"]; ex_result "call_0" "new"; ex_user "?"].

Example early_result_stays :
  match project ex_early strict_options with
  | Ok (out, _) => exchange_ok false [] out = false /\ Forall (fun m => content m <> [TextPart (js "new")]) out
  | Err _ => False
  end.
Proof. vm_compute. split; [reflexivity|]. repeat constructor; discriminate. Qed.

(** A result of an unknown call between two assistant messages: it is dropped after the
    merge, and the two stay adjacent. *)
Example dropped_orphan_leaves_neighbours :
  match project [ex_user "go"; ex_assistant "one" []; ex_result "x" "lost"; ex_assistant "two" []] strict_options with
  | Ok (out, _) => no_adjacent_assistants out = false
  | Err _ => False
  end.
Proof. vm_compute. reflexivity. Qed.
