(* ===== verification/Handoff.v ===== *)
(** What of the user's messages a compaction keeps:
    [agent/compaction/handoff.ts]. *)

From S2P Require Import Prelude JsMap Json JsonText JsString Messages Projector.

(** * Real user input *)

(** [true] is ['keep']. *)
Definition compactionUserMessageDisposition (o : option prompt_origin) : bool :=
  match o with
  | None | Some OUser => true
  | Some (OSkillActivation _ _ trigger) => match trigger with UserSlash => true | _ => false end
  | Some (OPluginCommand _ _ _) => true
  | _ => false
  end.

Definition isCompactionSummaryMessage (m : context_message) : bool := bool_decide (origin m = Some OCompactionSummary).

Definition isRealUserInput (m : context_message) : bool := is_user (base m) && compactionUserMessageDisposition (origin m).

Definition collectCompactableUserMessages (ms : list context_message) : list context_message :=
  List.filter (fun m => isRealUserInput m && negb (isCompactionSummaryMessage m)) ms.

(** The scan runs from the end: the index after the last summary. *)
Fixpoint pinnedDigestPrefixLength (ms : list context_message) : nat :=
  match ms with
  | [] => 0
  | m :: ms' =>
      match pinnedDigestPrefixLength ms' with
      | O => if isCompactionSummaryMessage m then 1 else 0
      | S n => S (S n)
      end
  end.

(** * The keep marker *)

Definition to_upper (u : N) : N := if ((97 <=? u) && (u <=? 122))%N then (u - 32)%N else u.

Fixpoint starts_with_ci (pattern s : jsstr) : bool :=
  match pattern, s with
  | [], _ => true
  | p :: pattern', u :: s' => bool_decide (to_upper p = to_upper u) && starts_with_ci pattern' s'
  | _ :: _, [] => false
  end.

(** [USER_KEEP_MARKER_PATTERN] at the start of [s]; the double brackets contain the
    single ones. *)
Definition keep_marker_here (s : jsstr) : bool :=
  starts_with_ci (js "[keep]") s || starts_with_ci (js "<keep>") s ||
  (starts_with_ci (js "<!--") s &&
   let s1 := trimStart (drop 4 s) in
   starts_with_ci (js "keep") s1 && starts_with_ci (js "-->") (trimStart (drop 4 s1))).

Fixpoint keep_marker (s : jsstr) : bool :=
  keep_marker_here s || match s with [] => false | _ :: s' => keep_marker s' end.

Definition hasUserKeepMarker (m : context_message) : bool :=
  is_user (base m) && existsb (fun p => match p with TextPart text => keep_marker text | _ => false end) (content (base m)).

(** * Truncation *)

(** The characters taken before the running total passes the budget. *)
Fixpoint take_chars (chars : list jsstr) (asciiCount nonAsciiCount maxTokens : Z) : list jsstr :=
  match chars with
  | [] => []
  | c :: chars' =>
      let a := if ascii_char c then asciiCount + 1 else asciiCount in
      let n := if ascii_char c then nonAsciiCount else nonAsciiCount + 1 in
      if maxTokens <? quarter a + n then [] else c :: take_chars chars' a n maxTokens
  end.

Definition truncateTextToTokens (text : jsstr) (maxTokens : Z) : jsstr :=
  if maxTokens <=? 0 then [] else concat (take_chars (code_points text) 0 0 maxTokens).

(** [rev_text] is what is left to the left, in reverse. *)
Fixpoint take_from_end (rev_text : jsstr) (asciiCount nonAsciiCount maxTokens : Z) : jsstr :=
  match rev_text with
  | [] => []
  | u :: rest =>
      match rest with
      | v :: rest' =>
          if low u && high v then
            if maxTokens <? quarter asciiCount + (nonAsciiCount + 1) then []
            else take_from_end rest' asciiCount (nonAsciiCount + 1) maxTokens ++ [v; u]
          else
            let a := if (u <=? 127)%N then asciiCount + 1 else asciiCount in
            let n := if (u <=? 127)%N then nonAsciiCount else nonAsciiCount + 1 in
            if maxTokens <? quarter a + n then [] else take_from_end rest a n maxTokens ++ [u]
      | [] =>
          let a := if (u <=? 127)%N then asciiCount + 1 else asciiCount in
          let n := if (u <=? 127)%N then nonAsciiCount else nonAsciiCount + 1 in
          if maxTokens <? quarter a + n then [] else [u]
      end
  end.

Definition truncateTextToTokensFromEnd (text : jsstr) (maxTokens : Z) : jsstr :=
  if maxTokens <=? 0 then [] else take_from_end (rev text) 0 0 maxTokens.

Definition replaceMessageText (m : context_message) (text : jsstr) : context_message :=
  with_base m (with_calls (with_content (base m) [TextPart text]) []).

Definition extractText (m : context_message) : jsstr := extractTextOnly (content (base m)).

Definition truncateUserMessage (m : context_message) (maxTokens : Z) : context_message :=
  replaceMessageText m (truncateTextToTokens (extractText m) maxTokens).

Definition tokens (m : context_message) : Z := estimateTokensForMessage (base m).

(** * Selection *)

Definition COMPACT_USER_MESSAGE_MAX_TOKENS : Z := 20000.
Definition COMPACT_USER_MESSAGE_HEAD_TOKENS : Z := 2000.

(** Over the messages from the newest; [selected] grows at its front, which is the
    array after its final [reverse]. *)
Fixpoint recent_loop (newest_first : list context_message) (remaining : Z) (selected : list context_message) : list context_message :=
  match newest_first with
  | [] => selected
  | m :: ms =>
      if remaining <=? 0 then selected
      else if tokens m <=? remaining then recent_loop ms (remaining - tokens m) (m :: selected)
      else truncateUserMessage m remaining :: selected
  end.

Definition selectRecentUserMessages (ms : list context_message) (maxTokens : Z) : list context_message :=
  recent_loop (rev ms) maxTokens [].

Record selection : Type := Selection {
  s_head : list context_message;
  s_tail : list context_message;
  elided : bool;
  omittedTokens : Z;
}.

(** The tail kept, how many messages are before it, and the cut-off beginning of its
    first message. *)
Fixpoint tail_loop (newest_first : list context_message) (tailRemaining : Z) (tail : list context_message)
  : list context_message * nat * option context_message :=
  match newest_first with
  | [] => (tail, 0%nat, None)
  | m :: ms =>
      if tailRemaining <=? 0 then (tail, length newest_first, None)
      else if tokens m <=? tailRemaining then tail_loop ms (tailRemaining - tokens m) (m :: tail)
      else
        let fullText := extractText m in
        let keptSuffix := truncateTextToTokensFromEnd fullText tailRemaining in
        let droppedPrefix := take (length fullText - length keptSuffix) fullText in
        (replaceMessageText m keptSuffix :: tail, length ms,
         if bool_decide (droppedPrefix = []) then None else Some (replaceMessageText m droppedPrefix))
  end.

Fixpoint head_loop (candidates : list context_message) (headRemaining : Z) : list context_message :=
  match candidates with
  | [] => []
  | m :: ms =>
      if headRemaining <=? 0 then []
      else if tokens m <=? headRemaining then m :: head_loop ms (headRemaining - tokens m)
      else [truncateUserMessage m headRemaining]
  end.

Definition selectWithinBudget (ms : list context_message) (maxTokens headTokens totalTokens : Z) : selection :=
  let headBudget := Z.min (Z.max headTokens 0) maxTokens in
  let tailBudget := maxTokens - headBudget in
  let '(tail, headEndExclusive, dropped) := tail_loop (rev ms) tailBudget [] in
  let headCandidates := take headEndExclusive ms ++ option_list dropped in
  let head := head_loop headCandidates headBudget in
  let keptTokens := sum_of tokens head + sum_of tokens tail in
  Selection head tail true (Z.max 0 (totalTokens - keptTokens)).

(** The loop of [mergePinnedSelection] from message [i] on: [seen] unmarked messages
    are before it, [tailStarted] says whether a tail piece was. *)
Fixpoint merge_pinned_loop (ms : list context_message) (sub : selection) (unmarkedTotal seen : nat) (tailStarted : bool)
  : list context_message * list context_message :=
  match ms with
  | [] => ([], [])
  | m :: ms' =>
      if hasUserKeepMarker m then
        let '(head, tail) := merge_pinned_loop ms' sub unmarkedTotal seen tailStarted in
        if tailStarted then (head, m :: tail) else (m :: head, tail)
      else
        let from := (unmarkedTotal - length (s_tail sub))%nat in
        let in_tail := (from <=? seen)%nat in
        let h := if (seen <? length (s_head sub))%nat then option_list (s_head sub !! seen) else [] in
        let t := if in_tail then option_list (s_tail sub !! (seen - from)%nat) else [] in
        let '(head, tail) := merge_pinned_loop ms' sub unmarkedTotal (S seen) (tailStarted || in_tail) in
        (h ++ head, t ++ tail)
  end.

Definition mergePinnedSelection (ms unpinned : list context_message) (sub : selection) : selection :=
  let '(head, tail) := merge_pinned_loop ms sub (length unpinned) 0 false in
  Selection head tail true (omittedTokens sub).

(** The selection of a pool without marked messages, then of any pool: the recursive
    call of the code is on the unmarked messages. *)
Definition select_unmarked (ms : list context_message) (maxTokens headTokens : Z) : selection :=
  let totalTokens := sum_of tokens ms in
  if totalTokens <=? maxTokens then Selection [] ms false 0 else selectWithinBudget ms maxTokens headTokens totalTokens.

Definition selectCompactionUserMessages (ms : list context_message) (maxTokens headTokens : Z) : selection :=
  let totalTokens := sum_of tokens ms in
  if totalTokens <=? maxTokens then Selection [] ms false 0
  else
    let pinned := List.filter hasUserKeepMarker ms in
    if bool_decide (pinned = []) then selectWithinBudget ms maxTokens headTokens totalTokens
    else
      let unpinned := List.filter (fun m => negb (hasUserKeepMarker m)) ms in
      let remainingBudget := Z.max 0 (maxTokens - sum_of tokens pinned) in
      let sub := select_unmarked unpinned remainingBudget (Z.min (Z.max headTokens 0) remainingBudget) in
      mergePinnedSelection ms unpinned sub.

Definition buildCompactionElisionText (omitted : Z) : jsstr :=
  join_with [10]%N
    [js "<system-reminder>";
     js "Some of this conversation's user messages were omitted here during compaction: the messages above this note are the oldest user input, the messages below are the most recent, and roughly " ++
       string_of_int omitted ++ js " tokens in between were dropped. The omitted content is covered by the compaction summary at the end of the conversation.";
     js "</system-reminder>"].

Definition COMPACTION_ELISION_VARIANT : jsstr := js "compaction_elision".

(** * Truncated texts fit *)

Lemma concat_code_points s : concat (code_points s) = s.
Proof.
  remember (length s) as n eqn:E. revert s E. induction n as [n IH] using lt_wf_ind. intros [|u [|v s]] ->; [done|done|].
  destruct (high u) eqn:Hu; [destruct (low v) eqn:Hv|].
  - rewrite code_points_pair by done. cbn. by rewrite (IH (length s)) by (cbn; lia).
  - rewrite code_points_one by by right. cbn [concat]. by rewrite (IH (length (v :: s))) by (cbn; lia).
  - rewrite code_points_one by by left. cbn [concat]. by rewrite (IH (length (v :: s))) by (cbn; lia).
Qed.

Lemma code_points_prefix s : forall l1 l2, code_points s = l1 ++ l2 -> code_points (concat l1) = l1.
Proof.
  remember (length s) as n eqn:E. revert s E. induction n as [n IH] using lt_wf_ind. intros [|u s] -> l1 l2.
  { intros [-> _]%eq_sym%app_eq_nil. done. }
  assert (Hone : code_points (u :: s) = [u] :: code_points s ->
            high u = false \/ match s with v :: _ => low v = false | [] => True end ->
            code_points (u :: s) = l1 ++ l2 -> code_points (concat l1) = l1).
  { intros -> Hor. destruct l1 as [|c l1]; [done|]. cbn [app]. intros [= <- Hl]. cbn [concat app].
    rewrite code_points_one; [by rewrite (IH (length s) ltac:(cbn; lia) s eq_refl l1 l2 Hl)|].
    destruct Hor as [Hor|Hor]; [by left|]. destruct (concat l1) as [|w rest] eqn:Ec; [by right|].
    right. assert (s = concat l1 ++ concat l2) as Es by (rewrite <- concat_app, <- Hl; symmetry; apply concat_code_points).
    rewrite Ec in Es. by rewrite Es in Hor. }
  destruct s as [|v s]; [apply Hone; [done|by right]|].
  destruct (high u) eqn:Hu; [destruct (low v) eqn:Hv|].
  - rewrite code_points_pair by done. destruct l1 as [|c l1]; [done|]. cbn [app]. intros [= <- Hl]. cbn [concat app].
    rewrite code_points_pair by done. by rewrite (IH (length s) ltac:(cbn; lia) s eq_refl l1 l2 Hl).
  - apply Hone; [apply code_points_one|]; by right.
  - apply Hone; [apply code_points_one|]; by left.
Qed.

Definition ascii_count (chars : list jsstr) : Z := blen (filter (fun c => ascii_char c = true) chars).
Definition other_count (chars : list jsstr) : Z := blen (filter (fun c => ascii_char c = false) chars).

(** Two totals with the same counts. *)
Ltac same_counts H := etrans; [apply Z.eq_le_incl|exact H];
  match goal with |- quarter ?x + ?y = quarter ?x' + ?y' =>
    assert (x = x') as -> by lia; assert (y = y') as -> by lia; reflexivity end.

Lemma estimate_counts s : estimateTokens s = quarter (ascii_count (code_points s)) + other_count (code_points s).
Proof. done. Qed.

Lemma counts_cons c chars : ascii_count (c :: chars) = (if ascii_char c then 1 else 0) + ascii_count chars /\
  other_count (c :: chars) = (if ascii_char c then 0 else 1) + other_count chars.
Proof. unfold ascii_count, other_count, blen. rewrite !filter_cons. destruct (ascii_char c); repeat case_decide; try done; cbn [length]; lia. Qed.

Lemma counts_snoc c chars : ascii_count (chars ++ [c]) = (if ascii_char c then 1 else 0) + ascii_count chars /\
  other_count (chars ++ [c]) = (if ascii_char c then 0 else 1) + other_count chars.
Proof.
  unfold ascii_count, other_count. rewrite !filter_app, !blen_app. fold (ascii_count [c]). fold (other_count [c]).
  destruct (counts_cons c []) as [-> ->]. change (ascii_count []) with 0. change (other_count []) with 0. lia.
Qed.

Lemma take_chars_spec chars : forall a n maxTokens, quarter a + n <= maxTokens ->
  let kept := take_chars chars a n maxTokens in
  (exists rest, chars = kept ++ rest) /\ quarter (a + ascii_count kept) + (n + other_count kept) <= maxTokens.
Proof.
  induction chars as [|c chars IH]; intros a n maxTokens Hb; cbn [take_chars].
  { change (ascii_count []) with 0. change (other_count []) with 0. rewrite !Z.add_0_r. split; [by exists []|done]. }
  destruct (Z.ltb_spec maxTokens (quarter (if ascii_char c then a + 1 else a) + (if ascii_char c then n else n + 1))).
  - change (ascii_count []) with 0. change (other_count []) with 0. rewrite !Z.add_0_r. split; [by eexists|done].
  - destruct (IH (if ascii_char c then a + 1 else a) (if ascii_char c then n else n + 1) maxTokens ltac:(lia)) as [[rest Hr] Hk].
    cbv zeta in *. split; [exists rest; cbn; by f_equal|].
    match goal with |- context [c :: ?k] => destruct (counts_cons c k) as [-> ->] end. revert Hk. generalize (take_chars chars
      (if ascii_char c then a + 1 else a) (if ascii_char c then n else n + 1) maxTokens). intros k.
    destruct (ascii_char c); intros Hk; same_counts Hk.
Qed.

Lemma truncate_spec text maxTokens : 0 <= maxTokens ->
  estimateTokens (truncateTextToTokens text maxTokens) <= maxTokens /\ exists rest, text = truncateTextToTokens text maxTokens ++ rest.
Proof.
  intros Hm. unfold truncateTextToTokens. destruct (Z.leb_spec maxTokens 0); [split; [done|by eexists]|].
  destruct (take_chars_spec (code_points text) 0 0 maxTokens Hm) as [[rest Hr] Hk].
  rewrite estimate_counts, (code_points_prefix text _ rest Hr). split; [exact Hk|].
  exists (concat rest). rewrite <- concat_app, <- Hr. symmetry. apply concat_code_points.
Qed.

Lemma ascii_one u : ascii_char [u] = (u <=? 127)%N.
Proof. done. Qed.

Lemma take_from_end_spec n : forall r a b maxTokens, (length r <= n)%nat -> quarter a + b <= maxTokens ->
  let kept := take_from_end r a b maxTokens in
  (exists p, rev r = p ++ kept) /\ quarter (a + ascii_count (code_points kept)) + (b + other_count (code_points kept)) <= maxTokens.
Proof.
  induction n as [|n IH]; intros r a b maxTokens Hl Hb; cbv zeta.
  { destruct r; cbn [length] in Hl; [|lia]. split; [by exists []|]. change (ascii_count (code_points (take_from_end [] a b maxTokens))) with 0.
    change (other_count (code_points (take_from_end [] a b maxTokens))) with 0. by rewrite !Z.add_0_r. }
  assert (Hnone : quarter (a + ascii_count (code_points [])) + (b + other_count (code_points [])) <= maxTokens).
  { change (ascii_count (code_points [])) with 0. change (other_count (code_points [])) with 0. by rewrite !Z.add_0_r. }
  assert (Hstop : exists p, rev r = p ++ []) by (exists (rev r); by rewrite app_nil_r).
  destruct r as [|u r]; [done|]. cbn [length] in Hl.
  set (a' := if (u <=? 127)%N then a + 1 else a). set (b' := if (u <=? 127)%N then b else b + 1).
  assert (Hsingle : (quarter a' + b' <= maxTokens -> seam (take_from_end r a' b' maxTokens) [u]) ->
     let kept := if maxTokens <? quarter a' + b' then [] else take_from_end r a' b' maxTokens ++ [u] in
     (exists p, rev (u :: r) = p ++ kept) /\ quarter (a + ascii_count (code_points kept)) + (b + other_count (code_points kept)) <= maxTokens).
  { intros Hs. cbv zeta. destruct (Z.ltb_spec maxTokens (quarter a' + b')) as [|Hle]; [done|].
    destruct (IH r a' b' maxTokens ltac:(lia) Hle) as [[p Hp] Hk]. cbv zeta in Hk. split; [exists p; cbn [rev]; by rewrite Hp, app_assoc|].
    rewrite (code_points_app _ _ _ (le_n _) (Hs Hle)). change (code_points [u]) with [[u]].
    destruct (counts_snoc [u] (code_points (take_from_end r a' b' maxTokens))) as [-> ->]. rewrite ascii_one. unfold a', b' in *.
    destruct (u <=? 127)%N; same_counts Hk. }
  destruct r as [|v r]; [cbn [take_from_end] in *; by apply Hsingle|]. cbn [take_from_end].
  destruct (low u && high v) eqn:Epair.
  - apply andb_true_iff in Epair as [Hu Hv]. destruct (Z.ltb_spec maxTokens (quarter a + (b + 1))) as [|Hle]; [done|].
    cbn [length] in Hl. destruct (IH r a (b + 1) maxTokens ltac:(lia) Hle) as [[p Hp] Hk]. cbv zeta in Hk.
    split; [exists p; cbn [rev]; by rewrite Hp, <- !app_assoc|].
    rewrite (code_points_app _ _ _ (le_n _)).
    + rewrite (code_points_pair v u []) by done. change (code_points []) with (@nil jsstr).
      destruct (counts_snoc [v; u] (code_points (take_from_end r a (b + 1) maxTokens))) as [-> ->]. cbn [ascii_char]. same_counts Hk.
    + unfold seam. cbn [head]. destruct (last _); [|done]. apply andb_false_iff. right.
      unfold low, high in *. apply andb_true_iff in Hv as [H1%N.leb_le H2%N.leb_le]. apply andb_false_iff. left. apply N.leb_gt. lia.
  - apply Hsingle. intros Hle. unfold seam. cbn [head].
    destruct (IH (v :: r) a' b' maxTokens ltac:(lia) Hle) as [[p Hp] _]. cbv zeta in Hp.
    destruct (last (take_from_end (v :: r) a' b' maxTokens)) as [w|] eqn:Ew; [|done].
    apply last_Some in Ew as [k' Ek]. rewrite Ek in Hp. cbn [rev] in Hp. rewrite app_assoc in Hp. apply app_inj_tail in Hp as [_ <-].
    by rewrite andb_comm.
Qed.

(** * The loops *)

(** A message a pool holds: a user's, without calls and tools. *)
Definition pooled (m : context_message) : Prop :=
  is_user (base m) = true /\ toolCalls (base m) = [] /\ has_tools (base m) = false.

Lemma tokens_replaced m text : pooled m -> tokens (replaceMessageText m text) = 1 + estimateTokens text.
Proof.
  intros (Hu & _ & Ht). apply bool_decide_eq_true in Hu. unfold tokens, estimateTokensForMessage.
  cbn [base replaceMessageText with_base with_calls with_content role content toolCalls tools]. rewrite Hu. change (estimateTokens (role_text User)) with 1. unfold estimateTokensForContentParts, has_tools in *.
  assert (from_option estimateTokensForTools 0 (tools (base m)) = 0) as -> by (by destruct (tools (base m)) as [[|]|]).
  rewrite sum_of_cons. change (sum_of _ (@nil tool_call)) with 0. change (sum_of _ (@nil content_part)) with 0. cbn [estimateTokensForContentPart]. lia.
Qed.

Lemma pooled_replaced m text : pooled m -> pooled (replaceMessageText m text).
Proof. intros (H1 & H2 & H3). split_and!; done. Qed.

(** The text of a list of messages. *)
Definition text (ms : list context_message) : jsstr := concat (extractText <$> ms).

Lemma text_app l1 l2 : text (l1 ++ l2) = text l1 ++ text l2.
Proof. unfold text. by rewrite fmap_app, concat_app. Qed.

Lemma text_cons m l : text (m :: l) = extractText m ++ text l.
Proof. done. Qed.

Lemma extractText_replaced m t : extractText (replaceMessageText m t) = t.
Proof. unfold extractText, extractTextOnly. cbn. by rewrite app_nil_r. Qed.

Lemma head_loop_spec ms : forall budget, 0 <= budget -> Forall pooled ms ->
  sum_of tokens (head_loop ms budget) <= budget + 1 /\ (exists rest, text ms = text (head_loop ms budget) ++ rest) /\
  (length (head_loop ms budget) <= length ms)%nat.
Proof.
  induction ms as [|m ms IH]; intros budget Hb Hp; cbn [head_loop]; [change (sum_of tokens []) with 0; split_and!; [lia|by exists []|done]|].
  apply Forall_cons in Hp as [Hm Hp]. destruct (Z.leb_spec budget 0).
  { change (sum_of tokens []) with 0. cbn [length]. split_and!; [lia|by eexists|lia]. }
  destruct (Z.leb_spec (tokens m) budget).
  - destruct (IH (budget - tokens m) ltac:(lia) Hp) as (H1 & [rest H2] & H3). rewrite sum_of_cons. cbn [length].
    split_and!; [lia| |lia]. exists rest. by rewrite !text_cons, H2, app_assoc.
  - destruct (truncate_spec (extractText m) budget Hb) as [H1 [rest H2]]. unfold truncateUserMessage. cbn [length].
    rewrite sum_of_cons, tokens_replaced by done. change (sum_of tokens []) with 0. split_and!; [lia| |lia].
    exists (rest ++ text ms). rewrite !text_cons, extractText_replaced. change (text []) with (@nil N).
    rewrite app_nil_r, H2 at 1. by rewrite <- app_assoc.
Qed.

Lemma tail_loop_spec l : forall budget acc, 0 <= budget -> Forall pooled l ->
  exists kept n dropped, tail_loop l budget acc = (kept ++ acc, n, dropped) /\
    sum_of tokens kept <= budget + 1 /\ text (rev l) = text (take n (rev l) ++ option_list dropped) ++ text kept /\
    (n + length (option_list dropped) + length kept <= length l + 1)%nat /\ (n + length kept <= length l)%nat /\
    (dropped = None \/ kept <> []) /\ Forall pooled (option_list dropped) /\ (n + length (option_list dropped) <= length l)%nat.
Proof.
  induction l as [|m l IH]; intros budget acc Hb Hp; cbn [tail_loop].
  { exists [], 0%nat, None. change (sum_of tokens []) with 0. cbn. split_and!; (done || lia || by left || constructor). }
  apply Forall_cons in Hp as [Hm Hp]. destruct (Z.leb_spec budget 0).
  { exists [], (length (m :: l)), None. change (sum_of tokens []) with 0. rewrite take_ge by (rewrite length_rev; done).
    change (text []) with (@nil N). cbn [option_list from_option]. rewrite !app_nil_r. change (length (@nil context_message)) with 0%nat.
    split_and!; (done || (cbn; lia) || by left || constructor). }
  destruct (Z.leb_spec (tokens m) budget).
  - destruct (IH (budget - tokens m) (m :: acc) ltac:(lia) Hp) as (kept & n & dropped & -> & H1 & H2 & H3 & H4 & H5 & H6 & H7).
    exists (kept ++ [m]), n, dropped. rewrite <- app_assoc. cbn [app rev length]. rewrite sum_of_app, sum_of_cons, length_app. cbn [length].
    change (sum_of tokens []) with 0. split_and!; [done|lia| |lia|lia| |done|lia].
    + rewrite !text_app, take_app_le by (rewrite length_rev; lia). rewrite <- (text_app (take n _)), H2, app_assoc. done.
    + destruct H5 as [?|?]; [by left|right]. by destruct kept.
  - set (full := extractText m). set (suffix := truncateTextToTokensFromEnd full budget).
    set (pre := take (length full - length suffix) full).
    assert (Hs : estimateTokens suffix <= budget /\ exists p, full = p ++ suffix).
    { unfold suffix, truncateTextToTokensFromEnd. destruct (Z.leb_spec budget 0); [lia|].
      destruct (take_from_end_spec (length (rev full)) (rev full) 0 0 budget (le_n _) ltac:(done)) as [[p Hq] Hk]. cbv zeta in *.
      split; [by rewrite estimate_counts|]. exists p. by rewrite rev_involutive in Hq. }
    destruct Hs as [Hs [p Hfull]].
    assert (Hpre : pre = p) by (unfold pre; rewrite Hfull, length_app; replace (length p + length suffix - length suffix)%nat with (length p) by lia; apply take_app_length).
    rewrite Hpre.
    assert (Htext : text (take (length l) (rev (m :: l)) ++ option_list (if bool_decide (p = []) then None else Some (replaceMessageText m p))) = text (rev l) ++ p).
    { rewrite text_app. cbn [rev]. rewrite take_app_le by (by rewrite length_rev). rewrite take_ge by (by rewrite length_rev). f_equal.
      case_bool_decide; [by subst|]. change (option_list (Some (replaceMessageText m p))) with [replaceMessageText m p]. rewrite text_cons, extractText_replaced. change (text []) with (@nil N). apply app_nil_r. }
    eexists [replaceMessageText m suffix], (length l), _. split; [reflexivity|]. rewrite sum_of_cons, tokens_replaced by done.
    change (sum_of tokens []) with 0. split_and!; [lia| | | | | |].
    + rewrite Htext. cbn [rev]. rewrite text_app, !text_cons, extractText_replaced. change (text []) with (@nil N). fold full. rewrite Hfull, <- !app_assoc. done.
    + case_bool_decide; cbn; lia.
    + cbn [length]. lia.
    + by right.
    + case_bool_decide; [constructor|]. apply Forall_singleton. by apply pooled_replaced.
    + case_bool_decide; cbn; lia.
Qed.

(** What a selection of unmarked messages keeps: their oldest and their newest text. *)
Definition keeps_ends (ms head tail : list context_message) (budget : Z) : Prop :=
  (exists mid, text ms = text head ++ mid ++ text tail) /\ sum_of tokens head + sum_of tokens tail <= budget + 2 /\
  (length head <= length ms)%nat /\ (length tail <= length ms)%nat.

Lemma selectWithinBudget_spec ms maxTokens headTokens total : 0 <= maxTokens -> Forall pooled ms ->
  let s := selectWithinBudget ms maxTokens headTokens total in keeps_ends ms (s_head s) (s_tail s) maxTokens.
Proof.
  intros Hm Hp. unfold selectWithinBudget. cbv zeta. set (hb := Z.min (Z.max headTokens 0) maxTokens).
  destruct (tail_loop_spec (rev ms) (maxTokens - hb) []) as (kept & n & dropped & -> & H1 & H2 & H3 & H4 & H5 & H6 & H7);
    [lia|by apply List.Forall_rev|].
  rewrite rev_involutive, app_nil_r, length_rev in *.
  destruct (head_loop_spec (take n ms ++ option_list dropped) hb) as (I1 & [rest I2] & I3); [lia|apply Forall_app; split; [by apply Forall_take|done]|].
  cbn [s_head s_tail]. split_and!.
  - exists rest. by rewrite H2, I2, app_assoc.
  - lia.
  - rewrite length_app, length_take in I3. lia.
  - lia.
Qed.

Lemma select_unmarked_spec ms maxTokens headTokens : 0 <= maxTokens -> Forall pooled ms ->
  let s := select_unmarked ms maxTokens headTokens in keeps_ends ms (s_head s) (s_tail s) maxTokens.
Proof.
  intros Hm Hp. unfold select_unmarked. cbv zeta. destruct (Z.leb_spec (sum_of tokens ms) maxTokens); [|by apply selectWithinBudget_spec].
  cbn [s_head s_tail]. split_and!; [by exists []|change (sum_of tokens []) with 0; lia|apply Nat.le_0_l|done].
Qed.

Abbreviation marked := (List.filter hasUserKeepMarker).
Abbreviation unmarked := (List.filter (fun m => negb (hasUserKeepMarker m))).

Lemma drop_lookup_option {A} (l : list A) k : option_list (l !! k) ++ drop (S k) l = drop k l.
Proof. revert k. induction l as [|x l IH]; intros [|k]; cbn; done. Qed.

Lemma merge_pinned_spec sub U ms : forall seen started head tail,
  (seen + length (unmarked ms))%nat = U -> (length (s_head sub) <= U)%nat -> (length (s_tail sub) <= U)%nat ->
  merge_pinned_loop ms sub U seen started = (head, tail) ->
  head ++ tail ≡ₚ marked ms ++ drop seen (s_head sub) ++ drop (seen - (U - length (s_tail sub))) (s_tail sub) /\
  marked ms `sublist_of` (head ++ tail) /\ (started = true -> marked ms `sublist_of` tail).
Proof.
  induction ms as [|m ms IH]; intros seen started head tail HU Hh Ht; cbn [merge_pinned_loop List.filter].
  { intros [= <- <-]. cbn in HU. rewrite !drop_ge by lia. split_and!; done. }
  cbn [List.filter] in HU. destruct (hasUserKeepMarker m) eqn:Em; cbn [negb] in HU.
  - destruct (merge_pinned_loop ms sub U seen started) as [h t] eqn:E. apply IH in E as (I1 & I2 & I3); [|done|done|done].
    destruct started; intros [= <- <-].
    + specialize (I3 eq_refl). split_and!.
      * rewrite <- Permutation_middle. cbn [app]. by rewrite I1.
      * apply sublist_inserts_l. by apply sublist_skip.
      * intros _. by apply sublist_skip.
    + cbn [app]. split_and!; [by rewrite I1|by apply sublist_skip|done].
  - set (from := (U - length (s_tail sub))%nat) in *.
    destruct (merge_pinned_loop ms sub U (S seen) _) as [h t] eqn:E. cbn [length] in HU.
    apply IH in E as (I1 & I2 & I3); [|lia|done|done]. intros [= <- <-]. fold from in I1.
    assert (Hhead : (if (seen <? length (s_head sub))%nat then option_list (s_head sub !! seen) else []) ++ drop (S seen) (s_head sub) = drop seen (s_head sub)).
    { destruct (Nat.ltb_spec seen (length (s_head sub))); [apply drop_lookup_option|]. by rewrite !drop_ge by lia. }
    assert (Htail : (if (from <=? seen)%nat then option_list (s_tail sub !! (seen - from)%nat) else []) ++ drop (S seen - from) (s_tail sub) = drop (seen - from) (s_tail sub)).
    { destruct (Nat.leb_spec from seen); [replace (S seen - from)%nat with (S (seen - from)) by lia; apply drop_lookup_option|].
      cbn [app]. by replace (S seen - from)%nat with (seen - from)%nat by lia. }
    split_and!.
    + rewrite <- Hhead, <- Htail. match goal with |- (?a ++ _) ++ (?b ++ _) ≡ₚ _ => transitivity (a ++ b ++ (h ++ t)) end; [solve_Permutation|].
      rewrite I1. solve_Permutation.
    + destruct (started || (from <=? seen)%nat) eqn:Es.
      * apply sublist_inserts_l, sublist_inserts_l. by apply I3.
      * apply orb_false_iff in Es as [_ ->]. cbn [app]. rewrite <- app_assoc. by apply sublist_inserts_l.
    + intros ->. apply sublist_inserts_l. by apply I3.
Qed.

Lemma List_filter_sublist {A} (f : A -> bool) (l : list A) : List.filter f l `sublist_of` l.
Proof. induction l as [|x l IH]; cbn; [done|]. destruct (f x); [by apply sublist_skip|by apply sublist_cons]. Qed.

Lemma filter_split {A} (f : A -> bool) (l : list A) : l ≡ₚ List.filter f l ++ List.filter (fun x => negb (f x)) l.
Proof.
  induction l as [|x l IH]; cbn; [done|]. destruct (f x); cbn; [by rewrite <- IH|]. by rewrite <- Permutation_middle, <- IH.
Qed.

Lemma unmarked_of ms : marked ms = [] -> unmarked ms = ms.
Proof.
  intros H. apply List.forallb_filter_id, forallb_forall. intros m Hm. apply negb_true_iff.
  destruct (hasUserKeepMarker m) eqn:E; [|done]. exfalso. assert (m ∈ marked ms) as Hin by (by apply list_elem_of_In, List.filter_In).
  rewrite H in Hin. by apply not_elem_of_nil in Hin.
Qed.

(** ** Whatever cutting a message preserves holds of every selected message *)
Section closed.
Context (P : context_message -> Prop) (Hcut : forall m t, P m -> P (replaceMessageText m t)).

Lemma head_loop_closed ms : forall budget, Forall P ms -> Forall P (head_loop ms budget).
Proof.
  induction ms as [|m ms IH]; intros budget H; [done|]. apply Forall_cons in H as [Hm H]. cbn [head_loop].
  repeat case_match; [done|apply Forall_cons; split; [done|by apply IH]|]. apply Forall_singleton. by apply Hcut.
Qed.

Lemma tail_loop_closed l : forall budget acc, Forall P l -> Forall P acc ->
  Forall P (tail_loop l budget acc).1.1 /\ Forall P (option_list (tail_loop l budget acc).2).
Proof.
  induction l as [|m l IH]; intros budget acc H Ha; [done|]. apply Forall_cons in H as [Hm H]. cbn [tail_loop]. cbv zeta.
  repeat case_match; [done|apply IH; [done|by constructor]| |]; cbn [fst snd option_list]; (split; [constructor; [by apply Hcut|done]|]); [done|].
  apply Forall_singleton. by apply Hcut.
Qed.

Lemma selectWithinBudget_closed ms a b t : Forall P ms -> Forall P (s_head (selectWithinBudget ms a b t)) /\ Forall P (s_tail (selectWithinBudget ms a b t)).
Proof.
  intros H. unfold selectWithinBudget. cbv zeta. pose proof (tail_loop_closed (rev ms) (a - Z.min (Z.max b 0) a) [] (List.Forall_rev H) (Forall_nil_2 _)) as [H1 H2].
  destruct (tail_loop _ _ _) as [[tail n] dropped]. cbn in *. split; [|done]. apply head_loop_closed, Forall_app. split; [by apply Forall_take|done].
Qed.

Lemma merge_pinned_closed sub U ms : forall seen started, Forall P ms -> Forall P (s_head sub) -> Forall P (s_tail sub) ->
  Forall P (merge_pinned_loop ms sub U seen started).1 /\ Forall P (merge_pinned_loop ms sub U seen started).2.
Proof.
  assert (Hl : forall l k, Forall P l -> Forall P (option_list (l !! k))).
  { intros l k H. destruct (l !! k) eqn:E; [|done]. apply Forall_singleton. rewrite Forall_lookup in H. by eapply H. }
  induction ms as [|m ms IH]; intros seen started H Hh Ht; [done|]. apply Forall_cons in H as [Hm H]. cbn [merge_pinned_loop]. cbv zeta.
  destruct (hasUserKeepMarker m).
  - specialize (IH seen started H Hh Ht). destruct (merge_pinned_loop _ _ _ _ _) as [h t]. cbn [fst snd] in IH. destruct IH as [I1 I2].
    destruct started; cbn [fst snd]; by split; [try (by constructor)|try (by constructor)].
  - specialize (IH (S seen) (started || (U - length (s_tail sub) <=? seen)%nat) H Hh Ht). destruct (merge_pinned_loop _ _ _ _ _) as [h t].
    cbn [fst snd] in *. split; apply Forall_app; (split; [|apply IH]); case_match; by try apply Hl.
Qed.

Lemma selection_closed ms a b : Forall P ms ->
  Forall P (s_head (selectCompactionUserMessages ms a b)) /\ Forall P (s_tail (selectCompactionUserMessages ms a b)).
Proof.
  intros H. unfold selectCompactionUserMessages, mergePinnedSelection, select_unmarked. cbv zeta. case_match; [done|].
  case_bool_decide; [by apply selectWithinBudget_closed|].
  match goal with |- context [merge_pinned_loop ms ?sub ?U 0 false] => pose proof (merge_pinned_closed sub U ms 0 false H) as Hs end.
  destruct (merge_pinned_loop _ _ _ _ _) as [h t]. cbn [s_head s_tail fst snd] in *.
  assert (Forall P (unmarked ms)) as Hu by (eapply List.incl_Forall; [apply List.incl_filter|done]).
  apply Hs; case_match; try done; by apply selectWithinBudget_closed.
Qed.
End closed.

(** what a compaction keeps. User messages that fit the budget are all kept. Else
    every marked message is kept as it is, in order, and of the others the oldest and
    the newest text, within the budget the marked ones leave (two tokens more at most:
    the roles of the two messages that are cut). *)
Theorem compaction_keeps_ends ms maxTokens headTokens : 0 <= maxTokens -> Forall pooled ms ->
  let s := selectCompactionUserMessages ms maxTokens headTokens in
  (sum_of tokens ms <= maxTokens -> s = Selection [] ms false 0) /\
  marked ms `sublist_of` (s_head s ++ s_tail s) /\
  exists oldest newest mid, s_head s ++ s_tail s ≡ₚ marked ms ++ oldest ++ newest /\
    text (unmarked ms) = text oldest ++ mid ++ text newest /\
    (maxTokens < sum_of tokens ms -> sum_of tokens oldest + sum_of tokens newest <= Z.max 0 (maxTokens - sum_of tokens (marked ms)) + 2).
Proof.
  intros Hm Hp. cbv zeta. unfold selectCompactionUserMessages. cbv zeta.
  destruct (Z.leb_spec (sum_of tokens ms) maxTokens) as [Hle|Hgt].
  { split; [done|]. cbn [s_head s_tail app]. split; [apply List_filter_sublist|].
    exists [], (unmarked ms), []. split_and!; [|done|lia]. apply filter_split. }
  split; [lia|]. case_bool_decide as Hmk.
  - rewrite Hmk, (unmarked_of _ Hmk). cbn [app]. split; [apply sublist_nil_l|].
    destruct (selectWithinBudget_spec ms maxTokens headTokens (sum_of tokens ms) Hm Hp) as ([mid H1] & H2 & _).
    eexists _, _, mid. split_and!; [reflexivity|done|]. intros _. change (sum_of tokens []) with 0. lia.
  - set (budget := Z.max 0 (maxTokens - sum_of tokens (marked ms))).
    set (sub := select_unmarked _ _ _).
    assert (Hpu : Forall pooled (unmarked ms)) by (eapply List.incl_Forall; [apply List.incl_filter|done]).
    destruct (select_unmarked_spec (unmarked ms) budget (Z.min (Z.max headTokens 0) budget) (Z.le_max_l _ _) Hpu) as ([mid H1] & H2 & H3 & H4).
    fold sub in H1, H2, H3, H4. unfold mergePinnedSelection.
    destruct (merge_pinned_loop ms sub (length (unmarked ms)) 0 false) as [h t] eqn:E.
    apply merge_pinned_spec in E as (I1 & I2 & _); [|done|done|done]. cbn [s_head s_tail]. split; [done|].
    exists (s_head sub), (s_tail sub), mid. split_and!; [exact I1|done|done].
Qed.

(** * Concrete pools *)

Definition ex_text (t : string) : context_message := user_message [TextPart (js t)] (Some OUser).
Definition ex_pool : list context_message := [ex_text "aaaabbbbcccc"; ex_text "[keep] this"; ex_text "ddddeeeeffff"; ex_text "gggghhhh"].

Lemma compaction_keeps_ends_witness : 0 <= 9 /\ Forall pooled ex_pool /\
  (sum_of tokens ex_pool <= 9 -> selectCompactionUserMessages ex_pool 9 2 = Selection [] ex_pool false 0) /\
  marked ex_pool `sublist_of` (s_head (selectCompactionUserMessages ex_pool 9 2) ++ s_tail (selectCompactionUserMessages ex_pool 9 2)).
Proof.
  assert (Hp : Forall pooled ex_pool) by (by repeat constructor).
  split; [done|]. split; [exact Hp|]. destruct (compaction_keeps_ends ex_pool 9 2 ltac:(done) Hp) as (H1 & H2 & _). split; [exact H1|exact H2].
Defined.

Example selected_pool :
  let s := selectCompactionUserMessages ex_pool 9 2 in
  extractText <$> s_head s = [js "aaaabbbb"; js "[keep] this"] /\ extractText <$> s_tail s = [js "gggghhhh"] /\ omittedTokens s = 5.
Proof. vm_compute. done. Qed.

(** The two messages that are cut bring the kept tokens over the budget. *)
Example budget_overshot :
  let s := selectCompactionUserMessages [ex_text "aaaabbbb"; ex_text "ccccdddd"] 4 2 in sum_of tokens (s_head s ++ s_tail s) = 6.
Proof. vm_compute. done. Qed.

(** Marked messages alone over the budget: all are kept, and yet the selection is
    reported as elided. *)
Example nothing_elided :
  let s := selectCompactionUserMessages [ex_text "[keep] one"; ex_text "[keep] two"] 4 2 in
  s_head s ++ s_tail s = [ex_text "[keep] one"; ex_text "[keep] two"] /\ elided s = true /\ omittedTokens s = 0.
Proof. vm_compute. done. Qed.
