(* ===== verification/ContextMemory.v ===== *)
(** The conversation an agent keeps: [ContextMemory] of [agent/context/index.ts]. The
    history's messages are objects; the message of an open step grows in place while the
    history refers to it, so entries carry an identity. The calls of other components
    (records, replay, injections, tools, graduated compaction, status) are the effects of
    an operation, the records written among them. Whether a session is being restored and
    the clock are arguments. UI-only fields and logging are left out, and so is the view
    of the history a request is made from. *)

From S2P Require Import Prelude JsMap Json JsonText JsString Messages Projector Handoff.

(** * Data *)

Record token_usage : Type := TokenUsage { inputCacheRead : Z; inputCacheCreation : Z; inputOther : Z; output : Z }.

Inductive tool_output : Type := OutText (text : jsstr) | OutParts (parts : list content_part).

#[global] Instance tool_output_eq_dec : EqDecision tool_output.
Proof. solve_decision. Defined.

Inductive loop_event : Type :=
| StepBegin (uuid : jsstr)
| StepEnd (uuid : jsstr) (usage : option token_usage)
| ContentPart (stepUuid : jsstr) (part : content_part)
| ToolCallEvent (stepUuid toolCallId toolName : jsstr) (args : option json)
| ToolResultEvent (toolCallId : jsstr) (out : tool_output) (err : option bool) (side_note : option jsstr).

Record compaction_result : Type := CompactionResult {
  summary : jsstr;
  contextSummary : option jsstr;
  compactedCount : Z;
  tokensBefore : Z;
  tokensAfter : option Z;
  keptUserMessageCount : option Z;
  keptHeadUserMessageCount : option Z;
  pinnedPrefixCount : option Z;
  droppedCount : option Z;
}.

Inductive resume_repair : Type :=
| ClosedAtStepBoundary (ids : list jsstr)
| ClosedAtResumeEnd (ids : list jsstr)
| OrphanStepEventSkipped (is_call : bool) (stepUuid : jsstr)
| OrphanResultDropped (id : jsstr)
| LateResultReattached (id : jsstr).

Inductive swarm_trigger : Type := Manual | Task | ByTool.

(** The records of the conversation and of swarm mode. *)
Inductive ctx_record : Type :=
| RClear | RUpdateTokenCount (n : Z) | RUndo (count : Z) | RWithdrawTailInput | RApplyCompaction (r : compaction_result)
| RLoopEvent (e : loop_event) | RAppendMessage (m : context_message)
| RSwarmEnter (t : swarm_trigger) | RSwarmExit.

Inductive effect : Type :=
| LogRecord (r : ctx_record)
| ReplayPush (m : context_message)
| ReplayRemoveLast (removed : list context_message)
| ReplayReplace (old new : context_message)
| ReplayPatchCompaction (r : compaction_result)
| GraduatedReset (len : option Z)
| ProviderUsageRealized
| InjectionContextClear | InjectionMessageRemoved (i : nat) | InjectionContextCompacted
| ToolsContextCleared | ToolsContextCompacted
| StatusUpdated
| MarkDelivered (o : prompt_origin).

Inductive ctx_error : Type :=
| UnknownStep (is_call : bool) (stepUuid : jsstr)
| UndoLimit (requested undoable : Z) (stoppedAtCompaction : bool)
| ImportContentEmpty | ImportSourceEmpty
| ImportOverflow (importTokens currentTokens totalTokens maxContextTokens : Z).

Record entry : Type := Entry { e_id : nat; e_msg : context_message }.

Record context : Type := Context {
  entries : list entry;
  tokenCount : Z;
  coveredCount : Z;
  openSteps : list (jsstr * nat);
  pending : list jsstr;
  deferred : list context_message;
  lastAssistantAt : option Z;
  repairLog : list resume_repair;
  next_id : nat;
  effects : list effect;
}.

Definition empty_context : context := Context [] 0 0 [] [] [] None [] 0 [].

Definition history (c : context) : list context_message := e_msg <$> entries c.

Definition upd_entries (c : context) (es : list entry) : context :=
  Context es (tokenCount c) (coveredCount c) (openSteps c) (pending c) (deferred c) (lastAssistantAt c) (repairLog c) (next_id c) (effects c).
Definition upd_tokens (c : context) (count covered : Z) : context :=
  Context (entries c) count covered (openSteps c) (pending c) (deferred c) (lastAssistantAt c) (repairLog c) (next_id c) (effects c).
Definition upd_open (c : context) (o : list (jsstr * nat)) : context :=
  Context (entries c) (tokenCount c) (coveredCount c) o (pending c) (deferred c) (lastAssistantAt c) (repairLog c) (next_id c) (effects c).
Definition upd_pending (c : context) (p : list jsstr) : context :=
  Context (entries c) (tokenCount c) (coveredCount c) (openSteps c) p (deferred c) (lastAssistantAt c) (repairLog c) (next_id c) (effects c).
Definition upd_deferred (c : context) (d : list context_message) : context :=
  Context (entries c) (tokenCount c) (coveredCount c) (openSteps c) (pending c) d (lastAssistantAt c) (repairLog c) (next_id c) (effects c).
Definition emit (c : context) (es : list effect) : context :=
  Context (entries c) (tokenCount c) (coveredCount c) (openSteps c) (pending c) (deferred c) (lastAssistantAt c) (repairLog c) (next_id c) (effects c ++ es).
Definition note_repair (c : context) (r : resume_repair) : context :=
  Context (entries c) (tokenCount c) (coveredCount c) (openSteps c) (pending c) (deferred c) (lastAssistantAt c) (repairLog c ++ [r]) (next_id c) (effects c).

Definition TOOL_INTERRUPTED_ON_RESUME_OUTPUT : jsstr :=
  js "Tool execution was interrupted before its result was recorded. Do not assume the tool completed successfully.".

Definition output_parts (o : tool_output) : list content_part :=
  match o with OutText text => [TextPart text] | OutParts ps => ps end.

Section context.
(** [records.restoring]: the time of the record being replayed, and [Date.now()]. *)
Context (restoring : option Z) (now : Z).

(** [AgentRecords.logRecord]: nothing is written while a record is being restored. *)
Definition logRecord (c : context) (r : ctx_record) : context :=
  match restoring with Some _ => c | None => emit c [LogRecord r] end.

(** * Appending *)

Definition push_one (c : context) (m : context_message) : context :=
  Context (entries c ++ [Entry (next_id c) m]) (tokenCount c) (coveredCount c) (openSteps c) (pending c) (deferred c)
    (if is_assistant (base m) then Some (default now restoring) else lastAssistantAt c)
    (repairLog c) (S (next_id c))
    (effects c ++ (match origin m with Some (OBackgroundTask a b d) => [MarkDelivered (OBackgroundTask a b d)] | _ => [] end) ++ [ReplayPush m]).

Definition pushHistory (c : context) (ms : list context_message) : context := fold_left push_one ms c.

Definition hasOpenToolExchange (c : context) : bool := negb (bool_decide (pending c = [])).

Definition appendMessage (c : context) (m : context_message) : context :=
  let c := logRecord c (RAppendMessage m) in
  if hasOpenToolExchange c then upd_deferred c (deferred c ++ [m]) else pushHistory c [m].

Definition flushDeferredMessagesIfToolExchangeClosed (c : context) : context :=
  if negb (bool_decide (pending c = [])) || bool_decide (deferred c = []) then c
  else upd_deferred (pushHistory c (deferred c)) [].

(** * Events of the loop *)

Definition find_entry (c : context) (p : context_message -> bool) : option nat :=
  fst <$> list_find (fun e => p (e_msg e) = true) (entries c).

Definition is_placeholder (id : jsstr) (m : context_message) : bool :=
  is_tool (base m) && bool_decide (toolCallId (base m) = Some id) && bool_decide (isError m = Some true) &&
  bool_decide (content (base m) = [TextPart TOOL_INTERRUPTED_ON_RESUME_OUTPUT]).

Definition result_message (id : jsstr) (out : tool_output) (err : option bool) (side_note : option jsstr) : context_message :=
  ContextMessage (createToolMessage id (output_parts out)) None err side_note.

Definition recoverLateToolResult (c : context) (id : jsstr) (out : tool_output) (err : option bool) (side_note : option jsstr) : context :=
  match find_entry c (is_placeholder id), bool_decide (out = OutText TOOL_INTERRUPTED_ON_RESUME_OUTPUT) with
  | Some i, false =>
      match entries c !! i with
      | Some placeholder =>
          let settled := result_message id out err side_note in
          let c := upd_entries c (<[i := Entry (next_id c) settled]> (entries c)) in
          let c := Context (entries c) (tokenCount c) (coveredCount c) (openSteps c) (pending c) (deferred c) (lastAssistantAt c) (repairLog c) (S (next_id c)) (effects c) in
          note_repair (emit c [ReplayReplace (e_msg placeholder) settled]) (LateResultReattached id)
      | None => c
      end
  | _, _ => note_repair c (OrphanResultDropped id)
  end.

(** The [tool.result] case of [appendLoopEvent], after the record. *)
Definition toolResult (c : context) (id : jsstr) (out : tool_output) (err : option bool) (side_note : option jsstr) : context :=
  if negb (bool_decide (id ∈ pending c)) then
    match restoring with Some _ => recoverLateToolResult c id out err side_note | None => c end
  else
    let c := pushHistory c [result_message id out err side_note] in
    flushDeferredMessagesIfToolExchangeClosed (upd_pending c (set_delete id (pending c))).

(** [appendLoopEvent] of the result that closes a call. *)
Definition close_one (text : jsstr) (c : context) (id : jsstr) : context :=
  toolResult (logRecord c (RLoopEvent (ToolResultEvent id (OutText text) (Some true) None))) id (OutText text) (Some true) None.

Definition closePendingToolResults (c : context) (text : jsstr) : context * list jsstr :=
  (fold_left (close_one text) (pending c) c, pending c).

Definition grow (c : context) (id : nat) (f : message -> message) : context :=
  upd_entries c ((fun e => if bool_decide (e_id e = id) then Entry id (with_base (e_msg e) (f (base (e_msg e)))) else e) <$> entries c).

Definition add_part (p : content_part) (m : message) : message := with_content m (content m ++ [p]).
Definition add_call (t : tool_call) (m : message) : message := with_calls m (toolCalls m ++ [t]).

Definition stepEnd (c : context) (uuid : jsstr) (usage : option token_usage) : context :=
  let openStep := jget (openSteps c) uuid in
  let c := upd_open c (jdel (openSteps c) uuid) in
  let c :=
    match usage with
    | None => c
    | Some u =>
        let covered :=
          match openStep ≫= (fun id => fst <$> list_find (fun e => e_id e = id) (entries c)) with
          | None => blen (entries c)
          | Some i => Z.of_nat i + 1
          end in
        let totalUsage := inputCacheRead u + inputCacheCreation u + inputOther u + output u in
        if 0 <? totalUsage then emit (upd_tokens c totalUsage covered) [ProviderUsageRealized]
        else upd_tokens c (tokenCount c + estimateTokensForMessages (base <$> sub (history c) (coveredCount c) covered)) covered
    end in
  flushDeferredMessagesIfToolExchangeClosed c.

Definition orphan_step (c : context) (is_call : bool) (stepUuid : jsstr) : context * option ctx_error :=
  match restoring with
  | Some _ => (note_repair c (OrphanStepEventSkipped is_call stepUuid), None)
  | None => (c, Some (UnknownStep is_call stepUuid))
  end.

Definition step_message : context_message := ContextMessage (Message Assistant None [] [] None false None) None None None.

Definition appendLoopEvent (c : context) (e : loop_event) : context * option ctx_error :=
  let c := logRecord c (RLoopEvent e) in
  match e with
  | StepBegin uuid =>
      let '(c, closed) := closePendingToolResults c TOOL_INTERRUPTED_ON_RESUME_OUTPUT in
      let c := match closed, restoring with
               | _ :: _, Some _ => note_repair c (ClosedAtStepBoundary closed)
               | _, _ => c
               end in
      let id := next_id c in
      let c := pushHistory c [step_message] in
      (upd_open c (jset (openSteps c) uuid id), None)
  | StepEnd uuid usage => (stepEnd c uuid usage, None)
  | ContentPart stepUuid part =>
      match jget (openSteps c) stepUuid with
      | None => orphan_step c false stepUuid
      | Some id => (grow c id (add_part part), None)
      end
  | ToolCallEvent stepUuid id toolName args =>
      match jget (openSteps c) stepUuid with
      | None => orphan_step c true stepUuid
      | Some step =>
          let c := grow c step (add_call (ToolCall id toolName (JSON_stringify <$> args))) in
          (upd_pending c (if bool_decide (id ∈ pending c) then pending c else pending c ++ [id]), None)
      end
  | ToolResultEvent id out err side_note => (toolResult c id out err side_note, None)
  end.

Definition closeAbandonedToolExchange (c : context) (text : jsstr) : context * Z :=
  let '(c, closed) := closePendingToolResults c text in (c, blen closed).

Definition finishResume (c : context) : context * list jsstr :=
  let '(c, closed) := closePendingToolResults (upd_open c []) TOOL_INTERRUPTED_ON_RESUME_OUTPUT in
  (match closed with _ :: _ => note_repair c (ClosedAtResumeEnd closed) | [] => c end, closed).

(** * Messages of the user and the harness *)

Definition CAPTION_OPENING : jsstr := js "<system>Image compressed to fit model limits:".

(** The captions of a text and the text without them. *)
Fixpoint extract_captions (fuel : nat) (text : jsstr) : list jsstr * jsstr :=
  match fuel with
  | O => ([], text)
  | S fuel =>
      match break_str CAPTION_OPENING text with
      | None => ([], text)
      | Some (before, rest) =>
          match break_str (js "</system>") rest with
          | None => ([], text)
          | Some (body, after) =>
              let '(captions, remainder) := extract_captions fuel after in
              ((js "Image compressed to fit model limits:" ++ body) :: captions, before ++ remainder)
          end
      end
  end.
Definition extractImageCompressionCaptions (text : jsstr) : list jsstr * jsstr := extract_captions (length text) text.

Definition splitImageCompressionCaptions (ps : list content_part) : list jsstr * list content_part :=
  fold_left (fun acc p =>
    match p with
    | TextPart text =>
        let '(found, remainder) := extractImageCompressionCaptions text in
        match found with
        | [] => (acc.1, acc.2 ++ [p])
        | _ => (acc.1 ++ found, if bool_decide (trim remainder = []) then acc.2 else acc.2 ++ [TextPart remainder])
        end
    | _ => (acc.1, acc.2 ++ [p])
    end) ps ([], []).

Definition appendSystemReminder (c : context) (text : jsstr) (o : prompt_origin) : context :=
  appendMessage c (user_message [TextPart (js "<system-reminder>" ++ [10]%N ++ trim text ++ [10]%N ++ js "</system-reminder>")] (Some o)).

Definition appendUserMessage (c : context) (ps : list content_part) (o : prompt_origin) : context :=
  if bool_decide (ps = []) then c
  else
    let '(captions, parts) := if bool_decide (o = OUser) then splitImageCompressionCaptions ps else ([], ps) in
    let c := fold_left (fun c caption => appendSystemReminder c caption (OInjection (js "image_compression"))) captions c in
    if bool_decide (parts = []) then c else appendMessage c (user_message parts (Some o)).

Definition replace_unit (u : N) (by_ : jsstr) (s : jsstr) : jsstr := concat ((fun v => if (v =? u)%N then by_ else [v]) <$> s).

Definition escapeXml (s : jsstr) : jsstr :=
  replace_unit 34 (js "&quot;") (replace_unit 62 (js "&gt;") (replace_unit 60 (js "&lt;") (replace_unit 38 (js "&amp;") s))).
Definition escapeXmlAttr (s : jsstr) : jsstr := replace_unit 34 (js "&quot;") (replace_unit 38 (js "&amp;") s).

Definition appendLocalCommandStdout (c : context) (text : jsstr) : context :=
  appendMessage c (user_message
    [TextPart (js "<local-command-stdout>" ++ [10]%N ++ trim text ++ [10]%N ++ js "</local-command-stdout>")]
    (Some (OInjection (js "local-command-stdout")))).

Definition appendBashInput (c : context) (command : jsstr) : context :=
  appendMessage c (user_message [TextPart (js "<bash-input>" ++ [10]%N ++ escapeXml command ++ [10]%N ++ js "</bash-input>")]
    (Some (OShellCommand false false))).

Definition appendBashOutput (c : context) (stdout stderr : jsstr) (err : option bool) : context :=
  appendMessage c (user_message
    [TextPart (js "<bash-stdout>" ++ escapeXml stdout ++ js "</bash-stdout><bash-stderr>" ++ escapeXml stderr ++ js "</bash-stderr>")]
    (Some (OShellCommand true (bool_decide (err = Some true))))).

(** * Removing and rewriting *)

Definition popMatchedMessage (c : context) (matcher : option prompt_origin -> bool) : context * bool :=
  match last (deferred c) with
  | Some m => if matcher (origin m) then (upd_deferred c (removelast (deferred c)), true) else (c, false)
  | None =>
      match last (entries c) with
      | Some e => if matcher (origin (e_msg e)) then (upd_entries c (removelast (entries c)), true) else (c, false)
      | None => (c, false)
      end
  end.

Definition clear (c : context) : context :=
  let c := logRecord c RClear in
  let c := Context [] 0 0 [] [] [] None (repairLog c) (next_id c) (effects c) in
  emit c [GraduatedReset None; InjectionContextClear; ToolsContextCleared; StatusUpdated].

Definition tokenCountWithPending (c : context) : Z :=
  tokenCount c + estimateTokensForMessages (base <$> drop (Z.to_nat (coveredCount c)) (history c)).

Definition updateTokenCount (c : context) (n : Z) : context :=
  emit (upd_tokens (logRecord c (RUpdateTokenCount n)) n (blen (entries c))) [StatusUpdated].

Definition IMPORT_CONTEXT_GUIDANCE : jsstr :=
  js "This is a prior conversation history that may be relevant to the current session. Please review this context and use it to inform your responses.".

Definition import_message (text source : jsstr) : context_message :=
  user_message
    [TextPart (js "<system>The user has imported context from " ++ escapeXml source ++ js ". " ++ IMPORT_CONTEXT_GUIDANCE ++ js "</system>");
     TextPart (js "<imported_context source=" ++ [34]%N ++ escapeXmlAttr source ++ [34]%N ++ js ">" ++ [10]%N ++ text ++ [10]%N ++ js "</imported_context>")]
    (Some OUser).

(** [maxContextTokens] is the model's limit on input, 0 when it has none. *)
Definition importContext (maxContextTokens : Z) (c : context) (text source : jsstr) : context * option ctx_error :=
  if bool_decide (trim text = []) then (c, Some ImportContentEmpty)
  else
    let normalizedSource := trim source in
    if bool_decide (normalizedSource = []) then (c, Some ImportSourceEmpty)
    else
      let m := import_message text normalizedSource in
      let importTokenCount := estimateTokensForMessages [base m] in
      let totalTokenCount := tokenCountWithPending c + importTokenCount in
      if (0 <? maxContextTokens) && (maxContextTokens <? totalTokenCount)
      then (c, Some (ImportOverflow importTokenCount (tokenCountWithPending c) totalTokenCount maxContextTokens))
      else (updateTokenCount (appendMessage c m) totalTokenCount, None).

(** The loop of [undo], over the entries from the newest. *)
Record undone : Type := Undone {
  u_kept : list entry;
  u_removed : list entry;
  u_at : list nat;
  u_users : Z;
  u_stopped : bool;
  u_count : Z;
  u_covered : Z;
}.

Definition is_injection (m : context_message) : bool := match origin m with Some (OInjection _) => true | _ => false end.

Fixpoint undo_loop (newest_first : list entry) (count users tok covered : Z) : undone :=
  match newest_first with
  | [] => Undone [] [] [] users false tok covered
  | e :: older =>
      if is_injection (e_msg e) then
        let r := undo_loop older count users tok covered in
        Undone (e :: u_kept r) (u_removed r) (u_at r) (u_users r) (u_stopped r) (u_count r) (u_covered r)
      else if isCompactionSummaryMessage (e_msg e) then Undone (e :: older) [] [] users true tok covered
      else
        let i := length older in
        let '(tok, covered) :=
          if Z.of_nat i <? covered then (tok - estimateTokensForMessages [base (e_msg e)], covered - 1) else (tok, covered) in
        let users' := if isRealUserInput (e_msg e) then users + 1 else users in
        let r := if isRealUserInput (e_msg e) && (count <=? users') then Undone older [] [] users' false tok covered
                 else undo_loop older count users' tok covered in
        Undone (u_kept r) (e :: u_removed r) (i :: u_at r) (u_users r) (u_stopped r) (u_count r) (u_covered r)
  end.

Definition undo (c : context) (count : Z) : context * option ctx_error :=
  if (count <=? 0) || bool_decide (entries c = []) then (c, None)
  else
    let c := logRecord c (RUndo count) in
    let r := undo_loop (rev (entries c)) count 0 (tokenCount c) (coveredCount c) in
    let c := Context (rev (u_kept r)) (u_count r) (u_covered r) [] [] [] (lastAssistantAt c) (repairLog c) (next_id c) (effects c) in
    let c := emit c ((InjectionMessageRemoved <$> u_at r) ++
                     [ReplayRemoveLast (e_msg <$> u_removed r); GraduatedReset (Some (blen (entries c))); StatusUpdated]) in
    (c, match restoring with
        | None => if u_stopped r || (u_users r <? count) then Some (UndoLimit count (u_users r) (u_stopped r)) else None
        | Some _ => None
        end).

(** The newest message that is not an injection, with the entries before and after it
    (after it, from the newest). *)
Fixpoint tail_input (newest_first : list entry) : option (list entry * entry * list entry) :=
  match newest_first with
  | [] => None
  | e :: older =>
      if is_injection (e_msg e) then
        match tail_input older with
        | Some (newer, x, rest) => Some (e :: newer, x, rest)
        | None => None
        end
      else Some ([], e, older)
  end.

Definition withdrawUnansweredTailInput (c : context) : context * bool :=
  match tail_input (rev (entries c)) with
  | None => (c, false)
  | Some (newer, e, older) =>
      if negb (isRealUserInput (e_msg e)) then (c, false)
      else
        let c := logRecord c RWithdrawTailInput in
        let i := length older in
        let c := upd_entries c (rev older ++ rev newer) in
        let c := emit c [InjectionMessageRemoved i] in
        let c := if Z.of_nat i <? coveredCount c
                 then upd_tokens c (tokenCount c - estimateTokensForMessages [base (e_msg e)]) (coveredCount c - 1) else c in
        (emit c [ReplayRemoveLast [e_msg e]; GraduatedReset (Some (blen (entries c))); StatusUpdated], true)
  end.

Record compaction_input : Type := CompactionInput {
  i_summary : jsstr;
  i_contextSummary : option jsstr;
  i_compactedCount : Z;
  i_tokensBefore : Z;
  i_tokensAfter : option Z;
  i_keptUserMessageCount : option Z;
  i_keptHeadUserMessageCount : option Z;
  i_pinnedPrefixCount : option Z;
  i_droppedCount : option Z;
}.

Definition is_restoring : bool := match restoring with Some _ => true | None => false end.

Definition restoreTailOnly (i : compaction_input) : bool :=
  is_restoring && bool_decide (i_keptHeadUserMessageCount i = None) && bool_decide (i_pinnedPrefixCount i = None).

Definition compaction_selection (i : compaction_input) (pool : list context_message) : selection :=
  let users := collectCompactableUserMessages pool in
  if restoreTailOnly i then Selection [] (selectRecentUserMessages users COMPACT_USER_MESSAGE_MAX_TOKENS) false 0
  else selectCompactionUserMessages users COMPACT_USER_MESSAGE_MAX_TOKENS COMPACT_USER_MESSAGE_HEAD_TOKENS.

Definition elision_message (s : selection) : list context_message :=
  if elided s then [user_message [TextPart (buildCompactionElisionText (omittedTokens s))] (Some (OInjection COMPACTION_ELISION_VARIANT))] else [].

(** The messages without an identity of their own get a new one: the open steps that
    could refer to one are forgotten. *)
Fixpoint fresh (id : nat) (ms : list context_message) : list entry :=
  match ms with [] => [] | m :: ms' => Entry id m :: fresh (S id) ms' end.

(** How much of the history is carried over, the messages selected after it, and the
    result. *)
Definition pinned_prefix (c : context) (i : compaction_input) : Z :=
  if restoreTailOnly i then 0 else default (Z.of_nat (pinnedDigestPrefixLength (history c))) (i_pinnedPrefixCount i).

Definition selection_of (c : context) (i : compaction_input) : selection :=
  compaction_selection i (slice_from (history c) (pinned_prefix c i)).

Definition selected (s : selection) : list context_message := s_head s ++ elision_message s ++ s_tail s.

Definition context_summary (i : compaction_input) : jsstr := default (i_summary i) (i_contextSummary i).

Definition result_of (c : context) (i : compaction_input) : compaction_result :=
  let s := selection_of c i in
  let keptMessages := slice_to (history c) (pinned_prefix c i) ++ selected s in
  CompactionResult (i_summary i) (Some (context_summary i)) (i_compactedCount i) (i_tokensBefore i)
    (Some (default (estimateTokens (context_summary i) + estimateTokensForMessages (base <$> keptMessages)) (i_tokensAfter i)))
    (Some (default (blen (s_head s) + blen (s_tail s)) (i_keptUserMessageCount i)))
    (match i_keptHeadUserMessageCount i with Some n => Some n | None => if elided s then Some (blen (s_head s)) else None end)
    (match i_pinnedPrefixCount i with Some n => Some n | None => if restoreTailOnly i then None else Some (pinned_prefix c i) end)
    (i_droppedCount i).

Definition isLegacyRestore (c : context) (i : compaction_input) : bool :=
  is_restoring && bool_decide (i_keptUserMessageCount i = None) && (i_compactedCount i <? blen (entries c)).

Definition compacted (c : context) (i : compaction_input) : list entry :=
  let summaryMessage := user_message [TextPart (context_summary i)] (Some OCompactionSummary) in
  if isLegacyRestore c i then Entry (next_id c) summaryMessage :: slice_from (entries c) (i_compactedCount i)
  else slice_to (entries c) (pinned_prefix c i) ++ fresh (next_id c) (selected (selection_of c i) ++ [summaryMessage]).

Definition applyCompaction (c : context) (i : compaction_input) : context * compaction_result :=
  let r := result_of c i in
  let es := compacted c i in
  let used := (length (selected (selection_of c i)) + 1)%nat in
  let c := emit (logRecord c (RApplyCompaction r)) [ReplayPatchCompaction r] in
  let c := Context es (default 0 (tokensAfter r)) (blen es) [] [] [] (lastAssistantAt c) (repairLog c) (next_id c + used)%nat (effects c) in
  (emit c [GraduatedReset None; InjectionContextCompacted; ToolsContextCompacted; StatusUpdated], r).

(** * Forking, resuming *)

(** [projected] is the parent's history, projected. *)
Definition useProjectedHistoryFrom (c : context) (projected : list message) : context :=
  pushHistory (clear c) ((fun m => ContextMessage m None None None) <$> trimTrailingOpenToolExchange projected).

Definition RESUME_CONTINUATION_VARIANT : jsstr := js "resume_continuation".

(** Over the messages from the newest. *)
Fixpoint unanswered_tail (newest_first : list context_message) : bool :=
  match newest_first with
  | [] => false
  | m :: older =>
      match origin m with
      | Some (OInjection variant) => if bool_decide (variant = RESUME_CONTINUATION_VARIANT) then false else unanswered_tail older
      | Some (OBackgroundTask _ _ _) | Some (OCronJob _ _ _ _ _) | Some (OCronMissed _) | Some (OMailbox _ _ _) | Some (OSystemTrigger _) =>
          unanswered_tail older
      | Some OCompactionSummary => false
      | _ => isRealUserInput m
      end
  end.

Definition hasUnansweredTailPrompt (c : context) : bool := unanswered_tail (rev (history c)).

Inductive audit_finding : Type :=
| ToolCallWithoutResult (id : jsstr) | ToolResultWithoutCall (id : jsstr) | StrandedDeferredMessages (count : Z).

(** The set of open calls in insertion order, and the findings on the way. *)
Fixpoint audit_loop (ms : list context_message) (openCalls : list jsstr) : list jsstr * list audit_finding :=
  match ms with
  | [] => (openCalls, [])
  | m :: ms' =>
      if is_assistant (base m) then
        audit_loop ms' (fold_left (fun s id => if bool_decide (id ∈ s) then s else s ++ [id]) (call_ids (base m)) openCalls)
      else if negb (is_tool (base m)) then audit_loop ms' openCalls
      else match toolCallId (base m) with
           | None => audit_loop ms' openCalls
           | Some id =>
               if bool_decide (id ∈ openCalls) then audit_loop ms' (set_delete id openCalls)
               else let '(o, f) := audit_loop ms' openCalls in (o, ToolResultWithoutCall id :: f)
           end
  end.

Definition auditAfterResume (c : context) : list audit_finding :=
  let '(openCalls, findings) := audit_loop (history c) [] in
  findings ++ (ToolCallWithoutResult <$> openCalls) ++
  (if bool_decide (deferred c = []) then [] else [StrandedDeferredMessages (blen (deferred c))]).
End context.
