(* ===== verification/Records.v ===== *)
(** The record log of an agent, as far as it concerns the conversation and swarm mode:
    [records/index.ts] with [swarm/index.ts]. A live operation writes records; restoring
    a session applies them one by one to an empty conversation. The theorem is that this
    rebuilds the conversation. *)

From S2P Require Import Prelude JsMap Json JsonText JsString Messages Projector Handoff ContextMemory.

(** * What replay preserves *)

(** Everything but the times, the repair ledger and the effects. *)
Record same (c d : context) : Prop := Same {
  same_entries : entries c = entries d;
  same_tokens : tokenCount c = tokenCount d;
  same_covered : coveredCount c = coveredCount d;
  same_open : openSteps c = openSteps d;
  same_pending : pending c = pending d;
  same_deferred : deferred c = deferred d;
  same_next : next_id c = next_id d;
}.

#[export] Instance same_equivalence : Equivalence same.
Proof.
  split.
  - by intros c.
  - by intros c d [].
  - intros c d e [] []. split; congruence.
Qed.

Ltac same_cbn H :=
  idtac;
  destruct H as [?E ?E ?E ?E ?E ?E ?E];
  repeat match goal with c : ContextMemory.context |- _ => destruct c end; cbn in *; subst.

#[export] Instance emit_proper : Proper (same ==> (=) ==> same) emit.
Proof. intros c d H es ? <-. by same_cbn H. Qed.

Lemma emit_same c es : same (emit c es) c.
Proof. by destruct c. Qed.

Lemma logRecord_same r c x : same (logRecord r c x) c.
Proof. by destruct r, c. Qed.

Lemma note_repair_same c x : same (note_repair c x) c.
Proof. by destruct c. Qed.

(** The records among the effects. *)
Definition record_of (e : effect) : option ctx_record := match e with LogRecord r => Some r | _ => None end.
Definition log (c : context) : list ctx_record := omap record_of (effects c).

Ltac same_solve H := same_cbn H; done.

Section congruence.
Context (r r' : option Z) (n n' : Z).

Lemma push_one_same c d m : same c d -> same (push_one r n c m) (push_one r' n' d m).
Proof. intros H. same_solve H. Qed.

Lemma pushHistory_same ms : forall c d, same c d -> same (pushHistory r n c ms) (pushHistory r' n' d ms).
Proof. induction ms as [|m ms IH]; intros c d H; [done|]. by apply IH, push_one_same. Qed.

Lemma upd_deferred_same c d l : same c d -> same (upd_deferred c l) (upd_deferred d l).
Proof. intros H. same_solve H. Qed.

Lemma upd_pending_same c d l : same c d -> same (upd_pending c l) (upd_pending d l).
Proof. intros H. same_solve H. Qed.

Lemma upd_open_same c d l : same c d -> same (upd_open c l) (upd_open d l).
Proof. intros H. same_solve H. Qed.

Lemma upd_tokens_same c d a b : same c d -> same (upd_tokens c a b) (upd_tokens d a b).
Proof. intros H. same_solve H. Qed.

Lemma upd_entries_same c d l : same c d -> same (upd_entries c l) (upd_entries d l).
Proof. intros H. same_solve H. Qed.

Lemma flush_same c d : same c d -> same (flushDeferredMessagesIfToolExchangeClosed r n c) (flushDeferredMessagesIfToolExchangeClosed r' n' d).
Proof.
  intros H. unfold flushDeferredMessagesIfToolExchangeClosed.
  rewrite <- (same_pending _ _ H), <- (same_deferred _ _ H). case_match; [done|].
  by apply upd_deferred_same, pushHistory_same.
Qed.

Lemma grow_same c d id f : same c d -> same (grow c id f) (grow d id f).
Proof. intros H. same_solve H. Qed.

Lemma toolResult_same c d id out err sn : same c d -> id ∈ pending c ->
  same (toolResult r n c id out err sn) (toolResult r' n' d id out err sn).
Proof.
  intros H Hp. unfold toolResult. rewrite <- (same_pending _ _ H), !bool_decide_eq_true_2 by done. cbn [negb].
  apply flush_same. pose proof (pushHistory_same [result_message id out err sn] c d H) as Hh.
  rewrite (same_pending _ _ Hh). by apply upd_pending_same.
Qed.

Lemma stepEnd_same c d uuid u : same c d -> same (stepEnd r n c uuid u) (stepEnd r' n' d uuid u).
Proof.
  intros H. unfold stepEnd. apply flush_same. rewrite (same_open _ _ H).
  destruct u as [u|]; [|by apply upd_open_same]. destruct (jget (openSteps d) uuid); cbn [mbind option_bind].
  all: same_cbn H; repeat case_match; done.
Qed.

Lemma pop_same c d f : same c d -> same (popMatchedMessage c f).1 (popMatchedMessage d f).1 /\ (popMatchedMessage c f).2 = (popMatchedMessage d f).2.
Proof. intros H. unfold popMatchedMessage. same_cbn H. repeat case_match; done. Qed.

Lemma logRecord_congr c d x y : same c d -> same (logRecord r c x) (logRecord r' d y).
Proof. intros H. by rewrite !logRecord_same. Qed.

Lemma appendMessage_same c d m : same c d -> same (appendMessage r n c m) (appendMessage r' n' d m).
Proof.
  intros H. unfold appendMessage, hasOpenToolExchange.
  pose proof (logRecord_congr c d (RAppendMessage m) (RAppendMessage m) H) as H'. rewrite (same_pending _ _ H').
  case_match; [rewrite (same_deferred _ _ H'); by apply upd_deferred_same|]. by apply pushHistory_same.
Qed.

Lemma clear_same c d : same c d -> same (clear r c) (clear r' d).
Proof. intros H. unfold clear. apply emit_proper; [|done]. pose proof (logRecord_congr c d RClear RClear H). by split; cbn; [..|apply same_next]. Qed.

Lemma updateTokenCount_same c d k : same c d -> same (updateTokenCount r c k) (updateTokenCount r' d k).
Proof.
  intros H. unfold updateTokenCount. rewrite (same_entries _ _ H). apply emit_proper; [|done]. by apply upd_tokens_same, logRecord_congr.
Qed.

Lemma undo_same c d k : same c d -> same (undo r c k).1 (undo r' d k).1.
Proof.
  intros H. unfold undo. rewrite (same_entries _ _ H). case_match; [done|]. cbv zeta. cbn [fst].
  pose proof (logRecord_congr c d (RUndo k) (RUndo k) H) as H'.
  rewrite (same_entries _ _ H'), (same_tokens _ _ H'), (same_covered _ _ H').
  rewrite !emit_same. by split; cbn; [..|apply same_next].
Qed.

Lemma withdraw_same c d : same c d -> same (withdrawUnansweredTailInput r c).1 (withdrawUnansweredTailInput r' d).1.
Proof.
  intros H. unfold withdrawUnansweredTailInput. rewrite (same_entries _ _ H).
  destruct (tail_input (rev (entries d))) as [[[newer e] older]|]; [|done]. case_match; [done|]. cbv zeta. cbn [fst].
  rewrite !emit_same. destruct r, r'; same_cbn H; repeat case_match; done.
Qed.
End congruence.

(** A compaction and its record give the same conversation. *)
Definition input_of (x : compaction_result) : compaction_input :=
  CompactionInput (summary x) (contextSummary x) (compactedCount x) (tokensBefore x) (tokensAfter x)
    (keptUserMessageCount x) (keptHeadUserMessageCount x) (pinnedPrefixCount x) (droppedCount x).

Lemma bool_decide_some {A} (z : A) {D : Decision (Some z = None)} : bool_decide (Some z = None) = false.
Proof. by apply bool_decide_eq_false_2. Qed.

Section compaction.
Context (c d : context) (i : compaction_input) (t : Z) (H : same c d).
Let x := result_of None c i.

Lemma replayed_prefix : pinned_prefix (Some t) d (input_of x) = pinned_prefix None c i.
Proof.
  unfold pinned_prefix, restoreTailOnly. cbn [is_restoring andb input_of i_pinnedPrefixCount x result_of pinnedPrefixCount].
  change (restoreTailOnly None i) with false.
  destruct (i_pinnedPrefixCount i) eqn:E; rewrite bool_decide_some, andb_false_r; [done|]. cbn. unfold pinned_prefix. by rewrite E.
Qed.

Lemma replayed_selection : selection_of (Some t) d (input_of x) = selection_of None c i.
Proof.
  unfold selection_of, compaction_selection. rewrite replayed_prefix. unfold history. rewrite <- (same_entries _ _ H).
  assert (restoreTailOnly (Some t) (input_of x) = false) as ->; [|done].
  unfold restoreTailOnly. apply andb_false_iff. right. apply bool_decide_eq_false_2.
  cbn [input_of i_pinnedPrefixCount x result_of pinnedPrefixCount]. change (restoreTailOnly None i) with false. by destruct (i_pinnedPrefixCount i).
Qed.

Lemma compaction_same : same (applyCompaction None c i).1 (applyCompaction (Some t) d (input_of x)).1.
Proof.
  unfold applyCompaction. cbv zeta. cbn [fst]. rewrite !emit_same.
  assert (compacted (Some t) d (input_of x) = compacted None c i) as ->.
  { unfold compacted, isLegacyRestore. cbn [is_restoring andb].
    rewrite replayed_prefix, replayed_selection, (same_entries _ _ H), (same_next _ _ H).
    cbn [input_of i_keptUserMessageCount keptUserMessageCount x result_of]. by rewrite bool_decide_some. }
  rewrite replayed_selection. split; cbn [entries tokenCount coveredCount openSteps ContextMemory.pending deferred next_id]; try done.
  cbn. by rewrite (same_next _ _ H).
Qed.
End compaction.

(** * What is written *)

Lemma log_emit c es : log (emit c es) = log c ++ omap record_of es.
Proof. unfold log. cbn. by rewrite omap_app. Qed.

Lemma log_effects c d : effects c = effects d -> log c = log d.
Proof. intros H. unfold log. by rewrite H. Qed.

Lemma log_record c x : log (logRecord None c x) = log c ++ [x].
Proof. cbn [logRecord]. by rewrite log_emit. Qed.

Section log.
Context (n : Z).

Lemma log_push ms : forall c, log (pushHistory None n c ms) = log c.
Proof.
  induction ms as [|m ms IH]; intros c; [done|]. change (pushHistory None n c (m :: ms)) with (pushHistory None n (push_one None n c m) ms).
  rewrite IH. unfold log. cbn. rewrite !omap_app. destruct (origin m) as [[]|]; cbn; by rewrite app_nil_r.
Qed.

Lemma log_flush c : log (flushDeferredMessagesIfToolExchangeClosed None n c) = log c.
Proof. unfold flushDeferredMessagesIfToolExchangeClosed. case_match; [done|]. change (log (pushHistory None n c (deferred c)) = log c). apply log_push. Qed.

Lemma log_toolResult c id out err sn : log (toolResult None n c id out err sn) = log c.
Proof. unfold toolResult. case_match; [done|]. rewrite log_flush. change (log (pushHistory None n c [result_message id out err sn]) = log c). apply log_push. Qed.

Lemma log_stepEnd c uuid u : log (stepEnd None n c uuid u) = log c.
Proof.
  unfold stepEnd. rewrite log_flush. destruct u; [|done]. cbv zeta. case_match; [|done]. rewrite log_emit. cbn. by rewrite app_nil_r.
Qed.

Lemma log_append c m : log (appendMessage None n c m) = log c ++ [RAppendMessage m].
Proof.
  unfold appendMessage. cbv zeta. case_match; [|by rewrite log_push, log_record].
  rewrite <- log_record. by apply log_effects.
Qed.
End log.

Lemma pending_push r n ms : forall c, pending (pushHistory r n c ms) = pending c.
Proof. induction ms as [|m ms IH]; intros c; [done|]. by apply (IH (push_one r n c m)). Qed.

Lemma pending_flush r n c : pending (flushDeferredMessagesIfToolExchangeClosed r n c) = pending c.
Proof. unfold flushDeferredMessagesIfToolExchangeClosed. case_match; [done|]. apply pending_push. Qed.

Lemma pending_logRecord r c x : pending (logRecord r c x) = pending c.
Proof. by destruct r. Qed.

Lemma pending_result r n c id out err sn : id ∈ pending c -> pending (toolResult r n c id out err sn) = set_delete id (pending c).
Proof.
  intros H. unfold toolResult. rewrite bool_decide_eq_true_2 by done. cbn [negb]. rewrite pending_flush. cbn [upd_pending pending].
  by rewrite pending_push.
Qed.

Lemma pending_append r n c m : pending (appendMessage r n c m) = pending c.
Proof.
  unfold appendMessage. cbv zeta. case_match; cbn [upd_deferred pending]; [by rewrite pending_logRecord|].
  by rewrite pending_push, pending_logRecord.
Qed.

Lemma pending_stepEnd r n c uuid u : pending (stepEnd r n c uuid u) = pending c.
Proof. unfold stepEnd. rewrite pending_flush. repeat case_match; done. Qed.

Lemma set_delete_NoDup id l : NoDup l -> NoDup (set_delete id l).
Proof. intros H. eapply sublist_NoDup; [exact H|]. apply List_filter_sublist. Qed.

Lemma set_delete_out id l : id ∉ l -> set_delete id l = l.
Proof.
  intros H. unfold set_delete. apply List.forallb_filter_id, forallb_forall. intros x Hx%list_elem_of_In.
  apply negb_true_iff, bool_decide_eq_false_2. by intros ->.
Qed.

(** * Closing the open calls *)

Definition closing (text id : jsstr) : ctx_record := RLoopEvent (ToolResultEvent id (OutText text) (Some true) None).

Lemma log_close n text l : forall c, log (fold_left (close_one None n text) l c) = log c ++ (closing text <$> l).
Proof.
  induction l as [|id l IH]; intros c; cbn [fold_left]; [by rewrite app_nil_r|].
  rewrite IH. unfold close_one. by rewrite log_toolResult, log_record, <- app_assoc.
Qed.

Lemma pending_close r n text l : forall c, NoDup l -> l ⊆ pending c ->
  forall x, x ∈ pending (fold_left (close_one r n text) l c) <-> x ∈ pending c /\ x ∉ l.
Proof.
  induction l as [|id l IH]; intros c Hl Hs x; cbn [fold_left]; [split; [by intros Hx; split; [|apply not_elem_of_nil]|by intros []]|].
  apply NoDup_cons in Hl as [Hid Hl].
  assert (pending (close_one r n text c id) = set_delete id (pending c)) as E.
  { unfold close_one. rewrite pending_result, pending_logRecord; [done|]. rewrite pending_logRecord. apply Hs. by left. }
  rewrite IH; [|done|].
  - rewrite E, elem_of_set_delete, not_elem_of_cons. tauto.
  - intros y Hy. rewrite E, elem_of_set_delete. split; [apply Hs; by right|]. by intros ->.
Qed.

Lemma pending_close_all r n text c : NoDup (pending c) -> pending (closePendingToolResults r n c text).1 = [].
Proof.
  intros H. apply elem_of_nil_inv. intros x Hx. apply (pending_close r n text (pending c) c H) in Hx; [|done]. by destruct Hx.
Qed.

Lemma close_same r n r' n' text l : forall c d, same c d -> NoDup l -> l ⊆ pending c ->
  same (fold_left (close_one r n text) l c) (fold_left (close_one r' n' text) l d).
Proof.
  induction l as [|id l IH]; intros c d H Hl Hs; [done|]. cbn [fold_left]. apply NoDup_cons in Hl as [Hid Hl].
  apply IH; [|done|].
  - unfold close_one. apply toolResult_same; [by apply logRecord_congr|]. rewrite pending_logRecord. apply Hs. by left.
  - intros y Hy. unfold close_one. rewrite pending_result, pending_logRecord; [|rewrite pending_logRecord; apply Hs; by left].
    apply elem_of_set_delete. split; [apply Hs; by right|]. by intros ->.
Qed.

(** * Results that come too late *)

(** A result is on time when its call is open, when it is the text of an interrupted
    call, or when no placeholder of its call is in the history. *)
Definition on_time (c : context) (e : loop_event) : Prop :=
  match e with
  | ToolResultEvent id out _ _ =>
      id ∈ pending c \/ out = OutText TOOL_INTERRUPTED_ON_RESUME_OUTPUT \/ find_entry c (is_placeholder id) = None
  | _ => True
  end.

Lemma late_same t n d id out err sn : id ∉ pending d ->
  out = OutText TOOL_INTERRUPTED_ON_RESUME_OUTPUT \/ find_entry d (is_placeholder id) = None ->
  same (toolResult (Some t) n d id out err sn) d.
Proof.
  intros Hp Ho. unfold toolResult. rewrite bool_decide_eq_false_2 by done. cbn [negb]. unfold recoverLateToolResult.
  destruct Ho as [->| ->].
  - rewrite bool_decide_eq_true_2 by done. case_match; apply note_repair_same.
  - apply note_repair_same.
Qed.

Definition closings (e : loop_event) (open : list jsstr) : list ctx_record :=
  match e with StepBegin _ => closing TOOL_INTERRUPTED_ON_RESUME_OUTPUT <$> open | _ => [] end.

Lemma loop_same now c d t e : same c d -> NoDup (pending c) -> on_time c e ->
  same (appendLoopEvent None now c e).1 (appendLoopEvent (Some t) t d e).1.
Proof.
  intros H N Ht. pose proof (logRecord_same None c (RLoopEvent e)) as Hc.
  assert (same (logRecord None c (RLoopEvent e)) d) as Hd by (by rewrite Hc).
  destruct e as [uuid|uuid u|uuid p|uuid id nm args|id out err sn]; unfold appendLoopEvent; cbv zeta;
    change (logRecord (Some t) d _) with d.
  - unfold closePendingToolResults. cbn [fst].
    assert (same (fold_left (close_one None now TOOL_INTERRUPTED_ON_RESUME_OUTPUT) (pending c) (logRecord None c (RLoopEvent (StepBegin uuid))))
                 (fold_left (close_one (Some t) t TOOL_INTERRUPTED_ON_RESUME_OUTPUT) (pending d) d)) as Hf.
    { rewrite <- (same_pending _ _ H). apply close_same; [done|done|]. by rewrite pending_logRecord. }
    rewrite pending_logRecord, <- (same_pending _ _ H) in *.
    set (x := fold_left (close_one None now _) _ _) in *. set (y := fold_left (close_one (Some t) t _) _ _) in *.
    assert (forall y', same y' y ->
      same (upd_open (pushHistory None now x [step_message])
              (jset (openSteps (pushHistory None now x [step_message])) uuid (next_id x)))
           (upd_open (pushHistory (Some t) t y' [step_message])
              (jset (openSteps (pushHistory (Some t) t y' [step_message])) uuid (next_id y')))) as Hg.
    { intros y' Hy. assert (same x y') as Hxy by (by rewrite Hf, Hy).
      pose proof (pushHistory_same None (Some t) now t [step_message] x y' Hxy) as Hp.
      rewrite (same_open _ _ Hp), (same_next _ _ Hxy). by apply upd_open_same. }
    destruct (pending c); apply Hg; [done|apply note_repair_same].
  - by apply stepEnd_same.
  - rewrite (same_open _ _ Hd). case_match; [by apply grow_same|]. cbn. by rewrite note_repair_same.
  - rewrite (same_open _ _ Hd). case_match; [|cbn; by rewrite note_repair_same]. cbn [fst].
    pose proof (grow_same _ _ n (add_call (ToolCall id nm (JSON_stringify <$> args))) Hd) as Hg.
    rewrite (same_pending _ _ Hg). by apply upd_pending_same.
  - cbn [fst]. destruct (decide (id ∈ pending c)) as [Hi|Hi].
    + apply toolResult_same; [done|]. by rewrite pending_logRecord.
    + unfold toolResult at 1. rewrite pending_logRecord, (bool_decide_eq_false_2 (id ∈ pending c)) by done. cbn [negb].
      rewrite late_same; [done|by rewrite <- (same_pending _ _ H)|].
      destruct Ht as [?|[?|Hf]]; [done|by left|right]. unfold find_entry in *. by rewrite <- (same_entries _ _ H).
Qed.

Lemma loop_log now c e : log (appendLoopEvent None now c e).1 = log c ++ RLoopEvent e :: closings e (pending c).
Proof.
  destruct e; cbn [closings]; rewrite ?fmap_nil; unfold appendLoopEvent; cbv zeta.
  - unfold closePendingToolResults. cbn [fst]. rewrite pending_logRecord.
    match goal with |- context [pushHistory None now ?x ?ms] => change (log (pushHistory None now x ms) = log c ++ RLoopEvent (StepBegin uuid) :: (closing TOOL_INTERRUPTED_ON_RESUME_OUTPUT <$> pending c)) end.
    rewrite log_push. destruct (pending c) eqn:E; rewrite <- ?E, log_close, log_record, <- app_assoc; done.
  - cbn [fst]. by rewrite log_stepEnd, log_record.
  - rewrite <- (log_record c). case_match; [by apply log_effects|done].
  - rewrite <- (log_record c). case_match; [by apply log_effects|done].
  - cbn [fst]. by rewrite log_toolResult, log_record.
Qed.

Lemma loop_pending r now c e : NoDup (pending c) -> NoDup (pending (appendLoopEvent r now c e).1) /\
  (forall uuid, e = StepBegin uuid -> pending (appendLoopEvent r now c e).1 = []).
Proof.
  intros N. destruct e; unfold appendLoopEvent; cbv zeta.
  - assert (pending (closePendingToolResults r now (logRecord r c (RLoopEvent (StepBegin uuid))) TOOL_INTERRUPTED_ON_RESUME_OUTPUT).1 = []) as E
      by (apply pending_close_all; by rewrite pending_logRecord).
    destruct (closePendingToolResults _ _ _ _) as [x closed]. cbn [fst] in E |- *. cbn [upd_open pending]. rewrite pending_push.
    assert (forall y, y = x \/ (exists z, y = note_repair x z) -> pending y = []) as Hy by (by intros y [->|[z ->]]).
    rewrite Hy by (destruct closed, r; eauto). split; [constructor|done].
  - split; [|done]. cbn. by rewrite pending_stepEnd, pending_logRecord.
  - split; [|done]. destruct r; cbn [logRecord]; case_match; done.
  - split; [|done]. rewrite <- (pending_logRecord r c (RLoopEvent (ToolCallEvent stepUuid toolCallId toolName args))) in N.
    case_match; [|by destruct r]. cbn [fst upd_pending pending grow upd_entries]. case_bool_decide; [done|].
    apply NoDup_app. split_and!; [done| |apply NoDup_singleton]. by intros x Hx ->%list_elem_of_singleton.
  - split; [|done]. cbn [fst]. rewrite <- (pending_logRecord r c (RLoopEvent (ToolResultEvent toolCallId out err side_note))) in N.
    destruct (decide (toolCallId ∈ pending (logRecord r c (RLoopEvent (ToolResultEvent toolCallId out err side_note))))) as [Hi|Hi].
    + rewrite pending_result by done. by apply set_delete_NoDup.
    + unfold toolResult. rewrite bool_decide_eq_false_2 by done. cbn [negb]. case_match; [|done].
      unfold recoverLateToolResult. repeat case_match; done.
Qed.

(** * Swarm mode *)

Record agent : Type := Agent { ctx : context; active : option swarm_trigger }.

Section agent.
(** The texts of [enter-reminder.md] and [exit-reminder.md]. *)
Context (enter_reminder exit_reminder : jsstr).

Section swarm.
Context (restoring : option Z) (now : Z).

Definition swarm_enter (a : agent) (t : swarm_trigger) : agent :=
  match active a with
  | Some _ => a
  | None =>
      let c := logRecord restoring (ctx a) (RSwarmEnter t) in
      let c := match t with
               | ByTool => c
               | _ => appendSystemReminder restoring now c enter_reminder (OInjection (js "swarm_mode"))
               end in
      Agent (emit c [StatusUpdated]) (Some t)
  end.

Definition is_swarm_mode (o : option prompt_origin) : bool := bool_decide (o = Some (OInjection (js "swarm_mode"))).

Definition swarm_exit (a : agent) : agent :=
  match active a with
  | None => a
  | Some t =>
      let c := emit (logRecord restoring (ctx a) RSwarmExit) [StatusUpdated] in
      match t with
      | ByTool => Agent c None
      | _ =>
          let '(c, popped) := popMatchedMessage c is_swarm_mode in
          if popped then Agent c None
          else match restoring with
               | None => Agent (appendSystemReminder restoring now c exit_reminder (OInjection (js "swarm_mode_exit"))) None
               | Some _ => Agent c None
               end
      end
  end.
End swarm.

Definition restoreEnter (a : agent) (t : swarm_trigger) : agent := Agent (ctx a) (Some t).

(** * Restoring *)

Definition on_ctx (a : agent) (c : context) : agent := Agent c (active a).

(** [restore]: the record's time is the time of what it does. *)
Definition restore (a : agent) (time : Z) (r : ctx_record) : agent :=
  let restoring := Some time in
  match r with
  | RSwarmEnter t => restoreEnter a t
  | RSwarmExit => swarm_exit restoring time a
  | RAppendMessage m => on_ctx a (appendMessage restoring time (ctx a) m)
  | RLoopEvent e => on_ctx a (appendLoopEvent restoring time (ctx a) e).1
  | RUpdateTokenCount n => on_ctx a (updateTokenCount restoring (ctx a) n)
  | RClear => on_ctx a (clear restoring (ctx a))
  | RApplyCompaction r =>
      on_ctx a (applyCompaction restoring (ctx a) (input_of r)).1
  | RUndo count => on_ctx a (undo restoring (ctx a) count).1
  | RWithdrawTailInput => on_ctx a (withdrawUnansweredTailInput restoring (ctx a)).1
  end.

Definition replay (a : agent) (records : list (Z * ctx_record)) : agent :=
  fold_left (fun a tr => restore a tr.1 tr.2) records a.

(** * Live operations *)

Inductive op : Type :=
| AppendMessage (m : context_message)
| UserMessage (ps : list content_part) (o : prompt_origin)
| SystemReminder (text : jsstr) (o : prompt_origin)
| LocalCommandStdout (text : jsstr)
| BashInput (command : jsstr)
| BashOutput (stdout stderr : jsstr) (err : option bool)
| LoopEvent (e : loop_event)
| CloseAbandoned (text : jsstr)
| Clear
| Import (maxContextTokens : Z) (text source : jsstr)
| UpdateTokens (n : Z)
| Undo (count : Z)
| WithdrawTail
| Compact (i : compaction_input)
| SwarmEnter (t : swarm_trigger)
| SwarmExit.

Definition live (now : Z) (a : agent) (o : op) : agent :=
  let restoring := None in
  match o with
  | AppendMessage m => on_ctx a (appendMessage restoring now (ctx a) m)
  | UserMessage ps o => on_ctx a (appendUserMessage restoring now (ctx a) ps o)
  | SystemReminder text o => on_ctx a (appendSystemReminder restoring now (ctx a) text o)
  | LocalCommandStdout text => on_ctx a (appendLocalCommandStdout restoring now (ctx a) text)
  | BashInput command => on_ctx a (appendBashInput restoring now (ctx a) command)
  | BashOutput stdout stderr err => on_ctx a (appendBashOutput restoring now (ctx a) stdout stderr err)
  | LoopEvent e => on_ctx a (appendLoopEvent restoring now (ctx a) e).1
  | CloseAbandoned text => on_ctx a (closeAbandonedToolExchange restoring now (ctx a) text).1
  | Clear => on_ctx a (clear restoring (ctx a))
  | Import maxContextTokens text source => on_ctx a (importContext restoring now maxContextTokens (ctx a) text source).1
  | UpdateTokens n => on_ctx a (updateTokenCount restoring (ctx a) n)
  | Undo count => on_ctx a (undo restoring (ctx a) count).1
  | WithdrawTail => on_ctx a (withdrawUnansweredTailInput restoring (ctx a)).1
  | Compact i => on_ctx a (applyCompaction restoring (ctx a) i).1
  | SwarmEnter t => swarm_enter restoring now a t
  | SwarmExit => swarm_exit restoring now a
  end.

Definition live_all (a : agent) (ops : list (Z * op)) : agent := fold_left (fun a o => live o.1 a o.2) ops a.


(** * Replay follows *)

Definition written (a : agent) : list ctx_record := log (ctx a).

Record agree (a b : agent) : Prop := Agree { agree_ctx : same (ctx a) (ctx b); agree_active : active a = active b }.

#[export] Instance agree_equivalence : Equivalence agree.
Proof.
  split.
  - by intros a.
  - intros a b [H E]. by split.
  - intros a b c [H E] [H' E']. split; [by rewrite H|congruence].
Qed.

(** From [a] to [a'] the records [rs] are written, and replaying them does what was
    done. *)
Record follows (a a' : agent) (rs : list ctx_record) : Prop := Follows {
  f_written : written a' = written a ++ rs;
  f_nodup : NoDup (pending (ctx a')) ;
  f_replay : forall b trs, agree a b -> trs.*2 = rs -> agree a' (replay b trs);
}.

Lemma follows_trans a a1 a2 r1 r2 : follows a a1 r1 -> follows a1 a2 r2 -> follows a a2 (r1 ++ r2).
Proof.
  intros [W1 N1 R1] [W2 N2 R2]. split; [by rewrite W2, W1, app_assoc|done|].
  intros b trs Hab E. apply fmap_app_inv in E as (t1 & t2 & -> & -> & ->).
  unfold replay. rewrite fold_left_app. by apply R2; [apply R1|].
Qed.

Lemma follows_one a a' r : written a' = written a ++ [r] -> NoDup (pending (ctx a')) ->
  (forall b t, agree a b -> agree a' (restore b t r)) -> follows a a' [r].
Proof.
  intros W N R. split; [done|done|]. intros b trs Hab E. destruct trs as [|[t r'] [|]]; try discriminate E.
  injection E as <-. by apply R.
Qed.

Lemma follows_none a a' : written a' = written a -> NoDup (pending (ctx a)) -> agree a a' -> follows a a' [].
Proof.
  intros W N H. split; [by rewrite app_nil_r|by rewrite <- (same_pending _ _ (agree_ctx _ _ H))|].
  intros b trs Hab E. apply fmap_nil_inv in E as ->. cbn. by rewrite <- H.
Qed.

Lemma append_follows now a m : NoDup (pending (ctx a)) -> follows a (on_ctx a (appendMessage None now (ctx a) m)) [RAppendMessage m].
Proof.
  intros N. apply follows_one; [apply log_append|by cbn; rewrite pending_append|].
  intros b t [H E]. split; [|done]. cbn. by apply appendMessage_same.
Qed.

Lemma stale_closings trs : forall b l, pending (ctx b) = [] -> trs.*2 = (closing TOOL_INTERRUPTED_ON_RESUME_OUTPUT <$> l) -> agree (replay b trs) b.
Proof.
  induction trs as [|[t x] trs IH]; intros b l Hp E; [done|]. destruct l as [|id l]; [discriminate|].
  injection E as -> E. cbn [replay fold_left fst snd restore].
  assert (agree (restore b t (closing TOOL_INTERRUPTED_ON_RESUME_OUTPUT id)) b) as Hb.
  { split; [|done]. cbn. apply late_same; [rewrite Hp; apply not_elem_of_nil|by left]. }
  rewrite <- Hb at 2. apply (IH _ l); [|done]. by rewrite (same_pending _ _ (agree_ctx _ _ Hb)).
Qed.

Definition writes (a a' : agent) : Prop := exists rs, follows a a' rs.

Lemma writes_trans a a1 a2 : writes a a1 -> writes a1 a2 -> writes a a2.
Proof. intros [r1 F1] [r2 F2]. exists (r1 ++ r2). by eapply follows_trans. Qed.

Lemma writes_nodup a a' : writes a a' -> NoDup (pending (ctx a')).
Proof. by intros [rs [_ N _]]. Qed.

Lemma writes_refl a : NoDup (pending (ctx a)) -> writes a a.
Proof. intros N. exists []. by apply follows_none. Qed.

Lemma writes_append now a m : NoDup (pending (ctx a)) -> writes a (on_ctx a (appendMessage None now (ctx a) m)).
Proof. intros N. exists [RAppendMessage m]. by apply append_follows. Qed.

Lemma writes_user now a ps o : NoDup (pending (ctx a)) -> writes a (on_ctx a (appendUserMessage None now (ctx a) ps o)).
Proof.
  intros N. unfold appendUserMessage. case_bool_decide; [by destruct a; apply writes_refl|].
  destruct (if bool_decide (o = OUser) then _ else _) as [captions parts].
  assert (forall l a, NoDup (pending (ctx a)) ->
    writes a (on_ctx a (fold_left (fun c caption => appendSystemReminder None now c caption (OInjection (js "image_compression"))) l (ctx a)))) as Hf.
  { clear. induction l as [|x l IH]; intros a N; [by destruct a; apply writes_refl|]. cbn [fold_left].
    pose proof (writes_append now a) as W. specialize (W (user_message [TextPart (js "<system-reminder>" ++ [10]%N ++ trim x ++ [10]%N ++ js "</system-reminder>")] (Some (OInjection (js "image_compression")))) N).
    eapply writes_trans; [exact W|]. apply (IH (on_ctx a _)). by apply (writes_nodup _ _ W). }
  specialize (Hf captions a N). case_bool_decide; [done|]. eapply writes_trans; [exact Hf|].
  apply (writes_append now (on_ctx a _)). by apply (writes_nodup _ _ Hf).
Qed.

Lemma writes_closing now text a id : NoDup (pending (ctx a)) -> id ∈ pending (ctx a) ->
  writes a (on_ctx a (close_one None now text (ctx a) id)).
Proof.
  intros N Hi. exists [closing text id]. apply follows_one.
  - unfold written. cbn. unfold close_one. by rewrite log_toolResult, log_record.
  - cbn. unfold close_one. rewrite pending_result, pending_logRecord; [by apply set_delete_NoDup|]. by rewrite pending_logRecord.
  - intros b t [H E]. split; [|done]. cbn. apply toolResult_same; [by rewrite logRecord_same|]. by rewrite pending_logRecord.
Qed.

Lemma writes_close now text l : forall a, NoDup (pending (ctx a)) -> NoDup l -> l ⊆ pending (ctx a) ->
  writes a (on_ctx a (fold_left (close_one None now text) l (ctx a))).
Proof.
  induction l as [|id l IH]; intros a N Hl Hs; [by destruct a; apply writes_refl|]. cbn [fold_left]. apply NoDup_cons in Hl as [Hid Hl].
  assert (writes a (on_ctx a (close_one None now text (ctx a) id))) as W by (apply writes_closing; [done|apply Hs; by left]).
  eapply writes_trans; [exact W|]. apply (IH (on_ctx a _)); [by apply (writes_nodup _ _ W)|done|].
  intros y Hy. apply (pending_close None now text [id] (ctx a)); [apply NoDup_singleton|intros z ->%list_elem_of_singleton; apply Hs; by left|].
  split; [apply Hs; by right|]. by intros ->%list_elem_of_singleton.
Qed.

Lemma writes_loop now a e : NoDup (pending (ctx a)) -> on_time (ctx a) e -> writes a (on_ctx a (appendLoopEvent None now (ctx a) e).1).
Proof.
  intros N Ht. exists (RLoopEvent e :: closings e (pending (ctx a))). split; [apply loop_log|by apply loop_pending|].
  intros b trs [H E] Etrs. destruct trs as [|[t x] trs]; [discriminate|]. injection Etrs as -> Etrs.
  cbn [replay fold_left fst snd]. assert (agree (on_ctx a (appendLoopEvent None now (ctx a) e).1) (restore b t (RLoopEvent e))) as Ha.
  { split; [by apply loop_same|done]. }
  assert ((exists uuid, e = StepBegin uuid) \/ closings e (pending (ctx a)) = []) as [[uuid ->]|Ec] by (destruct e; eauto).
  - rewrite Ha. symmetry. apply (stale_closings _ _ (pending (ctx a))); [|done].
    rewrite <- (same_pending _ _ (agree_ctx _ _ Ha)). by apply (loop_pending None now (ctx a) (StepBegin uuid) N) with uuid.
  - rewrite Ec in Etrs. apply fmap_nil_inv in Etrs as ->. done.
Qed.

Lemma writes_tokens a n : NoDup (pending (ctx a)) -> writes a (on_ctx a (updateTokenCount None (ctx a) n)).
Proof.
  intros N. exists [RUpdateTokenCount n]. apply follows_one; [|done|].
  - unfold written, updateTokenCount. cbn [on_ctx ctx]. rewrite log_emit. cbn [omap list_omap record_of]. rewrite app_nil_r, <- log_record. by apply log_effects.
  - intros b t [H E]. split; [|done]. by apply updateTokenCount_same.
Qed.

Lemma writes_clear a : writes a (on_ctx a (clear None (ctx a))).
Proof.
  exists [RClear]. apply follows_one; [|constructor|].
  - unfold written, clear. cbn [on_ctx ctx]. rewrite log_emit. cbn [omap list_omap record_of]. rewrite app_nil_r, <- log_record. by apply log_effects.
  - intros b t [H E]. split; [|done]. by apply clear_same.
Qed.

Lemma writes_undo a count : NoDup (pending (ctx a)) -> writes a (on_ctx a (undo None (ctx a) count).1).
Proof.
  intros N. destruct ((count <=? 0) || bool_decide (entries (ctx a) = [])) eqn:E.
  { unfold undo. rewrite E. by destruct a; apply writes_refl. }
  exists [RUndo count]. apply follows_one.
  - unfold written, undo. rewrite E. cbv zeta. cbn [fst on_ctx ctx]. rewrite log_emit, omap_app. cbn [omap list_omap record_of].
    assert (forall l, omap record_of (InjectionMessageRemoved <$> l) = []) as -> by (intros l; by induction l).
    rewrite app_nil_r, <- log_record. by apply log_effects.
  - unfold undo. rewrite E. constructor.
  - intros b t [H Ea]. split; [|done]. by apply undo_same.
Qed.

Lemma writes_withdraw a : NoDup (pending (ctx a)) -> writes a (on_ctx a (withdrawUnansweredTailInput None (ctx a)).1).
Proof.
  intros N. destruct (withdrawUnansweredTailInput None (ctx a)).2 eqn:E.
  - exists [RWithdrawTailInput]. apply follows_one.
    + unfold written. unfold withdrawUnansweredTailInput in *. destruct (tail_input _) as [[[newer e] older]|]; [|done]. case_match; [done|].
      cbv zeta. cbn [fst on_ctx ctx]. rewrite log_emit. cbn [omap list_omap record_of]. rewrite app_nil_r, <- log_record.
      case_match; unfold log; cbn; by rewrite !omap_app, app_nil_r.
    + unfold withdrawUnansweredTailInput in *. destruct (tail_input _) as [[[newer e] older]|]; [|done]. case_match; [done|]. cbv zeta. cbn [fst on_ctx ctx emit pending].
      destruct (_ <? _); exact N.
    + intros b t [H Ea]. split; [|done]. by apply withdraw_same.
  - assert (on_ctx a (withdrawUnansweredTailInput None (ctx a)).1 = a) as ->; [|by apply writes_refl].
    unfold withdrawUnansweredTailInput in *. destruct a, (tail_input _) as [[[newer e] older]|]; [|done]. by case_match.
Qed.

Lemma writes_compact a i : writes a (on_ctx a (applyCompaction None (ctx a) i).1).
Proof.
  exists [RApplyCompaction (result_of None (ctx a) i)]. apply follows_one; [|constructor|].
  - unfold written, applyCompaction. cbv zeta. cbn [fst on_ctx ctx]. rewrite log_emit. cbn [omap list_omap record_of]. rewrite app_nil_r, <- log_record.
    unfold log. cbn. by rewrite !omap_app, app_nil_r.
  - intros b t [H Ea]. split; [|done]. by apply compaction_same.
Qed.

Lemma writes_enter now a t : NoDup (pending (ctx a)) -> writes a (swarm_enter None now a t).
Proof.
  intros N. unfold swarm_enter. destruct (active a) eqn:Ea; [by apply writes_refl|].
  assert (writes a (Agent (logRecord None (ctx a) (RSwarmEnter t)) (Some t))) as W.
  { exists [RSwarmEnter t]. apply follows_one; [apply log_record|done|]. intros b t' [H E]. split; [|done]. by apply logRecord_congr with (r' := Some 0) (y := RClear). }
  eapply writes_trans; [exact W|].
  assert (forall c, same c (emit c [StatusUpdated]) /\ log (emit c [StatusUpdated]) = log c) as He.
  { intros c. split; [by rewrite emit_same|]. rewrite log_emit. by rewrite app_nil_r. }
  destruct t.
  3: { exists []. apply follows_none; [apply He|done|]. split; [apply He|done]. }
  all: eapply writes_trans; [apply (writes_append now (Agent _ _)); done|]; exists []; apply follows_none; [apply He|cbn; by rewrite pending_append|split; [apply He|done]].
Qed.

Lemma exit_restored t' n b t : active b = Some t -> t <> ByTool ->
  swarm_exit (Some t') n b = Agent (popMatchedMessage (emit (logRecord (Some t') (ctx b) RSwarmExit) [StatusUpdated]) is_swarm_mode).1 None.
Proof.
  intros Ea Ht. unfold swarm_exit. rewrite Ea. cbv zeta.
  destruct t, (popMatchedMessage (emit (logRecord (Some t') (ctx b) RSwarmExit) [StatusUpdated]) is_swarm_mode) as [x []]; done.
Qed.

Lemma writes_exit now a : NoDup (pending (ctx a)) -> writes a (swarm_exit None now a).
Proof.
  intros N. destruct (active a) as [t|] eqn:Ea; [|unfold swarm_exit; rewrite Ea; by apply writes_refl].
  set (c := emit (logRecord None (ctx a) RSwarmExit) [StatusUpdated]).
  assert (log c = log (ctx a) ++ [RSwarmExit]) as Hl by (subst c; by rewrite log_emit, log_record, app_nil_r).
  assert (forall b t', agree a b -> same c (emit (logRecord (Some t') (ctx b) RSwarmExit) [StatusUpdated])) as Hc.
  { intros b t' [H _]. subst c. by rewrite !emit_same, !logRecord_same. }
  assert (t = ByTool \/ t <> ByTool) as [->|Ht] by (destruct t; auto).
  { exists [RSwarmExit]. unfold swarm_exit. rewrite Ea. apply follows_one; [apply Hl|done|].
    intros b t' Hab. cbn [restore]. unfold swarm_exit. rewrite <- (agree_active _ _ Hab), Ea. split; [by apply Hc|done]. }
  pose (p := popMatchedMessage c is_swarm_mode).
  assert (log p.1 = log c /\ pending p.1 = pending (ctx a)) as [Hpl Hpp] by (subst p; unfold popMatchedMessage; repeat case_match; done).
  assert (writes a (Agent p.1 None)) as W.
  { exists [RSwarmExit]. apply follows_one; [by unfold written; cbn; rewrite Hpl|cbn; by rewrite Hpp|].
    intros b t' Hab. cbn [restore]. unfold swarm_exit. rewrite <- (agree_active _ _ Hab), Ea.
    destruct (pop_same _ _ is_swarm_mode (Hc b t' Hab)) as [Hp _]. fold p in Hp.
    pose proof (exit_restored t' t' b t (eq_trans (eq_sym (agree_active _ _ Hab)) Ea) Ht) as Eb.
    unfold swarm_exit in Eb. rewrite <- (agree_active _ _ Hab), Ea in Eb. rewrite Eb. by split. }
  assert (swarm_exit None now a = if p.2 then Agent p.1 None
    else Agent (appendSystemReminder None now p.1 exit_reminder (OInjection (js "swarm_mode_exit"))) None) as ->.
  { unfold swarm_exit. rewrite Ea. fold c. subst p. destruct t; [| |done]; by destruct (popMatchedMessage c is_swarm_mode) as [x []]. }
  destruct p.2; [done|]. eapply writes_trans; [exact W|]. apply (writes_append now (Agent p.1 None)). exact (eq_ind_r _ N Hpp).
Qed.

(** * The theorem *)

(** A result that arrives is on time; a call that is closed was open. *)
Definition op_on_time (a : agent) (o : op) : Prop := match o with LoopEvent e => on_time (ctx a) e | _ => True end.

Fixpoint all_on_time (a : agent) (ops : list (Z * op)) : Prop :=
  match ops with [] => True | o :: ops' => op_on_time a o.2 /\ all_on_time (live o.1 a o.2) ops' end.

Lemma live_writes now a o : NoDup (pending (ctx a)) -> op_on_time a o -> writes a (live now a o).
Proof.
  intros N Ho. destruct o; cbn [live].
  - by apply writes_append.
  - by apply writes_user.
  - by apply writes_append.
  - by apply writes_append.
  - by apply writes_append.
  - by apply writes_append.
  - by apply writes_loop.
  - unfold closeAbandonedToolExchange, closePendingToolResults. cbn [fst]. by apply writes_close.
  - apply writes_clear.
  - unfold importContext. cbv zeta. repeat (case_match; [destruct a; by apply writes_refl|]). cbn [fst].
    eapply writes_trans; [by apply writes_append|]. apply (writes_tokens (on_ctx a _)). cbn. by rewrite pending_append.
  - by apply writes_tokens.
  - by apply writes_undo.
  - by apply writes_withdraw.
  - apply writes_compact.
  - by apply writes_enter.
  - by apply writes_exit.
Qed.

Lemma live_all_writes ops : forall a, NoDup (pending (ctx a)) -> all_on_time a ops -> writes a (live_all a ops).
Proof.
  induction ops as [|[now o] ops IH]; intros a N Ho; [by apply writes_refl|]. destruct Ho as [Ho Hos].
  assert (writes a (live now a o)) as W by by apply live_writes.
  eapply writes_trans; [exact W|]. apply IH; [by apply (writes_nodup _ _ W)|done].
Qed.

(** C2. The record log rebuilds the conversation. Whatever sequence of operations a
    session performs on a new conversation — messages, steps with their tool calls and
    results, undo, clear, import, compaction, swarm mode on and off — replaying what was
    written, in a process with other clocks, gives the same history, token count,
    covered count, open steps, open calls and deferred messages, provided that no tool
    result arrives live after its call was closed with a placeholder (such a result is
    dropped live and put in place by the replay). What a fork starts from is not
    recorded and no operation here ([useProjectedHistoryFrom]). *)
Theorem replay_rebuilds ops trs : all_on_time (Agent empty_context None) ops ->
  trs.*2 = written (live_all (Agent empty_context None) ops) ->
  agree (live_all (Agent empty_context None) ops) (replay (Agent empty_context None) trs).
Proof.
  intros Ho E. destruct (live_all_writes ops (Agent empty_context None)) as [rs [W N R]]; [constructor|done|].
  apply R; [done|]. by rewrite E, W.
Qed.
End agent.

(** * Examples *)

Definition ex_session : list (Z * op) :=
  [(1, UserMessage [TextPart (js "fix it")] OUser);
   (2, LoopEvent (StepBegin (js "s1")));
   (3, LoopEvent (ToolCallEvent (js "s1") (js "t1") (js "Bash") None));
   (4, BashOutput (js "<ok>") (js "") None);
   (5, LoopEvent (ToolResultEvent (js "t1") (OutText (js "done")) None None));
   (6, LoopEvent (StepEnd (js "s1") (Some (TokenUsage 0 0 10 5))));
   (7, SwarmEnter Manual); (8, SwarmExit);
   (9, Compact (CompactionInput (js "sum") None 3 15 None None None None None));
   (10, UserMessage [TextPart (js "next")] OUser); (11, Undo 1)].

Definition ex_agent : agent := Agent empty_context None.
Definition ex_run : agent := live_all (js "enter") (js "exit") ex_agent ex_session.

Lemma replay_rebuilds_witness :
  all_on_time (js "enter") (js "exit") ex_agent ex_session /\
  agree ex_run (replay (js "exit") ex_agent ((fun r => (7, r)) <$> written ex_run)) /\
  (origin ∘ e_msg) <$> entries (ctx ex_run) = [Some OUser; Some OCompactionSummary].
Proof.
  assert (all_on_time (js "enter") (js "exit") ex_agent ex_session) as H.
  { repeat split. left. vm_compute. by left. }
  split; [exact H|]. split; [|vm_compute; reflexivity].
  apply (replay_rebuilds (js "enter") (js "exit") ex_session); [exact H|].
  rewrite <- list_fmap_compose. apply list_fmap_id.
Defined.
