(* ===== verification/ContextSafety.v ===== *)
(** What every operation of [ContextMemory] and [Records] keeps true of the history, and
    what follows for the requests made from it. *)

From S2P Require Import Prelude JsMap Json JsonText JsString Messages Projector Handoff ContextMemory Records.

(** * The invariant *)

(** A message from outside the loop: no call, no result. It may be an assistant's, as the
    one that tells of a blocked prompt is. *)
Definition outside (m : message) : Prop :=
  is_tool m = false /\ (is_assistant m = true -> call_ids m = []) /\ plain_user m = true /\ partial m = false.

(** Every message is whole, and only the loop's, which have no origin, have calls and
    results. *)
Definition good (m : context_message) : Prop :=
  plain_user (base m) = true /\ partial (base m) = false /\ (origin m = None \/ outside (base m)).

(** Every result has the id of a call made before it. *)
Fixpoint answered (seen : list jsstr) (ms : list message) : bool :=
  match ms with
  | [] => true
  | m :: ms' =>
      (if is_tool m then match toolCallId m with Some id => bool_decide (id ∈ seen) | None => false end else true) &&
      answered (if is_assistant m then call_ids m ++ seen else seen) ms'
  end.

Lemma answered_weaken ms : forall s s', s ⊆ s' -> answered s ms = true -> answered s' ms = true.
Proof.
  induction ms as [|m ms IH]; intros s s' Hs; cbn [answered]; [done|]. rewrite !andb_true_iff. intros [H1 H2]. split.
  - destruct (is_tool m); [|done]. destruct (toolCallId m); [|done]. rewrite bool_decide_eq_true in *. by apply Hs.
  - eapply IH; [|exact H2]. destruct (is_assistant m); [|done]. intros x. rewrite !elem_of_app. intros [?|?]; [by left|right; by apply Hs].
Qed.

Lemma answered_app l1 l2 : forall s, answered s (l1 ++ l2) = true <-> answered s l1 = true /\ answered (all_call_ids l1 ++ s) l2 = true.
Proof.
  induction l1 as [|m l1 IH]; intros s; cbn [app answered]; [change (all_call_ids [] ++ s) with s; tauto|].
  rewrite !andb_true_iff, IH, all_call_ids_cons. assert (forall a b, answered a l2 = true -> a ⊆ b -> answered b l2 = true) as Hw.
  { intros a b Ha Hb. by eapply answered_weaken. }
  split.
  - intros (H1 & H2 & H3). split_and!; [done|done|]. eapply Hw; [exact H3|]. intros x. destruct (is_assistant m); rewrite !elem_of_app; tauto.
  - intros ((H1 & H2) & H3). split_and!; [done|done|]. eapply Hw; [exact H3|]. intros x. destruct (is_assistant m); rewrite !elem_of_app, ?elem_of_nil; tauto.
Qed.

Lemma answered_outside ms : forall s, Forall outside ms -> answered s ms = true.
Proof.
  induction ms as [|m ms IH]; intros s H; [done|]. apply Forall_cons in H as [(Ht & Ha & _) H]. cbn [answered]. rewrite Ht.
  destruct (is_assistant m); [rewrite (Ha eq_refl)|]; by apply IH.
Qed.

Lemma answered_follows C ms : forall s, answered s ms = true -> results_follow C s ms = true.
Proof.
  induction ms as [|m ms IH]; intros s; cbn [answered results_follow]; [done|]. rewrite !andb_true_iff. intros [H1 H2]. split; [|by apply IH].
  destruct (is_tool m); [|done]. destruct (toolCallId m); [|done]. by rewrite H1.
Qed.

Lemma answered_no_orphans ms : forall s, answered s ms = true -> Forall (fun m => orphan (all_call_ids ms ++ s) m = None) ms.
Proof.
  induction ms as [|m ms IH]; intros s; cbn [answered]; [done|]. rewrite andb_true_iff. intros [H1 H2].
  assert (forall C C' m, C ⊆ C' -> orphan C m = None -> orphan C' m = None) as Hw.
  { intros C C' m' HC Hn. destruct (orphan C' m') eqn:E; [|done]. assert (orphan C' m' <> None) as (Ht & id & Hi & Hni)%orphan_Some by congruence.
    exfalso. assert (orphan C m' <> None); [|done]. apply orphan_Some. split; [done|]. exists id. split; [done|]. intros Hc. by apply Hni, HC. }
  apply Forall_cons. split.
  - destruct (orphan _ m) eqn:E; [|done]. assert (orphan (all_call_ids (m :: ms) ++ s) m <> None) as (Ht & id & Hi & Hn)%orphan_Some by congruence.
    rewrite Ht, Hi, bool_decide_eq_true in H1. exfalso. apply Hn, elem_of_app. by right.
  - eapply Forall_impl; [apply (IH _ H2)|]. cbn beta. intros x Hx. eapply Hw; [|exact Hx]. rewrite all_call_ids_cons.
    intros y. destruct (is_assistant m); rewrite !elem_of_app; tauto.
Qed.

Lemma strict_of_good history : answered [] (base <$> history) = true -> Forall good history ->
  exists out an, project history strict_options = Ok (out, an) /\
    exchange_ok false [] out = true /\ NoDup (all_call_ids out) /\
    match out with m :: _ => is_user m = true | [] => True end /\
    Forall (fun m => sendable m = true) out /\ no_adjacent_assistants out = true.
Proof.
  intros Ha Hg. assert (List.filter (fun m => negb (partial m)) (base <$> history) = base <$> history) as E.
  { apply List.forallb_filter_id, forallb_forall. intros x Hx%list_elem_of_In. apply list_elem_of_fmap in Hx as (m & -> & Hm).
    rewrite Forall_forall in Hg. destruct (Hg m Hm) as (_ & Hp & _). by rewrite Hp. }
  destruct (strict_compliant history) as (out & an & H1 & H2 & H3 & H4 & H5 & H6).
  - unfold results_follow_calls. cbv zeta. rewrite E. by apply answered_follows.
  - eapply Forall_impl; [exact Hg|]. by intros m (? & _).
  - exists out, an. split_and!; try done. apply H6. unfold no_orphans. cbv zeta. rewrite E. apply forallb_forall. intros m Hm%list_elem_of_In.
    pose proof (answered_no_orphans _ _ Ha) as Hn. rewrite app_nil_r, Forall_forall in Hn. by apply bool_decide_eq_true_2, Hn.
Qed.

Abbreviation calls c := (all_call_ids (base <$> history c)).

Record inv (c : ContextMemory.context) : Prop := Inv {
  inv_answered : answered [] (base <$> history c) = true;
  inv_good : Forall good (history c);
  inv_deferred : Forall (fun m => outside (base m)) (deferred c);
  inv_pending : pending c ⊆ calls c;
  inv_ids : Forall (fun e => (e_id e < next_id c)%nat) (entries c);
  inv_open : forall uuid id, (uuid, id) ∈ openSteps c ->
    (exists e, e ∈ entries c /\ e_id e = id) /\ (forall e, e ∈ entries c -> e_id e = id -> is_assistant (base (e_msg e)) = true /\ origin (e_msg e) = None);
}.

Lemma inv_empty : inv empty_context.
Proof. split; cbn; try done. intros uuid id Hx. by apply elem_of_nil in Hx. Qed.

(** Only these fields matter. *)
Lemma inv_same c d : same c d -> inv c -> inv d.
Proof.
  intros H [I1 I2 I3 I4 I5 I6]. unfold history in *. rewrite (same_entries _ _ H), (same_deferred _ _ H), (same_pending _ _ H), (same_next _ _ H), (same_open _ _ H) in *.
  by split.
Qed.

Lemma all_call_ids_snoc l m : all_call_ids (l ++ [m]) = all_call_ids l ++ (if is_assistant m then call_ids m else []).
Proof. rewrite all_call_ids_app, all_call_ids_cons. change (all_call_ids []) with (@nil jsstr). by rewrite app_nil_r. Qed.

Lemma history_push r n ms : forall c, history (pushHistory r n c ms) = history c ++ ms.
Proof.
  induction ms as [|m ms IH]; intros c; [by rewrite app_nil_r|]. change (pushHistory r n c (m :: ms)) with (pushHistory r n (push_one r n c m) ms).
  rewrite IH. unfold history, push_one. cbn [entries]. by rewrite fmap_app, <- app_assoc.
Qed.

Lemma inv_push r n c m : inv c -> good m -> (is_tool (base m) = true -> exists id, toolCallId (base m) = Some id /\ id ∈ calls c) -> inv (push_one r n c m).
Proof.
  intros [I1 I2 I3 I4 I5 I6] Hg Ht. change (history (push_one r n c m)) with (e_msg <$> (entries c ++ [Entry (next_id c) m])).
  split; unfold history; cbn [push_one entries deferred ContextMemory.pending openSteps next_id]; rewrite ?fmap_app; cbn [fmap list_fmap e_msg].
  - apply answered_app. split; [done|]. cbn [answered]. rewrite andb_true_r. destruct (is_tool (base m)); [|done].
    destruct Ht as (id & -> & Hid); [done|]. apply bool_decide_eq_true_2. apply elem_of_app. by left.
  - apply Forall_app. split; [done|by apply Forall_singleton].
  - done.
  - intros x Hx. rewrite all_call_ids_snoc. apply elem_of_app. left. by apply I4.
  - apply Forall_app. split; [|apply Forall_singleton; cbn; lia]. eapply Forall_impl; [exact I5|]. cbn. lia.
  - intros uuid id Hid. destruct (I6 uuid id Hid) as [(e & He & Hi) Ha]. split; [exists e; split; [apply elem_of_app; by left|done]|].
    intros e' [He'|He'%list_elem_of_singleton]%elem_of_app; [by apply Ha|]. subst e'. cbn. intros Hn.
    rewrite Forall_forall in I5. specialize (I5 e He). lia.
Qed.

Lemma outside_good m : outside (base m) -> good m.
Proof. intros (H1 & H2 & H3 & H4). split_and!; [done|done|]. by right; split_and!. Qed.

Lemma inv_push_outside r n ms : forall c, inv c -> Forall (fun m => outside (base m)) ms -> inv (pushHistory r n c ms).
Proof.
  induction ms as [|m ms IH]; intros c Hc H; [done|]. apply Forall_cons in H as [Hm H].
  apply (IH (push_one r n c m)); [|done]. apply inv_push; [done|by apply outside_good|]. destruct Hm as (-> & _). done.
Qed.

Lemma inv_upd_deferred c l : inv c -> Forall (fun m => outside (base m)) l -> inv (upd_deferred c l).
Proof. intros [] H. by split. Qed.

Lemma inv_upd_pending c l : inv c -> l ⊆ calls c -> inv (upd_pending c l).
Proof. intros [] H. by split. Qed.

Lemma inv_logRecord r c x : inv c -> inv (logRecord r c x).
Proof. intros H. eapply inv_same; [|exact H]. symmetry. apply logRecord_same. Qed.

Lemma inv_emit c es : inv c -> inv (emit c es).
Proof. intros H. eapply inv_same; [|exact H]. symmetry. apply emit_same. Qed.

Lemma inv_flush r n c : inv c -> inv (flushDeferredMessagesIfToolExchangeClosed r n c).
Proof.
  intros H. unfold flushDeferredMessagesIfToolExchangeClosed. case_match; [done|].
  apply inv_upd_deferred; [|constructor]. apply inv_push_outside; [done|]. apply H.
Qed.

Lemma inv_append r n c m : inv c -> outside (base m) -> inv (appendMessage r n c m).
Proof.
  intros H Hm. unfold appendMessage. cbv zeta. pose proof (inv_logRecord r c (RAppendMessage m) H) as H'. case_match.
  - apply inv_upd_deferred; [done|]. apply Forall_app. split; [apply H'|by apply Forall_singleton].
  - apply inv_push_outside; [done|by apply Forall_singleton].
Qed.

Lemma inv_result n c id out err sn : inv c -> inv (toolResult None n c id out err sn).
Proof.
  intros H. unfold toolResult. case_bool_decide as Hp; cbn [negb]; [|done]. apply inv_flush.
  assert (inv (pushHistory None n c [result_message id out err sn])) as H'.
  { apply inv_push; [done|by split_and!; [..|left]|]. intros _. exists id. split; [done|]. by apply H. }
  apply inv_upd_pending; [done|]. intros x [Hx _]%elem_of_set_delete. by apply H'.
Qed.

(** ** Growing the message of an open step *)

Definition grown (m m' : message) : Prop := role m' = role m /\ toolCallId m' = toolCallId m /\ call_ids m ⊆ call_ids m'.

Lemma grown_refl m : grown m m.
Proof. done. Qed.

Lemma grown_calls l l' : Forall2 grown l l' -> all_call_ids l ⊆ all_call_ids l'.
Proof.
  induction 1 as [|m m' l l' (Hr & _ & Hc) H IH]; [done|]. rewrite !all_call_ids_cons.
  assert (is_assistant m' = is_assistant m) as -> by (unfold is_assistant; by rewrite Hr).
  intros x. destruct (is_assistant m); rewrite !elem_of_app; intros [?|?]; auto.
Qed.

Lemma grown_answered l l' : Forall2 grown l l' -> forall s s', s ⊆ s' -> answered s l = true -> answered s' l' = true.
Proof.
  induction 1 as [|m m' l l' (Hr & Ht & Hc) H IH]; intros s s' Hs; [done|]. cbn [answered].
  assert (is_assistant m' = is_assistant m) as -> by (unfold is_assistant; by rewrite Hr).
  assert (is_tool m' = is_tool m) as -> by (unfold is_tool; by rewrite Hr). rewrite !andb_true_iff, Ht. intros [H1 H2]. split.
  - destruct (is_tool m); [|done]. destruct (toolCallId m); [|done]. rewrite bool_decide_eq_true in *. by apply Hs.
  - eapply IH; [|exact H2]. destruct (is_assistant m); [|done]. intros x. rewrite !elem_of_app. intros [?|?]; [left|right]; auto.
Qed.

Definition grow_entry (id : nat) (f : message -> message) (e : entry) : entry :=
  if bool_decide (e_id e = id) then Entry id (with_base (e_msg e) (f (base (e_msg e)))) else e.

Section grow.
Context (f : message -> message) (Hf : forall m, grown m (f m) /\ partial (f m) = partial m).

Lemma grow_grown es id : Forall2 grown (base <$> (e_msg <$> es)) (base <$> (e_msg <$> (grow_entry id f <$> es))).
Proof.
  induction es as [|e es IH]; cbn; constructor; [|exact IH]. unfold grow_entry. case_bool_decide; [apply Hf|apply grown_refl].
Qed.

Lemma inv_grow c uuid id : inv c -> (uuid, id) ∈ openSteps c -> inv (grow c id f).
Proof.
  intros [I1 I2 I3 I4 I5 I6] Hid. destruct (I6 _ _ Hid) as [_ Hall].
  assert (entries (grow c id f) = grow_entry id f <$> entries c) as E by done.
  assert (forall e, e ∈ entries c -> e_id (grow_entry id f e) = e_id e) as Hi.
  { intros e _. unfold grow_entry. by case_bool_decide. }
  split; unfold history in *; rewrite ?E; cbn [grow upd_entries deferred ContextMemory.pending openSteps next_id].
  - eapply grown_answered; [apply grow_grown| |exact I1]; done.
  - apply Forall_fmap, Forall_fmap. rewrite Forall_fmap in I2. rewrite Forall_forall in I2 |- *. intros e He. specialize (I2 e He). cbn in I2 |- *.
    unfold grow_entry. case_bool_decide as Hk; [|done]. cbn. destruct I2 as (G1 & G2 & G3). destruct (Hf (base (e_msg e))) as [(Hr & _) Hp].
    destruct (Hall e He Hk) as [Ha Ho]. split_and!.
    + unfold plain_user, is_user. cbn. rewrite Hr. unfold is_assistant in Ha. apply bool_decide_eq_true in Ha. by rewrite Ha.
    + cbn. by rewrite Hp.
    + by left.
  - done.
  - intros x Hx. apply (grown_calls _ _ (grow_grown (entries c) id)). by apply I4.
  - apply Forall_fmap. eapply Forall_impl; [exact I5|]. intros e He. cbn. unfold grow_entry. by case_bool_decide; subst.
  - intros uuid' id' H. destruct (I6 _ _ H) as [(e & He & Ei) Ha]. split.
    + exists (grow_entry id f e). split; [apply list_elem_of_fmap; by exists e|]. by rewrite Hi.
    + intros e' (e0 & -> & He0)%list_elem_of_fmap. rewrite Hi by done. intros Ei'. specialize (Ha e0 He0 Ei'). unfold grow_entry. case_bool_decide; [|done].
      cbn. destruct (Hf (base (e_msg e0))) as [(Hr & _) _]. unfold is_assistant. rewrite Hr. exact Ha.
Qed.
End grow.

Lemma grow_calls c id f : (forall m, grown m (f m)) -> calls c ⊆ calls (grow c id f).
Proof.
  intros Hf. unfold history. cbn [grow upd_entries entries]. generalize (entries c). intros es. apply grown_calls.
  induction es as [|e es IH]; cbn; constructor; [|exact IH]. case_bool_decide; [apply Hf|done].
Qed.

Lemma add_part_grown p m : grown m (add_part p m) /\ partial (add_part p m) = partial m.
Proof. done. Qed.

Lemma add_call_grown t m : grown m (add_call t m) /\ partial (add_call t m) = partial m.
Proof.
  split; [|done]. split_and!; [done|done|]. unfold call_ids, add_call. cbn. rewrite fmap_app. intros x Hx. apply elem_of_app. by left.
Qed.

Lemma elem_of_all_call_ids l id : id ∈ all_call_ids l <-> exists m, m ∈ l /\ is_assistant m = true /\ id ∈ call_ids m.
Proof.
  induction l as [|m l IH].
  - split; [intros H; by apply elem_of_nil in H|]. intros (m & Hm & _). by apply elem_of_nil in Hm.
  - rewrite all_call_ids_cons, elem_of_app, IH. split.
    + intros [H|(m' & Hm & H)]; [|exists m'; split; [by right|done]]. exists m. destruct (is_assistant m); [|by apply elem_of_nil in H]. split; [by left|done].
    + intros (m' & [->|Hm]%elem_of_cons & Ha & Hi); [left; by rewrite Ha|right; by exists m'].
Qed.

Lemma grow_new_call c uuid id t : inv c -> (uuid, id) ∈ openSteps c -> call_id t ∈ calls (grow c id (add_call t)).
Proof.
  intros H Hid. destruct (inv_open c H _ _ Hid) as [(e & He & Ei) Ha]. apply elem_of_all_call_ids.
  exists (add_call t (base (e_msg e))). split_and!.
  - unfold history. cbn [grow upd_entries entries]. apply list_elem_of_fmap. exists (with_base (e_msg e) (add_call t (base (e_msg e)))). split; [done|].
    apply list_elem_of_fmap. exists (Entry id (with_base (e_msg e) (add_call t (base (e_msg e))))). split; [done|].
    apply list_elem_of_fmap. exists e. split; [|done]. by rewrite bool_decide_eq_true_2.
  - destruct (Ha e He Ei) as [Ha' _]. exact Ha'.
  - unfold call_ids, add_call. cbn. rewrite fmap_app. apply elem_of_app. right. by left.
Qed.

(** ** Events of the loop *)

Lemma elem_of_jdel {V} (m : list (jsstr * V)) k x : x ∈ jdel m k -> x ∈ m.
Proof. induction m as [|[k' v'] m IH]; cbn; [done|]. case_decide; [by right|]. intros [->|Hx]%elem_of_cons; [by left|right; by apply IH]. Qed.

Lemma elem_of_jset {V} (m : list (jsstr * V)) k v x : x ∈ jset m k v -> x = (k, v) \/ x ∈ m.
Proof.
  induction m as [|[k' v'] m IH]; cbn; [intros ->%list_elem_of_singleton; by left|]. case_decide; intros [->|Hx]%elem_of_cons.
  - by left.
  - right. by right.
  - right. by left.
  - destruct (IH Hx) as [->|?]; [by left|right; by right].
Qed.

Lemma inv_upd_open c l : inv c -> (forall x, x ∈ l -> x ∈ openSteps c) -> inv (upd_open c l).
Proof. intros [] H. split; try done. intros uuid id Hx. by apply (inv_open0 uuid id), H. Qed.

Lemma inv_upd_tokens c a b : inv c -> inv (upd_tokens c a b).
Proof. intros []. by split. Qed.

Lemma inv_stepEnd n c uuid u : inv c -> inv (stepEnd None n c uuid u).
Proof.
  intros H. unfold stepEnd. cbv zeta. apply inv_flush.
  assert (inv (upd_open c (jdel (openSteps c) uuid))) as H' by (apply inv_upd_open; [done|]; intros x; apply elem_of_jdel).
  destruct u; [|done]. case_match; [by apply inv_emit, inv_upd_tokens|by apply inv_upd_tokens].
Qed.

Lemma inv_close n text l : forall c, inv c -> inv (fold_left (close_one None n text) l c).
Proof. induction l as [|id l IH]; intros c H; [done|]. apply IH, inv_result, inv_logRecord, H. Qed.

Lemma inv_begin n c uuid : inv c -> inv (upd_open (pushHistory None n c [step_message]) (jset (openSteps (pushHistory None n c [step_message])) uuid (next_id c))).
Proof.
  intros H. assert (inv (pushHistory None n c [step_message])) as [I1 I2 I3 I4 I5 I6] by (apply inv_push; [done|by split_and!; [..|left]|done]).
  split; try done. intros uuid' id [[= -> ->]|Hx]%elem_of_jset; [|by apply (I6 uuid' id)]. cbn [upd_open entries pushHistory fold_left push_one]. split.
  - exists (Entry (next_id c) step_message). split; [apply elem_of_app; right; by left|done].
  - intros e [He|He%list_elem_of_singleton]%elem_of_app Ei; [|by subst e]. pose proof (inv_ids c H) as Hi. rewrite Forall_forall in Hi. specialize (Hi e He). lia.
Qed.

Lemma inv_event n c e : inv c -> inv (appendLoopEvent None n c e).1.
Proof.
  intros H. apply (inv_logRecord None c (RLoopEvent e)) in H. unfold appendLoopEvent. cbv zeta. set (c0 := logRecord None c (RLoopEvent e)) in *. destruct e.
  - unfold closePendingToolResults. cbn [fst]. apply (inv_close n TOOL_INTERRUPTED_ON_RESUME_OUTPUT (pending c0)) in H.
    destruct (pending c0); by apply inv_begin.
  - by apply inv_stepEnd.
  - destruct (jget (openSteps c0) stepUuid) as [id|] eqn:E; [|done]. apply jget_Some_in in E. eapply inv_grow; [|done|exact E]. intros m. apply add_part_grown.
  - destruct (jget (openSteps c0) stepUuid) as [id|] eqn:E; [|done]. apply jget_Some_in in E. cbn [fst]. set (t := ToolCall _ _ _).
    assert (inv (grow c0 id (add_call t))) as H' by (eapply inv_grow; [|done|exact E]; intros m; apply add_call_grown).
    apply inv_upd_pending; [done|]. assert (pending (grow c0 id (add_call t)) ⊆ calls (grow c0 id (add_call t))) as Hp by apply H'.
    case_bool_decide; [done|]. intros x [Hx|Hx%list_elem_of_singleton]%elem_of_app; [by apply Hp|]. rewrite Hx. by eapply (grow_new_call c0 stepUuid id t).
  - by apply inv_result.
Qed.

(** ** Removing *)

Lemma undo_kept l : forall count users tok covered, let r := undo_loop l count users tok covered in
  exists inj mid older, u_kept r = inj ++ older /\ l = mid ++ older /\ Forall (fun e => is_injection (e_msg e) = true) inj /\ inj ⊆ l.
Proof.
  induction l as [|e l IH]; intros count users tok covered; cbn [undo_loop]; cbv zeta; [by exists [], [], []|].
  destruct (is_injection (e_msg e)) eqn:Ei.
  { destruct (IH count users tok covered) as (inj & mid & older & E & El & Hi & Hs). exists (e :: inj), (e :: mid), older. cbn [u_kept]. split_and!.
    - by rewrite E.
    - by rewrite El at 1.
    - by constructor.
    - intros x [->|Hx]%elem_of_cons; [by left|right; by apply Hs]. }
  destruct (isCompactionSummaryMessage (e_msg e)); [by exists [], [], (e :: l); split_and!; [..|apply list_subseteq_nil]|].
  destruct (if Z.of_nat (length l) <? covered then _ else _) as [tok' covered'].
  match goal with |- context [if ?b then Undone _ _ _ _ _ _ _ else ?r] => destruct b; [by exists [], [e], l; split_and!; [..|apply list_subseteq_nil]|destruct (IH count (if isRealUserInput (e_msg e) then users + 1 else users) tok' covered') as (inj & mid & older & E & El & Hi & Hs)] end.
  exists inj, (e :: mid), older. cbn [u_kept]. split_and!; [done|by rewrite El at 1|done|]. intros x Hx. right. by apply Hs.
Qed.

Lemma inv_cut c c' pre suf ext : inv c -> entries c = pre ++ suf -> entries c' = pre ++ ext ->
  Forall (fun e => outside (base (e_msg e))) ext -> Forall (fun e => (e_id e < next_id c')%nat) ext -> (next_id c <= next_id c')%nat ->
  pending c' = [] -> openSteps c' = [] -> deferred c' = [] -> inv c'.
Proof.
  intros [I1 I2 I3 I4 I5 I6] E E' Hx Hi Hn Hp Ho Hd. unfold history in I1, I2. rewrite E in I1, I2, I5. rewrite !fmap_app in I1. rewrite fmap_app in I2.
  split; unfold history; rewrite ?E', ?Hp, ?Ho, ?Hd.
  - rewrite !fmap_app. apply answered_app in I1 as [I1 _]. apply answered_app. split; [done|]. apply answered_outside. by rewrite !Forall_fmap.
  - rewrite fmap_app. apply Forall_app in I2 as [I2 _]. apply Forall_app. split; [done|]. rewrite Forall_fmap. eapply Forall_impl; [exact Hx|].
    intros e. apply outside_good.
  - constructor.
  - apply list_subseteq_nil.
  - apply Forall_app. split; [|done]. apply Forall_app in I5 as [I5 _]. eapply Forall_impl; [exact I5|]. cbn. lia.
  - intros uuid id H. by apply elem_of_nil in H.
Qed.

Lemma outside_no_calls m : outside m -> all_call_ids [m] = [].
Proof. intros (_ & Ha & _). rewrite all_call_ids_cons. destruct (is_assistant m); [by rewrite Ha|done]. Qed.

Lemma inv_drop c l1 e l2 : inv c -> entries c = l1 ++ e :: l2 -> outside (base (e_msg e)) ->
  (is_assistant (base (e_msg e)) = true -> origin (e_msg e) <> None) -> inv (upd_entries c (l1 ++ l2)).
Proof.
  intros [I1 I2 I3 I4 I5 I6] E He Hno.
  assert (Hs : forall x, x ∈ l1 ++ l2 -> x ∈ entries c) by (intros x; rewrite E, !elem_of_app, elem_of_cons; tauto).
  assert (Hc : calls c = all_call_ids (base <$> (e_msg <$> (l1 ++ l2)))).
  { unfold history. rewrite E, !fmap_app, !all_call_ids_app. f_equal. cbn [fmap list_fmap]. change (base (e_msg e) :: ?l) with ([base (e_msg e)] ++ l).
    by rewrite all_call_ids_app, outside_no_calls. }
  unfold history in I1, I2. split; unfold history; cbn [upd_entries entries deferred ContextMemory.pending openSteps next_id].
  - rewrite E, !fmap_app in I1. cbn [fmap list_fmap] in I1. rewrite !fmap_app. apply answered_app in I1 as [I1 I1']. apply answered_app. split; [done|].
    cbn [answered] in I1'. destruct He as (Ht & Ha & _). rewrite Ht in I1'. cbn [andb] in I1'. destruct (is_assistant _); [by rewrite (Ha eq_refl) in I1'|done].
  - rewrite Forall_fmap, Forall_forall in I2. rewrite Forall_fmap, Forall_forall. intros x Hx. by apply I2, Hs.
  - done.
  - by rewrite <- Hc.
  - rewrite Forall_forall in I5 |- *. intros x Hx. by apply I5, Hs.
  - intros uuid id H. destruct (I6 _ _ H) as [(x & Hx & Ei) Ha]. split.
    + exists x. split; [|done]. rewrite E in Hx. apply elem_of_app in Hx as [Hx|[->|Hx]%elem_of_cons]; [apply elem_of_app; by left| |apply elem_of_app; by right].
      exfalso. destruct (Ha e) as [H1 H2]; [rewrite E; apply elem_of_app; right; by left|done|]. by apply (Hno H1).
    + intros x' Hx'. apply Ha. by apply Hs.
Qed.

Lemma good_injection m : good m -> is_injection m = true -> outside (base m).
Proof. intros (_ & _ & [E|H]) Hi; [|done]. unfold is_injection in Hi. by rewrite E in Hi. Qed.

Lemma good_user m : good m -> is_user (base m) = true -> outside (base m).
Proof.
  intros (G1 & G2 & _) Hu. unfold is_user in Hu. apply bool_decide_eq_true in Hu. unfold outside, is_tool, is_assistant. by rewrite Hu.
Qed.

Lemma inv_entry c e : inv c -> e ∈ entries c -> good (e_msg e).
Proof. intros H He. pose proof (inv_good c H) as Hg. unfold history in Hg. rewrite Forall_fmap, Forall_forall in Hg. by apply Hg. Qed.

Lemma inv_undo c count : inv c -> inv (undo None c count).1.
Proof.
  intros H. unfold undo. case_match; [done|]. cbv zeta. cbn [fst]. apply inv_emit.
  pose proof (undo_kept (rev (entries c)) count 0 (tokenCount c) (coveredCount c)) as (inj & mid & older & E & El & Hi & Hs).
  change (entries (logRecord None c (RUndo count))) with (entries c).
  change (tokenCount (logRecord None c (RUndo count))) with (tokenCount c). change (coveredCount (logRecord None c (RUndo count))) with (coveredCount c).
  set (r := undo_loop _ _ _ _ _) in *.
  apply (inv_cut c _ (rev older) (rev mid) (rev inj)); cbn [entries next_id ContextMemory.pending openSteps deferred]; try done.
  - apply (f_equal (@rev _)) in El. by rewrite rev_involutive, rev_app_distr in El.
  - by rewrite E, rev_app_distr.
  - apply List.Forall_rev. rewrite Forall_forall in Hi |- *. intros e He. apply good_injection; [|by apply Hi].
    apply (inv_entry c); [done|]. specialize (Hs e He). by rewrite list_elem_of_In, <- in_rev, <- list_elem_of_In in Hs.
  - apply List.Forall_rev. apply Forall_forall. intros e He. pose proof (inv_ids c H) as Hd. rewrite Forall_forall in Hd. apply Hd.
    specialize (Hs e He). by rewrite list_elem_of_In, <- in_rev, <- list_elem_of_In in Hs.
Qed.

Lemma tail_input_split l newer e older : tail_input l = Some (newer, e, older) -> l = newer ++ e :: older.
Proof.
  revert newer. induction l as [|x l IH]; intros newer; cbn [tail_input]; [done|]. case_match; [|by intros [= <- <- <-]].
  destruct (tail_input l) as [[[n' y] rest]|]; [|done]. intros [= <- -> ->]. cbn. f_equal. by apply IH.
Qed.

Lemma inv_withdraw c : inv c -> inv (withdrawUnansweredTailInput None c).1.
Proof.
  intros H. unfold withdrawUnansweredTailInput. destruct (tail_input (rev (entries c))) as [[[newer e] older]|] eqn:E; [|done].
  apply tail_input_split in E. apply (f_equal (@rev _)) in E. rewrite rev_involutive, rev_app_distr in E. cbn [rev] in E. rewrite <- app_assoc in E. cbn [app] in E.
  destruct (isRealUserInput (e_msg e)) eqn:Er; cbn [negb]; [|done]. cbv zeta. cbn [fst]. apply inv_emit.
  assert (inv (emit (upd_entries (logRecord None c RWithdrawTailInput) (rev older ++ rev newer)) [InjectionMessageRemoved (length older)])) as H'.
  { apply inv_emit. apply (inv_drop (logRecord None c RWithdrawTailInput) (rev older) e (rev newer)); [by apply inv_logRecord|exact E|..].
    - unfold isRealUserInput in Er. apply andb_true_iff in Er as [Er _]. apply good_user; [apply (inv_entry c); [done|]; rewrite E; apply elem_of_app; right; by left|done].
    - unfold isRealUserInput in Er. apply andb_true_iff in Er as [Er _]. unfold is_user, is_assistant in *. apply bool_decide_eq_true in Er. by rewrite Er. }
  case_match; [by apply inv_upd_tokens|done].
Qed.

Lemma last_removelast {A} (l : list A) x : last l = Some x -> l = removelast l ++ [x].
Proof.
  intros Hl. apply last_Some in Hl as [l' ->]. by rewrite removelast_last.
Qed.

Lemma inv_pop c f : inv c -> (forall o, f o = true -> o <> None) -> inv (popMatchedMessage c f).1.
Proof.
  intros H Hf. unfold popMatchedMessage. destruct (last (deferred c)) as [m|] eqn:E.
  - case_match; [|done]. cbn [fst]. apply inv_upd_deferred; [done|]. pose proof (inv_deferred c H) as Hd.
    rewrite (last_removelast _ _ E) in Hd. by apply Forall_app in Hd as [Hd _].
  - destruct (last (entries c)) as [e|] eqn:Ee; [|done]. case_match eqn:Em; [|done]. cbn [fst].
    rewrite <- (app_nil_r (removelast (entries c))). apply last_removelast in Ee. apply Hf in Em. apply (inv_drop c _ e); [done|exact Ee| |by intros _].
    destruct (inv_entry c e H) as (G1 & G2 & [G|G]); [rewrite Ee; apply elem_of_app; right; by left|done|exact G].
Qed.

Lemma fresh_spec ms : forall id, e_msg <$> fresh id ms = ms /\ Forall (fun e => (e_id e < id + length ms)%nat) (fresh id ms).
Proof.
  induction ms as [|m ms IH]; intros id; [done|]. cbn. destruct (IH (S id)) as [E H]. rewrite E. split; [done|].
  constructor; [cbn; lia|]. eapply Forall_impl; [exact H|]. cbn. lia.
Qed.

Lemma inv_compaction c i : inv c -> inv (applyCompaction None c i).1.
Proof.
  intros H. unfold applyCompaction. cbv zeta. cbn [fst]. apply inv_emit. unfold compacted, isLegacyRestore. cbn [is_restoring andb].
  set (s := selection_of None c i). set (p := slice_at (entries c) (pinned_prefix None c i)).
  set (ms := selected s ++ [user_message [TextPart (context_summary i)] (Some OCompactionSummary)]).
  apply (inv_cut c _ (take p (entries c)) (drop p (entries c)) (fresh (next_id c) ms)); cbn [entries next_id ContextMemory.pending openSteps deferred]; try done.
  - by rewrite take_drop.
  - apply (Forall_fmap e_msg (fun m => outside (base m))). rewrite (proj1 (fresh_spec ms (next_id c))). subst ms.
    apply Forall_app. split; [|by apply Forall_singleton]. unfold selected.
    assert (Forall (fun m => outside (base m)) (s_head s) /\ Forall (fun m => outside (base m)) (s_tail s)) as [Hh Ht].
    { subst s. unfold selection_of, compaction_selection. cbn [restoreTailOnly is_restoring andb]. apply selection_closed.
      - intros m t (H1 & H2 & H3 & H4). split_and!; [done|done| |done]. unfold plain_user in *. cbn.
        change (is_user _) with (is_user (base m)). change (has_tools _) with (has_tools (base m)). destruct (is_user (base m)); [|done].
        cbn in *. by apply andb_true_iff in H3 as [_ ->].
      - unfold collectCompactableUserMessages. apply Forall_forall. intros m Hm. apply list_elem_of_In, List.filter_In in Hm as [Hm Hr].
        apply andb_true_iff in Hr as [Hr _]. apply andb_true_iff in Hr as [Hr _]. apply good_user; [|done].
        pose proof (inv_good c H) as Hg. rewrite Forall_forall in Hg. apply Hg. unfold slice_from in Hm. apply list_elem_of_In in Hm.
        rewrite <- (take_drop (slice_at (history c) (pinned_prefix None c i)) (history c)). apply elem_of_app. by right. }
    apply Forall_app. split; [done|]. apply Forall_app. split; [|done]. unfold elision_message. destruct (elided s); [by apply Forall_singleton|constructor].
  - eapply Forall_impl; [apply (proj2 (fresh_spec ms (next_id c)))|]. intros e. subst ms. rewrite length_app. cbn. lia.
  - cbn. lia.
Qed.

(** * Requests *)

(** The messages that operations add from outside the loop have no calls and no results. *)
Definition op_outside (o : op) : Prop := match o with AppendMessage m => outside (base m) | _ => True end.

Section agent.
Context (enter_reminder exit_reminder : jsstr).

Lemma user_outside ps o : outside (base (user_message ps o)).
Proof. done. Qed.

Lemma inv_user n c ps o : inv c -> inv (appendUserMessage None n c ps o).
Proof.
  intros H. unfold appendUserMessage. case_bool_decide; [done|]. destruct (if bool_decide (o = OUser) then _ else _) as [captions parts].
  match goal with |- context [fold_left ?f captions c] => assert (inv (fold_left f captions c)) as H' end.
  { clear -H. revert c H. induction captions as [|x l IH]; intros c H; [done|]. apply IH. by apply inv_append. }
  case_bool_decide; [done|]. by apply inv_append.
Qed.

Lemma inv_live now a o : inv (ctx a) -> op_outside o -> inv (ctx (live enter_reminder exit_reminder now a o)).
Proof.
  intros H Ho. destruct o; cbn [live on_ctx ctx].
  - by apply inv_append.
  - by apply inv_user.
  - by apply inv_append.
  - by apply inv_append.
  - by apply inv_append.
  - by apply inv_append.
  - by apply inv_event.
  - unfold closeAbandonedToolExchange, closePendingToolResults. cbn [fst]. by apply inv_close.
  - eapply (inv_same (Context [] 0 0 [] [] [] None (repairLog (ctx a)) (next_id (ctx a)) (effects (ctx a)))); [done|].
    split; cbn; try done. intros uuid id Hx. by apply elem_of_nil in Hx.
  - unfold importContext. cbv zeta. repeat (case_match; [done|]). cbn [fst].
    apply inv_emit, inv_upd_tokens, inv_logRecord, inv_append; done.
  - by apply inv_emit, inv_upd_tokens, inv_logRecord.
  - by apply inv_undo.
  - by apply inv_withdraw.
  - by apply inv_compaction.
  - unfold swarm_enter. destruct (active a); [done|]. cbn [ctx]. apply inv_emit. destruct t; try apply inv_append; try done; by apply inv_logRecord.
  - unfold swarm_exit. destruct (active a) as [t|]; [|done]. cbv zeta.
    set (c := emit (logRecord None (ctx a) RSwarmExit) [StatusUpdated]).
    assert (inv c) as Hc by (by apply inv_emit, inv_logRecord).
    assert (inv (popMatchedMessage c is_swarm_mode).1) as Hp.
    { apply inv_pop; [done|]. intros o' Ho'. unfold is_swarm_mode in Ho'. apply bool_decide_eq_true in Ho' as ->. done. }
    destruct t; [| |done]; destruct (popMatchedMessage c is_swarm_mode) as [c' []]; cbn [fst ctx] in *; try done; by apply inv_append.
Qed.

Lemma inv_live_all ops : forall a, inv (ctx a) -> Forall (fun o => op_outside o.2) ops -> inv (ctx (live_all enter_reminder exit_reminder a ops)).
Proof.
  induction ops as [|[now o] ops IH]; intros a H Ho; [done|]. apply Forall_cons in Ho as [Ho Hos]. apply (IH (live enter_reminder exit_reminder now a o)); [|done].
  by apply inv_live.
Qed.

(** C11. Every request can be made compliant. Whatever the operations of a session on a
    new conversation, in whatever order — messages in the middle of steps, results that
    come late or twice, calls left open, undo, compaction, import, and messages appended
    from outside the loop, of whatever role but whole and without calls and results — the strict
    projection of its history never fails and is a request a strict provider accepts: it
    starts with a user message, every call has its own id and exactly one result directly
    after the message that makes it, there is no other result, no empty message, and no
    two assistant messages are adjacent. *)
Theorem session_always_sendable ops : Forall (fun o => op_outside o.2) ops ->
  let c := ctx (live_all enter_reminder exit_reminder (Agent empty_context None) ops) in
  exists out an, project (history c) strict_options = Ok (out, an) /\
    exchange_ok false [] out = true /\ NoDup (all_call_ids out) /\
    match out with m :: _ => is_user m = true | [] => True end /\
    Forall (fun m => sendable m = true) out /\ no_adjacent_assistants out = true.
Proof.
  intros Ho c. pose proof (inv_live_all ops (Agent empty_context None) inv_empty Ho) as H. fold c in H.
  apply strict_of_good; apply H.
Qed.
End agent.

(** * No message is stranded *)

(** Messages wait only while a call is open, and a call is open once. *)
Definition waiting (c : ContextMemory.context) : Prop := NoDup (pending c) /\ (deferred c = [] \/ pending c <> []).

Lemma deferred_push r n ms : forall c, deferred (pushHistory r n c ms) = deferred c.
Proof. induction ms as [|m ms IH]; intros c; [done|]. by apply (IH (push_one r n c m)). Qed.

Lemma waiting_flush r n c : NoDup (pending c) -> waiting (flushDeferredMessagesIfToolExchangeClosed r n c).
Proof.
  intros N. split; [by rewrite pending_flush|]. rewrite pending_flush. unfold flushDeferredMessagesIfToolExchangeClosed.
  destruct (negb _ || _) eqn:E; [|by left]. apply orb_true_iff in E as [E|E]; [right|left].
  - by apply negb_true_iff, bool_decide_eq_false in E.
  - by apply bool_decide_eq_true in E.
Qed.

Lemma waiting_push r n c ms : waiting c -> waiting (pushHistory r n c ms).
Proof. unfold waiting. by rewrite pending_push, deferred_push. Qed.

Lemma waiting_same c d : same c d -> waiting c -> waiting d.
Proof. intros H. unfold waiting. by rewrite (same_pending _ _ H), (same_deferred _ _ H). Qed.

Lemma waiting_append r n c m : waiting c -> waiting (appendMessage r n c m).
Proof.
  intros W. unfold appendMessage, hasOpenToolExchange. cbv zeta. pose proof (waiting_same c _ (symmetry (logRecord_same r c (RAppendMessage m))) W) as [N D].
  case_match eqn:E; [|by apply waiting_push]. split; [done|]. right. by apply negb_true_iff, bool_decide_eq_false in E.
Qed.

Lemma waiting_result n c id out err sn : waiting c -> waiting (toolResult None n c id out err sn).
Proof.
  intros [N D]. unfold toolResult. case_match; [done|]. apply waiting_flush. cbn [upd_pending ContextMemory.pending]. rewrite pending_push. by apply set_delete_NoDup.
Qed.

Lemma waiting_event n c e : waiting c -> waiting (appendLoopEvent None n c e).1.
Proof.
  intros W. apply (waiting_same c _ (symmetry (logRecord_same None c (RLoopEvent e)))) in W. unfold appendLoopEvent. cbv zeta. set (c0 := logRecord _ _ _) in *. clearbody c0. clear c. destruct e.
  - unfold closePendingToolResults. cbn [fst].
    assert (waiting (fold_left (close_one None n TOOL_INTERRUPTED_ON_RESUME_OUTPUT) (pending c0) c0)) as W'.
    { generalize (pending c0). intros l. revert W. generalize c0. induction l as [|id l IH]; intros c1 W; [done|].
      apply IH, waiting_result. eapply waiting_same; [|exact W]. symmetry. apply logRecord_same. }
    destruct (pending c0); apply (waiting_push None n _ [step_message] W').
  - apply waiting_flush. destruct W as [N _]. destruct usage; [|done]. cbv zeta. by case_match.
  - by case_match.
  - case_match; [|done]. destruct W as [N D]. cbn [fst]. change (pending (grow c0 _ _)) with (pending c0). case_bool_decide; [by split|]. split; [|right; by destruct (pending c0)].
    apply NoDup_app. split_and!; [done| |apply NoDup_singleton]. by intros x Hx ->%list_elem_of_singleton.
  - by apply waiting_result.
Qed.

Lemma waiting_close n text l : forall c, waiting c -> waiting (fold_left (close_one None n text) l c).
Proof. induction l as [|id l IH]; intros c W; [done|]. apply IH, waiting_result. eapply waiting_same; [|exact W]. symmetry. apply logRecord_same. Qed.

Lemma waiting_pop c f : waiting c -> waiting (popMatchedMessage c f).1.
Proof.
  intros [N D]. unfold popMatchedMessage. destruct (last (deferred c)) eqn:E; repeat case_match; split; try done. cbn. destruct D as [D|D]; [|by right].
  by rewrite D in E.
Qed.

Section waiting.
Context (enter_reminder exit_reminder : jsstr).

Lemma waiting_live now a o : waiting (ctx a) -> waiting (ctx (live enter_reminder exit_reminder now a o)).
Proof.
  intros H. assert (forall n c m, waiting c -> waiting (appendMessage None n c m)) as Ha by (intros; by apply waiting_append).
  destruct o; cbn [live on_ctx ctx]; try by apply Ha.
  - unfold appendUserMessage. case_bool_decide; [done|]. destruct (if bool_decide (o = OUser) then _ else _) as [captions parts].
    match goal with |- context [fold_left ?f captions (ctx a)] => assert (waiting (fold_left f captions (ctx a))) as H' end.
    { revert H. generalize (ctx a). induction captions as [|x l IH]; intros c H; [done|]. by apply IH, Ha. }
    case_bool_decide; [done|]. by apply Ha.
  - by apply waiting_event.
  - by apply waiting_close.
  - split; [constructor|by left].
  - unfold importContext. cbv zeta. repeat (case_match; [done|]). cbn [fst]. by apply (Ha now (ctx a)).
  - done.
  - unfold undo. case_match; [done|]. split; [constructor|by left].
  - unfold withdrawUnansweredTailInput. destruct (tail_input _) as [[[? ?] ?]|]; [|done]. case_match; [done|]. cbv zeta. cbn [fst]. by case_match.
  - split; [constructor|by left].
  - unfold swarm_enter. destruct (active a); [done|]. destruct t; try done; cbn; by apply (Ha now (logRecord None (ctx a) _)).
  - unfold swarm_exit. destruct (active a) as [t|]; [|done]. cbv zeta. set (c := emit (logRecord None (ctx a) RSwarmExit) [StatusUpdated]).
    pose proof (waiting_pop c is_swarm_mode H) as Hp. destruct t; [| |done]; destruct (popMatchedMessage c is_swarm_mode) as [c' []]; cbn [fst ctx] in *; try done; by apply Ha.
Qed.

Lemma waiting_live_all ops : forall a, waiting (ctx a) -> waiting (ctx (live_all enter_reminder exit_reminder a ops)).
Proof. induction ops as [|[now o] ops IH]; intros a H; [done|]. apply (IH (live _ _ now a o)). by apply waiting_live. Qed.

Lemma set_delete_head id l : id ∉ l -> set_delete id (id :: l) = l.
Proof.
  intros H. unfold set_delete. cbn [List.filter]. rewrite bool_decide_eq_true_2 by done. cbn [negb].
  change (set_delete id l = l). by apply set_delete_out.
Qed.

Lemma close_history n text l : forall c, pending c = l -> NoDup l ->
  let c' := fold_left (close_one None n text) l c in
  history c' = history c ++ ((fun id => result_message id (OutText text) (Some true) None) <$> l) ++ (if bool_decide (l = []) then [] else deferred c) /\
  (l <> [] -> deferred c' = []).
Proof.
  induction l as [|id l IH]; intros c Hp N; cbn [fold_left]; [by rewrite app_nil_r|]. apply NoDup_cons in N as [Hid N].
  set (c1 := close_one None n text c id).
  set (r := result_message id (OutText text) (Some true) None).
  assert (pending c1 = l) as Hp1.
  { subst c1. unfold close_one. rewrite pending_result, pending_logRecord, Hp; [by apply set_delete_head|]. rewrite pending_logRecord, Hp. by left. }
  assert (c1 = flushDeferredMessagesIfToolExchangeClosed None n (upd_pending (pushHistory None n (logRecord None c (closing text id)) [r]) l)) as Hc1.
  { subst c1. unfold close_one, toolResult. rewrite pending_logRecord, Hp, bool_decide_eq_true_2 by by left. cbn [negb].
    by rewrite pending_push, pending_logRecord, Hp, set_delete_head. }
  destruct (IH c1 Hp1 N) as [H1 H2]. fold c1. rewrite H1. rewrite (bool_decide_eq_false_2 (id :: l = [])) by done. clear H1 IH.
  unfold flushDeferredMessagesIfToolExchangeClosed in Hc1. change (pending (upd_pending _ l)) with l in Hc1.
  change (deferred (upd_pending (pushHistory None n (logRecord None c (closing text id)) [r]) l)) with (deferred c) in Hc1.
  destruct l as [|id' l].
  - cbn [fmap list_fmap]. rewrite bool_decide_eq_true_2, !app_nil_r by done. cbn [negb orb] in Hc1.
    destruct (decide (deferred c = [])) as [Hd|Hd]; [rewrite (bool_decide_eq_true_2 (deferred c = [])) in Hc1 by done|rewrite (bool_decide_eq_false_2 (deferred c = [])) in Hc1 by done].
    + rewrite orb_true_r in Hc1. rewrite Hc1, Hd. split; [|done].
      change (history (pushHistory None n (logRecord None c (closing text id)) [r]) = history c ++ [r] ++ []). by rewrite history_push.
    + change (negb (bool_decide ([] = [])) || false) with false in Hc1. rewrite Hc1. split; [|done].
      change (history (pushHistory None n (upd_pending (pushHistory None n (logRecord None c (closing text id)) [r]) []) (deferred c)) = history c ++ [r] ++ deferred c).
      rewrite history_push. change (history (upd_pending ?x [])) with (history x). rewrite history_push. by rewrite <- app_assoc.
  - rewrite (bool_decide_eq_false_2 (id' :: l = [])) in Hc1 |- * by done. cbn [negb orb] in Hc1. split; [|intros _; by apply H2].
    rewrite Hc1. cbn [deferred upd_pending]. rewrite deferred_push.
    change (history (upd_pending ?x (id' :: l))) with (history x). rewrite history_push.
    cbn [fmap list_fmap]. rewrite <- app_assoc. done.
Qed.

(** C39. No message is lost or stranded. After any operations of a session, ending the
    turn closes every open call with one error result and then delivers every message
    that waited, in order: nothing is open and nothing waits afterwards. *)
Theorem turn_end_delivers ops now text :
  let c := ctx (live_all enter_reminder exit_reminder (Agent empty_context None) ops) in
  let c' := (closeAbandonedToolExchange None now c text).1 in
  pending c' = [] /\ deferred c' = [] /\
  history c' = history c ++ ((fun id => result_message id (OutText text) (Some true) None) <$> pending c) ++ deferred c.
Proof.
  intros c c'. assert (waiting c) as [N D] by (apply waiting_live_all; split; [constructor|by left]).
  destruct (close_history now text (pending c) c eq_refl N) as [H1 H2]. change (fold_left _ _ c) with c' in H1, H2.
  split; [by apply pending_close_all|]. destruct (decide (pending c = [])) as [E|E].
  - assert (c' = c) as -> by (subst c'; unfold closeAbandonedToolExchange, closePendingToolResults; by rewrite E).
    destruct D as [D|D]; [|done]. rewrite E, D. cbn. by rewrite app_nil_r.
  - split; [by apply H2|]. by rewrite (bool_decide_eq_false_2 (pending c = [])) in H1.
Qed.
End waiting.

(** * Examples *)

Definition ex_bash_ops : list (Z * op) :=
  [(1, UserMessage [TextPart (js "go")] OUser);
   (2, LoopEvent (StepBegin (js "s1")));
   (3, BashOutput (js "ok") (js "") None);
   (4, LoopEvent (ToolCallEvent (js "s1") (js "t1") (js "Read") None));
   (5, LoopEvent (ToolResultEvent (js "t1") (OutText (js "text")) None None))].

Definition ex_bash : list context_message := history (ctx (live_all [] [] ex_agent ex_bash_ops)).

(** A shell command's output that arrives while a step is open, before its first tool
    call, is between the call and its result: the history then has an unresolved
    exchange that is not at its tail. The projection moves the result. *)
Example output_splits_exchange :
  role ∘ base <$> ex_bash = [User; Assistant; User; ToolRole] /\ exchange_ok true [] (base <$> ex_bash) = false /\
  match project ex_bash normal_options with Ok (out, an) => role <$> out = [User; Assistant; ToolRole; User] | _ => False end.
Proof. vm_compute. auto. Qed.

(** What a session appends when a hook blocks a prompt. *)
Definition ex_blocked : context_message :=
  ContextMessage (Message Assistant None [TextPart (js "blocked")] [] None false None) (Some (OHookResult (js "UserPromptSubmit") true)) None None.

(** The messages a fork starts from are in no record: replaying its log gives an empty
    conversation. *)
Example fork_is_not_replayed :
  match project ex_bash normal_options with
  | Ok (out, an) =>
      let child := Agent (useProjectedHistoryFrom None 8 empty_context out) None in
      length (entries (ctx child)) = 4%nat /\ entries (ctx (replay [] ex_agent (pair 9 <$> written child))) = []
  | _ => False
  end.
Proof. vm_compute. auto. Qed.

Lemma session_always_sendable_witness :
  Forall (fun o => op_outside o.2) (ex_session ++ ex_bash_ops ++ [(6, AppendMessage ex_blocked)]) /\
  let c := ctx (live_all [] [] (Agent empty_context None) (ex_session ++ ex_bash_ops ++ [(6, AppendMessage ex_blocked)])) in
  exists out an, project (history c) strict_options = Ok (out, an) /\
    exchange_ok false [] out = true /\ NoDup (all_call_ids out) /\
    match out with m :: _ => is_user m = true | [] => True end /\
    Forall (fun m => sendable m = true) out /\ no_adjacent_assistants out = true.
Proof.
  assert (Forall (fun o => op_outside o.2) (ex_session ++ ex_bash_ops ++ [(6, AppendMessage ex_blocked)])) as H by (by repeat constructor).
  split; [exact H|]. exact (session_always_sendable [] [] _ H).
Defined.
