(* ===== verification/TurnLoop.v ===== *)
(** One turn of an agent: [loop/run-turn.ts], [turn-step.ts] and [retry.ts]. The host,
    its hooks, the provider and the batch of tool calls are callbacks over a state of
    their own; everything they are asked to do, and every event of the loop, is recorded
    in order. A step's streaming runner is the list of the calls offered to it while the
    step's requests stream, failed ones included; what it does with a call (prepare it,
    start it early) is the host's, and the subject of ToolCalls.v. Live deltas, log lines,
    timings and trace ids are left out. Times are whole milliseconds. *)

From S2P Require Import Prelude JsMap Json JsonText JsString Messages ContextMemory.

(** * Data *)

Inductive media_projection : Type := Normal | MediaDegraded | MediaStripped.
(** What a request is built with: the step's own projection or a resend. *)
Inductive projection : Type := Media (p : media_projection) | Strict.

Inductive finish_reason : Type := Completed | ToolCalls | Truncated | FilteredReason | PausedReason | OtherReason.
Inductive step_stop : Type := EndTurn | MaxTokens | ToolUse | Filtered | Paused | Unknown.
Inductive turn_stop : Type := Stop (s : step_stop) | Aborted.

#[global] Instance media_projection_eq_dec : EqDecision media_projection.
Proof. solve_decision. Defined.
#[global] Instance step_stop_eq_dec : EqDecision step_stop.
Proof. solve_decision. Defined.

Record response : Type := Response {
  r_toolCalls : list tool_call;
  providerFinishReason : option finish_reason;
  r_usage : token_usage;
}.

(** An error of the provider, as [instanceof APIRequestTooLargeError],
    [isImageFormatError], [isRecoverableRequestStructureError] and its [retryAfterMs] see
    it. *)
Record provider_error : Type := ProviderError { tooLarge : bool; imageFormat : bool; structure : bool; retryAfterMs : option Z }.

Inductive loop_error : Type :=
| AbortErr (userCancelled : bool)
| MaxStepsExceeded (maxSteps : Z)
| RateLimitPause (resumeAfterMs attempts totalWaitMs : Z)
| Provider (p : provider_error)
| OtherErr (text : jsstr).

Definition isAbortError (e : loop_error) : bool := match e with AbortErr _ => true | _ => false end.
Definition isUserCancellation (e : loop_error) : bool := match e with AbortErr u => u | _ => false end.
Definition isMaxStepsExceededError (e : loop_error) : bool := match e with MaxStepsExceeded _ => true | _ => false end.
Definition isTooLarge (e : loop_error) : bool := match e with Provider p => tooLarge p | _ => false end.
Definition isImageFormatError (e : loop_error) : bool := match e with Provider p => imageFormat p | _ => false end.
Definition isRecoverableRequestStructureError (e : loop_error) : bool := match e with Provider p => structure p | _ => false end.

Inductive interrupt_reason : Type := IAborted | IMaxSteps | IError.
Inductive interrupt_cause : Type := CUserCancelled | CAborted | CMaxSteps | CError.

(** What the loop does, in order. *)
Inductive act : Type :=
| StepBegan (step : Z)
| StepEnded (step : Z) (u : token_usage) (reason : step_stop)
| Requested (step : Z) (p : projection) (attempt : Z)
| Offered (step : Z) (c : tool_call)
| Retrying (step failedAttempt delayMs : Z)
| UsageRecorded (u : token_usage)
| ToolsRun (step : Z) (offered : list tool_call) (r : response)
| CallsDrained (step : Z) (offered : list tool_call) (r : response)
| CallsClosed (step : Z) (r : response)
| Interrupted (reason : interrupt_reason) (attemptedSteps : Z) (activeStep : option Z) (cause : interrupt_cause).

Definition emptyUsage : token_usage := TokenUsage 0 0 0 0.
Definition addUsage (a b : token_usage) : token_usage :=
  TokenUsage (inputCacheRead a + inputCacheRead b) (inputCacheCreation a + inputCacheCreation b) (inputOther a + inputOther b) (output a + output b).

(** * Callbacks *)

Record retry_gate : Type := RetryGate { maxDelayMs : option Z; maxTotalWaitMs : option Z; autoResume : option bool }.

Section loop.
Context {W : Type}.

Abbreviation callback A := (W -> W * result loop_error A).

(** The fields of [RunTurnInput] the loop uses, with the tool batch of [tool-call.ts].
    [host_signal] is the reason of the abort, if the signal is aborted; [host_random] is
    the random part of a delay. [host_chat] gives, besides its outcome, the calls its
    stream reported as complete ([onToolCallReady]); [host_addReady] is what the runner
    does once a call is offered to it. The batch and the drain are given the runner. *)
Record host : Type := Host {
  host_signal : W -> option loop_error;
  host_beforeStep : option (Z -> callback (option jsstr));
  host_build : callback (list message);
  host_buildStrict : option (callback (list message));
  host_buildMediaDegraded : option (callback (list message));
  host_buildMediaStripped : option (callback (list message));
  host_dispatch : act -> callback unit;
  host_streamingToolExecution : bool;
  host_chat : list message -> W -> W * list tool_call * result loop_error response;
  host_addReady : tool_call -> W -> W;
  host_isRetryableError : option (loop_error -> bool);
  host_sleep : Z -> callback unit;
  host_random : nat -> Z -> Z;
  host_recordUsage : token_usage -> callback bool;
  host_runToolCallBatch : list tool_call -> response -> callback bool;
  host_drainInterrupted : list tool_call -> response -> callback unit;
  host_recordUnexecuted : response -> callback unit;
  host_afterStep : option (Z -> token_usage -> step_stop -> callback bool);
  host_shouldContinue : option (Z -> token_usage -> step_stop -> callback bool);
  host_maxSteps : option Z;
  host_maxRetryAttempts : option Z;
  host_gate : option retry_gate;
}.

(** [streamed] are the entries of the step's runner. *)
Record st : Type := St { world : W; usage : token_usage; trace : list act; streamed : list tool_call }.

(** * The state and error monad *)

Definition M (A : Type) : Type := st -> st * result loop_error A.

Definition ret {A} (x : A) : M A := fun s => (s, Ok x).
Definition throw {A} (e : loop_error) : M A := fun s => (s, Err e).
Definition bind {A B} (m : M A) (k : A -> M B) : M B := fun s => let '(s', r) := m s in match r with Ok x => k x s' | Err e => (s', Err e) end.
(** [try { m } catch (e) { h(e) }], and the completion of [m] as a value. *)
Definition try {A} (m : M A) (h : loop_error -> M A) : M A := fun s => let '(s', r) := m s in match r with Ok x => (s', Ok x) | Err e => h e s' end.
Definition attempt {A} (m : M A) : M (result loop_error A) := fun s => let '(s', r) := m s in (s', Ok r).
Definition call {A} (f : callback A) : M A := fun s => let '(w, r) := f (world s) in (St w (usage s) (trace s) (streamed s), r).
Definition tell (a : act) : M unit := fun s => (St (world s) (usage s) (trace s ++ [a]) (streamed s), Ok tt).
Definition get_world : M W := fun s => (s, Ok (world s)).
Definition get_streamed : M (list tool_call) := fun s => (s, Ok (streamed s)).

Declare Scope loop_scope.
Notation "'let!' x ':=' m 'in' k" := (bind m (fun x => k)) (at level 10, x name, m at level 100, k at level 200) : loop_scope.
Notation "m ';;;' k" := (bind m (fun _ => k)) (at level 100, right associativity) : loop_scope.
Open Scope loop_scope.

Context (h : host).

Definition throwIfAborted : M unit :=
  let! w := get_world in match host_signal h w with Some e => throw e | None => ret tt end.

(** [await dispatchEvent(e)] of a recorded event; a live one cannot fail. *)
Definition dispatch (a : act) : M unit := tell a ;;; call (host_dispatch h a).
Definition dispatch_live (a : act) : M unit := tell a ;;; (let! _ := attempt (call (host_dispatch h a)) in ret tt).

(** * Requests and retries *)

Definition DEFAULT_MAX_RETRY_ATTEMPTS : Z := 10.
Definition BASE_DELAY_MS : Z := 500.
Definition MAX_DELAY_MS : Z := 32000.
Definition RETRY_FACTOR : Z := 2.
Definition DEFAULT_FOREGROUND_MAX_DELAY_MS : Z := 60000.
Definition DEFAULT_FOREGROUND_MAX_TOTAL_WAIT_MS : Z := 150000.

Definition gate_maxDelay : Z := default DEFAULT_FOREGROUND_MAX_DELAY_MS (host_gate h ≫= maxDelayMs).
Definition gate_maxTotal : Z := default DEFAULT_FOREGROUND_MAX_TOTAL_WAIT_MS (host_gate h ≫= maxTotalWaitMs).
Definition gate_autoResume : bool := default true (host_gate h ≫= autoResume).

Definition retryBackoffDelays (maxAttempts : Z) : list Z :=
  (fun i => let base := Z.min (BASE_DELAY_MS * RETRY_FACTOR ^ Z.of_nat i) MAX_DELAY_MS in base + host_random h i base)
    <$> seq 0 (Z.to_nat (Z.max (maxAttempts - 1) 0)).

Definition readRetryAfterMs (e : loop_error) : option Z :=
  match e with
  | Provider p => match retryAfterMs p with Some v => if 0 <? v then Some v else None | None => None end
  | RateLimitPause v _ _ => if 0 <? v then Some v else None
  | _ => None
  end.

Definition applyForegroundGates (delayMs attempt totalWaitMs : Z) : M Z :=
  let singleBreached := gate_maxDelay <? delayMs in
  let cumulativeBreached := gate_maxTotal <? totalWaitMs + delayMs in
  if negb singleBreached && negb cumulativeBreached then ret delayMs
  else if negb gate_autoResume then ret (Z.min delayMs gate_maxDelay)
  else throw (RateLimitPause delayMs attempt (totalWaitMs + delayMs)).

(** [onToolCallReady]: a call is offered to the runner unless its id is there. *)
Definition offer (step : Z) (s : st) (c : tool_call) : st :=
  if negb (host_streamingToolExecution h) || bool_decide (call_id c ∈ call_id <$> streamed s) then s
  else St (host_addReady h c (world s)) (usage s) (trace s ++ [Offered step c]) (streamed s ++ [c]).

Definition chat (step : Z) (ms : list message) : M response := fun s =>
  let '(w, cs, r) := host_chat h ms (world s) in
  (fold_left (offer step) cs (St w (usage s) (trace s) (streamed s)), r).

Definition request (step : Z) (p : projection) (ms : list message) (attempt : Z) : M response :=
  tell (Requested step p attempt) ;;; chat step ms.

Definition sleepForRetry (delayMs : Z) : M unit := throwIfAborted ;;; call (host_sleep h delayMs).

(** [more] attempts remain after this one. *)
Fixpoint retry_loop (isRetryable : loop_error -> bool) (delays : list Z) (step : Z) (p : projection) (ms : list message)
    (more : nat) (attempt totalWaitMs : Z) : M response :=
  try (request step p ms attempt) (fun e =>
    match more with
    | O => throw e
    | S more =>
        if negb (isRetryable e) then throw e
        else
          let delayMs := match readRetryAfterMs e with Some v => v | None => default 0 (delays !! Z.to_nat (attempt - 1)) end in
          throwIfAborted ;;;
          let! delayAfterGates := applyForegroundGates delayMs attempt totalWaitMs in
          dispatch_live (Retrying step attempt delayAfterGates) ;;;
          sleepForRetry delayAfterGates ;;;
          retry_loop isRetryable delays step p ms more (attempt + 1) (totalWaitMs + delayAfterGates)
    end).

Definition maxAttempts : Z := default DEFAULT_MAX_RETRY_ATTEMPTS (host_maxRetryAttempts h).

Definition chatWithRetry (step : Z) (p : projection) (ms : list message) : M response :=
  match host_isRetryableError h with
  | Some isRetryable =>
      if maxAttempts <=? 1 then request step p ms 1
      else retry_loop isRetryable (retryBackoffDelays maxAttempts) step p ms (Z.to_nat (maxAttempts - 1)) 1 0
  | None => request step p ms 1
  end.

(** * One step *)

Definition chatWithMediaProjection (step : Z) (builder : callback (list message)) (p : media_projection) : M response :=
  throwIfAborted ;;;
  let! ms := call builder in
  throwIfAborted ;;;
  chatWithRetry step (Media p) ms.

(** A response with the flags [mediaDegradedResendUsed] and [mediaStrippedResendUsed]. *)
Definition flagged : Type := response * bool * bool.

Definition resend_stripped (step : Z) (builder : callback (list message)) : M flagged :=
  let! r := chatWithMediaProjection step builder MediaStripped in ret (r, false, true).

(** The [catch] around the first request of a step. *)
Definition recover (step : Z) (initial : media_projection) (e : loop_error) : M flagged :=
  if isTooLarge e then
    match initial with
    | MediaStripped => throw e
    | MediaDegraded =>
        match host_buildMediaStripped h with
        | None => throw e
        | Some builder => resend_stripped step builder
        end
    | Normal =>
        match host_buildMediaDegraded h with
        | None => throw e
        | Some degraded =>
            throwIfAborted ;;;
            try (let! r := chatWithMediaProjection step degraded MediaDegraded in ret (r, true, false))
              (fun degradedError =>
                match host_buildMediaStripped h with
                | None => throw degradedError
                | Some builder =>
                    if isTooLarge degradedError || isImageFormatError degradedError then resend_stripped step builder
                    else throw degradedError
                end)
        end
    end
  else if isImageFormatError e then
    match initial, host_buildMediaStripped h with
    | MediaStripped, _ | _, None => throw e
    | _, Some builder => resend_stripped step builder
    end
  else
    match host_buildStrict h with
    | Some strict =>
        if isRecoverableRequestStructureError e then
          throwIfAborted ;;;
          let! ms := call strict in
          throwIfAborted ;;;
          let! r := chatWithRetry step Strict ms in
          ret (r, false, false)
        else throw e
    | None => throw e
    end.

Definition deriveStepStopReason (r : response) : step_stop :=
  match providerFinishReason r with
  | Some Truncated => MaxTokens
  | Some FilteredReason => Filtered
  | Some PausedReason => Paused
  | Some OtherReason => Unknown
  | Some Completed | None => match r_toolCalls r with [] => EndTurn | _ => ToolUse end
  | Some ToolCalls => match r_toolCalls r with [] => Unknown | _ => ToolUse end
  end.

(** [recordUsage] of [runTurn]: the turn's sum first, then the host. *)
Definition recordUsage (u : token_usage) : M bool :=
  (fun s => (St (world s) (addUsage (usage s) u) (trace s ++ [UsageRecorded u]) (streamed s), Ok tt)) ;;; call (host_recordUsage h u).

Record step_result : Type := StepResult { s_usage : token_usage; s_stopReason : step_stop; s_mediaDegraded : bool; s_mediaStripped : bool }.

Definition builder_of (initial : media_projection) : callback (list message) :=
  match initial with
  | MediaStripped => default (host_build h) (host_buildMediaStripped h)
  | MediaDegraded => default (host_build h) (host_buildMediaDegraded h)
  | Normal => host_build h
  end.

(** A response that broke off with calls in it. *)
Definition broke_off (r : response) : bool :=
  let stopReason := deriveStepStopReason r in
  (bool_decide (stopReason = Paused) || bool_decide (stopReason = Unknown) || bool_decide (stopReason = MaxTokens)) &&
  negb (bool_decide (r_toolCalls r = [])).

(** The part of a step between the response and [step.end]: the reason it ends with. *)
Definition settle_calls (step : Z) (r : response) (stopTurnAfterUsage : bool) : M step_stop :=
  let stopReason := deriveStepStopReason r in
  let effective := if stopTurnAfterUsage && bool_decide (stopReason = ToolUse) then EndTurn else stopReason in
  let! offered := get_streamed in
  if bool_decide (effective = ToolUse) then
    tell (ToolsRun step offered r) ;;;
    let! stopTurn := call (host_runToolCallBatch h offered r) in
    ret (if stopTurn : bool then EndTurn else effective)
  else if broke_off r then
    (if bool_decide (offered = [])
     then tell (CallsClosed step r) ;;; call (host_recordUnexecuted h r)
     else tell (CallsDrained step offered r) ;;; call (host_drainInterrupted h offered r)) ;;;
    ret effective
  else ret effective.

(** [step.begin], with a new runner. *)
Definition begin_step (step : Z) : M unit :=
  (fun s => (St (world s) (usage s) (trace s ++ [StepBegan step]) [], Ok tt)) ;;; call (host_dispatch h (StepBegan step)).

Definition executeLoopStep (step : Z) (initial : media_projection) : M step_result :=
  match host_beforeStep h with
  | Some f => let! b := call (f step) in match b with Some reason => throw (OtherErr reason) | None => ret tt end
  | None => ret tt
  end ;;;
  throwIfAborted ;;;
  let! ms := call (builder_of initial) in
  throwIfAborted ;;;
  begin_step step ;;;
  let! answer := try (let! r := chatWithRetry step (Media initial) ms in ret (r, false, false)) (recover step initial) in
  let '(r, degraded, stripped) := answer in
  let u := r_usage r in
  let! stopTurnAfterUsage := recordUsage u in
  let! effective := settle_calls step r stopTurnAfterUsage in
  throwIfAborted ;;;
  dispatch (StepEnded step u effective) ;;;
  let! stopTurnAfterStep :=
    match host_afterStep h with
    | Some f => let! x := attempt (call (f step u effective)) in
                ret (stopTurnAfterUsage || match x with Ok b => b | Err _ => false end)
    | None => ret stopTurnAfterUsage
    end in
  ret (StepResult u (if stopTurnAfterStep && bool_decide (effective = ToolUse) then EndTurn else effective) degraded stripped).

(** * The turn *)

(** How the loop ends: the steps made, the step being run, and the stop reason or the
    error; [None] when the fuel is used up. *)
Definition loop_end : Type := option (Z * option Z * result loop_error step_stop).

Definition within_steps (steps : Z) : M unit :=
  match host_maxSteps h with
  | Some m => if (0 <? m) && (m <=? steps) then throw (MaxStepsExceeded m) else ret tt
  | None => ret tt
  end.

Definition media_of_turn (degraded stripped : bool) : media_projection :=
  if stripped then MediaStripped else if degraded then MediaDegraded else Normal.

Fixpoint turn_loop (fuel : nat) (steps : Z) (degraded stripped : bool) : M loop_end :=
  match fuel with
  | O => ret None
  | S fuel =>
      let! begun := attempt (throwIfAborted ;;; within_steps steps) in
      match begun with
      | Err e => ret (Some (steps, None, Err e))
      | Ok _ =>
          let steps := steps + 1 in
          let! x := attempt (executeLoopStep steps (media_of_turn degraded stripped)) in
          match x with
          | Err e => ret (Some (steps, Some steps, Err e))
          | Ok x =>
              let degraded := degraded || s_mediaDegraded x in
              let stripped := stripped || s_mediaStripped x in
              if bool_decide (s_stopReason x = ToolUse) then turn_loop fuel steps degraded stripped
              else
                let! c := attempt (match host_shouldContinue h with
                                   | Some f => call (f steps (s_usage x) (s_stopReason x))
                                   | None => ret false
                                   end) in
                match c with
                | Err e => ret (Some (steps, None, Err e))
                | Ok true => turn_loop fuel steps degraded stripped
                | Ok false => ret (Some (steps, None, Ok (s_stopReason x)))
                end
          end
      end
  end.

Record turn_result : Type := TurnResult { t_stopReason : turn_stop; t_steps : Z; t_usage : token_usage }.

(** [None] when the fuel is used up. *)
Definition runTurn (fuel : nat) : M (option turn_result) :=
  let! e := turn_loop fuel 0 false false in
  match e with
  | None => ret None
  | Some (steps, _, Ok reason) => fun s => (s, Ok (Some (TurnResult (Stop reason) steps (usage s))))
  | Some (steps, activeStep, Err error) =>
      let! w := get_world in
      match isAbortError error, host_signal h w with
      | false, None =>
          let reason := if isMaxStepsExceededError error then IMaxSteps else IError in
          let cause := if isMaxStepsExceededError error then CMaxSteps else CError in
          dispatch_live (Interrupted reason steps activeStep cause) ;;; throw error
      | _, signal =>
          let cause := if from_option isUserCancellation false signal || isUserCancellation error then CUserCancelled else CAborted in
          dispatch_live (Interrupted IAborted steps activeStep cause) ;;;
          fun s => (s, Ok (Some (TurnResult Aborted steps (usage s))))
      end
  end.

(** * Specifications *)

Definition usage_of (a : act) : option token_usage := match a with UsageRecorded u => Some u | _ => None end.
Definition spent (u : token_usage) (t : list act) : token_usage := fold_left addUsage (omap usage_of t) u.

(** The entries of the runner, as the record has them. *)
Definition runner_after (cs : list tool_call) (t : list act) : list tool_call :=
  fold_left (fun cs a => match a with StepBegan _ => [] | Offered _ c => cs ++ [c] | _ => cs end) t cs.

(** What [m] adds to the record, and its outcome: [Q] holds of them in every state whose
    runner has the entries [cs]; the sum of the turn and the runner are what the record
    says. *)
Definition spec {A} (cs : list tool_call) (m : M A) (Q : list act -> result loop_error A -> Prop) : Prop :=
  forall s, streamed s = cs -> exists t, trace (m s).1 = trace s ++ t /\ usage (m s).1 = spent (usage s) t /\
    streamed (m s).1 = runner_after cs t /\ Q t (m s).2.
Abbreviation specs m Q := (forall cs, spec cs m Q).

Lemma runner_app cs t1 t2 : runner_after cs (t1 ++ t2) = runner_after (runner_after cs t1) t2.
Proof. unfold runner_after. by rewrite fold_left_app. Qed.

Lemma spent_app u t1 t2 : spent u (t1 ++ t2) = spent (spent u t1) t2.
Proof. unfold spent. by rewrite omap_app, fold_left_app. Qed.

Lemma spec_mono {A} cs (m : M A) (P Q : list act -> result loop_error A -> Prop) : spec cs m P -> (forall t r, P t r -> Q t r) -> spec cs m Q.
Proof. intros H HQ s Hs. destruct (H s Hs) as (t & E & U & R & HP). exists t. auto. Qed.

Lemma spec_ret {A} cs (x : A) Q : Q [] (Ok x) -> spec cs (ret x) Q.
Proof. intros H s Hs. exists []. cbn. by rewrite app_nil_r. Qed.

Lemma spec_throw {A} cs e (Q : list act -> result loop_error A -> Prop) : Q [] (Err e) -> spec cs (throw e) Q.
Proof. intros H s Hs. exists []. cbn. by rewrite app_nil_r. Qed.

Lemma spec_bind {A B} cs (m : M A) (k : A -> M B) Q :
  spec cs m (fun t r => match r with Ok x => spec (runner_after cs t) (k x) (fun t' r' => Q (t ++ t') r') | Err e => Q t (Err e) end) -> spec cs (bind m k) Q.
Proof.
  intros H s Hs. unfold bind. destruct (H s Hs) as (t & E & U & R & HQ). destruct (m s) as [s1 r]. cbn [fst snd] in *. destruct r as [x|e].
  - destruct (HQ s1 R) as (t' & E' & U' & R' & HQ'). exists (t ++ t'). by rewrite E', U', R', E, U, <- app_assoc, spent_app, runner_app.
  - exists t. auto.
Qed.

Lemma spec_try {A} cs (m : M A) (k : loop_error -> M A) Q :
  spec cs m (fun t r => match r with Ok x => Q t (Ok x) | Err e => spec (runner_after cs t) (k e) (fun t' r' => Q (t ++ t') r') end) -> spec cs (try m k) Q.
Proof.
  intros H s Hs. unfold try. destruct (H s Hs) as (t & E & U & R & HQ). destruct (m s) as [s1 r]. cbn [fst snd] in *. destruct r as [x|e].
  - exists t. auto.
  - destruct (HQ s1 R) as (t' & E' & U' & R' & HQ'). exists (t ++ t'). by rewrite E', U', R', E, U, <- app_assoc, spent_app, runner_app.
Qed.

Lemma spec_attempt {A} cs (m : M A) Q : spec cs m (fun t r => Q t (Ok r)) -> spec cs (attempt m) Q.
Proof. intros H s Hs. unfold attempt. destruct (H s Hs) as (t & E & U & R & HQ). destruct (m s) as [s1 r]. exists t. auto. Qed.

Lemma spec_call {A} cs (f : callback A) Q : (forall r, Q [] r) -> spec cs (call f) Q.
Proof. intros H s Hs. unfold call. destruct (f (world s)) as [w r]. exists []. cbn. by rewrite app_nil_r. Qed.

Lemma spec_get_world cs Q : (forall w, Q [] (Ok w)) -> spec cs get_world Q.
Proof. intros H s Hs. exists []. cbn. by rewrite app_nil_r. Qed.

Lemma spec_get_streamed cs Q : Q [] (Ok cs) -> spec cs get_streamed Q.
Proof. intros H s Hs. exists []. cbn. by rewrite app_nil_r, Hs. Qed.

(** Acts that are neither usage nor the runner's. *)
Definition plain_act (a : act) : bool := match a with UsageRecorded _ | StepBegan _ | Offered _ _ => false | _ => true end.

Lemma spec_tell cs a Q : plain_act a = true -> Q [a] (Ok tt) -> spec cs (tell a) Q.
Proof. intros Hu H s Hs. exists [a]. unfold spent. by destruct a. Qed.

Lemma spec_abort cs Q : Q [] (Ok tt) -> (forall e, Q [] (Err e)) -> spec cs throwIfAborted Q.
Proof. intros H1 H2. apply spec_bind, spec_get_world. intros w. destruct (host_signal h w); [by apply spec_throw|by apply spec_ret]. Qed.

Lemma spec_dispatch cs a Q : plain_act a = true -> (forall r, Q [a] r) -> spec cs (dispatch a) Q.
Proof. intros Hu H. apply spec_bind, spec_tell; [done|]. by apply spec_call. Qed.

Lemma spec_begin cs step Q : (forall r, Q [StepBegan step] r) -> spec cs (begin_step step) Q.
Proof.
  intros H. apply spec_bind. intros s Hs. exists [StepBegan step]. split_and!; [done|done|done|]. by apply spec_call.
Qed.

Lemma spec_dispatch_live cs a Q : plain_act a = true -> Q [a] (Ok tt) -> spec cs (dispatch_live a) Q.
Proof.
  intros Hu H. apply spec_bind, spec_tell; [done|]. apply spec_bind, spec_attempt, spec_call. intros r. by apply spec_ret.
Qed.

Lemma spec_record cs u Q : (forall r, Q [UsageRecorded u] r) -> spec cs (recordUsage u) Q.
Proof.
  intros H. apply spec_bind. intros s Hs. exists [UsageRecorded u]. split_and!; [done|done|done|]. apply spec_call. apply H.
Qed.

(** ** Retries *)

Definition is_request (a : act) : bool := match a with Requested _ _ _ => true | _ => false end.
Definition wait_of (a : act) : option Z := match a with Retrying _ _ d => Some d | _ => None end.
Definition waits (t : list act) : list Z := omap wait_of t.
Definition requests (t : list act) : nat := length (List.filter is_request t).

(** Requests of one kind with the waits between them. *)
Definition round (step : Z) (p : projection) (t : list act) : Prop :=
  Forall (fun a => match a with Requested s q _ => s = step /\ q = p | Retrying s _ _ | Offered s _ => s = step | _ => False end) t.

Definition within_budget (total : Z) (t : list act) : Prop :=
  Forall (fun d => d <= gate_maxDelay) (waits t) /\ (gate_autoResume = true -> waits t = [] \/ total + sum_of id (waits t) <= gate_maxTotal).

Lemma round_nil step p : round step p [].
Proof. constructor. Qed.

Lemma round_app step p t1 t2 : round step p t1 -> round step p t2 -> round step p (t1 ++ t2).
Proof. intros. by apply Forall_app. Qed.

Lemma requests_app t1 t2 : requests (t1 ++ t2) = (requests t1 + requests t2)%nat.
Proof. unfold requests. by rewrite List.filter_app, length_app. Qed.

(** One request: the calls its stream offers follow it. *)
Definition asked (step : Z) (p : projection) (t : list act) : Prop := round step p t /\ requests t = 1%nat /\ waits t = [].

Lemma offers_spec step calls : forall s, exists l, trace (fold_left (offer step) calls s) = trace s ++ (Offered step <$> l) /\
  usage (fold_left (offer step) calls s) = usage s /\ streamed (fold_left (offer step) calls s) = streamed s ++ l.
Proof.
  induction calls as [|c calls IH]; intros s; cbn [fold_left]; [exists []; by rewrite !app_nil_r|].
  destruct (IH (offer step s c)) as (l & E & U & R). rewrite E, U, R. unfold offer. case_match; [by exists l|]. exists (c :: l). cbn [trace usage streamed fmap list_fmap]. by rewrite <- !app_assoc.
Qed.

Lemma runner_offers step l : forall cs, runner_after cs (Offered step <$> l) = cs ++ l.
Proof. induction l as [|c l IH]; intros cs; [by rewrite app_nil_r|]. unfold runner_after in *. cbn [fmap list_fmap fold_left]. by rewrite IH, <- app_assoc. Qed.

Lemma asked_offers step p k l : asked step p (Requested step p k :: (Offered step <$> l)).
Proof.
  assert (Hr : round step p (Offered step <$> l)) by (apply Forall_fmap, Forall_forall; by intros c _).
  split_and!; [by constructor|unfold requests; cbn [List.filter is_request length]; f_equal; clear Hr; by induction l|].
  clear Hr. unfold waits. cbn [omap list_omap wait_of]. by induction l.
Qed.

Lemma request_spec step p ms k : specs (request step p ms k) (fun t _ => asked step p t).
Proof.
  intros cs. apply spec_bind, spec_tell; [done|]. intros s Hs. unfold chat. destruct (host_chat h ms (world s)) as [[w calls] r].
  destruct (offers_spec step calls (St w (usage s) (trace s) (streamed s))) as (l & E & U & R). exists (Offered step <$> l). cbn [fst snd trace usage streamed] in *.
  split_and!; [done| |rewrite R, runner_offers; by rewrite Hs|apply asked_offers].
  rewrite U. unfold spent. assert (omap usage_of (Offered step <$> l) = []) as -> by (clear; by induction l). done.
Qed.

Lemma retry_spec isRetryable delays step p ms more : forall k total,
  specs (retry_loop isRetryable delays step p ms more k total)
    (fun t r => round step p t /\ (1 <= requests t <= S more)%nat /\ within_budget total t).
Proof.
  assert (Hone : forall total t more, asked step p t -> round step p t /\ (1 <= requests t <= S more)%nat /\ within_budget total t).
  { intros total t more' (H1 & H2 & H3). split_and!; [done|lia|lia|]. unfold within_budget. rewrite H3. split; [constructor|intros _; by left]. }
  induction more as [|more IH]; intros k total cs; cbn [retry_loop].
  - apply spec_try. eapply spec_mono; [apply request_spec|]. intros t [x|e] Ht; [by apply Hone|]. apply spec_throw. rewrite app_nil_r. by apply Hone.
  - apply spec_try. eapply spec_mono; [apply request_spec|]. intros t [x|e] Ht; [by apply Hone|].
    pose proof (Hone total t (S more) Ht) as Hstop. destruct (isRetryable e); cbn [negb]; [|apply spec_throw; by rewrite app_nil_r]. cbv zeta.
    apply spec_bind, spec_abort; [|intros; by rewrite app_nil_r].
    set (d := match readRetryAfterMs e with Some v => v | None => _ end).
    assert (specs (applyForegroundGates d k total) (fun t r => t = [] /\ forall d', r = Ok d' -> d' <= gate_maxDelay /\ (gate_autoResume = true -> total + d' <= gate_maxTotal))) as Hg.
    { intros cs'. unfold applyForegroundGates. cbv zeta. destruct (Z.ltb_spec gate_maxDelay d), (Z.ltb_spec gate_maxTotal (total + d)); cbn [negb andb].
      all: try (destruct gate_autoResume; cbn [negb]; [by apply spec_throw|]).
      all: apply spec_ret; split; [done|]; intros d' [= <-]; split; [lia|]; try done; lia. }
    apply spec_bind. eapply spec_mono; [apply Hg|]. intros t1 [d'|e'] [-> Hd]; [|by rewrite !app_nil_r]. destruct (Hd d' eq_refl) as [Hd1 Hd2].
    apply spec_bind, spec_dispatch_live; [done|]. cbn [app].
    destruct Ht as (R1 & R2 & R3). set (t2 := t ++ [Retrying step k d']).
    assert (Hw : round step p t2 /\ requests t2 = 1%nat /\ waits t2 = [d']).
    { subst t2. unfold waits in *. rewrite requests_app, R2, omap_app, R3. split_and!; [|done|done]. apply round_app; [done|by repeat constructor]. }
    destruct Hw as (W1 & W2 & W3).
    assert (Hb : forall l, Forall (fun d => d <= gate_maxDelay) l -> (gate_autoResume = true -> l = [] \/ total + d' + sum_of id l <= gate_maxTotal) ->
      Forall (fun d => d <= gate_maxDelay) (d' :: l) /\ (gate_autoResume = true -> d' :: l = [] \/ total + sum_of id (d' :: l) <= gate_maxTotal)).
    { intros l Hl Hs. split; [by constructor|]. intros Ha. right. rewrite sum_of_cons. unfold id at 1. specialize (Hd2 Ha).
      destruct (Hs Ha) as [->|?]; [change (sum_of id []) with 0; lia|lia]. }
    assert (Hstop' : round step p t2 /\ (1 <= requests t2 <= S (S more))%nat /\ within_budget total t2).
    { split_and!; [done|lia|lia|]. unfold within_budget. rewrite W3. apply Hb; [constructor|intros _; by left]. }
    apply spec_bind. apply spec_bind, spec_abort; [|by intros]. apply spec_call. intros [[]|e']; [|done].
    eapply spec_mono; [apply (IH (k + 1) (total + d'))|]. cbn beta. intros t3 r (I1 & I2 & I3 & I4).
    replace (t ++ Retrying step k d' :: ([] ++ []) ++ t3) with (t2 ++ t3) by (subst t2; by rewrite <- app_assoc).
    split_and!; [by apply round_app|rewrite requests_app, W2; lia|rewrite requests_app, W2; lia|].
    unfold within_budget, waits in *. rewrite omap_app, W3. by apply Hb.
Qed.

Definition budgeted (t : list act) : Prop :=
  (1 <= requests t <= Z.to_nat (Z.max maxAttempts 1))%nat /\ within_budget 0 t.

Lemma chat_spec step p ms : specs (chatWithRetry step p ms) (fun t r => round step p t /\ budgeted t).
Proof.
  assert (Hone : specs (request step p ms 1) (fun t r => round step p t /\ budgeted t)).
  { intros cs. eapply spec_mono; [apply request_spec|]. intros t r (H1 & H2 & H3). split; [done|]. split; [rewrite H2; lia|].
    unfold within_budget. rewrite H3. split; [constructor|intros _; by left]. }
  intros cs.
  unfold chatWithRetry. destruct (host_isRetryableError h) as [f|]; [|done]. destruct (Z.leb_spec maxAttempts 1); [done|].
  eapply spec_mono; [apply retry_spec|]. cbn beta. intros t r (H1 & H2 & H3). split; [done|]. split; [lia|exact H3].
Qed.

(** ** Projections *)

Definition rank (p : media_projection) : Z := match p with Normal => 0 | MediaDegraded => 1 | MediaStripped => 2 end.
Definition rank_of (a : act) : option Z := match a with Requested _ (Media p) _ => Some (rank p) | _ => None end.

(** From [lo] on, the projections of the requests only grow, up to [hi]. *)
Fixpoint climbs (lo : Z) (ranks : list Z) (hi : Z) : Prop :=
  match ranks with [] => lo <= hi | k :: ks => lo <= k /\ climbs k ks hi end.
Definition media_climbs (lo : Z) (t : list act) (hi : Z) : Prop := climbs lo (omap rank_of t) hi.

Lemma climbs_app l1 l2 lo mid hi : climbs lo l1 mid -> climbs mid l2 hi -> climbs lo (l1 ++ l2) hi.
Proof.
  revert lo. induction l1 as [|k l1 IH]; intros lo; cbn [app climbs].
  - intros H. destruct l2; cbn [climbs]; [lia|]. intros [? ?]. split; [lia|done].
  - intros [H1 H2] H. split; [done|by apply IH].
Qed.

Lemma climbs_hi l lo hi hi' : climbs lo l hi -> hi <= hi' -> climbs lo l hi'.
Proof. revert lo. induction l as [|k l IH]; intros lo; cbn; [lia|]. intros [? ?] ?. split; [done|]. by apply IH. Qed.

Lemma media_app t1 t2 lo mid hi : media_climbs lo t1 mid -> media_climbs mid t2 hi -> media_climbs lo (t1 ++ t2) hi.
Proof. unfold media_climbs. rewrite omap_app. apply climbs_app. Qed.

Lemma round_climbs step p t lo : round step (Media p) t -> lo <= rank p -> media_climbs lo t (rank p).
Proof.
  unfold media_climbs. revert lo. induction t as [|a t IH]; intros lo H Hl; [done|]. apply Forall_cons in H as [Ha H].
  destruct a; try done; cbn [omap list_omap rank_of].
  - destruct Ha as [-> ->]. cbn [climbs]. split; [done|]. by apply IH.
  - by apply IH.
  - by apply IH.
Qed.

Lemma round_strict step t lo : round step Strict t -> media_climbs lo t lo.
Proof.
  unfold media_climbs. induction t as [|a t IH]; intros H; [cbn; lia|]. apply Forall_cons in H as [Ha H].
  destruct a; try done; cbn [omap list_omap rank_of]; [destruct Ha as [_ ->]| |]; by apply IH.
Qed.

(** What belongs to the requests of a step. *)
Definition in_step (step : Z) (a : act) : Prop :=
  match a with Requested s _ _ | Retrying s _ _ | Offered s _ => s = step | _ => False end.

Definition offers (t : list act) : list tool_call := omap (fun a => match a with Offered _ c => Some c | _ => None end) t.

Lemma runner_requests step t : Forall (in_step step) t -> forall cs, runner_after cs t = cs ++ offers t.
Proof.
  unfold offers, runner_after. induction t as [|a t IH]; intros H cs; [by rewrite app_nil_r|]. apply Forall_cons in H as [Ha H].
  cbn [fold_left omap list_omap]. rewrite IH by done. destruct a; try done. by rewrite <- app_assoc.
Qed.

Lemma round_in_step step p t : round step p t -> Forall (in_step step) t.
Proof. intros H. eapply Forall_impl; [exact H|]. intros []; try done. by intros []. Qed.

Definition after (initial : media_projection) (degraded stripped : bool) : Z :=
  rank (if stripped then MediaStripped else if degraded then MediaDegraded else initial).

(** The requests of a step, up to its response. *)
Definition answered_step (step : Z) (initial : media_projection) (t : list act) (r : result loop_error flagged) : Prop :=
  Forall (in_step step) t /\
  match r with
  | Ok (_, degraded, stripped) => media_climbs (rank initial) t (after initial degraded stripped)
  | Err _ => media_climbs (rank initial) t 2
  end.

Ltac climb := eapply media_app; eassumption.
Ltac climb3 := eapply media_app; [eapply media_app|]; eassumption.

Lemma rank_bounds p : 0 <= rank p <= 2.
Proof. destruct p; cbn; lia. Qed.

Lemma media_error initial t p step lo : round step (Media p) t -> lo = rank initial -> lo <= rank p -> media_climbs lo t 2.
Proof. intros H -> Hl. eapply climbs_hi; [by apply (round_climbs step p)|]. apply rank_bounds. Qed.

Lemma projected_spec step builder p :
  specs (chatWithMediaProjection step builder p) (fun t r => round step (Media p) t).
Proof.
  intros cs. apply spec_bind, spec_abort; [|intros; apply round_nil]. apply spec_bind, spec_call. intros [ms|e]; [|apply round_nil].
  apply spec_bind, spec_abort; [|intros; apply round_nil]. eapply spec_mono; [apply chat_spec|]. by intros t r [H _].
Qed.

Lemma stripped_spec step builder lo : lo <= 2 ->
  specs (resend_stripped step builder) (fun t r => Forall (in_step step) t /\ media_climbs lo t 2 /\ forall x, r = Ok x -> x.2 = true).
Proof.
  intros Hl cs. apply spec_bind. eapply spec_mono; [apply projected_spec|]. intros t r H.
  assert (Forall (in_step step) t /\ media_climbs lo t 2) as [H1 H2] by (split; [exact (round_in_step _ _ _ H)|by apply (round_climbs step MediaStripped)]).
  destruct r as [x|e]; [apply spec_ret; rewrite app_nil_r|]; split_and!; try done. by intros x' [= <-].
Qed.

Lemma climbs_nil lo : media_climbs lo [] lo.
Proof. unfold media_climbs. cbn. lia. Qed.

Lemma recover_spec step initial e t0 : Forall (in_step step) t0 -> media_climbs (rank initial) t0 (rank initial) ->
  specs (recover step initial e) (fun t r => answered_step step initial (t0 ++ t) r).
Proof.
  intros H0 C0.
  assert (Herr : forall e' : loop_error, answered_step step initial t0 (Err e')).
  { intros e'. split; [done|]. eapply climbs_hi; [exact C0|]. apply rank_bounds. }
  assert (Hstrip : forall builder, specs (resend_stripped step builder) (fun t r => answered_step step initial (t0 ++ t) r)).
  { intros builder cs. eapply spec_mono; [apply (stripped_spec step builder (rank initial)); apply rank_bounds|].
    intros t r (H1 & H2 & H3). split; [by apply Forall_app|]. destruct r as [[[x d] b]|e']; [|climb].
    specialize (H3 _ eq_refl). cbn in H3. subst b. climb. }
  intros cs. unfold recover. destruct (isTooLarge e).
  - destruct initial.
    + destruct (host_buildMediaDegraded h) as [degraded|]; [|apply spec_throw; rewrite app_nil_r; apply Herr].
      apply spec_bind, spec_abort; [|intros e'; rewrite app_nil_r; apply Herr]. cbn [app].
      apply spec_try, spec_bind. eapply spec_mono; [apply projected_spec|]. intros t r H.
      assert (Forall (in_step step) t /\ media_climbs 0 t 1) as [H1 H2] by (split; [exact (round_in_step _ _ _ H)|by apply (round_climbs step MediaDegraded)]).
      destruct r as [x|e1].
      { apply spec_ret. rewrite app_nil_r. split; [by apply Forall_app|]. climb. }
      assert (Herr1 : forall e' : loop_error, answered_step step Normal (t0 ++ t) (Err e')).
      { intros e'. split; [by apply Forall_app|]. eapply climbs_hi; [climb|lia]. }
      destruct (host_buildMediaStripped h) as [builder|]; [|apply spec_throw; rewrite app_nil_r; apply Herr1].
      destruct (isTooLarge e1 || isImageFormatError e1); [|apply spec_throw; rewrite app_nil_r; apply Herr1].
      eapply spec_mono; [apply (stripped_spec step builder 1); lia|]. intros t' r (J1 & J2 & J3). rewrite app_assoc. split; [apply Forall_app; split; [by apply Forall_app|done]|].
      destruct r as [[[x d] b]|e']; [|climb3].
      specialize (J3 _ eq_refl). cbn in J3. subst b. climb3.
    + destruct (host_buildMediaStripped h) as [builder|]; [apply Hstrip|apply spec_throw; rewrite app_nil_r; apply Herr].
    + apply spec_throw. rewrite app_nil_r. apply Herr.
  - destruct (isImageFormatError e).
    { destruct initial, (host_buildMediaStripped h) as [builder|]; try apply Hstrip; apply spec_throw; rewrite app_nil_r; apply Herr. }
    destruct (host_buildStrict h) as [strict|]; [|apply spec_throw; rewrite app_nil_r; apply Herr].
    destruct (isRecoverableRequestStructureError e); [|apply spec_throw; rewrite app_nil_r; apply Herr].
    apply spec_bind, spec_abort; [|intros e'; rewrite app_nil_r; apply Herr]. cbn [app].
    apply spec_bind, spec_call. intros [ms|e']; [|rewrite app_nil_r; apply Herr]. cbn [app].
    apply spec_bind, spec_abort; [|intros e'; rewrite app_nil_r; apply Herr]. cbn [app].
    apply spec_bind. eapply spec_mono; [apply chat_spec|]. intros t r [H _].
    assert (Forall (in_step step) t /\ media_climbs (rank initial) t (rank initial)) as [H1 H2] by (split; [exact (round_in_step _ _ _ H)|exact (round_strict _ _ _ H)]).
    destruct r as [x|e']; [apply spec_ret; rewrite app_nil_r|]; (split; [by apply Forall_app|]); [climb|].
    eapply climbs_hi; [climb|apply rank_bounds].
Qed.

Lemma answer_spec step initial ms :
  specs (try (let! r := chatWithRetry step (Media initial) ms in ret (r, false, false)) (recover step initial)) (answered_step step initial).
Proof.
  intros cs. apply spec_try, spec_bind. eapply spec_mono; [apply chat_spec|]. intros t r [H _].
  assert (Forall (in_step step) t /\ media_climbs (rank initial) t (rank initial)) as [H1 H2] by (split; [exact (round_in_step _ _ _ H)|by apply (round_climbs step initial)]).
  destruct r as [x|e]; [apply spec_ret; rewrite app_nil_r; by split|by apply recover_spec].
Qed.

(** ** Steps *)

(** What is done with the calls of a response: the batch, for one that asks for tools
    (unless usage stops the turn); for one that broke off the runner is drained if a call
    was offered to it, and else the calls are closed unexecuted. *)
Definition settled (step : Z) (offered : list tool_call) (r : response) (rest : list act) : Prop :=
  if broke_off r then rest = [if bool_decide (offered = []) then CallsClosed step r else CallsDrained step offered r]
  else rest = [] \/ (rest = [ToolsRun step offered r] /\ deriveStepStopReason r = ToolUse).

(** What a step leaves in the record, and whether it was ended: its requests with the
    calls they offered, the usage of the response, and what is done with its calls. A step
    that asks for another one has run its tools. *)
Inductive step_shape (step : Z) : list act -> bool -> Prop :=
| shape_none : step_shape step [] false
| shape_open t : Forall (in_step step) t -> step_shape step (StepBegan step :: t) false
| shape_answered t r rest : Forall (in_step step) t -> rest = [] \/ settled step (offers t) r rest ->
    step_shape step (StepBegan step :: t ++ UsageRecorded (r_usage r) :: rest) false
| shape_ended t r rest reason : Forall (in_step step) t -> settled step (offers t) r rest ->
    (reason = ToolUse -> rest = [ToolsRun step (offers t) r]) ->
    step_shape step (StepBegan step :: t ++ UsageRecorded (r_usage r) :: rest ++ [StepEnded step (r_usage r) reason]) true.

Lemma settle_spec step r b cs : spec cs (settle_calls step r b)
  (fun t x => settled step cs r t /\ omap rank_of t = [] /\ forall reason, x = Ok reason -> reason = ToolUse -> t = [ToolsRun step cs r]).
Proof.
  unfold settle_calls. cbv zeta. apply spec_bind, spec_get_streamed. case_bool_decide as E1.
  - assert (settled step cs r [ToolsRun step cs r]) as Hf.
    { assert (deriveStepStopReason r = ToolUse) as E by (by destruct (b && _)). unfold settled, broke_off. rewrite E. by right. }
    apply spec_bind, spec_tell; [done|]. apply spec_bind, spec_call. intros [x|e]; [by apply spec_ret|done].
  - assert (Hno : broke_off r = false -> settled step cs r []) by (intros E; unfold settled; rewrite E; by left).
    destruct (broke_off r) eqn:E; cycle 1.
    { apply spec_ret. split_and!; [by apply Hno|done|]. by intros reason [= <-] Hr. }
    assert (Hb : settled step cs r [if bool_decide (cs = []) then CallsClosed step r else CallsDrained step cs r]) by (unfold settled; by rewrite E).
    change (runner_after cs []) with cs. destruct (bool_decide (cs = [])).
    all: apply spec_bind, spec_bind, spec_tell; [done|]; apply spec_call; intros [x|e]; [apply spec_ret|]; split_and!; try done; by intros reason [= <-] Hr.
Qed.

Definition stepped (step : Z) (initial : media_projection) (t : list act) (r : result loop_error step_result) : Prop :=
  match r with
  | Ok x => step_shape step t true /\ media_climbs (rank initial) t (after initial (s_mediaDegraded x) (s_mediaStripped x))
  | Err _ => (exists ended, step_shape step t ended) /\ media_climbs (rank initial) t 2
  end.

Lemma stepped_none step initial e : stepped step initial [] (Err e).
Proof. split; [exists false; constructor|]. pose proof (rank_bounds initial). unfold media_climbs. cbn. lia. Qed.

Lemma media_silent lo t1 t2 hi : media_climbs lo t1 hi -> omap rank_of t2 = [] -> media_climbs lo (t1 ++ t2) hi.
Proof. unfold media_climbs. rewrite omap_app. intros H ->. by rewrite app_nil_r. Qed.

Lemma step_spec step initial : specs (executeLoopStep step initial) (stepped step initial).
Proof.
  intros cs. unfold executeLoopStep. apply spec_bind.
  assert (forall Q : list act -> result loop_error unit -> Prop, (forall r, Q [] r) ->
    specs (match host_beforeStep h with
          | Some f => let! b := call (f step) in match b with Some reason => throw (OtherErr reason) | None => ret tt end
          | None => ret tt end) Q) as Hb.
  { intros Q H cs'. destruct (host_beforeStep h) as [f|]; [|by apply spec_ret]. apply spec_bind, spec_call. intros [[reason|]|e]; [by apply spec_throw|by apply spec_ret|done]. }
  apply Hb. intros [_|e]; [|apply stepped_none]. clear Hb.
  apply spec_bind, spec_abort; [|intros; apply stepped_none]. apply spec_bind, spec_call. intros [ms|e]; [|apply stepped_none].
  apply spec_bind, spec_abort; [|intros; apply stepped_none]. apply spec_bind, spec_begin.
  assert (Hopen : forall t e, Forall (in_step step) t -> media_climbs (rank initial) t 2 -> stepped step initial (StepBegan step :: t) (Err e)).
  { intros t e Ht Hm. split; [exists false; by constructor|done]. }
  intros [_|e]; [|apply Hopen; [constructor|]; unfold media_climbs; cbn; pose proof (rank_bounds initial); lia]. cbn [app].
  apply spec_bind. eapply spec_mono; [apply answer_spec|]. intros t [[[r degraded] stripped]|e] [Ht Hm]; [|by apply Hopen].
  cbv zeta. set (hi := after initial degraded stripped) in *.
  assert (hi <= 2) as Hhi by apply rank_bounds.
  assert (Hfail : forall rest e, rest = [] \/ settled step (offers t) r rest -> omap rank_of rest = [] ->
    stepped step initial (StepBegan step :: t ++ UsageRecorded (r_usage r) :: rest) (Err e)).
  { intros rest e Hr Hs. split; [exists false; by constructor|]. change (media_climbs (rank initial) (t ++ UsageRecorded (r_usage r) :: rest) 2).
    apply media_silent; [by eapply climbs_hi|done]. }
  apply spec_bind, spec_record. intros [stop|e]; [|by apply Hfail; [left|]].
  match goal with |- spec ?c _ _ => change c with (runner_after [] t); rewrite (runner_requests step t Ht []); cbn [app] end.
  apply spec_bind. eapply spec_mono; [apply settle_spec|]. intros rest [effective|e] (Hs & Hr & Ht2); cycle 1.
  { by apply Hfail; [right|]. }
  apply spec_bind, spec_abort; [|intros e; rewrite app_nil_r; by apply Hfail; [right|]].
  assert (Hended : step_shape step (StepBegan step :: t ++ UsageRecorded (r_usage r) :: rest ++ [StepEnded step (r_usage r) effective]) true).
  { apply shape_ended; [done|done|]. intros E. by apply (Ht2 effective). }
  assert (Hm2 : media_climbs (rank initial) (StepBegan step :: t ++ UsageRecorded (r_usage r) :: rest ++ [StepEnded step (r_usage r) effective]) hi).
  { change (media_climbs (rank initial) (t ++ (UsageRecorded (r_usage r) :: rest ++ [StepEnded step (r_usage r) effective])) hi).
    apply media_silent; [done|]. cbn [omap list_omap rank_of]. change (omap rank_of (rest ++ [StepEnded step (r_usage r) effective]) = []). by rewrite omap_app, Hr. }
  apply spec_bind, spec_dispatch; [done|].
  set (all := StepBegan step :: t ++ UsageRecorded (r_usage r) :: rest ++ [StepEnded step (r_usage r) effective]) in *.
  assert (Hall : forall t' x, t' = all -> stepped step initial all x -> stepped step initial t' x) by (by intros t' x ->).
  assert (Hfinal : forall x, s_mediaDegraded x = degraded -> s_mediaStripped x = stripped -> stepped step initial all (Ok x)).
  { intros x Ed Es. split; [done|]. by rewrite Ed, Es. }
  intros [_|e]; cycle 1.
  { eapply Hall; [subst all; by rewrite <- ?app_assoc|]. split; [by exists true|by eapply climbs_hi]. }
  apply spec_bind. destruct (host_afterStep h) as [f|].
  - apply spec_bind, spec_attempt, spec_call. intros x. apply spec_ret, spec_ret.
    eapply Hall; [subst all; rewrite ?app_nil_r; by rewrite <- ?app_assoc|]. by apply Hfinal.
  - apply spec_ret, spec_ret. eapply Hall; [subst all; rewrite ?app_nil_r; by rewrite <- ?app_assoc|]. by apply Hfinal.
Qed.

(** ** Turns *)

(** Steps [from+1 .. upto], each begun and ended before the next. *)
Inductive steps_trace (from : Z) : list act -> Z -> Prop :=
| steps_none : steps_trace from [] from
| steps_more t1 t2 upto : step_shape (from + 1) t1 true -> steps_trace (from + 1) t2 upto -> steps_trace from (t1 ++ t2) upto.

(** What precedes the end of a turn: complete steps, then the steps made and, when the
    last is still active, what it left. *)
Definition turn_body (from : Z) (t : list act) (steps : Z) (activeStep : option Z) : Prop :=
  match activeStep with
  | None => steps_trace from t steps
  | Some n => n = steps /\ exists t1 t2 ended, t = t1 ++ t2 /\ steps_trace from t1 (steps - 1) /\ step_shape steps t2 ended
  end.

Definition loop_post (fuel : nat) (from : Z) (lo : Z) (t : list act) (r : result loop_error loop_end) : Prop :=
  media_climbs lo t 2 /\
  match r with
  | Err _ => False
  | Ok None => forall m, host_maxSteps h = Some m -> 0 < m -> m - from < Z.of_nat fuel -> False
  | Ok (Some (steps, activeStep, x)) =>
      turn_body from t steps activeStep /\ (forall m, host_maxSteps h = Some m -> 0 < m -> from <= m -> steps <= m) /\
      (forall reason, x = Ok reason -> activeStep = None /\ reason <> ToolUse)
  end.

Lemma turn_body_more from t1 t steps activeStep : step_shape (from + 1) t1 true -> turn_body (from + 1) t steps activeStep -> turn_body from (t1 ++ t) steps activeStep.
Proof.
  intros H1. destruct activeStep as [n|]; cbn; [|by apply steps_more].
  intros [-> (t2 & t3 & ended & -> & H2 & H3)]. split; [done|]. exists (t1 ++ t2), t3, ended. rewrite app_assoc. split_and!; [done|by apply steps_more|done].
Qed.

Lemma after_turn d s d' s' : after (media_of_turn d s) d' s' <= rank (media_of_turn (d || d') (s || s')).
Proof. destruct d, s, d', s'; cbn; lia. Qed.

Lemma loop_spec fuel : forall from d s, 0 <= from -> (forall m, host_maxSteps h = Some m -> 0 < m -> from <= m) ->
  specs (turn_loop fuel from d s) (loop_post fuel from (rank (media_of_turn d s))).
Proof.
  assert (Hnil : forall p, media_climbs (rank p) [] 2) by (intros p; pose proof (rank_bounds p); unfold media_climbs; cbn; lia).
  induction fuel as [|fuel IH]; intros from d s H0 Hfrom; cbn [turn_loop].
  { intros cs. apply spec_ret. split; [apply Hnil|]. intros m Hm Hp Hl. specialize (Hfrom m Hm Hp). lia. }
  intros cs. apply spec_bind, spec_attempt.
  assert (Hstop : forall e, specs (ret (Some (from, None, Err e)))
    (fun t' r' => loop_post (S fuel) from (rank (media_of_turn d s)) ([] ++ t') r')).
  { intros e cs'. apply spec_ret. split; [apply Hnil|]. split_and!; [constructor|by intros m ? ? ?|done]. }
  apply spec_bind, spec_abort; [|intros e; apply Hstop].
  assert (Hin : specs (within_steps from) (fun t r => t = [] /\ (r = Ok tt -> forall m, host_maxSteps h = Some m -> 0 < m -> from < m))).
  { intros cs'. unfold within_steps. destruct (host_maxSteps h) as [m|]; [|by apply spec_ret]. destruct (Z.ltb_spec 0 m), (Z.leb_spec m from); cbn [andb];
    [by apply spec_throw|apply spec_ret; split; [done|]; by intros _ m' [= <-] _|apply spec_ret; split; [done|]; intros _ m' [= <-]; lia..]. }
  eapply spec_mono; [apply Hin|]. intros t [[]|e] [-> Hlt]; [|apply Hstop]. specialize (Hlt eq_refl). cbn [app].
  apply spec_bind, spec_attempt. eapply spec_mono; [apply step_spec|]. intros t [x|e]; cbn [stepped].
  2: { intros [[ended Hs] Hm]. apply spec_ret. rewrite app_nil_r. split; [done|]. split_and!; [|intros m Hm' Hp _; specialize (Hlt m Hm' Hp); lia|done].
       split; [done|]. exists [], t, ended. replace (from + 1 - 1) with from by lia. split_and!; [done|constructor|done]. }
  intros [Hs Hm]. cbv zeta.
  assert (Hm2 : media_climbs (rank (media_of_turn d s)) t (rank (media_of_turn (d || s_mediaDegraded x) (s || s_mediaStripped x))))
    by (eapply climbs_hi; [exact Hm|apply after_turn]).
  assert (Hnext : specs (turn_loop fuel (from + 1) (d || s_mediaDegraded x) (s || s_mediaStripped x))
    (fun t' r' => loop_post (S fuel) from (rank (media_of_turn d s)) (t ++ t') r')).
  { intros cs'. eapply spec_mono; [apply IH; [lia|intros m Hm' Hp; specialize (Hlt m Hm' Hp); lia]|]. intros t' r' [Hm' Hr]. split; [by eapply media_app|].
    destruct r' as [[[[steps activeStep] y]|]|]; [|intros m Hmm Hp Hf; apply (Hr m Hmm Hp); lia|done].
    destruct Hr as (B1 & B2 & B3). split_and!; [by apply turn_body_more| |done]. intros m Hmm Hp _. specialize (Hlt m Hmm Hp). apply B2; [done|done|lia]. }
  case_bool_decide as Et; [apply Hnext|].
  apply spec_bind, spec_attempt.
  assert (forall Q : list act -> result loop_error bool -> Prop, (forall r, Q [] r) ->
    specs (match host_shouldContinue h with Some f => call (f (from + 1) (s_usage x) (s_stopReason x)) | None => ret false end) Q) as Hc.
  { intros Q H cs'. destruct (host_shouldContinue h); [by apply spec_call|by apply spec_ret]. }
  assert (Hend : forall y : result loop_error step_stop, (forall reason, y = Ok reason -> reason <> ToolUse) -> specs (ret (Some (from + 1, None, y))) (fun t' r' => loop_post (S fuel) from (rank (media_of_turn d s)) (t ++ t') r')).
  { intros y Hy cs'. apply spec_ret. rewrite app_nil_r. split; [eapply climbs_hi; [exact Hm2|apply rank_bounds]|]. split_and!.
    - cbn. rewrite <- (app_nil_r t). by apply steps_more; [|constructor].
    - intros m Hmm Hp _. specialize (Hlt m Hmm Hp). lia.
    - intros reason Er. split; [done|by apply Hy]. }
  apply Hc. intros [[|]|e].
  - apply Hnext.
  - apply Hend. by intros reason [= <-].
  - apply Hend. done.
Qed.

Definition is_aborted (r : turn_stop) : bool := match r with Aborted => true | _ => false end.

(** How a turn can end, and what it has recorded when it does. *)
Definition turn_post (t : list act) (spent_in_turn : token_usage) (r : result loop_error (option turn_result)) : Prop :=
  match r with
  | Ok None => False
  | Ok (Some (TurnResult (Stop reason) steps u)) => u = spent_in_turn /\ reason <> ToolUse /\ steps_trace 0 t steps
  | Ok (Some (TurnResult Aborted steps u)) =>
      u = spent_in_turn /\ exists t0 activeStep cause, t = t0 ++ [Interrupted IAborted steps activeStep cause] /\ turn_body 0 t0 steps activeStep
  | Err e =>
      exists t0 steps activeStep cause,
        t = t0 ++ [Interrupted (if isMaxStepsExceededError e then IMaxSteps else IError) steps activeStep cause] /\ turn_body 0 t0 steps activeStep
  end.

Lemma runTurn_loop fuel s : exists t, media_climbs 0 t 2 /\
  (forall e, (turn_loop fuel 0 false false s).2 <> Err e) /\
  trace (turn_loop fuel 0 false false s).1 = trace s ++ t /\
  usage (turn_loop fuel 0 false false s).1 = spent (usage s) t /\
  loop_post fuel 0 0 t (turn_loop fuel 0 false false s).2.
Proof.
  destruct (loop_spec fuel 0 false false (Z.le_refl 0) ltac:(intros; lia) (streamed s) s eq_refl) as (t & E & U & _ & H). exists t. split_and!; [apply H| |done|done|done].
  intros e He. rewrite He in H. by destruct H.
Qed.

Lemma interrupted_run a t0 s1 : trace s1 = t0 -> usage_of a = None ->
  exists s2, (dispatch_live a s1) = (s2, Ok tt) /\ trace s2 = t0 ++ [a] /\ usage s2 = usage s1.
Proof.
  intros <- Hu. unfold dispatch_live, bind, tell, attempt, call. cbn. destruct (host_dispatch h a (world s1)) as [w [[]|e]]; eexists; split_and!; done.
Qed.


(** C40. A turn ends. With a limit of [m] steps a turn returns (one round of the loop more
    than the limit is enough) and makes at most [m] steps, whatever the provider answers
    and however often the host asks to continue. *)
Theorem turn_terminates fuel m s :
  host_maxSteps h = Some m -> 0 < m -> m < Z.of_nat fuel ->
  match (runTurn fuel s).2 with
  | Ok None => False
  | Ok (Some x) => t_steps x <= m
  | Err _ => exists steps activeStep cause reason t, trace (runTurn fuel s).1 = t ++ [Interrupted reason steps activeStep cause] /\ steps <= m
  end.
Proof.
  intros Hm Hp Hf. destruct (runTurn_loop fuel s) as (t & _ & He & E & U & _ & H). destruct (runTurn fuel s) as [s' r] eqn:R.
  unfold runTurn in R. change (bind ?m ?k s) with (let '(s1, r) := m s in match r with Ok x => k x s1 | Err e => (s1, Err e) end) in R.
  destruct (turn_loop fuel 0 false false s) as [s1 [[[[steps activeStep] [reason|error]]|]|e]]; cbn [fst snd] in *.
  - injection R as <- <-. cbn. apply H; [done|done|lia].
  - destruct H as (_ & B & _). specialize (B m Hm Hp (Z.lt_le_incl _ _ Hp)).
    change (bind get_world ?k s1) with (k (world s1) s1) in R. cbv beta in R.
    assert (forall a (k : M (option turn_result)), usage_of a = None -> bind (dispatch_live a) (fun _ => k) s1 = (s', r) ->
      exists s2, k s2 = (s', r) /\ trace s2 = (trace s ++ t) ++ [a]) as Hlive.
    { intros a k Ha Hk. destruct (interrupted_run a _ s1 E Ha) as (s2 & Ed & Et & Eu). exists s2. unfold bind in Hk. by rewrite Ed in Hk. }
    destruct (isAbortError error) eqn:Ea; [apply Hlive in R as (s2 & [= <- <-] & Et); done|].
    destruct (host_signal h (world s1)) as [sg|]; [apply Hlive in R as (s2 & [= <- <-] & Et); done|].
    apply Hlive in R as (s2 & [= <- <-] & Et); [|done]. by eexists steps, activeStep, _, _, (trace s ++ t).
  - exfalso. apply (H m Hm Hp). lia.
  - by destruct (He e).
Qed.

(** Recovery only moves forward. Over a whole turn the media projections of its
    requests never step back: once a request was built without older media, or without
    any, no later request of the turn (a strict resend apart) brings them back. *)
Theorem turn_media_forward fuel s : exists t, trace (runTurn fuel s).1 = trace s ++ t /\ media_climbs 0 t 2.
Proof.
  destruct (runTurn_loop fuel s) as (t & C & He & E & U & _ & H). destruct (runTurn fuel s) as [s' r] eqn:R.
  unfold runTurn in R. change (bind ?m ?k s) with (let '(s1, r) := m s in match r with Ok x => k x s1 | Err e => (s1, Err e) end) in R.
  destruct (turn_loop fuel 0 false false s) as [s1 [[[[steps activeStep] [reason|error]]|]|e]]; cbn [fst snd] in *.
  - injection R as <- <-. by exists t.
  - change (bind get_world ?k s1) with (k (world s1) s1) in R. cbv beta in R.
    assert (forall a (k : M (option turn_result)), usage_of a = None -> bind (dispatch_live a) (fun _ => k) s1 = (s', r) ->
      exists s2, k s2 = (s', r) /\ trace s2 = trace s ++ t ++ [a]) as Hlive.
    { intros a k Ha Hk. destruct (interrupted_run a _ s1 E Ha) as (s2 & Ed & Et & Eu). exists s2. unfold bind in Hk. rewrite Ed in Hk. by rewrite Et, app_assoc. }
    destruct (isAbortError error) eqn:Ea; [|destruct (host_signal h (world s1)) as [sg|]];
      apply Hlive in R as (s2 & [= <- <-] & Et); try done; eexists; (split; [exact Et|]); by apply media_silent.
  - injection R as <- <-. by exists t.
  - by destruct (He e).
Qed.

(** The retry budget. One request with its retries calls the provider at least once
    and at most as often as configured; no wait exceeds the cap on one wait; and while
    the turn may resume by itself the waits together stay within the cap on their sum,
    whatever delays the provider asks for. *)
Theorem retries_within_budget step p ms s : exists t,
  trace (chatWithRetry step p ms s).1 = trace s ++ t /\
  (1 <= requests t <= Z.to_nat (Z.max maxAttempts 1))%nat /\
  Forall (fun d => d <= gate_maxDelay) (waits t) /\
  (gate_autoResume = true -> waits t = [] \/ sum_of id (waits t) <= gate_maxTotal).
Proof. destruct (chat_spec step p ms (streamed s) s eq_refl) as (t & E & _ & _ & _ & H1 & H2 & H3). exists t. split; [exact E|]. split; [exact H1|]. split; [exact H2|]. intros Ha. destruct (H3 Ha); [by left|right; lia]. Qed.
End loop.

(** * Examples *)

(** A host whose state is the list of answers the provider still has, each with the
    calls its stream completes. *)
Definition ex_host (maxSteps : Z) : @host (list (list tool_call * result loop_error response)) :=
  Host (fun _ => None) None (fun w => (w, Ok [])) (Some (fun w => (w, Ok []))) (Some (fun w => (w, Ok []))) (Some (fun w => (w, Ok [])))
    (fun _ w => (w, Ok tt)) true
    (fun _ w => match w with (cs, a) :: w => (w, cs, a) | [] => ([], [], Err (OtherErr [])) end) (fun _ w => w)
    (Some (fun e => match e with Provider p => negb (tooLarge p) && negb (imageFormat p) && negb (structure p) | _ => false end))
    (fun _ w => (w, Ok tt)) (fun _ _ => 0) (fun _ w => (w, Ok false)) (fun _ _ w => (w, Ok false)) (fun _ _ w => (w, Ok tt)) (fun _ w => (w, Ok tt)) None None
    (Some maxSteps) None None.

Definition ex_call : tool_call := ToolCall (js "t1") (js "Read") None.
Definition ex_answer (call : bool) : response :=
  Response (if call then [ex_call] else []) (Some Completed) (TokenUsage 0 0 10 5).
Definition ex_paused : response := Response [ex_call] (Some PausedReason) (TokenUsage 0 0 10 5).
Definition ex_fail (large : bool) : loop_error := Provider (ProviderError large false false None).
(** Overloaded once with a call already complete, then the call again; too large twice,
    then the final answer. *)
Definition ex_answers : list (list tool_call * result loop_error response) :=
  [([ex_call], Err (ex_fail false)); ([ex_call], Ok (ex_answer true)); ([], Err (ex_fail true)); ([], Err (ex_fail true)); ([], Ok (ex_answer false))].

Example turn_of_two_steps : let r := runTurn (ex_host 5) 6 (St ex_answers emptyUsage [] []) in
  r.2 = Ok (Some (TurnResult (Stop EndTurn) 2 (TokenUsage 0 0 20 10))) /\
  trace r.1 = [StepBegan 1; Requested 1 (Media Normal) 1; Offered 1 ex_call; Retrying 1 1 500; Requested 1 (Media Normal) 2; UsageRecorded (TokenUsage 0 0 10 5);
    ToolsRun 1 [ex_call] (ex_answer true); StepEnded 1 (TokenUsage 0 0 10 5) ToolUse;
    StepBegan 2; Requested 2 (Media Normal) 1; Requested 2 (Media MediaDegraded) 1; Requested 2 (Media MediaStripped) 1; UsageRecorded (TokenUsage 0 0 10 5);
    StepEnded 2 (TokenUsage 0 0 10 5) EndTurn].
Proof. vm_compute. auto. Qed.

(** A paused response: its runner is drained when its stream completed the call, and
    the call is closed unexecuted when it did not. *)
Example paused_turns :
  let run cs := trace (runTurn (ex_host 5) 6 (St [(cs, Ok ex_paused)] emptyUsage [] [])).1 in
  run [ex_call] = [StepBegan 1; Requested 1 (Media Normal) 1; Offered 1 ex_call; UsageRecorded (TokenUsage 0 0 10 5);
    CallsDrained 1 [ex_call] ex_paused; StepEnded 1 (TokenUsage 0 0 10 5) Paused] /\
  run [] = [StepBegan 1; Requested 1 (Media Normal) 1; UsageRecorded (TokenUsage 0 0 10 5);
    CallsClosed 1 ex_paused; StepEnded 1 (TokenUsage 0 0 10 5) Paused].
Proof. vm_compute. auto. Qed.


Lemma turn_terminates_witness :
  host_maxSteps (ex_host 1) = Some 1 /\ 0 < 1 /\ 1 < Z.of_nat 2 /\
  match (runTurn (ex_host 1) 2 (St ex_answers emptyUsage [] [])).2 with
  | Ok None => False
  | Ok (Some x) => t_steps x <= 1
  | Err _ => exists steps activeStep cause reason t,
      trace (runTurn (ex_host 1) 2 (St ex_answers emptyUsage [] [])).1 = t ++ [Interrupted reason steps activeStep cause] /\ steps <= 1
  end.
Proof.
  split; [reflexivity|]. split; [lia|]. split; [cbn; lia|].
  apply (turn_terminates (ex_host 1) 2 1 (St ex_answers emptyUsage [] [])); [reflexivity|lia|cbn; lia].
Defined.

(** Once media was stripped a strict resend brings it back: the strict builder keeps
    media, and its rejection is not recovered from. *)
Definition ex_structure : loop_error := Provider (ProviderError false false true None).
Example strict_resend_after_stripping :
  let r := runTurn (ex_host 5) 6 (St [([], Err (Provider (ProviderError false true false None))); ([], Ok (ex_answer true)); ([], Err ex_structure); ([], Err (Provider (ProviderError false true false None)))] emptyUsage [] []) in
  match r.2 with Err (Provider e) => imageFormat e = true | _ => False end /\
  omap (fun a => match a with Requested _ p _ => Some p | _ => None end) (trace r.1) = [Media Normal; Media MediaStripped; Media MediaStripped; Strict].
Proof. vm_compute. auto. Qed.
