(* ===== verification/Goal.v ===== *)
(** The goal of an agent: [agent/goal/goal-mode.ts] with its constants, helpers and
    completion gate. Every operation takes the time; an operation is taken to read the
    clock once. New ids are arguments. *)

From S2P Require Import Prelude JsMap Json JsonText JsString.

(** * Data *)

Inductive goal_tier : Type := Small | Medium | Large.
Inductive goal_status : Type := Active | Paused | Blocked | Complete.
Inductive goal_actor : Type := ByUser | ByModel | ByRuntime | BySystem.

#[global] Instance goal_status_eq_dec : EqDecision goal_status.
Proof. solve_decision. Defined.

Record budget_limits : Type := BudgetLimits { tokenBudget : option Z; turnBudget : option Z; wallClockBudgetMs : option Z }.

Record receipt : Type := Receipt {
  toolName : jsstr;
  turnId : Z;
  capturedAtMs : Z;
  goalTurnAtCapture : Z;
  mutationIndexAtCapture : Z;
  treeAtCapture : option jsstr;
  ok : bool;
  r_summary : jsstr;
}.

Record evidence_state : Type := EvidenceState {
  receipts : list (jsstr * receipt);
  toolMutationIndex : Z;
  lastMutationGoalTurn : option Z;
  latestTree : option jsstr;
  pendingReceiptIds : list jsstr;
  pendingTurnId : Z;
  pendingStep : Z;
}.

Record reason_input : Type := ReasonInput { reason : option jsstr; reasonCode : option jsstr; reasonDetail : option jsstr }.

Record goal_state : Type := GoalState {
  goalId : jsstr;
  objective : jsstr;
  completionCriterion : option jsstr;
  status : goal_status;
  turnsUsed : Z;
  tokensUsed : Z;
  wallClockMs : Z;
  wallClockResumedAt : option Z;
  budgetLimits : budget_limits;
  terminal : reason_input;
  evidence : evidence_state;
}.

Record goal_update : Type := GoalUpdate {
  u_status : option goal_status;
  u_reason : reason_input;
  u_turnsUsed : option Z;
  u_tokensUsed : option Z;
  u_wallClockMs : option Z;
  u_budgetLimits : option budget_limits;
}.

Inductive goal_record : Type :=
| GoalCreate (id obj : jsstr) (criterion : option jsstr)
| GoalUpdated (u : goal_update)
| GoalClear
| Forked.

Record budget_report : Type := BudgetReport {
  remainingTokens : option Z;
  remainingTurns : option Z;
  remainingWallClockMs : option Z;
  tokenBudgetReached : bool;
  turnBudgetReached : bool;
  wallClockBudgetReached : bool;
  overBudget : bool;
}.

Record gate_snapshot : Type := GateSnapshot { mutationsObserved : Z; usableReceipts : Z; staleReceipts : Z; gs_lastMutation : option Z }.

Record goal_snapshot : Type := GoalSnapshot {
  sn_goalId : jsstr;
  sn_objective : jsstr;
  sn_criterion : option jsstr;
  sn_status : goal_status;
  sn_turnsUsed : Z;
  sn_tokensUsed : Z;
  sn_wallClockMs : Z;
  sn_budget : budget_report;
  sn_terminal : reason_input;
  sn_gate : option gate_snapshot;
}.

Record goal_stats : Type := GoalStats { st_turns : Z; st_tokens : Z; st_wallClockMs : Z }.

Inductive goal_change : Type :=
| Lifecycle (s : goal_status) (r : reason_input) (a : goal_actor)
| Completion (r : reason_input) (stats : goal_stats) (a : goal_actor)
| Created.

Inductive goal_act : Type :=
| Log (r : goal_record)
| Emit (s : option goal_snapshot) (c : option goal_change)
| ReplayPushGoal (s : goal_snapshot) (c : goal_change)
| GoalCancelledReminder | GoalForkClearedReminder.

Inductive goal_error : Type :=
| ObjectiveEmpty | ObjectiveTooLong | AlreadyExists | StatusInvalid | NotResumable | NotFound.

(** [config.goal]: absent fields take the defaults. *)
Record goal_config : Type := GoalConfig {
  completionGate : option bool;
  evidenceLeaseTurns : option Z;
  evidenceLeaseMs : option Z;
  tieredBudgets : option bool;
  tiers : goal_tier -> option Z * option Z;
}.

Record goal_mode : Type := GoalMode { state : option goal_state; acts : list goal_act }.

(** * Constants and helpers *)

Definition MAX_GOAL_OBJECTIVE_LENGTH : Z := 4000.
Definition MAX_GOAL_COMPLETION_CRITERION_LENGTH : Z := MAX_GOAL_OBJECTIVE_LENGTH.
Definition MAX_GOAL_EVIDENCE_RECEIPTS : Z := 50.
Definition DEFAULT_COMPLETION_GATE_ENABLED : bool := true.
Definition GOAL_EVIDENCE_LEASE_TURNS_DEFAULT : Z := 5.
Definition GOAL_EVIDENCE_LEASE_MS_DEFAULT : Z := 1800000.
Definition MAX_GATE_USABLE_RECEIPT_HINTS : Z := 5.
Definition GOAL_TIER_SMALL_MAX_OBJECTIVE_LENGTH : Z := 280.
Definition GOAL_TIER_MEDIUM_MAX_OBJECTIVE_LENGTH : Z := 1200.
Definition DEFAULT_TIERED_BUDGETS_ENABLED : bool := true.

(** Turns and tokens. *)
Definition GOAL_TIER_BUDGET_DEFAULTS (t : goal_tier) : Z * Z :=
  match t with Small => (10, 300000) | Medium => (40, 1500000) | Large => (120, 6000000) end.

Definition createGoalEvidenceState : evidence_state := EvidenceState [] 0 None None [] (-1) (-1).

Definition inferGoalTier (obj : jsstr) : goal_tier :=
  if blen obj <=? GOAL_TIER_SMALL_MAX_OBJECTIVE_LENGTH then Small
  else if blen obj <=? GOAL_TIER_MEDIUM_MAX_OBJECTIVE_LENGTH then Medium else Large.

Definition liveWallClockMs (s : goal_state) (now : Z) : Z :=
  match bool_decide (status s = Active), wallClockResumedAt s with
  | true, Some t => wallClockMs s + Z.max 0 (now - t)
  | _, _ => wallClockMs s
  end.

Definition reached (budget : option Z) (used : Z) : bool := match budget with Some b => b <=? used | None => false end.

Definition computeBudgetReport (s : goal_state) (now : Z) : budget_report :=
  let l := budgetLimits s in
  let clock := liveWallClockMs s now in
  let tok := reached (tokenBudget l) (tokensUsed s) in
  let turn := reached (turnBudget l) (turnsUsed s) in
  let wall := reached (wallClockBudgetMs l) clock in
  BudgetReport ((fun b => Z.max 0 (b - tokensUsed s)) <$> tokenBudget l) ((fun b => Z.max 0 (b - turnsUsed s)) <$> turnBudget l)
    ((fun b => Z.max 0 (b - clock)) <$> wallClockBudgetMs l) tok turn wall (tok || turn || wall).

Definition normalizeCompletionCriterion (value : option jsstr) : option jsstr :=
  match trim <$> value with
  | None | Some [] => None
  | Some t => Some (take (Z.to_nat MAX_GOAL_COMPLETION_CRITERION_LENGTH) t)
  end.

Definition no_reason : reason_input := ReasonInput None None None.

(** * The completion gate *)

Inductive gate_code : Type :=
| NoEvidence | UnknownReceipt | ReceiptFailed | StaleAfterMutation | StaleTree | LeaseExpiredTurns | LeaseExpiredWallClock.

Inductive gate_basis : Type := GInactive | GateDisabled | NotRequired | EvidencePassed.

(** Allowed with its basis, or refused with the reason and the rejected receipts; the
    usable receipts are a hint in both cases. *)
Inductive gate_verdict : Type :=
| Allowed (b : gate_basis) (usable : list jsstr)
| Refused (c : gate_code) (rejections : list (jsstr * gate_code)) (usable : list jsstr).

Definition completionGateEnforced (s : goal_state) : bool :=
  bool_decide (completionCriterion s <> None) || (0 <? toolMutationIndex (evidence s)) ||
  existsb (fun kr => bool_decide (treeAtCapture kr.2 <> None)) (receipts (evidence s)).

Record gate_check : Type := GateCheck { c_mutations : Z; c_latestTree : option jsstr; c_turnsUsed : Z; c_now : Z; c_leaseTurns : Z; c_leaseMs : Z }.

Definition checkGateReceipt (r : receipt) (c : gate_check) : option gate_code :=
  if negb (ok r) then Some ReceiptFailed
  else if mutationIndexAtCapture r <? c_mutations c then Some StaleAfterMutation
  else if bool_decide (treeAtCapture r <> None) && bool_decide (treeAtCapture r <> c_latestTree c) then Some StaleTree
  else if c_leaseTurns c <? c_turnsUsed c - goalTurnAtCapture r then Some LeaseExpiredTurns
  else if c_leaseMs c <? c_now c - capturedAtMs r then Some LeaseExpiredWallClock
  else None.

Definition passes (c : gate_check) (kr : jsstr * receipt) : bool := bool_decide (checkGateReceipt kr.2 c = None).

#[global] Instance gate_code_eq_dec : EqDecision gate_code.
Proof. solve_decision. Defined.

(** The last five usable receipts. *)
Definition listUsableGateReceipts (s : goal_state) (c : gate_check) : list jsstr :=
  let usable := (List.filter (passes c) (receipts (evidence s))).*1 in
  drop (length usable - Z.to_nat MAX_GATE_USABLE_RECEIPT_HINTS) usable.

Section goal.
Context (config : goal_config) (now : Z).

Definition gate_enabled : bool := default DEFAULT_COMPLETION_GATE_ENABLED (completionGate config).
Definition leaseTurns : Z := default GOAL_EVIDENCE_LEASE_TURNS_DEFAULT (evidenceLeaseTurns config).
Definition leaseMs : Z := default GOAL_EVIDENCE_LEASE_MS_DEFAULT (evidenceLeaseMs config).

Definition gateCheckContext (s : goal_state) : gate_check :=
  GateCheck (toolMutationIndex (evidence s)) (latestTree (evidence s)) (turnsUsed s) now leaseTurns leaseMs.

(** The loop over the cited ids: [None] when one passes. *)
Fixpoint cite (s : goal_state) (c : gate_check) (ids : list jsstr) : option (list (jsstr * gate_code)) :=
  match ids with
  | [] => Some []
  | id :: ids' =>
      match jget (receipts (evidence s)) id with
      | None => cons (id, UnknownReceipt) <$> cite s c ids'
      | Some r => match checkGateReceipt r c with None => None | Some code => cons (id, code) <$> cite s c ids' end
      end
  end.

Definition evaluateCompletionGate (m : goal_mode) (citedIds : list jsstr) : gate_verdict :=
  match state m with
  | None => Allowed GInactive []
  | Some s =>
      if negb (bool_decide (status s = Active)) then Allowed GInactive []
      else if negb gate_enabled then Allowed GateDisabled []
      else if negb (completionGateEnforced s) then Allowed NotRequired []
      else
        let c := gateCheckContext s in
        let usable := listUsableGateReceipts s c in
        match citedIds with
        | [] => Refused NoEvidence [] usable
        | _ =>
            match cite s c citedIds with
            | None => Allowed EvidencePassed usable
            | Some rejections => Refused (match rejections with (_, code) :: _ => code | [] => NoEvidence end) rejections usable
            end
        end
  end.

(** * Snapshots *)

Definition computeCompletionGateSnapshot (s : goal_state) : option gate_snapshot :=
  if negb gate_enabled || negb (completionGateEnforced s) then None
  else
    let usable := blen (List.filter (passes (gateCheckContext s)) (receipts (evidence s))) in
    Some (GateSnapshot (toolMutationIndex (evidence s)) usable (blen (receipts (evidence s)) - usable) (lastMutationGoalTurn (evidence s))).

Definition toSnapshot (s : goal_state) : goal_snapshot :=
  GoalSnapshot (goalId s) (objective s) (completionCriterion s) (status s) (turnsUsed s) (tokensUsed s) (liveWallClockMs s now)
    (computeBudgetReport s now) (terminal s) (computeCompletionGateSnapshot s).

Definition statsOf (s : goal_state) : goal_stats := GoalStats (turnsUsed s) (tokensUsed s) (liveWallClockMs s now).

Definition getGoal (m : goal_mode) : option goal_snapshot := toSnapshot <$> state m.
Definition getActiveGoal (m : goal_mode) : option goal_snapshot :=
  match state m with Some s => if bool_decide (status s = Active) then Some (toSnapshot s) else None | None => None end.

(** * Internals *)

Definition act (m : goal_mode) (a : goal_act) : goal_mode := GoalMode (state m) (acts m ++ [a]).

Definition persistState (m : goal_mode) (s : option goal_state) (silent : bool) (change : option goal_change) : goal_mode :=
  let m := GoalMode s (acts m) in
  if silent then m else act m (Emit (toSnapshot <$> s) change).

Definition clearInternal (m : goal_mode) (emit : bool) : goal_mode :=
  match state m with
  | None => m
  | Some _ => act (persistState m None (negb emit) None) (Log GoalClear)
  end.

Definition appendGoalUpdate (m : goal_mode) (u : goal_update) : goal_mode := act m (Log (GoalUpdated u)).

Definition appendStatusUpdate (m : goal_mode) (s : goal_state) (r : reason_input) : goal_mode :=
  appendGoalUpdate m (GoalUpdate (Some (status s)) r None None (Some (liveWallClockMs s now)) None).

Definition applyTerminalReason (s : goal_state) (r : reason_input) : goal_state :=
  GoalState (goalId s) (objective s) (completionCriterion s) (status s) (turnsUsed s) (tokensUsed s) (wallClockMs s) (wallClockResumedAt s)
    (budgetLimits s) r (evidence s).

Definition applyStatus (s : goal_state) (st : goal_status) : goal_state :=
  let '(clock, resumedAt) :=
    match bool_decide (status s = Active), wallClockResumedAt s with
    | true, Some t => (wallClockMs s + Z.max 0 (now - t), None)
    | _, r => (wallClockMs s, r)
    end in
  GoalState (goalId s) (objective s) (completionCriterion s) st (turnsUsed s) (tokensUsed s) clock
    (if bool_decide (st = Active) then Some now else resumedAt) (budgetLimits s) (terminal s) (evidence s).

Definition resolveTieredBudgetDefaults (obj : jsstr) (sizeHint : option goal_tier) : option (Z * Z) :=
  if negb (default DEFAULT_TIERED_BUDGETS_ENABLED (tieredBudgets config)) then None
  else
    let tier := default (inferGoalTier obj) sizeHint in
    let defaults := GOAL_TIER_BUDGET_DEFAULTS tier in
    Some (default defaults.1 (tiers config tier).1, default defaults.2 (tiers config tier).2).

(** * Creation and lifecycle *)

Definition createGoal (m : goal_mode) (id input : jsstr) (criterion : option jsstr) (replace : bool) (sizeHint : option goal_tier)
  : goal_mode * result goal_error goal_snapshot :=
  let obj := trim input in
  if bool_decide (obj = []) then (m, Err ObjectiveEmpty)
  else if MAX_GOAL_OBJECTIVE_LENGTH <? blen obj then (m, Err ObjectiveTooLong)
  else if bool_decide (state m <> None) && negb replace then (m, Err AlreadyExists)
  else
    let m := clearInternal m true in
    let tiered := resolveTieredBudgetDefaults obj sizeHint in
    let limits := match tiered with Some (turns, tokens) => BudgetLimits (Some tokens) (Some turns) None | None => BudgetLimits None None None end in
    let s := GoalState id obj (normalizeCompletionCriterion criterion) Active 0 0 0 (Some now) limits no_reason createGoalEvidenceState in
    let m := persistState m (Some s) false None in
    let m := act m (Log (GoalCreate id obj (completionCriterion s))) in
    let m := match tiered with Some _ => appendGoalUpdate m (GoalUpdate None no_reason None None None (Some limits)) | None => m end in
    (m, Ok (toSnapshot s)).

(** The common part of the operations that stop an active goal. *)
Definition park (m : goal_mode) (s : goal_state) (st : goal_status) (r : reason_input) (a : goal_actor) : goal_mode * goal_snapshot :=
  let s := applyTerminalReason (applyStatus s st) r in
  (appendStatusUpdate (persistState m (Some s) false (Some (Lifecycle st r a))) s r, toSnapshot s).

Definition pauseGoal (m : goal_mode) (r : reason_input) (a : goal_actor) : goal_mode * result goal_error goal_snapshot :=
  match state m with
  | None => (m, Err NotFound)
  | Some s =>
      if bool_decide (status s = Paused) then (m, Ok (toSnapshot s))
      else if negb (bool_decide (status s = Active)) then (m, Err StatusInvalid)
      else let '(m, sn) := park m s Paused r a in (m, Ok sn)
  end.

Definition if_active (m : goal_mode) (f : goal_state -> goal_mode * goal_snapshot) : goal_mode * option goal_snapshot :=
  match state m with
  | Some s => if bool_decide (status s = Active) then let '(m, sn) := f s in (m, Some sn) else (m, None)
  | None => (m, None)
  end.

Definition pauseActiveGoal (m : goal_mode) (r : reason_input) (a : goal_actor) : goal_mode * option goal_snapshot :=
  if_active m (fun s => park m s Paused r a).

Definition pauseOnInterrupt (m : goal_mode) (r : reason_input) : goal_mode * option goal_snapshot := pauseActiveGoal m r ByUser.

Definition markBlocked (m : goal_mode) (r : reason_input) (a : goal_actor) : goal_mode * option goal_snapshot :=
  if_active m (fun s => park m s Blocked r a).

Definition resumeGoal (m : goal_mode) (r : reason_input) (a : goal_actor) : goal_mode * result goal_error goal_snapshot :=
  match state m with
  | None => (m, Err NotFound)
  | Some s =>
      if bool_decide (status s = Active) then (m, Ok (toSnapshot s))
      else if negb (bool_decide (status s = Paused)) && negb (bool_decide (status s = Blocked)) then (m, Err NotResumable)
      else
        let s := applyStatus (applyTerminalReason s no_reason) Active in
        (appendStatusUpdate (persistState m (Some s) false (Some (Lifecycle Active (ReasonInput (reason r) None None) a))) s r, Ok (toSnapshot s))
  end.

(** [{ ...limits, ...input }]. *)
Definition merge_limits (l i : budget_limits) : budget_limits :=
  let pick a b := match b with Some v => Some v | None => a end in
  BudgetLimits (pick (tokenBudget l) (tokenBudget i)) (pick (turnBudget l) (turnBudget i)) (pick (wallClockBudgetMs l) (wallClockBudgetMs i)).

Definition with_limits (s : goal_state) (l : budget_limits) : goal_state :=
  GoalState (goalId s) (objective s) (completionCriterion s) (status s) (turnsUsed s) (tokensUsed s) (wallClockMs s) (wallClockResumedAt s)
    l (terminal s) (evidence s).
Definition with_usage (s : goal_state) (turns tokens : Z) : goal_state :=
  GoalState (goalId s) (objective s) (completionCriterion s) (status s) turns tokens (wallClockMs s) (wallClockResumedAt s)
    (budgetLimits s) (terminal s) (evidence s).
Definition with_evidence (s : goal_state) (e : evidence_state) : goal_state :=
  GoalState (goalId s) (objective s) (completionCriterion s) (status s) (turnsUsed s) (tokensUsed s) (wallClockMs s) (wallClockResumedAt s)
    (budgetLimits s) (terminal s) e.

Definition setBudgetLimits (m : goal_mode) (l : budget_limits) : goal_mode * result goal_error goal_snapshot :=
  match state m with
  | None => (m, Err NotFound)
  | Some s =>
      let s := with_limits s (merge_limits (budgetLimits s) l) in
      (appendGoalUpdate (persistState m (Some s) false None) (GoalUpdate None no_reason None None None (Some (budgetLimits s))), Ok (toSnapshot s))
  end.

Definition cancelGoal (m : goal_mode) (a : goal_actor) : goal_mode * result goal_error goal_snapshot :=
  match state m with
  | None => (m, Err NotFound)
  | Some s =>
      let sn := toSnapshot s in
      let m := clearInternal m true in
      (match a with ByUser => act m GoalCancelledReminder | _ => m end, Ok sn)
  end.

Definition markComplete (m : goal_mode) (r : reason_input) (a : goal_actor) : goal_mode * option goal_snapshot :=
  if_active m (fun s =>
    let s := applyTerminalReason (applyStatus s Complete) r in
    let sn := toSnapshot s in
    let m := GoalMode (Some s) (acts m) in
    let m := appendStatusUpdate m s r in
    let m := act m (Emit (Some sn) (Some (Completion (ReasonInput (reason r) None None) (statsOf s) a))) in
    (clearInternal m true, sn)).

(** * Accounting and evidence *)

Definition recordTokenUsage (m : goal_mode) (tokenDelta : Z) : goal_mode * option goal_snapshot :=
  if_active m (fun s =>
    let s := with_usage s (turnsUsed s) (tokensUsed s + Z.max 0 tokenDelta) in
    (appendGoalUpdate (persistState m (Some s) true None) (GoalUpdate None no_reason None (Some (tokensUsed s)) None None), toSnapshot s)).

Definition incrementTurn (m : goal_mode) : goal_mode * option goal_snapshot :=
  if_active m (fun s =>
    let s := with_usage s (turnsUsed s + 1) (tokensUsed s) in
    (appendGoalUpdate (persistState m (Some s) false None) (GoalUpdate None no_reason (Some (turnsUsed s)) None None None), toSnapshot s)).

Definition on_active (m : goal_mode) (f : goal_state -> goal_state) : goal_mode :=
  match state m with
  | Some s => if bool_decide (status s = Active) then GoalMode (Some (f s)) (acts m) else m
  | None => m
  end.

Definition recordEvidence (m : goal_mode) (id tool : jsstr) (turn step : Z) (success : bool) (text : jsstr) : goal_mode :=
  on_active m (fun s =>
    let e := evidence s in
    let pending := if bool_decide (pendingTurnId e = turn) && bool_decide (pendingStep e = step) then pendingReceiptIds e else [] in
    let kept := if MAX_GOAL_EVIDENCE_RECEIPTS <=? blen (receipts e) then match receipts e with (oldest, _) :: _ => jdel (receipts e) oldest | [] => [] end
                else receipts e in
    let r := Receipt tool turn now (turnsUsed s) (toolMutationIndex e) None success text in
    with_evidence s (EvidenceState (jset kept id r) (toolMutationIndex e) (lastMutationGoalTurn e) (latestTree e) (pending ++ [id]) turn step)).

Definition recordMutation (m : goal_mode) : goal_mode :=
  on_active m (fun s =>
    let e := evidence s in
    with_evidence s (EvidenceState (receipts e) (toolMutationIndex e + 1) (Some (turnsUsed s)) (latestTree e) (pendingReceiptIds e) (pendingTurnId e) (pendingStep e))).

Definition stamp (tree : jsstr) (ids : list jsstr) (rs : list (jsstr * receipt)) : list (jsstr * receipt) :=
  (fun kr => if bool_decide (kr.1 ∈ ids)
             then (kr.1, Receipt (toolName kr.2) (turnId kr.2) (capturedAtMs kr.2) (goalTurnAtCapture kr.2) (mutationIndexAtCapture kr.2) (Some tree) (ok kr.2) (r_summary kr.2))
             else kr) <$> rs.

Definition stampReceiptTrees (m : goal_mode) (tree : option jsstr) (turn step : Z) : goal_mode :=
  match state m with
  | None => m
  | Some s =>
      let e := evidence s in
      let latest := match tree with Some t => Some t | None => latestTree e end in
      let rs := match tree with
                | Some t => if bool_decide (pendingTurnId e = turn) && bool_decide (pendingStep e = step) then stamp t (pendingReceiptIds e) (receipts e) else receipts e
                | None => receipts e
                end in
      GoalMode (Some (with_evidence s (EvidenceState rs (toolMutationIndex e) (lastMutationGoalTurn e) latest [] (pendingTurnId e) (pendingStep e)))) (acts m)
  end.

(** * Replay *)

Definition restoreCreate (m : goal_mode) (id obj : jsstr) (criterion : option jsstr) : goal_mode :=
  let s := GoalState id obj criterion Active 0 0 0 None (BudgetLimits None None None) no_reason createGoalEvidenceState in
  act (GoalMode (Some s) (acts m)) (ReplayPushGoal (toSnapshot s) Created).

Definition restoreUpdate (m : goal_mode) (u : goal_update) (a : goal_actor) : goal_mode :=
  match state m with
  | None => m
  | Some s =>
      let s := match u_status u with
               | Some st => GoalState (goalId s) (objective s) (completionCriterion s) st (turnsUsed s) (tokensUsed s) (wallClockMs s) None
                              (budgetLimits s) (match st with Active => no_reason | _ => u_reason u end) (evidence s)
               | None => s
               end in
      let s := with_usage s (default (turnsUsed s) (u_turnsUsed u)) (default (tokensUsed s) (u_tokensUsed u)) in
      let s := match u_wallClockMs u with
               | Some w => GoalState (goalId s) (objective s) (completionCriterion s) (status s) (turnsUsed s) (tokensUsed s) w None
                             (budgetLimits s) (terminal s) (evidence s)
               | None => s
               end in
      let s := with_limits s (default (budgetLimits s) (u_budgetLimits u)) in
      let m := GoalMode (Some s) (acts m) in
      match u_status u with
      | None => m
      | Some Complete => act m (ReplayPushGoal (toSnapshot s) (Completion (u_reason u) (statsOf s) a))
      | Some st => act m (ReplayPushGoal (toSnapshot s) (Lifecycle st (u_reason u) a))
      end
  end.

Definition restoreForked (m : goal_mode) : goal_mode :=
  match state m with None => m | Some _ => act (GoalMode None (acts m)) GoalForkClearedReminder end.

Definition restore_goal (m : goal_mode) (r : goal_record) (a : goal_actor) : goal_mode :=
  match r with
  | GoalCreate id obj criterion => restoreCreate m id obj criterion
  | GoalUpdated u => restoreUpdate m u a
  | GoalClear => GoalMode None (acts m)
  | Forked => restoreForked m
  end.

Definition resume_reason : reason_input := ReasonInput (Some (js "Paused after agent resume")) (Some (js "agent_resume")) None.

Definition normalizeAfterReplay (m : goal_mode) : goal_mode :=
  match state m with
  | None => m
  | Some s =>
      let s := GoalState (goalId s) (objective s) (completionCriterion s) (status s) (turnsUsed s) (tokensUsed s) (wallClockMs s) None
                 (budgetLimits s) (terminal s) (evidence s) in
      let m := GoalMode (Some s) (acts m) in
      match status s with
      | Complete => clearInternal m false
      | Active =>
          let s := applyTerminalReason (applyStatus s Paused) resume_reason in
          appendStatusUpdate (persistState m (Some s) true None) s resume_reason
      | Paused | Blocked => m
      end
  end.
End goal.

(** * Runs *)

Inductive goal_op : Type :=
| Create (id input : jsstr) (criterion : option jsstr) (replace : bool) (sizeHint : option goal_tier)
| Pause (r : reason_input) (a : goal_actor)
| PauseActive (r : reason_input) (a : goal_actor)
| Block (r : reason_input) (a : goal_actor)
| Resume (r : reason_input) (a : goal_actor)
| SetBudget (l : budget_limits)
| Cancel (a : goal_actor)
| Done (r : reason_input) (a : goal_actor)
| Tokens (delta : Z)
| Turn
| Evidence (id tool : jsstr) (turn step : Z) (success : bool) (text : jsstr)
| Mutation
| Stamp (tree : option jsstr) (turn step : Z)
| Restart.

Definition record_in (a : goal_act) : option goal_record := match a with Log r => Some r | _ => None end.
Definition goal_log (m : goal_mode) : list goal_record := omap record_in (acts m).

Section runs.
Context (config : goal_config).

Definition replay_goal (now : Z) (rs : list goal_record) (m : goal_mode) : goal_mode :=
  fold_left (fun m r => restore_goal config now m r BySystem) rs m.

Definition no_goal : goal_mode := GoalMode None [].

(** A new process: the log is replayed from nothing, then reconciled. *)
Definition restart (now : Z) (m : goal_mode) : goal_mode :=
  let m' := normalizeAfterReplay config now (replay_goal now (goal_log m) no_goal) in
  GoalMode (state m') (acts m ++ acts m').

Definition goal_step (m : goal_mode) (to : Z * goal_op) : goal_mode :=
  let '(now, o) := to in
  match o with
  | Create id input criterion replace sizeHint => (createGoal config now m id input criterion replace sizeHint).1
  | Pause r a => (pauseGoal config now m r a).1
  | PauseActive r a => (pauseActiveGoal config now m r a).1
  | Block r a => (markBlocked config now m r a).1
  | Resume r a => (resumeGoal config now m r a).1
  | SetBudget l => (setBudgetLimits config now m l).1
  | Cancel a => (cancelGoal config now m a).1
  | Done r a => (markComplete config now m r a).1
  | Tokens delta => (recordTokenUsage config now m delta).1
  | Turn => (incrementTurn config now m).1
  | Evidence id tool turn step success text => recordEvidence now m id tool turn step success text
  | Mutation => recordMutation m
  | Stamp tree turn step => stampReceiptTrees m tree turn step
  | Restart => restart now m
  end.

Definition goal_run (ops : list (Z * goal_op)) : goal_mode := fold_left goal_step ops no_goal.

(** * Replay *)

(** What the records hold of a goal: all but the running interval and the evidence. *)
Record durable_goal : Type := DurableGoal {
  d_goalId : jsstr; d_objective : jsstr; d_criterion : option jsstr; d_status : goal_status;
  d_turns : Z; d_tokens : Z; d_wall : Z; d_limits : budget_limits; d_terminal : reason_input;
}.
Definition durable (s : goal_state) : durable_goal :=
  DurableGoal (goalId s) (objective s) (completionCriterion s) (status s) (turnsUsed s) (tokensUsed s) (wallClockMs s) (budgetLimits s) (terminal s).

Definition agree_goal (m d : goal_mode) : Prop := durable <$> state m = durable <$> state d.

(** From [m] to [m'] records are written, and restoring them does what was done. *)
Definition goal_follows (m m' : goal_mode) : Prop :=
  exists rs, goal_log m' = goal_log m ++ rs /\ forall d now, agree_goal m d -> agree_goal m' (replay_goal now rs d).

Lemma goal_log_act m a : goal_log (act m a) = goal_log m ++ option_list (record_in a).
Proof. unfold goal_log. cbn. rewrite omap_app. by destruct a. Qed.

Lemma follows_refl m : goal_follows m m.
Proof. exists []. split; [by rewrite app_nil_r|]. by intros. Qed.

Lemma follows_silent m m' : goal_log m' = goal_log m -> agree_goal m m' -> goal_follows m m'.
Proof. intros E H. exists []. split; [by rewrite app_nil_r|]. intros d now Hd. cbn. unfold agree_goal in *. by rewrite <- H. Qed.

Lemma follows_trans_goal m1 m2 m3 : goal_follows m1 m2 -> goal_follows m2 m3 -> goal_follows m1 m3.
Proof.
  intros (r1 & E1 & H1) (r2 & E2 & H2). exists (r1 ++ r2). split; [by rewrite E2, E1, app_assoc|].
  intros d now Hd. unfold replay_goal. rewrite fold_left_app. by apply H2, H1.
Qed.

Lemma follows_record m m' r : goal_log m' = goal_log m ++ [r] -> (forall d now, agree_goal m d -> agree_goal m' (restore_goal config now d r BySystem)) -> goal_follows m m'.
Proof. intros E H. exists [r]. split; [done|]. intros d now Hd. by apply H. Qed.

Lemma agree_some m d s : agree_goal m d -> state m = Some s -> exists s', state d = Some s' /\ durable s' = durable s.
Proof. unfold agree_goal. intros H E. rewrite E in H. destruct (state d) as [s'|]; [|done]. injection H as H. exists s'. split; [done|]. unfold durable. by f_equal. Qed.

Lemma agree_none m d : agree_goal m d -> state m = None -> state d = None.
Proof. unfold agree_goal. intros H E. rewrite E in H. by destruct (state d). Qed.

(** What a status update restores. *)
Lemma status_update_agree now m s s1 r d : state m = Some s1 ->
  durable s = durable (GoalState (goalId s1) (objective s1) (completionCriterion s1) (status s) (turnsUsed s1) (tokensUsed s1) (wallClockMs s) None
    (budgetLimits s1) (match status s with Active => no_reason | _ => r end) (evidence s1)) ->
  liveWallClockMs s now = wallClockMs s -> agree_goal m d ->
  forall m' now', state m' = Some s ->
  agree_goal m' (restore_goal config now' d (GoalUpdated (GoalUpdate (Some (status s)) r None None (Some (liveWallClockMs s now)) None)) BySystem).
Proof.
  intros E Hs Hw Hd m' now' Em. destruct (agree_some _ _ _ Hd E) as (s' & Es & H'). unfold agree_goal. rewrite Em.
  cbn [restore_goal]. unfold restoreUpdate. rewrite Es, Hw. destruct s as [? ? ? st ? ? ? ? ? ? ?], s1, s'. cbn in *. injection Hs as -> -> -> -> -> -> ->.
  injection H' as -> -> -> _ -> -> _ -> _. by destruct st.
Qed.

Lemma live_stopped s now : status s <> Active -> liveWallClockMs s now = wallClockMs s.
Proof. intros H. unfold liveWallClockMs. by rewrite bool_decide_eq_false_2. Qed.

Lemma follows_park now m s st r a : state m = Some s -> st <> Active -> goal_follows m (park config now m s st r a).1.
Proof.
  intros E Hst. unfold park, persistState, appendStatusUpdate, appendGoalUpdate. cbv zeta. cbn [fst].
  set (s' := applyTerminalReason (applyStatus now s st) r).
  assert (status s' = st) as Est by (subst s'; unfold applyStatus; by destruct (bool_decide (status s = Active)), (wallClockResumedAt s)).
  eapply follows_record; [rewrite goal_log_act; unfold goal_log; cbn; by rewrite omap_app, app_nil_r|].
  intros d now' Hd. eapply (status_update_agree now m s' s r d E); [|apply live_stopped; by rewrite Est|done|done].
  subst s'. unfold applyTerminalReason, applyStatus, durable. destruct (bool_decide (status s = Active)), (wallClockResumedAt s); cbn; by destruct st.
Qed.

Lemma follows_clear now m emit : goal_follows m (clearInternal config now m emit).
Proof.
  unfold clearInternal. destruct (state m) as [s|] eqn:E; [|apply follows_refl]. unfold persistState.
  destruct emit; cbn [negb]; (apply (follows_record _ _ GoalClear); [|by intros]); rewrite goal_log_act; unfold goal_log; cbn; by rewrite ?omap_app, ?app_nil_r.
Qed.

Lemma follows_if_active m f : (forall s, state m = Some s -> status s = Active -> goal_follows m (f s).1) -> goal_follows m (if_active m f).1.
Proof.
  intros H. unfold if_active. destruct (state m) as [s|]; [|apply follows_refl]. case_bool_decide as Es; [|apply follows_refl].
  specialize (H s eq_refl Es). by destruct (f s).
Qed.

Lemma follows_on_active m f : (forall s, durable (f s) = durable s) -> goal_follows m (on_active m f).
Proof.
  intros H. unfold on_active. destruct (state m) as [s|] eqn:E; [|apply follows_refl]. case_bool_decide; [|apply follows_refl].
  apply follows_silent; [done|]. unfold agree_goal. rewrite E. cbn. by rewrite H.
Qed.

(** An update of counters or limits only. *)
Lemma follows_update now m s s' silent u : state m = Some s -> u_status u = None -> u_wallClockMs u = None ->
  durable s' = DurableGoal (goalId s) (objective s) (completionCriterion s) (status s) (default (turnsUsed s) (u_turnsUsed u)) (default (tokensUsed s) (u_tokensUsed u))
    (wallClockMs s) (default (budgetLimits s) (u_budgetLimits u)) (terminal s) ->
  goal_follows m (appendGoalUpdate (persistState config now m (Some s') silent None) u).
Proof.
  intros E Hu Hw Hs. eapply (follows_record _ _ (GoalUpdated u)).
  - unfold appendGoalUpdate, persistState. destruct silent; rewrite goal_log_act; unfold goal_log; cbn; by rewrite ?omap_app, ?app_nil_r.
  - intros d now' Hd. destruct (agree_some _ _ _ Hd E) as (s1 & Es & H1). unfold agree_goal. cbn [restore_goal]. unfold restoreUpdate. rewrite Es, Hu, Hw.
    assert (state (appendGoalUpdate (persistState config now m (Some s') silent None) u) = Some s') as -> by (by destruct silent).
    destruct s, s1. cbn in *. injection H1 as -> -> -> -> -> -> -> -> ->. cbn. by rewrite Hs.
Qed.

Lemma follows_resume now m r a : goal_follows m (resumeGoal config now m r a).1.
Proof.
  unfold resumeGoal. destruct (state m) as [s|] eqn:E; [|apply follows_refl]. case_bool_decide as E1; [apply follows_refl|].
  destruct (negb _ && negb _); [apply follows_refl|]. cbv zeta. cbn [fst]. unfold persistState, appendStatusUpdate, appendGoalUpdate.
  set (s' := applyStatus now (applyTerminalReason s no_reason) Active).
  assert (status s' = Active) as Est by (subst s'; unfold applyStatus; cbn; by destruct (bool_decide (status s = Active)), (wallClockResumedAt s)).
  eapply follows_record; [rewrite goal_log_act; unfold goal_log; cbn; by rewrite omap_app, app_nil_r|].
  intros d now' Hd. eapply (status_update_agree now m s' s r d E); [| |done|done].
  - subst s'. unfold applyTerminalReason, applyStatus, durable. cbn. by destruct (bool_decide (status s = Active)), (wallClockResumedAt s).
  - assert (wallClockResumedAt s' = Some now) as Hr by (subst s'; unfold applyStatus; by destruct (match bool_decide _ with true => _ | false => _ end)).
    unfold liveWallClockMs. rewrite (bool_decide_eq_true_2 _ Est), Hr, Z.sub_diag, Z.max_id. apply Z.add_0_r.
Qed.

Lemma follows_done now m r a : goal_follows m (markComplete config now m r a).1.
Proof.
  apply follows_if_active. intros s E Es. cbv zeta. cbn [fst]. eapply follows_trans_goal; [|apply follows_clear].
  set (s' := applyTerminalReason (applyStatus now s Complete) r).
  assert (status s' = Complete) as Est by (subst s'; unfold applyStatus; cbn; by destruct (bool_decide (status s = Active)), (wallClockResumedAt s)).
  eapply follows_record; [unfold appendStatusUpdate, appendGoalUpdate; rewrite !goal_log_act; cbn; by rewrite app_nil_r|].
  intros d now' Hd. eapply (status_update_agree now m s' s r d E); [|apply live_stopped; by rewrite Est|done|done].
  subst s'. unfold applyTerminalReason, applyStatus, durable. by destruct (bool_decide (status s = Active)), (wallClockResumedAt s).
Qed.

Lemma follows_create now m id input criterion replace sizeHint : goal_follows m (createGoal config now m id input criterion replace sizeHint).1.
Proof.
  unfold createGoal. cbv zeta. repeat (case_match; [apply follows_refl|]). cbn [fst].
  eapply follows_trans_goal; [apply (follows_clear now m true)|].
  set (m1 := clearInternal config now m true). set (obj := trim input). destruct (resolveTieredBudgetDefaults config obj sizeHint) as [[turns tokens]|].
  - eexists [_; _]. split; [unfold appendGoalUpdate, persistState; rewrite !goal_log_act; cbn; rewrite app_nil_r, <- app_assoc; reflexivity|].
    intros d now' Hd. reflexivity.
  - eexists [_]. split; [unfold persistState; rewrite !goal_log_act; cbn; rewrite app_nil_r; reflexivity|].
    intros d now' Hd. reflexivity.
Qed.

Lemma follows_normalize now m : goal_follows m (normalizeAfterReplay config now m).
Proof.
  unfold normalizeAfterReplay. destruct (state m) as [s|] eqn:E; [|apply follows_refl]. cbv zeta.
  set (s0 := GoalState (goalId s) (objective s) (completionCriterion s) (status s) (turnsUsed s) (tokensUsed s) (wallClockMs s) None (budgetLimits s) (terminal s) (evidence s)).
  assert (goal_follows m (GoalMode (Some s0) (acts m))) as H0 by (apply follows_silent; [done|]; unfold agree_goal; by rewrite E).
  destruct (status s0) eqn:Es; try exact H0; (eapply follows_trans_goal; [exact H0|]); [|apply follows_clear].
  unfold persistState, appendStatusUpdate, appendGoalUpdate. set (why := resume_reason).
  set (s' := applyTerminalReason (applyStatus now s0 Paused) why).
  assert (status s' = Paused) as Est by (subst s'; unfold applyStatus; by destruct (bool_decide (status s0 = Active))).
  eapply follows_record; [rewrite goal_log_act; reflexivity|].
  intros d now' Hd. eapply (status_update_agree now (GoalMode (Some s0) (acts m)) s' s0 why d eq_refl); [|apply live_stopped; by rewrite Est|done|done].
  subst s'. unfold applyTerminalReason, applyStatus, durable. by destruct (bool_decide (status s0 = Active)).
Qed.

Lemma replay_log now rs : forall m, goal_log (replay_goal now rs m) = goal_log m.
Proof.
  induction rs as [|r rs IH]; intros m; [done|]. cbn [replay_goal fold_left]. change (goal_log (replay_goal now rs (restore_goal config now m r BySystem)) = goal_log m).
  rewrite IH. destruct r as [id obj criterion|u| |]; cbn [restore_goal].
  - unfold restoreCreate. rewrite goal_log_act. by rewrite app_nil_r.
  - unfold restoreUpdate. destruct (state m); [|done]. destruct (u_status u) as [[]|]; try done; rewrite goal_log_act; by rewrite app_nil_r.
  - done.
  - unfold restoreForked. destruct (state m); [|done]. rewrite goal_log_act. by rewrite app_nil_r.
Qed.

Definition replayed_goal (m : goal_mode) : Prop := forall now, agree_goal m (replay_goal now (goal_log m) no_goal).

Lemma follows_restart now m : replayed_goal m -> goal_follows m (restart now m).
Proof.
  intros H. unfold restart. cbv zeta. set (d := replay_goal now (goal_log m) no_goal). destruct (follows_normalize now d) as (rs & E & Hf).
  exists rs. split.
  - transitivity (goal_log m ++ goal_log (normalizeAfterReplay config now d)); [apply omap_app|]. rewrite E. subst d. by rewrite replay_log.
  - intros d2 now' Hd. apply (Hf d2 now'). exact (eq_trans (eq_sym (H now)) Hd).
Qed.

Lemma step_follows m to : replayed_goal m -> goal_follows m (goal_step m to).
Proof.
  intros H. destruct to as [now o]. assert (Hpark : forall st r a s, state m = Some s -> st <> Active -> goal_follows m (park config now m s st r a).1) by (intros; by apply follows_park).
  destruct o; cbn [goal_step].
  - apply follows_create.
  - unfold pauseGoal. destruct (state m) as [s|] eqn:E; [|apply follows_refl]. case_bool_decide; [apply follows_refl|]. case_match; [apply follows_refl|].
    specialize (Hpark Paused r a s eq_refl ltac:(done)). by destruct (park _ _ _ _ _ _ _).
  - apply follows_if_active. intros s E _. by apply Hpark.
  - apply follows_if_active. intros s E _. by apply Hpark.
  - apply follows_resume.
  - unfold setBudgetLimits. destruct (state m) as [s|] eqn:E; [|apply follows_refl]. cbv zeta. cbn [fst]. by apply (follows_update now m s).
  - unfold cancelGoal. destruct (state m) as [s|] eqn:E; [|apply follows_refl]. cbv zeta. cbn [fst].
    eapply follows_trans_goal; [apply (follows_clear now m true)|]. destruct a; try apply follows_refl.
    apply follows_silent; [by rewrite goal_log_act, app_nil_r|done].
  - apply follows_done.
  - apply follows_if_active. intros s E _. cbv zeta. cbn [fst]. by apply (follows_update now m s).
  - apply follows_if_active. intros s E _. cbv zeta. cbn [fst]. by apply (follows_update now m s).
  - by apply follows_on_active.
  - by apply follows_on_active.
  - unfold stampReceiptTrees. destruct (state m) as [s|] eqn:E; [|apply follows_refl]. cbv zeta. apply follows_silent; [done|]. unfold agree_goal. by rewrite E.
  - by apply follows_restart.
Qed.

Lemma run_replayed ops : replayed_goal (goal_run ops).
Proof.
  induction ops as [|to ops IH] using rev_ind; [done|]. unfold goal_run. rewrite fold_left_app. cbn [fold_left]. fold (goal_run ops).
  destruct (step_follows (goal_run ops) to IH) as (rs & E & H). intros now. rewrite E. unfold replay_goal. rewrite fold_left_app. by apply H, IH.
Qed.

(** * The goal after a step *)

(** [Turn], [Mutation] and [Evidence] act on an active goal. *)
Definition counts (o : goal_op) : bool := match o with Turn | Mutation | Evidence _ _ _ _ _ _ => true | _ => false end.

Definition capture (e : evidence_state) (now turns : Z) (id tool : jsstr) (turn step : Z) (success : bool) (text : jsstr) : evidence_state :=
  let pending := if bool_decide (pendingTurnId e = turn) && bool_decide (pendingStep e = step) then pendingReceiptIds e else [] in
  let kept := if MAX_GOAL_EVIDENCE_RECEIPTS <=? blen (receipts e) then match receipts e with (oldest, _) :: _ => jdel (receipts e) oldest | [] => [] end
              else receipts e in
  EvidenceState (jset kept id (Receipt tool turn now turns (toolMutationIndex e) None success text)) (toolMutationIndex e) (lastMutationGoalTurn e) (latestTree e)
    (pending ++ [id]) turn step.

Definition same_receipt (r r' : receipt) : Prop :=
  ok r' = ok r /\ capturedAtMs r' = capturedAtMs r /\ goalTurnAtCapture r' = goalTurnAtCapture r /\ mutationIndexAtCapture r' = mutationIndexAtCapture r.

Definition carried (kr kr' : jsstr * receipt) : Prop := kr'.1 = kr.1 /\ same_receipt kr.2 kr'.2.

Inductive moves (now : Z) : goal_op -> goal_state -> goal_state -> Prop :=
| Stays o s : (status s = Active -> counts o = false) -> moves now o s s
| Parks o s st r : status s = Active -> st <> Active -> st <> Complete -> counts o = false -> moves now o s (applyTerminalReason (applyStatus now s st) r)
| Resumes o s : status s <> Active -> counts o = false -> moves now o s (applyStatus now (applyTerminalReason s no_reason) Active)
| Limits o s l : counts o = false -> moves now o s (with_limits s l)
| Spends s d : moves now (Tokens d) s (with_usage s (turnsUsed s) (tokensUsed s + Z.max 0 d))
| Turns s : status s = Active -> moves now Turn s (with_usage s (turnsUsed s + 1) (tokensUsed s))
| Captures id tool turn step success text s : status s = Active ->
    moves now (Evidence id tool turn step success text) s (with_evidence s (capture (evidence s) now (turnsUsed s) id tool turn step success text))
| Mutates s : status s = Active ->
    moves now Mutation s (with_evidence s (EvidenceState (receipts (evidence s)) (toolMutationIndex (evidence s) + 1) (Some (turnsUsed s))
      (latestTree (evidence s)) (pendingReceiptIds (evidence s)) (pendingTurnId (evidence s)) (pendingStep (evidence s))))
| Stamps o s tree rs : counts o = false -> rs.*1 = (receipts (evidence s)).*1 -> Forall2 carried (receipts (evidence s)) rs ->
    moves now o s (with_evidence s (EvidenceState rs (toolMutationIndex (evidence s)) (lastMutationGoalTurn (evidence s)) tree [] (pendingTurnId (evidence s)) (pendingStep (evidence s)))).

(** A new goal. *)
Definition created (now : Z) (o : goal_op) (s : goal_state) : Prop :=
  exists id input criterion replace sizeHint limits, o = Create id input criterion replace sizeHint /\ trim input <> [] /\ blen (trim input) <= MAX_GOAL_OBJECTIVE_LENGTH /\
    s = GoalState id (trim input) (normalizeCompletionCriterion criterion) Active 0 0 0 (Some now) limits no_reason createGoalEvidenceState.

Lemma stamp_same tree ids rs : (stamp tree ids rs).*1 = rs.*1 /\ Forall2 carried rs (stamp tree ids rs).
Proof.
  unfold stamp. split.
  - rewrite <- list_fmap_compose. apply list_fmap_ext. intros i kr _. cbn. by case_bool_decide.
  - apply Forall2_fmap_r, Forall_Forall2_diag, Forall_forall. intros kr _. cbn. by case_bool_decide.
Qed.

Lemma same_receipts_refl rs : Forall2 carried rs rs.
Proof. apply Forall_Forall2_diag, Forall_forall. by intros. Qed.

Lemma clear_none now m emit : state (clearInternal config now m emit) = None.
Proof. unfold clearInternal. destruct (state m) eqn:E; [by destruct emit|done]. Qed.

Lemma stopped_case now m s st r a o s' : state m = Some s -> status s = Active -> st <> Active -> st <> Complete -> counts o = false ->
  state (park config now m s st r a).1 = Some s' -> moves now o s s'.
Proof. intros E Ha H1 H2 Hc [= <-]. by apply Parks. Qed.

Lemma if_active_case now m f o s' : counts o = false \/ o = Turn ->
  (forall s, state m = Some s -> status s = Active -> state (f s).1 = Some s' -> moves now o s s') ->
  state (if_active m f).1 = Some s' -> exists s, state m = Some s /\ moves now o s s'.
Proof.
  intros Hc Hf. unfold if_active. destruct (state m) as [s|] eqn:E; cbn [fst]; [|by rewrite E].
  destruct (decide (status s = Active)) as [Ha|Ha].
  - rewrite bool_decide_eq_true_2 by done. specialize (Hf s eq_refl Ha). destruct (f s) as [m' sn]. cbn [fst] in *. intros H. exists s. auto.
  - rewrite bool_decide_eq_false_2 by done. cbn [fst]. rewrite E. intros [= <-]. exists s. split; [done|]. by apply Stays.
Qed.

Lemma on_active_case now m f o s' : (forall s, status s = Active -> moves now o s (f s)) ->
  state (on_active m f) = Some s' -> exists s, state m = Some s /\ moves now o s s'.
Proof.
  intros Hf. unfold on_active. destruct (state m) as [s|] eqn:E; [|by rewrite E]. destruct (decide (status s = Active)) as [Ha|Ha].
  - rewrite bool_decide_eq_true_2 by done. intros [= <-]. exists s. auto.
  - rewrite bool_decide_eq_false_2 by done. rewrite E. intros [= <-]. exists s. split; [done|]. by apply Stays.
Qed.

Lemma stays_case now m o s' : (forall s, state m = Some s -> status s = Active -> counts o = false) -> state m = Some s' -> exists s, state m = Some s /\ moves now o s s'.
Proof. intros Hc E. exists s'. split; [done|]. apply Stays. eauto. Qed.

Lemma create_cases now m id input criterion replace sizeHint s' : let o := Create id input criterion replace sizeHint in
  state (goal_step m (now, o)) = Some s' -> created now o s' \/ exists s, state m = Some s /\ moves now o s s'.
Proof.
  cbn [goal_step]. unfold createGoal. cbv zeta. destruct (decide (trim input = [])) as [E0|E0]; [rewrite bool_decide_eq_true_2 by done|rewrite bool_decide_eq_false_2 by done].
  { intros H. right. by apply stays_case. }
  destruct (Z.ltb_spec MAX_GOAL_OBJECTIVE_LENGTH (blen (trim input))); [intros H'; right; by apply stays_case|].
  destruct (_ && _); [intros H'; right; by apply stays_case|]. cbn [fst]. intros H'. left. unfold created.
  destruct (resolveTieredBudgetDefaults config (trim input) sizeHint) as [[turns tokens]|]; cbn in H'; injection H' as <-;
    (eexists id, input, criterion, replace, sizeHint, _; by do 3 (split; [done|])).
Qed.

(** What a step makes of the goal. *)
Lemma step_cases now m o s' : o <> Restart -> state (goal_step m (now, o)) = Some s' ->
  created now o s' \/ exists s, state m = Some s /\ moves now o s s'.
Proof.
  intros Ho. destruct o; [by apply create_cases|..]; intros H; right; revert H; cbn [goal_step].
  - unfold pauseGoal. destruct (state m) as [s|] eqn:E; [|cbn; by rewrite E]. destruct (decide (status s = Paused)) as [E1|E1].
    { rewrite bool_decide_eq_true_2 by done. rewrite <- E. by apply stays_case. }
    rewrite bool_decide_eq_false_2 by done. destruct (decide (status s = Active)) as [E2|E2]; [rewrite bool_decide_eq_true_2 by done|rewrite bool_decide_eq_false_2 by done]; cbn [negb].
    + destruct (park config now m s Paused r a) as [m' sn] eqn:Ep. cbn [fst]. intros H; exists s; split; [done|].
      apply (stopped_case now m s Paused r a); [done|done|done|done|done|]. by rewrite Ep.
    + rewrite <- E. by apply stays_case.
  - apply if_active_case; [by left|]. intros s E Ha. by apply (stopped_case now m s Paused r a).
  - apply if_active_case; [by left|]. intros s E Ha. by apply (stopped_case now m s Blocked r a).
  - unfold resumeGoal. destruct (state m) as [s|] eqn:E; [|cbn; by rewrite E]. destruct (decide (status s = Active)) as [E1|E1].
    { rewrite bool_decide_eq_true_2 by done. rewrite <- E. by apply stays_case. }
    rewrite bool_decide_eq_false_2 by done. destruct (_ && _); [rewrite <- E; by apply stays_case|]. intros [= <-]. exists s. split; [done|]. by apply Resumes.
  - unfold setBudgetLimits. destruct (state m) as [s|] eqn:E; [|cbn; by rewrite E]. intros [= <-]. exists s. split; [done|]. by apply Limits.
  - unfold cancelGoal. destruct (state m) as [s|] eqn:E; [|cbn; by rewrite E]. cbv zeta. cbn [fst]. destruct a; cbn; rewrite clear_none; done.
  - apply if_active_case; [by left|]. intros s E Ha. cbv zeta. cbn [fst]. by rewrite clear_none.
  - apply if_active_case; [by left|]. intros s E Ha. cbv zeta. cbn. intros [= <-]. apply Spends.
  - apply if_active_case; [by right|]. intros s E Ha. cbv zeta. cbn. intros [= <-]. by apply Turns.
  - apply on_active_case. intros s Ha. by apply Captures.
  - apply on_active_case. intros s Ha. by apply Mutates.
  - unfold stampReceiptTrees. destruct (state m) as [s|] eqn:E; [|by rewrite E]. cbn [state]. intros [= <-]. exists s. split; [done|].
    apply Stamps; [done|..]; destruct tree as [t|]; try done; try apply same_receipts_refl; (destruct (_ && _); [|done || apply same_receipts_refl]); apply stamp_same.
  - done.
Qed.

(** * The invariant *)

Definition durable_ok (d : durable_goal) : Prop :=
  d_status d <> Complete /\ 0 <= d_turns d /\ 0 <= d_tokens d /\ 0 <= d_wall d /\
  d_objective d <> [] /\ blen (d_objective d) <= MAX_GOAL_OBJECTIVE_LENGTH /\
  match d_criterion d with Some c => c <> [] /\ blen c <= MAX_GOAL_COMPLETION_CRITERION_LENGTH | None => True end.

Definition receipt_ok (turns mutations : Z) (r : receipt) : Prop := goalTurnAtCapture r <= turns /\ mutationIndexAtCapture r <= mutations.

Definition evidence_ok (turns : Z) (e : evidence_state) : Prop :=
  jwf (receipts e) /\ blen (receipts e) <= MAX_GOAL_EVIDENCE_RECEIPTS /\
  Forall (fun kr => receipt_ok turns (toolMutationIndex e) kr.2) (receipts e).

Definition goal_ok (s : goal_state) : Prop :=
  durable_ok (durable s) /\ (status s = Active <-> wallClockResumedAt s <> None) /\ evidence_ok (turnsUsed s) (evidence s).

Definition mode_ok (m : goal_mode) : Prop := forall s, state m = Some s -> goal_ok s.

Lemma empty_evidence_ok turns : evidence_ok turns createGoalEvidenceState.
Proof. split; [apply jwf_nil|]. split; [done|]. constructor. Qed.

Lemma normalize_criterion_ok v : match normalizeCompletionCriterion v with Some c => c <> [] /\ blen c <= MAX_GOAL_COMPLETION_CRITERION_LENGTH | None => True end.
Proof.
  unfold normalizeCompletionCriterion. destruct (trim <$> v) as [[|u t]|]; [done| |done]. split; [done|].
  unfold blen. rewrite length_take. unfold MAX_GOAL_COMPLETION_CRITERION_LENGTH, MAX_GOAL_OBJECTIVE_LENGTH. lia.
Qed.

Lemma applyStatus_spec now s st : exists w r, applyStatus now s st = GoalState (goalId s) (objective s) (completionCriterion s) st (turnsUsed s) (tokensUsed s) w r
    (budgetLimits s) (terminal s) (evidence s) /\ wallClockMs s <= w /\ ((status s = Active <-> wallClockResumedAt s <> None) -> (st = Active <-> r <> None)).
Proof.
  unfold applyStatus. destruct (decide (status s = Active)) as [Ha|Ha]; [rewrite bool_decide_eq_true_2 by done|rewrite bool_decide_eq_false_2 by done];
    destruct (wallClockResumedAt s) as [t|]; (eexists _, _; split; [reflexivity|]); (split; [lia|]); intros [H1 H2]; (destruct (decide (st = Active)) as [Hs|Hs];
      [rewrite bool_decide_eq_true_2 by done; by split|rewrite bool_decide_eq_false_2 by done; try by split]); by destruct Ha; apply H2.
Qed.

Lemma evidence_ok_mono e turns turns' : turns <= turns' -> evidence_ok turns e -> evidence_ok turns' e.
Proof. intros Hle (H1 & H2 & H3). split; [done|]. split; [done|]. eapply Forall_impl; [exact H3|]. intros kr [? ?]. split; [lia|done]. Qed.

Lemma jdel_forall {V} (P : jsstr * V -> Prop) (m : list (jsstr * V)) k : Forall P m -> Forall P (jdel m k).
Proof. induction 1 as [|[k' v] m Hp Hm IH]; cbn [jdel]; [done|]. destruct (decide (k' = k)); [done|by constructor]. Qed.

Lemma jset_forall {V} (P : jsstr * V -> Prop) (m : list (jsstr * V)) k v : P (k, v) -> Forall P m -> Forall P (jset m k v).
Proof. intros Hk. induction 1 as [|[k' v'] m Hp Hm IH]; cbn [jset]; [by constructor|]. destruct (decide (k' = k)) as [->|]; by constructor. Qed.

Lemma jset_length {V} (m : list (jsstr * V)) k v : blen (jset m k v) <= blen m + 1.
Proof. unfold blen. induction m as [|[k' v'] m IH]; cbn [jset]; [done|]. destruct (decide (k' = k)); cbn [length] in *; lia. Qed.

Lemma capture_ok now turns e id tool turn step success text : evidence_ok turns e -> evidence_ok turns (capture e now turns id tool turn step success text).
Proof.
  intros (H1 & H2 & H3). unfold capture. set (kept := if _ <=? _ then _ else _). cbn [receipts toolMutationIndex].
  assert (jwf kept /\ blen kept + 1 <= MAX_GOAL_EVIDENCE_RECEIPTS /\ Forall (fun kr => receipt_ok turns (toolMutationIndex e) kr.2) kept) as (K1 & K2 & K3).
  { subst kept. destruct (Z.leb_spec MAX_GOAL_EVIDENCE_RECEIPTS (blen (receipts e))) as [Hle|]; [|split; [done|]; split; [unfold MAX_GOAL_EVIDENCE_RECEIPTS in *; lia|done]].
    destruct (receipts e) as [|[oldest r] rs] eqn:E; [split; [apply jwf_nil|]; by split|]. split; [by apply jwf_del|]. split; [|by apply jdel_forall].
    cbn [jdel]. rewrite decide_True by done. unfold blen in *. cbn [length] in H2. lia. }
  split; [by apply jwf_set|]. split; [pose proof (jset_length kept id (Receipt tool turn now turns (toolMutationIndex e) None success text)); unfold receipts; lia|].
  apply jset_forall; [|done]. by split.
Qed.

Lemma same_receipts_ok turns n rs rs' : Forall2 carried rs rs' ->
  Forall (fun kr => receipt_ok turns n kr.2) rs -> Forall (fun kr => receipt_ok turns n kr.2) rs'.
Proof.
  induction 1 as [|kr kr' rs rs' (_ & _ & _ & Ht & Hm) _ IH]; [done|]. intros [[H1 H2] H]%Forall_cons. constructor; [|by apply IH].
  unfold receipt_ok. by rewrite Ht, Hm.
Qed.

Lemma created_ok now o s : created now o s -> goal_ok s.
Proof.
  intros (id & input & criterion & replace & sizeHint & limits & _ & H1 & H2 & ->). split; [|split; [done|apply empty_evidence_ok]].
  do 4 (split; [done|]). split; [exact H1|]. split; [exact H2|]. apply normalize_criterion_ok.
Qed.

Lemma moves_ok now o s s' : moves now o s s' -> goal_ok s -> goal_ok s'.
Proof.
  intros H (Hd & Hr & He). pose proof Hd as (D1 & D2 & D3 & D4 & D5).
  destruct H as [o s _|o s st r Ha Hst Hnc _|o s Hn _|o s l _|s d|s Ha|id tool turn step success text s Ha|s Ha|o s tree rs _ F1 F2].
  - done.
  - destruct (applyStatus_spec now s st) as (w & r' & -> & Hw & Hs). split; [|split; [exact (Hs Hr)|done]]. unfold durable_ok, durable, applyTerminalReason in *. cbn in *.
    split; [done|]. do 2 (split; [done|]). split; [lia|exact D5].
  - destruct (applyStatus_spec now (applyTerminalReason s no_reason) Active) as (w & r' & -> & Hw & Hs). split; [|split; [exact (Hs Hr)|done]]. unfold durable_ok, durable, applyTerminalReason in *. cbn in *.
    split; [done|]. do 2 (split; [done|]). split; [lia|exact D5].
  - done.
  - split; [|by split]. unfold durable_ok, durable, applyTerminalReason, with_usage in *; cbn in *. split; [done|]. split; [done|]. split; [lia|exact (conj D4 D5)].
  - split; [|split; [done|]]; [|eapply evidence_ok_mono; [|exact He]; cbn; lia]. unfold durable_ok, durable, applyTerminalReason, with_usage in *; cbn in *. split; [done|]. split; [lia|by split].
  - split; [done|]. split; [done|]. by apply capture_ok.
  - split; [done|]. split; [done|]. destruct He as (E1 & E2 & E3). split; [done|]. split; [done|].
    eapply Forall_impl; [exact E3|]. intros kr [? ?]. split; [done|]. cbn. lia.
  - split; [done|]. split; [done|]. destruct He as (E1 & E2 & E3). split; [unfold jwf, jkeys in *; cbn; by rewrite F1|].
    split; [|by eapply same_receipts_ok]. cbn. unfold blen in *. by rewrite <- (Forall2_length _ _ _ F2).
Qed.

(** * Restarts *)

(** What a new process makes of the goal: nothing runs, so an active goal waits for its user. *)
Definition restored (d : durable_goal) : durable_goal :=
  match d_status d with
  | Active => DurableGoal (d_goalId d) (d_objective d) (d_criterion d) Paused (d_turns d) (d_tokens d) (d_wall d) (d_limits d) resume_reason
  | _ => d
  end.

(** A replayed goal holds no evidence. *)
Definition no_evidence (m : goal_mode) : Prop := forall s, state m = Some s -> evidence s = createGoalEvidenceState.

Lemma replay_no_evidence now rs : forall m, no_evidence m -> no_evidence (replay_goal now rs m).
Proof.
  induction rs as [|r rs IH]; intros m H; [done|]. apply (IH (restore_goal config now m r BySystem)). intros s. destruct r as [id obj criterion|u| |]; cbn [restore_goal].
  - by intros [= <-].
  - unfold restoreUpdate. destruct (state m) as [s0|] eqn:E; [|by rewrite E]. specialize (H s0 E). destruct u as [[[]|] ? ? ? [?|] ?]; cbn; by intros [= <-].
  - done.
  - unfold restoreForked. destruct (state m) eqn:E; [done|by rewrite E].
Qed.

Lemma restart_cases now m : mode_ok m -> replayed_goal m ->
  durable <$> state (restart now m) = restored <$> (durable <$> state m) /\
  forall s', state (restart now m) = Some s' -> evidence s' = createGoalEvidenceState /\ wallClockResumedAt s' = None.
Proof.
  intros Hok H. specialize (H now). unfold restart. cbv zeta. cbn [state]. set (d := replay_goal now (goal_log m) no_goal) in *.
  assert (no_evidence d) as He by (by apply replay_no_evidence). unfold normalizeAfterReplay. destruct (state d) as [s|] eqn:E.
  - unfold agree_goal in H. rewrite E in H. destruct (state m) as [s0|] eqn:E0; [|done]. destruct (Hok s0 E0) as [(Hnc & _) _].
    assert (durable s0 = durable s) as Hs by (injection H as H; unfold durable; by f_equal). clear H. specialize (He s E). clear E E0. clearbody d.
    cbn [fmap option_fmap option_map]. rewrite Hs in *. destruct s as [? ? ? st ? ? ? ? ? ? ?]; cbn [durable status d_status evidence] in *.
    destruct st; try (by destruct Hnc); (split; [reflexivity|]); by intros s' [= <-].
  - unfold agree_goal in H. rewrite E in *. destruct (state m); done.
Qed.

Lemma restored_ok d : durable_ok d -> durable_ok (restored d) /\ d_status (restored d) <> Active.
Proof. intros (H & Hd). unfold restored. destruct (d_status d) eqn:E; (split; [|by rewrite ?E]); unfold durable_ok; cbn; rewrite ?E; by split. Qed.

Lemma restart_ok now m : mode_ok m -> replayed_goal m -> mode_ok (restart now m).
Proof.
  intros Hok H s' E. destruct (restart_cases now m Hok H) as [Hd Hr]. rewrite E in Hd. destruct (Hr s' E) as [He Hw].
  destruct (state m) as [s|] eqn:Em; [|done]. cbn in Hd. assert (durable s' = restored (durable s)) as Hs by congruence.
  destruct (Hok s Em) as (Hdur & _). destruct (restored_ok _ Hdur) as [H1 H2]. rewrite <- Hs in H1, H2. split; [done|]. split; [|rewrite He; apply empty_evidence_ok].
  rewrite Hw. by split.
Qed.

Lemma goal_run_ok ops : mode_ok (goal_run ops).
Proof.
  induction ops as [|[now o] ops IH] using rev_ind; [done|]. unfold goal_run. rewrite fold_left_app. cbn [fold_left]. fold (goal_run ops).
  assert (o = Restart \/ o <> Restart) as [->|Ho] by (destruct o; auto); [apply restart_ok; [done|apply run_replayed]|].
  intros s' E. destruct (step_cases now _ o s' Ho E) as [Hc|(s & Es & Hm)]; [by eapply created_ok|]. eapply moves_ok; [exact Hm|]. by apply IH.
Qed.

(** * The ledger of receipts *)

Definition is_active (m : goal_mode) : bool := match state m with Some s => bool_decide (status s = Active) | None => false end.

(** How often, from [m] on, an operation of the kind finds the goal active. *)
Fixpoint count (kind : goal_op -> bool) (m : goal_mode) (ops : list (Z * goal_op)) : Z :=
  match ops with
  | [] => 0
  | to :: ops' => Z.b2z (kind to.2 && is_active m) + count kind (goal_step m to) ops'
  end.

Definition is_turn (o : goal_op) : bool := match o with Turn => true | _ => false end.
Definition is_mutation (o : goal_op) : bool := match o with Mutation => true | _ => false end.

Lemma count_snoc kind ops to : forall m, count kind m (ops ++ [to]) = count kind m ops + Z.b2z (kind to.2 && is_active (fold_left goal_step ops m)).
Proof. induction ops as [|to' ops IH]; intros m; cbn [app count fold_left]; [|rewrite IH]; lia. Qed.

Lemma count_nonneg kind ops : forall m, 0 <= count kind m ops.
Proof. induction ops as [|to ops IH]; intros m; cbn [count]; [done|]. specialize (IH (goal_step m to)). destruct (_ && _); cbn [Z.b2z]; lia. Qed.

(** The capture of a receipt, and what has happened to its goal since. *)
Definition captured_at (ops : list (Z * goal_op)) (s : goal_state) (kr : jsstr * receipt) : Prop :=
  exists pre tool turn step text post, let ev := (capturedAtMs kr.2, Evidence kr.1 tool turn step (ok kr.2) text) in
    ops = pre ++ ev :: post /\ is_active (goal_run pre) = true /\
    count is_turn (goal_run (pre ++ [ev])) post = turnsUsed s - goalTurnAtCapture kr.2 /\
    count is_mutation (goal_run (pre ++ [ev])) post = toolMutationIndex (evidence s) - mutationIndexAtCapture kr.2.

Lemma run_snoc ops to : goal_run (ops ++ [to]) = goal_step (goal_run ops) to.
Proof. unfold goal_run. by rewrite fold_left_app. Qed.

Lemma active_some m s : state m = Some s -> is_active m = bool_decide (status s = Active).
Proof. unfold is_active. by intros ->. Qed.

(** A receipt carried over by a step that counts what it is to count. *)
Lemma captured_carried ops to s s' kr kr' : carried kr kr' ->
  turnsUsed s' = turnsUsed s + Z.b2z (is_turn to.2 && is_active (goal_run ops)) ->
  toolMutationIndex (evidence s') = toolMutationIndex (evidence s) + Z.b2z (is_mutation to.2 && is_active (goal_run ops)) ->
  captured_at ops s kr -> captured_at (ops ++ [to]) s' kr'.
Proof.
  intros (Hk & H1 & H2 & H3 & H4) Ht Hm (pre & tool & turn & step & text & post & E & Ha & Ct & Cm). exists pre, tool, turn, step, text, (post ++ [to]). cbv zeta in *.
  rewrite Hk, H1, H2, H3, H4. split; [by rewrite E, <- app_assoc|]. split; [done|]. rewrite !count_snoc, Ct, Cm.
  assert (fold_left goal_step post (goal_run (pre ++ [(capturedAtMs kr.2, Evidence kr.1 tool turn step (ok kr.2) text)])) = goal_run ops) as ->.
  { unfold goal_run. by rewrite <- fold_left_app, E, <- app_assoc. }
  lia.
Qed.

Lemma capture_in e now turns id tool turn step success text kr : evidence_ok turns e -> kr ∈ receipts (capture e now turns id tool turn step success text) ->
  kr ∈ receipts e \/ kr = (id, Receipt tool turn now turns (toolMutationIndex e) None success text).
Proof.
  intros (Hw & _). unfold capture. cbn [receipts]. set (kept := if _ <=? _ then _ else _). intros Hin.
  assert (kr ∈ kept \/ kr = (id, Receipt tool turn now turns (toolMutationIndex e) None success text)) as [H|H]; [|left|by right].
  { destruct kr as [k r]. apply jset_in in Hin as [[-> ->]|[_ H]]; [by right|by left|]. subst kept. destruct (_ <=? _); [|done].
    destruct (receipts e) as [|[oldest r0] rs]; [done|]. by apply jwf_del. }
  subst kept. destruct (_ <=? _); [|done]. destruct (receipts e) as [|[oldest r] rs]; [done|]. destruct kr as [k v]. by apply jdel_in in H as [_ H].
Qed.

Lemma carried_in rs rs' kr : Forall2 carried rs rs' -> kr ∈ rs' -> exists kr0, kr0 ∈ rs /\ carried kr0 kr.
Proof. intros H (i & Hi)%list_elem_of_lookup. destruct (Forall2_lookup_r _ _ _ _ _ H Hi) as (kr0 & H0 & Hc). exists kr0. split; [|done]. by eapply list_elem_of_lookup_2. Qed.

Lemma moves_captured ops now o s s' : state (goal_run ops) = Some s -> goal_ok s -> moves now o s s' ->
  (forall kr, kr ∈ receipts (evidence s) -> captured_at ops s kr) -> forall kr, kr ∈ receipts (evidence s') -> captured_at (ops ++ [(now, o)]) s' kr.
Proof.
  intros E Hok H IH kr. pose proof (active_some _ _ E) as Ha.
  assert (forall s1, turnsUsed s1 = turnsUsed s -> evidence s1 = evidence s -> (is_turn o && is_active (goal_run ops)) = false -> (is_mutation o && is_active (goal_run ops)) = false ->
    kr ∈ receipts (evidence s1) -> captured_at (ops ++ [(now, o)]) s1 kr) as Hsame.
  { intros s1 H1 H2 Ct Cm Hin. rewrite H2 in Hin. eapply (captured_carried ops (now, o) s s1 kr kr); [done|..|by apply IH]; cbn [snd]; rewrite ?Ct, ?Cm, ?H1, ?H2; cbn [Z.b2z]; lia. }
  assert (counts o = false -> (is_turn o && is_active (goal_run ops)) = false /\ (is_mutation o && is_active (goal_run ops)) = false) as Hc by (by destruct o).
  destruct H as [o s Hs|o s st r _ _ _ Hco|o s _ Hco|o s l Hco|s d|s Hs|id tool turn step success text s Hs|s Hs|o s tree rs Hco F1 F2].
  - assert ((is_turn o && is_active (goal_run ops)) = false /\ (is_mutation o && is_active (goal_run ops)) = false) as [H1 H2]; [|by apply Hsame].
    destruct (decide (status s = Active)) as [Hs1|Hs1]; [apply Hc, Hs, Hs1|]. rewrite Ha, bool_decide_eq_false_2 by done. by rewrite !andb_false_r.
  - destruct (Hc Hco). destruct (applyStatus_spec now s st) as (w & r' & -> & _). by apply Hsame.
  - destruct (Hc Hco). destruct (applyStatus_spec now (applyTerminalReason s no_reason) Active) as (w & r' & -> & _). by apply Hsame.
  - destruct (Hc Hco). by apply Hsame.
  - by apply Hsame.
  - intros Hin. eapply (captured_carried ops (now, Turn) s _ kr kr); [done|..|by apply IH]; cbn [snd is_turn is_mutation]; rewrite ?Ha, ?bool_decide_eq_true_2 by done; cbn; lia.
  - intros [Hin|Hin]%(capture_in _ _ (turnsUsed s)); [..|apply Hok].
    + eapply (captured_carried ops _ s _ kr kr); [done|..|by apply IH]; cbn; lia.
    + subst kr. exists ops, tool, turn, step, text, []. split; [done|]. split; [by rewrite Ha, bool_decide_eq_true_2|]. cbn. lia.
  - intros Hin. eapply (captured_carried ops (now, Mutation) s _ kr kr); [done|..|by apply IH]; cbn [snd is_turn is_mutation]; rewrite ?Ha, ?bool_decide_eq_true_2 by done; cbn; lia.
  - destruct (Hc Hco) as [H1 H2]. intros (kr0 & Hin & Hk)%(carried_in (receipts (evidence s))); [|done].
    eapply (captured_carried ops (now, o) s _ kr0 kr); [done|..|by apply IH]; cbn; rewrite ?H1, ?H2; cbn; lia.
Qed.

Lemma run_captured ops s : state (goal_run ops) = Some s -> forall kr, kr ∈ receipts (evidence s) -> captured_at ops s kr.
Proof.
  revert s. induction ops as [|[now o] ops IH] using rev_ind; intros s; [done|]. rewrite run_snoc. intros E.
  assert (o = Restart \/ o <> Restart) as [->|Ho] by (destruct o; auto).
  - destruct (restart_cases now _ (goal_run_ok ops) (run_replayed ops)) as [_ H]. destruct (H s E) as [-> _]. intros kr Hin. by apply elem_of_nil in Hin.
  - destruct (step_cases now _ o s Ho E) as [(? & ? & ? & ? & ? & ? & _ & _ & _ & ->)|(s0 & Es & Hm)].
    + intros kr Hin. by apply elem_of_nil in Hin.
    + apply (moves_captured ops now o s0 s Es (goal_run_ok ops s0 Es) Hm). by apply IH.
Qed.

Lemma cite_passes s c ids : cite s c ids = None -> exists id r, id ∈ ids /\ jget (receipts (evidence s)) id = Some r /\ checkGateReceipt r c = None.
Proof.
  induction ids as [|id ids IH]; cbn [cite]; [done|]. intros H. destruct (jget _ id) as [r|] eqn:E; [destruct (checkGateReceipt r c) eqn:Ec|].
  - destruct (cite s c ids); [done|]. destruct (IH eq_refl) as (id' & r' & Hin & H'). exists id', r'. split; [by right|done].
  - exists id, r. split; [by left|done].
  - destruct (cite s c ids); [done|]. destruct (IH eq_refl) as (id' & r' & Hin & H'). exists id', r'. split; [by right|done].
Qed.

Lemma passed_receipt now m ids usable : evaluateCompletionGate config now m ids = Allowed EvidencePassed usable ->
  exists s id r, state m = Some s /\ status s = Active /\ id ∈ ids /\ jget (receipts (evidence s)) id = Some r /\ checkGateReceipt r (gateCheckContext config now s) = None.
Proof.
  unfold evaluateCompletionGate. destruct (state m) as [s|]; [|done]. destruct (decide (status s = Active)) as [Ha|Ha];
    [rewrite bool_decide_eq_true_2 by done|by rewrite bool_decide_eq_false_2]. cbn [negb]. destruct (negb _); [done|]. destruct (negb _); [done|]. cbv zeta.
  destruct ids as [|id0 ids']; [done|]. set (ids := id0 :: ids'). destruct (cite _ _ ids) eqn:Ec; [done|]. intros _.
  destruct (cite_passes _ _ _ Ec) as (id & r & H). exists s, id, r. by split.
Qed.

Lemma passed_check r c : checkGateReceipt r c = None ->
  ok r = true /\ c_mutations c <= mutationIndexAtCapture r /\ c_turnsUsed c - goalTurnAtCapture r <= c_leaseTurns c /\ c_now c - capturedAtMs r <= c_leaseMs c /\
  (treeAtCapture r = None \/ treeAtCapture r = c_latestTree c).
Proof.
  unfold checkGateReceipt. destruct (ok r); [|done]. cbn [negb]. destruct (Z.ltb_spec (mutationIndexAtCapture r) (c_mutations c)); [done|].
  destruct (decide (treeAtCapture r = None)) as [E1|E1]; [|destruct (decide (treeAtCapture r = c_latestTree c)) as [E2|E2]].
  1: rewrite (bool_decide_eq_false_2 (treeAtCapture r <> None)) by (by intros []). 2: rewrite (bool_decide_eq_false_2 (treeAtCapture r <> c_latestTree c)) by (by intros []).
  3: rewrite !bool_decide_eq_true_2 by done; done.
  all: rewrite ?andb_false_r, ?andb_false_l; destruct (Z.ltb_spec (c_leaseTurns c) (c_turnsUsed c - goalTurnAtCapture r)); [done|];
    destruct (Z.ltb_spec (c_leaseMs c) (c_now c - capturedAtMs r)); [done|]; intros _; auto 6.
Qed.

(** * The goal over its runs *)

(** C28. What signs off a goal is fresh evidence. Whenever the completion gate lets a
    goal pass on cited evidence, one of the cited ids was recorded for a tool call that
    succeeded, while the goal was active; since then no mutation has been counted, at
    most the lease's turns have been counted, and at most the lease's time has gone by. *)
Theorem gate_evidence_fresh ops now ids usable : evaluateCompletionGate config now (goal_run ops) ids = Allowed EvidencePassed usable ->
  exists id t tool turn step text pre post, id ∈ ids /\ let ev := (t, Evidence id tool turn step true text) in
    ops = pre ++ ev :: post /\ is_active (goal_run pre) = true /\
    count is_mutation (goal_run (pre ++ [ev])) post = 0 /\
    count is_turn (goal_run (pre ++ [ev])) post <= leaseTurns config /\
    now - t <= leaseMs config.
Proof.
  intros (s & id & r & Es & _ & Hin & Hr & Hc)%passed_receipt. apply passed_check in Hc as (Hok & Hm & Ht & Hn & _). cbn in Hm, Ht, Hn.
  destruct (run_captured ops s Es (id, r) (jget_Some_in _ _ _ Hr)) as (pre & tool & turn & step & text & post & E & Ha & Ct & Cm). cbn [fst snd] in *. rewrite Hok in *.
  exists id, (capturedAtMs r), tool, turn, step, text, pre, post. split; [done|]. cbv zeta. split; [done|]. split; [done|].
  rewrite Ct. split; [|by split]. pose proof (count_nonneg is_mutation post (goal_run (pre ++ [(capturedAtMs r, Evidence id tool turn step true text)]))). lia.
Qed.

(** C29. A goal survives the process. Whatever operations came before, a new process that
    replays the log finds the goal with the same identity, objective, criterion, counters,
    clock, limits and reason; only a goal that was active is paused, with the reason of
    the resume, and without a goal there is none. *)
Theorem goal_survives_restart ops now :
  durable <$> state (goal_run (ops ++ [(now, Restart)])) = restored <$> (durable <$> state (goal_run ops)).
Proof. rewrite run_snoc. apply restart_cases; [apply goal_run_ok|apply run_replayed]. Qed.

(** The goal is well formed after any operations: never complete (a completed goal is
    cleared), its clock runs exactly while it is active, its counters are not negative,
    its objective is not blank and within the limit, a criterion is not blank and within
    the limit, and of the receipts there are at most fifty, under distinct ids, none
    captured at a later turn or mutation than the goal's. *)
Theorem goal_well_formed ops s : state (goal_run ops) = Some s -> goal_ok s.
Proof. apply goal_run_ok. Qed.
End runs.

(** * Runs in the concrete *)

Definition default_goal_config : goal_config := GoalConfig None None None None (fun _ => (None, None)).

(** A goal, an edit, its test run, and a turn. *)
Definition demo_goal_ops : list (Z * goal_op) :=
  [(0, Create (js "g1") (js " ship it ") None false None); (10, Mutation); (20, Evidence (js "e1") (js "Bash") 1 2 true (js "42 passed")); (30, Turn)].

Theorem gate_evidence_fresh_witness : exists usable, evaluateCompletionGate default_goal_config 60 (goal_run default_goal_config demo_goal_ops) [js "e0"; js "e1"] = Allowed EvidencePassed usable /\
  exists id t tool turn step text pre post, id ∈ [js "e0"; js "e1"] /\ let ev := (t, Evidence id tool turn step true text) in
    demo_goal_ops = pre ++ ev :: post /\ is_active (goal_run default_goal_config pre) = true /\
    count default_goal_config is_mutation (goal_run default_goal_config (pre ++ [ev])) post = 0 /\
    count default_goal_config is_turn (goal_run default_goal_config (pre ++ [ev])) post <= leaseTurns default_goal_config /\
    60 - t <= leaseMs default_goal_config.
Proof. exists [js "e1"]. split; [by vm_compute|]. apply (gate_evidence_fresh default_goal_config demo_goal_ops 60 _ [js "e1"]). by vm_compute. Defined.

Theorem goal_well_formed_witness : exists s, state (goal_run default_goal_config demo_goal_ops) = Some s /\ turnsUsed s = 1 /\ goal_ok s.
Proof. eexists. split; [by vm_compute|]. split; [done|]. apply (goal_well_formed default_goal_config demo_goal_ops). by vm_compute. Defined.

(** An edit makes the evidence stale, and so does a lease that ran out. *)
Example edit_stales_evidence :
  evaluateCompletionGate default_goal_config 60 (goal_run default_goal_config (demo_goal_ops ++ [(40, Mutation)])) [js "e1"] = Refused StaleAfterMutation [(js "e1", StaleAfterMutation)] [].
Proof. by vm_compute. Qed.

(** The mutation counter stands still while the goal is paused: an edit made then leaves
    an unstamped receipt in force. *)
Example paused_edit_leaves_evidence : exists usable,
  evaluateCompletionGate default_goal_config 60
    (goal_run default_goal_config (demo_goal_ops ++ [(40, Pause no_reason ByUser); (45, Mutation); (50, Resume no_reason ByUser)])) [js "e1"] = Allowed EvidencePassed usable.
Proof. eexists. by vm_compute. Qed.
