(* ===== verification/Transcript.v ===== *)
(** The transcript of an agent as its viewers keep it: [transcript/src/model/],
    [ops/operation.ts], [ops/apply.ts], the store of one agent, the grades of
    subscriptions and the pages of turns. Values the reducer only carries and compares
    with [===] are of type [json]; [same] and [same_item] say whether two values are the
    same object, and [Number] is the language's conversion of a string to an integer
    ([None] when there is none). *)

From S2P Require Import Prelude JsMap Json JsonText JsString.

(** * Data *)

Inductive origin_kind : Type := FromUser | FromCron | FromTask | FromHook | FromCompaction | FromSide | FromOther.
Inductive turn_state : Type := TurnQueued | TurnRunning | TurnCompleted | TurnFailed | TurnCancelled.
Inductive step_state : Type := StepRunning | StepCompleted | StepInterrupted | StepFailed.
Inductive text_role : Type := AssistantText | UserText.
Inductive tool_frame_state : Type := ToolRunning | ToolDone | ToolError.
Inductive notice_level : Type := NoticeError | NoticeWarning | NoticeInfo.
Inductive interaction_kind : Type := Approval | Question.
Inductive interaction_state : Type := Pending | Approved | Rejected | Cancelled | Answered | Dismissed.
Inductive task_kind : Type := ShellTask | SubagentTask | ToolTask | OtherTask.
Inductive task_state : Type := TaskRunning | TaskCompleted | TaskFailed | TaskTimedOut | TaskKilled | TaskLost.
Inductive prompt_status : Type := PromptRunning | PromptQueued | PromptBlocked | PromptCompleted | PromptFailed | PromptAborted.
Inductive activity : Type := ActivityIdle | ActivityTurn | ActivityDisposing | ActivityUnknown.

#[global] Instance origin_kind_eq_dec : EqDecision origin_kind.
Proof. solve_decision. Defined.
#[global] Instance turn_state_eq_dec : EqDecision turn_state.
Proof. solve_decision. Defined.
#[global] Instance step_state_eq_dec : EqDecision step_state.
Proof. solve_decision. Defined.
#[global] Instance text_role_eq_dec : EqDecision text_role.
Proof. solve_decision. Defined.
#[global] Instance tool_frame_state_eq_dec : EqDecision tool_frame_state.
Proof. solve_decision. Defined.
#[global] Instance notice_level_eq_dec : EqDecision notice_level.
Proof. solve_decision. Defined.
#[global] Instance interaction_kind_eq_dec : EqDecision interaction_kind.
Proof. solve_decision. Defined.
#[global] Instance interaction_state_eq_dec : EqDecision interaction_state.
Proof. solve_decision. Defined.
#[global] Instance task_kind_eq_dec : EqDecision task_kind.
Proof. solve_decision. Defined.
#[global] Instance task_state_eq_dec : EqDecision task_state.
Proof. solve_decision. Defined.
#[global] Instance prompt_status_eq_dec : EqDecision prompt_status.
Proof. solve_decision. Defined.
#[global] Instance activity_eq_dec : EqDecision activity.
Proof. solve_decision. Defined.

Record turn_origin : Type := TurnOrigin { o_kind : origin_kind; o_taskId : option jsstr; o_payload : option json }.

Record turn_header : Type := TurnHeader {
  turnId : jsstr;
  t_ordinal : Z;
  t_state : turn_state;
  t_origin : turn_origin;
  t_prompt : option jsstr;
  t_attachmentIds : option json;
  t_startedAt : option jsstr;
  t_endedAt : option jsstr;
  t_usage : option json;
  t_durationMs : option Z;
  t_error : option jsstr;
}.

Record step_header : Type := StepHeader {
  stepId : jsstr;
  s_turnId : jsstr;
  s_ordinal : Z;
  s_state : step_state;
  s_startedAt : option jsstr;
  s_endedAt : option jsstr;
  s_usage : option json;
  s_finishReason : option jsstr;
  s_timing : option json;
  s_retry : option json;
  s_endReason : option jsstr;
  s_endMessage : option jsstr;
}.

Record tool_frame : Type := ToolFrame {
  toolCallId : jsstr;
  f_name : jsstr;
  f_view : option jsstr;
  f_state : tool_frame_state;
  f_input : option json;
  f_output : option json;
  f_display : option json;
  f_error : option jsstr;
  f_inputText : option jsstr;
  f_progress : option json;
  f_taskId : option jsstr;
  f_approvalId : option jsstr;
  f_todoId : option jsstr;
  f_agentRefs : option json;
}.

Inductive frame_body : Type :=
| TextFrame (role : text_role) (text : jsstr) (attachmentIds : option json) (taskId : option jsstr)
| ThinkingFrame (text : jsstr)
| ToolCallFrame (t : tool_frame)
| NoticeFrame (level : notice_level) (source : option jsstr) (message : jsstr) (detail : option json).

Record frame : Type := Frame { frameId : jsstr; f_body : frame_body }.
Record step : Type := Step { s_header : step_header; s_frames : list frame }.
Record turn : Type := Turn { t_header : turn_header; t_steps : list step }.

Record marker : Type := Marker { markerId : jsstr; m_marker : jsstr; m_payload : option json; m_at : option jsstr }.
Record task_ref : Type := TaskRef { refId : jsstr; r_taskId : jsstr; r_at : option jsstr }.

Inductive item : Type := TurnItem (t : turn) | MarkerItem (m : marker) | TaskRefItem (r : task_ref).

Record task : Type := Task {
  taskId : jsstr;
  k_kind : task_kind;
  k_state : task_state;
  k_detached : bool;
  k_description : option jsstr;
  k_agentId : option jsstr;
  outputTail : jsstr;
  k_startedAt : option jsstr;
  k_endedAt : option jsstr;
  k_resultSummary : option jsstr;
  k_error : option jsstr;
  k_stateReason : option jsstr;
  k_usage : option json;
}.

Record interaction : Type := Interaction {
  interactionId : jsstr;
  i_kind : interaction_kind;
  i_toolCallId : option jsstr;
  i_state : interaction_state;
  i_request : option json;
  i_response : option json;
}.

Record attachment : Type := Attachment {
  attachmentId : jsstr; a_mediaType : jsstr; a_name : option jsstr; a_size : option Z; a_source : option json; a_placeholder : option jsstr;
}.

Record todo : Type := Todo { todoId : jsstr; d_items : json; d_updatedAt : option jsstr }.

Record prompt : Type := Prompt {
  promptId : jsstr; p_status : prompt_status; p_userMessageId : option jsstr; p_content : option json; p_createdAt : jsstr;
  p_finishedAt : option jsstr; p_steeredAt : option jsstr;
}.

Record agent_status : Type := AgentStatus {
  model : option jsstr; thinkingEffort : option jsstr; as_usage : option json; contextTokens : option Z; maxContextTokens : option Z;
  contextUsage : option json; permission : option jsstr; phase : option json;
}.

Record modes_meta : Type := ModesMeta { mo_plan : option json; mo_swarm : option json }.

Record meta : Type := Meta { goal : option json; modes : option modes_meta; m_activity : option activity; agent : option agent_status }.

(** In a merge a mode is kept, cleared or set. *)
Inductive mode_merge : Type := KeepMode | ClearMode | SetMode (x : json).
Record meta_merge : Type := MetaMerge {
  mm_goal : option json; mm_modes : option (mode_merge * mode_merge); mm_activity : option activity; mm_agent : option agent_status;
}.

Record snapshot : Type := Snapshot {
  sn_items : list item;
  sn_tasks : list task;
  sn_interactions : list interaction;
  sn_attachments : list attachment;
  sn_todos : list todo;
  sn_prompts : list prompt;
  sn_meta : meta;
  sn_hasMoreOlder : option bool;
}.

Inductive append_target : Type := AppendFrame (turnId stepId frameId : jsstr) | AppendTask (taskId : jsstr).

Inductive operation : Type :=
| Reset (agentId : jsstr) (s : snapshot)
| TurnUpsert (h : turn_header)
| StepUpsert (turnId : jsstr) (h : step_header)
| FrameUpsert (turnId stepId : jsstr) (f : frame)
| Append (target : append_target) (offset : Z) (text : jsstr)
| MarkerUpsert (m : marker) (beforeTurn : option Z)
| TaskRefUpsert (r : task_ref) (beforeTurn : option Z)
| TaskUpsert (t : task)
| InteractionUpsert (i : interaction)
| AttachmentUpsert (a : attachment)
| TodoUpsert (d : todo)
| PromptUpsert (p : prompt)
| MetaMergeOp (m : meta_merge)
| ItemsRemove (ids : list jsstr).

Record agent_state : Type := AgentState {
  items : list item;
  tasks : list (jsstr * task);
  interactions : list (jsstr * interaction);
  attachments : list (jsstr * attachment);
  todos : list (jsstr * todo);
  prompts : list (jsstr * prompt);
  a_meta : meta;
  pendingInteractions : list jsstr;
  hasMoreOlder : bool;
}.

(** * Identifiers *)

Section ops.
Context (Number : jsstr -> option Z) (same : json -> json -> bool) (same_item : item -> item -> bool).

(** [===] on optional values. *)
Definition same_opt (a b : option json) : bool :=
  match a, b with
  | None, None => true
  | Some x, Some y => same x y
  | _, _ => false
  end.

Definition turnOrdinal (id : jsstr) : Z := default 0 (Number (drop 1 id)).

(** * The reducer *)

Definition EMPTY_AGENT_STATE : agent_state := AgentState [] [] [] [] [] [] (Meta None None None None) [] false.

(** The state after an operation, whether it changed, and the gap of an append that could
    not land, with the length expected and the offset given. *)
Record apply_result : Type := ApplyResult { r_state : agent_state; r_changed : bool; r_gap : option (Z * Z) }.

Definition unchanged (s : agent_state) : apply_result := ApplyResult s false None.
Definition changed (s : agent_state) : apply_result := ApplyResult s true None.

Definition with_items (s : agent_state) (l : list item) : agent_state :=
  AgentState l (tasks s) (interactions s) (attachments s) (todos s) (prompts s) (a_meta s) (pendingInteractions s) (hasMoreOlder s).
Definition with_tasks (s : agent_state) (l : list (jsstr * task)) : agent_state :=
  AgentState (items s) l (interactions s) (attachments s) (todos s) (prompts s) (a_meta s) (pendingInteractions s) (hasMoreOlder s).
Definition with_interactions (s : agent_state) (l : list (jsstr * interaction)) (pending : list jsstr) : agent_state :=
  AgentState (items s) (tasks s) l (attachments s) (todos s) (prompts s) (a_meta s) pending (hasMoreOlder s).
Definition with_attachments (s : agent_state) (l : list (jsstr * attachment)) : agent_state :=
  AgentState (items s) (tasks s) (interactions s) l (todos s) (prompts s) (a_meta s) (pendingInteractions s) (hasMoreOlder s).
Definition with_todos (s : agent_state) (l : list (jsstr * todo)) : agent_state :=
  AgentState (items s) (tasks s) (interactions s) (attachments s) l (prompts s) (a_meta s) (pendingInteractions s) (hasMoreOlder s).
Definition with_prompts (s : agent_state) (l : list (jsstr * prompt)) : agent_state :=
  AgentState (items s) (tasks s) (interactions s) (attachments s) (todos s) l (a_meta s) (pendingInteractions s) (hasMoreOlder s).
Definition with_meta (s : agent_state) (m : meta) : agent_state :=
  AgentState (items s) (tasks s) (interactions s) (attachments s) (todos s) (prompts s) m (pendingInteractions s) (hasMoreOlder s).

(** [new Map(l.map((x) => [key(x), x]))]. *)
Definition map_of {A} (key : A -> jsstr) (l : list A) : list (jsstr * A) := fold_left (fun m x => jset m (key x) x) l [].

(** A [Set] of strings: [add] and [delete]. *)
Definition set_add (l : list jsstr) (x : jsstr) : list jsstr := if bool_decide (x ∈ l) then l else l ++ [x].
Definition set_remove (l : list jsstr) (x : jsstr) : list jsstr := List.filter (fun y => negb (bool_decide (y = x))) l.

Definition is_pending (i : interaction) : bool := bool_decide (i_state i = Pending).

Definition applyReset (sn : snapshot) : apply_result :=
  let pending := fold_left (fun l i => if is_pending i then set_add l (interactionId i) else l) (sn_interactions sn) [] in
  changed (AgentState (sn_items sn) (map_of taskId (sn_tasks sn)) (map_of interactionId (sn_interactions sn)) (map_of attachmentId (sn_attachments sn))
    (map_of todoId (sn_todos sn)) (map_of promptId (sn_prompts sn)) (sn_meta sn) pending (default false (sn_hasMoreOlder sn))).

(** ** Turns, steps and frames *)

Definition turn_id (t : turn) : jsstr := turnId (t_header t).
Definition step_id (st : step) : jsstr := stepId (s_header st).
Definition ordinal (t : turn) : Z := t_ordinal (t_header t).

Definition skeletonTurn (id : jsstr) : turn :=
  Turn (TurnHeader id (turnOrdinal id) TurnRunning (TurnOrigin FromOther None None) None None None None None None None) [].

(** [Number(...) || 0]. *)
Definition skeletonStep (stepId turnId : jsstr) : step :=
  Step (StepHeader stepId turnId (default 0 (Number (slice_from stepId (blen turnId + 1)))) StepRunning None None None None None None None None) [].

Definition is_turn (id : jsstr) (e : item) : bool := match e with TurnItem t => bool_decide (turn_id t = id) | _ => false end.

Definition getTurn (s : agent_state) (id : jsstr) : option turn :=
  match List.find (is_turn id) (items s) with Some (TurnItem t) => Some t | _ => None end.

(** Inserts before the first element that satisfies [after], or at the end. *)
Fixpoint insert_before {A} (after : A -> bool) (x : A) (l : list A) : list A :=
  match l with
  | [] => [x]
  | y :: l' => if after y then x :: l else y :: insert_before after x l'
  end.

Definition later_turn (n : Z) (e : item) : bool := match e with TurnItem t => n <? ordinal t | _ => false end.
Definition insertTurn (l : list item) (t : turn) : list item := insert_before (later_turn (ordinal t)) (TurnItem t) l.

Definition replaceTurn (l : list item) (id : jsstr) (fn : turn -> turn) : list item :=
  (fun e => match e with TurnItem t => if bool_decide (turn_id t = id) then TurnItem (fn t) else e | _ => e end) <$> l.

Definition turnEquals (a h : turn_header) : bool :=
  bool_decide (t_ordinal a = t_ordinal h) && bool_decide (t_state a = t_state h) && bool_decide (t_prompt a = t_prompt h) &&
  same_opt (t_attachmentIds a) (t_attachmentIds h) && bool_decide (t_startedAt a = t_startedAt h) && bool_decide (t_endedAt a = t_endedAt h) &&
  bool_decide (o_kind (t_origin a) = o_kind (t_origin h)) && same_opt (o_payload (t_origin a)) (o_payload (t_origin h)) &&
  same_opt (t_usage a) (t_usage h) && bool_decide (t_durationMs a = t_durationMs h) && bool_decide (t_error a = t_error h).

Definition applyTurnUpsert (s : agent_state) (h : turn_header) : apply_result :=
  match getTurn s (turnId h) with
  | Some existing =>
      if turnEquals (t_header existing) h then unchanged s
      else changed (with_items s (replaceTurn (items s) (turnId h) (fun t => Turn h (t_steps t))))
  | None => changed (with_items s (insertTurn (items s) (Turn h [])))
  end.

Definition stepEquals (a h : step_header) : bool :=
  bool_decide (s_ordinal a = s_ordinal h) && bool_decide (s_state a = s_state h) && bool_decide (s_startedAt a = s_startedAt h) &&
  bool_decide (s_endedAt a = s_endedAt h) && same_opt (s_usage a) (s_usage h) && bool_decide (s_finishReason a = s_finishReason h) &&
  same_opt (s_timing a) (s_timing h) && same_opt (s_retry a) (s_retry h) && bool_decide (s_endReason a = s_endReason h) &&
  bool_decide (s_endMessage a = s_endMessage h).

Definition has_step_id (id : jsstr) (st : step) : bool := bool_decide (step_id st = id).
Definition has_frame_id (id : jsstr) (f : frame) : bool := bool_decide (frameId f = id).

(** [l.map((x) => p(x) ? y : x)]. *)
Definition replace_where {A} (p : A -> bool) (y : A) (l : list A) : list A := (fun x => if p x then y else x) <$> l.

(** [[...steps, st].toSorted((a, b) => a.ordinal - b.ordinal)], a stable sort. *)
Definition step_ordinal (st : step) : Z := s_ordinal (s_header st).
Definition insert_step (st : step) (l : list step) : list step := insert_before (fun x => step_ordinal st <? step_ordinal x) st l.
Definition sort_steps (l : list step) : list step := fold_left (fun acc st => insert_step st acc) l [].

(** Puts a turn built from the existing one, or from its skeleton, in its place. *)
Definition put_turn (s : agent_state) (existing : option turn) (id : jsstr) (next : turn) : agent_state :=
  with_items s (match existing with Some _ => replaceTurn (items s) id (fun _ => next) | None => insertTurn (items s) next end).

Definition applyStepUpsert (s : agent_state) (turnId : jsstr) (h : step_header) : apply_result :=
  let existingTurn := getTurn s turnId in
  let t := default (skeletonTurn turnId) existingTurn in
  match List.find (has_step_id (stepId h)) (t_steps t) with
  | Some current =>
      if stepEquals (s_header current) h then unchanged s
      else changed (put_turn s existingTurn turnId (Turn (t_header t) ((fun st => if has_step_id (stepId h) st then Step h (s_frames st) else st) <$> t_steps t)))
  | None => changed (put_turn s existingTurn turnId (Turn (t_header t) (sort_steps (t_steps t ++ [Step h []]))))
  end.

Definition frameEquals (a b : frame_body) : bool :=
  match a, b with
  | TextFrame r x ids k, TextFrame r' x' ids' k' => bool_decide (x = x') && bool_decide (r = r') && same_opt ids ids' && bool_decide (k = k')
  | ThinkingFrame x, ThinkingFrame x' => bool_decide (x = x')
  | ToolCallFrame a, ToolCallFrame b =>
      bool_decide (f_state a = f_state b) && bool_decide (toolCallId a = toolCallId b) && bool_decide (f_name a = f_name b) && bool_decide (f_view a = f_view b) &&
      same_opt (f_input a) (f_input b) && same_opt (f_output a) (f_output b) && same_opt (f_display a) (f_display b) && bool_decide (f_error a = f_error b) &&
      bool_decide (f_inputText a = f_inputText b) && same_opt (f_progress a) (f_progress b) && bool_decide (f_taskId a = f_taskId b) &&
      bool_decide (f_approvalId a = f_approvalId b) && bool_decide (f_todoId a = f_todoId b) && same_opt (f_agentRefs a) (f_agentRefs b)
  | NoticeFrame l _ m d, NoticeFrame l' _ m' d' => bool_decide (m = m') && bool_decide (l = l') && same_opt d d'
  | _, _ => false
  end.

Definition applyFrameUpsert (s : agent_state) (turnId stepId : jsstr) (f : frame) : apply_result :=
  let existingTurn := getTurn s turnId in
  let t := default (skeletonTurn turnId) existingTurn in
  let existingStep := List.find (has_step_id stepId) (t_steps t) in
  let st := default (skeletonStep stepId turnId) existingStep in
  let put fs :=
    let next := Step (s_header st) fs in
    let steps := match existingStep with Some _ => replace_where (has_step_id stepId) next (t_steps t) | None => sort_steps (t_steps t ++ [next]) end in
    changed (put_turn s existingTurn turnId (Turn (t_header t) steps)) in
  match List.find (has_frame_id (frameId f)) (s_frames st) with
  | Some current => if frameEquals (f_body current) (f_body f) then unchanged s else put (replace_where (has_frame_id (frameId f)) f (s_frames st))
  | None => put (s_frames st ++ [f])
  end.

(** ** Appends *)

(** [local.startsWith(chunk, offset)], for any offset. *)
Definition startsWith (l chunk : jsstr) (offset : Z) : bool := bool_decide (chunk `prefix_of` drop (Z.to_nat offset) l).

Inductive append_result : Type :=
| Gap (expected got : Z)
| NoChange
| Appended (text : jsstr).

Definition appendAtOffset (l : jsstr) (offset : Z) (chunk : jsstr) : append_result :=
  if blen l <? offset then Gap (blen l) offset
  else if startsWith l chunk offset then NoChange
  else
    let overlap := blen l - offset in
    if negb (bool_decide (slice_from l offset = slice_to chunk overlap)) then Gap (blen l) offset
    else
      let novel := if 0 <? overlap then slice_from chunk overlap else chunk in
      if bool_decide (novel = []) then NoChange
      else Appended ((if offset =? blen l then l else slice_to l offset) ++ chunk).

Definition frame_text (f : frame) : option jsstr :=
  match f_body f with TextFrame _ x _ _ | ThinkingFrame x => Some x | _ => None end.
Definition set_frame_text (f : frame) (x : jsstr) : frame :=
  Frame (frameId f) (match f_body f with TextFrame r _ ids k => TextFrame r x ids k | ThinkingFrame _ => ThinkingFrame x | b => b end).

Definition applyTaskAppend (s : agent_state) (taskId : jsstr) (offset : Z) (chunk : jsstr) : apply_result :=
  let current := jget (tasks s) taskId in
  match appendAtOffset (from_option outputTail [] current) offset chunk with
  | Gap e g => ApplyResult s false (Some (e, g))
  | NoChange => unchanged s
  | Appended x =>
      let next := match current with
                  | Some t => Task (Transcript.taskId t) (k_kind t) (k_state t) (k_detached t) (k_description t) (k_agentId t) x (k_startedAt t) (k_endedAt t)
                                (k_resultSummary t) (k_error t) (k_stateReason t) (k_usage t)
                  | None => Task taskId OtherTask TaskRunning false None None x None None None None None None
                  end in
      changed (with_tasks s (jset (tasks s) taskId next))
  end.

Definition find_frame (s : agent_state) (turnId stepId frameId : jsstr) : option (turn * step * frame) :=
  match getTurn s turnId with
  | Some t =>
      match List.find (has_step_id stepId) (t_steps t) with
      | Some st => (fun f => (t, st, f)) <$> List.find (has_frame_id frameId) (s_frames st)
      | None => None
      end
  | None => None
  end.

Definition applyAppend (s : agent_state) (target : append_target) (offset : Z) (chunk : jsstr) : apply_result :=
  match target with
  | AppendTask id => applyTaskAppend s id offset chunk
  | AppendFrame turnId stepId frameId =>
      let missing := ApplyResult s false (Some (0, offset)) in
      match find_frame s turnId stepId frameId with
      | None => missing
      | Some (t, st, f) =>
          match frame_text f with
          | None => missing
          | Some x =>
              match appendAtOffset x offset chunk with
              | Gap e g => ApplyResult s false (Some (e, g))
              | NoChange => unchanged s
              | Appended x' =>
                  let nextStep := Step (s_header st) (replace_where (has_frame_id frameId) (set_frame_text f x') (s_frames st)) in
                  let nextTurn := Turn (t_header t) (replace_where (has_step_id stepId) nextStep (t_steps t)) in
                  changed (with_items s (replaceTurn (items s) turnId (fun _ => nextTurn)))
              end
          end
      end
  end.

(** ** Standalone items *)

Definition itemIdOf (e : item) : jsstr := match e with TurnItem t => turn_id t | MarkerItem m => markerId m | TaskRefItem r => refId r end.

Definition turn_at (n : Z) (e : item) : bool := match e with TurnItem t => n <=? ordinal t | _ => false end.

Definition applyItemUpsert (s : agent_state) (e : item) (beforeTurn : option Z) : apply_result :=
  let is_it x := bool_decide (itemIdOf x = itemIdOf e) in
  if existsb is_it (items s) then
    if existsb (fun x => is_it x && negb (same_item x e)) (items s) then changed (with_items s (replace_where is_it e (items s))) else unchanged s
  else
    match beforeTurn with
    | Some n => changed (with_items s (insert_before (turn_at n) e (items s)))
    | None => changed (with_items s (items s ++ [e]))
    end.

Definition anchored_calls (t : turn) : list jsstr :=
  st ← t_steps t; f ← s_frames st; match f_body f with ToolCallFrame c => [toolCallId c] | _ => [] end.

Definition dies (calls : list jsstr) (i : interaction) : bool := match i_toolCallId i with Some c => bool_decide (c ∈ calls) | None => false end.

Definition applyItemsRemove (s : agent_state) (ids : list jsstr) : apply_result :=
  let dropped e := bool_decide (itemIdOf e ∈ ids) in
  let removed := omap (fun e => match e with TurnItem t => if dropped e then Some t else None | _ => None end) (items s) in
  let kept := List.filter (fun e => negb (dropped e)) (items s) in
  if blen kept =? blen (items s) then unchanged s
  else
    let calls := removed ≫= anchored_calls in
    let dead := interactionId <$> (List.filter (dies calls) (interactions s).*2) in
    changed (with_interactions (with_items s kept) (fold_left jdel dead (interactions s)) (fold_left set_remove dead (pendingInteractions s))).

(** ** Global entities *)

Definition taskEquals (a b : task) : bool :=
  bool_decide (k_kind a = k_kind b) && bool_decide (k_state a = k_state b) && bool_decide (k_detached a = k_detached b) &&
  bool_decide (k_description a = k_description b) && bool_decide (k_agentId a = k_agentId b) && bool_decide (outputTail a = outputTail b) &&
  bool_decide (k_startedAt a = k_startedAt b) && bool_decide (k_endedAt a = k_endedAt b) && bool_decide (k_resultSummary a = k_resultSummary b) &&
  bool_decide (k_error a = k_error b) && bool_decide (k_stateReason a = k_stateReason b) && same_opt (k_usage a) (k_usage b).

Definition interactionEquals (a b : interaction) : bool :=
  bool_decide (i_kind a = i_kind b) && bool_decide (i_toolCallId a = i_toolCallId b) && bool_decide (i_state a = i_state b) &&
  same_opt (i_request a) (i_request b) && same_opt (i_response a) (i_response b).

Definition attachmentEquals (a b : attachment) : bool :=
  bool_decide (a_mediaType a = a_mediaType b) && bool_decide (a_name a = a_name b) && bool_decide (a_size a = a_size b) &&
  same_opt (a_source a) (a_source b) && bool_decide (a_placeholder a = a_placeholder b).

Definition todoEquals (a b : todo) : bool := same (d_items a) (d_items b) && bool_decide (d_updatedAt a = d_updatedAt b).

Definition promptEquals (a b : prompt) : bool :=
  bool_decide (p_status a = p_status b) && bool_decide (p_userMessageId a = p_userMessageId b) && same_opt (p_content a) (p_content b) &&
  bool_decide (p_createdAt a = p_createdAt b) && bool_decide (p_finishedAt a = p_finishedAt b) && bool_decide (p_steeredAt a = p_steeredAt b).

(** The map after an upsert, unless the entity is held already. *)
Definition upsert {A} (eqb : A -> A -> bool) (m : list (jsstr * A)) (id : jsstr) (x : A) : option (list (jsstr * A)) :=
  match jget m id with
  | Some current => if eqb current x then None else Some (jset m id x)
  | None => Some (jset m id x)
  end.

Definition applyTaskUpsert (s : agent_state) (t : task) : apply_result :=
  match upsert taskEquals (tasks s) (taskId t) t with Some m => changed (with_tasks s m) | None => unchanged s end.

Definition applyInteractionUpsert (s : agent_state) (i : interaction) : apply_result :=
  match upsert interactionEquals (interactions s) (interactionId i) i with
  | Some m =>
      let pending := if is_pending i then set_add (pendingInteractions s) (interactionId i) else set_remove (pendingInteractions s) (interactionId i) in
      changed (with_interactions s m pending)
  | None => unchanged s
  end.

Definition applyAttachmentUpsert (s : agent_state) (a : attachment) : apply_result :=
  match upsert attachmentEquals (attachments s) (attachmentId a) a with Some m => changed (with_attachments s m) | None => unchanged s end.
Definition applyTodoUpsert (s : agent_state) (d : todo) : apply_result :=
  match upsert todoEquals (todos s) (todoId d) d with Some m => changed (with_todos s m) | None => unchanged s end.
Definition applyPromptUpsert (s : agent_state) (p : prompt) : apply_result :=
  match upsert promptEquals (prompts s) (promptId p) p with Some m => changed (with_prompts s m) | None => unchanged s end.

(** ** Meta *)

Definition or_else {A} (a b : option A) : option A := match a with Some x => Some x | None => b end.

Definition merge_mode (m : mode_merge) (old : option json) : option json :=
  match m with KeepMode => old | ClearMode => None | SetMode x => Some x end.

Definition merge_agent (old new : agent_status) : agent_status :=
  AgentStatus (or_else (model new) (model old)) (or_else (thinkingEffort new) (thinkingEffort old)) (or_else (as_usage new) (as_usage old))
    (or_else (contextTokens new) (contextTokens old)) (or_else (maxContextTokens new) (maxContextTokens old)) (or_else (contextUsage new) (contextUsage old))
    (or_else (permission new) (permission old)) (or_else (phase new) (phase old)).

Definition no_agent : agent_status := AgentStatus None None None None None None None None.

Definition merge_modes (old : option modes_meta) (m : option (mode_merge * mode_merge)) : option modes_meta :=
  let modes := match m with
               | Some (p, w) => Some (ModesMeta (merge_mode p (old ≫= mo_plan)) (merge_mode w (old ≫= mo_swarm)))
               | None => old
               end in
  match modes with Some (ModesMeta None None) => None | _ => modes end.

Definition merge_meta (old : meta) (m : meta_merge) : meta :=
  Meta (or_else (mm_goal m) (goal old)) (merge_modes (modes old) (mm_modes m)) (or_else (mm_activity m) (m_activity old))
    (match mm_agent m with Some a => Some (merge_agent (default no_agent (agent old)) a) | None => agent old end).

(** Whether every part is the object held before: modes and agent status given in the
    merge are new objects, a collapsed modes object is [undefined]. *)
Definition same_meta (old : meta) (m : meta_merge) : bool :=
  let next := merge_meta old m in
  match mm_goal m with Some g => same_opt (Some g) (goal old) | None => true end && bool_decide (m_activity next = m_activity old) &&
  match modes next, modes old with None, None => true | Some _, Some _ => bool_decide (mm_modes m = None) | _, _ => false end &&
  bool_decide (mm_agent m = None).

Definition applyMetaMerge (s : agent_state) (m : meta_merge) : apply_result :=
  if same_meta (a_meta s) m then unchanged s else changed (with_meta s (merge_meta (a_meta s) m)).

(** ** Operations *)

Definition applyOperation (s : agent_state) (op : operation) : apply_result :=
  match op with
  | Reset _ sn => applyReset sn
  | TurnUpsert h => applyTurnUpsert s h
  | StepUpsert id h => applyStepUpsert s id h
  | FrameUpsert turnId stepId f => applyFrameUpsert s turnId stepId f
  | Append target offset chunk => applyAppend s target offset chunk
  | MarkerUpsert m before => applyItemUpsert s (MarkerItem m) before
  | TaskRefUpsert r before => applyItemUpsert s (TaskRefItem r) before
  | TaskUpsert t => applyTaskUpsert s t
  | InteractionUpsert i => applyInteractionUpsert s i
  | AttachmentUpsert a => applyAttachmentUpsert s a
  | TodoUpsert d => applyTodoUpsert s d
  | PromptUpsert p => applyPromptUpsert s p
  | MetaMergeOp m => applyMetaMerge s m
  | ItemsRemove ids => applyItemsRemove s ids
  end.
End ops.

(** * The store of one agent *)

Section store.
Context (Number : jsstr -> option Z) (same : json -> json -> bool) (same_item : item -> item -> bool).

Definition op_target (op : operation) : option append_target := match op with Append t _ _ => Some t | _ => None end.

(** [AppliedOps]. *)
Record applied_ops : Type := AppliedOps { accepted : list operation; a_gap : option (option append_target * Z * Z) }.

Fixpoint apply_loop (s : agent_state) (ops : list operation) (acc : applied_ops) : agent_state * applied_ops :=
  match ops with
  | [] => (s, acc)
  | op :: ops' =>
      let r := applyOperation Number same same_item s op in
      match r_gap r with
      | Some (e, g) => apply_loop s ops' (AppliedOps (accepted acc) (Some (op_target op, e, g)))
      | None => if r_changed r then apply_loop (r_state r) ops' (AppliedOps (accepted acc ++ [op]) (a_gap acc)) else apply_loop s ops' acc
      end
  end.

(** [AgentTranscript.apply]; the change event carries the accepted operations, when there
    are any. *)
Definition apply (s : agent_state) (ops : list operation) : agent_state * applied_ops := apply_loop s ops (AppliedOps [] None).
Definition change_event (a : applied_ops) : option (list operation) := match accepted a with [] => None | l => Some l end.

Definition item_is_turn (e : item) : bool := match e with TurnItem _ => true | _ => false end.

(** The loop of [snapshot]: from the turn after [skip] ones on. *)
Fixpoint window_loop (skip seen : Z) (l : list item) : list item :=
  match l with
  | [] => []
  | e :: l' =>
      if item_is_turn e then if seen + 1 <=? skip then window_loop skip (seen + 1) l' else e :: window_loop skip (seen + 1) l'
      else if skip <? seen then e :: window_loop skip seen l' else window_loop skip seen l'
  end.

Definition turn_count (l : list item) : Z := blen (List.filter item_is_turn l).

(** [snapshot(window)], with the newest turns only when [tailTurns] is given. *)
Definition take_snapshot (s : agent_state) (tailTurns : option Z) : snapshot :=
  let '(kept, more) :=
    match tailTurns with
    | Some n => if n <? turn_count (items s) then (window_loop (turn_count (items s) - n) 0 (items s), true) else (items s, hasMoreOlder s)
    | None => (items s, hasMoreOlder s)
    end in
  Snapshot kept (tasks s).*2 (interactions s).*2 (attachments s).*2 (todos s).*2 (prompts s).*2 (a_meta s) (Some more).
End store.

(** * Subscriptions *)

Inductive grade : Type := GradeOff | GradeTurn | GradeBlock | GradeDelta.

#[global] Instance grade_eq_dec : EqDecision grade.
Proof. solve_decision. Defined.

Definition GRADE_RANK (g : grade) : Z := match g with GradeOff => 0 | GradeTurn => 1 | GradeBlock => 2 | GradeDelta => 3 end.

(** A spec is an object whose values may be [undefined]. *)
Definition grade_spec : Type := list (jsstr * option grade).

Definition spec_get (spec : grade_spec) (id : jsstr) : option grade := default None (jget spec id).

Definition gradeFor (spec : option grade_spec) (agentId : jsstr) : grade :=
  match spec with
  | None => GradeOff
  | Some sp => default GradeOff (match spec_get sp agentId with Some g => Some g | None => spec_get sp (js "*") end)
  end.

Definition needsResetOnTransition (prev next : grade) : bool := GRADE_RANK prev <? GRADE_RANK next.

Definition detach_one (spec : grade_spec) (id : jsstr) : grade_spec :=
  if bool_decide (id = js "*") then jdel spec (js "*") else jset spec id (Some GradeOff).

Definition detachGrades (spec : option grade_spec) (agentIds : list jsstr) : option grade_spec :=
  match spec with
  | None => None
  | Some sp =>
      let next := fold_left detach_one agentIds sp in
      if existsb (fun g => match g with Some g => negb (bool_decide (g = GradeOff)) | None => false end) next.*2 then Some next else None
  end.

Definition admits (g : grade) (op : operation) : bool :=
  match op with
  | Append _ _ _ => GRADE_RANK GradeDelta <=? GRADE_RANK g
  | StepUpsert _ _ | FrameUpsert _ _ _ => GRADE_RANK GradeBlock <=? GRADE_RANK g
  | _ => true
  end.

Definition filterOpsForGrade (g : grade) (ops : list operation) : list operation :=
  if GRADE_RANK g =? 0 then [] else List.filter (admits g) ops.

Definition isAppendOnly (ops : list operation) : bool :=
  (0 <? blen ops) && forallb (fun op => match op with Append _ _ _ => true | _ => false end) ops.

Definition redact_item (e : item) : item := match e with TurnItem t => TurnItem (Turn (t_header t) []) | _ => e end.

Definition redactSnapshotForGrade (g : grade) (sn : snapshot) : snapshot :=
  if GRADE_RANK GradeBlock <=? GRADE_RANK g then sn
  else Snapshot (redact_item <$> sn_items sn) (sn_tasks sn) (sn_interactions sn) (sn_attachments sn) (sn_todos sn) (sn_prompts sn) (sn_meta sn) (sn_hasMoreOlder sn).

(** * Pages of turns *)

Section pages.
Context (Number : jsstr -> option Z).

Definition compareTurnIds (a b : jsstr) : Z := turnOrdinal Number a - turnOrdinal Number b.

(** The items of a segment and its turn; none for the leading unit. *)
Definition segment : Type := list item * option jsstr.

Definition flush_segment (current : list item) (currentTurn : option jsstr) : list segment :=
  match current with [] => [] | _ => [(current, currentTurn)] end.

Fixpoint split_loop (l current : list item) (currentTurn : option jsstr) : list segment :=
  match l with
  | [] => flush_segment current currentTurn
  | TurnItem t :: l' => flush_segment current currentTurn ++ split_loop l' [TurnItem t] (Some (turn_id t))
  | e :: l' => split_loop l' (current ++ [e]) currentTurn
  end.
Definition splitSegments (l : list item) : list segment := split_loop l [] None.

Definition flatten (l : list segment) : list item := l ≫= fst.

(** The items of a page and whether more remain. *)
Definition turn_page : Type := list item * bool.

Definition page (segments : list segment) (pageSize : Z) (older : bool) : turn_page :=
  let '(head, turns) := match segments with (u, None) :: rest => ([(u, None)], rest) | _ => ([], segments) end in
  if older then
    let selected := slice_from turns (- pageSize) in
    (flatten ((if blen selected =? blen turns then head else []) ++ selected), (blen selected <? blen turns) && (0 <? blen selected))
  else
    let selected := slice_to turns pageSize in
    (flatten selected, (blen selected <? blen turns) && (0 <? blen selected)).

(** A segment's turn id is used as a condition: the empty string counts as none. *)
Definition seg_turn (sg : segment) : option jsstr := match sg.2 with Some (_ :: _) => sg.2 | _ => None end.

Definition paginateTurns (l : list item) (beforeTurn afterTurn : option jsstr) (size : Z) : turn_page :=
  let pageSize := Z.max 1 size in
  let segments := splitSegments l in
  match segments with
  | [] => ([], false)
  | _ =>
      match afterTurn, beforeTurn with
      | Some a, _ => page (List.filter (fun sg => match seg_turn sg with Some id => 0 <? compareTurnIds id a | None => false end) segments) pageSize false
      | None, Some b => page (List.filter (fun sg => match seg_turn sg with Some id => compareTurnIds id b <? 0 | None => true end) segments) pageSize true
      | None, None => page segments pageSize true
      end
  end.
End pages.
