(* ===== verification/TranscriptLaws.v ===== *)
(** What the viewers of a transcript rely on: operations are idempotent, the state stays
    well formed, streams of chunks converge, snapshots and pages lose nothing, and a
    coarse subscriber sees the redaction of the full timeline. *)

From S2P Require Import Prelude JsMap Json JsonText JsString Transcript.

(** * Lists *)

Section lists.
Context {A : Type}.
Implicit Types (l : list A) (p : A -> bool).

Lemma find_replaced p y l x : List.find p l = Some x -> p y = true -> List.find p (replace_where p y l) = Some y.
Proof.
  intros H Hy. induction l as [|z l IH]; cbn in *; [done|]. destruct (p z) eqn:E; [by rewrite Hy|]. rewrite E. by apply IH.
Qed.

Lemma replaced_twice p y l : p y = true -> replace_where p y (replace_where p y l) = replace_where p y l.
Proof.
  intros Hy. unfold replace_where. rewrite <- list_fmap_compose. apply list_fmap_ext. intros i x _. cbn. destruct (p x) eqn:E; [by rewrite Hy|by rewrite E].
Qed.

Lemma find_none p l : List.find p l = None <-> Forall (fun x => p x = false) l.
Proof.
  induction l as [|x l IH]; cbn; [by split|]. destruct (p x) eqn:E; [split; [done|]; by inversion 1; congruence|]. rewrite IH. by rewrite Forall_cons, E; intuition.
Qed.

Lemma replaced_none p y l : List.find p l = None -> replace_where p y l = l.
Proof. rewrite find_none. induction 1 as [|x l Hx _ IH]; cbn; [done|]. rewrite Hx. by f_equal. Qed.

Lemma insert_before_perm after x l : insert_before after x l ≡ₚ x :: l.
Proof. induction l as [|y l IH]; cbn; [done|]. destruct (after y); [done|]. rewrite IH. constructor. Qed.

(** The only element with a property is found wherever it stands. *)
Lemma find_perm p x l l' : List.find p l = None -> p x = true -> l' ≡ₚ x :: l -> List.find p l' = Some x.
Proof.
  rewrite find_none, Forall_forall. intros H Hx Hp. destruct (List.find p l') as [y|] eqn:E.
  - apply find_some in E as [Hin Hy]. apply list_elem_of_In in Hin. rewrite Hp in Hin. apply elem_of_cons in Hin as [->|Hin]; [done|]. rewrite (H y Hin) in Hy. done.
  - rewrite find_none, Forall_forall in E. rewrite (E x) in Hx; [done|]. rewrite Hp. by left.
Qed.

Lemma replaced_perm p x l l' : List.find p l = None -> p x = true -> l' ≡ₚ x :: l -> replace_where p x l' = l'.
Proof.
  rewrite find_none, Forall_forall. intros H Hx Hp. unfold replace_where. rewrite <- (list_fmap_id l') at 2. apply list_fmap_ext. intros i y Hy%list_elem_of_lookup_2.
  rewrite Hp in Hy. apply elem_of_cons in Hy as [->|Hin]; [by rewrite Hx|by rewrite H].
Qed.

Lemma existsb_none p l : existsb p l = false <-> List.find p l = None.
Proof. rewrite find_none, Forall_forall, <- not_true_iff_false, existsb_exists. setoid_rewrite <- list_elem_of_In.
  split; [intros H x Hx; destruct (p x) eqn:E; [destruct H; eauto|done]|intros H (x & Hx & E); by rewrite H in E]. Qed.

Lemma existsb_replaced p y l : existsb p l = true -> p y = true -> existsb p (replace_where p y l) = true.
Proof.
  intros H Hy. apply not_false_iff_true. intros E%existsb_none. apply not_false_iff_true in H. apply H. apply existsb_none.
  destruct (List.find p l) eqn:Ef; [|done]. by rewrite (find_replaced p y l _ Ef Hy) in E.
Qed.
End lists.

Section sorting.
Context {A : Type} (key : A -> Z).

Definition key_sorted : list A -> Prop := Sorted (fun x y => key x <= key y).

Lemma key_sorted_insert x l : key_sorted l -> key_sorted (insert_before (fun y => key x <? key y) x l).
Proof.
  induction 1 as [|y l Hl IH Hd]; cbn; [by repeat constructor|]. destruct (Z.ltb_spec (key x) (key y)).
  - constructor; [by constructor|]. constructor. lia.
  - constructor; [exact IH|]. destruct l as [|z l]; cbn; [by repeat constructor|]. destruct (Z.ltb_spec (key x) (key z)); [constructor; lia|]. by inversion Hd; constructor.
Qed.

Lemma key_sorted_map (f : A -> A) l : (forall x, key (f x) = key x) -> key_sorted l -> key_sorted (f <$> l).
Proof.
  intros Hf. induction 1 as [|y l Hl IH Hd]; cbn; [constructor|]. constructor; [exact IH|]. destruct Hd; constructor. by rewrite !Hf.
Qed.

Lemma key_sorted_strong l : key_sorted l <-> StronglySorted (fun x y => key x <= key y) l.
Proof. split; [apply Sorted_StronglySorted; intros ?; lia|apply StronglySorted_Sorted]. Qed.

Lemma key_sorted_filter p l : key_sorted l -> key_sorted (List.filter p l).
Proof.
  rewrite !key_sorted_strong. induction 1 as [|y l Hl IH Hd]; cbn; [constructor|]. destruct (p y); [|done]. constructor; [done|].
  rewrite Forall_forall in *. intros z Hz. apply Hd. rewrite list_elem_of_In in *. by apply filter_In in Hz as [? _].
Qed.
End sorting.

Lemma sort_steps_perm l : sort_steps l ≡ₚ l.
Proof.
  unfold sort_steps. change (fold_left (fun acc st => insert_step st acc) l [] ≡ₚ [] ++ l). generalize (@nil step).
  induction l as [|x l IH]; intros acc; cbn [fold_left]; [by rewrite app_nil_r|]. rewrite IH. unfold insert_step. rewrite insert_before_perm. apply Permutation_middle.
Qed.

Lemma sort_steps_sorted l : key_sorted step_ordinal (sort_steps l).
Proof.
  unfold sort_steps. assert (key_sorted step_ordinal (@nil step)) as H by constructor. revert H. generalize (@nil step).
  induction l as [|x l IH]; intros acc H; cbn [fold_left]; [done|]. apply IH. by apply key_sorted_insert.
Qed.

Lemma jset_same {V} (m : list (jsstr * V)) k v : jset (jset m k v) k v = jset m k v.
Proof. induction m as [|[k' v'] m IH]; cbn; [by rewrite decide_True|]. destruct (decide (k' = k)); cbn; [by rewrite decide_True|]. rewrite decide_False by done. by rewrite IH. Qed.

Lemma default_some {A} (x y : A) : default x (Some y) = y.
Proof. done. Qed.

(** * Idempotence *)

Section laws.
Context (Number : jsstr -> option Z) (same : json -> json -> bool) (same_item : item -> item -> bool).
Abbreviation apply_op := (applyOperation Number same same_item).

Lemma get_turn_id s id t : getTurn s id = Some t -> turn_id t = id.
Proof.
  unfold getTurn. destruct (List.find _ _) as [e|] eqn:E; [|done]. apply find_some in E as [_ E]. destruct e as [t'|?|?]; [|done|done].
  intros [= ->]. by apply bool_decide_eq_true in E.
Qed.

Lemma get_turn_find s id t : getTurn s id = Some t <-> List.find (is_turn id) (items s) = Some (TurnItem t).
Proof.
  unfold getTurn. destruct (List.find _ _) as [e|] eqn:E; [|done]. apply find_some in E as [_ E]. destruct e as [t'|?|?]; [|done|done]. split; congruence.
Qed.

Lemma get_turn_none s id : getTurn s id = None <-> List.find (is_turn id) (items s) = None.
Proof. unfold getTurn. destruct (List.find _ _) as [e|] eqn:E; [|done]. apply find_some in E as [_ E]. by destruct e as [t'|?|?]. Qed.

Lemma replace_turn_where l id next : replaceTurn l id (fun _ => next) = replace_where (is_turn id) (TurnItem next) l.
Proof. apply list_fmap_ext. intros i e _. destruct e as [t|?|?]; cbn; [|done|done]. by destruct (bool_decide _). Qed.

Lemma find_replace_turn l id fn t : (forall u, turn_id u = id -> turn_id (fn u) = id) -> List.find (is_turn id) l = Some (TurnItem t) ->
  List.find (is_turn id) (replaceTurn l id fn) = Some (TurnItem (fn t)).
Proof.
  intros Hf. induction l as [|e l IH]; cbn; [done|]. destruct e as [u|?|?]; cbn; [|exact IH|exact IH].
  destruct (bool_decide_reflect (turn_id u = id)) as [Hu|Hu].
  - intros [= ->]. cbn. by rewrite bool_decide_eq_true_2 by auto.
  - intros H. cbn. rewrite bool_decide_eq_false_2 by done. by apply IH.
Qed.

Lemma replace_turn_twice l id fn : (forall u, turn_id u = id -> turn_id (fn u) = id) -> (forall u, fn (fn u) = fn u) ->
  replaceTurn (replaceTurn l id fn) id fn = replaceTurn l id fn.
Proof.
  intros Hf H. unfold replaceTurn. rewrite <- list_fmap_compose. apply list_fmap_ext. intros i e _. destruct e as [u|?|?]; cbn; [|done|done].
  destruct (bool_decide_reflect (turn_id u = id)) as [Hu|Hu]; cbn; [|by rewrite bool_decide_eq_false_2]. rewrite bool_decide_eq_true_2 by auto. by rewrite H.
Qed.

Lemma replace_turn_fixed l id fn t : List.find (is_turn id) l = None -> turn_id t = id -> fn t = t ->
  replaceTurn (insertTurn l t) id fn = insertTurn l t.
Proof.
  intros Hn Hi Hf. unfold replaceTurn. rewrite <- (list_fmap_id (insertTurn l t)) at 2. apply list_fmap_ext. intros i e He%list_elem_of_lookup_2.
  unfold insertTurn in He. rewrite insert_before_perm in He. rewrite find_none, Forall_forall in Hn.
  apply elem_of_cons in He as [->|Hin]; [by rewrite Hi, bool_decide_eq_true_2, Hf|]. specialize (Hn e Hin). destruct e as [u|?|?]; [|done|done]. cbn in Hn. by rewrite Hn.
Qed.

Lemma get_inserted s id t : getTurn s id = None -> turn_id t = id -> getTurn (with_items s (insertTurn (items s) t)) id = Some t.
Proof.
  rewrite get_turn_none. intros Hn Hi. apply get_turn_find. cbn [items with_items].
  apply (find_perm (is_turn id) (TurnItem t) (items s)); [done|by apply bool_decide_eq_true|apply insert_before_perm].
Qed.

Lemma get_put s existing id next : getTurn s id = existing -> turn_id next = id -> getTurn (put_turn s existing id next) id = Some next.
Proof.
  intros E Hi. unfold put_turn. destruct existing as [t|]; [|by apply get_inserted]. apply get_turn_find. cbn [items with_items].
  rewrite replace_turn_where. apply (find_replaced _ _ _ (TurnItem t)); [by apply get_turn_find|]. by apply bool_decide_eq_true.
Qed.

(** Putting the same turn again changes nothing. *)
Lemma put_put s existing id next : getTurn s id = existing -> turn_id next = id ->
  put_turn (put_turn s existing id next) (Some next) id next = put_turn s existing id next.
Proof.
  intros E Hi. unfold put_turn at 1. unfold put_turn. destruct existing as [t|]; unfold with_items; cbn [items tasks interactions attachments todos prompts a_meta pendingInteractions hasMoreOlder]; f_equal.
  - rewrite !replace_turn_where. apply replaced_twice. by apply bool_decide_eq_true.
  - apply replace_turn_fixed; [by apply get_turn_none|done|done].
Qed.

Lemma turn_upsert_twice s h : let s' := r_state (applyTurnUpsert same s h) in r_state (applyTurnUpsert same s' h) = s'.
Proof.
  cbv zeta. unfold applyTurnUpsert. destruct (getTurn s (turnId h)) as [t|] eqn:E.
  - destruct (turnEquals same (t_header t) h) eqn:Et; cbn [r_state unchanged changed]; [by rewrite E, Et|].
    assert (getTurn (with_items s (replaceTurn (items s) (turnId h) (fun t => Turn h (t_steps t)))) (turnId h) = Some (Turn h (t_steps t))) as ->.
    { apply get_turn_find. cbn [items with_items]. rewrite (find_replace_turn _ _ (fun t => Turn h (t_steps t)) t); [done|done|by apply get_turn_find]. }
    cbn [t_header]. destruct (turnEquals same h h); [done|]. cbn [r_state changed]. unfold with_items. cbn. f_equal. by apply replace_turn_twice.
  - cbn [r_state changed]. rewrite get_inserted by done. cbn [t_header]. destruct (turnEquals same h h); [done|]. cbn [r_state changed]. unfold with_items. cbn. f_equal.
    apply replace_turn_fixed; [by apply get_turn_none|done|done].
Qed.

(** A function of the steps that fixes what it has produced. *)
Lemma sorted_steps_fixed p st l : List.find p l = None -> p st = true ->
  List.find p (sort_steps (l ++ [st])) = Some st /\ replace_where p st (sort_steps (l ++ [st])) = sort_steps (l ++ [st]).
Proof.
  intros Hn Hp. assert (sort_steps (l ++ [st]) ≡ₚ st :: l) as H by (rewrite sort_steps_perm; symmetry; apply Permutation_cons_append).
  split; [by apply (find_perm p st l)|by apply (replaced_perm p st l)].
Qed.

Lemma step_map_where h l st : List.find (has_step_id (stepId h)) l = Some st ->
  let f := fun st => if has_step_id (stepId h) st then Step h (s_frames st) else st in
  List.find (has_step_id (stepId h)) (f <$> l) = Some (Step h (s_frames st)) /\ f <$> (f <$> l) = f <$> l.
Proof.
  intros H f. assert (has_step_id (stepId h) (Step h (s_frames st)) = true) as Hh by (by apply bool_decide_eq_true). split.
  - induction l as [|x l IH]; cbn in *; [done|]. subst f. cbn. destruct (has_step_id (stepId h) x) eqn:E; cbn.
    + injection H as ->. unfold has_step_id, step_id. cbn. by rewrite bool_decide_eq_true_2.
    + rewrite E. by apply IH.
  - rewrite <- list_fmap_compose. apply list_fmap_ext. intros i x _. subst f. cbn. destruct (has_step_id (stepId h) x) eqn:E; [|by rewrite E].
    unfold has_step_id, step_id. cbn. by rewrite bool_decide_eq_true_2.
Qed.

Lemma skeleton_turn_id id : turn_id (skeletonTurn Number id) = id.
Proof. done. Qed.

Lemma default_turn_id s id existing : getTurn s id = existing -> turn_id (default (skeletonTurn Number id) existing) = id.
Proof. destruct existing as [t|]; [|done]. apply get_turn_id. Qed.

(** A turn just put, whose steps hold the step as the operation makes it. *)
Lemma step_upsert_held s existing id hd steps h st : getTurn s id = existing -> turn_id (Turn hd steps) = id ->
  List.find (has_step_id (stepId h)) steps = Some st ->
  (fun x => if has_step_id (stepId h) x then Step h (s_frames x) else x) <$> steps = steps ->
  let s' := put_turn s existing id (Turn hd steps) in r_state (applyStepUpsert Number same s' id h) = s'.
Proof.
  intros E Hi Hf Hm s'. unfold applyStepUpsert. subst s'. rewrite (get_put s existing id _ E Hi). cbv zeta. rewrite default_some. cbn [t_steps t_header]. rewrite Hf.
  destruct (stepEquals _ _ _); [done|]. cbn [r_state changed]. rewrite Hm. by apply put_put.
Qed.

Lemma step_upsert_twice s id h : let s' := r_state (applyStepUpsert Number same s id h) in r_state (applyStepUpsert Number same s' id h) = s'.
Proof.
  cbv zeta. unfold applyStepUpsert at 2 3. pose proof (default_turn_id s id _ eq_refl) as Hi. set (t := default _ _) in *.
  destruct (List.find (has_step_id (stepId h)) (t_steps t)) as [st|] eqn:Ef.
  - destruct (stepEquals same (s_header st) h) eqn:Es; cbn [r_state changed unchanged].
    + unfold applyStepUpsert. fold t. by rewrite Ef, Es.
    + destruct (step_map_where h _ _ Ef) as [H1 H2]. by eapply step_upsert_held.
  - cbn [r_state changed]. assert (has_step_id (stepId h) (Step h []) = true) as Hh by (by apply bool_decide_eq_true).
    destruct (sorted_steps_fixed _ (Step h []) _ Ef Hh) as [H1 H2]. eapply step_upsert_held; [done|done|exact H1|].
    rewrite <- H2 at 2. apply list_fmap_ext. intros i x Hx. destruct (has_step_id (stepId h) x) eqn:Ex; [|done].
    apply list_elem_of_lookup_2 in Hx. rewrite sort_steps_perm in Hx. apply elem_of_app in Hx as [Hx|Hx%list_elem_of_singleton]; [|by rewrite Hx].
    rewrite find_none, Forall_forall in Ef. by rewrite (Ef x Hx) in Ex.
Qed.

Lemma frame_upsert_held s existing id hd steps stepId sh fs f : getTurn s id = existing -> turn_id (Turn hd steps) = id ->
  List.find (has_step_id stepId) steps = Some (Step sh fs) -> Transcript.stepId sh = stepId -> replace_where (has_step_id stepId) (Step sh fs) steps = steps ->
  List.find (has_frame_id (frameId f)) fs = Some f -> replace_where (has_frame_id (frameId f)) f fs = fs ->
  let s' := put_turn s existing id (Turn hd steps) in r_state (applyFrameUpsert Number same s' id stepId f) = s'.
Proof.
  intros E Hi Hf Hs Hm Hg Hn s'. unfold applyFrameUpsert. subst s'. rewrite (get_put s existing id _ E Hi). cbv zeta. rewrite default_some. cbn [t_steps t_header]. rewrite Hf.
  rewrite default_some. cbn [s_frames s_header]. rewrite Hg. destruct (frameEquals _ _ _); [done|]. cbn [r_state changed]. rewrite Hn, Hm. by apply put_put.
Qed.

Lemma default_step_id id stepId l : step_id (default (skeletonStep Number stepId id) (List.find (has_step_id stepId) l)) = stepId.
Proof. destruct (List.find _ _) as [st|] eqn:E; [|done]. apply find_some in E as [_ E]. by apply bool_decide_eq_true in E. Qed.

Lemma find_replaced_steps l stepId next : step_id next = stepId ->
  let steps := match List.find (has_step_id stepId) l with Some _ => replace_where (has_step_id stepId) next l | None => sort_steps (l ++ [next]) end in
  List.find (has_step_id stepId) steps = Some next /\ replace_where (has_step_id stepId) next steps = steps.
Proof.
  intros Hn. assert (has_step_id stepId next = true) as Hh by (by apply bool_decide_eq_true). cbv zeta. destruct (List.find _ l) as [st|] eqn:E; [|by apply sorted_steps_fixed].
  split; [by apply (find_replaced _ _ _ st)|by apply replaced_twice].
Qed.

Lemma frame_upsert_twice s id stepId f : let s' := r_state (applyFrameUpsert Number same s id stepId f) in r_state (applyFrameUpsert Number same s' id stepId f) = s'.
Proof.
  cbv zeta. unfold applyFrameUpsert at 2 3. pose proof (default_turn_id s id _ eq_refl) as Hi. set (t := default (skeletonTurn _ _) _) in *.
  pose proof (default_step_id id stepId (t_steps t)) as Hs. set (st := default (skeletonStep _ _ _) _) in *. cbv zeta.
  assert (has_frame_id (frameId f) f = true) as Hh by (by apply bool_decide_eq_true).
  assert (forall fs, List.find (has_frame_id (frameId f)) fs = Some f -> replace_where (has_frame_id (frameId f)) f fs = fs ->
    let steps := match List.find (has_step_id stepId) (t_steps t) with Some _ => replace_where (has_step_id stepId) (Step (s_header st) fs) (t_steps t) | None => sort_steps (t_steps t ++ [Step (s_header st) fs]) end in
    let s' := put_turn s (getTurn s id) id (Turn (t_header t) steps) in r_state (applyFrameUpsert Number same s' id stepId f) = s') as Hput.
  { intros fs H1 H2 steps. destruct (find_replaced_steps (t_steps t) stepId (Step (s_header st) fs) Hs) as [F1 F2]. by eapply (frame_upsert_held _ _ _ _ _ _ (s_header st) fs). }
  destruct (List.find (has_frame_id (frameId f)) (s_frames st)) as [g|] eqn:Ef.
  - destruct (frameEquals same (f_body g) (f_body f)) eqn:Eg; cbn [r_state changed unchanged].
    + unfold applyFrameUpsert. fold t. fold st. cbv zeta. by rewrite Ef, Eg.
    + apply Hput; [by apply (find_replaced _ _ _ g)|by apply replaced_twice].
  - cbn [r_state changed]. apply Hput; [apply (find_perm _ f (s_frames st))|apply (replaced_perm _ f (s_frames st))]; try done; symmetry; apply Permutation_cons_append.
Qed.

Lemma appended_spec l offset chunk x : 0 <= offset -> appendAtOffset l offset chunk = Appended x ->
  offset <= blen l /\ x = take (Z.to_nat offset) l ++ chunk.
Proof.
  intros Ho. unfold appendAtOffset. destruct (Z.ltb_spec (blen l) offset); [done|]. destruct (startsWith l chunk offset); [done|]. cbv zeta.
  destruct (negb _); [done|]. destruct (bool_decide (_ = [])); [done|]. intros [= <-]. split; [done|]. f_equal.
  destruct (Z.eqb_spec offset (blen l)) as [->|].
  - unfold blen. by rewrite Nat2Z.id, firstn_all.
  - unfold slice_to, slice_at. by rewrite (proj2 (Z.ltb_ge offset 0)).
Qed.

Lemma append_again l offset chunk x : 0 <= offset -> appendAtOffset l offset chunk = Appended x -> appendAtOffset x offset chunk = NoChange.
Proof.
  intros Ho H. destruct (appended_spec _ _ _ _ Ho H) as [Hle ->]. unfold appendAtOffset.
  assert (length (take (Z.to_nat offset) l) = Z.to_nat offset) as Hl by (rewrite length_take; unfold blen in Hle; lia).
  assert ((blen (take (Z.to_nat offset) l ++ chunk) <? offset) = false) as -> by (apply Z.ltb_ge; rewrite blen_app; unfold blen; lia).
  unfold startsWith. rewrite drop_app_length' by done. by rewrite bool_decide_eq_true_2.
Qed.

Lemma task_append_twice s id offset chunk : 0 <= offset ->
  let s' := r_state (applyTaskAppend s id offset chunk) in r_state (applyTaskAppend s' id offset chunk) = s'.
Proof.
  intros Ho. cbv zeta. unfold applyTaskAppend at 2 3. destruct (appendAtOffset _ _ _) as [e g| |x] eqn:E; cbn [r_state unchanged changed].
  1,2: unfold applyTaskAppend; by rewrite E.
  unfold applyTaskAppend. cbn [tasks with_tasks]. rewrite jget_set_eq. destruct (jget (tasks s) id); cbn [from_option outputTail] in *; by rewrite (append_again _ _ _ _ Ho E).
Qed.

Lemma set_text_id f x : frameId (set_frame_text f x) = frameId f.
Proof. done. Qed.

Lemma set_text_text f x y : frame_text f = Some y -> frame_text (set_frame_text f x) = Some x.
Proof. unfold frame_text, set_frame_text. by destruct (f_body f). Qed.

Lemma found_frame s turnId stepId frameId t st f : find_frame s turnId stepId frameId = Some (t, st, f) ->
  getTurn s turnId = Some t /\ List.find (has_step_id stepId) (t_steps t) = Some st /\ List.find (has_frame_id frameId) (s_frames st) = Some f.
Proof.
  unfold find_frame. destruct (getTurn s turnId) as [t'|]; [|done]. destruct (List.find _ (t_steps t')) as [st'|] eqn:E; [|done].
  destruct (List.find _ (s_frames st')) as [f'|] eqn:E'; [|done]. intros [= -> -> ->]. by rewrite E, E'.
Qed.

(** The frame of a turn just put, with a new text. *)
Lemma found_updated s turnId stepId frameId t st f x : find_frame s turnId stepId frameId = Some (t, st, f) ->
  let nextStep := Step (s_header st) (replace_where (has_frame_id frameId) (set_frame_text f x) (s_frames st)) in
  let nextTurn := Turn (t_header t) (replace_where (has_step_id stepId) nextStep (t_steps t)) in
  find_frame (with_items s (replaceTurn (items s) turnId (fun _ => nextTurn))) turnId stepId frameId = Some (nextTurn, nextStep, set_frame_text f x).
Proof.
  intros (Ht & Hs & Hf)%found_frame nextStep nextTurn. unfold find_frame.
  assert (getTurn (with_items s (replaceTurn (items s) turnId (fun _ => nextTurn))) turnId = Some nextTurn) as -> by (apply (get_put s (Some t)); [done|exact (get_turn_id _ _ _ Ht)]).
  assert (List.find (has_step_id stepId) (t_steps nextTurn) = Some nextStep) as ->.
  { apply (find_replaced _ _ _ st Hs). apply find_some in Hs as [_ Hs]. exact Hs. }
  assert (List.find (has_frame_id frameId) (s_frames nextStep) = Some (set_frame_text f x)) as -> by (apply (find_replaced _ _ _ f Hf); by apply find_some in Hf as [_ Hf]).
  done.
Qed.

Lemma append_twice s target offset chunk : 0 <= offset ->
  let s' := r_state (applyAppend s target offset chunk) in r_state (applyAppend s' target offset chunk) = s'.
Proof.
  intros Ho. destruct target as [turnId stepId frameId|id]; [|by apply task_append_twice]. cbv zeta. unfold applyAppend at 2 3. cbv zeta.
  destruct (find_frame s turnId stepId frameId) as [[[t st] f]|] eqn:E; [|cbn; by rewrite E]. destruct (frame_text f) as [y|] eqn:Ey; [|cbn; by rewrite E, Ey].
  destruct (appendAtOffset y offset chunk) as [e g| |x] eqn:Ea; cbn [r_state unchanged changed]; [cbn; by rewrite E, Ey, Ea..|].
  unfold applyAppend. rewrite (found_updated _ _ _ _ _ _ _ x E). cbn [fst snd]. rewrite (set_text_text _ _ _ Ey). by rewrite (append_again _ _ _ _ Ho Ea).
Qed.

Lemma item_upsert_twice s e before : let s' := r_state (applyItemUpsert same_item s e before) in r_state (applyItemUpsert same_item s' e before) = s'.
Proof.
  cbv zeta. set (is_it := fun x => bool_decide (itemIdOf x = itemIdOf e)). assert (is_it e = true) as He by (by apply bool_decide_eq_true).
  assert (forall l, existsb is_it l = true -> replace_where is_it e l = l -> r_state (applyItemUpsert same_item (with_items s l) e before) = with_items s l) as Hheld.
  { intros l H1 H2. unfold applyItemUpsert. fold is_it. cbv zeta. cbn [items with_items]. rewrite H1. destruct (existsb (fun x => _ && _) l); [|done].
    cbn [r_state changed]. by rewrite H2. }
  unfold applyItemUpsert at 2 3. cbv zeta. fold is_it. destruct (existsb is_it (items s)) eqn:Eh.
  - destruct (existsb (fun x => _ && _) (items s)) eqn:Ed; cbn [r_state changed unchanged].
    + apply Hheld; [by apply existsb_replaced|by apply replaced_twice].
    + unfold applyItemUpsert. cbv zeta. fold is_it. by rewrite Eh, Ed.
  - apply existsb_none in Eh. assert (forall l, l ≡ₚ e :: items s -> existsb is_it l = true /\ replace_where is_it e l = l) as Hp.
    { intros l Hl. split; [|by apply (replaced_perm _ e (items s))]. apply existsb_exists. exists e. split; [|done]. apply list_elem_of_In. rewrite Hl. by left. }
    destruct before as [n|]; cbn [r_state changed]; apply Hheld; apply Hp; try apply insert_before_perm; symmetry; apply Permutation_cons_append.
Qed.

Lemma upsert_twice {A} eqb (m m' : list (jsstr * A)) k x : upsert eqb m k x = Some m' -> m' = jset m k x /\ (upsert eqb m' k x = None \/ upsert eqb m' k x = Some m').
Proof.
  unfold upsert. intros H. assert (m' = jset m k x) as -> by (destruct (jget m k) as [y|]; [destruct (eqb y x); [done|]|]; congruence). split; [done|].
  rewrite jget_set_eq. destruct (eqb x x); [by left|right; by rewrite jset_same].
Qed.

Lemma entity_upsert_twice {A} (field : agent_state -> list (jsstr * A)) (put : agent_state -> list (jsstr * A) -> agent_state) eqb k x
    (apply_it := fun s => match upsert eqb (field s) k x with Some m => changed (put s m) | None => unchanged s end) :
  (forall s m, field (put s m) = m) -> (forall s m, put (put s m) m = put s m) -> forall s, r_state (apply_it (r_state (apply_it s))) = r_state (apply_it s).
Proof.
  intros H1 H2 s. subst apply_it. cbv beta. destruct (upsert eqb (field s) k x) as [m|] eqn:E; cbn [r_state changed unchanged]; [|by rewrite E].
  rewrite H1. destruct (upsert_twice _ _ _ _ _ E) as [_ [->| ->]]; [done|]. cbn [r_state changed]. by rewrite H2.
Qed.

Lemma set_add_twice l x : set_add (set_add l x) x = set_add l x.
Proof.
  unfold set_add at 2 3. destruct (bool_decide_reflect (x ∈ l)) as [H|H]; [by unfold set_add; rewrite bool_decide_eq_true_2|].
  unfold set_add. rewrite bool_decide_eq_true_2; [done|]. apply elem_of_app. right. by left.
Qed.

Lemma filter_twice {A} (p : A -> bool) l : List.filter p (List.filter p l) = List.filter p l.
Proof. induction l as [|x l IH]; cbn; [done|]. destruct (p x) eqn:E; cbn; [|done]. by rewrite E, IH. Qed.

Lemma interaction_upsert_twice s i : let s' := r_state (applyInteractionUpsert same s i) in r_state (applyInteractionUpsert same s' i) = s'.
Proof.
  cbv zeta. unfold applyInteractionUpsert at 2 3. destruct (upsert _ (interactions s) _ i) as [m|] eqn:E; cbn [r_state changed unchanged]; [|by unfold applyInteractionUpsert; rewrite E].
  unfold applyInteractionUpsert. cbn [interactions with_interactions pendingInteractions]. destruct (upsert_twice _ _ _ _ _ E) as [_ [->| ->]]; [done|].
  cbn [r_state changed]. unfold with_interactions. cbn. f_equal. destruct (is_pending i); [apply set_add_twice|apply filter_twice].
Qed.

Lemma merge_mode_twice m old : merge_mode m (merge_mode m old) = merge_mode m old.
Proof. by destruct m. Qed.

Lemma merge_modes_twice old m : merge_modes (merge_modes old m) m = merge_modes old m.
Proof. destruct m as [[p w]|]; [|by destruct old as [[[] []]|]]. unfold merge_modes at 2 3. destruct p, w, old as [[[] []]|]; reflexivity. Qed.

Lemma or_else_twice {A} (a b : option A) : or_else a (or_else a b) = or_else a b.
Proof. by destruct a. Qed.

Lemma merge_meta_twice old m : merge_meta (merge_meta old m) m = merge_meta old m.
Proof.
  unfold merge_meta. cbn [goal modes m_activity agent]. rewrite !or_else_twice, merge_modes_twice. f_equal. destruct (mm_agent m) as [a|]; [|done].
  cbn [default from_option]. unfold merge_agent. cbn. by rewrite !or_else_twice.
Qed.

Lemma meta_merge_twice s m : let s' := r_state (applyMetaMerge same s m) in r_state (applyMetaMerge same s' m) = s'.
Proof.
  cbv zeta. unfold applyMetaMerge at 2 3. destruct (same_meta same (a_meta s) m) eqn:E; cbn [r_state changed unchanged]; [by unfold applyMetaMerge; rewrite E|].
  unfold applyMetaMerge. cbn [a_meta with_meta]. destruct (same_meta same (merge_meta _ _) m); [done|]. cbn [r_state changed]. unfold with_meta at 1. cbn. by rewrite merge_meta_twice.
Qed.

Lemma items_remove_twice s ids : let s' := r_state (applyItemsRemove s ids) in r_state (applyItemsRemove s' ids) = s'.
Proof.
  cbv zeta. unfold applyItemsRemove at 2 3. cbv zeta. destruct (blen _ =? blen (items s)) eqn:E; cbn [r_state changed unchanged].
  - unfold applyItemsRemove. cbv zeta. by rewrite E.
  - unfold applyItemsRemove. cbv zeta. cbn [items with_interactions with_items]. by rewrite filter_twice, Z.eqb_refl.
Qed.

(** The offset of a chunk is not negative on the wire. *)
Definition offset_ok (op : operation) : Prop := match op with Append _ offset _ => 0 <= offset | _ => True end.

(** Every operation is idempotent, appends included: an operation delivered twice in a
    row leaves the state it left the first time. *)
Theorem operation_idempotent s op : offset_ok op -> let s' := r_state (apply_op s op) in r_state (apply_op s' op) = s'.
Proof.
  destruct op; intros Hok; cbn [applyOperation].
  - done.
  - apply turn_upsert_twice.
  - apply step_upsert_twice.
  - apply frame_upsert_twice.
  - by apply append_twice.
  - apply item_upsert_twice.
  - apply item_upsert_twice.
  - by apply (entity_upsert_twice tasks with_tasks).
  - apply interaction_upsert_twice.
  - by apply (entity_upsert_twice attachments with_attachments).
  - by apply (entity_upsert_twice todos with_todos).
  - by apply (entity_upsert_twice prompts with_prompts).
  - apply meta_merge_twice.
  - apply items_remove_twice.
Qed.

(** * Well-formed states *)

Definition turn_of (e : item) : option turn := match e with TurnItem t => Some t | _ => None end.
Definition turns (l : list item) : list turn := omap turn_of l.

Definition expected_step_ordinal (turnId stepId : jsstr) : Z := default 0 (Number (slice_from stepId (blen turnId + 1))).

Definition step_ok (turnId : jsstr) (st : step) : Prop :=
  step_ordinal st = expected_step_ordinal turnId (step_id st) /\ NoDup (frameId <$> s_frames st).

Definition turn_ok (t : turn) : Prop :=
  ordinal t = turnOrdinal Number (turn_id t) /\ NoDup (step_id <$> t_steps t) /\ key_sorted step_ordinal (t_steps t) /\ Forall (step_ok (turn_id t)) (t_steps t).

Definition items_ok (l : list item) : Prop :=
  NoDup (turn_id <$> turns l) /\ key_sorted ordinal (turns l) /\ Forall turn_ok (turns l).

Definition entity_ok {A} (key : A -> jsstr) (m : list (jsstr * A)) : Prop := jwf m /\ Forall (fun kx => key kx.2 = kx.1) m.

Definition pending_ok (m : list (jsstr * interaction)) (pending : list jsstr) : Prop :=
  NoDup pending /\ forall id, id ∈ pending <-> exists i, jget m id = Some i /\ i_state i = Pending.

Definition state_ok (s : agent_state) : Prop :=
  items_ok (items s) /\ entity_ok taskId (tasks s) /\ entity_ok interactionId (interactions s) /\ entity_ok attachmentId (attachments s) /\
  entity_ok todoId (todos s) /\ entity_ok promptId (prompts s) /\ pending_ok (interactions s) (pendingInteractions s).

(** Ids carry ordinals, as [model/ids.ts] makes them, and a snapshot is of such a store. *)
Definition op_ok (op : operation) : Prop :=
  match op with
  | Reset _ sn => items_ok (sn_items sn) /\ NoDup (interactionId <$> sn_interactions sn)
  | TurnUpsert h => t_ordinal h = turnOrdinal Number (turnId h)
  | StepUpsert turnId h => s_ordinal h = expected_step_ordinal turnId (stepId h)
  | Append _ offset _ => 0 <= offset
  | _ => True
  end.

Lemma turns_insert_turn l t : turns (insertTurn l t) = insert_before (fun u => ordinal t <? ordinal u) t (turns l).
Proof.
  unfold insertTurn. induction l as [|e l IH]; cbn; [done|]. destruct e as [u|?|?]; cbn; [|exact IH|exact IH].
  destruct (ordinal t <? ordinal u); cbn; [done|]. by f_equal.
Qed.

Lemma turns_replace_turn l id fn : turns (replaceTurn l id fn) = (fun u => if bool_decide (turn_id u = id) then fn u else u) <$> turns l.
Proof. induction l as [|e l IH]; cbn; [done|]. destruct e as [u|?|?]; cbn; [|exact IH|exact IH]. case_bool_decide; cbn; by f_equal. Qed.

Lemma turns_replaced p e l : turn_of e = None -> turns (replace_where p e l) = List.filter (fun t => negb (p (TurnItem t))) (turns l).
Proof.
  intros He. induction l as [|x l IH]; cbn; [done|]. destruct x as [u|?|?]; cbn; (destruct (p _) eqn:Ep; cbn; [rewrite He|]); cbn in *; try exact IH; by f_equal.
Qed.

Lemma turns_insert_other after e l : turn_of e = None -> turns (insert_before after e l) = turns l.
Proof. intros He. induction l as [|x l IH]; cbn; [by rewrite He|]. destruct (after x); cbn; [by rewrite He|]. destruct x as [u|?|?]; cbn; [f_equal; exact IH|exact IH|exact IH]. Qed.

Lemma turns_filter p l : turns (List.filter p l) = List.filter (fun t => p (TurnItem t)) (turns l).
Proof. induction l as [|x l IH]; cbn; [done|]. destruct x as [u|?|?]; cbn; destruct (p _); cbn; try exact IH; by f_equal. Qed.

Lemma nodup_map_filter {A B} (f : A -> B) p l : NoDup (f <$> l) -> NoDup (f <$> List.filter p l).
Proof.
  induction l as [|x l IH]; cbn; [done|]. intros [Hx H]%NoDup_cons. destruct (p x); cbn; [|by apply IH]. apply NoDup_cons. split; [|by apply IH].
  intros (y & E & Hy)%list_elem_of_fmap. apply Hx. apply list_elem_of_fmap. exists y. split; [done|]. rewrite list_elem_of_In in *. by apply filter_In in Hy as [? _].
Qed.

Lemma items_ok_filter l p : NoDup (turn_id <$> turns l) /\ key_sorted ordinal (turns l) /\ Forall turn_ok (turns l) ->
  forall l', turns l' = List.filter p (turns l) -> items_ok l'.
Proof.
  intros (H1 & H2 & H3) l' E. unfold items_ok. rewrite E. split; [by apply nodup_map_filter|]. split; [by apply key_sorted_filter|].
  rewrite Forall_forall in *. intros t Ht. apply H3. rewrite list_elem_of_In in *. by apply filter_In in Ht as [? _].
Qed.

Lemma find_turn_none l id : List.find (is_turn id) l = None <-> id ∉ turn_id <$> turns l.
Proof.
  induction l as [|e l IH]; cbn; [split; [intros _ H; by apply elem_of_nil in H|done]|]. destruct e as [u|?|?]; cbn; try exact IH.
  destruct (bool_decide_reflect (turn_id u = id)) as [Hu|Hu].
  - split; [done|]. intros H. destruct H. rewrite <- Hu. by left.
  - rewrite IH. rewrite elem_of_cons. split; [intros H [Hx|Hx]; [by destruct Hu|done]|tauto].
Qed.

Lemma insert_turn_ok l t : items_ok l -> turn_ok t -> List.find (is_turn (turn_id t)) l = None -> items_ok (insertTurn l t).
Proof.
  intros (H1 & H2 & H3) Ht Hn%find_turn_none. unfold items_ok. rewrite turns_insert_turn. pose proof (insert_before_perm (fun u => ordinal t <? ordinal u) t (turns l)) as Hp.
  split; [|split].
  - rewrite Hp. by apply NoDup_cons.
  - by apply key_sorted_insert.
  - rewrite Hp. by constructor.
Qed.

Lemma replace_turn_ok l id fn : items_ok l -> (forall t, t ∈ turns l -> turn_id t = id -> turn_id (fn t) = id /\ turn_ok (fn t)) -> items_ok (replaceTurn l id fn).
Proof.
  intros (H1 & H2 & H3) Hf. unfold items_ok. rewrite turns_replace_turn. set (g := fun u => _).
  assert (forall u, u ∈ turns l -> turn_id (g u) = turn_id u /\ ordinal (g u) = ordinal u /\ turn_ok (g u)) as Hg.
  { intros u Hu. rewrite Forall_forall in H3. pose proof (H3 u Hu) as Ho. subst g. cbv beta. destruct (bool_decide_reflect (turn_id u = id)) as [E|E]; [|done].
    destruct (Hf u Hu E) as [Hi Hk]. rewrite Hi, E. split; [done|]. split; [|done]. destruct Hk as [-> _]. destruct Ho as [-> _]. by rewrite Hi, E. }
  clearbody g. split; [|split].
  - replace (turn_id <$> (g <$> turns l)) with (turn_id <$> turns l); [done|]. rewrite <- list_fmap_compose. apply list_fmap_ext. intros i u Hu%list_elem_of_lookup_2.
    symmetry. by apply Hg.
  - clear H1 H3 Hf. induction H2 as [|u us Hs IH Hd]; cbn; [constructor|]. constructor; [apply IH; intros v Hv; apply Hg; by right|].
    destruct Hd as [|v vs Hv]; constructor. destruct (Hg u ltac:(by left)) as (_ & -> & _). destruct (Hg v ltac:(right; by left)) as (_ & -> & _). done.
  - apply Forall_fmap. apply Forall_forall. intros u Hu. by apply Hg.
Qed.

Lemma get_turn_in s id t : getTurn s id = Some t -> t ∈ turns (items s).
Proof.
  rewrite get_turn_find. intros [H _]%find_some. apply list_elem_of_omap. exists (TurnItem t). split; [|done]. by apply list_elem_of_In.
Qed.

Lemma get_turn_ok s id t : items_ok (items s) -> getTurn s id = Some t -> turn_ok t.
Proof. intros (_ & _ & H) Ht%get_turn_in. rewrite Forall_forall in H. by apply H. Qed.

Lemma put_turn_ok s existing id next : items_ok (items s) -> getTurn s id = existing -> turn_id next = id -> turn_ok next -> items_ok (items (put_turn s existing id next)).
Proof.
  intros Hs E Hi Hn. unfold put_turn. cbn [items with_items]. destruct existing as [t|]; [by apply replace_turn_ok|].
  apply insert_turn_ok; [done|done|]. rewrite Hi. by apply get_turn_none.
Qed.

Lemma default_turn_ok s id : items_ok (items s) -> turn_ok (default (skeletonTurn Number id) (getTurn s id)).
Proof.
  intros H. destruct (getTurn s id) as [t|] eqn:E; [by apply (get_turn_ok s id)|]. cbn. split; [done|]. split; [constructor|]. split; constructor.
Qed.

Lemma steps_map_ok hd steps g : turn_ok (Turn hd steps) ->
  (forall st, st ∈ steps -> step_id (g st) = step_id st /\ step_ok (turnId hd) (g st)) -> turn_ok (Turn hd (g <$> steps)).
Proof.
  intros (H1 & H2 & H3 & H4) Hg. cbn [t_steps t_header] in *. split; [done|]. cbn [t_steps].
  assert (forall st, st ∈ steps -> step_ordinal (g st) = step_ordinal st) as Ho.
  { intros st Hst. destruct (Hg st Hst) as [Hi [-> _]]. rewrite Forall_forall in H4. destruct (H4 st Hst) as [-> _]. by rewrite Hi. }
  split; [|split].
  - replace (step_id <$> (g <$> steps)) with (step_id <$> steps); [done|]. rewrite <- list_fmap_compose. apply list_fmap_ext. intros i st Hst%list_elem_of_lookup_2.
    symmetry. by apply Hg.
  - clear H1 H2 H4 Hg. induction H3 as [|u us Hs IH Hd]; cbn; [constructor|]. constructor; [apply IH; intros v Hv; apply Ho; by right|].
    destruct Hd as [|v vs Hv]; constructor. rewrite (Ho u) by (by left). rewrite (Ho v) by (right; by left). done.
  - apply Forall_fmap, Forall_forall. intros st Hst. by apply Hg.
Qed.

Lemma steps_add_ok hd steps st : turn_ok (Turn hd steps) -> step_ok (turnId hd) st -> List.find (has_step_id (step_id st)) steps = None ->
  turn_ok (Turn hd (sort_steps (steps ++ [st]))).
Proof.
  intros (H1 & H2 & H3 & H4) Hst Hn. cbn [t_steps t_header] in *. split; [done|]. cbn [t_steps].
  assert (sort_steps (steps ++ [st]) ≡ₚ st :: steps) as Hp by (rewrite sort_steps_perm; symmetry; apply Permutation_cons_append). split; [|split].
  - rewrite Hp. apply NoDup_cons. split; [|done]. intros (x & E & Hx)%list_elem_of_fmap. rewrite find_none, Forall_forall in Hn. specialize (Hn x Hx).
    unfold has_step_id in Hn. rewrite bool_decide_eq_true_2 in Hn; done.
  - apply sort_steps_sorted.
  - change (Forall (step_ok (turnId hd)) (sort_steps (steps ++ [st]))). rewrite Hp. by constructor.
Qed.

Lemma turn_parts t : t = Turn (t_header t) (t_steps t).
Proof. by destruct t. Qed.

Lemma step_upsert_ok s id h : items_ok (items s) -> s_ordinal h = expected_step_ordinal id (stepId h) -> items_ok (items (r_state (applyStepUpsert Number same s id h))).
Proof.
  intros Hs Hh. unfold applyStepUpsert. cbv zeta. pose proof (default_turn_id s id _ eq_refl) as Hi. pose proof (default_turn_ok s id Hs) as Ht.
  set (t := default _ _) in *. rewrite (turn_parts t) in Ht. assert (turnId (t_header t) = id) as Hid by exact Hi.
  destruct (List.find _ _) as [st|] eqn:Ef; [destruct (stepEquals _ _ _); [done|]|]; cbn [r_state changed]; apply put_turn_ok; try done.
  - apply steps_map_ok; [done|]. intros x Hx. destruct (has_step_id (stepId h) x) eqn:Ex.
    + apply bool_decide_eq_true in Ex. split; [done|]. split; [by rewrite Hid|]. destruct Ht as (_ & _ & _ & H4). rewrite Forall_forall in H4. by destruct (H4 x Hx).
    + split; [done|]. destruct Ht as (_ & _ & _ & H4). rewrite Forall_forall in H4. by apply H4.
  - apply steps_add_ok; [done| |done]. split; [by rewrite Hid|constructor].
Qed.

Lemma frames_replaced id f fs : frameId f = id -> NoDup (frameId <$> fs) -> NoDup (frameId <$> replace_where (has_frame_id id) f fs).
Proof.
  intros Hf H. replace (frameId <$> replace_where (has_frame_id id) f fs) with (frameId <$> fs); [done|]. unfold replace_where. rewrite <- list_fmap_compose. apply list_fmap_ext.
  intros i x _. cbn. unfold has_frame_id. case_bool_decide; congruence.
Qed.

Lemma replaced_step_ok hd steps id st fs : turn_ok (Turn hd steps) -> List.find (has_step_id id) steps = Some st -> NoDup (frameId <$> fs) ->
  turn_ok (Turn hd (replace_where (has_step_id id) (Step (s_header st) fs) steps)).
Proof.
  intros Ht Hf Hn. apply find_some in Hf as [Hin Hid]. apply bool_decide_eq_true in Hid. pose proof Ht as (H1 & H2 & H3 & H4). cbn [t_steps t_header] in *. rewrite Forall_forall in H4.
  apply steps_map_ok; [done|]. intros x Hx. unfold has_step_id. case_bool_decide as Ex; [|split; [done|by apply H4]].
  cbn [step_id s_header]. split; [unfold step_id in *; cbn; congruence|]. split; [|done]. apply list_elem_of_In in Hin. by destruct (H4 st Hin).
Qed.

Lemma frame_upsert_ok s id stepId f : items_ok (items s) -> items_ok (items (r_state (applyFrameUpsert Number same s id stepId f))).
Proof.
  intros Hs. unfold applyFrameUpsert. cbv zeta. pose proof (default_turn_id s id _ eq_refl) as Hi. pose proof (default_turn_ok s id Hs) as Ht.
  set (t := default (skeletonTurn _ _) _) in *. rewrite (turn_parts t) in Ht. assert (turnId (t_header t) = id) as Hid by exact Hi.
  pose proof (default_step_id id stepId (t_steps t)) as Hsi. assert (step_ok id (default (skeletonStep Number stepId id) (List.find (has_step_id stepId) (t_steps t)))) as Hso.
  { destruct (List.find _ _) as [st|] eqn:E; [|split; [done|constructor]]. destruct Ht as (_ & _ & _ & H4). cbn [t_steps] in H4. rewrite Forall_forall in H4. rewrite <- Hid.
    apply H4. apply find_some in E as [E _]. by apply list_elem_of_In. }
  set (st := default (skeletonStep _ _ _) _) in *. destruct Hso as [Ho Hn].
  assert (forall fs, NoDup (frameId <$> fs) -> items_ok (items (put_turn s (getTurn s id) id (Turn (t_header t)
    match List.find (has_step_id stepId) (t_steps t) with Some _ => replace_where (has_step_id stepId) (Step (s_header st) fs) (t_steps t) | None => sort_steps (t_steps t ++ [Step (s_header st) fs]) end)))) as Hput.
  { intros fs Hfs. apply put_turn_ok; [done|done|done|]. destruct (List.find _ (t_steps t)) as [st0|] eqn:E.
    - apply (replaced_step_ok _ _ _ st0); [done|done|done].
    - apply steps_add_ok; [done| |]; [split; [by rewrite Hid|done]|]. by rewrite <- E. }
  destruct (List.find (has_frame_id (frameId f)) (s_frames st)) as [g|] eqn:Ef; [destruct (frameEquals _ _ _); [done|]|]; cbn [r_state changed]; apply Hput.
  - by apply frames_replaced.
  - rewrite fmap_app. apply NoDup_app. split; [done|]. split; [|by apply NoDup_singleton]. intros x Hx ->%list_elem_of_singleton.
    apply list_elem_of_fmap in Hx as (y & E & Hy). rewrite find_none, Forall_forall in Ef. specialize (Ef y Hy). unfold has_frame_id in Ef. by rewrite bool_decide_eq_true_2 in Ef.
Qed.

Lemma append_ok s target offset chunk : items_ok (items s) -> items_ok (items (r_state (applyAppend s target offset chunk))).
Proof.
  intros Hs. destruct target as [turnId stepId frameId|id]; cbn [applyAppend].
  - destruct (find_frame s turnId stepId frameId) as [[[t st] f]|] eqn:E; [|done]. destruct (frame_text f) as [x|]; [|done]. destruct (appendAtOffset _ _ _) as [| |y]; [done|done|].
    apply found_frame in E as (Et & Es & Ef). pose proof (get_turn_ok _ _ _ Hs Et) as Ht. rewrite (turn_parts t) in Ht. cbn [r_state changed items with_items].
    apply replace_turn_ok; [done|]. intros _ _ _. split; [exact (get_turn_id s _ _ Et)|]. apply (replaced_step_ok _ _ _ st); [done|done|].
    apply find_some in Ef as [_ Ef]. apply bool_decide_eq_true in Ef. apply frames_replaced; [done|]. destruct Ht as (_ & _ & _ & H4). cbn [t_steps] in H4. rewrite Forall_forall in H4.
    apply find_some in Es as [Es _]. apply list_elem_of_In in Es. by destruct (H4 st Es).
  - unfold applyTaskAppend. by destruct (appendAtOffset _ _ _).
Qed.

Lemma item_upsert_ok s e before : turn_of e = None -> items_ok (items s) -> items_ok (items (r_state (applyItemUpsert same_item s e before))).
Proof.
  intros He Hs. unfold applyItemUpsert. cbv zeta. destruct (existsb (fun x => bool_decide _) (items s)); [destruct (existsb (fun x => _ && _) (items s)); [|done]|].
  - cbn [r_state changed items with_items]. eapply items_ok_filter; [exact Hs|]. by apply turns_replaced.
  - destruct before; cbn [r_state changed items with_items]; unfold items_ok; [by rewrite turns_insert_other|].
    assert (turns (items s ++ [e]) = turns (items s)) as ->; [|done]. unfold turns. rewrite omap_app. cbn. by rewrite He, app_nil_r.
Qed.

Lemma items_remove_ok s ids : items_ok (items s) -> items_ok (items (r_state (applyItemsRemove s ids))).
Proof.
  intros Hs. unfold applyItemsRemove. cbv zeta. destruct (_ =? _); [done|]. cbn [r_state changed items with_interactions with_items].
  eapply items_ok_filter; [exact Hs|]. apply turns_filter.
Qed.

Lemma turn_upsert_ok s h : items_ok (items s) -> t_ordinal h = turnOrdinal Number (turnId h) -> items_ok (items (r_state (applyTurnUpsert same s h))).
Proof.
  intros Hs Hh. unfold applyTurnUpsert. destruct (getTurn s (turnId h)) as [t|] eqn:E.
  - destruct (turnEquals _ _ _); [done|]. cbn [r_state changed items with_items]. apply replace_turn_ok; [done|]. intros u Hu Hi. split; [done|]. split; [done|].
    destruct Hs as (_ & _ & H3). rewrite Forall_forall in H3. destruct (H3 u Hu) as (_ & Hok). by rewrite Hi in Hok.
  - cbn [r_state changed items with_items]. apply insert_turn_ok; [done| |by apply get_turn_none]. split; [done|]. split; [constructor|]. split; constructor.
Qed.

Lemma entity_set {A} (key : A -> jsstr) m x : entity_ok key m -> entity_ok key (jset m (key x) x).
Proof.
  intros [H1 H2]. split; [by apply jwf_set|]. apply Forall_forall. intros [k y] Hin. apply jset_in in Hin as [[-> ->]|[_ Hin]]; [done|by rewrite Forall_forall in H2; apply (H2 (k, y))|done].
Qed.

Lemma entity_upsert {A} (key : A -> jsstr) eqb m m' x : entity_ok key m -> upsert eqb m (key x) x = Some m' -> entity_ok key m'.
Proof. intros H E. destruct (upsert_twice _ _ _ _ _ E) as [-> _]. by apply entity_set. Qed.

Lemma entity_del {A} (key : A -> jsstr) m k : entity_ok key m -> entity_ok key (jdel m k).
Proof. intros [H1 H2]. split; [by apply jwf_del|]. apply Forall_forall. intros [k' y] Hin. apply jdel_in in Hin as [_ Hin]; [|done]. by rewrite Forall_forall in H2; apply (H2 (k', y)). Qed.

Lemma entity_dels {A} (key : A -> jsstr) ks : forall m, entity_ok key m -> entity_ok key (fold_left jdel ks m).
Proof. induction ks as [|k ks IH]; intros m H; [done|]. apply IH. by apply entity_del. Qed.

Lemma entity_map_of {A} (key : A -> jsstr) l : entity_ok key (map_of key l).
Proof.
  unfold map_of. assert (entity_ok key (@nil (jsstr * A))) as H by (split; constructor). revert H. generalize (@nil (jsstr * A)).
  induction l as [|x l IH]; intros m H; [done|]. cbn [fold_left]. apply IH. by apply entity_set.
Qed.

Lemma set_add_elem l x y : y ∈ set_add l x <-> y ∈ l \/ y = x.
Proof.
  unfold set_add. case_bool_decide as H; [|rewrite elem_of_app, list_elem_of_singleton; tauto]. split; [by left|]. by intros [?| ->].
Qed.

Lemma set_add_nodup l x : NoDup l -> NoDup (set_add l x).
Proof.
  intros H. unfold set_add. case_bool_decide as Hx; [done|]. apply NoDup_app. split; [done|]. split; [|by apply NoDup_singleton].
  by intros y Hy ->%list_elem_of_singleton.
Qed.

Lemma set_remove_elem l x y : y ∈ set_remove l x <-> y ∈ l /\ y <> x.
Proof. unfold set_remove. rewrite !list_elem_of_In, filter_In. case_bool_decide; cbn; intuition done. Qed.

Lemma set_remove_nodup l x : NoDup l -> NoDup (set_remove l x).
Proof. intros H. unfold set_remove. rewrite <- (list_fmap_id (List.filter _ _)). apply nodup_map_filter. by rewrite list_fmap_id. Qed.

Lemma pending_upsert m pending i : pending_ok m pending ->
  pending_ok (jset m (interactionId i) i) (if is_pending i then set_add pending (interactionId i) else set_remove pending (interactionId i)).
Proof.
  intros [H1 H2]. unfold is_pending. split; [case_bool_decide; [by apply set_add_nodup|by apply set_remove_nodup]|]. intros id. rewrite jget_set.
  destruct (decide (interactionId i = id)) as [<-|Hne].
  - case_bool_decide as Hp; [rewrite set_add_elem|rewrite set_remove_elem]; (split; [|intros (j & [= <-] & Hj)]); eauto; try done. by intros [_ []].
  - case_bool_decide as Hp; [rewrite set_add_elem|rewrite set_remove_elem]; rewrite H2; split; try (intros [?|?]; [done|by destruct Hne]); try tauto; try by intros [].
    all: intros H; split; [done|]; by intros ->.
Qed.

Lemma pending_del m pending k : jwf m -> pending_ok m pending -> pending_ok (jdel m k) (set_remove pending k).
Proof.
  intros Hw [H1 H2]. split; [by apply set_remove_nodup|]. intros id. rewrite set_remove_elem, H2, jget_del by done.
  destruct (decide (k = id)) as [->|Hne]; [by split; [intros [_ []]|intros (i & ? & _)]|]. split; [by intros [? _]|]. intros H. split; [done|congruence].
Qed.

Lemma pending_dels ks : forall m pending, jwf m -> pending_ok m pending -> pending_ok (fold_left jdel ks m) (fold_left set_remove ks pending).
Proof. induction ks as [|k ks IH]; intros m pending Hw H; [done|]. apply IH; [by apply jwf_del|by apply pending_del]. Qed.

Lemma set_remove_absent l x : x ∉ l -> set_remove l x = l.
Proof.
  induction l as [|y l IH]; [done|]. intros [Hne H]%not_elem_of_cons. unfold set_remove. cbn. rewrite bool_decide_eq_false_2 by congruence. cbn. f_equal. by apply IH.
Qed.

Lemma pending_reset l : NoDup (interactionId <$> l) ->
  pending_ok (map_of interactionId l) (fold_left (fun p i => if is_pending i then set_add p (interactionId i) else p) l []).
Proof.
  unfold map_of. assert (forall m p, NoDup (interactionId <$> l) -> (forall i, i ∈ l -> jget m (interactionId i) = None) -> pending_ok m p ->
    pending_ok (fold_left (fun m i => jset m (interactionId i) i) l m) (fold_left (fun p i => if is_pending i then set_add p (interactionId i) else p) l p)) as H.
  { induction l as [|i l IH]; intros m p Hn Hf Hp; [done|]. cbn [fold_left]. rewrite fmap_cons in Hn. apply NoDup_cons in Hn as [Hi Hn]. apply IH; [done|..].
    - intros j Hj. rewrite jget_set. destruct (decide _) as [E|]; [|by apply Hf; right]. destruct Hi. rewrite E. by apply list_elem_of_fmap_2.
    - pose proof (pending_upsert m p i Hp) as Hu. destruct (is_pending i); [done|].
      replace (set_remove p (interactionId i)) with p in Hu; [done|]. symmetry. apply set_remove_absent.
      intros (j & Hj & _)%Hp. by rewrite (Hf i ltac:(by left)) in Hj. }
  intros Hn. apply H; [done|done|]. split; [constructor|]. intros id. split; [by intros ?%elem_of_nil|by intros (i & ? & _)].
Qed.

Lemma with_items_ok s l : items_ok l -> state_ok s -> state_ok (with_items s l).
Proof. intros Hl Hs. exact (conj Hl (proj2 Hs)). Qed.

Lemma operation_keeps_ok s op : op_ok op -> state_ok s -> state_ok (r_state (apply_op s op)).
Proof.
  intros Hop Hs. pose proof Hs as (Hi & Ht & Hn & Ha & Hd & Hp & Hw).
  destruct op as [aid sn|h|id h|id sid f|tg o c|m b|r b|t|i|a|d|p|m|ids]; cbn [applyOperation op_ok] in *.
  - destruct Hop as [H1 H2]. do 6 (split; [done || apply entity_map_of|]). by apply pending_reset.
  - apply (turn_upsert_ok s h Hi) in Hop. unfold applyTurnUpsert in *. destruct (getTurn s _); [destruct (turnEquals _ _ _); [done|]|]; by apply with_items_ok.
  - apply (step_upsert_ok s id h Hi) in Hop. unfold applyStepUpsert in *. cbv zeta in *. destruct (List.find _ _); [destruct (stepEquals _ _ _); [done|]|]; by apply with_items_ok.
  - pose proof (frame_upsert_ok s id sid f Hi) as H. unfold applyFrameUpsert in *. cbv zeta in *. destruct (List.find (has_frame_id _) _); [destruct (frameEquals _ _ _); [done|]|]; by apply with_items_ok.
  - pose proof (append_ok s tg o c Hi) as H. destruct tg as [tid sid fid|id]; cbn [applyAppend] in *.
    + destruct (find_frame _ _ _ _) as [[[? ?] ?]|]; [|done]. destruct (frame_text _); [|done]. destruct (appendAtOffset _ _ _); [done|done|]. by apply with_items_ok.
    + unfold applyTaskAppend in *. destruct (appendAtOffset _ _ _); [done|done|]. cbn [r_state changed].
      refine (conj Hi (conj _ (proj2 (proj2 Hs)))). cbn [tasks with_tasks]. set (next := match jget (tasks s) id with Some _ => _ | None => _ end).
      assert (taskId next = id) as Hid; [|pose proof (entity_set taskId _ next Ht) as He; by rewrite Hid in He]. subst next. destruct (jget (tasks s) id) as [t|] eqn:E; [|done].
      cbn [taskId]. apply jget_Some_in in E. destruct Ht as [_ Ht]. rewrite Forall_forall in Ht. exact (Ht _ E).
  - pose proof (item_upsert_ok s (MarkerItem m) b eq_refl Hi) as H. unfold applyItemUpsert in *. cbv zeta in *. destruct (existsb _ _); [destruct (existsb _ _); [|done]|destruct b]; by apply with_items_ok.
  - pose proof (item_upsert_ok s (TaskRefItem r) b eq_refl Hi) as H. unfold applyItemUpsert in *. cbv zeta in *. destruct (existsb _ _); [destruct (existsb _ _); [|done]|destruct b]; by apply with_items_ok.
  - unfold applyTaskUpsert. destruct (upsert _ _ _ _) as [m|] eqn:E; [|done]. apply entity_upsert in E; [|done]. exact (conj Hi (conj E (proj2 (proj2 Hs)))).
  - unfold applyInteractionUpsert. destruct (upsert _ _ _ _) as [m|] eqn:E; [|done]. destruct (upsert_twice _ _ _ _ _ E) as [-> _].
    refine (conj Hi (conj Ht (conj _ (conj Ha (conj Hd (conj Hp _)))))); [by apply entity_set|by apply pending_upsert].
  - unfold applyAttachmentUpsert. destruct (upsert _ _ _ _) as [m|] eqn:E; [|done]. apply entity_upsert in E; [|done]. exact (conj Hi (conj Ht (conj Hn (conj E (conj Hd (conj Hp Hw)))))).
  - unfold applyTodoUpsert. destruct (upsert _ _ _ _) as [m|] eqn:E; [|done]. apply entity_upsert in E; [|done]. exact (conj Hi (conj Ht (conj Hn (conj Ha (conj E (conj Hp Hw)))))).
  - unfold applyPromptUpsert. destruct (upsert _ _ _ _) as [m|] eqn:E; [|done]. apply entity_upsert in E; [|done]. exact (conj Hi (conj Ht (conj Hn (conj Ha (conj Hd (conj E Hw)))))).
  - unfold applyMetaMerge. by destruct (same_meta _ _ _).
  - pose proof (items_remove_ok s ids Hi) as H. unfold applyItemsRemove in *. cbv zeta in *. destruct (_ =? _); [done|].
    refine (conj H (conj Ht (conj _ (conj Ha (conj Hd (conj Hp _)))))); [by apply entity_dels|]. apply pending_dels; [apply Hn|done].
Qed.

(** * The store over many operations *)

(** An operation changes the state and leaves no gap, or leaves the state. *)
Lemma apply_shape s op : let r := apply_op s op in (r_changed r = true /\ r_gap r = None) \/ (r_state r = s /\ r_changed r = false).
Proof.
  destruct op as [aid sn|h|id h|id sid f|tg o c|m b|r b|t|i|a|d|p|m|ids]; cbn [applyOperation]; [by left|..];
    unfold applyTurnUpsert, applyStepUpsert, applyFrameUpsert, applyAppend, applyTaskAppend, applyItemUpsert, applyTaskUpsert, applyInteractionUpsert,
      applyAttachmentUpsert, applyTodoUpsert, applyPromptUpsert, applyMetaMerge, applyItemsRemove; cbv zeta;
    repeat case_match; first [by left|by right].
Qed.

(** * The store over many operations *)

Definition run (s : agent_state) (ops : list operation) : agent_state := fold_left (fun s op => r_state (apply_op s op)) ops s.

Lemma apply_run s ops : (apply Number same same_item s ops).1 = run s ops.
Proof.
  unfold apply. generalize (AppliedOps [] None). revert s. induction ops as [|op ops IH]; intros s acc; [done|]. cbn [apply_loop]. cbv zeta. unfold run. cbn [fold_left]. fold (run (r_state (apply_op s op)) ops).
  destruct (apply_shape s op) as [[-> ->]|[-> ->]]; [apply IH|]. destruct (r_gap _) as [[e g]|]; apply IH.
Qed.

Lemma run_state_ok ops : forall s, Forall op_ok ops -> state_ok s -> state_ok (run s ops).
Proof. induction ops as [|op ops IH]; intros s Hops Hs; [done|]. inversion Hops; subst. apply IH; [done|]. by apply operation_keeps_ok. Qed.

Lemma empty_ok : state_ok EMPTY_AGENT_STATE.
Proof. split; [by split; [constructor|split; constructor]|]. do 5 (split; [split; constructor|]). split; [constructor|]. intros id. split; [by intros ?%elem_of_nil|by intros (i & ? & _)]. Qed.


(** * Streams *)

(** The text an append goes to. *)
Definition text_of (s : agent_state) (target : append_target) : option jsstr :=
  match target with
  | AppendFrame turnId stepId frameId => find_frame s turnId stepId frameId ≫= fun x => frame_text x.2
  | AppendTask id => Some (from_option outputTail [] (jget (tasks s) id))
  end.

(** A chunk at its offset in the whole text. *)
Definition slice_of (whole : jsstr) (oc : Z * jsstr) : Prop := 0 <= oc.1 /\ oc.2 `prefix_of` drop (Z.to_nat oc.1) whole.

(** How much of the text is there after the chunks: a chunk counts if it leaves no gap. *)
Fixpoint covered (n : Z) (cs : list (Z * jsstr)) : Z :=
  match cs with [] => n | (o, c) :: cs' => covered (if o <=? n then Z.max n (o + blen c) else n) cs' end.

Lemma append_slice whole n o c : 0 <= n <= blen whole -> slice_of whole (o, c) ->
  match appendAtOffset (take (Z.to_nat n) whole) o c with
  | Gap e g => n < o /\ e = n /\ g = o
  | NoChange => o <= n /\ o + blen c <= n
  | Appended x => o <= n /\ n < o + blen c /\ x = take (Z.to_nat (o + blen c)) whole
  end.
Proof.
  intros Hn [Ho Hc]. cbn [fst snd] in *. assert (blen (take (Z.to_nat n) whole) = n) as Hl by (unfold blen in *; rewrite length_take; lia).
  assert (c = take (length c) (drop (Z.to_nat o) whole)) as Ec by (destruct Hc as [k ->]; by rewrite take_app_length).
  unfold appendAtOffset. rewrite Hl. destruct (Z.ltb_spec n o); [done|]. unfold startsWith.
  assert (drop (Z.to_nat o) (take (Z.to_nat n) whole) = take (Z.to_nat (n - o)) (drop (Z.to_nat o) whole)) as Hd.
  { rewrite take_drop_commute. do 2 f_equal. lia. }
  rewrite Hd. destruct (bool_decide_reflect (c `prefix_of` take (Z.to_nat (n - o)) (drop (Z.to_nat o) whole))) as [Hp|Hp].
  - split; [lia|]. apply prefix_length in Hp. rewrite length_take in Hp. unfold blen. lia.
  - assert (n - o < blen c) as Hlt.
    { apply Z.nle_gt. intros Hle. apply Hp. rewrite Ec. exists (take (Z.to_nat (n - o) - length c) (drop (length c) (drop (Z.to_nat o) whole))).
      rewrite take_take_drop. f_equal. unfold blen in Hle. lia. }
    cbv zeta. assert (slice_from (take (Z.to_nat n) whole) o = slice_to c (n - o)) as Es.
    { unfold slice_from, slice_to, slice_at. rewrite !(proj2 (Z.ltb_ge _ 0)) by lia. rewrite Hd. rewrite Ec, take_take. f_equal. unfold blen in *. lia. }
    rewrite Es, bool_decide_eq_true_2 by done. cbn [negb].
    assert (bool_decide ((if 0 <? n - o then slice_from c (n - o) else c) = []) = false) as ->.
    { apply bool_decide_eq_false. intros E%(f_equal length). destruct (Z.ltb_spec 0 (n - o)); unfold blen in *; [|cbn in E; lia].
      unfold slice_from, slice_at in E. rewrite (proj2 (Z.ltb_ge _ 0)) in E by lia. rewrite length_drop in E. cbn in E. lia. }
    split; [lia|]. split; [lia|]. assert ((if o =? n then take (Z.to_nat n) whole else slice_to (take (Z.to_nat n) whole) o) = take (Z.to_nat o) whole) as ->.
    { destruct (Z.eqb_spec o n) as [->|]; [done|]. unfold slice_to, slice_at. rewrite (proj2 (Z.ltb_ge _ 0)) by lia. rewrite take_take. f_equal. lia. }
    rewrite Ec at 1. rewrite take_take_drop. f_equal. unfold blen. lia.
Qed.

Lemma text_after s target o c x : text_of s target = Some x ->
  text_of (r_state (applyAppend s target o c)) target = Some (match appendAtOffset x o c with Appended y => y | _ => x end).
Proof.
  intros H. destruct target as [tid sid fid|id]; cbn [applyAppend text_of] in *.
  - destruct (find_frame s tid sid fid) as [[[t st] f]|] eqn:E; [|done]. cbn in H. rewrite H. destruct (appendAtOffset x o c) as [| |y]; cbn [r_state unchanged changed]; [by rewrite E..|].
    rewrite (found_updated _ _ _ _ _ _ _ y E). cbn. by apply (set_text_text _ _ x).
  - injection H as H. unfold applyTaskAppend. rewrite H. destruct (appendAtOffset x o c) as [| |y]; cbn [r_state unchanged changed]; [by rewrite H..|].
    cbn [tasks with_tasks]. rewrite jget_set_eq. by destruct (jget (tasks s) id).
Qed.

(** C33. A stream converges. Chunks of a text, each with its offset, may be lost,
    duplicated, overlap and arrive in any order. In the order of delivery, a chunk that
    starts within the text held extends it to its own end, and one that starts beyond it
    is dropped as a gap: after every sequence of chunks the text held is the beginning of
    the whole text of exactly the length so reached, never less than before, so nothing is
    repeated, garbled or lost again, and the whole is there as soon as that length is
    reached (a chunk dropped as a gap has to be sent again). *)
Theorem stream_converges s target whole n cs : Forall (slice_of whole) cs -> 0 <= n <= blen whole -> text_of s target = Some (take (Z.to_nat n) whole) ->
  let s' := (apply Number same same_item s ((fun oc => Append target oc.1 oc.2) <$> cs)).1 in
  n <= covered n cs <= blen whole /\ text_of s' target = Some (take (Z.to_nat (covered n cs)) whole).
Proof.
  cbv zeta. rewrite apply_run. revert s n. induction cs as [|[o c] cs IH]; intros s n Hcs Hn Ht; [split; [cbn; lia|exact Ht]|]. inversion Hcs as [|? ? Hc Hcs']; subst.
  pose proof (append_slice whole n o c Hn Hc) as Ha. pose proof (text_after s target o c _ Ht) as Hx.
  cbn [fmap list_fmap fst snd covered]. unfold run. cbn [fold_left]. fold (run (r_state (apply_op s (Append target o c))) ((fun oc => Append target oc.1 oc.2) <$> cs)).
  set (m := if o <=? n then _ else n). assert (0 <= m <= blen whole /\ n <= m /\ text_of (r_state (applyAppend s target o c)) target = Some (take (Z.to_nat m) whole)) as (Hm & Hnm & Hm').
  { destruct Hc as [Ho Hp]. cbn [fst snd] in *. apply prefix_length in Hp. rewrite length_drop in Hp. subst m. destruct (appendAtOffset _ _ _) as [e g| |y].
    - rewrite (proj2 (Z.leb_gt _ _)) by lia. split; [lia|split; [lia|done]].
    - rewrite (proj2 (Z.leb_le _ _)) by lia. rewrite Z.max_l by lia. split; [lia|split; [lia|done]].
    - destruct Ha as (H1 & H2 & ->). rewrite (proj2 (Z.leb_le _ _)) by lia. rewrite Z.max_r by lia. unfold blen in *. split; [|split; [lia|done]].
      assert (c <> []) by (intros ->; cbn in H2; lia). assert (0 < length c)%nat by (destruct c; [done|cbn; lia]). lia. }
  destruct (IH (r_state (applyAppend s target o c)) m Hcs' Hm Hm') as [H1 H2]. split; [lia|exact H2].
Qed.
End laws.

(** * Runs in the concrete *)

(** Decimal numerals; every parsed value is a fresh object. *)
Definition demo_Number (s : jsstr) : option Z := if all_digits s then Some (digits_value s) else None.
Definition fresh {A} (_ _ : A) : bool := false.
Abbreviation demo_run := (run demo_Number fresh fresh).

Definition demo_turn (id : string) (n : Z) (st : turn_state) : turn_header :=
  TurnHeader (js id) n st (TurnOrigin FromUser None None) (Some (js "hi")) None None None None None None.
Definition demo_step (id turn : string) (n : Z) : step_header := StepHeader (js id) (js turn) n StepRunning None None None None None None None None.
Definition demo_call (id : string) : frame_body :=
  ToolCallFrame (ToolFrame (js id) (js "Bash") None ToolRunning None None None None None None None None None None).
Definition demo_ask (id call : string) : interaction := Interaction (js id) Approval (Some (js call)) Pending None None.

Definition demo_text : append_target := AppendFrame (js "t0") (js "t0.1") (js "t0.1.f1").

Definition demo_ops : list operation :=
  [TurnUpsert (demo_turn "t0" 0 TurnRunning);
   StepUpsert (js "t0") (demo_step "t0.1" "t0" 1);
   FrameUpsert (js "t0") (js "t0.1") (Frame (js "t0.1.f1") (TextFrame AssistantText (js "He") None None));
   FrameUpsert (js "t0") (js "t0.1") (Frame (js "c1") (demo_call "c1"));
   InteractionUpsert (demo_ask "i1" "c1");
   MarkerUpsert (Marker (js "m1") (js "goal") None None) None;
   TurnUpsert (demo_turn "t1" 1 TurnRunning)].

Lemma demo_ops_ok : Forall (op_ok demo_Number) demo_ops.
Proof. by repeat constructor. Qed.

Definition demo_state : agent_state := demo_run EMPTY_AGENT_STATE demo_ops.

Lemma demo_state_ok : state_ok demo_Number demo_state.
Proof. apply run_state_ok; [apply demo_ops_ok|apply empty_ok]. Qed.

Lemma operation_idempotent_witness : let op := Append demo_text 2 (js "llo") in
  offset_ok op /\ (let s' := r_state (applyOperation demo_Number fresh fresh demo_state op) in
    r_state (applyOperation demo_Number fresh fresh s' op) = s') /\
  text_of (r_state (applyOperation demo_Number fresh fresh demo_state op)) demo_text = Some (js "Hello").
Proof. split; [done|]. split; [|by vm_compute]. apply (operation_idempotent demo_Number fresh fresh demo_state). done. Defined.


(** A late, a lost-then-repeated and an overlapping chunk of "Hello you". *)
Definition demo_chunks : list (Z * jsstr) := [(5, js " you"); (2, js "ll"); (2, js "ll"); (3, js "lo y"); (7, js "ou")].

Lemma stream_converges_witness :
  let s' := (apply demo_Number fresh fresh demo_state ((fun oc => Append demo_text oc.1 oc.2) <$> demo_chunks)).1 in
  (2 <= covered 2 demo_chunks <= blen (js "Hello you") /\ text_of s' demo_text = Some (take (Z.to_nat (covered 2 demo_chunks)) (js "Hello you"))) /\
  text_of s' demo_text = Some (js "Hello you").
Proof.
  split; [|by vm_compute]. apply (stream_converges demo_Number fresh fresh demo_state demo_text (js "Hello you") 2 demo_chunks).
  - repeat (apply Forall_cons; split; [split; [cbn; lia|eexists; vm_compute; reflexivity]|]). by apply Forall_nil.
  - by vm_compute.
  - by vm_compute.
Defined.

(** A chunk that starts beyond the text held is dropped, also when the chunk that closes
    the gap comes later. *)
Example early_chunk_dropped : let chunks := [(5, js " you"); (2, js "llo")] in
  let s' := (apply demo_Number fresh fresh demo_state ((fun oc => Append demo_text oc.1 oc.2) <$> chunks)).1 in
  covered 2 chunks = 5 /\ text_of s' demo_text = Some (js "Hello").
Proof. by vm_compute. Qed.

(** A turn whose ordinal changes stays where it is, and a reset is not looked at. *)
Example moved_turn_unsorted :
  (fun t => t_ordinal (t_header t)) <$> turns (items (demo_run demo_state [TurnUpsert (demo_turn "t0" 5 TurnRunning)])) = [5; 1] /\
  let t := TurnItem (Turn (demo_turn "t0" 0 TurnRunning) []) in
  length (turns (items (demo_run demo_state [Reset (js "main") (Snapshot [t; t] [] [] [] [] [] (Meta None None None None) None)]))) = 2%nat.
Proof. by vm_compute. Qed.

(** A batch delivered again after a reconnection is not always absorbed: an interaction
    that died with its turn comes back, because the turn it is anchored in is gone. *)
Example replay_revives_interaction : let ops := [InteractionUpsert (demo_ask "i2" "c1"); ItemsRemove [js "t0"]] in
  pendingInteractions (demo_run demo_state ops) = [] /\ pendingInteractions (demo_run (demo_run demo_state ops) ops) = [js "i2"].
Proof. by vm_compute. Qed.

(** An upsert that differs only in a field the comparison leaves out is dropped. *)
Example notice_source_dropped : let notice src := FrameUpsert (js "t0") (js "t0.1") (Frame (js "n1") (NoticeFrame NoticeInfo src (js "m") None)) in
  let s := demo_run demo_state [notice None] in demo_run s [notice (Some (js "mcp"))] = s.
Proof. by vm_compute. Qed.

Example origin_task_dropped : let upsert k := TurnUpsert (TurnHeader (js "t1") 1 TurnRunning (TurnOrigin FromCron k None) (Some (js "hi")) None None None None None None) in
  let s := demo_run demo_state [upsert None] in demo_run s [upsert (Some (js "job1"))] = s.
Proof. by vm_compute. Qed.
