(* ===== verification/TranscriptViews.v ===== *)
(** What leaves a transcript: snapshots, windows and pages, and the stream a coarse
    subscriber is sent. *)

From S2P Require Import Prelude JsMap Json JsonText JsString Transcript TranscriptLaws.

Section views.
Context (Number : jsstr -> option Z) (same : json -> json -> bool) (same_item : item -> item -> bool).

(** * Snapshots *)

Lemma jset_fresh {A} (m : list (jsstr * A)) k x : k ∉ jkeys m -> jset m k x = m ++ [(k, x)].
Proof.
  induction m as [|[k' y] m IH]; cbn; [done|]. intros [Hne H]%not_elem_of_cons. rewrite decide_False by congruence. by rewrite IH.
Qed.

Lemma map_of_values {A} (key : A -> jsstr) m : entity_ok key m -> map_of key m.*2 = m.
Proof.
  intros [Hw Hk]. unfold map_of. assert (forall acc, jwf (acc ++ m) -> fold_left (fun m x => jset m (key x) x) m.*2 acc = acc ++ m) as H; [|by apply (H [])].
  clear Hw. induction Hk as [|[k x] m Hx Hm IH]; intros acc Hw; cbn [fmap list_fmap fold_left]; [by rewrite app_nil_r|]. cbn in Hx. subst k.
  rewrite jset_fresh.
  - rewrite IH; rewrite <- app_assoc; done.
  - intros Hin. unfold jwf, jkeys in *. rewrite fmap_app in Hw. apply NoDup_app in Hw as (_ & Hd & _). apply (Hd _ Hin). by left.
Qed.

Lemma entity_ids {A} (key : A -> jsstr) m : entity_ok key m -> key <$> m.*2 = jkeys m.
Proof.
  intros [_ Hk]. unfold jkeys. induction Hk as [|[k x] m Hx _ IH]; cbn; [done|]. cbn in Hx. by rewrite Hx, IH.
Qed.

(** A snapshot loses nothing. A store of whatever state that is reset to the snapshot of
    a well-formed store holds the same items, entities, meta state and flag, and the same
    pending interactions. *)
Theorem snapshot_restores s s0 agentId : state_ok Number s ->
  let s' := (apply Number same same_item s0 [Reset agentId (take_snapshot s None)]).1 in
  items s' = items s /\ tasks s' = tasks s /\ interactions s' = interactions s /\ attachments s' = attachments s /\ todos s' = todos s /\ prompts s' = prompts s /\
  a_meta s' = a_meta s /\ pendingInteractions s' ≡ₚ pendingInteractions s /\ hasMoreOlder s' = hasMoreOlder s.
Proof.
  intros (Hi & Ht & Hn & Ha & Hd & Hp & [Hw1 Hw2]). cbn -[map_of]. rewrite !map_of_values by done. do 7 (split; [done|]). split; [|done].
  pose proof (pending_reset Number (interactions s).*2) as Hr. rewrite (entity_ids interactionId), map_of_values in Hr by done. destruct (Hr (proj1 Hn)) as [Hr1 Hr2].
  apply NoDup_Permutation; [done|done|]. intros id. by rewrite Hr2, Hw2.
Qed.

(** * Segments *)

(** A turn with the items that follow it. *)
Definition block : Type := turn * list item.
Definition block_items (b : block) : list item := TurnItem b.1 :: b.2.
Definition block_segment (b : block) : segment := (block_items b, Some (turn_id b.1)).

Definition no_turns (l : list item) : Prop := Forall (fun e => item_is_turn e = false) l.

Definition blocks_of (l head : list item) (bs : list block) : Prop :=
  l = head ++ (bs ≫= block_items) /\ no_turns head /\ Forall (fun b => no_turns b.2) bs.

Lemma split_loop_spec l : forall cur ct, exists rest bs, no_turns rest /\ Forall (fun b => no_turns b.2) bs /\ l = rest ++ (bs ≫= block_items) /\
  split_loop l cur ct = flush_segment (cur ++ rest) ct ++ (block_segment <$> bs).
Proof.
  induction l as [|e l IH]; intros cur ct; cbn [split_loop].
  - exists [], []. rewrite !app_nil_r. split; [constructor|]. by split; [constructor|].
  - destruct e as [t|m|r].
    + destruct (IH [TurnItem t] (Some (turn_id t))) as (rest & bs & H1 & H2 & -> & ->). exists [], ((t, rest) :: bs). rewrite app_nil_r.
      split; [constructor|]. split; [by constructor|]. done.
    + destruct (IH (cur ++ [MarkerItem m]) ct) as (rest & bs & H1 & H2 & -> & ->). exists (MarkerItem m :: rest), bs. rewrite <- app_assoc. split; [by constructor|]. by split.
    + destruct (IH (cur ++ [TaskRefItem r]) ct) as (rest & bs & H1 & H2 & -> & ->). exists (TaskRefItem r :: rest), bs. rewrite <- app_assoc. split; [by constructor|]. by split.
Qed.

Lemma split_segments l : exists head bs, blocks_of l head bs /\ splitSegments l = flush_segment head None ++ (block_segment <$> bs).
Proof. destruct (split_loop_spec l [] None) as (head & bs & H1 & H2 & H3 & H4). by exists head, bs. Qed.

Lemma turns_app l l' : turns (l ++ l') = turns l ++ turns l'.
Proof. apply omap_app. Qed.

Lemma no_turns_turns l : no_turns l -> turns l = [].
Proof. unfold turns. induction 1 as [|e l He _ IH]; cbn; [done|]. by destruct e. Qed.

Lemma turns_blocks bs : Forall (fun b => no_turns b.2) bs -> turns (bs ≫= block_items) = bs.*1.
Proof.
  induction 1 as [|[t r] bs Hr _ IH]; [done|]. cbn [mbind list_bind fmap list_fmap]. rewrite turns_app, IH. cbn [block_items fst snd].
  change (t :: turns r ++ bs.*1 = t :: bs.*1). cbn in Hr. by rewrite (no_turns_turns r Hr).
Qed.

Lemma flatten_blocks bs : flatten (block_segment <$> bs) = bs ≫= block_items.
Proof. unfold flatten. induction bs as [|b bs IH]; cbn; [done|]. by rewrite IH. Qed.

Lemma flatten_flush l : flatten (flush_segment l None) = l.
Proof. destruct l; cbn; [done|]. by rewrite app_nil_r. Qed.

Lemma flatten_app a b : flatten (a ++ b) = flatten a ++ flatten b.
Proof. unfold flatten. apply bind_app. Qed.

(** A page of older turns in terms of blocks. *)
Lemma page_older head bs n : 1 <= n -> no_turns head ->
  page (flush_segment head None ++ (block_segment <$> bs)) n true =
  ((if blen bs <=? n then head else []) ++ (drop (Z.to_nat (blen bs - n)) bs ≫= block_items), (n <? blen bs)).
Proof.
  intros Hn Hh. unfold page. assert ((match flush_segment head None ++ (block_segment <$> bs) with (u, None) :: rest => ([(u, None)], rest) | _ => ([], flush_segment head None ++ (block_segment <$> bs)) end)
    = (flush_segment head None, block_segment <$> bs)) as -> by (destruct head; [by destruct bs|done]).
  assert (slice_from (block_segment <$> bs) (- n) = block_segment <$> drop (Z.to_nat (blen bs - n)) bs) as ->.
  { unfold slice_from, slice_at. rewrite (proj2 (Z.ltb_lt _ _)) by lia. rewrite fmap_drop. f_equal. unfold blen. rewrite length_fmap. lia. }
  assert (forall X (f : block -> X) k, blen (f <$> k) = blen k) as Hm by (intros; unfold blen; by rewrite length_fmap).
  rewrite !Hm. assert (blen (drop (Z.to_nat (blen bs - n)) bs) = Z.min n (blen bs)) as -> by (unfold blen; rewrite length_drop; lia).
  rewrite flatten_app, flatten_blocks. destruct (Z.leb_spec (blen bs) n).
  - rewrite Z.min_r, Z.eqb_refl, flatten_flush, Z.ltb_irrefl by lia. by rewrite (proj2 (Z.ltb_ge n _)) by lia.
  - rewrite Z.min_l by lia. rewrite (proj2 (Z.eqb_neq _ _)), (proj2 (Z.ltb_lt n _)), (proj2 (Z.ltb_lt 0 _)) by lia. done.
Qed.

(** * Windows *)

Lemma window_other skip seen r l : no_turns r -> window_loop skip seen (r ++ l) = (if skip <? seen then r else []) ++ window_loop skip seen l.
Proof.
  induction 1 as [|e r He _ IH]; cbn [app window_loop]; [by destruct (skip <? seen)|]. rewrite He, IH. by destruct (skip <? seen).
Qed.

Lemma window_blocks skip bs : Forall (fun b => no_turns b.2) bs -> forall seen, 0 <= seen ->
  window_loop skip seen (bs ≫= block_items) = drop (Z.to_nat (skip - seen)) bs ≫= block_items.
Proof.
  induction 1 as [|[t r] bs Hr Hbs IH]; intros seen Hs; [cbn; by rewrite drop_nil|]. cbn [mbind list_bind block_items fst snd app window_loop item_is_turn].
  rewrite window_other by done. rewrite IH by lia. destruct (Z.leb_spec (seen + 1) skip).
  - rewrite (proj2 (Z.ltb_ge skip _)) by lia. replace (Z.to_nat (skip - seen)) with (S (Z.to_nat (skip - (seen + 1)))) by lia. done.
  - rewrite (proj2 (Z.ltb_lt skip _)) by lia. replace (Z.to_nat (skip - seen)) with 0%nat by lia. replace (Z.to_nat (skip - (seen + 1))) with 0%nat by lia. done.
Qed.

Lemma turn_count_turns l : turn_count l = blen (turns l).
Proof. unfold turn_count, blen, turns. f_equal. induction l as [|e l IH]; cbn; [done|]. destruct e; cbn; [by rewrite IH|exact IH|exact IH]. Qed.

Lemma blocks_count l head bs : blocks_of l head bs -> blen (turns l) = blen bs.
Proof.
  intros (-> & Hh & Hb). rewrite turns_app, (no_turns_turns head Hh), turns_blocks by done. unfold blen. cbn [app]. by rewrite length_fmap.
Qed.

Lemma newest_page l head bs n : 1 <= n -> blocks_of l head bs -> splitSegments l = flush_segment head None ++ (block_segment <$> bs) ->
  paginateTurns Number l None None n = ((if blen bs <=? n then head else []) ++ (drop (Z.to_nat (blen bs - n)) bs ≫= block_items), (n <? blen bs)).
Proof.
  intros Hn (Hl & Hh & Hb) Hs. unfold paginateTurns. cbv zeta. rewrite Z.max_r by lia. rewrite Hs. rewrite <- page_older by done.
  destruct (flush_segment head None ++ (block_segment <$> bs)) eqn:E; [|done]. unfold page, slice_from. by rewrite drop_nil.
Qed.

(** The window of a reset is the newest page: for any number of turns the snapshot cut
    to it holds exactly the items of the page without a cursor, and says that older turns
    exist exactly when the page does (or when that was known before). *)
Theorem window_is_newest_page s n : 1 <= n ->
  paginateTurns Number (items s) None None n = (sn_items (take_snapshot s (Some n)), n <? turn_count (items s)) /\
  sn_hasMoreOlder (take_snapshot s (Some n)) = Some ((n <? turn_count (items s)) || hasMoreOlder s).
Proof.
  intros Hn. destruct (split_segments (items s)) as (head & bs & Hb & Hs). rewrite (newest_page _ _ _ _ Hn Hb Hs).
  unfold take_snapshot. rewrite turn_count_turns, (blocks_count _ _ _ Hb). destruct Hb as (El & Hh & Hb). destruct (Z.ltb_spec n (blen bs)); cbn [sn_items sn_hasMoreOlder].
  - rewrite (proj2 (Z.leb_gt _ _)) by lia. rewrite El, window_other, window_blocks by (done || lia). rewrite (proj2 (Z.ltb_ge _ 0)), Z.sub_0_r by lia. done.
  - rewrite (proj2 (Z.leb_le _ _)) by lia. replace (Z.to_nat (blen bs - n)) with 0%nat by lia. by rewrite El.
Qed.

(** * Cursors *)

Lemma sorted_split {A} (key : A -> Z) n l : key_sorted key l -> exists l1 l2, l = l1 ++ l2 /\ Forall (fun x => key x < n) l1 /\ Forall (fun x => n <= key x) l2.
Proof.
  rewrite key_sorted_strong. induction 1 as [|x l Hl IH Hx]; [by exists [], []|]. destruct (Z.lt_ge_cases (key x) n).
  - destruct IH as (l1 & l2 & -> & H1 & H2). exists (x :: l1), l2. by split; [|split; [constructor|]].
  - exists [], (x :: l). split; [done|]. split; [constructor|]. constructor; [done|]. eapply Forall_impl; [exact Hx|]. cbn. lia.
Qed.

Lemma filter_all {A} (p : A -> bool) l : Forall (fun x => p x = true) l -> List.filter p l = l.
Proof. induction 1 as [|x l Hx _ IH]; cbn; [done|]. by rewrite Hx, IH. Qed.

Lemma filter_nothing {A} (p : A -> bool) l : Forall (fun x => p x = false) l -> List.filter p l = [].
Proof. induction 1 as [|x l Hx _ IH]; cbn; [done|]. by rewrite Hx, IH. Qed.

Definition cursor (id : jsstr) : Z := turnOrdinal Number id.

(** A well-formed timeline in blocks, cut at an ordinal. *)
Lemma cut_blocks l head bs n : items_ok Number l -> blocks_of l head bs -> exists bs1 bs2, bs = bs1 ++ bs2 /\
  Forall (fun b => cursor (turn_id b.1) < n) bs1 /\ Forall (fun b => n <= cursor (turn_id b.1)) bs2.
Proof.
  intros (_ & Hs & Hok) (El & Hh & Hb). rewrite El, turns_app, (no_turns_turns head Hh), turns_blocks in Hs, Hok by done. cbn [app] in *.
  assert (key_sorted (fun b : block => cursor (turn_id b.1)) bs) as Hk; [|by apply sorted_split].
  clear - Hs Hok. induction bs as [|b bs IH]; [constructor|]. cbn in *. inversion Hs as [|? ? Hs' Hd]; subst. inversion Hok as [|? ? Hb Hok']; subst.
  constructor; [by apply IH|]. destruct bs as [|b' bs]; constructor. cbn in Hd. inversion Hd as [|? ? Hle]; subst. inversion Hok' as [|? ? Hb' _]; subst.
  destruct Hb as [Hb _]. destruct Hb' as [Hb' _]. unfold cursor. by rewrite <- Hb, <- Hb'.
Qed.

Lemma seg_turn_block b : turn_id b.1 <> [] -> seg_turn (block_segment b) = Some (turn_id b.1).
Proof. unfold seg_turn. cbn. by destruct (turn_id b.1). Qed.

Lemma filter_segments p bs q : (forall b, b ∈ bs -> p (block_segment b) = q b) -> List.filter p (block_segment <$> bs) = block_segment <$> List.filter q bs.
Proof.
  induction bs as [|b bs IH]; intros H; cbn; [done|]. rewrite (H b) by (by left). rewrite IH by (intros; apply H; by right). by destruct (q b).
Qed.

(** [l] begins at a segment boundary. *)
Definition at_boundary (l : list item) : Prop := match l with [] => True | e :: _ => item_is_turn e = true end.

Lemma blocks_boundary bs : at_boundary (bs ≫= block_items).
Proof. by destruct bs. Qed.

Lemma blocks_turns bs1 bs2 : Forall (fun b => no_turns b.2) (bs1 ++ bs2) -> turns (bs1 ≫= block_items) = bs1.*1 /\ turns (bs2 ≫= block_items) = bs2.*1.
Proof. intros [H1 H2]%Forall_app. by split; apply turns_blocks. Qed.

Lemma forall_turns (P : turn -> Prop) (bs : list block) : Forall (fun b => P b.1) bs -> Forall P bs.*1.
Proof. intros H. by apply Forall_fmap. Qed.

Lemma older_page l b n head bs1 bs2 : 1 <= n -> blocks_of l head (bs1 ++ bs2) -> splitSegments l = flush_segment head None ++ (block_segment <$> (bs1 ++ bs2)) ->
  Forall (fun t => turn_id t <> []) (bs1 ++ bs2).*1 -> Forall (fun x => cursor (turn_id x.1) < cursor b) bs1 -> Forall (fun x => cursor b <= cursor (turn_id x.1)) bs2 ->
  paginateTurns Number l (Some b) None n = ((if blen bs1 <=? n then head else []) ++ (drop (Z.to_nat (blen bs1 - n)) bs1 ≫= block_items), (n <? blen bs1)).
Proof.
  intros Hn (Hl & Hh & Hb) Hs Hne H1 H2. unfold paginateTurns. cbv zeta. rewrite Z.max_r by lia. rewrite Hs, <- page_older by done.
  set (p := fun sg => match seg_turn sg with Some id => compareTurnIds Number id b <? 0 | None => true end).
  assert (List.filter p (flush_segment head None ++ (block_segment <$> (bs1 ++ bs2))) = flush_segment head None ++ (block_segment <$> bs1)) as Hf.
  { rewrite List.filter_app. f_equal; [by destruct head|]. rewrite (filter_segments p (bs1 ++ bs2) (fun x => cursor (turn_id x.1) <? cursor b)).
    - rewrite List.filter_app, filter_all, filter_nothing, app_nil_r; [done|..]; (eapply Forall_impl; [eassumption|]); intros x Hx; cbv beta in *; [by apply Z.ltb_ge|by apply Z.ltb_lt].
    - intros x Hx. rewrite Forall_fmap, Forall_forall in Hne. unfold p. rewrite seg_turn_block by (by apply Hne). unfold compareTurnIds, cursor. destruct (Z.ltb_spec (turnOrdinal Number (turn_id x.1)) (turnOrdinal Number b)); [apply Z.ltb_lt|apply Z.ltb_ge]; lia. }
  destruct (flush_segment head None ++ (block_segment <$> (bs1 ++ bs2))) eqn:E; [|by rewrite Hf].
  apply app_nil in E as [-> E]. destruct bs1; [|done]. change (([], false) = page [] n true). unfold page, slice_from. by rewrite drop_nil.
Qed.

Lemma newer_page l a n head bs1 bs2 : 1 <= n -> blocks_of l head (bs1 ++ bs2) -> splitSegments l = flush_segment head None ++ (block_segment <$> (bs1 ++ bs2)) ->
  Forall (fun t => turn_id t <> []) (bs1 ++ bs2).*1 -> Forall (fun x => cursor (turn_id x.1) < cursor a + 1) bs1 -> Forall (fun x => cursor a + 1 <= cursor (turn_id x.1)) bs2 ->
  paginateTurns Number l None (Some a) n = (take (Z.to_nat n) bs2 ≫= block_items, (n <? blen bs2)).
Proof.
  intros Hn (Hl & Hh & Hb) Hs Hne H1 H2. unfold paginateTurns. cbv zeta. rewrite Z.max_r by lia. rewrite Hs.
  set (p := fun sg => match seg_turn sg with Some id => 0 <? compareTurnIds Number id a | None => false end).
  assert (List.filter p (flush_segment head None ++ (block_segment <$> (bs1 ++ bs2))) = block_segment <$> bs2) as Hf.
  { rewrite List.filter_app. assert (List.filter p (flush_segment head None) = []) as -> by (by destruct head). cbn [app].
    rewrite (filter_segments p (bs1 ++ bs2) (fun x => cursor a + 1 <=? cursor (turn_id x.1))).
    - rewrite List.filter_app, filter_nothing, filter_all; [done|..]; (eapply Forall_impl; [eassumption|]); intros x Hx; cbv beta in *; [by apply Z.leb_le|by apply Z.leb_gt].
    - intros x Hx. rewrite Forall_fmap, Forall_forall in Hne. unfold p. rewrite seg_turn_block by (by apply Hne). unfold compareTurnIds, cursor. destruct (Z.leb_spec (turnOrdinal Number a + 1) (turnOrdinal Number (turn_id x.1))); [apply Z.ltb_lt|apply Z.ltb_ge]; lia. }
  assert (page (block_segment <$> bs2) n false = (take (Z.to_nat n) bs2 ≫= block_items, (n <? blen bs2))) as Hp.
  { unfold page. assert ((match block_segment <$> bs2 with (u, None) :: rest => ([(u, None)], rest) | _ => ([], block_segment <$> bs2) end) = ([], block_segment <$> bs2)) as -> by (by destruct bs2).
    unfold slice_to, slice_at. rewrite (proj2 (Z.ltb_ge n 0)) by lia. rewrite <- fmap_take, flatten_blocks. f_equal. unfold blen. rewrite !length_fmap, length_take.
    destruct (Z.ltb_spec n (Z.of_nat (length bs2))).
    - rewrite Nat.min_l by lia. rewrite (proj2 (Z.ltb_lt _ (Z.of_nat (length bs2)))), (proj2 (Z.ltb_lt 0 _)) by lia. done.
    - rewrite Nat.min_r by lia. by rewrite Z.ltb_irrefl. }
  destruct (flush_segment head None ++ (block_segment <$> (bs1 ++ bs2))) eqn:E; [|by rewrite Hf].
  apply app_nil in E as [_ E]. destruct bs1; [|done]. destruct bs2; [|done]. rewrite take_nil. by rewrite (proj2 (Z.ltb_ge n _)) by (unfold blen; cbn; lia).
Qed.

(** Pages tile the timeline. On a well-formed timeline the page before a cursor is the
    run of whole segments that ends at the cursor: nothing between it and the later turns
    is left out, it holds as many turns as fit, more pages are announced exactly when
    turns remain, and the last one also brings the items before the first turn. The page
    after a cursor is the run of segments that follows it, in the same way. *)
Theorem pages_tile l c n : items_ok Number l -> Forall (fun t => turn_id t <> []) (turns l) -> 1 <= n ->
  (let '(pg, more) := paginateTurns Number l (Some c) None n in
   exists rest later, l = rest ++ pg ++ later /\ at_boundary later /\
     Forall (fun t => cursor (turn_id t) < cursor c) (turns (rest ++ pg)) /\ Forall (fun t => cursor c <= cursor (turn_id t)) (turns later) /\
     blen (turns pg) = Z.min n (blen (turns (rest ++ pg))) /\ more = (0 <? blen (turns rest)) /\ (more = false -> rest = []) /\ (more = true -> at_boundary pg)) /\
  (let '(pg, more) := paginateTurns Number l None (Some c) n in
   exists earlier rest, l = earlier ++ pg ++ rest /\ at_boundary (pg ++ rest) /\ at_boundary rest /\
     Forall (fun t => cursor (turn_id t) <= cursor c) (turns earlier) /\ Forall (fun t => cursor c < cursor (turn_id t)) (turns (pg ++ rest)) /\
     blen (turns pg) = Z.min n (blen (turns (pg ++ rest))) /\ more = (0 <? blen (turns rest))).
Proof.
  intros Hok Hne Hn. destruct (split_segments l) as (head & bs & Hbs & Hs). pose proof Hbs as (El & Hh & Hb).
  assert (turns l = bs.*1) as Et by (by rewrite El, turns_app, (no_turns_turns head Hh), turns_blocks). rewrite Et in Hne. split.
  - destruct (cut_blocks l head bs (cursor c) Hok Hbs) as (bs1 & bs2 & -> & H1 & H2). rewrite (older_page l c n head bs1 bs2 Hn Hbs Hs Hne H1 H2).
    destruct (blocks_turns bs1 bs2 Hb) as [T1 T2]. set (k := Z.to_nat (blen bs1 - n)).
    assert (bs1 ≫= block_items = (take k bs1 ≫= block_items) ++ (drop k bs1 ≫= block_items)) as Ek by (by rewrite <- bind_app, take_drop).
    assert (Forall (fun x => no_turns x.2) (take k bs1 ++ drop k bs1)) as Hb1 by (rewrite take_drop; by apply Forall_app in Hb as [? _]).
    destruct (blocks_turns _ _ Hb1) as [T3 T4].
    exists (if blen bs1 <=? n then [] else head ++ (take k bs1 ≫= block_items)), (bs2 ≫= block_items).
    assert (turns ((if blen bs1 <=? n then [] else head ++ (take k bs1 ≫= block_items)) ++ (if blen bs1 <=? n then head else []) ++ (drop k bs1 ≫= block_items)) = bs1.*1) as Erest.
    { destruct (Z.leb_spec (blen bs1) n).
      - subst k. replace (Z.to_nat (blen bs1 - n)) with 0%nat by lia. rewrite drop_0. cbn [app]. by rewrite turns_app, (no_turns_turns head Hh), T1.
      - cbn [app]. rewrite <- app_assoc, turns_app, (no_turns_turns head Hh), turns_app, T3, T4. cbn [app]. by rewrite <- fmap_app, take_drop. }
    rewrite Erest, T2. split; [|split; [apply blocks_boundary|split; [by apply forall_turns|split; [by apply forall_turns|]]]].
    { rewrite El, bind_app, Ek. destruct (Z.leb_spec (blen bs1) n); [|by rewrite <- !app_assoc].
      subst k. replace (Z.to_nat (blen bs1 - n)) with 0%nat by lia. rewrite take_0, drop_0. cbn [mbind list_bind app]. by rewrite <- !app_assoc. }
    assert (blen (bs1.*1) = blen bs1) as Hl1 by (unfold blen; by rewrite length_fmap).
    split; [|split; [|split]].
    + rewrite Hl1. destruct (blen bs1 <=? n); [rewrite turns_app, (no_turns_turns head Hh)|]; rewrite ?T4; cbn [app]; rewrite ?T4; unfold blen; rewrite length_fmap, length_drop; subst k; unfold blen, block; lia.
    + destruct (Z.leb_spec (blen bs1) n); [by rewrite (proj2 (Z.ltb_ge _ _))|]. rewrite turns_app, (no_turns_turns head Hh), T3. cbn [app].
      rewrite (proj2 (Z.ltb_lt n _)) by lia. symmetry. apply Z.ltb_lt. unfold blen at 1. rewrite length_fmap, length_take. subst k. unfold blen, block in *. lia.
    + intros Hm%Z.ltb_ge. by rewrite (proj2 (Z.leb_le _ _)).
    + intros Hm%Z.ltb_lt. rewrite (proj2 (Z.leb_gt _ _)) by done. apply blocks_boundary.
  - destruct (cut_blocks l head bs (cursor c + 1) Hok Hbs) as (bs1 & bs2 & -> & H1 & H2). rewrite (newer_page l c n head bs1 bs2 Hn Hbs Hs Hne H1 H2).
    destruct (blocks_turns bs1 bs2 Hb) as [T1 T2]. assert (Forall (fun x => no_turns x.2) (take (Z.to_nat n) bs2 ++ drop (Z.to_nat n) bs2)) as Hb2 by (rewrite take_drop; by apply Forall_app in Hb as [_ ?]).
    destruct (blocks_turns _ _ Hb2) as [T3 T4]. exists (head ++ (bs1 ≫= block_items)), (drop (Z.to_nat n) bs2 ≫= block_items).
    rewrite <- bind_app, take_drop, T2, T3, T4, turns_app, (no_turns_turns head Hh), T1. cbn [app]. split; [by rewrite El, bind_app, <- app_assoc|].
    do 2 (split; [apply blocks_boundary|]). split; [apply forall_turns; eapply Forall_impl; [exact H1|]; cbn; lia|]. split; [apply forall_turns; eapply Forall_impl; [exact H2|]; cbn; lia|].
    unfold blen, block in *. rewrite !length_fmap, length_take, length_drop. split; [lia|]. destruct (Z.ltb_spec n (Z.of_nat (length bs2))); symmetry; [apply Z.ltb_lt|apply Z.ltb_ge]; lia.
Qed.

(** * Coarse subscribers *)

Definition redact (l : list item) : list item := redact_item <$> l.

Lemma redact_twice l : redact (redact l) = redact l.
Proof. unfold redact. rewrite <- list_fmap_compose. apply list_fmap_ext. by intros i [] _. Qed.

Lemma redact_turn_is id e : is_turn id (redact_item e) = is_turn id e.
Proof. by destruct e. Qed.

Lemma redact_id e : itemIdOf (redact_item e) = itemIdOf e.
Proof. by destruct e. Qed.

Lemma redact_find p l : (forall e, p (redact_item e) = p e) -> List.find p (redact l) = redact_item <$> List.find p l.
Proof. intros Hp. induction l as [|e l IH]; cbn; [done|]. rewrite Hp. by destruct (p e). Qed.

Lemma redact_insert p e l : (forall x, p (redact_item x) = p x) -> redact (insert_before p e l) = insert_before p (redact_item e) (redact l).
Proof. intros Hp. induction l as [|x l IH]; cbn; [done|]. rewrite Hp. destruct (p x); cbn; [done|]. f_equal. exact IH. Qed.

Lemma redact_replace_where p e l : (forall x, p (redact_item x) = p x) -> redact (replace_where p e l) = replace_where p (redact_item e) (redact l).
Proof.
  intros Hp. unfold redact, replace_where. rewrite <- !list_fmap_compose. apply list_fmap_ext. intros i x _. cbn. rewrite Hp. by destruct (p x).
Qed.

Lemma redact_filter p l : (forall x, p (redact_item x) = p x) -> redact (List.filter p l) = List.filter p (redact l).
Proof. intros Hp. induction l as [|x l IH]; cbn; [done|]. rewrite Hp. destruct (p x); cbn; [f_equal|]; exact IH. Qed.

Lemma redact_replace_turn l id h fn : (forall t, t_header (fn t) = h) -> redact (replaceTurn l id fn) = replaceTurn (redact l) id (fun t => Turn h (t_steps t)).
Proof.
  intros Hf. unfold redact, replaceTurn. rewrite <- !list_fmap_compose. apply list_fmap_ext. intros i x _. destruct x as [t|?|?]; cbn; [|done|done].
  unfold turn_id. cbn. destruct (bool_decide _); cbn; [by rewrite Hf|done].
Qed.

(** An upsert of a standalone item, whatever object is held. *)
Definition item_put (e : item) (before : option Z) (l : list item) : list item :=
  let is_it x := bool_decide (itemIdOf x = itemIdOf e) in
  if existsb is_it l then replace_where is_it e l
  else match before with Some n => insert_before (turn_at n) e l | None => l ++ [e] end.

(** What an operation that a turn subscriber gets does to its timeline. *)
Definition coarse_step (l : list item) (op : operation) : list item :=
  match op with
  | Reset _ sn => redact (sn_items sn)
  | TurnUpsert h =>
      match List.find (is_turn (turnId h)) l with
      | Some (TurnItem t) => if turnEquals same (t_header t) h then l else replaceTurn l (turnId h) (fun t => Turn h (t_steps t))
      | _ => insertTurn l (Turn h [])
      end
  | MarkerUpsert m b => item_put (MarkerItem m) b l
  | TaskRefUpsert r b => item_put (TaskRefItem r) b l
  | ItemsRemove ids => List.filter (fun e => negb (bool_decide (itemIdOf e ∈ ids))) l
  | _ => l
  end.

Hypothesis same_item_eq : forall a b, same_item a b = true -> a = b.

Lemma item_upsert_items s e b : items (r_state (applyItemUpsert same_item s e b)) = item_put e b (items s).
Proof.
  unfold applyItemUpsert, item_put. cbv zeta. destruct (existsb (fun x => bool_decide _) (items s)); [|by destruct b].
  destruct (existsb (fun x => _ && _) (items s)) eqn:E; [done|]. cbn [r_state unchanged]. unfold replace_where. rewrite <- (list_fmap_id (items s)) at 1.
  apply list_fmap_ext. intros i x Hx%list_elem_of_lookup_2. cbn. apply existsb_none, find_none in E. rewrite Forall_forall in E. specialize (E x Hx). cbn in E.
  destruct (bool_decide_reflect (itemIdOf x = itemIdOf e)) as [|]; [|done]. cbn in E. apply negb_false_iff in E. by apply same_item_eq.
Qed.

Lemma redact_item_put e b l : redact_item e = e -> redact (item_put e b l) = item_put e b (redact l).
Proof.
  intros He. unfold item_put. cbv zeta. set (p := fun x => bool_decide _). assert (forall x, p (redact_item x) = p x) as Hp by (intros x; subst p; cbv beta; by rewrite redact_id).
  assert (existsb p (redact l) = existsb p l) as ->.
  { clear He. induction l as [|x l IH]; cbn; [done|]. rewrite Hp. f_equal. exact IH. }
  destruct (existsb p l); [by rewrite redact_replace_where, He|]. destruct b as [n|].
  - rewrite redact_insert, He; [done|]. by intros [].
  - unfold redact. rewrite fmap_app. cbn. by rewrite He.
Qed.

Lemma removed_items s ids : items (r_state (applyItemsRemove s ids)) = List.filter (fun e => negb (bool_decide (itemIdOf e ∈ ids))) (items s).
Proof.
  unfold applyItemsRemove. cbv zeta. destruct (Z.eqb_spec (blen (List.filter (fun e => negb (bool_decide (itemIdOf e ∈ ids))) (items s))) (blen (items s))) as [E|]; [|done].
  cbn [r_state unchanged]. symmetry. revert E. unfold blen. generalize (items s). induction l as [|x l IH]; [done|]. cbn [List.filter].
  pose proof (List.filter_length_le (fun e => negb (bool_decide (itemIdOf e ∈ ids))) l). destruct (negb _); cbn [length]; intros E; [|lia]. f_equal. apply IH. lia.
Qed.

Lemma admitted_items s op : admits GradeTurn op = true -> redact (items (r_state (applyOperation Number same same_item s op))) = coarse_step (redact (items s)) op.
Proof.
  destruct op as [aid sn|h|id h|id sid f|tg o c|m b|r b|t|i|a|d|p|m|ids]; cbn [admits applyOperation coarse_step]; intros Ha; try done.
  - unfold applyTurnUpsert. rewrite (redact_find _ _ (redact_turn_is (turnId h))). destruct (getTurn s (turnId h)) as [t|] eqn:E.
    + rewrite (proj1 (get_turn_find s _ t) E). cbn [fmap option_fmap option_map redact_item t_header]. destruct (turnEquals same (t_header t) h); [done|]. by apply redact_replace_turn.
    + rewrite (proj1 (get_turn_none s _) E). cbn [fmap option_fmap option_map r_state changed items with_items]. apply (redact_insert _ (TurnItem (Turn h []))). by intros [].
  - by rewrite item_upsert_items, redact_item_put.
  - by rewrite item_upsert_items, redact_item_put.
  - unfold applyTaskUpsert. by destruct (upsert _ _ _ _).
  - unfold applyInteractionUpsert. by destruct (upsert _ _ _ _).
  - unfold applyAttachmentUpsert. by destruct (upsert _ _ _ _).
  - unfold applyTodoUpsert. by destruct (upsert _ _ _ _).
  - unfold applyPromptUpsert. by destruct (upsert _ _ _ _).
  - unfold applyMetaMerge. by destruct (same_meta _ _ _).
  - rewrite removed_items. apply redact_filter. intros x. by rewrite redact_id.
Qed.

(** The turn that a detail operation is for is known: its header came first. *)
Definition target_known (s : agent_state) (op : operation) : Prop :=
  match op with StepUpsert id _ | FrameUpsert id _ _ => getTurn s id <> None | _ => True end.

Lemma unique_turn s id t : items_ok Number (items s) -> getTurn s id = Some t -> forall u, u ∈ turns (items s) -> turn_id u = id -> u = t.
Proof.
  intros (H & _) Et u Hu Hi. pose proof (get_turn_in _ _ _ Et) as Ht. pose proof (get_turn_id _ _ _ Et) as Hit.
  apply list_elem_of_lookup in Hu as [i Hu]. apply list_elem_of_lookup in Ht as [j Ht].
  assert (i = j) as ->; [|congruence]. eapply (NoDup_lookup (turn_id <$> turns (items s))); [done|rewrite list_lookup_fmap, Hu; reflexivity|rewrite list_lookup_fmap, Ht; cbn; congruence].
Qed.

Lemma redact_put s id t next : items_ok Number (items s) -> getTurn s id = Some t -> t_header next = t_header t -> redact (replaceTurn (items s) id (fun _ => next)) = redact (items s).
Proof.
  intros Hok Et Hn. unfold redact, replaceTurn. rewrite <- list_fmap_compose. apply list_fmap_ext. intros i e He%list_elem_of_lookup_2. cbn. destruct e as [u|?|?]; [|done|done].
  destruct (bool_decide_reflect (turn_id u = id)) as [Hu|]; [|done]. cbn. rewrite Hn, (unique_turn s id t Hok Et u); [done| |done].
  apply list_elem_of_omap. by exists (TurnItem u).
Qed.

Lemma dropped_items s op : items_ok Number (items s) -> target_known s op -> admits GradeTurn op = false ->
  redact (items (r_state (applyOperation Number same same_item s op))) = redact (items s).
Proof.
  intros Hok Ht. destruct op as [aid sn|h|id h|id sid f|tg o c|m b|r b|t|i|a|d|p|m|ids]; cbn [admits applyOperation target_known] in *; intros Ha; try done.
  - unfold applyStepUpsert. cbv zeta. destruct (getTurn s id) as [t|] eqn:E; [|done]. rewrite default_some. unfold put_turn.
    destruct (List.find _ _); [destruct (stepEquals _ _ _); [done|]|]; by apply (redact_put s id t).
  - unfold applyFrameUpsert. cbv zeta. destruct (getTurn s id) as [t|] eqn:E; [|done]. rewrite default_some. unfold put_turn.
    destruct (List.find (has_frame_id _) _); [destruct (frameEquals _ _ _); [done|]|]; by apply (redact_put s id t).
  - destruct tg as [tid sid fid|id]; cbn [applyAppend]; [|unfold applyTaskAppend; by destruct (appendAtOffset _ _ _)].
    destruct (find_frame s tid sid fid) as [[[t st] f]|] eqn:E; [|done]. destruct (frame_text f); [|done]. destruct (appendAtOffset _ _ _); [done|done|].
    apply found_frame in E as (Et & _). by apply (redact_put s tid t).
Qed.

Fixpoint targets_known (s : agent_state) (ops : list operation) : Prop :=
  match ops with [] => True | op :: ops' => target_known s op /\ targets_known (r_state (applyOperation Number same same_item s op)) ops' end.

(** A subscriber of grade [turn] sees the redaction of the timeline. A store reset to
    the redacted full snapshot and then fed the operations its grade admits holds, in the
    same order, the same turn headers, markers and task references as the full store, as
    long as a turn's header precedes its details (a turn made for its details alone is
    not told to it). *)
Theorem coarse_timeline s c0 agentId ops : state_ok Number s -> Forall (op_ok Number) ops -> targets_known s ops ->
  let c := (apply Number same same_item c0 (Reset agentId (redactSnapshotForGrade GradeTurn (take_snapshot s None)) :: filterOpsForGrade GradeTurn ops)).1 in
  redact (items c) = redact (items (apply Number same same_item s ops).1).
Proof.
  intros Hs Hops Hk. cbv zeta. rewrite !apply_run. unfold run at 1. cbn [fold_left]. set (c1 := r_state _). assert (redact (items c1) = redact (items s)) as Hc by exact (redact_twice (items s)).
  clearbody c1. fold (run Number same same_item c1 (filterOpsForGrade GradeTurn ops)). unfold filterOpsForGrade. cbn [GRADE_RANK Z.eqb].
  revert s c1 Hs Hk Hc. induction Hops as [|op ops Hop _ IH]; intros s c1 Hs Hk Hc; [exact Hc|]. destruct Hk as [Hk1 Hk]. unfold run. cbn [List.filter fold_left].
  fold (run Number same same_item (r_state (applyOperation Number same same_item s op)) ops).
  assert (state_ok Number (r_state (applyOperation Number same same_item s op))) as Hs' by (by apply operation_keeps_ok). destruct (admits GradeTurn op) eqn:Ea.
  - cbn [fold_left]. apply IH; [done|done|]. rewrite !admitted_items by done. by rewrite Hc.
  - apply IH; [done|done|]. rewrite dropped_items; [done|apply Hs|done|done].
Qed.
End views.

(** * Views in the concrete *)

Lemma snapshot_restores_witness : state_ok demo_Number demo_state /\
  let s' := (apply demo_Number fresh fresh EMPTY_AGENT_STATE [Reset (js "main") (take_snapshot demo_state None)]).1 in
  items s' = items demo_state /\ tasks s' = tasks demo_state /\ interactions s' = interactions demo_state /\ attachments s' = attachments demo_state /\
  todos s' = todos demo_state /\ prompts s' = prompts demo_state /\ a_meta s' = a_meta demo_state /\
  pendingInteractions s' ≡ₚ pendingInteractions demo_state /\ hasMoreOlder s' = hasMoreOlder demo_state.
Proof. split; [exact demo_state_ok|]. apply (snapshot_restores demo_Number fresh fresh demo_state EMPTY_AGENT_STATE (js "main")). exact demo_state_ok. Defined.

Lemma window_is_newest_page_witness : 1 <= 1 /\
  (paginateTurns demo_Number (items demo_state) None None 1 = (sn_items (take_snapshot demo_state (Some 1)), 1 <? turn_count (items demo_state)) /\
   sn_hasMoreOlder (take_snapshot demo_state (Some 1)) = Some ((1 <? turn_count (items demo_state)) || hasMoreOlder demo_state)) /\
  turns (sn_items (take_snapshot demo_state (Some 1))) = [Turn (demo_turn "t1" 1 TurnRunning) []].
Proof. split; [lia|]. split; [|by vm_compute]. apply (window_is_newest_page demo_Number demo_state 1). lia. Defined.

Lemma pages_tile_witness : items_ok demo_Number (items demo_state) /\
  (let '(pg, more) := paginateTurns demo_Number (items demo_state) (Some (js "t1")) None 3 in
   exists rest later, items demo_state = rest ++ pg ++ later /\ at_boundary later /\
     Forall (fun t => cursor demo_Number (turn_id t) < cursor demo_Number (js "t1")) (turns (rest ++ pg)) /\
     Forall (fun t => cursor demo_Number (js "t1") <= cursor demo_Number (turn_id t)) (turns later) /\
     blen (turns pg) = Z.min 3 (blen (turns (rest ++ pg))) /\ more = (0 <? blen (turns rest)) /\ (more = false -> rest = []) /\ (more = true -> at_boundary pg)).
Proof.
  assert (Forall (fun t => turn_id t <> []) (turns (items demo_state))) as Hne by (vm_compute; by repeat constructor).
  split; [apply demo_state_ok|]. exact (proj1 (pages_tile demo_Number (items demo_state) (js "t1") 3 (proj1 demo_state_ok) Hne ltac:(lia))).
Defined.

Lemma coarse_timeline_witness : let ops := [FrameUpsert (js "t1") (js "t1.1") (Frame (js "c2") (demo_call "c2")); TurnUpsert (demo_turn "t1" 1 TurnCompleted)] in
  targets_known demo_Number fresh fresh demo_state ops /\
  let c := (apply demo_Number fresh fresh EMPTY_AGENT_STATE (Reset (js "main") (redactSnapshotForGrade GradeTurn (take_snapshot demo_state None)) :: filterOpsForGrade GradeTurn ops)).1 in
  redact (items c) = redact (items (apply demo_Number fresh fresh demo_state ops).1).
Proof.
  split; [vm_compute; by repeat split|]. apply (coarse_timeline demo_Number fresh fresh).
  - by intros.
  - exact demo_state_ok.
  - by repeat constructor.
  - vm_compute. by repeat split.
Defined.

(** The entities of a coarse subscriber can differ: it has no tool frames, so an undone
    turn does not take its pending approval with it. *)
Example coarse_keeps_interaction : let ops := [ItemsRemove [js "t0"]] in
  let c := (apply demo_Number fresh fresh EMPTY_AGENT_STATE (Reset (js "main") (redactSnapshotForGrade GradeTurn (take_snapshot demo_state None)) :: filterOpsForGrade GradeTurn ops)).1 in
  pendingInteractions (demo_run demo_state ops) = [] /\ pendingInteractions c = [js "i1"].
Proof. by vm_compute. Qed.
