(* ===== verification/TranscriptHistory.v ===== *)
(** The cold rebuild of a transcript: [transcript/src/history/groupTurns.ts] makes turns
    of the persisted messages, [foldFacts.ts] adds what the other persisted records
    carry. [parse] is [JSON.parse] ([None] when it throws), [iso] the ISO text of an
    epoch time; records and origins are JSON values. *)

From S2P Require Import Prelude JsMap Json JsonText JsString Transcript TranscriptLaws.

(** * Messages *)

Inductive media_source : Type :=
| MediaUrl (url : jsstr)
| MediaBase64 (media_type data : jsstr)
| MediaFile (file_id : jsstr).

(** [HOther] stands for a part of another or malformed shape. *)
Inductive history_part : Type :=
| HText (text : jsstr)
| HThink (think : jsstr)
| HMedia (type : jsstr) (source : option media_source)
| HFile (file_id name media_type : jsstr) (size : Z)
| HOther.

Record history_call : Type := HistoryCall { c_id : jsstr; c_name : jsstr; c_arguments : option jsstr }.

Record history_message : Type := HistoryMessage {
  h_role : jsstr;
  h_content : list history_part;
  h_toolCalls : list history_call;
  h_toolCallId : option jsstr;
  h_isError : bool;
  h_origin : option json;
}.

(** * JSON values *)

Definition fld (v : json) (name : string) : option json := json_field v (js name).
Definition as_string (v : option json) : option jsstr := match v with Some (JString s) => Some s | _ => None end.
Definition as_number (v : option json) : option Z := match v with Some (JNumber n) => Some n | _ => None end.
Definition as_bool (v : option json) : option bool := match v with Some (JBool b) => Some b | _ => None end.
Definition is_str (v : option jsstr) (s : string) : bool := bool_decide (v = Some (js s)).

Section history.
Context (parse : jsstr -> option json) (iso : Z -> jsstr).

(** * Grouping messages into turns *)

Record step_draft : Type := StepDraft { sd_id : jsstr; sd_ordinal : Z; sd_frames : list frame }.
Record turn_draft : Type := TurnDraft {
  td_id : jsstr; td_ordinal : Z; td_origin : turn_origin; td_prompt : option jsstr; td_attachmentIds : option (list jsstr); td_steps : list step_draft;
}.

(** The items so far, the attachments, the draft of the current turn with the slot of its
    item, the next ordinal and the number of markers. *)
Record grouping : Type := Grouping {
  g_items : list item; g_attachments : list attachment; g_turn : option (turn_draft * nat); g_next : Z; g_markers : Z;
}.

Definition string_ids (ids : list jsstr) : json := JArray (JString <$> ids).

Definition draftToTurnItem (d : turn_draft) : item :=
  TurnItem (Turn (TurnHeader (td_id d) (td_ordinal d) TurnCompleted (td_origin d) (td_prompt d) (string_ids <$> td_attachmentIds d) None None None None None)
    ((fun st => Step (StepHeader (sd_id st) (td_id d) (sd_ordinal st) StepCompleted None None None None None None None None) (sd_frames st)) <$> td_steps d)).

Definition textOf (m : history_message) : jsstr := h_content m ≫= fun p => match p with HText t => t | _ => [] end.

Definition origin_kind_of (m : history_message) : option jsstr := h_origin m ≫= fun o => as_string (fld o "kind").

Definition HIDDEN_USER_ORIGINS : list jsstr := [js "injection"; js "system_trigger"; js "retry"].
Definition TURN_OPENING_SYSTEM_TRIGGERS : list jsstr := [js "goal_continuation"; js "subagent"].
Definition MARKER_USER_ORIGINS : list (jsstr * jsstr) := [(js "skill_activation", js "skill"); (js "plugin_command", js "skill"); (js "compaction_summary", js "compaction")].

Definition opensOwnTurn (m : history_message) : bool :=
  is_str (origin_kind_of m) "system_trigger" &&
  match h_origin m ≫= fun o => as_string (fld o "name") with Some n => bool_decide (n ∈ TURN_OPENING_SYSTEM_TRIGGERS) | None => false end.

Definition isUserSlashPrompt (m : history_message) : bool :=
  (is_str (origin_kind_of m) "skill_activation" || is_str (origin_kind_of m) "plugin_command") &&
  is_str (h_origin m ≫= fun o => as_string (fld o "trigger")) "user-slash".

Definition mapOrigin (m : history_message) : turn_origin :=
  let k := origin_kind_of m in
  let field name := h_origin m ≫= fun o => as_string (fld o name) in
  if is_str k "cron_job" || is_str k "cron_missed" then TurnOrigin FromCron (field "jobId"%string) (h_origin m)
  else if is_str k "task" || is_str k "background_task" then
    match field "taskId"%string with Some id => TurnOrigin FromTask (Some id) (h_origin m) | None => TurnOrigin FromOther None (h_origin m) end
  else if is_str k "hook_result" then TurnOrigin FromHook None (h_origin m)
  else if is_str k "shell_command" then TurnOrigin FromUser None (h_origin m)
  else if is_str k "user" || bool_decide (k = None) then TurnOrigin FromUser None None
  else TurnOrigin FromOther None (h_origin m).

Definition parseArguments (raw : option jsstr) : option json :=
  match raw with
  | None | Some [] => None
  | Some r => Some (match parse r with Some v => v | None => JString r end)
  end.

Definition file_source (id : jsstr) : json := JObject [(js "kind", JString (js "file")); (js "fileId", JString id)].
Definition url_source (url : jsstr) : json := JObject [(js "kind", JString (js "url")); (js "url", JString url)].

(** The attachment a part becomes, without its id. *)
Definition attachment_of (id : jsstr) (p : history_part) : option attachment :=
  match p with
  | HMedia type (Some src) =>
      Some (match src with
            | MediaBase64 mt _ => Attachment id mt None None None None
            | MediaUrl u => Attachment id (type ++ js "/*") None None (Some (url_source u)) None
            | MediaFile f => Attachment id (type ++ js "/*") None None (Some (file_source f)) None
            end)
  | HFile f name mt size => Some (Attachment id mt (Some name) (Some size) (Some (file_source f)) None)
  | _ => None
  end.

(** Adds the attachments of the parts and returns their ids. *)
Definition collectAttachments (acc : list attachment) (parts : list history_part) : list attachment * option (list jsstr) :=
  let '(acc, ids) :=
    fold_left (fun '(acc, ids) p =>
      let id := js "att_" ++ string_of_int (blen acc + 1) in
      match attachment_of id p with Some a => (acc ++ [a], ids ++ [id]) | None => (acc, ids) end) parts (acc, []) in
  (acc, match ids with [] => None | _ => Some ids end).

Definition startTurn (g : grouping) (o : turn_origin) (p : option jsstr) (ids : option (list jsstr)) : grouping :=
  let d := TurnDraft (js "t" ++ string_of_int (g_next g)) (g_next g) o p ids [] in
  Grouping (g_items g ++ [draftToTurnItem d]) (g_attachments g) (Some (d, length (g_items g))) (g_next g + 1) (g_markers g).

Definition ensureTurn (g : grouping) : grouping :=
  match g_turn g with Some _ => g | None => startTurn g (TurnOrigin FromOther None None) None None end.

Definition group_marker (g : grouping) (key : jsstr) (payload : json) : grouping :=
  let n := g_markers g + 1 in
  Grouping (g_items g ++ [MarkerItem (Marker (js "m" ++ string_of_int n) key (Some payload) None)]) (g_attachments g) (g_turn g) (g_next g) n.

(** [syncTurnItem]: the draft projected into its slot. *)
Definition set_turn (g : grouping) (d : turn_draft) (slot : nat) : grouping :=
  Grouping (<[slot := draftToTurnItem d]> (g_items g)) (g_attachments g) (Some (d, slot)) (g_next g) (g_markers g).

Definition with_steps (d : turn_draft) (steps : list step_draft) : turn_draft :=
  TurnDraft (td_id d) (td_ordinal d) (td_origin d) (td_prompt d) (td_attachmentIds d) steps.

Definition user_message (g : grouping) (m : history_message) : grouping :=
  let hidden := match origin_kind_of m with Some k => bool_decide (k ∈ HIDDEN_USER_ORIGINS) | None => false end in
  if hidden then if opensOwnTurn m then startTurn g (mapOrigin m) None None else g
  else
    match origin_kind_of m ≫= fun k => jget MARKER_USER_ORIGINS k with
    | Some key =>
        let payload := JObject ((js "text", JString (textOf m)) :: match h_origin m with Some o => [(js "origin", o)] | None => [] end) in
        let g := group_marker g key payload in
        if isUserSlashPrompt m then startTurn g (mapOrigin m) (Some (textOf m)) None else g
    | None =>
        let '(atts, ids) := collectAttachments (g_attachments g) (h_content m) in
        startTurn (Grouping (g_items g) atts (g_turn g) (g_next g) (g_markers g)) (mapOrigin m) (Some (textOf m)) ids
    end.

(** The text and thinking frames of a message, numbered from one. *)
Fixpoint text_frames (stepId : jsstr) (n : Z) (parts : list history_part) : list frame :=
  match parts with
  | [] => []
  | p :: parts' =>
      let id := stepId ++ js ".f" ++ string_of_int n in
      match p with
      | HText (u :: t) => Frame id (TextFrame AssistantText (u :: t) None None) :: text_frames stepId (n + 1) parts'
      | HThink (u :: t) => Frame id (ThinkingFrame (u :: t)) :: text_frames stepId (n + 1) parts'
      | _ => text_frames stepId n parts'
      end
  end.

Definition call_frame (stepId : jsstr) (c : history_call) : frame :=
  Frame (stepId ++ js "." ++ c_id c)
    (ToolCallFrame (ToolFrame (c_id c) (c_name c) None ToolRunning (parseArguments (c_arguments c)) None None None None None None None None None)).

Definition assistant_message (g : grouping) (m : history_message) : grouping :=
  let g := ensureTurn g in
  match g_turn g with
  | None => g
  | Some (d, slot) =>
      let n := blen (td_steps d) + 1 in
      let id := td_id d ++ js "." ++ string_of_int n in
      set_turn g (with_steps d (td_steps d ++ [StepDraft id n (text_frames id 1 (h_content m) ++ (call_frame id <$> h_toolCalls m))])) slot
  end.

Definition is_call (id : jsstr) (f : frame) : bool := match f_body f with ToolCallFrame c => bool_decide (toolCallId c = id) | _ => false end.

(** The last frame of the call, from the last step on. *)
Definition currentTurnToolFrame (steps : list step_draft) (id : jsstr) : option frame :=
  List.find (is_call id) (rev (steps ≫= sd_frames)).

(** Replaces the first frame of the call in the last step that has one. *)
Fixpoint replace_first (id : jsstr) (next : frame) (fs : list frame) : list frame :=
  match fs with [] => [] | f :: fs' => if is_call id f then next :: fs' else f :: replace_first id next fs' end.
Fixpoint replaceToolFrame (steps : list step_draft) (id : jsstr) (next : frame) : list step_draft :=
  match steps with
  | [] => []
  | st :: steps' =>
      if existsb (fun st => existsb (is_call id) (sd_frames st)) steps' then st :: replaceToolFrame steps' id next
      else StepDraft (sd_id st) (sd_ordinal st) (replace_first id next (sd_frames st)) :: steps'
  end.

Definition patch_frame (f : frame) (output : jsstr) (isError : bool) : frame :=
  match f_body f with
  | ToolCallFrame c =>
      Frame (frameId f) (ToolCallFrame (ToolFrame (toolCallId c) (f_name c) (f_view c) (if isError then ToolError else ToolDone) (f_input c) (Some (JString output)) (f_display c)
        (if isError then Some output else None) (f_inputText c) (f_progress c) (f_taskId c) (f_approvalId c) (f_todoId c) (f_agentRefs c)))
  | _ => f
  end.

Definition tool_message (g : grouping) (m : history_message) : grouping :=
  match g_turn g, h_toolCallId m with
  | Some (d, slot), Some id =>
      match currentTurnToolFrame (td_steps d) id with
      | Some f => set_turn g (with_steps d (replaceToolFrame (td_steps d) id (patch_frame f (textOf m) (h_isError m)))) slot
      | None => g
      end
  | _, _ => g
  end.

Definition group_one (g : grouping) (m : history_message) : grouping :=
  let role := Some (h_role m) in
  if is_str role "system" then g
  else if is_str role "user" then user_message g m
  else if is_str role "assistant" then assistant_message g m
  else if is_str role "tool" then tool_message g m
  else g.

Definition no_meta : meta := Meta None None None None.

Definition groupMessagesIntoSnapshot (ms : list history_message) : snapshot :=
  let g := fold_left group_one ms (Grouping [] [] None 0 0) in
  Snapshot (g_items g) [] [] (g_attachments g) [] [] no_meta None.

(** * Folding the other records *)

(** A wire record is an object; its time a number or a string, its [info] not null. *)
Definition recordTimeIso (r : json) : option jsstr :=
  match fld r "time" with Some (JNumber n) => Some (iso n) | Some (JString t) => Some t | _ => None end.
Definition epochMsToIso (v : option json) : option jsstr := iso <$> as_number v.

Definition payloadOf (r : json) : json :=
  match r with
  | JObject fields => JObject (List.filter (fun kv => negb (bool_decide (kv.1 = js "type")) && negb (bool_decide (kv.1 = js "time"))) fields)
  | v => v
  end.

Definition isVisibleTurnOrigin (origin : option json) : bool :=
  let get name := origin ≫= fun o => as_string (fld o name) in
  let k := get "kind"%string in
  if is_str k "system_trigger" then is_str (get "name"%string) "goal_continuation" || is_str (get "name"%string) "subagent"
  else if is_str k "skill_activation" || is_str k "plugin_command" then is_str (get "trigger"%string) "user-slash"
  else negb (is_str k "injection" || is_str k "retry" || is_str k "compaction_summary").

Definition mapTaskKind (v : option json) : task_kind :=
  if is_str (as_string v) "process" then ShellTask else if is_str (as_string v) "agent" then SubagentTask else OtherTask.

Definition TASK_STATES : list (jsstr * task_state) :=
  [(js "running", TaskRunning); (js "completed", TaskCompleted); (js "failed", TaskFailed); (js "timed_out", TaskTimedOut); (js "killed", TaskKilled); (js "lost", TaskLost)].

Definition mapInteractionEndState (k : interaction_kind) (response : option json) : interaction_state :=
  match k with
  | Question => match response with Some JNull => Dismissed | _ => Answered end
  | Approval =>
      let d := response ≫= fun v => as_string (fld v "decision") in
      if is_str d "approved" then Approved else if is_str d "rejected" then Rejected else Cancelled
  end.

Definition mapTurnEndReason (v : option json) : option turn_state :=
  let s := as_string v in
  if is_str s "completed" then Some TurnCompleted else if is_str s "cancelled" then Some TurnCancelled
  else if is_str s "failed" || is_str s "blocked" then Some TurnFailed else None.

Definition readTurnErrorMessage (v : option json) : option jsstr := v ≫= fun e => as_string (fld e "message").

(** The well-formed entries of a list. *)
Definition read_todo (v : json) : option json :=
  match as_string (fld v "title"), as_string (fld v "status") with
  | Some t, Some s => if bool_decide (s ∈ [js "pending"; js "in_progress"; js "done"]) then Some (JObject [(js "title", JString t); (js "status", JString s)]) else None
  | _, _ => None
  end.
Definition readTodoItems (v : option json) : json := JArray (match v with Some (JArray l) => omap read_todo l | _ => [] end).

Definition GOAL_STATUSES : list jsstr := [js "active"; js "paused"; js "blocked"; js "complete"].

Record goal_meta : Type := GoalMeta { gm_objective : jsstr; gm_status : jsstr; gm_criterion : option jsstr; gm_used : Z; gm_limit : option Z }.

Definition opt_field (name : string) (v : option json) : list (jsstr * json) := match v with Some x => [(js name, x)] | None => [] end.

Definition goal_json (g : goal_meta) : json :=
  JObject ([(js "objective", JString (gm_objective g)); (js "status", JString (gm_status g))] ++ opt_field "completionCriterion" (JString <$> gm_criterion g) ++
    [(js "budgetUsed", JNumber (gm_used g))] ++ opt_field "budgetLimit" (JNumber <$> gm_limit g)).

(** The variables of the fold. [f_ended] keeps the last end record of each turn id. *)
Record fold_state : Type := FoldState {
  w_tasks : list (jsstr * task);
  w_interactions : list (jsstr * interaction);
  w_ended : list (Z * json);
  w_nextTurnId : Z;
  w_cancelled : list Z;
  w_hidden : list Z;
  w_todo : option todo;
  w_goal : option goal_meta;
  w_goalTouched : bool;
  w_planActive : option bool;
  w_planRevision : option json;
  w_swarmActive : option bool;
  w_appended : list item;
  w_activeCancel : list Z;
  w_markerSeq : Z;
  w_usedRefIds : list jsstr;
}.

Definition upd_task_part (w : fold_state) (t : list (jsstr * task)) (a : list item) (u : list jsstr) : fold_state :=
  FoldState t (w_interactions w) (w_ended w) (w_nextTurnId w) (w_cancelled w) (w_hidden w) (w_todo w) (w_goal w) (w_goalTouched w) (w_planActive w)
    (w_planRevision w) (w_swarmActive w) a (w_activeCancel w) (w_markerSeq w) u.
Definition upd_interactions (w : fold_state) (i : list (jsstr * interaction)) : fold_state :=
  FoldState (w_tasks w) i (w_ended w) (w_nextTurnId w) (w_cancelled w) (w_hidden w) (w_todo w) (w_goal w) (w_goalTouched w) (w_planActive w)
    (w_planRevision w) (w_swarmActive w) (w_appended w) (w_activeCancel w) (w_markerSeq w) (w_usedRefIds w).
Definition upd_ended (w : fold_state) (e : list (Z * json)) : fold_state :=
  FoldState (w_tasks w) (w_interactions w) e (w_nextTurnId w) (w_cancelled w) (w_hidden w) (w_todo w) (w_goal w) (w_goalTouched w) (w_planActive w)
    (w_planRevision w) (w_swarmActive w) (w_appended w) (w_activeCancel w) (w_markerSeq w) (w_usedRefIds w).
Definition upd_clock (w : fold_state) (n : Z) (c h : list Z) : fold_state :=
  FoldState (w_tasks w) (w_interactions w) (w_ended w) n c h (w_todo w) (w_goal w) (w_goalTouched w) (w_planActive w)
    (w_planRevision w) (w_swarmActive w) (w_appended w) (w_activeCancel w) (w_markerSeq w) (w_usedRefIds w).
Definition upd_todo (w : fold_state) (t : todo) : fold_state :=
  FoldState (w_tasks w) (w_interactions w) (w_ended w) (w_nextTurnId w) (w_cancelled w) (w_hidden w) (Some t) (w_goal w) (w_goalTouched w) (w_planActive w)
    (w_planRevision w) (w_swarmActive w) (w_appended w) (w_activeCancel w) (w_markerSeq w) (w_usedRefIds w).
Definition upd_goal (w : fold_state) (g : option goal_meta) : fold_state :=
  FoldState (w_tasks w) (w_interactions w) (w_ended w) (w_nextTurnId w) (w_cancelled w) (w_hidden w) (w_todo w) g true (w_planActive w)
    (w_planRevision w) (w_swarmActive w) (w_appended w) (w_activeCancel w) (w_markerSeq w) (w_usedRefIds w).
Definition upd_modes (w : fold_state) (plan : option bool) (rev : option json) (swarm : option bool) : fold_state :=
  FoldState (w_tasks w) (w_interactions w) (w_ended w) (w_nextTurnId w) (w_cancelled w) (w_hidden w) (w_todo w) (w_goal w) (w_goalTouched w) plan
    rev swarm (w_appended w) (w_activeCancel w) (w_markerSeq w) (w_usedRefIds w).
Definition upd_activeCancel (w : fold_state) (l : list Z) : fold_state :=
  FoldState (w_tasks w) (w_interactions w) (w_ended w) (w_nextTurnId w) (w_cancelled w) (w_hidden w) (w_todo w) (w_goal w) (w_goalTouched w) (w_planActive w)
    (w_planRevision w) (w_swarmActive w) (w_appended w) l (w_markerSeq w) (w_usedRefIds w).
Definition upd_marker (w : fold_state) (a : list item) (n : Z) : fold_state :=
  FoldState (w_tasks w) (w_interactions w) (w_ended w) (w_nextTurnId w) (w_cancelled w) (w_hidden w) (w_todo w) (w_goal w) (w_goalTouched w) (w_planActive w)
    (w_planRevision w) (w_swarmActive w) a (w_activeCancel w) n (w_usedRefIds w).

Definition fold_marker (w : fold_state) (key : string) (r : json) : fold_state :=
  let n := w_markerSeq w + 1 in
  upd_marker w (w_appended w ++ [MarkerItem (Marker (js "m" ++ string_of_int n) (js key) (Some (payloadOf r)) (recordTimeIso r))]) n.

(** A reservation that was cancelled while queued never starts. *)
Fixpoint skip_cancelled (fuel : nat) (n : Z) (cancelled hidden : list Z) : Z * list Z * list Z :=
  match fuel with
  | O => (n, cancelled, hidden)
  | S fuel =>
      if bool_decide (n ∈ cancelled) then skip_cancelled fuel (n + 1) (List.filter (fun x => negb (x =? n)) cancelled) (hidden ++ [n])
      else (n, cancelled, hidden)
  end.
Definition skipCancelledTurnIds (w : fold_state) : fold_state :=
  let '(n, c, h) := skip_cancelled (S (length (w_cancelled w))) (w_nextTurnId w) (w_cancelled w) (w_hidden w) in upd_clock w n c h.

Definition upsertTask (w : fold_state) (r : json) : fold_state :=
  match fld r "info" with
  | None => w
  | Some info =>
      match as_string (fld info "taskId") with
      | None => w
      | Some id =>
          let prev := jget (w_tasks w) id in
          let t := Task id (mapTaskKind (fld info "kind"))
            (match as_string (fld info "status") ≫= fun x => jget TASK_STATES x with Some x => x | None => from_option k_state TaskRunning prev end)
            (default (from_option k_detached true prev) (as_bool (fld info "detached")))
            (or_else (as_string (fld info "description")) (prev ≫= k_description)) (or_else (as_string (fld info "agentId")) (prev ≫= k_agentId))
            (default (from_option outputTail [] prev) (as_string (fld r "outputTail")))
            (or_else (prev ≫= k_startedAt) (epochMsToIso (fld info "startedAt"))) (or_else (epochMsToIso (fld info "endedAt")) (prev ≫= k_endedAt))
            None None None None in
          let refId := js "ref-" ++ id in
          if is_str (as_string (fld r "type")) "task.started" && negb (bool_decide (refId ∈ w_usedRefIds w)) then
            upd_task_part w (jset (w_tasks w) id t) (w_appended w ++ [TaskRefItem (TaskRef refId id (recordTimeIso r))]) (w_usedRefIds w ++ [refId])
          else upd_task_part w (jset (w_tasks w) id t) (w_appended w) (w_usedRefIds w)
      end
  end.

Definition goal_create (w : fold_state) (r : json) : fold_state :=
  fold_marker (upd_goal w (Some (GoalMeta (default [] (as_string (fld r "objective"))) (js "active") (as_string (fld r "completionCriterion")) 0 None))) "goal" r.

Definition goal_update (w : fold_state) (r : json) : fold_state :=
  let upd g := GoalMeta (gm_objective g)
    (match as_string (fld r "status") with Some s => if bool_decide (s ∈ GOAL_STATUSES) then s else gm_status g | None => gm_status g end) (gm_criterion g)
    (default (gm_used g) (as_number (fld r "tokensUsed"))) (or_else (as_number (fld r "budgetLimits" ≫= fun b => fld b "tokenBudget")) (gm_limit g)) in
  fold_marker (upd_goal w (upd <$> w_goal w)) "goal" r.

Definition plan_revision (w : fold_state) (r : json) : fold_state :=
  let rev := JObject (opt_field "reviewPath" (JString <$> as_string (fld r "path")) ++ opt_field "version" (JNumber <$> as_number (fld r "version"))) in
  fold_marker (upd_modes w (Some true) (Some rev) (w_swarmActive w)) "plan.revision" r.

Definition turn_cancel (w : fold_state) (r : json) : fold_state :=
  let target := as_string (fld r "target") in
  match as_number (fld r "turnId") with
  | None => w
  | Some id =>
      if is_str target "queued" && (w_nextTurnId w <=? id) then
        skipCancelledTurnIds (upd_clock w (w_nextTurnId w) (if bool_decide (id ∈ w_cancelled w) then w_cancelled w else w_cancelled w ++ [id]) (w_hidden w))
      else if negb (is_str target "active") || (id <? 0) || bool_decide (id ∈ w_activeCancel w) then w
      else
        let w := upd_activeCancel w (w_activeCancel w ++ [id]) in
        if is_str (as_string (fld r "reason")) "user_cancelled" then fold_marker w "interruption" r else w
  end.

Definition interaction_request (w : fold_state) (r : json) : fold_state :=
  let kind := as_string (fld r "kind") in
  let k := if is_str kind "approval" then Some Approval else if is_str kind "question" then Some Question else None in
  match k, as_string (fld r "id") with
  | Some k, Some id =>
      let call := or_else (as_string (fld r "toolCallId")) (as_string (fld r "request" ≫= fun q => fld q "toolCallId")) in
      upd_interactions w (jset (w_interactions w) id (Interaction id k call Pending (fld r "request") None))
  | _, _ => w
  end.

Definition resolve (i : interaction) (st : interaction_state) (response : option json) : interaction :=
  Interaction (interactionId i) (i_kind i) (i_toolCallId i) st (i_request i) response.

Definition interaction_resolved (w : fold_state) (r : json) : fold_state :=
  match as_string (fld r "id") with
  | None => w
  | Some id =>
      match jget (w_interactions w) id with
      | None => w
      | Some e => upd_interactions w (jset (w_interactions w) id (resolve e (mapInteractionEndState (i_kind e) (fld r "response")) (fld r "response")))
      end
  end.

Definition turn_prompt (w : fold_state) (r : json) : fold_state :=
  let w := skipCancelledTurnIds w in
  let id := w_nextTurnId w in
  upd_clock w (id + 1) (w_cancelled w) (if isVisibleTurnOrigin (fld r "origin") then w_hidden w else w_hidden w ++ [id]).

Definition fold_record (w : fold_state) (r : json) : fold_state :=
  let ty := is_str (as_string (fld r "type")) in
  if ty "tools.update_store" then
    if is_str (as_string (fld r "key")) "todo" then upd_todo w (Todo (js "todo") (readTodoItems (fld r "value")) (recordTimeIso r)) else w
  else if ty "goal.create" then goal_create w r
  else if ty "goal.update" then goal_update w r
  else if ty "goal.clear" then upd_goal w None
  else if ty "plan_mode.enter" then fold_marker (upd_modes w (Some true) None (w_swarmActive w)) "plan.enter" r
  else if ty "plan_mode.exit" || ty "plan_mode.cancel" then fold_marker (upd_modes w (Some false) None (w_swarmActive w)) "plan.exit" r
  else if ty "plan.revision" then plan_revision w r
  else if ty "swarm_mode.enter" then fold_marker (upd_modes w (w_planActive w) (w_planRevision w) (Some true)) "swarm.enter" r
  else if ty "swarm_mode.exit" then fold_marker (upd_modes w (w_planActive w) (w_planRevision w) (Some false)) "swarm.exit" r
  else if ty "task.started" || ty "task.terminated" then upsertTask w r
  else if ty "turn.cancel" then turn_cancel w r
  else if ty "interaction.request" then interaction_request w r
  else if ty "interaction.resolved" then interaction_resolved w r
  else if ty "turn.ended" then match as_number (fld r "turnId") with Some id => upd_ended w (jset (w_ended w) id r) | None => w end
  else if ty "turn.prompt" then turn_prompt w r
  else w.

(** The number in [/^m(\d+)$/]. *)
Definition marker_number (id : jsstr) : option Z :=
  match id with u :: ds => if bool_decide ([u] = js "m") && all_digits ds then Some (digits_value ds) else None | [] => None end.

Definition initial_fold (base : list item) : fold_state :=
  let seq := fold_left (fun n e => match e with MarkerItem m => match marker_number (markerId m) with Some k => Z.max n k | None => n end | _ => n end) base 0 in
  let refs := omap (fun e => match e with TaskRefItem r => Some (refId r) | _ => None end) base in
  FoldState [] [] [] 0 [] [] None None false None None None [] [] seq refs.

(** A request without an answer: the process died while it was pending. *)
Definition cancel_pending (i : interaction) : interaction := if is_pending i then resolve i Cancelled (i_response i) else i.

(** The end records by the ordinal of the turn's item. *)
Definition ended_by_ordinal (w : fold_state) : list (Z * json) :=
  fold_left (fun m '(id, r) =>
    if bool_decide (id ∈ w_hidden w) then m
    else jset m (id - blen (List.filter (fun h => h <? id) (w_hidden w))) r) (w_ended w) [].

Definition end_turn (r : json) (t : turn) : turn :=
  let h := t_header t in
  Turn (TurnHeader (turnId h) (t_ordinal h) (default (t_state h) (mapTurnEndReason (fld r "reason"))) (t_origin h) (t_prompt h) (t_attachmentIds h) (t_startedAt h)
    (or_else (recordTimeIso r) (t_endedAt h)) (t_usage h) (or_else (as_number (fld r "durationMs")) (t_durationMs h)) (or_else (readTurnErrorMessage (fld r "error")) (t_error h)))
    (t_steps t).

Definition end_item (ended : list (Z * json)) (e : item) : item :=
  match e with TurnItem t => match jget ended (ordinal t) with Some r => TurnItem (end_turn r t) | None => e end | _ => e end.

Definition fold_meta (w : fold_state) (m : meta) : meta :=
  let old f := modes m ≫= f in
  Meta (if w_goalTouched w then goal_json <$> w_goal w else goal m)
    (match w_planActive w, w_swarmActive w with
     | None, None => modes m
     | p, sw =>
         Some (ModesMeta (match p with None => old mo_plan | Some true => Some (default (JObject []) (w_planRevision w)) | Some false => None end)
                 (match sw with None => old mo_swarm | Some true => Some (JObject []) | Some false => None end))
     end)
    (m_activity m) (agent m).

Definition foldWireRecordFacts (records : list json) (base : snapshot) : snapshot :=
  let w := fold_left fold_record records (initial_fold (sn_items base)) in
  Snapshot ((end_item (ended_by_ordinal w) <$> sn_items base) ++ w_appended w) (w_tasks w).*2 (cancel_pending <$> (w_interactions w).*2) (sn_attachments base)
    (match w_todo w with Some t => [t] | None => sn_todos base end) (sn_prompts base) (fold_meta w (sn_meta base)) (sn_hasMoreOlder base).
End history.

(** * Ids *)

Definition tid (n : Z) : jsstr := js "t" ++ string_of_int n.
Definition mid (n : Z) : jsstr := js "m" ++ string_of_int n.

Lemma string_of_int_same n1 n2 : string_of_int n1 = string_of_int n2 -> n1 = n2.
Proof. intros E. destruct (string_of_int_inj n1 n2 [] []) as [H _]; [done|done|by rewrite !app_nil_r|done]. Qed.

Lemma js_app_inj a x y : js a ++ x = js a ++ y -> x = y.
Proof. apply app_inv_head. Qed.

#[global] Instance tid_inj : Inj (=) (=) tid.
Proof. intros x y E%js_app_inj. by apply string_of_int_same. Qed.
#[global] Instance mid_inj : Inj (=) (=) mid.
Proof. intros x y E%js_app_inj. by apply string_of_int_same. Qed.

Lemma marker_number_mid n : 0 <= n -> marker_number (mid n) = Some n.
Proof.
  intros Hn. destruct (string_of_int_digits n Hn) as [H1 H2].
  change ((if all_digits (string_of_int n) then Some (digits_value (string_of_int n)) else None) = Some n). by rewrite H1, H2.
Qed.

Lemma numbered_sorted {A} (key : A -> Z) l c : (forall i x, l !! i = Some x -> key x = c + Z.of_nat i) -> key_sorted key l.
Proof.
  revert c. induction l as [|x l IH]; intros c H; [constructor|]. constructor.
  - apply (IH (c + 1)). intros i y Hy. rewrite (H (S i) y Hy). lia.
  - destruct l as [|y l]; constructor. rewrite (H 0%nat x eq_refl), (H 1%nat y eq_refl). lia.
Qed.

Definition marker_ids (l : list item) : list jsstr := omap (fun e => match e with MarkerItem m => Some (markerId m) | _ => None end) l.
Definition ref_ids (l : list item) : list jsstr := omap (fun e => match e with TaskRefItem r => Some (refId r) | _ => None end) l.

Lemma item_ids_perm l : itemIdOf <$> l ≡ₚ (turn_id <$> turns l) ++ marker_ids l ++ ref_ids l.
Proof.
  unfold turns, marker_ids, ref_ids. induction l as [|e l IH]; cbn; [done|]. rewrite IH. destruct e; cbn; [done|apply Permutation_middle|].
  rewrite (app_assoc _ _ (refId r :: _)), <- Permutation_middle. by rewrite <- app_assoc.
Qed.

Lemma head_not_in (c : N) (l : list jsstr) x : head x <> Some c -> (forall y, y ∈ l -> head y = Some c) -> x ∉ l.
Proof. intros H Hl Hin. apply H. by apply Hl. Qed.

(** Turn ids, marker ids and task references do not meet. *)
Lemma item_ids_nodup l n a b : turn_id <$> turns l = tid <$> seqZ 0 n -> marker_ids l = mid <$> seqZ a b -> NoDup (ref_ids l) -> (forall x, x ∈ ref_ids l -> head x = Some 114%N) ->
  NoDup (itemIdOf <$> l).
Proof.
  intros Ht Hm Hr Hh. rewrite item_ids_perm, Ht, Hm. apply NoDup_app. split; [apply NoDup_fmap_2; [apply _|apply NoDup_seqZ]|]. split.
  - intros x (k & -> & _)%list_elem_of_fmap [Hx|Hx]%elem_of_app; [by apply list_elem_of_fmap in Hx as (j & E & _)|]. by apply Hh in Hx.
  - apply NoDup_app. split; [apply NoDup_fmap_2; [apply _|apply NoDup_seqZ]|]. split; [|done]. intros x (k & -> & _)%list_elem_of_fmap Hx. by apply Hh in Hx.
Qed.

Lemma fold_left_keeps {A B} (P : A -> Prop) (f : A -> B -> A) l : forall a, P a -> (forall a b, b ∈ l -> P a -> P (f a b)) -> P (fold_left f l a).
Proof. induction l as [|b l IH]; intros a Ha H; cbn; [done|]. apply IH; [apply H; [by left|done]|]. intros a' b' Hb. apply H. by right. Qed.

Lemma seqZ_snoc a n : 0 <= n -> seqZ a (n + 1) = seqZ a n ++ [a + n].
Proof. intros Hn. rewrite seqZ_app by lia. f_equal. Qed.

(** * Grouping *)

Section grouping.
Context (Number : jsstr -> option Z) (parse : jsstr -> option json).
Hypothesis Number_int : forall n, 0 <= n -> Number (string_of_int n) = Some n.

Definition frame_named (stepId : jsstr) (f : frame) : Prop :=
  match f_body f with ToolCallFrame c => frameId f = stepId ++ js "." ++ toolCallId c | _ => True end.

Definition step_draft_ok (d : turn_draft) (i : nat) (st : step_draft) : Prop :=
  sd_ordinal st = Z.of_nat i + 1 /\ sd_id st = td_id d ++ js "." ++ string_of_int (Z.of_nat i + 1) /\
  NoDup (frameId <$> sd_frames st) /\ Forall (frame_named (sd_id st)) (sd_frames st).

Definition draft_ok (d : turn_draft) : Prop :=
  0 <= td_ordinal d /\ td_id d = tid (td_ordinal d) /\ forall i st, td_steps d !! i = Some st -> step_draft_ok d i st.

Lemma slice_after (a b : jsstr) c : slice_from (a ++ [c] ++ b) (blen a + 1) = b.
Proof.
  unfold slice_from, slice_at. rewrite (proj2 (Z.ltb_ge _ 0)) by (unfold blen; lia). replace (Z.to_nat (blen a + 1)) with (length (a ++ [c])).
  - rewrite app_assoc. apply drop_app_length.
  - rewrite length_app. unfold blen. cbn. lia.
Qed.

Lemma draft_turn_ok d : draft_ok d -> exists t, draftToTurnItem d = TurnItem t /\ turn_id t = td_id d /\ turn_ok Number t.
Proof.
  intros (Ho & Hi & Hs). eexists. split; [reflexivity|]. split; [done|]. unfold turn_ok. cbn [t_steps t_header turn_id ordinal turnId t_ordinal]. split; [|split; [|split]].
  - unfold turnOrdinal. cbn [turn_id t_header turnId]. rewrite Hi. change (drop 1 (tid (td_ordinal d))) with (string_of_int (td_ordinal d)). by rewrite Number_int.
  - rewrite <- list_fmap_compose. apply NoDup_alt. intros i j x Hx Hy. rewrite list_lookup_fmap in Hx, Hy.
    destruct (td_steps d !! i) as [si|] eqn:Ei; [|done]. destruct (td_steps d !! j) as [sj|] eqn:Ej; [|done]. cbn in Hx, Hy.
    destruct (Hs _ _ Ei) as (_ & Ei' & _). destruct (Hs _ _ Ej) as (_ & Ej' & _). injection Hx as Hx. injection Hy as Hy. unfold step_id in *. cbn in *.
    rewrite <- Hy, Ei', Ej' in Hx. apply app_inv_head in Hx. injection Hx as Hx. apply string_of_int_same in Hx. lia.
  - apply (numbered_sorted _ _ 1). intros i x Hx. rewrite list_lookup_fmap in Hx. destruct (td_steps d !! i) as [st|] eqn:Est; [|done].
    injection Hx as <-. destruct (Hs _ _ Est) as (E & _). cbn. lia.
  - apply Forall_fmap, Forall_lookup. intros i st Hst. destruct (Hs _ _ Hst) as (E1 & E2 & E3 & _). split; [|done]. unfold expected_step_ordinal, step_ordinal, step_id. cbn.
    rewrite E1, E2. change (js ".") with [46%N]. rewrite slice_after, Number_int by lia. done.
Qed.

(** What an item is: a well-formed turn, or a marker or reference. *)
Definition item_ok (e : item) : Prop := match turn_of e with Some t => turn_ok Number t | None => True end.

Definition turn_key (e : item) : option jsstr := turn_id <$> turn_of e.

Lemma turn_ids_keys l : turn_id <$> turns l = omap turn_key l.
Proof. unfold turns, turn_key. induction l as [|e l IH]; cbn; [done|]. destruct e; cbn; [by f_equal|done|done]. Qed.

Lemma items_ok_turns l : Forall item_ok l -> Forall (turn_ok Number) (turns l).
Proof. unfold turns. induction 1 as [|e l H _ IH]; cbn; [constructor|]. unfold item_ok in H. destruct (turn_of e); [by constructor|done]. Qed.

Record grouping_ok (g : grouping) : Prop := GroupingOk {
  go_next : 0 <= g_next g;
  go_marks : 0 <= g_markers g;
  go_turns : turn_id <$> turns (g_items g) = tid <$> seqZ 0 (g_next g);
  go_markers : marker_ids (g_items g) = mid <$> seqZ 1 (g_markers g);
  go_refs : ref_ids (g_items g) = [];
  go_items : Forall item_ok (g_items g);
  go_slot : forall d slot, g_turn g = Some (d, slot) -> g_items g !! slot = Some (draftToTurnItem d) /\ draft_ok d;
}.

Lemma omap_insert_same {A B} (f : A -> option B) (l : list A) i x y : l !! i = Some x -> f x = f y -> omap f (<[i := y]> l) = omap f l.
Proof. intros Hl Hf. revert i Hl. induction l as [|z l IH]; intros [|i] Hl; cbn in *; [done|done|injection Hl as ->; by rewrite Hf|]. destruct (f z); [f_equal|]; exact (IH i Hl). Qed.

Lemma start_turn_grouping g o p ids : grouping_ok g -> grouping_ok (startTurn g o p ids).
Proof.
  intros []. set (d := TurnDraft (js "t" ++ string_of_int (g_next g)) (g_next g) o p ids []). assert (draft_ok d) as Hd by (split; [done|split; [done|intros i st H; done]]).
  destruct (draft_turn_ok d Hd) as (t & Et & Hi & Ht).
  assert (g_items (startTurn g o p ids) = g_items g ++ [draftToTurnItem d]) as Ei by done. split; try rewrite Ei; cbn [startTurn g_next g_markers g_turn].
  - lia.
  - done.
  - unfold turns in *. rewrite omap_app, fmap_app, go_turns0, seqZ_snoc, fmap_app, Et by done. cbn. by rewrite Hi.
  - unfold marker_ids in *. rewrite omap_app, go_markers0. by rewrite Et, app_nil_r.
  - unfold ref_ids in *. rewrite omap_app, go_refs0. by rewrite Et.
  - apply Forall_app. split; [done|]. constructor; [|constructor]. by rewrite Et.
  - intros d' slot [= <- <-]. split; [|done]. by rewrite lookup_app_r, Nat.sub_diag.
Qed.

Lemma group_marker_ok g key payload : grouping_ok g -> grouping_ok (group_marker g key payload).
Proof.
  intros []. split; cbn [group_marker g_items g_next g_markers g_turn]; [done|lia| | | | |].
  - unfold turns in *. by rewrite omap_app, app_nil_r.
  - unfold marker_ids in *. rewrite omap_app, go_markers0, seqZ_snoc, fmap_app by done. cbn -[js]. by rewrite (Z.add_comm 1).
  - unfold ref_ids in *. by rewrite omap_app, go_refs0.
  - apply Forall_app. split; [done|]. by constructor.
  - intros d slot E. destruct (go_slot0 d slot E) as [E1 E2]. split; [|done]. by apply lookup_app_l_Some.
Qed.

Lemma set_turn_ok g d d' slot : grouping_ok g -> g_turn g = Some (d, slot) -> td_id d' = td_id d -> draft_ok d' -> grouping_ok (set_turn g d' slot).
Proof.
  intros [] E Hid Hd'. destruct (go_slot0 d slot E) as [Hs Hd]. destruct (draft_turn_ok d Hd) as (t & Et & Hi & _). destruct (draft_turn_ok d' Hd') as (t' & Et' & Hi' & Ht').
  split; cbn [set_turn g_items g_next g_markers g_turn]; try done.
  - rewrite <- go_turns0, !turn_ids_keys. apply (omap_insert_same _ _ _ _ _ Hs). rewrite Et, Et'. unfold turn_key. cbn. by rewrite Hi, Hi', Hid.
  - rewrite <- go_markers0. apply (omap_insert_same _ _ _ _ _ Hs). by rewrite Et, Et'.
  - rewrite <- go_refs0. apply (omap_insert_same _ _ _ _ _ Hs). by rewrite Et, Et'.
  - apply Forall_insert; [done|]. by rewrite Et'.
  - intros d0 slot0 [= <- <-]. split; [|done]. apply list_lookup_insert_eq. by apply lookup_lt_Some in Hs.
Qed.

Lemma ensure_turn_ok g : grouping_ok g -> grouping_ok (ensureTurn g).
Proof. unfold ensureTurn. intros H. destruct (g_turn g); [done|]. by apply start_turn_grouping. Qed.

Lemma user_message_ok g m : grouping_ok g -> grouping_ok (user_message g m).
Proof.
  intros H. unfold user_message. cbv zeta. destruct (match origin_kind_of m with Some k => bool_decide (k ∈ HIDDEN_USER_ORIGINS) | None => false end).
  - destruct (opensOwnTurn m); [by apply start_turn_grouping|done].
  - destruct (origin_kind_of m ≫= fun k => jget MARKER_USER_ORIGINS k).
    + destruct (isUserSlashPrompt m); [apply start_turn_grouping|]; by apply group_marker_ok.
    + destruct (collectAttachments _ _) as [atts ids]. apply start_turn_grouping. by destruct H; split.
Qed.

(** Messages as the engine makes them: the calls of a message have ids of their own,
    none of the form the numbered frames take. *)
Definition message_ok (m : history_message) : Prop :=
  NoDup (c_id <$> h_toolCalls m) /\ Forall (fun c => forall n, c_id c <> js "f" ++ string_of_int n) (h_toolCalls m).

Lemma text_frames_id sid n parts f : f ∈ text_frames sid n parts -> exists k, n <= k /\ frameId f = sid ++ js ".f" ++ string_of_int k.
Proof.
  revert n. induction parts as [|p parts IH]; intros n Hf; cbn [text_frames] in Hf; [by apply elem_of_nil in Hf|].
  assert (forall l, f ∈ l -> (exists b, l = Frame (sid ++ js ".f" ++ string_of_int n) b :: text_frames sid (n + 1) parts) ->
    exists k, n <= k /\ frameId f = sid ++ js ".f" ++ string_of_int k) as Hc.
  { intros l Hl (b & ->). apply elem_of_cons in Hl as [->|Hl]; [by exists n|]. destruct (IH _ Hl) as (k & Hk & E). exists k. split; [lia|done]. }
  destruct p as [[|u t]|[|u t]|? ?|? ? ? ?|]; try (by apply IH); apply (Hc _ Hf); eexists; reflexivity.
Qed.

Lemma text_frames_nodup sid n parts : NoDup (frameId <$> text_frames sid n parts).
Proof.
  revert n. induction parts as [|p parts IH]; intros n; cbn [text_frames]; [constructor|].
  assert (forall b, NoDup (frameId <$> Frame (sid ++ js ".f" ++ string_of_int n) b :: text_frames sid (n + 1) parts)) as Hc.
  { intros b. cbn -[js]. apply NoDup_cons. split; [|apply IH]. intros (f & E & Hf)%list_elem_of_fmap. apply text_frames_id in Hf as (k & Hk & E').
    rewrite E' in E. do 2 apply app_inv_head in E. apply string_of_int_same in E. lia. }
  destruct p as [[|u t]|[|u t]|? ?|? ? ? ?|]; try apply IH; apply Hc.
Qed.

Lemma text_frames_named sid n parts : Forall (frame_named sid) (text_frames sid n parts).
Proof.
  revert n. induction parts as [|p parts IH]; intros n; cbn [text_frames]; [constructor|].
  destruct p as [[|u t]|[|u t]|? ?|? ? ? ?|]; try apply IH; (constructor; [done|apply IH]).
Qed.

Lemma message_frames_nodup sid m : message_ok m -> NoDup (frameId <$> text_frames sid 1 (h_content m) ++ (call_frame parse sid <$> h_toolCalls m)).
Proof.
  intros [Hn Hf]. rewrite fmap_app. apply NoDup_app. split; [apply text_frames_nodup|]. split.
  - intros x (f & -> & Hx)%list_elem_of_fmap Hc. apply text_frames_id in Hx as (k & _ & E). rewrite E in Hc. rewrite <- list_fmap_compose in Hc.
    apply list_elem_of_fmap in Hc as (c & E' & Hc). cbn -[js] in E'. apply app_inv_head in E'. rewrite Forall_forall in Hf. apply (Hf c Hc k).
    change (js ".f" ++ string_of_int k) with (js "." ++ js "f" ++ string_of_int k) in E'. by apply app_inv_head in E'.
  - rewrite <- list_fmap_compose. change (frameId ∘ call_frame parse sid) with ((fun i => sid ++ js "." ++ i) ∘ c_id). rewrite list_fmap_compose.
    apply NoDup_fmap_2; [|done]. intros a b E%app_inv_head. by apply app_inv_head in E.
Qed.

Lemma assistant_message_ok g m : message_ok m -> grouping_ok g -> grouping_ok (assistant_message parse g m).
Proof.
  intros Hm Hg%ensure_turn_ok. unfold assistant_message. cbv zeta. destruct (g_turn (ensureTurn g)) as [[d slot]|] eqn:E; [|done].
  apply (set_turn_ok _ d); [done|done|done|]. destruct (go_slot _ Hg d slot E) as [_ (Ho & Hi & Hs)]. split; [done|]. split; [done|].
  intros i st Hst. cbn [td_steps with_steps] in Hst. apply lookup_app_Some in Hst as [Hst|[Hlen Hst]]; [by apply Hs|].
  apply list_lookup_singleton_Some in Hst as [Hi0 <-]. assert (i = length (td_steps d)) as -> by lia. unfold step_draft_ok, blen. cbn [sd_ordinal sd_id sd_frames td_id with_steps].
  split; [done|]. split; [done|]. split; [by apply message_frames_nodup|]. apply Forall_app. split; [apply text_frames_named|].
  apply Forall_fmap, Forall_forall. by intros c _.
Qed.

Definition step_alike (st st' : step_draft) : Prop :=
  sd_id st' = sd_id st /\ sd_ordinal st' = sd_ordinal st /\ frameId <$> sd_frames st' = frameId <$> sd_frames st /\ Forall (frame_named (sd_id st)) (sd_frames st').

Lemma step_alike_refl st : Forall (frame_named (sd_id st)) (sd_frames st) -> step_alike st st.
Proof. by intros H. Qed.

Lemma exists_call_steps id steps : existsb (fun st => existsb (is_call id) (sd_frames st)) steps = existsb (is_call id) (steps ≫= sd_frames).
Proof. induction steps as [|st steps IH]; cbn; [done|]. by rewrite existsb_app, IH. Qed.

Lemma exists_find_rev {A} (p : A -> bool) l : existsb p l = false <-> List.find p (rev l) = None.
Proof.
  split.
  - intros H. destruct (List.find p (rev l)) as [x|] eqn:E; [|done]. apply find_some in E as [Hx Hp]. apply in_rev in Hx. rewrite <- not_true_iff_false in H.
    destruct H. apply existsb_exists. by exists x.
  - intros H. apply not_true_iff_false. intros (x & Hx & Hp)%existsb_exists. apply in_rev in Hx. by rewrite (List.find_none _ _ H x Hx) in Hp.
Qed.

Lemma find_app_split {A} (p : A -> bool) l1 l2 : List.find p (l1 ++ l2) = match List.find p l1 with Some x => Some x | None => List.find p l2 end.
Proof. induction l1 as [|x l1 IH]; cbn; [done|]. by destruct (p x). Qed.

Lemma named_call sid id f : frame_named sid f -> is_call id f = true -> frameId f = sid ++ js "." ++ id.
Proof. unfold frame_named, is_call. destruct (f_body f); try done. intros E H. apply bool_decide_eq_true in H. by rewrite E, H. Qed.

Lemma replace_first_alike sid id next fs : Forall (frame_named sid) fs -> frame_named sid next -> is_call id next = true ->
  frameId <$> replace_first id next fs = frameId <$> fs /\ Forall (frame_named sid) (replace_first id next fs).
Proof.
  intros Hfs Hn Hc. induction Hfs as [|f fs Hf Hfs [IH1 IH2]]; [by split|]. cbn [replace_first]. destruct (is_call id f) eqn:E.
  - cbn. rewrite (named_call sid id f), (named_call sid id next) by done. by split; [|constructor].
  - cbn. rewrite IH1. by split; [|constructor].
Qed.

Lemma replace_tool_alike steps id f next : Forall (fun st => Forall (frame_named (sd_id st)) (sd_frames st)) steps ->
  currentTurnToolFrame steps id = Some f -> frameId next = frameId f -> is_call id next = true -> Forall2 step_alike steps (replaceToolFrame steps id next).
Proof.
  intros Hall Hf Hn Hc. unfold currentTurnToolFrame in Hf. induction Hall as [|st steps Hst Hall IH]; [constructor|]. cbn [mbind list_bind replaceToolFrame] in *.
  rewrite rev_app_distr, find_app_split in Hf. rewrite exists_call_steps. destruct (existsb (is_call id) (steps ≫= sd_frames)) eqn:E.
  - constructor; [by apply step_alike_refl|]. apply IH. destruct (List.find (is_call id) (rev (steps ≫= sd_frames))) eqn:Ef; [done|].
    by rewrite (proj2 (exists_find_rev _ _) Ef) in E.
  - apply exists_find_rev in E. unfold mbind, list_bind in E, Hf. rewrite E in Hf. apply find_some in Hf as [Hin Hcf]. apply in_rev in Hin.
    assert (frameId next = sd_id st ++ js "." ++ id) as Hid. { rewrite Hn. apply named_call; [|done]. rewrite Forall_forall in Hst. apply Hst. by apply list_elem_of_In. }
    constructor.
    + destruct (replace_first_alike (sd_id st) id next (sd_frames st)) as [H1 H2]; [done| |done|by repeat split].
      unfold frame_named. unfold is_call in Hc. destruct (f_body next); [done|done| |done]. apply bool_decide_eq_true in Hc. by rewrite Hc.
    + clear -Hall. induction Hall; constructor; [by apply step_alike_refl|done].
Qed.

Lemma patch_call f id out e : is_call id f = true -> is_call id (patch_frame f out e) = true /\ frameId (patch_frame f out e) = frameId f.
Proof. unfold is_call, patch_frame. by destruct (f_body f). Qed.

Lemma tool_message_ok g m : grouping_ok g -> grouping_ok (tool_message g m).
Proof.
  intros Hg. unfold tool_message. destruct (g_turn g) as [[d slot]|] eqn:E; [|done]. destruct (h_toolCallId m) as [id|]; [|done].
  destruct (currentTurnToolFrame (td_steps d) id) as [f|] eqn:Ef; [|done]. apply (set_turn_ok _ d); [done|done|done|].
  destruct (go_slot _ Hg d slot E) as [_ (Ho & Hi & Hs)]. split; [done|]. split; [done|].
  assert (Forall2 step_alike (td_steps d) (replaceToolFrame (td_steps d) id (patch_frame f (textOf m) (h_isError m)))) as Ha.
  { pose proof Ef as Hc. apply find_some in Hc as [_ Hc]. destruct (patch_call f id (textOf m) (h_isError m) Hc) as [H1 H2].
    apply (replace_tool_alike _ _ f); [|done|done|done]. apply Forall_lookup. intros i st Hst. apply (Hs i st Hst). }
  intros i st' Hst'. cbn [td_steps with_steps] in Hst'. destruct (Forall2_lookup_r _ _ _ _ _ Ha Hst') as (st & Hst & E1 & E2 & E3 & E4).
  destruct (Hs i st Hst) as (H1 & H2 & H3 & H4). unfold step_draft_ok. rewrite E1, E2, E3. done.
Qed.

Lemma group_one_ok g m : message_ok m -> grouping_ok g -> grouping_ok (group_one parse g m).
Proof.
  intros Hm Hg. unfold group_one. cbv zeta. repeat (destruct (is_str _ _)); [done|by apply user_message_ok|by apply assistant_message_ok|by apply tool_message_ok|done].
Qed.

Lemma grouped_ok ms : Forall message_ok ms -> grouping_ok (fold_left (group_one parse) ms (Grouping [] [] None 0 0)).
Proof.
  intros H. apply fold_left_keeps; [by split|]. intros g m Hin Hg. apply group_one_ok; [|done]. rewrite Forall_forall in H. by apply H.
Qed.

(** * Folding *)

Definition appended_ok (k : Z) (w : fold_state) : Prop :=
  k <= w_markerSeq w /\ turns (w_appended w) = [] /\ marker_ids (w_appended w) = mid <$> seqZ (k + 1) (w_markerSeq w - k) /\
  ref_ids (w_appended w) = w_usedRefIds w /\ NoDup (w_usedRefIds w) /\ forall x, x ∈ w_usedRefIds w -> head x = Some 114%N.

Definition fold_ok (k : Z) (w : fold_state) : Prop := appended_ok k w /\ entity_ok interactionId (w_interactions w).

Lemma fold_ok_same k w w' : w_appended w' = w_appended w -> w_markerSeq w' = w_markerSeq w -> w_usedRefIds w' = w_usedRefIds w -> w_interactions w' = w_interactions w ->
  fold_ok k w -> fold_ok k w'.
Proof. intros E1 E2 E3 E4. unfold fold_ok, appended_ok. by rewrite E1, E2, E3, E4. Qed.

Context (iso : Z -> jsstr).

Lemma fold_marker_ok k w key r : fold_ok k w -> fold_ok k (fold_marker iso w key r).
Proof.
  intros ((H1 & H2 & H3 & H4 & H5) & H6). split; [|done]. unfold appended_ok, fold_marker. cbv zeta. cbn [upd_marker w_markerSeq w_appended w_usedRefIds].
  split; [lia|]. split; [unfold turns in *; by rewrite omap_app, H2|]. split; [|split; [unfold ref_ids in *; by rewrite omap_app, H4, app_nil_r|done]].
  unfold marker_ids in *. rewrite omap_app, H3. replace (w_markerSeq w + 1 - k) with (w_markerSeq w - k + 1) by lia. rewrite seqZ_snoc, fmap_app by lia. cbn -[js].
  by replace (k + 1 + (w_markerSeq w - k)) with (w_markerSeq w + 1) by lia.
Qed.

Lemma upsert_task_ok k w r : fold_ok k w -> fold_ok k (upsertTask iso w r).
Proof.
  intros Hw. unfold upsertTask. destruct (fld r "info") as [info|]; [|done]. destruct (as_string (fld info "taskId")) as [id|]; [|done]. cbv zeta.
  destruct (is_str (as_string (fld r "type")) "task.started" && negb (bool_decide (js "ref-" ++ id ∈ w_usedRefIds w))) eqn:E; [|by apply (fold_ok_same k w)].
  apply andb_true_iff in E as [_ E]. apply negb_true_iff, bool_decide_eq_false in E. destruct Hw as ((H1 & H2 & H3 & H4 & H5 & H6) & H7). split; [|done].
  unfold appended_ok. cbn [upd_task_part w_markerSeq w_appended w_usedRefIds]. unfold turns, marker_ids, ref_ids in *. rewrite !omap_app, H2, H3, H4.
  split; [done|]. split; [done|]. split; [by rewrite app_nil_r|]. split; [done|]. split.
  - apply NoDup_app. split; [done|]. split; [|apply NoDup_singleton]. by intros x Hx ->%list_elem_of_singleton.
  - intros x [Hx|Hx]%elem_of_app; [by apply H6|]. by apply list_elem_of_singleton in Hx as ->.
Qed.

Lemma upd_clock_ok k w n c h : fold_ok k w -> fold_ok k (upd_clock w n c h).
Proof. by apply fold_ok_same. Qed.

Lemma skip_cancelled_ok k w : fold_ok k w -> fold_ok k (skipCancelledTurnIds w).
Proof. intros H. unfold skipCancelledTurnIds. destruct (skip_cancelled _ _ _ _) as [[n c] h]. by apply upd_clock_ok. Qed.

Lemma turn_cancel_ok k w r : fold_ok k w -> fold_ok k (turn_cancel iso w r).
Proof.
  intros H. unfold turn_cancel. cbv zeta. destruct (as_number (fld r "turnId")) as [id|]; [|done]. destruct (is_str _ _ && (w_nextTurnId w <=? id)).
  - by apply skip_cancelled_ok, upd_clock_ok.
  - destruct (_ || _); [done|]. assert (fold_ok k (upd_activeCancel w (w_activeCancel w ++ [id]))) by by apply (fold_ok_same k w).
    destruct (is_str _ _); [by apply fold_marker_ok|done].
Qed.

Lemma entity_set_at {A} (key : A -> jsstr) m i x : key x = i -> entity_ok key m -> entity_ok key (jset m i x).
Proof. intros <-. apply entity_set. Qed.

Lemma entity_get {A} (key : A -> jsstr) m i x : entity_ok key m -> jget m i = Some x -> key x = i.
Proof. intros [_ H] E. apply jget_Some_in in E. rewrite Forall_forall in H. apply (H _ E). Qed.

Lemma upd_interactions_ok k w i : fold_ok k w -> entity_ok interactionId i -> fold_ok k (upd_interactions w i).
Proof. by intros [H _] Hi. Qed.

Lemma interaction_request_ok k w r : fold_ok k w -> fold_ok k (interaction_request w r).
Proof.
  intros H. unfold interaction_request. cbv zeta. set (kd := if is_str _ _ then _ else _). clearbody kd. destruct kd as [kd|]; [|done]. destruct (as_string (fld r "id")) as [id|]; [|done].
  apply upd_interactions_ok; [done|]. by apply entity_set_at; [|apply H].
Qed.

Lemma interaction_resolved_ok k w r : fold_ok k w -> fold_ok k (interaction_resolved w r).
Proof.
  intros H. unfold interaction_resolved. destruct (as_string (fld r "id")) as [id|]; [|done]. destruct (jget (w_interactions w) id) as [e|] eqn:E; [|done].
  apply upd_interactions_ok; [done|]. apply entity_set_at; [|apply H]. exact (entity_get _ _ _ _ (proj2 H) E).
Qed.

Lemma fold_record_ok k w r : fold_ok k w -> fold_ok k (fold_record iso w r).
Proof.
  intros H. unfold fold_record. cbv zeta. set (ty := is_str _). clearbody ty.
  repeat match goal with |- fold_ok _ (if ?b then _ else _) => destruct b end; try done; try (apply fold_marker_ok); try (by apply (fold_ok_same k w)).
  - by apply upsert_task_ok.
  - by apply turn_cancel_ok.
  - by apply interaction_request_ok.
  - by apply interaction_resolved_ok.
  - destruct (as_number _); [by apply (fold_ok_same k w)|done].
  - unfold turn_prompt. cbv zeta. by apply upd_clock_ok, skip_cancelled_ok.
Qed.

Lemma marker_max l : forall a, fold_left (fun n e => match e with MarkerItem m => match marker_number (markerId m) with Some k => Z.max n k | None => n end | _ => n end) l a =
  fold_left (fun n id => match marker_number id with Some k => Z.max n k | None => n end) (marker_ids l) a.
Proof. unfold marker_ids. induction l as [|e l IH]; intros a; cbn; [done|]. destruct e; cbn; apply IH. Qed.

Lemma marker_max_seq n : 0 <= n -> fold_left (fun n id => match marker_number id with Some k => Z.max n k | None => n end) (mid <$> seqZ 1 n) 0 = n.
Proof.
  revert n. apply natlike_ind; [done|]. intros n Hn IH. rewrite <- Z.add_1_r, seqZ_snoc, fmap_app, fold_left_app, IH by done. cbn -[marker_number mid].
  rewrite marker_number_mid by lia. lia.
Qed.

Lemma initial_fold_ok g : grouping_ok g -> fold_ok (g_markers g) (initial_fold (g_items g)).
Proof.
  intros []. split; [|by split; constructor]. unfold appended_ok, initial_fold. cbv zeta. cbn [w_markerSeq w_appended w_usedRefIds].
  rewrite marker_max, go_markers0, marker_max_seq, Z.sub_diag by done. unfold ref_ids in go_refs0. rewrite go_refs0.
  split; [done|]. do 3 (split; [done|]). split; [constructor|]. intros x Hx. by apply elem_of_nil in Hx.
Qed.

Lemma end_item_keys ended e : turn_key (end_item iso ended e) = turn_key e /\ (turn_of e = None -> end_item iso ended e = e) /\ (item_ok e -> item_ok (end_item iso ended e)) /\
  (is_Some (turn_of e) -> is_Some (turn_of (end_item iso ended e))).
Proof. destruct e as [t|?|?]; [|done|done]. cbn. by destruct (jget ended (ordinal t)). Qed.

Lemma omap_end {B} (f : item -> option B) ended (l : list item) : (forall e, turn_of e = None \/ f (end_item iso ended e) = f e) -> omap f (end_item iso ended <$> l) = omap f l.
Proof.
  intros H. induction l as [|e l IH]; [done|]. cbn. assert (f (end_item iso ended e) = f e) as ->; [|by destruct (f e); [f_equal|]; exact IH].
  destruct (H e) as [E|E]; [|done]. by rewrite (proj1 (proj2 (end_item_keys ended e)) E).
Qed.

Lemma turn_ends ended t : exists t', end_item iso ended (TurnItem t) = TurnItem t'.
Proof. cbn. destruct (jget ended (ordinal t)); by eexists. Qed.

(** The items of the rebuilt snapshot, by kind. *)
Lemma rebuilt_items g w ended : grouping_ok g -> fold_ok (g_markers g) w ->
  let l := (end_item iso ended <$> g_items g) ++ w_appended w in
  turn_id <$> turns l = tid <$> seqZ 0 (g_next g) /\ marker_ids l = mid <$> seqZ 1 (w_markerSeq w) /\ ref_ids l = w_usedRefIds w /\ Forall (turn_ok Number) (turns l).
Proof.
  intros [] ((H1 & H2 & H3 & H4 & H5 & H6) & H7). cbv zeta. split; [|split; [|split]].
  - rewrite turn_ids_keys, omap_app, omap_end, <- !turn_ids_keys, H2, app_nil_r; [done|]. intros e. right. apply end_item_keys.
  - unfold marker_ids in *. rewrite omap_app, omap_end, go_markers0, H3, <- fmap_app; [f_equal|].
    + rewrite <- (Z.add_comm 1), <- seqZ_app by lia. f_equal. lia.
    + intros [t|?|?]; [right|by left|by left]. by destruct (turn_ends ended t) as [t' ->].
  - unfold ref_ids in *. rewrite omap_app, omap_end, go_refs0, H4; [done|]. intros [t|?|?]; [right|by left|by left]. by destruct (turn_ends ended t) as [t' ->].
  - unfold turns in *. rewrite omap_app, H2, app_nil_r. apply items_ok_turns, Forall_fmap. apply (Forall_impl _ _ _ go_items0). intros e. apply end_item_keys.
Qed.

Lemma numbered_items_ok l n : turn_id <$> turns l = tid <$> seqZ 0 n -> Forall (turn_ok Number) (turns l) -> items_ok Number l.
Proof.
  intros Hid Hok. split; [rewrite Hid; apply NoDup_fmap_2; [apply _|apply NoDup_seqZ]|]. split; [|done]. apply (numbered_sorted _ _ 0). intros i t Ht.
  rewrite Forall_lookup in Hok. destruct (Hok i t Ht) as [-> _]. assert ((turn_id <$> turns l) !! i = Some (turn_id t)) as E by by rewrite list_lookup_fmap, Ht.
  rewrite Hid, list_lookup_fmap in E. destruct (seqZ 0 n !! i) as [z|] eqn:Ez; [|done]. apply lookup_seqZ in Ez as [-> _]. injection E as <-. unfold turnOrdinal.
  change (drop 1 (tid (0 + Z.of_nat i))) with (string_of_int (0 + Z.of_nat i)). by rewrite Number_int by lia.
Qed.

Lemma cancel_pending_keys l : interactionId <$> (cancel_pending <$> l) = interactionId <$> l /\ Forall (fun i => i_state i <> Pending) (cancel_pending <$> l).
Proof.
  induction l as [|i l [IH1 IH2]]; [by split|]. cbn. rewrite IH1. assert (interactionId (cancel_pending i) = interactionId i /\ i_state (cancel_pending i) <> Pending) as [-> H].
  { unfold cancel_pending, is_pending. by case_bool_decide. } by split; [|constructor].
Qed.

Lemma entity_values {A} (key : A -> jsstr) m : entity_ok key m -> NoDup (key <$> m.*2).
Proof.
  intros [H1 H2]. replace (key <$> m.*2) with (jkeys m); [exact H1|]. unfold jkeys. rewrite <- list_fmap_compose. clear H1. induction H2 as [|kx m H _ IH]; [done|]. cbn. by rewrite IH, <- H.
Qed.

(** A transcript rebuilt from the persisted messages and records can be loaded, when
    the calls of each message have distinct ids, none of the form of a frame id: the
    turns are t0, t1, ... in order with well-formed steps and frames, no two items share an
    id although markers and references are numbered by two passes, and no interaction is
    left pending, as the process that asked is gone. *)
Theorem cold_rebuild_loads agentId ms records : Forall message_ok ms ->
  let sn := foldWireRecordFacts iso records (groupMessagesIntoSnapshot parse ms) in
  op_ok Number (Reset agentId sn) /\ (exists n, turn_id <$> turns (sn_items sn) = tid <$> seqZ 0 n) /\ NoDup (itemIdOf <$> sn_items sn) /\
  Forall (fun i => i_state i <> Pending) (sn_interactions sn).
Proof.
  intros Hms. pose proof (grouped_ok ms Hms) as Hg. unfold groupMessagesIntoSnapshot, foldWireRecordFacts. cbv zeta. cbn [sn_items sn_interactions op_ok].
  set (g := fold_left _ ms _) in *. set (w := fold_left _ records _). assert (fold_ok (g_markers g) w) as Hw.
  { apply (fold_left_keeps (fold_ok (g_markers g))); [by apply initial_fold_ok|]. intros w0 r _. apply fold_record_ok. }
  destruct (rebuilt_items g w (ended_by_ordinal w) Hg Hw) as (E1 & E2 & E3 & E4). destruct (cancel_pending_keys (w_interactions w).*2) as [K1 K2].
  split; [split; [by apply (numbered_items_ok _ (g_next g))|]|split; [by exists (g_next g)|split; [|done]]].
  - rewrite K1. apply entity_values, Hw.
  - destruct Hw as ((H1 & H2 & H3 & H4 & H5 & H6) & _). apply (item_ids_nodup _ (g_next g) 1 (w_markerSeq w)); [done|done|by rewrite E3|by rewrite E3].
Qed.
End grouping.

(** * Witnesses *)

Definition demo_number (s : jsstr) : option Z := if all_digits s then Some (digits_value s) else None.

Lemma demo_number_int n : 0 <= n -> demo_number (string_of_int n) = Some n.
Proof. intros Hn. unfold demo_number. destruct (string_of_int_digits n Hn) as [-> ->]. done. Qed.

Definition demo_parse (s : jsstr) : option json := None.
Definition demo_iso (n : Z) : jsstr := string_of_int n.

Definition demo_history : list history_message :=
  [HistoryMessage (js "user") [HText (js "hi")] [] None false None;
   HistoryMessage (js "assistant") [HThink (js "hm"); HText (js "ok")] [HistoryCall (js "c1") (js "Read") None] None false None;
   HistoryMessage (js "tool") [HText (js "gone")] [] (Some (js "c1")) true None;
   HistoryMessage (js "user") [HText (js "/go")] [] None false (Some (JObject [(js "kind", JString (js "skill_activation")); (js "trigger", JString (js "user-slash"))]))].

Definition demo_record (type : string) (fields : list (jsstr * json)) : json := JObject ((js "type", JString (js type)) :: fields).

Definition demo_records : list json :=
  [demo_record "turn.prompt" [];
   demo_record "interaction.request" [(js "id", JString (js "i1")); (js "kind", JString (js "approval"))];
   demo_record "task.started" [(js "info", JObject [(js "taskId", JString (js "k1"))])];
   demo_record "turn.ended" [(js "turnId", JNumber 0); (js "reason", JString (js "failed"))];
   demo_record "goal.create" [(js "objective", JString (js "ship"))]].

Definition demo_rebuilt : snapshot := foldWireRecordFacts demo_iso demo_records (groupMessagesIntoSnapshot demo_parse demo_history).

(** The failed tool call shows its error, the request nobody answered is cancelled, the
    turn takes the state of its end record and the goal marker continues the numbering. *)
Example rebuilt_frames : (fun t => (turn_id t, t_state (t_header t), (fun st => frameId <$> s_frames st) <$> t_steps t)) <$> turns (sn_items demo_rebuilt) =
  [(js "t0", TurnFailed, [[js "t0.1.f1"; js "t0.1.f2"; js "t0.1.c1"]]); (js "t1", TurnCompleted, [])].
Proof. vm_compute. reflexivity. Qed.

Example rebuilt_items_order : itemIdOf <$> sn_items demo_rebuilt = [js "t0"; js "m1"; js "t1"; js "ref-k1"; js "m2"] /\
  (i_state <$> sn_interactions demo_rebuilt) = [Cancelled].
Proof. vm_compute. done. Qed.

Example cold_rebuild_loads_witness : Forall message_ok demo_history /\ op_ok demo_number (Reset (js "a") demo_rebuilt).
Proof.
  assert (Forall message_ok demo_history) as H.
  { repeat (constructor; [split; [try constructor; try set_solver; constructor|]|]); repeat constructor. intros n E. vm_compute in E. discriminate E. }
  split; [exact H|]. exact (proj1 (cold_rebuild_loads demo_number demo_parse demo_number_int demo_iso (js "a") demo_history demo_records H)).
Defined.

(** Two calls of one id in a message: the result is found at the last frame and put in
    place of the first, which takes its name. *)
Example result_on_wrong_call :
  (fun t => (fun st => (fun f => match f_body f with ToolCallFrame c => (f_name c, f_state c) | _ => ([], ToolRunning) end) <$> s_frames st) <$> t_steps t) <$>
    turns (sn_items (groupMessagesIntoSnapshot demo_parse
      [HistoryMessage (js "assistant") [] [HistoryCall (js "c") (js "A") None; HistoryCall (js "c") (js "B") None] None false None;
       HistoryMessage (js "tool") [HText (js "r")] [] (Some (js "c")) false None])) = [[[(js "B", ToolDone); (js "B", ToolRunning)]]].
Proof. vm_compute. reflexivity. Qed.
