(* ===== verification/ToolCalls.v ===== *)
(** The life of the tool calls of one response: [loop/tool-call.ts] and
    [loop/tool-args-parse.ts], with the streaming runner that prepares calls while the
    response still arrives. The host (tools, hooks, the dispatcher of events, the running
    tools) is a record of callbacks over a state of its own. What happens in the
    background while the batch waits (queued preparations, progress of running tools) is
    decided by the host at every point where the code awaits. Tools return executions and
    validators are total, as their types say; the catch clause of [prepareOne] is then
    never reached. Log lines, trace ids and vendor extras are left out. *)

From S2P Require Import Prelude JsMap Json JsonText JsString Messages ContextMemory ToolScheduler.

(** * Data *)

(** What is thrown: an abort, a [PathSecurityError], anything else; with its message. *)
Inductive tool_error : Type := AbortError (text : jsstr) | PathSecurity (text : jsstr) | Failure (text : jsstr).

Definition is_abort (e : tool_error) : bool := match e with AbortError _ => true | _ => false end.
Definition errorMessage (e : tool_error) : jsstr :=
  match e with AbortError t | PathSecurity t | Failure t => t end.

(** A result as a tool gives it; the flags say whether the field is [true]. *)
Record tool_result : Type := ToolResult {
  tr_output : tool_output;
  tr_isError : bool;
  tr_stopTurn : bool;
  tr_note : option json;
  tr_truncated : bool;
  tr_display : option json;
  tr_structured : option json;
}.

Inductive raw_value : Type := RawNull | RawPrimitive (typeof : jsstr) | RawMalformed | RawResult (r : tool_result).

(** The execution a tool resolves its arguments to. *)
Record runnable : Type := Runnable {
  x_accesses : option tool_accesses;
  x_description : option jsstr;
  x_display : option json;
  x_stopBatchAfterThis : bool;
}.
Inductive execution : Type := RunExecution (x : runnable) | ErrorExecution (r : tool_result).

(** What the prepare and authorize hooks decide. *)
Record hook_result : Type := HookResult {
  h_block : bool;
  h_reason : option jsstr;
  h_syntheticResult : option raw_value;
  h_executionMetadata : option json;
  h_updatedArgs : option json;
}.

Definition display_fields : Type := option (option jsstr * option json).

(** How a running tool ends: the signal had fired when its turn came; it returned, threw
    (with the signal seen by the handler), or ignored the abort for [GRACE_TIMEOUT_MS]. *)
Inductive outcome : Type :=
| NotStarted (userCancelled : bool)
| Returned (v : raw_value)
| GraceTimeout
| Threw (e : tool_error) (signal : option bool).

Record pending_result : Type := PendingResult { p_call : tool_call; p_args : json; p_result : tool_result; p_stopTurn : bool }.

(** A task given to the scheduler: settled already, or an authorized execution. *)
Record running : Type := Running { g_call : tool_call; g_args : json; g_metadata : option json; g_execution : runnable }.
Inductive task_promise : Type := Resolved (r : pending_result) | InFlight (g : running).

(** The closure that records [tool.call]; [gated] when it also opens the passthrough of
    the call's progress. *)
Record announcement : Type := Announcement { a_call : tool_call; a_args : json; a_display : display_fields; a_gated : bool }.

(** What is done, in order. *)
Inductive tool_act : Type :=
| PrepareHook (id : jsstr) (args : json) (v : option hook_result)
| AuthorizeHook (id : jsstr) (args : json) (v : option hook_result)
| Scheduled (g : running) (streaming : bool)
| Called (id name : jsstr) (args : json) (d : display_fields)
| Progress (id : jsstr) (update : json)
| FinalizeHook (id : jsstr)
| ResultOf (id : jsstr) (r : tool_result).

(** * Texts *)

Definition quoted (s : jsstr) : jsstr := [34]%N ++ s ++ [34]%N.
Definition EM_DASH : jsstr := [8212]%N.
Definition GRACE_TIMEOUT_MS : Z := 2000.
Definition TOOL_OUTPUT_EMPTY : jsstr := js "Tool output is empty.".
Definition TOOL_OUTPUT_NON_TEXT : jsstr := js "Tool returned non-text content.".
Definition UNEXECUTED_TOOL_CALL_OUTPUT : jsstr :=
  js "This tool call was not executed: the model response ended before tool execution could start (the provider stream was interrupted). Do not assume the tool ran " ++
  EM_DASH ++ js " re-issue the call if it is still needed.".
Definition RETRIED_PREPARATION_DISCARD_OUTPUT : jsstr :=
  js "This tool call was not executed: the model request was retried before the response completed, and this call was not part of the final response. Do not assume the tool ran " ++
  EM_DASH ++ js " re-issue the call if it is still needed.".
Definition SKIPPED_OUTPUT : jsstr := js "Tool skipped because a previous tool call stopped the turn.".

Definition abortedToolOutput (name : jsstr) (userCancelled : bool) : jsstr :=
  if userCancelled then
    js "The user manually interrupted " ++ quoted name ++
    js " (and anything else running at the same time). This was a deliberate user action, not a system error, timeout, or capacity limit. Do not retry automatically or guess at the cause " ++
    EM_DASH ++ js " wait for the user's next instruction."
  else js "Tool " ++ quoted name ++ js " was aborted".

(** * Results *)

Definition error_result (out : jsstr) : tool_result := ToolResult (OutText out) true false None false None None.

Definition coerceToolResult (v : raw_value) (name : jsstr) : tool_result :=
  match v with
  | RawNull => error_result (js "Tool " ++ quoted name ++ js " returned no result.")
  | RawPrimitive ty => error_result (js "Tool " ++ quoted name ++ js " returned a " ++ ty ++ js " instead of a tool result.")
  | RawMalformed => error_result (js "Tool " ++ quoted name ++ js " returned a result with a missing or malformed " ++ quoted (js "output") ++ js " field.")
  | RawResult r => r
  end.

Definition isMediaContentPart (p : content_part) : bool := match p with ImagePart _ | AudioPart _ | VideoPart _ => true | _ => false end.
Definition part_text (p : content_part) : jsstr := match p with TextPart t => t | _ => [] end.

Definition normalize_output (o : tool_output) : tool_output :=
  match o with
  | OutText t => OutText (if bool_decide (t = []) then TOOL_OUTPUT_EMPTY else t)
  | OutParts [] => OutText TOOL_OUTPUT_EMPTY
  | OutParts ps =>
      if existsb isMediaContentPart ps then
        if existsb (fun p => negb (bool_decide (part_text p = []))) ps then OutParts ps else OutParts (TextPart TOOL_OUTPUT_NON_TEXT :: ps)
      else OutText (let t := ps ≫= part_text in if bool_decide (t = []) then TOOL_OUTPUT_EMPTY else t)
  end.

Definition flat_param (v : json) : bool := match v with JString _ | JNumber _ => true | _ => false end.
Definition indexed (l : list json) : list (jsstr * json) := imap (fun i v => (string_of_int (Z.of_nat i), v)) l.

(** [{ key }] or [{ key, params }]; an array's entries are named by their index. *)
Definition normalizeResultDisplay (d : option json) : option json :=
  match d with
  | Some (JObject _ as v) =>
      match json_field v (js "key") with
      | Some (JString (u :: k)) =>
          let key := (js "key", JString (u :: k)) in
          match json_field v (js "params") with
          | None => Some (JObject [key])
          | Some (JObject fs) => if forallb (fun kv => flat_param kv.2) fs then Some (JObject [key; (js "params", JObject fs)]) else None
          | Some (JArray l) => if forallb flat_param l then Some (JObject [key; (js "params", JObject (indexed l))]) else None
          | _ => None
          end
      | _ => None
      end
  | _ => None
  end.

(** Values that are not plain JSON are no [json] here, so only the shape is left to ask. *)
Definition normalizeResultStructured (v : option json) : option json := match v with Some (JObject fs) => Some (JObject fs) | _ => None end.

Definition normalizeToolResult (r : tool_result) : tool_result :=
  ToolResult (normalize_output (tr_output r)) (tr_isError r) false
    (match tr_note r with Some (JString (u :: t)) => Some (JString (u :: t)) | _ => None end)
    (tr_truncated r) (normalizeResultDisplay (tr_display r)) (normalizeResultStructured (tr_structured r)).

Definition makeToolResult (c : tool_call) (args : json) (r : tool_result) : pending_result := PendingResult c args r (tr_stopTurn r).
Definition makeErrorToolResult (c : tool_call) (args : json) (out : jsstr) : pending_result := makeToolResult c args (error_result out).

(** * Identifiers *)

Definition suffixed (id : jsstr) (n : Z) : jsstr := id ++ js "_" ++ string_of_int n.

Fixpoint suffix_loop (fuel : nat) (used : list jsstr) (id : jsstr) (n : Z) : Z :=
  match fuel with
  | O => n
  | S fuel => if bool_decide (suffixed id n ∈ used) then suffix_loop fuel used id (n + 1) else n
  end.

Definition unique_id (used : list jsstr) (id : jsstr) : jsstr :=
  if bool_decide (id ∈ used) then suffixed id (suffix_loop (S (length used)) used id 2) else id.

Definition with_id (c : tool_call) (id : jsstr) : tool_call := ToolCall id (call_name c) (arguments c).

Fixpoint uniquify_loop (used : list jsstr) (l : list tool_call) : list tool_call :=
  match l with
  | [] => []
  | c :: l' => let id := unique_id used (call_id c) in with_id c id :: uniquify_loop (used ++ [id]) l'
  end.

Definition uniquifyToolCallIds (l : list tool_call) : list tool_call := uniquify_loop [] l.

(** * Callbacks and the monad *)

Section batch.
Context {W : Type}.

Abbreviation callback A := (W -> W * result tool_error A).

Record tool : Type := Tool { t_name : jsstr; t_validate : json -> option jsstr; t_resolveExecution : json -> callback execution }.

Inductive preflighted : Type :=
| Runnable_ (c : tool_call) (t : tool) (args : json)
| Rejected (c : tool_call) (args : json) (out : jsstr).

Definition pf_call (p : preflighted) : tool_call := match p with Runnable_ c _ _ | Rejected c _ _ => c end.
Definition pf_args (p : preflighted) : json := match p with Runnable_ _ _ a | Rejected _ a _ => a end.

Record preparation : Type := Preparation {
  r_call : tool_call; r_tool : tool; r_args : json; r_execution : runnable; r_metadata : option json; r_display : display_fields; r_announce : announcement;
}.

Record settled_call : Type := SettledCall { s_result : pending_result; s_stopBatch : bool; s_announce : announcement }.

(** [StreamingToolCallEntry]. *)
Inductive entry_state : Type :=
| SettledEntry (s : settled_call)
| StartedEntry (g : running) (a : announcement)
| DeferredEntry (p : preparation)
| SkippedEntry (p : preflighted).

(** An entry of the runner's map: the promise of a queued preparation, or its value. *)
Inductive stream_slot : Type := Waiting (c : tool_call) | Done (e : entry_state).

Record runner : Type := Runner {
  u_entries : list (jsstr * stream_slot);
  u_streamed : list tool_call;
  u_stopped : bool;
  u_announced : list jsstr;
  u_buffers : list (jsstr * list json);
}.
Definition new_runner : runner := Runner [] [] false [] [].

(** [th_signal] is the abort signal, with whether the person cancelled; [th_settle] the
    end of a scheduled execution; [th_tick], [th_progress] and [th_updates] what happens
    while the batch waits: other work, how many queued preparations get done, the updates
    running tools send. *)
Record tool_host : Type := ToolHost {
  th_tools : list tool;
  th_describeMissingTool : jsstr -> option jsstr;
  th_prepare : option (tool_call -> list tool_call -> json -> callback (option hook_result));
  th_authorize : option (tool_call -> list tool_call -> json -> runnable -> callback (option hook_result));
  th_finalize : option (tool_call -> list tool_call -> json -> tool_result -> callback (option raw_value));
  th_dispatch : tool_act -> callback unit;
  th_signal : W -> option bool;
  th_settle : running -> W -> W * outcome;
  th_tick : W -> W;
  th_progress : W -> nat;
  th_updates : W -> list (jsstr * json);
}.

(** [live] are the started executions and whether the runner started them; [outstanding]
    the pending results of the batch. *)
Record st : Type := St { world : W; run : runner; live : list (jsstr * bool); outstanding : list task_promise; trace : list tool_act }.

Definition M (A : Type) : Type := st -> st * result tool_error A.

Definition ret {A} (x : A) : M A := fun s => (s, Ok x).
Definition throw {A} (e : tool_error) : M A := fun s => (s, Err e).
Definition bind {A B} (m : M A) (k : A -> M B) : M B := fun s => let '(s', r) := m s in match r with Ok x => k x s' | Err e => (s', Err e) end.
Definition attempt {A} (m : M A) : M (result tool_error A) := fun s => let '(s', r) := m s in (s', Ok r).
Definition get : M st := fun s => (s, Ok s).
Definition upd_world (f : W -> W) : M unit := fun s => (St (f (world s)) (run s) (live s) (outstanding s) (trace s), Ok tt).
Definition upd_run (f : runner -> runner) : M unit := fun s => (St (world s) (f (run s)) (live s) (outstanding s) (trace s), Ok tt).
Definition set_outstanding (l : list task_promise) : M unit := fun s => (St (world s) (run s) (live s) l (trace s), Ok tt).
Definition set_live (id : jsstr) (streaming : bool) : M unit := fun s => (St (world s) (run s) (jset (live s) id streaming) (outstanding s) (trace s), Ok tt).
Definition tell (a : tool_act) : M unit := fun s => (St (world s) (run s) (live s) (outstanding s) (trace s ++ [a]), Ok tt).
Definition call {A} (f : callback A) : M A := fun s => let '(w, r) := f (world s) in (St w (run s) (live s) (outstanding s) (trace s), r).

Declare Scope tool_scope.
Notation "'let!' x ':=' m 'in' k" := (bind m (fun x => k)) (at level 10, x name, m at level 100, k at level 200) : tool_scope.
Notation "m ';;;' k" := (bind m (fun _ => k)) (at level 100, right associativity) : tool_scope.
Open Scope tool_scope.

Fixpoint each {A} (f : A -> M unit) (l : list A) : M unit := match l with [] => ret tt | x :: l' => f x ;;; each f l' end.

Context (parse : jsstr -> option json) (h : tool_host).

Definition signal : M (option bool) := let! s := get in ret (th_signal h (world s)).

Definition dispatch (a : tool_act) : M unit := tell a ;;; call (th_dispatch h a).
Definition dispatch_live (a : tool_act) : M unit := tell a ;;; (let! _ := attempt (call (th_dispatch h a)) in ret tt).

(** [null] and [undefined] give way to the other value. *)
Definition nullish (a : option json) (b : json) : json := match a with None | Some JNull => b | Some v => v end.
Definition nullish_opt (a b : option json) : option json := match a with None | Some JNull => b | Some v => Some v end.

(** * Preparation *)

(** The parsed arguments; [{}] when there are none or they do not parse. *)
Definition parseToolCallArguments (raw : option jsstr) : json :=
  match raw with None | Some [] => JObject [] | Some r => default (JObject []) (parse r) end.

Definition find_tool (name : jsstr) : option tool := List.find (fun t => bool_decide (t_name t = name)) (th_tools h).

Definition preflightToolCall (c : tool_call) : preflighted :=
  let args := parseToolCallArguments (arguments c) in
  let name := call_name c in
  match find_tool name with
  | None => Rejected c args (default (js "Tool " ++ quoted name ++ js " not found") (th_describeMissingTool h name))
  | Some t =>
      match t_validate t args with
      | Some e => Rejected c args (js "Invalid args for tool " ++ quoted name ++ js ": " ++ e)
      | None => Runnable_ c t args
      end
  end.

Definition settlePreparationError (c : tool_call) (args : json) (out : jsstr) (d : display_fields) : settled_call :=
  SettledCall (makeErrorToolResult c args out) false (Announcement c args d false).

Definition settlePreparationSynthetic (c : tool_call) (args : json) (v : raw_value) (d : display_fields) : settled_call :=
  let coerced := coerceToolResult v (call_name c) in
  SettledCall (makeToolResult c args coerced) (tr_stopTurn coerced) (Announcement c args d false).

Inductive prepare_decision : Type :=
| Allowed (args : json) (metadata : option json)
| Synthetic (args : json) (v : raw_value)
| Refused (args : json) (out : jsstr).

Definition in_tool (what name tail : jsstr) : jsstr := what ++ quoted name ++ tail.

Definition runPrepareToolExecutionHook (calls : list tool_call) (c : tool_call) (args : json) : M prepare_decision :=
  match th_prepare h with
  | None => ret (Allowed args None)
  | Some f =>
      let! r := attempt (call (f c calls args)) in
      match r with
      | Err e =>
          let! sig := signal in
          ret (Refused args
            (if is_abort e || bool_decide (sig <> None) then in_tool (js "Tool ") (call_name c) (js " was aborted during prepareToolExecution hook")
             else in_tool (js "prepareToolExecution hook failed for ") (call_name c) (js ": " ++ errorMessage e)))
      | Ok v =>
          tell (PrepareHook (call_id c) args v) ;;;
          ret (match v with
               | None => Allowed args None
               | Some v =>
                   let effective := nullish (h_updatedArgs v) args in
                   if h_block v then Refused effective (default (in_tool (js "Tool call ") (call_name c) (js " was blocked")) (h_reason v))
                   else match h_syntheticResult v with
                        | Some syn => Synthetic effective syn
                        | None => Allowed effective (h_executionMetadata v)
                        end
               end)
      end
  end.

Definition toolCallDisplayFieldsFromExecution (x : execution) : display_fields :=
  match x with
  | ErrorExecution _ => None
  | RunExecution x => Some (match x_description x with Some [] => None | d => d end, x_display x)
  end.

Definition resolve_failed (name : jsstr) (e : tool_error) : jsstr :=
  match e with PathSecurity t => t | _ => in_tool (js "Tool ") name (js " failed to resolve execution: " ++ errorMessage e) end.

(** What preparing and re-resolving share: the arguments are validated and resolved, the
    signal is looked at, an execution that is an error settles the call. [fields] are used
    when the execution gives none. *)
Definition resolve_args (phase : jsstr) (c : tool_call) (t : tool) (args : json) (fields : display_fields) : M (settled_call + runnable * display_fields) :=
  match t_validate t args with
  | Some e => ret (inl (settlePreparationError c args (in_tool (js "Invalid args for tool ") (call_name c) (js " after " ++ phase ++ js " hook: " ++ e)) fields))
  | None =>
      let! r := attempt (call (t_resolveExecution t args)) in
      match r with
      | Err e => ret (inl (settlePreparationError c args (resolve_failed (call_name c) e) fields))
      | Ok x =>
          let d := match toolCallDisplayFieldsFromExecution x with Some d => Some d | None => fields end in
          let! sig := signal in
          match sig, x with
          | Some user, _ => ret (inl (settlePreparationError c args (abortedToolOutput (call_name c) user) d))
          | None, ErrorExecution r => ret (inl (settlePreparationSynthetic c args (RawResult r) d))
          | None, RunExecution x => ret (inr (x, d))
          end
      end
  end.

Definition resolveToolCallPreparation (calls : list tool_call) (pf : preflighted) : M (settled_call + preparation) :=
  match pf with
  | Rejected c args out => ret (inl (settlePreparationError c args out None))
  | Runnable_ c t args =>
      let! decision := runPrepareToolExecutionHook calls c args in
      match decision with
      | Refused args out => ret (inl (settlePreparationError c args out None))
      | Synthetic args v => ret (inl (settlePreparationSynthetic c args v None))
      | Allowed args metadata =>
          let! r := resolve_args (js "prepareToolExecution") c t args None in
          ret (match r with
               | inl s => inl s
               | inr (x, d) => inr (Preparation c t args x metadata d (Announcement c args d false))
               end)
      end
  end.

Definition blocked (reason : jsstr) : hook_result := HookResult true (Some reason) None None None.

Definition runAuthorizeToolExecutionHook (calls : list tool_call) (c : tool_call) (args : json) (x : runnable) : M (option hook_result) :=
  match th_authorize h with
  | None => ret None
  | Some f =>
      let! r := attempt (call (f c calls args x)) in
      let! v := match r with
                | Ok v => ret v
                | Err e =>
                    let! sig := signal in
                    ret (Some (blocked (if is_abort e || bool_decide (sig <> None) then in_tool (js "Tool ") (call_name c) (js " was aborted during authorizeToolExecution hook")
                                        else in_tool (js "authorizeToolExecution hook failed for ") (call_name c) (js ": " ++ errorMessage e))))
                end in
      tell (AuthorizeHook (call_id c) args v) ;;; ret v
  end.

Record authorized : Type := Authorized { z_task : running; z_stopBatch : bool; z_announce : announcement }.

Definition authorizeToolCallPreparation (calls : list tool_call) (p : preparation) : M (settled_call + authorized) :=
  let c := r_call p in
  let! v := runAuthorizeToolExecutionHook calls c (r_args p) (r_execution p) in
  let! sig := signal in
  match sig with
  | Some user => ret (inl (settlePreparationError c (r_args p) (abortedToolOutput (call_name c) user) (r_display p)))
  | None =>
      let metadata := nullish_opt (v ≫= h_executionMetadata) (r_metadata p) in
      let go args x a := ret (inr (Authorized (Running c args metadata x) (x_stopBatchAfterThis x) a)) in
      match v with
      | None => go (r_args p) (r_execution p) (r_announce p)
      | Some v =>
          if h_block v then
            ret (inl (settlePreparationError c (r_args p) (default (in_tool (js "Tool call ") (call_name c) (js " was blocked")) (h_reason v)) (r_display p)))
          else
            match h_syntheticResult v, h_updatedArgs v with
            | Some syn, _ => ret (inl (settlePreparationSynthetic c (r_args p) syn (r_display p)))
            | None, None => go (r_args p) (r_execution p) (r_announce p)
            | None, Some args =>
                let! r := resolve_args (js "authorizeToolExecution") c (r_tool p) args (r_display p) in
                match r with
                | inl s => ret (inl s)
                | inr (x, d) => go args x (Announcement c args d false)
                end
            end
      end
  end.

(** ** Announcing *)

Definition announced (id : jsstr) (u : runner) : runner :=
  Runner (u_entries u) (u_streamed u) (u_stopped u) (if bool_decide (id ∈ u_announced u) then u_announced u else u_announced u ++ [id]) (jdel (u_buffers u) id).

(** [announce()], wrapped by the runner when [a_gated]: the buffered progress follows. *)
Definition announce (a : announcement) : M unit :=
  let id := call_id (a_call a) in
  dispatch (Called id (call_name (a_call a)) (a_args a) (a_display a)) ;;;
  if a_gated a then
    let! s := get in
    let buffered := default [] (jget (u_buffers (run s)) id) in
    upd_run (announced id) ;;; each (fun u => dispatch_live (Progress id u)) buffered
  else ret tt.

Definition gate_update (id : jsstr) (update : json) (u : runner) : runner :=
  Runner (u_entries u) (u_streamed u) (u_stopped u) (u_announced u) (jset (u_buffers u) id (default [] (jget (u_buffers u) id) ++ [update])).

(** [onUpdate] of a running tool. *)
Definition onUpdate (iu : jsstr * json) : M unit :=
  let! s := get in
  match th_signal h (world s), jget (live s) iu.1 with
  | None, Some gated =>
      if gated && negb (bool_decide (iu.1 ∈ u_announced (run s))) then upd_run (gate_update iu.1 iu.2)
      else dispatch_live (Progress iu.1 iu.2)
  | _, _ => ret tt
  end.

(** * The streaming runner *)

Definition reads (o : file_operation) : bool := match o with OpRead | OpSearch => true | _ => false end.

Definition isStreamingEligible (x : runnable) : bool :=
  negb (x_stopBatchAfterThis x) &&
  match x_accesses x with
  | None => false
  | Some l => forallb (fun a => match a with AccessFile f => reads (fa_operation f) | AccessAll => false end) l
  end.

Definition gated (a : announcement) : announcement := Announcement (a_call a) (a_args a) (a_display a) true.
Definition stop_runner (b : bool) : M unit := if b then upd_run (fun u => Runner (u_entries u) (u_streamed u) true (u_announced u) (u_buffers u)) else ret tt.

Definition markStoppedOnSettle (s : settled_call) : M entry_state :=
  stop_runner (s_stopBatch s) ;;; ret (SettledEntry (SettledCall (s_result s) (s_stopBatch s) (gated (s_announce s)))).

Definition schedule (g : running) (streaming : bool) : M unit := tell (Scheduled g streaming) ;;; set_live (call_id (g_call g)) streaming.

Definition prepareOne (c : tool_call) : M entry_state :=
  let pf := preflightToolCall c in
  let! s := get in
  if u_stopped (run s) then ret (SkippedEntry pf)
  else
    let calls := u_streamed (run s) in
    let! r := resolveToolCallPreparation calls pf in
    match r with
    | inl s => markStoppedOnSettle s
    | inr p =>
        let! sig := signal in
        if negb (isStreamingEligible (r_execution p)) || bool_decide (sig <> None) then
          stop_runner (x_stopBatchAfterThis (r_execution p)) ;;; ret (DeferredEntry p)
        else
          let! z := authorizeToolCallPreparation calls p in
          match z with
          | inl s => markStoppedOnSettle s
          | inr z => schedule (z_task z) true ;;; ret (StartedEntry (z_task z) (gated (z_announce z)))
          end
    end.

Definition set_entries (l : list (jsstr * stream_slot)) (u : runner) : runner := Runner l (u_streamed u) (u_stopped u) (u_announced u) (u_buffers u).

(** [addReady]: queued on the chain of preparations, unless the batch is stopped. *)
Definition addReady (c : tool_call) (u : runner) : runner :=
  if bool_decide (call_id c ∈ jkeys (u_entries u)) then u
  else
    Runner (jset (u_entries u) (call_id c) (if u_stopped u then Done (SkippedEntry (preflightToolCall c)) else Waiting c))
      (u_streamed u ++ [c]) (u_stopped u) (u_announced u) (u_buffers u).

(** One turn of the chain: the first queued call is prepared. *)
Definition first_waiting (u : runner) : option tool_call :=
  head (omap (fun e => match e.2 with Waiting c => Some c | Done _ => None end) (u_entries u)).

Definition chain_step : M unit :=
  let! s := get in
  match first_waiting (run s) with
  | None => ret tt
  | Some c => let! e := prepareOne c in upd_run (fun u => set_entries (jset (u_entries u) (call_id c) (Done e)) u)
  end.

Fixpoint chain_steps (n : nat) : M unit := match n with O => ret tt | S n => chain_step ;;; chain_steps n end.

(** What happens while the batch awaits something. *)
Definition background : M unit :=
  upd_world (th_tick h) ;;;
  let! s := get in
  chain_steps (th_progress h (world s)) ;;;
  let! s := get in
  each onUpdate (th_updates h (world s)).

(** Awaits the preparation of an entry: those queued before it come first. *)
Fixpoint await_entry (n : nat) (id : jsstr) : M (option entry_state) :=
  let! s := get in
  match jget (u_entries (run s)) id with
  | None => ret None
  | Some (Done e) => ret (Some e)
  | Some (Waiting _) => match n with O => ret None | S n => chain_step ;;; await_entry n id end
  end.

Definition takeEntry (id : jsstr) : M (option entry_state) :=
  background ;;;
  let! s := get in
  let! e := await_entry (length (u_entries (run s))) id in
  upd_run (fun u => set_entries (jdel (u_entries u) id) u) ;;; ret e.

(** * Executions *)

Definition run_result (g : running) (o : outcome) : pending_result :=
  let name := call_name (g_call g) in
  match o with
  | NotStarted user => makeErrorToolResult (g_call g) (g_args g) (abortedToolOutput name user)
  | Returned v => makeToolResult (g_call g) (g_args g) (coerceToolResult v name)
  | GraceTimeout =>
      makeToolResult (g_call g) (g_args g) (error_result (in_tool (js "Tool ") name (js " aborted by grace timeout (" ++ string_of_int GRACE_TIMEOUT_MS ++ js "ms)")))
  | Threw e sig =>
      makeErrorToolResult (g_call g) (g_args g)
        (match sig, is_abort e with
         | Some user, _ => abortedToolOutput name user
         | None, true => abortedToolOutput name false
         | None, false => in_tool (js "Tool ") name (js " failed: " ++ errorMessage e)
         end)
  end.

(** Awaiting a pending result; what a task resolves to is never an error. *)
Definition await_result (t : task_promise) : M pending_result :=
  background ;;;
  match t with
  | Resolved r => ret r
  | InFlight g => fun s => let '(w, o) := th_settle h g (world s) in (St w (run s) (live s) (outstanding s) (trace s), Ok (run_result g o))
  end.

Definition finalizePendingToolResult (calls : list tool_call) (p : pending_result) : M pending_result :=
  match th_finalize h with
  | None => ret (PendingResult (p_call p) (p_args p) (normalizeToolResult (p_result p)) (p_stopTurn p))
  | Some f =>
      let name := call_name (p_call p) in
      tell (FinalizeHook (call_id (p_call p))) ;;;
      let! r := attempt (call (f (p_call p) calls (p_args p) (p_result p))) in
      match r with
      | Ok v =>
          let effective := match v with None | Some RawNull => p_result p | Some v => coerceToolResult v name end in
          ret (PendingResult (p_call p) (p_args p) (normalizeToolResult effective) (p_stopTurn p || tr_stopTurn effective))
      | Err e =>
          let! sig := signal in
          let out := if is_abort e || bool_decide (sig <> None) then in_tool (js "Tool ") name (js " aborted during finalizeToolResult hook.")
                     else in_tool (js "finalizeToolResult hook failed for ") name (js ": " ++ errorMessage e) in
          ret (PendingResult (p_call p) (p_args p) (error_result out) (p_stopTurn p))
      end
  end.

Definition dispatchToolResult (p : pending_result) : M unit := dispatch (ResultOf (call_id (p_call p)) (p_result p)).

Definition finalizeAndDispatchToolResult (calls : list tool_call) (p : pending_result) : M unit :=
  let! r := finalizePendingToolResult calls p in dispatchToolResult r.

(** * The batch *)

(** A prepared call: settled, to be started, or started while the response arrived; with
    whether the batch stops after it. *)
Inductive prepared_task : Type := SettledTask (r : pending_result) | NewTask (g : running) | WrappedTask (g : running).

(** [scheduler.add] of a task, kept among the pending results. *)
Definition add_task (t : prepared_task) : M unit :=
  match t with NewTask g => schedule g false | _ => ret tt end ;;;
  let! s := get in
  set_outstanding (outstanding s ++ [match t with SettledTask r => Resolved r | NewTask g | WrappedTask g => InFlight g end]).

Definition prepared_authorized (calls : list tool_call) (p : preparation) : M (prepared_task * bool) :=
  let! z := authorizeToolCallPreparation calls p in
  match z with
  | inl s => announce (s_announce s) ;;; ret (SettledTask (s_result s), s_stopBatch s)
  | inr z => announce (z_announce z) ;;; ret (NewTask (z_task z), z_stopBatch z)
  end.

Definition prepareToolCall (calls : list tool_call) (pf : preflighted) : M (prepared_task * bool) :=
  let! r := resolveToolCallPreparation calls pf in
  match r with
  | inl s => announce (s_announce s) ;;; ret (SettledTask (s_result s), s_stopBatch s)
  | inr p => prepared_authorized calls p
  end.

Definition prepareSkippedToolCall (pf : preflighted) : M prepared_task :=
  announce (Announcement (pf_call pf) (pf_args pf) None false) ;;; ret (SettledTask (makeErrorToolResult (pf_call pf) (pf_args pf) SKIPPED_OUTPUT)).

Definition materialize (calls : list tool_call) (id : jsstr) : M (option (prepared_task * bool)) :=
  let! e := takeEntry id in
  match e with
  | None => ret None
  | Some (SettledEntry s) => announce (s_announce s) ;;; ret (Some (SettledTask (s_result s), s_stopBatch s))
  | Some (StartedEntry g a) => announce a ;;; ret (Some (WrappedTask g, false))
  | Some (DeferredEntry p) => let! r := prepared_authorized calls p in ret (Some r)
  | Some (SkippedEntry pf) => let! t := prepareSkippedToolCall pf in ret (Some (t, false))
  end.

(** [drainOrphanedPreparations]: entries whose call is not in the response. *)
Definition drain_orphan (calls : list tool_call) (id : jsstr) : M unit :=
  let! e := takeEntry id in
  match e with
  | None | Some (SkippedEntry _) => ret tt
  | Some (StartedEntry g _) => let! p := await_result (InFlight g) in let! _ := finalizePendingToolResult calls p in ret tt
  | Some (SettledEntry s) => let! _ := finalizePendingToolResult calls (s_result s) in ret tt
  | Some (DeferredEntry p) => let! _ := finalizePendingToolResult calls (makeErrorToolResult (r_call p) (r_args p) RETRIED_PREPARATION_DISCARD_OUTPUT) in ret tt
  end.

Definition drainOrphanedPreparations (calls : list tool_call) : M unit :=
  let! s := get in
  each (drain_orphan calls) (List.filter (fun id => negb (bool_decide (id ∈ call_id <$> calls))) (jkeys (u_entries (run s)))).

(** With a runner, the call's entry; without one there is none. *)
Definition materialize_call (streaming : bool) (calls : list tool_call) (c : tool_call) : M (prepared_task * bool) :=
  let! m := (if streaming then materialize calls (call_id c) else ret None) in
  match m with
  | Some r => ret r
  | None => background ;;; prepareToolCall calls (preflightToolCall c)
  end.

Definition skip_call (streaming : bool) (c : tool_call) : M unit :=
  let! e := (if streaming then takeEntry (call_id c) else ret None) in
  let pf := match e with Some (SkippedEntry pf) => pf | _ => preflightToolCall c end in
  let! t := prepareSkippedToolCall pf in add_task t.

(** The loop over the calls, up to and including the first that stops the batch. *)
Fixpoint prepare_calls (streaming : bool) (calls rest : list tool_call) : M bool :=
  match rest with
  | [] => ret false
  | c :: rest =>
      let! r := materialize_call streaming calls c in
      add_task r.1 ;;;
      if r.2 then each (skip_call streaming) rest ;;; ret true else prepare_calls streaming calls rest
  end.

Definition next_outstanding : M (option task_promise) :=
  let! s := get in
  match outstanding s with [] => ret None | t :: l => set_outstanding l ;;; ret (Some t) end.

(** The loop over the pending results: whether one stops the turn. *)
Fixpoint drain_results (n : nat) (calls : list tool_call) : M bool :=
  match n with
  | O => ret false
  | S n =>
      let! t := next_outstanding in
      match t with
      | None => ret false
      | Some t =>
          let! p := await_result t in
          let! r := finalizePendingToolResult calls p in
          dispatchToolResult r ;;;
          let! b := drain_results n calls in
          ret (p_stopTurn r || b)
      end
  end.

(** [Promise.allSettled(pendingResults)]: those awaited already have settled. *)
Fixpoint settle_rest (n : nat) : M unit :=
  match n with
  | O => ret tt
  | S n => let! t := next_outstanding in match t with None => ret tt | Some t => let! _ := await_result t in settle_rest n end
  end.

Definition finally {A} (m : M A) : M A :=
  let! r := attempt m in
  let! s := get in
  settle_rest (length (outstanding s)) ;;;
  match r with Ok x => ret x | Err e => throw e end.

(** [runToolCallBatch]: whether the turn stops. *)
Definition runToolCallBatch (streaming : bool) (response : list tool_call) : M bool :=
  match response with
  | [] => (if streaming then drainOrphanedPreparations [] else ret tt) ;;; ret false
  | _ =>
      let calls := uniquifyToolCallIds response in
      finally
        ((if streaming then drainOrphanedPreparations calls else ret tt) ;;;
         let! stop := prepare_calls streaming calls calls in
         let! s := get in
         let! stop' := drain_results (length (outstanding s)) calls in
         ret (stop || stop'))
  end.

(** * Interrupted responses *)

Definition recordUnexecutedToolCall (c : tool_call) : M unit :=
  dispatch (Called (call_id c) (call_name c) (parseToolCallArguments (arguments c)) None) ;;;
  dispatch (ResultOf (call_id c) (error_result UNEXECUTED_TOOL_CALL_OUTPUT)).

Definition recordUnexecutedToolCalls (response : list tool_call) : M unit := each recordUnexecutedToolCall response.

Definition drain_interrupted (calls : list tool_call) (c : tool_call) : M unit :=
  let! e := takeEntry (call_id c) in
  match e with
  | None | Some (SkippedEntry _) => recordUnexecutedToolCall c
  | Some (SettledEntry s) => announce (s_announce s) ;;; finalizeAndDispatchToolResult calls (s_result s)
  | Some (StartedEntry g a) => announce a ;;; let! p := await_result (InFlight g) in finalizeAndDispatchToolResult calls p
  | Some (DeferredEntry p) =>
      announce (r_announce p) ;;; finalizeAndDispatchToolResult calls (makeErrorToolResult (r_call p) (r_args p) UNEXECUTED_TOOL_CALL_OUTPUT)
  end.

Definition drainInterruptedToolCalls (response : list tool_call) : M unit :=
  let calls := uniquifyToolCallIds response in
  drainOrphanedPreparations calls ;;; each (drain_interrupted calls) calls.

(** * Sessions of the runner *)

(** What leads to a batch: the runner is created for a step, calls are fed to it as their
    arguments complete, and the world goes on. *)
Inductive streamed : st -> Prop :=
| streamed_new w : streamed (St w new_runner [] [] [])
| streamed_add s c : streamed s -> streamed (upd_run (addReady c) s).1
| streamed_background s : streamed s -> streamed (background s).1.

End batch.
