(* ===== verification/ToolCallExamples.v ===== *)
(** Concrete hosts and batches: what they show, and what the code does in the corners its
    comments leave out. *)

From S2P Require Import Prelude JsMap Json JsonText JsString Messages ContextMemory ToolScheduler ToolCalls.

(** * Concrete batches *)

(** "read" only reads; "write" does not, and stops the batch when its arguments are not the
    empty object. What is queued gets prepared whenever the batch waits. *)
Definition ex_call (id name args : string) : tool_call := ToolCall (js id) (js name) (Some (js args)).
Definition ex_parse (t : jsstr) : option json := if bool_decide (t = []) then None else Some (JString t).
Definition ex_is_stop (v : json) : bool := match v with JString t => bool_decide (t = js "stop") | _ => false end.
Definition ex_read : @tool nat := Tool (js "read") (fun _ => None) (fun _ w => (w, Ok (RunExecution (Runnable (Some (readFile (js "/f"))) None None false)))).
Definition ex_write : @tool nat := Tool (js "write") (fun _ => None)
  (fun args w => (w, Ok (RunExecution (Runnable (Some (writeFile (js "/f"))) None None (ex_is_stop args))))).
Definition ex_result : tool_result := ToolResult (OutText (js "done")) false false None false None None.
Definition ex_host (tools : list (@tool nat)) (authorize : tool_call -> option hook_result) : @tool_host nat :=
  ToolHost tools (fun _ => None) None (Some (fun c _ _ _ w => (w, Ok (authorize c)))) None (fun _ w => (S w, Ok tt)) (fun _ => None) (fun _ w => (w, Returned (RawResult ex_result)))
    (fun w => w) (fun _ => 9%nat) (fun _ => [(js "a", JNull)]).
Definition ex_plain : @tool_host nat := ex_host [ex_read; ex_write] (fun _ => None).

Definition ex_stream (h : @tool_host nat) (l : list tool_call) : @st nat :=
  (background ex_parse h (fold_left (fun s c => (upd_run (addReady ex_parse h c) s).1) l (St 0%nat new_runner [] [] []))).1.

Lemma ex_streamed h l : streamed ex_parse h (ex_stream h l).
Proof.
  apply streamed_background. assert (forall s, streamed ex_parse h s -> streamed ex_parse h (fold_left (fun s c => (upd_run (addReady ex_parse h c) s).1) l s)) as H.
  { induction l as [|c l IH]; intros s Hs; [done|]. apply IH. by constructor. }
  apply H. constructor.
Defined.

Definition ex_calls : list tool_call := [ex_call "a" "read" "1"; ex_call "b" "write" "2"; ex_call "a" "read" "3"; ex_call "c" "none" "4"].

(** What the batch shows, as pairs of an id and whether it is a call. *)
Definition ex_shown (l : list tool_act) : list (jsstr * bool) :=
  omap (fun a => match a with Called id _ _ _ => Some (id, true) | ResultOf id _ => Some (id, false) | _ => None end) l.
Definition ex_started (l : list tool_act) : list (jsstr * bool) := omap (fun a => match a with Scheduled g b => Some (call_id (g_call g), b) | _ => None end) l.

Example batch_shown : let s := (runToolCallBatch ex_parse ex_plain true ex_calls (ex_stream ex_plain ex_calls)).1 in
  ex_shown (trace s) = [(js "a", true); (js "b", true); (js "a_2", true); (js "c", true); (js "a", false); (js "b", false); (js "a_2", false); (js "c", false)] /\
  ex_started (trace s) = [(js "a", true); (js "b", false); (js "a_2", false)].
Proof. by vm_compute. Qed.

(** The calls and the arguments a tool was started with. *)
Definition ex_ran (l : list tool_act) : list (jsstr * json) := omap (fun a => match a with Scheduled g _ => Some (call_id (g_call g), g_args g) | _ => None end) l.

(** The second of two equal ids takes the suffixed id that the provider gave to a third
    call, and with it the third call's stream entry: the third call's arguments run twice,
    the second's never. *)
Definition ex_clash : list tool_call := [ex_call "a" "read" "1"; ex_call "a" "read" "2"; ex_call "a_2" "read" "3"].
Example renamed_call_takes_another : let s := (runToolCallBatch ex_parse ex_plain true ex_clash (ex_stream ex_plain ex_clash)).1 in
  ex_ran (trace s) = [(js "a", JString (js "1")); (js "a_2", JString (js "3")); (js "a_2_2", JString (js "3"))].
Proof. by vm_compute. Qed.

(** Without a runner the same response runs each call's own arguments. *)
Example renamed_call_alone : let s := (runToolCallBatch ex_parse ex_plain false ex_clash (St 0%nat new_runner [] [] [])).1 in
  ex_ran (trace s) = [(js "a", JString (js "1")); (js "a_2", JString (js "2")); (js "a_2_2", JString (js "3"))].
Proof. by vm_compute. Qed.

(** A call that only reads is let start early before the authorize hook is asked; arguments
    the hook puts in their place may write and stop the batch: they run early all the same,
    and the batch goes on. *)
Definition ex_both : @tool nat := Tool (js "edit") (fun _ => None)
  (fun args w => (w, Ok (RunExecution (if ex_is_stop args then Runnable (Some (writeFile (js "/f"))) None None true
                                       else Runnable (Some (readFile (js "/f"))) None None false)))).
Definition ex_rewrite (id : string) : @tool_host nat :=
  ex_host [ex_read; ex_write; ex_both] (fun c => if bool_decide (call_id c = js id) then Some (HookResult false None None None (Some (JString (js "stop")))) else None).
Definition ex_edit : list tool_call := [ex_call "a" "edit" "1"; ex_call "b" "read" "2"].
Example rewritten_call_starts_early : let '(s, r) := runToolCallBatch ex_parse (ex_rewrite "a") true ex_edit (ex_stream (ex_rewrite "a") ex_edit) in
  r = Ok false /\ ex_started (trace s) = [(js "a", true); (js "b", true)] /\
  omap (fun a => match a with Scheduled g true => Some (isStreamingEligible (g_execution g), x_stopBatchAfterThis (g_execution g)) | _ => None end) (trace s) = [(false, true); (true, false)].
Proof. by vm_compute. Qed.

(** Without a runner it stops the batch. *)
Example rewritten_call_alone : let '(s, r) := runToolCallBatch ex_parse (ex_rewrite "a") false ex_edit (St 0%nat new_runner [] [] []) in
  r = Ok true /\ ex_started (trace s) = [(js "a", false)].
Proof. by vm_compute. Qed.

Definition ex_outputs (l : list tool_act) : list (jsstr * tool_output) := omap (fun a => match a with ResultOf id r => Some (id, tr_output r) | _ => None end) l.

(** A call started early is reported as skipped when the one before it, authorized after
    the response, stops the batch. *)
Definition ex_late_stop : list tool_call := [ex_call "a" "write" "1"; ex_call "b" "read" "2"].
Example started_call_reported_skipped : let s := (runToolCallBatch ex_parse (ex_rewrite "a") true ex_late_stop (ex_stream (ex_rewrite "a") ex_late_stop)).1 in
  ex_started (trace s) = [(js "b", true); (js "a", false)] /\ ex_outputs (trace s) = [(js "a", OutText (js "done")); (js "b", OutText SKIPPED_OUTPUT)].
Proof. by vm_compute. Qed.

(** An interrupted response is recorded with its repeated ids when nothing was streamed. *)
Example unexecuted_ids_repeat : let s := (recordUnexecutedToolCalls ex_parse ex_plain [ex_call "a" "read" "1"; ex_call "a" "read" "2"] (St 0%nat new_runner [] [] [])).1 in
  ex_shown (trace s) = [(js "a", true); (js "a", false); (js "a", true); (js "a", false)].
Proof. by vm_compute. Qed.
