(* ===== verification/ToolCallLaws.v ===== *)
(** What holds of a batch of tool calls, whatever the tools, the hooks and the stream do:
    every call is recorded and answered once, in order, by the batch or when the response
    was interrupted. *)

From S2P Require Import Prelude JsMap Json JsonText JsString Messages ContextMemory ToolScheduler ToolCalls ToolCallExamples.

(** * Identifiers *)

Lemma suffixed_inj id n1 n2 : suffixed id n1 = suffixed id n2 -> n1 = n2.
Proof.
  unfold suffixed. intros E. do 2 apply app_inv_head in E. destruct (string_of_int_inj n1 n2 [] []) as [H _]; [done|done|by rewrite !app_nil_r|done].
Qed.

(** Among [k] suffixes all taken there are [k] taken ids. *)
Lemma taken_suffixes used id k : forall n, (forall i, 0 <= i < Z.of_nat k -> suffixed id (n + i) ∈ used) -> (k <= length used)%nat.
Proof.
  intros n H. replace k with (length ((fun i => suffixed id (n + i)) <$> seqZ 0 (Z.of_nat k))) by (rewrite length_fmap, length_seqZ; lia).
  apply submseteq_length, NoDup_submseteq.
  - apply NoDup_fmap_2; [|apply NoDup_seqZ]. intros a b E%suffixed_inj. lia.
  - intros x (i & -> & Hi%elem_of_seqZ)%list_elem_of_fmap. apply H. lia.
Qed.

Lemma suffix_loop_spec fuel used id : forall n, suffixed id (suffix_loop fuel used id n) ∉ used \/ forall i, 0 <= i < Z.of_nat fuel -> suffixed id (n + i) ∈ used.
Proof.
  induction fuel as [|fuel IH]; intros n; cbn; [right; lia|]. case_bool_decide as H; [|by left].
  destruct (IH (n + 1)) as [H1|H1]; [by left|]. right. intros i Hi. destruct (decide (i = 0)) as [->|]; [by rewrite Z.add_0_r|].
  replace (n + i) with (n + 1 + (i - 1)) by lia. apply H1. lia.
Qed.

Lemma unique_id_fresh used id : unique_id used id ∉ used.
Proof.
  unfold unique_id. case_bool_decide as H; [|done]. destruct (suffix_loop_spec (S (length used)) used id 2) as [H1|H1]; [done|].
  apply taken_suffixes in H1. lia.
Qed.

Lemma uniquify_loop_spec l : forall used, NoDup used -> NoDup (used ++ (call_id <$> uniquify_loop used l)).
Proof.
  induction l as [|c l IH]; intros used Hn; cbn [uniquify_loop]; [by rewrite app_nil_r|]. cbv zeta. cbn [fmap list_fmap with_id call_id].
  assert (NoDup (used ++ [unique_id used (call_id c)])) as H.
  { apply NoDup_app. split; [done|]. split; [|apply NoDup_singleton]. intros x Hx ->%list_elem_of_singleton. by apply unique_id_fresh in Hx. }
  specialize (IH _ H). by rewrite <- app_assoc in IH.
Qed.

Lemma uniquify_loop_same l : forall used, NoDup (used ++ (call_id <$> l)) -> uniquify_loop used l = l.
Proof.
  induction l as [|c l IH]; intros used Hn; cbn [uniquify_loop]; [done|]. cbv zeta. cbn [fmap list_fmap] in Hn.
  assert (unique_id used (call_id c) = call_id c) as ->.
  { unfold unique_id. rewrite bool_decide_eq_false_2; [done|]. intros Hin. apply NoDup_app in Hn as (_ & Hd & _). apply (Hd _ Hin). by left. }
  rewrite IH; [|by rewrite <- app_assoc]. by destruct c.
Qed.

(** After the renaming the calls of a response have distinct ids. Only ids change, and
    only of calls that repeat one: a response without repeated ids is left as it is. *)
Theorem call_ids_unique l : NoDup (call_id <$> uniquifyToolCallIds l) /\ Forall2 (fun c d => call_name c = call_name d /\ arguments c = arguments d) l (uniquifyToolCallIds l) /\
  (NoDup (call_id <$> l) -> uniquifyToolCallIds l = l).
Proof.
  split; [exact (uniquify_loop_spec l [] NoDup_nil_2)|]. split; [|exact (uniquify_loop_same l [])]. unfold uniquifyToolCallIds. generalize (@nil jsstr).
  induction l as [|c l IH]; intros used; cbn [uniquify_loop]; [constructor|]. cbv zeta. by constructor.
Qed.

(** * Total triples *)

Section triples.
Context {W : Type}.

Abbreviation st := (@st W).
Abbreviation M := (@M W).

(** From a state of [P] the action returns a value, and [Q] holds of it and the state. *)
Definition ht {A} (P : st -> Prop) (m : M A) (Q : A -> st -> Prop) : Prop := forall s, P s -> exists s' x, m s = (s', Ok x) /\ Q x s'.

Lemma ht_ret {A} (x : A) (P : st -> Prop) (Q : A -> st -> Prop) : (forall s, P s -> Q x s) -> ht P (ret x) Q.
Proof. intros H s Hs. exists s, x. by split; [|apply H]. Qed.

Lemma ht_bind {A B} (m : M A) (k : A -> M B) P Q R : ht P m Q -> (forall x, ht (Q x) (k x) R) -> ht P (bind m k) R.
Proof. intros Hm Hk s Hs. destruct (Hm s Hs) as (s1 & x & E & H1). destruct (Hk x s1 H1) as (s2 & y & E2 & H2). exists s2, y. unfold bind. by rewrite E. Qed.

Lemma ht_get P : ht P get (fun x s => x = s /\ P s).
Proof. intros s Hs. by exists s, s. Qed.

Lemma ht_weaken {A} (m : M A) P P' (Q Q' : A -> st -> Prop) : ht P m Q -> (forall s, P' s -> P s) -> (forall x s, Q x s -> Q' x s) -> ht P' m Q'.
Proof. intros H HP HQ s Hs. destruct (H s (HP s Hs)) as (s' & x & E & Hq). exists s', x. by split; [|apply HQ]. Qed.

Lemma ht_pure {A} (m : M A) (F : Prop) P Q : (F -> ht P m Q) -> ht (fun s => F /\ P s) m Q.
Proof. intros H s [HF Hs]. by apply H. Qed.

Lemma ht_ex {A B} (m : M A) (P : B -> st -> Prop) Q : (forall b, ht (P b) m Q) -> ht (fun s => exists b, P b s) m Q.
Proof. intros H s (b & Hs). by apply (H b). Qed.

Lemma ht_attempt {A} (m : M A) (P : st -> Prop) : (forall s, P s -> P (m s).1) -> ht P (attempt m) (fun _ => P).
Proof. intros H s Hs. unfold attempt. specialize (H s Hs). destruct (m s) as [s' r]. by exists s', r. Qed.

Lemma ht_each {A} (f : A -> M unit) l (P : st -> Prop) : (forall x, x ∈ l -> ht P (f x) (fun _ => P)) -> ht P (each f l) (fun _ => P).
Proof.
  induction l as [|x l IH]; intros H; cbn [each]; [by apply ht_ret|]. eapply ht_bind; [apply H; by left|]. intros ?. apply IH. intros y Hy. apply H. by right.
Qed.
End triples.

(** One step of a sequence: the facts of the state before are introduced first. *)
Ltac hpre := repeat match goal with
  | |- ht (fun s => ?F /\ @?P s) _ _ => apply ht_pure; intros ?
  | |- ht (fun s => exists x, @?P x s) _ _ => apply ht_ex; intros ?
  end.
Tactic Notation "hseq" ident(x) tactic3(t) := eapply ht_bind; [t|intros x]; cbv beta; hpre.
Tactic Notation "hnext" tactic3(t) := eapply ht_bind; [t|intros ?u]; cbv beta; hpre.

(** * Calls and results *)

Definition visible (a : tool_act) : bool := match a with Called _ _ _ _ | ResultOf _ _ => true | _ => false end.
Definition vis (l : list tool_act) : list tool_act := List.filter visible l.

Lemma vis_app l1 l2 : vis (l1 ++ l2) = vis l1 ++ vis l2.
Proof. apply List.filter_app. Qed.

Definition is_called (id : jsstr) (a : tool_act) : Prop := match a with Called i _ _ _ => i = id | _ => False end.
Definition is_result (id : jsstr) (a : tool_act) : Prop := match a with ResultOf i _ => i = id | _ => False end.

Definition promise_id (t : task_promise) : jsstr := match t with Resolved r => call_id (p_call r) | InFlight g => call_id (g_call g) end.

Section pairing.
Context {W : Type} (parse : jsstr -> option json) (h : @tool_host W).
Hypothesis dispatch_ok : forall a w, exists w', th_dispatch h a w = (w', Ok tt).

Abbreviation st := (@st W).
Abbreviation M := (@M W).

Definition entry_ok (id : jsstr) (e : @entry_state W) : Prop :=
  match e with
  | SettledEntry s => call_id (p_call (s_result s)) = id /\ call_id (a_call (s_announce s)) = id
  | StartedEntry g a => call_id (g_call g) = id /\ call_id (a_call a) = id
  | DeferredEntry p => call_id (r_call p) = id /\ call_id (a_call (r_announce p)) = id
  | SkippedEntry pf => call_id (pf_call pf) = id
  end.
Definition slot_ok (kv : jsstr * @stream_slot W) : Prop := match kv.2 with Waiting c => call_id c = kv.1 | Done e => entry_ok kv.1 e end.
Definition runner_ok (u : @runner W) : Prop := jwf (u_entries u) /\ Forall slot_ok (u_entries u).

(** The visible events and the owners of the pending results. *)
Definition At (v : list tool_act) (o : list jsstr) (s : st) : Prop := runner_ok (run s) /\ vis (trace s) = v /\ promise_id <$> outstanding s = o.

Lemma ht_call {A} (f : W -> W * result tool_error A) v o : ht (At v o) (attempt (call f)) (fun _ => At v o).
Proof. apply ht_attempt. intros s Hs. unfold call. by destruct (f (world s)). Qed.

Lemma ht_tell a v o : visible a = false -> ht (At v o) (tell a) (fun _ => At v o).
Proof. intros Ha s (H1 & H2 & H3). eexists _, tt. split; [reflexivity|]. split; [done|]. split; [|done]. cbn. rewrite vis_app, H2. cbn. by rewrite Ha, app_nil_r. Qed.

Lemma ht_dispatch a v o : visible a = true -> ht (At v o) (dispatch h a) (fun _ => At (v ++ [a]) o).
Proof.
  intros Ha s (H1 & H2 & H3). destruct (dispatch_ok a (world s)) as (w' & E). unfold dispatch, bind, tell, call. cbn. rewrite E. eexists _, tt. split; [reflexivity|].
  split; [done|]. split; [|done]. cbn. rewrite vis_app, H2. cbn. by rewrite Ha.
Qed.

Lemma ht_dispatch_live a v o : visible a = false -> ht (At v o) (dispatch_live h a) (fun _ => At v o).
Proof. intros Ha. eapply ht_bind; [by apply ht_tell|]. intros ?. eapply ht_bind; [apply ht_call|]. intros ?. by apply ht_ret. Qed.

Lemma ht_signal v o : ht (At v o) (signal h) (fun _ => At v o).
Proof. eapply ht_bind; [apply ht_get|]. intros s. apply ht_ret. by intros s' [_ H]. Qed.

Lemma ht_upd_run f v o : (forall u, runner_ok u -> runner_ok (f u)) -> ht (At v o) (upd_run f) (fun _ => At v o).
Proof. intros Hf s (H1 & H2 & H3). eexists _, tt. split; [reflexivity|]. split; [by apply Hf|done]. Qed.

Lemma ht_upd_world f v o : ht (At v o) (upd_world f) (fun _ => At v o).
Proof. intros s H. by eexists _, tt. Qed.

Lemma ht_set_live id b v o : ht (At v o) (set_live id b) (fun _ => At v o).
Proof. intros s H. by eexists _, tt. Qed.

Lemma ht_get_run v o : ht (At v o) get (fun s => At v o).
Proof. eapply ht_weaken; [apply ht_get| |]; [done|]. by intros x s [_ H]. Qed.

Lemma ht_schedule g b v o : ht (At v o) (schedule g b) (fun _ => At v o).
Proof. eapply ht_bind; [by apply ht_tell|]. intros ?. apply ht_set_live. Qed.

(** ** Preparing *)

Definition settled_ok (id : jsstr) (s : settled_call) : Prop := call_id (p_call (s_result s)) = id /\ call_id (a_call (s_announce s)) = id.

Lemma error_settled c args out d : settled_ok (call_id c) (settlePreparationError c args out d).
Proof. done. Qed.
Lemma synthetic_settled c args v d : settled_ok (call_id c) (settlePreparationSynthetic c args v d).
Proof. done. Qed.

Lemma ht_value {A} (x : A) (F : A -> Prop) v o : F x -> ht (At v o) (ret x) (fun y s => F y /\ At v o s).
Proof. intros H. by apply ht_ret. Qed.

Lemma ht_prepare_hook calls c args v o : ht (At v o) (runPrepareToolExecutionHook h calls c args) (fun _ => At v o).
Proof.
  unfold runPrepareToolExecutionHook. destruct (th_prepare h) as [f|]; [|by apply ht_ret]. hseq r (apply ht_call).
  destruct r as [r|e]; [hnext (by apply ht_tell); by apply ht_ret|]. hseq sig (apply ht_signal). by apply ht_ret.
Qed.

Lemma ht_resolve_args phase c t args d v o :
  ht (At v o) (resolve_args h phase c t args d) (fun r s => match r with inl s => settled_ok (call_id c) s | inr _ => True end /\ At v o s).
Proof.
  unfold resolve_args. destruct (t_validate t args); [by apply ht_value|]. hseq r (apply ht_call). destruct r as [x|e]; [|by apply ht_value].
  cbv zeta. hseq sig (apply ht_signal). destruct sig as [user|]; [by apply ht_value|]. destruct x; by apply ht_value.
Qed.

Definition prepared_ok (id : jsstr) (r : settled_call + @preparation W) : Prop :=
  match r with inl s => settled_ok id s | inr p => entry_ok id (DeferredEntry p) end.

Lemma ht_resolve calls pf v o :
  ht (At v o) (resolveToolCallPreparation h calls pf) (fun r s => prepared_ok (call_id (pf_call pf)) r /\ At v o s).
Proof.
  unfold resolveToolCallPreparation. destruct pf as [c t args|c args out]; [|by apply ht_value]. hseq r (apply ht_prepare_hook).
  destruct r as [args' m|args' r|args' out]; [|by apply ht_value..]. hseq r (apply ht_resolve_args). destruct r as [s|[x d]]; by apply ht_value.
Qed.

Definition authorized_ok (id : jsstr) (r : settled_call + authorized) : Prop :=
  match r with inl s => settled_ok id s | inr z => call_id (g_call (z_task z)) = id /\ call_id (a_call (z_announce z)) = id end.

Lemma ht_authorize_hook calls c args x v o : ht (At v o) (runAuthorizeToolExecutionHook h calls c args x) (fun _ => At v o).
Proof.
  unfold runAuthorizeToolExecutionHook. destruct (th_authorize h) as [f|]; [|by apply ht_ret]. hseq r (apply ht_call).
  eapply ht_bind; [|intros x'; hnext (by apply ht_tell); by apply ht_ret]. destruct r as [r|e]; [by apply ht_ret|]. hseq sig (apply ht_signal). by apply ht_ret.
Qed.

Lemma ht_authorize calls p id v o : entry_ok id (DeferredEntry p) ->
  ht (At v o) (authorizeToolCallPreparation h calls p) (fun r s => authorized_ok id r /\ At v o s).
Proof.
  intros [Hc Ha]. unfold authorizeToolCallPreparation. cbv zeta. hseq r (apply ht_authorize_hook). hseq sig (apply ht_signal). subst id.
  destruct sig as [user|]; [by apply ht_value|]. destruct r as [r|]; [|by apply ht_value]. destruct (h_block r); [by apply ht_value|].
  destruct (h_syntheticResult r); [by apply ht_value|]. destruct (h_updatedArgs r); [|by apply ht_value].
  hseq y (apply ht_resolve_args). destruct y as [s|[x d]]; by apply ht_value.
Qed.

(** ** Announcing *)

Definition called_event (a : announcement) : tool_act := Called (call_id (a_call a)) (call_name (a_call a)) (a_args a) (a_display a).

Lemma announced_ok id u : runner_ok u -> runner_ok (announced id u).
Proof. done. Qed.

Lemma ht_announce a v o : ht (At v o) (announce h a) (fun _ => At (v ++ [called_event a]) o).
Proof.
  unfold announce. cbv zeta. hnext (by apply ht_dispatch). destruct (a_gated a); [|by apply ht_ret]. hseq s (apply ht_get_run).
  hnext (by apply ht_upd_run). apply ht_each. intros x _. by apply ht_dispatch_live.
Qed.

Lemma ht_onUpdate iu v o : ht (At v o) (onUpdate h iu) (fun _ => At v o).
Proof.
  unfold onUpdate. hseq s (apply ht_get_run). destruct (th_signal h (world s)); [by apply ht_ret|]. destruct (jget (live s) iu.1); [|by apply ht_ret].
  destruct (_ && _); [by apply ht_upd_run|by apply ht_dispatch_live].
Qed.

(** ** The runner *)

Lemma stop_runner_ok b u v o : ht (At v o) (@stop_runner W b) (fun _ => At v o) /\ (runner_ok u -> runner_ok u).
Proof. split; [|done]. unfold stop_runner. destruct b; [by apply ht_upd_run|by apply ht_ret]. Qed.

Lemma ht_mark_stopped id s v o : settled_ok id s -> ht (At v o) (@markStoppedOnSettle W s) (fun e s => entry_ok id e /\ At v o s).
Proof. intros H. unfold markStoppedOnSettle. hnext (by apply (stop_runner_ok _ new_runner)). by apply ht_value. Qed.

Lemma preflight_call c : pf_call (preflightToolCall parse h c) = c.
Proof. unfold preflightToolCall. cbv zeta. destruct (find_tool h (call_name c)) as [t|]; [|done]. by destruct (t_validate t _). Qed.

Lemma ht_prepare_one c v o : ht (At v o) (prepareOne parse h c) (fun e s => entry_ok (call_id c) e /\ At v o s).
Proof.
  unfold prepareOne. cbv zeta. pose proof (preflight_call c) as Hc. hseq s (apply ht_get_run). destruct (u_stopped (run s)); [apply ht_value; cbn; by rewrite Hc|].
  hseq r (apply ht_resolve). rewrite Hc in *. destruct r as [r|p]; [by apply ht_mark_stopped|]. hseq sig (apply ht_signal). destruct (_ || _).
  - hnext (by apply (stop_runner_ok _ new_runner)). by apply ht_value.
  - hseq z (by apply ht_authorize). destruct z as [z|z]; [by apply ht_mark_stopped|]. hnext (apply ht_schedule). by apply ht_value.
Qed.

Lemma runner_ok_set u id slot : runner_ok u -> slot_ok (id, slot) -> runner_ok (set_entries (jset (u_entries u) id slot) u).
Proof.
  intros [H1 H2] Hs. split; cbn; [by apply jwf_set|]. apply Forall_forall. intros [k x] Hin. rewrite Forall_forall in H2.
  apply jset_in in Hin as [[-> ->]|[_ Hin]]; [done|by apply (H2 (k, x))|done].
Qed.

Lemma runner_ok_del u id : runner_ok u -> runner_ok (set_entries (jdel (u_entries u) id) u).
Proof.
  intros [H1 H2]. split; cbn; [by apply jwf_del|]. apply Forall_forall. intros [k x] Hin. rewrite Forall_forall in H2. apply jdel_in in Hin as [_ Hin]; [|done]. by apply (H2 (k, x)).
Qed.

Lemma ht_chain_step v o : ht (At v o) (chain_step parse h) (fun _ => At v o).
Proof.
  unfold chain_step. hseq s (apply ht_get_run). destruct (first_waiting (run s)) as [c|]; [|by apply ht_ret]. hseq e (apply ht_prepare_one).
  apply ht_upd_run. intros u Hu. by apply runner_ok_set.
Qed.

Lemma ht_chain_steps n v o : ht (At v o) (chain_steps parse h n) (fun _ => At v o).
Proof. induction n as [|n IH]; cbn [chain_steps]; [by apply ht_ret|]. hnext (apply ht_chain_step). exact IH. Qed.

Lemma ht_background v o : ht (At v o) (background parse h) (fun _ => At v o).
Proof.
  unfold background. hnext (apply ht_upd_world). hseq s (apply ht_get_run). hnext (apply ht_chain_steps). hseq s' (apply ht_get_run).
  apply ht_each. intros x _. apply ht_onUpdate.
Qed.

Definition found_ok (id : jsstr) (e : option (@entry_state W)) : Prop := match e with Some e => entry_ok id e | None => True end.

Lemma ht_await_entry n id v o : ht (At v o) (await_entry parse h n id) (fun e s => found_ok id e /\ At v o s).
Proof.
  induction n as [|n IH]; cbn [await_entry].
  all: eapply ht_bind; [apply ht_get|intros s; cbv beta].
  all: intros s0 [<- Hs]; destruct (jget (u_entries (run s)) id) as [[c|e]|] eqn:E; try (exists s, None; done).
  2: by apply (ht_bind (chain_step parse h) (fun _ => await_entry parse h n id) (At v o) (fun _ => At v o) _ (ht_chain_step v o) (fun _ => IH)).
  all: exists s, (Some e); split; [done|]; split; [|done]; apply jget_Some_in in E; destruct Hs as ((_ & Hf) & _); rewrite Forall_forall in Hf; exact (Hf _ E).
Qed.

Lemma ht_take_entry id v o : ht (At v o) (takeEntry parse h id) (fun e s => found_ok id e /\ At v o s).
Proof.
  unfold takeEntry. hnext (apply ht_background). hseq s (apply ht_get_run). hseq e (apply ht_await_entry).
  hnext (apply ht_upd_run; intros u'; apply runner_ok_del). by apply ht_value.
Qed.

(** ** Results *)

Lemma run_result_call g out : p_call (run_result g out) = g_call g.
Proof. destruct out as [?|?| |? [?|]]; done. Qed.

Lemma ht_await_result t v o : ht (At v o) (await_result parse h t) (fun p s => call_id (p_call p) = promise_id t /\ At v o s).
Proof.
  unfold await_result. hnext (apply ht_background). destruct t as [r|g]; [by apply ht_value|]. intros s Hs. destruct (th_settle h g (world s)) as [w out].
  eexists _, _. split; [reflexivity|]. split; [by rewrite run_result_call|exact Hs].
Qed.

Lemma ht_finalize calls p v o : ht (At v o) (finalizePendingToolResult h calls p) (fun r s => p_call r = p_call p /\ At v o s).
Proof.
  unfold finalizePendingToolResult. destruct (th_finalize h) as [f|]; [|by apply ht_value]. cbv zeta. hnext (by apply ht_tell). hseq r (apply ht_call).
  destruct r as [r|e]; [by apply ht_value|]. hseq sig (apply ht_signal). by apply ht_value.
Qed.

Definition result_event (p : pending_result) : tool_act := ResultOf (call_id (p_call p)) (p_result p).

Lemma ht_result p v o : ht (At v o) (dispatchToolResult h p) (fun _ => At (v ++ [result_event p]) o).
Proof. by apply ht_dispatch. Qed.

Lemma ht_drain_orphans calls v o : ht (At v o) (drainOrphanedPreparations parse h calls) (fun _ => At v o).
Proof.
  unfold drainOrphanedPreparations. hseq s (apply ht_get_run). apply ht_each. intros id _. unfold drain_orphan. hseq e (apply ht_take_entry).
  assert (forall p, ht (At v o) (bind (finalizePendingToolResult h calls p) (fun _ => ret tt)) (fun _ => At v o)) as Hf.
  { intros p. hseq r (apply ht_finalize). by apply ht_ret. }
  destruct e as [[e|g a|p|pf]|]; try (by apply ht_ret); try apply Hf. hseq p (apply ht_await_result). apply Hf.
Qed.

(** ** The batch *)

Definition task_id (t : prepared_task) : jsstr := match t with SettledTask r => call_id (p_call r) | NewTask g | WrappedTask g => call_id (g_call g) end.

Lemma ht_add_task t v o : ht (At v o) (@add_task W t) (fun _ => At v (o ++ [task_id t])).
Proof.
  unfold add_task. eapply (ht_bind _ _ _ (fun _ => At v o)); [destruct t; [by apply ht_ret|apply ht_schedule|by apply ht_ret]|intros u]. eapply ht_bind; [apply ht_get|intros s].
  intros s' [<- (H1 & H2 & H3)]. eexists _, tt. split; [reflexivity|]. split; [done|]. split; [done|]. cbn. rewrite fmap_app, H3. by destruct t.
Qed.

(** A prepared call: it has been recorded, under its id. *)
Definition Called_as (id : jsstr) (v : list tool_act) (o : list jsstr) (s : st) : Prop := exists e, is_called id e /\ At (v ++ [e]) o s.

Lemma ht_announce_as id a v o : call_id (a_call a) = id -> ht (At v o) (announce h a) (fun _ => Called_as id v o).
Proof. intros <-. eapply ht_weaken; [apply ht_announce|done|]. intros x s Hs. by exists (called_event a). Qed.

Lemma ht_ret_as {A} (x : A) (F : A -> Prop) id v o : F x -> ht (Called_as id v o) (ret x) (fun y s => F y /\ Called_as id v o s).
Proof. intros H. by apply ht_ret. Qed.

Definition task_ok (id : jsstr) (r : prepared_task * bool) : Prop := task_id r.1 = id.

Lemma ht_prepared_authorized calls p id v o : entry_ok id (DeferredEntry p) -> ht (At v o) (prepared_authorized h calls p) (fun r s => task_ok id r /\ Called_as id v o s).
Proof.
  intros Hp. unfold prepared_authorized. hseq z (by apply ht_authorize). destruct z as [s|z]; destruct H as [H1 H2].
  - hnext (by apply (ht_announce_as id)). by apply ht_ret_as.
  - hnext (by apply (ht_announce_as id)). by apply ht_ret_as.
Qed.

Lemma ht_prepare_call calls pf v o :
  ht (At v o) (prepareToolCall h calls pf) (fun r s => task_ok (call_id (pf_call pf)) r /\ Called_as (call_id (pf_call pf)) v o s).
Proof.
  unfold prepareToolCall. hseq r (apply ht_resolve). destruct r as [s|p]; [|by apply ht_prepared_authorized]. destruct H as [H1 H2].
  hnext (by apply (ht_announce_as (call_id (pf_call pf)))). by apply ht_ret_as.
Qed.

Lemma ht_prepare_skipped pf v o :
  ht (At v o) (prepareSkippedToolCall h pf) (fun t s => task_id t = call_id (pf_call pf) /\ Called_as (call_id (pf_call pf)) v o s).
Proof. unfold prepareSkippedToolCall. hnext (by apply (ht_announce_as (call_id (pf_call pf)))). by apply ht_ret_as. Qed.

Definition some_task_ok (id : jsstr) (r : option (prepared_task * bool)) (v : list tool_act) (o : list jsstr) (s : st) : Prop :=
  match r with Some r => task_ok id r /\ Called_as id v o s | None => At v o s end.

Lemma ht_materialize calls id v o : ht (At v o) (materialize parse h calls id) (fun r => some_task_ok id r v o).
Proof.
  unfold materialize. hseq e (apply ht_take_entry). destruct e as [[e|g a|p|pf]|]; [| | | |by apply ht_ret].
  - destruct H as [H1 H2]. hnext (by apply (ht_announce_as id)). by apply ht_ret.
  - destruct H as [H1 H2]. hnext (by apply (ht_announce_as id)). by apply ht_ret.
  - hseq r (by apply ht_prepared_authorized). by apply ht_ret.
  - cbn in H. subst id. hseq t (apply ht_prepare_skipped). by apply ht_ret.
Qed.

Lemma ht_materialize_call b calls c v o :
  ht (At v o) (materialize_call parse h b calls c) (fun r s => task_ok (call_id c) r /\ Called_as (call_id c) v o s).
Proof.
  unfold materialize_call. eapply (ht_bind _ _ _ (fun r => some_task_ok (call_id c) r v o)).
  - destruct b; [apply ht_materialize|by apply ht_ret].
  - intros [r|]; [by apply ht_ret|]. cbv beta. hnext (apply ht_background). pose proof (ht_prepare_call calls (preflightToolCall parse h c) v o) as H.
    by rewrite preflight_call in H.
Qed.

Lemma ht_skip_call b c v o : ht (At v o) (skip_call parse h b c) (fun _ s => exists e, is_called (call_id c) e /\ At (v ++ [e]) (o ++ [call_id c]) s).
Proof.
  unfold skip_call. eapply (ht_bind _ _ _ (fun e s => found_ok (call_id c) e /\ At v o s)); [destruct b; [apply ht_take_entry|by apply ht_value]|].
  intros e. cbv beta. hpre. set (pf := match e with Some (SkippedEntry pf) => pf | _ => _ end).
  assert (call_id (pf_call pf) = call_id c) as Hc by (subst pf; pose proof (preflight_call c) as Hp; destruct e as [[?|? ?|?|pf]|]; first [exact H | by rewrite Hp]).
  clearbody pf. hseq t (apply ht_prepare_skipped). rewrite Hc in *. unfold Called_as. hpre. match goal with E : is_called _ ?e |- _ => rename e into ev end.
  eapply ht_weaken; [apply ht_add_task|done|]. intros u s Hs. exists ev. split; [done|]. by replace (call_id c) with (task_id t).
Qed.

Lemma ht_prepare_calls b calls rest : forall v o,
  ht (At v o) (prepare_calls parse h b calls rest) (fun _ s => exists es, Forall2 is_called (call_id <$> rest) es /\ At (v ++ es) (o ++ (call_id <$> rest)) s).
Proof.
  assert (forall l v o, ht (At v o) (each (skip_call parse h b) l) (fun _ s => exists es, Forall2 is_called (call_id <$> l) es /\ At (v ++ es) (o ++ (call_id <$> l)) s)) as Hskip.
  { induction l as [|c l IH]; intros v o; cbn [each]; [apply ht_ret; intros s Hs; exists []; cbn; by rewrite !app_nil_r|].
    hnext (apply ht_skip_call). eapply ht_weaken; [apply IH|done|]. intros x s (es & H1 & H2). eexists (_ :: es). split; [by constructor|].
    cbn. by rewrite <- !app_assoc in H2. }
  induction rest as [|c rest IH]; intros v o; cbn [prepare_calls]; [apply ht_ret; intros s Hs; exists []; cbn; by rewrite !app_nil_r|].
  hseq r (apply ht_materialize_call). unfold Called_as. hpre. rename select (is_called _ _) into Hcalled. rename select (task_ok _ _) into Ht. unfold task_ok in Ht.
  hnext (apply ht_add_task). rewrite Ht. destruct r.2.
  - hnext (apply Hskip). apply ht_ret. intros s Hs. eexists (_ :: _). split; [by constructor|]. cbn. by rewrite <- !app_assoc in Hs.
  - eapply ht_weaken; [apply IH|done|]. intros x s (es & H1 & H2). eexists (_ :: es). split; [by constructor|]. cbn. by rewrite <- !app_assoc in H2.
Qed.

Lemma ht_next_outstanding v o : ht (At v o) (@next_outstanding W) (fun t s => match t with
  | None => o = [] /\ At v [] s
  | Some t => exists o', o = promise_id t :: o' /\ At v o' s
  end).
Proof.
  intros s (H1 & H2 & H3). unfold next_outstanding, bind, get. destruct (outstanding s) as [|t l] eqn:E.
  - eexists _, None. split; [reflexivity|]. cbn in H3. subst o. split; [done|]. split; [done|]. split; [done|]. by rewrite E.
  - eexists _, (Some t). split; [reflexivity|]. exists (promise_id <$> l). by subst o.
Qed.

Lemma ht_drain_results calls n : forall v o, n = length o ->
  ht (At v o) (drain_results parse h n calls) (fun _ s => exists es, Forall2 is_result o es /\ At (v ++ es) [] s).
Proof.
  induction n as [|n IH]; intros v o Hn; cbn [drain_results].
  - destruct o; [|done]. apply ht_ret. intros s Hs. exists []. by rewrite app_nil_r.
  - destruct o as [|i o]; [done|]. hseq t (apply ht_next_outstanding). destruct t as [t|]; hpre; [|done]. rename select (i :: o = _) into E. injection E as -> <-.
    hseq p (apply ht_await_result). hseq r (apply ht_finalize). hnext (apply ht_result). hseq b (by apply IH; injection Hn). apply ht_ret.
    intros s Hs. eexists (_ :: _). split; [|by rewrite <- app_assoc in Hs]. constructor; [cbn; congruence|done].
Qed.

Lemma ht_settle_none v n : ht (At v []) (settle_rest parse h n) (fun _ => At v []).
Proof.
  destruct n as [|n]; cbn [settle_rest]; [by apply ht_ret|]. hseq t (apply ht_next_outstanding). destruct t as [t|]; hpre; [done|]. by apply ht_ret.
Qed.

Lemma ht_get_length v o : ht (At v o) get (fun s s' => length (outstanding s) = length o /\ At v o s').
Proof. intros s (H1 & H2 & H3). eexists s, s. split; [done|]. split; [rewrite <- H3; by rewrite length_fmap|done]. Qed.

(** The events of a batch over [calls]: all the calls, then all the results. *)
Definition paired (calls : list tool_call) (v : list tool_act) (s : st) : Prop :=
  exists cs rs, (Forall2 is_called (call_id <$> calls) cs /\ Forall2 is_result (call_id <$> calls) rs) /\ At (v ++ cs ++ rs) [] s.

Lemma ht_orphans (streaming : bool) calls v : ht (At v []) (if streaming then drainOrphanedPreparations parse h calls else ret tt) (fun _ => At v []).
Proof. destruct streaming; [apply ht_drain_orphans|by apply ht_ret]. Qed.

Definition batch_body (streaming : bool) (calls : list tool_call) : M bool :=
  bind (if streaming then drainOrphanedPreparations parse h calls else ret tt) (fun _ =>
  bind (prepare_calls parse h streaming calls calls) (fun stop =>
  bind get (fun s => bind (drain_results parse h (length (outstanding s)) calls) (fun stop' => ret (stop || stop'))))).

Lemma ht_batch_body streaming calls v : ht (At v []) (batch_body streaming calls) (fun _ => paired calls v).
Proof.
  unfold batch_body. hnext (apply ht_orphans). hseq b (apply ht_prepare_calls). rename select (Forall2 is_called _ _) into Hc. cbn [app]. hseq s (apply ht_get_length).
  hseq b' (by apply ht_drain_results). apply ht_ret. intros s' Hs. eexists _, _. split; [by split|]. by rewrite <- app_assoc in Hs.
Qed.

Lemma ht_finally {A} (m : M A) calls v : ht (At v []) m (fun _ => paired calls v) -> ht (At v []) (finally parse h m) (fun _ => paired calls v).
Proof.
  intros Hm. unfold finally. eapply (ht_bind _ _ _ (fun r s => is_Some (match r with Ok b => Some b | Err _ => None end) /\ paired calls v s)).
  - intros s Hs. destruct (Hm s Hs) as (s' & x & E & H). unfold attempt. rewrite E. by eexists _, _.
  - intros r. cbv beta. hpre. destruct r as [b|e]; [|by destruct H]. unfold paired. hpre. hseq s (apply ht_get_length). hnext (apply ht_settle_none).
    apply ht_ret. intros s2 H2. by eexists _, _.
Qed.

Lemma ht_batch streaming response v : ht (At v []) (runToolCallBatch parse h streaming response) (fun _ => paired (uniquifyToolCallIds response) v).
Proof.
  unfold runToolCallBatch. destruct response as [|c l].
  - hnext (apply ht_orphans). apply ht_ret. intros s Hs. exists [], []. cbn. by rewrite app_nil_r.
  - cbv zeta. apply ht_finally. apply (ht_batch_body streaming).
Qed.

Lemma streamed_at s : streamed parse h s -> At [] [] s.
Proof.
  induction 1 as [w|s c _ IH|s _ IH].
  - split; [by split; constructor|done].
  - destruct IH as (H1 & H2 & H3). split; [|done]. cbn. unfold addReady. case_bool_decide; [done|]. apply (runner_ok_set (Runner (u_entries (run s)) _ _ _ _)); [exact H1|].
    destruct (u_stopped (run s)); [|done]. cbn. by rewrite preflight_call.
  - destruct (ht_background [] [] s IH) as (s' & x & E & H). by rewrite E.
Qed.

(** C3. Every call of a response is recorded once and answered once, in the order the
    provider gave them. Whatever the tools, the hooks, the scheduler and the streaming
    runner do, if events can be recorded, the batch returns, and what it adds to the
    events is one [tool.call] per call, in order, then one [tool.result] per call, in
    order; nothing stays unsettled. *)
Theorem batch_pairs_calls streaming response s : streamed parse h s ->
  exists s' b calls results, runToolCallBatch parse h streaming response s = (s', Ok b) /\ vis (trace s') = calls ++ results /\
    Forall2 is_called (call_id <$> uniquifyToolCallIds response) calls /\ Forall2 is_result (call_id <$> uniquifyToolCallIds response) results /\ outstanding s' = [].
Proof.
  intros Hs%streamed_at. destruct (ht_batch streaming response [] s Hs) as (s' & b & E & cs & rs & [H1 H2] & _ & H3 & H4).
  exists s', b, cs, rs. split; [done|]. split; [done|]. split; [done|]. split; [done|]. by destruct (outstanding s').
Qed.

(** ** Interrupted responses *)

(** The call and its result, one after the other. *)
Definition pair_of (c : tool_call) (p : tool_act * tool_act) : Prop := is_called (call_id c) p.1 /\ is_result (call_id c) p.2.
Definition flat (ps : list (tool_act * tool_act)) : list tool_act := ps ≫= fun p => [p.1; p.2].
Definition one_pair (c : tool_call) (v : list tool_act) (s : st) : Prop := exists p, pair_of c p /\ At (v ++ [p.1; p.2]) [] s.

Lemma ht_answer c a p calls v : call_id (a_call a) = call_id c -> call_id (p_call p) = call_id c ->
  ht (At (v ++ [called_event a]) []) (finalizeAndDispatchToolResult h calls p) (fun _ => one_pair c v).
Proof.
  intros Ha Hp. unfold finalizeAndDispatchToolResult. hseq r (apply ht_finalize). eapply ht_weaken; [apply ht_result|done|]. intros x s' Hs.
  exists (called_event a, result_event r). split; [split; [done|cbn; congruence]|]. by rewrite <- app_assoc in Hs.
Qed.

Lemma ht_unexecuted c v : ht (At v []) (recordUnexecutedToolCall parse h c) (fun _ => one_pair c v).
Proof.
  unfold recordUnexecutedToolCall. hnext (by apply ht_dispatch). eapply ht_weaken; [by apply ht_dispatch|done|]. intros x s' Hs.
  rewrite <- app_assoc in Hs. eexists (_, _). split; [|exact Hs]. done.
Qed.

Lemma ht_interrupted calls c v : ht (At v []) (drain_interrupted parse h calls c) (fun _ => one_pair c v).
Proof.
  unfold drain_interrupted. hseq e (apply ht_take_entry). destruct e as [[e|g a|p|pf]|]; cbn [found_ok entry_ok] in *; try apply ht_unexecuted; destruct H as [E1 E2].
  - hnext (apply ht_announce). by apply ht_answer.
  - hnext (apply ht_announce). hseq p (apply ht_await_result). cbn in *. apply ht_answer; congruence.
  - hnext (apply ht_announce). by apply ht_answer.
Qed.

Lemma ht_interrupted_all calls l : forall v,
  ht (At v []) (each (drain_interrupted parse h calls) l) (fun _ s => exists ps, Forall2 pair_of l ps /\ At (v ++ flat ps) [] s).
Proof.
  induction l as [|c l IH]; intros v; cbn [each]; [apply ht_ret; intros s' Hs; exists []; cbn; by rewrite app_nil_r|].
  hnext (apply ht_interrupted). unfold one_pair. hpre. rename select (_ * _)%type into p.
  eapply ht_weaken; [apply IH|done|]. intros x s' (ps & E1 & E2). exists (p :: ps). split; [by constructor|]. by rewrite <- app_assoc in E2.
Qed.

(** An interrupted response is closed in the same way, call by call: each call is
    recorded and at once answered, with its real result if the runner had started it. *)
Theorem interrupted_pairs_calls response s : streamed parse h s ->
  exists s' pairs, drainInterruptedToolCalls parse h response s = (s', Ok tt) /\ vis (trace s') = flat pairs /\
    Forall2 pair_of (uniquifyToolCallIds response) pairs /\ outstanding s' = [].
Proof.
  intros Hs%streamed_at. set (calls := uniquifyToolCallIds response).
  assert (forall v, ht (At v []) (drainInterruptedToolCalls parse h response) (fun _ s => exists ps, Forall2 pair_of calls ps /\ At (v ++ flat ps) [] s)) as H.
  { intros v. unfold drainInterruptedToolCalls. cbv zeta. hnext (apply ht_drain_orphans). apply ht_interrupted_all. }
  destruct (H [] s Hs) as (s' & [] & E & ps & H1 & _ & H2 & H3).
  exists s', ps. split; [done|]. split; [done|]. split; [done|]. by destruct (outstanding s').
Qed.
End pairing.

(** ** Concretely *)

Lemma ex_dispatch_ok a w : exists w', th_dispatch ex_plain a w = (w', Ok tt).
Proof. by eexists. Defined.

Lemma batch_pairs_calls_witness : exists s' b calls results, runToolCallBatch ex_parse ex_plain true ex_calls (ex_stream ex_plain ex_calls) = (s', Ok b) /\
  vis (trace s') = calls ++ results /\ Forall2 is_called [js "a"; js "b"; js "a_2"; js "c"] calls /\ Forall2 is_result [js "a"; js "b"; js "a_2"; js "c"] results /\ outstanding s' = [].
Proof. exact (batch_pairs_calls ex_parse ex_plain ex_dispatch_ok true ex_calls (ex_stream ex_plain ex_calls) (ex_streamed ex_plain ex_calls)). Defined.

Lemma interrupted_pairs_calls_witness : exists s' pairs, drainInterruptedToolCalls ex_parse ex_plain ex_calls (ex_stream ex_plain ex_calls) = (s', Ok tt) /\
  vis (trace s') = flat pairs /\ Forall2 pair_of (uniquifyToolCallIds ex_calls) pairs /\ outstanding s' = [].
Proof. exact (interrupted_pairs_calls ex_parse ex_plain ex_dispatch_ok ex_calls (ex_stream ex_plain ex_calls) (ex_streamed ex_plain ex_calls)). Defined.
