(* ===== verification/ToolCallSafety.v ===== *)
(** What may run: an execution starts only after the checks and hooks let exactly those
    arguments through, and progress is shown only of a call that has been recorded. The
    triples hold of failing actions too. *)

From S2P Require Import Prelude JsMap Json JsonText JsString Messages ContextMemory ToolScheduler ToolCalls ToolCallExamples.

(** * What precedes an action *)

Definition called (id : jsstr) (tr : list tool_act) : Prop := exists name args d, Called id name args d ∈ tr.

Section justified.
Context {W : Type} (parse : jsstr -> option json) (h : @tool_host W).

(** A verdict that lets a call go on, with the arguments it goes on with. *)
Definition lets_pass (asked : json) (v : option hook_result) (args : json) : Prop :=
  match v with
  | None => args = asked
  | Some v => h_block v = false /\ h_syntheticResult v = None /\ args = default asked (h_updatedArgs v)
  end.

(** The tool resolved the arguments, which its schema accepts, to the execution. *)
Definition resolved_to (t : @tool W) (args : json) (x : runnable) : Prop :=
  t_validate t args = None /\ exists w w', t_resolveExecution t args w = (w', Ok (RunExecution x)).

(** The prepare hook, if any, has let the call pass. *)
Definition was_prepared (tr : list tool_act) (c : tool_call) : Prop :=
  th_prepare h = None \/ exists asked v, PrepareHook (call_id c) asked v ∈ tr /\ match v with None => True | Some v => h_block v = false /\ h_syntheticResult v = None end.

Definition was_authorized (tr : list tool_act) (c : tool_call) (args : json) : Prop :=
  th_authorize h = None \/ exists asked v, AuthorizeHook (call_id c) asked v ∈ tr /\ lets_pass asked v args.

(** What a start while the response arrives needs: it only reads, unless the authorize
    hook replaced the arguments. *)
Definition may_start_early (tr : list tool_act) (g : running) : Prop :=
  isStreamingEligible (g_execution g) = true \/
  exists asked v, AuthorizeHook (call_id (g_call g)) asked (Some v) ∈ tr /\ h_updatedArgs v = Some (g_args g).

Definition may_run (tr : list tool_act) (g : running) (streaming : bool) : Prop :=
  (exists t, find_tool h (call_name (g_call g)) = Some t /\ resolved_to t (g_args g) (g_execution g)) /\ was_prepared tr (g_call g) /\
  was_authorized tr (g_call g) (g_args g) /\
  if streaming then may_start_early tr g else exists d, Called (call_id (g_call g)) (call_name (g_call g)) (g_args g) d ∈ tr.

Definition act_ok (tr : list tool_act) (a : tool_act) : Prop :=
  match a with Scheduled g streaming => may_run tr g streaming | Progress id _ => called id tr | _ => True end.

(** Every action is allowed by those before it. *)
Inductive trace_ok : list tool_act -> Prop :=
| trace_ok_nil : trace_ok []
| trace_ok_snoc tr a : trace_ok tr -> act_ok tr a -> trace_ok (tr ++ [a]).

(** * Facts that stay true as the trace grows *)

Class Grows (F : list tool_act -> Prop) : Prop := grows : forall t1 t2, F t1 -> F (t1 ++ t2).

#[global] Instance grows_const (P : Prop) : Grows (fun _ => P).
Proof. by intros t1 t2. Qed.
#[global] Instance grows_and F G : Grows F -> Grows G -> Grows (fun tr => F tr /\ G tr).
Proof. intros HF HG t1 t2 [H1 H2]. split; [by apply HF|by apply HG]. Qed.
#[global] Instance grows_in a : Grows (fun tr => a ∈ tr).
Proof. intros t1 t2 H. apply elem_of_app. by left. Qed.
#[global] Instance grows_ex {A} (F : A -> list tool_act -> Prop) : (forall x, Grows (F x)) -> Grows (fun tr => exists x, F x tr).
Proof. intros HF t1 t2 [x H]. exists x. by apply HF. Qed.
#[global] Instance grows_or F G : Grows F -> Grows G -> Grows (fun tr => F tr \/ G tr).
Proof. intros HF HG t1 t2 [H|H]; [left; by apply HF|right; by apply HG]. Qed.
Ltac grow := cbv beta; lazymatch goal with
  | |- Grows (fun tr => @?F tr /\ @?G tr) => apply (grows_and F G); grow
  | |- Grows (fun tr => @?F tr \/ @?G tr) => apply (grows_or F G); grow
  | |- Grows (fun tr => exists x, @?F tr x) => apply (grows_ex (fun x tr => F tr x)); intros ?; grow
  | |- Grows (fun tr => ?a ∈ tr) => exact (grows_in a)
  | |- _ => first [exact _|by intros ? ?]
  end.

#[global] Instance grows_called id : Grows (called id).
Proof. unfold called. grow. Qed.
#[global] Instance grows_prepared c : Grows (fun tr => was_prepared tr c).
Proof. unfold was_prepared. grow. Qed.
#[global] Instance grows_authorized c args : Grows (fun tr => was_authorized tr c args).
Proof. unfold was_authorized. grow. Qed.
#[global] Instance grows_early g : Grows (fun tr => may_start_early tr g).
Proof. unfold may_start_early. grow. Qed.

(** * The invariant *)

Definition preparation_ok (tr : list tool_act) (p : @preparation W) : Prop :=
  find_tool h (call_name (r_call p)) = Some (r_tool p) /\ resolved_to (r_tool p) (r_args p) (r_execution p) /\ was_prepared tr (r_call p) /\
  a_call (r_announce p) = r_call p /\ a_args (r_announce p) = r_args p.

Definition slot_fact (tr : list tool_act) (sl : @stream_slot W) : Prop := match sl with Done (DeferredEntry p) => preparation_ok tr p | _ => True end.

Record safe (s : @st W) : Prop := Safe {
  sf_trace : trace_ok (trace s);
  sf_wf : jwf (u_entries (run s));
  sf_entries : forall id sl, jget (u_entries (run s)) id = Some sl -> slot_fact (trace s) sl;
  sf_announced : forall id, id ∈ u_announced (run s) -> called id (trace s);
  sf_live : forall id, jget (live s) id = Some false -> called id (trace s);
}.

#[global] Instance grows_preparation p : Grows (fun tr => preparation_ok tr p).
Proof. unfold preparation_ok. grow. Qed.
#[global] Instance grows_slot sl : Grows (fun tr => slot_fact tr sl).
Proof. unfold slot_fact. destruct sl as [|[]]; grow. Qed.

(** From a safe state and a fact about the trace, the action ends safe, the trace has
    grown, and a value it returns comes with a fact. *)
Definition hs {A} (F : list tool_act -> Prop) (m : @M W A) (Q : A -> list tool_act -> Prop) : Prop := forall s, safe s -> F (trace s) ->
  safe (m s).1 /\ (exists t, trace (m s).1 = trace s ++ t) /\ forall x, (m s).2 = Ok x -> Q x (trace (m s).1).

Lemma hs_bind {A B} (m : @M W A) (k : A -> @M W B) F Q R `{!Grows F} : hs F m Q -> (forall x, hs (fun tr => F tr /\ Q x tr) (k x) R) -> hs F (bind m k) R.
Proof.
  intros Hm Hk s Hs HF. destruct (Hm s Hs HF) as (H1 & (t & Et) & H2). unfold bind. destruct (m s) as [s1 [x|e]]; cbn [fst snd] in *.
  - destruct (Hk x s1 H1) as (H3 & (t' & Et') & H4); [split; [rewrite Et; by apply grows|by apply H2]|]. split; [done|]. split; [|done].
    exists (t ++ t'). by rewrite Et', Et, app_assoc.
  - split; [done|]. split; [by exists t|]. done.
Qed.

Lemma hs_ret {A} (x : A) (F : list tool_act -> Prop) (Q : A -> list tool_act -> Prop) : (forall tr, F tr -> Q x tr) -> hs F (ret x) Q.
Proof. intros H s Hs HF. split; [done|]. split; [exists []; by rewrite app_nil_r|]. intros y [= <-]. by apply H. Qed.

Lemma hs_throw {A} e (F : list tool_act -> Prop) (Q : A -> list tool_act -> Prop) : hs F (throw e) Q.
Proof. intros s Hs HF. split; [done|]. split; [exists []; by rewrite app_nil_r|]. done. Qed.

Lemma hs_weaken {A} (m : @M W A) F F' (Q Q' : A -> list tool_act -> Prop) : hs F m Q -> (forall tr, F' tr -> F tr) -> (forall x tr, Q x tr -> Q' x tr) -> hs F' m Q'.
Proof. intros H H1 H2 s Hs HF. destruct (H s Hs (H1 _ HF)) as (A1 & A2 & A3). split; [done|]. split; [done|]. intros x Hx. by apply H2, A3. Qed.

Lemma hs_frame {A} (m : @M W A) F Q `{!Grows F} : hs (fun _ => True) m Q -> hs F m Q.
Proof. intros H. by eapply hs_weaken; [exact H| |]. Qed.

Lemma hs_keep {A} (m : @M W A) F Q `{!Grows F} : hs F m Q -> hs F m (fun x tr => F tr /\ Q x tr).
Proof. intros H s Hs HF. destruct (H s Hs HF) as (A1 & (t & Et) & A3). split; [done|]. split; [by exists t|]. intros x Hx. split; [rewrite Et; by apply grows|by apply A3]. Qed.

Lemma hs_attempt {A} (m : @M W A) F Q : hs F m Q -> hs F (attempt m) (fun r tr => match r with Ok x => Q x tr | Err _ => True end).
Proof.
  intros H s Hs HF. destruct (H s Hs HF) as (A1 & A2 & A3). unfold attempt. destruct (m s) as [s' r]. split; [done|]. split; [done|].
  intros x [= <-]. destruct r as [x|e]; [by apply A3|done].
Qed.

Lemma hs_get F : hs F get (fun s tr => safe s /\ trace s = tr).
Proof. intros s Hs HF. split; [done|]. split; [exists []; by rewrite app_nil_r|]. by intros x [= <-]. Qed.

Lemma hs_call {A} (f : W -> W * result tool_error A) F : hs F (call f) (fun x _ => exists w w', f w = (w', Ok x)).
Proof.
  intros s [] HF. unfold call. destruct (f (world s)) as [w r] eqn:E. split; [by split|]. split; [exists []; by rewrite app_nil_r|]. intros x Hx. cbn in Hx. subst r. by exists (world s), w.
Qed.

Lemma hs_upd_world f F : hs F (upd_world f) (fun _ _ => True).
Proof. intros s [] HF. split; [by split|]. split; [exists []; by rewrite app_nil_r|done]. Qed.

Lemma hs_tell a (F : list tool_act -> Prop) : (forall tr, F tr -> act_ok tr a) -> hs F (tell a) (fun _ tr => a ∈ tr).
Proof.
  intros Ha s [] HF. cbn. split; [split; cbn|split; [by exists [a]|intros x _; apply elem_of_app; right; by left]].
  - constructor; [done|by apply Ha].
  - done.
  - intros id sl E. apply (grows_slot sl (trace s) [a]). by apply (sf_entries0 id).
  - intros id Hid. apply (grows_called id (trace s) [a]). by apply sf_announced0.
  - intros id Hid. apply (grows_called id (trace s) [a]). by apply sf_live0.
Qed.

Lemma hs_each {A} (f : A -> @M W unit) l F `{!Grows F} : (forall x, x ∈ l -> hs F (f x) (fun _ _ => True)) -> hs F (each f l) (fun _ _ => True).
Proof.
  induction l as [|x l IH]; intros H; cbn [each]; [by apply hs_ret|]. eapply hs_bind; [done|apply H; by left|]. intros u. eapply hs_weaken; [apply IH| |done].
  - intros y Hy. apply H. by right.
  - by intros tr [].
Qed.

(** ** Preparing *)

Tactic Notation "hb" ident(x) tactic3(t) := eapply hs_bind; [grow|t|intros x; cbv beta].

Definition anything {A} : A -> list tool_act -> Prop := fun _ _ => True.

Lemma hs_dispatch a F `{!Grows F} : (forall tr, F tr -> act_ok tr a) -> hs F (dispatch h a) (fun _ tr => a ∈ tr).
Proof. intros Ha. unfold dispatch. hb u (by apply hs_tell). eapply hs_weaken; [apply (hs_keep _ (fun tr => F tr /\ a ∈ tr)); [grow|apply hs_call]|done|]. by intros x tr [[] _]. Qed.

Lemma hs_signal F `{!Grows F} : hs F (signal h) anything.
Proof. unfold signal. hb s (apply hs_get). by apply hs_ret. Qed.

Definition prepared_fact (r : settled_call + @preparation W) (tr : list tool_act) : Prop := match r with inl _ => True | inr p => preparation_ok tr p end.

Definition decision_fact (c : tool_call) (d : prepare_decision) (tr : list tool_act) : Prop := match d with Allowed _ _ => was_prepared tr c | _ => True end.

Lemma hs_prepare_hook calls c args F `{!Grows F} : hs F (runPrepareToolExecutionHook h calls c args) (decision_fact c).
Proof.
  unfold runPrepareToolExecutionHook. destruct (th_prepare h) as [f|] eqn:E.
  - hb r (apply hs_attempt, hs_call). destruct r as [v|e].
    + hb u (by apply hs_tell). apply hs_ret. intros tr [_ Hin]. destruct v as [v|]; [|right; by exists args, None].
      cbv zeta. destruct (h_block v) eqn:Eb; [done|]. destruct (h_syntheticResult v) eqn:Es; [done|]. right. by exists args, (Some v).
    + hb sig (apply hs_signal; grow). by apply hs_ret.
  - apply hs_ret. intros tr _. by left.
Qed.

Lemma hs_resolve_args phase c t args d F `{!Grows F} :
  hs F (resolve_args h phase c t args d) (fun r _ => match r with inl _ => True | inr (x, _) => resolved_to t args x end).
Proof.
  unfold resolve_args. destruct (t_validate t args) eqn:Ev; [by apply hs_ret|]. hb r (apply hs_attempt, hs_call). destruct r as [x|e]; [|by apply hs_ret].
  cbv zeta. hb sig (apply hs_signal; grow). destruct sig as [user|]; [by apply hs_ret|]. destruct x as [x|e]; [|by apply hs_ret].
  apply hs_ret. intros tr [[_ Hr] _]. by split.
Qed.

Lemma hs_resolve calls pf F `{!Grows F} : (match pf with Runnable_ c t _ => find_tool h (call_name c) = Some t | Rejected _ _ _ => True end) ->
  hs F (resolveToolCallPreparation h calls pf) prepared_fact.
Proof.
  intros Hpf. unfold resolveToolCallPreparation. destruct pf as [c t args|c args out]; [|by apply hs_ret]. hb d (apply hs_prepare_hook; grow).
  destruct d as [args' m|args' v|args' out]; [|by apply hs_ret..]. hb r (apply hs_resolve_args; grow). apply hs_ret. intros tr [[_ Hp] Hr].
  by destruct r as [s|[x d]].
Qed.

Lemma preflight_tool c : match preflightToolCall parse h c with Runnable_ c t _ => find_tool h (call_name c) = Some t | Rejected _ _ _ => True end.
Proof. unfold preflightToolCall. cbv zeta. destruct (find_tool h (call_name c)) as [t|] eqn:E; [|done]. by destruct (t_validate t _). Qed.

(** ** Authorizing *)

Definition authorize_fact (c : tool_call) (v : option hook_result) (asked : json) (tr : list tool_act) : Prop :=
  (th_authorize h = None /\ v = None) \/ AuthorizeHook (call_id c) asked v ∈ tr.

Lemma hs_authorize_hook calls c args x F `{!Grows F} : hs F (runAuthorizeToolExecutionHook h calls c args x) (fun v => authorize_fact c v args).
Proof.
  unfold runAuthorizeToolExecutionHook. destruct (th_authorize h) as [f|] eqn:E; [|apply hs_ret; by left].
  hb r (apply hs_attempt, hs_call). eapply (hs_bind _ _ _ anything); [destruct r; grow| |].
  - destruct r as [v|e]; [by apply hs_ret|]. hb sig (apply hs_signal; grow). by apply hs_ret.
  - intros v. cbv beta. eapply hs_bind; [destruct r; unfold anything; grow|by apply hs_tell|]. intros u. apply hs_ret. intros tr [_ H]. by right.
Qed.

Definition authorized_fact (p : @preparation W) (z : authorized) (tr : list tool_act) : Prop :=
  g_call (z_task z) = r_call p /\ resolved_to (r_tool p) (g_args (z_task z)) (g_execution (z_task z)) /\ was_authorized tr (r_call p) (g_args (z_task z)) /\
  (g_execution (z_task z) = r_execution p \/ exists asked v, AuthorizeHook (call_id (r_call p)) asked (Some v) ∈ tr /\ h_updatedArgs v = Some (g_args (z_task z))) /\
  a_call (z_announce z) = r_call p /\ a_args (z_announce z) = g_args (z_task z).

#[global] Instance grows_authorized_fact p z : Grows (authorized_fact p z).
Proof. unfold authorized_fact. grow. Qed.
#[global] Instance grows_authorize_fact c v asked : Grows (authorize_fact c v asked).
Proof. unfold authorize_fact. grow. Qed.

Lemma hs_authorize calls p F `{!Grows F} : (forall tr, F tr -> preparation_ok tr p) ->
  hs F (authorizeToolCallPreparation h calls p) (fun r tr => match r with inl _ => True | inr z => authorized_fact p z tr end).
Proof.
  intros HF. unfold authorizeToolCallPreparation. cbv zeta. hb v (apply hs_authorize_hook; grow). hb sig (apply hs_signal; grow).
  destruct sig as [user|]; [by apply hs_ret|]. destruct v as [v|].
  - destruct (h_block v) eqn:Eb; [by apply hs_ret|]. destruct (h_syntheticResult v) eqn:Es; [by apply hs_ret|]. destruct (h_updatedArgs v) as [args|] eqn:Eu.
    + hb r (apply hs_resolve_args; unfold anything; grow). destruct r as [r|[x d]]; [by apply hs_ret|]. apply hs_ret. intros tr [[[Hf Ha] _] Hr].
      destruct Ha as [[_ Ha]|Ha]; [done|]. split; [done|]. split; [exact Hr|]. split; [right; exists (r_args p), (Some v); split; [exact Ha|]; split; [done|]; split; [done|]; by rewrite Eu|].
      split; [right; by exists (r_args p), v|done].
    + apply hs_ret. intros tr [[Hf Ha] _]. destruct (HF tr Hf) as (H1 & H2 & H3 & H4 & H5). destruct Ha as [[_ Ha]|Ha]; [done|].
      split; [done|]. split; [done|]. split; [right; exists (r_args p), (Some v); split; [exact Ha|]; split; [done|]; split; [done|]; by rewrite Eu|]. split; [by left|done].
  - apply hs_ret. intros tr [[Hf Ha] _]. destruct (HF tr Hf) as (H1 & H2 & H3 & H4 & H5). split; [done|]. split; [done|].
    split; [destruct Ha as [[Ha _]|Ha]; [by left|right; by exists (r_args p), None]|]. split; [by left|done].
Qed.

(** ** Announcing and scheduling *)

Definition announced_as (a : announcement) (tr : list tool_act) : Prop := Called (call_id (a_call a)) (call_name (a_call a)) (a_args a) (a_display a) ∈ tr.

Lemma hs_dispatch_live a F `{!Grows F} : (forall tr, F tr -> act_ok tr a) -> hs F (dispatch_live h a) anything.
Proof. intros Ha. unfold dispatch_live. hb u (by apply hs_tell). hb r (apply hs_attempt, hs_call). by apply hs_ret. Qed.

Lemma safe_run s u' : safe s -> jwf (u_entries u') -> (forall id sl, jget (u_entries u') id = Some sl -> slot_fact (trace s) sl) -> (forall id, id ∈ u_announced u' -> called id (trace s)) ->
  safe (St (world s) u' (live s) (outstanding s) (trace s)).
Proof. intros []. by split. Qed.

Lemma hs_upd_run f F : (forall s, safe s -> F (trace s) -> safe (St (world s) (f (run s)) (live s) (outstanding s) (trace s))) -> hs F (upd_run f) anything.
Proof. intros H s Hs HF. split; [by apply H|]. split; [exists []; by rewrite app_nil_r|done]. Qed.

Lemma hs_announce a F `{!Grows F} : hs F (announce h a) (fun _ => announced_as a).
Proof.
  unfold announce. cbv zeta. eapply hs_bind; [grow|by apply hs_dispatch|intros u; cbv beta]. destruct (a_gated a); [|by apply hs_ret; intros tr []].
  set (G := fun tr => F tr /\ announced_as a tr). assert (Grows G) as HG by (unfold G, announced_as; grow).
  eapply (hs_bind _ _ _ anything); [grow|eapply hs_weaken; [apply (hs_get G)|done|done]|intros s]. eapply hs_weaken; [|intros tr [H _]; exact H|intros x tr H; exact H].
  eapply (hs_bind _ _ _ anything); [grow| |intros u']; [|eapply hs_weaken with (F := G); [|intros tr [H _]; exact H|intros x tr H; exact H]].
  - apply hs_upd_run. intros s0 Hs0 [_ Ha]. apply safe_run; [done|apply (sf_wf _ Hs0)|apply (sf_entries _ Hs0)|]. intros id Hid. cbn in Hid. case_bool_decide as Hc; [by apply (sf_announced _ Hs0)|].
    apply elem_of_app in Hid as [Hid| ->%list_elem_of_singleton]; [by apply (sf_announced _ Hs0)|]. by eexists _, _, _.
  - eapply hs_weaken; [apply (hs_keep _ G)|done|intros x tr [[_ H] _]; exact H]; [done|]. apply hs_each; [done|]. intros x _. apply hs_dispatch_live; [done|].
    intros tr [_ Ha]. by eexists _, _, _.
Qed.

Lemma hs_schedule g b F `{!Grows F} : (forall tr, F tr -> may_run tr g b) -> hs F (schedule g b) anything.
Proof.
  intros HF s Hs Hf. destruct (hs_tell (Scheduled g b) F HF s Hs Hf) as ([] & (t & Et) & _). unfold schedule, bind, tell, set_live in *. cbn in *.
  split; [split; cbn; [done|done|done|done|]|split; [by eexists|done]]. intros id. rewrite jget_set. case_decide as E; [|apply sf_live0].
  intros [= ->]. subst id. destruct (HF _ Hf) as (_ & _ & _ & d & Hd). eexists _, _, _. apply elem_of_app. left. exact Hd.
Qed.

Lemma hs_on_update iu : hs (fun _ => True) (onUpdate h iu) anything.
Proof.
  intros s Hs _. unfold onUpdate, bind, get. destruct (th_signal h (world s)); [by apply (hs_ret tt (fun _ => True))|].
  destruct (jget (live s) iu.1) as [g|] eqn:El; [|by apply (hs_ret tt (fun _ => True))]. destruct (g && _) eqn:Eg.
  - apply (hs_upd_run (gate_update iu.1 iu.2) (fun _ => True)); [|done|done]. intros s0 Hs0 _. apply safe_run; [done|apply (sf_wf _ Hs0)|apply (sf_entries _ Hs0)|apply (sf_announced _ Hs0)].
  - apply (hs_dispatch_live (Progress iu.1 iu.2) (called iu.1)); [by intros tr H|done|]. destruct g; [|by apply (sf_live _ Hs)].
    apply andb_false_iff in Eg as [|Eg]; [done|]. apply negb_false_iff, bool_decide_eq_true in Eg. by apply (sf_announced _ Hs).
Qed.

Lemma may_run_of tr p z (b : bool) : preparation_ok tr p -> authorized_fact p z tr ->
  (if b then may_start_early tr (z_task z) else announced_as (z_announce z) tr) -> may_run tr (z_task z) b.
Proof.
  intros (A1 & A2 & A3 & _) (B1 & B2 & B3 & B4 & B5 & B6) Hb. unfold may_run. rewrite B1. split; [by exists (r_tool p)|]. split; [done|]. split; [done|].
  destruct b; [done|]. unfold announced_as in Hb. rewrite B5, B6 in Hb. by eexists.
Qed.

(** ** The runner *)

Definition entry_fact (e : @entry_state W) (tr : list tool_act) : Prop := slot_fact tr (Done e).
#[global] Instance grows_entry_fact e : Grows (entry_fact e).
Proof. unfold entry_fact. grow. Qed.

Lemma hs_mark_stopped s F `{!Grows F} : hs F (@markStoppedOnSettle W s) entry_fact.
Proof.
  unfold markStoppedOnSettle, stop_runner. eapply (hs_bind _ _ _ anything); [done| |intros u; by apply hs_ret].
  destruct (s_stopBatch s); [|by apply hs_ret]. apply hs_upd_run. intros s0 Hs0 _. apply safe_run; [done|apply (sf_wf _ Hs0)|apply (sf_entries _ Hs0)|apply (sf_announced _ Hs0)].
Qed.

Lemma hs_prepare_one c : hs (fun _ => True) (prepareOne parse h c) entry_fact.
Proof.
  unfold prepareOne. cbv zeta. eapply (hs_bind _ _ _ anything); [grow|eapply hs_weaken; [apply (hs_get (fun _ => True))|done|done]|intros s; cbv beta].
  destruct (u_stopped (run s)); [by apply hs_ret|]. pose proof (preflight_tool c) as Hp.
  eapply hs_bind; [unfold anything; grow|apply hs_resolve; [unfold anything; grow|exact Hp]|intros r; cbv beta]. destruct r as [r|p]; [apply hs_mark_stopped; unfold anything; grow|].
  set (G := fun tr => _ /\ prepared_fact (inr p) tr). assert (Grows G) as HG by (unfold G, anything; cbn; grow).
  eapply hs_bind; [done|by apply hs_signal|intros sig; cbv beta]. destruct (negb (isStreamingEligible (r_execution p)) || bool_decide (sig <> None)) eqn:Eb.
  - eapply (hs_bind _ _ _ anything); [unfold anything; grow| |intros u; apply hs_ret; intros tr [[[_ H] _] _]; exact H]. unfold stop_runner.
    destruct (x_stopBatchAfterThis (r_execution p)); [|by apply hs_ret]. apply hs_upd_run. intros s0 Hs0 _. apply safe_run; [done|apply (sf_wf _ Hs0)|apply (sf_entries _ Hs0)|apply (sf_announced _ Hs0)].
  - apply orb_false_iff in Eb as [Eb _]. apply negb_false_iff in Eb.
    eapply hs_bind; [unfold anything; grow|apply hs_authorize; [unfold anything; grow|by intros tr [[_ H] _]]|intros z; cbv beta].
    destruct z as [z|z]; [apply hs_mark_stopped; unfold anything; grow|]. eapply (hs_bind _ _ _ anything); [unfold anything; grow| |intros u; by apply hs_ret].
    apply hs_schedule; [unfold anything; grow|]. intros tr [[[_ Hpr] _] Hz]. apply (may_run_of tr p z true); [done|done|].
    destruct Hz as (B1 & _ & _ & B4 & _). unfold may_start_early. rewrite B1. destruct B4 as [->|B4]; [by left|by right].
Qed.

Lemma hs_set_slot id sl F : (forall tr, F tr -> slot_fact tr sl) -> hs F (@upd_run W (fun u => set_entries (jset (u_entries u) id sl) u)) anything.
Proof.
  intros HF. apply hs_upd_run. intros s Hs Hf. apply safe_run; [done|by apply jwf_set, Hs| |apply (sf_announced _ Hs)]. cbn. intros id' sl'. rewrite jget_set.
  case_decide; [intros [= <-]; by apply HF|apply (sf_entries _ Hs)].
Qed.

Lemma hs_chain_step : hs (fun _ => True) (chain_step parse h) anything.
Proof.
  unfold chain_step. eapply (hs_bind _ _ _ anything); [grow|eapply hs_weaken; [apply (hs_get (fun _ => True))|done|done]|intros s; cbv beta].
  destruct (first_waiting (run s)) as [c|]; [|by apply hs_ret]. eapply hs_bind; [unfold anything; grow|apply hs_frame; [unfold anything; grow|apply hs_prepare_one]|intros e; cbv beta].
  apply hs_set_slot. by intros tr [_ H].
Qed.

Lemma hs_chain_steps n : hs (fun _ => True) (chain_steps parse h n) anything.
Proof.
  induction n as [|n IH]; cbn [chain_steps]; [by apply hs_ret|]. eapply (hs_bind _ _ _ anything); [grow|apply hs_chain_step|intros u].
  eapply hs_weaken; [exact IH|done|done].
Qed.

Lemma hs_background : hs (fun _ => True) (background parse h) anything.
Proof.
  unfold background. eapply (hs_bind _ _ _ anything); [grow|apply hs_upd_world|intros u1]. eapply (hs_bind _ _ _ anything); [unfold anything; grow|eapply hs_weaken; [apply (hs_get (fun _ => True))|done|done]|intros s1].
  eapply (hs_bind _ _ _ anything); [unfold anything; grow|apply hs_frame; [unfold anything; grow|apply hs_chain_steps]|intros u2].
  eapply (hs_bind _ _ _ anything); [unfold anything; grow|eapply hs_weaken; [apply (hs_get (fun _ => True))|done|done]|intros s2].
  apply hs_each; [unfold anything; grow|]. intros x _. apply hs_frame; [unfold anything; grow|apply hs_on_update].
Qed.

Definition found_fact (e : option (@entry_state W)) (tr : list tool_act) : Prop := match e with Some e => entry_fact e tr | None => True end.
#[global] Instance grows_found e : Grows (found_fact e).
Proof. unfold found_fact. destruct e; grow. Qed.

Lemma await_entry_eq n id s : await_entry parse h n id s = match jget (u_entries (run s)) id with
  | None => (s, Ok None)
  | Some (Done e) => (s, Ok (Some e))
  | Some (Waiting _) => match n with O => (s, Ok None) | S n => bind (chain_step parse h) (fun _ => await_entry parse h n id) s end
  end.
Proof. destruct n; cbn [await_entry]; unfold bind at 1, get; by destruct (jget (u_entries (run s)) id) as [[c|e]|]. Qed.

Lemma hs_await_entry n id : hs (fun _ => True) (await_entry parse h n id) found_fact.
Proof.
  assert (forall s e, safe s -> jget (u_entries (run s)) id = Some (Done e) -> found_fact (Some e) (trace s)) as Hd by (intros s e Hs E; exact (sf_entries _ Hs _ _ E)).
  assert (forall s x, safe s -> found_fact x (trace s) -> safe s /\ (exists t, trace s = trace s ++ t) /\ forall y, Ok x = @Ok tool_error _ y -> found_fact y (trace s)) as Hr.
  { intros s x Hs Hx. split; [done|]. split; [exists []; by rewrite app_nil_r|]. by intros y [= <-]. }
  induction n as [|n IH]; intros s Hs _; rewrite await_entry_eq; destruct (jget (u_entries (run s)) id) as [[c|e]|] eqn:E.
  - by apply (Hr s None).
  - by apply (Hr s (Some e)), Hd.
  - by apply (Hr s None).
  - apply (hs_bind (chain_step parse h) (fun _ => await_entry parse h n id) (fun _ => True) anything); [grow|apply hs_chain_step| |done|done].
    intros u. eapply hs_weaken; [exact IH|done|done].
  - by apply (Hr s (Some e)), Hd.
  - by apply (Hr s None).
Qed.

Lemma hs_take_entry id F `{!Grows F} : hs F (takeEntry parse h id) found_fact.
Proof.
  apply hs_frame; [done|]. unfold takeEntry. eapply (hs_bind _ _ _ anything); [grow|apply hs_background|intros u].
  eapply (hs_bind _ _ _ anything); [unfold anything; grow|eapply hs_weaken; [apply (hs_get (fun _ => True))|done|done]|intros s1].
  eapply hs_bind; [unfold anything; grow|apply hs_frame; [unfold anything; grow|apply hs_await_entry]|intros e; cbv beta].
  eapply (hs_bind _ _ _ anything); [unfold anything; grow| |intros u2; by apply hs_ret; intros tr [[_ H] _]].
  apply hs_upd_run. intros s Hs _. apply safe_run; [done|by apply jwf_del, Hs| |apply (sf_announced _ Hs)]. cbn. intros id' sl'. rewrite jget_del by apply Hs. case_decide; [done|apply (sf_entries _ Hs)].
Qed.

(** ** The batch *)

Lemma hs_any {A} (m : @M W A) F Q : hs F m Q -> hs F m anything.
Proof. intros H. by eapply hs_weaken; [exact H| |]. Qed.

Tactic Notation "hn" tactic3(t) := eapply (hs_bind _ _ _ anything); [unfold anything; grow|eapply hs_any; t|intros ?u; cbv beta].
Ltac sgrow := unfold anything; grow.

Lemma hs_await_result t F `{!Grows F} : hs F (await_result parse h t) anything.
Proof.
  unfold await_result. hn (apply hs_frame; [done|apply hs_background]). destruct t as [r|g]; [by apply hs_ret|]. intros s [] HF. destruct (th_settle h g (world s)) as [w out].
  split; [by split|]. split; [exists []; by rewrite app_nil_r|done].
Qed.

Lemma hs_finalize calls p F `{!Grows F} : hs F (finalizePendingToolResult h calls p) anything.
Proof.
  unfold finalizePendingToolResult. destruct (th_finalize h) as [f|]; [|by apply hs_ret]. cbv zeta. hn (by apply hs_tell).
  eapply hs_bind; [sgrow|apply hs_attempt, hs_call|intros r; cbv beta]. destruct r as [r|e]; [by apply hs_ret|]. hn (apply hs_signal; sgrow). by apply hs_ret.
Qed.

Lemma hs_result p F `{!Grows F} : hs F (dispatchToolResult h p) anything.
Proof. eapply hs_any. by apply hs_dispatch. Qed.

Lemma hs_add_task t F `{!Grows F} : (forall tr, F tr -> match t with NewTask g => may_run tr g false | _ => True end) -> hs F (@add_task W t) anything.
Proof.
  intros HF. unfold add_task. eapply (hs_bind _ _ _ anything); [done|destruct t; [by apply hs_ret|by apply hs_schedule|by apply hs_ret]|intros u; cbv beta].
  intros s [] Hf. split; [by split|]. split; [exists []; by rewrite app_nil_r|done].
Qed.

Definition task_fact (r : prepared_task * bool) (tr : list tool_act) : Prop := match r.1 with NewTask g => may_run tr g false | _ => True end.

#[global] Instance grows_may_run g b : Grows (fun tr => may_run tr g b).
Proof. unfold may_run. apply grows_and; [grow|]. apply grows_and; [grow|]. apply grows_and; [grow|]. destruct b; grow. Qed.
#[global] Instance grows_task r : Grows (task_fact r).
Proof. unfold task_fact. destruct r.1; grow. Qed.

Lemma hs_prepared_authorized calls p F `{!Grows F} : (forall tr, F tr -> preparation_ok tr p) -> hs F (prepared_authorized h calls p) task_fact.
Proof.
  intros HF. unfold prepared_authorized. eapply hs_bind; [done|by apply hs_authorize|intros z; cbv beta]. destruct z as [z|z].
  - hn (apply hs_announce; sgrow). by apply hs_ret.
  - eapply hs_bind; [sgrow|apply hs_announce; sgrow|intros u; cbv beta]. apply hs_ret. intros tr [[Hf Hz] Ha]. apply (may_run_of tr p z false); [by apply HF|done|done].
Qed.

Lemma hs_prepare_call calls c F `{!Grows F} : hs F (prepareToolCall h calls (preflightToolCall parse h c)) task_fact.
Proof.
  unfold prepareToolCall. eapply hs_bind; [done|apply hs_resolve; [done|apply preflight_tool]|intros r; cbv beta]. destruct r as [z|p].
  - hn (apply hs_announce; cbn; sgrow). by apply hs_ret.
  - apply hs_prepared_authorized; [cbn; grow|]. by intros tr [_ H].
Qed.

Lemma hs_prepare_skipped pf F `{!Grows F} : hs F (prepareSkippedToolCall h pf) (fun t tr => task_fact (t, false) tr).
Proof. unfold prepareSkippedToolCall. hn (apply hs_announce; sgrow). by apply hs_ret. Qed.

Lemma hs_materialize calls id F `{!Grows F} : hs F (materialize parse h calls id) (fun r tr => match r with Some r => task_fact r tr | None => True end).
Proof.
  unfold materialize. eapply hs_bind; [done|by apply hs_take_entry|intros e; cbv beta]. destruct e as [[e|g a|p|pf]|]; [| | | |by apply hs_ret].
  - hn (apply hs_announce; sgrow). by apply hs_ret.
  - hn (apply hs_announce; sgrow). by apply hs_ret.
  - eapply hs_bind; [sgrow|apply hs_prepared_authorized; [sgrow|by intros tr [_ H]]|intros r; cbv beta]. apply hs_ret. by intros tr [_ H].
  - eapply hs_bind; [sgrow|apply hs_prepare_skipped; sgrow|intros t; cbv beta]. apply hs_ret. by intros tr [_ H].
Qed.

Lemma hs_materialize_call b calls c F `{!Grows F} : hs F (materialize_call parse h b calls c) task_fact.
Proof.
  unfold materialize_call. eapply (hs_bind _ _ _ (fun r tr => match r with Some r => task_fact r tr | None => True end)); [done|destruct b; [by apply hs_materialize|by apply hs_ret]|].
  intros [r|]; cbv beta; [apply hs_ret; by intros tr [_ H]|]. hn (apply hs_frame; [sgrow|apply hs_background]). apply hs_prepare_call. sgrow.
Qed.

Lemma hs_skip_call b c F `{!Grows F} : hs F (skip_call parse h b c) anything.
Proof.
  unfold skip_call. eapply (hs_bind _ _ _ found_fact); [done|destruct b; [by apply hs_take_entry|by apply hs_ret]|]. intros e. cbv beta.
  eapply hs_bind; [sgrow|apply hs_prepare_skipped; sgrow|intros t; cbv beta]. apply hs_add_task; [sgrow|]. by intros tr [_ H].
Qed.

Lemma hs_prepare_calls b calls rest : hs (fun _ => True) (prepare_calls parse h b calls rest) anything.
Proof.
  induction rest as [|c rest IH]; cbn [prepare_calls]; [by apply hs_ret|]. eapply hs_bind; [grow|apply hs_materialize_call; grow|intros r; cbv beta].
  hn (apply hs_add_task; [sgrow|by intros tr [_ H]]). destruct r.2.
  - hn (apply hs_each; [sgrow|intros x _; apply hs_skip_call; sgrow]). by apply hs_ret.
  - apply hs_frame; [sgrow|exact IH].
Qed.

Lemma hs_get_any F : hs F get anything.
Proof. eapply hs_any, (hs_get F). Qed.

Lemma hs_next_outstanding F : hs F (@next_outstanding W) anything.
Proof.
  intros s Hs HF. pose proof Hs as []. unfold next_outstanding, bind, get. destruct (outstanding s); cbn; (split; [|split; [exists []; by rewrite app_nil_r|done]]); by split.
Qed.

Lemma hs_drain_results calls n : hs (fun _ => True) (drain_results parse h n calls) anything.
Proof.
  induction n as [|n IH]; cbn [drain_results]; [by apply hs_ret|]. eapply hs_bind; [grow|apply hs_next_outstanding|intros t; cbv beta]. destruct t as [t|]; [|by apply hs_ret].
  hn (apply hs_await_result; sgrow). hn (apply hs_finalize; sgrow). hn (apply hs_result; sgrow). hn (apply hs_frame; [sgrow|exact IH]). by apply hs_ret.
Qed.

Lemma hs_settle_rest n : hs (fun _ => True) (settle_rest parse h n) anything.
Proof.
  induction n as [|n IH]; cbn [settle_rest]; [by apply hs_ret|]. eapply hs_bind; [grow|apply hs_next_outstanding|intros t; cbv beta]. destruct t as [t|]; [|by apply hs_ret].
  hn (apply hs_await_result; sgrow). apply hs_frame; [sgrow|exact IH].
Qed.

Lemma hs_drain_orphans calls F `{!Grows F} : hs F (drainOrphanedPreparations parse h calls) anything.
Proof.
  unfold drainOrphanedPreparations. hn (apply hs_get_any). apply hs_each; [sgrow|]. intros id _. unfold drain_orphan. eapply hs_bind; [sgrow|apply hs_take_entry; sgrow|intros e; cbv beta].
  destruct e as [[e|g a|p|pf]|]; try by apply hs_ret.
  - hn (apply hs_finalize; sgrow). by apply hs_ret.
  - hn (apply hs_await_result; sgrow). hn (apply hs_finalize; sgrow). by apply hs_ret.
  - hn (apply hs_finalize; sgrow). by apply hs_ret.
Qed.

Lemma hs_batch streaming response : hs (fun _ => True) (runToolCallBatch parse h streaming response) anything.
Proof.
  assert (forall calls, hs (fun _ => True) (if streaming then drainOrphanedPreparations parse h calls else ret tt) anything) as Hd.
  { intros calls. destruct streaming; [apply hs_drain_orphans; grow|by apply hs_ret]. }
  unfold runToolCallBatch. destruct response as [|c l]; [hn (apply Hd); by apply hs_ret|]. cbv zeta. unfold finally.
  eapply (hs_bind _ _ _ anything); [grow|eapply hs_any, (hs_attempt _ _ anything)|intros r; cbv beta].
  - hn (apply Hd). hn (apply hs_frame; [sgrow|apply hs_prepare_calls]). hn (apply hs_get_any). hn (apply hs_frame; [sgrow|apply hs_drain_results]). by apply hs_ret.
  - hn (apply hs_get_any). hn (apply hs_frame; [sgrow|apply hs_settle_rest]). destruct r; [by apply hs_ret|by apply hs_throw].
Qed.

Lemma streamed_safe s : streamed parse h s -> safe s.
Proof.
  induction 1 as [w|s c _ IH|s _ IH].
  - split; [constructor|constructor|done|intros id Hid; by apply elem_of_nil in Hid|done].
  - apply (hs_upd_run (addReady parse h c) (fun _ => True)); [|done|done]. intros s0 Hs0 _. unfold addReady. case_bool_decide as Hin; [by apply safe_run; [|apply Hs0..]|].
    apply safe_run; [done|by apply jwf_set, Hs0| |apply (sf_announced _ Hs0)]. cbn. intros id sl. rewrite jget_set. case_decide; [|apply (sf_entries _ Hs0)].
    intros [= <-]. by destruct (u_stopped _).
  - by apply hs_background.
Qed.

(** C4. Nothing runs unchecked. Whatever the stream, the hooks, the tools and failures do:
    an execution starts only for arguments its tool's schema accepts and resolved to that
    execution, after the prepare hook let the call pass and the authorize hook let exactly
    those arguments pass; it starts after the call was recorded with those arguments, or
    early, while the response arrives, if it only reads or the hook rewrote it. And
    progress is shown only after the call was. *)
Theorem tool_runs_justified s streaming response : streamed parse h s -> trace_ok (trace (runToolCallBatch parse h streaming response s).1).
Proof. intros Hs. apply (hs_batch streaming response); [by apply streamed_safe|done]. Qed.
End justified.

Lemma tool_runs_justified_witness : trace_ok ex_plain (trace (runToolCallBatch ex_parse ex_plain true ex_calls (ex_stream ex_plain ex_calls)).1).
Proof. exact (tool_runs_justified ex_parse ex_plain (ex_stream ex_plain ex_calls) true ex_calls (ex_streamed ex_plain ex_calls)). Defined.
