(* ===== verification/ToolCallOnce.v ===== *)
(** No call runs twice, whatever the stream, the retries and the hooks do; and what the
    batch records leaves the conversation without open calls. *)

From S2P Require Import Prelude JsMap Json JsonText JsString Messages ContextMemory ToolScheduler ToolCalls ToolCallExamples ToolCallLaws.

(** The calls whose execution was started. *)
Definition sids (l : list tool_act) : list jsstr := omap (fun a => match a with Scheduled g _ => Some (call_id (g_call g)) | _ => None end) l.

Lemma sids_app l1 l2 : sids (l1 ++ l2) = sids l1 ++ sids l2.
Proof. apply omap_app. Qed.

Section once.
Context {W : Type} (parse : jsstr -> option json) (h : @tool_host W).

Abbreviation st := (@st W).
Abbreviation M := (@M W).

(** * Actions that start nothing and leave the entries alone *)

Definition calm {A} (m : M A) : Prop := forall s, u_entries (run (m s).1) = u_entries (run s) /\ sids (trace (m s).1) = sids (trace s).

Lemma calm_ret {A} (x : A) : calm (ret x).
Proof. done. Qed.
Lemma calm_throw {A} e : calm (@throw W A e).
Proof. done. Qed.
Lemma calm_get : calm (@get W).
Proof. done. Qed.
Lemma calm_bind {A B} (m : M A) (k : A -> M B) : calm m -> (forall x, calm (k x)) -> calm (bind m k).
Proof.
  intros Hm Hk s. unfold bind. specialize (Hm s). destruct (m s) as [s' [x|e]]; cbn in *; [|done]. destruct (Hk x s') as [E1 E2]. destruct Hm as [E3 E4]. split; congruence.
Qed.
Lemma calm_attempt {A} (m : M A) : calm m -> calm (attempt m).
Proof. intros Hm s. specialize (Hm s). unfold attempt. by destruct (m s). Qed.
Lemma calm_call {A} (f : W -> W * result tool_error A) : calm (call f).
Proof. intros s. unfold call. by destruct (f (world s)). Qed.
Lemma calm_tell a : match a with Scheduled _ _ => False | _ => True end -> calm (@tell W a).
Proof. intros Ha s. split; [done|]. cbn. rewrite sids_app. destruct a; try done; cbn; by rewrite app_nil_r. Qed.
Lemma calm_upd_run f : (forall u, u_entries (f u) = u_entries u) -> calm (@upd_run W f).
Proof. intros H s. split; [apply H|done]. Qed.
Lemma calm_outstanding l : calm (@set_outstanding W l).
Proof. done. Qed.
Lemma calm_each {A} (f : A -> M unit) l : (forall x, calm (f x)) -> calm (each f l).
Proof. intros H. induction l as [|x l IH]; cbn [each]; [done|]. apply calm_bind; [apply H|done]. Qed.
End once.

Create HintDb calm discriminated.
#[export] Hint Resolve calm_ret calm_throw calm_get calm_call calm_outstanding : calm.

(** Decomposes an action into its steps. *)
Ltac calm_step := lazymatch goal with
  | |- calm (bind _ _) => apply calm_bind; [|intros ?]
  | |- calm (attempt _) => apply calm_attempt
  | |- calm (tell _) => by apply calm_tell
  | |- calm (upd_run _) => by apply calm_upd_run
  | |- calm (each _ _) => apply calm_each; intros ?
  | |- calm (let _ := _ in _) => cbv zeta
  | |- calm (match ?x with _ => _ end) => destruct x
  | |- _ => solve [auto with calm]
  end.
Ltac calm := repeat calm_step.

Section once2.
Context {W : Type} (parse : jsstr -> option json) (h : @tool_host W).

Lemma calm_signal : calm (signal h).
Proof. unfold signal. calm. Qed.
Lemma calm_dispatch a : match a with Scheduled _ _ => False | _ => True end -> calm (dispatch h a).
Proof. intros H. unfold dispatch. apply calm_bind; [by apply calm_tell|intros ?]. calm. Qed.
Lemma calm_dispatch_live a : match a with Scheduled _ _ => False | _ => True end -> calm (dispatch_live h a).
Proof. intros H. unfold dispatch_live. apply calm_bind; [by apply calm_tell|intros ?]. calm. Qed.
Hint Resolve calm_signal : calm.
Hint Extern 1 (calm (dispatch _ _)) => by apply calm_dispatch : calm.
Hint Extern 1 (calm (dispatch_live _ _)) => by apply calm_dispatch_live : calm.

Lemma calm_prepare_hook calls c args : calm (runPrepareToolExecutionHook h calls c args).
Proof. unfold runPrepareToolExecutionHook. calm. Qed.
Hint Resolve calm_prepare_hook : calm.
Lemma calm_resolve_args phase c t args d : calm (resolve_args h phase c t args d).
Proof. unfold resolve_args. calm. Qed.
Hint Resolve calm_resolve_args : calm.
Lemma calm_resolve calls pf : calm (resolveToolCallPreparation h calls pf).
Proof. unfold resolveToolCallPreparation. calm. Qed.
Lemma calm_authorize_hook calls c args x : calm (runAuthorizeToolExecutionHook h calls c args x).
Proof. unfold runAuthorizeToolExecutionHook. calm. Qed.
Hint Resolve calm_resolve calm_authorize_hook : calm.
Lemma calm_authorize calls p : calm (authorizeToolCallPreparation h calls p).
Proof. unfold authorizeToolCallPreparation. calm. Qed.
Lemma calm_announce a : calm (announce h a).
Proof. unfold announce. calm. Qed.
Lemma calm_on_update iu : calm (onUpdate h iu).
Proof. unfold onUpdate. calm. Qed.
Lemma calm_mark_stopped s : calm (@markStoppedOnSettle W s).
Proof. unfold markStoppedOnSettle, stop_runner. calm. Qed.
Hint Resolve calm_authorize calm_announce calm_on_update calm_mark_stopped : calm.
Lemma calm_prepared_authorized calls p : calm (prepared_authorized h calls p).
Proof. unfold prepared_authorized. calm. Qed.
Hint Resolve calm_prepared_authorized : calm.
Lemma calm_prepare_call calls pf : calm (prepareToolCall h calls pf).
Proof. unfold prepareToolCall. calm. Qed.
Lemma calm_prepare_skipped pf : calm (prepareSkippedToolCall h pf).
Proof. unfold prepareSkippedToolCall. calm. Qed.
Lemma calm_finalize calls p : calm (finalizePendingToolResult h calls p).
Proof. unfold finalizePendingToolResult. calm. Qed.
Lemma calm_next_outstanding : calm (@next_outstanding W).
Proof. unfold next_outstanding. calm. Qed.
Lemma calm_settle g : calm (fun s : @st W => let '(w, out) := th_settle h g (world s) in (St w (run s) (live s) (outstanding s) (trace s), Ok (run_result g out))).
Proof. intros s. by destruct (th_settle h g (world s)). Qed.

(** * What is started so far *)

Definition starts (e : @entry_state W) : list jsstr := match e with StartedEntry g _ => [call_id (g_call g)] | _ => [] end.

Definition Same (E : list (jsstr * @stream_slot W)) (S : list jsstr) (s : @st W) : Prop := runner_ok (run s) /\ u_entries (run s) = E /\ sids (trace s) = S.

Lemma ht_calm {A} (m : @M W A) (F : A -> Prop) E S : calm m -> (forall v o, ht (At v o) m (fun x s => F x /\ At v o s)) -> ht (Same E S) m (fun x s => F x /\ Same E S s).
Proof.
  intros Hc Hm s (H1 & <- & <-). destruct (Hm (vis (trace s)) (promise_id <$> outstanding s) s) as (s' & x & Em & HF & H2 & _); [done|].
  exists s', x. split; [done|]. split; [done|]. destruct (Hc s) as [H3 H4]. rewrite Em in H3, H4. done.
Qed.

Lemma ht_calm_any {A} (m : @M W A) E S : calm m -> (forall v o, ht (At v o) m (fun _ => At v o)) -> ht (Same E S) m (fun _ => Same E S).
Proof. intros Hc Hm. eapply ht_weaken; [apply (ht_calm m (fun _ => True)); [done|]|done|by intros x s [_ H]]. intros v o. by eapply ht_weaken; [apply Hm|done|]. Qed.

Lemma ht_same_get E S : ht (Same E S) get (fun _ => Same E S).
Proof. eapply ht_weaken; [apply ht_get|done|]. by intros x s [_ H]. Qed.

Lemma ht_same_schedule g b E S : ht (Same E S) (schedule g b) (fun _ => Same E (S ++ [call_id (g_call g)])).
Proof. intros s (H1 & H2 & H3). eexists _, tt. split; [reflexivity|]. split; [done|]. split; [done|]. cbn. by rewrite sids_app, H3. Qed.

Lemma ht_same_ret (e : @entry_state W) (F : @entry_state W -> Prop) E S : F e -> starts e = [] -> ht (Same E S) (ret e) (fun e s => F e /\ Same E (S ++ starts e) s).
Proof. intros H He. apply ht_ret. intros s Hs. rewrite He, app_nil_r. done. Qed.

(** Preparing a call starts that call, when the entry says so, and nothing else. *)
Lemma prepare_one_starts c E S : ht (Same E S) (prepareOne parse h c) (fun e s => entry_ok (call_id c) e /\ Same E (S ++ starts e) s).
Proof.
  assert (forall id s, settled_ok id s -> ht (Same E S) (@markStoppedOnSettle W s) (fun e s => entry_ok id e /\ Same E (S ++ starts e) s)) as Hmark.
  { intros id s H. unfold markStoppedOnSettle. hnext (apply ht_calm_any; [unfold stop_runner; calm|intros; apply (stop_runner_ok _ new_runner)]). by apply ht_same_ret. }
  unfold prepareOne. cbv zeta. pose proof (preflight_call parse h c) as Hc. hseq s (apply ht_same_get). destruct (u_stopped (run s)); [apply ht_same_ret; [cbn; by rewrite Hc|done]|].
  hseq r (apply ht_calm; [apply calm_resolve|intros; apply ht_resolve]). rewrite Hc in *. destruct r as [r|p]; [by apply Hmark|].
  hseq sig (apply ht_calm_any; [apply calm_signal|intros; apply ht_signal]). destruct (_ || _).
  - hnext (apply ht_calm_any; [unfold stop_runner; calm|intros; apply (stop_runner_ok _ new_runner)]). by apply ht_same_ret.
  - hseq z (apply ht_calm; [apply calm_authorize|intros; by apply ht_authorize]). destruct z as [z|z]; [by apply Hmark|].
    hnext (apply ht_same_schedule). apply ht_ret. intros s0 Hs. done.
Qed.

(** * The invariant *)

Definition is_started (sl : option (@stream_slot W)) : Prop := match sl with Some (Done (StartedEntry _ _)) => True | _ => False end.

(** What ran is still held by the runner as started, or is no longer [todo]; the ids of
    [absent] have no entry. *)
Definition once (todo absent : list jsstr) (E : list (jsstr * @stream_slot W)) (S : list jsstr) : Prop :=
  NoDup S /\ (forall id, id ∈ S -> is_started (jget E id) \/ (jget E id = None /\ id ∉ todo)) /\ (forall id, id ∈ absent -> jget E id = None).

Definition Inv (todo absent : list jsstr) (s : @st W) : Prop := runner_ok (run s) /\ once todo absent (u_entries (run s)) (sids (trace s)).

Lemma once_start todo absent E S id e : entry_ok id e -> (exists c, jget E id = Some (Waiting c)) -> once todo absent E S -> once todo absent (jset E id (Done e)) (S ++ starts e).
Proof.
  intros He (c & Hw) (H1 & H2 & H3).
  assert (id ∉ S) as Hn by (intros Hin; destruct (H2 _ Hin) as [H|[H _]]; rewrite Hw in H; done).
  assert (forall i, i ∈ absent -> jget (jset E id (Done e)) i = None) as Ha by (intros i Hi; rewrite jget_set; case_decide; [subst; rewrite H3 in Hw; done|by apply H3]).
  assert (forall i, i ∈ S -> is_started (jget (jset E id (Done e)) i) \/ (jget (jset E id (Done e)) i = None /\ i ∉ todo)) as Hs.
  { intros i Hi. rewrite jget_set. case_decide; [by subst|]. by apply H2. }
  destruct e as [s|g a|p|pf]; cbn [starts]; rewrite ?app_nil_r; try done. destruct He as [<- _]. split; [|split]; [|intros i [Hi|Hi%list_elem_of_singleton]%elem_of_app; [by apply Hs|]|done].
  - apply NoDup_app. split; [done|]. split; [|apply NoDup_singleton]. intros x Hx ->%list_elem_of_singleton. done.
  - subst i. left. rewrite jget_set. by case_decide.
Qed.

Lemma once_weaken t t' a a' E S : once t a E S -> (forall x, x ∈ t' -> x ∈ t) -> (forall x, x ∈ a' -> x ∈ a) -> once t' a' E S.
Proof. intros (H1 & H2 & H3) Ht Ha. split; [done|]. split; [|auto]. intros id Hid. destruct (H2 id Hid) as [H|[H H']]; [by left|right; auto]. Qed.

Lemma once_take t t' a E S id : jwf E -> once t a E S -> (forall x, x ∈ t' -> x ∈ t) -> (is_started (jget E id) -> id ∉ t') -> once t' (id :: a) (jdel E id) S.
Proof.
  intros Hwf (H1 & H2 & H3) Ht Hid. split; [done|]. split.
  - intros i Hi. rewrite jget_del by done. case_decide; [subst i|destruct (H2 i Hi) as [H4|[H4 H5]]; [by left|right; auto]].
    right. split; [done|]. destruct (H2 _ Hi) as [H4|[_ H5]]; [by apply Hid|auto].
  - intros i [->|Hi]%elem_of_cons; rewrite jget_del by done; case_decide; try done; auto.
Qed.

(** A call no longer held by the runner, and not started, is started by the batch. *)
Lemma once_schedule t t' a E S id : once t a E S -> id ∈ t -> id ∈ a -> (forall x, x ∈ t' -> x ∈ t /\ x <> id) -> once t' a E (S ++ [id]).
Proof.
  intros (H1 & H2 & H3) Hid Ha Ht. assert (id ∉ S) as Hn by (intros Hin; destruct (H2 _ Hin) as [H|[_ H]]; [rewrite H3 in H; done|done]). split; [|split; [|done]].
  - apply NoDup_app. split; [done|]. split; [|apply NoDup_singleton]. intros x Hx ->%list_elem_of_singleton. done.
  - intros i [Hi| ->%list_elem_of_singleton]%elem_of_app; [|right; split; [auto|by intros [_ Hne]%Ht]].
    destruct (H2 i Hi) as [H|[H H']]; [by left|right]. split; [done|]. by intros [H4 _]%Ht.
Qed.

(** * Partial triples: a thrown error leaves the invariant as well *)

Definition ho {A} (P : @st W -> Prop) (m : @M W A) (Q : A -> @st W -> Prop) : Prop :=
  forall s, P s -> match (m s).2 with Ok x => Q x (m s).1 | Err _ => Inv [] [] (m s).1 end.

Lemma ho_bind {A B} (m : @M W A) (k : A -> @M W B) P Q R : ho P m Q -> (forall x, ho (Q x) (k x) R) -> ho P (bind m k) R.
Proof. intros Hm Hk s Hs. specialize (Hm s Hs). unfold bind. destruct (m s) as [s1 [x|e]]; [by apply Hk|done]. Qed.

Lemma ho_ret {A} (x : A) (P : @st W -> Prop) (Q : A -> @st W -> Prop) : (forall s, P s -> Q x s) -> ho P (ret x) Q.
Proof. intros H s Hs. by apply H. Qed.

Lemma ho_weaken {A} (m : @M W A) P P' (Q Q' : A -> @st W -> Prop) : ho P m Q -> (forall s, P' s -> P s) -> (forall x s, Q x s -> Q' x s) -> ho P' m Q'.
Proof. intros H HP HQ s Hs. specialize (H s (HP s Hs)). destruct (m s) as [s' [x|e]]; [by apply HQ|done]. Qed.

Lemma ho_pure {A} (m : @M W A) (F : Prop) P Q : (F -> ho P m Q) -> ho (fun s => F /\ P s) m Q.
Proof. intros H s [HF Hs]. by apply H. Qed.

Lemma Inv_base t a s : Inv t a s -> Inv [] [] s.
Proof. intros [H1 H2]. split; [done|]. eapply once_weaken; [exact H2|by intros x Hx%elem_of_nil..]. Qed.

Lemma ho_each {A} (f : A -> @M W unit) l t a : (forall x, x ∈ l -> ho (Inv t a) (f x) (fun _ => Inv t a)) -> ho (Inv t a) (each f l) (fun _ => Inv t a).
Proof.
  induction l as [|x l IH]; intros H; cbn [each]; [by apply ho_ret|]. eapply ho_bind; [apply H; by left|]. intros ?. apply IH. intros y Hy. apply H. by right.
Qed.

Lemma ho_calm {A} (m : @M W A) t a : calm m -> ho (Inv t a) m (fun _ => Inv t a).
Proof.
  intros Hc s Hs. destruct (Hc s) as [H1 H2]. assert (Inv t a (m s).1) as H by (destruct Hs as [H3 H4]; unfold Inv, runner_ok; by rewrite H1, H2).
  destruct (m s) as [s' [x|e]]; [done|by apply Inv_base in H].
Qed.

Lemma ho_calm_fact {A} (m : @M W A) (F : A -> Prop) t a : calm m -> (forall v o, ht (At v o) m (fun x s => F x /\ At v o s)) -> ho (Inv t a) m (fun x s => F x /\ Inv t a s).
Proof.
  intros Hc Hm s Hs. destruct (ht_calm m F (u_entries (run s)) (sids (trace s)) Hc Hm s) as (s' & x & E & HF & H1 & H2 & H3); [by split; [apply Hs|]|].
  rewrite E. cbn. split; [done|]. split; [done|]. rewrite H2, H3. apply Hs.
Qed.

Lemma ho_get t a : ho (Inv t a) get (fun _ => Inv t a).
Proof. by intros s Hs. Qed.

(** * The runner *)

Lemma first_waiting_entry (u : @runner W) c : runner_ok u -> first_waiting u = Some c -> jget (u_entries u) (call_id c) = Some (Waiting c).
Proof.
  unfold first_waiting. intros [Hwf Hok] Hw. apply head_Some_elem_of, list_elem_of_omap in Hw as ([k sl] & Hin & E). cbn in E. destruct sl as [c'|]; [|done]. injection E as ->.
  rewrite Forall_forall in Hok. pose proof (Hok _ Hin) as Hk. cbn in Hk. rewrite Hk. by apply jget_in.
Qed.

Lemma chain_step_eq s : chain_step parse h s = match first_waiting (run s) with
  | None => (s, Ok tt)
  | Some c => bind (prepareOne parse h c) (fun e => upd_run (fun u => set_entries (jset (u_entries u) (call_id c) (Done e)) u)) s
  end.
Proof. unfold chain_step, bind at 1, get. by destruct (first_waiting (run s)). Qed.

Lemma ho_chain_step t a : ho (Inv t a) (chain_step parse h) (fun _ => Inv t a).
Proof.
  intros s Hs. rewrite chain_step_eq. destruct (first_waiting (run s)) as [c|] eqn:Ew; [|done]. destruct Hs as [Hr Hs].
  apply first_waiting_entry in Ew; [|done]. destruct (prepare_one_starts c _ _ s (conj Hr (conj eq_refl eq_refl))) as (s' & e & E & He & H1 & H2 & H3).
  unfold bind. rewrite E. split; [by apply runner_ok_set|]. change (once t a (jset (u_entries (run s')) (call_id c) (Done e)) (sids (trace s'))). rewrite H2, H3. apply once_start; eauto.
Qed.

Lemma ho_chain_steps n t a : ho (Inv t a) (chain_steps parse h n) (fun _ => Inv t a).
Proof. induction n as [|n IH]; cbn [chain_steps]; [by apply ho_ret|]. eapply ho_bind; [apply ho_chain_step|done]. Qed.

Lemma ho_background t a : ho (Inv t a) (background parse h) (fun _ => Inv t a).
Proof.
  unfold background. eapply ho_bind; [by apply ho_calm|intros ?]. eapply ho_bind; [apply ho_get|intros ?]. eapply ho_bind; [apply ho_chain_steps|intros ?].
  eapply ho_bind; [apply ho_get|intros ?]. apply ho_each. intros iu _. apply ho_calm, calm_on_update.
Qed.

(** An awaited entry is the one the runner then holds. *)
Definition held (id : jsstr) (e : option (@entry_state W)) (s : @st W) : Prop := is_started (jget (u_entries (run s)) id) -> exists g a, e = Some (StartedEntry g a).

Lemma await_entry_eq' n id s : await_entry parse h n id s = match jget (u_entries (run s)) id with
  | None => (s, Ok None)
  | Some (Done e) => (s, Ok (Some e))
  | Some (Waiting _) => match n with O => (s, Ok None) | S n => bind (chain_step parse h) (fun _ => await_entry parse h n id) s end
  end.
Proof. destruct n; cbn [await_entry]; unfold bind at 1, get; cbn; by destruct (jget _ _) as [[]|]. Qed.

Lemma ho_await_entry n id t a : ho (Inv t a) (await_entry parse h n id) (fun e s => held id e s /\ Inv t a s).
Proof.
  induction n as [|n IH]; intros s Hs; rewrite await_entry_eq'; destruct (jget (u_entries (run s)) id) as [[c|e]|] eqn:E; try (cbn; split; [unfold held; rewrite E|done]).
  all: try done. all: try (destruct e as [|g a'| |]; [done|by eexists _, _|done|done]).
  exact (ho_bind (chain_step parse h) (fun _ => await_entry parse h n id) (Inv t a) (fun _ => Inv t a) _ (ho_chain_step t a) (fun _ => IH) s Hs).
Qed.

(** What a taken entry leaves to do: nothing, if the call was started. *)
Lemma ho_take_entry id t a : ho (Inv t a) (takeEntry parse h id)
  (fun e => Inv (match e with Some (StartedEntry _ _) => List.filter (fun x => negb (bool_decide (x = id))) t | _ => t end) (id :: a)).
Proof.
  unfold takeEntry. eapply ho_bind; [apply ho_background|intros ?]. eapply ho_bind; [apply ho_get|intros s0]. eapply ho_bind; [apply ho_await_entry|intros e; cbv beta].
  intros s [Hh [Hr Ho]]. cbn. split; [by apply runner_ok_del|]. cbn. apply (once_take t); [apply Hr|done| |].
  - intros i Hx. destruct e as [[]|]; try done. apply list_elem_of_In, filter_In in Hx as [Hx _]. by apply list_elem_of_In.
  - intros Hst. destruct (Hh Hst) as (g & a' & ->). intros [_ Hx]%list_elem_of_In%filter_In. by rewrite bool_decide_eq_true_2 in Hx.
Qed.

(** Awaiting ends: each turn of the chain settles a queued entry, and at most all are. *)
Definition waiting (E : list (jsstr * @stream_slot W)) : nat := length (omap (fun e => match e.2 with Waiting c => Some c | Done _ => None end) E).

Lemma waiting_bound E : (waiting E <= length E)%nat.
Proof. unfold waiting. induction E as [|[k [c|e]] E IH]; cbn in *; lia. Qed.

Lemma waiting_set E id c e : jget E id = Some (Waiting c) -> waiting E = S (waiting (jset E id (Done e))).
Proof.
  unfold waiting. induction E as [|[k sl] E IH]; cbn; [done|]. case_decide; intros H'; [by injection H' as ->|]. specialize (IH H'). destruct sl; cbn; lia.
Qed.

Lemma chain_step_waits s : runner_ok (run s) -> exists s', chain_step parse h s = (s', Ok tt) /\ runner_ok (run s') /\
  (is_Some (first_waiting (run s)) -> waiting (u_entries (run s)) = S (waiting (u_entries (run s')))) /\
  (forall id, is_Some (jget (u_entries (run s)) id) -> is_Some (jget (u_entries (run s')) id)).
Proof.
  intros Hr. rewrite chain_step_eq. destruct (first_waiting (run s)) as [c|] eqn:Ew; [|exists s; split; [done|]; split; [done|]; split; [by intros []|done]].
  apply first_waiting_entry in Ew; [|done]. destruct (prepare_one_starts c _ _ s (conj Hr (conj eq_refl eq_refl))) as (s' & e & E & He & H1 & H2 & H3).
  unfold bind. rewrite E. eexists. split; [reflexivity|]. split; [by apply runner_ok_set|]. cbn [run u_entries set_entries]. rewrite H2. split.
  - intros _. by eapply waiting_set.
  - intros id Hid. rewrite jget_set. by case_decide.
Qed.

Lemma jget_waiting (E : list (jsstr * @stream_slot W)) id c : jget E id = Some (Waiting c) -> (0 < waiting E)%nat.
Proof. intros H. rewrite (waiting_set _ _ _ (SkippedEntry (Rejected c (JObject []) [])) H). lia. Qed.

Lemma first_waiting_some (u : @runner W) : (0 < waiting (u_entries u))%nat -> is_Some (first_waiting u).
Proof. unfold waiting, first_waiting. destruct (omap _ _); cbn; [lia|by eexists]. Qed.

Lemma await_entry_finds n id : forall s, runner_ok (run s) -> is_Some (jget (u_entries (run s)) id) -> (waiting (u_entries (run s)) <= n)%nat ->
  exists s' e, await_entry parse h n id s = (s', Ok (Some e)).
Proof.
  induction n as [|n IH]; intros s Hr [sl Hid] Hn; rewrite await_entry_eq'; rewrite Hid; destruct sl as [c|e]; try by eexists _, _.
  - apply jget_waiting in Hid. lia.
  - destruct (chain_step_waits s Hr) as (s' & E & Hr' & Hw & Hs). unfold bind. rewrite E. apply IH; [done|apply Hs; by eexists|].
    rewrite Hw in Hn; [lia|]. apply first_waiting_some. by eapply jget_waiting.
Qed.

(** * The batch *)

Definition new_id (id : jsstr) (r : prepared_task * bool) : Prop :=
  match r.1 with SettledTask _ => True | NewTask g => call_id (g_call g) = id | WrappedTask _ => False end.

Lemma ho_announce_ret {A} (x : A) (F : A -> Prop) ann t a : F x -> ho (Inv t a) (bind (announce h ann) (fun _ => ret x)) (fun y s => F y /\ Inv t a s).
Proof. intros H. eapply ho_bind; [apply ho_calm, calm_announce|intros ?]. by apply ho_ret. Qed.

Lemma ho_prepared_authorized calls p id t a : entry_ok id (DeferredEntry p) -> ho (Inv t a) (prepared_authorized h calls p) (fun r s => new_id id r /\ Inv t a s).
Proof.
  intros Hp. unfold prepared_authorized. eapply ho_bind; [apply ho_calm_fact; [apply calm_authorize|intros; by apply ht_authorize]|intros z; cbv beta].
  apply ho_pure. intros Hz. destruct z as [s|z]; apply ho_announce_ret; [done|by destruct Hz].
Qed.

Lemma ho_prepare_call calls pf t a : ho (Inv t a) (prepareToolCall h calls pf) (fun r s => new_id (call_id (pf_call pf)) r /\ Inv t a s).
Proof.
  unfold prepareToolCall. eapply ho_bind; [apply ho_calm_fact; [apply calm_resolve|intros; apply ht_resolve]|intros r; cbv beta]. apply ho_pure. intros Hr.
  destruct r as [s|p]; [by apply ho_announce_ret|by apply ho_prepared_authorized].
Qed.

(** What is left once a call is prepared: its task may still have to be started. *)
Definition owes (id : jsstr) (t a : list jsstr) (r : prepared_task * bool) (s : @st W) : Prop :=
  match r.1 with NewTask g => call_id (g_call g) = id /\ Inv (id :: t) (id :: a) s | _ => Inv t a s end.

Lemma Inv_weaken t t' a a' s : Inv t a s -> (forall x, x ∈ t' -> x ∈ t) -> (forall x, x ∈ a' -> x ∈ a) -> Inv t' a' s.
Proof. intros [H1 H2] Ht Ha. split; [done|]. by eapply once_weaken. Qed.

Lemma Inv_done id t a s : Inv (id :: t) (id :: a) s -> Inv t a s.
Proof. intros H. eapply Inv_weaken; [exact H|by right..]. Qed.

Lemma owes_new id t a r s : new_id id r -> Inv (id :: t) (id :: a) s -> owes id t a r s.
Proof. unfold new_id, owes. destruct r.1; [|done..]. intros _. apply Inv_done. Qed.

Lemma Inv_dropped id t a s : id ∉ t -> Inv (List.filter (fun x => negb (bool_decide (x = id))) (id :: t)) (id :: a) s -> Inv t a s.
Proof.
  intros Hid H. eapply Inv_weaken; [exact H| |by right]. intros x Hx. apply list_elem_of_In, filter_In. split; [right; by apply list_elem_of_In|].
  rewrite bool_decide_eq_false_2; [done|]. by intros ->.
Qed.

(** The same, when the call was never to do. *)
Lemma Inv_orphan id t a s : id ∉ t -> Inv (List.filter (fun x => negb (bool_decide (x = id))) t) (id :: a) s -> Inv t a s.
Proof. intros Hid H. apply (Inv_dropped id); [done|]. cbn. by rewrite bool_decide_eq_true_2. Qed.

Lemma ho_take_found id t a : ho (Inv t a) (takeEntry parse h id)
  (fun e s => found_ok id e /\ Inv (match e with Some (StartedEntry _ _) => List.filter (fun x => negb (bool_decide (x = id))) t | _ => t end) (id :: a) s).
Proof.
  intros s Hs. pose proof (ho_take_entry id t a s Hs) as H. destruct (ht_take_entry parse h id (vis (trace s)) (promise_id <$> outstanding s) s) as (s' & e & E & He & _); [by split; [apply Hs|]|].
  rewrite E in *. by split.
Qed.

Definition is_settled (t : prepared_task) : Prop := match t with SettledTask _ => True | _ => False end.

Lemma ho_prepare_skipped pf t a : ho (Inv t a) (prepareSkippedToolCall h pf) (fun r s => is_settled r /\ Inv t a s).
Proof. by apply ho_announce_ret. Qed.

Lemma ho_materialize calls id t a : id ∉ t -> ho (Inv (id :: t) a) (materialize parse h calls id) (fun r s => match r with Some r => owes id t a r s | None => Inv (id :: t) (id :: a) s end).
Proof.
  intros Hid. unfold materialize. eapply ho_bind; [apply ho_take_found|intros e; cbv beta]. apply ho_pure. intros He. destruct e as [[s|g ann|p|pf]|]; [| | | |by apply ho_ret].
  - eapply ho_bind; [apply ho_calm, calm_announce|intros ?]. apply ho_ret. intros s' Hs. by apply (owes_new id).
  - eapply ho_bind; [apply ho_calm, calm_announce|intros ?]. apply ho_ret. intros s' Hs. by apply Inv_dropped in Hs.
  - eapply ho_bind; [by apply (ho_prepared_authorized _ _ id)|intros r; cbv beta]. apply ho_ret. intros s' [Hr Hs]. by apply owes_new.
  - eapply ho_bind; [apply ho_prepare_skipped|intros r; cbv beta]. apply ho_ret. intros s' [Hr Hs]. apply owes_new; [by destruct r|done].
Qed.

Lemma ho_materialize_call b calls c t a : call_id c ∉ t -> (b = false -> call_id c ∈ a) -> ho (Inv (call_id c :: t) a) (materialize_call parse h b calls c) (owes (call_id c) t a).
Proof.
  intros Hid Hb. unfold materialize_call.
  eapply (ho_bind _ _ _ (fun r s => match r with Some r => owes (call_id c) t a r s | None => Inv (call_id c :: t) (call_id c :: a) s end)).
  - destruct b; [by apply ho_materialize|]. apply ho_ret. intros s Hs. eapply Inv_weaken; [exact Hs|done|]. intros x [->|Hx]%elem_of_cons; auto.
  - intros [r|]; [by apply ho_ret|]. eapply ho_bind; [apply ho_background|intros ?]. eapply ho_weaken; [apply ho_prepare_call|intros s Hs; exact Hs|].
    intros r s [Hr Hs]. rewrite preflight_call in Hr. by apply owes_new.
Qed.

Lemma ho_add_task id r t a : id ∉ t -> ho (owes id t a r) (@add_task W r.1) (fun _ => Inv t a).
Proof.
  intros Hid s Hs. unfold owes in Hs. destruct r as [[p|g|g] b]; cbn [fst] in Hs |- *; [exact Hs| |exact Hs]. destruct Hs as [<- [H1 H2]]. split; [exact H1|].
  change (once t a (u_entries (run s)) (sids (trace s ++ [Scheduled g false]))). rewrite sids_app. apply (once_weaken t t (call_id (g_call g) :: a) a); [|done|by right].
  eapply once_schedule; [exact H2|by left..|]. intros x Hx. split; [by right|]. by intros ->.
Qed.

Lemma ho_skip_call b c t a : call_id c ∉ t -> ho (Inv (call_id c :: t) a) (skip_call parse h b c) (fun _ => Inv t a).
Proof.
  intros Hid. unfold skip_call. eapply (ho_bind _ _ _ (fun _ => Inv t a)).
  - destruct b; [|apply ho_ret; intros s Hs; eapply Inv_weaken; [exact Hs|by right|done]]. eapply ho_weaken; [apply ho_take_found|intros s Hs; exact Hs|].
    intros e s [_ Hs]. destruct e as [[]|]; first [by apply Inv_dropped in Hs|by apply Inv_done in Hs].
  - intros e. cbv zeta. eapply ho_bind; [apply ho_prepare_skipped|intros r; cbv beta]. apply ho_pure. intros Hr. eapply ho_weaken; [apply (ho_add_task (call_id c) (r, false) t a Hid)| |done].
    intros s Hs. by destruct r.
Qed.

Lemma ho_prepare_calls b calls rest a : NoDup (call_id <$> rest) -> (b = false -> forall c, c ∈ rest -> call_id c ∈ a) ->
  ho (Inv (call_id <$> rest) a) (prepare_calls parse h b calls rest) (fun _ => Inv [] a).
Proof.
  assert (forall l, NoDup (call_id <$> l) -> ho (Inv (call_id <$> l) a) (each (skip_call parse h b) l) (fun _ => Inv [] a)) as Hskip.
  { induction l as [|c l IH]; intros Hn; cbn [each]; [by apply ho_ret|]. apply NoDup_cons in Hn as [Hc Hn]. eapply ho_bind; [by apply ho_skip_call|intros ?; by apply IH]. }
  induction rest as [|c rest IH]; intros Hn Hb; cbn [prepare_calls]; [by apply ho_ret|]. apply NoDup_cons in Hn as [Hc Hn].
  eapply ho_bind; [apply ho_materialize_call; [done|intros ->; apply Hb; [done|by left]]|intros r; cbv beta].
  eapply ho_bind; [by apply ho_add_task|intros ?]. destruct r.2.
  - eapply ho_bind; [by apply Hskip|intros ?]. by apply ho_ret.
  - apply IH; [done|]. intros Hf y Hy. apply Hb; [done|by right].
Qed.

(** ** Results *)

Lemma ho_await_result p t a : ho (Inv t a) (await_result parse h p) (fun _ => Inv t a).
Proof. unfold await_result. eapply ho_bind; [apply ho_background|intros ?]. destruct p; [by apply ho_ret|apply ho_calm, calm_settle]. Qed.

Lemma ho_drain_results calls n t a : ho (Inv t a) (drain_results parse h n calls) (fun _ => Inv t a).
Proof.
  induction n as [|n IH]; cbn [drain_results]; [by apply ho_ret|]. eapply ho_bind; [apply ho_calm, calm_next_outstanding|intros [p|]]; [|by apply ho_ret].
  eapply ho_bind; [apply ho_await_result|intros ?]. eapply ho_bind; [apply ho_calm, calm_finalize|intros ?].
  eapply ho_bind; [by apply ho_calm, calm_dispatch|intros ?]. eapply ho_bind; [exact IH|intros ?]. by apply ho_ret.
Qed.

Lemma ho_settle_rest n t a : ho (Inv t a) (settle_rest parse h n) (fun _ => Inv t a).
Proof.
  induction n as [|n IH]; cbn [settle_rest]; [by apply ho_ret|]. eapply ho_bind; [apply ho_calm, calm_next_outstanding|intros [p|]]; [|by apply ho_ret].
  eapply ho_bind; [apply ho_await_result|intros ?; exact IH].
Qed.

Lemma ho_finally {A} (m : @M W A) P : ho P m (fun _ => Inv [] []) -> ho P (finally parse h m) (fun _ => Inv [] []).
Proof.
  intros Hm. unfold finally. eapply (ho_bind _ _ _ (fun _ => Inv [] [])).
  - intros s Hs. specialize (Hm s Hs). unfold attempt. by destruct (m s) as [s' [x|e]].
  - intros r. eapply ho_bind; [apply ho_get|intros ?]. eapply ho_bind; [apply ho_settle_rest|intros ?]. destruct r; [by apply ho_ret|]. by intros s Hs.
Qed.

Lemma ho_drain_orphans calls t a : (forall x, x ∈ t -> x ∈ call_id <$> calls) -> ho (Inv t a) (drainOrphanedPreparations parse h calls) (fun _ => Inv t a).
Proof.
  intros Ht. unfold drainOrphanedPreparations. eapply ho_bind; [apply ho_get|intros s]. apply ho_each. intros id [_ Hid]%list_elem_of_In%filter_In. unfold drain_orphan.
  assert (id ∉ t) as Hn by (intros Hin; by rewrite bool_decide_eq_true_2 in Hid; [|apply Ht]).
  eapply (ho_bind _ _ _ (fun _ => Inv t a)).
  - eapply ho_weaken; [apply ho_take_found|intros s' Hs; exact Hs|]. intros e s' [_ Hs].
    destruct e as [[]|]; first [by apply Inv_orphan in Hs|eapply Inv_weaken; [exact Hs|done|by right]].
  - intros e. assert (forall p, ho (Inv t a) (bind (finalizePendingToolResult h calls p) (fun _ => ret tt)) (fun _ => Inv t a)) as Hf.
    { intros p. eapply ho_bind; [apply ho_calm, calm_finalize|intros ?]. by apply ho_ret. }
    destruct e as [[e|g ann|p|pf]|]; try (by apply ho_ret); try apply Hf. eapply ho_bind; [apply ho_await_result|intros ?]. apply Hf.
Qed.

Lemma ho_orphans (streaming : bool) calls t a : (forall x, x ∈ t -> x ∈ call_id <$> calls) ->
  ho (Inv t a) (if streaming then drainOrphanedPreparations parse h calls else ret tt) (fun _ => Inv t a).
Proof. intros H. destruct streaming; [by apply ho_drain_orphans|by apply ho_ret]. Qed.

Lemma ho_batch streaming response t a : call_id <$> uniquifyToolCallIds response = t -> NoDup t -> (streaming = false -> forall x, x ∈ t -> x ∈ a) ->
  ho (Inv t a) (runToolCallBatch parse h streaming response) (fun _ => Inv [] []).
Proof.
  intros <- Hn Ha. unfold runToolCallBatch. destruct response as [|c l].
  - eapply ho_bind; [by apply ho_orphans|intros ?]. apply ho_ret. intros s. apply Inv_base.
  - cbv zeta. apply ho_finally. eapply ho_bind; [by apply ho_orphans|intros ?]. eapply ho_bind.
    + apply ho_prepare_calls; [done|]. intros Hb y Hy. by apply Ha, list_elem_of_fmap_2.
    + intros stop. eapply ho_bind; [apply ho_get|intros s]. eapply ho_bind; [apply ho_drain_results|intros stop'].
      apply ho_ret. intros s'. apply Inv_base.
Qed.

Lemma ho_interrupted response : ho (Inv [] []) (drainInterruptedToolCalls parse h response) (fun _ => Inv [] []).
Proof.
  unfold drainInterruptedToolCalls. cbv zeta. eapply ho_bind; [apply ho_drain_orphans; by intros x Hx%elem_of_nil|intros ?]. apply ho_each. intros c _.
  assert (forall p, calm (finalizeAndDispatchToolResult h (uniquifyToolCallIds response) p)) as Hf.
  { intros p. unfold finalizeAndDispatchToolResult. apply calm_bind; [apply calm_finalize|intros ?]. by apply calm_dispatch. }
  assert (calm (recordUnexecutedToolCall parse h c)) as Hu by (apply calm_bind; [by apply calm_dispatch|intros ?; by apply calm_dispatch]).
  unfold drain_interrupted. eapply (ho_bind _ _ _ (fun _ => Inv [] [])).
  - eapply ho_weaken; [apply ho_take_found|intros s Hs; exact Hs|]. intros e s [_ Hs]. by apply Inv_base in Hs.
  - intros [[e|g ann|p|pf]|]; try (by apply ho_calm); (eapply ho_bind; [apply ho_calm, calm_announce|intros ?]); try by apply ho_calm.
    eapply ho_bind; [apply ho_await_result|intros ?]. by apply ho_calm.
Qed.

Lemma streamed_inv s : streamed parse h s -> forall t, Inv t [] s.
Proof.
  induction 1 as [w|s c Hs IH|s _ IH]; intros t.
  - split; [by split; constructor|]. split; [constructor|]. split; by intros id Hid%elem_of_nil.
  - split; [apply (streamed_at parse h (upd_run (addReady parse h c) s).1), (streamed_add parse h s c Hs)|]. destruct (IH t) as [_ H]. cbn. unfold addReady.
    case_bool_decide as Hin; [exact H|]. assert (jget (u_entries (run s)) (call_id c) = None) as Hno by by apply jget_None.
    destruct H as (H1 & H2 & _). split; [done|]. split; [|by intros id Hid%elem_of_nil]. intros id Hid. cbn [u_entries]. rewrite jget_set. case_decide; [subst id|by apply H2].
    destruct (IH [call_id c]) as (_ & _ & H3 & _). destruct (H3 _ Hid) as [H4|[_ H4]]; [by rewrite Hno in H4|]. destruct H4. by left.
  - pose proof (ho_background t [] s (IH t)) as H. destruct (ht_background parse h (vis (trace s)) (promise_id <$> outstanding s) s) as (s' & x & E & _); [by split; [apply (IH t)|]|].
    by rewrite E in *.
Qed.

Lemma inv_nodup {A} (m : @M W A) s : ho (Inv [] []) m (fun _ => Inv [] []) -> Inv [] [] s -> NoDup (sids (trace (m s).1)).
Proof. intros Hm Hs. specialize (Hm s Hs). destruct (m s) as [s' [x|e]]; apply Hm. Qed.

(** C6. No call is started twice: not by the stream and then by the batch, not by a retried
    response, and not when an event cannot be recorded and the batch gives up. Without a
    runner nothing was fed to one. *)
Theorem calls_run_once s streaming response : streamed parse h s -> (streaming = false -> u_entries (run s) = []) ->
  NoDup (sids (trace (runToolCallBatch parse h streaming response s).1)) /\ NoDup (sids (trace (drainInterruptedToolCalls parse h response s).1)).
Proof.
  intros Hs He. split; [|by apply inv_nodup, streamed_inv; [apply ho_interrupted|]]. set (t := call_id <$> uniquifyToolCallIds response).
  assert (Inv t (if streaming then [] else t) s) as Hi.
  { destruct (streamed_inv s Hs t) as (H1 & H2 & H3 & H4). destruct streaming; [done|]. split; [done|]. split; [done|]. split; [done|]. intros id _. by rewrite He. }
  pose proof (ho_batch streaming response t (if streaming then [] else t) eq_refl (uniquify_loop_spec response [] NoDup_nil_2)) as H.
  specialize (H ltac:(by intros ->) s Hi). destruct (runToolCallBatch parse h streaming response s) as [s' [x|e]]; apply H.
Qed.
End once2.

Lemma calls_run_once_witness : sids (trace (runToolCallBatch ex_parse ex_plain true ex_calls (ex_stream ex_plain ex_calls)).1) = [js "a"; js "b"; js "a_2"] /\
  NoDup (sids (trace (runToolCallBatch ex_parse ex_plain true ex_calls (ex_stream ex_plain ex_calls)).1)).
Proof.
  split; [by vm_compute|]. exact (proj1 (calls_run_once ex_parse ex_plain (ex_stream ex_plain ex_calls) true ex_calls (ex_streamed ex_plain ex_calls) ltac:(discriminate))).
Defined.
