(* ===== verification/ToolCallContext.v ===== *)
(** The events of a batch in the conversation: [recordEvent] of [loop/events.ts] and the
    dispatcher of the turn, which hand [tool.call] and [tool.result] to the context. *)

From S2P Require Import Prelude JsMap Json JsonText JsString Messages Projector Handoff ContextMemory Records ContextSafety ToolCalls ToolCallExamples ToolCallLaws.

(** * The dispatcher *)

(** What an event records, the live ones nothing; the fields the context keeps. *)
Definition recordEvent (stepUuid : jsstr) (a : tool_act) : option loop_event :=
  match a with
  | Called id name args _ => Some (ToolCallEvent stepUuid id name (Some args))
  | ResultOf id r =>
      Some (ToolResultEvent id (tr_output r) (if tr_isError r then Some true else None) (match tr_note r with Some (JString t) => Some t | _ => None end))
  | _ => None
  end.

Fixpoint appendTranscriptRecord (now : Z) (c : context) (evs : list loop_event) : context * option ctx_error :=
  match evs with
  | [] => (c, None)
  | e :: evs => let '(c, err) := appendLoopEvent None now c e in match err with Some _ => (c, err) | None => appendTranscriptRecord now c evs end
  end.

Section exchange.
Context (now : Z) (uuid : jsstr).

Lemma recorded_visible l : omap (recordEvent uuid) l = omap (recordEvent uuid) (vis l).
Proof. induction l as [|a l IH]; [done|]. unfold vis. cbn [List.filter]. fold (vis l). destruct a; cbn; by rewrite IH. Qed.

Lemma append_app l1 : forall c l2 c', appendTranscriptRecord now c l1 = (c', None) -> appendTranscriptRecord now c (l1 ++ l2) = appendTranscriptRecord now c' l2.
Proof.
  induction l1 as [|e l1 IH]; intros c l2 c' E; cbn [appendTranscriptRecord app] in *; [by injection E as ->|].
  destruct (appendLoopEvent None now c e) as [c1 [err|]]; [done|]. by apply IH.
Qed.

(** ** Calls *)

(** The message of the step with the calls appended to it. *)
Definition with_new_calls (step : nat) (new : list tool_call) (e : entry) : entry :=
  if bool_decide (e_id e = step) then Entry step (with_base (e_msg e) (with_calls (base (e_msg e)) (toolCalls (base (e_msg e)) ++ new))) else e.

Lemma with_new_calls_snoc step t new e : with_new_calls step new (with_new_calls step [t] e) = with_new_calls step (t :: new) e.
Proof.
  unfold with_new_calls. destruct (decide (e_id e = step)) as [H|H].
  - rewrite !(bool_decide_eq_true_2 (e_id e = step)) by done. cbn [e_id]. rewrite bool_decide_eq_true_2 by done. cbn. by rewrite <- app_assoc.
  - by rewrite !(bool_decide_eq_false_2 (e_id e = step)).
Qed.

Lemma with_no_calls step (es : list entry) : with_new_calls step [] <$> es = es.
Proof.
  induction es as [|e es IH]; [done|]. cbn. f_equal; [|exact IH]. unfold with_new_calls. case_bool_decide as H; [|done]. rewrite app_nil_r. subst. by destruct e as [i [[]]].
Qed.

Lemma append_calls cs : forall ids c step, Forall2 is_called ids cs -> jget (openSteps c) uuid = Some step -> NoDup (ContextMemory.pending c ++ ids) ->
  exists c' new, appendTranscriptRecord now c (omap (recordEvent uuid) cs) = (c', None) /\ call_id <$> new = ids /\
    entries c' = with_new_calls step new <$> entries c /\ ContextMemory.pending c' = ContextMemory.pending c ++ ids /\ deferred c' = deferred c.
Proof.
  induction cs as [|a cs IH]; intros ids c step Hc Ho Hn.
  - apply Forall2_nil_inv_r in Hc as ->. exists c, []. by rewrite with_no_calls, app_nil_r.
  - destruct ids as [|id ids]; [by apply Forall2_nil_cons_inv in Hc|]. apply Forall2_cons in Hc as [Ha Hc]. destruct a as [| | |i name args d| | |]; try done. cbn in Ha. subst i.
    set (t := ToolCall id name (Some (JSON_stringify args))).
    set (c1 := upd_pending (grow (emit c [LogRecord (RLoopEvent (ToolCallEvent uuid id name (Some args)))]) step (add_call t)) (ContextMemory.pending c ++ [id])).
    assert (appendLoopEvent None now c (ToolCallEvent uuid id name (Some args)) = (c1, None)) as E.
    { unfold appendLoopEvent. cbv zeta. cbn [logRecord]. change (openSteps (emit c _)) with (openSteps c). rewrite Ho. cbn [ContextMemory.pending grow upd_entries emit].
      rewrite bool_decide_eq_false_2; [done|]. intros Hin. apply NoDup_app in Hn as (_ & Hd & _). apply (Hd _ Hin). by left. }
    destruct (IH ids c1 step) as (c' & new & E1 & E2 & E3 & E4 & E5); [done|done|cbn; by rewrite <- app_assoc|].
    exists c', (t :: new). cbn [omap list_omap recordEvent appendTranscriptRecord]. rewrite E. split; [exact E1|]. cbn [fmap list_fmap]. rewrite E2. split; [done|].
    split; [|by rewrite E4, E5; cbn; rewrite <- app_assoc]. rewrite E3. cbn [c1 upd_pending entries grow upd_entries emit]. rewrite <- list_fmap_compose.
    apply list_fmap_ext. intros i e _. cbn. change (if bool_decide _ then _ else e) with (with_new_calls step [t] e). apply with_new_calls_snoc.
Qed.

(** ** Results *)

Definition answers (id : jsstr) (m : context_message) : Prop := is_tool (base m) = true /\ toolCallId (base m) = Some id.

Lemma append_results rs : forall ids c, Forall2 is_result ids rs -> ContextMemory.pending c = ids -> NoDup ids -> deferred c = [] ->
  exists c' results, appendTranscriptRecord now c (omap (recordEvent uuid) rs) = (c', None) /\ Forall2 answers ids results /\
    history c' = history c ++ results /\ ContextMemory.pending c' = [] /\ deferred c' = [].
Proof.
  induction rs as [|a rs IH]; intros ids c Hr Hp Hn Hd.
  - apply Forall2_nil_inv_r in Hr as ->. exists c, []. by rewrite app_nil_r.
  - destruct ids as [|id ids]; [by apply Forall2_nil_cons_inv in Hr|]. apply Forall2_cons in Hr as [Ha Hr]. apply NoDup_cons in Hn as [Hid Hn]. destruct a as [| | | | | |i r]; try done. cbn in Ha. subst i.
    set (err := if tr_isError r then Some true else None). set (sn := match tr_note r with Some (JString t) => Some t | _ => None end).
    set (m := result_message id (tr_output r) err sn). set (c0 := logRecord None c (RLoopEvent (ToolResultEvent id (tr_output r) err sn))).
    set (c1 := upd_pending (pushHistory None now c0 [m]) ids).
    assert (appendLoopEvent None now c (ToolResultEvent id (tr_output r) err sn) = (c1, None)) as E.
    { unfold appendLoopEvent, toolResult. cbv zeta. fold c0. change (ContextMemory.pending c0) with (ContextMemory.pending c). rewrite Hp, bool_decide_eq_true_2 by by left. cbn [negb].
      fold m. change (ContextMemory.pending (pushHistory None now c0 [m])) with (ContextMemory.pending c). rewrite Hp, set_delete_head by done. fold c1.
      unfold flushDeferredMessagesIfToolExchangeClosed. change (deferred c1) with (deferred c). by rewrite Hd, orb_true_r. }
    destruct (IH ids c1) as (c' & results & E1 & E2 & E3 & E4); [done|done|done|done|]. exists c', (m :: results).
    cbn [omap list_omap recordEvent appendTranscriptRecord]. fold err sn. rewrite E. split; [exact E1|]. split; [by constructor|]. split; [|exact E4].
    rewrite E3. change (history c1) with (history (pushHistory None now c0 [m])). rewrite history_push. by rewrite <- app_assoc.
Qed.
End exchange.

(** * The composition *)

Section closes.
Context {W : Type} (parse : jsstr -> option json) (h : @tool_host W).
Hypothesis dispatch_ok : forall a w, exists w', th_dispatch h a w = (w', Ok tt).

(** C7. What a batch records is what the conversation needs. With the step open and no
    exchange pending, the events of a batch are all accepted: the calls of the response
    are appended to the message of the step, their results follow it in order, and
    nothing is left open or waiting. *)
Theorem batch_closes_exchange now uuid streaming response s c step : streamed parse h s ->
  jget (openSteps c) uuid = Some step -> ContextMemory.pending c = [] -> deferred c = [] ->
  exists c' new results,
    appendTranscriptRecord now c (omap (recordEvent uuid) (trace (runToolCallBatch parse h streaming response s).1)) = (c', None) /\
    call_id <$> new = call_id <$> uniquifyToolCallIds response /\
    Forall2 answers (call_id <$> uniquifyToolCallIds response) results /\
    history c' = (e_msg <$> (with_new_calls step new <$> entries c)) ++ results /\
    ContextMemory.pending c' = [] /\ deferred c' = [].
Proof.
  intros Hs%streamed_at Ho Hp Hd. destruct (ht_batch parse h dispatch_ok streaming response [] s Hs) as (s' & b & E & cs & rs & [Hc Hr] & _ & Hv & _).
  rewrite E. cbn [fst]. rewrite recorded_visible, Hv. cbn [app]. rewrite omap_app. assert (NoDup (call_id <$> uniquifyToolCallIds response)) as Hn by exact (uniquify_loop_spec response [] NoDup_nil_2).
  destruct (append_calls now uuid cs _ c step Hc Ho) as (c1 & new & E1 & E2 & E3 & E4 & E5); [by rewrite Hp|]. rewrite Hp in E4. rewrite Hd in E5.
  destruct (append_results now uuid rs _ c1 Hr E4 Hn E5) as (c2 & results & E6 & E7 & E8 & E9 & E10).
  exists c2, new, results. rewrite (append_app now _ _ _ _ E1). split; [done|]. split; [done|]. split; [done|]. split; [|done]. rewrite E8. unfold history at 1. by rewrite E3.
Qed.
End closes.

Definition ex_context : context := (appendLoopEvent None 0 empty_context (StepBegin (js "s"))).1.

Lemma batch_closes_exchange_witness : exists c' new results,
  appendTranscriptRecord 0 ex_context (omap (recordEvent (js "s")) (trace (runToolCallBatch ex_parse ex_plain true ex_calls (ex_stream ex_plain ex_calls)).1)) = (c', None) /\
  call_id <$> new = [js "a"; js "b"; js "a_2"; js "c"] /\ Forall2 answers [js "a"; js "b"; js "a_2"; js "c"] results /\
  history c' = (e_msg <$> (with_new_calls 0 new <$> entries ex_context)) ++ results /\ ContextMemory.pending c' = [] /\ deferred c' = [].
Proof.
  exact (batch_closes_exchange ex_parse ex_plain ex_dispatch_ok 0 (js "s") true ex_calls (ex_stream ex_plain ex_calls) ex_context 0%nat
    (ex_streamed ex_plain ex_calls) eq_refl eq_refl eq_refl).
Defined.
