(* ===== verification/JsonSyntax.v ===== *)
(** Which texts [JSON.parse] of the language accepts: a deterministic automaton over code
    units with the stack of open containers. Only acceptance is modelled here, so numbers
    of any form are included. *)

From Stdlib Require Import DecimalN DecimalFacts.
From S2P Require Import Prelude JsMap Json JsonText JsString Messages.

(** * The automaton *)

(** Where the text stands; [key] strings are names of fields. *)
Inductive jmode : Type :=
| MValue | MFirst | MKeyFirst | MKey | MColon | MAfter
| MStr (key : bool) | MEsc (key : bool) | MHex (key : bool) (more : nat)
| MLit (rest : jsstr)
| MMinus | MZero | MInt | MDot | MFrac | MExp | MSign | MExpDigits.

(** The open containers, innermost first: [true] for an object. *)
Abbreviation jstate := (jmode * list bool)%type.

Definition json_ws (c : N) : bool := ((c =? 9) || (c =? 10) || (c =? 13) || (c =? 32))%N.
Definition hex_unit (c : N) : bool := is_digit c || ((65 <=? c) && (c <=? 70))%N || ((97 <=? c) && (c <=? 102))%N.
Definition exponent (c : N) : bool := ((c =? 101) || (c =? 69))%N.

Definition value_start (c : N) (st : list bool) : option jstate :=
  if (c =? 34)%N then Some (MStr false, st)
  else if (c =? 123)%N then Some (MKeyFirst, true :: st)
  else if (c =? 91)%N then Some (MFirst, false :: st)
  else if (c =? 45)%N then Some (MMinus, st)
  else if (c =? 48)%N then Some (MZero, st)
  else if is_digit c then Some (MInt, st)
  else if (c =? 116)%N then Some (MLit (js "rue"), st)
  else if (c =? 102)%N then Some (MLit (js "alse"), st)
  else if (c =? 110)%N then Some (MLit (js "ull"), st)
  else None.

Definition close_with (object : bool) (st : list bool) : option jstate :=
  match st with o :: st => if Bool.eqb o object then Some (MAfter, st) else None | [] => None end.

Definition after_value (c : N) (st : list bool) : option jstate :=
  if json_ws c then Some (MAfter, st)
  else if (c =? 44)%N then match st with true :: _ => Some (MKey, st) | false :: _ => Some (MValue, st) | [] => None end
  else if (c =? 125)%N then close_with true st
  else if (c =? 93)%N then close_with false st
  else None.

Definition json_step (s : jstate) (c : N) : option jstate :=
  let '(m, st) := s in
  match m with
  | MValue => if json_ws c then Some (m, st) else value_start c st
  | MFirst => if json_ws c then Some (m, st) else if (c =? 93)%N then close_with false st else value_start c st
  | MKeyFirst => if json_ws c then Some (m, st) else if (c =? 125)%N then close_with true st else if (c =? 34)%N then Some (MStr true, st) else None
  | MKey => if json_ws c then Some (m, st) else if (c =? 34)%N then Some (MStr true, st) else None
  | MColon => if json_ws c then Some (m, st) else if (c =? 58)%N then Some (MValue, st) else None
  | MAfter => after_value c st
  | MStr key =>
      if (c =? 34)%N then Some (if key then MColon else MAfter, st)
      else if (c =? 92)%N then Some (MEsc key, st) else if (c <? 32)%N then None else Some (m, st)
  | MEsc key =>
      if (c =? 117)%N then Some (MHex key 3, st)
      else if bool_decide (c ∈ [34; 92; 47; 98; 102; 110; 114; 116]%N) then Some (MStr key, st) else None
  | MHex key more => if hex_unit c then Some (match more with O => MStr key | S more => MHex key more end, st) else None
  | MLit rest => match rest with x :: rest => if (c =? x)%N then Some (match rest with [] => MAfter | _ => MLit rest end, st) else None | [] => None end
  | MMinus => if (c =? 48)%N then Some (MZero, st) else if is_digit c then Some (MInt, st) else None
  | MZero => if (c =? 46)%N then Some (MDot, st) else if exponent c then Some (MExp, st) else after_value c st
  | MInt => if is_digit c then Some (MInt, st) else if (c =? 46)%N then Some (MDot, st) else if exponent c then Some (MExp, st) else after_value c st
  | MDot => if is_digit c then Some (MFrac, st) else None
  | MFrac => if is_digit c then Some (MFrac, st) else if exponent c then Some (MExp, st) else after_value c st
  | MExp => if ((c =? 43) || (c =? 45))%N then Some (MSign, st) else if is_digit c then Some (MExpDigits, st) else None
  | MSign => if is_digit c then Some (MExpDigits, st) else None
  | MExpDigits => if is_digit c then Some (MExpDigits, st) else after_value c st
  end.

Fixpoint json_run (s : jstate) (t : jsstr) : option jstate :=
  match t with [] => Some s | c :: t => match json_step s c with Some s => json_run s t | None => None end end.

Definition complete (m : jmode) : bool := match m with MAfter | MZero | MInt | MFrac | MExpDigits => true | _ => false end.
Definition accepting (s : jstate) : bool := complete s.1 && bool_decide (s.2 = []).

Definition json_init : jstate := (MValue, []).

(** [JSON.parse] does not throw. *)
Definition isValidJson (t : jsstr) : bool := match json_run json_init t with Some s => accepting s | None => false end.

Fixpoint skip_ws (t : jsstr) : jsstr := match t with c :: t' => if json_ws c then skip_ws t' else t | [] => [] end.

(** It gives an object. *)
Definition parsesToJsonObject (t : jsstr) : bool := isValidJson t && match skip_ws t with c :: _ => (c =? 123)%N | [] => false end.

Example valid_examples : isValidJson <$> [js "{}"; js "[1, -2.5e+3, true, null]"; js "{ }x"; js "01"; js "[1,]"] = [true; true; false; false; false].
Proof. by vm_compute. Qed.

(** * Runs *)

Lemma json_run_app s t1 t2 : json_run s (t1 ++ t2) = match json_run s t1 with Some s => json_run s t2 | None => None end.
Proof. revert s. induction t1 as [|c t1 IH]; intros s; cbn; [done|]. destruct (json_step s c); [apply IH|done]. Qed.

Lemma json_run_snoc s t c : json_run s (t ++ [c]) = match json_run s t with Some s => json_step s c | None => None end.
Proof. rewrite json_run_app. destruct (json_run s t) as [s'|]; [|done]. cbn. by destruct (json_step s' c). Qed.

(** * What [JSON.stringify] writes is accepted *)

Lemma hex_unit_digit n : (n < 16)%N -> hex_unit (hex_digit n) = true.
Proof.
  intros H. unfold hex_digit. destruct (N.ltb_spec n 10) as [Hn|Hn]; unfold hex_unit, is_digit.
  - replace ((48 <=? 48 + n)%N && (48 + n <=? 57)%N) with true; [done|]. symmetry. apply andb_true_iff. split; apply N.leb_le; lia.
  - apply orb_true_iff. right. apply andb_true_iff. split; apply N.leb_le; lia.
Qed.

Section quote.
Context (key : bool) (st : list bool).

Lemma run_unicode_escape u t : json_run (MStr key, st) (unicode_escape u ++ t) = json_run (MStr key, st) t.
Proof.
  assert (forall x, hex_unit (hex_digit (x mod 16)) = true) as H by (intros x; apply hex_unit_digit, N.mod_lt; lia).
  unfold unicode_escape. cbn [app]. match goal with |- json_run _ (_ :: _ :: ?r) = _ => change (json_run (MHex key 3, st) r = json_run (MStr key, st) t) end.
  assert (forall n x r, json_run (MHex key n, st) (hex_digit (x mod 16) :: r) = json_run (match n with O => MStr key | S n => MHex key n end, st) r) as Hd.
  { intros n x r. cbn [json_run json_step]. by rewrite H. }
  by rewrite !Hd.
Qed.

Lemma run_plain u t : u <> 34%N -> u <> 92%N -> (32 <= u)%N -> json_run (MStr key, st) (u :: t) = json_run (MStr key, st) t.
Proof. intros H1 H2 H3. cbn [json_run json_step]. apply N.eqb_neq in H1, H2. apply N.ltb_ge in H3. by rewrite H1, H2, H3. Qed.

Lemma run_quote_unit u t : json_run (MStr key, st) (quote_unit u ++ t) = json_run (MStr key, st) t.
Proof.
  unfold quote_unit. repeat match goal with |- context [if (?a =? ?b)%N then _ else _] => destruct (N.eqb_spec a b); [reflexivity|] end.
  destruct (N.ltb_spec u 32); [apply run_unicode_escape|by apply run_plain].
Qed.

Lemma run_quote_body n : forall s t, (length s <= n)%nat -> json_run (MStr key, st) (quote_body s ++ t) = json_run (MStr key, st) t.
Proof.
  assert (forall u t, is_high u || is_low u = true -> json_run (MStr key, st) (u :: t) = json_run (MStr key, st) t) as Hs.
  { intros u t [H|H]%orb_true_iff; unfold is_high, is_low in H; apply andb_true_iff in H as [H _]; apply N.leb_le in H; apply run_plain; lia. }
  induction n as [|n IH]; intros s t Hn; (destruct s as [|u s]; [done|]); cbn [length] in Hn; [lia|]. cbn [quote_body]. destruct (is_high u) eqn:Hu.
  - destruct s as [|l s]; [apply run_unicode_escape|]. destruct (is_low l) eqn:Hl.
    + cbn [app]. rewrite Hs, Hs by (rewrite ?Hu, ?Hl, ?orb_true_r; done). apply IH. cbn [length] in Hn. lia.
    + rewrite <- app_assoc, run_unicode_escape. apply IH. lia.
  - destruct (is_low u); rewrite <- app_assoc; [rewrite run_unicode_escape|rewrite run_quote_unit]; apply IH; lia.
Qed.

Lemma run_quoted s t : json_run (MStr key, st) (quote_body s ++ 34%N :: t) = json_run (if key then MColon else MAfter, st) t.
Proof. by rewrite (run_quote_body (length s)). Qed.
End quote.

(** Digits of a canonical number: no zero in front. *)
Lemma run_digits st d : forall t, json_run (MInt, st) (uint_chars d ++ t) = json_run (MInt, st) t.
Proof. induction d; intros t; cbn [uint_chars app]; [done|..]; apply IHd. Qed.

Lemma uint_norm_zero d : Decimal.unorm (Decimal.D0 d) = Decimal.D0 d -> d = Decimal.Nil.
Proof.
  unfold Decimal.unorm. cbn [Decimal.nzhead]. destruct (Decimal.nzhead d) eqn:E; intros H; try discriminate; try (by injection H).
  by apply DecimalFacts.nzhead_nonzero in E.
Qed.

Lemma run_uint st d m : Decimal.unorm d = d -> (m = MValue \/ m = MFirst \/ m = MMinus) ->
  exists m', complete m' = true /\ forall t, json_run (m, st) (uint_chars d ++ t) = json_run (m', st) t.
Proof.
  intros Hd Hm. destruct d; cbn [uint_chars]; try (exists MInt; split; [done|]; intros t; destruct Hm as [->|[->| ->]]; apply run_digits).
  - done.
  - exists MZero. split; [done|]. assert (d = Decimal.Nil) as -> by (pose proof (uint_norm_zero d Hd); done).
    intros t. destruct Hm as [->|[->| ->]]; done.
Qed.

Lemma to_uint_norm p : Decimal.unorm (Pos.to_uint p) = Pos.to_uint p.
Proof. change (Pos.to_uint p) with (N.to_uint (Npos p)). by rewrite <- DecimalN.Unsigned.to_of, DecimalN.Unsigned.of_to. Qed.

Lemma run_int st n m : m = MValue \/ m = MFirst -> exists m', complete m' = true /\ forall t, json_run (m, st) (string_of_int n ++ t) = json_run (m', st) t.
Proof.
  intros Hm. unfold string_of_int. destruct n as [|p|p]; cbn [Z.to_int].
  - exists MZero. split; [done|]. intros t. destruct Hm as [->| ->]; done.
  - apply run_uint; [apply to_uint_norm|tauto].
  - destruct (run_uint st (Pos.to_uint p) MMinus) as (m' & H & E); [apply to_uint_norm|tauto|]. exists m'. split; [done|]. intros t. rewrite <- E. destruct Hm as [->| ->]; done.
Qed.

(** A value is over: what may follow does not depend on what it was. *)
Lemma complete_step m st c : complete m = true -> c = 44%N \/ c = 93%N \/ c = 125%N -> json_step (m, st) c = after_value c st.
Proof. intros Hm Hc. destruct m; try discriminate; destruct Hc as [->|[->| ->]]; reflexivity. Qed.

(** From a state that expects a value, the text of one leads to its end. *)
Definition writes_value (text : jsstr) : Prop :=
  forall st m, m = MValue \/ m = MFirst -> exists m', complete m' = true /\ forall t, json_run (m, st) (text ++ t) = json_run (m', st) t.

Lemma run_elements {A} (text : A -> jsstr) (l : list A) st : Forall (fun x => writes_value (text x)) l -> l <> [] ->
  forall m, m = MValue \/ m = MFirst -> exists m', complete m' = true /\ forall t, json_run (m, false :: st) (join (map text l) ++ t) = json_run (m', false :: st) t.
Proof.
  induction 1 as [|x l Hx Hl IH]; [done|]. intros _ m Hm. destruct (Hx (false :: st) m Hm) as (m1 & H1 & E1). destruct l as [|y l].
  - exists m1. split; [done|]. intros t. cbn [map]. rewrite join_cons, app_nil_r. apply E1.
  - destruct (IH ltac:(done) MValue ltac:(by left)) as (m2 & H2 & E2). exists m2. split; [done|]. intros t. change (map text (x :: y :: l)) with (text x :: map text (y :: l)).
    rewrite join_cons. cbn [map]. change (text y :: map text l) with (map text (y :: l)). rewrite <- app_assoc, E1, <- app_assoc. cbn [app json_run].
    rewrite complete_step by tauto. apply E2.
Qed.

Lemma run_fields {A} (name : A -> jsstr) (text : A -> jsstr) (l : list A) st : Forall (fun x => writes_value (text x)) l -> l <> [] ->
  forall m, m = MKey \/ m = MKeyFirst -> exists m', complete m' = true /\
    forall t, json_run (m, true :: st) (join (map (fun x => quote (name x) ++ [58]%N ++ text x) l) ++ t) = json_run (m', true :: st) t.
Proof.
  induction 1 as [|x l Hx Hl IH]; [done|]. intros _ m Hm. destruct (Hx (true :: st) MValue ltac:(by left)) as (m1 & H1 & E1).
  assert (forall t, json_run (m, true :: st) ((quote (name x) ++ [58]%N ++ text x) ++ t) = json_run (m1, true :: st) t) as E0.
  { intros t. rewrite <- E1. unfold quote. rewrite <- !app_assoc. destruct Hm as [->| ->]; cbn [app]; change (json_run (?m, ?s) (34%N :: ?r)) with (json_run (MStr true, s) r); by rewrite run_quoted. }
  destruct l as [|y l].
  - exists m1. split; [done|]. intros t. cbn [map]. rewrite join_cons, app_nil_r. apply E0.
  - destruct (IH ltac:(done) MKey ltac:(by left)) as (m2 & H2 & E2). exists m2. split; [done|]. intros t.
    cbn [map]. rewrite join_cons, <- app_assoc, E0, <- app_assoc. cbn [app json_run]. rewrite complete_step by tauto. apply E2.
Qed.

Lemma size_member (k : jsstr) v fs : (k, v) ∈ fs -> (json_size v <= list_sum (List.map (fun '(_, v') => json_size v') fs))%nat.
Proof.
  unfold list_sum. induction fs as [|[k' v'] fs IH]; cbn; [by intros ?%elem_of_nil|]. intros [[= -> ->]|?%IH]%elem_of_cons; lia.
Qed.

Lemma stringify_writes n : forall v, (json_size v <= n)%nat -> writes_value (JSON_stringify v).
Proof.
  induction n as [|n IH]; intros v Hn; [destruct v; cbn in Hn; lia|]. intros st m Hm.
  destruct v as [|b|z|s|l|fs]; cbn [JSON_stringify]; [|  |by apply run_int|  |  |  ]; (exists MAfter; split; [done|]; intros t).
  - by destruct Hm as [->| ->].
  - by destruct b, Hm as [->| ->].
  - unfold quote. rewrite <- !app_assoc. cbn [app]. rewrite <- (run_quoted false st s t). by destruct Hm as [->| ->].
  - assert (Forall (fun x => writes_value (JSON_stringify x)) l) as Hl.
    { apply Forall_forall. intros x Hx. apply IH. pose proof (size_in x l Hx). cbn in Hn. lia. }
    assert (forall r, json_run (m, st) (91%N :: r) = json_run (MFirst, false :: st) r) as E0 by by destruct Hm as [->| ->].
    cbn [app]. rewrite E0. destruct l as [|x l]; [done|]. destruct (run_elements JSON_stringify (x :: l) st Hl ltac:(done) MFirst ltac:(by right)) as (m' & H' & E').
    rewrite <- app_assoc, E'. cbn [app json_run]. by rewrite complete_step by tauto.
  - assert (Forall (fun x : jsstr * json => writes_value (JSON_stringify x.2)) fs) as Hl.
    { apply Forall_forall. intros [k x] Hx. apply IH. pose proof (size_member k x fs Hx). cbn in Hn |- *. lia. }
    assert (forall r, json_run (m, st) (123%N :: r) = json_run (MKeyFirst, true :: st) r) as E0 by by destruct Hm as [->| ->].
    cbn [app]. rewrite E0. destruct fs as [|x fs]; [done|]. destruct (run_fields fst (fun x => JSON_stringify x.2) (x :: fs) st Hl ltac:(done) MKeyFirst ltac:(by right)) as (m' & H' & E').
    rewrite <- app_assoc, E'. cbn [app json_run]. by rewrite complete_step by tauto.
Qed.

Lemma stringify_valid v : isValidJson (JSON_stringify v) = true.
Proof.
  destruct (stringify_writes _ v (le_n _) [] MValue ltac:(by left)) as (m & H & E). unfold isValidJson, json_init. specialize (E []). rewrite app_nil_r in E.
  rewrite E. change (complete m && true = true). by rewrite H.
Qed.

Lemma stringify_object_valid fs : parsesToJsonObject (JSON_stringify (JObject fs)) = true.
Proof. unfold parsesToJsonObject. by rewrite stringify_valid. Qed.

(** * Strings and brackets *)

Definition in_string (m : jmode) : bool := match m with MStr _ | MEsc _ | MHex _ _ => true | _ => false end.
Definition in_escape (m : jmode) : bool := match m with MEsc _ => true | _ => false end.

(** Neither a quote nor a bracket. *)
Definition plain_unit (c : N) : bool := negb (bool_decide (c ∈ [34; 123; 91; 125; 93]%N)).
Definition letter (c : N) : bool := ((97 <=? c) && (c <=? 122))%N.
Definition literal_ok (m : jmode) : Prop := match m with MLit rest => Forall (fun c => letter c = true) rest | _ => True end.

(** What a step does to strings and open containers. *)
Inductive moves (m : jmode) (st : list bool) (c : N) (m' : jmode) (st' : list bool) : Prop :=
| moves_escaped : in_string m = true -> in_escape m = true -> in_string m' = true -> in_escape m' = false -> st' = st -> moves m st c m' st'
| moves_escape : in_string m = true -> in_escape m = false -> c = 92%N -> in_string m' = true -> in_escape m' = true -> st' = st -> moves m st c m' st'
| moves_quote : in_string m = true -> in_escape m = false -> c = 34%N -> in_string m' = false -> in_escape m' = false -> st' = st -> moves m st c m' st'
| moves_inside : in_string m = true -> in_escape m = false -> c <> 92%N -> c <> 34%N -> in_string m' = true -> in_escape m' = false -> st' = st -> moves m st c m' st'
| moves_open_quote : in_string m = false -> in_escape m = false -> c = 34%N -> in_string m' = true -> in_escape m' = false -> st' = st -> moves m st c m' st'
| moves_open (o : bool) : in_string m = false -> in_escape m = false -> c = (if o then 123 else 91)%N -> in_string m' = false -> in_escape m' = false -> st' = o :: st -> moves m st c m' st'
| moves_close (o : bool) : in_string m = false -> in_escape m = false -> c = (if o then 125 else 93)%N -> in_string m' = false -> in_escape m' = false -> st = o :: st' -> moves m st c m' st'
| moves_plain : in_string m = false -> in_escape m = false -> plain_unit c = true -> in_string m' = false -> in_escape m' = false -> st' = st -> moves m st c m' st'.

Lemma plain_of (c : N) : c <> 34%N -> c <> 123%N -> c <> 91%N -> c <> 125%N -> c <> 93%N -> plain_unit c = true.
Proof.
  intros. unfold plain_unit. rewrite bool_decide_eq_false_2; [done|]. intros Hin. repeat (apply elem_of_cons in Hin as [Hin|Hin]; [done|]). by apply elem_of_nil in Hin.
Qed.

Lemma digit_plain c : is_digit c = true -> plain_unit c = true.
Proof. unfold is_digit. intros [H1%N.leb_le H2%N.leb_le]%andb_true_iff. apply plain_of; lia. Qed.

Lemma ws_plain c : json_ws c = true -> plain_unit c = true.
Proof. unfold json_ws. intros H. repeat (apply orb_true_iff in H as [H|H]); apply N.eqb_eq in H as ->; done. Qed.

Lemma letter_plain c : letter c = true -> plain_unit c = true.
Proof. unfold letter. intros [H1%N.leb_le H2%N.leb_le]%andb_true_iff. apply plain_of; lia. Qed.

Lemma hex_inside c : hex_unit c = true -> c <> 92%N /\ c <> 34%N.
Proof.
  unfold hex_unit, is_digit. intros H. repeat (apply orb_true_iff in H as [H|H]); apply andb_true_iff in H as [H1 H2]; apply N.leb_le in H1, H2; lia.
Qed.

Lemma after_moves m st c m' st' : in_string m = false -> in_escape m = false -> after_value c st = Some (m', st') -> moves m st c m' st'.
Proof.
  intros H1 H2. unfold after_value, close_with. destruct (json_ws c) eqn:Ew; [intros [= <- <-]; apply moves_plain; auto using ws_plain|].
  destruct (N.eqb_spec c 44) as [->|]; [destruct st as [|[] st]; intros [= <- <-]; by apply moves_plain|].
  destruct (N.eqb_spec c 125) as [->|]; [destruct st as [|[] st]; intros [= <- <-]; by apply (moves_close _ _ _ _ _ true)|].
  destruct (N.eqb_spec c 93) as [->|]; [destruct st as [|[] st]; intros [= <- <-]; by apply (moves_close _ _ _ _ _ false)|done].
Qed.

Lemma start_moves m st c m' st' : in_string m = false -> in_escape m = false -> value_start c st = Some (m', st') -> moves m st c m' st' /\ literal_ok m'.
Proof.
  intros H1 H2. unfold value_start. destruct (N.eqb_spec c 34) as [->|]; [intros [= <- <-]; split; [by apply moves_open_quote|done]|].
  destruct (N.eqb_spec c 123) as [->|]; [intros [= <- <-]; split; [by apply (moves_open _ _ _ _ _ true)|done]|].
  destruct (N.eqb_spec c 91) as [->|]; [intros [= <- <-]; split; [by apply (moves_open _ _ _ _ _ false)|done]|].
  assert (forall m1, in_string m1 = false -> in_escape m1 = false -> plain_unit c = true -> Some (m1, st) = Some (m', st') -> moves m st c m' st') as Hp by (intros m1 ? ? ? [= <- <-]; by apply moves_plain).
  repeat match goal with |- context [(c =? ?k)%N] => destruct (N.eqb_spec c k) as [->|]; [intros E; split; [revert E; by apply Hp|injection E as <- <-; cbn; by repeat constructor]|] end.
  destruct (is_digit c) eqn:Ed; [intros E; split; [revert E; apply Hp; auto using digit_plain|by injection E as <- <-]|].
  repeat match goal with |- context [(c =? ?k)%N] => destruct (N.eqb_spec c k) as [->|]; [intros E; split; [revert E; by apply Hp|injection E as <- <-; cbn; by repeat constructor]|] end. done.
Qed.

Lemma step_moves m st c m' st' : literal_ok m -> json_step (m, st) c = Some (m', st') -> moves m st c m' st' /\ literal_ok m'.
Proof.
  intros Hl. unfold json_step.
  assert (forall m1, in_string m = false -> in_escape m = false -> in_string m1 = false -> in_escape m1 = false -> literal_ok m1 -> plain_unit c = true ->
    Some (m1, st) = Some (m', st') -> moves m st c m' st' /\ literal_ok m') as Hp by (intros m1 ? ? ? ? ? ? [= <- <-]; split; [by apply moves_plain|done]).
  assert (in_string m = false -> in_escape m = false -> after_value c st = Some (m', st') -> moves m st c m' st' /\ literal_ok m') as Ha.
  { intros H1 H2 E. split; [by apply after_moves|]. unfold after_value, close_with in E. repeat case_match; try discriminate; by injection E as <- <-. }
  assert (forall o : bool, in_string m = false -> in_escape m = false -> c = (if o then 125 else 93)%N -> close_with o st = Some (m', st') -> moves m st c m' st' /\ literal_ok m') as Hc.
  { intros o H1 H2 H3. unfold close_with. destruct st as [|o' st0]; [done|]. destruct (Bool.eqb_spec o' o) as [->|]; [|done]. intros [= <- <-]. split; [by apply (moves_close _ _ _ _ _ o)|done]. }
  assert (is_digit c = true -> plain_unit c = true) as Hd by apply digit_plain. assert (json_ws c = true -> plain_unit c = true) as Hw by apply ws_plain.
  assert (exponent c = true -> plain_unit c = true) as He by (unfold exponent; intros [->%N.eqb_eq| ->%N.eqb_eq]%orb_true_iff; done).
  destruct m as [| | | | | |key|key|key more|rest| | | | | | | |];
    repeat match goal with
    | |- (if json_ws c then _ else _) = _ -> _ => destruct (json_ws c) eqn:Ew; [apply Hp; auto; done|]
    | |- (if is_digit c then _ else _) = _ -> _ => destruct (is_digit c) eqn:Ed; [apply Hp; auto; done|]
    | |- (if exponent c then _ else _) = _ -> _ => destruct (exponent c) eqn:Ee; [apply Hp; auto; done|]
    | |- (if (c =? 93)%N then close_with _ _ else _) = _ -> _ => destruct (N.eqb_spec c 93) as [->|]; [apply (Hc false); done|]
    | |- (if (c =? 125)%N then close_with _ _ else _) = _ -> _ => destruct (N.eqb_spec c 125) as [->|]; [apply (Hc true); done|]
    | |- value_start c st = _ -> _ => by apply start_moves
    | |- after_value c st = _ -> _ => by apply Ha
    | |- None = _ -> _ => discriminate
    end.
  - destruct (N.eqb_spec c 34) as [->|]; [|done]. intros [= <- <-]. split; [by apply moves_open_quote|done].
  - destruct (N.eqb_spec c 34) as [->|]; [|done]. intros [= <- <-]. split; [by apply moves_open_quote|done].
  - destruct (N.eqb_spec c 58) as [->|]; [|done]. by apply Hp.
  - destruct (N.eqb_spec c 34) as [->|]; [intros [= <- <-]; split; [by apply moves_quote; destruct key|by destruct key]|].
    destruct (N.eqb_spec c 92) as [->|]; [intros [= <- <-]; split; [by apply moves_escape|done]|]. destruct (c <? 32)%N; [done|]. intros [= <- <-]. split; [by apply moves_inside|done].
  - case_match; [|case_match; [|done]]; intros [= <- <-]; (split; [by apply moves_escaped|done]).
  - destruct (hex_unit c) eqn:Eh; [|done]. apply hex_inside in Eh as [H1 H2]. intros [= <- <-]. split; [by apply moves_inside; destruct more|by destruct more].
  - destruct rest as [|x rest]; [done|]. destruct (N.eqb_spec c x) as [->|]; [|done]. apply Forall_cons in Hl as [Hx%letter_plain Hr]. apply Hp; try done; by destruct rest.
  - destruct (N.eqb_spec c 48) as [->|]; [by apply Hp|]. destruct (is_digit c); [apply Hp; auto|done].
  - destruct (N.eqb_spec c 46) as [->|]; [by apply Hp|]. destruct (exponent c); [apply Hp; auto|by apply Ha].
  - destruct (N.eqb_spec c 46) as [->|]; [by apply Hp|]. destruct (exponent c); [apply Hp; auto|by apply Ha].
  - destruct (N.eqb_spec c 43) as [->|]; [by apply Hp|]. destruct (N.eqb_spec c 45) as [->|]; [by apply Hp|]. cbn [orb]. destruct (is_digit c); [apply Hp; auto|done].
Qed.
