(* ===== verification/WireNormalize.v ===== *)
(** The last check of a request before it leaves the client: [kosong/src/normalize.ts].
    Arguments that are not a JSON object are closed or replaced, empty names are filled,
    results are paired with the calls right before them. Acceptance by [JSON.parse] is
    JsonSyntax.v; the cache of verdicts, keyed by identity, is not modelled. *)

From S2P Require Import Prelude JsMap Json JsonText JsString Messages Projector ToolCalls JsonSyntax.

(** * Texts of arguments *)

Definition trimEnd (s : jsstr) : jsstr := rev (trimStart (rev s)).

(** The loop over the characters, with the flags and the depth it keeps. *)
Fixpoint balanced_loop (inString escaped : bool) (depth : Z) (t : jsstr) : bool :=
  match t with
  | [] => negb inString && (depth =? 0)
  | c :: t =>
      if inString then
        if escaped then balanced_loop true false depth t
        else if (c =? 92)%N then balanced_loop true true depth t
        else balanced_loop (negb (c =? 34)%N) false depth t
      else if (c =? 34)%N then balanced_loop true escaped depth t
      else if ((c =? 123) || (c =? 91))%N then balanced_loop false escaped (depth + 1) t
      else if ((c =? 125) || (c =? 93))%N then if depth - 1 <? 0 then false else balanced_loop false escaped (depth - 1) t
      else balanced_loop false escaped depth t
  end.

Definition isBalancedJsonCandidate (text : jsstr) : bool := balanced_loop false false 0 text.

Definition isValidOrEmptyJsonObject (text : option jsstr) : bool :=
  match text with
  | None => true
  | Some t => if bool_decide (trim t = []) then true else if negb (isBalancedJsonCandidate t) then false else parsesToJsonObject t
  end.

(** ** Closing a truncated text *)

(** The flags and the open brackets, innermost first. *)
Record scan : Type := Scan { inString : bool; escaped : bool; stack : list N }.

Definition pop_if (open : N) (st : list N) : list N := match st with o :: st' => if (o =? open)%N then st' else st | [] => [] end.

Definition scan_step (s : scan) (c : N) : scan :=
  if inString s then
    if escaped s then Scan true false (stack s)
    else if (c =? 92)%N then Scan true true (stack s)
    else if (c =? 34)%N then Scan false false (stack s) else s
  else if (c =? 34)%N then Scan true (escaped s) (stack s)
  else if ((c =? 123) || (c =? 91))%N then Scan false (escaped s) (c :: stack s)
  else if (c =? 125)%N then Scan false (escaped s) (pop_if 123 (stack s))
  else if (c =? 93)%N then Scan false (escaped s) (pop_if 91 (stack s))
  else s.

Definition scan_text (t : jsstr) : scan := fold_left scan_step t (Scan false false []).

(** Drops trailing commas and fills a trailing colon. *)
Fixpoint strip_separators (fuel : nat) (body : jsstr) : jsstr :=
  match fuel with
  | O => body
  | S fuel =>
      let body := trimEnd body in
      match last body with
      | Some c => if (c =? 44)%N then strip_separators fuel (removelast body) else if (c =? 58)%N then strip_separators fuel (body ++ js "null") else body
      | None => body
      end
  end.

Definition closer (open : N) : N := if (open =? 123)%N then 125%N else 93%N.

Definition close_body (trimmed : jsstr) : jsstr :=
  let s := scan_text trimmed in
  let body := if escaped s then removelast trimmed else trimmed in
  let body := if inString s then body ++ [34]%N else strip_separators (S (S (length body))) body in
  body ++ (closer <$> stack s).

Definition EMPTY_OBJECT : jsstr := js "{}".

Definition closeTruncatedJson (raw : jsstr) : jsstr :=
  let trimmed := trim raw in
  if bool_decide (trimmed = []) then EMPTY_OBJECT
  else let body := close_body trimmed in if isValidJson body then body else EMPTY_OBJECT.

(** * Calls *)

Inductive repair_kind : Type :=
| ArgumentsClosed | ArgumentsFallbackEmpty | ArgumentsFallbackNonObject | EmptyToolName | OrphanToolResultDropped | MissingToolResultSynthesized.

Definition UNKNOWN_TOOL_NAME : jsstr := js "unknown_tool".
Definition SYNTHETIC_TOOL_RESULT_TEXT : jsstr :=
  js "Tool result is not available in the current context. Do not assume the tool completed successfully.".

(** The name, or the name with the first free suffix from 2 on. *)
Definition placeholderToolName (usedNames : list jsstr) : jsstr := unique_id usedNames UNKNOWN_TOOL_NAME.

Definition repair_arguments (text : option jsstr) : option jsstr * list repair_kind :=
  match text with
  | None => (None, [])
  | Some args =>
      if bool_decide (trim args = []) || parsesToJsonObject args then (Some args, [])
      else if isValidJson args then (Some EMPTY_OBJECT, [ArgumentsFallbackNonObject])
      else
        let closed := closeTruncatedJson args in
        if negb (bool_decide (closed = EMPTY_OBJECT)) && parsesToJsonObject closed then (Some closed, [ArgumentsClosed])
        else (Some EMPTY_OBJECT, [ArgumentsFallbackEmpty])
  end.

(** One call: its repaired form, the names in use, what was repaired. *)
Definition repair_call (usedNames : list jsstr) (c : tool_call) : tool_call * list jsstr * list repair_kind :=
  let blank := bool_decide (trim (call_name c) = []) in
  let name := if blank then placeholderToolName usedNames else call_name c in
  let '(args, kinds) := repair_arguments (arguments c) in
  (ToolCall (call_id c) name args, if blank then usedNames ++ [name] else usedNames, (if blank then [EmptyToolName] else []) ++ kinds).

Fixpoint repair_calls (usedNames : list jsstr) (l : list tool_call) : list tool_call * list (repair_kind * jsstr) :=
  match l with
  | [] => ([], [])
  | c :: l =>
      let '(c', used, kinds) := repair_call usedNames c in
      let '(l', log) := repair_calls used l in
      (c' :: l', ((fun k => (k, call_id c)) <$> kinds) ++ log)
  end.

Definition repairToolCalls (m : message) : message * list (repair_kind * jsstr) :=
  let '(calls, log) := repair_calls (call_name <$> toolCalls m) (toolCalls m) in (with_calls m calls, log).

(** * Exchanges *)

(** The unanswered calls before the next message, by id; [None] when no block is open. *)
Abbreviation pending_calls := (option (list (jsstr * Z))).

Definition pendingCount (p : list (jsstr * Z)) : Z := fold_left (fun t e => t + e.2) p 0.
Definition count_calls (l : list tool_call) : list (jsstr * Z) :=
  fold_left (fun p c => jset p (call_id c) (default 0 (jget p (call_id c)) + 1)) l [].

Definition remaining (p : pending_calls) (m : message) : option Z :=
  match toolCallId m, p with Some id, Some p => jget p id | _, _ => None end.
Definition take_result (p : pending_calls) (m : message) (n : Z) : pending_calls :=
  match toolCallId m, p with Some id, Some p => Some (jset p id (n - 1)) | _, _ => p end.

Definition has_calls (m : message) : bool := is_assistant m && negb (bool_decide (toolCalls m = [])).
Definition call_healthy (c : tool_call) : bool := negb (bool_decide (trim (call_name c) = [])) && isValidOrEmptyJsonObject (arguments c).
Definition open_calls (p : pending_calls) : bool := match p with Some p => 0 <? pendingCount p | None => false end.

Fixpoint fast_loop (p : pending_calls) (ms : list message) : bool :=
  match ms with
  | [] => negb (open_calls p)
  | m :: ms =>
      if is_tool m then match remaining p m with None | Some 0 => false | Some n => fast_loop (take_result p m n) ms end
      else if open_calls p then false
      else if has_calls m then if forallb call_healthy (toolCalls m) then fast_loop (Some (count_calls (toolCalls m))) ms else false
      else fast_loop None ms
  end.

Definition tryNormalizeFastPath (ms : list message) : option (list message) := if fast_loop None ms then Some ms else None.

Definition synthesized (id : jsstr) : message := createToolMessage id [TextPart SYNTHETIC_TOOL_RESULT_TEXT].

(** [flushPending]: a result for every call still unanswered. *)
Definition flush_pending (p : pending_calls) : list message * list (repair_kind * jsstr) :=
  let ids := match p with Some p => p ≫= fun e => replicate (Z.to_nat e.2) e.1 | None => [] end in
  (synthesized <$> ids, (fun id => (MissingToolResultSynthesized, id)) <$> ids).

Definition prepend {A B} (a : list A * list B) (b : list A * list B) : list A * list B := (a.1 ++ b.1, a.2 ++ b.2).

Fixpoint repair_loop (p : pending_calls) (ms : list message) : list message * list (repair_kind * jsstr) :=
  match ms with
  | [] => flush_pending p
  | m :: ms =>
      if is_tool m then
        match remaining p m with
        | None | Some 0 => prepend ([], [(OrphanToolResultDropped, default [] (toolCallId m))]) (repair_loop p ms)
        | Some n => prepend ([m], []) (repair_loop (take_result p m n) ms)
        end
      else
        prepend (flush_pending p)
          (if has_calls m then
             let '(m', log) := repairToolCalls m in prepend ([m'], log) (repair_loop (Some (count_calls (toolCalls m'))) ms)
           else prepend ([m], []) (repair_loop None ms))
  end.

Definition repairMessages (ms : list message) : list message * list (repair_kind * jsstr) := repair_loop None ms.

Definition normalizeMessagesForWire (ms : list message) : list message * list (repair_kind * jsstr) :=
  match tryNormalizeFastPath ms with Some ms => (ms, []) | None => repairMessages ms end.

(** A cut inside a value is closed, one inside a name or a literal is not. *)
Definition ex_json (s : string) : jsstr := (fun u => if (u =? 39)%N then 34%N else u) <$> js s.
Example closed_texts : closeTruncatedJson <$> [ex_json "{'a': [1, 'x"; ex_json "{'a':"; ex_json "{'a': 1,  "; ex_json "{'a"; ex_json "{'a': tru"]
  = [ex_json "{'a': [1, 'x']}"; ex_json "{'a':null}"; ex_json "{'a': 1}"; EMPTY_OBJECT; EMPTY_OBJECT].
Proof. by vm_compute. Qed.

(** A cut inside an escaped code unit is not closed either, and loses everything. *)
Example cut_unicode_escape : closeTruncatedJson (ex_json "{'path': '/tmp', 'text': 'caf\u00") = EMPTY_OBJECT.
Proof. by vm_compute. Qed.
