(* ===== verification/WireLaws.v ===== *)
(** What the wire layer guarantees: how much of a truncated text is recovered, and that
    what is sent is a list of complete exchanges with readable arguments. *)

From S2P Require Import Prelude JsMap Json JsonText JsString Messages Projector ToolCalls ToolCallLaws JsonSyntax WireNormalize.

(** * The scanners follow the automaton *)

Lemma plain_units c : plain_unit c = true -> (c =? 34)%N = false /\ (c =? 123)%N = false /\ (c =? 91)%N = false /\ (c =? 125)%N = false /\ (c =? 93)%N = false.
Proof.
  unfold plain_unit. intros H%negb_true_iff. apply bool_decide_eq_false in H.
  repeat split; apply N.eqb_neq; intros ->; apply H; repeat (first [by left|right]).
Qed.

Lemma blen_cons1 {A} (x : A) l : blen (x :: l) = blen l + 1.
Proof. unfold blen. cbn. lia. Qed.

Lemma balanced_run t : forall m st m' st', literal_ok m -> json_run (m, st) t = Some (m', st') ->
  balanced_loop (in_string m) (in_escape m) (blen st) t = negb (in_string m') && (blen st' =? 0).
Proof.
  induction t as [|c t IH]; intros m st m' st' Hl; cbn [json_run]; [by intros [= <- <-]|]. destruct (json_step (m, st) c) as [[m1 st1]|] eqn:Es; [|done]. intros Hr.
  apply step_moves in Es as [Hm Hl1]; [|done]. specialize (IH m1 st1 m' st' Hl1 Hr). cbn [balanced_loop].
  destruct Hm as [H1 H2 H3 H4 ->|H1 H2 -> H3 H4 ->|H1 H2 -> H3 H4 ->|H1 H2 Hc1 Hc2 H3 H4 ->|H1 H2 -> H3 H4 ->|o H1 H2 -> H3 H4 ->|o H1 H2 -> H3 H4 ->|H1 H2 Hp H3 H4 ->];
    rewrite H3, H4 in IH; rewrite H1, ?H2; try exact IH.
  - apply N.eqb_neq in Hc1, Hc2. by rewrite Hc1, Hc2.
  - rewrite blen_cons1 in IH. destruct o; exact IH.
  - rewrite blen_cons1. pose proof (blen_nonneg st1). replace (blen st1 + 1 - 1) with (blen st1) by lia. destruct o; cbn [N.eqb Pos.eqb orb]; by rewrite (proj2 (Z.ltb_ge _ _)) by lia.
  - apply plain_units in Hp as (-> & -> & -> & -> & ->). exact IH.
Qed.

Definition bracket (o : bool) : N := if o then 123%N else 91%N.

Lemma scan_run t : forall m st m' st', literal_ok m -> json_run (m, st) t = Some (m', st') ->
  fold_left scan_step t (Scan (in_string m) (in_escape m) (bracket <$> st)) = Scan (in_string m') (in_escape m') (bracket <$> st').
Proof.
  induction t as [|c t IH]; intros m st m' st' Hl; cbn [json_run fold_left]; [by intros [= <- <-]|]. destruct (json_step (m, st) c) as [[m1 st1]|] eqn:Es; [|done]. intros Hr.
  apply step_moves in Es as [Hm Hl1]; [|done]. rewrite <- (IH m1 st1 m' st' Hl1 Hr). f_equal. unfold scan_step. cbn [inString escaped stack].
  destruct Hm as [H1 H2 H3 H4 ->|H1 H2 -> H3 H4 ->|H1 H2 -> H3 H4 ->|H1 H2 Hc1 Hc2 H3 H4 ->|H1 H2 -> H3 H4 ->|o H1 H2 -> H3 H4 ->|o H1 H2 -> H3 H4 ->|H1 H2 Hp H3 H4 ->];
    rewrite H1, H2, H3, H4; try done.
  - apply N.eqb_neq in Hc1, Hc2. by rewrite Hc1, Hc2.
  - by destruct o.
  - by destruct o.
  - by apply plain_units in Hp as (-> & -> & -> & -> & ->).
Qed.

Lemma valid_run t : isValidJson t = true -> exists m, complete m = true /\ json_run json_init t = Some (m, []).
Proof.
  unfold isValidJson. destruct (json_run json_init t) as [[m st]|] eqn:E; [|done]. unfold accepting. intros [H1 H2]%andb_true_iff. apply bool_decide_eq_true in H2. cbn in *. subst. by exists m.
Qed.

(** The scan before parsing never refuses a text that parses. *)
Lemma valid_balanced t : isValidJson t = true -> isBalancedJsonCandidate t = true.
Proof.
  intros (m & Hm & E)%valid_run. etrans; [exact (balanced_run t MValue [] m [] I E)|by destruct m].
Qed.

Lemma healthy_arguments t : isValidOrEmptyJsonObject (Some t) = bool_decide (trim t = []) || parsesToJsonObject t.
Proof.
  unfold isValidOrEmptyJsonObject. case_bool_decide; [done|]. cbn [orb]. destruct (parsesToJsonObject t) eqn:E; [|by destruct (isBalancedJsonCandidate t)].
  unfold parsesToJsonObject in E. apply andb_true_iff in E as [E%valid_balanced _]. by rewrite E.
Qed.

(** * Closing *)

(** Where a cut can be closed. *)
Definition recoverable (m : jmode) : bool :=
  match m with MStr false | MEsc false | MFirst | MKeyFirst | MValue | MKey => true | m => complete m end.

Lemma after_inv c st m' st' : after_value c st = Some (m', st') ->
  (m' = MAfter /\ (json_ws c = true /\ st' = st \/ c = 125%N \/ c = 93%N)) \/
  (c = 44%N /\ st' = st /\ (m' = MKey \/ m' = MValue)).
Proof.
  unfold after_value, close_with. destruct (json_ws c); [intros [= <- <-]; left; auto|]. destruct (N.eqb_spec c 44) as [->|].
  - destruct st as [|[] st]; intros [= <- <-]; right; auto.
  - destruct (N.eqb_spec c 125) as [->|]; [destruct st as [|[] st]; intros [= <- <-]; left; auto|].
    destruct (N.eqb_spec c 93) as [->|]; [destruct st as [|[] st]; intros [= <- <-]; left; auto|done].
Qed.

Lemma start_inv c st m' st' : value_start c st = Some (m', st') -> c <> 44%N /\ c <> 58%N /\ ws c = false /\ m' <> MValue /\ m' <> MKey.
Proof.
  unfold value_start. intros H.
  repeat match type of H with (if (c =? ?k)%N then _ else _) = _ => destruct (N.eqb_spec c k) as [->|]; [by injection H as <- <-|] end.
  destruct (is_digit c) eqn:Ed; [|repeat match type of H with (if (c =? ?k)%N then _ else _) = _ => destruct (N.eqb_spec c k) as [->|]; [by injection H as <- <-|] end; done].
  injection H as <- <-. unfold is_digit in Ed. apply andb_true_iff in Ed as [H1%N.leb_le H2%N.leb_le].
  split; [lia|]. split; [lia|]. split; [|done]. unfold ws.
  repeat match goal with |- context [(?a <=? ?b)%N] => destruct (N.leb_spec a b); try lia | |- context [(?a =? ?b)%N] => destruct (N.eqb_spec a b); try lia end; done.
Qed.

Lemma literal_step rest st c s : literal_ok (MLit rest) -> json_step (MLit rest, st) c = Some s -> letter c = true.
Proof. destruct rest as [|x rest]; [done|]. cbn [json_step]. intros [Hx _]%Forall_cons. by destruct (N.eqb_spec c x) as [->|]. Qed.

(** A comma outside a string ends a value; a colon lets one begin. *)
Lemma comma_inv m0 st0 m' st' : literal_ok m0 -> json_step (m0, st0) 44%N = Some (m', st') -> in_string m' = false -> complete m0 = true /\ st' = st0 /\ (m' = MKey \/ m' = MValue).
Proof.
  intros Hl step Hs. destruct m0; try (by apply literal_step in step); cbn in step; try discriminate; try (injection step as <- <-; discriminate);
    try (destruct st0 as [|[] st0]; [done|..]; injection step as <- <-; auto).
Qed.

Lemma colon_inv m0 st0 m' st' : literal_ok m0 -> json_step (m0, st0) 58%N = Some (m', st') -> in_string m' = false -> m' = MValue /\ st' = st0.
Proof.
  intros Hl step Hs. destruct m0; try (by apply literal_step in step); cbn in step; try discriminate; try (injection step as <- <-; discriminate); try (by injection step as <- <-); try (by destruct st0 as [|[] ?]).
Qed.

Lemma ws_other c : ws c = true -> c <> 34%N /\ is_digit c = false /\ letter c = false /\ c <> 93%N /\ c <> 125%N /\ hex_unit c = false.
Proof.
  intros H. assert ((c < 48 \/ 125 < c) /\ c <> 34)%N as [H1 H2].
  { unfold ws in H. repeat (apply orb_true_iff in H as [H|H]); rewrite ?andb_true_iff, ?N.leb_le, ?N.eqb_eq in H; lia. }
  assert (forall a b, (48 <= a)%N -> (b <= 122)%N -> ((a <=? c) && (c <=? b))%N = false) as Hr by (intros a b Ha Hb; apply andb_false_iff; rewrite !N.leb_gt; lia).
  unfold hex_unit, is_digit, letter. rewrite !Hr by lia. split_and!; try done; lia.
Qed.

(** Whitespace after which a value is over: it was over before. *)
Lemma complete_ws_inv m0 st0 c m' st' : literal_ok m0 -> json_step (m0, st0) c = Some (m', st') -> complete m' = true -> ws c = true -> complete m0 = true /\ st' = st0.
Proof.
  intros Hl step Hm Hw. destruct (ws_other c Hw) as (H1 & H2 & H3 & H4 & H5 & H6). assert ((c =? 48)%N = false) as H7 by (apply N.eqb_neq; intros ->; done). apply N.eqb_neq in H1, H4, H5.
  assert (after_value c st0 = Some (m', st') -> st' = st0) as Ha.
  { unfold after_value, close_with. rewrite H4, H5. repeat case_match; intros [= <- <-]; done. }
  destruct m0; try (by apply literal_step in step; [rewrite H3 in step|]); cbn [json_step] in step; rewrite ?H1, ?H2, ?H4, ?H5, ?H6 in step; try discriminate; try (by split; [|apply Ha]);
    try (by repeat case_match; try discriminate; injection step as <- <-).
  - destruct (json_ws c); [by injection step as <- <-|]. apply start_inv in step as (_ & _ & E & _). congruence.
  - destruct (json_ws c); [by injection step as <- <-|]. apply start_inv in step as (_ & _ & E & _). congruence.
  - destruct (N.eqb_spec c 46); [by injection step as <- <-|]. destruct (exponent c); [by injection step as <- <-|]. by split; [|apply Ha].
  - destruct (N.eqb_spec c 46); [by injection step as <- <-|]. destruct (exponent c); [by injection step as <- <-|]. by split; [|apply Ha].
  - destruct (exponent c); [by injection step as <- <-|]. by split; [|apply Ha].
Qed.

(** What a value is expected after. *)
Lemma expect_inv m0 st0 c m' st' : json_step (m0, st0) c = Some (m', st') -> m' = MValue \/ m' = MKey -> json_ws c = true \/ c = 44%N \/ (c = 58%N /\ m' = MValue).
Proof.
  intros step Hm. assert (after_value c st0 = Some (m', st') -> c = 44%N) as Ha.
  { intros [[-> _]|[-> _]]%after_inv; [by destruct Hm|done]. }
  assert (value_start c st0 = Some (m', st') -> False) as Hv by (intros (_ & _ & _ & H1 & H2)%start_inv; by destruct Hm).
  destruct (json_ws c) eqn:Ew; [by left|right]. destruct m0; cbn [json_step] in step; rewrite ?Ew in step; try (left; by apply Ha); try (by exfalso).
  all: try (unfold close_with in step; repeat case_match; try discriminate; try (by exfalso; apply Hv); try (left; by apply Ha); injection step as <- <-; destruct Hm as [Hm|Hm]; discriminate).
  destruct (N.eqb_spec c 58) as [->|]; [|done]. injection step as <- <-. by right.
Qed.

Lemma run_literal t : forall m st m' st', literal_ok m -> json_run (m, st) t = Some (m', st') -> literal_ok m'.
Proof.
  induction t as [|c t IH]; intros m st m' st' Hl; cbn [json_run]; [by intros [= <- <-]|]. destruct (json_step (m, st) c) as [[m1 st1]|] eqn:Es; [|done].
  apply step_moves in Es as [_ Hl1]; [|done]. by apply IH.
Qed.

(** The last step of a run. *)
Lemma run_last t c m st : json_run json_init (t ++ [c]) = Some (m, st) ->
  exists m0 st0, json_run json_init t = Some (m0, st0) /\ json_step (m0, st0) c = Some (m, st) /\ literal_ok m0.
Proof.
  rewrite json_run_snoc. destruct (json_run json_init t) as [[m0 st0]|] eqn:E; [|done]. intros Hs. exists m0, st0. split; [done|]. split; [done|].
  by apply run_literal in E.
Qed.

(** ** The end of a text *)

Lemma trimEnd_snoc t c : trimEnd (t ++ [c]) = if ws c then trimEnd t else t ++ [c].
Proof. unfold trimEnd. rewrite rev_app_distr. cbn [rev app trimStart]. destruct (ws c); [done|]. cbn. by rewrite rev_involutive. Qed.

Lemma trimEnd_last t c : last (trimEnd t) = Some c -> ws c = false.
Proof.
  induction t as [|x t IH] using rev_ind; [done|]. rewrite trimEnd_snoc. destruct (ws x) eqn:E; [done|]. rewrite last_snoc. by intros [= ->].
Qed.

Lemma trimEnd_same t : (forall c, last t = Some c -> ws c = false) -> trimEnd t = t.
Proof. destruct t as [|x t _] using rev_ind; [done|]. intros H. rewrite trimEnd_snoc. by rewrite (H x) by apply last_snoc. Qed.

Lemma trim_trimmed raw c : trim raw = raw -> last raw = Some c -> ws c = false.
Proof. intros H. rewrite <- H. apply (trimEnd_last (trimStart raw)). Qed.

Lemma trimEnd_run t m st : json_run json_init t = Some (m, st) -> complete m = true -> exists m1, complete m1 = true /\ json_run json_init (trimEnd t) = Some (m1, st).
Proof.
  revert m st. induction t as [|c t IH] using rev_ind; intros m st Hr Hm; [by exists m|]. rewrite trimEnd_snoc. destruct (ws c) eqn:Ec; [|by exists m].
  apply run_last in Hr as (m0 & st0 & Hr & Hs & Hl). destruct (complete_ws_inv _ _ _ _ _ Hl Hs Hm Ec) as [H1 ->]. by apply (IH m0).
Qed.

Lemma complete_no_separator t m st c : json_run json_init t = Some (m, st) -> in_string m = false -> m <> MKey -> m <> MValue -> last t = Some c -> c <> 44%N /\ c <> 58%N.
Proof.
  destruct t as [|x t _] using rev_ind; [done|]. intros (m0 & st0 & Hr & Hs & Hl)%run_last Hi H1 H2. rewrite last_snoc. intros [= ->].
  split; intros ->; [destruct (comma_inv _ _ _ _ Hl Hs Hi) as (_ & _ & [?|?])|destruct (colon_inv _ _ _ _ Hl Hs Hi)]; done.
Qed.

Lemma strip_done fuel t : (forall c, last t = Some c -> ws c = false /\ c <> 44%N /\ c <> 58%N) -> strip_separators fuel t = t.
Proof.
  intros H. destruct fuel as [|fuel]; [done|]. cbn [strip_separators]. rewrite trimEnd_same by (intros c Hc; by apply H). destruct (last t) as [c|] eqn:E; [|done].
  destruct (H c eq_refl) as (_ & H1 & H2). apply N.eqb_neq in H1, H2. by rewrite H1, H2.
Qed.

(** Without a separator at the end the text is kept. *)
Lemma strip_other fuel raw m st : trim raw = raw -> json_run json_init raw = Some (m, st) -> in_string m = false -> m <> MKey -> m <> MValue -> strip_separators fuel raw = raw.
Proof.
  intros Ht Hr Hi H1 H2. apply strip_done. intros c Hc. split; [by apply (trim_trimmed raw)|by eapply complete_no_separator].
Qed.

(** After a dropped comma the values before it are over. *)
Lemma strip_comma fuel t m st : json_run json_init t = Some (m, st) -> complete m = true ->
  strip_separators (S fuel) t = trimEnd t /\ exists m1, complete m1 = true /\ json_run json_init (trimEnd t) = Some (m1, st).
Proof.
  intros Hr Hm. destruct (trimEnd_run t m st Hr Hm) as (m1 & H1 & E1). split; [|by exists m1].
  assert (forall c, last (trimEnd t) = Some c -> ws c = false /\ c <> 44%N /\ c <> 58%N) as Hl.
  { intros c Hc. split; [by apply (trimEnd_last t)|]. eapply complete_no_separator; [exact E1|by destruct m1..|done]. }
  cbn [strip_separators]. destruct (last (trimEnd t)) as [c|] eqn:E; [|done]. destruct (Hl c eq_refl) as (_ & H2 & H3). apply N.eqb_neq in H2, H3. by rewrite H2, H3.
Qed.

(** ** The brackets *)

Definition closers (st : list bool) : jsstr := closer <$> (bracket <$> st).

Lemma closers_cons o st : closers (o :: st) = (if o then 125%N else 93%N) :: closers st.
Proof. by destruct o. Qed.

Lemma run_closers st : forall m, complete m = true -> exists m', complete m' = true /\ json_run (m, st) (closers st) = Some (m', []).
Proof.
  induction st as [|o st IH]; intros m Hm; [by exists m|]. rewrite closers_cons. cbn [json_run]. rewrite complete_step by (try done; destruct o; tauto).
  destruct (IH MAfter eq_refl) as (m' & H & E). exists m'. split; [done|]. by destruct o.
Qed.

Lemma closed_valid t m st : json_run json_init t = Some (m, st) -> complete m = true -> isValidJson (t ++ closers st) = true.
Proof.
  intros Hr Hm. unfold isValidJson. rewrite json_run_app, Hr. destruct (run_closers st m Hm) as (m' & H & ->). unfold accepting. cbn [fst snd]. by rewrite H.
Qed.

(** A state in which a bracket is no end. *)
Lemma stuck_invalid t m st : json_run json_init t = Some (m, st) -> complete m = false -> (forall o st', json_step (m, st) (if o : bool then 125%N else 93%N) = Some st' -> False) ->
  isValidJson (t ++ closers st) = false.
Proof.
  intros Hr Hm Hs. unfold isValidJson. rewrite json_run_app, Hr. destruct st as [|o st]; [cbn; unfold accepting; cbn [fst]; by rewrite Hm|].
  rewrite closers_cons. cbn [json_run]. destruct (json_step (m, o :: st) _) eqn:E; [by apply Hs in E|done].
Qed.

(** A container just opened is the innermost. *)
Definition opened (o : bool) : jmode := if o then MKeyFirst else MFirst.

Lemma after_not_opened o c st st' : after_value c st = Some (opened o, st') -> False.
Proof. intros [[H _]|(_ & _ & [H|H])]%after_inv; by destruct o. Qed.

Lemma start_opened o c st st' : value_start c st = Some (opened o, st') -> st' = o :: st.
Proof.
  unfold value_start. destruct o; repeat case_match; intros [= E]; try discriminate; done.
Qed.

Lemma opened_step o m0 st0 c st : json_step (m0, st0) c = Some (opened o, st) -> (m0 = opened o /\ st = st0) \/ st = o :: st0.
Proof.
  intros H. destruct m0; cbn [json_step] in H;
    repeat match type of H with
    | after_value _ _ = _ => by apply after_not_opened in H
    | value_start _ _ = _ => by apply start_opened in H; right
    | (if ?b then _ else _) = _ => destruct b
    | close_with _ ?s = _ => unfold close_with in H; destruct s
    | match ?l with [] => _ | _ => _ end = _ => destruct l
    end; try discriminate; try (injection H as E1 E2; destruct o; try discriminate; subst; auto; by destruct more || by destruct key || by destruct rest).
Qed.

Lemma opened_top t o : forall st, json_run json_init t = Some (opened o, st) -> exists st', st = o :: st'.
Proof.
  induction t as [|c t IH] using rev_ind; intros st; [cbn; intros [= E]; by destruct o|]. intros (m0 & st0 & Hr & [[-> ->]| ->]%opened_step & _)%run_last; [by apply IH|by eexists].
Qed.

(** ** The closed text *)

Lemma close_body_eq raw m st : json_run json_init raw = Some (m, st) ->
  close_body raw = (let body := if in_escape m then removelast raw else raw in
                    if in_string m then body ++ [34]%N else strip_separators (S (S (length body))) body) ++ closers st.
Proof.
  intros Hr. unfold close_body. cbv zeta. assert (scan_text raw = Scan (in_string m) (in_escape m) (bracket <$> st)) as -> by exact (scan_run raw MValue [] m st I Hr).
  cbn [inString escaped stack]. reflexivity.
Qed.

(** What is kept of the text, and the state it ends in. *)
Definition cut_ok (raw : jsstr) (m : jmode) (st : list bool) : Prop :=
  exists kept dropped added m1, close_body raw = kept ++ added ++ closers st /\ raw = kept ++ dropped /\ Forall (fun c => c = 92%N \/ c = 44%N \/ ws c = true) dropped /\
    complete m1 = true /\ json_run json_init (kept ++ added) = Some (m1, st).

Lemma trimEnd_split t : exists blanks, t = trimEnd t ++ blanks /\ Forall (fun c => ws c = true) blanks.
Proof.
  induction t as [|c t (b & E & Hb)] using rev_ind; [by exists []|]. rewrite trimEnd_snoc. destruct (ws c) eqn:Ec; [|exists []; by rewrite app_nil_r].
  exists (b ++ [c]). rewrite app_assoc, <- E. split; [done|]. apply Forall_app. split; [done|by constructor].
Qed.

Section closing.
Context (raw : jsstr) (m : jmode) (st : list bool).
Hypothesis trimmed : trim raw = raw.
Hypothesis runs : json_run json_init raw = Some (m, st).

Lemma close_other : in_string m = false -> m <> MKey -> m <> MValue -> close_body raw = raw ++ closers st.
Proof.
  intros Hi H1 H2. rewrite (close_body_eq raw m st runs), Hi. assert (in_escape m = false) as -> by by destruct m. cbv zeta. by rewrite (strip_other _ raw m st).
Qed.

Lemma close_complete : complete m = true -> cut_ok raw m st.
Proof.
  intros Hm. exists raw, [], [], m. rewrite close_other, !app_nil_r by by destruct m. split; [done|]. split; [done|]. split; [constructor|done].
Qed.

Lemma close_in_string : m = MStr false -> cut_ok raw m st.
Proof.
  intros Hm. exists raw, [], [34]%N, MAfter. rewrite (close_body_eq raw m st runs). subst m. cbn [in_string in_escape]. cbv zeta. rewrite <- app_assoc, app_nil_r.
  split; [done|]. split; [done|]. split; [constructor|]. split; [done|]. by rewrite json_run_snoc, runs.
Qed.

End closing.

Lemma escape_inv key m0 st0 c st : json_step (m0, st0) c = Some (MEsc key, st) -> m0 = MStr key /\ st0 = st /\ c = 92%N.
Proof.
  intros H. destruct m0; cbn [json_step] in H;
    repeat match type of H with
    | after_value _ _ = _ => by unfold after_value, close_with in H; repeat case_match
    | value_start _ _ = _ => by unfold value_start in H; repeat case_match
    | (if (?a =? ?b)%N then _ else _) = _ => destruct (N.eqb_spec a b)
    | (if ?b then _ else _) = _ => destruct b
    | close_with _ ?s = _ => by unfold close_with in H; repeat case_match
    | match ?l with [] => _ | _ => _ end = _ => destruct l
    end; try discriminate; try (by injection H as <- <-); try (injection H as E1 E2; destruct more || destruct rest || destruct key0; discriminate).
Qed.

Lemma close_escape key raw st : json_run json_init raw = Some (MEsc key, st) -> exists t, raw = t ++ [92]%N /\ json_run json_init t = Some (MStr key, st) /\ close_body raw = t ++ [34]%N ++ closers st.
Proof.
  intros runs. pose proof (close_body_eq raw _ st runs) as Hc. cbn [in_string in_escape] in Hc. cbv zeta in Hc. destruct raw as [|c t _] using rev_ind; [done|].
  destruct (run_last _ _ _ _ runs) as (m0 & st0 & Hr & Hs & _). destruct (escape_inv _ _ _ _ _ Hs) as (-> & -> & ->). exists t. split; [done|]. split; [done|].
  rewrite removelast_last in Hc. by rewrite Hc, <- app_assoc.
Qed.

Lemma close_expecting raw m st : trim raw = raw -> raw <> [] -> json_run json_init raw = Some (m, st) -> m = MValue \/ m = MKey -> cut_ok raw m st.
Proof.
  intros Ht Hne runs Hm. pose proof (close_body_eq raw m st runs) as Hc. assert (in_string m = false /\ in_escape m = false) as [H1 H2] by by destruct Hm as [->| ->].
  rewrite H1, H2 in Hc. cbv zeta in Hc. destruct raw as [|c t _] using rev_ind; [done|]. destruct (run_last _ _ _ _ runs) as (m0 & st0 & Hr & Hs & Hl).
  assert (ws c = false) as Hw by (apply (trim_trimmed (t ++ [c])); [done|apply last_snoc]).
  remember (S (length (t ++ [c]))) as n eqn:En. cbn [strip_separators] in Hc. rewrite trimEnd_snoc, Hw, last_snoc in Hc.
  destruct (expect_inv _ _ _ _ _ Hs Hm) as [Hj|[->|[-> ->]]].
  - exfalso. unfold json_ws in Hj. repeat (apply orb_true_iff in Hj as [Hj|Hj]); apply N.eqb_eq in Hj as ->; done.
  - cbn [N.eqb Pos.eqb] in Hc. rewrite removelast_last in Hc. destruct (comma_inv _ _ _ _ Hl Hs H1) as (Hm0 & -> & _). subst n.
    destruct (strip_comma (length (t ++ [44%N])) t m0 st0 Hr Hm0) as [E (m1 & Hm1 & E1)]. rewrite E in Hc. destruct (trimEnd_split t) as (b & Eb & Hb).
    exists (trimEnd t), (b ++ [44%N]), [], m1. rewrite app_nil_r. split; [done|]. split; [by rewrite app_assoc, <- Eb|]. split; [|done].
    apply Forall_app. split; [|by repeat constructor; right; left]. eapply Forall_impl; [exact Hb|]. auto.
  - change ((58 =? 44)%N) with false in Hc. change ((58 =? 58)%N) with true in Hc. cbv iota in Hc. rewrite strip_done in Hc.
    + exists (t ++ [58%N]), [], (js "null"), MAfter. rewrite app_nil_r. split; [by rewrite app_assoc|]. split; [done|]. split; [constructor|]. split; [done|]. by rewrite json_run_app, runs.
    + intros x. change (js "null") with ([110; 117; 108] ++ [108])%N. rewrite app_assoc, last_snoc. by intros [= <-].
Qed.

Lemma close_opened raw o st : trim raw = raw -> json_run json_init raw = Some (opened o, st) -> isValidJson (close_body raw) = true.
Proof.
  intros Ht runs. rewrite (close_other raw (opened o) st) by (try done; by destruct o). destruct (opened_top _ _ _ runs) as (st' & ->). rewrite closers_cons.
  unfold isValidJson. rewrite json_run_app, runs. cbn [json_run]. destruct (run_closers st' MAfter eq_refl) as (m' & H & E).
  assert (json_step (opened o, o :: st') (if o then 125%N else 93%N) = Some (MAfter, st')) as -> by by destruct o. rewrite E. unfold accepting. cbn. by rewrite H.
Qed.

Lemma cut_valid raw m st : cut_ok raw m st -> isValidJson (close_body raw) = true.
Proof. intros (k & d & a & m1 & -> & _ & _ & Hm & Hr). rewrite app_assoc. by eapply closed_valid. Qed.

Lemma quote_stuck t m st : json_run json_init t = Some (m, st) -> (forall s, json_step (m, st) 34%N = Some s -> s = (MColon, st)) -> isValidJson (t ++ [34]%N ++ closers st) = false.
Proof.
  intros Hr Hs. unfold isValidJson. rewrite json_run_app, Hr. cbn [app json_run]. destruct (json_step (m, st) 34%N) as [s|] eqn:E; [|done]. rewrite (Hs s eq_refl).
  destruct st as [|o st]; [done|]. rewrite closers_cons. by destruct o.
Qed.

(** The closed text parses exactly when the text was cut at a place that can be closed. *)
Lemma close_body_valid raw m st : trim raw = raw -> raw <> [] -> json_run json_init raw = Some (m, st) -> isValidJson (close_body raw) = recoverable m.
Proof.
  intros Ht Hne runs. assert (literal_ok m) as Hl by by apply run_literal in runs.
  assert (forall b, complete m = b -> in_string m = false -> m <> MKey -> m <> MValue -> b = false ->
    (forall o st', json_step (m, st) (if o : bool then 125%N else 93%N) = Some st' -> False) -> isValidJson (close_body raw) = false) as Hstuck.
  { intros b Hb Hi H1 H2 -> Hs. rewrite (close_other raw m st) by done. by apply (stuck_invalid raw m). }
  assert (complete m = true -> isValidJson (close_body raw) = true) as Hdone by (intros Hm; by eapply cut_valid, close_complete).
  destruct m as [| | | | | |[]|[]|key more|rest| | | | | | | |]; cbn [recoverable complete]; try (by apply Hdone).
  - eapply cut_valid, close_expecting; [done..|by left].
  - by apply (close_opened raw false st).
  - by apply (close_opened raw true st).
  - eapply cut_valid, close_expecting; [done..|by right].
  - apply (Hstuck false); try done. by intros [].
  - rewrite (close_body_eq raw _ st runs). cbn [in_string in_escape]. cbv zeta. rewrite <- app_assoc. apply (quote_stuck raw (MStr true)); [done|]. by intros s [= <-].
  - eapply cut_valid, close_in_string; done.
  - destruct (close_escape _ _ _ runs) as (t & _ & Hr & ->). apply (quote_stuck t (MStr true)); [done|]. by intros s [= <-].
  - destruct (close_escape _ _ _ runs) as (t & _ & Hr & ->). rewrite app_assoc. apply (closed_valid _ MAfter); [by rewrite json_run_snoc, Hr|done].
  - rewrite (close_body_eq raw _ st runs). cbn [in_string in_escape]. cbv zeta. rewrite <- app_assoc. by apply (quote_stuck raw (MHex key more)).
  - apply (Hstuck false); try done. intros o st'. intros Hs%literal_step; [|done]. by destruct o.
  - apply (Hstuck false); try done. by intros [].
  - apply (Hstuck false); try done. by intros [].
  - apply (Hstuck false); try done. by intros [].
  - apply (Hstuck false); try done. by intros [].
Qed.

Definition starts_object (t : jsstr) : bool := match t with c :: _ => (c =? 123)%N | [] => false end.

Lemma object_of t : isValidJson t = true -> starts_object t = true -> parsesToJsonObject t = true.
Proof. intros Hv Ho. unfold parsesToJsonObject. rewrite Hv. destruct t as [|c t]; [done|]. cbn in *. by apply N.eqb_eq in Ho as ->. Qed.

Lemma cut_kept raw m st : trim raw = raw -> raw <> [] -> json_run json_init raw = Some (m, st) -> recoverable m = true ->
  exists kept dropped added, close_body raw = kept ++ added ++ closers st /\ raw = kept ++ dropped /\ Forall (fun c => c = 92%N \/ c = 44%N \/ ws c = true) dropped.
Proof.
  intros Ht Hne runs Hm. assert (cut_ok raw m st -> exists kept dropped added, close_body raw = kept ++ added ++ closers st /\ raw = kept ++ dropped /\ Forall (fun c => c = 92%N \/ c = 44%N \/ ws c = true) dropped) as Hc.
  { intros (k & d & a & m1 & H1 & H2 & H3 & _). by exists k, d, a. }
  assert (forall o, m = opened o -> close_body raw = raw ++ closers st) as Ho by (intros o ->; apply (close_other raw (opened o)); try done; by destruct o).
  destruct m as [| | | | | |[]|[]|key more|rest| | | | | | | |]; cbn in Hm; try discriminate; try (by apply Hc, close_complete).
  - apply Hc, close_expecting; [done..|by left].
  - exists raw, [], []. rewrite (Ho false), app_nil_r by done. by repeat split.
  - exists raw, [], []. rewrite (Ho true), app_nil_r by done. by repeat split.
  - apply Hc, close_expecting; [done..|by right].
  - by apply Hc, close_in_string.
  - destruct (close_escape _ _ _ runs) as (t & E & _ & Hb). exists t, [92%N], [34%N]. split; [done|]. split; [done|]. repeat constructor.
Qed.

(** C31. What closing a truncated text recovers. Of a JSON text cut anywhere, so that no
    blanks are at its ends, the result is always JSON again. When the cut is inside a
    string value (directly behind a backslash included), after a value, a bracket or a
    separator, all is kept but that backslash, or a trailing comma with the blanks before
    it; when it is inside or directly behind a name, in a literal, an unfinished number or
    the four digits of an escape, the result is the empty object. The rest of an object is an object. *)
Theorem truncated_json_closed raw rest : isValidJson (raw ++ rest) = true -> trim raw = raw -> raw <> [] ->
  exists m st, json_run json_init raw = Some (m, st) /\ isValidJson (closeTruncatedJson raw) = true /\
    (starts_object raw = true -> parsesToJsonObject (closeTruncatedJson raw) = true) /\
    if recoverable m then
      exists kept dropped added, closeTruncatedJson raw = kept ++ added ++ closers st /\ raw = kept ++ dropped /\ Forall (fun c => c = 92%N \/ c = 44%N \/ ws c = true) dropped
    else closeTruncatedJson raw = EMPTY_OBJECT.
Proof.
  intros (m2 & _ & Hv)%valid_run Ht Hne. rewrite json_run_app in Hv. destruct (json_run json_init raw) as [[m st]|] eqn:runs; [|done]. exists m, st. split; [done|].
  pose proof (close_body_valid raw m st Ht Hne runs) as Hb. assert (closeTruncatedJson raw = if recoverable m then close_body raw else EMPTY_OBJECT) as ->.
  { unfold closeTruncatedJson. cbv zeta. rewrite Ht, bool_decide_eq_false_2 by done. by rewrite Hb. }
  destruct (recoverable m) eqn:Hm; [|done]. destruct (cut_kept raw m st Ht Hne runs Hm) as (k & d & a & E1 & E2 & E3). split; [done|]. split; [|by exists k, d, a].
  intros Ho. apply object_of; [done|]. rewrite E1. destruct k as [|c k]; [|by rewrite E2 in Ho]. exfalso. cbn in E2. subst d. destruct raw as [|c raw]; [done|]. cbn in Ho. apply N.eqb_eq in Ho as ->.
  apply Forall_cons in E3 as [[?|[?|?]] _]; done.
Qed.

Lemma truncated_json_closed_witness : exists m st, json_run json_init (ex_json "{'a': [1, 'x") = Some (m, st) /\ isValidJson (closeTruncatedJson (ex_json "{'a': [1, 'x")) = true /\
  (starts_object (ex_json "{'a': [1, 'x") = true -> parsesToJsonObject (closeTruncatedJson (ex_json "{'a': [1, 'x")) = true) /\
  if recoverable m then
    exists kept dropped added, closeTruncatedJson (ex_json "{'a': [1, 'x") = kept ++ added ++ closers st /\ ex_json "{'a': [1, 'x" = kept ++ dropped /\ Forall (fun c => c = 92%N \/ c = 44%N \/ ws c = true) dropped
  else closeTruncatedJson (ex_json "{'a': [1, 'x") = EMPTY_OBJECT.
Proof. apply (truncated_json_closed (ex_json "{'a': [1, 'x") (ex_json "y'], 'b': 2}")); [vm_compute; reflexivity|vm_compute; reflexivity|discriminate]. Defined.
