(* ===== verification/WireExchanges.v ===== *)
(** What leaves the client is a list of complete exchanges: an abstract grammar of legal
    histories, the fast path as its decision procedure, the repair as a map into it. *)

From S2P Require Import Prelude JsMap Json JsonText JsString Messages Projector ToolCalls ToolCallLaws JsonSyntax WireNormalize WireLaws.

(** * Legal histories *)

(** Every message with calls is followed at once by one result for each of them. *)
Inductive wire_legal : list message -> Prop :=
| legal_nil : wire_legal []
| legal_plain m ms : is_tool m = false -> has_calls m = false -> wire_legal ms -> wire_legal (m :: ms)
| legal_exchange m results ms : has_calls m = true -> forallb call_healthy (toolCalls m) = true -> Forall (fun r => is_tool r = true) results ->
    toolCallId <$> results ≡ₚ Some <$> call_ids m -> wire_legal ms -> wire_legal (m :: results ++ ms).

(** The same inside an exchange, with the calls still to answer. *)
Definition legal_from (todo : list jsstr) (ms : list message) : Prop :=
  exists results rest, ms = results ++ rest /\ Forall (fun r => is_tool r = true) results /\ toolCallId <$> results ≡ₚ Some <$> todo /\ wire_legal rest.

Lemma legal_from_nil ms : legal_from [] ms <-> wire_legal ms.
Proof.
  split; [intros (results & rest & -> & _ & Hp & H)|intros H; exists [], ms; by repeat constructor].
  apply Permutation_nil_r, fmap_nil_inv in Hp as ->. exact H.
Qed.

Lemma tool_not_calls m : is_tool m = true -> has_calls m = false.
Proof. unfold is_tool, has_calls, is_assistant. intros H%bool_decide_eq_true. by rewrite H. Qed.

Lemma legal_not_tool m ms : wire_legal (m :: ms) -> is_tool m = false.
Proof. inversion 1; subst; [done|]. destruct (is_tool m) eqn:E; [|done]. by rewrite tool_not_calls in *. Qed.

Lemma legal_from_tool todo m ms : is_tool m = true -> legal_from todo (m :: ms) <-> exists id todo', toolCallId m = Some id /\ todo ≡ₚ id :: todo' /\ legal_from todo' ms.
Proof.
  intros Hm. split.
  - intros (results & rest & E & Hr & Hp & H). destruct results as [|r results].
    + cbn in E. subst rest. apply legal_not_tool in H. congruence.
    + injection E as <- ->. apply Forall_cons in Hr as [_ Hr]. cbn [fmap list_fmap] in Hp.
      assert (toolCallId m ∈ Some <$> todo) as (id & Hid & Hin)%list_elem_of_fmap by (rewrite <- Hp; by left).
      apply list_elem_of_split in Hin as (l1 & l2 & ->). exists id, (l1 ++ l2). split; [done|]. split; [by rewrite Permutation_middle|].
      exists results, rest. split; [done|]. split; [done|]. split; [|done]. rewrite Hid in Hp.
      apply (Permutation_cons_inv (a := Some id)). rewrite Hp, !fmap_app. cbn. by rewrite <- Permutation_middle.
  - intros (id & todo' & Hid & Hp & results & rest & -> & Hr & Hq & H). exists (m :: results), rest. split; [done|]. split; [by constructor|]. split; [|done].
    cbn [fmap list_fmap]. by rewrite Hid, Hq, Hp.
Qed.

Lemma legal_from_other todo m ms : is_tool m = false -> legal_from todo (m :: ms) <-> todo = [] /\ wire_legal (m :: ms).
Proof.
  intros Hm. split.
  - intros (results & rest & E & Hr & Hp & H). destruct results as [|r results]; [|injection E as <- ->; apply Forall_cons in Hr as [Hr _]; congruence].
    cbn in E. subst rest. split; [|done]. symmetry in Hp. by apply Permutation_nil_r, fmap_nil_inv in Hp.
  - intros [-> H]. by apply legal_from_nil.
Qed.

Lemma legal_calls m ms : has_calls m = true -> wire_legal (m :: ms) <-> forallb call_healthy (toolCalls m) = true /\ legal_from (call_ids m) ms.
Proof.
  intros Hm. split.
  - inversion 1; subst; [congruence|]. split; [done|]. by exists results, ms0.
  - intros [Hh (results & rest & -> & Hr & Hp & H)]. by constructor.
Qed.

Lemma legal_no_calls m ms : is_tool m = false -> has_calls m = false -> wire_legal (m :: ms) <-> wire_legal ms.
Proof. intros H1 H2. split; [inversion 1; subst; [done|congruence]|by constructor]. Qed.

(** * The map of open calls as a multiset *)

Definition open_ids (p : list (jsstr * Z)) : list jsstr := p ≫= fun e => replicate (Z.to_nat e.2) e.1.
Definition counts_ok (p : list (jsstr * Z)) : Prop := jwf p /\ Forall (fun e => 0 <= e.2) p.

Lemma open_ids_cons id n p : open_ids ((id, n) :: p) = replicate (Z.to_nat n) id ++ open_ids p.
Proof. done. Qed.

Lemma open_ids_set p id n : open_ids (jset p id n) ++ replicate (Z.to_nat (default 0 (jget p id))) id ≡ₚ replicate (Z.to_nat n) id ++ open_ids p.
Proof.
  induction p as [|[k v] p IH]; cbn [jset jget]; [cbn; by rewrite !app_nil_r|]. case_decide as E.
  - subst k. rewrite !open_ids_cons. cbn [default from_option]. rewrite <- app_assoc. f_equiv. apply Permutation_app_comm.
  - rewrite !open_ids_cons, <- app_assoc, IH. by rewrite Permutation_app_swap_app.
Qed.

Lemma counts_set p id n : counts_ok p -> 0 <= n -> counts_ok (jset p id n).
Proof.
  intros [H1 H2] Hn. split; [by apply jwf_set|]. apply Forall_forall. intros [k v] Hin. apply jset_in in Hin as [[-> ->]|[_ Hin]]; [done| |done].
  rewrite Forall_forall in H2. by apply (H2 (k, v)).
Qed.

Lemma counts_get p id n : counts_ok p -> jget p id = Some n -> 0 <= n.
Proof. intros [_ H] Hg%jget_Some_in. rewrite Forall_forall in H. by apply (H (id, n)). Qed.

Lemma open_ids_in p id : counts_ok p -> id ∈ open_ids p <-> exists n, jget p id = Some n /\ n <> 0.
Proof.
  intros Hp. unfold open_ids. rewrite list_elem_of_bind. split.
  - intros ([k n] & Hin & Hk). cbn in Hin. apply elem_of_replicate in Hin as [-> Hn]. exists n. split; [by apply jget_in; [apply Hp|]|lia].
  - intros (n & Hg & Hn). pose proof (counts_get p id n Hp Hg). exists (id, n). split; [|by apply jget_Some_in]. cbn. apply elem_of_replicate. split; [done|lia].
Qed.

Lemma pending_count_ids p : counts_ok p -> pendingCount p = blen (open_ids p).
Proof.
  intros [_ H]. unfold pendingCount. enough (forall t, fold_left (fun t e => t + e.2) p t = t + blen (open_ids p)) as E by (rewrite E; lia).
  induction H as [|[k n] p Hn _ IH]; intros t; cbn [fold_left]; [change (blen (open_ids [])) with 0; lia|]. rewrite IH, open_ids_cons, blen_app. cbn [snd] in Hn |- *. unfold blen at 2. rewrite length_replicate. lia.
Qed.

Lemma count_calls_ids l : counts_ok (count_calls l) /\ open_ids (count_calls l) ≡ₚ call_id <$> l.
Proof.
  unfold count_calls. enough (forall p, counts_ok p -> let q := fold_left (fun p c => jset p (call_id c) (default 0 (jget p (call_id c)) + 1)) l p in
    counts_ok q /\ open_ids q ≡ₚ open_ids p ++ (call_id <$> l)) as H by (apply (H []); split; constructor).
  induction l as [|c l IH]; intros p Hp; cbn [fold_left]; [by cbn; rewrite app_nil_r|]. set (n := default 0 (jget p (call_id c))).
  assert (0 <= n) as Hn by (subst n; destruct (jget p (call_id c)) eqn:E; [by eapply counts_get|done]).
  destruct (IH (jset p (call_id c) (n + 1))) as [H1 H2]; [apply counts_set; [done|lia]|]. split; [done|]. rewrite H2. cbn [fmap list_fmap].
  pose proof (open_ids_set p (call_id c) (n + 1)) as Hs. fold n in Hs. replace (Z.to_nat (n + 1)) with (S (Z.to_nat n)) in Hs by lia. cbn [replicate app] in Hs.
  enough (open_ids (jset p (call_id c) (n + 1)) ≡ₚ call_id c :: open_ids p) as -> by (cbn; by rewrite Permutation_middle).
  apply (Permutation_app_inv_l (replicate (Z.to_nat n) (call_id c))). rewrite <- Permutation_middle, <- Hs. apply Permutation_app_comm.
Qed.

(** * The fast path decides legality *)

Definition agrees (p : pending_calls) (todo : list jsstr) : Prop := match p with Some p => counts_ok p /\ open_ids p ≡ₚ todo | None => todo = [] end.

Lemma agrees_open p todo : agrees p todo -> open_calls p = negb (bool_decide (todo = [])).
Proof.
  destruct p as [p|]; [|intros ->; by rewrite bool_decide_eq_true_2]. intros [Hp Hq]. cbn. rewrite pending_count_ids by done. apply Permutation_length in Hq.
  unfold blen. rewrite Hq. destruct todo; [done|]. by rewrite bool_decide_eq_false_2.
Qed.

Lemma take_agrees p todo m : agrees p todo ->
  match remaining p m with
  | None | Some 0 => forall id, toolCallId m = Some id -> id ∉ todo
  | Some n => exists id todo', toolCallId m = Some id /\ todo ≡ₚ id :: todo' /\ agrees (take_result p m n) todo'
  end.
Proof.
  unfold remaining, take_result. destruct (toolCallId m) as [id|]; [|done]. destruct p as [p|]; cbn [agrees]; [|intros -> i _; by apply not_elem_of_nil].
  intros [Hp Hq]. assert (jget p id = None \/ jget p id = Some 0 -> forall i, Some id = Some i -> i ∉ todo) as Hno.
  { intros Hn i [= <-]. rewrite <- Hq, open_ids_in by done. intros (n & Hg & Hne). destruct Hn; congruence. }
  destruct (jget p id) as [n|] eqn:E; [|by apply Hno; left]. assert (n <> 0 -> exists id' todo', Some id = Some id' /\ todo ≡ₚ id' :: todo' /\ counts_ok (jset p id (n - 1)) /\ open_ids (jset p id (n - 1)) ≡ₚ todo') as Hyes.
  { intros Hne. pose proof (counts_get p id n Hp E). exists id, (open_ids (jset p id (n - 1))). split; [done|]. split; [|split; [apply counts_set; [done|lia]|done]].
    pose proof (open_ids_set p id (n - 1)) as Hs. rewrite E in Hs. change (default 0 (Some n)) with n in Hs. replace (Z.to_nat n) with (S (Z.to_nat (n - 1))) in Hs by lia. cbn [replicate] in Hs.
    rewrite <- Hq. apply (Permutation_app_inv_l (replicate (Z.to_nat (n - 1)) id)). rewrite <- Hs, <- Permutation_middle. cbn [replicate]. rewrite <- Permutation_middle. f_equiv. apply Permutation_app_comm. }
  destruct n as [|n|n]; [by apply Hno; right|by apply Hyes..].
Qed.

Lemma legal_from_perm t1 t2 ms : t1 ≡ₚ t2 -> legal_from t1 ms -> legal_from t2 ms.
Proof. intros Hp (results & rest & H1 & H2 & H3 & H4). exists results, rest. by rewrite <- Hp. Qed.

Lemma fast_from ms : forall p todo, agrees p todo -> fast_loop p ms = true <-> legal_from todo ms.
Proof.
  induction ms as [|m ms IH]; intros p todo Hp; cbn [fast_loop].
  - rewrite (agrees_open p todo Hp), negb_involutive, bool_decide_eq_true. split; [intros ->; apply legal_from_nil; constructor|].
    intros (results & rest & E & _ & Hq & _). symmetry in E. apply app_nil in E as [-> _]. symmetry in Hq. by apply Permutation_nil_r, fmap_nil_inv in Hq.
  - destruct (is_tool m) eqn:Ht.
    + pose proof (take_agrees p todo m Hp) as H. rewrite legal_from_tool by done.
      assert ((forall id, toolCallId m = Some id -> id ∉ todo) -> false = true <-> exists id todo', toolCallId m = Some id /\ todo ≡ₚ id :: todo' /\ legal_from todo' ms) as Hno.
      { intros Hn. split; [done|]. intros (id & todo' & Hid & Hq & _). destruct (Hn id Hid). rewrite Hq. by left. }
      assert (forall n, (exists id todo', toolCallId m = Some id /\ todo ≡ₚ id :: todo' /\ agrees (take_result p m n) todo') ->
        fast_loop (take_result p m n) ms = true <-> exists id todo', toolCallId m = Some id /\ todo ≡ₚ id :: todo' /\ legal_from todo' ms) as Hyes.
      { intros n (id & todo' & Hid & Hq & Ha). rewrite (IH _ todo' Ha). split; [intros Hl; by exists id, todo'|]. intros (id2 & todo2 & Hid2 & Hq2 & Hl). rewrite Hid in Hid2. injection Hid2 as <-.
        eapply legal_from_perm; [|exact Hl]. rewrite Hq in Hq2. by apply Permutation_cons_inv in Hq2. }
      destruct (remaining p m) as [[|n|n]|]; auto.
    + rewrite legal_from_other, (agrees_open p todo Hp) by done. destruct (bool_decide_reflect (todo = [])) as [->|Hne]; cbn [negb]; [|by split; [|intros []]].
      destruct (has_calls m) eqn:Hc.
      * rewrite legal_calls by done. destruct (count_calls_ids (toolCalls m)) as [H1 H2]. destruct (forallb call_healthy (toolCalls m)); [|by split; [|intros (_ & ? & _)]].
        rewrite (IH _ (call_ids m)); [by split; [|intros (_ & _ & ?)]|]. by split.
      * rewrite legal_no_calls by done. rewrite (IH None []), legal_from_nil by done. by split; [|intros []].
Qed.

Lemma fast_legal ms : fast_loop None ms = true <-> wire_legal ms.
Proof. rewrite (fast_from ms None []) by done. apply legal_from_nil. Qed.

(** * The repair of calls *)

Lemma trim_all_ws t : trim t = [] -> Forall (fun c => ws c = true) t.
Proof.
  assert (forall s, trimStart s = [] -> Forall (fun c => ws c = true) s) as H1.
  { induction s as [|c s IH]; [constructor|]. cbn [trimStart]. destruct (ws c) eqn:E; [|done]. intros H. constructor; auto. }
  assert (forall s, Forall (fun c => ws c = true) (trimStart s) -> Forall (fun c => ws c = true) s) as H2.
  { induction s as [|c s IH]; [done|]. cbn [trimStart]. destruct (ws c) eqn:E; [|done]. intros H. constructor; auto. }
  unfold trim. intros H. apply (f_equal (@rev N)) in H. rewrite rev_involutive in H. apply H1 in H. apply H2. apply Forall_rev in H. by rewrite rev_involutive in H.
Qed.

Lemma placeholder_named used : trim (placeholderToolName used) <> [].
Proof.
  intros H%trim_all_ws. assert (exists r, placeholderToolName used = 117%N :: r) as (r & E) by (unfold placeholderToolName, unique_id, suffixed; case_bool_decide; by eexists).
  rewrite E in H. by apply Forall_cons in H as [H _].
Qed.

Lemma repaired_arguments a : isValidOrEmptyJsonObject (repair_arguments a).1 = true.
Proof.
  unfold repair_arguments. destruct a as [t|]; [|done]. destruct (bool_decide (trim t = []) || parsesToJsonObject t) eqn:E; [cbn [fst]; by rewrite healthy_arguments|].
  destruct (isValidJson t); [done|]. destruct (negb _ && parsesToJsonObject (closeTruncatedJson t)) eqn:E2; [|done]. cbn [fst]. apply andb_true_iff in E2 as [_ E2].
  by rewrite healthy_arguments, E2, orb_true_r.
Qed.

Lemma repair_calls_spec l : forall used, let r := repair_calls used l in forallb call_healthy r.1 = true /\ call_id <$> r.1 = call_id <$> l.
Proof.
  induction l as [|c l IH]; intros used; cbn [repair_calls]; [done|]. destruct (repair_call used c) as [[c' used'] kinds] eqn:E.
  specialize (IH used'). destruct (repair_calls used' l) as [l' log]. destruct IH as [H1 H2]. cbn [fst forallb fmap list_fmap] in *. rewrite H1, H2, andb_true_r.
  unfold repair_call in E. pose proof (repaired_arguments (arguments c)) as Ha. destruct (repair_arguments (arguments c)) as [args k]. injection E as <- _ _. cbn [call_id]. split; [|done].
  unfold call_healthy. cbn [call_name arguments fst] in *. rewrite Ha, andb_true_r. destruct (bool_decide_reflect (trim (call_name c) = [])) as [Hb|Hb]; [|by rewrite bool_decide_eq_false_2].
  rewrite bool_decide_eq_false_2; [done|apply placeholder_named].
Qed.

Lemma repair_healthy l : forall used, forallb call_healthy l = true -> repair_calls used l = (l, []).
Proof.
  induction l as [|c l IH]; intros used; cbn [repair_calls forallb]; [done|]. intros [Hc Hl]%andb_true_iff. unfold call_healthy in Hc. apply andb_true_iff in Hc as [Hn Ha].
  unfold repair_call. apply negb_true_iff in Hn. rewrite Hn. assert (repair_arguments (arguments c) = (arguments c, [])) as ->.
  { unfold repair_arguments. destruct (arguments c) as [t|]; [|done]. rewrite healthy_arguments in Ha. by rewrite Ha. }
  rewrite (IH used Hl). by destruct c.
Qed.

Lemma repair_message m : has_calls m = true -> let m' := (repairToolCalls m).1 in
  has_calls m' = true /\ is_tool m' = false /\ forallb call_healthy (toolCalls m') = true /\ call_ids m' = call_ids m.
Proof.
  intros Hm. unfold repairToolCalls. pose proof (repair_calls_spec (toolCalls m) (call_name <$> toolCalls m)) as H. destruct (repair_calls _ _) as [l log]. destruct H as [H1 H2]. cbn [fst] in *.
  assert (has_calls (with_calls m l) = true) as Hc.
  { unfold has_calls, is_assistant in *. cbn. apply andb_true_iff in Hm as [-> Hm]. cbn. apply negb_true_iff, bool_decide_eq_false in Hm. apply negb_true_iff, bool_decide_eq_false. intros ->. by destruct (toolCalls m). }
  split; [done|]. split; [|by split]. destruct (is_tool (with_calls m l)) eqn:Ht; [|done]. apply tool_not_calls in Ht. congruence.
Qed.

(** * The repair *)

Lemma flush_ids p todo : agrees p todo -> exists ids, flush_pending p = (synthesized <$> ids, (fun id => (MissingToolResultSynthesized, id)) <$> ids) /\ ids ≡ₚ todo.
Proof. destruct p as [p|]; [intros [_ H]; by exists (open_ids p)|intros ->; by exists []]. Qed.

Lemma synthesized_legal ids todo rest : ids ≡ₚ todo -> wire_legal rest -> legal_from todo ((synthesized <$> ids) ++ rest).
Proof.
  intros Hp H. exists (synthesized <$> ids), rest. split; [done|]. split; [by apply Forall_fmap, Forall_true|]. split; [|done]. rewrite <- Hp.
  clear. induction ids as [|id ids IH]; [done|]. cbn. by f_equiv.
Qed.

Lemma repair_legal ms : forall p todo, agrees p todo -> legal_from todo (repair_loop p ms).1.
Proof.
  induction ms as [|m ms IH]; intros p todo Hp; cbn [repair_loop].
  - destruct (flush_ids p todo Hp) as (ids & -> & Hi). cbn [fst]. rewrite <- (app_nil_r (synthesized <$> ids)). apply synthesized_legal; [done|constructor].
  - destruct (is_tool m) eqn:Ht.
    + pose proof (take_agrees p todo m Hp) as H.
      assert (forall n, (exists id todo', toolCallId m = Some id /\ todo ≡ₚ id :: todo' /\ agrees (take_result p m n) todo') -> legal_from todo (prepend ([m], []) (repair_loop (take_result p m n) ms)).1) as Hyes.
      { intros n (id & todo' & Hid & Hq & Ha). apply legal_from_tool; [done|]. exists id, todo'. split; [done|]. split; [done|]. by apply IH. }
      destruct (remaining p m) as [[|n|n]|]; first [by apply IH|by apply Hyes].
    + destruct (flush_ids p todo Hp) as (ids & -> & Hi). destruct (has_calls m) eqn:Hc.
      * pose proof (repair_message m Hc) as (H1 & H2 & H3 & H4). destruct (repairToolCalls m) as [m' log]. cbn [fst] in *. apply synthesized_legal; [done|].
        apply legal_calls; [done|]. split; [done|]. destruct (count_calls_ids (toolCalls m')) as [Hk1 Hk2]. by apply IH.
      * apply synthesized_legal; [done|]. apply legal_no_calls; [done..|]. by apply legal_from_nil, IH.
Qed.

(** C9. Only complete exchanges leave the client. Whatever the history, what is sent is
    legal: every message with calls is followed at once by exactly one result for each of
    them, the calls are named and their arguments are empty or a JSON object, and no other
    result occurs. And the fast path is exact: a history is sent as it is, without a
    repair, if and only if it was legal. *)
Theorem wire_is_legal ms : wire_legal (normalizeMessagesForWire ms).1 /\ (wire_legal ms <-> normalizeMessagesForWire ms = (ms, [])).
Proof.
  assert (wire_legal (normalizeMessagesForWire ms).1) as H.
  { unfold normalizeMessagesForWire, tryNormalizeFastPath. destruct (fast_loop None ms) eqn:E; [by apply fast_legal|]. by apply legal_from_nil, repair_legal. }
  split; [exact H|]. split; [|intros E; by rewrite E in H]. intros Hl%fast_legal. unfold normalizeMessagesForWire, tryNormalizeFastPath. by rewrite Hl.
Qed.

(** ** What the repair keeps *)

Definition others (ms : list message) : list message := List.filter (fun m => negb (is_tool m)) ms.
Definition repaired (m : message) : message := if has_calls m then (repairToolCalls m).1 else m.

Lemma others_app l1 l2 : others (l1 ++ l2) = others l1 ++ others l2.
Proof. apply List.filter_app. Qed.

Lemma flush_others p : others (flush_pending p).1 = [] /\ Forall (fun m => exists id, m = synthesized id) (flush_pending p).1.
Proof.
  unfold flush_pending. cbn [fst]. generalize (match p with Some p => p ≫= fun e => replicate (Z.to_nat e.2) e.1 | None => [] end). intros ids. split.
  - induction ids as [|id ids IH]; [done|]. exact IH.
  - apply Forall_fmap, Forall_true. intros id. by exists id.
Qed.

(** The results of the history, possibly with some left out and synthesized ones put in. *)
Inductive results_kept : list message -> list message -> Prop :=
| kept_nil : results_kept [] []
| kept_one m l k : results_kept l k -> results_kept (m :: l) (m :: k)
| kept_dropped m l k : is_tool m = true -> results_kept l k -> results_kept (m :: l) k
| kept_synthesized id l k : results_kept l k -> results_kept l (synthesized id :: k)
| kept_repaired m l k : has_calls m = true -> results_kept l k -> results_kept (m :: l) ((repairToolCalls m).1 :: k).

Lemma kept_flush p l k : results_kept l k -> results_kept l ((flush_pending p).1 ++ k).
Proof. intros H. destruct (flush_others p) as [_ Hf]. induction Hf as [|x xs (id & ->) _ IH]; [done|]. by apply kept_synthesized. Qed.

Lemma repair_keeps ms : forall p, others (repair_loop p ms).1 = repaired <$> others ms /\ results_kept ms (repair_loop p ms).1.
Proof.
  induction ms as [|m ms IH]; intros p; cbn [repair_loop].
  - split; [apply flush_others|]. rewrite <- (app_nil_r (flush_pending p).1). apply kept_flush. constructor.
  - destruct (is_tool m) eqn:Ht.
    + assert (others (m :: ms) = others ms) as -> by (unfold others; cbn; by rewrite Ht).
      assert (forall q, others (prepend ([m], []) (repair_loop q ms)).1 = repaired <$> others ms /\ results_kept (m :: ms) (prepend ([m], []) (repair_loop q ms)).1) as Hk.
      { intros q. destruct (IH q) as [H1 H2]. cbn [prepend fst app]. split; [unfold others; cbn; by rewrite Ht|by constructor]. }
      assert (others (repair_loop p ms).1 = repaired <$> others ms /\ results_kept (m :: ms) (repair_loop p ms).1) as Hd by (destruct (IH p) as [H1 H2]; split; [done|by constructor]).
      destruct (remaining p m) as [[|n|n]|]; first [exact Hd|apply Hk].
    + assert (others (m :: ms) = m :: others ms) as -> by (unfold others; cbn; by rewrite Ht). unfold prepend at 1. cbn [fst]. rewrite others_app, (proj1 (flush_others p)). cbn [app fmap list_fmap].
      unfold repaired at 1. destruct (has_calls m) eqn:Hc.
      * pose proof (repair_message m Hc) as (_ & H2 & _ & _). pose proof (fun l k => kept_repaired m l k Hc) as Hkeep. destruct (repairToolCalls m) as [m' log] eqn:Er. cbn [fst] in *.
        destruct (IH (Some (count_calls (toolCalls m')))) as [H3 H4]. cbn [prepend fst app]. split; [unfold others; cbn; rewrite H2; cbn; by f_equal|by apply kept_flush, Hkeep].
      * destruct (IH None) as [H3 H4]. cbn [prepend fst app]. split; [unfold others; cbn; rewrite Ht; cbn; by f_equal|by apply kept_flush; constructor].
Qed.

Lemma legal_repaired ms : wire_legal ms -> repaired <$> others ms = others ms.
Proof.
  induction 1 as [|m ms Ht Hc _ IH|m results ms Hc Hh Hr _ _ IH]; [done| |].
  - unfold others in *. cbn [List.filter]. rewrite Ht. cbn [negb fmap list_fmap]. unfold repaired at 1. rewrite Hc. by f_equal.
  - assert (others results = []) as Hn by (unfold others; induction Hr as [|r rs Hr1 _ IHr]; [done|]; cbn; by rewrite Hr1).
    assert (is_tool m = false) as Ht by (destruct (is_tool m) eqn:E; [apply tool_not_calls in E; congruence|done]).
    unfold others in *. cbn [List.filter]. rewrite Ht. cbn [negb fmap list_fmap]. rewrite List.filter_app, Hn. cbn [app]. rewrite IH. f_equal.
    unfold repaired. rewrite Hc. unfold repairToolCalls. rewrite repair_healthy by done. cbn. by destruct m.
Qed.

Lemma kept_same ms : results_kept ms ms.
Proof. induction ms; by constructor. Qed.

(** The wire layer loses nothing but stray results. The messages that are not results
    are sent in their order, changed at most in the names and arguments of their calls; of
    the results some are left out, and synthesized ones are put in, none is reordered or
    altered. *)
Theorem wire_keeps_messages ms : others (normalizeMessagesForWire ms).1 = repaired <$> others ms /\ results_kept ms (normalizeMessagesForWire ms).1 /\
  Forall (fun m => has_calls m = true -> call_ids (repaired m) = call_ids m) ms.
Proof.
  split; [|split].
  - unfold normalizeMessagesForWire, tryNormalizeFastPath. destruct (fast_loop None ms) eqn:E; [|apply repair_keeps]. symmetry. by apply legal_repaired, fast_legal.
  - unfold normalizeMessagesForWire, tryNormalizeFastPath. destruct (fast_loop None ms); [apply kept_same|apply repair_keeps].
  - apply Forall_true. intros m Hm. unfold repaired. rewrite Hm. by apply repair_message.
Qed.
