(* ===== verification/Generate.v ===== *)
(** Assembling a message from a stream: [generate] of [kosong/src/generate.ts] with
    [mergeInPlace] of [message.ts]. Parts are merged in a pending slot; a part that does not
    merge flushes it; deltas of parallel calls are routed by index. The provider is a
    parameter; the abort signal fires before a given check; timings are left out. *)

From S2P Require Import Prelude JsMap Json JsonText JsString Messages Projector ToolCalls WireNormalize.

(** * Parts *)

(** [index] and [_streamIndex]: a number or a string. *)
Inductive stream_index : Type := IndexNumber (n : Z) | IndexString (s : jsstr).

#[global] Instance stream_index_eq_dec : EqDecision stream_index.
Proof. solve_decision. Defined.

Inductive streamed_part : Type :=
| ContentPiece (p : content_part)
| CallHeader (c : tool_call) (streamIndex : option stream_index)
| CallDelta (argumentsPart : option jsstr) (index : option stream_index).

(** [target.arguments === null ? part : target.arguments + part]. *)
Definition append_arguments (args part : option jsstr) : option jsstr :=
  match part with None => args | Some p => Some (default [] args ++ p) end.

Definition extend_call (c : tool_call) (part : option jsstr) : tool_call := ToolCall (call_id c) (call_name c) (append_arguments (arguments c) part).

(** The merged part, if the two merge. *)
Definition mergeInPlace (target source : streamed_part) : option streamed_part :=
  match target, source with
  | ContentPiece (TextPart a), ContentPiece (TextPart b) => Some (ContentPiece (TextPart (a ++ b)))
  | ContentPiece (ThinkPart a None), ContentPiece (ThinkPart b e) => Some (ContentPiece (ThinkPart (a ++ b) e))
  | CallHeader c i, CallDelta part _ => Some (CallHeader (extend_call c part) i)
  | _, _ => None
  end.

(** * The loop *)

(** What the callbacks see. *)
Inductive gen_event : Type := PartSeen (p : streamed_part) | ToolCallReady (c : tool_call) | ToolCallDone (c : tool_call).

(** The message so far, the ordinals of flushed calls by index, the pending slot. *)
Record gen : Type := Gen {
  g_content : list content_part;
  g_calls : list tool_call;
  g_map : list (stream_index * nat);
  g_pending : option streamed_part;
  g_events : list gen_event;
}.

Definition gen_init : gen := Gen [] [] [] None [].
Definition set_pending (s : gen) (p : option streamed_part) : gen := Gen (g_content s) (g_calls s) (g_map s) p (g_events s).
Definition saw (s : gen) (e : gen_event) : gen := Gen (g_content s) (g_calls s) (g_map s) (g_pending s) (g_events s ++ [e]).

Definition flushPart (s : gen) (p : streamed_part) : gen :=
  match p with
  | ContentPiece p => Gen (g_content s ++ [p]) (g_calls s) (g_map s) (g_pending s) (g_events s)
  | CallHeader c i =>
      Gen (g_content s) (g_calls s ++ [c]) (match i with Some i => jset (g_map s) i (length (g_calls s)) | None => g_map s end) (g_pending s) (g_events s)
  | CallDelta _ _ => s
  end.

Definition isPendingToolCallAtIndex (pending : option streamed_part) (index : stream_index) : bool :=
  match pending with Some (CallHeader _ (Some i)) => bool_decide (i = index) | _ => false end.

(** The call a delta is routed to, when it is not the pending one. *)
Definition route (s : gen) (p : streamed_part) : option (nat * option jsstr) :=
  match p with
  | CallDelta part (Some i) => if isPendingToolCallAtIndex (g_pending s) i then None else (fun n => (n, part)) <$> jget (g_map s) i
  | _ => None
  end.

Definition route_to (s : gen) (n : nat) (part : option jsstr) : gen :=
  Gen (g_content s) (alter (fun c => extend_call c part) n (g_calls s)) (g_map s) (g_pending s) (g_events s).

(** One part, after the callback; [ready] says whether the host listens. *)
Definition take_part (ready : bool) (s : gen) (p : streamed_part) : gen :=
  match route s p with
  | Some (n, part) => route_to s n part
  | None =>
      match g_pending s with
      | None => set_pending s (Some p)
      | Some pending =>
          match mergeInPlace pending p with
          | Some merged => set_pending s (Some merged)
          | None =>
              let s := flushPart s pending in
              let s := match pending with CallHeader c _ => if ready then saw s (ToolCallReady c) else s | _ => s end in
              set_pending s (Some p)
          end
      end
  end.

(** * Generation *)

Inductive gen_error : Type := Aborted | EmptyResponse | ThinkingOnly | ProviderError.

(** Which callbacks the host gives, and before which check its signal fires. *)
Record gen_host : Type := GenHost { on_part : bool; on_ready : bool; on_call : bool; aborts_at : option nat }.

Section generate.
Context (host : gen_host).

Definition aborted (check : nat) : bool := match aborts_at host with Some k => (k <=? check)%nat | None => false end.

(** The loop over the stream from the given check on: the state reached, the next check,
    whether it was aborted. *)
Fixpoint read_parts (s : gen) (check : nat) (parts : list streamed_part) : gen * nat * bool :=
  match parts with
  | [] => (s, check, false)
  | p :: parts =>
      if aborted check then (s, check, true)
      else if on_part host then
        let s := saw s (PartSeen p) in
        if aborted (S check) then (s, S check, true) else read_parts (take_part (on_ready host) s p) (S (S check)) parts
      else read_parts (take_part (on_ready host) s p) (S check) parts
  end.

Fixpoint report_calls (s : gen) (check : nat) (calls : list tool_call) : gen * bool :=
  match calls with
  | [] => (s, false)
  | c :: calls => if aborted check then (s, true) else report_calls (saw s (ToolCallDone c)) (S check) calls
  end.

Definition flush_last (s : gen) : gen := match g_pending s with Some p => flushPart s p | None => s end.

Definition is_think (p : content_part) : bool := match p with ThinkPart _ _ => true | _ => false end.
Definition has_text (p : content_part) : bool := match p with TextPart t => negb (bool_decide (trim t = [])) | _ => false end.

Definition empty_response (m : message) : option gen_error :=
  if bool_decide (content m = []) && bool_decide (toolCalls m = []) then Some EmptyResponse
  else if existsb is_think (content m) && negb (existsb has_text (content m)) && bool_decide (toolCalls m = []) then Some ThinkingOnly
  else None.

Definition assembled (s : gen) : message := Message Assistant None (g_content s) (g_calls s) None false None.

(** Tools that are not in the request are marked deferred. *)
Definition wire_tools (tools : list (tool_def * bool)) : list tool_def := fst <$> List.filter (fun t => negb t.2) tools.

(** [generate]: what the callbacks saw, and the message or the error. *)
Definition generate (provider : list tool_def -> list message -> option (list streamed_part)) (tools : list (tool_def * bool)) (history : list message) :
    list gen_event * result gen_error message :=
  if aborted 0 then ([], Err Aborted)
  else
    match provider (wire_tools tools) (normalizeMessagesForWire history).1 with
    | None => ([], Err ProviderError)
    | Some parts =>
        if aborted 1 then ([], Err Aborted)
        else
          let '(s, check, stop) := read_parts gen_init 2 parts in
          if stop || aborted check then (g_events s, Err Aborted)
          else
            let s := flush_last s in
            match empty_response (assembled s) with
            | Some e => (g_events s, Err e)
            | None =>
                let '(s', stop) := if on_call host then report_calls s (S check) (g_calls s) else (s, false) in
                (g_events s', if stop then Err Aborted else Ok (assembled s))
            end
    end.
End generate.

(** * Examples *)

Definition ex_header (id : string) (i : Z) : streamed_part := CallHeader (ToolCall (js id) (js "read") None) (Some (IndexNumber i)).
Definition ex_delta (t : string) (i : Z) : streamed_part := CallDelta (Some (js t)) (Some (IndexNumber i)).
Definition ex_generate (parts : list streamed_part) : list gen_event * result gen_error message :=
  generate (GenHost false true false None) (fun _ _ => Some parts) [] [].
Definition ex_arguments (r : result gen_error message) : list (jsstr * option jsstr) := match r with Ok m => (fun c => (call_id c, arguments c)) <$> toolCalls m | Err _ => [] end.

(** Deltas of two calls that alternate reach their calls, and a call may be reported ready
    with half its arguments. *)
Example interleaved : let '(evs, r) := ex_generate [ex_header "a" 0; ex_delta "1" 0; ex_header "b" 1; ex_delta "2" 1; ex_delta "3" 0] in
  ex_arguments r = [(js "a", Some (js "13")); (js "b", Some (js "2"))] /\ evs = [ToolCallReady (ToolCall (js "a") (js "read") (Some (js "1")))].
Proof. by vm_compute. Qed.
