(* ===== verification/GenerateLaws.v ===== *)
(** What a streamed response becomes: the pending slot and the routing give the same calls
    as appending every delta to its call at once, no text is lost, and a call reported early
    is the call of the final message. *)

From S2P Require Import Prelude JsMap Json JsonText JsString Messages Projector ToolCalls WireNormalize Generate.

(** * The direct assembly *)

(** Deltas are appended to the call with their index, or else to the call the stream is
    in: the last one, as long as no content followed it. *)
Record asm : Type := Asm { a_calls : list tool_call; a_map : list (stream_index * nat); a_current : option nat }.

Definition asm_target (a : asm) (i : option stream_index) : option nat :=
  match i ≫= jget (a_map a) with Some n => Some n | None => a_current a end.

Definition asm_step (a : asm) (p : streamed_part) : asm :=
  match p with
  | ContentPiece _ => Asm (a_calls a) (a_map a) None
  | CallHeader c i =>
      Asm (a_calls a ++ [c]) (match i with Some i => jset (a_map a) i (length (a_calls a)) | None => a_map a end) (Some (length (a_calls a)))
  | CallDelta part i => match asm_target a i with Some n => Asm (alter (fun c => extend_call c part) n (a_calls a)) (a_map a) (a_current a) | None => a end
  end.

Definition asm_run (parts : list streamed_part) : asm := fold_left asm_step parts (Asm [] [] None).
Definition direct_calls (parts : list streamed_part) : list tool_call := a_calls (asm_run parts).

(** The code units of content, with their kind; media and signatures count as one. *)
Inductive piece : Type := PieceText (u : N) | PieceThink (u : N) | PieceSigned (e : jsstr) | PieceMedia (p : content_part).

Definition pieces (p : content_part) : list piece :=
  match p with
  | TextPart t => PieceText <$> t
  | ThinkPart t e => (PieceThink <$> t) ++ match e with Some e => [PieceSigned e] | None => [] end
  | p => [PieceMedia p]
  end.

Definition content_of (parts : list streamed_part) : list content_part := omap (fun p => match p with ContentPiece p => Some p | _ => None end) parts.

(** * The slot *)

Definition slot_calls (p : option streamed_part) : list tool_call := match p with Some (CallHeader c _) => [c] | _ => [] end.
Definition slot_content (p : option streamed_part) : list content_part := match p with Some (ContentPiece p) => [p] | _ => [] end.

(** The slot machine after some parts, against the direct assembly of them. *)
Record mirrors (parts : list streamed_part) (s : gen) : Prop := Mirrors {
  mi_calls : a_calls (asm_run parts) = g_calls s ++ slot_calls (g_pending s);
  mi_current : a_current (asm_run parts) = match g_pending s with Some (CallHeader _ _) => Some (length (g_calls s)) | _ => None end;
  mi_map : a_map (asm_run parts) = match g_pending s with Some (CallHeader _ (Some i)) => jset (g_map s) i (length (g_calls s)) | _ => g_map s end;
  mi_bound : forall i n, jget (g_map s) i = Some n -> (n < length (g_calls s))%nat;
  mi_content : (g_content s ++ slot_content (g_pending s)) ≫= pieces = content_of parts ≫= pieces;
}.

Lemma mirrors_init : mirrors [] gen_init.
Proof. by split. Qed.

Lemma asm_snoc parts p : asm_run (parts ++ [p]) = asm_step (asm_run parts) p.
Proof. unfold asm_run. by rewrite fold_left_app. Qed.

Lemma content_snoc parts p : content_of (parts ++ [p]) ≫= pieces = (content_of parts ≫= pieces) ++ (match p with ContentPiece p => pieces p | _ => [] end).
Proof. unfold content_of. rewrite omap_app, bind_app. f_equal. destruct p; cbn; by rewrite ?app_nil_r. Qed.

Lemma mirrors_same parts s s' : mirrors parts s -> g_content s' = g_content s -> g_calls s' = g_calls s -> g_map s' = g_map s -> g_pending s' = g_pending s -> mirrors parts s'.
Proof. intros [H1 H2 H3 H4 H5] E1 E2 E3 E4. split; rewrite ?E1, ?E2, ?E3, ?E4; done. Qed.

(** A routed delta. *)
Lemma mirrors_route parts s i part n : mirrors parts s -> route s (CallDelta part (Some i)) = Some (n, part) -> mirrors (parts ++ [CallDelta part (Some i)]) (route_to s n part).
Proof.
  intros [H1 H2 H3 H4 H5] Hr. cbn [route] in Hr. destruct (isPendingToolCallAtIndex (g_pending s) i) eqn:Hp; [done|]. destruct (jget (g_map s) i) as [k|] eqn:Hk; [|done].
  injection Hr as ->. pose proof (H4 i n Hk) as Hn.
  assert (asm_target (asm_run parts) (Some i) = Some n) as Ht.
  { unfold asm_target. cbn. rewrite H3. destruct (g_pending s) as [[p|c [j|]|a j]|]; try by rewrite Hk. cbn in Hp. apply bool_decide_eq_false in Hp. by rewrite jget_set_ne, Hk. }
  split; rewrite ?asm_snoc, ?content_snoc; cbn [asm_step route_to g_calls g_pending g_map g_content]; rewrite ?Ht; cbn [a_calls a_current a_map]; rewrite ?length_alter; try done.
  - rewrite H1. by rewrite alter_app_l.
  - by rewrite app_nil_r.
Qed.

(** The pending part leaves the slot. *)
Definition flushed (s : gen) : gen := set_pending (flush_last s) None.

Lemma mirrors_flushed parts s : mirrors parts s -> a_calls (asm_run parts) = g_calls (flushed s) /\ a_map (asm_run parts) = g_map (flushed s) /\
  (forall i n, jget (g_map (flushed s)) i = Some n -> (n < length (g_calls (flushed s)))%nat) /\ g_content (flushed s) ≫= pieces = content_of parts ≫= pieces.
Proof.
  intros [H1 H2 H3 H4 H5]. unfold flushed, flush_last. destruct (g_pending s) as [[p|c i|a i]|]; cbn [slot_calls slot_content] in *; rewrite ?app_nil_r in *; cbn [flushPart set_pending g_calls g_map g_content]; try done.
  split; [done|]. split; [by destruct i|]. split; [|done]. intros j n. rewrite length_app. cbn. destruct i as [i|]; [|intros Hj; specialize (H4 j n Hj); lia].
  rewrite jget_set. case_decide; [intros [= <-]; lia|]. intros Hj. specialize (H4 j n Hj). lia.
Qed.

(** Taking a part into an empty slot. *)
Lemma mirrors_fresh parts s p : mirrors parts s -> route s p = None -> match g_pending s with Some (CallHeader _ _) => match p with CallDelta _ _ => False | _ => True end | _ => True end ->
  mirrors (parts ++ [p]) (set_pending (flushed s) (Some p)).
Proof.
  intros H Hr Hp. destruct (mirrors_flushed parts s H) as (E1 & E2 & E3 & E4). pose proof (mi_current _ _ H) as Hc. pose proof (mi_map _ _ H) as Hm.
  assert (match p with CallDelta part i => asm_step (asm_run parts) p = asm_run parts /\ a_current (asm_run parts) = None | _ => True end) as Hd.
  { destruct p as [p|c i|part i]; [done..|]. assert (a_current (asm_run parts) = None) as Hn by (rewrite Hc; by destruct (g_pending s) as [[]|]). split; [|done].
    cbn [asm_step]. unfold asm_target. rewrite Hn. destruct i as [i|]; [|done]. cbn. cbn [route] in Hr.
    destruct (g_pending s) as [[]|]; try done; cbn in Hr; rewrite Hm; by destruct (jget (g_map s) i). }
  destruct p as [p|c i|part i].
  - split; rewrite ?asm_snoc, ?content_snoc; cbn [asm_step a_calls a_current a_map set_pending g_pending g_calls g_map g_content slot_calls slot_content]; rewrite ?app_nil_r; try done.
    rewrite bind_app, E4. cbn. by rewrite app_nil_r.
  - split; rewrite ?asm_snoc, ?content_snoc; cbn [asm_step a_calls a_current a_map set_pending g_pending g_calls g_map g_content slot_calls slot_content]; rewrite ?app_nil_r, ?E1, ?E2; done.
  - destruct Hd as [Hd1 Hd2]. split; rewrite ?asm_snoc, ?content_snoc, ?Hd1; cbn [set_pending g_pending g_calls g_map g_content slot_calls slot_content]; rewrite ?app_nil_r; done.
Qed.

Lemma pieces_merge p q r : mergeInPlace (ContentPiece p) q = Some r -> exists p' q', q = ContentPiece q' /\ r = ContentPiece p' /\ pieces p' = pieces p ++ pieces q'.
Proof.
  destruct p as [t|t [e|]| | |], q as [[t'|t' e'| | |]| |]; cbn; intros [= <-]; (eexists _, _; split; [done|]; split; [done|]); cbn; rewrite fmap_app; [done|].
  by rewrite app_nil_r, app_assoc.
Qed.

(** Merging into the slot. *)
Lemma mirrors_merge parts s p q r : mirrors parts s -> route s q = None -> g_pending s = Some p -> mergeInPlace p q = Some r -> mirrors (parts ++ [q]) (set_pending s (Some r)).
Proof.
  intros [H1 H2 H3 H4 H5] Hr Hp Hm. rewrite Hp in *. destruct p as [p|c i|a i]; [| |done].
  - destruct (pieces_merge _ _ _ Hm) as (p' & q' & -> & -> & Hpc). cbn [slot_calls slot_content] in *. split; rewrite ?asm_snoc, ?content_snoc; cbn; try done.
    rewrite <- H5, !bind_app. cbn. by rewrite !app_nil_r, Hpc, app_assoc.
  - destruct q as [|?|part j]; try done. injection Hm as <-. cbn [slot_calls slot_content] in *.
    assert (asm_target (asm_run parts) j = Some (length (g_calls s))) as Ht.
    { unfold asm_target. rewrite H2. destruct j as [j|]; [|done]. cbn [mbind option_bind]. cbn [route] in Hr. rewrite Hp in Hr. rewrite H3. destruct i as [i|]; cbn [isPendingToolCallAtIndex] in Hr.
      - rewrite jget_set. destruct (decide (i = j)) as [->|Hne]; [done|]. rewrite bool_decide_eq_false_2 in Hr by done. by destruct (jget (g_map s) j).
      - by destruct (jget (g_map s) j). }
    split; rewrite ?asm_snoc, ?content_snoc; cbn [asm_step set_pending g_pending g_calls g_map g_content slot_calls slot_content]; rewrite ?Ht; cbn [a_calls a_current a_map]; rewrite ?app_nil_r; try done.
    + rewrite H1, alter_app_r_alt by lia. by rewrite Nat.sub_diag.
    + by rewrite app_nil_r in H5.
Qed.

Lemma mirrors_saw parts s e : mirrors parts s -> mirrors parts (saw s e).
Proof. intros H. by eapply mirrors_same; [exact H|..]. Qed.

(** What [take_part] reports when it flushes the slot. *)
Definition note_ready (ready : bool) (pending : streamed_part) (s : gen) : gen := match pending with CallHeader c _ => if ready then saw s (ToolCallReady c) else s | _ => s end.

Lemma take_part_eq ready s p : take_part ready s p = match route s p with
  | Some (n, part) => route_to s n part
  | None => match g_pending s with
            | None => set_pending s (Some p)
            | Some q => match mergeInPlace q p with Some r => set_pending s (Some r) | None => set_pending (note_ready ready q (flushPart s q)) (Some p) end
            end
  end.
Proof. done. Qed.

Lemma mirrors_take ready parts s p : mirrors parts s -> mirrors (parts ++ [p]) (take_part ready s p).
Proof.
  intros H. rewrite take_part_eq. destruct (route s p) as [[n part]|] eqn:Hr.
  - pose proof Hr as Hr'. destruct p as [|?|part' [i|]]; try done. cbn [route] in Hr'. assert (part' = part) as ->.
    { destruct (isPendingToolCallAtIndex _ _); [done|]. by destruct (jget (g_map s) i); [injection Hr' as _ ->|]. }
    by apply mirrors_route.
  - destruct (g_pending s) as [q|] eqn:Hq.
    + destruct (mergeInPlace q p) as [r|] eqn:Hm; [by eapply mirrors_merge|]. eapply mirrors_same; [apply (mirrors_fresh parts s p H Hr)|..].
      * rewrite Hq. destruct q as [|?|]; [done| |done]. by destruct p.
      * unfold flushed, flush_last. rewrite Hq. destruct q; cbn; try done; by destruct ready.
      * unfold flushed, flush_last. rewrite Hq. destruct q; cbn; try done; by destruct ready.
      * unfold flushed, flush_last. rewrite Hq. destruct q; cbn; try done; by destruct ready.
      * done.
    + eapply mirrors_same; [apply (mirrors_fresh parts s p H Hr); by rewrite Hq|..]; unfold flushed, flush_last; by rewrite Hq.
Qed.

(** * Calls reported early *)

(** No delta goes to a call the stream has left. *)
Definition step_conforms (a : asm) (p : streamed_part) : Prop := match p with CallDelta _ i => asm_target a i = a_current a | _ => True end.
Fixpoint conforms_from (a : asm) (parts : list streamed_part) : Prop :=
  match parts with [] => True | p :: parts => step_conforms a p /\ conforms_from (asm_step a p) parts end.
Definition conforms (parts : list streamed_part) : Prop := conforms_from (Asm [] [] None) parts.

Definition ready_calls (l : list gen_event) : list tool_call := omap (fun e => match e with ToolCallReady c => Some c | _ => None end) l.

Lemma ready_app l1 l2 : ready_calls (l1 ++ l2) = ready_calls l1 ++ ready_calls l2.
Proof. apply omap_app. Qed.

Lemma take_ready parts s p : mirrors parts s -> step_conforms (asm_run parts) p -> ready_calls (g_events s) = g_calls s -> let s' := take_part true s p in ready_calls (g_events s') = g_calls s'.
Proof.
  intros H Hc He. rewrite take_part_eq. destruct (route s p) as [[n part]|] eqn:Hr.
  - exfalso. pose proof (mirrors_route parts s) as _. destruct p as [|?|part' [i|]]; try done. cbn [route] in Hr. destruct (isPendingToolCallAtIndex (g_pending s) i) eqn:Hp; [done|].
    destruct (jget (g_map s) i) as [k|] eqn:Hk; [|done]. pose proof (mi_bound _ _ H i k Hk) as Hn. cbn [step_conforms] in Hc. unfold asm_target in Hc. cbn [mbind option_bind] in Hc.
    assert (jget (a_map (asm_run parts)) i = Some k) as Hm.
    { rewrite (mi_map _ _ H). destruct (g_pending s) as [[?|c [j|]|? ?]|]; try done. cbn in Hp. apply bool_decide_eq_false in Hp. by rewrite jget_set_ne. }
    rewrite Hm, (mi_current _ _ H) in Hc. destruct (g_pending s) as [[]|]; try discriminate. injection Hc as ->. lia.
  - destruct (g_pending s) as [q|] eqn:Hq; [|done]. destruct (mergeInPlace q p) as [r|]; [done|]. destruct q as [|c i|]; cbn; [done| |done].
    change (ready_calls (g_events s ++ [ToolCallReady c]) = g_calls s ++ [c]). by rewrite ready_app, He.
Qed.

(** ** The loop *)

Section loop.
Context (host : gen_host).

Lemma read_spec parts : forall done s check s' check', mirrors done s -> read_parts host s check parts = (s', check', false) ->
  mirrors (done ++ parts) s' /\
  (on_ready host = true -> conforms_from (asm_run done) parts -> ready_calls (g_events s) = g_calls s -> ready_calls (g_events s') = g_calls s').
Proof.
  induction parts as [|p parts IH]; intros done s check s' check' H; cbn [read_parts]; [intros [= <- _]; by rewrite app_nil_r|].
  assert (forall s0 k, mirrors done s0 -> read_parts host (take_part (on_ready host) s0 p) k parts = (s', check', false) -> mirrors (done ++ p :: parts) s' /\
    (on_ready host = true -> conforms_from (asm_run done) (p :: parts) -> ready_calls (g_events s0) = g_calls s0 -> ready_calls (g_events s') = g_calls s')) as Hnext.
  { intros s0 k H0 Hr. destruct (IH (done ++ [p]) _ _ _ _ (mirrors_take _ _ _ p H0) Hr) as [H1 H2]. rewrite <- app_assoc in H1. split; [exact H1|].
    intros Ho [Hc Hcs] He. rewrite Ho in *. apply H2; [done|by rewrite asm_snoc|by eapply take_ready]. }
  destruct (aborted host check); [done|]. destruct (on_part host); [|by apply Hnext]. cbv zeta. destruct (aborted host (S check)); [done|]. intros Hr.
  destruct (Hnext _ _ (mirrors_saw _ _ (PartSeen p) H) Hr) as [H1 H2]. split; [exact H1|]. intros Ho Hc He. apply H2; [done..|]. cbn [saw g_events g_calls]. by rewrite ready_app, app_nil_r.
Qed.

Lemma report_ready calls : forall s check, ready_calls (g_events (report_calls host s check calls).1) = ready_calls (g_events s) /\ assembled (report_calls host s check calls).1 = assembled s.
Proof.
  induction calls as [|c calls IH]; intros s check; cbn [report_calls]; [done|]. destruct (aborted host check); [done|]. destruct (IH (saw s (ToolCallDone c)) (S check)) as [-> ->].
  cbn [saw g_events]. by rewrite ready_app, app_nil_r.
Qed.

Lemma flush_last_ready s : ready_calls (g_events (flush_last s)) = ready_calls (g_events s).
Proof. unfold flush_last. by destruct (g_pending s) as [[]|]. Qed.

Lemma flush_last_calls s : exists last, g_calls (flush_last s) = g_calls s ++ last /\ (length last <= 1)%nat.
Proof.
  unfold flush_last. destruct (g_pending s) as [[p|c i|a i]|]; cbn; try (exists []; rewrite app_nil_r; split; [done|cbn; lia]). exists [c]. split; [done|cbn; lia].
Qed.

Lemma never_aborted : aborts_at host = None -> forall k, aborted host k = false.
Proof. intros H k. unfold aborted. by rewrite H. Qed.

Lemma read_never parts : aborts_at host = None -> forall s check, exists s' check', read_parts host s check parts = (s', check', false).
Proof.
  intros Ha. induction parts as [|p parts IH]; intros s check; cbn [read_parts]; [by eexists _, _|]. rewrite never_aborted by done. destruct (on_part host); [|apply IH].
  cbv zeta. rewrite never_aborted by done. apply IH.
Qed.

Lemma report_never calls : aborts_at host = None -> forall s check, (report_calls host s check calls).2 = false.
Proof. intros Ha. induction calls as [|c calls IH]; intros s check; cbn [report_calls]; [done|]. by rewrite never_aborted by done. Qed.
End loop.

(** * Generation *)


Lemma feed_entries {W} (parse : jsstr -> option json) (h : @tool_host W) l : forall u, u_stopped u = false -> NoDup (jkeys (u_entries u) ++ (call_id <$> l)) ->
  u_entries (fold_left (fun u c => addReady parse h c u) l u) = u_entries u ++ ((fun c => (call_id c, Waiting c)) <$> l).
Proof.
  induction l as [|c l IH]; intros u Hu Hn; cbn [fold_left]; [by rewrite app_nil_r|]. cbn [fmap list_fmap] in Hn.
  assert (call_id c ∉ jkeys (u_entries u)) as Hc by (intros Hin; apply NoDup_app in Hn as (_ & Hd & _); apply (Hd _ Hin); by left).
  assert (addReady parse h c u = Runner (u_entries u ++ [(call_id c, Waiting c)]) (u_streamed u ++ [c]) (u_stopped u) (u_announced u) (u_buffers u)) as ->.
  { unfold addReady. rewrite bool_decide_eq_false_2 by done. rewrite Hu. f_equal. revert Hc. generalize (u_entries u). intros p. induction p as [|[k v] p IHp]; [done|]. cbn [jkeys fmap list_fmap fst jset]. intros Hc.
    apply not_elem_of_cons in Hc as [Hne Hc]. rewrite decide_False by done. cbn. f_equal. by apply IHp. }
  rewrite IH; [|done|cbn; unfold jkeys; rewrite fmap_app; cbn; by rewrite <- app_assoc]. cbn. by rewrite <- app_assoc.
Qed.

(** C8. What starts early is what the response says. If no delta comes for a call the
    stream has left, the calls reported while streaming are the first calls of the final
    message, all but at most one, with their final arguments; and when the ids of the
    calls are distinct a runner fed with them holds exactly these calls (of calls with
    one id it keeps the first). *)
Theorem early_calls_are_final {W} (parse : jsstr -> option json) (h : @tool_host W) host provider tools history parts evs m : on_ready host = true ->
  provider (wire_tools tools) (normalizeMessagesForWire history).1 = Some parts -> conforms parts -> generate host provider tools history = (evs, Ok m) ->
  exists last, toolCalls m = ready_calls evs ++ last /\ (length last <= 1)%nat /\
    (NoDup (call_id <$> toolCalls m) -> u_entries (fold_left (fun u c => addReady parse h c u) (ready_calls evs) new_runner) = (fun c => (call_id c, Waiting c)) <$> ready_calls evs).
Proof.
  intros Ho Hp Hc Hg. unfold generate in Hg. rewrite Hp in Hg. destruct (aborted host 0); [done|]. destruct (aborted host 1); [done|].
  destruct (read_parts host gen_init 2 parts) as [[s check] stop] eqn:Hr. destruct stop; [done|]. cbn [orb] in Hg. destruct (aborted host check); [done|].
  destruct (read_spec host parts [] _ _ _ _ mirrors_init Hr) as [_ Hready]. specialize (Hready Ho Hc eq_refl).
  destruct (empty_response (assembled (flush_last s))); [done|]. destruct (flush_last_calls s) as (lst & El & Hl).
  assert (ready_calls evs = g_calls s /\ toolCalls m = g_calls (flush_last s)) as [E1 E2].
  { destruct (on_call host); [|by injection Hg as <- <-; rewrite flush_last_ready]. pose proof (report_ready host (g_calls (flush_last s)) (flush_last s) (S check)) as [Hrr _].
    destruct (report_calls _ _ _ _) as [s' b]. destruct b; [done|]. injection Hg as <- <-. cbn [fst] in Hrr. by rewrite Hrr, flush_last_ready. }
  exists lst. rewrite E1, E2. split; [exact El|]. split; [exact Hl|]. intros Hn. rewrite (feed_entries parse h (g_calls s) new_runner); [done|done|]. cbn [app new_runner u_entries jkeys fmap list_fmap].
  rewrite El, fmap_app in Hn. by apply NoDup_app in Hn as [Hn _].
Qed.

(** ** Concretely *)

Definition ex_stream_parts : list streamed_part :=
  [ContentPiece (TextPart (js "I will ")); ContentPiece (TextPart (js "look")); ex_header "a" 0; ex_delta "{" 0; ex_delta "}" 0; ex_header "b" 1; ex_delta "{}" 1].
Definition ex_gen_host : gen_host := GenHost true true true None.


Definition ex_idle_host : @tool_host unit := ToolHost [] (fun _ => None) None None None (fun _ w => (w, Ok tt)) (fun _ => None) (fun _ w => (w, GraceTimeout)) (fun w => w) (fun _ => O) (fun _ => []).
Definition ex_message : message :=
  Message Assistant None [TextPart (js "I will look")] [ToolCall (js "a") (js "read") (Some (js "{}")); ToolCall (js "b") (js "read") (Some (js "{}"))] None false None.

Lemma early_calls_are_final_witness : exists evs last, generate ex_gen_host (fun _ _ => Some ex_stream_parts) [] [] = (evs, Ok ex_message) /\
  toolCalls ex_message = ready_calls evs ++ last /\ (length last <= 1)%nat /\
  (NoDup (call_id <$> toolCalls ex_message) ->
    u_entries (fold_left (fun u c => addReady (fun _ => None) ex_idle_host c u) (ready_calls evs) new_runner) = (fun c => (call_id c, Waiting c)) <$> ready_calls evs).
Proof.
  set (evs := (generate ex_gen_host (fun _ _ => Some ex_stream_parts) [] []).1). assert (generate ex_gen_host (fun _ _ => Some ex_stream_parts) [] [] = (evs, Ok ex_message)) as Hg by (vm_compute; reflexivity).
  destruct (early_calls_are_final (fun _ => None) ex_idle_host ex_gen_host (fun _ _ => Some ex_stream_parts) [] [] ex_stream_parts evs ex_message eq_refl eq_refl ltac:(by vm_compute) Hg) as (lst & H).
  exists evs, lst. by split.
Defined.
