(* ===== verification/EventJournal.v ===== *)
(** The server's journal of events: [server/src/event-journal.ts]. Per session, a ring
    of the last durable events with their numbers; sessions are retained in the order of
    their last event. The journal refines a map of event lists. *)

From S2P Require Import Prelude JsMap Json JsonText.

(** * Events *)

Record event : Type := Event { ev_type : jsstr; ev_sessionId : jsstr; ev_body : json }.

Definition VOLATILE_EVENT_TYPES : list jsstr :=
  js <$> ["assistant.delta"; "thinking.delta"; "tool.call.delta"; "tool.progress"; "shell.output";
          "shell.started"; "shell.completed"; "agent.status.updated"]%string.

Definition isVolatileEventType (type : jsstr) : bool := bool_decide (type ∈ VOLATILE_EVENT_TYPES).

(** * The ring buffer *)

Record entry : Type := Entry { e_seq : Z; e_event : event }.

Record ring : Type := Ring {
  r_capacity : nat;
  r_entries : list (option entry);
  r_head : nat;
  r_size : nat;
  r_latestSeq : Z;
}.

Definition newRing (capacity : nat) : ring := Ring capacity (repeat None capacity) 0 0 0.

Definition oldestSeq (r : ring) : Z :=
  if (r_size r =? 0)%nat then 0 else r_latestSeq r - Z.of_nat (r_size r) + 1.

Definition push (seq : Z) (e : event) (r : ring) : ring :=
  if (r_size r <? r_capacity r)%nat then
    Ring (r_capacity r) (<[((r_head r + r_size r) mod r_capacity r)%nat := Some (Entry seq e)]> (r_entries r))
      (r_head r) (S (r_size r)) seq
  else
    Ring (r_capacity r) (<[r_head r := Some (Entry seq e)]> (r_entries r))
      ((r_head r + 1) mod r_capacity r)%nat (r_size r) seq.

(** The slots read; a slot never written is [undefined]. *)
Definition after (afterSeq : Z) (r : ring) : list (option entry) :=
  let start := Z.to_nat (Z.max 0 (afterSeq - oldestSeq r + 1)) in
  (fun i => mjoin (r_entries r !! ((r_head r + i) mod r_capacity r)%nat)) <$> seq start (r_size r - start).

(** * The journal *)

Record cursor : Type := Cursor { c_seq : Z; c_epoch : option jsstr }.

Inductive resync_reason : Type := EpochChanged | BufferOverflow | SessionRecreated.

Inductive replay_result : Type :=
| ReplayOk (entries : list (option entry)) (current : cursor)
| ResyncRequired (reason : resync_reason) (current : cursor).

(** [buffers] is a [Map]: least recently appended first. *)
Record journal : Type := Journal {
  j_epoch : jsstr;
  j_capacity : nat;
  j_maxSessions : nat;
  j_buffers : list (jsstr * ring);
}.

Definition newJournal (epoch : jsstr) (capacity maxSessions : Z) : journal :=
  Journal epoch (Z.to_nat (Z.max 1 capacity)) (Z.to_nat (Z.max 1 maxSessions)) [].

Definition with_buffers (j : journal) (bs : list (jsstr * ring)) : journal :=
  Journal (j_epoch j) (j_capacity j) (j_maxSessions j) bs.

Definition forgetBuffer (sid : jsstr) (j : journal) : journal := with_buffers j (jdel (j_buffers j) sid).

(** The loop that deletes the first key while there are too many. *)
Fixpoint evict {V} (max : nat) (bs : list (jsstr * V)) : list (jsstr * V) :=
  match bs with
  | [] => []
  | _ :: bs' => if (max <? length bs)%nat then evict max bs' else bs
  end.

Definition bufferFor (sid : jsstr) (j : journal) : ring * journal :=
  match jget (j_buffers j) sid with
  | Some existing => (existing, with_buffers j (jset (jdel (j_buffers j) sid) sid existing))
  | None =>
      let buffer := newRing (j_capacity j) in
      (buffer, with_buffers j (evict (j_maxSessions j) (jset (j_buffers j) sid buffer)))
  end.

(** The buffer is shared with the map, so pushing shows there. *)
Definition store_buffer (sid : jsstr) (r : ring) (j : journal) : journal :=
  if jhas (j_buffers j) sid then with_buffers j (jset (j_buffers j) sid r) else j.

Definition append (e : event) (j : journal) : option cursor * journal :=
  if isVolatileEventType (ev_type e) then (None, j)
  else
    let '(buffer, j) := bufferFor (ev_sessionId e) j in
    let seq := r_latestSeq buffer + 1 in
    (Some (Cursor seq (Some (j_epoch j))), store_buffer (ev_sessionId e) (push seq e buffer) j).

Definition cursorOf (sid : jsstr) (j : journal) : cursor :=
  Cursor (default 0 (r_latestSeq <$> jget (j_buffers j) sid)) (Some (j_epoch j)).

Definition replay (sid : jsstr) (cur : cursor) (j : journal) : replay_result :=
  let current := cursorOf sid j in
  if match c_epoch cur with Some ep => negb (bool_decide (ep = j_epoch j)) | None => false end
  then ResyncRequired EpochChanged current
  else
    match jget (j_buffers j) sid with
    | None => if 0 <? c_seq cur then ResyncRequired SessionRecreated current else ReplayOk [] current
    | Some buffer =>
        if c_seq cur <? oldestSeq buffer - 1 then ResyncRequired BufferOverflow current
        else ReplayOk (after (c_seq cur) buffer) current
    end.

(** * What the journal stands for

    Per retained session, all its durable events since its buffer was made. *)

Abbreviation histories := (list (jsstr * list event)).

Definition hist_append (max : nat) (e : event) (m : histories) : histories :=
  if isVolatileEventType (ev_type e) then m
  else
    let sid := ev_sessionId e in
    evict max (jdel m sid ++ [(sid, default [] (jget m sid) ++ [e])]).

(** Events with their numbers, the first one's being [n + 1]. *)
Fixpoint numbered (n : nat) (es : list event) : list entry :=
  match es with
  | [] => []
  | e :: es' => Entry (Z.of_nat (S n)) e :: numbered (S n) es'
  end.

Definition hist_replay (epoch : jsstr) (capacity : nat) (sid : jsstr) (cur : cursor) (m : histories) : replay_result :=
  let current := Cursor (Z.of_nat (length (default [] (jget m sid)))) (Some epoch) in
  if match c_epoch cur with Some ep => negb (bool_decide (ep = epoch)) | None => false end
  then ResyncRequired EpochChanged current
  else
    match jget m sid with
    | None => if 0 <? c_seq cur then ResyncRequired SessionRecreated current else ReplayOk [] current
    | Some h =>
        if c_seq cur <? Z.of_nat (length h - capacity) then ResyncRequired BufferOverflow current
        else let k := Z.to_nat (c_seq cur) in ReplayOk (Some <$> numbered k (drop k h)) current
    end.

(** * Laws of the ring *)

Record ring_rep (capacity : nat) (r : ring) (h : list event) : Prop := {
  rep_capacity : r_capacity r = capacity;
  rep_positive : (0 < capacity)%nat;
  rep_slots : length (r_entries r) = capacity;
  rep_head : (r_head r < capacity)%nat;
  rep_size : r_size r = Nat.min capacity (length h);
  rep_latest : r_latestSeq r = Z.of_nat (length h);
  rep_window i : (i < r_size r)%nat ->
    mjoin (r_entries r !! ((r_head r + i) mod capacity)%nat)
    = numbered 0 h !! (length h - r_size r + i)%nat;
}.

Lemma slot_index cap h i : (h < cap)%nat -> (i <= cap)%nat ->
  ((h + i) mod cap)%nat = (if decide (h + i < cap) then h + i else h + i - cap)%nat.
Proof.
  intros Hh Hi. case_decide; [by apply Nat.mod_small|]. replace (h + i)%nat with (h + i - cap + 1 * cap)%nat at 1 by lia.
  rewrite Nat.Div0.mod_add. apply Nat.mod_small. lia.
Qed.

Lemma numbered_app n a b : numbered n (a ++ b) = numbered n a ++ numbered (n + length a) b.
Proof. revert n. induction a as [|e a IH]; intros n; cbn; [by rewrite Nat.add_0_r|]. by rewrite IH, Nat.add_succ_r. Qed.

Lemma numbered_length n es : length (numbered n es) = length es.
Proof. revert n. induction es; cbn; auto. Qed.

Lemma numbered_drop n k es : drop k (numbered n es) = numbered (n + k) (drop k es).
Proof.
  revert n k. induction es as [|e es IH]; intros n [|k]; cbn; rewrite ?Nat.add_0_r; try done.
  by rewrite IH, Nat.add_succ_r.
Qed.

Lemma newRing_rep cap : (0 < cap)%nat -> ring_rep cap (newRing cap) [].
Proof.
  intros H. split; cbn; auto; [apply repeat_length|lia|]. intros i Hi. lia.
Qed.

Lemma numbered_snoc h e i : (i <= length h)%nat ->
  numbered 0 (h ++ [e]) !! i = if decide (i = length h) then Some (Entry (Z.of_nat (length h) + 1) e) else numbered 0 h !! i.
Proof.
  intros Hi. rewrite numbered_app. case_decide.
  - rewrite lookup_app_r; rewrite numbered_length; [|lia]. subst. rewrite Nat.sub_diag. cbn. do 2 f_equal. lia.
  - apply lookup_app_l. rewrite numbered_length. lia.
Qed.

Lemma push_rep cap r h e : ring_rep cap r h -> ring_rep cap (push (r_latestSeq r + 1) e r) (h ++ [e]).
Proof.
  intros [Hc Hp Hl Hh Hs Hq Hw]. unfold push. rewrite Hc.
  assert (Hlen : length (h ++ [e]) = S (length h)) by (rewrite length_app; cbn; lia).
  destruct (r_size r <? cap)%nat eqn:Hlt; [apply Nat.ltb_lt in Hlt|apply Nat.ltb_ge in Hlt];
    split; cbn; rewrite ?length_insert; try lia.
  - intros i Hi. rewrite numbered_snoc by lia. rewrite Hlen. case_decide as Hi'.
    + replace i with (r_size r) by lia. rewrite list_lookup_insert_eq by (rewrite Hl; apply Nat.mod_upper_bound; lia).
      cbn. by rewrite Hq.
    + rewrite list_lookup_insert_ne by (rewrite !slot_index by lia; repeat case_decide; lia).
      rewrite Hw by lia. by f_equal; lia.
  - apply Nat.mod_upper_bound. lia.
  - intros i Hi. rewrite numbered_snoc by lia. rewrite Hlen, Nat.Div0.add_mod_idemp_l. case_decide as Hi'.
    + replace (r_head r + 1 + i)%nat with (r_head r + cap)%nat by lia.
      rewrite slot_index, decide_False by lia. rewrite Nat.add_sub, list_lookup_insert_eq by lia. cbn. by rewrite Hq.
    + replace (r_head r + 1 + i)%nat with (r_head r + (i + 1))%nat by lia. rewrite list_lookup_insert_ne.
      2: { rewrite slot_index by lia. case_decide; lia. }
      rewrite Hw by lia. by f_equal; lia.
Qed.

Lemma after_rep cap r h n : ring_rep cap r h -> (length h - cap <= n)%nat ->
  after (Z.of_nat n) r = Some <$> numbered n (drop n h).
Proof.
  intros [Hc Hp Hl Hh Hs Hq Hw] Hn. unfold after, oldestSeq. rewrite Hc.
  set (start := Z.to_nat _).
  assert (Hstart : (r_size r - start = length h - n)%nat /\ (start < r_size r -> length h - r_size r + start = n)%nat).
  { unfold start. case_match eqn:E; [apply Nat.eqb_eq in E|apply Nat.eqb_neq in E]; lia. }
  destruct Hstart as [Hlen Hst]. clearbody start.
  pose proof (numbered_drop 0 n h) as Hd. cbn in Hd. rewrite <- Hd, Hlen.
  apply list_eq. intros i. rewrite !list_lookup_fmap, lookup_drop.
  destruct (decide (i < length h - n)%nat) as [Hi|Hi].
  - rewrite lookup_seq_lt by done. cbn. rewrite Hw by lia.
    replace (length h - r_size r + (start + i))%nat with (n + i)%nat by lia.
    destruct (lookup_lt_is_Some_2 (numbered 0 h) (n + i)) as [x Hx]; [rewrite numbered_length; lia|].
    by rewrite Hx.
  - rewrite lookup_seq_ge by lia. rewrite lookup_ge_None_2 by (rewrite numbered_length; lia). done.
Qed.

(** * The journal refines the histories *)

Lemma evict_drop {V} max (bs : list (jsstr * V)) : evict max bs = drop (length bs - max) bs.
Proof.
  induction bs as [|b bs IH]; [done|]. cbn [evict]. change (length (b :: bs)) with (S (length bs)).
  case_match eqn:E; [apply Nat.ltb_lt in E|apply Nat.ltb_ge in E].
  - rewrite IH. by replace (S (length bs) - max)%nat with (S (length bs - max)) by lia.
  - by replace (S (length bs) - max)%nat with 0%nat by lia.
Qed.

Lemma jset_absent {V} (m : list (jsstr * V)) k v : jget m k = None -> jset m k v = m ++ [(k, v)].
Proof. induction m as [|[k' v'] m IH]; cbn; [done|]. case_decide; [done|]. intros Hk. by rewrite IH. Qed.

Definition same_buffers (capacity : nat) : list (jsstr * ring) -> histories -> Prop :=
  Forall2 (fun p q => p.1 = q.1 /\ ring_rep capacity p.2 q.2).

Lemma same_get cap bs m sid : same_buffers cap bs m ->
  match jget bs sid, jget m sid with
  | Some r, Some h => ring_rep cap r h
  | None, None => True
  | _, _ => False
  end.
Proof.
  induction 1 as [|[k r] [k' h] bs m [Hk Hr] _ IH]; cbn in *; [done|]. subst k'. by case_decide.
Qed.

Lemma same_del cap bs m sid : same_buffers cap bs m -> same_buffers cap (jdel bs sid) (jdel m sid).
Proof.
  induction 1 as [|[k r] [k' h] bs m [Hk Hr] Hbs IH]; cbn in *; [constructor|]. subst k'.
  case_decide; [done|]. by constructor.
Qed.

Lemma same_snoc cap bs m sid r h : same_buffers cap bs m -> ring_rep cap r h ->
  same_buffers cap (bs ++ [(sid, r)]) (m ++ [(sid, h)]).
Proof. intros H Hr. apply Forall2_app; [done|]. by constructor; [split|constructor]. Qed.

Lemma jdel_length {V} (m : list (jsstr * V)) k : length (jdel m k) = (length m - if jhas m k then 1 else 0)%nat.
Proof.
  unfold jhas. induction m as [|[k' v'] m IH]; cbn; [done|]. case_decide; [lia|]. cbn. rewrite IH.
  destruct (jget m k) eqn:E; [|lia]. destruct m; [done|]. cbn. lia.
Qed.

Lemma del_Forall {V} (P : jsstr * V -> Prop) m k : Forall P m -> Forall P (jdel m k).
Proof. induction 1 as [|[k' v] m Hp Hm IH]; cbn; [constructor|]. case_decide; [done|]. by constructor. Qed.

Record journal_rep (epoch : jsstr) (capacity max : nat) (j : journal) (m : histories) : Prop := {
  jr_epoch : j_epoch j = epoch;
  jr_capacity : j_capacity j = capacity;
  jr_positive : (0 < capacity)%nat;
  jr_max : j_maxSessions j = max;
  jr_max_positive : (0 < max)%nat;
  jr_wf : jwf (j_buffers j);
  jr_bound : (length m <= max)%nat;
  jr_nonempty : Forall (fun p => p.2 <> []) m;
  jr_same : same_buffers capacity (j_buffers j) m;
}.

Lemma new_rep epoch capacity max :
  journal_rep epoch (Z.to_nat (Z.max 1 capacity)) (Z.to_nat (Z.max 1 max)) (newJournal epoch capacity max) [].
Proof. split; cbn; auto; try lia; [apply NoDup_nil_2|constructor..]. Qed.

Lemma forget_rep ep cap max j m sid : journal_rep ep cap max j m -> journal_rep ep cap max (forgetBuffer sid j) (jdel m sid).
Proof.
  intros []. split; cbn; auto; [by apply jwf_del| |by apply del_Forall|by apply same_del]. rewrite jdel_length. lia.
Qed.

Lemma snoc_get {V} (m : list (jsstr * V)) k v : jget m k = None -> jget (m ++ [(k, v)]) k = Some v.
Proof. intros Hk. by rewrite <- jset_absent, jget_set_eq. Qed.

Lemma snoc_set {V} (m : list (jsstr * V)) k v v' : jget m k = None -> jset (m ++ [(k, v)]) k v' = m ++ [(k, v')].
Proof.
  induction m as [|[k0 v0] m IH]; cbn; [by rewrite decide_True|]. case_decide; [done|]. intros Hk. by rewrite IH.
Qed.

Lemma drop_get {V} n (m : list (jsstr * V)) k : jget m k = None -> jget (drop n m) k = None.
Proof. rewrite !jget_None. unfold jkeys. rewrite fmap_drop. intros H Hin. apply H. rewrite <- (take_drop n (m.*1)). apply elem_of_app. by right. Qed.

(** The buffer handed out is the last one of the map, the oldest ones being dropped. *)
Lemma bufferFor_spec ep cap max j m sid : journal_rep ep cap max j m ->
  exists r, ring_rep cap r (default [] (jget m sid)) /\
    bufferFor sid j = (r, with_buffers j (drop (S (length (jdel m sid)) - max) (jdel (j_buffers j) sid) ++ [(sid, r)])).
Proof.
  intros [Hep Hcap Hpos Hmax Hmp Hwf Hb Hne Hs]. unfold bufferFor.
  pose proof (same_get _ _ _ sid Hs) as Hg. pose proof (Forall2_length _ _ _ Hs) as Hlen.
  pose proof (jdel_length m sid) as Hdl. unfold jhas in Hdl.
  destruct (jget (j_buffers j) sid) as [r|] eqn:Er, (jget m sid) as [h|] eqn:Eh; try done; cbn.
  - exists r. split; [done|]. rewrite jset_absent by (by apply jget_del_eq).
    assert (0 < length m)%nat by (destruct m; cbn; [done|lia]).
    by replace (S _ - max)%nat with 0%nat by lia.
  - exists (newRing cap). split; [by apply newRing_rep|].
    rewrite jset_absent, evict_drop, Hmax, Hcap, length_app, !jdel_notin by done. cbn.
    rewrite Hlen, drop_app_le by lia. by rewrite Nat.add_1_r.
Qed.

Lemma append_rep ep cap max j m e : journal_rep ep cap max j m ->
  journal_rep ep cap max (append e j).2 (hist_append max e m) /\
  (append e j).1 = (if isVolatileEventType (ev_type e) then None
    else Some (Cursor (Z.of_nat (S (length (default [] (jget m (ev_sessionId e)))))) (Some ep))).
Proof.
  intros Hr. unfold append, hist_append. destruct (isVolatileEventType _); [by split|].
  set (sid := ev_sessionId e). destruct (bufferFor_spec _ _ _ _ _ sid Hr) as (r & Hrep & ->).
  destruct Hr as [Hep Hcap Hpos Hmax Hmp Hwf Hb Hne Hs]. set (n := (S (length (jdel m sid)) - max)%nat).
  assert (Hno : jget (drop n (jdel (j_buffers j) sid)) sid = None) by (by apply drop_get, jget_del_eq).
  cbn. rewrite (rep_latest _ _ _ Hrep), Hep. split; [|do 3 f_equal; lia].
  unfold store_buffer, jhas. cbn. rewrite snoc_get, snoc_set by done.
  rewrite evict_drop, length_app, Nat.add_1_r. fold n. rewrite drop_app_le by lia.
  split; cbn; auto.
  - rewrite <- jset_absent by done. apply jwf_set. apply (jwf_del _ sid) in Hwf. unfold jwf, jkeys in *.
    rewrite fmap_drop. rewrite <- (take_drop n) in Hwf. by apply NoDup_app in Hwf as (_ & _ & ?).
  - rewrite length_app, length_drop. cbn. lia.
  - apply Forall_app; split; [by apply Forall_drop, del_Forall|]. constructor; [by destruct (default _ _)|constructor].
  - apply same_snoc; [by apply Forall2_drop, same_del|]. rewrite <- (rep_latest _ _ _ Hrep). by apply push_rep.
Qed.

Lemma cursorOf_rep ep cap max j m sid : journal_rep ep cap max j m ->
  cursorOf sid j = Cursor (Z.of_nat (length (default [] (jget m sid)))) (Some ep).
Proof.
  intros []. unfold cursorOf. pose proof (same_get _ _ _ sid jr_same0) as Hg. rewrite jr_epoch0.
  destruct (jget (j_buffers j) sid), (jget m sid); try done. cbn. by rewrite (rep_latest _ _ _ Hg).
Qed.

Lemma oldest_rep cap r h : ring_rep cap r h -> h <> [] -> oldestSeq r = Z.of_nat (length h - cap) + 1.
Proof.
  intros [Hc Hp _ _ Hs Hq _] Hne. unfold oldestSeq. destruct h; [done|]. cbn [length] in *.
  case_match eqn:E; [apply Nat.eqb_eq in E|]; lia.
Qed.

Inductive journal_op : Type := OpAppend (e : event) | OpForget (sid : jsstr).

Definition journal_step (j : journal) (op : journal_op) : journal :=
  match op with OpAppend e => (append e j).2 | OpForget sid => forgetBuffer sid j end.
Definition hist_step (max : nat) (m : histories) (op : journal_op) : histories :=
  match op with OpAppend e => hist_append max e m | OpForget sid => jdel m sid end.

Lemma step_rep ep cap max j m op : journal_rep ep cap max j m ->
  journal_rep ep cap max (journal_step j op) (hist_step max m op).
Proof. destruct op; cbn; intros Hr; [by apply append_rep|by apply forget_rep]. Qed.

Lemma run_rep ep cap max ops : forall j m, journal_rep ep cap max j m ->
  journal_rep ep cap max (fold_left journal_step ops j) (fold_left (hist_step max) ops m).
Proof. induction ops; cbn; intros j m Hr; [done|]. by apply IHops, step_rep. Qed.

Lemma replay_rep ep cap max j m sid cur : journal_rep ep cap max j m ->
  replay sid cur j = hist_replay ep cap sid cur m.
Proof.
  intros Hr. unfold replay, hist_replay. rewrite (cursorOf_rep _ _ _ _ _ _ Hr).
  destruct Hr as [Hep _ Hpos _ _ _ _ Hne Hs]. rewrite Hep. case_match; [done|].
  pose proof (same_get _ _ _ sid Hs) as Hg.
  destruct (jget (j_buffers j) sid) as [r|], (jget m sid) as [h|] eqn:Eh; try done.
  assert (h <> []) as Hh by (apply jget_Some_in in Eh; by apply (proj1 (Forall_forall _ _) Hne) in Eh).
  rewrite (oldest_rep _ _ _ Hg Hh). replace (_ + 1 - 1) with (Z.of_nat (length h - cap)) by lia.
  destruct (_ <? _) eqn:E; [done|]. apply Z.ltb_ge in E. f_equal.
  rewrite <- (Z2Nat.id (c_seq cur)) at 1 by lia. apply (after_rep cap); [done|lia].
Qed.

(** * Properties *)

(** The journal answers every reconnect as the full history would: whatever was
    appended and forgotten, a replay hands out exactly the events of the session with a
    greater number than the cursor's, consecutively numbered, if the ring still holds all
    of them, and a request to resync if not; and no more sessions than allowed are kept. *)
Theorem journal_refines_history ep capacity maxSessions ops sid cur :
  let cap := Z.to_nat (Z.max 1 capacity) in
  let max := Z.to_nat (Z.max 1 maxSessions) in
  let j := fold_left journal_step ops (newJournal ep capacity maxSessions) in
  let m := fold_left (hist_step max) ops [] in
  replay sid cur j = hist_replay ep cap sid cur m /\ (length (j_buffers j) <= max)%nat.
Proof.
  intros cap max j m. pose proof (run_rep ep cap max ops _ _ (new_rep ep capacity maxSessions)) as Hr.
  split; [by eapply replay_rep|]. destruct Hr as [_ _ _ _ _ _ Hb _ Hs]. apply Forall2_length in Hs. unfold j. lia.
Qed.

(** * Examples *)

Definition ex_event (sid body : string) : event := Event (js "turn.started") (js sid) (JString (js body)).
Definition ex_ops : list journal_op :=
  [OpAppend (ex_event "s" "a"); OpAppend (Event (js "assistant.delta") (js "s") JNull); OpAppend (ex_event "s" "b");
   OpAppend (ex_event "t" "x"); OpAppend (ex_event "s" "c")].
Definition ex_journal : journal := fold_left journal_step ex_ops (newJournal (js "e1") 2 2).

Example ex_replay_ok : replay (js "s") (Cursor 1 (Some (js "e1"))) ex_journal
  = ReplayOk [Some (Entry 2 (ex_event "s" "b")); Some (Entry 3 (ex_event "s" "c"))] (Cursor 3 (Some (js "e1"))).
Proof. vm_compute. reflexivity. Qed.

Example ex_replay_overflow : replay (js "s") (Cursor 0 None) ex_journal = ResyncRequired BufferOverflow (Cursor 3 (Some (js "e1"))).
Proof. vm_compute. reflexivity. Qed.

Example ex_evicted : replay (js "t") (Cursor 1 None) (journal_step ex_journal (OpAppend (ex_event "u" "y")))
  = ResyncRequired SessionRecreated (Cursor 0 (Some (js "e1"))).
Proof. vm_compute. reflexivity. Qed.

(** A session that was forgotten and used again numbers its events from one, in the same
    epoch: an old cursor is answered as if it were a new one, and the first new event is
    missed without a request to resync. *)
Example recreated_session_skips :
  let j := fold_left journal_step [OpForget (js "s"); OpAppend (ex_event "s" "d"); OpAppend (ex_event "s" "e")]
    (fold_left journal_step [OpAppend (ex_event "s" "a")] (newJournal (js "e1") 8 8)) in
  replay (js "s") (Cursor 1 (Some (js "e1"))) j
  = ReplayOk [Some (Entry 2 (ex_event "s" "e"))] (Cursor 2 (Some (js "e1"))).
Proof. vm_compute. reflexivity. Qed.
