(* ===== verification/SdkMultiplexer.v ===== *)
(** The fan-out of one core to several client connections:
    [server/src/sdk-multiplexer.ts]. Connections are object identities; what is sent to
    each is the output of an operation. With the journal of EventJournal.v a client that
    reconnects with its cursor gets every durable event once while its session is
    neither closed nor evicted. *)

From S2P Require Import Prelude JsMap Json JsonText EventJournal.

Abbreviation conn := nat.

Inductive sent : Type :=
| SentEvent (e : event) (cur : option cursor)
| SentResync (sid : jsstr) (reason : resync_reason) (currentSeq : Z) (epoch : option jsstr)
| SentNothing.

(** A [Set] of connections is a list in insertion order. *)
Record mux : Type := Mux {
  m_owners : list (jsstr * conn);
  m_subscribers : list (jsstr * list conn);
  m_journal : option journal;
}.

Definition set_add (c : conn) (cs : list conn) : list conn := if bool_decide (c ∈ cs) then cs else cs ++ [c].

Definition newMux (j : option journal) : mux := Mux [] [] j.

(** Reading the event of a missing entry throws, which ends the loop. *)
Fixpoint send_entries (c : conn) (epoch : option jsstr) (entries : list (option entry)) : list (conn * sent) :=
  match entries with
  | [] => []
  | None :: _ => [(c, SentNothing)]
  | Some n :: entries' => (c, SentEvent (e_event n) (Some (Cursor (e_seq n) epoch))) :: send_entries c epoch entries'
  end.

Definition subscribe (sid : jsstr) (c : conn) (cur : option cursor) (m : mux) : list (conn * sent) * mux :=
  let set := set_add c (default [] (jget (m_subscribers m) sid)) in
  let m' := Mux (m_owners m) (jset (m_subscribers m) sid set) (m_journal m) in
  (match cur, m_journal m with
   | Some cur, Some j =>
       match replay sid cur j with
       | ResyncRequired reason current => [(c, SentResync sid reason (c_seq current) (c_epoch current))]
       | ReplayOk entries current => send_entries c (c_epoch current) entries
       end
   | _, _ => []
   end, m').

Definition claimSession (sid : jsstr) (c : conn) (m : mux) : list (conn * sent) * mux :=
  subscribe sid c None (Mux (jset (m_owners m) sid c) (m_subscribers m) (m_journal m)).

Definition forgetSession (sid : jsstr) (m : mux) : mux :=
  Mux (jdel (m_owners m) sid) (jdel (m_subscribers m) sid) (forgetBuffer sid <$> m_journal m).

Definition releaseConnection (c : conn) (m : mux) : mux :=
  Mux (filter (fun p => p.2 <> c) (m_owners m))
    (filter (fun p => p.2 <> []) ((fun p => (p.1, filter (fun c' => c' <> c) p.2)) <$> m_subscribers m))
    (m_journal m).

Definition ownerOf (sid : jsstr) (m : mux) : option conn := jget (m_owners m) sid.

Definition emitEvent (e : event) (m : mux) : list (conn * sent) * mux :=
  let '(cur, j) := match m_journal m with
    | Some j => let '(cur, j) := append e j in (cur, Some j)
    | None => (None, None)
    end in
  ((fun c => (c, SentEvent e cur)) <$> default [] (jget (m_subscribers m) (ev_sessionId e)),
   Mux (m_owners m) (m_subscribers m) j).

(** Calls of the core to a client: to the owner of the session, or answered at once. *)
Inductive reverse_call : Type := RequestApproval | RequestQuestion | ToolCallRequest (toolCallId : jsstr).
Inductive reverse_route : Type := RouteTo (c : conn) | AnswerCancelled (feedback : jsstr) | AnswerNull | AnswerError (output : jsstr).

Definition reverseRpc (call : reverse_call) (sid : jsstr) (closed : conn -> bool) (m : mux) : reverse_route :=
  match jget (m_owners m) sid with
  | Some owner => if closed owner then
      match call with
      | RequestApproval => AnswerCancelled (js "No approval handler registered.")
      | RequestQuestion => AnswerNull
      | ToolCallRequest tid => AnswerError (js "SDK custom tool calls are not supported: " ++ tid)
      end else RouteTo owner
  | None =>
      match call with
      | RequestApproval => AnswerCancelled (js "No approval handler registered.")
      | RequestQuestion => AnswerNull
      | ToolCallRequest tid => AnswerError (js "SDK custom tool calls are not supported: " ++ tid)
      end
  end.

(** * Runs *)

Inductive mux_op : Type :=
| Emit (e : event)
| Claim (sid : jsstr) (c : conn)
| Subscribe (sid : jsstr) (c : conn) (cur : option cursor)
| ForgetSession (sid : jsstr)
| Release (c : conn).

Definition mux_step (op : mux_op) (m : mux) : list (conn * sent) * mux :=
  match op with
  | Emit e => emitEvent e m
  | Claim sid c => claimSession sid c m
  | Subscribe sid c cur => subscribe sid c cur m
  | ForgetSession sid => ([], forgetSession sid m)
  | Release c => ([], releaseConnection c m)
  end.

Fixpoint mux_run (ops : list mux_op) (m : mux) : list (conn * sent) * mux :=
  match ops with
  | [] => ([], m)
  | op :: ops' =>
      let '(out, m1) := mux_step op m in
      let '(outs, m2) := mux_run ops' m1 in (out ++ outs, m2)
  end.

(** What an operation does to the histories behind the journal. *)
Definition hist_of (max : nat) (m : histories) (op : mux_op) : histories :=
  match op with
  | Emit e => hist_append max e m
  | ForgetSession sid => jdel m sid
  | _ => m
  end.

Definition history (max : nat) (ops : list mux_op) (m : histories) : histories := fold_left (hist_of max) ops m.

Definition durable_event (sid : jsstr) (e : event) : bool :=
  bool_decide (ev_sessionId e = sid) && negb (isVolatileEventType (ev_type e)).

(** The durable events of a session that the operations emit. *)
Definition durable (sid : jsstr) (ops : list mux_op) : list event :=
  omap (fun op => match op with Emit e => if durable_event sid e then Some e else None | _ => None end) ops.

(** What a connection is sent about the numbered events of a session. *)
Inductive received : Type := Numbered (n : entry) | Restart.

Definition receives (c : conn) (sid : jsstr) (out : conn * sent) : option received :=
  if bool_decide (out.1 = c) then
    match out.2 with
    | SentEvent e (Some cur) => if bool_decide (ev_sessionId e = sid) then Some (Numbered (Entry (c_seq cur) e)) else None
    | SentResync s _ _ _ => if bool_decide (s = sid) then Some Restart else None
    | _ => None
    end
  else None.

Definition stream (c : conn) (sid : jsstr) (outs : list (conn * sent)) : list received := omap (receives c sid) outs.

(** The connection stays, the session is not forgotten, and it is not resumed again. *)
Definition steady (c : conn) (sid : jsstr) (op : mux_op) : bool :=
  match op with
  | Release c' => negb (bool_decide (c' = c))
  | ForgetSession s => negb (bool_decide (s = sid))
  | Subscribe s c' (Some _) => negb (bool_decide (s = sid) && bool_decide (c' = c))
  | _ => true
  end.

(** The sessions with durable events since the last one of [sid], that were not forgotten
    since; [None] when [sid] has no event or was forgotten. *)
Definition crowd_step (sid : jsstr) (crowd : option (list jsstr)) (op : mux_op) : option (list jsstr) :=
  match op with
  | Emit e =>
      if isVolatileEventType (ev_type e) then crowd
      else if bool_decide (ev_sessionId e = sid) then Some []
      else (fun l => if bool_decide (ev_sessionId e ∈ l) then l else l ++ [ev_sessionId e]) <$> crowd
  | ForgetSession s => if bool_decide (s = sid) then None else filter (fun x => x <> s) <$> crowd
  | _ => crowd
  end.

(** While the operations are performed there are always less than [max] of them. *)
Fixpoint uncrowded (max : nat) (sid : jsstr) (crowd : option (list jsstr)) (ops : list mux_op) : bool :=
  match ops with
  | [] => true
  | op :: ops' =>
      let crowd := crowd_step sid crowd op in
      match crowd with Some l => (length l <? max)%nat | None => true end && uncrowded max sid crowd ops'
  end.

(** * Laws *)

Definition own_events (m : histories) : Prop := Forall (fun p => Forall (fun e => ev_sessionId e = p.1) p.2) m.

Definition of_session (sid : jsstr) (m : histories) : list event := default [] (jget m sid).

Lemma keys_same cap bs m : same_buffers cap bs m -> jkeys bs = jkeys m.
Proof. unfold jkeys. induction 1 as [|p q bs m [Hk _] _ IH]; cbn; congruence. Qed.

Lemma rep_wf ep cap max j m : journal_rep ep cap max j m -> jwf m.
Proof. intros []. unfold jwf. by rewrite <- (keys_same _ _ _ jr_same). Qed.

Lemma own_of_session m sid : own_events m -> Forall (fun e => ev_sessionId e = sid) (of_session sid m).
Proof.
  intros Ho. unfold of_session. destruct (jget m sid) as [h|] eqn:E; [|constructor].
  apply jget_Some_in in E. by apply (proj1 (Forall_forall _ _) Ho) in E.
Qed.

Lemma append_own max e m : own_events m -> own_events (hist_append max e m).
Proof.
  intros Ho. unfold hist_append. case_match; [done|]. rewrite evict_drop. apply Forall_drop, Forall_app.
  split; [by apply del_Forall|]. constructor; [|constructor]. cbn. apply Forall_app. split; [by apply own_of_session|].
  by constructor; [|constructor].
Qed.

Lemma drop_get_or {V} n (m : list (jsstr * V)) k : jwf m -> jget (drop n m) k = jget m k \/ jget (drop n m) k = None.
Proof.
  intros Hw. destruct (jget (drop n m) k) as [v|] eqn:E; [left|by right].
  symmetry. apply jget_in; [done|]. apply jget_Some_in in E. rewrite <- (take_drop n m). apply elem_of_app. by right.
Qed.

Lemma snoc_get_ne {V} (m : list (jsstr * V)) k k' v : k' <> k -> jget (m ++ [(k', v)]) k = jget m k.
Proof. intros Hk. induction m as [|[k0 v0] m IH]; cbn; [by rewrite decide_False|]. by rewrite IH. Qed.

Lemma append_of_session max e m sid : (0 < max)%nat -> jwf m ->
  of_session sid (hist_append max e m) = of_session sid m ++ (if durable_event sid e then [e] else [])
  \/ durable_event sid e = false /\ of_session sid (hist_append max e m) = [].
Proof.
  intros Hm Hw. unfold hist_append, durable_event, of_session.
  destruct (isVolatileEventType _); [left; by rewrite andb_false_r, app_nil_r|]. rewrite andb_true_r.
  rewrite evict_drop, length_app, Nat.add_1_r. set (l := jdel m (ev_sessionId e)). rewrite drop_app_le by lia.
  case_bool_decide as Hs.
  - subst sid. left. by rewrite snoc_get by (by apply drop_get, jget_del_eq).
  - rewrite snoc_get_ne, app_nil_r by done.
    destruct (drop_get_or (S (length l) - max) l sid) as [-> | ->]; [by apply jwf_del|left|by right].
    unfold l. by rewrite jget_del_ne by congruence.
Qed.

Lemma durable_emit sid e : durable sid [Emit e] = if durable_event sid e then [e] else [].
Proof. cbn. by destruct (durable_event sid e). Qed.

Lemma hist_of_session max op m sid c : (0 < max)%nat -> jwf m -> steady c sid op = true ->
  of_session sid (hist_of max m op) = of_session sid m ++ durable sid [op]
  \/ durable sid [op] = [] /\ of_session sid (hist_of max m op) = [].
Proof.
  intros Hm Hw Hs. destruct op as [e| | |s|]; cbn [hist_of]; try (left; symmetry; apply app_nil_r).
  - rewrite durable_emit. destruct (append_of_session max e m sid Hm Hw) as [-> |[Hd ->]]; [by left|right].
    by rewrite Hd.
  - left. cbn in Hs |- *. rewrite app_nil_r. unfold of_session. rewrite jget_del_ne; [done|]. by case_bool_decide.
Qed.

(** The sessions behind [sid] in the order of eviction. *)
Fixpoint later {V} (sid : jsstr) (m : list (jsstr * V)) : option (list jsstr) :=
  match m with [] => None | (k, _) :: m' => if bool_decide (k = sid) then Some (jkeys m') else later sid m' end.

Lemma later_None {V} sid (m : list (jsstr * V)) : later sid m = None <-> jget m sid = None.
Proof. induction m as [|[k v] m IH]; cbn; [done|]. case_bool_decide; case_decide; done. Qed.

Lemma later_NoDup {V} sid (m : list (jsstr * V)) post : jwf m -> later sid m = Some post -> NoDup post.
Proof.
  unfold jwf. induction m as [|[k v] m IH]; cbn; [done|]. intros [_ H]%NoDup_cons. case_bool_decide; [by intros [= <-]|auto].
Qed.

Lemma later_snoc {V} sid (m : list (jsstr * V)) s v : s <> sid -> later sid (m ++ [(s, v)]) = (fun p => p ++ [s]) <$> later sid m.
Proof.
  intros Hs. induction m as [|[k w] m IH]; cbn; [by rewrite bool_decide_false|]. case_bool_decide; [|done].
  unfold jkeys. by rewrite fmap_app.
Qed.

Lemma later_snoc_eq {V} sid (m : list (jsstr * V)) v : later sid m = None -> later sid (m ++ [(sid, v)]) = Some [].
Proof. induction m as [|[k w] m IH]; cbn; [by rewrite bool_decide_true|]. case_bool_decide; [done|auto]. Qed.

Lemma later_del {V} sid (m : list (jsstr * V)) s post : jwf m -> s <> sid -> later sid (jdel m s) = Some post ->
  exists post0, later sid m = Some post0 /\ post ⊆ post0 /\ s ∉ post.
Proof.
  intros Hw Hs. induction m as [|[k v] m IH]; cbn; [done|]. apply NoDup_cons in Hw as [Hk Hw]. change (jwf m) in Hw.
  destruct (decide (k = s)) as [-> |Hks]; cbn [later].
  - rewrite bool_decide_false by done. intros Hp. exists post. split; [done|]. split; [done|].
    intros Hin. apply Hk. clear -Hp Hin. induction m as [|[k w] m IH]; cbn in *; [done|].
    case_bool_decide; [injection Hp as <-|]; cbn; apply elem_of_cons; right; [done|by apply IH].
  - case_bool_decide; [|by apply IH]. intros [= <-]. exists (jkeys m). split; [done|]. split.
    + intros x Hx. destruct (decide (x ∈ jkeys m)) as [|Hx']; [done|]. apply jget_None in Hx'.
      exfalso. revert Hx. apply jget_None. rewrite jget_del by done. by case_decide.
    + apply jget_None. by apply jget_del_eq.
Qed.

Lemma later_drop {V} sid n (m : list (jsstr * V)) : jwf m ->
  later sid (drop n m) = None \/ later sid (drop n m) = later sid m /\ jget (drop n m) sid = jget m sid.
Proof.
  revert n. induction m as [|[k v] m IH]; intros [|n] Hw; cbn; try (by left); [by right|]. apply NoDup_cons in Hw as [Hk Hw]. change (jwf m) in Hw.
  case_bool_decide as Hks; case_decide; try done; [|by apply IH]. subst k. left. apply later_None.
  destruct (drop_get_or n m sid Hw) as [-> | ->]; [|done]. by apply jget_None.
Qed.

Lemma later_kept {V} sid n (m : list (jsstr * V)) post : later sid m = Some post -> (n + length post < length m)%nat ->
  jget (drop n m) sid = jget m sid.
Proof.
  revert n. induction m as [|[k v] m IH]; intros [|n]; cbn; [done|done|done|]. case_bool_decide; case_decide; try done.
  - intros [= <-]. unfold jkeys. rewrite length_fmap. lia.
  - intros Hp Hl. apply IH; [done|lia].
Qed.

(** The crowd counts every session behind [sid]. *)
Definition crowd_rep (sid : jsstr) (m : histories) (crowd : option (list jsstr)) : Prop :=
  forall post, later sid m = Some post -> exists l, crowd = Some l /\ post ⊆ l.

Lemma crowd_add (s : jsstr) p l : p ⊆ l -> p ++ [s] ⊆ (if bool_decide (s ∈ l) then l else l ++ [s]).
Proof.
  intros Hp y [Hy|Hy%list_elem_of_singleton]%elem_of_app; case_bool_decide; subst; try done; [by apply Hp|apply elem_of_app..].
  - left. by apply Hp.
  - right. by apply list_elem_of_singleton.
Qed.

Lemma crowd_hist max sid m crowd op : (0 < max)%nat -> jwf m -> crowd_rep sid m crowd ->
  crowd_rep sid (hist_of max m op) (crowd_step sid crowd op).
Proof.
  intros Hm Hw Hc. destruct op as [e| | |s|]; cbn [hist_of crowd_step]; try exact Hc.
  - unfold hist_append. destruct (isVolatileEventType _); [done|]. intros post. rewrite evict_drop.
    set (s := ev_sessionId e). set (x := jdel m s ++ _). assert (Hwx : jwf x).
    { subst x. rewrite <- jset_absent by (by apply jget_del_eq). by apply jwf_set, jwf_del. }
    destruct (later_drop sid (length x - max) x Hwx) as [-> |[-> _]]; [done|]. subst x. case_bool_decide as Hs.
    { rewrite Hs, later_snoc_eq by (apply later_None; by apply jget_del_eq). intros [= <-]. exists []. done. }
    rewrite later_snoc by done. destruct (later sid (jdel m s)) as [p|] eqn:El; [|done]. cbn. intros [= <-].
    destruct (later_del _ _ _ _ Hw Hs El) as (p0 & E0 & Hsub & _). destruct (Hc _ E0) as (l & -> & Hl). cbn.
    eexists. split; [done|]. apply crowd_add. intros z Hz. by apply Hl, Hsub.
  - case_bool_decide as Hs; [subst; intros post; by rewrite (proj2 (later_None _ _)) by (by apply jget_del_eq)|].
    intros post Hp. destruct (later_del _ _ _ _ Hw Hs Hp) as (p0 & E0 & Hsub & Hno). destruct (Hc _ E0) as (l & -> & Hl). cbn.
    eexists. split; [done|]. intros y Hy. apply list_elem_of_filter. split; [by intros ->|auto].
Qed.

Lemma crowd_keeps max op m sid c crowd : (0 < max)%nat -> jwf m -> steady c sid op = true -> crowd_rep sid m crowd ->
  match crowd_step sid crowd op with Some l => (length l <? max)%nat | None => true end = true ->
  of_session sid (hist_of max m op) = of_session sid m ++ durable sid [op].
Proof.
  intros Hm Hw Hs Hc Hl. destruct (hist_of_session max op m sid c Hm Hw Hs) as [|[Hd He]]; [done|]. rewrite Hd, app_nil_r.
  destruct op as [e| | |s|]; cbn [hist_of crowd_step] in *; try done.
  2: { unfold of_session. rewrite jget_del_ne; [done|]. cbn in Hs. by case_bool_decide. }
  unfold hist_append in *. destruct (isVolatileEventType (ev_type e)) eqn:Ev; [done|]. set (s := ev_sessionId e) in *.
  rewrite durable_emit in Hd. unfold durable_event in Hd. rewrite Ev in Hd. fold s in Hd. destruct (decide (s = sid)) as [Es|Es]; [by rewrite bool_decide_true in Hd|].
  rewrite bool_decide_false in Hl by done. rewrite evict_drop. unfold of_session.
  destruct (later sid (jdel m s)) as [p|] eqn:El.
  2: { apply later_None in El. rewrite jget_del_ne in El by congruence.
       destruct (drop_get_or (length (jdel m s ++ [(s, default [] (jget m s) ++ [e])]) - max) (jdel m s ++ [(s, default [] (jget m s) ++ [e])]) sid) as [E|E].
       - rewrite <- jset_absent by (by apply jget_del_eq). by apply jwf_set, jwf_del.
       - rewrite E, snoc_get_ne, jget_del_ne by congruence. done.
       - by rewrite E, El. }
  pose proof (crowd_hist max sid m crowd (Emit e) Hm Hw Hc) as Hc'. cbn [hist_of crowd_step] in Hc'.
  destruct (later_del _ _ _ _ Hw Es El) as (p0 & E0 & Hsub & Hno). destruct (Hc _ E0) as (l & -> & Hpl). cbn in Hl.
  assert (Hp : (length (p ++ [s]) < max)%nat).
  { apply Nat.ltb_lt in Hl. eapply Nat.le_lt_trans; [|exact Hl]. apply NoDup_incl_length.
    - apply NoDup_ListNoDup, NoDup_app. split; [by eapply later_NoDup; [apply (jwf_del m s)|]|].
      split; [by intros y Hy ->%list_elem_of_singleton|apply NoDup_singleton].
    - intros y. rewrite <- !list_elem_of_In. apply crowd_add. intros z Hz. by apply Hpl, Hsub. }
  rewrite (later_kept sid _ _ (p ++ [s])); [|by rewrite later_snoc, El| ].
  - rewrite snoc_get_ne, jget_del_ne by congruence. done.
  - assert (length (p ++ [s]) <= length (jdel m s))%nat; [|rewrite !length_app in *; cbn in *; lia].
    clear -El. rewrite length_app. cbn. revert El. induction (jdel m s) as [|[k v] q IH]; cbn; [done|].
    case_bool_decide; [intros [= <-]; unfold jkeys; rewrite length_fmap; lia|]. intros El. specialize (IH El). lia.
Qed.

Lemma crowd_run max sid ops : forall m crowd, (0 < max)%nat -> (forall op m, jwf m -> jwf (hist_of max m op)) -> jwf m -> crowd_rep sid m crowd ->
  crowd_rep sid (history max ops m) (fold_left (crowd_step sid) ops crowd).
Proof.
  induction ops as [|op ops IH]; intros m crowd Hm Hop Hw Hc; [done|]. apply IH; [done|done|by apply Hop|by apply crowd_hist].
Qed.

Lemma hist_wf max op m : jwf m -> jwf (hist_of max m op).
Proof.
  intros Hw. destruct op as [e| | |s|]; cbn [hist_of]; try done; [|by apply jwf_del]. unfold hist_append. case_match; [done|].
  rewrite evict_drop. rewrite <- jset_absent by (by apply jget_del_eq). set (x := jset _ _ _).
  assert (Hx : jwf x) by (by apply jwf_set, jwf_del). unfold jwf, jkeys in *. rewrite fmap_drop. rewrite <- (take_drop (length x - max)) in Hx.
  by apply NoDup_app in Hx as (_ & _ & ?).
Qed.

(** Sets of connections. *)
Definition sets_ok (m : mux) : Prop := Forall (fun p => NoDup p.2) (m_subscribers m).

Definition subscribed (c : conn) (sid : jsstr) (m : mux) : Prop := c ∈ default [] (jget (m_subscribers m) sid).

Lemma set_add_NoDup c cs : NoDup cs -> NoDup (set_add c cs).
Proof.
  intros H. unfold set_add. case_bool_decide; [done|]. apply NoDup_app. split; [done|]. split; [set_solver|].
  apply NoDup_singleton.
Qed.

Lemma mux_set_add_elem c c' cs : c' ∈ set_add c cs <-> c' = c \/ c' ∈ cs.
Proof. unfold set_add. case_bool_decide; set_solver. Qed.

Lemma set_Forall {V} (P : jsstr * V -> Prop) m k v : Forall P m -> P (k, v) -> Forall P (jset m k v).
Proof.
  intros H Hv. induction H as [|[k' v'] m Hp Hm IH]; cbn; [by repeat constructor|].
  case_decide; by constructor.
Qed.

Lemma sets_get m sid : sets_ok m -> NoDup (default [] (jget (m_subscribers m) sid)).
Proof.
  intros H. destruct (jget _ sid) eqn:E; cbn; [|constructor]. apply jget_Some_in in E.
  by apply (proj1 (Forall_forall _ _) H) in E.
Qed.

Record mux_rep (ep : jsstr) (cap max : nat) (mu : mux) (m : histories) : Prop := {
  mr_journal : exists j, m_journal mu = Some j /\ journal_rep ep cap max j m;
  mr_own : own_events m;
  mr_sets : sets_ok mu;
}.

Lemma mux_rep_wf ep cap max mu m : mux_rep ep cap max mu m -> jwf m /\ (0 < max)%nat.
Proof. intros [(j & _ & Hj) _ _]. split; [by eapply rep_wf|by destruct Hj]. Qed.

Lemma subscribe_sets sid c cur mu : sets_ok mu -> sets_ok (subscribe sid c cur mu).2.
Proof. intros H. cbn. apply set_Forall; [done|]. cbn. by apply set_add_NoDup, sets_get. Qed.

Lemma step_sets op mu : sets_ok mu -> sets_ok (mux_step op mu).2.
Proof.
  intros H. destruct op as [e|s c|s c cur|s|c]; cbn [mux_step snd].
  - unfold emitEvent. destruct (m_journal mu) as [j|]; [|done]. by destruct (append e j).
  - by apply subscribe_sets.
  - by apply subscribe_sets.
  - by apply del_Forall.
  - apply Forall_forall. intros p [_ ((k & cs) & -> & Hp)%list_elem_of_fmap]%list_elem_of_filter.
    apply (proj1 (Forall_forall _ _) H) in Hp. by apply NoDup_filter.
Qed.

Lemma step_journal op mu : m_journal (mux_step op mu).2 =
  match op with
  | Emit e => (fun j => (append e j).2) <$> m_journal mu
  | ForgetSession sid => forgetBuffer sid <$> m_journal mu
  | _ => m_journal mu
  end.
Proof. destruct op; cbn; try done. unfold emitEvent. destruct (m_journal mu) as [j|]; [|done]. cbn. by destruct (append e j). Qed.

Lemma mux_step_rep ep cap max mu m op : mux_rep ep cap max mu m -> mux_rep ep cap max (mux_step op mu).2 (hist_of max m op).
Proof.
  intros [(j & Hj & Hr) Ho Hs]. split; [|by destruct op; cbn [hist_of]; [apply append_own| | |apply del_Forall|]|by apply step_sets].
  rewrite step_journal, Hj. destruct op; cbn [hist_of]; eexists; (split; [reflexivity|]); [by apply append_rep|done|done|by apply forget_rep|done].
Qed.

Lemma mux_run_rep ep cap max ops : forall mu m, mux_rep ep cap max mu m ->
  mux_rep ep cap max (mux_run ops mu).2 (history max ops m).
Proof.
  induction ops as [|op ops IH]; intros mu m Hr; [done|]. cbn. apply (mux_step_rep _ _ _ _ _ op) in Hr.
  destruct (mux_step op mu) as [out m1]. specialize (IH _ _ Hr). cbn in IH. by destruct (mux_run ops m1).
Qed.

(** ** What a connection receives *)

Lemma stream_app c sid a b : stream c sid (a ++ b) = stream c sid a ++ stream c sid b.
Proof. apply omap_app. Qed.

Lemma send_other c c' sid ep es : c' <> c -> stream c sid (send_entries c' ep es) = [].
Proof.
  intros H. induction es as [|[n|] es IH]; [done| |]; cbn; unfold receives; cbn; by rewrite bool_decide_false.
Qed.

Lemma send_numbered c sid ep n es : Forall (fun e => ev_sessionId e = sid) es ->
  stream c sid (send_entries c ep (Some <$> numbered n es)) = Numbered <$> numbered n es.
Proof.
  intros H. revert n. induction H as [|e es He _ IH]; intros n; [done|]. cbn. unfold receives at 1. cbn.
  rewrite !bool_decide_true by done. cbn. f_equal. apply IH.
Qed.

Lemma send_foreign c sid s ep n es : s <> sid -> Forall (fun e => ev_sessionId e = s) es ->
  stream c sid (send_entries c ep (Some <$> numbered n es)) = [].
Proof.
  intros Hs H. revert n. induction H as [|e es He _ IH]; intros n; [done|]. cbn. unfold receives at 1. cbn.
  rewrite bool_decide_true by done. rewrite bool_decide_false by congruence. apply IH.
Qed.

Lemma hist_replay_cases ep cap s cur m :
  (exists reason current, hist_replay ep cap s cur m = ResyncRequired reason current)
  \/ exists k current, hist_replay ep cap s cur m = ReplayOk (Some <$> numbered k (drop k (of_session s m))) current.
Proof.
  unfold hist_replay, of_session. case_match; [by left; eauto|]. destruct (jget m s) as [h|] eqn:E; cbn.
  - destruct (_ <? _); [by left; eauto|by right; eauto].
  - destruct (_ <? _); [by left; eauto|]. right. by exists 0%nat; eauto.
Qed.

Lemma subscribe_other ep cap max mu m c sid s c' cur : mux_rep ep cap max mu m -> (s = sid -> c' = c -> cur = None) ->
  stream c sid (subscribe s c' cur mu).1 = [].
Proof.
  intros [(j & Hj & Hr) Ho _] Hne. unfold subscribe. rewrite Hj. cbn. destruct cur as [cur|]; [|done].
  rewrite (replay_rep _ _ _ _ _ _ _ Hr). destruct (decide (c' = c)) as [-> |Hc].
  - assert (Hs : s <> sid) by (intros ->; by specialize (Hne eq_refl eq_refl)).
    destruct (hist_replay_cases ep cap s cur m) as [(reason & current & ->)|(k & current & ->)].
    + cbn. unfold receives. cbn. by rewrite bool_decide_true, bool_decide_false.
    + apply (send_foreign _ _ s); [done|]. by apply Forall_drop, own_of_session.
  - destruct (hist_replay _ _ _ _ _); [by apply send_other|]. cbn. unfold receives. cbn. by rewrite bool_decide_false.
Qed.

Lemma emit_stream ep cap max mu m c sid e : mux_rep ep cap max mu m -> subscribed c sid mu ->
  stream c sid (emitEvent e mu).1 = Numbered <$> numbered (length (of_session sid m)) (durable sid [Emit e]).
Proof.
  intros [(j & Hj & Hr) Ho Hs] Hin. unfold emitEvent. rewrite Hj, durable_emit.
  pose proof (append_rep _ _ _ _ _ e Hr) as [_ Hcur]. destruct (append e j) as [cur j']. cbn in Hcur. subst cur.
  pose proof (sets_get mu sid Hs) as Hnd. unfold subscribed in Hin. unfold durable_event.
  assert (Hother : forall cs cur, ev_sessionId e <> sid -> stream c sid ((fun c => (c, SentEvent e cur)) <$> cs) = []).
  { intros cs cur Hne. induction cs as [|x cs IH]; [done|]. cbn. unfold receives. cbn.
    case_bool_decide; [|done]. by destruct cur; rewrite ?bool_decide_false. }
  assert (Hvol : forall cs, stream c sid ((fun c => (c, SentEvent e None)) <$> cs) = []).
  { induction cs as [|x cs IH]; [done|]. cbn. unfold receives. cbn. by case_bool_decide. }
  case_bool_decide as Hse; [subst sid|by apply Hother]. cbn [fst andb].
  destruct (isVolatileEventType _); [by apply Hvol|]. cbn [negb].
  unfold of_session. set (cs := default [] (jget (m_subscribers mu) (ev_sessionId e))) in *.
  set (cur := Cursor _ _). clear Hother Hvol.
  assert (Hnone : forall l, c ∉ l -> stream c (ev_sessionId e) ((fun c => (c, SentEvent e (Some cur))) <$> l) = []).
  { induction l as [|x l IH]; intros Hl; [done|]. apply not_elem_of_cons in Hl as [Hx Hl]. cbn. unfold receives. cbn.
    by rewrite bool_decide_false by congruence; apply IH. }
  induction Hnd as [|x l Hx Hl IH]; [by apply elem_of_nil in Hin|]. cbn. unfold receives. cbn.
  apply elem_of_cons in Hin as [<-|Hin].
  - rewrite !bool_decide_true by done. cbn. f_equal. by apply Hnone.
  - rewrite bool_decide_false by (by intros ->). by apply IH.
Qed.

Lemma release_subscribed c c' sid mu : c' <> c -> subscribed c sid mu -> subscribed c sid (releaseConnection c' mu).
Proof.
  unfold subscribed, releaseConnection. intros Hc. cbn [m_subscribers].
  induction (m_subscribers mu) as [|[k cs] l IH]; [done|]. intros Hin. rewrite fmap_cons, filter_cons. cbn [fst snd].
  cbn [jget] in Hin. case_decide as Hk; cbn [default] in Hin.
  - subst k. assert (c ∈ filter (fun c0 => c0 <> c') cs) as Hf by (apply list_elem_of_filter; by split).
    rewrite decide_True by (intros Hnil; rewrite Hnil in Hf; by apply elem_of_nil in Hf).
    cbn [jget]. by rewrite decide_True.
  - specialize (IH Hin). case_decide; cbn [jget]; [rewrite decide_False by done|]; exact IH.
Qed.

Lemma step_subscribed c sid op mu : steady c sid op = true -> subscribed c sid mu -> subscribed c sid (mux_step op mu).2.
Proof.
  intros Hs Hin. destruct op as [e|s c'|s c' cur|s|c']; cbn [mux_step snd] in *.
  - unfold emitEvent. destruct (m_journal mu) as [j|]; [|done]. by destruct (append e j).
  - unfold subscribed in *. cbn. destruct (decide (s = sid)) as [-> |Hne]; [|by rewrite jget_set_ne by done].
    rewrite jget_set_eq. cbn. apply mux_set_add_elem. by right.
  - unfold subscribed in *. cbn. destruct (decide (s = sid)) as [-> |Hne]; [|by rewrite jget_set_ne by done].
    rewrite jget_set_eq. cbn. apply mux_set_add_elem. by right.
  - unfold subscribed in *. cbn in *. rewrite jget_del_ne; [done|]. by case_bool_decide.
  - apply release_subscribed; [|done]. cbn in Hs. by case_bool_decide.
Qed.

Lemma step_stream ep cap max mu m c sid op : mux_rep ep cap max mu m -> subscribed c sid mu -> steady c sid op = true ->
  stream c sid (mux_step op mu).1 = Numbered <$> numbered (length (of_session sid m)) (durable sid [op]).
Proof.
  intros Hr Hin Hs. destruct op as [e|s c'|s c' cur|s|c']; cbn [mux_step fst]; [by eapply emit_stream|done| |done|done].
  eapply subscribe_other; [exact Hr|]. intros -> ->. destruct cur; [|done]. cbn in Hs. by rewrite !bool_decide_true in Hs.
Qed.

Lemma durable_cons sid op ops : durable sid (op :: ops) = durable sid [op] ++ durable sid ops.
Proof. apply (omap_app _ [op] ops). Qed.

(** While less than [max] other sessions come between two of its events, a steady
    subscriber is sent them as they come. *)
Lemma run_stream ep cap max c sid ops : forall mu m crowd, mux_rep ep cap max mu m -> subscribed c sid mu ->
  Forall (fun op => steady c sid op = true) ops -> crowd_rep sid m crowd -> uncrowded max sid crowd ops = true ->
  stream c sid (mux_run ops mu).1 = Numbered <$> numbered (length (of_session sid m)) (durable sid ops).
Proof.
  induction ops as [|op ops IH]; intros mu m crowd Hr Hin Hs Hc Hu; [done|]. apply Forall_cons in Hs as [Hop Hs].
  pose proof (mux_rep_wf _ _ _ _ _ Hr) as [Hw Hm]. pose proof (mux_step_rep _ _ _ _ _ op Hr) as Hr'.
  pose proof (step_stream _ _ _ _ _ _ _ _ Hr Hin Hop) as Hstep. pose proof (step_subscribed _ _ _ _ Hop Hin) as Hin'.
  cbn [uncrowded] in Hu. apply andb_true_iff in Hu as [Hl Hu].
  pose proof (crowd_keeps max op m sid c crowd Hm Hw Hop Hc Hl) as Hnext.
  pose proof (crowd_hist max sid m crowd op Hm Hw Hc) as Hc'.
  rewrite durable_cons. cbn [mux_run]. destruct (mux_step op mu) as [out mu1]. cbn [fst snd] in *.
  specialize (IH _ _ _ Hr' Hin' Hs Hc' Hu). destruct (mux_run ops mu1) as [outs mu2]. cbn [fst] in *.
  rewrite stream_app, Hstep, IH. by rewrite numbered_app, fmap_app, Hnext, length_app.
Qed.

(** * Properties *)

Section reconnect.
Context (ep : jsstr) (capacity maxSessions : Z) (before afterwards : list mux_op) (sid : jsstr) (c : conn) (cur : cursor).
Let cap := Z.to_nat (Z.max 1 capacity).
Let max := Z.to_nat (Z.max 1 maxSessions).
Let server := (mux_run before (newMux (Some (newJournal ep capacity maxSessions)))).2.
Let seen := of_session sid (history max before []).

Lemma server_rep : mux_rep ep cap max server (history max before []).
Proof.
  apply mux_run_rep. split; [by eexists; split; [|apply new_rep]|constructor|constructor].
Qed.

(** C18. A client that reconnects misses nothing and is told nothing twice: when the
    events after its cursor are still in the ring, the replay and the live events it is
    sent from then on are the durable events of the session after the cursor, each once,
    in order, with consecutive numbers; it is never told to start over. This holds while
    nobody closes the session, the client stays and does not resume again, and less than
    the number of retained sessions have durable events between two of the session's, so
    that it is not evicted; otherwise whatever the other clients and sessions do. *)
Theorem reconnect_misses_nothing :
  match c_epoch cur with Some e => e = ep | None => True end ->
  (length seen - cap <= Z.to_nat (c_seq cur) <= length seen)%nat -> 0 <= c_seq cur ->
  Forall (fun op => steady c sid op = true) afterwards ->
  uncrowded max sid (fold_left (crowd_step sid) before None) afterwards = true ->
  let k := Z.to_nat (c_seq cur) in
  stream c sid (mux_run (Subscribe sid c (Some cur) :: afterwards) server).1
  = Numbered <$> numbered k (drop k (seen ++ durable sid afterwards)).
Proof.
  intros Hep Hk Hpos Hs Hkeep k. pose proof server_rep as Hr. set (m := history max before []) in *.
  pose proof (mux_step_rep _ _ _ _ _ (Subscribe sid c (Some cur)) Hr) as Hr'. cbn [hist_of] in Hr'.
  assert (Hrun : stream c sid (mux_run afterwards (mux_step (Subscribe sid c (Some cur)) server).2).1
    = Numbered <$> numbered (length seen) (durable sid afterwards)).
  { eapply run_stream; [exact Hr'| |done| |exact Hkeep].
    2: { apply crowd_run; [by destruct Hr as [(j & _ & []) _ _]|intros; by apply hist_wf|apply jwf_nil|done]. }
    unfold subscribed. cbn. rewrite jget_set_eq. cbn. apply mux_set_add_elem. by left. }
  cbn [mux_run]. destruct (mux_step (Subscribe sid c (Some cur)) server) as [out mu1] eqn:Hstep.
  cbn [snd] in Hrun. destruct (mux_run afterwards mu1) as [outs mu2]. cbn [fst] in *. rewrite stream_app, Hrun.
  assert (Hout : stream c sid out = Numbered <$> numbered k (drop k seen)).
  { destruct Hr as [(j & Hj & Hrep) Ho _]. cbn [mux_step] in Hstep. unfold subscribe in Hstep. rewrite Hj in Hstep.
    injection Hstep as <- _. rewrite (replay_rep _ _ _ _ _ _ _ Hrep). unfold hist_replay.
    replace (match c_epoch cur with Some _ => _ | None => _ end) with false.
    2: { destruct (c_epoch cur); [|done]. subst. by rewrite bool_decide_true. }
    pose proof (own_of_session m sid Ho) as Hf. fold seen in Hf. unfold seen, of_session in Hf, Hk |- *. fold m in Hf, Hk |- *.
    destruct (jget m sid) as [h|]; cbn in Hf, Hk |- *.
    - replace (c_seq cur <? _) with false by (symmetry; apply Z.ltb_ge; lia). by apply send_numbered, Forall_drop.
    - replace (0 <? c_seq cur) with false by (symmetry; apply Z.ltb_ge; lia). by rewrite drop_nil. }
  rewrite Hout, drop_app_le by lia. rewrite numbered_app, fmap_app, length_drop. do 3 f_equal. lia.
Qed.

End reconnect.

(** * Examples *)

Definition ex_before : list mux_op :=
  [Claim (js "s") 1%nat; Emit (ex_event "s" "a"); Emit (ex_event "s" "b"); Release 1%nat; Emit (ex_event "t" "x");
   Emit (ex_event "s" "c")].
Definition ex_after : list mux_op :=
  [Emit (Event (js "tool.progress") (js "s") JNull); Subscribe (js "s") 2%nat (Some (Cursor 0 None)); Emit (ex_event "s" "d");
   Release 2%nat; Claim (js "s") 1%nat; Emit (ex_event "s" "e")].

Lemma reconnect_misses_nothing_witness :
  stream 1%nat (js "s") (mux_run (Subscribe (js "s") 1%nat (Some (Cursor 1 (Some (js "e1")))) :: ex_after)
    (mux_run ex_before (newMux (Some (newJournal (js "e1") 2 2)))).2).1
  = Numbered <$> [Entry 2 (ex_event "s" "b"); Entry 3 (ex_event "s" "c"); Entry 4 (ex_event "s" "d"); Entry 5 (ex_event "s" "e")].
Proof.
  apply (reconnect_misses_nothing (js "e1") 2 2 ex_before ex_after (js "s") 1%nat (Cursor 1 (Some (js "e1")))).
  - reflexivity.
  - vm_compute. lia.
  - vm_compute. discriminate.
  - repeat constructor.
  - vm_compute. reflexivity.
Defined.

(** Without an owner that is still there, a call of the core is answered as cancelled. *)
Example owner_gone : reverseRpc RequestApproval (js "s") (fun _ => false) (mux_run ex_before (newMux None)).2
  = AnswerCancelled (js "No approval handler registered.").
Proof. vm_compute. reflexivity. Qed.

(** Two clients see the same event. *)
Example fan_out : (mux_run [Claim (js "s") 1%nat; Subscribe (js "s") 2%nat None; Subscribe (js "s") 1%nat None; Emit (ex_event "s" "a")]
    (newMux None)).1 = [(1%nat, SentEvent (ex_event "s" "a") None); (2%nat, SentEvent (ex_event "s" "a") None)].
Proof. vm_compute. reflexivity. Qed.
