(* ===== verification/WriteQueue.v ===== *)
(** The queue of outgoing frames of a connection: [server/src/jsonrpc/write-queue.ts].
    Adjacent pieces of one stream are folded into the last waiting frame; the loop that
    writes runs between the events of its sink. Ids in messages are primitive values:
    two objects are never the same one. *)

From S2P Require Import Prelude JsMap Json JsonText EventJournal.

(** * Merging two messages *)

Definition EVENT_NOTIFICATION : jsstr := js "event".

(** [===]; two messages share no objects. *)
Definition strict_eq (a b : option json) : bool :=
  match a, b with
  | None, None | Some JNull, Some JNull => true
  | Some (JBool x), Some (JBool y) => bool_decide (x = y)
  | Some (JNumber x), Some (JNumber y) => bool_decide (x = y)
  | Some (JString x), Some (JString y) => bool_decide (x = y)
  | _, _ => false
  end.

(** The fields of [params] when the message is an event notification. *)
Definition event_params (message : json) : option (list (jsstr * json)) :=
  if strict_eq (json_field message (js "method")) (Some (JString EVENT_NOTIFICATION)) then
    match json_field message (js "params") with
    | Some (JObject fields) => Some fields
    | Some (JArray _) => Some []
    | _ => None
    end
  else None.

Definition same_field (name : string) (a b : list (jsstr * json)) : bool := strict_eq (jget a (js name)) (jget b (js name)).

(** [typeof part === 'string'], or for an optional part also absent. *)
Definition string_field (name : string) (fields : list (jsstr * json)) : option jsstr :=
  match jget fields (js name) with Some (JString s) => Some s | _ => None end.
Definition optional_part (name : string) (fields : list (jsstr * json)) : option (option jsstr) :=
  match jget fields (js name) with Some (JString s) => Some (Some s) | None => Some None | _ => None end.

Definition tryMergeEventParams (tail next : list (jsstr * json)) : option (list (jsstr * json)) :=
  match string_field "type" tail with
  | Some type =>
      if negb (same_field "type" tail next) then None
      else if negb (isVolatileEventType type) then None
      else if negb (same_field "sessionId" tail next) || negb (same_field "agentId" tail next) then None
      else if bool_decide (type = js "assistant.delta") || bool_decide (type = js "thinking.delta") then
        if negb (same_field "turnId" tail next) then None
        else match string_field "delta" tail, string_field "delta" next with
          | Some tailDelta, Some nextDelta => Some (jset tail (js "delta") (JString (tailDelta ++ nextDelta)))
          | _, _ => None
          end
      else if bool_decide (type = js "tool.call.delta") then
        if negb (same_field "turnId" tail next) || negb (same_field "toolCallId" tail next) then None
        else match optional_part "argumentsPart" tail, optional_part "argumentsPart" next with
          | Some tailPart, Some nextPart =>
              let merged := match tailPart, nextPart with
                | None, None => tail
                | _, _ => jset tail (js "argumentsPart") (JString (default [] tailPart ++ default [] nextPart))
                end in
              Some match jget merged (js "name"), jget next (js "name") with
                | None, Some name => jset merged (js "name") name
                | _, _ => merged
                end
          | _, _ => None
          end
      else None
  | None => None
  end.

Definition tryMergeEventMessages (tail next : json) : option json :=
  match event_params tail, event_params next with
  | Some tailParams, Some nextParams =>
      (fun merged => JObject (match json_field tail (js "jsonrpc") with Some v => [(js "jsonrpc", v)] | None => [] end
        ++ [(js "method", JString EVENT_NOTIFICATION); (js "params", JObject merged)]))
      <$> tryMergeEventParams tailParams nextParams
  | _, _ => None
  end.

(** * The queue *)

(** No flush; a frame is at the sink; the loop has ended and the promise's [finally] has
    not run. *)
Inductive phase : Type := Idle | Writing | Finishing.
#[export] Instance phase_eq_dec : EqDecision phase.
Proof. solve_decision. Defined.

Record queue : Type := Queue {
  q_queue : list json;
  q_head : nat;
  q_phase : phase;
  q_sent : list json;
  q_errors : nat;
}.

Definition newQueue : queue := Queue [] 0 Idle [] 0.

Definition pendingCount (q : queue) : nat := (length (q_queue q) - q_head q)%nat.

(** The loop of [doFlush] until it awaits the sink or ends. *)
Definition pump (q : queue) : queue :=
  match q_queue q !! q_head q with
  | Some message =>
      let head := S (q_head q) in
      let '(queue, head) :=
        if (head =? length (q_queue q))%nat then ([], 0%nat)
        else if (64 <=? head)%nat && (length (q_queue q) <=? head * 2)%nat then (drop head (q_queue q), 0%nat)
        else (q_queue q, head) in
      Queue queue head Writing (q_sent q ++ [message]) (q_errors q)
  | None => Queue (q_queue q) (q_head q) Finishing (q_sent q) (q_errors q)
  end.

Definition flush (q : queue) : queue := match q_phase q with Idle => pump q | _ => q end.

Definition write (message : json) (q : queue) : queue :=
  let push := flush (Queue (q_queue q ++ [message]) (q_head q) (q_phase q) (q_sent q) (q_errors q)) in
  match last (q_queue q) with
  | Some tail =>
      match tryMergeEventMessages tail message with
      | Some merged =>
          Queue (removelast (q_queue q) ++ [merged]) (q_head q) (q_phase q) (q_sent q) (q_errors q)
      | None => push
      end
  | None => push
  end.

Inductive queue_event : Type := Write (message : json) | SinkDone | SinkFailed | Finally | Drain.

Definition queue_step (q : queue) (ev : queue_event) : queue :=
  match ev, q_phase q with
  | Write message, _ => write message q
  | SinkDone, Writing => pump q
  | SinkFailed, Writing => Queue [] 0 Finishing (q_sent q) (S (q_errors q))
  | Finally, Finishing => Queue (q_queue q) (q_head q) Idle (q_sent q) (q_errors q)
  | Drain, _ => if (length (q_queue q) =? 0)%nat && match q_phase q with Idle => true | _ => false end then q else flush q
  | _, _ => q
  end.

Definition queue_run (evs : list queue_event) (q : queue) : queue := fold_left queue_step evs q.

(** * What a client reads from frames

    A piece of a stream is read code unit by code unit, any other message as it is; the
    name of a call is the first one its stream gives. *)

Record stream_key : Type := StreamKey { k_type : jsstr; k_ids : list (option json) }.

Definition piece_of (message : json) : option (stream_key * jsstr) :=
  fields ← event_params message;
  type ← string_field "type" fields;
  let id name := jget fields (js name) in
  if bool_decide (type = js "assistant.delta") || bool_decide (type = js "thinking.delta") then
    delta ← string_field "delta" fields;
    Some (StreamKey type [id "sessionId"%string; id "agentId"%string; id "turnId"%string], delta)
  else if bool_decide (type = js "tool.call.delta") then
    part ← optional_part "argumentsPart" fields;
    Some (StreamKey type [id "sessionId"%string; id "agentId"%string; id "turnId"%string; id "toolCallId"%string], default [] part)
  else None.

Inductive atom : Type := Whole (message : json) | CodeUnit (k : stream_key) (u : N).

Definition read_message (message : json) : list atom :=
  match piece_of message with
  | Some (k, text) => CodeUnit k <$> text
  | None => [Whole message]
  end.

Definition reading (messages : list json) : list atom := mbind read_message messages.

(** The name a message gives to a call's stream. *)
Definition named (message : json) : option (stream_key * json) :=
  '(k, _) ← piece_of message;
  if bool_decide (k_type k = js "tool.call.delta") then
    fields ← event_params message;
    name ← jget fields (js "name");
    Some (k, name)
  else None.

Definition names (messages : list json) : list (stream_key * json) := omap named messages.

(** The first name given to the streams that [P] picks. *)
Definition first_name (P : stream_key -> bool) (messages : list json) : option json :=
  head (snd <$> List.filter (fun p => P p.1) (names messages)).

(** * Merging loses nothing *)

Ltac js_ne := let H := fresh in intros H; vm_compute in H; discriminate.

Lemma strict_eq_true a b : strict_eq a b = true -> a = b.
Proof.
  destruct a as [[]|], b as [[]|]; cbn; try done; intros H; by apply bool_decide_eq_true in H; subst.
Qed.

Lemma same_field_true name a b : same_field name a b = true -> jget a (js name) = jget b (js name).
Proof. apply strict_eq_true. Qed.

Definition merged_message (tail : json) (fields : list (jsstr * json)) : json :=
  JObject (match json_field tail (js "jsonrpc") with Some v => [(js "jsonrpc", v)] | None => [] end
    ++ [(js "method", JString EVENT_NOTIFICATION); (js "params", JObject fields)]).

Lemma merged_params tail fields : event_params (merged_message tail fields) = Some fields.
Proof. unfold merged_message. destruct (json_field tail _); reflexivity. Qed.

(** The same over fields. *)
Definition fields_piece (fields : list (jsstr * json)) : option (stream_key * jsstr) :=
  type ← string_field "type" fields;
  let id name := jget fields (js name) in
  if bool_decide (type = js "assistant.delta") || bool_decide (type = js "thinking.delta") then
    delta ← string_field "delta" fields;
    Some (StreamKey type [id "sessionId"%string; id "agentId"%string; id "turnId"%string], delta)
  else if bool_decide (type = js "tool.call.delta") then
    part ← optional_part "argumentsPart" fields;
    Some (StreamKey type [id "sessionId"%string; id "agentId"%string; id "turnId"%string; id "toolCallId"%string], default [] part)
  else None.

Lemma piece_of_fields m fields : event_params m = Some fields -> piece_of m = fields_piece fields.
Proof. intros H. unfold piece_of. by rewrite H. Qed.

Lemma text_piece t fields id d :
  string_field "type" fields = Some t -> (t = js "assistant.delta" \/ t = js "thinking.delta") ->
  id = [jget fields (js "sessionId"); jget fields (js "agentId"); jget fields (js "turnId")] ->
  string_field "delta" fields = Some d -> fields_piece fields = Some (StreamKey t id, d).
Proof. intros Ht Hd -> Hs. unfold fields_piece. rewrite Ht. cbn -[js]. rewrite Hs. by destruct Hd as [-> | ->]. Qed.

Lemma call_piece fields id p :
  string_field "type" fields = Some (js "tool.call.delta") ->
  id = [jget fields (js "sessionId"); jget fields (js "agentId"); jget fields (js "turnId"); jget fields (js "toolCallId")] ->
  optional_part "argumentsPart" fields = Some p -> fields_piece fields = Some (StreamKey (js "tool.call.delta") id, default [] p).
Proof. intros Ht -> Hs. unfold fields_piece. rewrite Ht. cbn -[js]. by rewrite Hs. Qed.

Definition key_name (k : stream_key) (fields : list (jsstr * json)) : option (stream_key * json) :=
  if bool_decide (k_type k = js "tool.call.delta") then pair k <$> jget fields (js "name") else None.

Lemma named_fields m fields k a : event_params m = Some fields -> fields_piece fields = Some (k, a) -> named m = key_name k fields.
Proof.
  intros Hp Hf. unfold named, key_name. rewrite (piece_of_fields _ _ Hp), Hf. cbn. case_bool_decide; [|done].
  rewrite Hp. cbn. by destruct (jget fields _).
Qed.

Lemma merge_params tail next merged : tryMergeEventParams tail next = Some merged ->
  exists k a b, fields_piece tail = Some (k, a) /\ fields_piece next = Some (k, b) /\ fields_piece merged = Some (k, a ++ b)
    /\ key_name k merged = match key_name k tail with Some n => Some n | None => key_name k next end.
Proof.
  unfold tryMergeEventParams. destruct (string_field "type" tail) as [t|] eqn:Ht; [|done].
  destruct (same_field "type" tail next) eqn:Htn; [|done]. cbn [negb].
  destruct (isVolatileEventType t); [|done]. cbn [negb].
  destruct (same_field "sessionId" tail next) eqn:Hs; [|done]. destruct (same_field "agentId" tail next) eqn:Ha; [|done].
  cbn [negb orb]. apply same_field_true in Htn, Hs, Ha.
  assert (Htn' : string_field "type" next = Some t) by (unfold string_field in *; by rewrite <- Htn).
  destruct (bool_decide (t = js "assistant.delta") || bool_decide (t = js "thinking.delta")) eqn:Hd.
  - destruct (same_field "turnId" tail next) eqn:Hu; [|done]. cbn [negb]. apply same_field_true in Hu.
    destruct (string_field "delta" tail) as [a|] eqn:Hda, (string_field "delta" next) as [b|] eqn:Hdb; try done.
    intros [= <-]. apply orb_true_iff in Hd. rewrite !bool_decide_eq_true in Hd.
    exists (StreamKey t [jget tail (js "sessionId"); jget tail (js "agentId"); jget tail (js "turnId")]), a, b.
    split; [by apply text_piece|]. split; [by apply text_piece; rewrite ?Hs, ?Ha, ?Hu|]. split.
    + apply text_piece; [|done| |by unfold string_field; rewrite jget_set_eq].
      * unfold string_field in *. by rewrite jget_set_ne by js_ne.
      * by rewrite !jget_set_ne by js_ne.
    + unfold key_name. cbn [k_type]. by destruct Hd as [-> | ->].
  - destruct (bool_decide (t = js "tool.call.delta")) eqn:Hc; [|done]. apply bool_decide_eq_true in Hc. subst t.
    destruct (same_field "turnId" tail next) eqn:Hu; [|done]. destruct (same_field "toolCallId" tail next) eqn:Hi; [|done].
    cbn [negb orb]. apply same_field_true in Hu, Hi.
    destruct (optional_part "argumentsPart" tail) as [a|] eqn:Hda, (optional_part "argumentsPart" next) as [b|] eqn:Hdb; try done.
    set (m := match a with Some _ => _ | None => _ end). intros [= <-].
    set (ids := [jget tail (js "sessionId"); jget tail (js "agentId"); jget tail (js "turnId"); jget tail (js "toolCallId")]).
    exists (StreamKey (js "tool.call.delta") ids), (default [] a), (default [] b).
    split; [by apply call_piece|]. split; [by apply call_piece; [| by unfold ids; rewrite ?Hs, ?Ha, ?Hu, ?Hi|]|].
    assert (Hm : forall n, n <> js "argumentsPart" -> jget m n = jget tail n).
    { intros n Hn. unfold m. destruct a, b; try done; by rewrite jget_set_ne. }
    assert (Hmp : optional_part "argumentsPart" m = Some (match a, b with None, None => None | _, _ => Some (default [] a ++ default [] b) end)).
    { unfold m. destruct a, b; try done; unfold optional_part; by rewrite jget_set_eq. }
    clearbody m. set (r := match jget m _ with Some _ => _ | None => _ end).
    assert (Hr : forall n, n <> js "name" -> jget r n = jget m n).
    { intros n Hn. unfold r. destruct (jget m (js "name")), (jget next (js "name")); try done. by rewrite jget_set_ne. }
    assert (Hrn : jget r (js "name") = match jget tail (js "name") with Some v => Some v | None => jget next (js "name") end).
    { unfold r. rewrite Hm by js_ne. destruct (jget tail (js "name")) eqn:E, (jget next (js "name")); rewrite ?jget_set_eq, ?Hm, ?E by js_ne; done. }
    clearbody r. split.
    + replace (default [] a ++ default [] b) with (default [] (match a, b with None, None => None | _, _ => Some (default [] a ++ default [] b) end))
        by (by destruct a, b).
      apply call_piece.
      * unfold string_field in *. by rewrite Hr, Hm by js_ne.
      * by rewrite !Hr, !Hm by js_ne.
      * unfold optional_part in *. by rewrite Hr by js_ne.
    + unfold key_name. cbn [k_type]. rewrite bool_decide_true, Hrn by done.
      by destruct (jget tail (js "name")), (jget next (js "name")).
Qed.

Lemma merge_messages tail next merged : tryMergeEventMessages tail next = Some merged ->
  exists k a b, piece_of tail = Some (k, a) /\ piece_of next = Some (k, b) /\ piece_of merged = Some (k, a ++ b)
    /\ named merged = match named tail with Some n => Some n | None => named next end
    /\ (forall n, named next = Some n -> n.1 = k) /\ (forall n, named tail = Some n -> n.1 = k).
Proof.
  unfold tryMergeEventMessages. destruct (event_params tail) as [t|] eqn:Ht, (event_params next) as [n|] eqn:Hn; try done.
  destruct (tryMergeEventParams t n) as [fields|] eqn:Hm; [|done]. intros [= <-]. fold (merged_message tail fields).
  destruct (merge_params _ _ _ Hm) as (k & a & b & Hta & Hnb & Hf & Hk). exists k, a, b.
  rewrite (piece_of_fields _ _ Ht), (piece_of_fields _ _ Hn), (piece_of_fields _ _ (merged_params tail fields)).
  rewrite (named_fields _ _ _ _ Ht Hta), (named_fields _ _ _ _ Hn Hnb), (named_fields _ _ _ _ (merged_params tail fields) Hf).
  repeat split; auto; intros p; unfold key_name; case_bool_decide; try done; destruct (jget _ _); try done; by intros [= <-].
Qed.

Lemma reading_app a b : reading (a ++ b) = reading a ++ reading b.
Proof. apply bind_app. Qed.

Lemma reading_one m : reading [m] = read_message m.
Proof. apply app_nil_r. Qed.

Lemma first_name_app P a b : first_name P (a ++ b) = match first_name P a with Some n => Some n | None => first_name P b end.
Proof.
  unfold first_name, names. rewrite omap_app, List.filter_app, fmap_app.
  by destruct (List.filter _ (omap named a)).
Qed.

(** A merged frame reads as the two frames did. *)
Lemma merged_reads tail next merged : tryMergeEventMessages tail next = Some merged ->
  reading [merged] = reading [tail; next] /\ forall P, first_name P [merged] = first_name P [tail; next].
Proof.
  intros (k & a & b & Ht & Hn & Hm & Hnm & Hkn & Hkt)%merge_messages. split.
  - change [tail; next] with ([tail] ++ [next]). rewrite reading_app, !reading_one. unfold read_message.
    rewrite Ht, Hn, Hm. apply fmap_app.
  - intros P. unfold first_name, names. cbn. rewrite Hnm.
    destruct (named tail) as [[k1 n1]|] eqn:E1, (named next) as [[k2 n2]|] eqn:E2; try done.
    specialize (Hkn _ eq_refl). specialize (Hkt _ eq_refl). cbn in *. subst k1 k2. by destruct (P k).
Qed.

(** * The queue keeps what is written *)

Definition pending (q : queue) : list json := drop (q_head q) (q_queue q).
Definition all_frames (q : queue) : list json := q_sent q ++ pending q.

Definition queue_ok (q : queue) : Prop := (q_queue q = [] /\ q_head q = 0%nat) \/ (q_head q < length (q_queue q))%nat.

Lemma pending_length q : length (pending q) = pendingCount q.
Proof. apply length_drop. Qed.

Lemma pump_spec q : queue_ok q ->
  queue_ok (pump q) /\ q_errors (pump q) = q_errors q /\
  match pending q with
  | [] => pump q = Queue (q_queue q) (q_head q) Finishing (q_sent q) (q_errors q)
  | m :: rest => q_phase (pump q) = Writing /\ q_sent (pump q) = q_sent q ++ [m] /\ pending (pump q) = rest
  end.
Proof.
  intros Hok. unfold pump, pending. destruct (q_queue q !! q_head q) as [m|] eqn:E.
  - rewrite (drop_S _ _ _ E). apply lookup_lt_Some in E. unfold queue_ok.
    destruct (S (q_head q) =? length (q_queue q))%nat eqn:El; [apply Nat.eqb_eq in El|apply Nat.eqb_neq in El].
    + cbn. repeat split; auto. by rewrite drop_ge by lia.
    + destruct (_ && _); cbn; repeat split; auto; right; [rewrite length_drop|]; lia.
  - apply lookup_ge_None_1 in E. rewrite drop_ge by done. by repeat split.
Qed.

Lemma pump_keeps q : queue_ok q -> all_frames (pump q) = all_frames q.
Proof.
  intros (_ & _ & H)%pump_spec. unfold all_frames. destruct (pending q) as [|m rest] eqn:E.
  - rewrite H. unfold pending in *. cbn. by rewrite E.
  - destruct H as (_ & -> & ->). by rewrite <- app_assoc.
Qed.

Lemma flush_ok q : queue_ok q -> queue_ok (flush q) /\ all_frames (flush q) = all_frames q.
Proof.
  intros H. unfold flush. destruct (q_phase q); [|done..]. split; [by apply pump_spec|by apply pump_keeps].
Qed.

Definition pushed (message : json) (q : queue) : queue :=
  Queue (q_queue q ++ [message]) (q_head q) (q_phase q) (q_sent q) (q_errors q).

Lemma pushed_ok m q : queue_ok q -> queue_ok (pushed m q) /\ all_frames (pushed m q) = all_frames q ++ [m].
Proof.
  intros Hok. assert (q_head q <= length (q_queue q))%nat as Hh by (destruct Hok as [[-> ->]|]; cbn; lia).
  split; [right; cbn; rewrite length_app; cbn; lia|].
  unfold all_frames, pending. cbn. by rewrite drop_app_le, app_assoc.
Qed.

(** What a write does: the frame is appended, or merged into the last waiting one. *)
Lemma write_cases m q : queue_ok q ->
  write m q = flush (pushed m q)
  \/ exists init tail merged, pending q = init ++ [tail] /\ tryMergeEventMessages tail m = Some merged /\
     queue_ok (write m q) /\ q_phase (write m q) = q_phase q /\ q_sent (write m q) = q_sent q /\ pending (write m q) = init ++ [merged].
Proof.
  intros Hok. unfold write. destruct (last (q_queue q)) as [tail|] eqn:El; [|by left].
  destruct (tryMergeEventMessages tail m) as [merged|] eqn:Em; [right|by left].
  apply last_Some in El as [l El]. assert (q_head q <= length l)%nat as Hh.
  { destruct Hok as [[Hq _]|Hlt]; [by rewrite El in Hq; destruct l|]. rewrite El, length_app in Hlt. cbn in Hlt. lia. }
  exists (drop (q_head q) l), tail, merged. unfold pending, queue_ok. cbn. rewrite El, removelast_last, !drop_app_le by lia.
  repeat split; auto. right. rewrite length_app. cbn. lia.
Qed.

Definition reads_same (a b : list json) : Prop := reading a = reading b /\ forall P, first_name P a = first_name P b.

Lemma reads_app a a' b b' : reads_same a a' -> reads_same b b' -> reads_same (a ++ b) (a' ++ b').
Proof.
  intros [H1 H2] [H3 H4]. split; [by rewrite !reading_app, H1, H3|]. intros P. by rewrite !first_name_app, H2, H4.
Qed.

Lemma reads_refl a : reads_same a a.
Proof. done. Qed.

Lemma write_keeps m q : queue_ok q -> queue_ok (write m q) /\ reads_same (all_frames (write m q)) (all_frames q ++ [m]).
Proof.
  intros Hok. destruct (write_cases m q Hok) as [-> |(init & tail & merged & Hp & Hm & Hw & _ & Hs & Hp')].
  - destruct (pushed_ok m q Hok) as [Hok' Hall]. destruct (flush_ok _ Hok') as [Hf Ha]. split; [done|]. by rewrite Ha, Hall.
  - split; [done|]. unfold all_frames. rewrite Hs, Hp, Hp', <- !app_assoc.
    apply reads_app; [apply reads_refl|]. apply reads_app; [apply reads_refl|]. by apply merged_reads.
Qed.

Definition written (evs : list queue_event) : list json := omap (fun ev => match ev with Write m => Some m | _ => None end) evs.

Definition not_failed (ev : queue_event) : Prop := ev <> SinkFailed.

Lemma step_keeps ev q : queue_ok q -> not_failed ev ->
  queue_ok (queue_step q ev) /\ reads_same (all_frames (queue_step q ev)) (all_frames q ++ written [ev]).
Proof.
  intros Hok Hf. destruct ev; cbn [written omap list_omap queue_step]; rewrite ?app_nil_r.
  - by apply write_keeps.
  - destruct (q_phase q); try done. split; [by apply pump_spec|by rewrite pump_keeps].
  - done.
  - by destruct (q_phase q).
  - destruct (_ && _); [done|]. destruct (flush_ok q Hok) as [? ->]. done.
Qed.

Lemma written_cons ev evs : written (ev :: evs) = written [ev] ++ written evs.
Proof. apply (omap_app _ [ev] evs). Qed.

Lemma run_keeps evs : forall q, queue_ok q -> Forall not_failed evs ->
  queue_ok (queue_run evs q) /\ reads_same (all_frames (queue_run evs q)) (all_frames q ++ written evs).
Proof.
  induction evs as [|ev evs IH]; intros q Hok Hf; [by rewrite app_nil_r|]. apply Forall_cons in Hf as [He Hf].
  destruct (step_keeps ev q Hok He) as [Hok' [Hr Hn]]. destruct (IH _ Hok' Hf) as [Hok'' [Hr' Hn']].
  change (queue_run (ev :: evs) q) with (queue_run evs (queue_step q ev)). split; [done|].
  rewrite written_cons. split.
  - by rewrite Hr', app_assoc, !(reading_app _ (written evs)), Hr.
  - intros P. by rewrite Hn', app_assoc, !(first_name_app _ _ (written evs)), Hn.
Qed.

(** * Delivery *)

(** No frame is written between the end of the loop and the promise's [finally]. *)
Fixpoint timely (evs : list queue_event) (q : queue) : bool :=
  match evs with
  | [] => true
  | ev :: evs' =>
      match ev, q_phase q with Write _, Finishing => false | _, _ => true end && timely evs' (queue_step q ev)
  end.

Definition quiet (q : queue) : Prop := q_phase q <> Writing -> pending q = [].

Lemma pump_quiet q : queue_ok q -> quiet (pump q).
Proof.
  intros (_ & _ & H)%pump_spec. unfold quiet. destruct (pending q) eqn:E; [by rewrite H|]. by destruct H as [-> _].
Qed.

Lemma step_quiet ev q : queue_ok q -> quiet q -> timely [ev] q = true -> quiet (queue_step q ev).
Proof.
  intros Hok Hq Ht. destruct ev as [m| | | |]; cbn [queue_step].
  - destruct (write_cases m q Hok) as [-> |(init & tail & merged & Hp & _ & _ & Hph & _ & _)].
    + unfold flush. cbn [pushed q_phase]. destruct (q_phase q) eqn:E; cbn in Ht; rewrite E in Ht; try done.
      * apply pump_quiet. by apply pushed_ok.
      * intros H. cbn in H. by rewrite E in H.
    + intros H. rewrite Hph in H. specialize (Hq H). rewrite Hq in Hp. by destruct init.
  - destruct (q_phase q) eqn:E; try done. by apply pump_quiet.
  - by destruct (q_phase q) eqn:E.
  - destruct (q_phase q) eqn:E; try done. intros _. apply Hq. by rewrite E.
  - destruct (_ && _); [done|]. unfold flush. destruct (q_phase q) eqn:E; [by apply pump_quiet|done..].
Qed.

Lemma run_quiet evs : forall q, queue_ok q -> quiet q -> Forall not_failed evs -> timely evs q = true -> quiet (queue_run evs q).
Proof.
  induction evs as [|ev evs IH]; intros q Hok Hq Hf Ht; [done|]. apply Forall_cons in Hf as [He Hf].
  cbn [timely] in Ht. apply andb_true_iff in Ht as [H1 H2]. apply IH; auto; [by apply step_keeps|].
  apply step_quiet; auto. cbn. by rewrite H1.
Qed.

(** The sink's answers empty the queue. *)
Lemma sink_drains n : forall q, queue_ok q -> q_phase q = Writing -> length (pending q) = n ->
  q_phase (queue_run (repeat SinkDone (S n)) q) = Finishing.
Proof.
  induction n as [|n IH]; intros q Hok Hp Hl.
  - cbn. rewrite Hp. destruct (pump_spec q Hok) as (_ & _ & H). apply nil_length_inv in Hl. rewrite Hl in H. by rewrite H.
  - change (queue_run (repeat SinkDone (S (S n))) q) with (queue_run (repeat SinkDone (S n)) (queue_step q SinkDone)).
    cbn [queue_step]. rewrite Hp. destruct (pump_spec q Hok) as (Hok' & _ & H).
    destruct (pending q) as [|m rest] eqn:E; [done|]. destruct H as (Hp' & _ & Hr). apply IH; auto. rewrite Hr. by injection Hl.
Qed.

Lemma sink_idle n q : q_phase q <> Writing -> queue_run (repeat SinkDone n) q = q.
Proof. intros H. induction n as [|n IH]; [done|]. cbn. by destruct (q_phase q). Qed.

Definition settle (evs : list queue_event) : list queue_event :=
  evs ++ repeat SinkDone (S (pendingCount (queue_run evs newQueue))) ++ [Finally].

Lemma sinks_timely n : forall q, timely (repeat SinkDone n) q = true.
Proof. induction n; intros q; cbn; auto. Qed.

Lemma sinks_written n : written (repeat SinkDone n) = [].
Proof. by induction n. Qed.

Lemma sinks_not_failed n : Forall not_failed (repeat SinkDone n).
Proof. apply Forall_forall. intros x Hx%list_elem_of_In%repeat_spec. by subst. Qed.

(** C19. Everything written reaches the client in order: when the sink takes its frames
    and no frame is written in the gap before the flush promise is cleared, the queue
    empties, and what was sent reads as what was written: every message other than a
    piece of a stream unchanged, every code unit of every stream in its place among
    them, and the first name each call's stream gives. *)
Theorem write_queue_delivers evs : Forall not_failed evs -> timely evs newQueue = true ->
  let q := queue_run (settle evs) newQueue in
  q_phase q = Idle /\ pendingCount q = 0%nat /\ reading (q_sent q) = reading (written evs)
  /\ forall P, first_name P (q_sent q) = first_name P (written evs).
Proof.
  intros Hf Ht q. assert (Hnew : queue_ok newQueue) by (by left).
  destruct (run_keeps evs newQueue Hnew Hf) as [Hok Hreads]. pose proof (run_quiet evs newQueue Hnew (fun _ => eq_refl) Hf Ht) as Hq.
  unfold q, settle, queue_run. rewrite !fold_left_app. fold (queue_run evs newQueue). set (q1 := queue_run evs newQueue) in *.
  fold (queue_run (repeat SinkDone (S (pendingCount q1))) q1).
  destruct (run_keeps (repeat SinkDone (S (pendingCount q1))) q1 Hok (sinks_not_failed _)) as [Hok2 Hreads2].
  rewrite sinks_written, app_nil_r in Hreads2.
  assert (Hph : q_phase (queue_run (repeat SinkDone (S (pendingCount q1))) q1) <> Writing).
  { destruct (decide (q_phase q1 = Writing)) as [E|E]; [|by rewrite sink_idle].
    rewrite (sink_drains (pendingCount q1)); auto. apply pending_length. }
  assert (Hp2 := run_quiet _ q1 Hok Hq (sinks_not_failed _) (sinks_timely _ _) Hph).
  set (q2 := queue_run _ q1) in *. cbn [fold_left queue_step].
  assert (Hall : all_frames q2 = q_sent q2) by (unfold all_frames; by rewrite Hp2, app_nil_r).
  rewrite Hall in Hreads2. destruct Hreads as [Hr Hn], Hreads2 as [Hr2 Hn2].
  assert (Hfin : queue_step q2 Finally = Queue (q_queue q2) (q_head q2) Idle (q_sent q2) (q_errors q2)).
  { unfold queue_step. destruct q2 as [qs hd [] st er]; done. }
  change (match q_phase q2 with Idle => _ | _ => _ end) with (queue_step q2 Finally). rewrite Hfin. cbn [q_phase q_sent].
  split; [done|]. split; [|split; [by rewrite Hr2, Hr|intros P; by rewrite Hn2, Hn]].
  change (pendingCount q2 = 0%nat). by rewrite <- pending_length, Hp2.
Qed.

(** * Examples *)

Definition note (fields : list (string * json)) : json :=
  JObject [(js "jsonrpc", JString (js "2.0")); (js "method", JString EVENT_NOTIFICATION);
           (js "params", JObject ((fun p => (js p.1, p.2)) <$> fields))].
Definition delta (turn text : string) : json :=
  note [("type", JString (js "assistant.delta")); ("sessionId", JString (js "s")); ("agentId", JString (js "main"));
        ("turnId", JString (js turn)); ("delta", JString (js text))]%string.
Definition call_delta (name : option string) (part : string) : json :=
  note ([("type", JString (js "tool.call.delta")); ("sessionId", JString (js "s")); ("agentId", JString (js "main"));
        ("turnId", JString (js "1")); ("toolCallId", JString (js "c")); ("argumentsPart", JString (js part))]%string
        ++ match name with Some n => [("name"%string, JString (js n))] | None => [] end).
Definition durable_note : json := note [("type"%string, JString (js "turn.ended"))].

Definition ex_events : list queue_event :=
  [Write durable_note; Write (delta "1" "a"); Write (delta "1" "b"); Write durable_note; Write (delta "1" "c"); Write (delta "2" "d");
   SinkDone; Write (call_delta None "x"); Write (call_delta (Some "Read"%string) "y")].

Example frames_merged : q_sent (queue_run (settle ex_events) newQueue)
  = [durable_note; delta "1" "ab"; durable_note; delta "1" "c"; delta "2" "d"; call_delta (Some "Read"%string) "xy"].
Proof. vm_compute. reflexivity. Qed.

Lemma write_queue_delivers_witness :
  let q := queue_run (settle ex_events) newQueue in
  q_phase q = Idle /\ pendingCount q = 0%nat /\ reading (q_sent q) = reading (written ex_events)
  /\ forall P, first_name P (q_sent q) = first_name P (written ex_events).
Proof. apply (write_queue_delivers ex_events); [by repeat constructor|vm_compute; reflexivity]. Defined.

(** A frame written after the loop has ended and before the flush promise is cleared
    starts no flush: it waits until something else is written. *)
Example written_in_the_gap :
  let q := queue_run [Write durable_note; SinkDone; Write (delta "1" "a"); Finally] newQueue in
  q_phase q = Idle /\ pendingCount q = 1%nat /\ q_sent q = [durable_note].
Proof. vm_compute. repeat split. Qed.
