(* ===== verification/JsonRpc.v ===== *)
(** The JSON-RPC connection of the server: [server/src/jsonrpc/framing.ts] (lines of an
    arbitrarily chunked text) and [server/src/jsonrpc/connection.ts] (requests in both
    directions, correlated by id). [JSON.parse] is a parameter; handlers and promises are
    outputs of the operations, and a handler's end is an operation of its own. *)

From S2P Require Import Prelude JsMap Json JsonText JsString.

(** * Framing *)

Section framing.
Context (parse : jsstr -> option json).

Record framer : Type := Framer { f_buffer : jsstr; f_ended : bool }.

Inductive framed : Type := OnFrame (message : json) | OnError (line : jsstr) | Truncated (tail : jsstr).

Definition newFramer : framer := Framer [] false.

Definition strip_cr (line : jsstr) : jsstr :=
  match last line with Some c => if (c =? 13)%N then removelast line else line | None => line end.

Definition dispatchLine (rawLine : jsstr) : list framed :=
  let line := strip_cr rawLine in
  if bool_decide (trim line = []) then []
  else match parse line with
       | Some message => [OnFrame message]
       | None => [OnError (if (200 <? length line)%nat then take 200 line ++ [8230%N] else line)]
       end.

(** The loop of [feed]; every turn takes a line off the buffer. *)
Fixpoint feed_lines (fuel : nat) (buffer : jsstr) : list framed * jsstr :=
  match fuel with
  | O => ([], buffer)
  | S fuel =>
      match break_on 10 buffer with
      | None => ([], buffer)
      | Some (line, rest) => let '(out, buffer) := feed_lines fuel rest in (dispatchLine line ++ out, buffer)
      end
  end.

Definition feed (chunk : jsstr) (f : framer) : list framed * framer :=
  if f_ended f then ([], f)
  else
    let buffer := f_buffer f ++ chunk in
    let '(out, buffer) := feed_lines (S (length buffer)) buffer in (out, Framer buffer false).

Definition end_input (f : framer) : list framed * framer :=
  if f_ended f then ([], f)
  else (if bool_decide (trim (f_buffer f) = []) then [] else [Truncated (f_buffer f)], Framer [] true).

Fixpoint feed_all (chunks : list jsstr) (f : framer) : list framed * framer :=
  match chunks with
  | [] => ([], f)
  | chunk :: chunks' =>
      let '(out, f1) := feed chunk f in let '(outs, f2) := feed_all chunks' f1 in (out ++ outs, f2)
  end.

(** ** Chunks do not matter *)

Lemma break_on_length c s a b : break_on c s = Some (a, b) -> length s = S (length a + length b).
Proof. intros [-> _]%break_on_Some. rewrite length_app. cbn. lia. Qed.

Lemma feed_lines_fuel n m : forall s, (length s < n)%nat -> (length s < m)%nat -> feed_lines n s = feed_lines m s.
Proof.
  revert m. induction n as [|n IH]; intros [|m] s Hn Hm; try lia. cbn.
  destruct (break_on 10 s) as [[a b]|] eqn:E; [|done]. apply break_on_length in E.
  by rewrite (IH m) by lia.
Qed.

Lemma feed_lines_shrinks n : forall s, (length (feed_lines n s).2 <= length s)%nat.
Proof.
  induction n as [|n IH]; intros s; cbn; [done|]. destruct (break_on 10 s) as [[x y]|] eqn:E; [|done].
  apply break_on_length in E. specialize (IH y). destruct (feed_lines n y). cbn in *. lia.
Qed.

Lemma feed_lines_rest n : forall s, (length s < n)%nat -> free 10 (feed_lines n s).2.
Proof.
  induction n as [|n IH]; intros s Hn; [lia|]. cbn. destruct (break_on 10 s) as [[a b]|] eqn:E.
  - apply break_on_length in E. specialize (IH b ltac:(lia)). by destruct (feed_lines n b).
  - by apply break_on_None.
Qed.

Lemma feed_lines_app n : forall a b, (length (a ++ b) < n)%nat ->
  feed_lines n (a ++ b) =
  (let '(out, rest) := feed_lines n a in let '(out', rest') := feed_lines n (rest ++ b) in (out ++ out', rest')).
Proof.
  induction n as [|n IH]; intros a b Hn; [lia|]. destruct (break_on 10 a) as [[l r]|] eqn:E.
  - assert (E' : break_on 10 (a ++ b) = Some (l, r ++ b)).
    { apply break_on_Some in E as [-> Hl]. rewrite <- app_assoc. by apply break_on_app. }
    pose proof (break_on_length _ _ _ _ E) as Hl. rewrite length_app in Hn.
    change (feed_lines (S n) (a ++ b)) with
      (match break_on 10 (a ++ b) with None => ([], a ++ b) | Some (line, rest) => let '(out, buffer) := feed_lines n rest in (dispatchLine line ++ out, buffer) end).
    rewrite E', IH by (rewrite length_app; lia). cbn [feed_lines]. rewrite E.
    pose proof (feed_lines_shrinks n r) as Hr. destruct (feed_lines n r) as [out rest]. cbn [snd] in Hr.
    change (match break_on 10 (rest ++ b) with Some _ => _ | None => _ end) with (feed_lines (S n) (rest ++ b)).
    rewrite (feed_lines_fuel (S n) n) by (rewrite length_app; lia).
    destruct (feed_lines n (rest ++ b)) as [o t]. by rewrite app_assoc.
  - cbn [feed_lines]. rewrite E. by destruct (break_on 10 (a ++ b)) as [[x y]|]; [destruct (feed_lines n y)|].
Qed.

Lemma feed_app f a b : feed (a ++ b) f = (let '(o1, f1) := feed a f in let '(o2, f2) := feed b f1 in (o1 ++ o2, f2)).
Proof.
  unfold feed. destruct (f_ended f) eqn:Ef; [by rewrite Ef|]. rewrite app_assoc.
  set (s := f_buffer f ++ a). rewrite (feed_lines_app _ s b) by lia.
  rewrite (feed_lines_fuel (S (length s)) (S (length (s ++ b)))) by (rewrite ?length_app; lia).
  pose proof (feed_lines_shrinks (S (length (s ++ b))) s) as Hr.
  destruct (feed_lines (S (length (s ++ b))) s) as [o1 rest]. cbn [f_ended f_buffer snd] in *.
  rewrite (feed_lines_fuel (S (length (rest ++ b))) (S (length (s ++ b)))) by (rewrite ?length_app; lia).
  by destruct (feed_lines _ (rest ++ b)).
Qed.

Lemma feed_nil f : free 10 (f_buffer f) -> feed [] f = ([], f).
Proof.
  intros Hf. unfold feed. destruct f as [b []]; cbn [f_ended f_buffer]; [done|]. rewrite app_nil_r. cbn [feed_lines].
  cbn in Hf. apply break_on_None in Hf. by rewrite Hf.
Qed.

Lemma feed_free chunk f : free 10 (f_buffer f) -> free 10 (f_buffer (feed chunk f).2).
Proof.
  intros Hf. unfold feed. destruct (f_ended f); [done|].
  pose proof (feed_lines_rest (S (length (f_buffer f ++ chunk))) (f_buffer f ++ chunk) ltac:(lia)) as Hr.
  by destruct (feed_lines _ _).
Qed.

Lemma feed_all_concat chunks : forall f, free 10 (f_buffer f) -> feed_all chunks f = feed (concat chunks) f.
Proof.
  induction chunks as [|c cs IH]; intros f Hf; [by rewrite feed_nil|]. cbn. rewrite feed_app.
  pose proof (feed_free c f Hf) as Hf'. destruct (feed c f) as [o1 f1]. by rewrite IH.
Qed.

Context (stringify : json -> jsstr).

Definition encodeJsonlFrame (message : json) : jsstr := stringify message ++ [10%N].

(** What the text of a message is: parsed back, on one line, not ending in a return. *)
Definition wire_text (message : json) : Prop :=
  parse (stringify message) = Some message /\ free 10 (stringify message) /\
  trim (stringify message) <> [] /\ last (stringify message) <> Some 13%N.

Lemma dispatch_text m : wire_text m -> dispatchLine (stringify m) = [OnFrame m].
Proof.
  intros (Hp & _ & Ht & Hl). unfold dispatchLine, strip_cr. assert (Hc : match last (stringify m) with
    | Some c => if (c =? 13)%N then removelast (stringify m) else stringify m | None => stringify m end = stringify m).
  { destruct (last _) as [c|]; [|done]. destruct (N.eqb_spec c 13); [by subst|done]. }
  rewrite Hc, bool_decide_false by done. by rewrite Hp.
Qed.

Lemma feed_frames ms : forall n, (length (mbind encodeJsonlFrame ms) < n)%nat -> Forall wire_text ms ->
  feed_lines n (mbind encodeJsonlFrame ms) = (OnFrame <$> ms, []).
Proof.
  induction ms as [|m ms IH]; intros [|n] Hn Hw; try lia; [done|]. apply Forall_cons in Hw as [Hm Hw].
  pose proof Hm as (_ & Hf & _). change (mbind encodeJsonlFrame (m :: ms)) with (encodeJsonlFrame m ++ mbind encodeJsonlFrame ms) in *.
  set (rest := mbind encodeJsonlFrame ms) in *.
  assert (He : encodeJsonlFrame m ++ rest = stringify m ++ 10%N :: rest) by (unfold encodeJsonlFrame; by rewrite <- app_assoc).
  rewrite He in Hn |- *.
  cbn [feed_lines]. rewrite break_on_app by done. rewrite length_app in Hn. cbn [length] in Hn.
  rewrite IH by (done || lia). by rewrite dispatch_text.
Qed.

(** C27. Frames survive any chunking: however the text of the messages is cut on its way,
    the reader is handed each message once, in order, reports no error, and ends with an
    empty buffer. *)
Theorem frames_survive_chunking ms chunks : Forall wire_text ms -> concat chunks = mbind encodeJsonlFrame ms ->
  feed_all chunks newFramer = (OnFrame <$> ms, newFramer).
Proof.
  intros Hw Hc. rewrite feed_all_concat by constructor. rewrite Hc. unfold feed. cbn [newFramer f_ended f_buffer app].
  by rewrite feed_frames by (done || lia).
Qed.

End framing.

(** * The connection *)

Record rpc_error : Type := RpcError { re_code : Z; re_message : jsstr; re_data : option json }.

Inductive settlement : Type := Resolved (result : option json) | RejectedRemote (error : rpc_error) | RejectedClosed (error : jsstr) | RejectedWrite.

(** [pending] is keyed by the text of an id; the running handlers are the suspended
    activations of [handleRequest]. *)
Record rpc : Type := Rpc {
  rpc_nextId : Z;
  rpc_pending : list (jsstr * jsstr);
  rpc_closedWith : option jsstr;
  rpc_requestHandlers : list jsstr;
  rpc_fallback : bool;
  rpc_notificationHandlers : list (jsstr * nat);
  rpc_closeListeners : nat;
  rpc_running : list json;
}.

Definition newRpc : rpc := Rpc 1 [] None [] false [] 0 [].

Inductive rpc_output : Type :=
| Wire (message : json)
| Settle (key : jsstr) (s : settlement)
| Refused (error : jsstr)
| CallHandler (id : json) (method : jsstr) (params : option json)
| CallListeners (method : jsstr) (count : nat) (params : option json)
| CallClose (count : nat).

Definition obj (fields : list (string * json)) : json := JObject ((fun p => (js p.1, p.2)) <$> fields).
Definition optional_field (name : string) (v : option json) : list (string * json) :=
  match v with Some v => [(name, v)] | None => [] end.

Definition VERSION : json := JString (js "2.0").
Definition INVALID_REQUEST : Z := -32600.
Definition METHOD_NOT_FOUND : Z := -32601.
Definition INTERNAL_ERROR : Z := -32603.

Definition versioned (raw : json) : bool :=
  match json_field raw (js "jsonrpc") with Some (JString v) => bool_decide (v = js "2.0") | _ => false end.

(** A string, a number or null. *)
Definition jsonRpcId (raw : json) : option json :=
  match json_field raw (js "id") with
  | Some (JString s) => Some (JString s)
  | Some (JNumber n) => Some (JNumber n)
  | Some JNull => Some JNull
  | _ => None
  end.

Definition id_key (id : json) : option jsstr :=
  match id with JString s => Some s | JNumber n => Some (string_of_int n) | _ => None end.

Definition errorObject (v : json) : option rpc_error :=
  match json_field v (js "code"), json_field v (js "message") with
  | Some (JNumber code), Some (JString message) => Some (RpcError code message (json_field v (js "data")))
  | _, _ => None
  end.

(** [jsonRpcResponseSchema]; [None] when the message does not parse. *)
Definition parse_response (raw : json) : option (json * option json * option rpc_error) :=
  if versioned raw then
    id ← jsonRpcId raw;
    match json_field raw (js "error") with
    | None => Some (id, json_field raw (js "result"), None)
    | Some e => (fun e => (id, json_field raw (js "result"), Some e)) <$> errorObject e
    end
  else None.

(** [jsonRpcRequestSchema]. *)
Definition parse_request (raw : json) : option (json * jsstr * option json) :=
  if versioned raw then
    id ← jsonRpcId raw;
    match json_field raw (js "method") with
    | Some (JString (u :: method)) => Some (id, u :: method, json_field raw (js "params"))
    | _ => None
    end
  else None.

Definition has_field (name : string) (raw : json) : bool :=
  match json_field raw (js name) with Some _ => true | None => false end.

Definition with_pending (p : list (jsstr * jsstr)) (r : rpc) : rpc :=
  Rpc (rpc_nextId r) p (rpc_closedWith r) (rpc_requestHandlers r) (rpc_fallback r) (rpc_notificationHandlers r)
    (rpc_closeListeners r) (rpc_running r).
Definition with_running (l : list json) (r : rpc) : rpc :=
  Rpc (rpc_nextId r) (rpc_pending r) (rpc_closedWith r) (rpc_requestHandlers r) (rpc_fallback r) (rpc_notificationHandlers r)
    (rpc_closeListeners r) l.

Definition request (method : jsstr) (params : option json) (throws : bool) (r : rpc) : list rpc_output * rpc :=
  match rpc_closedWith r with
  | Some error => ([Refused error], r)
  | None =>
      let id := rpc_nextId r in
      let key := string_of_int id in
      let r := Rpc (id + 1) (jset (rpc_pending r) key method) None (rpc_requestHandlers r) (rpc_fallback r)
        (rpc_notificationHandlers r) (rpc_closeListeners r) (rpc_running r) in
      let message := obj ([("jsonrpc", VERSION); ("id", JNumber id); ("method", JString method)]%string ++ optional_field "params" params) in
      if throws then ([Wire message; Settle key RejectedWrite], with_pending (jdel (rpc_pending r) key) r)
      else ([Wire message], r)
  end.

Definition notify (method : jsstr) (params : option json) (extra : list (string * json)) (r : rpc) : list rpc_output :=
  match rpc_closedWith r with
  | Some _ => []
  | None => [Wire (obj ([("jsonrpc", VERSION); ("method", JString method)]%string ++ optional_field "params" params ++ extra))]
  end.

Definition handleResponse (raw : json) (r : rpc) : list rpc_output * rpc :=
  match parse_response raw with
  | None => ([], r)
  | Some (id, result, error) =>
      match id_key id with
      | None => ([], r)
      | Some key =>
          match jget (rpc_pending r) key with
          | None => ([], r)
          | Some _ =>
              ([Settle key match error with Some e => RejectedRemote e | None => Resolved result end],
               with_pending (jdel (rpc_pending r) key) r)
          end
      end
  end.

Definition error_json (e : rpc_error) : json :=
  obj ([("code", JNumber (re_code e)); ("message", JString (re_message e))]%string ++ optional_field "data" (re_data e)).
Definition response (id : json) (body : string * json) : json := obj [("jsonrpc"%string, VERSION); ("id"%string, id); body].
Definition error_response (id : json) (e : rpc_error) : json := response id ("error"%string, error_json e).

Definition handleRequest (raw : json) (r : rpc) : list rpc_output * rpc :=
  match parse_request raw with
  | None =>
      (match jsonRpcId raw with
       | Some id => [Wire (error_response id (RpcError INVALID_REQUEST (js "Invalid JSON-RPC request") None))]
       | None => []
       end, r)
  | Some (id, method, params) =>
      if bool_decide (method ∈ rpc_requestHandlers r) || rpc_fallback r then
        ([CallHandler id method params], with_running (rpc_running r ++ [id]) r)
      else ([Wire (error_response id (RpcError METHOD_NOT_FOUND (js "Method not found: " ++ method) None))], r)
  end.

(** How a handler ends: with a value ([undefined] goes as null), a [JsonRpcError], or
    another error. *)
Inductive handler_end : Type := HandlerValue (result : option json) | HandlerRpcError (e : rpc_error) | HandlerError (message : jsstr).

Definition handlerDone (i : nat) (e : handler_end) (r : rpc) : list rpc_output * rpc :=
  match rpc_running r !! i with
  | None => ([], r)
  | Some id =>
      ([Wire match e with
        | HandlerValue result => response id ("result"%string, default JNull result)
        | HandlerRpcError e => error_response id e
        | HandlerError message => error_response id (RpcError INTERNAL_ERROR message None)
        end], with_running (delete i (rpc_running r)) r)
  end.

Definition handleNotification (raw : json) (r : rpc) : list rpc_output :=
  match json_field raw (js "method") with
  | Some (JString method) =>
      match jget (rpc_notificationHandlers r) method with
      | Some n => [CallListeners method n (json_field raw (js "params"))]
      | None => []
      end
  | _ => []
  end.

Definition handleMessage (raw : json) (r : rpc) : list rpc_output * rpc :=
  match rpc_closedWith r with
  | Some _ => ([], r)
  | None =>
      if has_field "id" raw && (has_field "result" raw || has_field "error" raw) then handleResponse raw r
      else if has_field "method" raw then
        if has_field "id" raw then handleRequest raw r else (handleNotification raw r, r)
      else ([], r)
  end.

Definition close (error : option jsstr) (r : rpc) : list rpc_output * rpc :=
  match rpc_closedWith r with
  | Some _ => ([], r)
  | None =>
      let error := default (js "JSON-RPC connection closed") error in
      (((fun p => Settle p.1 (RejectedClosed error)) <$> rpc_pending r) ++ [CallClose (rpc_closeListeners r)],
       Rpc (rpc_nextId r) [] (Some error) (rpc_requestHandlers r) (rpc_fallback r) (rpc_notificationHandlers r) 0 (rpc_running r))
  end.

Inductive rpc_op : Type :=
| Request (method : jsstr) (params : option json) (throws : bool)
| Notify (method : jsstr) (params : option json) (extra : list (string * json))
| OnRequest (method : jsstr)
| SetFallback
| OnNotification (method : jsstr)
| OnClose
| HandleMessage (raw : json)
| HandlerDone (i : nat) (e : handler_end)
| Close (error : option jsstr).

Definition rpc_step (op : rpc_op) (r : rpc) : list rpc_output * rpc :=
  match op with
  | Request method params throws => request method params throws r
  | Notify method params extra => (notify method params extra r, r)
  | OnRequest method =>
      ([], Rpc (rpc_nextId r) (rpc_pending r) (rpc_closedWith r) (method :: rpc_requestHandlers r) (rpc_fallback r)
        (rpc_notificationHandlers r) (rpc_closeListeners r) (rpc_running r))
  | SetFallback =>
      ([], Rpc (rpc_nextId r) (rpc_pending r) (rpc_closedWith r) (rpc_requestHandlers r) true
        (rpc_notificationHandlers r) (rpc_closeListeners r) (rpc_running r))
  | OnNotification method =>
      ([], Rpc (rpc_nextId r) (rpc_pending r) (rpc_closedWith r) (rpc_requestHandlers r) (rpc_fallback r)
        (jset (rpc_notificationHandlers r) method (S (default 0%nat (jget (rpc_notificationHandlers r) method))))
        (rpc_closeListeners r) (rpc_running r))
  | OnClose =>
      ([], Rpc (rpc_nextId r) (rpc_pending r) (rpc_closedWith r) (rpc_requestHandlers r) (rpc_fallback r)
        (rpc_notificationHandlers r) (S (rpc_closeListeners r)) (rpc_running r))
  | HandleMessage raw => handleMessage raw r
  | HandlerDone i e => handlerDone i e r
  | Close error => close error r
  end.

Fixpoint rpc_run (ops : list rpc_op) (r : rpc) : list rpc_output * rpc :=
  match ops with
  | [] => ([], r)
  | op :: ops' => let '(out, r1) := rpc_step op r in let '(outs, r2) := rpc_run ops' r1 in (out ++ outs, r2)
  end.

(** * Every request is settled once

    What the outputs settle and answer, and what peers have asked. *)

Definition settled (outs : list rpc_output) : list jsstr :=
  omap (fun o => match o with Settle key _ => Some key | _ => None end) outs.

Definition response_id (message : json) : option json := if has_field "method" message then None else jsonRpcId message.
Definition answered (outs : list rpc_output) : list json :=
  omap (fun o => match o with Wire message => response_id message | _ => None end) outs.

(** The id of a request the peer sends, well-formed otherwise or not. *)
Definition asks (raw : json) : option json :=
  if has_field "id" raw && (has_field "result" raw || has_field "error" raw) then None
  else if has_field "method" raw && has_field "id" raw then jsonRpcId raw else None.

Fixpoint asked (ops : list rpc_op) (r : rpc) : list json :=
  match ops with
  | [] => []
  | op :: ops' =>
      match op, rpc_closedWith r with HandleMessage raw, None => option_list (asks raw) | _, _ => [] end
      ++ asked ops' (rpc_step op r).2
  end.

(** The keys of the requests sent so far. *)
Definition issued (r : rpc) : list jsstr := string_of_int <$> seqZ 1 (rpc_nextId r - 1).

Lemma int_text_inj n m : string_of_int n = string_of_int m -> n = m.
Proof. intros H. apply (string_of_int_inj n m [] []); [done..|]. by rewrite !app_nil_r. Qed.

Lemma issued_NoDup r : NoDup (issued r).
Proof. apply NoDup_fmap_2_strong; [intros x y _ _; apply int_text_inj|apply NoDup_seqZ]. Qed.

Lemma settled_app a b : settled (a ++ b) = settled a ++ settled b.
Proof. apply omap_app. Qed.
Lemma answers_app a b : answered (a ++ b) = answered a ++ answered b.
Proof. apply omap_app. Qed.

Record rpc_ok (r : rpc) : Prop := {
  ok_next : 1 <= rpc_nextId r;
  ok_pending : Forall (fun k => k ∈ issued r) (jkeys (rpc_pending r));
  ok_closed : rpc_closedWith r <> None -> rpc_pending r = [];
  ok_running : Forall (fun id => jsonRpcId (obj [("id"%string, id)]) = Some id) (rpc_running r);
}.

Lemma request_id_answer id body : jsonRpcId (obj [("id"%string, id)]) = Some id -> body.1 = "result"%string \/ body.1 = "error"%string ->
  response_id (response id body) = Some id.
Proof. destruct body as [name v]. cbn [fst]. intros Hid [-> | ->]; exact Hid. Qed.

Lemma jsonRpcId_id raw id : jsonRpcId raw = Some id -> jsonRpcId (obj [("id"%string, id)]) = Some id.
Proof. unfold jsonRpcId at 1. destruct (json_field raw _) as [[]|]; by intros [= <-]. Qed.

Lemma parse_request_id raw id method params : parse_request raw = Some (id, method, params) -> jsonRpcId raw = Some id.
Proof.
  unfold parse_request. destruct (versioned raw); [|done]. destruct (jsonRpcId raw) as [i|]; [|done]. cbn.
  destruct (json_field raw _) as [[]|]; try done. destruct s; [done|]. by intros [= -> _ _].
Qed.

Lemma issued_succ r r' : 1 <= rpc_nextId r -> rpc_nextId r' = rpc_nextId r + 1 ->
  issued r' = issued r ++ [string_of_int (rpc_nextId r)].
Proof.
  intros H1 H. unfold issued. rewrite H. replace (rpc_nextId r + 1 - 1) with ((rpc_nextId r - 1) + 1) by lia.
  rewrite seqZ_app by lia. rewrite fmap_app.
  by replace (1 + (rpc_nextId r - 1)) with (rpc_nextId r) by lia.
Qed.

Lemma next_fresh r : rpc_ok r -> jget (rpc_pending r) (string_of_int (rpc_nextId r)) = None.
Proof.
  intros []. apply jget_None. intros Hin. apply (proj1 (Forall_forall _ _) ok_pending0) in Hin.
  unfold issued in Hin. apply list_elem_of_fmap in Hin as (i & Hi & Hs). apply int_text_inj in Hi. apply elem_of_seqZ in Hs. lia.
Qed.

Lemma issued_same r r' : rpc_nextId r' = rpc_nextId r -> issued r' = issued r.
Proof. unfold issued. by intros ->. Qed.

(** What every operation keeps: keys are settled or pending, ids answered or running. *)
Definition accounts (op : rpc_op) (r : rpc) : Prop :=
  let '(out, r') := rpc_step op r in
  rpc_ok r' /\
  (exists new, issued r' = issued r ++ new /\ settled out ++ jkeys (rpc_pending r') ≡ₚ jkeys (rpc_pending r) ++ new) /\
  answered out ++ rpc_running r' ≡ₚ rpc_running r ++ asked [op] r.

Lemma ok_del r key : rpc_ok r -> rpc_ok (with_pending (jdel (rpc_pending r) key) r).
Proof.
  intros []. split; cbn; auto.
  - apply Forall_forall. intros k Hk%jdel_elem. by apply (proj1 (Forall_forall _ _) ok_pending0).
  - intros H. by rewrite ok_closed0.
Qed.

Lemma settle_keys r key method s : jget (rpc_pending r) key = Some method ->
  settled [Settle key s] ++ jkeys (rpc_pending (with_pending (jdel (rpc_pending r) key) r)) ≡ₚ jkeys (rpc_pending r) ++ [].
Proof. intros H. rewrite app_nil_r. cbn. by rewrite (jkeys_del_perm _ _ _ H). Qed.

Lemma request_accounts method params throws r : rpc_ok r -> accounts (Request method params throws) r.
Proof.
  intros Hok. unfold accounts. cbn [rpc_step]. unfold request. destruct (rpc_closedWith r) as [error|] eqn:Hc.
  { split; [done|]. split; [exists []; by rewrite !app_nil_r|]. by rewrite app_nil_r. }
  set (key := string_of_int (rpc_nextId r)). set (r1 := Rpc _ _ _ _ _ _ _ _).
  pose proof (next_fresh _ Hok) as Hfresh. fold key in Hfresh.
  assert (Hs : jset (rpc_pending r) key method ≡ₚ (key, method) :: rpc_pending r) by (by apply jset_perm_new).
  assert (Hiss : issued r1 = issued r ++ [key]) by (apply issued_succ; [by destruct Hok|done]).
  assert (Hok1 : rpc_ok r1).
  { destruct Hok. split; [cbn [r1 rpc_nextId]; lia| |by intros []|done]. apply Forall_forall. intros k Hk. rewrite Hiss. apply elem_of_app.
    cbn [r1 rpc_pending] in Hk. rewrite (jkeys_proper _ _ Hs) in Hk. apply elem_of_cons in Hk as [-> |Hk]; [right; by left|left].
    by apply (proj1 (Forall_forall _ _) ok_pending0). }
  destruct throws.
  - split; [by apply (ok_del r1)|]. split; [exists [key]; split; [exact Hiss|]|].
    + change (settled [Wire _; Settle key RejectedWrite]) with (settled [Settle key RejectedWrite]).
      rewrite (settle_keys r1 key method) by apply jget_set_eq. rewrite app_nil_r. cbn [rpc_pending r1].
      rewrite (jkeys_proper _ _ Hs). by rewrite Permutation_app_comm.
    + by rewrite app_nil_r.
  - split; [done|]. split; [exists [key]; split; [exact Hiss|]|by rewrite app_nil_r].
    cbn [settled omap list_omap app r1 rpc_pending]. rewrite (jkeys_proper _ _ Hs). by rewrite Permutation_app_comm.
Qed.

Lemma response_accounts raw r : rpc_ok r ->
  let '(out, r') := handleResponse raw r in
  rpc_ok r' /\ issued r' = issued r /\ settled out ++ jkeys (rpc_pending r') ≡ₚ jkeys (rpc_pending r) /\
  answered out = [] /\ rpc_running r' = rpc_running r.
Proof.
  intros Hok. unfold handleResponse. destruct (parse_response raw) as [[[id result] error]|]; [|done].
  destruct (id_key id) as [key|]; [|done]. destruct (jget (rpc_pending r) key) as [m|] eqn:E; [|done].
  split; [by apply ok_del|]. split; [done|]. split; [|done].
  rewrite (settle_keys r key m) by done. by rewrite app_nil_r.
Qed.

Lemma running_ok r l : rpc_ok r -> Forall (fun id => jsonRpcId (obj [("id"%string, id)]) = Some id) l -> rpc_ok (with_running l r).
Proof. intros [] Hl. by split. Qed.

Lemma handle_accounts raw r : rpc_ok r -> accounts (HandleMessage raw) r.
Proof.
  intros Hok. unfold accounts. cbn [rpc_step]. unfold handleMessage, asked. destruct (rpc_closedWith r) eqn:Hc; cbn [app].
  { split; [done|]. split; [exists []; by rewrite !app_nil_r|]. by rewrite app_nil_r. }
  rewrite app_nil_r. unfold asks. destruct (has_field "id" raw && _) eqn:Hr.
  { pose proof (response_accounts raw r Hok) as H. destruct (handleResponse raw r) as [out r'].
    destruct H as (H1 & H2 & H3 & H4 & H5). split; [done|]. split; [exists []; by rewrite !app_nil_r|].
    by rewrite H4, H5, app_nil_r. }
  destruct (has_field "method" raw); cbn [andb].
  2: { split; [done|]. split; [exists []; by rewrite !app_nil_r|]. by rewrite app_nil_r. }
  destruct (has_field "id" raw).
  2: { split; [done|]. unfold handleNotification.
    destruct (json_field raw (js "method")) as [[]|]; try destruct (jget _ _);
      (split; [exists []; by rewrite !app_nil_r|by rewrite app_nil_r]). }
  unfold handleRequest. destruct (parse_request raw) as [[[id method] params]|] eqn:Hp.
  - apply parse_request_id in Hp. pose proof (jsonRpcId_id _ _ Hp) as Hid. rewrite Hp. destruct (bool_decide _ || rpc_fallback r).
    + split; [|split; [exists []; by rewrite !app_nil_r|done]]. apply running_ok; [done|]. apply Forall_app.
      split; [by destruct Hok|by constructor].
    + split; [done|]. split; [exists []; by rewrite !app_nil_r|]. cbn [answered omap list_omap].
      unfold error_response. rewrite request_id_answer by auto. by rewrite (Permutation_app_comm _ (rpc_running r)).
  - split; [done|]. split; [exists []; split; [by rewrite app_nil_r|by destruct (jsonRpcId raw); rewrite app_nil_r]|].
    destruct (jsonRpcId raw) as [id|] eqn:E; [|by rewrite app_nil_r]. cbn [answered omap list_omap].
    unfold error_response. rewrite request_id_answer by eauto using jsonRpcId_id.
    by rewrite (Permutation_app_comm _ (rpc_running r)).
Qed.

Lemma done_accounts i e r : rpc_ok r -> accounts (HandlerDone i e) r.
Proof.
  intros Hok. unfold accounts. cbn [rpc_step asked app]. unfold handlerDone. destruct (rpc_running r !! i) as [id|] eqn:E.
  - assert (Hid : jsonRpcId (obj [("id"%string, id)]) = Some id).
    { destruct Hok. apply list_elem_of_lookup_2 in E. by apply (proj1 (Forall_forall _ _) ok_running0). }
    split; [apply running_ok; [done|]; destruct Hok; by apply Forall_delete|].
    split; [exists []; by rewrite !app_nil_r|]. rewrite app_nil_r. cbn [rpc_running with_running].
    assert (Ha : forall o, response_id o = Some id -> answered [Wire o] = [id]) by (intros o Ho; cbn; by rewrite Ho).
    rewrite Ha; [symmetry; by apply (delete_Permutation _ i)|]. destruct e; apply request_id_answer; auto.
  - split; [done|]. split; [exists []; by rewrite !app_nil_r|]. by rewrite app_nil_r.
Qed.

Lemma close_accounts error r : rpc_ok r -> accounts (Close error) r.
Proof.
  intros Hok. unfold accounts. cbn [rpc_step asked app]. unfold close. destruct (rpc_closedWith r) eqn:Hc.
  { split; [done|]. split; [exists []; by rewrite !app_nil_r|]. by rewrite app_nil_r. }
  assert (Hs : forall e (p : list (jsstr * jsstr)), settled ((fun p => Settle p.1 (RejectedClosed e)) <$> p) = jkeys p
    /\ answered ((fun p => Settle p.1 (RejectedClosed e)) <$> p) = []).
  { intros e p. induction p as [|[k m] p [IH1 IH2]]; [done|]. cbn. split; [by f_equal|done]. }
  split; [by destruct Hok; split|]. rewrite settled_app, answers_app, (proj1 (Hs _ _)), (proj2 (Hs _ _)).
  change (settled [CallClose _]) with (@nil jsstr). change (answered [CallClose _]) with (@nil json).
  split; [exists []; by rewrite !app_nil_r|]. by rewrite !app_nil_r.
Qed.

Lemma step_accounts op r : rpc_ok r -> accounts op r.
Proof.
  intros Hok. destruct op as [m p t|m p ex|m| |m| |raw|i e|err].
  - by apply request_accounts.
  - unfold accounts. cbn [rpc_step asked app]. split; [done|]. unfold notify.
    destruct (rpc_closedWith r); (split; [exists []; by rewrite !app_nil_r|by rewrite app_nil_r]).
  - destruct Hok. split; [by split|]. split; [exists []; by rewrite !app_nil_r|by rewrite app_nil_r].
  - destruct Hok. split; [by split|]. split; [exists []; by rewrite !app_nil_r|by rewrite app_nil_r].
  - destruct Hok. split; [by split|]. split; [exists []; by rewrite !app_nil_r|by rewrite app_nil_r].
  - destruct Hok. split; [by split|]. split; [exists []; by rewrite !app_nil_r|by rewrite app_nil_r].
  - by apply handle_accounts.
  - by apply done_accounts.
  - by apply close_accounts.
Qed.

Lemma asked_cons op ops r : asked (op :: ops) r = asked [op] r ++ asked ops (rpc_step op r).2.
Proof. cbn. by rewrite app_nil_r. Qed.

Lemma run_accounts ops : forall r, rpc_ok r ->
  let '(outs, r') := rpc_run ops r in
  rpc_ok r' /\
  (exists new, issued r' = issued r ++ new /\ settled outs ++ jkeys (rpc_pending r') ≡ₚ jkeys (rpc_pending r) ++ new) /\
  answered outs ++ rpc_running r' ≡ₚ rpc_running r ++ asked ops r.
Proof.
  induction ops as [|op ops IH]; intros r Hok.
  { split; [done|]. split; [exists []; by rewrite !app_nil_r|]. by rewrite app_nil_r. }
  pose proof (step_accounts op r Hok) as Hs. unfold accounts in Hs. rewrite asked_cons. cbn [rpc_run].
  destruct (rpc_step op r) as [out r1]. cbn [snd]. destruct Hs as (Hok1 & (new & Hi & Hk) & Ha).
  specialize (IH r1 Hok1). destruct (rpc_run ops r1) as [outs r2]. destruct IH as (Hok2 & (new2 & Hi2 & Hk2) & Ha2).
  split; [done|]. split.
  - exists (new ++ new2). split; [by rewrite Hi2, Hi, app_assoc|].
    by rewrite settled_app, <- app_assoc, Hk2, app_assoc, Hk, app_assoc.
  - by rewrite answers_app, <- app_assoc, Ha2, app_assoc, Ha, app_assoc.
Qed.

Lemma newRpc_ok : rpc_ok newRpc.
Proof. split; [done|constructor|done|constructor]. Qed.

(** C20. Nothing waits forever and nothing is answered twice: at every point of a
    connection's life its own requests, whose ids differ, are each either pending or
    settled once (by the response with their id, by a failed write or by the close), and
    after the close none is pending; and each request a peer sends while the connection
    is open is either being handled or has been answered once, with its id. *)
Theorem requests_settle_once ops :
  let '(outs, r) := rpc_run ops newRpc in
  settled outs ++ jkeys (rpc_pending r) ≡ₚ issued r /\ NoDup (issued r) /\
  (rpc_closedWith r <> None -> rpc_pending r = []) /\
  answered outs ++ rpc_running r ≡ₚ asked ops newRpc.
Proof.
  pose proof (run_accounts ops newRpc newRpc_ok) as H. destruct (rpc_run ops newRpc) as [outs r].
  destruct H as (Hok & (new & Hi & Hk) & Ha). split; [by rewrite Hk, Hi|]. split; [apply issued_NoDup|].
  split; [by destruct Hok|done].
Qed.

(** * Examples *)

Definition ex_request (id : json) (method : string) : json :=
  obj [("jsonrpc", VERSION); ("id", id); ("method", JString (js method))]%string.
Definition ex_response (id : json) (v : json) : json := response id ("result"%string, v).

Example out_of_order : (rpc_run [Request (js "a") None false; Request (js "b") None false; HandleMessage (ex_response (JNumber 2) JNull);
    HandleMessage (ex_response (JNumber 2) JNull); Close None] newRpc).1
  = [Wire (ex_request (JNumber 1) "a"); Wire (ex_request (JNumber 2) "b"); Settle (js "2") (Resolved (Some JNull));
     Settle (js "1") (RejectedClosed (js "JSON-RPC connection closed")); CallClose 0].
Proof. vm_compute. reflexivity. Qed.

Example handled : (rpc_run [OnRequest (js "a"); HandleMessage (ex_request (JString (js "x")) "a"); HandleMessage (ex_request (JNumber 7) "b");
    HandlerDone 0 (HandlerValue None)] newRpc).1
  = [CallHandler (JString (js "x")) (js "a") None;
     Wire (error_response (JNumber 7) (RpcError METHOD_NOT_FOUND (js "Method not found: b") None));
     Wire (response (JString (js "x")) ("result"%string, JNull))].
Proof. vm_compute. reflexivity. Qed.

(** A concrete pair of a writer and a reader of messages, for strings of letters. *)
Definition ex_text (m : json) : jsstr := match m with JString s => 34%N :: s ++ [34%N] | _ => [] end.
Definition ex_parse (s : jsstr) : option json :=
  match s with 34%N :: s' => Some (JString (removelast s')) | _ => None end.

Lemma frames_survive_chunking_witness :
  feed_all ex_parse [js "a"; js "bc"; [34; 10]%N; [34%N]; js "d"; [34; 10]%N] (Framer [34%N] false)
  = (OnFrame <$> [JString (js "abc"); JString (js "d")], newFramer) /\
  feed_all ex_parse [[34%N]; js "abc"; [34; 10; 34]%N ++ js "d"; []; [34; 10]%N] newFramer
  = (OnFrame <$> [JString (js "abc"); JString (js "d")], newFramer).
Proof.
  split; [vm_compute; reflexivity|].
  apply (frames_survive_chunking ex_parse ex_text [JString (js "abc"); JString (js "d")]); [|vm_compute; reflexivity].
  repeat constructor; vm_compute; try reflexivity; try discriminate; repeat constructor; discriminate.
Defined.
