(* ===== verification/ToolDedup.v ===== *)
(** Repeated tool calls of one turn: [agent/turn/tool-dedup.ts]. Calls equal up to the
    order of their arguments' fields share one execution per step; repeats over steps,
    repeated failures, blocked steps and repeated writes are answered with directives and
    at last stop the turn. Keys are the sorted texts of JsonText.v. *)

From S2P Require Import Prelude JsMap Json JsonText JsString Messages ContextMemory ToolScheduler ToolCalls.

(** * Constants and texts *)

Definition REPEAT_REMINDER_1_START : nat := 3.
Definition REPEAT_REMINDER_2_START : nat := 5.
Definition REPEAT_REMINDER_3_START : nat := 8.
Definition REPEAT_FORCE_STOP_STREAK : nat := 12.
Definition STORM_BREAK_THRESHOLD : nat := 3.
Definition BLOCKED_STREAK_THRESHOLD : nat := 3.
Definition REPEAT_SUCCESS_BREAK_THRESHOLD : nat := 2.
Definition WRITE_LIKE_TOOLS : list jsstr := [js "Write"; js "Edit"].
Definition LOOP_GUARD_MARKER : jsstr := js "[loop guard]".

Definition NL : jsstr := [10%N].
Definition nat_text (n : nat) : jsstr := string_of_int (Z.of_nat n).
Definition reminder (body : jsstr) : jsstr := NL ++ NL ++ js "<system-reminder>" ++ NL ++ body ++ NL ++ js "</system-reminder>".

Definition REMINDER_TEXT_1 : jsstr := reminder (
  js "The same tool call has been repeated several times in a row. " ++
  js "Before making your next call, write one sentence stating what new information you expect it to produce. " ++
  js "Then act on that sentence: if it names something this result does not already give you, choose the action that best provides it; otherwise, continue with the evidence you already have.").

Definition makeReminderText2 (repeatCount : nat) : jsstr := reminder (
  js "The same tool call has now been issued " ++ nat_text repeatCount ++ js " times in a row. " ++
  js "Choose exactly one of the following and state your choice before acting:" ++ NL ++
  js "(1) Falsification check: run the cheapest test that could conclusively disprove your current approach, if such a test exists." ++ NL ++
  js "(2) Missing input: tell the user precisely what information or decision you need to proceed, and ask for it." ++ NL ++
  js "(3) Conclude: deliver your best result based on the evidence already gathered, listing anything that remains uncertain.").

Definition REMINDER_TEXT_3 : jsstr := reminder (
  js "Write your final response now, without any further tool calls. " ++
  js "Cover: the current blocker, each approach you have tried and what it established, and the specific information or decision you need from the user to unblock progress. " ++
  js "Text only.").

Definition STORM_BLOCKED_ADVICE : jsstr :=
  js "Change approach: do not keep retrying a blocked tool by changing the tool, command, or arguments. " ++
  js "Respect the permission, plan-mode, hook, or loop-guard blocker; use an already-allowed tool, " ++
  js "ask the user for the specific approval or choice if appropriate, or explain the blocker in your final answer.".

Definition STORM_FAILED_ADVICE : jsstr :=
  js "Change approach: if an argument is being truncated, write less in one call and split the work into " ++
  js "several smaller calls; otherwise fix the arguments, use a different tool, or explain the blocker in your final answer.".

Definition makeStormReminderText (toolName : jsstr) (count : nat) (blocked : bool) : jsstr := reminder (
  LOOP_GUARD_MARKER ++ js " " ++ quoted toolName ++ js " has now " ++ (if blocked then js "been blocked or failed" else js "failed") ++ js " " ++
  nat_text count ++ js " times in a row with the same host response. " ++
  js "Re-sending it " ++ EM_DASH ++ js " even with the wording changed " ++ EM_DASH ++ js " will not help: the calls keep hitting the same outcome. " ++
  (if blocked then STORM_BLOCKED_ADVICE else STORM_FAILED_ADVICE)).

Definition makeBlockedStreakText (streak : nat) : jsstr := reminder (
  LOOP_GUARD_MARKER ++ js " every tool call in the last " ++ nat_text streak ++ js " steps has been blocked by the host " ++
  js "(permission, plan mode, hook, or loop guard). Switching tools, reordering calls, or rewording arguments " ++
  js "will not help while the blockers stand. " ++ STORM_BLOCKED_ADVICE).

Definition makeRepeatSuccessBlockText (toolName : jsstr) (count : nat) : jsstr :=
  LOOP_GUARD_MARKER ++ js " " ++ quoted toolName ++ js " has already succeeded " ++ nat_text count ++ js " times with the same " ++
  js "write arguments in this turn. Re-running it is unlikely to help and may burn tokens or repeat file writes. " ++
  js "Change approach: use Edit for incremental file changes, verify with a read or test command, " ++
  js "or explain the blocker in your final answer.".

(** * Host refusals *)

Definition includes_text (s pat : jsstr) : bool := match break_str pat s with Some _ => true | None => false end.

Fixpoint strip_prefix (p s : jsstr) : option jsstr :=
  match p, s with
  | [], _ => Some s
  | c :: p', d :: s' => if (c =? d)%N then strip_prefix p' s' else None
  | _, [] => None
  end.

(** The text [Tool], a quoted name that is not empty, and what follows. *)
Definition after_tool_name (s : jsstr) : option jsstr :=
  rest ← strip_prefix (js "Tool " ++ [34%N]) s;
  '(name, rest) ← break_on 34 rest;
  if bool_decide (name = []) then None else Some rest.

Definition begins (s : jsstr) (p : string) : bool := match strip_prefix (js p) s with Some _ => true | None => false end.

Definition isHostBlockOutput (output : jsstr) : bool :=
  includes_text output LOOP_GUARD_MARKER
  || match after_tool_name output with
     | Some rest =>
         begins rest " was not run because " || begins rest " was denied by permission policy"
         || begins rest " was denied by permission rule" || begins rest " was denied."
     | None => false
     end
  || begins output "Plan mode is active.".

(** * Signatures of errors

    [text.replace] with a global pattern: a pattern is a function from the preceding code
    unit and the rest of the text to the length of its match there. *)

Definition pattern : Type := option N -> jsstr -> option nat.

Fixpoint replace_all (fuel : nat) (p : pattern) (sub : jsstr) (prev : option N) (s : jsstr) : jsstr :=
  match fuel, s with
  | S fuel, c :: s' =>
      match p prev s with
      | Some (S n) => sub ++ replace_all fuel p sub (last (take (S n) s)) (drop n s')
      | _ => c :: replace_all fuel p sub (Some c) s'
      end
  | _, _ => []
  end.

Definition replaceAll (p : pattern) (sub s : jsstr) : jsstr := replace_all (length s) p sub None s.

Fixpoint span_length (f : N -> bool) (s : jsstr) : nat :=
  match s with c :: s' => if f c then S (span_length f s') else 0%nat | [] => 0%nat end.

Definition between (lo hi c : N) : bool := ((lo <=? c) && (c <=? hi))%N.
Definition letter (c : N) : bool := between 65 90 c || between 97 122 c.
Definition digit (c : N) : bool := between 48 57 c.
Definition word_char (c : N) : bool := letter c || digit c || (c =? 95)%N.
Definition hex (c : N) : bool := digit c || between 65 70 c || between 97 102 c.
Definition quote_char (c : N) : bool := ((c =? 34) || (c =? 39) || (c =? 96))%N.
(** [\w.@%:+-]. *)
Definition path_char (c : N) : bool := word_char c || bool_decide (c ∈ [46; 64; 37; 58; 43; 45]%N).

Definition some_if (n : nat) : option nat := match n with O => None | _ => Some n end.

Definition WHITESPACE_RUN : pattern := fun _ s => some_if (span_length ws s).

Definition WINDOWS_ABS_PATH : pattern := fun _ s =>
  match s with
  | d :: 58%N :: 92%N :: s' =>
      if letter d then Nat.add 3 <$> some_if (span_length (fun c => negb (ws c || quote_char c || (c =? 58)%N)) s') else None
  | _ => None
  end.

Definition HOME_PATH : pattern := fun _ s =>
  match s with
  | 126%N :: 47%N :: s' => Nat.add 2 <$> some_if (span_length (fun c => negb (ws c || quote_char c)) s')
  | _ => None
  end.

(** Names, each with one slash after it at most. *)
Fixpoint path_length (in_name : bool) (s : jsstr) : nat :=
  match s with
  | c :: s' => if path_char c then S (path_length true s') else if in_name && (c =? 47)%N then S (path_length false s') else 0%nat
  | [] => 0%nat
  end.
Definition POSIX_ABS_PATH : pattern := fun prev s =>
  match s with
  | 47%N :: s' => if match prev with Some c => path_char c | None => false end then None else S <$> some_if (path_length false s')
  | _ => None
  end.

Definition word_before (prev : option N) : bool := match prev with Some c => word_char c | None => false end.
Definition word_at (s : jsstr) : bool := match s with c :: _ => word_char c | [] => false end.

Definition HEX_NUMBER : pattern := fun prev s =>
  match s with
  | 48%N :: 120%N :: s' =>
      let n := span_length hex s' in
      if word_before prev || word_at (drop n s') then None else Nat.add 2 <$> some_if n
  | _ => None
  end.

(** [(?:\.\d+)+\b]: the last group is given up when a word goes on after it. *)
Fixpoint dotted (fuel : nat) (s : jsstr) : option nat :=
  match fuel, s with
  | S fuel, 46%N :: s' =>
      match span_length digit s' with
      | O => None
      | n => match dotted fuel (drop n s') with
             | Some m => Some (S n + m)%nat
             | None => if word_at (drop n s') then None else Some (S n)
             end
      end
  | _, _ => None
  end.
Definition DECIMAL_NUMBER : pattern := fun prev s =>
  match span_length digit s with
  | O => None
  | n => if word_before prev then None else Nat.add n <$> dotted (length s) (drop n s)
  end.

Definition INTEGER : pattern := fun prev s =>
  let n := span_length digit s in
  if word_before prev || word_at (drop n s) then None else some_if n.

Definition normalizeErrorSignature (text : jsstr) : jsstr :=
  let s := replaceAll WHITESPACE_RUN (js " ") text in
  let s := replaceAll WINDOWS_ABS_PATH (js "<path>") s in
  let s := replaceAll HOME_PATH (js "<path>") s in
  let s := replaceAll POSIX_ABS_PATH (js "<path>") s in
  let s := replaceAll HEX_NUMBER (js "<n>") s in
  let s := replaceAll DECIMAL_NUMBER (js "<n>") s in
  trim (replaceAll INTEGER (js "<n>") s).

Example signatures_agree :
  normalizeErrorSignature (js "ENOENT:  open /usr/lib/x.ts line 12, v1.2.3 at 0xFF")
  = js "ENOENT: open <path> line <n>, v1.<n> at <n>" /\
  normalizeErrorSignature (js "pid 77 exited 1.2.3a ~/a.b c:\d e") = js "pid <n> exited <n>.3a <path> <path> e".
Proof. vm_compute. split; reflexivity. Qed.

(** * Results *)

Definition outputText (o : tool_output) : jsstr :=
  match o with
  | OutText t => t
  | OutParts ps => join_with NL (omap (fun p => match p with TextPart t => Some t | _ => None end) ps)
  end.

Definition with_output (r : tool_result) (o : tool_output) : tool_result :=
  ToolResult o (tr_isError r) (tr_stopTurn r) (tr_note r) (tr_truncated r) (tr_display r) (tr_structured r).

Definition appendReminder (r : tool_result) (text : jsstr) : tool_result :=
  with_output r match tr_output r with
    | OutText t => OutText (t ++ text)
    | OutParts ps =>
        OutParts match last ps with
          | Some (TextPart t) => removelast ps ++ [TextPart (t ++ text)]
          | _ => ps ++ [TextPart text]
          end
    end.

Definition forceStopResult (r : tool_result) (text : jsstr) : tool_result :=
  let r := appendReminder r text in
  ToolResult (tr_output r) (tr_isError r) true (tr_note r) (tr_truncated r) (tr_display r) (tr_structured r).

Definition DEDUP_PLACEHOLDER_RESULT : tool_result := ToolResult (OutText []) false false None false None None.
Definition LOST_RESULT : tool_result :=
  ToolResult (OutText (js "Tool call deduplicated but original result was lost")) true false None false None None.

(** * State *)

Definition makeKey (toolName : jsstr) (args : json) : jsstr := toolName ++ js " " ++ stableStringify args.

(** What is cleared when a step begins. A deferred is resolved or not. *)
Record step_state : Type := Step {
  s_deferreds : list (jsstr * option tool_result);
  s_calls : list jsstr;
  s_originals : list (jsstr * nat);
  s_synthetic : list jsstr;
  s_keys : list (jsstr * jsstr);
}.

(** The streaks: of one key, of one failure, of blocked steps. *)
Record streaks : Type := Streaks {
  consecutiveKey : option jsstr; consecutiveCount : nat;
  stormKey : option jsstr; stormCount : nat;
  blockedStreak : nat;
}.

Record dedup : Type := Dedup {
  d_step : step_state;
  d_streaks : streaks;
  d_outcomes : list bool;
  d_blockedByKey : list (jsstr * bool);
  d_notices : list jsstr;
  d_successes : list (jsstr * nat);
}.

Definition newStep : step_state := Step [] [] [] [] [].
Definition newDedup : dedup := Dedup newStep (Streaks None 0 None 0 0) [] [] [] [].

Definition with_step (d : dedup) (s : step_state) : dedup :=
  Dedup s (d_streaks d) (d_outcomes d) (d_blockedByKey d) (d_notices d) (d_successes d).

(** Waiters of the deferreds left over get [LOST_RESULT]. *)
Definition beginStep (d : dedup) : dedup := with_step d newStep.

Definition count_key (acc : option jsstr * nat) (key : jsstr) : option jsstr * nat :=
  if bool_decide (acc.1 = Some key) then (acc.1, S acc.2) else (Some key, 1%nat).

Definition endStep (d : dedup) : dedup :=
  let st := d_streaks d in
  let '(key, count) := fold_left count_key (s_calls (d_step d)) (consecutiveKey st, consecutiveCount st) in
  let all_blocked := negb (bool_decide (d_outcomes d = [])) && forallb (fun b => b) (d_outcomes d) in
  let streak := if all_blocked then S (blockedStreak st) else 0%nat in
  Dedup (d_step d) (Streaks key count (stormKey st) (stormCount st) streak) [] []
    (d_notices d ++ if all_blocked && (BLOCKED_STREAK_THRESHOLD <=? streak)%nat then [makeBlockedStreakText streak] else [])
    (d_successes d).

Definition write_like (toolName : jsstr) : bool := bool_decide (toolName ∈ WRITE_LIKE_TOOLS).
Definition successes (key : jsstr) (d : dedup) : nat := default 0%nat (jget (d_successes d) key).

Definition checkSameStep (toolCallId toolName : jsstr) (args : json) (d : dedup) : option tool_result * dedup :=
  let s := d_step d in
  let key := makeKey toolName args in
  let index := length (s_calls s) in
  let calls := s_calls s ++ [key] in
  let keys := jset (s_keys s) toolCallId key in
  match jget (s_deferreds s) key with
  | Some _ =>
      let synthetic := if bool_decide (toolCallId ∈ s_synthetic s) then s_synthetic s else s_synthetic s ++ [toolCallId] in
      (Some DEDUP_PLACEHOLDER_RESULT, with_step d (Step (s_deferreds s) calls (s_originals s) synthetic keys))
  | None =>
      (if write_like toolName && (REPEAT_SUCCESS_BREAK_THRESHOLD <=? successes key d)%nat
       then Some (ToolResult (OutText (makeRepeatSuccessBlockText toolName (successes key d))) true false None false None None)
       else None,
       with_step d (Step (jset (s_deferreds s) key None) calls (jset (s_originals s) toolCallId index) (s_synthetic s) keys))
  end.

(** The arguments a call that was never checked is keyed by: its text when that does not
    parse. *)
Definition registerSkipped (parse : jsstr -> option json) (toolCallId toolName : jsstr) (args : json) (raw : option jsstr) (d : dedup) : dedup :=
  if jhas (s_keys (d_step d)) toolCallId then d
  else
    let parse_failed r := negb (bool_decide (r = [])) && match parse r with None => true | Some _ => false end in
    let keyArgs := match raw with Some r => if parse_failed r then JString r else args | None => args end in
    (checkSameStep toolCallId toolName keyArgs d).2.

(** The ladder of the same call: which reminder, and whether the turn stops. *)
Inductive ladder : Type := NoAction | R1 | R2 | R3 | ForceStop.

Definition ladder_of (streak : nat) : ladder :=
  if (REPEAT_FORCE_STOP_STREAK <=? streak)%nat then ForceStop
  else if (REPEAT_REMINDER_3_START <=? streak)%nat then R3
  else if (REPEAT_REMINDER_2_START <=? streak)%nat then R2
  else if (REPEAT_REMINDER_1_START <=? streak)%nat then R1
  else NoAction.

Definition climb (l : ladder) (streak : nat) (r : tool_result) : tool_result :=
  match l with
  | NoAction => r
  | R1 => appendReminder r REMINDER_TEXT_1
  | R2 => appendReminder r (makeReminderText2 streak)
  | R3 => appendReminder r REMINDER_TEXT_3
  | ForceStop => forceStopResult r REMINDER_TEXT_3
  end.

(** A result, or the key whose deferred the call waits for. *)
Inductive finalized : Type := Final (r : tool_result) | WaitsFor (key : jsstr).

(** The notices about whole steps go on the first result finalized. *)
Definition noticed (notices : list jsstr) (r : tool_result) : tool_result :=
  match notices with [] => r | _ => appendReminder r (mjoin notices) end.

(** A promise keeps its first value. *)
Definition resolve (key : jsstr) (r : tool_result) (s : step_state) : step_state :=
  Step match jget (s_deferreds s) key with Some None => jset (s_deferreds s) key (Some r) | _ => s_deferreds s end
    (s_calls s) (s_originals s) (s_synthetic s) (s_keys s).

Definition finalizeOriginal (toolName key : jsstr) (index : nat) (result : tool_result) (d : dedup) : tool_result * dedup :=
  let s := d_step d in
  let st := d_streaks d in
  let '(_, streak) := fold_left count_key (take (S index) (s_calls s)) (consecutiveKey st, consecutiveCount st) in
  let rawText := outputText (tr_output result) in
  let succeeded := negb (tr_isError result) in
  let guarded := negb succeeded && includes_text rawText LOOP_GUARD_MARKER in
  let counts := if succeeded && write_like toolName then jset (d_successes d) key (S (successes key d)) else d_successes d in
  let action := if guarded then NoAction else ladder_of streak in
  let final := climb action streak result in
  let sig := toolName ++ js " " ++ normalizeErrorSignature rawText in
  let '(sKey, sCount) := if succeeded then (None, 0%nat) else count_key (stormKey st, stormCount st) sig in
  let final := if negb succeeded && (STORM_BREAK_THRESHOLD <=? sCount)%nat && match action with NoAction => true | _ => false end && negb guarded
               then appendReminder result (makeStormReminderText toolName sCount (isHostBlockOutput rawText)) else final in
  let blocked := negb succeeded && isHostBlockOutput rawText in
  let final := noticed (d_notices d) final in
  (final,
   Dedup (resolve key final s)
     (Streaks (consecutiveKey st) (consecutiveCount st) sKey sCount (blockedStreak st))
     (d_outcomes d ++ [blocked]) (jset (d_blockedByKey d) key blocked) [] counts).

Definition forget_call (id : jsstr) (s : step_state) : step_state :=
  Step (s_deferreds s) (s_calls s) (s_originals s) (s_synthetic s) (jdel (s_keys s) id).

Definition finalizeResult (toolCallId toolName : jsstr) (result : tool_result) (d : dedup) : finalized * dedup :=
  match jget (s_keys (d_step d)) toolCallId with
  | None => (Final result, d)
  | Some key =>
      let s := forget_call toolCallId (d_step d) in
      if bool_decide (toolCallId ∈ s_synthetic s) then
        let s := Step (s_deferreds s) (s_calls s) (s_originals s) (filter (fun id => id <> toolCallId) (s_synthetic s)) (s_keys s) in
        match jget (s_deferreds s) key with
        | None => (Final result, with_step d s)
        | Some None => (WaitsFor key, with_step d s)
        | Some (Some resolved) =>
            let blocked := default (tr_isError resolved && isHostBlockOutput (outputText (tr_output resolved))) (jget (d_blockedByKey d) key) in
            (Final resolved, Dedup s (d_streaks d) (d_outcomes d ++ [blocked]) (d_blockedByKey d) (d_notices d) (d_successes d))
        end
      else
        match jget (s_originals s) toolCallId with
        | None => (Final result, with_step d s)
        | Some index =>
            let s := Step (s_deferreds s) (s_calls s) (jdel (s_originals s) toolCallId) (s_synthetic s) (s_keys s) in
            let '(final, d) := finalizeOriginal toolName key index result (with_step d s) in (Final final, d)
        end
  end.

(** * Turns

    The operations in the order the loop performs them; the name of a call is fixed. *)

Section turns.
Context (parse : jsstr -> option json) (tool_of : jsstr -> jsstr).

Inductive dedup_op : Type :=
| Begin
| End_
| Check_ (id : jsstr) (args : json)
| Skipped (id : jsstr) (args : json) (raw : option jsstr)
| Finalize (id : jsstr) (result : tool_result).

(** The state, and what the statements below count by: the keys of the steps that have
    ended; the calls refused in this step; the calls let run in it and not finalized, with
    what they were called with; and the outcomes of the calls finalized so far, the
    signature of each failure. *)
Record turn : Type := Turn {
  t_dedup : dedup; t_past : list jsstr; t_refused : list jsstr; t_running : list (jsstr * jsstr); t_outcomes : list (option jsstr);
}.

Definition newTurn : turn := Turn newDedup [] [] [] [].

Definition signature_of (tool : jsstr) (r : tool_result) : option jsstr :=
  if tr_isError r then Some (tool ++ js " " ++ normalizeErrorSignature (outputText (tr_output r))) else None.

(** A call registered in this step that is no duplicate. *)
Definition is_original (d : dedup) (id : jsstr) : bool := jhas (s_keys (d_step d)) id && jhas (s_originals (d_step d)) id.

Definition refusal (r : option tool_result) : bool := match r with Some r => tr_isError r | None => false end.

Definition turn_step (t : turn) (op : dedup_op) : turn :=
  let d := t_dedup t in
  match op with
  | Begin => Turn (beginStep d) (t_past t) [] [] (t_outcomes t)
  | End_ => Turn (endStep d) (t_past t ++ s_calls (d_step d)) (t_refused t) (t_running t) (t_outcomes t)
  | Check_ id args =>
      let '(r, d) := checkSameStep id (tool_of id) args d in
      Turn d (t_past t) (if refusal r then id :: t_refused t else t_refused t)
        (match r with None => jset (t_running t) id (makeKey (tool_of id) args) | Some _ => t_running t end) (t_outcomes t)
  | Skipped id args raw =>
      Turn (registerSkipped parse id (tool_of id) args raw d) (t_past t) (if jhas (s_keys (d_step d)) id then t_refused t else id :: t_refused t)
        (t_running t) (t_outcomes t)
  | Finalize id result =>
      Turn (finalizeResult id (tool_of id) result d).2 (t_past t) (t_refused t) (jdel (t_running t) id)
        (if is_original d id then t_outcomes t ++ [signature_of (tool_of id) result] else t_outcomes t)
  end.

Definition turn_run (ops : list dedup_op) (t : turn) : turn := fold_left turn_step ops t.

(** Calls are registered under fresh ids; a call that was refused or skipped ends with an
    error. *)
Definition proper_op (t : turn) (op : dedup_op) : bool :=
  match op with
  | Check_ id _ => negb (jhas (s_keys (d_step (t_dedup t))) id)
  | Finalize id result => negb (bool_decide (id ∈ t_refused t)) || tr_isError result
  | _ => true
  end.

Fixpoint proper (ops : list dedup_op) (t : turn) : bool :=
  match ops with [] => true | op :: ops' => proper_op t op && proper ops' (turn_step t op) end.
End turns.

(** The length of the run of equal elements a list ends with; of outcomes, failures only. *)
Fixpoint prefix_count {A} `{EqDecision A} (k : A) (l : list A) : nat :=
  match l with x :: l' => if bool_decide (x = k) then S (prefix_count k l') else 0%nat | [] => 0%nat end.
Definition run_ending {A} `{EqDecision A} (l : list A) : nat := match rev l with k :: l' => S (prefix_count k l') | [] => 0%nat end.
Definition failures_ending (l : list (option jsstr)) : nat := match last l with Some (Some _) => run_ending l | _ => 0%nat end.

(** The writes of [k] that the operations let run and finalize, in the same step, with a
    result that is no error. *)
Definition writes_now (tool_of : jsstr -> jsstr) (k : jsstr) (t : turn) (op : dedup_op) : nat :=
  match op with
  | Finalize id result =>
      if write_like (tool_of id) && negb (tr_isError result) && bool_decide (jget (t_running t) id = Some k) then 1%nat else 0%nat
  | _ => 0%nat
  end.

Fixpoint times_written (parse : jsstr -> option json) (tool_of : jsstr -> jsstr) (k : jsstr) (ops : list dedup_op) (t : turn) : nat :=
  match ops with
  | [] => 0%nat
  | op :: ops' => (writes_now tool_of k t op + times_written parse tool_of k ops' (turn_step parse tool_of t op))%nat
  end.

(** The answer to an original that ends a run of [n] equal calls and of [m] equal
    failures, with whole-step notices pending. *)
Definition told (notices : list jsstr) (tool : jsstr) (n m : nat) (result : tool_result) : tool_result :=
  let text := outputText (tr_output result) in
  noticed notices
    (if tr_isError result && includes_text text LOOP_GUARD_MARKER then result
     else if (REPEAT_REMINDER_1_START <=? n)%nat then climb (ladder_of n) n result
     else if (STORM_BREAK_THRESHOLD <=? m)%nat then appendReminder result (makeStormReminderText tool m (isHostBlockOutput text))
     else result).

(** * Laws of a step *)

Record step_ok (s : step_state) : Prop := {
  ok_keys : jwf (s_keys s);
  ok_originals : jwf (s_originals s);
  ok_original id i : jget (s_originals s) id = Some i ->
    exists k, jget (s_keys s) id = Some k /\ s_calls s !! i = Some k /\ jget (s_deferreds s) k = Some None;
  ok_synthetic id : id ∈ s_synthetic s ->
    jget (s_originals s) id = None /\ exists k, jget (s_keys s) id = Some k /\ jget (s_deferreds s) k <> None;
  ok_unresolved k : jget (s_deferreds s) k = Some None ->
    exists id i, jget (s_originals s) id = Some i /\ jget (s_keys s) id = Some k;
  ok_unique id1 id2 i1 i2 k : jget (s_originals s) id1 = Some i1 -> jget (s_originals s) id2 = Some i2 ->
    jget (s_keys s) id1 = Some k -> jget (s_keys s) id2 = Some k -> id1 = id2;
}.

Lemma newStep_ok : step_ok newStep.
Proof. split; cbn; try done; try apply jwf_nil. intros id H. by apply elem_of_nil in H. Qed.

Lemma check_ok id tool args d : step_ok (d_step d) -> jget (s_keys (d_step d)) id = None ->
  step_ok (d_step (checkSameStep id tool args d).2).
Proof.
  intros [Hk Ho Hor Hsy Hun Hq] Hf. unfold checkSameStep. set (s := d_step d) in *. set (key := makeKey tool args).
  assert (Hof : jget (s_originals s) id = None).
  { destruct (jget (s_originals s) id) as [i|] eqn:E; [|done]. destruct (Hor _ _ E) as (k & Hk' & _). congruence. }
  assert (Hkid : forall x k, jget (s_keys s) x = Some k -> jget (jset (s_keys s) id key) x = Some k).
  { intros x k Hx. rewrite jget_set_ne; [done|]. intros ->. congruence. }
  destruct (jget (s_deferreds s) key) as [r|] eqn:Ed; cbn [snd with_step d_step].
  - split; cbn; [by apply jwf_set|done| | | |].
    + intros x i Hx. destruct (Hor _ _ Hx) as (k & H1 & H2 & H3). exists k. split; [by apply Hkid|].
      split; [by apply lookup_app_l_Some|done].
    + intros x Hx. assert (x ∈ s_synthetic s \/ x = id) as [Hx'| ->] by (case_bool_decide; set_solver).
      * destruct (Hsy _ Hx') as (H1 & k & H2 & H3). split; [done|]. exists k. split; [by apply Hkid|done].
      * split; [done|]. exists key. rewrite jget_set_eq. split; [done|]. by rewrite Ed.
    + intros k Hu. destruct (Hun _ Hu) as (x & i & H1 & H2). exists x, i. split; [done|]. by apply Hkid.
    + intros x y i j k Hx Hy. destruct (Hor _ _ Hx) as (k1 & H1 & _), (Hor _ _ Hy) as (k2 & H2 & _).
      rewrite (Hkid _ _ H1), (Hkid _ _ H2). intros [= <-] [= ->]. by apply (Hq x y i j k1).
  - split; cbn; [by apply jwf_set|by apply jwf_set| | | |].
    + intros x i Hx. destruct (decide (x = id)) as [-> |Hne].
      * rewrite jget_set_eq in Hx. injection Hx as <-. exists key. rewrite !jget_set_eq. split; [done|].
        split; [by apply list_lookup_middle|by rewrite ?jget_set_eq].
      * rewrite jget_set_ne in Hx by done. destruct (Hor _ _ Hx) as (k & H1 & H2 & H3). exists k.
        split; [by apply Hkid|]. split; [by apply lookup_app_l_Some|]. rewrite jget_set_ne; [done|congruence].
    + intros x Hx. destruct (Hsy _ Hx) as (H1 & k & H2 & H3). assert (x <> id) by congruence.
      rewrite jget_set_ne by done. split; [done|]. exists k. split; [by apply Hkid|]. rewrite jget_set_ne; [done|congruence].
    + intros k Hu. destruct (decide (k = key)) as [-> |Hne].
      * exists id, (length (s_calls s)). by rewrite !jget_set_eq.
      * rewrite jget_set_ne in Hu by done. destruct (Hun _ Hu) as (x & i & H1 & H2). exists x, i.
        assert (x <> id) by congruence. rewrite jget_set_ne by done. split; [done|]. by apply Hkid.
    + assert (Hnk : forall x i, jget (s_originals s) x = Some i -> jget (s_keys s) x <> Some key).
      { intros x i Hx Hkx. destruct (Hor _ _ Hx) as (k & H1 & _ & H3). congruence. }
      intros x y i j k Hx Hy. destruct (decide (x = id)) as [-> |Hxi], (decide (y = id)) as [-> |Hyi]; [done| | |].
      all: rewrite ?jget_set_eq; rewrite ?jget_set_ne in * by done; rewrite ?jget_set_ne by done.
      * intros [= <-] Hky. by destruct (Hnk y j).
      * intros Hkx [= <-]. by destruct (Hnk x i).
      * by apply Hq with i j.
Qed.


(** Taking a call out of the registers. *)
Definition drop_call (id : jsstr) (s : step_state) : step_state :=
  Step (s_deferreds s) (s_calls s) (jdel (s_originals s) id) (filter (fun x => x <> id) (s_synthetic s)) (jdel (s_keys s) id).

Lemma drop_original id s x i : jwf (s_originals s) -> jget (jdel (s_originals s) id) x = Some i ->
  x <> id /\ jget (s_originals s) x = Some i.
Proof. intros Hw. rewrite jget_del by done. case_decide; [done|]. by split. Qed.

Lemma resolve_get key r s k : jget (s_deferreds (resolve key r s)) k =
  if decide (k = key) then match jget (s_deferreds s) key with Some None => Some (Some r) | x => x end else jget (s_deferreds s) k.
Proof.
  cbn. case_decide; [subst|]; destruct (jget (s_deferreds s) key) as [[]|] eqn:E; try done;
    [apply jget_set_eq|by rewrite jget_set_ne].
Qed.

Lemma resolve_some key r s k : jget (s_deferreds s) k <> None -> jget (s_deferreds (resolve key r s)) k <> None.
Proof. intros Hk. rewrite resolve_get. case_decide; [subst|done]. by destruct (jget _ key) as [[]|]. Qed.

Lemma drop_absent id s : step_ok s -> jget (s_originals s) id = None -> step_ok (drop_call id s).
Proof.
  intros [Hk Ho Hor Hsy Hun Hq] Hno. split; cbn; [by apply jwf_del|by apply jwf_del| | | |].
  - intros x i [Hx Hi]%drop_original; [|done]. destruct (Hor _ _ Hi) as (k & H1 & H2). exists k. by rewrite jget_del_ne.
  - intros x [Hx Hin]%list_elem_of_filter. destruct (Hsy _ Hin) as (H1 & k & H2 & H3).
    rewrite !jget_del_ne by done. by eauto.
  - intros k Hu. destruct (Hun _ Hu) as (x & i & H1 & H2). assert (x <> id) by congruence. exists x, i.
    by rewrite !jget_del_ne by done.
  - intros x y i j k [Hx Hi]%drop_original [Hy Hj]%drop_original; try done. rewrite !jget_del_ne by done. by apply Hq with i j.
Qed.

(** An original leaves the registers with its deferred resolved. *)
Lemma drop_resolved id k i r s : step_ok s -> jget (s_keys s) id = Some k -> jget (s_originals s) id = Some i ->
  step_ok (drop_call id (resolve k r s)).
Proof.
  intros [Hk Ho Hor Hsy Hun Hq] Hid Hi. split; cbn [drop_call s_keys s_originals s_synthetic s_calls s_deferreds].
  - by apply jwf_del.
  - by apply jwf_del.
  - intros x j [Hx Hj]%drop_original; [|done]. destruct (Hor _ _ Hj) as (kx & H1 & H2 & H3). exists kx.
    cbn [resolve s_keys s_calls]. rewrite jget_del_ne by done. split; [done|]. split; [done|].
    rewrite resolve_get, decide_False; [done|]. intros ->. by apply Hx, (Hq x id j i k).
  - intros x [Hx Hin]%list_elem_of_filter. destruct (Hsy _ Hin) as (H1 & kx & H2 & H3).
    cbn [resolve s_keys s_originals]. rewrite !jget_del_ne by done. split; [done|]. exists kx. split; [done|by apply resolve_some].
  - intros u. rewrite resolve_get. case_decide as Hu; [by destruct (jget _ k) as [[]|]|]. intros Hd.
    destruct (Hun _ Hd) as (x & j & H1 & H2). exists x, j. cbn [resolve s_keys s_originals].
    assert (x <> id) by congruence. by rewrite !jget_del_ne by done.
  - cbn [resolve s_keys s_originals]. intros x y j j' u [Hx Hj]%drop_original [Hy Hj']%drop_original; try done.
    rewrite !jget_del_ne by done. by apply Hq with j j'.
Qed.

Lemma filter_absent (id : jsstr) (l : list jsstr) : id ∉ l -> filter (fun x => x <> id) l = l.
Proof.
  induction l as [|x l IH]; [done|]. intros [Hx Hl]%not_elem_of_cons. rewrite filter_cons_True by congruence. by rewrite IH.
Qed.

Lemma finalizeOriginal_step tool key i result d :
  d_step (finalizeOriginal tool key i result d).2 = resolve key (finalizeOriginal tool key i result d).1 (d_step d).
Proof.
  unfold finalizeOriginal. destruct (fold_left _ _ _) as [x n].
  by destruct (if negb (tr_isError result) then (None, 0%nat) else count_key _ _) as [y m].
Qed.

(** What finalizing does to the registers. *)
Inductive finalizes (id : jsstr) (s : step_state) : step_state -> finalized -> Prop :=
| finalize_unknown r : jget (s_keys s) id = None -> finalizes id s s (Final r)
| finalize_duplicate k r : jget (s_keys s) id = Some k -> id ∈ s_synthetic s -> jget (s_deferreds s) k = Some (Some r) ->
    finalizes id s (drop_call id s) (Final r)
| finalize_waiting k : jget (s_keys s) id = Some k -> id ∈ s_synthetic s -> jget (s_deferreds s) k = Some None ->
    finalizes id s (drop_call id s) (WaitsFor k)
| finalize_stale k r : jget (s_keys s) id = Some k -> id ∉ s_synthetic s -> jget (s_originals s) id = None ->
    finalizes id s (drop_call id s) (Final r)
| finalize_original k i r : jget (s_keys s) id = Some k -> jget (s_originals s) id = Some i ->
    finalizes id s (drop_call id (resolve k r s)) (Final r).

Lemma finalize_cases id tool result d : step_ok (d_step d) ->
  finalizes id (d_step d) (d_step (finalizeResult id tool result d).2) (finalizeResult id tool result d).1.
Proof.
  intros Hok. pose proof Hok as [_ _ _ Hsy _ _]. unfold finalizeResult. set (s := d_step d) in *.
  destruct (jget (s_keys s) id) as [k|] eqn:Ek; [|by apply finalize_unknown].
  case_bool_decide as Hin; cbn [forget_call s_synthetic] in Hin.
  - destruct (Hsy _ Hin) as (Hno & k' & Hk' & Hd). rewrite Ek in Hk'. injection Hk' as <-. cbn [forget_call s_deferreds].
    assert (Hdrop : forall calls, Step (s_deferreds s) calls (s_originals s) (filter (fun x => x <> id) (s_synthetic s)) (jdel (s_keys s) id)
      = Step (s_deferreds s) calls (jdel (s_originals s) id) (filter (fun x => x <> id) (s_synthetic s)) (jdel (s_keys s) id))
      by (intros calls; by rewrite (jdel_notin (s_originals s))).
    destruct (jget (s_deferreds s) k) as [[r|]|] eqn:Ed; [| |done]; cbn; rewrite Hdrop.
    + by eapply finalize_duplicate.
    + by eapply finalize_waiting.
  - cbn [forget_call s_originals]. destruct (jget (s_originals s) id) as [i|] eqn:Eo.
    + cbn [forget_call s_deferreds s_calls s_synthetic s_keys].
      destruct (finalizeOriginal tool k i result _) as [final d'] eqn:Ef. cbn [fst snd].
      assert (Hstep : d_step d' = resolve k final (drop_call id s)).
      { pose proof (finalizeOriginal_step tool k i result (with_step d (Step (s_deferreds s) (s_calls s) (jdel (s_originals s) id) (s_synthetic s) (jdel (s_keys s) id)))) as Hs.
        rewrite Ef in Hs. cbn [fst snd with_step d_step] in Hs. rewrite Hs. unfold drop_call. by rewrite filter_absent. }
      rewrite Hstep. by eapply (finalize_original id s k i final).
    + assert (Hf : forget_call id s = drop_call id s) by (unfold forget_call, drop_call; by rewrite (jdel_notin (s_originals s)), filter_absent).
      cbn [fst snd with_step d_step]. rewrite Hf. by eapply finalize_stale.
Qed.

Lemma finalize_ok id tool result d : step_ok (d_step d) -> step_ok (d_step (finalizeResult id tool result d).2).
Proof.
  intros Hok. destruct (finalize_cases id tool result d Hok) as [|k r Hk Hs Hd|k Hk Hs Hd| |k i r Hk Ho]; [done|..].
  - apply drop_absent; [done|]. by destruct Hok as [_ _ _ Hsy _ _]; destruct (Hsy _ Hs).
  - apply drop_absent; [done|]. by destruct Hok as [_ _ _ Hsy _ _]; destruct (Hsy _ Hs).
  - by apply drop_absent.
  - by eapply drop_resolved.
Qed.

(** * Counting *)

Definition ladder_state (d : dedup) : option jsstr * nat := (consecutiveKey (d_streaks d), consecutiveCount (d_streaks d)).

Definition storm_state (d : dedup) : option jsstr * nat := (stormKey (d_streaks d), stormCount (d_streaks d)).
Definition storm_of (l : list (option jsstr)) : option jsstr * nat := (mjoin (last l), failures_ending l).

Lemma run_ending_snoc {A} `{EqDecision A} (l : list A) x : run_ending (l ++ [x]) = if bool_decide (last l = Some x) then S (run_ending l) else 1%nat.
Proof.
  unfold run_ending. rewrite rev_app_distr. cbn [rev app]. destruct l as [|y l _] using rev_ind; [done|].
  rewrite last_snoc, rev_app_distr. cbn [rev app prefix_count].
  destruct (decide (y = x)) as [-> |Hne]; [by rewrite !bool_decide_true|]. by rewrite !bool_decide_false by congruence.
Qed.

Lemma count_run l : fold_left count_key l (None, 0%nat) = (last l, run_ending l).
Proof.
  induction l as [|x l IH] using rev_ind; [done|]. rewrite fold_left_app, IH. cbn [fold_left]. unfold count_key. cbn [fst snd].
  rewrite last_snoc, run_ending_snoc. case_bool_decide as E; [by rewrite E|done].
Qed.

Lemma storm_snoc l tool result : storm_of (l ++ [signature_of tool result]) =
  if negb (tr_isError result) then (None, 0%nat)
  else count_key (storm_of l) (tool ++ js " " ++ normalizeErrorSignature (outputText (tr_output result))).
Proof.
  unfold signature_of, storm_of, failures_ending, count_key. rewrite last_snoc, run_ending_snoc. destruct (tr_isError result); cbn [negb]; [|done].
  destruct (last l) as [[x|]|] eqn:El; cbn [mjoin option_join fst snd]; [|by rewrite bool_decide_false..].
  set (sig := tool ++ _). destruct (decide (x = sig)) as [-> |Hne]; [by rewrite !bool_decide_true|].
  by rewrite !bool_decide_false by congruence.
Qed.

Lemma check_ladder id tool args d : ladder_state (checkSameStep id tool args d).2 = ladder_state d.
Proof. unfold checkSameStep. by destruct (jget (s_deferreds (d_step d)) _). Qed.

Lemma original_ladder tool key i result d : ladder_state (finalizeOriginal tool key i result d).2 = ladder_state d.
Proof.
  unfold finalizeOriginal. destruct (fold_left _ _ _) as [x n].
  by destruct (if negb (tr_isError result) then (None, 0%nat) else count_key _ _) as [y m].
Qed.

Lemma finalize_ladder id tool result d : ladder_state (finalizeResult id tool result d).2 = ladder_state d.
Proof.
  unfold finalizeResult. destruct (jget (s_keys (d_step d)) id) as [k|]; [|done]. case_bool_decide.
  - by destruct (jget _ k) as [[]|].
  - destruct (jget (s_originals _) id) as [i|]; [|done].
    pose proof (original_ladder tool k i result (with_step d (Step (s_deferreds (forget_call id (d_step d))) (s_calls (forget_call id (d_step d)))
      (jdel (s_originals (forget_call id (d_step d))) id) (s_synthetic (forget_call id (d_step d))) (s_keys (forget_call id (d_step d)))))) as H'.
    by destruct (finalizeOriginal _ _ _ _ _).
Qed.

Lemma check_storm id tool args d : storm_state (checkSameStep id tool args d).2 = storm_state d.
Proof. unfold checkSameStep. by destruct (jget (s_deferreds (d_step d)) _). Qed.

Lemma original_storm tool key i result d : storm_state (finalizeOriginal tool key i result d).2 =
  if negb (tr_isError result) then (None, 0%nat)
  else count_key (storm_state d) (tool ++ js " " ++ normalizeErrorSignature (outputText (tr_output result))).
Proof.
  unfold finalizeOriginal, storm_state. destruct (fold_left _ _ _) as [x n].
  by destruct (if negb (tr_isError result) then (None, 0%nat) else count_key _ _) as [y m].
Qed.

Lemma finalize_storm id tool result d l : step_ok (d_step d) -> storm_state d = storm_of l ->
  storm_state (finalizeResult id tool result d).2 = storm_of (if is_original d id then l ++ [signature_of tool result] else l).
Proof.
  intros [_ _ Hor Hsy _ _] Hst. unfold finalizeResult, is_original, jhas. destruct (jget (s_keys (d_step d)) id) as [k|] eqn:Ek; [|done].
  cbn [andb]. case_bool_decide as Hin; cbn [forget_call s_synthetic] in Hin.
  - destruct (Hsy _ Hin) as [-> _]. by destruct (jget _ k) as [[]|].
  - cbn [forget_call s_originals]. destruct (jget (s_originals (d_step d)) id) as [i|]; [|done].
    pose proof (original_storm tool k i result (with_step d (Step (s_deferreds (forget_call id (d_step d))) (s_calls (forget_call id (d_step d)))
      (jdel (s_originals (d_step d)) id) (s_synthetic (forget_call id (d_step d))) (s_keys (forget_call id (d_step d)))))) as H'.
    destruct (finalizeOriginal _ _ _ _ _). cbn [snd] in *. rewrite storm_snoc, <- Hst. exact H'.
Qed.

Section properties.
Context (parse : jsstr -> option json) (tool_of : jsstr -> jsstr).

Abbreviation run := (turn_run parse tool_of).

Record turn_ok (t : turn) : Prop := {
  turn_step_ok : step_ok (d_step (t_dedup t));
  turn_ladder : ladder_state (t_dedup t) = fold_left count_key (t_past t) (None, 0%nat);
  turn_storm : storm_state (t_dedup t) = storm_of (t_outcomes t);
}.

Lemma newTurn_ok : turn_ok newTurn.
Proof. split; [apply newStep_ok|done|done]. Qed.

Lemma skipped_cases id tool args raw d : registerSkipped parse id tool args raw d = d \/
  jget (s_keys (d_step d)) id = None /\ exists args', registerSkipped parse id tool args raw d = (checkSameStep id tool args' d).2.
Proof.
  unfold registerSkipped, jhas. destruct (jget (s_keys (d_step d)) id) eqn:E; [by left|]. right. eauto.
Qed.

Lemma turn_step_keeps t op : turn_ok t -> proper_op t op = true -> turn_ok (turn_step parse tool_of t op).
Proof.
  intros [Hs Hl Hst] Hp. destruct op as [| |id args|id args raw|id result]; cbn [turn_step].
  - split; cbn; [apply newStep_ok|done|done].
  - split; cbn [t_dedup t_past t_outcomes].
    + unfold endStep. by destruct (fold_left count_key (s_calls _) _).
    + rewrite fold_left_app, <- Hl. unfold endStep, ladder_state. by destruct (fold_left count_key (s_calls _) _).
    + rewrite <- Hst. unfold endStep, storm_state. by destruct (fold_left count_key (s_calls _) _).
  - cbn in Hp. unfold jhas in Hp. pose proof (check_ok id (tool_of id) args (t_dedup t) Hs) as Hc.
    pose proof (check_ladder id (tool_of id) args (t_dedup t)) as Hcl. pose proof (check_storm id (tool_of id) args (t_dedup t)) as Hcs.
    destruct (checkSameStep id _ args _) as [r d]. cbn in *. split; cbn; [|congruence..]. apply Hc. by destruct (jget _ id).
  - cbn [t_dedup]. destruct (skipped_cases id (tool_of id) args raw (t_dedup t)) as [-> |(Hf & args' & ->)]; [by split|].
    split; cbn [t_dedup t_past t_outcomes]; [by apply check_ok|by rewrite check_ladder|by rewrite check_storm].
  - split; cbn [t_dedup t_past t_outcomes]; [by apply finalize_ok|by rewrite finalize_ladder|by apply finalize_storm].
Qed.

Lemma turn_run_ok ops : forall t, turn_ok t -> proper parse tool_of ops t = true -> turn_ok (run ops t).
Proof.
  induction ops as [|op ops IH]; intros t Ht Hp; [done|]. cbn [proper] in Hp. apply andb_true_iff in Hp as [H1 H2].
  by apply IH; [apply turn_step_keeps|].
Qed.

Lemma proper_app ops1 ops2 t : proper parse tool_of (ops1 ++ ops2) t = proper parse tool_of ops1 t && proper parse tool_of ops2 (run ops1 t).
Proof. revert t. induction ops1 as [|op ops IH]; intros t; cbn; [done|]. by rewrite IH, andb_assoc. Qed.

(** The result an original is given, by the lengths of the runs it ends. *)
Lemma original_result tool key i result d past l :
  ladder_state d = fold_left count_key past (None, 0%nat) -> storm_state d = storm_of l ->
  (finalizeOriginal tool key i result d).1 =
  told (d_notices d) tool (run_ending (past ++ take (S i) (s_calls (d_step d)))) (failures_ending (l ++ [signature_of tool result])) result.
Proof.
  intros Hl Hst. pose proof (storm_snoc l tool result) as Hsn. unfold finalizeOriginal, told.
  change (consecutiveKey (d_streaks d), consecutiveCount (d_streaks d)) with (ladder_state d).
  change (stormKey (d_streaks d), stormCount (d_streaks d)) with (storm_state d).
  rewrite Hl, <- fold_left_app, count_run, Hst, <- Hsn. unfold storm_of. cbn [fst]. set (n := run_ending _). set (m := failures_ending _). f_equal.
  rewrite !negb_involutive. destruct (tr_isError result) eqn:Ee; cbn [andb negb].
  - destruct (includes_text _ _); cbn [negb]; [by rewrite andb_false_r|]. rewrite andb_true_r. unfold ladder_of.
    destruct (REPEAT_FORCE_STOP_STREAK <=? n)%nat eqn:E1, (REPEAT_REMINDER_3_START <=? n)%nat eqn:E2, (REPEAT_REMINDER_2_START <=? n)%nat eqn:E3,
      (REPEAT_REMINDER_1_START <=? n)%nat eqn:E4; rewrite ?andb_false_r, ?andb_true_r; try done.
    all: exfalso; rewrite ?Nat.leb_le, ?Nat.leb_gt in *; unfold REPEAT_FORCE_STOP_STREAK, REPEAT_REMINDER_3_START, REPEAT_REMINDER_2_START, REPEAT_REMINDER_1_START in *; lia.
  - assert (m = 0%nat) as -> by (unfold m, failures_ending, signature_of; by rewrite Ee, last_snoc). cbn [Nat.leb STORM_BREAK_THRESHOLD].
    destruct (REPEAT_REMINDER_1_START <=? n)%nat eqn:E4; [done|]. unfold ladder_of. rewrite E4.
    destruct (REPEAT_FORCE_STOP_STREAK <=? n)%nat eqn:E1, (REPEAT_REMINDER_3_START <=? n)%nat eqn:E2, (REPEAT_REMINDER_2_START <=? n)%nat eqn:E3; try done.
    all: exfalso; rewrite ?Nat.leb_le, ?Nat.leb_gt in *; unfold REPEAT_FORCE_STOP_STREAK, REPEAT_REMINDER_3_START, REPEAT_REMINDER_2_START, REPEAT_REMINDER_1_START in *; lia.
Qed.


(** ** Duplicates *)

Lemma resolved_stays op t k r : op <> Begin -> turn_ok t ->
  jget (s_deferreds (d_step (t_dedup t))) k = Some (Some r) ->
  jget (s_deferreds (d_step (t_dedup (turn_step parse tool_of t op)))) k = Some (Some r).
Proof.
  intros Hne [Hs _ _] Hk.
  assert (Hcheck : forall id tool args, jget (s_deferreds (d_step (checkSameStep id tool args (t_dedup t)).2)) k = Some (Some r)).
  { intros id tool args. unfold checkSameStep. destruct (jget (s_deferreds _) (makeKey tool args)) as [x|] eqn:E; [done|].
    cbn. rewrite jget_set_ne; [done|congruence]. }
  destruct op as [| |id args|id args raw|id result]; [done| | | |]; cbn [turn_step t_dedup].
  - unfold endStep. by destruct (fold_left _ _ _).
  - specialize (Hcheck id (tool_of id) args). by destruct (checkSameStep id _ args _).
  - by destruct (skipped_cases id (tool_of id) args raw (t_dedup t)) as [-> |(_ & args' & ->)].
  - destruct (finalize_cases id (tool_of id) result (t_dedup t) Hs); try done.
    cbn [drop_call s_deferreds]. rewrite resolve_get. case_decide; [subst|done]. by rewrite Hk.
Qed.

Lemma run_resolved ops k r : forall t, Forall (fun op => op <> Begin) ops -> turn_ok t -> proper parse tool_of ops t = true ->
  jget (s_deferreds (d_step (t_dedup t))) k = Some (Some r) ->
  jget (s_deferreds (d_step (t_dedup (run ops t)))) k = Some (Some r).
Proof.
  induction ops as [|op ops IH]; intros t Hb Ht Hp Hk; [done|]. apply Forall_cons in Hb as [Hop Hb].
  cbn [proper] in Hp. apply andb_true_iff in Hp as [H1 H2].
  apply IH; [done|by apply turn_step_keeps|done|by apply resolved_stays].
Qed.

(** C21. Equal calls of one step get one result: once the original is finalized, every
    duplicate registered in that step is answered with exactly what the original was,
    whatever happens in between; and a duplicate never waits for anything but its
    original, still to be finalized. *)
Theorem duplicates_share_result before id0 result0 between id result k i :
  Forall (fun op => op <> Begin) between ->
  proper parse tool_of (before ++ Finalize id0 result0 :: between) newTurn = true ->
  let t0 := run before newTurn in
  let t := run (before ++ Finalize id0 result0 :: between) newTurn in
  jget (s_keys (d_step (t_dedup t0))) id0 = Some k -> jget (s_originals (d_step (t_dedup t0))) id0 = Some i ->
  jget (s_keys (d_step (t_dedup t))) id = Some k -> id ∈ s_synthetic (d_step (t_dedup t)) ->
  (finalizeResult id (tool_of id) result (t_dedup t)).1 = (finalizeResult id0 (tool_of id0) result0 (t_dedup t0)).1 /\
  forall id' k', id' ∈ s_synthetic (d_step (t_dedup t)) ->
    (finalizeResult id' (tool_of id') result (t_dedup t)).1 = WaitsFor k' ->
    exists id'' j, jget (s_originals (d_step (t_dedup t))) id'' = Some j /\ jget (s_keys (d_step (t_dedup t))) id'' = Some k' /\ id'' <> id'.
Proof.
  intros Hb Hp t0 t Hk0 Hi Hk Hin. rewrite proper_app in Hp. apply andb_true_iff in Hp as [Hp0 Hp]. cbn [proper] in Hp.
  apply andb_true_iff in Hp as [Hpf Hpb]. pose proof (turn_run_ok before newTurn newTurn_ok Hp0) as Ht0. fold t0 in Ht0.
  pose proof (turn_step_keeps t0 _ Ht0 Hpf) as Ht1. set (t1 := turn_step parse tool_of t0 (Finalize id0 result0)) in *.
  assert (Et : t = run between t1) by (unfold t, turn_run; by rewrite fold_left_app).
  pose proof (turn_run_ok between t1 Ht1 Hpb) as Ht. rewrite <- Et in Ht. split.
  - destruct Ht0 as [Hs0 _ _]. assert (Hd0 : jget (s_deferreds (d_step (t_dedup t0))) k = Some None).
    { destruct Hs0 as [_ _ Hor _ _ _]. destruct (Hor _ _ Hi) as (k1 & H1 & _ & H2). congruence. }
    assert (Hno : id0 ∉ s_synthetic (d_step (t_dedup t0))).
    { destruct Hs0 as [_ _ _ Hsy _ _]. intros H. destruct (Hsy _ H). congruence. }
    assert (exists r0, (finalizeResult id0 (tool_of id0) result0 (t_dedup t0)).1 = Final r0 /\
      jget (s_deferreds (d_step (t_dedup t1))) k = Some (Some r0)) as (r0 & -> & Hr0).
    { change (t_dedup t1) with (finalizeResult id0 (tool_of id0) result0 (t_dedup t0)).2.
      destruct (finalize_cases id0 (tool_of id0) result0 (t_dedup t0) Hs0) as [|? ? ? ?|? ? ?|? ? ? ?|k1 j r H1 H2]; try congruence.
      exists r. split; [done|]. cbn [drop_call s_deferreds]. rewrite Hk0 in H1. injection H1 as <-.
      by rewrite resolve_get, decide_True, Hd0. }
    pose proof (run_resolved between k r0 t1 Hb Ht1 Hpb Hr0) as Hr. rewrite <- Et in Hr.
    destruct Ht as [Hs _ _]. assert (Hnone : jget (s_originals (d_step (t_dedup t))) id = None).
    { destruct Hs as [_ _ _ Hsy _ _]. by destruct (Hsy _ Hin). }
    destruct (finalize_cases id (tool_of id) result (t_dedup t) Hs); try done; congruence.
  - intros id' k' Hs'. destruct Ht as [Hs _ _].
    destruct (finalize_cases id' (tool_of id') result (t_dedup t) Hs) as [| |k1 H1 H2 H3| |]; try done.
    intros [= ->]. destruct Hs as [_ _ _ Hsy Hun _]. destruct (Hun _ H3) as (x & j & H4 & H5). exists x, j.
    split; [done|]. split; [done|]. intros ->. destruct (Hsy _ Hs'). congruence.
Qed.

(** ** Writes *)

Definition pending_original (d : dedup) (id k : jsstr) : Prop :=
  is_Some (jget (s_originals (d_step d)) id) /\ jget (s_keys (d_step d)) id = Some k.

Lemma finalize_successes id tool result d : step_ok (d_step d) ->
  d_successes (finalizeResult id tool result d).2 = d_successes d
  \/ exists k, pending_original d id k /\ tr_isError result = false /\ write_like tool = true /\
     d_successes (finalizeResult id tool result d).2 = jset (d_successes d) k (S (successes k d)).
Proof.
  intros Hok. unfold finalizeResult, pending_original. destruct (jget (s_keys (d_step d)) id) as [k|] eqn:Ek; [|by left].
  case_bool_decide; [by left; destruct (jget _ k) as [[]|]|].
  cbn [forget_call s_originals]. destruct (jget (s_originals (d_step d)) id) as [i|]; [|by left].
  set (d' := with_step d _). unfold finalizeOriginal. destruct (fold_left _ _ _) as [x n].
  destruct (if negb (tr_isError result) then (None, 0%nat) else count_key _ _) as [y m]. cbn [snd d_successes].
  destruct (tr_isError result), (write_like tool); cbn [negb andb]; try by left. right. exists k. by repeat split; eauto.
Qed.

Lemma finalize_counts id tool result d k i : step_ok (d_step d) -> jget (s_keys (d_step d)) id = Some k -> jget (s_originals (d_step d)) id = Some i ->
  write_like tool = true -> tr_isError result = false ->
  d_successes (finalizeResult id tool result d).2 = jset (d_successes d) k (S (successes k d)).
Proof.
  intros [_ _ _ Hsy _ _] Hk Hi Hw He. unfold finalizeResult. rewrite Hk. rewrite bool_decide_false by (intros Hin; cbn in Hin; destruct (Hsy _ Hin); congruence).
  cbn [forget_call s_originals]. rewrite Hi. set (d' := with_step d _). unfold finalizeOriginal. destruct (fold_left _ _ _) as [x n].
  rewrite He. cbn [negb]. rewrite Hw. done.
Qed.

Lemma finalize_pending id tool result d id' k : step_ok (d_step d) -> pending_original (finalizeResult id tool result d).2 id' k ->
  id' <> id /\ pending_original d id' k.
Proof.
  intros Hok. pose proof Hok as [Hk Ho Hor _ _ _]. unfold pending_original.
  destruct (finalize_cases id tool result d Hok) as [r Hu| | | |]; cbn [drop_call resolve s_originals s_keys].
  { intros [[i Hi] Hk']. split; [|by eauto]. intros ->. congruence. }
  all: rewrite !jget_del by done; case_decide; [by intros [[? ?] _]|]; intros [? ?]; by split.
Qed.

Record writes_ok (t : turn) : Prop := {
  writes_bounded k : (successes k (t_dedup t) <= 2)%nat;
  writes_pending id k : pending_original (t_dedup t) id k -> write_like (tool_of id) = true -> id ∉ t_refused t ->
    (successes k (t_dedup t) <= 1)%nat;
}.

Lemma check_pending id tool args d id' k : step_ok (d_step d) -> jget (s_keys (d_step d)) id = None ->
  pending_original (checkSameStep id tool args d).2 id' k ->
  pending_original d id' k \/ id' = id /\ (write_like tool = true -> refusal (checkSameStep id tool args d).1 = false -> (successes k d <= 1)%nat).
Proof.
  intros [_ _ Hor _ _ _] Hf. unfold checkSameStep, pending_original. set (key := makeKey tool args).
  destruct (jget (s_deferreds (d_step d)) key) as [r|]; cbn [fst snd with_step d_step s_originals s_keys].
  - intros [[i Hi] Hk]. left. destruct (Hor _ _ Hi) as (k' & Hk' & _). rewrite jget_set_ne in Hk by congruence. eauto.
  - destruct (decide (id' = id)) as [-> |Hne]; [|by rewrite !jget_set_ne by done; left].
    rewrite !jget_set_eq. intros [_ [= <-]]. right. split; [done|]. intros ->. cbn [andb].
    destruct (REPEAT_SUCCESS_BREAK_THRESHOLD <=? successes key d)%nat eqn:E; [done|]. apply Nat.leb_gt in E.
    unfold REPEAT_SUCCESS_BREAK_THRESHOLD in E. lia.
Qed.

Lemma check_successes id tool args d k : successes k (checkSameStep id tool args d).2 = successes k d.
Proof. unfold checkSameStep, successes. by destruct (jget (s_deferreds (d_step d)) _). Qed.

Lemma writes_step t op : turn_ok t -> proper_op t op = true -> writes_ok t -> writes_ok (turn_step parse tool_of t op).
Proof.
  intros [Hs _ _] Hp [Hb Hpe]. destruct op as [| |id args|id args raw|id result]; cbn [turn_step].
  - split; [done|]. intros id k [[i Hi] _]. done.
  - split; cbn [t_dedup t_refused].
    + intros k. specialize (Hb k). unfold endStep, successes in *. by destruct (fold_left _ _ _).
    + intros id k Hpo. specialize (Hpe id k). unfold endStep, successes, pending_original in *. by destruct (fold_left _ _ _); auto.
  - cbn in Hp. unfold jhas in Hp. assert (Hf : jget (s_keys (d_step (t_dedup t))) id = None) by (by destruct (jget _ id)).
    pose proof (check_pending id (tool_of id) args (t_dedup t)) as Hc. pose proof (check_successes id (tool_of id) args (t_dedup t)) as Hsu.
    destruct (checkSameStep id (tool_of id) args (t_dedup t)) as [r d]. cbn [fst snd] in *. split; cbn [t_dedup t_refused].
    + intros k. by rewrite Hsu.
    + intros x k Hx Hw Hr. rewrite Hsu. assert (Hr' : x ∉ t_refused t) by (destruct (refusal r); set_solver).
      destruct (Hc x k Hs Hf Hx) as [Hold|[-> Hnew]]; [by apply (Hpe x)|]. apply Hnew; [done|].
      destruct (refusal r); [|done]. by destruct Hr; left.
  - unfold jhas. destruct (skipped_cases id (tool_of id) args raw (t_dedup t)) as [-> |(Hf & args' & ->)].
    + split; cbn [t_dedup t_refused]; [done|]. intros x k Hx Hw Hr. apply (Hpe x k); auto. destruct (jget _ id); set_solver.
    + rewrite Hf. split; cbn [t_dedup t_refused]; [intros k; by rewrite check_successes|]. intros x k Hx Hw Hr.
      rewrite check_successes. destruct (check_pending _ _ _ _ _ _ Hs Hf Hx) as [Hold|[-> _]]; [|set_solver].
      apply (Hpe x); set_solver.
  - split; cbn [t_dedup t_refused].
    + intros k. destruct (finalize_successes id (tool_of id) result (t_dedup t) Hs) as [E|(k0 & Hpo & He & Hw & E)];
        unfold successes; rewrite E; [by apply Hb|]. destruct (decide (k = k0)) as [-> |Hne]; [|by rewrite jget_set_ne; [apply Hb|]].
      rewrite jget_set_eq. cbn. cbn in Hp. rewrite He, orb_false_r in Hp. case_bool_decide; [done|].
      specialize (Hpe id k0 Hpo Hw). lia || (assert (successes k0 (t_dedup t) <= 1)%nat by auto; lia).
    + intros x k Hx Hw Hr. destruct (finalize_pending _ _ _ _ _ _ Hs Hx) as [Hxi Hold].
      pose proof (Hpe x k Hold Hw Hr) as Hle.
      destruct (finalize_successes id (tool_of id) result (t_dedup t) Hs) as [E|(k0 & Hpo & _ & _ & E)]; unfold successes in *; rewrite E; [done|].
      rewrite jget_set_ne; [done|]. intros <-. destruct Hold as [[i Hi] Hki], Hpo as [[j Hj] Hkj].
      destruct Hs as [_ _ _ _ _ Hq]. by apply Hxi, (Hq x id i j k0).
Qed.

(** The calls let run are originals. *)
Definition running_ok (t : turn) : Prop := jwf (t_running t) /\ forall id k, jget (t_running t) id = Some k -> pending_original (t_dedup t) id k.

Lemma check_keeps_pending id tool args d x k : jget (s_keys (d_step d)) id = None -> pending_original d x k ->
  pending_original (checkSameStep id tool args d).2 x k.
Proof.
  unfold checkSameStep, pending_original. intros Hf [Ho Hk]. assert (x <> id) by congruence.
  destruct (jget (s_deferreds (d_step d)) _); cbn; by rewrite ?jget_set_ne.
Qed.

Lemma check_runs id tool args d : (checkSameStep id tool args d).1 = None ->
  pending_original (checkSameStep id tool args d).2 id (makeKey tool args).
Proof. unfold checkSameStep, pending_original. destruct (jget (s_deferreds (d_step d)) _); [done|]. intros _. cbn. rewrite !jget_set_eq. eauto. Qed.

Lemma finalize_keeps_pending id tool result d x k : step_ok (d_step d) -> x <> id -> pending_original d x k ->
  pending_original (finalizeResult id tool result d).2 x k.
Proof.
  intros Hok Hx. unfold pending_original. destruct (finalize_cases id tool result d Hok); cbn [drop_call resolve s_originals s_keys]; [done|..].
  all: by rewrite !jget_del_ne by done.
Qed.

Lemma running_step t op : turn_ok t -> proper_op t op = true -> running_ok t -> running_ok (turn_step parse tool_of t op).
Proof.
  intros [Hs _ _] Hp [Hw Hr]. destruct op as [| |id args|id args raw|id result]; cbn [turn_step].
  - split; [apply jwf_nil|done].
  - split; [done|]. intros id k Hk. specialize (Hr id k Hk). cbn [t_dedup]. unfold endStep, pending_original in *. by destruct (fold_left _ _ _).
  - cbn in Hp. unfold jhas in Hp. assert (Hf : jget (s_keys (d_step (t_dedup t))) id = None) by (by destruct (jget _ id)).
    pose proof (check_runs id (tool_of id) args (t_dedup t)) as Hn. pose proof (fun x k => check_keeps_pending id (tool_of id) args (t_dedup t) x k Hf) as Hc.
    destruct (checkSameStep id (tool_of id) args (t_dedup t)) as [[r|] d]; cbn [fst snd] in *; (split; cbn [t_running t_dedup]); [done|by auto|by apply jwf_set|].
    intros x k. rewrite jget_set. case_decide as E; [intros [= <-]; subst; by apply Hn|by auto].
  - split; [done|]. intros x k Hk. cbn [t_dedup]. destruct (skipped_cases id (tool_of id) args raw (t_dedup t)) as [-> |(Hf & args' & ->)]; [by auto|].
    apply check_keeps_pending; auto.
  - split; cbn [t_running t_dedup]; [by apply jwf_del|]. intros x k. rewrite jget_del by done. case_decide; [done|]. intros Hk.
    apply finalize_keeps_pending; auto.
Qed.

(** The guard counts every write that succeeds. *)
Lemma writes_counted t op k : turn_ok t -> running_ok t ->
  (writes_now tool_of k t op + successes k (t_dedup t) <= successes k (t_dedup (turn_step parse tool_of t op)))%nat.
Proof.
  intros [Hs _ _] [_ Hr]. destruct op as [| |id args|id args raw|id result]; cbn [writes_now turn_step Nat.add t_dedup]; [done|..].
  - unfold endStep, successes. by destruct (fold_left _ _ _).
  - pose proof (check_successes id (tool_of id) args (t_dedup t) k) as E. destruct (checkSameStep _ _ _ _). cbn [snd t_dedup] in *. lia.
  - destruct (skipped_cases id (tool_of id) args raw (t_dedup t)) as [-> |(_ & args' & ->)]; [done|]. by rewrite check_successes.
  - assert (Hw : write_like (tool_of id) = true -> tr_isError result = false -> jget (t_running t) id = Some k ->
      d_successes (finalizeResult id (tool_of id) result (t_dedup t)).2 = jset (d_successes (t_dedup t)) k (S (successes k (t_dedup t)))).
    { intros Hwl He Hk. destruct (Hr _ _ Hk) as [[i Hi] Hki]. by apply (finalize_counts id (tool_of id) result (t_dedup t) k i). }
    destruct (write_like (tool_of id)) eqn:Ewl; cbn [andb].
    2: { destruct (finalize_successes id (tool_of id) result (t_dedup t) Hs) as [E|(k0 & _ & _ & E & _)]; [unfold successes; by rewrite E|congruence]. }
    destruct (finalize_successes id (tool_of id) result (t_dedup t) Hs) as [E|(k0 & Hp0 & He & _ & E)].
    + destruct (tr_isError result) eqn:Ee; cbn [negb]; [unfold successes; by rewrite E|]. case_bool_decide as Hk; [|unfold successes; by rewrite E].
      unfold successes. rewrite (Hw eq_refl eq_refl Hk), jget_set_eq. cbn. unfold successes. lia.
    + rewrite He. cbn [negb]. case_bool_decide as Hk.
      * unfold successes. rewrite (Hw eq_refl He Hk), jget_set_eq. cbn. unfold successes. lia.
      * unfold successes. rewrite E, jget_set. case_decide; [subst; cbn; unfold successes; lia|done].
Qed.

Lemma writes_run k ops : forall t, turn_ok t -> running_ok t -> writes_ok t -> proper parse tool_of ops t = true ->
  (times_written parse tool_of k ops t + successes k (t_dedup t) <= 2)%nat.
Proof.
  induction ops as [|op ops IH]; intros t Ht Hr Hw Hp; cbn [times_written]; [by apply writes_bounded|].
  cbn [proper] in Hp. apply andb_true_iff in Hp as [H1 H2].
  specialize (IH _ (turn_step_keeps _ _ Ht H1) (running_step _ _ Ht H1 Hr) (writes_step _ _ Ht H1 Hw) H2).
  pose proof (writes_counted t op k Ht Hr). lia.
Qed.

(** C23. A turn does not repeat a write for ever: of the calls of [Write] or [Edit] with
    the same arguments, up to the order of their fields, at most two of those let run end
    without an error, for any sequence of steps in which calls have fresh ids, a refused
    or skipped call ends with an error, and calls are finalized in the step that issued
    them. *)
Theorem write_succeeds_at_most_twice ops k : proper parse tool_of ops newTurn = true ->
  (times_written parse tool_of k ops newTurn <= 2)%nat.
Proof.
  intros Hp. assert (successes k (t_dedup newTurn) = 0%nat) as E by done.
  pose proof (writes_run k ops newTurn newTurn_ok) as H. rewrite E, Nat.add_0_r in H. apply H; [|split|done].
  - split; [apply jwf_nil|done].
  - intros x. cbn. lia.
  - by intros id x [[i Hi] _].
Qed.
End properties.

(** Which calls are the same. *)
Lemma makeKey_iff t1 t2 a1 a2 : free 32 t1 -> free 32 t2 -> json_wf a1 -> json_wf a2 ->
  makeKey t1 a1 = makeKey t2 a2 <-> t1 = t2 /\ json_equiv a1 a2.
Proof.
  intros H1 H2 W1 W2. unfold makeKey. change (js " ") with [32%N]. cbn [app]. split.
  - intros E. pose proof (break_on_app 32 t1 (stableStringify a1) H1) as B1. rewrite E, break_on_app in B1 by done.
    injection B1 as -> Es. split; [done|]. by apply stringify_iff.
  - intros [-> He]. f_equal. f_equal. by apply stringify_iff.
Qed.

(** * Examples *)

Definition ex_tool (id : jsstr) : jsstr := if bool_decide (id = js "w1") || bool_decide (id = js "w2") || bool_decide (id = js "w3") then js "Write" else js "Bash".
Definition ex_args (order : bool) : json :=
  if order then JObject [(js "a", JNumber 1); (js "b", JNumber 2)] else JObject [(js "b", JNumber 2); (js "a", JNumber 1)].
Definition ex_result (out : string) : tool_result := ToolResult (OutText (js out)) false false None false None None.
Definition no_parse (s : jsstr) : option json := None.

Definition ex_step (id : string) (order : bool) : list dedup_op :=
  [Begin; Check_ (js id) (ex_args order); Finalize (js id) (ex_result "done"); End_].
Definition eleven_steps : list dedup_op := mbind (fun b => ex_step "c" b) [true; false; true; true; false; true; true; false; true; true; false].

Definition twelfth : list dedup_op := eleven_steps ++ [Begin; Check_ (js "c") (ex_args true)].
Definition twelfth_key : jsstr := makeKey (js "Bash") (ex_args true).


(** A refusal of the guard gets the pending notice, and no reminder, after three blocked
    steps. *)
Example notice_on_refusal :
  let refused := error_result (js "[loop guard] refused") in
  let step id := [Begin; Check_ (js id) (ex_args true); Finalize (js id) refused; End_] in
  let t := turn_run no_parse ex_tool (step "c" ++ step "d" ++ step "e" ++ [Begin; Check_ (js "f") (ex_args true)]) newTurn in
  (finalizeResult (js "f") (js "Bash") refused (t_dedup t)).1 = Final (appendReminder refused (makeBlockedStreakText 3)).
Proof. vm_compute. reflexivity. Qed.

Definition dup_before : list dedup_op := [Begin; Check_ (js "x") (ex_args true)].
Definition dup_between : list dedup_op := [Check_ (js "y") (ex_args false); Check_ (js "z") JNull; Finalize (js "z") (ex_result "other")].

Lemma duplicates_share_result_witness :
  (finalizeResult (js "y") (js "Bash") DEDUP_PLACEHOLDER_RESULT
     (t_dedup (turn_run no_parse ex_tool (dup_before ++ Finalize (js "x") (ex_result "real") :: dup_between) newTurn))).1
  = Final (ex_result "real").
Proof.
  destruct (duplicates_share_result no_parse ex_tool dup_before (js "x") (ex_result "real") dup_between (js "y") DEDUP_PLACEHOLDER_RESULT
    (makeKey (js "Bash") (ex_args true)) 0) as [H _].
  - repeat constructor; discriminate.
  - vm_compute. reflexivity.
  - vm_compute. reflexivity.
  - vm_compute. reflexivity.
  - vm_compute. reflexivity.
  - vm_compute. by left.
  - etransitivity; [exact H|]. vm_compute. reflexivity.
Defined.

Definition three_writes : list dedup_op :=
  ex_step "w1" true ++ ex_step "w2" false ++ [Begin; Check_ (js "w3") (ex_args true); Finalize (js "w3") (error_result (js "refused"))].

Lemma write_succeeds_at_most_twice_witness :
  (times_written no_parse ex_tool (makeKey (js "Write") (ex_args true)) three_writes newTurn <= 2)%nat /\
  times_written no_parse ex_tool (makeKey (js "Write") (ex_args true)) three_writes newTurn = 2%nat /\
  t_refused (turn_run no_parse ex_tool three_writes newTurn) = [js "w3"].
Proof.
  split; [|split; vm_compute; reflexivity]. apply write_succeeds_at_most_twice. vm_compute. reflexivity.
Defined.

(** After a retried request: the call of the failed attempt is ended as not executed, and
    the same call of the final response, a duplicate in the same step, is answered with
    that and never runs. *)
Example retried_call_never_runs :
  let d := (checkSameStep (js "old") (js "Bash") (ex_args true) (beginStep newDedup)).2 in
  let d := (finalizeResult (js "old") (js "Bash") (error_result RETRIED_PREPARATION_DISCARD_OUTPUT) d).2 in
  let '(r, d) := checkSameStep (js "new") (js "Bash") (ex_args true) d in
  r = Some DEDUP_PLACEHOLDER_RESULT /\
  (finalizeResult (js "new") (js "Bash") DEDUP_PLACEHOLDER_RESULT d).1 = Final (error_result RETRIED_PREPARATION_DISCARD_OUTPUT).
Proof. vm_compute. split; reflexivity. Qed.
