(* ===== verification/ToolBudget.v ===== *)
(** The size budget of a tool result: [agent/turn/tool-result-budget.ts]. A text that is
    too long is saved to a file and replaced by a preview that names the file. The path
    functions, the hash and the file system are arguments. *)

From S2P Require Import Prelude JsMap Json JsonText JsString Messages ContextMemory ToolCalls.

(** * Sizes *)

Definition TOOL_RESULT_MAX_BYTES : Z := 50 * 1024.
Definition TOOL_RESULT_MAX_LINES : Z := 2000.
Definition TOOL_RESULT_PREVIEW_HEAD_CHARS : Z := 2000.
Definition TOOL_RESULT_PREVIEW_TAIL_CHARS : Z := 2000.

Record budget_thresholds : Type := BudgetThresholds {
  o_maxBytes : option Z;
  o_maxLines : option Z;
  o_previewHeadChars : option Z;
  o_previewTailChars : option Z;
  o_previewHeadLines : option Z;
  o_previewTailLines : option Z;
}.

Definition no_thresholds : budget_thresholds := BudgetThresholds None None None None None None.

Record resolved_thresholds : Type := ResolvedThresholds {
  maxBytes : Z;
  maxLines : Z;
  previewHeadChars : Z;
  previewTailChars : Z;
  previewHeadLines : option Z;
  previewTailLines : option Z;
}.

Definition resolveToolResultBudgetThresholds (t : budget_thresholds) : resolved_thresholds :=
  ResolvedThresholds (default TOOL_RESULT_MAX_BYTES (o_maxBytes t)) (default TOOL_RESULT_MAX_LINES (o_maxLines t))
    (default TOOL_RESULT_PREVIEW_HEAD_CHARS (o_previewHeadChars t)) (default TOOL_RESULT_PREVIEW_TAIL_CHARS (o_previewTailChars t))
    (o_previewHeadLines t) (o_previewTailLines t).

(** [Buffer.byteLength(text, 'utf8')]: a lone surrogate is encoded as U+FFFD. *)
Definition char_bytes (c : jsstr) : Z :=
  match c with
  | [u] => if (u <? 128)%N then 1 else if (u <? 2048)%N then 2 else 3
  | _ => 4
  end.
Definition byteLength (text : jsstr) : Z := sum_of char_bytes (code_points text).

Definition countLines (text : jsstr) : Z := fold_left (fun n u => if (u =? 10)%N then n + 1 else n) text 1.

Definition exceedsToolResultBudget (text : jsstr) (t : resolved_thresholds) : bool :=
  (maxBytes t <? byteLength text) || (maxLines t <? countLines text).

Definition extract_part (p : content_part) : option jsstr := match p with TextPart text => Some text | _ => None end.

(** The text of an output, if it has nothing else. *)
Definition extractToolResultText (o : tool_output) : option jsstr :=
  match o with
  | OutText text => Some text
  | OutParts ps => (fun ts => concat ts) <$> mapM extract_part ps
  end.

(** * The preview *)

Definition preview_header (toolCallId : jsstr) (toolName : option jsstr) (text outputPath : jsstr) (t : resolved_thresholds) : list jsstr :=
  [js "Tool output exceeded the size limit (" ++ string_of_int (maxBytes t) ++ js " bytes or " ++ string_of_int (maxLines t) ++
     js " lines); the full output was saved to a file."] ++
  (match toolName with Some n => [js "tool_name: " ++ n] | None => [] end) ++
  [js "tool_call_id: " ++ toolCallId;
   js "output_size_chars: " ++ string_of_int (blen text);
   js "output_size_bytes: " ++ string_of_int (byteLength text);
   js "output_path: " ++ outputPath;
   js "next_step: Use Read with output_path (offset/limit) or Grep to search the full output instead of re-running the tool."].

Definition whole_preview (text : jsstr) : list jsstr := [[]; js "[preview]"; text].
Definition split_preview (head tail : jsstr) : list jsstr := [[]; js "[preview head]"; head; []; js "[preview tail]"; tail].

Definition preview_lines (text : jsstr) (t : resolved_thresholds) : list jsstr :=
  if blen text <=? previewHeadChars t + previewTailChars t then whole_preview text
  else match previewHeadLines t, previewTailLines t with
       | Some h, Some l =>
           let textLines := split_on 10 text in
           let headLines := Z.max 0 h in
           let tailLines := Z.max 0 l in
           if blen textLines <=? headLines + tailLines then whole_preview text
           else split_preview (join_with [10]%N (slice_to textLines headLines))
                  (join_with [10]%N (slice_from textLines (blen textLines - tailLines)))
       | _, _ => split_preview (slice_to text (previewHeadChars t)) (slice_from text (blen text - previewTailChars t))
       end.

Definition renderPersistedToolResult (toolCallId : jsstr) (toolName : option jsstr) (text outputPath : jsstr) (t : resolved_thresholds) : jsstr :=
  join_with [10]%N (preview_header toolCallId toolName text outputPath t ++ preview_lines text t).

(** * File names *)

Definition stem_char (u : N) : bool :=
  (((97 <=? u) && (u <=? 122)) || ((65 <=? u) && (u <=? 90)) || ((48 <=? u) && (u <=? 57)) || (u =? 46) || (u =? 95) || (u =? 45))%N.

(** [label.replace(/[^a-zA-Z0-9._-]+/g, '_')]: a run becomes one underscore. *)
Fixpoint replace_runs (in_run : bool) (s : jsstr) : jsstr :=
  match s with
  | [] => []
  | u :: s' =>
      if stem_char u then u :: replace_runs false s'
      else if in_run then replace_runs true s' else 95%N :: replace_runs true s'
  end.

Fixpoint drop_underscores (s : jsstr) : jsstr :=
  match s with u :: s' => if (u =? 95)%N then drop_underscores s' else s | [] => [] end.

Definition safeToolResultFileStem (label : jsstr) : jsstr :=
  let stem := slice_to (rev (drop_underscores (rev (drop_underscores (replace_runs false label))))) 80 in
  if bool_decide (stem = []) then js "tool-result" else stem.

Section paths.
(** [join] of pathe and the hexadecimal SHA-256 of a text. *)
Context (path_join : list jsstr -> jsstr) (sha256_hex : jsstr -> jsstr).

Definition persistedToolResultPath (homedir toolCallId text : jsstr) : jsstr :=
  path_join [homedir; js "tool-results"; safeToolResultFileStem toolCallId ++ js "-" ++ slice_to (sha256_hex text) 8 ++ js ".txt"].

(** The path [saveToolResult] writes to; [uuid] is its random part. *)
Definition saved_path (homedir toolName toolCallId uuid : jsstr) : jsstr :=
  path_join [path_join [homedir; js "tool-results"];
             safeToolResultFileStem (toolName ++ js "-" ++ toolCallId) ++ js "-" ++ uuid ++ js ".txt"].

(** [written] says whether the directory and the file could be written. *)
Definition saveToolResult (written : jsstr -> jsstr -> bool) (uuid homedir toolName toolCallId text : jsstr) : option jsstr :=
  let outputPath := saved_path homedir toolName toolCallId uuid in
  if written outputPath text then Some outputPath else None.

Definition budgetToolResultForModel (written : jsstr -> jsstr -> bool) (uuid : jsstr) (homedir : option jsstr)
    (toolName toolCallId : jsstr) (r : tool_result) (thresholds : budget_thresholds) : tool_result :=
  let t := resolveToolResultBudgetThresholds thresholds in
  match extractToolResultText (tr_output r) with
  | None => r
  | Some text =>
      if negb (exceedsToolResultBudget text t) then r
      else if tr_truncated r then r
      else match homedir with
           | None => r
           | Some homedir =>
               match saveToolResult written uuid homedir toolName toolCallId text with
               | None => r
               | Some outputPath =>
                   ToolResult (OutText (renderPersistedToolResult toolCallId (Some toolName) text outputPath t))
                     (tr_isError r) (tr_stopTurn r) (tr_note r) (tr_truncated r) (tr_display r) (tr_structured r)
               end
           end
  end.
End paths.

(** * Facts *)

Lemma char_bytes_pos c : 0 < char_bytes c.
Proof. unfold char_bytes. repeat case_match; lia. Qed.

Lemma countLines_acc text : forall n, fold_left (fun n u => if (u =? 10)%N then n + 1 else n) text n = n - 1 + countLines text.
Proof.
  unfold countLines. induction text as [|u text IH]; intros n; cbn [fold_left]; [lia|].
  rewrite IH, (IH (if (u =? 10)%N then 1 + 1 else 1)). destruct (u =? 10)%N; lia.
Qed.

(** Lines are what splitting at line feeds gives. *)
Lemma countLines_split text : countLines text = blen (split_on 10 text).
Proof.
  induction text as [|u text IH]; [done|]. unfold countLines. cbn [fold_left]. rewrite countLines_acc, IH.
  pose proof (split_on_nonempty 10 text). cbn [split_on]. unfold blen. destruct (u =? 10)%N; [cbn [length]; lia|].
  destruct (split_on 10 text); [done|]. cbn [length]. lia.
Qed.

Lemma join_with_app sep a b : a <> [] -> b <> [] -> join_with sep (a ++ b) = join_with sep a ++ sep ++ join_with sep b.
Proof.
  intros Ha Hb. induction a as [|x a IH]; [done|]. destruct a as [|y a].
  - cbn [app]. by rewrite join_with_cons.
  - change ((x :: y :: a) ++ b) with (x :: ((y :: a) ++ b)). rewrite !join_with_cons, IH by done. by rewrite <- !app_assoc.
Qed.

(** A text longer than both windows is shown by its first and its last characters: the
    preview is the header followed by both, and nothing of them is lost or shown twice. *)
Lemma preview_keeps_ends id nm text path t :
  0 <= previewHeadChars t -> 0 <= previewTailChars t -> previewHeadLines t = None \/ previewTailLines t = None ->
  previewHeadChars t + previewTailChars t < blen text ->
  exists head middle tail, text = head ++ middle ++ tail /\ blen head = previewHeadChars t /\ blen tail = previewTailChars t /\
    renderPersistedToolResult id nm text path t =
      join_with [10]%N (preview_header id nm text path t) ++ [10]%N ++
      join_with [10]%N [[]; js "[preview head]"; head; []; js "[preview tail]"; tail].
Proof.
  intros H1 H2 H3 H4. set (h := Z.to_nat (previewHeadChars t)). set (l := Z.to_nat (blen text - previewTailChars t)).
  assert (Hhl : (h <= l)%nat) by (subst h l; lia). assert (Hl : (l <= length text)%nat) by (subst l; unfold blen in *; lia).
  exists (take h text), (drop h (take l text)), (drop l text). split_and!.
  - rewrite app_assoc. rewrite <- (take_drop l text) at 1. f_equal. rewrite <- (take_drop h (take l text)) at 1. f_equal.
    rewrite take_take. f_equal. lia.
  - unfold blen in *. rewrite length_take. lia.
  - unfold blen in *. rewrite length_drop. subst l. unfold blen in *. lia.
  - unfold renderPersistedToolResult. rewrite join_with_app by (unfold preview_header, preview_lines, whole_preview, split_preview; repeat case_match; done).
    f_equal. f_equal. f_equal. unfold preview_lines. rewrite (proj2 (Z.leb_gt _ _)) by lia.
    assert (Hs : match previewHeadLines t, previewTailLines t with Some _, Some _ => False | _, _ => True end) by (destruct H3 as [->| ->]; [done|by destruct (previewHeadLines t)]).
    unfold slice_to, slice_from, slice_at. rewrite !(proj2 (Z.ltb_ge _ _)) by lia.
    destruct (previewHeadLines t), (previewTailLines t); done.
Qed.

(** A text within both windows is shown whole. *)
Lemma short_preview_whole id nm text path t : blen text <= previewHeadChars t + previewTailChars t ->
  renderPersistedToolResult id nm text path t =
    join_with [10]%N (preview_header id nm text path t) ++ [10]%N ++ join_with [10]%N [[]; js "[preview]"; text].
Proof.
  intros H. unfold renderPersistedToolResult. rewrite join_with_app by (unfold preview_header, preview_lines, whole_preview, split_preview; repeat case_match; done).
  do 3 f_equal. unfold preview_lines. by rewrite (proj2 (Z.leb_le _ _) H).
Qed.

(** Every character of a stem is safe in a file name, and a stem is never empty or
    longer than 80 characters. *)
Lemma stem_safe label : let s := safeToolResultFileStem label in
  Forall (fun u => stem_char u = true) s /\ s <> [] /\ blen s <= 80.
Proof.
  assert (Hd : forall s, Forall (fun u => stem_char u = true) s -> Forall (fun u => stem_char u = true) (drop_underscores s)).
  { induction s as [|u s IH]; intros H; [done|]. cbn [drop_underscores]. case_match; [|done]. apply Forall_cons in H as [_ H]. by apply IH. }
  assert (Hr : forall s b, Forall (fun u => stem_char u = true) (replace_runs b s)).
  { induction s as [|u s IH]; intros b; [done|]. cbn [replace_runs]. destruct (stem_char u) eqn:E; [by constructor|].
    destruct b; [done|]. by constructor. }
  cbv zeta. unfold safeToolResultFileStem. cbv zeta. case_bool_decide as E.
  - split_and!; [by repeat constructor|done|done].
  - split_and!; [|done|].
    + apply Forall_take, Forall_rev, Hd, Forall_rev, Hd, Hr.
    + unfold slice_to, blen. rewrite length_take. change (slice_at _ 80) with 80%nat. lia.
Qed.

(** When a result is replaced, and by what. *)
Lemma budget_result path_join written uuid homedir nm id r th :
  let t := resolveToolResultBudgetThresholds th in
  let r' := budgetToolResultForModel path_join written uuid homedir nm id r th in
  r' = r \/
  exists text dir, extractToolResultText (tr_output r) = Some text /\ homedir = Some dir /\ tr_truncated r = false /\
    (maxBytes t < byteLength text \/ maxLines t < blen (split_on 10 text)) /\
    written (saved_path path_join dir nm id uuid) text = true /\
    tr_output r' = OutText (renderPersistedToolResult id (Some nm) text (saved_path path_join dir nm id uuid) t) /\
    tr_isError r' = tr_isError r /\ tr_note r' = tr_note r /\ tr_stopTurn r' = tr_stopTurn r.
Proof.
  cbv zeta. unfold budgetToolResultForModel. cbv zeta. destruct (extractToolResultText (tr_output r)) as [text|] eqn:E; [|by left].
  destruct (exceedsToolResultBudget text _) eqn:Ex; [|by left]. cbn [negb]. destruct (tr_truncated r) eqn:Et; [by left|].
  destruct homedir as [dir|]; [|by left]. unfold saveToolResult. cbv zeta.
  destruct (written (saved_path path_join dir nm id uuid) text) eqn:Ew; [|by left]. right. exists text, dir.
  split_and!; try done. unfold exceedsToolResultBudget in Ex. rewrite countLines_split, orb_true_iff, !Z.ltb_lt in Ex. done.
Qed.

Example bytes_of_text : byteLength [65; 233; 8364; 55357; 56832; 55357]%N = 1 + 2 + 3 + 4 + 3.
Proof. reflexivity. Qed.

Example stems :
  safeToolResultFileStem (js "Bash-call/../x y") = js "Bash-call_.._x_y" /\ safeToolResultFileStem (js "///") = js "tool-result".
Proof. split; vm_compute; reflexivity. Qed.
