(* ===== verification/Graduated.v ===== *)
(** The cheap layers of compaction and the view a request is made from:
    [agent/compaction/graduated.ts], [compaction/strategy.ts], [context/dynamic-tools.ts]
    and [ContextMemory.project]. Layers rewrite or drop parts of the view; the history
    stays. The cutoffs and sets are the state; the memo of the savings is left out.
    Awaiting the file writes splits [tryArmToolResultBudget] in three. *)

From S2P Require Import Prelude JsMap Json JsonText JsString Messages Projector Handoff ContextMemory ToolBudget.
From Stdlib Require Import QArith.

#[local] Open Scope Z_scope.

(** * Configuration *)

Record budget_config : Type := BudgetConfig {
  b_enabled : bool;
  b_triggerRatio : Q;
  b_maxBytes : Z;
  b_maxLines : Z;
  b_keepRecentMessages : Z;
  b_previewHeadChars : Z;
  b_previewTailChars : Z;
}.

Record clear_config : Type := ClearConfig {
  c_enabled : bool;
  c_triggerRatio : Q;
  c_keepRecentMessages : Z;
  minContentTokens : Z;
  clearedMarker : jsstr;
}.

Record drain_config : Type := DrainConfig { d_enabled : bool; d_keepRecentMessages : Z }.

Record graduated_config : Type := GraduatedConfig {
  toolResultBudget : budget_config;
  pinpointClear : clear_config;
  ptlDrain : drain_config;
}.

Definition DEFAULT_GRADUATED_COMPACTION_CONFIG : graduated_config :=
  GraduatedConfig
    (BudgetConfig true (7 # 10) (16 * 1024) 400 20 1000 1000)
    (ClearConfig true (78 # 100) 20 100 (js "[Old tool result content cleared]"))
    (DrainConfig true 20).

Definition PTL_DRAIN_GAP_SAFETY_FACTOR : Q := 11 # 10.
Definition PTL_DRAIN_FALLBACK_RATIO : Q := 2 # 10.

(** * State *)

Record layer_stats : Type := LayerStats { applications : Z; replacedResults : Z; savedTokens : Z }.
Record drain_stats : Type := DrainStats { d_applications : Z; droppedRounds : Z; droppedTokens : Z }.

Record graduated : Type := Graduated {
  budgetCutoff : Z;
  clearCutoff : Z;
  drainCutoff : Z;
  budgetReplacements : gmap jsstr (list content_part);
  clearEligible : gset jsstr;
  realizedSavingsBaseline : Z;
  budgetStats : layer_stats;
  clearStats : layer_stats;
  drainStats : drain_stats;
}.

Definition newGraduated : graduated := Graduated 0 0 0 ∅ ∅ 0 (LayerStats 0 0 0) (LayerStats 0 0 0) (DrainStats 0 0 0).

Definition with_budget (g : graduated) (cutoff : Z) (r : gmap jsstr (list content_part)) : graduated :=
  Graduated cutoff (clearCutoff g) (drainCutoff g) r (clearEligible g) (realizedSavingsBaseline g) (budgetStats g) (clearStats g) (drainStats g).
Definition with_clear (g : graduated) (cutoff : Z) (s : gset jsstr) : graduated :=
  Graduated (budgetCutoff g) cutoff (drainCutoff g) (budgetReplacements g) s (realizedSavingsBaseline g) (budgetStats g) (clearStats g) (drainStats g).
Definition with_drain (g : graduated) (cutoff : Z) : graduated :=
  Graduated (budgetCutoff g) (clearCutoff g) cutoff (budgetReplacements g) (clearEligible g) (realizedSavingsBaseline g) (budgetStats g) (clearStats g) (drainStats g).
Definition with_baseline (g : graduated) (n : Z) : graduated :=
  Graduated (budgetCutoff g) (clearCutoff g) (drainCutoff g) (budgetReplacements g) (clearEligible g) n (budgetStats g) (clearStats g) (drainStats g).
Definition with_stats (g : graduated) (b c : layer_stats) (d : drain_stats) : graduated :=
  Graduated (budgetCutoff g) (clearCutoff g) (drainCutoff g) (budgetReplacements g) (clearEligible g) (realizedSavingsBaseline g) b c d.

Inductive layer : Type := ToolResultBudget | PinpointClear | PtlDrain | UnknownLayer (name : jsstr).
Record layer_record : Type := LayerApply { l_layer : layer; l_cutoff : Z }.

Record pending_persist : Type := PendingPersist { p_id : jsstr; p_path : jsstr; p_text : jsstr }.

(** The id of a tool result. *)
Definition result_id (m : message) : option jsstr := if is_tool m then toolCallId m else None.

Definition within (history : list context_message) (cutoff : Z) : list context_message :=
  take (Z.to_nat (Z.min cutoff (blen history))) history.

Section layers.
Context (config : graduated_config) (homedir : option jsstr).
Context (path_join : list jsstr -> jsstr) (sha256_hex : jsstr -> jsstr).
(** [getBuiltinTool(name)?.snipHint]: the head and tail lines of a tool. *)
Context (snipHint : jsstr -> option (Z * Z)).

Abbreviation bcfg := (toolResultBudget config).
Abbreviation ccfg := (pinpointClear config).
Abbreviation dcfg := (ptlDrain config).

(** * The projection *)

Definition clearedMarkerParts : list content_part := [TextPart (clearedMarker ccfg)].
Definition clearedMarkerTokens : Z := estimateTokensForContentParts clearedMarkerParts.

(** The content a result is sent with; [None] when it is the original. *)
Definition rewritten (g : graduated) (m : message) : option (list content_part) :=
  match result_id m with
  | None => None
  | Some id =>
      let persisted := budgetReplacements g !! id in
      if bool_decide (id ∈ clearEligible g) &&
         (minContentTokens ccfg <=? estimateTokensForContentParts (default (content m) persisted))
      then Some clearedMarkerParts
      else persisted
  end.

Definition rewrite_message (g : graduated) (m : context_message) : context_message :=
  match rewritten g (base m) with Some c => with_base m (with_content (base m) c) | None => m end.

Definition applyToProjection (g : graduated) (ms : list context_message) : list context_message := rewrite_message g <$> ms.

(** * Savings *)

Definition message_saving (g : graduated) (m : context_message) : Z :=
  match result_id (base m) with
  | None => 0
  | Some id =>
      let originalTokens := estimateTokensForContentParts (content (base m)) in
      let projectedTokens := match budgetReplacements g !! id with
                             | Some persisted => estimateTokensForContentParts persisted
                             | None => originalTokens
                             end in
      let projectedTokens := if bool_decide (id ∈ clearEligible g) && (minContentTokens ccfg <=? projectedTokens)
                             then clearedMarkerTokens else projectedTokens in
      originalTokens - projectedTokens
  end.

Definition currentSavings (g : graduated) (history : list context_message) : Z :=
  let drainLimit := Z.to_nat (Z.min (drainCutoff g) (blen history)) in
  estimateTokensForMessages (base <$> take drainLimit history) + sum_of (message_saving g) (drop drainLimit history).

Definition unarmed (g : graduated) : bool :=
  (drainCutoff g =? 0) && bool_decide (budgetReplacements g = ∅) && bool_decide (clearEligible g = ∅).

Definition effectiveTokenCount (g : graduated) (c : ContextMemory.context) : Z :=
  let raw := tokenCountWithPending c in
  if unarmed g then raw
  else raw - Z.max 0 (currentSavings g (history c) - realizedSavingsBaseline g).

Definition onProviderUsageRealized (g : graduated) (history : list context_message) : graduated :=
  if unarmed g then g else with_baseline g (currentSavings g history).

Definition layer_saving (g : graduated) (l : layer) (m : context_message) : Z :=
  match result_id (base m) with
  | None => 0
  | Some id =>
      match l with
      | ToolResultBudget =>
          match budgetReplacements g !! id with
          | None => 0
          | Some persisted => estimateTokensForContentParts (content (base m)) - estimateTokensForContentParts persisted
          end
      | _ =>
          if negb (bool_decide (id ∈ clearEligible g)) then 0
          else
            let baseTokens := estimateTokensForContentParts (default (content (base m)) (budgetReplacements g !! id)) in
            if baseTokens <? minContentTokens ccfg then 0 else baseTokens - clearedMarkerTokens
      end
  end.

Definition measureLayerSavings (g : graduated) (l : layer) (history : list context_message) : Z :=
  sum_of (layer_saving g l) history.

(** * Arming the budget layer *)

(** The name of each call, the last one of an id. *)
Definition tool_names (history : list context_message) : gmap jsstr jsstr :=
  fold_left (fun names m =>
    if is_assistant (base m) then fold_left (fun names c => <[call_id c := call_name c]> names) (toolCalls (base m)) names
    else names) history ∅.

Definition base_thresholds : resolved_thresholds :=
  resolveToolResultBudgetThresholds
    (BudgetThresholds (Some (b_maxBytes bcfg)) (Some (b_maxLines bcfg)) (Some (b_previewHeadChars bcfg)) (Some (b_previewTailChars bcfg)) None None).

Definition hinted_thresholds (names : gmap jsstr jsstr) (id : jsstr) : resolved_thresholds :=
  match (names !! id) ≫= snipHint with
  | None => base_thresholds
  | Some (head, tail) =>
      resolveToolResultBudgetThresholds
        (BudgetThresholds (Some (b_maxBytes bcfg)) (Some (b_maxLines bcfg)) (Some (b_previewHeadChars bcfg)) (Some (b_previewTailChars bcfg))
           (Some head) (Some tail))
  end.

(** What the loop of [armToolResultBudget] does with one message. *)
Definition arm_one (dir : jsstr) (names : gmap jsstr jsstr) (acc : gmap jsstr (list content_part) * list pending_persist) (m : context_message)
    : gmap jsstr (list content_part) * list pending_persist :=
  match result_id (base m) with
  | None => acc
  | Some id =>
      match acc.1 !! id with
      | Some _ => acc
      | None =>
          if bool_decide (isError m = Some true) then acc
          else match extractToolResultText (OutParts (content (base m))) with
               | None => acc
               | Some text =>
                   if negb (exceedsToolResultBudget text base_thresholds) then acc
                   else
                     let outputPath := persistedToolResultPath path_join sha256_hex dir id text in
                     (<[id := [TextPart (renderPersistedToolResult id None text outputPath (hinted_thresholds names id))]]> acc.1,
                      acc.2 ++ [PendingPersist id outputPath text])
               end
      end
  end.

Definition armToolResultBudget (g : graduated) (history : list context_message) (cutoff : Z) : graduated * list pending_persist :=
  let newCutoff := Z.max (budgetCutoff g) cutoff in
  match homedir with
  | None => (with_budget g newCutoff (budgetReplacements g), [])
  | Some dir =>
      let r := fold_left (arm_one dir (tool_names history)) (within history cutoff) (budgetReplacements g, []) in
      (with_budget g newCutoff r.1, r.2)
  end.

(** One file is written, or its result keeps its content. *)
Definition persist_one (written : jsstr -> jsstr -> bool) (g : graduated) (p : pending_persist) : graduated :=
  if written (p_path p) (p_text p) then g else with_budget g (budgetCutoff g) (delete (p_id p) (budgetReplacements g)).

Definition persistBudgetReplacements (written : jsstr -> jsstr -> bool) (g : graduated) (pending : list pending_persist) : graduated :=
  fold_left (persist_one written) pending g.

(** * Arming the clear layer *)

Definition clearable (m : context_message) : option jsstr :=
  match result_id (base m) with
  | None => None
  | Some id =>
      if bool_decide (isError m = Some true) then None
      else if estimateTokensForContentParts (content (base m)) <? minContentTokens ccfg then None else Some id
  end.

Definition rebuildClearEligible (g : graduated) (history : list context_message) : graduated :=
  with_clear g (clearCutoff g) (list_to_set (omap clearable (within history (clearCutoff g)))).

Definition armPinpointClear (g : graduated) (history : list context_message) (cutoff : Z) : graduated :=
  rebuildClearEligible (with_clear g (Z.max (clearCutoff g) cutoff) (clearEligible g)) history.

(** * Arming on pressure *)

(** A ratio of the window is not reached. *)
Definition below (tokens maxSize : Z) (ratio : Q) : bool := negb (Qle_bool (inject_Z maxSize * ratio) (inject_Z tokens)).

Definition next_cutoff (c : ContextMemory.context) (keepRecent : Z) : Z := Z.max 0 (blen (entries c) - keepRecent).

Definition should_arm (g : graduated) (c : ContextMemory.context) (maxSize : Z) (force enabled : bool) (keepRecent armed : Z) (ratio : Q) : bool :=
  enabled && (armed <? next_cutoff c keepRecent) && (force || negb (below (effectiveTokenCount g c) maxSize ratio)).

(** After the files are written: the counters and the record. *)
Definition budget_armed (g : graduated) (c : ContextMemory.context) (cutoff : Z) : graduated * list layer_record :=
  (with_stats g
     (LayerStats (applications (budgetStats g) + 1) (Z.of_nat (size (budgetReplacements g))) (measureLayerSavings g ToolResultBudget (history c)))
     (clearStats g) (drainStats g),
   [LayerApply ToolResultBudget cutoff]).

Definition tryArmToolResultBudget (written : jsstr -> jsstr -> bool) (g : graduated) (c : ContextMemory.context) (maxSize : Z) (force : bool)
    : graduated * list layer_record :=
  let nextCutoff := next_cutoff c (b_keepRecentMessages bcfg) in
  if negb (should_arm g c maxSize force (b_enabled bcfg) (b_keepRecentMessages bcfg) (budgetCutoff g) (b_triggerRatio bcfg)) then (g, [])
  else
    let '(g, pending) := armToolResultBudget g (history c) nextCutoff in
    let g := persistBudgetReplacements written g pending in
    budget_armed g c nextCutoff.

Definition tryArmPinpointClear (g : graduated) (c : ContextMemory.context) (maxSize : Z) (force : bool) : graduated * list layer_record :=
  let nextCutoff := next_cutoff c (c_keepRecentMessages ccfg) in
  if negb (should_arm g c maxSize force (c_enabled ccfg) (c_keepRecentMessages ccfg) (clearCutoff g) (c_triggerRatio ccfg)) then (g, [])
  else
    let g := armPinpointClear g (history c) nextCutoff in
    (with_stats g (budgetStats g)
       (LayerStats (applications (clearStats g) + 1) (Z.of_nat (size (clearEligible g))) (measureLayerSavings g PinpointClear (history c)))
       (drainStats g),
     [LayerApply PinpointClear nextCutoff]).

(** The layers' part of [beforeStep], and [armForOverflow]. *)
Definition arm_layers (written : jsstr -> jsstr -> bool) (force : bool) (g : graduated) (c : ContextMemory.context) (maxSize : Z)
    : graduated * list layer_record :=
  if maxSize <=? 0 then (g, [])
  else
    let '(g, r1) := tryArmToolResultBudget written g c maxSize force in
    let '(g, r2) := tryArmPinpointClear g c maxSize force in
    (g, r1 ++ r2).

Definition armForOverflow (written : jsstr -> jsstr -> bool) := arm_layers written true.

(** [beforeStep]: the last component says whether full compaction is asked. *)
Definition beforeStep (written : jsstr -> jsstr -> bool) (isCompacting : bool) (shouldAutoCompact : Z -> bool)
    (g : graduated) (c : ContextMemory.context) (maxSize : Z) : graduated * list layer_record * bool :=
  let '(g, rs) := arm_layers written false g c maxSize in
  (g, rs, isCompacting || shouldAutoCompact (effectiveTokenCount g c)).

(** * Draining *)

(** The indices of the user messages, from [i] on. *)
Fixpoint user_indices (i : Z) (ms : list context_message) : list Z :=
  match ms with
  | [] => []
  | m :: ms' => if is_user (base m) then i :: user_indices (i + 1) ms' else user_indices (i + 1) ms'
  end.

Definition slice (history : list context_message) (a b : Z) : list context_message := take (Z.to_nat (b - a)) (drop (Z.to_nat a) history).

(** The rounds are taken off until the target is covered: the cutoff, the rounds and the
    tokens. *)
Fixpoint drain_rounds (history : list context_message) (keepTailFrom : Z) (target : Q) (start : Z) (ends : list Z) (rounds covered : Z) : Z * Z * Z :=
  match ends with
  | [] => (start, rounds, covered)
  | e :: ends' =>
      if keepTailFrom <? e then (start, rounds, covered)
      else
        let covered := covered + estimateTokensForMessages (base <$> slice history start e) in
        if Qle_bool target (inject_Z covered) then (e, rounds + 1, covered)
        else drain_rounds history keepTailFrom target e ends' (rounds + 1) covered
  end.

(** [requestTokens] is [estimateCurrentRequestTokens]. *)
Definition drain_target (gapTokens : option Z) (requestTokens : Z) : Q :=
  match gapTokens with
  | Some gap => if gap <=? 0 then inject_Z requestTokens * PTL_DRAIN_FALLBACK_RATIO else inject_Z gap * PTL_DRAIN_GAP_SAFETY_FACTOR
  | None => inject_Z requestTokens * PTL_DRAIN_FALLBACK_RATIO
  end.

Definition armPtlDrain (g : graduated) (history : list context_message) (gapTokens : option Z) (requestTokens : Z)
    : graduated * list layer_record * bool :=
  if negb (d_enabled dcfg) then (g, [], false)
  else
    let target := drain_target gapTokens requestTokens in
    let start := Z.min (drainCutoff g) (blen history) in
    let ends := user_indices (start + 1) (drop (Z.to_nat (start + 1)) history) in
    let keepTailFrom := Z.max start (blen history - d_keepRecentMessages dcfg) in
    let '(newCutoff, rounds, covered) := drain_rounds history keepTailFrom target start ends 0 0 in
    if (rounds =? 0) || negb (Qle_bool target (inject_Z covered)) then (g, [], false)
    else
      let g := with_drain g newCutoff in
      (with_stats g (budgetStats g) (clearStats g)
         (DrainStats (d_applications (drainStats g) + 1) (droppedRounds (drainStats g) + rounds) (droppedTokens (drainStats g) + covered)),
       [LayerApply PtlDrain newCutoff], true).

(** * Shrinking and restoring *)

Definition pruneBudgetReplacements (g : graduated) (history : list context_message) : graduated :=
  let alive : gset jsstr := list_to_set (omap (fun m => result_id (base m)) (within history (budgetCutoff g))) in
  with_budget g (budgetCutoff g) (filter (fun kv => kv.1 ∈ alive) (budgetReplacements g)).

(** [reset], with the history after the operation. *)
Definition reset (g : graduated) (history : list context_message) (maxCutoff : Z) : graduated :=
  let g := with_budget g (Z.min (budgetCutoff g) maxCutoff) (budgetReplacements g) in
  let g := with_clear g (Z.min (clearCutoff g) maxCutoff) (clearEligible g) in
  let g := with_drain g (Z.min (drainCutoff g) maxCutoff) in
  let g := if budgetCutoff g =? 0 then with_budget g (budgetCutoff g) ∅ else pruneBudgetReplacements g history in
  let g := if clearCutoff g =? 0 then with_clear g (clearCutoff g) ∅ else rebuildClearEligible g history in
  with_baseline g 0.

Definition restoreLayerApply (g : graduated) (history : list context_message) (r : layer_record) : graduated :=
  let cutoff := Z.min (l_cutoff r) (blen history) in
  match l_layer r with
  | ToolResultBudget => (armToolResultBudget g history cutoff).1
  | PinpointClear => armPinpointClear g history cutoff
  | PtlDrain => with_drain g (Z.max (drainCutoff g) cutoff)
  | UnknownLayer _ => g
  end.
End layers.

(** * Shaping the history for the model *)

Definition DYNAMIC_TOOL_SCHEMA_VARIANT : jsstr := js "dynamic_tool_schema".
Definition LOADABLE_TOOLS_TRIGGER : jsstr := js "loadable-tools".

Definition isDynamicToolSchemaMessage (m : context_message) : bool := has_tools (base m).
Definition isLoadableToolsAnnouncement (m : context_message) : bool := bool_decide (origin m = Some (OSystemTrigger LOADABLE_TOOLS_TRIGGER)).

Definition with_tools (m : message) (t : option (list tool_def)) : message :=
  Message (role m) (name m) (content m) (toolCalls m) (toolCallId m) (partial m) t.

(** A message of the view, and the entry it still is: copies have none. *)
Record shaped : Type := Shaped { s_entry : option nat; s_msg : context_message }.

Definition original (e : entry) : shaped := Shaped (Some (e_id e)) (e_msg e).

Definition without_tools (e : entry) : option shaped :=
  let rest := with_tools (base (e_msg e)) None in
  if bool_decide (content rest = []) && bool_decide (toolCalls rest = []) then None
  else Some (Shaped None (with_base (e_msg e) rest)).

Definition strip_entry (e : entry) : option shaped :=
  if isLoadableToolsAnnouncement (e_msg e) then None
  else if isDynamicToolSchemaMessage (e_msg e) then without_tools e
  else Some (original e).

Definition stripDynamicToolContext (es : list entry) : list shaped := omap strip_entry es.

Definition shape_entry (active : jsstr -> bool) (e : entry) : option shaped :=
  match tools (base (e_msg e)) with
  | None | Some [] => Some (original e)
  | Some ts =>
      let kept := List.filter (fun t => active (tool_name t)) ts in
      if bool_decide (length kept = length ts) then Some (original e)
      else match kept with
           | [] => without_tools e
           | _ => Some (Shaped None (with_base (e_msg e) (with_tools (base (e_msg e)) (Some kept))))
           end
  end.

Definition shapeDynamicToolHistory (active : jsstr -> bool) (es : list entry) : list shaped := omap (shape_entry active) es.

(** [active] is [isLoadedDynamicToolActive], if tool selection is enabled. *)
Definition shape (active : option (jsstr -> bool)) (es : list entry) : list shaped :=
  match active with Some active => shapeDynamicToolHistory active es | None => stripDynamicToolContext es end.

(** * The view of a request *)

Definition index_of (id : nat) (ss : list shaped) : option nat := fst <$> list_find (fun s => s_entry s = Some id) ss.

(** The first message at or after the cutoff that is still in the view. *)
Fixpoint first_kept (es : list entry) (ss : list shaped) : option nat :=
  match es with
  | [] => None
  | e :: es' => match index_of (e_id e) ss with Some i => Some i | None => first_kept es' ss end
  end.

Definition applyPtlDrain (g : graduated) (es : list entry) (ss : list shaped) : list shaped :=
  if drainCutoff g =? 0 then ss
  else match first_kept (drop (Z.to_nat (Z.min (drainCutoff g) (blen es))) es) ss with
       | Some i => drop i ss
       | None => ss
       end.

(** The messages [ContextMemory.project] hands to the projection of Projector.v, for the
    whole history. *)
Definition request_view (config : graduated_config) (active : option (jsstr -> bool)) (g : graduated) (c : ContextMemory.context) : list context_message :=
  applyToProjection config g (s_msg <$> applyPtlDrain g (entries c) (shape active (entries c))).

Definition messages (config : graduated_config) (active : option (jsstr -> bool)) (g : graduated) (c : ContextMemory.context) :=
  project (request_view config active g c) normal_options.
Definition strictMessages (config : graduated_config) (active : option (jsstr -> bool)) (g : graduated) (c : ContextMemory.context) :=
  project (request_view config active g c) strict_options.

(** * When full compaction runs *)

Record compaction_config : Type := CompactionConfig {
  triggerRatio : Q;
  blockRatio : Q;
  reservedContextSize : Z;
}.

Definition shouldUseReservedContext (cfg : compaction_config) (maxSize usedSize : Z) : bool :=
  (0 <? reservedContextSize cfg) && (reservedContextSize cfg <? maxSize) && (maxSize <=? usedSize + reservedContextSize cfg).

Definition shouldCompact (cfg : compaction_config) (maxSize usedSize : Z) : bool :=
  if maxSize <=? 0 then false
  else Qle_bool (inject_Z maxSize * triggerRatio cfg) (inject_Z usedSize) || shouldUseReservedContext cfg maxSize usedSize.

Definition shouldBlock (cfg : compaction_config) (maxSize usedSize : Z) : bool :=
  if maxSize <=? 0 then false
  else Qle_bool (inject_Z maxSize * blockRatio cfg) (inject_Z usedSize) || shouldUseReservedContext cfg maxSize usedSize.

Definition checkAfterStep (cfg : compaction_config) : bool := negb (Qeq_bool (triggerRatio cfg) (blockRatio cfg)).
