(* ===== verification/GraduatedLaws.v ===== *)
(** Facts about the layers of Graduated.v: what they save is what the view is smaller by,
    a drain cuts off exactly as many rounds as the gap needs, and whatever is armed, the
    strict view of a session can be sent. *)

From S2P Require Import Prelude JsMap Json JsonText JsString Messages Projector Handoff ContextMemory Records ContextSafety ToolBudget Graduated.
From Stdlib Require Import QArith.

#[local] Open Scope Z_scope.

(** * Rewriting *)

(** Messages that differ in their content, name or tools only. *)
Definition alike (m m' : message) : Prop :=
  role m' = role m /\ toolCallId m' = toolCallId m /\ toolCalls m' = toolCalls m /\ partial m' = partial m.

Lemma alike_roles m m' : alike m m' -> is_tool m' = is_tool m /\ is_assistant m' = is_assistant m /\ call_ids m' = call_ids m.
Proof. intros (H1 & H2 & H3 & H4). unfold is_tool, is_assistant, call_ids. by rewrite H1, H3. Qed.

Lemma rewrite_alike config g m : alike (base m) (base (rewrite_message config g m)).
Proof. unfold rewrite_message. destruct (rewritten config g (base m)); done. Qed.

Lemma rewrite_tools config g m : tools (base (rewrite_message config g m)) = tools (base m) /\ origin (rewrite_message config g m) = origin m.
Proof. unfold rewrite_message. by destruct (rewritten config g (base m)). Qed.

(** Only tool results are rewritten. *)
Lemma rewrite_other config g m : result_id (base m) = None -> rewrite_message config g m = m.
Proof. intros H. unfold rewrite_message, rewritten. by rewrite H. Qed.

(** * Savings *)

Lemma with_content_estimate m c :
  estimateTokensForMessage (with_content m c) = estimateTokensForMessage m - estimateTokensForContentParts (content m) + estimateTokensForContentParts c.
Proof. unfold estimateTokensForMessage. cbn [with_content role content toolCalls tools]. lia. Qed.

Lemma message_saving_exact config g m :
  estimateTokensForMessage (base m) - estimateTokensForMessage (base (rewrite_message config g m)) = message_saving config g m.
Proof.
  unfold rewrite_message, rewritten, message_saving, clearedMarkerTokens. destruct (result_id (base m)) as [id|]; [|lia].
  destruct (budgetReplacements g !! id) as [p|]; cbn [default];
    destruct (bool_decide (id ∈ clearEligible g) && _); cbn [with_base base]; rewrite ?with_content_estimate; lia.
Qed.

Lemma estimate_app a b : estimateTokensForMessages (a ++ b) = estimateTokensForMessages a + estimateTokensForMessages b.
Proof. apply sum_of_app. Qed.

Lemma rewrite_saves config g ms :
  estimateTokensForMessages (base <$> ms) - estimateTokensForMessages (base <$> applyToProjection config g ms) = sum_of (message_saving config g) ms.
Proof.
  unfold estimateTokensForMessages, applyToProjection. induction ms as [|m ms IH]; [done|].
  cbn [fmap list_fmap]. rewrite !sum_of_cons, <- (message_saving_exact config g m). cbn [fmap list_fmap] in IH. lia.
Qed.

Lemma savings_of_view config g history :
  currentSavings config g history =
  estimateTokensForMessages (base <$> history) -
  estimateTokensForMessages (base <$> applyToProjection config g (drop (Z.to_nat (drainCutoff g)) history)).
Proof.
  unfold currentSavings. assert (drop (Z.to_nat (Z.min (drainCutoff g) (blen history))) history = drop (Z.to_nat (drainCutoff g)) history) as E.
  { unfold blen. destruct (Z.le_gt_cases (drainCutoff g) (Z.of_nat (length history))) as [H|H]; [by rewrite Z.min_l|].
    rewrite Z.min_r, Nat2Z.id, !drop_ge by lia. done. }
  set (n := Z.to_nat (Z.min (drainCutoff g) (blen history))) in *. rewrite <- E.
  pose proof (rewrite_saves config g (drop n history)) as Hr.
  rewrite <- (take_drop n history) at 3. rewrite fmap_app, estimate_app. lia.
Qed.

(** * Draining *)

Lemma elem_of_user_indices ms : forall i b, b ∈ user_indices i ms <-> exists m, i <= b /\ ms !! Z.to_nat (b - i) = Some m /\ is_user (base m) = true.
Proof.
  induction ms as [|m ms IH]; intros i b; cbn [user_indices].
  - split; [intros H; by apply elem_of_nil in H|intros (m & _ & H & _); done].
  - assert (b ∈ user_indices (i + 1) ms <-> exists x, i + 1 <= b /\ (m :: ms) !! Z.to_nat (b - i) = Some x /\ is_user (base x) = true) as Hs.
    { rewrite IH. split; intros (x & H1 & H2 & H3); exists x; split_and!; try done.
      - replace (Z.to_nat (b - i)) with (S (Z.to_nat (b - (i + 1)))) by lia. done.
      - replace (Z.to_nat (b - i)) with (S (Z.to_nat (b - (i + 1)))) in H2 by lia. done. }
    destruct (is_user (base m)) eqn:E; rewrite ?elem_of_cons, Hs; split.
    + intros [->|(x & H1 & H2)]; [|exists x; split; [lia|done]]. exists m. by rewrite Z.sub_diag.
    + intros (x & H1 & H2 & H3). destruct (decide (b = i)); [by left|right]. exists x. split_and!; [lia|done|done].
    + intros (x & H1 & H2). exists x. split; [lia|done].
    + intros (x & H1 & H2 & H3). exists x. split_and!; [|done|done]. assert (b <> i); [|lia]. intros ->.
      rewrite Z.sub_diag in H2. injection H2 as ->. by rewrite E in H3.
Qed.

Lemma user_indices_sorted ms : forall i, StronglySorted Z.lt (user_indices i ms).
Proof.
  induction ms as [|m ms IH]; intros i; cbn [user_indices]; [constructor|]. destruct (is_user (base m)); [|apply IH].
  constructor; [apply IH|]. apply Forall_forall. intros b Hb%elem_of_user_indices. destruct Hb as (x & H & _). lia.
Qed.

Abbreviation round_tokens h a b := (estimateTokensForMessages (base <$> slice h a b)).

Lemma slice_add h a b c : 0 <= a -> a <= b -> b <= c -> round_tokens h a c = round_tokens h a b + round_tokens h b c.
Proof.
  intros Ha Hb Hc. rewrite <- estimate_app, <- fmap_app. do 2 f_equal. unfold slice.
  rewrite <- (take_drop (Z.to_nat (b - a)) (take (Z.to_nat (c - a)) (drop (Z.to_nat a) h))), take_take, Nat.min_l by lia.
  f_equal. rewrite skipn_firstn_comm, drop_drop. f_equal; [lia|]. f_equal. lia.
Qed.

(** What the loop over the rounds finds. [reach b] says that cutting at [b] is enough. *)
Lemma drain_rounds_spec h keep target start0 ends : forall start rounds covered cut rounds' covered',
  0 <= start0 <= start -> StronglySorted Z.lt ends -> Forall (fun b => start < b) ends ->
  covered = round_tokens h start0 start -> 0 <= rounds ->
  drain_rounds h keep target start ends rounds covered = (cut, rounds', covered') ->
  covered' = round_tokens h start0 cut /\ rounds <= rounds' /\ (rounds' = rounds -> cut = start) /\
  (rounds < rounds' -> cut ∈ ends /\ cut <= keep) /\
  (forall b, b ∈ ends -> b < cut -> Qle_bool target (inject_Z (round_tokens h start0 b)) = false) /\
  (rounds < rounds' -> Qle_bool target (inject_Z covered') = false -> forall b, b ∈ ends -> b <= keep -> b <= cut) /\
  (rounds = rounds' -> forall b, b ∈ ends -> keep < b).
Proof.
  induction ends as [|e ends IH]; intros start rounds covered cut rounds' covered' Hs Hso Hlt Hc Hr; cbn [drain_rounds].
  - intros [= <- <- <-]. split_and!; try done; try lia. all: intros; by (exfalso; eapply not_elem_of_nil).
  - apply StronglySorted_inv in Hso as [Hso Hle]. apply Forall_cons in Hlt as [He Hlt]. rewrite Forall_forall in Hle.
    destruct (keep <? e) eqn:Ek; [apply Z.ltb_lt in Ek|apply Z.ltb_ge in Ek].
    + intros [= <- <- <-]. split_and!; try done; try lia.
      * intros b [->|Hb]%elem_of_cons Hcut; [lia|]. specialize (Hle b Hb). lia.
      * intros _ b [->|Hb]%elem_of_cons; [done|]. specialize (Hle b Hb). lia.
    + assert (Hcov : covered + round_tokens h start e = round_tokens h start0 e) by (rewrite Hc; symmetry; apply slice_add; lia).
      cbv zeta. rewrite Hcov. destruct (Qle_bool target _) eqn:Eq.
      * intros [= <- <- <-]. split_and!; try done; try lia.
        -- intros _. split; [by left|done].
        -- intros b [->|Hb]%elem_of_cons Hcut; [lia|]. specialize (Hle b Hb). lia.
        -- intros _ Hf. by rewrite Eq in Hf.
      * intros Hd. destruct (IH e (rounds + 1) (round_tokens h start0 e) cut rounds' covered') as (I1 & I2 & I3 & I4 & I5 & I6 & I7); try done; try lia.
        { apply Forall_forall. intros b Hb. by apply Hle. }
        split_and!; try done; try lia.
        -- intros _. destruct (decide (rounds' = rounds + 1)) as [E|E].
           ++ rewrite I3 by done. split; [by left|done].
           ++ destruct I4 as [H1 H2]; [lia|]. split; [by right|done].
        -- intros b [->|Hb]%elem_of_cons Hcut; [done|]. by apply I5.
        -- intros _ Hf b [->|Hb]%elem_of_cons Hk.
           ++ destruct (decide (rounds' = rounds + 1)) as [E|E]; [by rewrite I3|]. destruct I4 as [H1 H2]; [lia|]. specialize (Hle cut H1). lia.
           ++ destruct (decide (rounds' = rounds + 1)) as [E|E]; [|by apply I6; [lia|..]].
              assert (keep < b); [by apply I7|lia].
Qed.

(** A user message at which [armPtlDrain] may cut. *)
Definition cut_point (h : list context_message) (start keep b : Z) : Prop :=
  start < b <= keep /\ exists m, h !! Z.to_nat b = Some m /\ is_user (base m) = true.

Definition drain_start (g : graduated) (h : list context_message) : Z := Z.min (drainCutoff g) (blen h).
Definition drain_keep (config : graduated_config) (g : graduated) (h : list context_message) : Z :=
  Z.max (drain_start g h) (blen h - d_keepRecentMessages (ptlDrain config)).

(** Cutting before [b] covers the target. *)
Definition covers (h : list context_message) (start : Z) (target : Q) (b : Z) : bool := Qle_bool target (inject_Z (round_tokens h start b)).

Lemma drain_ends h start b : 0 <= start ->
  b ∈ user_indices (start + 1) (drop (Z.to_nat (start + 1)) h) <-> start < b /\ exists m, h !! Z.to_nat b = Some m /\ is_user (base m) = true.
Proof.
  intros Hs. rewrite elem_of_user_indices. setoid_rewrite lookup_drop. split.
  - intros (m & H1 & H2 & H3). split; [lia|]. exists m. split; [|done]. rewrite <- H2. f_equal. lia.
  - intros (H1 & m & H2 & H3). exists m. split_and!; [lia| |done]. rewrite <- H2. f_equal. lia.
Qed.

(** [armPtlDrain] against its description. *)
Lemma drain_exact config g h gap req : 0 <= drainCutoff g ->
  let start := drain_start g h in
  let keep := drain_keep config g h in
  let target := drain_target gap req in
  let '(g', rs, armed) := armPtlDrain config g h gap req in
  if armed then
    cut_point h start keep (drainCutoff g') /\ covers h start target (drainCutoff g') = true /\
    (forall b, cut_point h start keep b -> b < drainCutoff g' -> covers h start target b = false) /\
    rs = [LayerApply PtlDrain (drainCutoff g')] /\
    budgetReplacements g' = budgetReplacements g /\ clearEligible g' = clearEligible g
  else
    g' = g /\ rs = [] /\ (d_enabled (ptlDrain config) = true -> forall b, cut_point h start keep b -> covers h start target b = false).
Proof.
  intros Hg start keep target. assert (Hs : 0 <= start) by (unfold start, drain_start, blen; lia).
  unfold armPtlDrain. fold (drain_start g h). fold start.
  change (Z.max start _) with keep. fold target.
  destruct (d_enabled (ptlDrain config)); cbn [negb]; [|by split_and!].
  set (ends := user_indices (start + 1) _). destruct (drain_rounds h keep target start ends 0 0) as [[cut n] cov] eqn:E.
  assert (Hp : forall b, b ∈ ends <-> start < b /\ exists m, h !! Z.to_nat b = Some m /\ is_user (base m) = true) by (intros b; by apply drain_ends).
  apply (drain_rounds_spec h keep target start) in E as (-> & Hn & E3 & E4 & E5 & E6 & E7); cycle 1; [lia|apply user_indices_sorted| | |done|].
  { apply Forall_forall. intros b Hb%Hp. lia. }
  { unfold slice. by rewrite Z.sub_diag. }
  assert (Hc : forall b, cut_point h start keep b <-> b ∈ ends /\ b <= keep) by (intros b; rewrite Hp; unfold cut_point; naive_solver lia).
  destruct (n =? 0) eqn:Ez; [apply Z.eqb_eq in Ez|apply Z.eqb_neq in Ez]; cbn [orb].
  { cbn iota. split_and!; [done|done|]. intros _ b [Hb Hk]%Hc. specialize (E7 ltac:(lia) b Hb). lia. }
  destruct (Qle_bool target _) eqn:Eq; cbn [negb]; cbn iota.
  - destruct E4 as [Hin Hk]; [lia|]. split_and!; try done; [by apply Hc|]. intros b [Hb _]%Hc Hlt. by apply E5.
  - split_and!; [done|done|]. intros _ b [Hb Hk']%Hc. destruct (decide (b < cut)) as [Hlt|Hge]; [by apply E5|].
    assert (b = cut) as -> by (specialize (E6 ltac:(lia) eq_refl b Hb Hk'); lia). done.
Qed.


(** * Shaping *)

(** What shaping does to an entry: it stays, it loses tools, or it is dropped without
    taking a call away. *)
Definition shapes (f : entry -> option shaped) : Prop := forall e, good (e_msg e) ->
  match f e with
  | None => (if is_assistant (base (e_msg e)) then call_ids (base (e_msg e)) else []) = []
  | Some s => alike (base (e_msg e)) (base (s_msg s)) /\ plain_user (base (s_msg s)) = true
  end.

Lemma without_tools_shapes e : good (e_msg e) ->
  match without_tools e with
  | None => (if is_assistant (base (e_msg e)) then call_ids (base (e_msg e)) else []) = []
  | Some s => alike (base (e_msg e)) (base (s_msg s)) /\ plain_user (base (s_msg s)) = true
  end.
Proof.
  intros (Hp & _). unfold without_tools. cbv zeta. destruct (bool_decide _ && bool_decide _) eqn:E.
  - apply andb_true_iff in E as [_ E%bool_decide_eq_true]. cbn in E. unfold call_ids. rewrite E. by case_match.
  - split; [done|]. unfold plain_user, is_user, has_tools in *. cbn [s_msg with_base base with_tools role toolCalls tools] in *.
    apply orb_true_iff in Hp as [->|Hp]; [done|]. apply andb_true_iff in Hp as [-> _]. apply orb_true_r.
Qed.

Lemma strip_shapes : shapes strip_entry.
Proof.
  intros e Hg. unfold strip_entry. destruct (isLoadableToolsAnnouncement _) eqn:E.
  - destruct Hg as (_ & _ & [Ho|(_ & Ha & _)]); [|by case_match eqn:Ea; [apply Ha|]]. unfold isLoadableToolsAnnouncement in E. by rewrite Ho in E.
  - destruct (isDynamicToolSchemaMessage _); [by apply without_tools_shapes|]. destruct Hg as (Hp & _). done.
Qed.

Lemma shape_entry_shapes active : shapes (shape_entry active).
Proof.
  intros e Hg. pose proof (without_tools_shapes e Hg) as Hw. destruct Hg as (Hp & _). unfold shape_entry.
  destruct (tools (base (e_msg e))) as [[|t ts]|] eqn:Et; [done| |done]. case_bool_decide; [done|].
  destruct (List.filter _ _) as [|t' kept]; [done|]. split; [done|].
  unfold plain_user, is_user, has_tools in *. rewrite Et in Hp. rewrite andb_false_r, orb_false_r in Hp.
  cbn [s_msg with_base base with_tools role]. by rewrite Hp.
Qed.

Lemma shape_keeps f es : shapes f -> Forall (fun e => good (e_msg e)) es ->
  let ms := base <$> (e_msg <$> es) in
  let ms' := base <$> (s_msg <$> omap f es) in
  all_call_ids ms' = all_call_ids ms /\ (forall seen, answered seen ms = true -> answered seen ms' = true) /\
  Forall (fun m => partial m = false /\ plain_user m = true) ms'.
Proof.
  intros Hf H. cbv zeta. induction es as [|e es IH]; [done|]. apply Forall_cons in H as [He H]. specialize (IH H) as (I1 & I2 & I3).
  specialize (Hf e He). cbn [fmap list_fmap]. rewrite !all_call_ids_cons. cbn [omap list_omap].
  destruct (f e) as [s|]; cbn [fmap list_fmap].
  - destruct Hf as [Hl Hp]. destruct (alike_roles _ _ Hl) as (R1 & R2 & R3). rewrite all_call_ids_cons, R2, R3. split_and!.
    + f_equal. exact I1.
    + intros seen. cbn [answered]. rewrite R1, R2, R3. destruct Hl as (_ & -> & _). rewrite !andb_true_iff. intros [A1 A2]. split; [done|by apply I2].
    + constructor; [|done]. split; [|done]. destruct Hl as (_ & _ & _ & ->). by destruct He as (_ & ? & _).
  - split_and!; [|intros seen; cbn [answered]; rewrite !andb_true_iff; intros [_ A2]; apply I2|done].
    + destruct (is_assistant _); [|done]. by rewrite Hf.
    + destruct (is_assistant _); [|done]. by rewrite Hf in A2.
Qed.

(** * The view of a session *)

Lemma alike_answered l l' : Forall2 alike l l' -> all_call_ids l' = all_call_ids l /\ (forall C seen, answered seen l' = answered seen l /\ results_follow C seen l' = results_follow C seen l).
Proof.
  induction 1 as [|m m' l l' Hm H IH]; [done|]. destruct IH as [I1 I2]. destruct (alike_roles _ _ Hm) as (R1 & R2 & R3), Hm as (_ & R4 & _).
  rewrite !all_call_ids_cons, R2, R3, I1. split; [done|]. intros C seen. cbn [answered results_follow]. rewrite R1, R2, R3, R4.
  destruct (I2 C (if is_assistant m then call_ids m ++ seen else seen)) as [-> ->]. done.
Qed.

Lemma rewritten_alike config g ms : Forall2 alike (base <$> ms) (base <$> applyToProjection config g ms).
Proof.
  unfold applyToProjection. induction ms as [|m ms IH]; [constructor|]. cbn [fmap list_fmap]. constructor; [apply rewrite_alike|exact IH].
Qed.

Lemma rewritten_plain config g ms : Forall (fun m => partial m = false /\ plain_user m = true) (base <$> ms) ->
  Forall (fun m => partial m = false /\ plain_user m = true) (base <$> applyToProjection config g ms).
Proof.
  unfold applyToProjection. induction ms as [|m ms IH]; intros H; [done|]. cbn [fmap list_fmap] in *. apply Forall_cons in H as [[Hp Hu] H].
  constructor; [|by apply IH]. destruct (rewrite_alike config g m) as (R1 & _ & R3 & ->), (rewrite_tools config g m) as [Rt _].
  split; [done|]. unfold plain_user, is_user, has_tools in *. by rewrite R1, R3, Rt.
Qed.

(** The results in a tail of a history follow the calls that are in the tail. *)
Lemma answered_tail C ms : forall S s, (forall id, id ∈ C -> id ∈ S -> id ∈ s) -> answered S ms = true -> results_follow C s ms = true.
Proof.
  induction ms as [|m ms IH]; intros S s Hs; cbn [answered results_follow]; [done|]. rewrite !andb_true_iff. intros [H1 H2]. split.
  - destruct (is_tool m); [|done]. destruct (toolCallId m) as [id|]; [|done]. apply bool_decide_eq_true in H1.
    destruct (decide (id ∈ C)); [|by rewrite (bool_decide_eq_false_2 (id ∈ C)), orb_true_r]. by rewrite bool_decide_eq_true_2 by auto.
  - eapply IH; [|exact H2]. intros id HC. destruct (is_assistant m); [|by apply Hs]. rewrite !elem_of_app. intros [?|?]; [by left|right; by apply Hs].
Qed.

Lemma applyPtlDrain_tail g es ss : exists i, applyPtlDrain g es ss = drop i ss /\ (drainCutoff g = 0 -> i = 0%nat).
Proof.
  unfold applyPtlDrain. destruct (drainCutoff g =? 0) eqn:E; [by exists 0%nat|]. apply Z.eqb_neq in E.
  destruct (first_kept _ ss) as [i|]; [by exists i|by exists 0%nat].
Qed.

Lemma whole_complete ms : Forall (fun m => partial m = false /\ plain_user m = true) (base <$> ms) ->
  List.filter (fun m => negb (partial m)) (base <$> ms) = base <$> ms.
Proof.
  intros H. apply List.forallb_filter_id, forallb_forall. intros x Hx%list_elem_of_In. rewrite Forall_forall in H. by destruct (H x Hx) as [-> _].
Qed.

Lemma view_good config active g c : inv c -> drainCutoff g = 0 \/ NoDup (calls c) ->
  let v := request_view config active g c in
  results_follow_calls v = true /\ Forall (fun m => partial m = false /\ plain_user m = true) (base <$> v) /\
  (drainCutoff g = 0 -> answered [] (base <$> v) = true).
Proof.
  intros Hi Hd v. assert (Hg : Forall (fun e => good (e_msg e)) (entries c)) by (pose proof (inv_good _ Hi) as H; unfold history in H; by rewrite Forall_fmap in H).
  assert (exists f, shape active (entries c) = omap f (entries c) /\ shapes f) as (f & Ef & Hf).
  { destruct active as [active|]; [exists (shape_entry active); split; [done|apply shape_entry_shapes]|exists strip_entry; split; [done|apply strip_shapes]]. }
  destruct (shape_keeps f (entries c) Hf Hg) as (K1 & K2 & K3). specialize (K2 [] (inv_answered _ Hi)).
  destruct (applyPtlDrain_tail g (entries c) (shape active (entries c))) as (i & Ei & Hz).
  set (all := s_msg <$> omap f (entries c)) in *.
  assert (v = applyToProjection config g (drop i all)) as -> by (unfold v, request_view; rewrite Ei, Ef, fmap_drop; done).
  assert (Hp : Forall (fun m => partial m = false /\ plain_user m = true) (base <$> drop i all)) by (rewrite fmap_drop; by apply Forall_drop).
  destruct (alike_answered _ _ (rewritten_alike config g (drop i all))) as (A1 & A2).
  pose proof (rewritten_plain config g _ Hp) as Hp'. split_and!; [|done|].
  - unfold results_follow_calls. cbv zeta. rewrite whole_complete by done. rewrite A1. rewrite (proj2 (A2 _ _)).
    assert (Ha : answered (all_call_ids (base <$> take i all)) (base <$> drop i all) = true).
    { rewrite <- (take_drop i all), fmap_app in K2. apply answered_app in K2 as [_ K2]. by rewrite app_nil_r in K2. }
    eapply answered_tail; [|exact Ha]. intros id H1 H2. destruct Hd as [Hd|Hd].
    + specialize (Hz Hd) as ->. by apply not_elem_of_nil in H2.
    + assert (K1' : all_call_ids (base <$> all) = calls c) by exact K1. rewrite <- K1', <- (take_drop i all), fmap_app, all_call_ids_app in Hd.
      apply NoDup_app in Hd as (_ & Hd & _). by destruct (Hd id).
  - intros E. rewrite (proj1 (A2 [] [])). by rewrite (Hz E).
Qed.

Section agent.
Context (enter_reminder exit_reminder : jsstr).

(** C25. No layer breaks a request. Whatever a session did, whatever the layers have
    rewritten or drained, and whichever tools the model may load, the strict request made
    from the rewritten view never fails and is one a strict provider accepts; if nothing
    is drained, no two assistant messages are adjacent either. A drain may cut a call from
    its result, so it asks that no call id is used twice. *)
Theorem rewritten_view_sendable ops config active g : Forall (fun o => op_outside o.2) ops ->
  let c := ctx (live_all enter_reminder exit_reminder (Agent empty_context None) ops) in
  drainCutoff g = 0 \/ NoDup (all_call_ids (base <$> history c)) ->
  exists out an, strictMessages config active g c = Ok (out, an) /\
    exchange_ok false [] out = true /\ NoDup (all_call_ids out) /\
    match out with m :: _ => is_user m = true | [] => True end /\
    Forall (fun m => sendable m = true) out /\ (drainCutoff g = 0 -> no_adjacent_assistants out = true).
Proof.
  intros Ho c Hd. pose proof (inv_live_all enter_reminder exit_reminder ops (Agent empty_context None) inv_empty Ho) as Hi. fold c in Hi.
  destruct (view_good config active g c Hi Hd) as (V1 & V2 & V3). set (v := request_view config active g c) in *.
  destruct (strict_compliant v V1) as (out & an & H1 & H2 & H3 & H4 & H5 & H6).
  { rewrite Forall_fmap in V2. eapply Forall_impl; [exact V2|]. by intros m [_ ?]. }
  exists out, an. split_and!; try done. intros E. apply H6. specialize (V3 E). unfold no_orphans. cbv zeta. rewrite whole_complete by done.
  apply forallb_forall. intros m Hm%list_elem_of_In. pose proof (answered_no_orphans _ _ V3) as Hn.
  rewrite app_nil_r, Forall_forall in Hn. by apply bool_decide_eq_true_2, Hn.
Qed.
End agent.
