(* ===== verification/GraduatedSession.v ===== *)
(** Sessions with their layers: the operations of ContextMemory.v drive the state of
    Graduated.v through their effects, both while a session runs and while its records are
    restored. The identity of messages makes the drained view exact; replaying the records
    of conversation and layers arms the same view. *)

From S2P Require Import Prelude JsMap Json JsonText JsString Messages Projector Handoff ContextMemory Records ContextSafety ToolBudget Graduated GraduatedLaws.
From Stdlib Require Import QArith.

#[local] Open Scope Z_scope.

(** * Which effects the layers see *)

Definition layer_effect (e : effect) : bool :=
  match e with GraduatedReset _ | ProviderUsageRealized => true | _ => false end.

(** Records whose replay has such an effect. *)
Definition loud_record (r : ctx_record) : bool :=
  match r with
  | RClear | RUndo _ | RWithdrawTailInput | RApplyCompaction _ => true
  | RLoopEvent (StepEnd _ _) => true
  | _ => false
  end.

Definition quiet (e : effect) : bool := negb (layer_effect e) && match e with LogRecord r => negb (loud_record r) | _ => true end.

(** From [c] to [c'] only quiet effects are added. *)
Definition quietly (c c' : ContextMemory.context) : Prop := exists es, effects c' = effects c ++ es /\ Forall (fun e => quiet e = true) es.

Lemma quietly_refl c c' : effects c' = effects c -> quietly c c'.
Proof. intros E. exists []. by rewrite app_nil_r. Qed.

Lemma quietly_trans a b c : quietly a b -> quietly b c -> quietly a c.
Proof. intros (e1 & E1 & H1) (e2 & E2 & H2). exists (e1 ++ e2). rewrite E2, E1, app_assoc. split; [done|by apply Forall_app]. Qed.

Lemma quietly_from a b c : effects a = effects b -> quietly b c -> quietly a c.
Proof. intros E (es & E1 & H). exists es. by rewrite E. Qed.

Lemma quietly_to a b c : effects c = effects b -> quietly a b -> quietly a c.
Proof. intros E (es & E1 & H). exists es. by rewrite E. Qed.

Lemma quietly_emit c es : forallb quiet es = true -> quietly c (emit c es).
Proof. intros H. exists es. split; [done|]. apply Forall_forall. intros x Hx. rewrite forallb_forall in H. by apply H, list_elem_of_In. Qed.

Section operations.
Context (r : option Z) (n : Z).

Lemma quietly_log c x : loud_record x = false -> quietly c (logRecord r c x).
Proof. intros H. destruct r; [by apply quietly_refl|]. apply quietly_emit. cbn. by rewrite H. Qed.

Lemma quietly_push ms : forall c, quietly c (pushHistory r n c ms).
Proof.
  induction ms as [|m ms IH]; intros c; [by apply quietly_refl|]. eapply quietly_trans; [|apply (IH (push_one r n c m))].
  eexists. split; [done|]. by destruct (origin m) as [[]|]; repeat constructor.
Qed.

Lemma quietly_flush c : quietly c (flushDeferredMessagesIfToolExchangeClosed r n c).
Proof. unfold flushDeferredMessagesIfToolExchangeClosed. case_match; [by apply quietly_refl|]. eapply quietly_to; [|apply quietly_push]. done. Qed.

Lemma quietly_append c m : quietly c (appendMessage r n c m).
Proof.
  unfold appendMessage. cbv zeta. assert (quietly c (logRecord r c (RAppendMessage m))) as H by by apply quietly_log.
  case_match; [by eapply quietly_to; [|exact H]|]. eapply quietly_trans; [exact H|apply quietly_push].
Qed.

Lemma quietly_result c id out err sn : quietly c (toolResult r n c id out err sn).
Proof.
  unfold toolResult. case_match.
  - destruct r; [|by apply quietly_refl]. unfold recoverLateToolResult.
    repeat (case_match; try by apply quietly_refl). cbv zeta. eexists. split; [done|]. by repeat constructor.
  - eapply quietly_trans; [apply (quietly_push [result_message id out err sn])|]. eapply quietly_trans; [|apply quietly_flush].
    by apply quietly_refl.
Qed.

Lemma quietly_close text l : forall c, quietly c (fold_left (close_one r n text) l c).
Proof.
  induction l as [|id l IH]; intros c; [by apply quietly_refl|]. cbn [fold_left]. eapply quietly_trans; [|apply IH].
  unfold close_one. eapply quietly_trans; [by apply (quietly_log c (RLoopEvent (ToolResultEvent id (OutText text) (Some true) None)))|apply quietly_result].
Qed.

Lemma quietly_user c ps o : quietly c (appendUserMessage r n c ps o).
Proof.
  unfold appendUserMessage. case_bool_decide; [by apply quietly_refl|].
  destruct (if bool_decide (o = OUser) then _ else _) as [captions parts].
  assert (forall l c, quietly c (fold_left (fun c caption => appendSystemReminder r n c caption (OInjection (js "image_compression"))) l c)) as Hf.
  { induction l as [|x l IH]; intros c'; [by apply quietly_refl|]. cbn [fold_left]. eapply quietly_trans; [apply quietly_append|apply IH]. }
  case_bool_decide; [apply Hf|]. eapply quietly_trans; [apply Hf|apply quietly_append].
Qed.

Definition step_end (e : loop_event) : bool := match e with StepEnd _ _ => true | _ => false end.

Lemma quietly_event c e : step_end e = false -> quietly c (appendLoopEvent r n c e).1.
Proof.
  intros He. assert (quietly c (logRecord r c (RLoopEvent e))) as H by (apply quietly_log; by destruct e).
  destruct e; try done; unfold appendLoopEvent; cbv zeta; set (c1 := logRecord r c _) in *.
  - unfold closePendingToolResults. cbn [fst].
    eapply quietly_trans; [exact H|]. eapply quietly_trans; [apply (quietly_close TOOL_INTERRUPTED_ON_RESUME_OUTPUT (pending c1))|].
    set (c2 := fold_left _ _ _). assert (forall c3, effects c3 = effects c2 -> quietly c2 (upd_open (pushHistory r n c3 [step_message])
      (jset (openSteps (pushHistory r n c3 [step_message])) uuid (next_id c3)))) as Hp.
    { intros c3 E. eapply quietly_to; [|eapply quietly_from; [|apply (quietly_push [step_message] c3)]]; done. }
    destruct (pending c1), r; by apply Hp.
  - case_match; [done|]. by destruct r.
  - case_match; [done|]. by destruct r.
  - eapply quietly_trans; [exact H|]. apply quietly_result.
Qed.

Lemma quietly_tokens c k : quietly c (updateTokenCount r c k).
Proof.
  unfold updateTokenCount. eapply quietly_trans; [by apply (quietly_log c (RUpdateTokenCount k))|].
  eapply quietly_to; [|apply (quietly_emit _ [StatusUpdated])]; done.
Qed.

Lemma quietly_pop c f : quietly c (popMatchedMessage c f).1.
Proof. unfold popMatchedMessage. repeat case_match; by apply quietly_refl. Qed.
End operations.

Section swarm.
Context (enter_reminder exit_reminder : jsstr).

Lemma quietly_enter r n a t : quietly (ctx a) (ctx (swarm_enter enter_reminder r n a t)).
Proof.
  unfold swarm_enter. destruct (active a); [by apply quietly_refl|]. cbv zeta. cbn [ctx].
  eapply quietly_trans; [by apply (quietly_log r (ctx a) (RSwarmEnter t))|].
  destruct t; [| |by apply quietly_emit]; (eapply quietly_trans; [apply quietly_append|by apply quietly_emit]).
Qed.

Lemma quietly_exit r n a : quietly (ctx a) (ctx (swarm_exit exit_reminder r n a)).
Proof.
  unfold swarm_exit. destruct (active a) as [t|]; [|by apply quietly_refl]. cbv zeta.
  assert (quietly (ctx a) (emit (logRecord r (ctx a) RSwarmExit) [StatusUpdated])) as H.
  { eapply quietly_trans; [by apply (quietly_log r (ctx a) RSwarmExit)|by apply quietly_emit]. }
  pose proof (quietly_pop (emit (logRecord r (ctx a) RSwarmExit) [StatusUpdated]) is_swarm_mode) as Hp.
  destruct t; [| |done].
  all: destruct (popMatchedMessage _ _) as [c popped]; cbn [fst] in Hp; pose proof (quietly_trans _ _ _ H Hp) as Hc; destruct popped; [done|].
  all: destruct r; [done|]; cbn [ctx]; eapply quietly_trans; [exact Hc|apply quietly_append].
Qed.

(** The operations the layers hear of. *)
Definition loud_op (o : op) : bool :=
  match o with Clear | Undo _ | WithdrawTail | Compact _ => true | LoopEvent e => step_end e | _ => false end.

Lemma quietly_live now a o : loud_op o = false -> quietly (ctx a) (ctx (live enter_reminder exit_reminder now a o)).
Proof.
  intros H. destruct o; try done; cbn [live on_ctx ctx]; try apply quietly_append.
  - apply quietly_user.
  - by apply quietly_event.
  - apply quietly_close.
  - unfold importContext. cbv zeta. repeat (case_match; [by apply quietly_refl|]). cbn [fst].
    eapply quietly_trans; [apply quietly_append|apply quietly_tokens].
  - apply quietly_tokens.
  - apply quietly_enter.
  - apply quietly_exit.
Qed.

Lemma quietly_restore a t x : loud_record x = false -> quietly (ctx a) (ctx (restore exit_reminder a t x)).
Proof.
  intros H. destruct x; try done; cbn [restore on_ctx restoreEnter ctx].
  - apply quietly_tokens.
  - apply quietly_event. by destruct e.
  - apply quietly_append.
  - by apply quietly_refl.
  - apply quietly_exit.
Qed.
End swarm.

(** * Messages keep their identity *)

Definition ids (c : ContextMemory.context) : list nat := e_id <$> entries c.

(** The entries after an operation: some of the old ones in their order, and new ones. *)
Definition succeeds (c c' : ContextMemory.context) : Prop := exists old new,
  ids c' = old ++ new /\ old `sublist_of` ids c /\ NoDup new /\
  Forall (fun i => (next_id c <= i < next_id c')%nat) new /\ (next_id c <= next_id c')%nat.

Definition unique (c : ContextMemory.context) : Prop := NoDup (ids c) /\ Forall (fun i => (i < next_id c)%nat) (ids c).

Lemma succeeds_unique c c' : succeeds c c' -> unique c -> unique c'.
Proof.
  intros (old & new & E & Hs & Hn & Hf & Hl) [U1 U2]. rewrite Forall_forall in U2, Hf.
  assert (Hi : forall i, i ∈ old -> (i < next_id c)%nat) by (intros i Hi; apply U2; by eapply sublist_subseteq).
  split; rewrite E.
  - apply NoDup_app. split_and!; [by apply (sublist_NoDup _ (ids c))| |done]. intros i H1 H2. specialize (Hi i H1). specialize (Hf i H2). lia.
  - apply Forall_app. split; apply Forall_forall; intros i H; [specialize (Hi i H)|specialize (Hf i H)]; lia.
Qed.

Lemma succeeds_sub c c' : ids c' `sublist_of` ids c -> next_id c' = next_id c -> succeeds c c'.
Proof. intros H E. exists (ids c'), []. rewrite app_nil_r, E. split_and!; [done|done|constructor|done|done]. Qed.

Lemma succeeds_same c c' : ids c' = ids c -> next_id c' = next_id c -> succeeds c c'.
Proof. intros H E. apply succeeds_sub; [by rewrite H|done]. Qed.

Lemma succeeds_trans a b c : succeeds a b -> succeeds b c -> succeeds a c.
Proof.
  intros (o1 & n1 & E1 & S1 & N1 & F1 & L1) (o2 & n2 & E2 & S2 & N2 & F2 & L2).
  rewrite E1 in S2. apply sublist_app_r in S2 as (k1 & k2 & -> & K1 & K2). rewrite Forall_forall in F1, F2.
  exists k1, (k2 ++ n2). split_and!.
  - by rewrite E2, app_assoc.
  - by etrans.
  - apply NoDup_app. split_and!; [by apply (sublist_NoDup _ n1)| |done]. intros i H1 H2.
    pose proof (F1 i (sublist_subseteq _ _ K2 i H1)). specialize (F2 i H2). lia.
  - apply Forall_app. split; apply Forall_forall; intros i H.
    + pose proof (F1 i (sublist_subseteq _ _ K2 i H)). lia.
    + specialize (F2 i H). lia.
  - lia.
Qed.

Section identity.
Context (r : option Z) (n : Z).

Lemma succeeds_log c x : succeeds c (logRecord r c x).
Proof. by destruct r; apply succeeds_same. Qed.

Lemma succeeds_push ms : forall c, succeeds c (pushHistory r n c ms).
Proof.
  induction ms as [|m ms IH]; intros c; [by apply succeeds_same|]. eapply succeeds_trans; [|apply (IH (push_one r n c m))].
  exists (ids c), [next_id c]. split_and!; [unfold ids, push_one; cbn [entries]; by rewrite fmap_app|done|apply NoDup_singleton| |cbn; lia].
  constructor; [cbn; lia|constructor].
Qed.

Lemma succeeds_flush c : succeeds c (flushDeferredMessagesIfToolExchangeClosed r n c).
Proof. unfold flushDeferredMessagesIfToolExchangeClosed. case_match; [by apply succeeds_same|]. exact (succeeds_push (deferred c) c). Qed.

Lemma succeeds_append c m : succeeds c (appendMessage r n c m).
Proof.
  unfold appendMessage. cbv zeta. pose proof (succeeds_log c (RAppendMessage m)) as H.
  case_match; [exact H|]. eapply succeeds_trans; [exact H|apply succeeds_push].
Qed.

Lemma succeeds_grow c id f : succeeds c (grow c id f).
Proof.
  apply succeeds_same; [|done]. unfold ids, grow. cbn [upd_entries entries]. rewrite <- list_fmap_compose. apply list_fmap_ext.
  intros i e _. cbn. by case_bool_decide.
Qed.

Lemma succeeds_close text l : r = None -> forall c, succeeds c (fold_left (close_one r n text) l c).
Proof.
  intros Hr. induction l as [|id l IH]; intros c; [by apply succeeds_same|]. cbn [fold_left]. eapply succeeds_trans; [|apply IH].
  unfold close_one. eapply succeeds_trans; [apply (succeeds_log c (RLoopEvent (ToolResultEvent id (OutText text) (Some true) None)))|].
  unfold toolResult. case_match; [subst r; by apply succeeds_same|]. eapply succeeds_trans; [|apply succeeds_flush].
  exact (succeeds_push [result_message id (OutText text) (Some true) None] _).
Qed.

Lemma succeeds_event c e : r = None -> succeeds c (appendLoopEvent r n c e).1.
Proof.
  intros Hr. pose proof (succeeds_log c (RLoopEvent e)) as H. unfold appendLoopEvent. cbv zeta. set (c1 := logRecord r c (RLoopEvent e)) in *.
  eapply succeeds_trans; [exact H|]. destruct e.
  - unfold closePendingToolResults. pose proof (succeeds_close TOOL_INTERRUPTED_ON_RESUME_OUTPUT (pending c1) Hr c1) as Hc.
    eapply succeeds_trans; [exact Hc|]. set (c2 := fold_left _ _ _).
    pose proof (succeeds_push [step_message] c2) as Hp. subst r. destruct (pending c1); exact Hp.
  - cbn [fst]. unfold stepEnd. eapply succeeds_trans; [|apply succeeds_flush]. destruct usage; [|by apply succeeds_same].
    cbv zeta. destruct (0 <? _); by apply succeeds_same.
  - subst r. case_match; [apply succeeds_grow|by apply succeeds_same].
  - subst r. case_match; [|by apply succeeds_same]. exact (succeeds_grow c1 n0 (add_call (ToolCall toolCallId toolName (JSON_stringify <$> args)))).
  - cbn [fst]. unfold toolResult. case_match; [subst r; by apply succeeds_same|]. eapply succeeds_trans; [|apply succeeds_flush].
    exact (succeeds_push [result_message toolCallId out err side_note] c1).
Qed.

Lemma succeeds_pop c f : succeeds c (popMatchedMessage c f).1.
Proof.
  unfold popMatchedMessage. repeat (case_match; try by apply succeeds_same). apply succeeds_sub; [|done].
  unfold ids. cbn [fst upd_entries entries]. apply fmap_sublist. generalize (entries c) as es; intros es; destruct es as [|x es _] using rev_ind; [done|].
  rewrite removelast_last. by apply sublist_inserts_r.
Qed.

Lemma succeeds_user c ps o : succeeds c (appendUserMessage r n c ps o).
Proof.
  unfold appendUserMessage. case_bool_decide; [by apply succeeds_same|].
  destruct (if bool_decide (o = OUser) then _ else _) as [captions parts].
  assert (forall l c, succeeds c (fold_left (fun c caption => appendSystemReminder r n c caption (OInjection (js "image_compression"))) l c)) as Hf.
  { induction l as [|x l IH]; intros c'; [by apply succeeds_same|]. cbn [fold_left]. eapply succeeds_trans; [apply succeeds_append|apply IH]. }
  case_bool_decide; [apply Hf|]. eapply succeeds_trans; [apply Hf|apply succeeds_append].
Qed.
End identity.

Lemma undo_sublist l : forall count users tok covered, u_kept (undo_loop l count users tok covered) `sublist_of` l.
Proof.
  induction l as [|e l IH]; intros count users tok covered; [done|]. cbn [undo_loop]. case_match; [cbn [u_kept]; by apply sublist_skip|].
  case_match; [done|]. destruct (if _ <? _ then _ else _) as [z z0]. cbn [u_kept]. apply sublist_cons. by destruct (_ && _).
Qed.

Lemma fresh_ids ms : forall i, e_id <$> fresh i ms = seq i (length ms).
Proof. induction ms as [|m ms IH]; intros i; [done|]. cbn [fresh fmap list_fmap length seq]. by rewrite <- IH. Qed.

Lemma sublist_rev {A} (l k : list A) : l `sublist_of` k -> rev l `sublist_of` rev k.
Proof.
  induction 1 as [|x l k H IH|x l k H IH]; [done| |]; cbn [rev].
  - by apply sublist_app.
  - by apply sublist_inserts_r.
Qed.

Section session_identity.
Context (enter_reminder exit_reminder : jsstr).

Lemma succeeds_live now a o : succeeds (ctx a) (ctx (live enter_reminder exit_reminder now a o)).
Proof.
  destruct o; cbn [live on_ctx ctx]; try apply succeeds_append.
  - apply succeeds_user.
  - by apply succeeds_event.
  - by apply succeeds_close.
  - apply succeeds_sub; [apply sublist_nil_l|done].
  - unfold importContext. cbv zeta. repeat (case_match; [by apply succeeds_same|]). cbn [fst]. exact (succeeds_append None now (ctx a) _).
  - by apply succeeds_same.
  - unfold undo. case_match; [by apply succeeds_same|]. apply succeeds_sub; [|done]. unfold ids. cbn. apply fmap_sublist.
    rewrite <- (rev_involutive (entries (ctx a))) at 2. apply sublist_rev, undo_sublist.
  - unfold withdrawUnansweredTailInput. destruct (tail_input _) as [[[newer e] older]|] eqn:E; [|by apply succeeds_same].
    case_match; [by apply succeeds_same|]. cbv zeta. cbn [fst].
    assert (forall c', entries c' = rev older ++ rev newer -> next_id c' = next_id (ctx a) -> succeeds (ctx a) c') as Hc.
    { intros c' E1 E2. apply succeeds_sub; [|done]. unfold ids. apply fmap_sublist. rewrite E1.
      apply tail_input_split in E. rewrite <- (rev_involutive (entries (ctx a))), E, rev_app_distr. cbn [rev].
      apply sublist_app; [|done]. by apply sublist_inserts_r. }
    destruct (_ <? _); by apply Hc.
  - unfold applyCompaction. cbv zeta. cbn [fst]. eexists _, _. split; [unfold ids; cbn [emit entries]; unfold compacted|].
    { cbn [isLegacyRestore is_restoring andb]. by rewrite fmap_app, fresh_ids. }
    split_and!; [apply fmap_sublist, sublist_take|apply NoDup_seq| |cbn; lia].
    apply Forall_forall. intros k Hi%elem_of_seq. rewrite length_app in Hi. cbn in *. lia.
  - unfold swarm_enter. destruct (active a); [by apply succeeds_same|]. destruct t; [| |by apply succeeds_same];
      exact (succeeds_append None now (logRecord None (ctx a) _) _).
  - unfold swarm_exit. destruct (active a) as [t|]; [|by apply succeeds_same]. cbv zeta.
    set (c := emit (logRecord None (ctx a) RSwarmExit) [StatusUpdated]). pose proof (succeeds_pop c is_swarm_mode) as Hp.
    change (ids c) with (ids (ctx a)) in Hp. assert (succeeds (ctx a) (popMatchedMessage c is_swarm_mode).1) as Hp' by exact Hp.
    destruct t; [| |by apply succeeds_same].
    all: destruct (popMatchedMessage c is_swarm_mode) as [c' []]; [exact Hp'|]; eapply succeeds_trans; [exact Hp'|]; exact (succeeds_append None now c' _).
Qed.

Lemma session_unique ops : forall a, unique (ctx a) -> unique (ctx (live_all enter_reminder exit_reminder a ops)).
Proof.
  induction ops as [|[now o] ops IH]; intros a H; [done|]. apply (IH (live enter_reminder exit_reminder now a o)).
  by eapply succeeds_unique; [apply succeeds_live|].
Qed.
End session_identity.

(** * The view of a plain history *)

(** Nothing of the history concerns dynamic tools. *)
Definition plain (c : ContextMemory.context) : Prop :=
  Forall (fun m => isLoadableToolsAnnouncement m = false /\ isDynamicToolSchemaMessage m = false) (history c).

Lemma plain_shape c : plain c -> shape None (entries c) = original <$> entries c.
Proof.
  unfold plain, history, shape, stripDynamicToolContext. induction (entries c) as [|e es IH]; [done|]. cbn [fmap list_fmap].
  intros [[H1 H2] H]%Forall_cons. cbn [omap list_omap]. unfold strip_entry at 1. rewrite H1, H2. f_equal. by apply IH.
Qed.

Lemma index_of_original es k e : NoDup (e_id <$> es) -> es !! k = Some e -> index_of (e_id e) (original <$> es) = Some k.
Proof.
  intros Hn Hk. unfold index_of. assert (list_find (fun s => s_entry s = Some (e_id e)) (original <$> es) = Some (k, original e)) as ->; [|done].
  apply list_find_Some. split_and!; [by rewrite list_lookup_fmap, Hk|done|]. intros j s Hj Hlt Hs.
  rewrite list_lookup_fmap in Hj. destruct (es !! j) as [e'|] eqn:E; [|done]. injection Hj as <-. cbn in Hs. injection Hs as Hs.
  assert (j = k); [|lia]. apply (NoDup_lookup _ j k (e_id e) Hn); by rewrite list_lookup_fmap, ?E, ?Hk; cbn; rewrite ?Hs.
Qed.

Lemma plain_drain g es : NoDup (e_id <$> es) -> drainCutoff g = 0 \/ 0 < drainCutoff g < blen es ->
  s_msg <$> applyPtlDrain g es (original <$> es) = drop (Z.to_nat (drainCutoff g)) (e_msg <$> es).
Proof.
  intros Hn Hd. assert (Hm : forall l, s_msg <$> (original <$> l) = e_msg <$> l) by (intros l; by rewrite <- list_fmap_compose).
  unfold applyPtlDrain. destruct Hd as [E0|Hd]; [rewrite E0; exact (Hm es)|]. rewrite (proj2 (Z.eqb_neq _ _)), Z.min_l by lia.
  unfold blen in Hd. destruct (es !! Z.to_nat (drainCutoff g)) as [e|] eqn:E; [|apply lookup_ge_None in E; lia].
  rewrite (drop_S _ _ _ E). cbn [first_kept]. rewrite (index_of_original _ _ _ Hn E). by rewrite <- fmap_drop, Hm, fmap_drop.
Qed.

Section view.
Context (enter_reminder exit_reminder : jsstr).

(** The count full compaction waits for is the size of the request. In any session,
    the savings the layers claim are exactly the difference between the estimates of the
    history and of the view a request is made from; what the provider has reported
    already counts once. As long as nothing was reported, the effective count is the
    estimate of the view, or of the history if the view is larger. *)
Theorem savings_are_exact ops config g :
  let c := ctx (live_all enter_reminder exit_reminder (Agent empty_context None) ops) in
  plain c -> drainCutoff g = 0 \/ 0 < drainCutoff g < blen (history c) -> 0 <= realizedSavingsBaseline g ->
  let whole := estimateTokensForMessages (base <$> history c) in
  let sent := estimateTokensForMessages (base <$> request_view config None g c) in
  effectiveTokenCount config g c = tokenCountWithPending c - Z.max 0 (whole - sent - realizedSavingsBaseline g) /\
  (tokenCount c = 0 -> coveredCount c = 0 -> realizedSavingsBaseline g = 0 -> effectiveTokenCount config g c = Z.min whole sent).
Proof.
  intros c Hp Hd Hb whole sent.
  destruct (session_unique enter_reminder exit_reminder ops (Agent empty_context None)) as [Hn _]; [split; constructor|]. fold c in Hn. unfold ids in Hn.
  assert (Hv : request_view config None g c = applyToProjection config g (drop (Z.to_nat (drainCutoff g)) (history c))).
  { unfold request_view. rewrite plain_shape by done. rewrite plain_drain; [done|done|]. unfold history, blen in Hd. by rewrite length_fmap in Hd. }
  assert (Hs : currentSavings config g (history c) = whole - sent) by (unfold sent; rewrite Hv; apply savings_of_view).
  assert (He : effectiveTokenCount config g c = tokenCountWithPending c - Z.max 0 (whole - sent - realizedSavingsBaseline g)).
  { unfold effectiveTokenCount. cbv zeta. rewrite Hs. destruct (unarmed g) eqn:Eu; [|lia].
    unfold unarmed in Eu. rewrite !andb_true_iff, Z.eqb_eq, !bool_decide_eq_true in Eu. destruct Eu as [[E1 E2] E3].
    assert (request_view config None g c = history c) as E.
    { rewrite Hv, E1. change (drop (Z.to_nat 0) (history c)) with (history c). unfold applyToProjection.
      rewrite <- (list_fmap_id (history c)) at 2. apply list_fmap_ext. intros i m _. unfold rewrite_message, rewritten.
      rewrite E2, E3. destruct (result_id (base m)); [|done]. rewrite lookup_empty.
      by rewrite bool_decide_eq_false_2 by set_solver. }
    unfold sent, whole. rewrite E. lia. }
  split; [done|]. intros T1 T2 T3. rewrite He, T3. unfold tokenCountWithPending. rewrite T1, T2. change (drop (Z.to_nat 0) (history c)) with (history c). fold whole. lia.
Qed.
End view.
