(* ===== verification/GraduatedReplay.v ===== *)
(** Restoring the layers: a session's log holds the records of its conversation and, in
    between, those of the layers ([records/index.ts]). Replaying it arms the same view.
    The examples show where it does not: a file that could not be written, and an undo
    behind a drain. *)

From S2P Require Import Prelude JsMap Json JsonText JsString Messages Projector Handoff ContextMemory Records ContextSafety ToolBudget Graduated GraduatedLaws GraduatedSession.
From Stdlib Require Import QArith.

#[local] Open Scope Z_scope.

(** * Sessions *)

Record session : Type := Session { s_agent : agent; s_layers : graduated }.

Definition newSession : session := Session (Agent empty_context None) newGraduated.

Inductive session_record : Type := ContextRecord (r : ctx_record) | LayerRecord (r : layer_record).

(** Operations of the conversation, and those of the layers: [beforeStep] with
    the window and the outcome of the file writes, [armForOverflow], [armPtlDrain] with
    the gap and the size of the request. *)
Inductive session_op : Type :=
| Conversation (now : Z) (o : op)
| BeforeStep (written : jsstr -> jsstr -> bool) (maxSize : Z)
| Overflow (written : jsstr -> jsstr -> bool) (maxSize : Z)
| Drain (gapTokens : option Z) (requestTokens : Z).

Section session.
Context (enter_reminder exit_reminder : jsstr).
Context (config : graduated_config) (homedir : option jsstr).
Context (path_join : list jsstr -> jsstr) (sha256_hex : jsstr -> jsstr) (snipHint : jsstr -> option (Z * Z)).

(** What the layers do on an effect of the conversation. The history is the one before
    the operation when usage is reported, and the one after it when they are reset. *)
Definition react (before after : list context_message) (g : graduated) (e : effect) : graduated :=
  match e with
  | GraduatedReset len => reset config g after (default 0 len)
  | ProviderUsageRealized => onProviderUsageRealized config g before
  | _ => g
  end.

Definition new_effects (c c' : ContextMemory.context) : list effect := drop (length (effects c)) (effects c').

Definition on_agent (s : session) (a : agent) : session :=
  let c := ctx (s_agent s) in
  Session a (fold_left (react (history c) (history (ctx a))) (new_effects c (ctx a)) (s_layers s)).

Definition on_layers (s : session) (g : graduated) : session := Session (s_agent s) g.

(** One operation, with the records it writes. *)
Definition session_step (s : session) (o : session_op) : session * list session_record :=
  let c := ctx (s_agent s) in
  match o with
  | Conversation now o =>
      let a := live enter_reminder exit_reminder now (s_agent s) o in
      (on_agent s a, ContextRecord <$> drop (length (written (s_agent s))) (written a))
  | BeforeStep w maxSize =>
      let '(g, rs) := arm_layers config homedir path_join sha256_hex snipHint w false (s_layers s) c maxSize in
      (on_layers s g, LayerRecord <$> rs)
  | Overflow w maxSize =>
      let '(g, rs) := armForOverflow config homedir path_join sha256_hex snipHint w (s_layers s) c maxSize in
      (on_layers s g, LayerRecord <$> rs)
  | Drain gap req =>
      let '(g, rs, _) := armPtlDrain config (s_layers s) (history c) gap req in
      (on_layers s g, LayerRecord <$> rs)
  end.

Fixpoint session_run (s : session) (ops : list session_op) : session * list session_record :=
  match ops with
  | [] => (s, [])
  | o :: ops' =>
      let '(s1, r1) := session_step s o in
      let '(s2, r2) := session_run s1 ops' in
      (s2, r1 ++ r2)
  end.

Definition session_restore (s : session) (tr : Z * session_record) : session :=
  match tr.2 with
  | ContextRecord r => on_agent s (restore exit_reminder (s_agent s) tr.1 r)
  | LayerRecord r =>
      on_layers s (restoreLayerApply config homedir path_join sha256_hex snipHint (s_layers s) (history (ctx (s_agent s))) r)
  end.

Definition session_replay (s : session) (log : list (Z * session_record)) : session := fold_left session_restore log s.

(** * What the layers have armed *)

(** Everything but the counters. *)
Definition armed (g : graduated) : Z * Z * Z * gmap jsstr (list content_part) * gset jsstr * Z :=
  (budgetCutoff g, clearCutoff g, drainCutoff g, budgetReplacements g, clearEligible g, realizedSavingsBaseline g).

Ltac armed_cases H :=
  match type of H with
  | armed ?g = armed ?g' => destruct g, g'; unfold armed in H; cbn in H; injection H as -> -> -> -> -> ->
  end.

Lemma armed_savings g g' h : armed g = armed g' -> currentSavings config g h = currentSavings config g' h /\ unarmed g = unarmed g'.
Proof. intros H. armed_cases H. done. Qed.

Lemma armed_effective g g' c c' : armed g = armed g' -> same c c' -> effectiveTokenCount config g c = effectiveTokenCount config g' c'.
Proof.
  intros H Hc. unfold effectiveTokenCount, tokenCountWithPending, history. rewrite (same_entries _ _ Hc), (same_tokens _ _ Hc), (same_covered _ _ Hc).
  destruct (armed_savings g g' (e_msg <$> entries c') H) as [-> ->]. by armed_cases H.
Qed.

Lemma armed_react b b' g g' e : armed g = armed g' -> armed (react b b' g e) = armed (react b b' g' e).
Proof.
  intros H. destruct e; try done; cbn [react].
  - armed_cases H. unfold reset. cbn. destruct (_ `min` _ =? 0); cbn; destruct (clearCutoff0 `min` _ =? 0); done.
  - unfold onProviderUsageRealized. destruct (armed_savings g g' b H) as [-> ->]. case_match; [done|]. by armed_cases H.
Qed.

Lemma armed_restore h g g' r : armed g = armed g' ->
  armed (restoreLayerApply config homedir path_join sha256_hex snipHint g h r) =
  armed (restoreLayerApply config homedir path_join sha256_hex snipHint g' h r).
Proof. intros H. armed_cases H. unfold restoreLayerApply, armToolResultBudget. destruct (l_layer r), homedir; done. Qed.

Lemma armed_stats g b c d : armed (with_stats g b c d) = armed g.
Proof. done. Qed.

(** * Reactions *)

Lemma new_effects_app c c' es : effects c' = effects c ++ es -> new_effects c c' = es.
Proof. intros E. unfold new_effects. by rewrite E, drop_app_length. Qed.

Lemma react_quiet b b' es : forall g, Forall (fun e => layer_effect e = false) es -> fold_left (react b b') es g = g.
Proof. induction es as [|e es IH]; intros g H; [done|]. apply Forall_cons in H as [He H]. cbn [fold_left]. rewrite IH by done. by destruct e. Qed.

Lemma react_filter b b' es : forall g, fold_left (react b b') es g = fold_left (react b b') (List.filter layer_effect es) g.
Proof. induction es as [|e es IH]; intros g; [done|]. cbn [fold_left List.filter]. rewrite IH. by destruct e. Qed.

Lemma armed_fold b b' es : forall g g', armed g = armed g' -> armed (fold_left (react b b') es g) = armed (fold_left (react b b') es g').
Proof. induction es as [|e es IH]; intros g g' H; [done|]. cbn [fold_left]. by apply IH, armed_react. Qed.

Lemma quiet_layer es : Forall (fun e => quiet e = true) es ->
  Forall (fun e => layer_effect e = false) es /\ Forall (fun r => loud_record r = false) (omap record_of es).
Proof.
  induction es as [|e es IH]; intros H; [done|]. apply Forall_cons in H as [He H]. destruct (IH H) as [I1 I2].
  unfold quiet in He. apply andb_true_iff in He as [H1%negb_true_iff H2]. split; [by constructor|].
  cbn [omap list_omap]. destruct e; try done. cbn [record_of]. constructor; [by apply negb_true_iff|done].
Qed.

Lemma quiet_on_agent s a : quietly (ctx (s_agent s)) (ctx a) -> on_agent s a = Session a (s_layers s).
Proof.
  intros (es & E & H). unfold on_agent. cbv zeta. rewrite (new_effects_app _ _ _ E). rewrite react_quiet; [done|]. by apply quiet_layer.
Qed.

(** The effects of [c'] that [c] has not, as far as the layers see them. *)
Definition reacts (c c' : ContextMemory.context) (l : list effect) : Prop := exists es, effects c' = effects c ++ es /\ List.filter layer_effect es = l.

Lemma on_agent_reacts s a l : reacts (ctx (s_agent s)) (ctx a) l ->
  on_agent s a = Session a (fold_left (react (history (ctx (s_agent s))) (history (ctx a))) l (s_layers s)).
Proof. intros (es & E & H). unfold on_agent. cbv zeta. by rewrite (new_effects_app _ _ _ E), react_filter, H. Qed.
(** * Operations the layers hear of *)

Lemma reacts_trans a b c l k : reacts a b l -> reacts b c k -> reacts a c (l ++ k).
Proof. intros (e1 & E1 & H1) (e2 & E2 & H2). exists (e1 ++ e2). rewrite E2, E1, app_assoc. split; [done|]. by rewrite List.filter_app, H1, H2. Qed.

Lemma quietly_reacts c c' : quietly c c' -> reacts c c' [].
Proof.
  intros (es & E & H). exists es. split; [done|]. apply quiet_layer in H as [H _]. clear E. induction es as [|e es IH]; [done|].
  apply Forall_cons in H as [He H]. cbn [List.filter]. rewrite He. by apply IH.
Qed.

Lemma reacts_log r c x : reacts c (logRecord r c x) [].
Proof. destruct r; [by exists []; rewrite app_nil_r|by exists [LogRecord x]]. Qed.

Lemma reacts_to a b c l : effects c = effects b -> reacts a b l -> reacts a c l.
Proof. intros E (es & E1 & H). exists es. by rewrite E. Qed.

Lemma reacts_emit a b es l : reacts a b l -> reacts a (emit b es) (l ++ List.filter layer_effect es).
Proof. intros H. eapply reacts_trans; [exact H|]. by exists es. Qed.

Definition usage_reaction (u : option token_usage) : list effect :=
  match u with
  | Some u => if 0 <? inputCacheRead u + inputCacheCreation u + inputOther u + output u then [ProviderUsageRealized] else []
  | None => []
  end.

Lemma reacts_stepEnd r n c uuid u : reacts c (stepEnd r n c uuid u) (usage_reaction u).
Proof.
  unfold stepEnd. cbv zeta. rewrite <- (app_nil_r (usage_reaction u)). eapply reacts_trans; [|apply quietly_reacts, quietly_flush].
  destruct u as [u|]; cbn [usage_reaction]; [|by exists []; rewrite app_nil_r].
  destruct (0 <? _); [by exists [ProviderUsageRealized]|by exists []; rewrite app_nil_r].
Qed.

Lemma removed_silent l : List.filter layer_effect (InjectionMessageRemoved <$> l) = [].
Proof. by induction l. Qed.

Lemma reacts_undo r c count : negb ((count <=? 0) || bool_decide (entries c = [])) = true ->
  reacts c (undo r c count).1 [GraduatedReset (Some (blen (entries (undo r c count).1)))].
Proof.
  intros E%negb_true_iff. unfold undo. rewrite E. cbv zeta. cbn [fst]. eapply reacts_to; [done|].
  match goal with |- reacts _ _ [GraduatedReset (Some (blen (entries (emit ?d _))))] => change (entries (emit d _)) with (entries d) end.
  match goal with |- reacts _ (emit ?d ?es) _ =>
    assert (reacts c d []) as H by (eapply reacts_to; [|apply (reacts_log r c (RUndo count))]; done);
    pose proof (reacts_emit c d es [] H) as He end.
  rewrite List.filter_app, removed_silent in He. exact He.
Qed.

Lemma reacts_withdraw r c : (withdrawUnansweredTailInput r c).2 = true ->
  reacts c (withdrawUnansweredTailInput r c).1 [GraduatedReset (Some (blen (entries (withdrawUnansweredTailInput r c).1)))].
Proof.
  unfold withdrawUnansweredTailInput. destruct (tail_input _) as [[[newer e] older]|]; [|done]. case_match; [done|]. intros _. cbv zeta. cbn [fst].
  match goal with |- reacts _ (emit ?d ?es) _ =>
    assert (reacts c d []) as Hd; [|pose proof (reacts_emit c d es [] Hd) as He; exact He] end.
  pose proof (reacts_log r c RWithdrawTailInput) as Hl. set (c1 := logRecord r c RWithdrawTailInput) in *.
  pose proof (reacts_emit c (upd_entries c1 (rev older ++ rev newer)) [InjectionMessageRemoved (length older)] [] Hl) as He.
  destruct (_ <? _); exact He.
Qed.

Lemma reacts_clear r c : reacts c (clear r c) [GraduatedReset None].
Proof.
  unfold clear. cbv zeta. pose proof (reacts_log r c RClear) as H.
  match goal with |- reacts _ (emit ?d ?es) _ => exact (reacts_emit c d es [] H) end.
Qed.

Lemma reacts_compact r c i : reacts c (applyCompaction r c i).1 [GraduatedReset None].
Proof.
  unfold applyCompaction. cbv zeta. cbn [fst]. pose proof (reacts_log r c (RApplyCompaction (result_of r c i))) as H.
  pose proof (reacts_emit c _ [ReplayPatchCompaction (result_of r c i)] [] H) as H'.
  match goal with |- reacts _ (emit ?d ?es) _ => exact (reacts_emit c d es [] H') end.
Qed.

(** Resets are to a length. *)
Definition to_length (e : effect) : Prop := match e with GraduatedReset (Some n) => 0 <= n | _ => True end.

Lemma react_cutoff b b' l : forall g, 0 <= drainCutoff g -> Forall to_length l -> 0 <= drainCutoff (fold_left (react b b') l g).
Proof.
  induction l as [|e l IH]; intros g Hg H; [done|]. apply Forall_cons in H as [He H]. cbn [fold_left]. apply IH; [|done].
  destruct e as [| | | | |len| | | | | | | |]; try done; cbn [react].
  - assert (drainCutoff (reset config g b' (default 0 len)) = Z.min (drainCutoff g) (default 0 len)) as ->.
    { unfold reset. destruct g as [x1 x2 x3 x4 x5 x6 x7 x8 x9]. cbn. destruct (_ `min` _ =? 0); cbn; destruct (x2 `min` _ =? 0); done. }
    destruct len; cbn in *; lia.
  - unfold onProviderUsageRealized. by destruct (unarmed g).
Qed.

(** Such an operation does nothing, or writes one record whose replay is heard alike. *)
Lemma loud_op_heard now a b o : loud_op o = true -> agree a b -> NoDup (pending (ctx a)) ->
  let a' := live enter_reminder exit_reminder now a o in
  a' = a \/
  exists r l, written a' = written a ++ [r] /\ Forall to_length l /\ reacts (ctx a) (ctx a') l /\ forall t, reacts (ctx b) (ctx (restore exit_reminder b t r)) l.
Proof.
  intros Ho [H _] N a'. destruct o; try done; subst a'; cbn [live loud_op] in *.
  - destruct e; try done. right. eexists (RLoopEvent (StepEnd uuid usage)), (usage_reaction usage). split_and!.
    + unfold written. cbn [on_ctx ctx]. by rewrite loop_log.
    + destruct usage; cbn [usage_reaction]; [|constructor]. destruct (0 <? _); by repeat constructor.
    + unfold appendLoopEvent. cbv zeta. cbn [fst on_ctx ctx].
      exact (reacts_trans _ _ _ _ _ (reacts_log None (ctx a) (RLoopEvent (StepEnd uuid usage))) (reacts_stepEnd None now _ uuid usage)).
    + intros t. exact (reacts_stepEnd (Some t) t (ctx b) uuid usage).
  - right. exists RClear, [GraduatedReset None]. split_and!; [|by repeat constructor|apply reacts_clear|intros t; apply reacts_clear].
    unfold written, clear. cbn [on_ctx ctx]. rewrite log_emit. cbn [omap list_omap record_of]. rewrite app_nil_r, <- log_record. by apply log_effects.
  - destruct (negb ((count <=? 0) || bool_decide (entries (ctx a) = []))) eqn:E.
    + right. exists (RUndo count), [GraduatedReset (Some (blen (entries (undo None (ctx a) count).1)))]. split_and!.
      * apply negb_true_iff in E. unfold written, undo. rewrite E. cbv zeta. cbn [fst on_ctx ctx]. rewrite log_emit, omap_app.
        assert (forall l, omap record_of (InjectionMessageRemoved <$> l) = []) as -> by (intros l; by induction l).
        cbn [omap list_omap record_of app]. rewrite app_nil_r, <- log_record. by apply log_effects.
      * constructor; [cbn; unfold blen; lia|constructor].
      * by apply reacts_undo.
      * intros t. rewrite (same_entries _ _ (undo_same None (Some t) _ _ count H)). apply reacts_undo. by rewrite <- (same_entries _ _ H).
    + left. apply negb_false_iff in E. unfold undo. rewrite E. by destruct a.
  - destruct (withdrawUnansweredTailInput None (ctx a)).2 eqn:E.
    + right. exists RWithdrawTailInput, [GraduatedReset (Some (blen (entries (withdrawUnansweredTailInput None (ctx a)).1)))]. split_and!.
      * unfold written. unfold withdrawUnansweredTailInput in *. destruct (tail_input _) as [[[newer e] older]|]; [|done]. case_match; [done|].
        cbv zeta. cbn [fst on_ctx ctx]. rewrite log_emit. cbn [omap list_omap record_of]. rewrite app_nil_r, <- log_record.
        case_match; unfold log; cbn; by rewrite !omap_app, app_nil_r.
      * constructor; [cbn; unfold blen; lia|constructor].
      * by apply reacts_withdraw.
      * intros t. rewrite (same_entries _ _ (withdraw_same None (Some t) _ _ H)). apply reacts_withdraw.
        revert E. unfold withdrawUnansweredTailInput. rewrite (same_entries _ _ H). repeat case_match; done.
    + left. unfold withdrawUnansweredTailInput in *. destruct (tail_input (rev (entries (ctx a)))) as [[[newer e] older]|]; [|by destruct a].
      case_match; [by destruct a|done].
  - right. exists (RApplyCompaction (result_of None (ctx a) i)), [GraduatedReset None]. split_and!; [|by repeat constructor|apply reacts_compact|intros t; apply reacts_compact].
    unfold written, applyCompaction. cbv zeta. cbn [fst on_ctx ctx]. rewrite log_emit. cbn [omap list_omap record_of]. rewrite app_nil_r, <- log_record.
    unfold log. cbn. by rewrite !omap_app, app_nil_r.
Qed.
(** * Replaying *)

Record sagree (s s' : session) : Prop := SAgree { sa_agent : agree (s_agent s) (s_agent s'); sa_layers : armed (s_layers s) = armed (s_layers s') }.

Lemma sagree_history s s' : sagree s s' -> history (ctx (s_agent s)) = history (ctx (s_agent s')).
Proof. intros [[H _] _]. unfold history. by rewrite (same_entries _ _ H). Qed.

Lemma replay_quiet trs : forall s, Forall (fun r => loud_record r = false) trs.*2 ->
  session_replay s ((fun tr => (tr.1, ContextRecord tr.2)) <$> trs) = Session (replay exit_reminder (s_agent s) trs) (s_layers s).
Proof.
  induction trs as [|[t r] trs IH]; intros s H; [by destruct s|]. cbn [fmap list_fmap] in H. apply Forall_cons in H as [Hr H].
  cbn [fmap list_fmap session_replay fold_left replay]. unfold session_restore at 2. cbn [fst snd].
  rewrite quiet_on_agent by by apply quietly_restore. exact (IH (Session _ _) H).
Qed.

Lemma written_quiet a a' : quietly (ctx a) (ctx a') -> exists rs, written a' = written a ++ rs /\ Forall (fun r => loud_record r = false) rs.
Proof.
  intros (es & E & H). exists (omap record_of es). unfold written, log. rewrite E, omap_app. split; [done|]. by apply quiet_layer.
Qed.

Lemma drop_written a a' rs : written a' = written a ++ rs -> drop (length (written a)) (written a') = rs.
Proof. intros ->. by rewrite drop_app_length. Qed.

Lemma conversation_replayed now o s s' trs : sagree s s' -> NoDup (pending (ctx (s_agent s))) -> op_on_time (s_agent s) o ->
  let '(s1, rs) := session_step s (Conversation now o) in
  NoDup (pending (ctx (s_agent s1))) /\ (0 <= drainCutoff (s_layers s) -> 0 <= drainCutoff (s_layers s1)) /\ (trs.*2 = rs -> sagree s1 (session_replay s' trs)).
Proof.
  intros Hs N Ho. pose proof (sagree_history _ _ Hs) as Hh. destruct Hs as [Ha Hl]. cbn [session_step].
  set (a := s_agent s) in *. set (a' := live enter_reminder exit_reminder now a o).
  destruct (live_writes enter_reminder exit_reminder now a o N Ho) as [rs [W N' R]]. fold a' in W, N', R.
  rewrite (drop_written _ _ _ W). split; [done|]. split.
  { intros Hd. destruct (loud_op o) eqn:Eo.
    - destruct (loud_op_heard now a (s_agent s') o Eo Ha N) as [Hn|(r & l & W' & Rl & R1 & R2)]; [fold a' in Hn|fold a' in W', R1].
      + rewrite Hn. unfold on_agent. cbv zeta. by rewrite (new_effects_app _ _ []) by by rewrite app_nil_r.
      + rewrite (on_agent_reacts _ _ _ R1). by apply react_cutoff.
    - rewrite quiet_on_agent; [done|]. by apply quietly_live. }
  intros E.
  assert (exists trs', trs = (fun tr => (tr.1, ContextRecord tr.2)) <$> trs' /\ trs'.*2 = rs) as (trs' & -> & E').
  { clear -E. revert rs E. induction trs as [|[t r] trs IH]; intros rs E; destruct rs as [|x rs]; try discriminate E; [by exists []|].
    injection E as -> E. destruct (IH rs E) as (trs' & -> & <-). by exists ((t, x) :: trs'). }
  specialize (R (s_agent s') trs' Ha E'). destruct (loud_op o) eqn:Eo.
  - destruct (loud_op_heard now a (s_agent s') o Eo Ha N) as [Hn|(r & l & W' & Rl & R1 & R2)]; [fold a' in Hn|fold a' in W', R1].
    + rewrite Hn in W |- *. rewrite <- (app_nil_r (written a)) in W at 1. apply app_inv_head in W as <-. apply fmap_nil_inv in E' as ->.
      unfold on_agent. cbv zeta. rewrite (new_effects_app _ _ []) by by rewrite app_nil_r. done.
    + rewrite W in W'. apply app_inv_head in W' as ->. destruct trs' as [|[t r'] [|]]; try discriminate E'. injection E' as ->.
      cbn [fmap list_fmap session_replay fold_left]. unfold session_restore. cbn [fst snd].
      rewrite (on_agent_reacts _ _ _ R1), (on_agent_reacts _ _ _ (R2 t)). cbn in R. split; [done|]. cbn [s_layers].
      assert (history (ctx a') = history (ctx (restore exit_reminder (s_agent s') t r))) as -> by (unfold history; by rewrite (same_entries _ _ (agree_ctx _ _ R))).
      rewrite <- Hh. by apply armed_fold.
  - pose proof (quietly_live enter_reminder exit_reminder now a o Eo) as Hq. fold a' in Hq.
    destruct (written_quiet _ _ Hq) as (rs' & W' & Hr). rewrite W in W'. apply app_inv_head in W' as ->.
    rewrite replay_quiet by (by rewrite E'). rewrite quiet_on_agent by done. done.
Qed.

Definition layers_restore (h : list context_message) (g : graduated) (rs : list layer_record) : graduated :=
  fold_left (fun g r => restoreLayerApply config homedir path_join sha256_hex snipHint g h r) rs g.

Lemma layers_replayed trs : forall s rs, trs.*2 = LayerRecord <$> rs ->
  session_replay s trs = on_layers s (layers_restore (history (ctx (s_agent s))) (s_layers s) rs).
Proof.
  induction trs as [|[t r] trs IH]; intros s rs E; destruct rs as [|x rs]; try discriminate E; [by destruct s|].
  injection E as -> E. cbn [session_replay fold_left]. unfold session_restore at 2. cbn [snd].
  unfold session_replay in IH. by rewrite (IH _ rs E).
Qed.

Lemma persist_all w : (forall p x, w p x = true) -> forall ps g, persistBudgetReplacements w g ps = g.
Proof. intros Hw. induction ps as [|p ps IH]; intros g; [done|]. unfold persistBudgetReplacements. cbn [fold_left]. unfold persist_one at 2. rewrite Hw. apply IH. Qed.

Section arming.
Context (c : ContextMemory.context).
Hypothesis keeps : 0 <= b_keepRecentMessages (toolResultBudget config) /\ 0 <= c_keepRecentMessages (pinpointClear config).

Lemma next_cutoff_min k : 0 <= k -> Z.min (next_cutoff c k) (blen (history c)) = next_cutoff c k.
Proof. intros Hk. unfold next_cutoff, history, blen. rewrite length_fmap. lia. Qed.

Lemma budget_restored w g g' maxSize force : (forall p x, w p x = true) -> armed g = armed g' ->
  let '(g1, rs) := tryArmToolResultBudget config homedir path_join sha256_hex snipHint w g c maxSize force in
  armed g1 = armed (layers_restore (history c) g' rs).
Proof.
  intros Hw H. unfold tryArmToolResultBudget. cbv zeta. destruct (negb _); [done|].
  destruct (armToolResultBudget _ _ _ _ _ g _ _) as [g1 ps] eqn:E. rewrite persist_all by done. unfold budget_armed. cbv iota.
  rewrite armed_stats. cbn [layers_restore fold_left]. unfold restoreLayerApply. cbn [l_layer l_cutoff]. rewrite next_cutoff_min by apply keeps.
  replace g1 with (armToolResultBudget config homedir path_join sha256_hex snipHint g (history c) (next_cutoff c (b_keepRecentMessages (toolResultBudget config)))).1 by by rewrite E.
  clear E. armed_cases H. unfold armToolResultBudget. destruct homedir; done.
Qed.

Lemma clear_restored g g' maxSize force : armed g = armed g' ->
  let '(g1, rs) := tryArmPinpointClear config g c maxSize force in
  armed g1 = armed (layers_restore (history c) g' rs).
Proof.
  intros H. unfold tryArmPinpointClear. cbv zeta. destruct (negb _); [done|]. cbv iota. rewrite armed_stats.
  cbn [layers_restore fold_left]. unfold restoreLayerApply. cbn [l_layer l_cutoff]. rewrite next_cutoff_min by apply keeps. by armed_cases H.
Qed.

Lemma layers_restored w force g g' maxSize : (forall p x, w p x = true) -> armed g = armed g' ->
  let '(g1, rs) := arm_layers config homedir path_join sha256_hex snipHint w force g c maxSize in
  armed g1 = armed (layers_restore (history c) g' rs).
Proof.
  intros Hw H. unfold arm_layers. destruct (maxSize <=? 0); [done|].
  pose proof (budget_restored w g g' maxSize force Hw H) as H1. destruct (tryArmToolResultBudget _ _ _ _ _ _ _ _ _ _) as [g1 r1].
  pose proof (clear_restored g1 _ maxSize force H1) as H2. destruct (tryArmPinpointClear _ _ _ _ _) as [g2 r2].
  unfold layers_restore in *. by rewrite fold_left_app.
Qed.

Lemma drain_restored g g' gap req : 0 <= drainCutoff g -> armed g = armed g' ->
  let '(g1, rs, _) := armPtlDrain config g (history c) gap req in
  armed g1 = armed (layers_restore (history c) g' rs) /\ 0 <= drainCutoff g1.
Proof.
  intros Hd H. pose proof (drain_exact config g (history c) gap req Hd) as Hs. cbv zeta in Hs.
  destruct (armPtlDrain config g (history c) gap req) as [[g1 rs] ok] eqn:E. destruct ok; [|by destruct Hs as (-> & -> & _)].
  destruct Hs as ((Hc & m & Hm & _) & _ & _ & -> & _). split; [|unfold drain_start, blen in Hc; lia].
  assert (armed g1 = armed (with_drain g (drainCutoff g1))) as ->.
  { unfold armPtlDrain in E. destruct (negb (d_enabled _)); [done|]. destruct (drain_rounds _ _ _ _ _ _ _) as [[cut n] cov].
    destruct ((n =? 0) || _); [done|]. injection E as <- _. done. }
  apply lookup_lt_Some in Hm. cbn [layers_restore fold_left]. unfold restoreLayerApply. cbn [l_layer l_cutoff].
  assert (drainCutoff g = drainCutoff g') as Ed by by armed_cases H. rewrite <- Ed, Z.min_l by (unfold blen; lia).
  rewrite Z.max_r; [by armed_cases H|]. unfold drain_start, blen in Hc. lia.
Qed.
End arming.

(** No file write fails, and no result of a call comes after it was closed. *)
Definition session_op_ok (s : session) (o : session_op) : Prop :=
  match o with
  | Conversation _ o => op_on_time (s_agent s) o
  | BeforeStep w _ | Overflow w _ => forall p x, w p x = true
  | Drain _ _ => True
  end.

Fixpoint session_ok (s : session) (ops : list session_op) : Prop :=
  match ops with [] => True | o :: ops' => session_op_ok s o /\ session_ok (session_step s o).1 ops' end.

Hypothesis keeps : 0 <= b_keepRecentMessages (toolResultBudget config) /\ 0 <= c_keepRecentMessages (pinpointClear config).

Lemma arm_layers_drain w force g c maxSize :
  drainCutoff (arm_layers config homedir path_join sha256_hex snipHint w force g c maxSize).1 = drainCutoff g.
Proof.
  assert (Hp : forall ps g, drainCutoff (persistBudgetReplacements w g ps) = drainCutoff g).
  { induction ps as [|p ps IH]; intros g1; [done|]. unfold persistBudgetReplacements in *. cbn [fold_left]. rewrite IH. unfold persist_one. by destruct (w _ _). }
  unfold arm_layers. destruct (maxSize <=? 0); [done|].
  assert (H1 : drainCutoff (tryArmToolResultBudget config homedir path_join sha256_hex snipHint w g c maxSize force).1 = drainCutoff g).
  { unfold tryArmToolResultBudget. cbv zeta. destruct (negb _); [done|]. unfold armToolResultBudget. destruct homedir; cbn [fst]; unfold budget_armed; cbn; first [exact (Hp _ _)|done]. }
  destruct (tryArmToolResultBudget _ _ _ _ _ _ _ _ _ _) as [g1 r1]. cbn in H1. rewrite <- H1.
  assert (H2 : drainCutoff (tryArmPinpointClear config g1 c maxSize force).1 = drainCutoff g1) by (unfold tryArmPinpointClear; cbv zeta; by destruct (negb _)).
  by destruct (tryArmPinpointClear _ _ _ _ _).
Qed.

Lemma step_replayed o s s' trs : sagree s s' -> NoDup (pending (ctx (s_agent s))) -> 0 <= drainCutoff (s_layers s) -> session_op_ok s o ->
  let '(s1, rs) := session_step s o in
  NoDup (pending (ctx (s_agent s1))) /\ 0 <= drainCutoff (s_layers s1) /\ (trs.*2 = rs -> sagree s1 (session_replay s' trs)).
Proof.
  intros Hs N Hd Ho. pose proof (sagree_history _ _ Hs) as Hh.
  assert (Hl : forall g1 rs, armed g1 = armed (layers_restore (history (ctx (s_agent s))) (s_layers s') rs) ->
    trs.*2 = LayerRecord <$> rs -> sagree (on_layers s g1) (session_replay s' trs)).
  { intros g1 rs H E. rewrite (layers_replayed trs s' rs E), <- Hh. split; [apply Hs|done]. }
  destruct o as [now o|w maxSize|w maxSize|gap req].
  - pose proof (conversation_replayed now o s s' trs Hs N Ho) as H. destruct (session_step s _) as [s1 rs]. destruct H as (H1 & H2 & H3). auto.
  - cbn [session_step]. pose proof (layers_restored (ctx (s_agent s)) keeps w false (s_layers s) (s_layers s') maxSize Ho (sa_layers _ _ Hs)) as H.
    pose proof (arm_layers_drain w false (s_layers s) (ctx (s_agent s)) maxSize) as Hd'.
    destruct (arm_layers _ _ _ _ _ _ _ _ _ _) as [g1 rs]. cbn [fst] in Hd'. split_and!; [done|cbn; by rewrite Hd'|by apply Hl].
  - cbn [session_step]. unfold armForOverflow. pose proof (layers_restored (ctx (s_agent s)) keeps w true (s_layers s) (s_layers s') maxSize Ho (sa_layers _ _ Hs)) as H.
    pose proof (arm_layers_drain w true (s_layers s) (ctx (s_agent s)) maxSize) as Hd'.
    destruct (arm_layers _ _ _ _ _ _ _ _ _ _) as [g1 rs]. cbn [fst] in Hd'. split_and!; [done|cbn; by rewrite Hd'|by apply Hl].
  - cbn [session_step]. pose proof (drain_restored (ctx (s_agent s)) (s_layers s) (s_layers s') gap req Hd (sa_layers _ _ Hs)) as H.
    destruct (armPtlDrain _ _ _ _ _) as [[g1 rs] ok]. destruct H as [H1 H2]. split_and!; [done|done|by apply Hl].
Qed.

Lemma session_run_replayed ops : forall s s' trs, sagree s s' -> NoDup (pending (ctx (s_agent s))) -> 0 <= drainCutoff (s_layers s) -> session_ok s ops ->
  trs.*2 = (session_run s ops).2 -> sagree (session_run s ops).1 (session_replay s' trs).
Proof.
  induction ops as [|o ops IH]; intros s s' trs Hs N Hd Ho; cbn [session_run]; [cbn; intros E; by apply fmap_nil_inv in E as ->|].
  destruct Ho as [Ho Hos]. destruct (session_step s o) as [s1 r1] eqn:E1. destruct (session_run s1 ops) as [s2 r2] eqn:E2. cbn [fst snd].
  intros E. apply fmap_app_inv in E as (t1 & t2 & -> & -> & ->). unfold session_replay. rewrite fold_left_app.
  pose proof (step_replayed o s s' t1 Hs N Hd Ho) as H. rewrite E1 in H. destruct H as (N1 & Hd1 & H).
  specialize (IH s1 (session_replay s' t1) t2 (H eq_refl) N1 Hd1 Hos). rewrite E2 in IH. by apply IH.
Qed.

(** C24. A restart sends the same requests. For any session on a new conversation, whose
    operations, steps, overflows and drains come in any order, replaying what was logged
    arms the same layers on the same history: the same results are replaced, the same
    cleared, the same rounds drained. So the view of the next request and the count full
    compaction waits for are the same. Every file of a replaced result must have been
    written, and nothing may happen while files are written. *)
Theorem restart_keeps_view ops trs active :
  session_ok newSession ops -> trs.*2 = (session_run newSession ops).2 ->
  let s := (session_run newSession ops).1 in
  let s' := session_replay newSession trs in
  agree (s_agent s) (s_agent s') /\ armed (s_layers s) = armed (s_layers s') /\
  request_view config active (s_layers s) (ctx (s_agent s)) = request_view config active (s_layers s') (ctx (s_agent s')) /\
  effectiveTokenCount config (s_layers s) (ctx (s_agent s)) = effectiveTokenCount config (s_layers s') (ctx (s_agent s')).
Proof.
  intros Ho E s s'. destruct (session_run_replayed ops newSession newSession trs) as [Ha Hl]; [done|constructor|done|done|done|]. fold s s' in Ha, Hl.
  split_and!; [done|done| |by apply armed_effective; [|apply Ha]].
  unfold request_view. rewrite (same_entries _ _ (agree_ctx _ _ Ha)). revert Hl. generalize (s_layers s) (s_layers s'). intros g g' Hl.
  assert (forall es ss, applyPtlDrain g es ss = applyPtlDrain g' es ss) as -> by (intros es ss; by armed_cases Hl).
  unfold applyToProjection. apply list_fmap_ext. intros i m _. by armed_cases Hl.
Qed.
End session.

(** * Examples *)

Definition ex_layers : graduated_config :=
  GraduatedConfig (BudgetConfig true (7 # 10) 30 10 2 8 8) (ClearConfig true (78 # 100) 2 12 (js "[cleared]")) (DrainConfig true 1).

Definition ex_join (ps : list jsstr) : jsstr := join_with (js "/") ps.
Definition ex_hash (text : jsstr) : jsstr := string_of_int (blen text).
Definition ex_hint (name : jsstr) : option (Z * Z) := if bool_decide (name = js "Read") then Some (1, 1) else None.

(** One round: a prompt, a call and its result. *)
Definition ex_round (prompt step call result : string) : list session_op :=
  [Conversation 1 (UserMessage [TextPart (js prompt)] OUser); Conversation 2 (LoopEvent (StepBegin (js step)));
   Conversation 3 (LoopEvent (ToolCallEvent (js step) (js call) (js "Grep") None));
   Conversation 4 (LoopEvent (ToolResultEvent (js call) (OutText (js result)) None None));
   Conversation 5 (LoopEvent (StepEnd (js step) None))].

Definition ex_written (path text : jsstr) : bool := true.

Definition ex_rounds : list session_op :=
  ex_round "first" "s1" "c1" "a result that is too long for the budget of this example and then some" ++
  ex_round "second" "s2" "c2" "another result that is quite a bit longer than forty characters" ++
  ex_round "third" "s3" "c3" "short".

Definition ex_ops : list session_op :=
  ex_rounds ++ [BeforeStep ex_written 40; Drain (Some 4) 60; Conversation 6 (UserMessage [TextPart (js "fourth")] OUser);
                Overflow ex_written 1000; Conversation 7 (Undo 1)].

Abbreviation ex_run ops :=
  (session_run [] [] ex_layers (Some (js "/home")) ex_join ex_hash ex_hint newSession ops).
Abbreviation ex_replay log :=
  (session_replay [] ex_layers (Some (js "/home")) ex_join ex_hash ex_hint newSession (pair 0 <$> log)).

Definition ex_view (s : session) : list message := base <$> request_view ex_layers None (s_layers s) (ctx (s_agent s)).

Definition summary_of (m : message) : msg_role * jsstr := (role m, take 24 (extractTextOnly (content m))).

(** The layers at work: the first round is drained, the second result is cleared. *)
Example layers_at_work :
  (summary_of <$> ex_view (ex_run (ex_rounds ++ [Overflow ex_written 1000])).1) =
    [(User, js "first"); (Assistant, []); (ToolRole, js "[cleared]"); (User, js "second"); (Assistant, []); (ToolRole, js "[cleared]");
     (User, js "third"); (Assistant, []); (ToolRole, js "short")] /\
  (summary_of <$> ex_view (ex_run ex_ops).1) = [(User, js "second"); (Assistant, []); (ToolRole, js "[cleared]"); (User, js "third"); (Assistant, []); (ToolRole, js "short")].
Proof. vm_compute. split; reflexivity. Qed.

(** A result whose file could not be written keeps its content, but the record of the
    layer is still logged: after a restart the request points the model to a file that
    does not exist. *)
Definition ex_budget_only : graduated_config :=
  GraduatedConfig (toolResultBudget ex_layers) (ClearConfig false 1 2 12 []) (ptlDrain ex_layers).

Definition ex_unwritten (path text : jsstr) : bool := false.

Example failed_write_restored :
  let r := session_run [] [] ex_budget_only (Some (js "/home")) ex_join ex_hash ex_hint newSession (ex_rounds ++ [BeforeStep ex_unwritten 40]) in
  let s' := session_replay [] ex_budget_only (Some (js "/home")) ex_join ex_hash ex_hint newSession (pair 0 <$> r.2) in
  budgetReplacements (s_layers r.1) = ∅ /\
  budgetReplacements (s_layers s') !! js "c1" =
    Some [TextPart (renderPersistedToolResult (js "c1") None (js "a result that is too long for the budget of this example and then some")
                      (js "/home/tool-results/c1-70.txt") (base_thresholds ex_budget_only))].
Proof. vm_compute. split; reflexivity. Qed.

(** An undo shortens the drain's cutoff to the length of what is left, so everything left
    counts as drained. The request first shows all of it again, and from the next message
    on none of it. *)
Example undo_behind_drain :
  let s1 := (ex_run (ex_rounds ++ [Drain (Some 4) 60; Conversation 6 (Undo 2)])).1 in
  let s2 := (ex_run (ex_rounds ++ [Drain (Some 4) 60; Conversation 6 (Undo 2); Conversation 7 (UserMessage [TextPart (js "again")] OUser)])).1 in
  (summary_of <$> ex_view s1) = [(User, js "first"); (Assistant, []); (ToolRole, js "a result that is too lon")] /\
  length (history (ctx (s_agent s2))) = 4%nat /\ (summary_of <$> ex_view s2) = [(User, js "again")].
Proof. vm_compute. split_and!; reflexivity. Qed.

(** * Witnesses *)


Definition ex_conversation : list (Z * op) := omap (fun o => match o with Conversation now o => Some (now, o) | _ => None end) ex_rounds.

Definition ex_armed : graduated := s_layers (ex_run (ex_rounds ++ [Drain (Some 4) 60; Overflow ex_written 1000])).1.

Lemma rewritten_view_sendable_witness :
  let c := ctx (live_all [] [] (Agent empty_context None) ex_conversation) in
  drainCutoff ex_armed = 3 /\ exists out an, strictMessages ex_layers None ex_armed c = Ok (out, an) /\ exchange_ok false [] out = true.
Proof.
  intros c. assert (Ho : Forall (fun o => op_outside o.2) ex_conversation) by (by repeat constructor).
  assert (Hd : NoDup (all_call_ids (base <$> history c))) by (apply (bool_decide_eq_true_1 _); vm_compute; reflexivity).
  split; [vm_compute; reflexivity|].
  destruct (rewritten_view_sendable [] [] ex_conversation ex_layers None ex_armed Ho (or_intror Hd)) as (out & an & H1 & H2 & _).
  exists out, an. split; [exact H1|exact H2].
Defined.

Lemma savings_are_exact_witness :
  let c := ctx (live_all [] [] (Agent empty_context None) ex_conversation) in
  plain c /\ (0 < drainCutoff ex_armed < blen (history c)) /\
  effectiveTokenCount ex_layers ex_armed c =
    Z.min (estimateTokensForMessages (base <$> history c)) (estimateTokensForMessages (base <$> request_view ex_layers None ex_armed c)).
Proof.
  intros c. assert (Hp : plain c) by (apply (bool_decide_eq_true_1 _); vm_compute; reflexivity).
  assert (Hd : 0 < drainCutoff ex_armed < blen (history c)) by (vm_compute; auto).
  split; [exact Hp|]. split; [exact Hd|].
  refine (proj2 (savings_are_exact [] [] ex_conversation ex_layers ex_armed Hp (or_intror Hd) _) _ _ _).
  all: vm_compute; (reflexivity || congruence).
Defined.

Lemma restart_keeps_view_witness :
  let s := (ex_run ex_ops).1 in
  let s' := ex_replay (ex_run ex_ops).2 in
  session_ok [] [] ex_layers (Some (js "/home")) ex_join ex_hash ex_hint newSession ex_ops /\ ex_view s = ex_view s'.
Proof.
  intros s s'. assert (H : session_ok [] [] ex_layers (Some (js "/home")) ex_join ex_hash ex_hint newSession ex_ops).
  { vm_compute. intuition auto. }
  split; [exact H|].
  assert (K : 0 <= b_keepRecentMessages (toolResultBudget ex_layers) /\ 0 <= c_keepRecentMessages (pinpointClear ex_layers)) by (split; vm_compute; congruence).
  assert (E : (pair 0 <$> (ex_run ex_ops).2).*2 = (ex_run ex_ops).2) by (rewrite <- list_fmap_compose; apply list_fmap_id).
  pose proof (restart_keeps_view [] [] ex_layers (Some (js "/home")) ex_join ex_hash ex_hint K ex_ops (pair 0 <$> (ex_run ex_ops).2) None H E) as (_ & _ & Hv & _).
  exact (f_equal (fmap base) Hv).
Defined.
